(* ===== verification/_CoqProject ===== *)
-Q . S2P
Prelude.v
AclTypes.v
AclEvaluate.v
AclInherit.v
AclMode.v
AclShareGrant.v
HoleMap.v
JournalIndex.v
SlotTable.v
SmbWindow.v
SmbHeader.v
JournalRecord.v
LockTypes.v
LockManager.v
LockIndex.v
LockDurable.v
Deadlock.v
Chunker.v
JournalCarve.v
JournalStore.v
JournalReclaim.v
JournalRecover.v
JournalInv.v
JournalOps.v
JournalEvict.v
JournalGC.v
JournalSpec.v
JournalReplay.v
JournalDurable.v
JournalCrash.v
JournalExamples.v
MetaTypes.v
Permissions.v
Quota.v
MetaStore.v
MetaService.v
Namespace.v
FsSpec.v
StoreFacts.v
NamespaceAtomic.v
NamespaceRefine.v
NamespaceSteps.v
NamespaceExamples.v
MetaIO.v
SetAttr.v
WritePath.v
SetAttrFacts.v
IoExamples.v
Xdr.v
Nfs4Grace.v
Nfs4Types.v
Nfs41Wire.v
Nfs4State.v
Nfs41State.v
Nfs4Locks.v
Nfs4Deleg.v
Nfs4Wp.v
Nfs4Abs.v
Nfs4Quiet.v
Nfs4Refine.v
Nfs4Expiry.v
Nfs4Reach.v
Nfs41Facts.v
Nfs41Reach.v
Nfs41Replay.v
Nfs4Handlers.v
Nfs4Compound.v
Nfs4CompoundFacts.v
Nfs4Replay.v
Nfs4Examples.v
BlockCodec.v
BlockMeta.v
BlockWorld.v
BlockMaint.v
BlockInv.v
BlockSafe.v
BlockCollect.v
BlockRun.v
BlockLive.v
BlockExamples.v
