(* ===== verification/Prelude.v ===== *)
(** * DittoFS: a verification development

    DittoFS serves one file tree over NFS (v3, v4.0, v4.1) and SMB2/3.  Protocol
    adapters ([internal/adapter]) decode requests, keep protocol state (sessions,
    slots, credits, sequence windows) and call a protocol-neutral metadata service
    ([pkg/metadata]): namespace, attributes, access control lists and a unified
    lock manager shared by all protocols.  File contents go through a block layer
    ([pkg/block]): writes are appended to a local journal, an in-memory interval
    index maps file bytes to journal records, and carving cuts dirty bytes into
    content-defined chunks that are packed into remote blocks.

    Each file below models one component as Rocq definitions translated from the
    Go sources, with Go's integer widths written out where they matter, loops as
    structural or fuelled recursion, mutexes as atomic steps of a state machine,
    and errors as values; and states what makes the component correct.

    ** Shared

    - [Prelude]: machine integers ([u8]..[u64], [i64]), bit masks, little-endian
      codecs, Go's [sort] and [sort.Search], string prefix and decimal functions,
      and the tactics and hint databases the other files use.

    ** Access control ([pkg/metadata/acl])

    - [AclTypes]: ACE and ACL records, wire constants, the NFSv4/Windows flag
      translation, generic rights ([types.go], [flags.go], [generic.go]).
    - [AclEvaluate]: [Evaluate] and [EvaluateGranted] ([evaluate.go]) refine a
      bit-by-bit first-match specification with the owner's implicit rights.
    - [AclInherit]: the ACL of a new child and its re-propagation ([inherit.go]):
      exactly the applicable parent ACEs take effect; propagation is idempotent.
    - [AclMode]: mode bits and ACLs ([mode.go], [synthesize.go], [validate.go]).
    - [AclShareGrant]: the synthesized root DACL grants exactly the share grants
      ([share_grant.go]).

    ** Metadata service ([pkg/metadata]) and its store

    The service is written in a state-and-error monad over its whole state (store,
    coalesced directory times, buffered writes, quotas, clock and UUID streams);
    transactions run on a copy of the store and roll back on error.

    - [MetaTypes]: files, handles, identities, names, error codes ([file_types.go],
      [types.go], [validation.go]).
    - [Permissions]: IP addresses and client patterns ([auth_identity.go]), share
      admission, mode and ACL permission checks, SMB open access
      ([auth_permissions.go]), each characterised exactly.
    - [Quota]: usage cache, limits, grace timers ([quota_*.go]).
    - [MetaStore]: the memory store and its transactions ([store/memory]).
    - [MetaService], [Namespace]: create, link, remove, rmdir, rename and the
      recycle bin ([service.go], [file_create.go], [file_remove.go], [directory.go],
      [file_modify.go], [file_recycle.go]).
    - [FsSpec]: the abstract tree and its operations; [StoreFacts],
      [NamespaceRefine], [NamespaceSteps]: with the recycle bins off and without the two
      renames the code gets wrong (below itself, onto a directory), the service refines
      it and keeps the tree well formed; [NamespaceAtomic]: failures change nothing,
      and the rename/recycle recursion ends.
    - [MetaIO], [WritePath]: buffered and immediate writes ([io.go],
      [pending_writes.go]): buffering is equivalent to committing at once, a flush is
      invisible, a failed one loses nothing.
    - [SetAttr], [SetAttrFacts]: attribute changes and extended attributes: who may
      change what, truncation.
    - [NamespaceExamples], [IoExamples]: a sample service, the theorems applied to
      it, and runs where the code leaves its specification.

    ** Block layer ([pkg/block])

    - [HoleMap]: extents, SEEK, READ_PLUS segments, punching and merging of chunk
      lists against the set of covered bytes ([holemap.go], [types.go]).
    - [JournalIndex]: the interval index ([journal/index.go]) implements newest-wins
      per byte; reads, extents, delete and truncate against the same cells; exact
      byte counters.
    - [JournalRecord]: record framing with CRC, torn-tail recovery of a segment
      ([journal/record.go], [segment.go]).
    - [Chunker]: FastCDC boundaries against the declarative first breakpoint
      ([chunker/chunker.go]).
    - [JournalCarve]: packing a run into blocks, and the concurrent commit/flip
      workers ([journal/carve.go], [carve_dispatch.go]): an interval is marked synced
      only when the remote store holds its bytes, over all interleavings.
    - [JournalStore], [JournalReclaim], [JournalRecover]: the store around the index
      ([journal/store.go], [shard.go], [reclaim.go], [recovery.go]): appends,
      rotation, commit, cold seeding, reads with checksum verification, truncate and
      delete with their tombstone records; eviction, repacking of segments, the space
      gate; opening with the defaults and the cap derived from the free space, and
      rebuilding the index from the segments.
    - [JournalInv]: what a segment file holds as a sequence of records, the invariant that ties the index of every shard to the records
      its entries point at; [JournalOps], [JournalEvict], [JournalGC]: every
      operation, eviction and collection preserve it and what they do to the content;
      [JournalSpec]: a store refines a map from file bytes to values in which a write
      sets its range, truncate and delete clear theirs, eviction may only turn bytes
      cold (to be fetched from the remote store) and collection changes nothing;
      reads return the map; reclamation terminates; [JournalReplay]: recovery of any
      directory of segments, torn tails included, opens and serves exactly what the
      complete records in it say; [JournalDurable], [JournalCrash]: a power failure
      loses no committed data, for histories that stay under the local cap and have no
      collection and no deletion;
      [JournalExamples]: runs where the code leaves its documentation.

    - [BlockCodec]: the format of a remote block ([blockcodec/codec.go]), with plain and
      sealed record headers, and its round trip.
    - [BlockMeta]: markers, block records, manifest rows and the transaction that
      commits a block ([metadata/store/memory], [metadata/block_record_store.go]).
    - [BlockWorld]: the remote store ([remote/memory]), the shares' stores and the other
      threads of the server; programs are sequences of calls, before each of which other
      threads act, and each of which can fail, fail after its effect, or be where the
      server dies ([turn], [fate]: the schedule in the state decides).
    - [BlockMaint]: the block sink, mark and sweep, reclaiming, compaction,
      reconciliation, the verified fetch ([engine], [controlplane/runtime]).
    - [BlockInv]: the invariant (references resolve, counts cover markers, blocks hold
      their chunks) and that the other threads keep it; [BlockSafe], [BlockCollect]:
      rely-guarantee triples for every maintenance program; [BlockRun]: hence whatever
      is run, fails or crashes, what a manifest names can be fetched
      ([remote_chunks_readable], under conditions on resurrected chunks and on the grace
      period of a reconciliation); [BlockLive]: total triples of undisturbed runs, a
      dead chunk is collected ([dead_chunk_collected]); [BlockExamples]: a concrete
      server, and runs that lose data.

    ** Locks ([pkg/metadata/lock])

    - [LockTypes]: ranges, conflicts, splitting and merging ([types.go], [oplock.go],
      [delegation.go], the pure functions of [manager.go]).
    - [LockManager]: every byte-range operation of [manager.go] as a state machine
      with the memory lock store: mutual exclusion over both lock families, as long as
      ranges end within 64 bits and upgrades meet no SMB lock ([step] says exactly
      when; [to_eof_range_wraps] and the findings show why).
    - [LockIndex]: the reverse indexes never drift; client sweep.
    - [LockDurable]: the lock store mirrors memory, restart restores the locks, over the
      operations of [saved_step]; delegations are never persisted, and the sweep of a
      client with SMB locks breaks the mirror ([sweep_keeps_smb_locks]).
    - [Deadlock]: the wait-for graph and the parking of blocking SMB locks, its check and
      its record as two critical sections: no circle forms when requests park one at a
      time, one can when they race ([parking_race_deadlocks]).

    ** Protocol state

    - [SlotTable]: NFSv4.1 session slots, exactly-once execution ([slot_table.go]).
    - [Nfs4Grace]: the reclaim period after a restart ([v4/state/grace.go]) and its
      specification, the set of clients it waits for, which every run follows exactly.
    - [Nfs4Types], [Nfs4State], [Nfs4Locks], [Nfs4Deleg]: the NFSv4 state manager
      ([v4/state/manager.go], [client.go], [stateid.go], [openowner.go],
      [lockowner.go], [delegation.go], [client_recovery.go]).  Go's shared records
      are objects of a heap ([Heap]) and the manager's maps hold pointers to them, so
      aliasing is as in the source; every operation is a program of a state-and-error
      monad ([Op]) over the whole manager and the lock managers it calls.  Random
      verifiers, UUIDs, timer races and the share of a handle are an interface
      ([Nfs4Lib]).
    - [Nfs4Wp]: lock owners survive their encoding as strings, and weakest preconditions
      for [Op]; [Nfs4Abs]: the abstract machine (the
      pointer graph of the tables and nineteen transitions) with its invariant and
      the share reservations; [Nfs4Quiet], [Nfs4Refine], [Nfs4Expiry]: every
      operation is a run of abstract transitions; [Nfs4Reach]: hence any sequence of
      requests and timers keeps the tables consistent ([tables_agree]) and the share
      reservations ([share_reservations], without reclaims), and expiry releases what was
      opened under the expired record ([expiry_releases]); what each operation does to the counters.
    - [Xdr], [Nfs41Wire]: the XDR primitives ([nfs/xdr/core]) and the structures of the
      session operations ([v4/types]), with their round trips.
    - [Nfs41State]: clients, sessions and connections of NFSv4.1
      ([v4/state/v41_client.go], [session.go], [connection.go], [manager.go]) over the
      same heap style ([Server], [SOp]); [Nfs41Facts]: objects found by ID and listed by
      group, the invariant; [Nfs41Reach]: every request of both minor versions
      ([Request41]) keeps it; [Nfs41Replay]: CREATE_SESSION is executed once, the
      reaper removes what is due, the slots change by SEQUENCE and completion only.
    - [Nfs4Handlers], [Nfs4Compound]: the operation handlers ([v4/handlers],
      [v4/v41/handlers]) and the COMPOUND dispatcher ([v4/handlers/compound.go]), from
      request bytes to reply bytes.  The operations on files, layouts and extended
      attributes are tables of the [Handler] record that the theorems quantify over
      ([handler_ok]: they call the state manager a bounded number of times and do not
      touch slots); the state they share is the type parameter [X].
      [Nfs4CompoundFacts]: what the dispatcher runs and answers for any handlers
      ([compound_contract]); a COMPOUND is a list of state manager requests, the tables
      agree after any history of COMPOUNDs and a retransmitted one gets the bytes of
      the first.
    - [Nfs4Replay]: OPEN and CLOSE are executed once, TEST_STATEID agrees with use;
      [Nfs4Examples]: runs of both minor versions where the code leaves its
      documentation.
    - [SmbWindow]: SMB2 sequence window and credits ([session/]).
    - [SmbHeader]: the SMB2 header codec ([header/]).

    ** Fuel and bounds

    Loops that are not structural take fuel that is proved sufficient or chosen as
    a bound the theorems cover: [sort_search] halves an interval of the slice's
    length; the segment scan of [JournalRecord] consumes at least a header per
    record, so the segment's byte count suffices ([scan_terminates]); [canReach]
    marks a waiting owner per level, so the number of waiting owners suffices; the
    packing loop of [JournalCarve] consumes a byte per iteration
    ([carve_packs_run]), except for chunk sizes beyond its buffer, where it is
    proved never to end ([oversized_chunks_never_carve]).  Eviction, the
    space gate and collection reclaim a sealed segment per round, so the number of
    sealed segments bounds their loops; out of rounds is an error of its own
    ([ErrUnfinished]) that is proved not to occur ([reclamation_terminates]).  The mutual
    recursion of rename and recycle bin has fuel 2 ([move_recursion_bounded]: more changes
    nothing); path derivation and the search for a free bin name stop at the
    source's own limits, 4096 and 1000.
    The theorems over all NFSv4.0 runs take fewer than [2^64] requests, so that the
    stateid counter does not wrap; those over NFSv4.1 runs fewer than [2^32], so that
    client IDs do not, and random draws that do not repeat ([distinct_draws]), which
    16 random bytes promise.  A COMPOUND runs at most 128 operations, the source's limit.

    ** Not modelled

    Network and file I/O, goroutine scheduling beyond the interleavings stated,
    cryptography, compression and third-party stores (sealing a chunk is a parameter
    of [BlockWorld], with its round trip as a law); of the block engine the sweep of
    the local tier, the cache and the download queue; block identifiers are drawn from
    a supply that does not repeat, and other servers on one remote store are left out; the SQL and badger back ends;
    the control plane, command-line tools and the Kubernetes operator.  Of the
    journal store: group commit (a commit is one step), index sidecar files, errors
    of the disk, the busy flags (and the retry on a busy victim) and read guards that keep concurrent calls apart, and
    access times refreshed by reads; where the code ranges over a Go map the model
    takes the order of [map_to_list].  Of the metadata service: device numbers, read caches, flush locks and durability
    levels (transactions are atomic steps), the wire form of notifications (they
    are events of the model), and glob matching of recycle exclusions (a
    predicate); all shares are in one store.  Case folding and the content hash are
    an interface ([AttrLib]) with stated laws.  Of the NFSv4 state: callback I/O
    (the sender goroutine of a session is a flag), notification batches of directory
    delegations and shutdown; the recovery store is a map whose writes succeed.  A
    COMPOUND reads the clock once, is a step of its own, and its cancellation is a
    predicate on the operation's number.  Within the
    components above each file's comment says what it leaves out. *)

From Stdlib Require Export Btauto.
From stdpp Require Export base numbers list gmap strings.
From Stdlib Require Export ZArith Lia Sorted Permutation.
From Stdlib Require DecimalString DecimalN.

#[global] Open Scope Z_scope.

(** ** Machine-width integers

    Go's unsigned integers are kept as [Z] with the wrap-around written out:
    [u32 x] is the value of a [uint32] expression whose mathematical value is
    [x].  [in_u32 x] says that [x] is a representable [uint32]. *)

Definition wrap (w x : Z) : Z := x mod 2 ^ w.

Definition u8 (x : Z) : Z := wrap 8 x.
Definition u16 (x : Z) : Z := wrap 16 x.
Definition u32 (x : Z) : Z := wrap 32 x.
Definition u64 (x : Z) : Z := wrap 64 x.

Definition in_u8 (x : Z) : Prop := 0 <= x < 2 ^ 8.
Definition in_u16 (x : Z) : Prop := 0 <= x < 2 ^ 16.
Definition in_u32 (x : Z) : Prop := 0 <= x < 2 ^ 32.
Definition in_u64 (x : Z) : Prop := 0 <= x < 2 ^ 64.

Lemma and_iff_cond (A B C : Prop) : (A -> (B <-> C)) -> (A /\ B <-> A /\ C).
Proof. tauto. Qed.

(** Case analysis on an innermost integer comparison of the goal. *)
Ltac no_if t := lazymatch t with context [if _ then _ else _] => fail | _ => idtac end.

Ltac zcase :=
  match goal with
  | |- context [?a <=? ?b] => no_if a; no_if b; destruct (Z.leb_spec a b)
  | |- context [?a <? ?b] => no_if a; no_if b; destruct (Z.ltb_spec a b)
  | |- context [?a >? ?b] => no_if a; no_if b; rewrite (Z.gtb_ltb a b); destruct (Z.ltb_spec b a)
  | |- context [?a >=? ?b] => no_if a; no_if b; rewrite (Z.geb_leb a b); destruct (Z.leb_spec b a)
  | |- context [?a =? ?b] => no_if a; no_if b; destruct (Z.eqb_spec a b)
  end.

(** The same in a hypothesis. *)
Ltac zcase_in H :=
  match type of H with
  | context [?a <=? ?b] => no_if a; no_if b; destruct (Z.leb_spec a b)
  | context [?a <? ?b] => no_if a; no_if b; destruct (Z.ltb_spec a b)
  | context [?a >? ?b] => no_if a; no_if b; rewrite (Z.gtb_ltb a b) in H; destruct (Z.ltb_spec b a)
  | context [?a >=? ?b] => no_if a; no_if b; rewrite (Z.geb_leb a b) in H; destruct (Z.leb_spec b a)
  | context [?a =? ?b] => no_if a; no_if b; destruct (Z.eqb_spec a b)
  end.

(** [^uint64(0)], [^uint32(0)]. *)
Definition max_u64 : Z := 2 ^ 64 - 1.
Definition max_u32 : Z := 2 ^ 32 - 1.

Lemma wrap_range w x : 0 <= w -> 0 <= wrap w x < 2 ^ w.
Proof. intros. apply Z.mod_pos_bound. lia. Qed.

Lemma wrap_small w x : 0 <= x < 2 ^ w -> wrap w x = x.
Proof. apply Z.mod_small. Qed.

Lemma u64_small x : in_u64 x -> u64 x = x.
Proof. apply wrap_small. Qed.

Lemma u64_range x : in_u64 (u64 x).
Proof. apply wrap_range. lia. Qed.

Lemma u32_small x : in_u32 x -> u32 x = x.
Proof. apply wrap_small. Qed.

Lemma u32_range x : in_u32 (u32 x).
Proof. apply wrap_range. lia. Qed.

(** [u64 x] is [x], or [x] off by one or more multiples of [2^64]; the two
    cases that occur after one addition or subtraction. *)
Lemma u64_add_case x y :
  in_u64 x -> in_u64 y ->
  u64 (x + y) = x + y /\ x + y < 2 ^ 64 \/
  u64 (x + y) = x + y - 2 ^ 64 /\ 2 ^ 64 <= x + y.
Proof.
  unfold in_u64, u64, wrap. intros Hx Hy.
  destruct (Z.lt_ge_cases (x + y) (2 ^ 64)) as [H|H].
  - left. split; [apply Z.mod_small|]; lia.
  - right. split; [|lia].
    rewrite <- (Z.mod_small (x + y - 2 ^ 64) (2 ^ 64)) by lia.
    rewrite Zminus_mod, Z_mod_same_full, Z.sub_0_r, Z.mod_mod by lia. reflexivity.
Qed.

(** ** Go's bit operations

    [x & y], [x | y] and [x &^ y] on unsigned operands are [Z.land], [Z.lor]
    and [Z.ldiff]; [x & y != 0] is [has x y]. *)

Declare Scope go_scope.
Delimit Scope go_scope with go.
Notation "x .& y" := (Z.land x y) (at level 40, left associativity) : go_scope.
Notation "x .| y" := (Z.lor x y) (at level 50, left associativity) : go_scope.
Notation "x .&^ y" := (Z.ldiff x y) (at level 40, left associativity) : go_scope.
#[global] Open Scope go_scope.

Definition has (x y : Z) : bool := negb (Z.land x y =? 0).

Lemma has_lor x y g : has (x .| y) g = has x g || has y g.
Proof.
  unfold has. rewrite Z.land_lor_distr_l, <- negb_andb. f_equal.
  apply eq_true_iff_eq. rewrite andb_true_iff, !Z.eqb_eq. apply Z.lor_eq_0_iff.
Qed.

Lemma has_comm x y : has x y = has y x.
Proof. unfold has. now rewrite Z.land_comm. Qed.

(** A mask without the bits of another has none of them in common with what
    that one has none in common with. *)
Lemma has_narrow x y g : x .&^ y = 0 -> has y g = false -> has x g = false.
Proof.
  unfold has. rewrite !negb_false_iff, !Z.eqb_eq. intros Hx Hy. apply Z.bits_inj'. intros i Hi.
  apply (f_equal (fun z => Z.testbit z i)) in Hx, Hy. rewrite Z.ldiff_spec, Z.bits_0 in Hx.
  rewrite Z.land_spec, Z.bits_0 in Hy |- *. destruct (Z.testbit x i), (Z.testbit y i); cbn in *; congruence.
Qed.

Create HintDb go discriminated.
Create Rewrite HintDb zbits.

#[export] Hint Rewrite Z.land_spec Z.lor_spec Z.ldiff_spec Z.lxor_spec
  Z.bits_0 : zbits.
#[export] Hint Resolve u64_range u32_range : go.

(** [bitwise] proves an equality of [Z] built from [&], [|] and [&^]. *)
Ltac bitwise :=
  apply Z.bits_inj'; intros ?i ?Hi; autorewrite with zbits; try btauto.

Lemma has_pow2 x k : 0 <= k -> has x (2 ^ k) = Z.testbit x k.
Proof.
  intros Hk. unfold has. destruct (Z.testbit x k) eqn:E.
  - apply negb_true_iff, Z.eqb_neq. intros H.
    assert (Z.testbit (x .& 2 ^ k) k = false) as Hb by (rewrite H; apply Z.bits_0).
    rewrite Z.land_spec, Z.pow2_bits_true, E in Hb by lia. discriminate.
  - apply negb_false_iff, Z.eqb_eq. apply Z.bits_inj'. intros i Hi.
    rewrite Z.land_spec, Z.bits_0. destruct (Z.eq_dec i k) as [->|Hne].
    + now rewrite E.
    + now rewrite Z.pow2_bits_false, andb_false_r by lia.
Qed.

Lemma land_eq_iff_bits x m :
  (x .& m =? m) = true <-> forall i, 0 <= i -> Z.testbit m i = true -> Z.testbit x i = true.
Proof.
  rewrite Z.eqb_eq. split.
  - intros H i Hi Hm. rewrite <- H, Z.land_spec in Hm. now apply andb_true_iff in Hm as [].
  - intros H. apply Z.bits_inj'. intros i Hi. rewrite Z.land_spec.
    destruct (Z.testbit m i) eqn:E; [|apply andb_false_r]. now rewrite H by auto.
Qed.

Lemma testbit_above_width c w i : 0 <= c < 2 ^ w -> w <= i -> Z.testbit c i = false.
Proof.
  intros Hc Hi. destruct (Z.lt_ge_cases w 0).
  { rewrite Z.pow_neg_r in Hc by lia. lia. }
  rewrite <- (Z.mod_small c (2 ^ w)) by lia. apply Z.mod_pow2_bits_high. lia.
Qed.

Lemma has_land x m c : c .& m = c -> has (x .& m) c = has x c.
Proof. intros Hc. unfold has. rewrite <- Z.land_assoc, (Z.land_comm m), Hc. reflexivity. Qed.

Lemma land_ones_bound x k : 0 <= k -> 0 <= x .& Z.ones k < 2 ^ k.
Proof. intros. rewrite Z.land_ones by lia. apply Z.mod_pos_bound. lia. Qed.

(** Exhaustive checks over a small domain. *)
Definition all_below (n : Z) (f : Z -> bool) : bool := forallb f (seqZ 0 n).

Lemma all_below_spec n f :
  all_below n f = true -> forall x, 0 <= x < n -> f x = true.
Proof.
  unfold all_below. rewrite forallb_forall. intros H x Hx. apply H.
  apply list_elem_of_In, elem_of_seqZ. lia.
Qed.

(** Conditional OR: [if c { acc |= bits }]. *)
Definition or_if (c : bool) (bits acc : Z) : Z := if c then acc .| bits else acc.

Lemma or_if_spec c bits acc i :
  Z.testbit (or_if c bits acc) i = Z.testbit acc i || (c && Z.testbit bits i).
Proof. destruct c; simpl; [apply Z.lor_spec | now rewrite orb_false_r]. Qed.
#[export] Hint Rewrite or_if_spec : zbits.

(** ** Strings

    Go strings are byte sequences; [string] of the Standard Library is a list
    of 8-bit characters. *)

(** [strings.HasPrefix(s, p)] together with the rest [s[len(p):]]. *)
Fixpoint cut_prefix (p s : string) : option string :=
  match p, s with
  | EmptyString, _ => Some s
  | String a p', String b s' => if Ascii.eqb a b then cut_prefix p' s' else None
  | String _ _, EmptyString => None
  end.

Definition has_prefix (s p : string) : bool :=
  match cut_prefix p s with Some _ => true | None => false end.

(** [strings.CutSuffix(s, suf)]. *)
Fixpoint cut_suffix (s suf : string) : option string :=
  if String.eqb s suf then Some EmptyString else
  match s with
  | EmptyString => None
  | String a s' => option_map (String a) (cut_suffix s' suf)
  end.

Definition is_digit (a : Ascii.ascii) : bool :=
  let n := Ascii.N_of_ascii a in ((48 <=? n) && (n <=? 57))%N.

(** [fmt.Sprintf("%d", n)] for an unsigned [n]. *)
Definition dec_string (n : N) : string :=
  DecimalString.NilEmpty.string_of_uint (N.to_uint n).

(** [strconv.ParseUint(s, 10, bits)]: digits only, at least one, and the value
    fits in [bits] bits. *)
Definition parse_uint (s : string) (bits : Z) : option Z :=
  match s with
  | EmptyString => None
  | _ =>
      match DecimalString.NilEmpty.uint_of_string s with
      | None => None
      | Some d =>
          let n := Z.of_N (N.of_uint d) in
          if n <? 2 ^ bits then Some n else None
      end
  end.

Lemma string_length_app s t : String.length (s +:+ t) = (String.length s + String.length t)%nat.
Proof. induction s; simpl; auto. Qed.

Lemma cut_suffix_app s suf : cut_suffix (s +:+ suf) suf = Some s.
Proof.
  induction s as [|a s IH].
  - destruct suf; simpl; [reflexivity|]. now rewrite Ascii.eqb_refl, String.eqb_refl.
  - change (String a s +:+ suf) with (String a (s +:+ suf)).
    cbn [cut_suffix]. rewrite IH.
    destruct (String.eqb_spec (String a (s +:+ suf)) suf) as [E|_]; [|reflexivity].
    apply (f_equal String.length) in E. simpl in E. rewrite string_length_app in E. lia.
Qed.

Lemma cut_prefix_app p s : cut_prefix p (p +:+ s) = Some s.
Proof. induction p as [|a p IH]; simpl; [reflexivity|]. now rewrite Ascii.eqb_refl. Qed.

Lemma cut_prefix_Some p s r : cut_prefix p s = Some r -> s = p +:+ r.
Proof.
  revert s. induction p as [|a p IH]; intros s H.
  { injection H as ->. reflexivity. }
  simpl in H. revert H. destruct s as [|b s]; [discriminate|].
  destruct (Ascii.eqb_spec a b) as [->|]; [|discriminate]. intros H.
  rewrite (IH _ H). reflexivity.
Qed.

Lemma dec_string_nonempty n : dec_string n <> EmptyString.
Proof.
  unfold dec_string. intros H.
  assert (N.to_uint n = Decimal.Nil) as E.
  { pose proof (DecimalString.NilEmpty.usu (N.to_uint n)) as U. rewrite H in U.
    simpl in U. congruence. }
  pose proof (DecimalN.Unsigned.of_to n) as O. rewrite E in O. simpl in O. subst n.
  discriminate E.
Qed.

Lemma parse_uint_dec n bits :
  0 <= n < 2 ^ bits -> parse_uint (dec_string (Z.to_N n)) bits = Some n.
Proof.
  intros Hn. unfold parse_uint.
  destruct (dec_string (Z.to_N n)) eqn:E; [now apply dec_string_nonempty in E|].
  rewrite <- E. unfold dec_string. rewrite DecimalString.NilEmpty.usu, DecimalN.Unsigned.of_to.
  rewrite Z2N.id by lia. destruct (Z.ltb_spec n (2 ^ bits)); [reflexivity|lia].
Qed.

Lemma string_app_cons_inv a s t u :
  String a s = t +:+ u -> t <> EmptyString -> exists t', t = String a t' /\ s = t' +:+ u.
Proof. destruct t as [|b t']; intros H ?; [easy|]. injection H as <- ->. eauto. Qed.

(** ** Sorting

    [sort.Slice], [sort.Strings] and [slices.SortFunc] as insertion sort by a
    strict comparison.  (Go's unstable sorts may order equal elements
    differently; every use below is on distinct keys, or the result does not
    depend on the order of equal keys.) *)

Fixpoint insert_by {A} (lt : A -> A -> bool) (x : A) (l : list A) : list A :=
  match l with
  | [] => [x]
  | y :: r => if lt y x then y :: insert_by lt x r else x :: y :: r
  end.

Definition sort_by {A} (lt : A -> A -> bool) (l : list A) : list A :=
  fold_right (insert_by lt) [] l.

Lemma insert_by_perm {A} (lt : A -> A -> bool) x l : Permutation (x :: l) (insert_by lt x l).
Proof.
  induction l as [|y r IH]; [reflexivity|]. cbn. destruct (lt y x); [|reflexivity].
  rewrite <- IH. apply perm_swap.
Qed.

Lemma sort_by_perm {A} (lt : A -> A -> bool) l : Permutation l (sort_by lt l).
Proof.
  induction l as [|x l IH]; [reflexivity|]. cbn. rewrite <- insert_by_perm. now constructor.
Qed.

Definition key_lt {A} (f : A -> Z) (a b : A) : bool := f a <? f b.

Lemma insert_by_sorted {A} (f : A -> Z) x l :
  StronglySorted (fun a b => f a <= f b) l ->
  StronglySorted (fun a b => f a <= f b) (insert_by (key_lt f) x l).
Proof.
  induction 1 as [|y r Hr IH Hy]; cbn; [repeat constructor|].
  unfold key_lt at 1. destruct (Z.ltb_spec (f y) (f x)).
  - constructor; [exact IH|].
    eapply Permutation_Forall; [apply insert_by_perm|]. constructor; [lia|exact Hy].
  - constructor; [constructor; assumption|]. constructor; [lia|].
    eapply Forall_impl; [exact Hy|]. cbn. lia.
Qed.

Lemma sort_by_sorted {A} (f : A -> Z) l :
  StronglySorted (fun a b => f a <= f b) (sort_by (key_lt f) l).
Proof. induction l; cbn; [constructor|]. now apply insert_by_sorted. Qed.

Lemma elem_of_sort_by {A} (lt : A -> A -> bool) x l : In x (sort_by lt l) <-> In x l.
Proof.
  split; intros H; (eapply Permutation_in; [|exact H]); [symmetry|]; apply sort_by_perm.
Qed.

Lemma StronglySorted_perm_sym {A} (R : A -> A -> Prop) l l' :
  (forall a b, R a b -> R b a) -> Permutation l l' -> StronglySorted R l -> StronglySorted R l'.
Proof.
  intros Hsym. induction 1 as [|x l l' P IH|x y l|]; intros Hs; auto.
  - apply StronglySorted_inv in Hs as [Hs Hx]. constructor; [auto|]. eapply Permutation_Forall; eauto.
  - apply StronglySorted_inv in Hs as [Hs Hx]. apply StronglySorted_inv in Hs as [Hs Hy].
    apply Forall_cons in Hx as [Hxy Hx]. repeat constructor; auto.
Qed.

Lemma StronglySorted_app_intro {A} (R : A -> A -> Prop) l l' :
  StronglySorted R l -> StronglySorted R l' -> (forall a b, In a l -> In b l' -> R a b) ->
  StronglySorted R (l ++ l').
Proof.
  induction 1 as [|x l Hl IH Hx]; intros Hl' Hr; cbn; [assumption|].
  constructor; [apply IH; [assumption|intros; apply Hr; cbn; auto]|].
  apply Forall_app. split; [assumption|]. apply List.Forall_forall. intros y Hy. apply Hr; cbn; auto.
Qed.

Lemma StronglySorted_filter {A} (R : A -> A -> Prop) f l :
  StronglySorted R l -> StronglySorted R (List.filter f l).
Proof.
  induction 1 as [|x l Hl IH Hx]; cbn; [constructor|]. destruct (f x); [|assumption].
  constructor; [assumption|]. rewrite List.Forall_forall in *.
  intros y Hy. apply filter_In in Hy as [Hy _]. auto.
Qed.


(** Sorting by start a list of pairwise disjoint, non-empty ranges
    [off a, off a + len a) puts each one wholly before the next. *)
Lemma sort_apart_sorted {A} (off len : A -> Z) l :
  let before a b := off a + len a <= off b in
  StronglySorted (fun a b => before a b \/ before b a) l -> Forall (fun a => 0 < len a) l ->
  StronglySorted before (sort_by (key_lt off) l).
Proof.
  intros before Ha Hn. pose proof (sort_by_perm (key_lt off) l) as P.
  pose proof (fun H => StronglySorted_perm_sym (fun a b => before a b \/ before b a) _ _ H P Ha) as Ha'.
  specialize (Ha' ltac:(cbv beta; tauto)).
  pose proof (Permutation_Forall P Hn) as Hn'.
  pose proof (sort_by_sorted off l) as Hs. clear P Ha Hn.
  induction Hs as [|x r Hs IH Hx]; [constructor|].
  apply StronglySorted_inv in Ha' as [Ha' Hax]. apply Forall_cons in Hn' as [Hnx Hn'].
  constructor; [apply IH; assumption|]. rewrite List.Forall_forall in *. intros y Hy.
  specialize (Hax y Hy). specialize (Hx y Hy). specialize (Hn' y Hy). subst before. cbv beta in *. lia.
Qed.

(** ** Signed 64-bit integers and binary search *)

Definition i64 (x : Z) : Z := (x + 2 ^ 63) mod 2 ^ 64 - 2 ^ 63.
Definition in_i64 (x : Z) : Prop := - 2 ^ 63 <= x < 2 ^ 63.

Lemma i64_u64 x : in_i64 x -> i64 (u64 x) = x.
Proof. unfold in_i64, i64, u64, wrap. intros H. rewrite Zplus_mod_idemp_l, Z.mod_small by lia. lia. Qed.

Lemma i64_small x : in_i64 x -> i64 x = x.
Proof. unfold in_i64, i64. intros. rewrite Z.mod_small by lia. lia. Qed.

(** Go's [sort.Search(n, f)]: the loop [i, j := 0, n; for i < j]. *)
Fixpoint search_loop (fuel : nat) (f : nat -> bool) (i j : nat) : nat :=
  match fuel with
  | O => i
  | S fuel =>
      if (i <? j)%nat then
        let h := Nat.div2 (i + j) in
        if f h then search_loop fuel f i h else search_loop fuel f (S h) j
      else i
  end.

(** The range [i, j) shrinks at every iteration, so [n] iterations suffice. *)
Definition sort_search (n : nat) (f : nat -> bool) : nat := search_loop n f 0 n.

Lemma search_loop_spec fuel f i j :
  (i <= j)%nat -> (j - i <= fuel)%nat ->
  (forall a b, (a <= b < j)%nat -> f a = true -> f b = true) ->
  let k := search_loop fuel f i j in
  (i <= k <= j)%nat /\ (forall a, (i <= a < k)%nat -> f a = false) /\
  (forall a, (k <= a < j)%nat -> f a = true).
Proof.
  revert i j. induction fuel as [|fuel IH]; intros i j Hij Hf Hm; cbn [search_loop].
  { split_and!; intros; lia. }
  destruct (Nat.ltb_spec i j); [|split_and!; intros; lia].
  pose proof (Nat.div2_div (i + j)) as Hdiv.
  assert (Hh : (i <= Nat.div2 (i + j) < j)%nat).
  { rewrite Hdiv. split; [apply Nat.div_le_lower_bound; lia|apply Nat.Div0.div_lt_upper_bound; lia]. }
  cbv zeta. set (h := Nat.div2 (i + j)) in *. clearbody h. destruct (f h) eqn:E.
  - destruct (IH i h) as (? & ? & Ht); [lia|lia|intros a b ? ?; apply (Hm a b); [lia|assumption]|].
    split_and!; [lia|lia|assumption|]. intros a Ha.
    destruct (Nat.lt_ge_cases a h); [apply Ht; lia|apply (Hm h a); [lia|assumption]].
  - destruct (IH (S h) j) as (? & Hlow & ?); [lia|lia|assumption|].
    split_and!; [lia|lia| |assumption]. intros a Ha.
    destruct (Nat.le_gt_cases a h) as [Hle|]; [|apply Hlow; lia].
    destruct (f a) eqn:Ea; [|reflexivity]. now rewrite (Hm a h) in E by (auto; lia).
Qed.

(** On a monotone predicate the search finds the first index where it holds. *)
Lemma sort_search_spec n f :
  (forall a b, (a <= b < n)%nat -> f a = true -> f b = true) ->
  let k := sort_search n f in
  (k <= n)%nat /\ (forall a, (a < k)%nat -> f a = false) /\
  (forall a, (k <= a < n)%nat -> f a = true).
Proof.
  intros Hm. destruct (search_loop_spec n f 0 n) as (? & Hl & Hr); [lia|lia|assumption|].
  unfold sort_search. split_and!; auto; [lia|]. intros a Ha. apply Hl. lia.
Qed.

(** ** Little-endian integers

    [binary.LittleEndian]: bytes are integers in [0, 256). *)

Fixpoint le_encode (n : nat) (x : Z) : list Z :=
  match n with
  | O => []
  | S n => x mod 256 :: le_encode n (x / 256)
  end.

Fixpoint le_decode (bs : list Z) : Z :=
  match bs with
  | [] => 0
  | b :: r => b + 256 * le_decode r
  end.

Definition is_byte (b : Z) : Prop := 0 <= b < 256.

Lemma le_encode_length n x : length (le_encode n x) = n.
Proof. revert x. induction n; intros; cbn; auto. Qed.

Lemma le_encode_bytes n x : Forall is_byte (le_encode n x).
Proof.
  revert x. induction n; intros; cbn; constructor; auto. unfold is_byte. apply Z.mod_pos_bound. lia.
Qed.

Lemma le_decode_encode n x : 0 <= x < 256 ^ Z.of_nat n -> le_decode (le_encode n x) = x.
Proof.
  revert x. induction n as [|n IH]; intros x Hx; cbn [le_encode le_decode].
  { change (256 ^ Z.of_nat 0) with 1 in Hx. lia. }
  rewrite Nat2Z.inj_succ, Z.pow_succ_r in Hx by lia.
  rewrite IH; [pose proof (Z.div_mod x 256); lia|].
  split; [apply Z.div_pos; lia|apply Z.div_lt_upper_bound; lia].
Qed.

Lemma le_decode_range bs : Forall is_byte bs -> 0 <= le_decode bs < 256 ^ Z.of_nat (length bs).
Proof.
  induction 1 as [|b r Hb Hr IH]; cbn [le_decode length]; [cbn; lia|].
  rewrite Nat2Z.inj_succ, Z.pow_succ_r by lia. unfold is_byte in Hb. lia.
Qed.

Lemma le_encode_decode bs : Forall is_byte bs -> le_encode (length bs) (le_decode bs) = bs.
Proof.
  induction 1 as [|b r Hb Hr IH]; cbn [le_decode length le_encode]; [reflexivity|].
  unfold is_byte in Hb. rewrite (Z.mul_comm 256), Z.mod_add, Z.div_add by lia.
  rewrite Z.mod_small, Z.div_small, Z.add_0_l, IH by lia. reflexivity.
Qed.

(** [data[off : off+n]] as bytes and as a little-endian integer. *)
Definition slice (off n : nat) (data : list Z) : list Z := take n (drop off data).
Definition field (off n : nat) (data : list Z) : Z := le_decode (slice off n data).

(** Slices of a concatenation. *)

Lemma slice_here n l r : length l = n -> slice 0 n (l ++ r) = l.
Proof. intros <-. unfold slice. rewrite drop_0. apply take_app_length. Qed.

Lemma slice_skip k off n l r : length l = k -> slice (k + off) n (l ++ r) = slice off n r.
Proof. intros <-. unfold slice. now rewrite <- drop_drop, drop_app_length. Qed.

Lemma slice_app off n m data : slice off (n + m) data = slice off n data ++ slice (off + n) m data.
Proof. unfold slice. now rewrite <- drop_drop, take_take_drop. Qed.

Lemma slice_length off n data : (off + n <= length data)%nat -> length (slice off n data) = n.
Proof. intros H. unfold slice. rewrite length_take, length_drop. lia. Qed.

Lemma slice_bytes off n data : Forall is_byte data -> Forall is_byte (slice off n data).
Proof. intros H. unfold slice. now apply Forall_take, Forall_drop. Qed.

Lemma encode_field off n data :
  Forall is_byte data -> (off + n <= length data)%nat -> le_encode n (field off n data) = slice off n data.
Proof.
  intros Hb Hl. unfold field. rewrite <- (slice_length off n data Hl) at 1.
  apply le_encode_decode. now apply slice_bytes.
Qed.

Lemma field_range off n data :
  Forall is_byte data -> (off + n <= length data)%nat -> 0 <= field off n data < 256 ^ Z.of_nat n.
Proof.
  intros Hb Hl. pose proof (le_decode_range (slice off n data) (slice_bytes off n data Hb)) as H.
  now rewrite slice_length in H.
Qed.

Lemma le_encode_app n m x :
  le_encode (n + m) x = le_encode n x ++ le_encode m (x / 256 ^ Z.of_nat n).
Proof.
  revert x. induction n as [|n IH]; intros x; cbn [le_encode Nat.add app].
  - now rewrite Z.div_1_r.
  - rewrite IH, Z.div_div by lia. now rewrite Nat2Z.inj_succ, Z.pow_succ_r by lia.
Qed.

Lemma le_encode_mod n x : le_encode n (x mod 256 ^ Z.of_nat n) = le_encode n x.
Proof.
  revert x. induction n as [|n IH]; intros x; [reflexivity|]. cbn [le_encode].
  rewrite Nat2Z.inj_succ, Z.pow_succ_r, Z.rem_mul_r by lia.
  rewrite (Z.mul_comm 256), Z.mod_add, Z.div_add by lia.
  pose proof (Z.mod_pos_bound x 256 ltac:(lia)).
  rewrite (Z.mod_small (x mod 256)), (Z.div_small (x mod 256)), Z.add_0_l by lia.
  now rewrite IH.
Qed.

(** A field read back from the bytes it was encoded to. *)
Lemma field_of_slice off n data x :
  slice off n data = le_encode n x -> 0 <= x < 2 ^ (8 * Z.of_nat n) -> field off n data = x.
Proof.
  intros E Hx. unfold field. rewrite E. apply le_decode_encode.
  change 256 with (2 ^ 8). now rewrite <- Z.pow_mul_r by lia.
Qed.
