(* ===== verification/AclTypes.v ===== *)
(** * NFSv4 ACL data model ([pkg/metadata/acl/types.go], [flags.go],
    [generic.go], [probe.go])

    ACE and ACL records with the fields of the Go structs, the wire constants,
    the translation between NFSv4 and Windows ACE flags, and the expansion of
    the Windows GENERIC_* access bits. *)

From S2P Require Import Prelude.

(** ** Constants *)

Definition ACE4_ACCESS_ALLOWED_ACE_TYPE : Z := 0x00000000.
Definition ACE4_ACCESS_DENIED_ACE_TYPE : Z := 0x00000001.
Definition ACE4_SYSTEM_AUDIT_ACE_TYPE : Z := 0x00000002.
Definition ACE4_SYSTEM_ALARM_ACE_TYPE : Z := 0x00000003.

Definition ACE4_FILE_INHERIT_ACE : Z := 0x00000001.
Definition ACE4_DIRECTORY_INHERIT_ACE : Z := 0x00000002.
Definition ACE4_NO_PROPAGATE_INHERIT_ACE : Z := 0x00000004.
Definition ACE4_INHERIT_ONLY_ACE : Z := 0x00000008.
Definition ACE4_SUCCESSFUL_ACCESS_ACE_FLAG : Z := 0x00000010.
Definition ACE4_FAILED_ACCESS_ACE_FLAG : Z := 0x00000020.
Definition ACE4_INHERITED_ACE : Z := 0x00000080.

Definition ACE4_READ_DATA : Z := 0x00000001.
Definition ACE4_WRITE_DATA : Z := 0x00000002.
Definition ACE4_APPEND_DATA : Z := 0x00000004.
Definition ACE4_EXECUTE : Z := 0x00000020.
Definition ACE4_DELETE_CHILD : Z := 0x00000040.
Definition ACE4_READ_NAMED_ATTRS : Z := 0x00000008.
Definition ACE4_WRITE_NAMED_ATTRS : Z := 0x00000010.
Definition ACE4_READ_ATTRIBUTES : Z := 0x00000080.
Definition ACE4_WRITE_ATTRIBUTES : Z := 0x00000100.
Definition ACE4_DELETE : Z := 0x00010000.
Definition ACE4_READ_ACL : Z := 0x00020000.
Definition ACE4_WRITE_ACL : Z := 0x00040000.
Definition ACE4_WRITE_OWNER : Z := 0x00080000.
Definition ACE4_SYNCHRONIZE : Z := 0x00100000.

Definition SpecialOwner : string := "OWNER@".
Definition SpecialGroup : string := "GROUP@".
Definition SpecialEveryone : string := "EVERYONE@".
Definition SpecialCreatorOwner : string := "CreatorOwner@".
Definition SpecialCreatorGroup : string := "CreatorGroup@".
Definition SpecialSystem : string := "SYSTEM@".
Definition SpecialAdministrators : string := "ADMINISTRATORS@".
Definition SpecialOwnerRights : string := "OwnerRights@".

Definition MaxACECount : nat := 128.
Definition MaxDACLSize : Z := 65536.

(** ** Records *)

Record ACE := mkACE {
  ace_Type : Z;
  ace_Flag : Z;
  ace_AccessMask : Z;
  ace_Who : string;
  ace_NFSNumericTwin : bool;
}.

(** An ACL source is a Go string; the empty string is the legacy value. *)
Definition ACLSource := string.
Definition ACLSourcePOSIXDerived : ACLSource := "posix-derived".
Definition ACLSourceWindowsDefault : ACLSource := "windows-default".
Definition ACLSourceShareGrant : ACLSource := "share-grant".

(** [acl_SACL = None] is the nil slice ("no SACL stored"). *)
Record ACL := mkACL {
  acl_ACEs : list ACE;
  acl_Source : ACLSource;
  acl_Protected : bool;
  acl_AutoInherited : bool;
  acl_NullDACL : bool;
  acl_SACL : option (list ACE);
}.

#[export] Instance ACE_eq_dec : EqDecision ACE.
Proof. solve_decision. Defined.
#[export] Instance ACL_eq_dec : EqDecision ACL.
Proof. solve_decision. Defined.

(** Field updates of the Go code ([ace.Flag = ...]). *)
Definition set_Flag (f : Z) (a : ACE) : ACE :=
  mkACE (ace_Type a) f (ace_AccessMask a) (ace_Who a) (ace_NFSNumericTwin a).
Definition set_AccessMask (m : Z) (a : ACE) : ACE :=
  mkACE (ace_Type a) (ace_Flag a) m (ace_Who a) (ace_NFSNumericTwin a).
Definition set_Who (w : string) (a : ACE) : ACE :=
  mkACE (ace_Type a) (ace_Flag a) (ace_AccessMask a) w (ace_NFSNumericTwin a).
Definition set_NFSNumericTwin (b : bool) (a : ACE) : ACE :=
  mkACE (ace_Type a) (ace_Flag a) (ace_AccessMask a) (ace_Who a) b.

Definition isSpecialWho (who : string) : bool :=
  String.eqb who SpecialOwner || String.eqb who SpecialGroup ||
  String.eqb who SpecialEveryone || String.eqb who SpecialOwnerRights.

Definition IsInheritOnly (a : ACE) : bool := has (ace_Flag a) ACE4_INHERIT_ONLY_ACE.
Definition IsInherited (a : ACE) : bool := has (ace_Flag a) ACE4_INHERITED_ACE.

(** ** ACE flag translation *)

Definition NFSv4FlagsToWindowsFlags (nfsFlags : Z) : Z :=
  let w := 0 in
  let w := or_if (has nfsFlags ACE4_FILE_INHERIT_ACE) 0x01 w in
  let w := or_if (has nfsFlags ACE4_DIRECTORY_INHERIT_ACE) 0x02 w in
  let w := or_if (has nfsFlags ACE4_NO_PROPAGATE_INHERIT_ACE) 0x04 w in
  let w := or_if (has nfsFlags ACE4_INHERIT_ONLY_ACE) 0x08 w in
  let w := or_if (has nfsFlags ACE4_SUCCESSFUL_ACCESS_ACE_FLAG) 0x40 w in
  let w := or_if (has nfsFlags ACE4_FAILED_ACCESS_ACE_FLAG) 0x80 w in
  or_if (has nfsFlags ACE4_INHERITED_ACE) 0x10 w.

Definition WindowsFlagsToNFSv4Flags (winFlags : Z) : Z :=
  let n := 0 in
  let n := or_if (has winFlags 0x01) ACE4_FILE_INHERIT_ACE n in
  let n := or_if (has winFlags 0x02) ACE4_DIRECTORY_INHERIT_ACE n in
  let n := or_if (has winFlags 0x04) ACE4_NO_PROPAGATE_INHERIT_ACE n in
  let n := or_if (has winFlags 0x08) ACE4_INHERIT_ONLY_ACE n in
  let n := or_if (has winFlags 0x40) ACE4_SUCCESSFUL_ACCESS_ACE_FLAG n in
  let n := or_if (has winFlags 0x80) ACE4_FAILED_ACCESS_ACE_FLAG n in
  or_if (has winFlags 0x10) ACE4_INHERITED_ACE n.

(** ** Generic access bits *)

Definition genericRead : Z := 0x80000000.
Definition genericWrite : Z := 0x40000000.
Definition genericExecute : Z := 0x20000000.
Definition genericAll : Z := 0x10000000.

Definition genericReadFile : Z :=
  ACE4_READ_DATA .| ACE4_READ_NAMED_ATTRS .| ACE4_READ_ATTRIBUTES .|
  ACE4_READ_ACL .| ACE4_SYNCHRONIZE.
Definition genericWriteFile : Z :=
  ACE4_WRITE_DATA .| ACE4_APPEND_DATA .| ACE4_WRITE_NAMED_ATTRS .|
  ACE4_WRITE_ATTRIBUTES .| ACE4_READ_ACL .| ACE4_SYNCHRONIZE.
Definition genericExecuteFile : Z :=
  ACE4_READ_ATTRIBUTES .| ACE4_EXECUTE .| ACE4_READ_ACL .| ACE4_SYNCHRONIZE.
Definition genericAllFile : Z :=
  ACE4_DELETE .| ACE4_READ_ACL .| ACE4_WRITE_ACL .| ACE4_WRITE_OWNER .|
  ACE4_SYNCHRONIZE .| ACE4_READ_DATA .| ACE4_WRITE_DATA .| ACE4_APPEND_DATA .|
  ACE4_READ_NAMED_ATTRS .| ACE4_WRITE_NAMED_ATTRS .| ACE4_EXECUTE .|
  ACE4_DELETE_CHILD .| ACE4_READ_ATTRIBUTES .| ACE4_WRITE_ATTRIBUTES.

Definition genericMask : Z := genericRead .| genericWrite .| genericExecute .| genericAll.

Definition ExpandGenericMask (mask : Z) : Z :=
  let e := mask in
  let e := or_if (has e genericRead) genericReadFile e in
  let e := or_if (has e genericWrite) genericWriteFile e in
  let e := or_if (has e genericExecute) genericExecuteFile e in
  let e := or_if (has e genericAll) genericAllFile e in
  e .&^ (genericRead .| genericWrite .| genericExecute .| genericAll).

Definition GenericDerivedBits (mask : Z) : Z :=
  let bestEffortGeneric := mask .& (genericRead .| genericExecute) in
  if bestEffortGeneric =? 0 then 0
  else
    let named := mask .&^ (genericRead .| genericWrite .| genericExecute .| genericAll) in
    ExpandGenericMask bestEffortGeneric .&^ named.

(** ** Probe set *)

Definition ProbeBitsAll : list Z :=
  [ACE4_READ_DATA; ACE4_WRITE_DATA; ACE4_APPEND_DATA; ACE4_READ_NAMED_ATTRS;
   ACE4_WRITE_NAMED_ATTRS; ACE4_EXECUTE; ACE4_DELETE_CHILD; ACE4_READ_ATTRIBUTES;
   ACE4_WRITE_ATTRIBUTES; ACE4_DELETE; ACE4_READ_ACL; ACE4_WRITE_ACL;
   ACE4_WRITE_OWNER; ACE4_SYNCHRONIZE].

Definition ProbeMaskAll : Z := fold_left Z.lor ProbeBitsAll 0.

(** ** Lemmas *)

(** Both flag translations only look at the low eight bits. *)
Lemma NFSv4FlagsToWindowsFlags_low n :
  NFSv4FlagsToWindowsFlags n = NFSv4FlagsToWindowsFlags (n .& Z.ones 8).
Proof. unfold NFSv4FlagsToWindowsFlags. now rewrite !(has_land n). Qed.

Lemma WindowsFlagsToNFSv4Flags_low n :
  WindowsFlagsToNFSv4Flags n = WindowsFlagsToNFSv4Flags (n .& Z.ones 8).
Proof. unfold WindowsFlagsToNFSv4Flags. now rewrite !(has_land n). Qed.

(** translating the flags of an ACE from NFSv4 to the Windows encoding and back
    loses only the IDENTIFIER_GROUP bit (which Windows does not have), and from
    Windows to NFSv4 and back only the one Windows bit without a counterpart; the
    inheritance flags and the moved INHERITED bit round-trip in both directions. *)
Theorem ace_flags_roundtrip n w :
  WindowsFlagsToNFSv4Flags (NFSv4FlagsToWindowsFlags n) = n .& 0xBF /\
  NFSv4FlagsToWindowsFlags (WindowsFlagsToNFSv4Flags w) = w .& 0xDF.
Proof.
  rewrite NFSv4FlagsToWindowsFlags_low, (WindowsFlagsToNFSv4Flags_low w).
  change (n .& 0xBF) with (n .& (Z.ones 8 .& 0xBF)).
  change (w .& 0xDF) with (w .& (Z.ones 8 .& 0xDF)). rewrite !Z.land_assoc.
  split; apply Z.eqb_eq.
  - refine (all_below_spec 256 (fun x =>
      WindowsFlagsToNFSv4Flags (NFSv4FlagsToWindowsFlags x) =? x .& 0xBF) _ _ _);
      [vm_compute; reflexivity | apply (land_ones_bound n 8); lia].
  - refine (all_below_spec 256 (fun x =>
      NFSv4FlagsToWindowsFlags (WindowsFlagsToNFSv4Flags x) =? x .& 0xDF) _ _ _);
      [vm_compute; reflexivity | apply (land_ones_bound w 8); lia].
Qed.

(** The four generic bits are disjoint from every expanded mask, so the guards
    of [ExpandGenericMask] all read the original mask. *)
Lemma has_or_if c b x g : b .& g = 0 -> has (or_if c b x) g = has x g.
Proof.
  intros Hb. destruct c; [|reflexivity]. unfold has, or_if.
  rewrite Z.land_lor_distr_l, Hb, Z.lor_0_r. reflexivity.
Qed.

Lemma has_stripped x m g : x .& m = 0 -> g .& m = g -> has x g = false.
Proof.
  intros Hx Hg. unfold has.
  rewrite <- Hg, (Z.land_comm g), Z.land_assoc, Hx. reflexivity.
Qed.

Lemma ExpandGenericMask_bit m i :
  Z.testbit (ExpandGenericMask m) i =
  negb (Z.testbit genericMask i) &&
  (Z.testbit m i || has m genericRead && Z.testbit genericReadFile i ||
   has m genericWrite && Z.testbit genericWriteFile i ||
   has m genericExecute && Z.testbit genericExecuteFile i ||
   has m genericAll && Z.testbit genericAllFile i).
Proof.
  unfold ExpandGenericMask. fold genericMask. cbv zeta.
  rewrite Z.ldiff_spec, !or_if_spec, !has_or_if by reflexivity. btauto.
Qed.

Lemma ExpandGenericMask_stripped m : ExpandGenericMask m .& genericMask = 0.
Proof.
  apply Z.bits_inj'. intros i Hi. rewrite Z.land_spec, ExpandGenericMask_bit, Z.bits_0. btauto.
Qed.

Lemma ExpandGenericMask_fix x : x .& genericMask = 0 -> ExpandGenericMask x = x.
Proof.
  intros Hx. apply Z.bits_inj'. intros i Hi. rewrite ExpandGenericMask_bit.
  rewrite !(has_stripped x genericMask) by (assumption || reflexivity). simpl.
  assert (Z.testbit (x .& genericMask) i = false) as Hb by (rewrite Hx; apply Z.bits_0).
  rewrite Z.land_spec in Hb. rewrite !orb_false_r.
  destruct (Z.testbit x i), (Z.testbit genericMask i); simpl in *; congruence.
Qed.

(** expanding the Windows GENERIC_* bits of an access mask strips all four
    generic bits, is idempotent (a mask without generic bits is unchanged), and
    commutes with the union of masks, so expanding before or after combining
    ACE masks gives the same rights. *)
Theorem ExpandGenericMask_spec m m' :
  ExpandGenericMask m .& genericMask = 0 /\
  ExpandGenericMask (ExpandGenericMask m) = ExpandGenericMask m /\
  ExpandGenericMask (m .| m') = ExpandGenericMask m .| ExpandGenericMask m'.
Proof.
  split_and!; auto using ExpandGenericMask_stripped, ExpandGenericMask_fix.
  apply Z.bits_inj'. intros i Hi.
  rewrite Z.lor_spec, !ExpandGenericMask_bit, !has_lor, Z.lor_spec. btauto.
Qed.

(** the rights an open may be granted on a best-effort basis: they are never rights
    the request names, come only from the expansion of GENERIC_READ and
    GENERIC_EXECUTE, and are none without one of those. *)
Theorem GenericDerivedBits_spec m :
  GenericDerivedBits m .& m = 0 /\
  GenericDerivedBits m .&^ (genericReadFile .| genericExecuteFile) = 0 /\
  (has m (genericRead .| genericExecute) = false -> GenericDerivedBits m = 0).
Proof.
  unfold GenericDerivedBits. fold genericMask.
  destruct (Z.eqb_spec (m .& (genericRead .| genericExecute)) 0) as [E|E].
  { rewrite Z.land_0_l. auto. }
  set (b := m .& (genericRead .| genericExecute)).
  assert (Hb : forall i, 0 <= i -> Z.testbit b i = true -> Z.testbit genericMask i = true).
  { intros i Hi. subst b. unfold genericMask. rewrite Z.land_spec, !Z.lor_spec.
    destruct (Z.testbit genericRead i), (Z.testbit genericExecute i); simpl;
      rewrite ?orb_true_r, ?andb_false_r; easy. }
  split_and!.
  - apply Z.bits_inj'. intros i Hi.
    rewrite Z.land_spec, !Z.ldiff_spec, ExpandGenericMask_bit, Z.bits_0. btauto.
  - apply Z.bits_inj'. intros i Hi.
    rewrite !Z.ldiff_spec, ExpandGenericMask_bit, Z.bits_0, Z.lor_spec.
    assert (has b genericWrite = false) as -> by
      (apply (has_stripped b (genericWrite .| genericAll)); [subst b; rewrite <- Z.land_assoc; apply Z.land_0_r | reflexivity]).
    assert (has b genericAll = false) as -> by
      (apply (has_stripped b (genericWrite .| genericAll)); [subst b; rewrite <- Z.land_assoc; apply Z.land_0_r | reflexivity]).
    specialize (Hb i Hi). destruct (Z.testbit b i); [rewrite Hb by auto; btauto | btauto].
  - intros H. unfold has in H. rewrite negb_false_iff, Z.eqb_eq in H. contradiction.
Qed.
