(* ===== verification/AclEvaluate.v ===== *)
(** * ACL evaluation ([pkg/metadata/acl/evaluate.go])

    [Evaluate] and [EvaluateGranted] walk the DACL once with two accumulators
    and stop early.  The specification below decides every access bit on its
    own: the first applicable ALLOW or DENY ACE that names the bit decides it,
    and the owner's implicit rights fill in what no ACE decided. *)

From S2P Require Import Prelude AclTypes.

Record EvaluateContext := mkEvaluateContext {
  ec_Who : string;
  ec_UID : Z;
  ec_GID : Z;
  ec_GIDs : list Z;
  ec_FileOwnerUID : Z;
  ec_FileOwnerGID : Z;
  ec_SID : string;
  ec_GroupSIDs : list string;
  ec_RequesterHasTakeOwnership : bool;
}.

Definition AnonymousFileOwnerUID : Z := max_u32.

Definition builtinAdministratorsSID : string := "S-1-5-32-544".

(** [\d+] : at least one digit, greedily; the rest of the string. *)
Fixpoint skip_digits (s : string) : string :=
  match s with
  | String a s' => if is_digit a then skip_digits s' else s
  | EmptyString => EmptyString
  end.

Definition eat_digits (s : string) : option string :=
  match s with
  | String a s' => if is_digit a then Some (skip_digits s') else None
  | EmptyString => None
  end.

(** [domainAdminSIDPattern]: ^S-1-5-21-\d+-\d+-\d+-500$ *)
Definition domainAdminSIDPattern (sid : string) : bool :=
  let rest :=
    r ← cut_prefix "S-1-5-21-" sid; r ← eat_digits r;
    r ← cut_prefix "-" r; r ← eat_digits r;
    r ← cut_prefix "-" r; eat_digits r in
  match rest with
  | Some rest => String.eqb rest "-500"
  | None => false
  end.

Definition isAdminSID (sid : string) : bool :=
  if String.eqb sid "" then false
  else if String.eqb sid builtinAdministratorsSID then true
  else domainAdminSIDPattern sid.

Definition HasTakeOwnershipPrivilege (requesterSID : string) (groupSIDs : list string) : bool :=
  if isAdminSID requesterSID then true else existsb isAdminSID groupSIDs.

Definition localDomainSuffix : string := "@localdomain".

(** (id, true) is [Some id], (0, false) is [None]. *)
Definition parseLocalDomainID (who : string) : option Z :=
  match cut_suffix who localDomainSuffix with
  | None => None
  | Some prefix => parse_uint prefix 32
  end.

Definition HasExplicitDeny (a : option ACL) : bool :=
  match a with
  | None => false
  | Some a => existsb (fun e => ace_Type e =? ACE4_ACCESS_DENIED_ACE_TYPE) (acl_ACEs a)
  end.

Definition ownerImplicitRights : Z := ACE4_READ_ACL .| ACE4_WRITE_ACL.
Definition takeOwnershipImplicitRight : Z := ACE4_WRITE_OWNER.

Definition requesterIsOwner (c : EvaluateContext) : bool := ec_UID c =? ec_FileOwnerUID c.

Definition contains_Z (x : Z) (l : list Z) : bool := existsb (Z.eqb x) l.
Definition contains_str (x : string) (l : list string) : bool := existsb (String.eqb x) l.

Definition aceMatchesWhoWithOwnerRights (ace : ACE) (c : EvaluateContext)
    (ownerRightsPresent : bool) : bool :=
  let who := ace_Who ace in
  if String.eqb who SpecialOwner then
    if ownerRightsPresent && requesterIsOwner c then false else requesterIsOwner c
  else if String.eqb who SpecialGroup then
    if ec_GID c =? ec_FileOwnerGID c then true
    else contains_Z (ec_FileOwnerGID c) (ec_GIDs c)
  else if String.eqb who SpecialEveryone then true
  else if String.eqb who SpecialOwnerRights then requesterIsOwner c
  else
    match cut_prefix "sid:" who with
    | Some target =>
        if negb (String.eqb (ec_SID c) "") && String.eqb (ec_SID c) target then true
        else contains_str target (ec_GroupSIDs c)
    | None =>
        match parseLocalDomainID who with
        | Some id =>
            if id =? ec_UID c then true
            else if id =? ec_GID c then true
            else contains_Z id (ec_GIDs c)
        | None => String.eqb who (ec_Who c)
        end
    end.

(** The pre-scan: some effective OWNER_RIGHTS ALLOW/DENY ACE. *)
Definition isOwnerRightsACE (ace : ACE) : bool :=
  if IsInheritOnly ace then false
  else if negb (String.eqb (ace_Who ace) SpecialOwnerRights) then false
  else if negb (ace_Type ace =? ACE4_ACCESS_ALLOWED_ACE_TYPE) &&
          negb (ace_Type ace =? ACE4_ACCESS_DENIED_ACE_TYPE) then false
  else true.

Definition scanOwnerRights (aces : list ACE) (c : EvaluateContext) : bool :=
  if requesterIsOwner c then existsb isOwnerRightsACE aces else false.

(** The main loop.  [mask] is the requested (or probed) mask of the early exit. *)
Fixpoint walk (aces : list ACE) (c : EvaluateContext) (orp : bool) (mask : Z)
    (allowedBits deniedBits : Z) : Z * Z :=
  match aces with
  | [] => (allowedBits, deniedBits)
  | ace :: rest =>
      if IsInheritOnly ace then walk rest c orp mask allowedBits deniedBits
      else if negb (aceMatchesWhoWithOwnerRights ace c orp)
      then walk rest c orp mask allowedBits deniedBits
      else
        let continue allowed denied :=
          if (allowed .| denied) .& mask =? mask then (allowed, denied)
          else walk rest c orp mask allowed denied in
        if ace_Type ace =? ACE4_ACCESS_ALLOWED_ACE_TYPE then
          let newBits := ace_AccessMask ace .&^ (allowedBits .| deniedBits) in
          continue (allowedBits .| newBits) deniedBits
        else if ace_Type ace =? ACE4_ACCESS_DENIED_ACE_TYPE then
          let newBits := ace_AccessMask ace .&^ (allowedBits .| deniedBits) in
          continue allowedBits (deniedBits .| newBits)
        else if (ace_Type ace =? ACE4_SYSTEM_AUDIT_ACE_TYPE) ||
                (ace_Type ace =? ACE4_SYSTEM_ALARM_ACE_TYPE)
        then walk rest c orp mask allowedBits deniedBits
        else continue allowedBits deniedBits
  end.

Definition addImplicitRights (c : EvaluateContext) (orp : bool) (allowedBits deniedBits : Z) : Z :=
  if requesterIsOwner c && negb orp then
    let allowedBits := allowedBits .| (ownerImplicitRights .&^ deniedBits) in
    if ec_RequesterHasTakeOwnership c
    then allowedBits .| (takeOwnershipImplicitRight .&^ deniedBits)
    else allowedBits
  else allowedBits.

Definition Evaluate (a : option ACL) (c : EvaluateContext) (requestedMask : Z) : bool :=
  if requestedMask =? 0 then true
  else match a with
  | None => false
  | Some a =>
      if acl_NullDACL a then true
      else
        let orp := scanOwnerRights (acl_ACEs a) c in
        let '(allowedBits, deniedBits) := walk (acl_ACEs a) c orp requestedMask 0 0 in
        let allowedBits := addImplicitRights c orp allowedBits deniedBits in
        allowedBits .& requestedMask =? requestedMask
  end.

Definition EvaluateGranted (a : option ACL) (c : EvaluateContext) (probeMask : Z) : Z :=
  match a with
  | None => 0
  | Some a =>
      if probeMask =? 0 then 0
      else if acl_NullDACL a then probeMask
      else
        let orp := scanOwnerRights (acl_ACEs a) c in
        let '(allowedBits, deniedBits) := walk (acl_ACEs a) c orp probeMask 0 0 in
        let allowedBits := addImplicitRights c orp allowedBits deniedBits in
        allowedBits .& probeMask
  end.

(** ** Specification: one bit at a time *)

(** The verdict of one ACE on bit [i]: [Some true] allows it, [Some false]
    denies it, [None] leaves it undecided. *)
Definition ace_verdict (ace : ACE) (c : EvaluateContext) (orp : bool) (i : Z) : option bool :=
  if IsInheritOnly ace || negb (aceMatchesWhoWithOwnerRights ace c orp) then None
  else if negb (Z.testbit (ace_AccessMask ace) i) then None
  else if ace_Type ace =? ACE4_ACCESS_ALLOWED_ACE_TYPE then Some true
  else if ace_Type ace =? ACE4_ACCESS_DENIED_ACE_TYPE then Some false
  else None.

(** First match wins. *)
Fixpoint dacl_verdict (aces : list ACE) (c : EvaluateContext) (orp : bool) (i : Z) : option bool :=
  match aces with
  | [] => None
  | ace :: rest =>
      match ace_verdict ace c orp i with
      | Some v => Some v
      | None => dacl_verdict rest c orp i
      end
  end.

(** Bits the owner holds implicitly when no ACE denies them. *)
Definition implicit_bit (c : EvaluateContext) (orp : bool) (i : Z) : bool :=
  requesterIsOwner c && negb orp &&
  (Z.testbit ownerImplicitRights i ||
   ec_RequesterHasTakeOwnership c && Z.testbit takeOwnershipImplicitRight i).

Definition granted_bit (a : ACL) (c : EvaluateContext) (i : Z) : bool :=
  acl_NullDACL a ||
  let orp := scanOwnerRights (acl_ACEs a) c in
  match dacl_verdict (acl_ACEs a) c orp i with
  | Some v => v
  | None => implicit_bit c orp i
  end.

(** ** Refinement *)

Definition verdict_is (v : bool) (o : option bool) : bool :=
  match o with Some b => Bool.eqb b v | None => false end.

(** What the loop accumulates for a bit of the mask: the bits it started with,
    plus the verdict of the first ACE that decides a still undecided bit. *)
Lemma walk_bit aces c orp mask A D i :
  0 <= i -> Z.testbit mask i = true ->
  let undecided := negb (Z.testbit A i || Z.testbit D i) in
  let v := dacl_verdict aces c orp i in
  Z.testbit (walk aces c orp mask A D).1 i = Z.testbit A i || undecided && verdict_is true v /\
  Z.testbit (walk aces c orp mask A D).2 i = Z.testbit D i || undecided && verdict_is false v.
Proof.
  intros Hi Hm. revert A D. induction aces as [|ace rest IH]; intros A D; cbn [walk dacl_verdict].
  { cbn. split; btauto. }
  assert (Hstop : forall A' D', ((A' .| D') .& mask =? mask) = true ->
    Z.testbit A' i || Z.testbit D' i = true).
  { intros A' D' E. rewrite <- Z.lor_spec. now apply (proj1 (land_eq_iff_bits _ _) E). }
  unfold ace_verdict. destruct (IsInheritOnly ace); [apply IH|].
  destruct (aceMatchesWhoWithOwnerRights ace c orp); [|apply IH]. cbn [negb orb].
  destruct (Z.eqb_spec (ace_Type ace) ACE4_ACCESS_ALLOWED_ACE_TYPE) as [Ha|Ha];
    [|destruct (Z.eqb_spec (ace_Type ace) ACE4_ACCESS_DENIED_ACE_TYPE) as [Hd|Hd];
      [|destruct ((ace_Type ace =? ACE4_SYSTEM_AUDIT_ACE_TYPE) ||
                  (ace_Type ace =? ACE4_SYSTEM_ALARM_ACE_TYPE))]].
  all: try match goal with |- context [if (?x .& ?m =? ?m) then _ else _] =>
         destruct (x .& m =? m) eqn:E; [apply Hstop in E|] end.
  all: cbn [fst snd];
    try (destruct (IH A D) as [-> ->]);
    try (match goal with |- context [walk _ _ _ _ ?A' ?D'] =>
           destruct (IH A' D') as [-> ->] end);
    try (rewrite ?Z.lor_spec, ?Z.ldiff_spec, ?Z.lor_spec in E);
    rewrite ?Z.lor_spec, ?Z.ldiff_spec, ?Z.lor_spec;
    destruct (Z.testbit (ace_AccessMask ace) i); cbn [negb verdict_is Bool.eqb];
    destruct (dacl_verdict rest c orp i) as [[]|]; cbn [verdict_is Bool.eqb];
    destruct (Z.testbit A i), (Z.testbit D i); cbn in *; auto; try discriminate.
Qed.

(** The implicit owner rights, per bit. *)
Lemma addImplicitRights_bit c orp A D i :
  Z.testbit (addImplicitRights c orp A D) i =
  Z.testbit A i || implicit_bit c orp i && negb (Z.testbit D i).
Proof.
  unfold addImplicitRights, implicit_bit.
  destruct (requesterIsOwner c), orp, (ec_RequesterHasTakeOwnership c); cbn [andb negb];
    rewrite ?Z.lor_spec, ?Z.ldiff_spec; btauto.
Qed.

Lemma allowed_bit a c mask i :
  0 <= i -> Z.testbit mask i = true -> acl_NullDACL a = false ->
  let orp := scanOwnerRights (acl_ACEs a) c in
  let r := walk (acl_ACEs a) c orp mask 0 0 in
  Z.testbit (addImplicitRights c orp r.1 r.2) i = granted_bit a c i.
Proof.
  intros Hi Hm Hn orp r. rewrite addImplicitRights_bit.
  destruct (walk_bit (acl_ACEs a) c orp mask 0 0 i Hi Hm) as [H1 H2]. fold r in H1, H2.
  rewrite H1, H2, !Z.bits_0. unfold granted_bit. rewrite Hn. fold orp. cbn [orb negb andb].
  destruct (dacl_verdict (acl_ACEs a) c orp i) as [[]|]; cbn; btauto.
Qed.

Lemma EvaluateGranted_bit a c probeMask i :
  0 <= i ->
  Z.testbit (EvaluateGranted (Some a) c probeMask) i =
  Z.testbit probeMask i && granted_bit a c i.
Proof.
  intros Hi. unfold EvaluateGranted.
  destruct (Z.eqb_spec probeMask 0) as [->|Hp]; [now rewrite Z.bits_0|].
  destruct (acl_NullDACL a) eqn:Hn.
  { unfold granted_bit. rewrite Hn. cbn. btauto. }
  destruct (walk _ _ _ _ _ _) as [A D] eqn:W. rewrite Z.land_spec, andb_comm.
  destruct (Z.testbit probeMask i) eqn:Hm; [|reflexivity]. cbn [andb].
  pose proof (allowed_bit a c probeMask i Hi Hm Hn) as H. cbv zeta in H.
  rewrite W in H. exact H.
Qed.

Lemma Evaluate_granted_eqb a c m : Evaluate a c m = (EvaluateGranted a c m =? m).
Proof.
  unfold Evaluate, EvaluateGranted. destruct (Z.eqb_spec m 0) as [->|Hm], a as [a|].
  - reflexivity.
  - reflexivity.
  - destruct (acl_NullDACL a); [symmetry; apply Z.eqb_refl|].
    destruct (walk _ _ _ _ _ _). reflexivity.
  - symmetry. apply Z.eqb_neq. lia.
Qed.

Lemma Evaluate_bits a c m :
  0 <= m ->
  Evaluate (Some a) c m = true <->
  (forall i, 0 <= i -> Z.testbit m i = true -> granted_bit a c i = true).
Proof.
  intros Hm. rewrite Evaluate_granted_eqb, Z.eqb_eq. split.
  - intros E i Hi B. rewrite <- E, EvaluateGranted_bit in B by lia. now apply andb_true_iff in B.
  - intros G. apply Z.bits_inj'. intros i Hi. rewrite EvaluateGranted_bit by lia.
    destruct (Z.testbit m i) eqn:B; [now rewrite (G i)|reflexivity].
Qed.

(** C19: [Evaluate] and [EvaluateGranted], which walk the DACL once with two
    accumulators and stop as soon as every requested bit is decided, implement
    the first-match specification: a bit is granted exactly when the first
    effective matching ALLOW or DENY ACE that carries it is an ALLOW, or when no
    ACE decides it and it is an implicit right of the owner; and a request
    succeeds exactly when all of its bits are granted. *)
Theorem EvaluateGranted_refines_first_match a c m :
  0 <= m ->
  (forall i, 0 <= i ->
    Z.testbit (EvaluateGranted (Some a) c m) i = Z.testbit m i && granted_bit a c i) /\
  (Evaluate (Some a) c m = true <->
    forall i, 0 <= i -> Z.testbit m i = true -> granted_bit a c i = true).
Proof.
  intros Hm. split; [intros; now apply EvaluateGranted_bit|now apply Evaluate_bits].
Qed.

(** for every bit, [EvaluateGranted] (which SMB uses to compute the maximal
    access) answers what [Evaluate] (which checks an access) answers for that
    single bit, also with no ACL; and [Evaluate] of a mask is the equality of the
    granted mask with the requested one.  The two loops cannot drift apart. *)
Theorem EvaluateGranted_is_bitwise_Evaluate a c m i :
  0 <= i ->
  Z.testbit (EvaluateGranted a c m) i = Z.testbit m i && Evaluate a c (2 ^ i) /\
  Evaluate a c m = (EvaluateGranted a c m =? m).
Proof.
  intros Hi. split; [|apply Evaluate_granted_eqb].
  rewrite Evaluate_granted_eqb. destruct a as [a|].
  2:{ unfold EvaluateGranted. rewrite Z.bits_0. assert (2 ^ i <> 0) as H by (apply Z.pow_nonzero; lia).
      destruct (Z.eqb_spec 0 (2 ^ i)); [congruence|btauto]. }
  rewrite EvaluateGranted_bit by lia. f_equal.
  apply eq_true_iff_eq. rewrite Z.eqb_eq. split.
  - intros G. apply Z.bits_inj'. intros j Hj.
    rewrite EvaluateGranted_bit by lia.
    destruct (Z.eq_dec j i) as [->|Hne]; [now rewrite G, andb_true_r|].
    rewrite Z.pow2_bits_false by lia. reflexivity.
  - intros G. assert (Z.testbit (EvaluateGranted (Some a) c (2 ^ i)) i = true) as B
      by (rewrite G; apply Z.pow2_bits_true; lia).
    rewrite EvaluateGranted_bit in B by lia. now apply andb_true_iff in B as [].
Qed.

(** ** OWNER_RIGHTS is the sole authority for the owner *)

Definition drop_owner_aces (a : ACL) : ACL :=
  mkACL (List.filter (fun e => negb (String.eqb (ace_Who e) SpecialOwner)) (acl_ACEs a))
    (acl_Source a) (acl_Protected a) (acl_AutoInherited a) (acl_NullDACL a) (acl_SACL a).

Lemma isOwnerRightsACE_not_owner e :
  isOwnerRightsACE e = true -> String.eqb (ace_Who e) SpecialOwner = false.
Proof.
  unfold isOwnerRightsACE. destruct (IsInheritOnly e); [easy|].
  destruct (String.eqb_spec (ace_Who e) SpecialOwnerRights) as [->|]; easy.
Qed.

Lemma scanOwnerRights_drop aces c :
  scanOwnerRights (List.filter (fun e => negb (String.eqb (ace_Who e) SpecialOwner)) aces) c =
  scanOwnerRights aces c.
Proof.
  unfold scanOwnerRights. destruct (requesterIsOwner c); [|reflexivity].
  induction aces as [|e aces IH]; [reflexivity|]. cbn [List.filter existsb].
  destruct (isOwnerRightsACE e) eqn:O.
  - rewrite (isOwnerRightsACE_not_owner _ O). cbn. now rewrite O.
  - destruct (negb _); cbn; rewrite ?O; auto.
Qed.

Lemma dacl_verdict_drop aces c i :
  requesterIsOwner c = true ->
  dacl_verdict (List.filter (fun e => negb (String.eqb (ace_Who e) SpecialOwner)) aces) c true i =
  dacl_verdict aces c true i.
Proof.
  intros Ho. induction aces as [|e aces IH]; [reflexivity|]. cbn [List.filter dacl_verdict].
  destruct (String.eqb_spec (ace_Who e) SpecialOwner) as [E|E]; cbn [negb].
  - rewrite IH. unfold ace_verdict, aceMatchesWhoWithOwnerRights.
    rewrite E, Ho. cbn. now rewrite orb_true_r.
  - cbn [dacl_verdict]. now rewrite IH.
Qed.

(** when an effective OWNER_RIGHTS ACE is present and the requester is the
    owner, the OWNER@ ACEs (and the owner's implicit rights) have no say: the
    granted mask is that of the DACL without its OWNER@ ACEs. *)
Theorem owner_rights_supersede_owner_aces a c m :
  scanOwnerRights (acl_ACEs a) c = true ->
  EvaluateGranted (Some a) c m = EvaluateGranted (Some (drop_owner_aces a)) c m.
Proof.
  intros Hs. apply Z.bits_inj'. intros i Hi.
  rewrite !EvaluateGranted_bit by lia. f_equal.
  unfold granted_bit, drop_owner_aces. cbn [acl_NullDACL acl_ACEs].
  rewrite scanOwnerRights_drop, Hs, dacl_verdict_drop; [reflexivity|].
  unfold scanOwnerRights in Hs. now destruct (requesterIsOwner c).
Qed.

(** an empty (not null) DACL grants nobody anything, except that the owner
    keeps READ_ACL and WRITE_ACL, and WRITE_OWNER only when holding the
    take-ownership privilege. *)
Theorem empty_dacl_grants a c m :
  acl_ACEs a = [] -> acl_NullDACL a = false ->
  EvaluateGranted (Some a) c m =
  if requesterIsOwner c
  then m .& (ownerImplicitRights .|
             (if ec_RequesterHasTakeOwnership c then takeOwnershipImplicitRight else 0))
  else 0.
Proof.
  intros Ha Hn. apply Z.bits_inj'. intros i Hi.
  rewrite EvaluateGranted_bit by lia.
  unfold granted_bit, implicit_bit, scanOwnerRights. rewrite Ha, Hn. cbn [existsb dacl_verdict].
  destruct (requesterIsOwner c), (ec_RequesterHasTakeOwnership c); cbn [negb andb orb];
    rewrite ?Z.land_spec, ?Z.lor_spec, ?Z.bits_0; btauto.
Qed.

(** The local-domain principal written for a Unix id is matched by that id. *)
Definition LocalDomainPrincipal (id : Z) : string := dec_string (Z.to_N id) +:+ localDomainSuffix.

Lemma parseLocalDomainID_roundtrip id :
  in_u32 id -> parseLocalDomainID (LocalDomainPrincipal id) = Some id.
Proof.
  intros H. unfold parseLocalDomainID, LocalDomainPrincipal. rewrite cut_suffix_app.
  now apply parse_uint_dec.
Qed.

(** ** The theorems at a concrete DACL *)

(** Owner, everyone and a denied reader, then an OWNER RIGHTS entry. *)
Definition sample_acl : ACL :=
  mkACL [mkACE ACE4_ACCESS_DENIED_ACE_TYPE 0 ACE4_WRITE_DATA SpecialEveryone false;
         mkACE ACE4_ACCESS_ALLOWED_ACE_TYPE 0 (ACE4_READ_DATA .| ACE4_WRITE_DATA) SpecialOwner false;
         mkACE ACE4_ACCESS_ALLOWED_ACE_TYPE 0 ACE4_READ_ATTRIBUTES SpecialOwnerRights false]
    "" false false false None.
Definition sample_owner : EvaluateContext :=
  mkEvaluateContext "bob@EXAMPLE" 1000 100 [100] 1000 100 "" [] false.

Lemma EvaluateGranted_refines_first_match_witness :
  Evaluate (Some sample_acl) sample_owner ACE4_WRITE_DATA = false /\
  Z.testbit (EvaluateGranted (Some sample_acl) sample_owner 3) 1 =
  Z.testbit 3 1 && granted_bit sample_acl sample_owner 1.
Proof.
  split; [vm_compute; reflexivity|].
  refine (proj1 (EvaluateGranted_refines_first_match sample_acl sample_owner 3 _) 1 _); lia.
Defined.

Lemma owner_rights_supersede_owner_aces_witness :
  EvaluateGranted (Some sample_acl) sample_owner ACE4_READ_DATA =
  EvaluateGranted (Some (drop_owner_aces sample_acl)) sample_owner ACE4_READ_DATA.
Proof.
  apply (owner_rights_supersede_owner_aces sample_acl sample_owner ACE4_READ_DATA). vm_compute. reflexivity.
Defined.
