(* ===== verification/AclInherit.v ===== *)
(** * ACL inheritance ([pkg/metadata/acl/inherit.go])

    The ACL a new file or directory receives from its parent, and the
    re-propagation of a changed parent ACL onto an existing child. *)

From S2P Require Import Prelude AclTypes AclEvaluate.

Definition inheritanceMask : Z :=
  ACE4_FILE_INHERIT_ACE .| ACE4_DIRECTORY_INHERIT_ACE .|
  ACE4_NO_PROPAGATE_INHERIT_ACE .| ACE4_INHERIT_ONLY_ACE.

Record Creator := mkCreator { cr_UID : Z; cr_GID : Z; cr_SID : string }.

Definition substituteCreator (who : string) (creator : Creator) : string :=
  if String.eqb who SpecialCreatorOwner then
    if negb (String.eqb (cr_SID creator) "") then "sid:" +:+ cr_SID creator
    else dec_string (Z.to_N (cr_UID creator)) +:+ "@localdomain"
  else if String.eqb who SpecialCreatorGroup then
    if negb (String.eqb (cr_SID creator) "") then "sid:" +:+ cr_SID creator
    else dec_string (Z.to_N (cr_GID creator)) +:+ "@localdomain"
  else who.

Definition isCreatorWho (who : string) : bool :=
  String.eqb who SpecialCreatorOwner || String.eqb who SpecialCreatorGroup.

Definition hasOI (ace : ACE) : bool := has (ace_Flag ace) ACE4_FILE_INHERIT_ACE.
Definition hasCI (ace : ACE) : bool := has (ace_Flag ace) ACE4_DIRECTORY_INHERIT_ACE.
Definition hasNP (ace : ACE) : bool := has (ace_Flag ace) ACE4_NO_PROPAGATE_INHERIT_ACE.

Definition applies (isDirectory : bool) (ace : ACE) : bool :=
  isDirectory && hasCI ace || negb isDirectory && hasOI ace.

(** The per-ACE loop of [ComputeInheritedACL]: [inherited] is the slice built
    so far, returning early is the [break] at the ACE cap. *)
Fixpoint inherit_loop (aces : list ACE) (autoInherited isDirectory : bool) (creator : Creator)
    (inherited : list ACE) : list ACE :=
  match aces with
  | [] => inherited
  | ace :: rest =>
      let next acc := inherit_loop rest autoInherited isDirectory creator acc in
      if negb isDirectory && negb (hasOI ace) then next inherited
      else if isDirectory && negb (hasOI ace) && negb (hasCI ace) then next inherited
      else if (MaxACECount <=? length inherited)%nat then inherited
      else
        let inheritedBit := if autoInherited then ACE4_INHERITED_ACE else 0 in
        let expandACE := isCreatorWho (ace_Who ace) in
        if applies isDirectory ace && expandACE then
          let resolved := set_Flag inheritedBit (set_Who (substituteCreator (ace_Who ace) creator) ace) in
          let inherited := inherited ++ [resolved] in
          if negb isDirectory then next inherited
          else if hasNP ace then next inherited
          else if (MaxACECount <=? length inherited)%nat then next inherited
          else
            let f := ace_Flag ace .&^ inheritanceMask in
            let f := or_if (hasOI ace) ACE4_FILE_INHERIT_ACE f in
            let f := or_if (hasCI ace) ACE4_DIRECTORY_INHERIT_ACE f in
            let f := f .| ACE4_INHERIT_ONLY_ACE in
            let f := f .&^ ACE4_INHERITED_ACE in
            let f := f .| inheritedBit in
            next (inherited ++ [set_Flag f ace])
        else if applies isDirectory ace && negb expandACE then
          let f :=
            if hasNP ace then ace_Flag ace .&^ inheritanceMask
            else if negb isDirectory then ace_Flag ace .&^ inheritanceMask
            else ace_Flag ace .&^ ACE4_INHERIT_ONLY_ACE in
          let f := f .&^ ACE4_INHERITED_ACE in
          let f := f .| inheritedBit in
          next (inherited ++ [set_Flag f ace])
        else if hasNP ace then next inherited
        else
          let f := ace_Flag ace .&^ inheritanceMask in
          let f := f .| (ACE4_FILE_INHERIT_ACE .| ACE4_INHERIT_ONLY_ACE) in
          let f := f .| inheritedBit in
          next (inherited ++ [set_Flag f ace])
  end.

(** [desc_expand_generic]: the second loop. *)
Definition expandGenericACE (ace : ACE) : ACE :=
  if has (ace_Flag ace) ACE4_INHERIT_ONLY_ACE then ace
  else set_AccessMask (ExpandGenericMask (ace_AccessMask ace)) ace.

Definition ComputeInheritedACL (parentACL : option ACL) (isDirectory : bool) (creator : Creator)
    : option ACL :=
  match parentACL with
  | None => None
  | Some parent =>
      let inherited :=
        inherit_loop (acl_ACEs parent) (acl_AutoInherited parent) isDirectory creator [] in
      match inherited with
      | [] => None
      | _ :: _ =>
          Some (mkACL (map expandGenericACE inherited) "" false
                      (acl_AutoInherited parent) false None)
      end
  end.

Definition PropagateACL (parentACL existingACL : option ACL) (isDirectory : bool)
    (creator : Creator) : option ACL :=
  let newInherited := ComputeInheritedACL parentACL isDirectory creator in
  match existingACL with
  | None => newInherited
  | Some existing =>
      let explicit := List.filter (fun e => negb (IsInherited e)) (acl_ACEs existing) in
      match explicit, newInherited with
      | [], None => None
      | _, _ =>
          let inheritedACEs := match newInherited with Some n => acl_ACEs n | None => [] end in
          Some (mkACL (explicit ++ inheritedACEs) (acl_Source existing) (acl_Protected existing)
                  (match parentACL with Some p => acl_AutoInherited p | None => false end)
                  (acl_NullDACL existing) None)
      end
  end.

(** ** The loop as a per-ACE emission

    [emit] is what one parent ACE contributes when the cap is not in play. *)

Definition inheritable (isDirectory : bool) (ace : ACE) : bool :=
  hasOI ace || isDirectory && hasCI ace.

Definition inherited_bit (autoInherited : bool) : Z :=
  if autoInherited then ACE4_INHERITED_ACE else 0.

Definition preserved_creator_flags (ace : ACE) (ib : Z) : Z :=
  (or_if (hasCI ace) ACE4_DIRECTORY_INHERIT_ACE
    (or_if (hasOI ace) ACE4_FILE_INHERIT_ACE (ace_Flag ace .&^ inheritanceMask))
    .| ACE4_INHERIT_ONLY_ACE) .&^ ACE4_INHERITED_ACE .| ib.

Definition effective_flags (isDirectory : bool) (ace : ACE) (ib : Z) : Z :=
  (if hasNP ace || negb isDirectory then ace_Flag ace .&^ inheritanceMask
   else ace_Flag ace .&^ ACE4_INHERIT_ONLY_ACE) .&^ ACE4_INHERITED_ACE .| ib.

Definition emit (autoInherited isDirectory : bool) (creator : Creator) (ace : ACE) : list ACE :=
  let ib := inherited_bit autoInherited in
  if negb (inheritable isDirectory ace) then []
  else if applies isDirectory ace then
    if isCreatorWho (ace_Who ace) then
      set_Flag ib (set_Who (substituteCreator (ace_Who ace) creator) ace) ::
      (if isDirectory && negb (hasNP ace)
       then [set_Flag (preserved_creator_flags ace ib) ace] else [])
    else [set_Flag (effective_flags isDirectory ace ib) ace]
  else if hasNP ace then []
  else [set_Flag (ace_Flag ace .&^ inheritanceMask .|
                  (ACE4_FILE_INHERIT_ACE .| ACE4_INHERIT_ONLY_ACE) .| ib) ace].

Lemma length_emit ai d cr ace : (length (emit ai d cr ace) <= 2)%nat.
Proof. unfold emit. repeat case_match; simpl; lia. Qed.

(** One round of the loop: either the ACE is skipped, or the cap stops the
    loop, or what is appended is a non-empty prefix of [emit]. *)
Lemma inherit_loop_cons ace rest ai d cr acc :
  exists k, inherit_loop (ace :: rest) ai d cr acc =
              (if (MaxACECount <=? length acc)%nat && inheritable d ace then acc
               else inherit_loop rest ai d cr (acc ++ take k (emit ai d cr ace))) /\
            ((S (length acc) < MaxACECount)%nat -> k = 2%nat) /\
            ((length acc < MaxACECount)%nat ->
             (length (acc ++ take k (emit ai d cr ace)) <= MaxACECount)%nat).
Proof.
  cbn [inherit_loop]. unfold emit, inheritable, applies.
  destruct d, (hasOI ace) eqn:HO, (hasCI ace) eqn:HC; cbn [negb andb orb];
    rewrite ?andb_false_r, ?andb_true_r;
    try (exists 2%nat; rewrite app_nil_r; split_and!; [reflexivity|auto|lia]).
  all: destruct (Nat.leb_spec MaxACECount (length acc));
    try (exists 2%nat; split_and!; [reflexivity|lia|lia]).
  all: destruct (isCreatorWho (ace_Who ace)) eqn:HW; cbn [negb andb];
    destruct (hasNP ace) eqn:HN; cbn [negb andb orb];
    try (exists 2%nat; cbn [take]; rewrite ?app_nil_r; split_and!;
         [unfold effective_flags; rewrite ?HN; reflexivity|auto|rewrite ?length_app; simpl; lia]).
  all: rewrite length_app; cbn [length];
    destruct (Nat.leb_spec MaxACECount (length acc + 1));
    [ exists 1%nat; cbn [take]; split_and!; [reflexivity|lia|rewrite length_app; simpl; lia]
    | exists 2%nat; cbn [take]; split_and!; [|auto|rewrite length_app; simpl; lia] ].
  all: rewrite <- (app_assoc acc); unfold preserved_creator_flags; rewrite ?HO, ?HC; reflexivity.
Qed.

Lemma inherit_loop_length aces ai d cr acc :
  (length acc <= MaxACECount)%nat -> (length (inherit_loop aces ai d cr acc) <= MaxACECount)%nat.
Proof.
  revert acc. induction aces as [|ace rest IH]; intros acc Hacc; [exact Hacc|].
  destruct (inherit_loop_cons ace rest ai d cr acc) as (k & -> & _ & Hk).
  destruct (Nat.leb_spec MaxACECount (length acc)); cbn [andb]; [|apply IH; lia].
  destruct (inheritable d ace) eqn:E; [exact Hacc|]. apply IH.
  unfold emit. rewrite E. cbn. rewrite take_nil, app_nil_r. exact Hacc.
Qed.

(** Whatever the cap does, every ACE comes from [emit] of some parent ACE. *)
Lemma inherit_loop_In aces ai d cr acc e :
  In e (inherit_loop aces ai d cr acc) ->
  In e acc \/ exists ace, In ace aces /\ In e (emit ai d cr ace).
Proof.
  revert acc. induction aces as [|ace rest IH]; intros acc H; [now left|].
  destruct (inherit_loop_cons ace rest ai d cr acc) as (k & E & _ & _). rewrite E in H.
  destruct (_ && _) in H; [now left|]. apply IH in H as [H|(a & ? & ?)].
  - apply in_app_or in H as [H|H]; [now left|]. right. exists ace. split; [now left|].
    rewrite <- (take_drop k (emit ai d cr ace)). apply in_or_app. now left.
  - right. exists a. split; [now right|assumption].
Qed.

(** Below the cap nothing is truncated. *)
Lemma inherit_loop_emit aces ai d cr acc :
  (length acc + 2 * length aces <= MaxACECount)%nat ->
  inherit_loop aces ai d cr acc = acc ++ flat_map (emit ai d cr) aces.
Proof.
  revert acc. induction aces as [|ace rest IH]; intros acc H; cbn [flat_map];
    [now rewrite app_nil_r|].
  destruct (inherit_loop_cons ace rest ai d cr acc) as (k & -> & Hk & _). simpl in H.
  rewrite Hk by lia. destruct (Nat.leb_spec MaxACECount (length acc)); [lia|]. cbn [andb].
  pose proof (length_emit ai d cr ace). rewrite take_ge by lia.
  rewrite IH, app_assoc; [reflexivity|]. rewrite length_app. lia.
Qed.

Lemma ComputeInheritedACL_ACEs parent d cr child :
  ComputeInheritedACL (Some parent) d cr = Some child ->
  acl_ACEs child =
    map expandGenericACE (inherit_loop (acl_ACEs parent) (acl_AutoInherited parent) d cr []) /\
  acl_AutoInherited child = acl_AutoInherited parent.
Proof.
  unfold ComputeInheritedACL. destruct (inherit_loop _ _ _ _ _); [discriminate|].
  now injection 1 as <-.
Qed.

Lemma expandGenericACE_fields e :
  ace_Flag (expandGenericACE e) = ace_Flag e /\ ace_Type (expandGenericACE e) = ace_Type e /\
  ace_Who (expandGenericACE e) = ace_Who e /\
  IsInheritOnly (expandGenericACE e) = IsInheritOnly e.
Proof. unfold expandGenericACE, IsInheritOnly. now destruct (has _ _) eqn:E; cbn; rewrite ?E. Qed.

(** Every ACE of a child comes from [emit] of a parent ACE, generic bits
    expanded. *)
Lemma child_ace_origin parent d cr child e :
  ComputeInheritedACL (Some parent) d cr = Some child -> In e (acl_ACEs child) ->
  exists p e', In p (acl_ACEs parent) /\ In e' (emit (acl_AutoInherited parent) d cr p) /\
               e = expandGenericACE e'.
Proof.
  intros H Hin. apply ComputeInheritedACL_ACEs in H as [E _]. rewrite E in Hin.
  apply in_map_iff in Hin as (e' & <- & Hin). apply inherit_loop_In in Hin as [[]|(p & ? & ?)].
  eauto.
Qed.

(** Flag arithmetic: [has] of a mask built by the emission code. *)
Lemma has_ldiff_self x m g : g .& m = g -> has (x .&^ m) g = false.
Proof.
  intros Hg. unfold has. apply negb_false_iff, Z.eqb_eq. apply Z.bits_inj'. intros i Hi.
  rewrite Z.land_spec, Z.ldiff_spec, Z.bits_0.
  destruct (Z.testbit g i) eqn:E; [|btauto].
  rewrite <- Hg, Z.land_spec in E. apply andb_true_iff in E as [_ ->]. btauto.
Qed.

Lemma has_ldiff_other x m g : g .& m = 0 -> has (x .&^ m) g = has x g.
Proof.
  intros Hg. unfold has. do 2 f_equal. apply Z.bits_inj'. intros i Hi.
  rewrite !Z.land_spec, Z.ldiff_spec.
  assert (Z.testbit (g .& m) i = false) as Hb by (rewrite Hg; apply Z.bits_0).
  rewrite Z.land_spec in Hb. destruct (Z.testbit g i), (Z.testbit m i); simpl in *; btauto || congruence.
Qed.

Ltac flag_simp :=
  repeat match goal with
  | |- context [has (?x .| ?y) ?g] => rewrite (has_lor x y g)
  | |- context [has (?x .&^ ?m) ?g] =>
      first [ rewrite (has_ldiff_self x m g eq_refl) | rewrite (has_ldiff_other x m g eq_refl) ]
  | |- context [has (or_if ?c ?b ?x) ?g] => rewrite (has_or_if c b x g eq_refl)
  end.

Lemma inherited_bit_has ai :
  has (inherited_bit ai) ACE4_INHERITED_ACE = ai /\
  has (inherited_bit ai) ACE4_INHERIT_ONLY_ACE = false /\
  inherited_bit ai .& inheritanceMask = 0.
Proof. now destruct ai. Qed.

Lemma substituteCreator_resolves who cr : isCreatorWho (substituteCreator who cr) = false.
Proof.
  assert (H1 : forall s, isCreatorWho ("sid:" +:+ s) = false) by reflexivity.
  assert (H2 : forall n, isCreatorWho (dec_string n +:+ "@localdomain") = false).
  { intros n. pose proof (dec_string_nonempty n) as Hn. destruct (dec_string n) as [|a s]; [easy|].
    unfold isCreatorWho. apply orb_false_iff; split; apply String.eqb_neq; intros E;
      pose proof (f_equal String.length E) as L; rewrite string_length_app in L; simpl in L;
      (destruct s; [discriminate E | simpl in L; lia]). }
  unfold substituteCreator.
  destruct (String.eqb_spec who SpecialCreatorOwner) as [_|N1]; [destruct (negb _); auto|].
  destruct (String.eqb_spec who SpecialCreatorGroup) as [_|N2]; [destruct (negb _); auto|].
  unfold isCreatorWho. apply orb_false_iff. split; now apply String.eqb_neq.
Qed.

Lemma substituteCreator_other who cr : isCreatorWho who = false -> substituteCreator who cr = who.
Proof.
  unfold isCreatorWho, substituteCreator. rewrite orb_false_iff. now intros [-> ->].
Qed.

Lemma flags_no_inherit x m ib :
  inheritanceMask .& m = inheritanceMask -> ib .& inheritanceMask = 0 ->
  (x .&^ m .&^ ACE4_INHERITED_ACE .| ib) .& inheritanceMask = 0.
Proof.
  intros Hm Hib. rewrite Z.land_lor_distr_l, Hib, Z.lor_0_r.
  apply Z.bits_inj'. intros i Hi. rewrite Z.land_spec, !Z.ldiff_spec, Z.bits_0.
  destruct (Z.testbit inheritanceMask i) eqn:E; [|btauto].
  rewrite <- Hm, Z.land_spec in E. apply andb_true_iff in E as [_ ->]. btauto.
Qed.

Lemma effective_mask_stripped e :
  IsInheritOnly e = false -> ace_AccessMask (expandGenericACE e) .& genericMask = 0.
Proof.
  unfold expandGenericACE, IsInheritOnly. intros ->. apply ExpandGenericMask_stripped.
Qed.

Lemma inheritOnly_of_mask e : ace_Flag e .& inheritanceMask = 0 -> IsInheritOnly e = false.
Proof. intros H. now apply (has_stripped _ inheritanceMask). Qed.

Lemma emit_file_child ai cr p e :
  In e (emit ai false cr p) ->
  ace_Flag e .& inheritanceMask = 0 /\ IsInherited e = ai /\ isCreatorWho (ace_Who e) = false.
Proof.
  destruct (inherited_bit_has ai) as (Hi & Ho & Hm).
  unfold emit, inheritable, applies. rewrite orb_false_r. cbn [andb negb orb].
  destruct (hasOI p); [|easy]. destruct (isCreatorWho (ace_Who p)) eqn:W; intros [<-|[]].
  - cbn. auto using substituteCreator_resolves.
  - unfold IsInherited, effective_flags. rewrite orb_true_r. cbn [set_Flag ace_Flag ace_Who].
    split_and!; [now apply flags_no_inherit| |exact W].
    flag_simp. now rewrite Hi.
Qed.

(** every ACE a new file inherits is effective and final. It carries no
    inheritance flag, its INHERITED bit is set exactly when the parent ACL is
    auto-inherited, its access mask has no unexpanded GENERIC_* bit, and no
    CREATOR_OWNER or CREATOR_GROUP placeholder is left. *)
Theorem file_child_aces parent cr child e :
  ComputeInheritedACL (Some parent) false cr = Some child ->
  In e (acl_ACEs child) ->
  ace_Flag e .& inheritanceMask = 0 /\
  IsInherited e = acl_AutoInherited parent /\
  ace_AccessMask e .& genericMask = 0 /\
  isCreatorWho (ace_Who e) = false.
Proof.
  intros H Hin. destruct (child_ace_origin _ _ _ _ _ H Hin) as (p & e' & _ & He & ->).
  apply emit_file_child in He as (Hm & Hi & Hw).
  destruct (expandGenericACE_fields e') as (Hf & _ & Hwho & _).
  unfold IsInherited in *. rewrite Hf, Hwho. split_and!;
  auto using effective_mask_stripped, inheritOnly_of_mask.
Qed.

(** no inherited ACL exceeds the ACE cap, whatever the size of the parent
    ACL. *)
Theorem inherited_acl_bounded parent d cr child :
  ComputeInheritedACL parent d cr = Some child ->
  (length (acl_ACEs child) <= MaxACECount)%nat.
Proof.
  destruct parent as [parent|]; [|discriminate]. intros H.
  apply ComputeInheritedACL_ACEs in H as [-> _]. rewrite length_map.
  apply inherit_loop_length. unfold MaxACECount. simpl. lia.
Qed.

(** What an access check at the child sees of one ACE. *)
Definition ace_effect (e : ACE) : Z * Z * string := (ace_Type e, ace_AccessMask e, ace_Who e).

Definition effective (aces : list ACE) : list ACE :=
  List.filter (fun e => negb (IsInheritOnly e)) aces.

Lemma effective_emit ai d cr p :
  map ace_effect (effective (map expandGenericACE (emit ai d cr p))) =
  if applies d p
  then [(ace_Type p, ExpandGenericMask (ace_AccessMask p), substituteCreator (ace_Who p) cr)]
  else [].
Proof.
  destruct (inherited_bit_has ai) as (Hi & Ho & Hm).
  assert (Hle : forall e, effective [e] = if IsInheritOnly e then [] else [e])
    by (intros; unfold effective; cbn; now destruct (IsInheritOnly _)).
  unfold emit. destruct (applies d p) eqn:A.
  - assert (inheritable d p = true) as ->
      by (unfold inheritable, applies in *; destruct d, (hasOI p), (hasCI p); easy).
    cbn [negb]. destruct (isCreatorWho (ace_Who p)) eqn:W.
    + cbn [map]. unfold effective. cbn [List.filter].
      destruct (expandGenericACE_fields
        (set_Flag (inherited_bit ai) (set_Who (substituteCreator (ace_Who p) cr) p)))
        as (_ & _ & _ & ->).
      unfold IsInheritOnly at 1. cbn [set_Flag ace_Flag]. rewrite Ho. cbn [negb map]. f_equal.
      { unfold expandGenericACE. cbn [set_Flag ace_Flag]. now rewrite Ho. }
      destruct (d && negb (hasNP p)); [|reflexivity]. cbn [map List.filter].
      destruct (expandGenericACE_fields (set_Flag (preserved_creator_flags p (inherited_bit ai)) p))
        as (_ & _ & _ & ->).
      unfold IsInheritOnly, preserved_creator_flags. cbn [set_Flag ace_Flag]. flag_simp.
      change (has ACE4_INHERIT_ONLY_ACE ACE4_INHERIT_ONLY_ACE) with true.
      now rewrite orb_true_r.
    + cbn [map]. rewrite Hle.
      destruct (expandGenericACE_fields (set_Flag (effective_flags d p (inherited_bit ai)) p))
        as (_ & _ & _ & ->).
      assert (IsInheritOnly (set_Flag (effective_flags d p (inherited_bit ai)) p) = false) as E.
      { unfold IsInheritOnly, effective_flags. cbn [set_Flag ace_Flag].
        destruct (hasNP p || negb d); flag_simp; now rewrite Ho. }
      rewrite E. cbn [map]. unfold expandGenericACE, IsInheritOnly in *.
      rewrite E, substituteCreator_other by assumption. reflexivity.
  - destruct (negb (inheritable d p)); [reflexivity|]. destruct (hasNP p); [reflexivity|].
    cbn [map]. rewrite Hle.
    match goal with |- context [expandGenericACE ?x] =>
      destruct (expandGenericACE_fields x) as (_ & _ & _ & ->) end.
    unfold IsInheritOnly. cbn [set_Flag ace_Flag]. flag_simp.
    change (has ACE4_INHERIT_ONLY_ACE ACE4_INHERIT_ONLY_ACE) with true.
    now rewrite orb_true_r.
Qed.

Lemma effective_app l1 l2 : effective (l1 ++ l2) = effective l1 ++ effective l2.
Proof. apply List.filter_app. Qed.

Lemma effective_flat_map ai d cr aces :
  map ace_effect (effective (map expandGenericACE (flat_map (emit ai d cr) aces))) =
  map (fun p => (ace_Type p, ExpandGenericMask (ace_AccessMask p),
                 substituteCreator (ace_Who p) cr)) (List.filter (applies d) aces).
Proof.
  induction aces as [|p aces IH]; [reflexivity|]. cbn [flat_map List.filter].
  rewrite map_app, effective_app, map_app, effective_emit, IH. now destruct (applies d p).
Qed.

(** below the cap, the ACEs that take effect on a new child are exactly the
    parent ACEs that apply to its kind, in the parent's order, with the same
    type, the generic bits expanded and the creator placeholder replaced by the
    creator: nothing else becomes effective and nothing applicable is lost. *)
Theorem inherited_effective_aces parent d cr child :
  ComputeInheritedACL (Some parent) d cr = Some child ->
  (2 * length (acl_ACEs parent) <= MaxACECount)%nat ->
  map ace_effect (effective (acl_ACEs child)) =
  map (fun p => (ace_Type p, ExpandGenericMask (ace_AccessMask p),
                 substituteCreator (ace_Who p) cr))
      (List.filter (applies d) (acl_ACEs parent)).
Proof.
  intros H Hlen. apply ComputeInheritedACL_ACEs in H as [-> _].
  rewrite inherit_loop_emit by (simpl; lia). apply effective_flat_map.
Qed.

(** ** Re-propagation *)

Lemma emit_inherited ai d cr p e : ai = true -> In e (emit ai d cr p) -> IsInherited e = true.
Proof.
  intros -> H. unfold IsInherited.
  assert (forall x, has (x .| inherited_bit true) ACE4_INHERITED_ACE = true) as Hx
    by (intros; rewrite has_lor; apply orb_true_r).
  revert H. unfold emit, preserved_creator_flags, effective_flags.
  repeat case_match; cbn [In]; intros H'; destruct_or?; subst; cbn [set_Flag ace_Flag];
    auto; contradiction.
Qed.

Lemma filter_all_false {A} (f : A -> bool) l :
  (forall x, In x l -> f x = false) -> List.filter f l = [].
Proof.
  induction l as [|x l IH]; intros H; [reflexivity|]. cbn.
  rewrite (H x) by now left. apply IH. intros. apply H. now right.
Qed.

Lemma filter_all_true {A} (f : A -> bool) l :
  (forall x, In x l -> f x = true) -> List.filter f l = l.
Proof.
  induction l as [|x l IH]; intros H; [reflexivity|]. cbn.
  rewrite (H x) by now left. f_equal. apply IH. intros. apply H. now right.
Qed.

Lemma inherited_none_explicit parent d cr child :
  ComputeInheritedACL (Some parent) d cr = Some child -> acl_AutoInherited parent = true ->
  List.filter (fun e => negb (IsInherited e)) (acl_ACEs child) = [].
Proof.
  intros H Ha. apply filter_all_false. intros e He.
  destruct (child_ace_origin _ _ _ _ _ H He) as (p & e' & _ & Hin & ->).
  destruct (expandGenericACE_fields e') as (Hf & _). unfold IsInherited. rewrite Hf.
  apply negb_false_iff. eapply emit_inherited; eauto.
Qed.

Lemma explicit_idem aces :
  List.filter (fun e => negb (IsInherited e)) (List.filter (fun e => negb (IsInherited e)) aces) =
  List.filter (fun e => negb (IsInherited e)) aces.
Proof. apply filter_all_true. intros e He. now apply filter_In in He. Qed.

(** with an auto-inherited parent, re-propagating its ACL onto a child that
    already received it changes nothing: every inherited ACE is recognised by
    its INHERITED bit and replaced by itself, so repeated propagation passes do
    not accumulate entries. *)
Theorem PropagateACL_idempotent parent existing d cr :
  acl_AutoInherited parent = true ->
  PropagateACL (Some parent) (PropagateACL (Some parent) existing d cr) d cr =
  PropagateACL (Some parent) existing d cr.
Proof.
  intros Ha. unfold PropagateACL.
  pose proof (inherited_none_explicit parent d cr) as Hinh.
  destruct (ComputeInheritedACL (Some parent) d cr) as [child|] eqn:C.
  - specialize (Hinh child eq_refl Ha).
    assert (Hchild : child = mkACL (acl_ACEs child) "" false true false None).
    { unfold ComputeInheritedACL in C. destruct (inherit_loop _ _ _ _ _); [discriminate|].
      rewrite Ha in C. now injection C as <-. }
    destruct existing as [ex|]; cbn [acl_ACEs acl_Source acl_Protected acl_NullDACL].
    + destruct (List.filter _ (acl_ACEs ex)) eqn:F; cbn [acl_ACEs acl_Source acl_Protected acl_NullDACL].
      * cbn [app]. rewrite Hinh. reflexivity.
      * rewrite List.filter_app, Hinh, <- F, explicit_idem, app_nil_r, F. reflexivity.
    + rewrite Hinh, Ha, Hchild. reflexivity.
  - destruct existing as [ex|]; [|reflexivity].
    destruct (List.filter _ (acl_ACEs ex)) eqn:F; [reflexivity|].
    cbn [acl_ACEs acl_Source acl_Protected acl_NullDACL].
    rewrite app_nil_r, <- F, explicit_idem, F, app_nil_r. reflexivity.
Qed.

(** a propagation pass keeps the child's explicit ACEs in front, in order,
    and the child's own Protected, Source and NullDACL properties; the System
    ACL of the child is not carried over. *)
Theorem PropagateACL_preserves_explicit parent ex d cr r :
  PropagateACL parent (Some ex) d cr = Some r ->
  (exists inh, acl_ACEs r = List.filter (fun e => negb (IsInherited e)) (acl_ACEs ex) ++ inh) /\
  acl_Protected r = acl_Protected ex /\ acl_Source r = acl_Source ex /\
  acl_NullDACL r = acl_NullDACL ex /\ acl_SACL r = None.
Proof.
  unfold PropagateACL. intros H.
  destruct (List.filter _ (acl_ACEs ex)), (ComputeInheritedACL parent d cr); try discriminate;
    injection H as <-; cbn; eauto 6.
Qed.

(** on a directory child, a parent ACE that only propagates to files
    (OBJECT_INHERIT without CONTAINER_INHERIT) keeps a pre-existing INHERITED
    bit even when the parent ACL is not auto-inherited, although the documented
    rule sets INHERITED on a child ACE iff the parent is auto-inherited. *)
Theorem oi_only_keeps_stale_inherited_bit parent p cr :
  acl_AutoInherited parent = false -> acl_ACEs parent = [p] ->
  hasOI p = true -> hasCI p = false -> hasNP p = false -> IsInherited p = true ->
  exists child e, ComputeInheritedACL (Some parent) true cr = Some child /\
                  acl_ACEs child = [e] /\ IsInherited e = true.
Proof.
  intros Ha Hp HO HC HN HI. unfold ComputeInheritedACL. rewrite Hp, Ha.
  rewrite inherit_loop_emit by (simpl; unfold MaxACECount; lia). cbn [flat_map app].
  unfold emit, inheritable, applies. rewrite HO, HC, HN. cbn [negb andb orb app map].
  eexists _, _. split_and!; [reflexivity|reflexivity|].
  match goal with |- IsInherited (expandGenericACE ?x) = _ =>
    destruct (expandGenericACE_fields x) as (Hf & _) end.
  unfold IsInherited in *. rewrite Hf. cbn [set_Flag ace_Flag]. flag_simp. now rewrite HI.
Qed.

(** ** The theorems at a concrete parent *)

Definition sample_creator : Creator := mkCreator 1000 100 "".
Definition sample_parent : ACL :=
  mkACL [mkACE ACE4_ACCESS_ALLOWED_ACE_TYPE (ACE4_FILE_INHERIT_ACE .| ACE4_DIRECTORY_INHERIT_ACE)
           ACE4_READ_DATA SpecialCreatorOwner false;
         mkACE ACE4_ACCESS_ALLOWED_ACE_TYPE 0 ACE4_WRITE_DATA SpecialEveryone false]
    "" false true false None.
Definition sample_child (d : bool) : ACL :=
  default (mkACL [] "" false false false None) (ComputeInheritedACL (Some sample_parent) d sample_creator).

Lemma file_child_aces_witness :
  exists e, In e (acl_ACEs (sample_child false)) /\ ace_Flag e .& inheritanceMask = 0 /\ IsInherited e = true.
Proof.
  exists (List.hd (mkACE 0 0 0 "" false) (acl_ACEs (sample_child false))).
  assert (In (List.hd (mkACE 0 0 0 "" false) (acl_ACEs (sample_child false))) (acl_ACEs (sample_child false))) as Hin
    by (vm_compute; left; reflexivity).
  split; [exact Hin|].
  destruct (file_child_aces sample_parent sample_creator (sample_child false) _ eq_refl Hin) as (H1 & H2 & _).
  split; [exact H1|exact H2].
Defined.

Lemma inherited_effective_aces_witness :
  map ace_effect (effective (acl_ACEs (sample_child true))) =
  map (fun p => (ace_Type p, ExpandGenericMask (ace_AccessMask p), substituteCreator (ace_Who p) sample_creator))
      (List.filter (applies true) (acl_ACEs sample_parent)).
Proof.
  refine (inherited_effective_aces sample_parent true sample_creator (sample_child true) eq_refl _).
  vm_compute. lia.
Defined.

Lemma PropagateACL_idempotent_witness :
  PropagateACL (Some sample_parent) (PropagateACL (Some sample_parent) (Some sample_parent) true sample_creator)
    true sample_creator =
  PropagateACL (Some sample_parent) (Some sample_parent) true sample_creator.
Proof. apply (PropagateACL_idempotent sample_parent). reflexivity. Defined.

Lemma PropagateACL_preserves_explicit_witness :
  exists r, PropagateACL (Some sample_parent) (Some sample_parent) true sample_creator = Some r /\
    acl_Protected r = false /\
    exists inh, acl_ACEs r = List.filter (fun e => negb (IsInherited e)) (acl_ACEs sample_parent) ++ inh.
Proof.
  eexists. split; [vm_compute; reflexivity|]. split; [reflexivity|].
  refine (proj1 (PropagateACL_preserves_explicit (Some sample_parent) sample_parent true sample_creator _ _)).
  vm_compute. reflexivity.
Defined.
