(* ===== verification/AclMode.v ===== *)
(** * ACLs and POSIX mode bits ([pkg/metadata/acl/mode.go], [synthesize.go],
    [validate.go])

    Deriving a mode from an ACL, rewriting an ACL on chmod, synthesizing an
    ACL from a mode, and validating a client-supplied ACL. *)

From S2P Require Import Prelude AclTypes AclEvaluate AclInherit.

Definition modeRead : Z := 0x4.
Definition modeWrite : Z := 0x2.
Definition modeExecute : Z := 0x1.

Definition rwxMaskBits : Z :=
  ACE4_READ_DATA .| ACE4_WRITE_DATA .| ACE4_APPEND_DATA .| ACE4_EXECUTE.

Definition maskToRWX (mask : Z) : Z :=
  let rwx := 0 in
  let rwx := or_if (has mask ACE4_READ_DATA) modeRead rwx in
  let rwx := or_if (has mask (ACE4_WRITE_DATA .| ACE4_APPEND_DATA)) modeWrite rwx in
  or_if (has mask ACE4_EXECUTE) modeExecute rwx.

Definition rwxToMask (rwx : Z) : Z :=
  let mask := 0 in
  let mask := or_if (has rwx modeRead) ACE4_READ_DATA mask in
  let mask := or_if (has rwx modeWrite) (ACE4_WRITE_DATA .| ACE4_APPEND_DATA) mask in
  or_if (has rwx modeExecute) ACE4_EXECUTE mask.

(** The loop of [deriveMode], over (ownerBits, groupBits, otherBits). *)
Definition derive_step (acc : Z * Z * Z) (ace : ACE) : Z * Z * Z :=
  let '(ownerBits, groupBits, otherBits) := acc in
  if negb (ace_Type ace =? ACE4_ACCESS_ALLOWED_ACE_TYPE) || IsInheritOnly ace then acc
  else
    let rwx := maskToRWX (ace_AccessMask ace) in
    if String.eqb (ace_Who ace) SpecialOwner then (ownerBits .| rwx, groupBits, otherBits)
    else if String.eqb (ace_Who ace) SpecialGroup then (ownerBits, groupBits .| rwx, otherBits)
    else if String.eqb (ace_Who ace) SpecialEveryone then (ownerBits, groupBits, otherBits .| rwx)
    else acc.

Definition deriveMode (a : option ACL) : Z :=
  match a with
  | None => 0
  | Some a =>
      let '(ownerBits, groupBits, otherBits) := fold_left derive_step (acl_ACEs a) (0, 0, 0) in
      Z.shiftl ownerBits 6 .| Z.shiftl groupBits 3 .| otherBits
  end.

(** The body of the chmod loop: the ACE after [AdjustACLForMode]. *)
Definition adjust_ace (newMode : Z) (ace : ACE) : ACE :=
  let ownerRWX := Z.shiftr newMode 6 .& 0x7 in
  let groupRWX := Z.shiftr newMode 3 .& 0x7 in
  let otherRWX := newMode .& 0x7 in
  let rewrite_mask triplet :=
    if ace_Type ace =? ACE4_ACCESS_ALLOWED_ACE_TYPE then
      set_AccessMask ((ace_AccessMask ace .&^ rwxMaskBits) .| rwxToMask triplet) ace
    else if ace_Type ace =? ACE4_ACCESS_DENIED_ACE_TYPE then
      let denyMask := rwxToMask (0x7 .&^ triplet) in
      set_AccessMask ((ace_AccessMask ace .&^ rwxMaskBits) .| denyMask) ace
    else ace in
  if String.eqb (ace_Who ace) SpecialOwner then rewrite_mask ownerRWX
  else if String.eqb (ace_Who ace) SpecialGroup then rewrite_mask groupRWX
  else if String.eqb (ace_Who ace) SpecialEveryone then rewrite_mask otherRWX
  else ace.

Definition AdjustACLForMode (a : option ACL) (newMode : Z) : option ACL :=
  match a with
  | None => None
  | Some a =>
      Some (mkACL (map (adjust_ace newMode) (acl_ACEs a)) (acl_Source a) (acl_Protected a)
              (acl_AutoInherited a) (acl_NullDACL a) (acl_SACL a))
  end.

(** ** Synthesis from a mode *)

Definition FullAccessMask : Z :=
  ACE4_READ_DATA .| ACE4_WRITE_DATA .| ACE4_APPEND_DATA .|
  ACE4_READ_NAMED_ATTRS .| ACE4_WRITE_NAMED_ATTRS .| ACE4_EXECUTE .|
  ACE4_DELETE_CHILD .| ACE4_READ_ATTRIBUTES .| ACE4_WRITE_ATTRIBUTES .|
  ACE4_DELETE .| ACE4_READ_ACL .| ACE4_WRITE_ACL .| ACE4_WRITE_OWNER .| ACE4_SYNCHRONIZE.

Definition alwaysGrantedMask : Z :=
  ACE4_READ_ACL .| ACE4_WRITE_ACL .| ACE4_WRITE_OWNER .| ACE4_DELETE .| ACE4_SYNCHRONIZE.

Definition rwxToFullMask (rwx : Z) (isDirectory : bool) : Z :=
  let mask := 0 in
  let mask := or_if (has rwx modeRead)
    (ACE4_READ_DATA .| ACE4_READ_ATTRIBUTES .| ACE4_READ_NAMED_ATTRS .|
     ACE4_READ_ACL .| ACE4_SYNCHRONIZE) mask in
  let mask :=
    if has rwx modeWrite then
      let mask := mask .| (ACE4_WRITE_DATA .| ACE4_APPEND_DATA .|
                           ACE4_WRITE_ATTRIBUTES .| ACE4_WRITE_NAMED_ATTRS) in
      or_if isDirectory ACE4_DELETE_CHILD mask
    else mask in
  or_if (has rwx modeExecute)
    (ACE4_EXECUTE .| ACE4_READ_ATTRIBUTES .| ACE4_SYNCHRONIZE) mask.

(** A freshly built ALLOW ACE ([NFSNumericTwin] at its zero value). *)
Definition allow_ace (flag mask : Z) (who : string) : ACE :=
  mkACE ACE4_ACCESS_ALLOWED_ACE_TYPE flag mask who false.

(** [ownerUID] and [ownerGID] are reserved parameters the code does not use. *)
Definition SynthesizeFromMode (mode ownerUID ownerGID : Z) (isDirectory : bool) : ACL :=
  let ownerRWX := Z.shiftr mode 6 .& 7 in
  let groupRWX := Z.shiftr mode 3 .& 7 in
  let otherRWX := mode .& 7 in
  let inheritFlags :=
    if isDirectory then ACE4_FILE_INHERIT_ACE .| ACE4_DIRECTORY_INHERIT_ACE else 0 in
  let aces :=
    [allow_ace inheritFlags (rwxToFullMask ownerRWX isDirectory .| alwaysGrantedMask) SpecialOwner] in
  let aces :=
    if negb (groupRWX =? 0)
    then aces ++ [allow_ace inheritFlags (rwxToFullMask groupRWX isDirectory) SpecialGroup]
    else aces in
  let aces :=
    if negb (otherRWX =? 0)
    then aces ++ [allow_ace inheritFlags (rwxToFullMask otherRWX isDirectory) SpecialEveryone]
    else aces in
  let aces := aces ++ [allow_ace inheritFlags FullAccessMask SpecialSystem;
                       allow_ace inheritFlags FullAccessMask SpecialAdministrators] in
  mkACL aces ACLSourcePOSIXDerived false false false None.

Definition SynthesizeWindowsDefault : ACL :=
  mkACL [allow_ace 0 FullAccessMask SpecialOwner; allow_ace 0 FullAccessMask SpecialSystem]
    ACLSourceWindowsDefault true false false None.

(** ** Validation *)

Inductive ACLError := ErrACETooMany | ErrACEInvalidType | ErrACEEmptyWho | ErrACLTooLarge.

Definition aceWireOverhead : Z := 16.

Definition xdrPad (n : Z) : Z := (n + 3) .&^ 3.

Definition ValidateACE (ace : ACE) : option ACLError :=
  if ace_Type ace >? ACE4_SYSTEM_ALARM_ACE_TYPE then Some ErrACEInvalidType
  else if String.eqb (ace_Who ace) "" then Some ErrACEEmptyWho
  else None.

Definition who_len (ace : ACE) : Z := Z.of_nat (String.length (ace_Who ace)).

(** The size loop: [true] when some prefix exceeds [MaxDACLSize]. *)
Fixpoint size_exceeded (aces : list ACE) (size : Z) : bool :=
  match aces with
  | [] => false
  | ace :: rest =>
      let size := size + (aceWireOverhead + xdrPad (who_len ace)) in
      if size >? MaxDACLSize then true else size_exceeded rest size
  end.

Fixpoint first_ace_error (aces : list ACE) : option ACLError :=
  match aces with
  | [] => None
  | ace :: rest =>
      match ValidateACE ace with
      | Some e => Some e
      | None => first_ace_error rest
      end
  end.

(** [None] is the nil error. *)
Definition ValidateACL (a : option ACL) : option ACLError :=
  match a with
  | None => None
  | Some a =>
      let sacl := match acl_SACL a with Some s => s | None => [] end in
      if (MaxACECount <? length (acl_ACEs a))%nat then Some ErrACETooMany
      else if size_exceeded (acl_ACEs a) 4 then Some ErrACLTooLarge
      else match first_ace_error (acl_ACEs a) with
      | Some e => Some e
      | None =>
          if (MaxACECount <? length sacl)%nat then Some ErrACETooMany
          else if size_exceeded sacl 4 then Some ErrACLTooLarge
          else first_ace_error sacl
      end
  end.

(** ** chmod round trip *)

Lemma maskToRWX_rewrite x t :
  0 <= t < 8 -> maskToRWX ((x .&^ rwxMaskBits) .| rwxToMask t) = t.
Proof.
  intros Ht. unfold maskToRWX. rewrite !has_lor.
  rewrite !(has_ldiff_self x rwxMaskBits) by reflexivity. cbn [orb].
  apply Z.eqb_eq. revert t Ht. apply all_below_spec. vm_compute. reflexivity.
Qed.

Lemma triplet_range x : 0 <= x .& 7 < 8.
Proof. apply (land_ones_bound x 3). lia. Qed.

Definition effective_allow (who : string) (e : ACE) : bool :=
  (ace_Type e =? ACE4_ACCESS_ALLOWED_ACE_TYPE) && negb (IsInheritOnly e) &&
  String.eqb (ace_Who e) who.

(** The ACL has an effective ALLOW ACE for a special principal. *)
Definition has_allow (who : string) (aces : list ACE) : bool := existsb (effective_allow who) aces.

Lemma adjust_ace_fields m e :
  ace_Type (adjust_ace m e) = ace_Type e /\ ace_Flag (adjust_ace m e) = ace_Flag e /\
  ace_Who (adjust_ace m e) = ace_Who e /\ IsInheritOnly (adjust_ace m e) = IsInheritOnly e.
Proof. unfold adjust_ace. repeat case_match; auto. Qed.

(** Appending a constant contribution once or several times is the same. *)
Definition contrib (c : bool) (t acc : Z) : Z := if c then acc .| t else acc.

Lemma contrib_idem c c' t acc : contrib c t (contrib c' t acc) = contrib (c' || c) t acc.
Proof. destruct c, c'; cbn; rewrite <- ?Z.lor_assoc, ?Z.lor_diag; reflexivity. Qed.

Lemma derive_step_adjust m o g t e :
  derive_step (o, g, t) (adjust_ace m e) =
  (contrib (effective_allow SpecialOwner e) (Z.shiftr m 6 .& 7) o,
   contrib (effective_allow SpecialGroup e) (Z.shiftr m 3 .& 7) g,
   contrib (effective_allow SpecialEveryone e) (m .& 7) t).
Proof.
  unfold derive_step. destruct (adjust_ace_fields m e) as (-> & _ & -> & ->).
  unfold effective_allow, contrib, adjust_ace.
  destruct (ace_Type e =? ACE4_ACCESS_ALLOWED_ACE_TYPE), (IsInheritOnly e); try reflexivity.
  cbn [negb orb andb].
  destruct (String.eqb_spec (ace_Who e) SpecialOwner) as [E|_];
    [rewrite ?E; cbn -[Z.shiftr Z.land Z.ldiff Z.lor maskToRWX rwxToMask]; rewrite maskToRWX_rewrite by apply triplet_range; reflexivity|].
  destruct (String.eqb_spec (ace_Who e) SpecialGroup) as [E|_];
    [rewrite ?E; cbn -[Z.shiftr Z.land Z.ldiff Z.lor maskToRWX rwxToMask]; rewrite maskToRWX_rewrite by apply triplet_range; reflexivity|].
  destruct (String.eqb_spec (ace_Who e) SpecialEveryone) as [E|_];
    [rewrite ?E; cbn -[Z.shiftr Z.land Z.ldiff Z.lor maskToRWX rwxToMask]; rewrite maskToRWX_rewrite by apply triplet_range; reflexivity|].
  reflexivity.
Qed.

Lemma derive_fold_adjust m aces o g t :
  fold_left derive_step (map (adjust_ace m) aces) (o, g, t) =
  (contrib (has_allow SpecialOwner aces) (Z.shiftr m 6 .& 7) o,
   contrib (has_allow SpecialGroup aces) (Z.shiftr m 3 .& 7) g,
   contrib (has_allow SpecialEveryone aces) (m .& 7) t).
Proof.
  revert o g t. induction aces as [|e aces IH]; intros o g t; [reflexivity|].
  cbn [map fold_left]. rewrite derive_step_adjust, IH, !contrib_idem. reflexivity.
Qed.

(** chmod followed by reading the mode back: after [AdjustACLForMode] the
    derived mode is exactly the requested rwx triplet for every special
    principal that has an effective ALLOW ACE, and zero for the others. *)
Theorem chmod_derive_roundtrip a m :
  deriveMode (AdjustACLForMode (Some a) m) =
  Z.shiftl (if has_allow SpecialOwner (acl_ACEs a) then Z.shiftr m 6 .& 7 else 0) 6 .|
  Z.shiftl (if has_allow SpecialGroup (acl_ACEs a) then Z.shiftr m 3 .& 7 else 0) 3 .|
  (if has_allow SpecialEveryone (acl_ACEs a) then m .& 7 else 0).
Proof.
  unfold deriveMode, AdjustACLForMode. cbn [acl_ACEs]. rewrite derive_fold_adjust. reflexivity.
Qed.

Lemma rwxToMask_in t : rwxToMask t .&^ rwxMaskBits = 0.
Proof.
  unfold rwxToMask, or_if. destruct (has t modeRead), (has t modeWrite), (has t modeExecute);
    reflexivity.
Qed.

Lemma adjust_ace_mask m e :
  ace_AccessMask (adjust_ace m e) .&^ rwxMaskBits = ace_AccessMask e .&^ rwxMaskBits.
Proof.
  assert (H : forall x t,
    ((x .&^ rwxMaskBits) .| rwxToMask t) .&^ rwxMaskBits = x .&^ rwxMaskBits).
  { intros x t. apply Z.bits_inj'. intros i Hi.
    assert (Z.testbit (rwxToMask t .&^ rwxMaskBits) i = false) as Hb
      by (rewrite rwxToMask_in; apply Z.bits_0).
    rewrite Z.ldiff_spec in Hb. rewrite Z.ldiff_spec, Z.lor_spec, Z.ldiff_spec.
    destruct (Z.testbit x i), (Z.testbit rwxMaskBits i), (Z.testbit (rwxToMask t) i);
      simpl in *; congruence. }
  unfold adjust_ace. repeat case_match; cbn [set_AccessMask ace_AccessMask]; auto.
Qed.

(** chmod only touches what it may: the ACL keeps its length, its SACL and
    its descriptor flags; every ACE keeps its type, flags, principal and all
    mask bits outside rwx; and an ACE of a named principal is unchanged. *)
Theorem chmod_frame a m :
  exists a', AdjustACLForMode (Some a) m = Some a' /\
  acl_SACL a' = acl_SACL a /\ acl_Source a' = acl_Source a /\
  acl_Protected a' = acl_Protected a /\ acl_AutoInherited a' = acl_AutoInherited a /\
  acl_NullDACL a' = acl_NullDACL a /\
  Forall2 (fun e e' =>
    ace_Type e' = ace_Type e /\ ace_Flag e' = ace_Flag e /\ ace_Who e' = ace_Who e /\
    ace_AccessMask e' .&^ rwxMaskBits = ace_AccessMask e .&^ rwxMaskBits /\
    (isSpecialWho (ace_Who e) = false -> e' = e)) (acl_ACEs a) (acl_ACEs a').
Proof.
  eexists. split; [reflexivity|]. cbn. split_and!; auto.
  induction (acl_ACEs a) as [|e aces IH]; cbn [map]; constructor; [|exact IH].
  destruct (adjust_ace_fields m e) as (-> & -> & -> & _).
  split_and!; auto using adjust_ace_mask.
  unfold isSpecialWho, adjust_ace. rewrite !orb_false_iff. now intros [[[-> ->] ->] _].
Qed.

(** ** Synthesis *)

Lemma shiftr_land_low m k : 0 <= k <= 6 -> Z.shiftr m k .& 7 = Z.shiftr (m .& 511) k .& 7.
Proof.
  intros Hk. change 7 with (Z.ones 3). change 511 with (Z.ones 9). apply Z.bits_inj'. intros i Hi.
  rewrite !Z.land_spec, !Z.shiftr_spec, Z.land_spec, !Z.testbit_ones_nonneg by lia.
  destruct (Z.ltb_spec i 3), (Z.ltb_spec (i + k) 9); try lia; btauto.
Qed.

Lemma Synthesize_low m u g d : SynthesizeFromMode m u g d = SynthesizeFromMode (m .& 511) u g d.
Proof.
  unfold SynthesizeFromMode. rewrite <- !shiftr_land_low by lia.
  replace (m .& 511 .& 7) with (m .& 7) by (now rewrite <- Z.land_assoc). reflexivity.
Qed.

(** the ACL synthesized for a file or directory without a stored ACL
    round-trips the POSIX mode: deriving the mode from it gives back the nine
    permission bits. *)
Theorem synthesize_derive_roundtrip m uid gid d :
  deriveMode (Some (SynthesizeFromMode m uid gid d)) = m .& 0x1FF.
Proof.
  rewrite Synthesize_low. change 0x1FF with 511.
  generalize (land_ones_bound m 9 ltac:(lia)). change (Z.ones 9) with 511.
  generalize (m .& 511). intros x Hx. apply Z.eqb_eq.
  apply (all_below_spec 512 (fun x => deriveMode (Some (SynthesizeFromMode x uid gid d)) =? x));
    [|exact Hx].
  destruct d; vm_compute; reflexivity.
Qed.

(** ** Validation *)

Lemma xdrPad_spec n : 0 <= n -> n <= xdrPad n < n + 4 /\ xdrPad n mod 4 = 0.
Proof.
  intros Hn. unfold xdrPad.
  assert ((n + 3) .&^ 3 = 4 * ((n + 3) / 4)) as ->.
  { change 3 with (Z.ones 2) at 2. rewrite Z.ldiff_ones_r, Z.shiftl_mul_pow2, Z.shiftr_div_pow2 by lia.
    change (2 ^ 2) with 4. lia. }
  pose proof (Z.div_mod (n + 3) 4). pose proof (Z.mod_pos_bound (n + 3) 4).
  split; [lia|]. rewrite Z.mul_comm. apply Z_mod_mult.
Qed.

(** Serialized size: the length prefix and per ACE the fixed header and the
    padded principal. *)
Definition wire_size (aces : list ACE) : Z :=
  4 + fold_right (fun e n => aceWireOverhead + xdrPad (who_len e) + n) 0 aces.

Lemma ace_wire_pos e : 0 <= aceWireOverhead + xdrPad (who_len e).
Proof.
  pose proof (xdrPad_spec (who_len e)). unfold who_len, aceWireOverhead in *. lia.
Qed.

Lemma size_exceeded_spec aces size :
  size <= MaxDACLSize ->
  size_exceeded aces size = false <->
  size + fold_right (fun e n => aceWireOverhead + xdrPad (who_len e) + n) 0 aces <= MaxDACLSize.
Proof.
  assert (Hpos : forall l, 0 <= fold_right (fun e n => aceWireOverhead + xdrPad (who_len e) + n) 0 l).
  { induction l as [|e l IH]; cbn [fold_right]; [lia|]. pose proof (ace_wire_pos e). lia. }
  revert size. induction aces as [|e aces IH]; intros size Hs; cbn [size_exceeded fold_right].
  { split; [lia|reflexivity]. }
  destruct (Z.gtb_spec (size + (aceWireOverhead + xdrPad (who_len e))) MaxDACLSize) as [Hg|Hg].
  - split; [discriminate|]. specialize (Hpos aces). lia.
  - rewrite IH by lia. rewrite <- !Z.add_assoc. reflexivity.
Qed.

Lemma first_ace_error_spec aces :
  first_ace_error aces = None <->
  Forall (fun e => ace_Type e <= 3 /\ ace_Who e <> EmptyString) aces.
Proof.
  induction aces as [|e aces IH]; cbn [first_ace_error]; [split; [constructor|reflexivity]|].
  rewrite Forall_cons, <- IH. unfold ValidateACE, ACE4_SYSTEM_ALARM_ACE_TYPE.
  destruct (Z.gtb_spec (ace_Type e) 3); [split; [discriminate|lia]|].
  destruct (String.eqb_spec (ace_Who e) ""); [split; [discriminate|tauto]|]. tauto.
Qed.

(** A list of ACEs within the count, size and per-entry limits. *)
Definition aces_ok (aces : list ACE) : Prop :=
  (length aces <= MaxACECount)%nat /\ wire_size aces <= MaxDACLSize /\
  Forall (fun e => ace_Type e <= 3 /\ ace_Who e <> EmptyString) aces.

Lemma aces_ok_spec aces :
  aces_ok aces <->
  (MaxACECount <? length aces)%nat = false /\ size_exceeded aces 4 = false /\
  first_ace_error aces = None.
Proof.
  unfold aces_ok, wire_size. rewrite Nat.ltb_ge, first_ace_error_spec, size_exceeded_spec; [tauto|].
  unfold MaxDACLSize. lia.
Qed.

(** [ValidateACL] accepts an ACL exactly when both its DACL and its SACL
    respect the ACE count cap, the 64 KiB bound on the XDR-padded wire size and
    the per-ACE rules (known type, non-empty principal). *)
Theorem ValidateACL_spec a :
  ValidateACL (Some a) = None <->
  aces_ok (acl_ACEs a) /\ aces_ok (match acl_SACL a with Some s => s | None => [] end).
Proof.
  unfold ValidateACL. rewrite !aces_ok_spec.
  destruct (MaxACECount <? length (acl_ACEs a))%nat; [split; [discriminate|intros [[] _]; easy]|].
  destruct (size_exceeded (acl_ACEs a) 4); [split; [discriminate|intros [(_ & ? & _) _]; easy]|].
  destruct (first_ace_error (acl_ACEs a)); [split; [discriminate|intros [(_ & _ & ?) _]; easy]|].
  destruct (_ <? _)%nat; [split; [discriminate|intros [_ [? _]]; easy]|].
  destruct (size_exceeded _ _); [split; [discriminate|intros [_ (_ & ? & _)]; easy]|]. tauto.
Qed.
