(* ===== verification/AclShareGrant.v ===== *)
(** * Share-grant ACLs ([pkg/metadata/acl/share_grant.go])

    The DACL of a share root, synthesized from the control plane's
    share-permission grants, so that the filesystem layer agrees with the
    access a principal was granted on the share. *)

From S2P Require Import Prelude AclTypes AclEvaluate AclInherit AclMode.

(** [GrantLevel] is a Go int with iota constants. *)
Definition GrantLevel := Z.
Definition GrantNone : GrantLevel := 0.
Definition GrantRead : GrantLevel := 1.
Definition GrantReadWrite : GrantLevel := 2.
Definition GrantAdmin : GrantLevel := 3.

Record RootGrant := mkRootGrant {
  rg_ID : Z;
  rg_IsGroup : bool;
  rg_Level : GrantLevel;
  rg_SID : string;
}.

Definition set_Level (l : GrantLevel) (g : RootGrant) : RootGrant :=
  mkRootGrant (rg_ID g) (rg_IsGroup g) l (rg_SID g).
Definition set_IsGroup (b : bool) (g : RootGrant) : RootGrant :=
  mkRootGrant (rg_ID g) b (rg_Level g) (rg_SID g).

Definition maskForLevel (level : GrantLevel) : Z :=
  if level =? GrantRead then rwxToFullMask (modeRead .| modeExecute) true
  else if level =? GrantReadWrite then rwxToFullMask (modeRead .| modeWrite .| modeExecute) true
  else if level =? GrantAdmin then FullAccessMask
  else 0.

(** The per-SID merge: the highest level wins. *)
Definition sid_step (m : gmap string GrantLevel) (g : RootGrant) : gmap string GrantLevel :=
  if String.eqb (rg_SID g) "" then m
  else match m !! rg_SID g with
  | None => <[rg_SID g := rg_Level g]> m
  | Some lvl => if rg_Level g >? lvl then <[rg_SID g := rg_Level g]> m else m
  end.

Definition sidMerged (grants : list RootGrant) : gmap string GrantLevel :=
  fold_left sid_step grants ∅.

(** Numeric ids that also carry a SID grant. *)
Definition companion_step (s : gset Z) (g : RootGrant) : gset Z :=
  if negb (String.eqb (rg_SID g) "") && negb (rg_ID g =? 0) then {[rg_ID g]} ∪ s else s.

Definition sidCompanionIDs (grants : list RootGrant) : gset Z :=
  fold_left companion_step grants ∅.

(** The per-id merge. *)
Definition merge_step (m : gmap Z RootGrant) (g : RootGrant) : gmap Z RootGrant :=
  if negb (String.eqb (rg_SID g) "") && (rg_ID g =? 0) then m
  else match m !! rg_ID g with
  | None => <[rg_ID g := g]> m
  | Some cur =>
      let cur := if rg_Level g >? rg_Level cur then set_Level (rg_Level g) cur else cur in
      let cur := if negb (rg_IsGroup g) then set_IsGroup false cur else cur in
      <[rg_ID g := cur]> m
  end.

Definition merged (grants : list RootGrant) : gmap Z RootGrant := fold_left merge_step grants ∅.

(** Users before groups, each ascending by id. *)
Definition grant_lt (a b : RootGrant) : bool :=
  if negb (Bool.eqb (rg_IsGroup a) (rg_IsGroup b)) then negb (rg_IsGroup a)
  else rg_ID a <? rg_ID b.

Definition sid_aces (grants : list RootGrant) : list ACE :=
  let m := sidMerged grants in
  let sidKeys := sort_by String.ltb (map fst (map_to_list m)) in
  flat_map (fun s =>
    let mask := maskForLevel (default GrantNone (m !! s)) in
    if negb (mask =? 0) then [allow_ace 0 mask ("sid:" +:+ s)] else []) sidKeys.

Definition id_aces (grants : list RootGrant) : list ACE :=
  let twins := sidCompanionIDs grants in
  let sorted := sort_by grant_lt (map snd (map_to_list (merged grants))) in
  flat_map (fun g =>
    let mask := maskForLevel (rg_Level g) in
    if negb (mask =? 0) then
      let ace := allow_ace 0 mask (LocalDomainPrincipal (rg_ID g)) in
      [if bool_decide (rg_ID g ∈ twins) then set_NFSNumericTwin true ace else ace]
    else []) sorted.

Definition BuildShareRootACL (defaultLevel : GrantLevel) (grants : list RootGrant) : ACL :=
  let aces := [allow_ace 0 FullAccessMask SpecialOwner;
               allow_ace 0 FullAccessMask SpecialSystem;
               allow_ace 0 FullAccessMask SpecialAdministrators] in
  let aces := aces ++ sid_aces grants in
  let aces := aces ++ id_aces grants in
  let m := maskForLevel defaultLevel in
  let aces := if negb (m =? 0) then aces ++ [allow_ace 0 m SpecialEveryone] else aces in
  mkACL aces ACLSourceShareGrant false false false None.

(** ** Principals written by the builder *)

Lemma dec_string_no_prefix n t a p :
  (match DecimalString.uint_of_char a (Some Decimal.Nil) with Some _ => false | None => true end) = true ->
  cut_prefix (String a p) (dec_string n +:+ t) = None.
Proof.
  intros Ha. destruct (cut_prefix _ _) as [r|] eqn:E; [|reflexivity]. exfalso.
  apply cut_prefix_Some in E. symmetry in E.
  destruct (string_app_cons_inv a (p +:+ r) (dec_string n) t E) as (t' & Hd & _);
    [apply dec_string_nonempty|].
  pose proof (DecimalString.NilEmpty.usu (N.to_uint n)) as U. fold (dec_string n) in U.
  rewrite Hd in U. cbn in U.
  destruct (DecimalString.NilEmpty.uint_of_string t') as [d|]; [|now destruct a as [[] [] [] [] [] [] [] []]].
  destruct a as [[] [] [] [] [] [] [] []]; discriminate.
Qed.

(** Matching "{id}@localdomain" is numeric. *)
Lemma match_local_principal ace c orp id :
  in_u32 id -> ace_Who ace = LocalDomainPrincipal id ->
  aceMatchesWhoWithOwnerRights ace c orp =
  (id =? ec_UID c) || (id =? ec_GID c) || contains_Z id (ec_GIDs c).
Proof.
  intros Hid Hw. unfold aceMatchesWhoWithOwnerRights. rewrite Hw.
  assert (Hlen : (13 <= String.length (LocalDomainPrincipal id))%nat).
  { unfold LocalDomainPrincipal. rewrite string_length_app.
    pose proof (dec_string_nonempty (Z.to_N id)). destruct (dec_string _); [easy|]. simpl. lia. }
  assert (Hne : forall s, (String.length s < 13)%nat -> String.eqb (LocalDomainPrincipal id) s = false).
  { intros s Hs. apply String.eqb_neq. intros E. rewrite E in Hlen. lia. }
  rewrite !Hne by (vm_compute; lia).
  unfold LocalDomainPrincipal at 1. rewrite dec_string_no_prefix by reflexivity.
  rewrite parseLocalDomainID_roundtrip by assumption.
  destruct (id =? ec_UID c); [reflexivity|]. destruct (id =? ec_GID c); reflexivity.
Qed.

(** Matching "sid:<SID>" is by SID. *)
Lemma match_sid_principal ace c orp s :
  ace_Who ace = "sid:" +:+ s ->
  aceMatchesWhoWithOwnerRights ace c orp =
  negb (String.eqb (ec_SID c) "") && String.eqb (ec_SID c) s || contains_str s (ec_GroupSIDs c).
Proof.
  intros Hw. unfold aceMatchesWhoWithOwnerRights. rewrite Hw, cut_prefix_app.
  change (String.eqb ("sid:" +:+ s) SpecialOwner) with false.
  change (String.eqb ("sid:" +:+ s) SpecialGroup) with false.
  change (String.eqb ("sid:" +:+ s) SpecialEveryone) with false.
  change (String.eqb ("sid:" +:+ s) SpecialOwnerRights) with false.
  now destruct (negb _ && _).
Qed.

(** ** Allow-only ACLs *)

Definition allow_only (aces : list ACE) : Prop :=
  Forall (fun e => ace_Type e = ACE4_ACCESS_ALLOWED_ACE_TYPE /\ ace_Flag e = 0) aces.

(** In an allow-only DACL a bit is allowed by any matching ACE that carries it. *)
Lemma allow_only_verdict aces c orp i :
  allow_only aces ->
  dacl_verdict aces c orp i =
  if existsb (fun e => aceMatchesWhoWithOwnerRights e c orp && Z.testbit (ace_AccessMask e) i) aces
  then Some true else None.
Proof.
  induction aces as [|x aces IH]; intros Ha; [reflexivity|].
  apply Forall_cons in Ha as [[Ht Hf] Ha]. cbn [dacl_verdict existsb].
  unfold ace_verdict, IsInheritOnly. rewrite Ht, Hf, IH by assumption. cbn.
  now destruct (aceMatchesWhoWithOwnerRights x c orp), (Z.testbit (ace_AccessMask x) i).
Qed.

Lemma allow_only_app l1 l2 : allow_only (l1 ++ l2) <-> allow_only l1 /\ allow_only l2.
Proof. apply Forall_app. Qed.

Lemma allow_only_flat_map {A} (f : A -> list ACE) l :
  (forall x, allow_only (f x)) -> allow_only (flat_map f l).
Proof. intros H. induction l; cbn; [constructor|]. now apply allow_only_app. Qed.

Lemma share_root_allow_only d grants : allow_only (acl_ACEs (BuildShareRootACL d grants)).
Proof.
  assert (Ha : forall m w, allow_only [allow_ace 0 m w]) by (intros; repeat constructor).
  assert (allow_only (sid_aces grants)) as Hs.
  { apply allow_only_flat_map. intros s. cbv zeta. case_match; [apply Ha|constructor]. }
  assert (allow_only (id_aces grants)) as Hg.
  { apply allow_only_flat_map. intros g. cbv zeta. case_match; [|constructor].
    case_match; repeat constructor. }
  unfold BuildShareRootACL. cbn [acl_ACEs].
  destruct (negb (maskForLevel d =? 0)); rewrite !allow_only_app; split_and!; auto;
    repeat constructor.
Qed.

(** ** The merges keep the highest level *)

(** [o] is the highest level among the grants of [gs] that satisfy [P]. *)
Definition best (P : RootGrant -> Prop) (gs : list RootGrant) (o : option GrantLevel) : Prop :=
  match o with
  | None => forall g, In g gs -> ~ P g
  | Some l => (exists g, In g gs /\ P g /\ rg_Level g = l) /\
              (forall g, In g gs -> P g -> rg_Level g <= l)
  end.

Lemma best_skip P gs o g : ~ P g -> best P gs o -> best P (gs ++ [g]) o.
Proof.
  intros Hg. destruct o as [l|]; cbn; setoid_rewrite in_app_iff; cbn.
  - intros [(x & ? & ? & ?) Hmax]. split; [eauto 6|].
    intros y [?|[->|[]]] ?; [auto|contradiction].
  - intros H y [?|[->|[]]]; auto.
Qed.

Lemma best_hit P gs o g :
  P g -> best P gs o ->
  best P (gs ++ [g])
    (Some (match o with Some l => if rg_Level g >? l then rg_Level g else l
                      | None => rg_Level g end)).
Proof.
  intros Hg. destruct o as [l|]; cbn; setoid_rewrite in_app_iff; cbn.
  - intros [(x & ? & ? & ?) Hmax]. destruct (Z.gtb_spec (rg_Level g) l).
    + split; [eauto 6|]. intros y [Hy|[->|[]]] Py; [|lia]. specialize (Hmax y Hy Py). lia.
    + split; [eauto 6|]. intros y [Hy|[->|[]]] Py; [auto|lia].
  - intros H. split; [eauto 6|]. intros y [Hy|[->|[]]] Py; [now apply H in Hy|lia].
Qed.

Lemma sidMerged_best grants s :
  s <> EmptyString -> best (fun g => rg_SID g = s) grants (sidMerged grants !! s).
Proof.
  intros Hs. unfold sidMerged. induction grants as [|g gs IH] using rev_ind.
  { cbn [fold_left]. rewrite lookup_empty. cbn. tauto. }
  rewrite fold_left_app. cbn [fold_left]. set (m := fold_left _ gs ∅) in *. clearbody m.
  unfold sid_step. destruct (String.eqb_spec (rg_SID g) "") as [E|E].
  { apply best_skip; [congruence|assumption]. }
  destruct (decide (rg_SID g = s)) as [Es|Es].
  - rewrite Es. pose proof (best_hit _ _ _ g Es IH) as B.
    destruct (m !! s) as [l|] eqn:L; [destruct (_ >? _)|]; rewrite ?lookup_insert_eq, ?L; exact B.
  - apply best_skip; [assumption|].
    destruct (m !! rg_SID g); [destruct (_ >? _)|]; rewrite ?lookup_insert_ne by easy; easy.
Qed.

Lemma sidMerged_key grants s l : sidMerged grants !! s = Some l -> s <> EmptyString.
Proof.
  unfold sidMerged. revert l. induction grants as [|g gs IH] using rev_ind; intros l.
  { cbn [fold_left]. now rewrite lookup_empty. }
  rewrite fold_left_app. cbn [fold_left]. set (m := fold_left _ gs ∅) in *. clearbody m.
  unfold sid_step. destruct (String.eqb_spec (rg_SID g) "") as [E|E]; [apply IH|].
  destruct (decide (rg_SID g = s)) as [Es|Es]; [congruence|].
  destruct (m !! rg_SID g); [destruct (_ >? _)|]; rewrite ?lookup_insert_ne by easy; apply IH.
Qed.

(** The grants the per-id merge takes: all but the pure SID grants. *)
Definition numeric_grant (g : RootGrant) : bool :=
  negb (negb (String.eqb (rg_SID g) "") && (rg_ID g =? 0)).

Lemma merged_best grants id :
  best (fun g => numeric_grant g = true /\ rg_ID g = id) grants (rg_Level <$> merged grants !! id) /\
  (forall x, merged grants !! id = Some x -> rg_ID x = id).
Proof.
  unfold merged. induction grants as [|g gs [IH IHid]] using rev_ind.
  { cbn [fold_left]. rewrite lookup_empty. cbn. split; [tauto|easy]. }
  rewrite fold_left_app. cbn [fold_left]. set (m := fold_left _ gs ∅) in *. clearbody m.
  unfold merge_step, numeric_grant in *.
  destruct (negb (String.eqb (rg_SID g) "") && (rg_ID g =? 0)) eqn:E.
  { split; [apply best_skip; [rewrite E; easy|]|]; assumption. }
  destruct (decide (rg_ID g = id)) as [Ei|Ei].
  - rewrite Ei. assert (P : negb (negb (String.eqb (rg_SID g) "") && (rg_ID g =? 0)) = true /\
      rg_ID g = id) by now rewrite E.
    pose proof (best_hit _ _ _ g P IH) as B. cbv zeta.
    destruct (m !! id) as [x|] eqn:L; rewrite lookup_insert_eq; cbn [fmap option_fmap option_map] in *.
    + split.
      * destruct (_ >? _), (negb (rg_IsGroup g)); exact B.
      * intros y [= <-]. specialize (IHid x eq_refl).
        now destruct (_ >? _), (negb (rg_IsGroup g)).
    + split; [exact B|]. now intros y [= <-].
  - split; [apply best_skip; [tauto|]|]; cbv zeta;
      destruct (m !! rg_ID g); rewrite lookup_insert_ne by easy; assumption.
Qed.

(** ** What the ACL grants *)

(** The SID side and the numeric side of a grant match the requester. *)
Definition sid_match (g : RootGrant) (c : EvaluateContext) : bool :=
  negb (String.eqb (rg_SID g) "") &&
  (String.eqb (ec_SID c) (rg_SID g) || contains_str (rg_SID g) (ec_GroupSIDs c)).
Definition id_match (g : RootGrant) (c : EvaluateContext) : bool :=
  numeric_grant g &&
  ((rg_ID g =? ec_UID c) || (rg_ID g =? ec_GID c) || contains_Z (rg_ID g) (ec_GIDs c)).
Definition grant_matches (g : RootGrant) (c : EvaluateContext) : bool :=
  sid_match g c || id_match g c.

Definition level_ok (l : GrantLevel) : Prop := GrantNone <= l <= GrantAdmin.
Definition grant_ok (g : RootGrant) : Prop := in_u32 (rg_ID g) /\ level_ok (rg_Level g).

(** A higher level grants at least as much. *)
Lemma maskForLevel_mono l1 l2 i :
  level_ok l1 -> level_ok l2 -> l1 <= l2 -> 0 <= i ->
  Z.testbit (maskForLevel l1) i = true -> Z.testbit (maskForLevel l2) i = true.
Proof.
  unfold level_ok, GrantNone, GrantAdmin. intros H1 H2 Hle Hi B.
  assert (E : (maskForLevel l1 .& maskForLevel l2) = maskForLevel l1).
  { assert (l1 = 0 \/ l1 = 1 \/ l1 = 2 \/ l1 = 3) as [-> | [-> | [-> | ->]]] by lia;
      assert (l2 = 0 \/ l2 = 1 \/ l2 = 2 \/ l2 = 3) as [-> | [-> | [-> | ->]]] by lia;
      try lia; vm_compute; reflexivity. }
  rewrite <- E, Z.land_spec in B. now apply andb_true_iff in B.
Qed.

Lemma in_if_singleton {A} (b : bool) (x y : A) : In x (if b then [y] else []) <-> b = true /\ x = y.
Proof. destruct b; cbn; intuition congruence. Qed.

Lemma nonzero_of_bit m i : Z.testbit m i = true -> negb (m =? 0) = true.
Proof. intros B. destruct (Z.eqb_spec m 0) as [->|]; [now rewrite Z.bits_0 in B|reflexivity]. Qed.

Lemma in_map_keys `{Countable K} {V} (m : gmap K V) k :
  In k (map fst (map_to_list m)) <-> exists v, m !! k = Some v.
Proof.
  rewrite in_map_iff. split.
  - intros ([k' v] & <- & Hin). exists v. now apply elem_of_map_to_list, list_elem_of_In.
  - intros [v Hv]. exists (k, v). split; [reflexivity|].
    now apply list_elem_of_In, elem_of_map_to_list.
Qed.

Lemma in_map_values `{Countable K} {V} (m : gmap K V) v :
  In v (map snd (map_to_list m)) <-> exists k, m !! k = Some v.
Proof.
  rewrite in_map_iff. split.
  - intros ([k v'] & <- & Hin). exists k. now apply elem_of_map_to_list, list_elem_of_In.
  - intros [k Hv]. exists (k, v). split; [reflexivity|].
    now apply list_elem_of_In, elem_of_map_to_list.
Qed.

Definition ace_grants (c : EvaluateContext) (orp : bool) (i : Z) (e : ACE) : Prop :=
  aceMatchesWhoWithOwnerRights e c orp = true /\ Z.testbit (ace_AccessMask e) i = true.

Lemma sid_aces_grant grants c orp i :
  Forall grant_ok grants -> 0 <= i ->
  (exists e, In e (sid_aces grants) /\ ace_grants c orp i e) <->
  (exists g, In g grants /\ sid_match g c = true /\ Z.testbit (maskForLevel (rg_Level g)) i = true).
Proof.
  intros Hok Hi. rewrite List.Forall_forall in Hok. unfold sid_aces. setoid_rewrite in_flat_map.
  setoid_rewrite elem_of_sort_by. setoid_rewrite in_map_keys. split.
  - intros (e & (s' & [l Hl] & He) & Hm & Hb). cbv zeta in He.
    rewrite in_if_singleton in He. destruct He as [_ ->].
    rewrite (match_sid_principal _ c orp s') in Hm by reflexivity. cbn [ace_AccessMask allow_ace] in Hb.
    rewrite Hl in Hb. cbn in Hb.
    pose proof (sidMerged_key _ _ _ Hl) as Hne.
    pose proof (sidMerged_best grants s' Hne) as B. rewrite Hl in B.
    destruct B as [(g & Hg & Hsid & <-) _]. exists g. split_and!; auto.
    unfold sid_match. rewrite Hsid. destruct (String.eqb_spec s' ""); [contradiction|]. cbn [negb andb].
    apply orb_true_iff in Hm as [[_ ->]%andb_true_iff| ->]; btauto.
  - intros (g & Hg & Hm & Hb).
    unfold sid_match in Hm. destruct (String.eqb_spec (rg_SID g) "") as [|Hne]; [easy|].
    pose proof (sidMerged_best grants _ Hne) as B.
    destruct (sidMerged grants !! rg_SID g) as [l|] eqn:Hl; [|now apply B in Hg].
    destruct B as [(x & Hx & _ & <-) Hmax]. specialize (Hmax g Hg eq_refl).
    destruct (Hok g Hg), (Hok x Hx).
    pose proof (maskForLevel_mono (rg_Level g) (rg_Level x) i) as Hb'.
    do 5 (specialize (Hb' ltac:(assumption))).
    exists (allow_ace 0 (maskForLevel (rg_Level x)) ("sid:" +:+ rg_SID g)). split; [|split; [|exact Hb']].
    + exists (rg_SID g). split; [eauto|].
      rewrite Hl. cbn [default]. rewrite in_if_singleton.
      split; [now apply nonzero_of_bit in Hb'|reflexivity].
    + rewrite (match_sid_principal _ c orp (rg_SID g)) by reflexivity. cbn [negb andb] in Hm.
      apply orb_true_iff in Hm as [Hm| ->]; [|btauto].
      rewrite Hm. apply String.eqb_eq in Hm. rewrite Hm.
      destruct (String.eqb_spec (rg_SID g) ""); [contradiction|reflexivity].
Qed.

Lemma id_aces_grant grants c orp i :
  Forall grant_ok grants -> 0 <= i ->
  (exists e, In e (id_aces grants) /\ ace_grants c orp i e) <->
  (exists g, In g grants /\ id_match g c = true /\ Z.testbit (maskForLevel (rg_Level g)) i = true).
Proof.
  intros Hok Hi. rewrite List.Forall_forall in Hok. unfold id_aces. setoid_rewrite in_flat_map.
  setoid_rewrite elem_of_sort_by. setoid_rewrite in_map_values.
  assert (Hace : forall (b : bool) m id, in_u32 id ->
    let e := allow_ace 0 m (LocalDomainPrincipal id) in
    ace_grants c orp i (if b then set_NFSNumericTwin true e else e) <->
    (id =? ec_UID c) || (id =? ec_GID c) || contains_Z id (ec_GIDs c) = true /\ Z.testbit m i = true).
  { intros b m id Hid e. unfold ace_grants. rewrite (match_local_principal _ c orp id) by
      (auto; now destruct b). now destruct b. }
  split.
  - intros (e & (y & [id Hl] & He) & Hg). cbv zeta in He.
    rewrite in_if_singleton in He. destruct He as [_ ->]. destruct (merged_best grants id) as [B Hid]. rewrite Hl in B.
    destruct B as [(g & Hin & [Hn Hgid] & El) _]. specialize (Hid y Hl).
    apply Hace in Hg as [Hm Hb]; [|rewrite Hid, <- Hgid; now apply Hok].
    exists g. unfold id_match. rewrite Hn, El, Hgid, <- Hid. auto.
  - intros (g & Hin & Hm & Hb).
    unfold id_match in Hm. apply andb_true_iff in Hm as [Hn Hm].
    destruct (merged_best grants (rg_ID g)) as [B Hid].
    destruct (merged grants !! rg_ID g) as [y|] eqn:Hl; [|exfalso; eapply B; eauto].
    destruct B as [(x & Hx & [_ _] & Ex) Hmax]. specialize (Hmax g Hin (conj Hn eq_refl)).
    specialize (Hid y eq_refl). destruct (Hok g Hin), (Hok x Hx).
    assert (Hb' : Z.testbit (maskForLevel (rg_Level y)) i = true).
    { apply (maskForLevel_mono (rg_Level g)); auto. now rewrite <- Ex. }
    eexists. split; [exists y; split|].
    + eauto.
    + cbv zeta. rewrite in_if_singleton.
      split; [now apply nonzero_of_bit in Hb'|reflexivity].
    + apply Hace; [now rewrite Hid|]. now rewrite Hid.
Qed.

Lemma existsb_grants c orp i aces :
  existsb (fun e => aceMatchesWhoWithOwnerRights e c orp && Z.testbit (ace_AccessMask e) i) aces = true
  <-> exists e, In e aces /\ ace_grants c orp i e.
Proof. rewrite existsb_exists. setoid_rewrite andb_true_iff. reflexivity. Qed.

(** A requester the three fixed ACEs do not name. *)
Definition ordinary (c : EvaluateContext) : Prop :=
  requesterIsOwner c = false /\ ec_Who c <> SpecialSystem /\ ec_Who c <> SpecialAdministrators.

Lemma fixed_aces_ordinary c orp e :
  ordinary c ->
  In e [allow_ace 0 FullAccessMask SpecialOwner; allow_ace 0 FullAccessMask SpecialSystem;
        allow_ace 0 FullAccessMask SpecialAdministrators] ->
  aceMatchesWhoWithOwnerRights e c orp = false.
Proof.
  intros (Ho & Hs & Ha) [<-|[<-|[<-|[]]]].
  - unfold aceMatchesWhoWithOwnerRights. cbn. rewrite Ho. now destruct orp.
  - change (String.eqb SpecialSystem (ec_Who c) = false). apply String.eqb_neq. congruence.
  - change (String.eqb SpecialAdministrators (ec_Who c) = false). apply String.eqb_neq. congruence.
Qed.

Lemma share_root_ace_grants d grants c orp i :
  Forall grant_ok grants -> ordinary c -> 0 <= i ->
  (exists e, In e (acl_ACEs (BuildShareRootACL d grants)) /\ ace_grants c orp i e) <->
  Z.testbit (maskForLevel d) i = true \/
  exists g, In g grants /\ grant_matches g c = true /\ Z.testbit (maskForLevel (rg_Level g)) i = true.
Proof.
  intros Hok Hc Hi.
  assert (Hsplit : forall l1 l2, (exists e, In e (l1 ++ l2) /\ ace_grants c orp i e) <->
    (exists e, In e l1 /\ ace_grants c orp i e) \/ (exists e, In e l2 /\ ace_grants c orp i e)).
  { intros. setoid_rewrite in_app_iff. naive_solver. }
  assert (Hd : acl_ACEs (BuildShareRootACL d grants) =
    ([allow_ace 0 FullAccessMask SpecialOwner; allow_ace 0 FullAccessMask SpecialSystem;
      allow_ace 0 FullAccessMask SpecialAdministrators] ++ sid_aces grants ++ id_aces grants) ++
    (if negb (maskForLevel d =? 0) then [allow_ace 0 (maskForLevel d) SpecialEveryone] else [])).
  { unfold BuildShareRootACL. cbn [acl_ACEs].
    destruct (negb (maskForLevel d =? 0)); rewrite <- ?app_assoc, ?app_nil_r; reflexivity. }
  rewrite Hd, !Hsplit, (sid_aces_grant _ c orp i Hok Hi), (id_aces_grant _ c orp i Hok Hi).
  setoid_rewrite in_if_singleton. unfold grant_matches. setoid_rewrite orb_true_iff.
  split.
  - intros [[(e & He & Hm & _)|[?|?]]|(e & [_ ->] & _ & Hb)]; [|naive_solver|naive_solver|now left].
    now rewrite (fixed_aces_ordinary c orp e Hc He) in Hm.
  - intros [Hb|?]; [right|left; right; naive_solver].
    exists (allow_ace 0 (maskForLevel d) SpecialEveryone).
    split; [split; [now apply nonzero_of_bit in Hb|reflexivity]|split; [reflexivity|exact Hb]].
Qed.

(** the DACL synthesized for a share root gives an ordinary requester (not
    the root's owner, not SYSTEM@ or ADMINISTRATORS@) exactly the access the share
    grants it: a bit is granted iff the default level carries it or some grant
    whose SID or numeric id matches the requester has a level that carries it.
    Merging duplicate grants, collapsing user and group ids, the SID/numeric twin
    ACEs and the sorting lose no access and add none. *)
Theorem share_root_acl_exact d grants c m i :
  Forall grant_ok grants -> ordinary c -> 0 <= i ->
  Z.testbit (EvaluateGranted (Some (BuildShareRootACL d grants)) c m) i =
  Z.testbit m i &&
  (Z.testbit (maskForLevel d) i ||
   existsb (fun g => grant_matches g c && Z.testbit (maskForLevel (rg_Level g)) i) grants).
Proof.
  intros Hok Hc Hi. rewrite EvaluateGranted_bit by lia. f_equal.
  unfold granted_bit. cbn [acl_NullDACL BuildShareRootACL orb].
  rewrite allow_only_verdict by apply share_root_allow_only.
  set (orp := scanOwnerRights _ _).
  pose proof (share_root_ace_grants d grants c orp i Hok Hc Hi) as H.
  rewrite <- existsb_grants in H.
  replace (implicit_bit c orp i) with false by (unfold implicit_bit; now rewrite (proj1 Hc)).
  apply eq_true_iff_eq. rewrite orb_true_iff, existsb_exists.
  setoid_rewrite andb_true_iff. setoid_rewrite <- H.
  now destruct (existsb _ (acl_ACEs _)).
Qed.

(** A user grant, a SID grant with an NFS twin id and a default of read. *)
Definition sample_grants : list RootGrant :=
  [mkRootGrant 1000 false GrantReadWrite ""; mkRootGrant 1000 true GrantRead "";
   mkRootGrant 2000 true GrantAdmin "S-1-5-21-1-2-3-1105"].
Definition sample_requester : EvaluateContext :=
  mkEvaluateContext "alice@EXAMPLE" 1000 100 [100] 0 0 "" [] false.

Lemma share_root_acl_exact_witness :
  Z.testbit (EvaluateGranted (Some (BuildShareRootACL GrantRead sample_grants))
    sample_requester ProbeMaskAll) 1 = true.
Proof.
  rewrite (share_root_acl_exact GrantRead sample_grants sample_requester ProbeMaskAll 1).
  - vm_compute. reflexivity.
  - repeat constructor; vm_compute; congruence.
  - repeat split; vm_compute; congruence.
  - lia.
Defined.
