(* ===== verification/HoleMap.v ===== *)
(** * The hole map ([pkg/block/holemap.go], [pkg/block/types.go],
    [pkg/block/engine/dataextents.go])

    A file's holes are not stored: they are the complement of the byte ranges
    its chunk list covers.  SEEK, READ_PLUS and DEALLOCATE all derive their
    answers from that list.  The specification is the set of covered bytes; the
    theorems relate every function to it. *)

From S2P Require Import Prelude.

(** The content hash is opaque to this component: only its equality could
    matter, and no function here looks at it. *)
Record ChunkRef := mkChunkRef {
  cr_Hash : list Z;
  cr_Offset : Z;
  cr_Size : Z;
}.

Inductive SegmentKind := SegmentData | SegmentHole.

#[export] Instance SegmentKind_eq_dec : EqDecision SegmentKind.
Proof. solve_decision. Defined.

Record Segment := mkSegment { seg_Kind : SegmentKind; seg_Start : Z; seg_End : Z }.

Definition Len (s : Segment) : Z := u64 (seg_End s - seg_Start s).

(** A pair [start, end). *)
Abbreviation extent := (Z * Z)%type.

(** ** Merging a sorted extent list in place

    [merged := ext[:1]] shares [ext]'s backing array: [append] writes the slot
    [len(merged)] of the array the loop is reading, and [last] points into it.
    The loop is modelled on the array, with [m] the length of [merged]. *)
Definition merge_step (arr : list extent) (m i : nat) : list extent * nat :=
  match arr !! i, arr !! (m - 1)%nat with
  | Some e, Some last =>
      if e.1 <=? last.2 then
        (if e.2 >? last.2 then <[(m - 1)%nat := (last.1, e.2)]> arr else arr, m)
      else (<[m := e]> arr, S m)
  | _, _ => (arr, m)
  end.

(** [for _, e := range ext[1:]], [k] iterations from index [i]. *)
Fixpoint merge_loop (arr : list extent) (m i k : nat) : list extent * nat :=
  match k with
  | O => (arr, m)
  | S k => let '(arr, m) := merge_step arr m i in merge_loop arr m (S i) k
  end.

Definition start_lt (a b : extent) : bool := a.1 <? b.1.

(** [sort.Slice] then the merge loop; shared by [normalizedExtents] and
    [coalesceExtents], which have the same body. *)
Definition coalesceExtents (ext : list extent) : list extent :=
  match ext with
  | [] => []
  | _ =>
      let ext := sort_by start_lt ext in
      let '(arr, m) := merge_loop ext 1 1 (length ext - 1) in
      take m arr
  end.

Definition clamp_ref (fileSize : Z) (r : ChunkRef) : list extent :=
  let start := cr_Offset r in
  if start >=? fileSize then []
  else
    let end_ := u64 (cr_Offset r + cr_Size r) in
    let end_ := if end_ >? fileSize then fileSize else end_ in
    if end_ <=? start then [] else [(start, end_)].

Definition normalizedExtents (refs : list ChunkRef) (fileSize : Z) : list extent :=
  if (fileSize =? 0) || (length refs =? 0)%nat then []
  else coalesceExtents (flat_map (clamp_ref fileSize) refs).

(** ** Segments *)

Fixpoint segments_loop (extents : list extent) (pos fileSize : Z) : list Segment :=
  match extents with
  | [] => if pos <? fileSize then [mkSegment SegmentHole pos fileSize] else []
  | e :: rest =>
      (if e.1 >? pos then [mkSegment SegmentHole pos e.1] else []) ++
      mkSegment SegmentData e.1 e.2 :: segments_loop rest e.2 fileSize
  end.

Definition SegmentsExtents (extents : list extent) (fileSize : Z) : list Segment :=
  if fileSize =? 0 then []
  else if (length extents =? 0)%nat then [mkSegment SegmentHole 0 fileSize]
  else segments_loop extents 0 fileSize.

Definition Segments (refs : list ChunkRef) (fileSize : Z) : list Segment :=
  SegmentsExtents (normalizedExtents refs fileSize) fileSize.

(** ** SEEK_DATA and SEEK_HOLE: [(x, true)] is [Some x], [(0, false)] is [None] *)

Fixpoint next_data_loop (extents : list extent) (from : Z) : option Z :=
  match extents with
  | [] => None
  | e :: rest =>
      if e.2 <=? from then next_data_loop rest from
      else if e.1 <=? from then Some from
      else Some e.1
  end.

Definition NextDataOffsetExtents (extents : list extent) (fileSize from : Z) : option Z :=
  if from >=? fileSize then None else next_data_loop extents from.

Definition NextDataOffset (refs : list ChunkRef) (fileSize from : Z) : option Z :=
  NextDataOffsetExtents (normalizedExtents refs fileSize) fileSize from.

Fixpoint next_hole_loop (extents : list extent) (from : Z) : Z :=
  match extents with
  | [] => from
  | e :: rest =>
      if e.2 <=? from then next_hole_loop rest from
      else if e.1 <=? from then e.2
      else from
  end.

Definition NextHoleOffsetExtents (extents : list extent) (fileSize from : Z) : option Z :=
  if from >=? fileSize then None else Some (next_hole_loop extents from).

Definition NextHoleOffset (refs : list ChunkRef) (fileSize from : Z) : option Z :=
  NextHoleOffsetExtents (normalizedExtents refs fileSize) fileSize from.

(** ** Chunk-list updates *)

Definition offset_lt (a b : ChunkRef) : bool := cr_Offset a <? cr_Offset b.

Definition sortChunkRefsByOffset (b : list ChunkRef) : list ChunkRef := sort_by offset_lt b.

Definition PunchHole (refs : list ChunkRef) (offset length_ : Z) : list ChunkRef :=
  if (length_ =? 0) || (length refs =? 0)%nat then refs
  else
    let end_ := u64 (offset + length_) in
    let end_ := if end_ <? offset then max_u64 else end_ in
    let keep r :=
      let rEnd := u64 (cr_Offset r + cr_Size r) in
      negb ((cr_Offset r >=? offset) && (rEnd <=? end_)) in
    sortChunkRefsByOffset (List.filter keep refs).

Definition refs_overlap (e in_ : ChunkRef) : bool :=
  let eEnd := u64 (cr_Offset e + cr_Size e) in
  let inEnd := u64 (cr_Offset in_ + cr_Size in_) in
  (cr_Offset e <? inEnd) && (cr_Offset in_ <? eEnd).

Definition MergeChunkRefsByOffset (existing incoming : list ChunkRef) : list ChunkRef :=
  if (length incoming =? 0)%nat then sortChunkRefsByOffset existing
  else
    let kept := List.filter (fun e => negb (existsb (refs_overlap e) incoming)) existing in
    sortChunkRefsByOffset (kept ++ incoming).

Definition PruneChunkRefsToSize (refs : list ChunkRef) (size : Z) : list ChunkRef :=
  let out := List.filter (fun r => cr_Offset r <? size) refs in
  if (length out =? 0)%nat then [] else sortChunkRefsByOffset out.

(** ** The in-place merge is the functional merge *)

Fixpoint merge_from (last : extent) (l : list extent) : list extent :=
  match l with
  | [] => [last]
  | e :: r =>
      if e.1 <=? last.2 then merge_from (last.1, if e.2 >? last.2 then e.2 else last.2) r
      else last :: merge_from e r
  end.

(** The write index never overtakes the read index, so the append through the
    shared backing array clobbers no extent that is still to be read. *)
Lemma merge_loop_spec k arr m i pre last rest :
  (m <= i)%nat -> take m arr = pre ++ [last] -> length pre = (m - 1)%nat -> (0 < m)%nat ->
  drop i arr = rest -> length rest = k ->
  let '(arr', m') := merge_loop arr m i k in take m' arr' = pre ++ merge_from last rest.
Proof.
  revert arr m i pre last rest. induction k as [|k IH]; intros arr m i pre last rest Hmi Ht Hp Hm Hd Hk.
  { destruct rest; [|easy]. exact Ht. }
  destruct rest as [|e rest]; [easy|].
  assert (Hi : arr !! i = Some e).
  { pose proof (lookup_drop arr i 0) as E. now rewrite Hd, Nat.add_0_r in E. }
  assert (Hd' : drop (S i) arr = rest).
  { replace (S i) with (i + 1)%nat by lia. now rewrite <- drop_drop, Hd. }
  assert (Hl : arr !! (m - 1)%nat = Some last).
  { rewrite <- (lookup_take_lt arr m (m - 1)) by lia. rewrite Ht, lookup_app_r by lia.
    now rewrite Hp, Nat.sub_diag. }
  assert (Hlen : (i < length arr)%nat) by now apply lookup_lt_Some in Hi.
  cbn [merge_loop merge_from]. unfold merge_step. rewrite Hi, Hl.
  destruct (e.1 <=? last.2).
  - assert (Et : arr = (pre ++ [last]) ++ drop m arr) by (rewrite <- Ht; symmetry; apply take_drop).
    destruct (e.2 >? last.2).
    + apply IH; auto; [|rewrite drop_insert_lt by lia; exact Hd'].
      rewrite take_insert_lt by lia. rewrite Ht, insert_app_r_alt by lia.
      now rewrite Hp, Nat.sub_diag.
    + replace (last.1, last.2) with last by now destruct last. apply IH; auto. 
  - specialize (IH (<[m := e]> arr) (S m) (S i) (pre ++ [last]) e rest).
    change (pre ++ last :: merge_from e rest) with (pre ++ [last] ++ merge_from e rest).
    rewrite (app_assoc pre). apply IH; auto; try lia.
    + rewrite (take_S_r _ _ e) by (apply list_lookup_insert_eq; lia).
      now rewrite take_insert_ge, Ht by lia.
    + rewrite length_app. cbn. lia.
    + rewrite drop_insert_lt by lia. exact Hd'.
Qed.

Lemma coalesceExtents_merge e l :
  exists x r, sort_by start_lt (e :: l) = x :: r /\ coalesceExtents (e :: l) = merge_from x r.
Proof.
  unfold coalesceExtents. destruct (sort_by start_lt (e :: l)) as [|x r] eqn:E.
  { pose proof (sort_by_perm start_lt (e :: l)) as P. rewrite E in P.
    symmetry in P. now apply Permutation_nil_cons in P. }
  exists x, r. split; [reflexivity|]. cbv zeta.
  pose proof (merge_loop_spec (length r) (x :: r) 1 1 [] x r) as H.
  replace (length (x :: r) - 1)%nat with (length r) by (cbn; lia).
  destruct (merge_loop _ _ _ _). rewrite H by (auto; lia). reflexivity.
Qed.

(** ** Coverage *)

Definition in_extent (x : Z) (e : extent) : Prop := e.1 <= x < e.2.
Definition covers (l : list extent) (x : Z) : Prop := exists e, In e l /\ in_extent x e.

(** Non-empty extents, each ending strictly before the next one starts. *)
Fixpoint canonical_from (lo : Z) (l : list extent) : Prop :=
  match l with
  | [] => True
  | e :: r => lo <= e.1 /\ e.1 < e.2 /\ canonical_from (e.2 + 1) r
  end.

Definition canonical (l : list extent) : Prop := canonical_from 0 l.

Lemma canonical_from_weaken lo lo' l : lo' <= lo -> canonical_from lo l -> canonical_from lo' l.
Proof. destruct l; cbn; [easy|]. intros ? (? & ? & ?). split_and!; auto; lia. Qed.

Lemma canonical_from_lower lo l x : canonical_from lo l -> covers l x -> lo <= x.
Proof.
  revert lo. induction l as [|e l IH]; intros lo H (y & Hy & Hx); [easy|].
  destruct H as (? & ? & H). destruct Hy as [->|Hy]; [unfold in_extent in Hx; lia|].
  assert (e.2 + 1 <= x) by (apply IH; [assumption|now exists y]). lia.
Qed.

Lemma covers_cons e l x : covers (e :: l) x <-> in_extent x e \/ covers l x.
Proof. unfold covers. cbn. firstorder congruence. Qed.

(** A canonical list is determined by the bytes it covers, so neither the input
    order nor the instability of [sort.Slice] can show in the result. *)
Lemma canonical_from_unique l1 l2 lo :
  canonical_from lo l1 -> canonical_from lo l2 -> (forall x, covers l1 x <-> covers l2 x) -> l1 = l2.
Proof.
  revert l2 lo. induction l1 as [|[a b] r1 IH]; intros [|[c d] r2] lo H1 H2 Hc; [reflexivity| | |].
  - exfalso. destruct H2 as (? & ? & _). destruct (proj2 (Hc c)) as (? & [] & _).
    apply covers_cons. left. unfold in_extent. cbn in *. lia.
  - exfalso. destruct H1 as (? & ? & _). destruct (proj1 (Hc a)) as (? & [] & _).
    apply covers_cons. left. unfold in_extent. cbn in *. lia.
  - destruct H1 as (Ha & Hab & H1), H2 as (Hd & Hcd & H2). cbn in *.
    setoid_rewrite covers_cons in Hc. unfold in_extent in Hc. cbn in Hc.
    assert (L1 : forall x, covers r1 x -> b + 1 <= x) by (intros; eapply canonical_from_lower; eauto).
    assert (L2 : forall x, covers r2 x -> d + 1 <= x) by (intros; eapply canonical_from_lower; eauto).
    assert (a = c).
    { destruct (Z.lt_trichotomy a c) as [?|[?|?]]; [|assumption|].
      - destruct (proj1 (Hc a)) as [?|Hx]; [left; lia|lia|]. apply L2 in Hx. lia.
      - destruct (proj2 (Hc c)) as [?|Hx]; [left; lia|lia|]. apply L1 in Hx. lia. }
    subst c. assert (b = d).
    { destruct (Z.lt_trichotomy b d) as [?|[?|?]]; [|assumption|].
      - destruct (proj2 (Hc b)) as [?|Hx]; [left; lia|lia|]. apply L1 in Hx. lia.
      - destruct (proj1 (Hc d)) as [?|Hx]; [left; lia|lia|]. apply L2 in Hx. lia. }
    subst d. f_equal. apply (IH r2 (b + 1)); auto. intros x. split; intros Hx.
    + destruct (proj1 (Hc x) (or_intror Hx)) as [?|?]; [apply L1 in Hx; lia|assumption].
    + destruct (proj2 (Hc x) (or_intror Hx)) as [?|?]; [apply L2 in Hx; lia|assumption].
Qed.

Lemma merge_from_canonical last l :
  0 <= last.1 -> last.1 < last.2 -> Forall (fun e => e.1 < e.2) l ->
  StronglySorted (fun a b => a.1 <= b.1) (last :: l) ->
  canonical_from last.1 (merge_from last l).
Proof.
  revert last. induction l as [|e l IH]; intros last H0 Hne Hall Hs; cbn [merge_from].
  { cbn. lia. }
  apply Forall_cons in Hall as [He Hall].
  apply StronglySorted_inv in Hs as [Hs Hle]. apply Forall_cons in Hle as [Hle1 Hle].
  pose proof (StronglySorted_inv Hs) as [Hs' Hle'].
  destruct (Z.leb_spec e.1 last.2).
  - apply (IH (last.1, _)); cbn; auto; [destruct (Z.gtb_spec e.2 last.2); lia|].
    constructor; assumption.
  - cbn. split_and!; try lia. apply (canonical_from_weaken e.1); [lia|].
    apply IH; auto; lia.
Qed.

Lemma merge_from_covers last l x :
  last.1 < last.2 -> Forall (fun e => e.1 < e.2) l ->
  StronglySorted (fun a b => a.1 <= b.1) (last :: l) ->
  covers (merge_from last l) x <-> covers (last :: l) x.
Proof.
  revert last. induction l as [|e l IH]; intros last Hne Hall Hs; cbn [merge_from]; [reflexivity|].
  apply Forall_cons in Hall as [He Hall].
  apply StronglySorted_inv in Hs as [Hs Hle]. apply Forall_cons in Hle as [Hle1 Hle].
  pose proof (StronglySorted_inv Hs) as [Hs' Hle'].
  destruct (Z.leb_spec e.1 last.2).
  - rewrite IH; [|cbn; destruct (Z.gtb_spec e.2 last.2); lia|assumption|constructor; assumption].
    rewrite !covers_cons. unfold in_extent. cbn.
    destruct (Z.gtb_spec e.2 last.2); intuition lia.
  - rewrite (covers_cons last), (covers_cons last). now rewrite IH.
Qed.

Lemma Forall_sort_by {A} (lt : A -> A -> bool) (P : A -> Prop) l : Forall P l -> Forall P (sort_by lt l).
Proof. apply Permutation_Forall, sort_by_perm. Qed.

Lemma covers_perm l l' x : Permutation l l' -> covers l x -> covers l' x.
Proof. intros P (e & Hin & Hx). exists e. split; [now apply (Permutation_in _ P)|exact Hx]. Qed.

Lemma coalesceExtents_spec l :
  Forall (fun e => 0 <= e.1 < e.2) l ->
  canonical (coalesceExtents l) /\ (forall x, covers (coalesceExtents l) x <-> covers l x).
Proof.
  intros Hl. destruct l as [|e l]; [easy|].
  destruct (coalesceExtents_merge e l) as (y & r & Es & ->).
  pose proof (sort_by_perm start_lt (e :: l)) as P. rewrite Es in P.
  assert (Hs : StronglySorted (fun a b => a.1 <= b.1) (y :: r)).
  { rewrite <- Es. apply (sort_by_sorted fst). }
  pose proof (Permutation_Forall P Hl) as Hyr. apply Forall_cons in Hyr as [Hy Hr].
  assert (Hr' : Forall (fun e => e.1 < e.2) r) by (eapply Forall_impl; [exact Hr|]; cbn; lia).
  split.
  - apply (canonical_from_weaken y.1); [lia|]. apply merge_from_canonical; auto; lia.
  - intros x. rewrite merge_from_covers by (auto; lia).
    split; apply covers_perm; [symmetry|]; exact P.
Qed.

(** ** The hole map of a chunk list *)

(** A chunk whose byte range does not run past the 64-bit offset space. *)
Definition ref_ok (r : ChunkRef) : Prop :=
  0 <= cr_Offset r /\ 0 <= cr_Size r /\ in_u64 (cr_Offset r + cr_Size r).

Definition ref_covers (r : ChunkRef) (x : Z) : Prop :=
  cr_Offset r <= x < cr_Offset r + cr_Size r.
Definition refs_cover (refs : list ChunkRef) (x : Z) : Prop := exists r, In r refs /\ ref_covers r x.

Lemma clamp_ref_spec fileSize r e :
  ref_ok r -> In e (clamp_ref fileSize r) ->
  e = (cr_Offset r, Z.min (cr_Offset r + cr_Size r) fileSize) /\ 0 <= e.1 < e.2.
Proof.
  intros (Ho & Hs & He). unfold clamp_ref. rewrite u64_small by assumption.
  cbv zeta. repeat zcase; try easy; intros [<-|[]]; cbn; (split; [f_equal; lia|lia]).
Qed.

Lemma clamp_ref_covers fileSize r x :
  ref_ok r -> covers (clamp_ref fileSize r) x <-> x < fileSize /\ ref_covers r x.
Proof.
  intros Hok. split.
  - intros (e & Hin & Hx). destruct (clamp_ref_spec _ _ _ Hok Hin) as [-> _].
    unfold in_extent, ref_covers in *. cbn in *. lia.
  - intros [Hx Hc]. unfold ref_covers in Hc. pose proof Hok as (Ho & Hs & He).
    exists (cr_Offset r, Z.min (cr_Offset r + cr_Size r) fileSize).
    split; [|unfold in_extent; cbn; lia].
    unfold clamp_ref. rewrite u64_small by assumption.
    cbv zeta. repeat zcase; try lia; left; f_equal; lia.
Qed.

Lemma normalizedExtents_correct refs fileSize :
  Forall ref_ok refs -> 0 <= fileSize ->
  canonical (normalizedExtents refs fileSize) /\
  (forall x, covers (normalizedExtents refs fileSize) x <-> x < fileSize /\ refs_cover refs x).
Proof.
  intros Hok Hf. unfold normalizedExtents.
  destruct (Z.eqb_spec fileSize 0) as [->|Hz]; cbn [orb].
  { split; [easy|]. intros x. split; [now intros (? & [] & _)|].
    intros [? (r & Hin & Hx)]. rewrite List.Forall_forall in Hok. apply Hok in Hin as (? & ? & ?).
    unfold ref_covers in Hx. lia. }
  destruct (Nat.eqb_spec (length refs) 0) as [E|E].
  { destruct refs; [|easy]. split; [easy|]. intros x. split; [now intros (? & [] & _)|].
    now intros [_ (r & [] & _)]. }
  rewrite List.Forall_forall in Hok.
  destruct (coalesceExtents_spec (flat_map (clamp_ref fileSize) refs)) as [Hc Hx].
  { apply List.Forall_forall. intros e. rewrite in_flat_map. intros (r & Hr & He).
    now destruct (clamp_ref_spec _ _ _ (Hok r Hr) He). }
  split; [exact Hc|]. intros x. rewrite Hx. split.
  - intros (e & He & Hin). apply in_flat_map in He as (r & Hr & He).
    assert (covers (clamp_ref fileSize r) x) as Hcov by now exists e.
    apply clamp_ref_covers in Hcov as [? ?]; [|now apply Hok]. split; [assumption|now exists r].
  - intros [Hlt (r & Hr & Hrx)].
    destruct (proj2 (clamp_ref_covers fileSize r x (Hok r Hr)) (conj Hlt Hrx)) as (e & He & Hin).
    exists e. split; [apply in_flat_map; now exists r|exact Hin].
Qed.

(** the extents derived from a chunk list are exactly its hole map: they are
    sorted, non-empty, pairwise disjoint and not even touching, they cover a byte
    exactly when some chunk covers it below the file size, and they are the only
    such list, so the answer depends on neither the chunk order nor the tie order
    of the unstable sort. *)
Theorem normalizedExtents_exact refs fileSize :
  Forall ref_ok refs -> 0 <= fileSize ->
  canonical (normalizedExtents refs fileSize) /\
  (forall x, covers (normalizedExtents refs fileSize) x <-> x < fileSize /\ refs_cover refs x) /\
  (forall l, canonical l -> (forall x, covers l x <-> x < fileSize /\ refs_cover refs x) ->
             l = normalizedExtents refs fileSize).
Proof.
  intros Hok Hf. destruct (normalizedExtents_correct refs fileSize Hok Hf) as [Hc Hx].
  split_and!; auto. intros l Hl Hcov. apply (canonical_from_unique l _ 0); auto.
  intros x. now rewrite Hcov, Hx.
Qed.

(** ** Segments *)

(** Non-empty segments that follow one another from [lo] to [hi] with
    alternating kinds (so each is maximal). *)
Fixpoint tiles (lo hi : Z) (segs : list Segment) : Prop :=
  match segs with
  | [] => lo = hi
  | s :: r =>
      seg_Start s = lo /\ lo < seg_End s /\
      match r with [] => True | s' :: _ => seg_Kind s' <> seg_Kind s end /\
      tiles (seg_End s) hi r
  end.

Definition data_at (segs : list Segment) (x : Z) : Prop :=
  exists s, In s segs /\ seg_Kind s = SegmentData /\ seg_Start s <= x < seg_End s.

Lemma data_at_cons s segs x :
  data_at (s :: segs) x <-> (seg_Kind s = SegmentData /\ seg_Start s <= x < seg_End s) \/ data_at segs x.
Proof. unfold data_at. cbn. firstorder congruence. Qed.

Lemma covers_nil x : ~ covers [] x.
Proof. now intros (e & [] & _). Qed.

Definition bounded_by (hi : Z) (l : list extent) : Prop := Forall (fun e => e.2 <= hi) l.

(** From [pos], the segments of a canonical list that starts at or after [pos]
    (strictly after when the previous segment was data). *)
Lemma segments_loop_spec l pos hi :
  canonical_from pos l -> bounded_by hi l -> pos <= hi ->
  tiles pos hi (segments_loop l pos hi) /\
  (forall x, data_at (segments_loop l pos hi) x <-> covers l x) /\
  (canonical_from (pos + 1) l ->
     match segments_loop l pos hi with [] => True | s :: _ => seg_Kind s = SegmentHole end).
Proof.
  revert pos. induction l as [|e l IH]; intros pos Hc Hb Hp; cbn [segments_loop].
  { zcase; cbn; split_and!; auto; try lia.
    - intros x. rewrite data_at_cons. cbn. split; [|now intros ?%covers_nil].
      intros [[? _]|(s & [] & _)]. discriminate.
    - intros x. split; [now intros (s & [] & _)|now intros ?%covers_nil]. }
  destruct Hc as (H1 & H2 & Hc). apply Forall_cons in Hb as [Hb1 Hb].
  destruct (IH e.2 (canonical_from_weaken (e.2 + 1) e.2 l ltac:(lia) Hc) Hb Hb1) as (Ht & Hd & Hh).
  specialize (Hh Hc).
  assert (Hkind : match segments_loop l e.2 hi with [] => True
                  | s' :: _ => seg_Kind s' <> SegmentData end).
  { destruct (segments_loop l e.2 hi); [easy|]. now rewrite Hh. }
  assert (Hcov : forall x, data_at (mkSegment SegmentData e.1 e.2 :: segments_loop l e.2 hi) x <->
                           covers (e :: l) x).
  { intros x. rewrite data_at_cons, covers_cons, Hd. cbn. unfold in_extent. tauto. }
  zcase; cbn [app].
  - split_and!; cbn; auto; try lia; try easy. intros x. rewrite data_at_cons. cbn.
    rewrite Hcov. intuition discriminate.
  - assert (e.1 = pos) by lia. split_and!; cbn; auto; try lia.
    split_and!; auto; lia.
Qed.

Lemma covers_bounded l lo hi :
  canonical_from lo l -> (forall x, covers l x -> x < hi) -> bounded_by hi l.
Proof.
  revert lo. induction l as [|e l IH]; intros lo Hc Hx; [constructor|].
  destruct Hc as (H1 & H2 & Hc). constructor.
  - assert (e.2 - 1 < hi); [|lia]. apply Hx, covers_cons. left. unfold in_extent. lia.
  - apply (IH _ Hc). intros x Hin. apply Hx, covers_cons. now right.
Qed.

(** READ_PLUS segmentation: the segments of a file tile [0, fileSize) without
    gap or overlap, each is non-empty and maximal (neighbours have different
    kinds), and a byte lies in a data segment exactly when a chunk covers it, so no
    stored byte is ever reported as a hole. *)
Theorem Segments_tile refs fileSize :
  Forall ref_ok refs -> 0 <= fileSize ->
  tiles 0 fileSize (Segments refs fileSize) /\
  (forall x, x < fileSize -> data_at (Segments refs fileSize) x <-> refs_cover refs x).
Proof.
  intros Hok Hf. destruct (normalizedExtents_correct refs fileSize Hok Hf) as [Hc Hx].
  unfold Segments, SegmentsExtents.
  destruct (segments_loop_spec (normalizedExtents refs fileSize) 0 fileSize) as (Ht & Hd & _);
    [exact Hc|apply (covers_bounded _ 0); [exact Hc|intros; now apply Hx]|lia|].
  assert (Hd' : forall x, x < fileSize ->
    data_at (segments_loop (normalizedExtents refs fileSize) 0 fileSize) x <-> refs_cover refs x).
  { intros x Hlt. rewrite Hd, Hx. tauto. }
  destruct (Z.eqb_spec fileSize 0) as [->|].
  { split; [reflexivity|]. intros x Hlt. rewrite <- (Hd' x Hlt), Hd, Hx.
    split; [now intros (s & [] & _)|]. intros [_ (r & Hr & Hcov)].
    rewrite List.Forall_forall in Hok. apply Hok in Hr as (? & ? & ?). unfold ref_covers in Hcov. lia. }
  destruct (normalizedExtents refs fileSize) as [|e l] eqn:E; [|now split].
  cbn [length Nat.eqb]. cbn [segments_loop] in Ht, Hd'. rewrite (proj2 (Z.ltb_lt 0 fileSize)) in Ht, Hd' by lia.
  now split.
Qed.

(** ** SEEK *)

Lemma next_data_loop_spec l lo from :
  canonical_from lo l ->
  match next_data_loop l from with
  | Some d => from <= d /\ covers l d /\ (forall x, from <= x < d -> ~ covers l x)
  | None => forall x, from <= x -> ~ covers l x
  end.
Proof.
  revert lo. induction l as [|e l IH]; intros lo Hc; cbn [next_data_loop].
  { intros x _. apply covers_nil. }
  destruct Hc as (H1 & H2 & Hc). specialize (IH _ Hc).
  zcase.
  - assert (Hskip : forall x, from <= x -> covers (e :: l) x <-> covers l x).
    { intros x Hx. rewrite covers_cons. unfold in_extent. intuition lia. }
    destruct (next_data_loop l from) as [d|].
    + destruct IH as (? & ? & Hn). split_and!; auto; [now apply Hskip|].
      intros x Hx. rewrite Hskip by lia. now apply Hn.
    + intros x Hx. rewrite Hskip by lia. now apply IH.
  - zcase; (split_and!; [lia|apply covers_cons; left; unfold in_extent; lia|]); [lia|].
    intros x Hx Hin. apply covers_cons in Hin as [Hin|Hin]; [unfold in_extent in Hin; lia|].
    apply (canonical_from_lower _ _ _ Hc) in Hin. lia.
Qed.

Lemma next_hole_loop_spec l lo from :
  canonical_from lo l ->
  from <= next_hole_loop l from /\ ~ covers l (next_hole_loop l from) /\
  (forall x, from <= x < next_hole_loop l from -> covers l x) /\
  (next_hole_loop l from = from \/ exists e, In e l /\ next_hole_loop l from = e.2).
Proof.
  revert lo. induction l as [|e l IH]; intros lo Hc; cbn [next_hole_loop].
  { split_and!; [lia|apply covers_nil|lia|now left]. }
  destruct Hc as (H1 & H2 & Hc). specialize (IH _ Hc).
  zcase; [|zcase].
  - destruct IH as (? & Hn & Hall & Hor). split_and!; auto.
    + rewrite covers_cons. unfold in_extent. intuition lia.
    + intros x Hx. apply covers_cons. right. now apply Hall.
    + destruct Hor as [?|(y & ? & ?)]; [now left|right; exists y; cbn; auto].
  - split_and!; [lia| | |right; exists e; cbn; auto].
    + rewrite covers_cons. unfold in_extent. intros [?|Hin]; [lia|].
      apply (canonical_from_lower _ _ _ Hc) in Hin. lia.
    + intros x Hx. apply covers_cons. left. unfold in_extent. lia.
  - split_and!; [lia| |lia|now left].
    rewrite covers_cons. unfold in_extent. intros [?|Hin]; [lia|].
    apply (canonical_from_lower _ _ _ Hc) in Hin. lia.
Qed.

(** SEEK_DATA and SEEK_HOLE below the end of the file: SEEK_DATA returns the
    least data offset at or after [from] and fails exactly when there is none;
    SEEK_HOLE always succeeds and returns the least offset at or after [from] that
    holds no data, where the end of the file counts as a hole. *)
Theorem seek_correct refs fileSize from :
  Forall ref_ok refs -> 0 <= from < fileSize ->
  match NextDataOffset refs fileSize from with
  | Some d => from <= d < fileSize /\ refs_cover refs d /\
              (forall x, from <= x < d -> ~ refs_cover refs x)
  | None => forall x, from <= x < fileSize -> ~ refs_cover refs x
  end /\
  exists h, NextHoleOffset refs fileSize from = Some h /\ from <= h <= fileSize /\
            (h < fileSize -> ~ refs_cover refs h) /\
            (forall x, from <= x < h -> refs_cover refs x).
Proof.
  intros Hok Hf. destruct (normalizedExtents_correct refs fileSize Hok ltac:(lia)) as [Hc Hx].
  unfold NextDataOffset, NextHoleOffset, NextDataOffsetExtents, NextHoleOffsetExtents.
  rewrite Z.geb_leb, (proj2 (Z.leb_gt fileSize from)) by lia.
  set (l := normalizedExtents refs fileSize) in *. clearbody l. split.
  - pose proof (next_data_loop_spec l 0 from Hc) as Hs.
    destruct (next_data_loop l from) as [d|].
    + destruct Hs as (? & Hd & Hn). apply Hx in Hd as [? ?]. split_and!; auto.
      intros x Hr Hin. apply (Hn x Hr), Hx. split; [lia|assumption].
    + intros x Hr Hin. apply (Hs x ltac:(lia)), Hx. split; [lia|assumption].
  - pose proof (next_hole_loop_spec l 0 from Hc) as (Hge & Hn & Hall & Hor).
    pose proof (covers_bounded l 0 fileSize Hc ltac:(intros; now apply Hx)) as Hb.
    eexists. split; [reflexivity|]. split; [|split].
    + split; [lia|]. destruct Hor as [->|(e & Hin & ->)]; [lia|].
      unfold bounded_by in Hb. rewrite List.Forall_forall in Hb. now apply Hb in Hin.
    + intros Hlt Hin. apply Hn, Hx. now split.
    + intros x Hr. now apply Hx, Hall.
Qed.

(** ** Chunk-list updates *)

Lemma in_sortChunkRefs r l : In r (sortChunkRefsByOffset l) <-> In r l.
Proof. apply elem_of_sort_by. Qed.

Definition by_offset (l : list ChunkRef) : Prop :=
  StronglySorted (fun a b => cr_Offset a <= cr_Offset b) l.

Lemma sortChunkRefs_sorted l : by_offset (sortChunkRefsByOffset l).
Proof. apply (sort_by_sorted cr_Offset). Qed.

(** The chunk lies inside the punched range, as intervals of integers. *)
Definition contained (offset length_ : Z) (r : ChunkRef) : Prop :=
  offset <= cr_Offset r /\ cr_Offset r + cr_Size r <= offset + length_.

Lemma in_PunchHole refs offset length_ r :
  Forall ref_ok refs -> in_u64 offset -> 0 < length_ -> in_u64 length_ ->
  In r (PunchHole refs offset length_) <-> In r refs /\ ~ contained offset length_ r.
Proof.
  intros Hok Ho Hl Hl'. unfold PunchHole.
  rewrite (proj2 (Z.eqb_neq length_ 0)) by lia. cbn [orb].
  destruct (Nat.eqb_spec (length refs) 0) as [E|E]; [destruct refs; easy|].
  rewrite in_sortChunkRefs, filter_In, negb_true_iff, andb_false_iff, Z.geb_leb, !Z.leb_gt.
  apply and_iff_cond. intros Hin. rewrite List.Forall_forall in Hok. apply Hok in Hin as (H1 & H2 & H3). rewrite (u64_small (cr_Offset r + cr_Size r)) by assumption.
  unfold contained, in_u64, max_u64 in *.
  destruct (u64_add_case offset length_ Ho Hl') as [[-> ?]|[-> ?]]; zcase; lia.
Qed.

(** DEALLOCATE never loses data outside the punched range and never keeps a
    chunk it fully consumes: a chunk survives exactly when it is not contained in
    the range (also when the range runs past the 64-bit offset space), hence every
    byte outside the range is covered after the punch iff it was before; the result
    is sorted by offset. *)
Theorem PunchHole_spec refs offset length_ :
  Forall ref_ok refs -> in_u64 offset -> in_u64 length_ -> 0 < length_ ->
  (forall r, In r (PunchHole refs offset length_) <-> In r refs /\ ~ contained offset length_ r) /\
  (forall x, ~ (offset <= x < offset + length_) ->
     refs_cover (PunchHole refs offset length_) x <-> refs_cover refs x) /\
  by_offset (PunchHole refs offset length_).
Proof.
  intros Hok Ho Hl Hpos.
  assert (Hin : forall r, In r (PunchHole refs offset length_) <->
                          In r refs /\ ~ contained offset length_ r)
    by (intros; now apply in_PunchHole).
  split_and!; [exact Hin| |].
  - intros x Hx. unfold refs_cover. setoid_rewrite Hin. split.
    + intros (r & [? _] & ?). eauto.
    + intros (r & Hr & Hc). exists r. split_and!; auto.
      unfold contained, ref_covers in *. lia.
  - unfold PunchHole. rewrite (proj2 (Z.eqb_neq length_ 0)) by lia. cbn [orb].
    destruct (Nat.eqb_spec (length refs) 0); [destruct refs; [constructor|easy]|].
    apply sortChunkRefs_sorted.
Qed.

(** A chunk list laid out end to end, possibly with gaps. *)
Definition precedes (a b : ChunkRef) : Prop := cr_Offset a + cr_Size a <= cr_Offset b.
Definition layout (l : list ChunkRef) : Prop := StronglySorted precedes l.
Definition nonempty_ref (r : ChunkRef) : Prop := 0 < cr_Size r.

Definition apart (a b : ChunkRef) : Prop := precedes a b \/ precedes b a.

Lemma refs_overlap_spec a b : ref_ok a -> ref_ok b -> refs_overlap a b = false -> apart a b.
Proof.
  intros (?&?&?) (?&?&?). unfold refs_overlap, apart, precedes. rewrite !u64_small by assumption.
  rewrite andb_false_iff, !Z.ltb_ge. lia.
Qed.

(** Sorting a list of pairwise disjoint, non-empty chunks lays it out. *)
Lemma sort_apart_layout l :
  StronglySorted apart l -> Forall nonempty_ref l -> layout (sortChunkRefsByOffset l).
Proof. apply (sort_apart_sorted cr_Offset cr_Size). Qed.

(** committing a rollup pass: overlaying new chunks on the chunk list keeps
    every incoming chunk and exactly the existing chunks disjoint from all of them;
    if both lists are laid out without overlap, so is the result (sorted by offset,
    each chunk ending before the next begins); and every byte the pass wrote is
    resolved by an incoming chunk only. *)
Theorem MergeChunkRefsByOffset_layout existing incoming :
  Forall ref_ok existing -> Forall ref_ok incoming ->
  Forall nonempty_ref existing -> Forall nonempty_ref incoming ->
  layout existing -> layout incoming ->
  layout (MergeChunkRefsByOffset existing incoming) /\
  (forall r, In r (MergeChunkRefsByOffset existing incoming) <->
     In r incoming \/ In r existing /\ Forall (fun i => refs_overlap r i = false) incoming) /\
  (forall x r, refs_cover incoming x -> In r (MergeChunkRefsByOffset existing incoming) ->
     ref_covers r x -> In r incoming).
Proof.
  intros Hok1 Hok2 Hn1 Hn2 Hl1 Hl2.
  assert (Hap : forall l, layout l -> StronglySorted apart l).
  { unfold layout. induction 1; constructor; auto. eapply Forall_impl; [eassumption|]. now left. }
  set (kept := List.filter (fun e => negb (existsb (refs_overlap e) incoming)) existing).
  assert (Em : MergeChunkRefsByOffset existing incoming = sortChunkRefsByOffset (kept ++ incoming)).
  { unfold MergeChunkRefsByOffset. destruct incoming; [|reflexivity]. subst kept. cbn.
    rewrite app_nil_r. f_equal. clear. induction existing; cbn; congruence. }
  assert (Hk : forall r, In r kept <-> In r existing /\ Forall (fun i => refs_overlap r i = false) incoming).
  { intros r. subst kept. rewrite filter_In, negb_true_iff. apply and_iff_cond. intros _.
    rewrite <- not_true_iff_false, existsb_exists, List.Forall_forall. split.
    - intros H i Hi. apply not_true_iff_false. intros E. apply H. eauto.
    - intros H (i & Hi & E). now rewrite H in E. }
  assert (Hka : forall r i, In r kept -> In i incoming -> apart r i).
  { intros r i Hr Hi. apply Hk in Hr as [Hr Hno]. rewrite List.Forall_forall in *.
    apply refs_overlap_spec; auto. }
  rewrite Em. split_and!.
  - apply sort_apart_layout.
    + apply StronglySorted_app_intro; auto. now apply StronglySorted_filter, Hap.
    + apply Forall_app. split; [|assumption]. rewrite List.Forall_forall in *.
      intros r Hr. apply Hk in Hr as [? _]. auto.
  - intros r. rewrite in_sortChunkRefs, in_app_iff, Hk. tauto.
  - intros x r (i & Hi & Hix) Hr Hrx. rewrite in_sortChunkRefs, in_app_iff in Hr.
    destruct Hr as [Hr|Hr]; [|assumption]. exfalso.
    specialize (Hka r i Hr Hi). unfold apart, precedes, ref_covers in *. lia.
Qed.

(** Truncation keeps exactly the chunks that start below the new size. *)
Lemma PruneChunkRefsToSize_spec refs size :
  by_offset (PruneChunkRefsToSize refs size) /\
  (forall r, In r (PruneChunkRefsToSize refs size) <-> In r refs /\ cr_Offset r < size) /\
  (forall x, x < size -> refs_cover (PruneChunkRefsToSize refs size) x <-> refs_cover refs x).
Proof.
  assert (Hin : forall r, In r (PruneChunkRefsToSize refs size) <-> In r refs /\ cr_Offset r < size).
  { intros r. rewrite <- Z.ltb_lt, <- (filter_In (fun r => cr_Offset r <? size)).
    unfold PruneChunkRefsToSize. destruct (Nat.eqb_spec (length (List.filter (fun r => cr_Offset r <? size) refs)) 0) as [E|E].
    - apply length_zero_iff_nil in E. now rewrite E.
    - apply in_sortChunkRefs. }
  split_and!; [|exact Hin|].
  - unfold PruneChunkRefsToSize. destruct (_ =? 0)%nat; [constructor|apply sortChunkRefs_sorted].
  - intros x Hx. unfold refs_cover. setoid_rewrite Hin. split; [firstorder|].
    intros (r & Hr & Hc). exists r. unfold ref_covers in *. split_and!; auto; lia.
Qed.

(** ** Witnesses *)

Definition sample_refs : list ChunkRef :=
  [mkChunkRef [1] 4096 4096; mkChunkRef [2] 0 1000; mkChunkRef [3] 8192 100; mkChunkRef [4] 20000 50].

Lemma sample_refs_ok : Forall ref_ok sample_refs.
Proof. repeat constructor; vm_compute; congruence. Qed.

Lemma normalizedExtents_exact_witness :
  [(0, 1000); (4096, 8292); (20000, 20010)] = normalizedExtents sample_refs 20010 /\
  canonical (normalizedExtents sample_refs 20010).
Proof.
  split; [vm_compute; reflexivity|].
  exact (proj1 (normalizedExtents_exact sample_refs 20010 sample_refs_ok ltac:(lia))).
Defined.

Lemma Segments_tile_witness : tiles 0 20010 (Segments sample_refs 20010).
Proof. exact (proj1 (Segments_tile sample_refs 20010 sample_refs_ok ltac:(lia))). Defined.

Lemma seek_correct_witness :
  exists h, NextHoleOffset sample_refs 20010 5000 = Some h /\ 5000 <= h <= 20010.
Proof.
  destruct (seek_correct sample_refs 20010 5000 sample_refs_ok ltac:(lia)) as [_ (h & E & Hr & _)].
  exists h. split; [exact E|exact Hr].
Defined.

Lemma PunchHole_spec_witness : by_offset (PunchHole sample_refs 4000 5000).
Proof.
  destruct (PunchHole_spec sample_refs 4000 5000 sample_refs_ok) as (_ & _ & H);
    [vm_compute; split; congruence|vm_compute; split; congruence|lia|exact H].
Defined.

Lemma MergeChunkRefsByOffset_layout_witness :
  layout (MergeChunkRefsByOffset
            [mkChunkRef [1] 0 4096; mkChunkRef [2] 4096 4096; mkChunkRef [3] 9000 100]
            [mkChunkRef [4] 4000 200; mkChunkRef [5] 20000 50]).
Proof.
  refine (proj1 (MergeChunkRefsByOffset_layout _ _ _ _ _ _ _ _));
    repeat constructor; vm_compute; congruence.
Defined.
