(* ===== verification/JournalIndex.v ===== *)
(** * The journal's per-file interval index ([pkg/block/journal/index.go],
    and the index part of [Delete] and [Truncate] in [store.go])

    The index maps a file's bytes to the segment bytes that hold them.  Its
    specification is one cell per byte: the newest record that covers it. *)

From S2P Require Import Prelude HoleMap.

Record SegmentLocation := mkLoc { sl_SegmentID : Z; sl_Offset : Z; sl_Length : Z }.

Record interval := mkInterval {
  iv_fileOff : Z;
  iv_length : Z;
  iv_version : Z;
  iv_loc : SegmentLocation;
  iv_recOff : Z;
  iv_synced : bool;
  iv_cold : bool;
}.

(** [iv.end()], an int64 addition. *)
Definition iend (iv : interval) : Z := i64 (iv_fileOff iv + iv_length iv).

Definition clamp (iv : interval) (lo hi : Z) : interval :=
  let frontTrim := lo - iv_fileOff iv in
  mkInterval lo (hi - lo) (iv_version iv)
    (mkLoc (sl_SegmentID (iv_loc iv)) (sl_Offset (iv_loc iv) + frontTrim) (hi - lo))
    (iv_recOff iv) (iv_synced iv) (iv_cold iv).

Definition without (iv : interval) (rs re : Z) : list interval :=
  (if iv_fileOff iv <? rs then [clamp iv (iv_fileOff iv) (Z.min (iend iv) rs)] else []) ++
  (if iend iv >? re then [clamp iv (Z.max (iv_fileOff iv) re) (iend iv)] else []).

(** [sort.Search] over the ends of the intervals: the first one ending after
    [off]. *)
Definition search_end (ivs : list interval) (off : Z) : nat :=
  sort_search (length ivs) (fun k =>
    match ivs !! k with Some e => iend e >? off | None => false end).

(** [findRecord]: the index, or [None] for -1. *)
Definition findRecord (ivs : list interval) (fileOff version : Z) : option nat :=
  let k := search_end ivs fileOff in
  match ivs !! k with
  | Some e => if (iv_fileOff e <=? fileOff) && (iv_version e =? version) then Some k else None
  | None => None
  end.

Record segDead := mkSegDead { sd_seg : Z; sd_bytes : Z }.

Definition set_synced (b : bool) (iv : interval) : interval :=
  mkInterval (iv_fileOff iv) (iv_length iv) (iv_version iv) (iv_loc iv) (iv_recOff iv) b (iv_cold iv).

(** The fragments after the in-place flip, and the bytes newly dirty. *)
Definition remark1 (f : interval) : interval :=
  if iv_synced f && negb (iv_cold f) then set_synced false f else f.
Definition remarkFragmentsDirty (frags : list interval) : list interval * Z :=
  (map remark1 frags,
   foldr (fun f added => if iv_synced f && negb (iv_cold f) then iv_length f + added else added) 0 frags).

Definition subtractAll (frags : list interval) (rs re : Z) : list interval :=
  flat_map (fun f => without f rs re) frags.

(** Loop state of the general punch-and-merge path of [insert]. *)
Record punch := mkPunch {
  pn_newFrags : list interval;
  pn_survivors : list interval;
  pn_shadowed : bool;
  pn_dirtyRemoved : Z;
  pn_dirtyAdded : Z;
  pn_dead : list segDead;
}.

Definition punch_step (iv : interval) (st : punch) (e : interval) : punch :=
  let ns := iv_fileOff iv in
  let ne := iend iv in
  if iv_version e >? iv_version iv then
    mkPunch (subtractAll (pn_newFrags st) (iv_fileOff e) (iend e)) (pn_survivors st ++ [e]) true
      (pn_dirtyRemoved st) (pn_dirtyAdded st) (pn_dead st)
  else
    let ov := Z.min (iend e) ne - Z.max (iv_fileOff e) ns in
    let killed := (ov >? 0) && negb (iv_cold e) in
    let dead := if killed then pn_dead st ++ [mkSegDead (sl_SegmentID (iv_loc e)) ov] else pn_dead st in
    let dirtyRemoved :=
      if killed && negb (iv_synced e) then pn_dirtyRemoved st + ov else pn_dirtyRemoved st in
    let '(frags, added) := remarkFragmentsDirty (without e ns ne) in
    mkPunch (pn_newFrags st) (pn_survivors st ++ frags) (pn_shadowed st)
      dirtyRemoved (pn_dirtyAdded st + added) dead.

(** [for hi < len(fi.ivs) && fi.ivs[hi].fileOff < ne]: the final state and the
    intervals from [hi] on. *)
Fixpoint punch_loop (iv : interval) (st : punch) (rest : list interval) : punch * list interval :=
  match rest with
  | [] => (st, [])
  | e :: r => if iv_fileOff e <? iend iv then punch_loop iv (punch_step iv st e) r else (st, rest)
  end.

Record inserted := mkInserted {
  in_ivs : list interval;
  in_dirtyRemoved : Z;
  in_dirtyAdded : Z;
  in_dead : list segDead;
}.

Definition insert_general (ivs : list interval) (lo : nat) (iv : interval) : inserted :=
  let '(st, after) := punch_loop iv (mkPunch [iv] [] false 0 0 []) (drop lo ivs) in
  let '(newFrags, added) :=
    if iv_synced iv && negb (iv_cold iv) && pn_shadowed st
    then remarkFragmentsDirty (pn_newFrags st) else (pn_newFrags st, 0) in
  let merged := sort_by (key_lt iv_fileOff) (pn_survivors st ++ newFrags) in
  mkInserted (take lo ivs ++ merged ++ after)
    (pn_dirtyRemoved st) (pn_dirtyAdded st + added) (pn_dead st).

Definition insert (ivs : list interval) (iv : interval) : inserted :=
  let ns := iv_fileOff iv in
  let ne := iend iv in
  let lo := search_end ivs ns in
  match ivs !! lo with
  | None => mkInserted (take lo ivs ++ iv :: drop lo ivs) 0 0 []
  | Some e =>
      if iv_fileOff e >=? ne then mkInserted (take lo ivs ++ iv :: drop lo ivs) 0 0 []
      else if (iv_fileOff e =? ns) && (iend e =? ne) &&
              match ivs !! (lo + 1)%nat with None => true | Some e' => iv_fileOff e' >=? ne end
      then
        if iv_version iv <=? iv_version e then mkInserted ivs 0 0 []
        else
          mkInserted (<[lo := iv]> ivs)
            (if negb (iv_cold e) && negb (iv_synced e) then iv_length e else 0) 0
            (if negb (iv_cold e) then [mkSegDead (sl_SegmentID (iv_loc e)) (iv_length e)] else [])
      else insert_general ivs lo iv
  end.

(** ** Reads *)

Record piece := mkPiece {
  p_dstStart : Z;
  p_dstEnd : Z;
  p_loc : SegmentLocation;
  p_subOff : Z;
  p_recOff : Z;
  p_hole : bool;
  p_cold : bool;
}.

Definition zeroLoc : SegmentLocation := mkLoc 0 0 0.
Definition hole_piece (s e : Z) : piece := mkPiece s e zeroLoc 0 0 true false.

(** The loop of [plan], over the intervals from index [i] on. *)
Fixpoint plan_loop (rest : list interval) (offset end_ pos : Z) : list piece :=
  if pos <? end_ then
    match rest with
    | [] => [hole_piece (pos - offset) (end_ - offset)]
    | iv :: r =>
        if iv_fileOff iv >=? end_ then [hole_piece (pos - offset) (end_ - offset)]
        else
          let gap := if pos <? iv_fileOff iv
                     then [hole_piece (pos - offset) (iv_fileOff iv - offset)] else [] in
          let pos := if pos <? iv_fileOff iv then iv_fileOff iv else pos in
          let spanEnd := Z.min (iend iv) end_ in
          let p := if iv_cold iv
                   then mkPiece (pos - offset) (spanEnd - offset) zeroLoc 0 0 false true
                   else mkPiece (pos - offset) (spanEnd - offset) (iv_loc iv)
                          (pos - iv_fileOff iv) (iv_recOff iv) false false in
          gap ++ p :: plan_loop r offset end_ spanEnd
    end
  else [].

Definition plan (ivs : list interval) (offset n : Z) : list piece :=
  let end_ := i64 (offset + n) in
  plan_loop (drop (search_end ivs offset) ivs) offset end_ offset.

(** ** Data extents *)

Definition appendExtent (start end_ fileSize : Z) : list extent :=
  let end_ := if end_ >? fileSize then fileSize else end_ in
  if start >=? end_ then [] else [(start, end_)].

Fixpoint extents_loop (rest : list interval) (curStart curEnd fileSize : Z) : list extent :=
  match rest with
  | [] => appendExtent curStart curEnd fileSize
  | iv :: r =>
      if iv_fileOff iv <=? curEnd then extents_loop r curStart (Z.max curEnd (iend iv)) fileSize
      else appendExtent curStart curEnd fileSize ++ extents_loop r (iv_fileOff iv) (iend iv) fileSize
  end.

Definition DataExtents (ivs : list interval) (fileSize : Z) : list extent :=
  match ivs with
  | [] => []
  | iv :: r => extents_loop r (iv_fileOff iv) (iend iv) fileSize
  end.

(** [FileSize]: the data high-water mark. *)
Definition FileSize (ivs : list interval) : Z :=
  fold_left (fun size iv => if iend iv >? size then iend iv else size) ivs 0.

(** ** The index part of Delete and Truncate: surviving intervals, dirty bytes
    dropped, and the bytes charged to each segment *)

Fixpoint bury (ivs : list interval) (tombVer : Z) : list interval * Z * list segDead :=
  match ivs with
  | [] => ([], 0, [])
  | iv :: r =>
      let '(kept, dirty, dead) := bury r tombVer in
      if iv_version iv >? tombVer then (iv :: kept, dirty, dead)
      else if iv_cold iv then (kept, dirty, dead)
      else (kept, if negb (iv_synced iv) then iv_length iv + dirty else dirty,
            mkSegDead (sl_SegmentID (iv_loc iv)) (iv_length iv) :: dead)
  end.

Fixpoint clip (ivs : list interval) (truncVer newSize : Z) : list interval * Z * list segDead :=
  match ivs with
  | [] => ([], 0, [])
  | iv :: r =>
      let '(kept, dirty, dead) := clip r truncVer newSize in
      if (iv_version iv >? truncVer) || (iend iv <=? newSize) then (iv :: kept, dirty, dead)
      else if iv_fileOff iv <? newSize then
        let tail := iend iv - newSize in
        (clamp iv (iv_fileOff iv) newSize :: kept,
         (if negb (iv_synced iv) then tail + dirty else dirty),
         (if negb (iv_cold iv) then mkSegDead (sl_SegmentID (iv_loc iv)) tail :: dead else dead))
      else if iv_cold iv then (kept, dirty, dead)
      else (kept, if negb (iv_synced iv) then iv_length iv + dirty else dirty,
            mkSegDead (sl_SegmentID (iv_loc iv)) (iv_length iv) :: dead)
  end.

(** The peek of [Truncate]. *)
Definition past (ivs : list interval) (newSize : Z) : bool :=
  existsb (fun iv => iend iv >? newSize) ivs.

(** ** Well-formedness: sorted, non-overlapping, in-range intervals *)

Definition iv_ok (iv : interval) : Prop :=
  0 <= iv_fileOff iv /\ 0 < iv_length iv /\ iv_fileOff iv + iv_length iv < 2 ^ 63.

Definition iv_before (a b : interval) : Prop := iv_fileOff a + iv_length a <= iv_fileOff b.

Definition wf (ivs : list interval) : Prop := Forall iv_ok ivs /\ StronglySorted iv_before ivs.

Lemma iend_eq iv : iv_ok iv -> iend iv = iv_fileOff iv + iv_length iv.
Proof. intros (? & ? & ?). apply i64_small. unfold in_i64. lia. Qed.

Definition in_iv (x : Z) (iv : interval) : Prop := iv_fileOff iv <= x < iv_fileOff iv + iv_length iv.

(** What the index knows about one byte: the record's version, the segment byte
    that holds it, the record header's offset, and whether it is evicted. *)
Record cell := mkCell { c_version : Z; c_seg : Z; c_off : Z; c_recOff : Z; c_cold : bool }.

Definition cell_of (iv : interval) (x : Z) : cell :=
  mkCell (iv_version iv) (sl_SegmentID (iv_loc iv))
    (sl_Offset (iv_loc iv) + (x - iv_fileOff iv)) (iv_recOff iv) (iv_cold iv).

Definition contains (x : Z) (iv : interval) : bool :=
  (iv_fileOff iv <=? x) && (x <? iv_fileOff iv + iv_length iv).

(** The abstract state of a file: a partial function from bytes to cells. *)
Definition resolve (ivs : list interval) (x : Z) : option cell :=
  match List.find (contains x) ivs with
  | Some iv => Some (cell_of iv x)
  | None => None
  end.

Lemma contains_spec x iv : contains x iv = true <-> in_iv x iv.
Proof. unfold contains, in_iv. rewrite andb_true_iff, Z.leb_le, Z.ltb_lt. reflexivity. Qed.

Definition has_cell (ivs : list interval) (x : Z) (c : cell) : Prop :=
  exists iv, In iv ivs /\ in_iv x iv /\ cell_of iv x = c.

Lemma has_cell_nil x c : has_cell [] x c <-> False.
Proof. unfold has_cell. firstorder. Qed.

Lemma has_cell_cons iv l x c : has_cell (iv :: l) x c <-> in_iv x iv /\ cell_of iv x = c \/ has_cell l x c.
Proof. unfold has_cell. cbn. firstorder congruence. Qed.

Lemma has_cell_app l l' x c : has_cell (l ++ l') x c <-> has_cell l x c \/ has_cell l' x c.
Proof. unfold has_cell. setoid_rewrite in_app_iff. firstorder. Qed.

Lemma has_cell_perm l l' x c : Permutation l l' -> has_cell l x c -> has_cell l' x c.
Proof. intros P (iv & Hin & H). exists iv. split; [now apply (Permutation_in _ P)|exact H]. Qed.

Lemma has_cell_sort l x c : has_cell (sort_by (key_lt iv_fileOff) l) x c <-> has_cell l x c.
Proof.
  pose proof (sort_by_perm (key_lt iv_fileOff) l) as P.
  split; apply has_cell_perm; [symmetry|]; exact P.
Qed.

Lemma has_cell_flat_map {A} (f : A -> list interval) (l : list A) x c :
  has_cell (flat_map f l) x c <-> exists e, In e l /\ has_cell (f e) x c.
Proof. unfold has_cell. setoid_rewrite in_flat_map. firstorder. Qed.

(** In a well-formed index a byte has at most one cell, and [resolve] finds it. *)
Lemma resolve_has_cell ivs x c : wf ivs -> resolve ivs x = Some c <-> has_cell ivs x c.
Proof.
  intros [Hok Hs]. unfold resolve. induction Hs as [|iv l Hs IH Hb]; cbn [List.find].
  { rewrite has_cell_nil. split; easy. }
  apply Forall_cons in Hok as [Hiv Hok]. rewrite has_cell_cons.
  destruct (contains x iv) eqn:E.
  - apply contains_spec in E. split; [intros [= <-]; auto|].
    intros [[_ <-]|(y & Hy & Hx & _)]; [reflexivity|].
    rewrite List.Forall_forall in Hb. specialize (Hb y Hy).
    unfold in_iv, iv_before in *. lia.
  - rewrite IH by assumption. split; [auto|]. intros [[Hx _]|?]; [|assumption].
    apply contains_spec in Hx. congruence.
Qed.

Lemma resolve_None ivs x : wf ivs -> resolve ivs x = None <-> forall c, ~ has_cell ivs x c.
Proof.
  intros Hwf. split.
  - intros E c H. apply (resolve_has_cell ivs x c Hwf) in H. congruence.
  - intros H. destruct (resolve ivs x) as [c|] eqn:E; [|reflexivity].
    apply (resolve_has_cell ivs x c Hwf) in E. now apply H in E.
Qed.

Lemma resolve_ext ivs ivs' x :
  wf ivs -> wf ivs' -> (forall c, has_cell ivs x c <-> has_cell ivs' x c) -> resolve ivs x = resolve ivs' x.
Proof.
  intros H H' Hc. destruct (resolve ivs' x) as [c|] eqn:E.
  - apply (resolve_has_cell ivs' x c H') in E. now apply resolve_has_cell, Hc.
  - rewrite resolve_None in * by assumption. intros c ?%Hc. now apply (E c).
Qed.

(** ** Fragments *)

Lemma clamp_ok iv lo hi :
  iv_ok iv -> iv_fileOff iv <= lo -> lo < hi -> hi <= iv_fileOff iv + iv_length iv -> iv_ok (clamp iv lo hi).
Proof. unfold iv_ok, clamp. cbn. lia. Qed.

Lemma cell_of_clamp iv lo hi x : cell_of (clamp iv lo hi) x = cell_of iv x.
Proof. unfold cell_of, clamp. cbn. f_equal. lia. Qed.

Lemma in_without iv rs re f :
  iv_ok iv -> rs < re -> In f (without iv rs re) ->
  exists lo hi, f = clamp iv lo hi /\ iv_fileOff iv <= lo /\ lo < hi /\
                hi <= iv_fileOff iv + iv_length iv /\ (hi <= rs \/ re <= lo).
Proof.
  intros Hok Hr. unfold without. rewrite iend_eq, Z.gtb_ltb by assumption.
  pose proof Hok as (? & ? & ?). rewrite in_app_iff. intros [Hf|Hf]; zcase_in Hf; try easy; destruct Hf as [<-|[]].
  - eexists _, _. split; [reflexivity|]. lia.
  - eexists _, _. split; [reflexivity|]. lia.
Qed.

Lemma without_ok iv rs re : iv_ok iv -> rs < re -> Forall iv_ok (without iv rs re).
Proof.
  intros Hok Hr. apply List.Forall_forall. intros f Hf.
  destruct (in_without _ _ _ _ Hok Hr Hf) as (lo & hi & -> & ? & ? & ? & _). now apply clamp_ok.
Qed.

Lemma has_cell_without iv rs re x c :
  iv_ok iv -> rs < re ->
  has_cell (without iv rs re) x c <-> in_iv x iv /\ ~ (rs <= x < re) /\ cell_of iv x = c.
Proof.
  intros Hok Hr. pose proof Hok as (? & ? & ?). split.
  - intros (f & Hf & Hx & Hc). destruct (in_without _ _ _ _ Hok Hr Hf) as (lo & hi & -> & ? & ? & ? & ?).
    rewrite cell_of_clamp in Hc. unfold in_iv in *. cbn in Hx. split_and!; auto; lia.
  - intros (Hx & Hn & Hc). unfold without. rewrite iend_eq by assumption. unfold in_iv in Hx.
    rewrite has_cell_app. destruct (Z.lt_ge_cases x rs).
    + left. rewrite (proj2 (Z.ltb_lt _ _)) by lia. apply has_cell_cons. left.
      rewrite cell_of_clamp. unfold in_iv. cbn. split; [lia|assumption].
    + right. rewrite Z.gtb_ltb, (proj2 (Z.ltb_lt _ _)) by lia. apply has_cell_cons. left.
      rewrite cell_of_clamp. unfold in_iv. cbn. split; [lia|assumption].
Qed.

Lemma has_cell_remark l x c : has_cell (map remark1 l) x c <-> has_cell l x c.
Proof.
  induction l as [|f l IH]; cbn [map]; [reflexivity|]. rewrite !has_cell_cons, IH.
  unfold remark1. now destruct (iv_synced f && negb (iv_cold f)).
Qed.

(** Re-marking changes no range. *)
Lemma remark1_off f : iv_fileOff (remark1 f) = iv_fileOff f.
Proof. unfold remark1. now case_match. Qed.
Lemma remark1_len f : iv_length (remark1 f) = iv_length f.
Proof. unfold remark1. now case_match. Qed.

Lemma remark_ok l : Forall iv_ok (map remark1 l) <-> Forall iv_ok l.
Proof. rewrite Forall_map. unfold iv_ok. now setoid_rewrite remark1_off; setoid_rewrite remark1_len. Qed.

#[export] Hint Resolve without_ok clamp_ok : go.

(** ** Binary search *)

Lemma wf_lookup_lt ivs i j a b :
  wf ivs -> ivs !! i = Some a -> ivs !! j = Some b -> (i < j)%nat -> iv_before a b.
Proof.
  intros [_ Hs]. revert i j. induction Hs as [|x l Hs IH Hx]; intros i j Hi Hj Hij; [easy|].
  destruct j as [|j]; [lia|]. destruct i as [|i].
  - cbn in Hi. injection Hi as <-. rewrite List.Forall_forall in Hx. apply Hx.
    apply list_elem_of_In. eapply list_elem_of_lookup_2. exact Hj.
  - apply (IH i j); auto. lia.
Qed.

Lemma wf_ok_lookup ivs i a : wf ivs -> ivs !! i = Some a -> iv_ok a.
Proof. intros [Hok _] Hi. rewrite Forall_lookup in Hok. eauto. Qed.

(** Everything before the found index ends at or before [off], everything from
    it on ends after [off]. *)
Lemma search_end_spec ivs off :
  wf ivs ->
  let lo := search_end ivs off in
  Forall (fun e => iv_fileOff e + iv_length e <= off) (take lo ivs) /\
  Forall (fun e => off < iv_fileOff e + iv_length e) (drop lo ivs).
Proof.
  intros Hwf lo.
  destruct (sort_search_spec (length ivs) (fun k =>
    match ivs !! k with Some e => iend e >? off | None => false end)) as (Hle & Hlow & Hhigh).
  { intros a b Hab. destruct (ivs !! a) as [ea|] eqn:Ea; [|easy].
    destruct (lookup_lt_is_Some_2 ivs b) as [eb Eb]; [lia|]. rewrite Eb.
    rewrite !Z.gtb_ltb, !Z.ltb_lt, !iend_eq by eauto using wf_ok_lookup.
    destruct (decide (a = b)) as [->|]; [congruence|].
    pose proof (wf_lookup_lt _ _ _ _ _ Hwf Ea Eb ltac:(lia)) as Hb.
    destruct (wf_ok_lookup _ _ _ Hwf Eb) as (? & ? & ?). unfold iv_before in Hb. lia. }
  fold (search_end ivs off) in *. fold lo in Hle, Hlow, Hhigh. split; apply Forall_lookup; intros i e Hi.
  - apply lookup_take_Some in Hi as [Hi Hlt]. specialize (Hlow i Hlt). rewrite Hi in Hlow.
    rewrite Z.gtb_ltb, Z.ltb_ge, iend_eq in Hlow by eauto using wf_ok_lookup. exact Hlow.
  - rewrite lookup_drop in Hi. pose proof (lookup_lt_Some _ _ _ Hi).
    specialize (Hhigh (lo + i)%nat ltac:(lia)). rewrite Hi in Hhigh.
    rewrite Z.gtb_ltb, Z.ltb_lt, iend_eq in Hhigh by eauto using wf_ok_lookup. exact Hhigh.
Qed.

(** ** Well-formedness toolkit *)

Lemma wf_cons_inv e l : wf (e :: l) -> iv_ok e /\ wf l /\ Forall (iv_before e) l.
Proof.
  intros [Hok Hs]. apply Forall_cons in Hok as [? ?]. apply StronglySorted_inv in Hs as [? ?].
  split; [assumption|]. split; [split|]; assumption.
Qed.

Lemma wf_app l l' : wf (l ++ l') <-> wf l /\ wf l' /\ (forall a b, In a l -> In b l' -> iv_before a b).
Proof.
  unfold wf. rewrite Forall_app. split.
  - intros [[H1 H2] Hs]. assert (StronglySorted iv_before l /\ StronglySorted iv_before l' /\
      forall a b, In a l -> In b l' -> iv_before a b) as (? & ? & ?); [|now auto].
    clear H1 H2. induction l as [|x l IH]; [split_and!; [constructor|assumption|easy]|].
    cbn in Hs. apply StronglySorted_inv in Hs as [Hs Hx]. apply Forall_app in Hx as [Hx Hx'].
    destruct (IH Hs) as (? & ? & Hc). split_and!; [constructor; assumption|assumption|].
    intros a b [->|Ha] Hb; [|now apply Hc]. rewrite List.Forall_forall in Hx'. now apply Hx'.
  - intros ([? ?] & [? ?] & ?). split; [auto|]. now apply StronglySorted_app_intro.
Qed.

Definition within (e f : interval) : Prop :=
  iv_fileOff e <= iv_fileOff f /\ iv_fileOff f + iv_length f <= iv_fileOff e + iv_length e.

Lemma without_within e rs re : iv_ok e -> rs < re -> Forall (within e) (without e rs re).
Proof.
  intros Hok Hr. apply List.Forall_forall. intros f Hf.
  destruct (in_without _ _ _ _ Hok Hr Hf) as (lo & hi & -> & ? & ? & ? & _).
  unfold within. cbn. lia.
Qed.

Lemma without_wf e rs re : iv_ok e -> rs < re -> wf (without e rs re).
Proof.
  intros Hok Hr. split; [auto with go|]. pose proof Hok as (? & ? & ?). unfold without.
  rewrite iend_eq by assumption. repeat zcase; cbn [app]; repeat constructor.
  unfold iv_before. cbn. lia.
Qed.

(** Replacing every interval by fragments of itself keeps the order. *)
Lemma flat_map_wf (f : interval -> list interval) l :
  (forall e, In e l -> wf (f e) /\ Forall (within e) (f e)) -> wf l -> wf (flat_map f l).
Proof.
  induction l as [|e l IH]; intros Hf Hwf; cbn; [split; constructor|].
  apply wf_cons_inv in Hwf as (He & Hl & Hb). apply wf_app. split_and!.
  - now apply Hf; left.
  - apply IH; [intros; apply Hf; now right|assumption].
  - intros a b Ha Hin. apply in_flat_map in Hin as (e' & He' & Hin).
    destruct (Hf e (or_introl eq_refl)) as [_ W1]. destruct (Hf e' (or_intror He')) as [_ W2].
    rewrite List.Forall_forall in *. specialize (W1 a Ha). specialize (W2 b Hin).
    specialize (Hb e' He'). unfold within, iv_before in *. lia.
Qed.

Lemma apart_of_disjoint a b :
  iv_ok a -> iv_ok b -> (forall x, in_iv x a -> in_iv x b -> False) -> iv_before a b \/ iv_before b a.
Proof.
  intros (? & ? & ?) (? & ? & ?) Hd. unfold iv_before.
  destruct (Z.le_gt_cases (iv_fileOff a + iv_length a) (iv_fileOff b)); [now left|].
  destruct (Z.le_gt_cases (iv_fileOff b + iv_length b) (iv_fileOff a)); [now right|].
  exfalso. apply (Hd (Z.max (iv_fileOff a) (iv_fileOff b))); unfold in_iv; lia.
Qed.

(** Two well-formed lists with no byte in common merge into one. *)
Lemma merge_wf l l' :
  wf l -> wf l' -> (forall x c c', has_cell l x c -> has_cell l' x c' -> False) ->
  wf (sort_by (key_lt iv_fileOff) (l ++ l')).
Proof.
  intros [Hok Hs] [Hok' Hs'] Hd.
  assert (Hall : Forall iv_ok (l ++ l')) by now apply Forall_app.
  split; [apply (Forall_sort_by _ _ _ Hall)|].
  apply (sort_apart_sorted iv_fileOff iv_length).
  - assert (Hleft : forall l, StronglySorted iv_before l ->
      StronglySorted (fun a b => iv_before a b \/ iv_before b a) l).
    { induction 1; constructor; auto. eapply Forall_impl; [eassumption|]. now left. }
    apply StronglySorted_app_intro; [now apply Hleft|now apply Hleft|].
    intros a b Ha Hb. rewrite List.Forall_forall in *.
    apply apart_of_disjoint; auto. intros x Hxa Hxb.
    apply (Hd x (cell_of a x) (cell_of b x)); [now exists a|now exists b].
  - eapply Forall_impl; [exact Hall|]. now intros ? (? & ? & ?).
Qed.

(** ** The punch loop *)

Lemma punch_loop_split iv st rest :
  exists mid after, rest = mid ++ after /\
    punch_loop iv st rest = (fold_left (punch_step iv) mid st, after) /\
    Forall (fun e => iv_fileOff e < iend iv) mid /\
    match after with [] => True | e :: _ => iend iv <= iv_fileOff e end.
Proof.
  revert st. induction rest as [|e r IH]; intros st; cbn [punch_loop].
  { now exists [], []. }
  destruct (Z.ltb_spec (iv_fileOff e) (iend iv)).
  - destruct (IH (punch_step iv st e)) as (mid & after & -> & -> & ? & ?).
    exists (e :: mid), after. split_and!; auto.
  - exists [], (e :: r). split_and!; auto.
Qed.

Definition wins (iv e : interval) : bool := iv_version e >? iv_version iv.

(** What survives of an older (or equal) interval, and of a newer one. *)
Definition survivor (iv e : interval) : list interval :=
  if wins iv e then [e] else map remark1 (without e (iv_fileOff iv) (iend iv)).

(** What is left of the new interval after one existing interval. *)
Definition carve (iv : interval) (frags : list interval) (e : interval) : list interval :=
  if wins iv e then subtractAll frags (iv_fileOff e) (iend e) else frags.

Lemma punch_fold iv mid st :
  let st' := fold_left (punch_step iv) mid st in
  pn_survivors st' = pn_survivors st ++ flat_map (survivor iv) mid /\
  pn_newFrags st' = fold_left (carve iv) mid (pn_newFrags st) /\
  pn_shadowed st' = pn_shadowed st || existsb (wins iv) mid.
Proof.
  revert st. induction mid as [|e mid IH]; intros st; cbn [fold_left flat_map existsb].
  { now rewrite app_nil_r, orb_false_r. }
  cbv zeta in IH. destruct (IH (punch_step iv st e)) as (-> & -> & ->).
  unfold punch_step, survivor, carve, wins.
  destruct (iv_version e >? iv_version iv); cbn [pn_survivors pn_newFrags pn_shadowed remarkFragmentsDirty];
    rewrite <- ?app_assoc; split_and!; auto. btauto.
Qed.

Lemma subtractAll_spec frags rs re :
  wf frags -> rs < re ->
  wf (subtractAll frags rs re) /\
  (forall x c, has_cell (subtractAll frags rs re) x c <-> has_cell frags x c /\ ~ (rs <= x < re)) /\
  (forall e, Forall (within e) frags -> Forall (within e) (subtractAll frags rs re)).
Proof.
  intros Hwf Hr. pose proof Hwf as [Hok _]. rewrite List.Forall_forall in Hok. split_and!.
  - apply flat_map_wf; [|assumption]. intros f Hf. split; [now apply without_wf; [apply Hok|]|].
    now apply without_within; [apply Hok|].
  - intros x c. unfold subtractAll. rewrite has_cell_flat_map. split.
    + intros (f & Hf & Hc). apply has_cell_without in Hc as (? & ? & ?); [|now apply Hok|assumption].
      split; [now exists f|assumption].
    + intros [(f & Hf & Hx & Hc) Hn]. exists f. split; [assumption|].
      now apply has_cell_without; [apply Hok| |].
  - intros e He. rewrite List.Forall_forall in *. intros g Hg. apply in_flat_map in Hg as (f & Hf & Hg).
    pose proof (without_within f rs re (Hok f Hf) Hr) as W. rewrite List.Forall_forall in W.
    specialize (W g Hg). specialize (He f Hf). unfold within in *. lia.
Qed.

(** The surviving part of the new interval: its bytes outside every newer one. *)
Lemma carve_spec iv mid frags :
  Forall iv_ok mid -> wf frags ->
  let frags' := fold_left (carve iv) mid frags in
  wf frags' /\
  (forall x c, has_cell frags' x c <->
     has_cell frags x c /\ forall e, In e mid -> wins iv e = true -> ~ in_iv x e) /\
  (forall e, Forall (within e) frags -> Forall (within e) frags').
Proof.
  revert frags. induction mid as [|e mid IH]; intros frags Hok Hwf; cbn [fold_left].
  { split_and!; auto. intros x c. split; [intros; split; [assumption|intros ? []]|tauto]. }
  apply Forall_cons in Hok as [He Hok]. cbv zeta in IH. unfold carve at 2 4 6.
  destruct (wins iv e) eqn:W.
  - pose proof He as (? & ? & ?). rewrite iend_eq by assumption.
    destruct (subtractAll_spec frags (iv_fileOff e) (iv_fileOff e + iv_length e) Hwf ltac:(lia))
      as (Hwf' & Hc & Hin).
    destruct (IH _ Hok Hwf') as (? & Hc' & Hin'). split_and!; auto.
    intros x c. rewrite Hc', Hc. cbn [In]. split.
    + intros [[? Hx] Hm]. split; [assumption|]. intros e' [<-|?] ?; [assumption|now apply Hm].
    + intros [? Hm]. split_and!; [assumption|now apply Hm; [left|]|]. intros. apply Hm; auto.
  - destruct (IH _ Hok Hwf) as (? & Hc' & Hin'). split_and!; auto.
    intros x c. rewrite Hc'. cbn [In]. split.
    + intros [? Hm]. split; [assumption|]. intros e' [<-|?] ?; [congruence|now apply Hm].
    + intros [? Hm]. split; auto.
Qed.

(** Re-marking fragments changes neither their ranges nor their cells. *)
Lemma remark_wf l : wf l -> wf (map remark1 l).
Proof.
  intros [Hok Hs]. split; [now apply remark_ok|]. clear Hok.
  induction Hs as [|f l Hs IH Hf]; cbn; constructor; auto. apply Forall_map.
  eapply Forall_impl; [exact Hf|]. intros g. unfold iv_before. now rewrite !remark1_off, !remark1_len.
Qed.

Lemma remark_within e l : Forall (within e) l -> Forall (within e) (map remark1 l).
Proof.
  intros H. apply Forall_map. eapply Forall_impl; [exact H|].
  intros g. unfold within. now rewrite !remark1_off, !remark1_len.
Qed.

Lemma survivor_spec iv e :
  iv_ok iv -> iv_ok e ->
  wf (survivor iv e) /\ Forall (within e) (survivor iv e) /\
  (forall x c, has_cell (survivor iv e) x c <->
     in_iv x e /\ (wins iv e = true \/ ~ in_iv x iv) /\ cell_of e x = c).
Proof.
  intros Hiv He. pose proof Hiv as (? & ? & ?). unfold survivor. destruct (wins iv e).
  - split_and!.
    + repeat constructor; apply He.
    + repeat constructor; lia.
    + intros x c. rewrite has_cell_cons, has_cell_nil. tauto.
  - rewrite iend_eq by assumption.
    split_and!.
    + apply remark_wf, without_wf; [assumption|lia].
    + apply remark_within, without_within; [assumption|lia].
    + intros x c. rewrite has_cell_remark, has_cell_without by (auto; lia). fold (in_iv x iv). intuition congruence.
Qed.

(** ** Insert *)

(** The bytes of the resulting index: the new interval's bytes that no newer
    record covers, and the existing bytes that are newer or outside it. *)
Definition newest (ivs : list interval) (iv : interval) (x : Z) (c : cell) : Prop :=
  in_iv x iv /\ cell_of iv x = c /\ (forall e, In e ivs -> wins iv e = true -> ~ in_iv x e) \/
  exists e, In e ivs /\ in_iv x e /\ (wins iv e = true \/ ~ in_iv x iv) /\ cell_of e x = c.

(** The overlapped stretch of the index after the punch. *)
Definition punched (iv : interval) (mid : list interval) : list interval :=
  let st := fold_left (punch_step iv) mid (mkPunch [iv] [] false 0 0 []) in
  sort_by (key_lt iv_fileOff)
    (pn_survivors st ++
     (if iv_synced iv && negb (iv_cold iv) && pn_shadowed st
      then remarkFragmentsDirty (pn_newFrags st) else (pn_newFrags st, 0)).1).

Lemma punched_spec iv mid :
  wf mid -> iv_ok iv ->
  wf (punched iv mid) /\
  (forall x c, has_cell (punched iv mid) x c <-> newest mid iv x c) /\
  (forall f, In f (punched iv mid) -> within iv f \/ exists e, In e mid /\ within e f).
Proof.
  intros Hwmid Hiv. pose proof Hwmid as [Hokmid _]. unfold punched.
  destruct (punch_fold iv mid (mkPunch [iv] [] false 0 0 [])) as (Es & En & _).
  set (st := fold_left _ mid _) in *. cbn [pn_survivors pn_newFrags app] in Es, En. clearbody st.
  destruct (carve_spec iv mid [iv]) as (Hwn & Hcn & Hin); [assumption|repeat constructor; apply Hiv|].
  rewrite <- En in Hwn, Hcn, Hin. specialize (Hin iv ltac:(repeat constructor; lia)).
  rewrite List.Forall_forall in Hokmid.
  assert (Hws : wf (pn_survivors st)).
  { rewrite Es. apply flat_map_wf; [|assumption]. intros e He.
    destruct (survivor_spec iv e Hiv (Hokmid e He)) as (? & ? & _). now split. }
  assert (Hcs : forall x c, has_cell (pn_survivors st) x c <->
    exists e, In e mid /\ in_iv x e /\ (wins iv e = true \/ ~ in_iv x iv) /\ cell_of e x = c).
  { intros x c. rewrite Es, has_cell_flat_map. split.
    - intros (e & He & Hc). apply survivor_spec in Hc; eauto.
    - intros (e & He & Hc). exists e. split; [assumption|]. apply survivor_spec; auto. }
  set (nf := (if _ : bool then _ else _).1).
  assert (Hnf : wf nf /\ (forall x c, has_cell nf x c <-> has_cell (pn_newFrags st) x c) /\
                Forall (within iv) nf).
  { subst nf. destruct (_ && pn_shadowed st); cbn [fst remarkFragmentsDirty]; [|now split_and!].
    split_and!; [now apply remark_wf|intros; apply has_cell_remark|now apply remark_within]. }
  clearbody nf. destruct Hnf as (Hwnf & Hcnf & Hinf).
  split_and!.
  - apply merge_wf; auto. intros x c c' Hs Hn.
    apply Hcs in Hs as (e & He & Hxe & Hor & _). apply Hcnf, Hcn in Hn as [Hn Hno].
    apply has_cell_cons in Hn as [[Hx _]|Hn]; [|now apply has_cell_nil in Hn].
    destruct Hor as [Hw|Hout]; [now apply (Hno e He Hw)|contradiction].
  - intros x c. rewrite has_cell_sort, has_cell_app, Hcs, Hcnf, Hcn, has_cell_cons, has_cell_nil.
    unfold newest. tauto.
  - intros f Hf. apply elem_of_sort_by, in_app_iff in Hf as [Hf|Hf].
    + right. rewrite Es in Hf. apply in_flat_map in Hf as (e & He & Hf). exists e. split; [assumption|].
      destruct (survivor_spec iv e Hiv (Hokmid e He)) as (_ & W & _). rewrite List.Forall_forall in W. auto.
    + left. rewrite List.Forall_forall in Hinf. auto.
Qed.

(** Intervals outside the new one's range keep their bytes. *)
Lemma newest_outside pre mid after iv x c :
  Forall (fun e => iv_fileOff e + iv_length e <= iv_fileOff iv) pre ->
  Forall (fun e => iv_fileOff iv + iv_length iv <= iv_fileOff e) after ->
  newest (pre ++ mid ++ after) iv x c <->
  has_cell pre x c \/ newest mid iv x c \/ has_cell after x c.
Proof.
  rewrite !List.Forall_forall. intros Hpre Hafter.
  assert (Hp : forall e, In e pre -> in_iv x e -> ~ in_iv x iv)
    by (intros e He; specialize (Hpre e He); unfold in_iv; lia).
  assert (Ha : forall e, In e after -> in_iv x e -> ~ in_iv x iv)
    by (intros e He; specialize (Hafter e He); unfold in_iv; lia).
  unfold newest, has_cell. setoid_rewrite in_app_iff. setoid_rewrite in_app_iff. split.
  - intros [(Hx & Hc & Hno)|(e & [He|[He|He]] & Hx & Hor & Hc)].
    + right. left. left. split_and!; auto.
    + left. eauto.
    + right. left. right. eauto 6.
    + right. right. eauto.
  - intros [(e & He & Hx & Hc)|[[(Hx & Hc & Hno)|(e & He & Hx & Hor & Hc)]|(e & He & Hx & Hc)]].
    + right. exists e. split_and!; eauto.
    + left. split_and!; auto. intros e [He|[He|He]] Hw Hxe; [now apply (Hp e)|now apply (Hno e)|now apply (Ha e)].
    + right. exists e. split_and!; eauto.
    + right. exists e. split_and!; eauto.
Qed.

Lemma after_range iv after :
  wf after -> match after with [] => True | e :: _ => iv_fileOff iv + iv_length iv <= iv_fileOff e end ->
  Forall (fun e => iv_fileOff iv + iv_length iv <= iv_fileOff e) after.
Proof.
  destruct after as [|e r]; [constructor|]. intros Hwf He.
  apply wf_cons_inv in Hwf as ((? & ? & ?) & _ & Hb). constructor; [assumption|].
  eapply Forall_impl; [exact Hb|]. unfold iv_before. intros. lia.
Qed.

(** Replacing the overlapped stretch [mid] by well-formed fragments of it. *)
Lemma splice_wf pre mid after iv new :
  wf (pre ++ mid ++ after) -> wf new ->
  Forall (fun e => iv_fileOff e + iv_length e <= iv_fileOff iv) pre ->
  Forall (fun e => iv_fileOff iv + iv_length iv <= iv_fileOff e) after ->
  (forall f, In f new -> within iv f \/ exists e, In e mid /\ within e f) ->
  wf (pre ++ new ++ after).
Proof.
  intros Hw Hn Hpre Hafter Hf. rewrite List.Forall_forall in Hpre, Hafter.
  apply wf_app in Hw as (Hwp & Hma & Hpm). apply wf_app in Hma as (_ & Hwa & Hma).
  apply wf_app. split_and!; [assumption|apply wf_app; split_and!; auto|].
  - intros f b Hin Hb. destruct (Hf f Hin) as [W|(e & He & W)].
    + specialize (Hafter b Hb). unfold within, iv_before in *. lia.
    + specialize (Hma e b He Hb). unfold within, iv_before in *. lia.
  - intros a f Ha Hin. apply in_app_iff in Hin as [Hin|Hin].
    + destruct (Hf f Hin) as [W|(e & He & W)].
      * specialize (Hpre a Ha). unfold within, iv_before in *. lia.
      * specialize (Hpm a e Ha ltac:(apply in_app_iff; auto)). unfold within, iv_before in *. lia.
    + apply Hpm; [assumption|apply in_app_iff; auto].
Qed.

Lemma insert_general_spec ivs iv :
  wf ivs -> iv_ok iv ->
  let lo := search_end ivs (iv_fileOff iv) in
  wf (in_ivs (insert_general ivs lo iv)) /\
  (forall x c, has_cell (in_ivs (insert_general ivs lo iv)) x c <-> newest ivs iv x c).
Proof.
  intros Hwf Hiv lo. destruct (search_end_spec ivs (iv_fileOff iv) Hwf) as [Hlow _]. fold lo in Hlow.
  pose proof (take_drop lo ivs) as Esplit. unfold insert_general.
  destruct (punch_loop_split iv (mkPunch [iv] [] false 0 0 []) (drop lo ivs))
    as (mid & after & Edrop & -> & _ & Hafter).
  rewrite iend_eq in Hafter by assumption.
  set (pre := take lo ivs) in *. clearbody pre. rewrite Edrop in Esplit. clear Edrop lo.
  pose proof Hwf as Hw. rewrite <- Esplit in Hw. pose proof Hw as Hw'.
  apply wf_app in Hw' as (_ & Hma & _). apply wf_app in Hma as (Hwmid & Hwafter & _).
  apply after_range in Hafter; [|assumption].
  destruct (punched_spec iv mid Hwmid Hiv) as (Hp1 & Hp2 & Hp3).
  pose proof (splice_wf pre mid after iv _ Hw Hp1 Hlow Hafter Hp3) as Hres.
  assert (Hcells : forall x c, has_cell (pre ++ punched iv mid ++ after) x c <-> newest ivs iv x c).
  { intros x c. rewrite <- Esplit, newest_outside by assumption. now rewrite !has_cell_app, Hp2. }
  unfold punched in Hres, Hcells. cbv zeta in Hres, Hcells.
  destruct (if _ && pn_shadowed _ then _ else _) as [nf ad]. now split.
Qed.

Lemma newest_nil iv x c : newest [] iv x c <-> has_cell [iv] x c.
Proof.
  rewrite has_cell_cons, has_cell_nil. unfold newest. cbn [In]. split.
  - intros [(? & ? & _)|(? & [] & _)]. auto.
  - intros [[? ?]|[]]. left. split_and!; auto.
Qed.

(** One existing interval over exactly the new one's range. *)
Lemma newest_same e iv x c :
  iv_fileOff e = iv_fileOff iv -> iv_length e = iv_length iv ->
  newest [e] iv x c <-> has_cell [if wins iv e then e else iv] x c.
Proof.
  intros Eo El. assert (Hin : in_iv x e <-> in_iv x iv) by (unfold in_iv; rewrite Eo, El; reflexivity).
  rewrite has_cell_cons, has_cell_nil. unfold newest. cbn [In].
  assert (Hone : (forall e', e = e' \/ False -> wins iv e' = true -> ~ in_iv x e') <->
                 (wins iv e = true -> ~ in_iv x e)) by (split; [auto|intros H e' [<-|[]]; auto]).
  assert (Hex : (exists e', (e = e' \/ False) /\ in_iv x e' /\ (wins iv e' = true \/ ~ in_iv x iv) /\
                  cell_of e' x = c) <->
                in_iv x e /\ (wins iv e = true \/ ~ in_iv x iv) /\ cell_of e x = c)
    by (split; [now intros (e' & [<-|[]] & ?)|intros; exists e; auto]).
  rewrite Hone, Hex. destruct (wins iv e); intuition congruence.
Qed.

Lemma insert_exact_spec ivs iv lo e :
  wf ivs -> iv_ok iv -> ivs !! lo = Some e ->
  Forall (fun e => iv_fileOff e + iv_length e <= iv_fileOff iv) (take lo ivs) ->
  iv_fileOff e = iv_fileOff iv -> iv_length e = iv_length iv ->
  match ivs !! (lo + 1)%nat with None => True | Some e' => iv_fileOff iv + iv_length iv <= iv_fileOff e' end ->
  let r := if wins iv e then ivs else <[lo := iv]> ivs in
  wf r /\ (forall x c, has_cell r x c <-> newest ivs iv x c).
Proof.
  intros Hwf Hiv He Hlow Eo El Hnext. pose proof (lookup_lt_Some _ _ _ He) as Hlt.
  pose proof (take_drop_middle ivs lo e He) as Em.
  assert (Hw : wf (take lo ivs ++ [e] ++ drop (S lo) ivs)) by (cbn [app]; now rewrite Em).
  pose proof Hw as Hw'. apply wf_app in Hw' as (_ & Hw' & _). apply wf_app in Hw' as (_ & Hwa & _).
  assert (Hafter : Forall (fun e => iv_fileOff iv + iv_length iv <= iv_fileOff e) (drop (S lo) ivs)).
  { apply after_range; [assumption|]. replace (S lo) with (lo + 1)%nat by lia.
    pose proof (lookup_drop ivs (lo + 1) 0) as L. rewrite Nat.add_0_r in L. rewrite <- L in Hnext.
    destruct (drop (lo + 1) ivs); exact Hnext. }
  assert (Er : (if wins iv e then ivs else <[lo := iv]> ivs) =
               take lo ivs ++ [if wins iv e then e else iv] ++ drop (S lo) ivs).
  { destruct (wins iv e); cbn [app]; [now rewrite Em|]. now rewrite insert_take_drop by assumption. }
  cbv zeta. rewrite Er. split.
  - apply (splice_wf (take lo ivs) [e] (drop (S lo) ivs) iv); auto.
    + pose proof (wf_ok_lookup _ _ _ Hwf He). destruct (wins iv e); repeat constructor; apply Hiv || apply H.
    + intros f [<-|[]]. left. unfold within. destruct (wins iv e); lia.
  - intros x c. replace (newest ivs iv x c)
      with (newest (take lo ivs ++ [e] ++ drop (S lo) ivs) iv x c) by (cbn [app]; now rewrite Em).
    rewrite newest_outside, newest_same by assumption. now rewrite !has_cell_app.
Qed.

Lemma insert_spec ivs iv :
  wf ivs -> iv_ok iv -> Forall (fun e => iv_version e <> iv_version iv) ivs ->
  wf (in_ivs (insert ivs iv)) /\
  (forall x c, has_cell (in_ivs (insert ivs iv)) x c <-> newest ivs iv x c).
Proof.
  intros Hwf Hiv Hv. unfold insert. destruct (search_end_spec ivs (iv_fileOff iv) Hwf) as [Hlow Hhigh].
  pose proof (insert_general_spec ivs iv Hwf Hiv) as Hgen.
  set (lo := search_end ivs (iv_fileOff iv)) in *. cbv zeta in Hgen.
  pose proof (take_drop lo ivs) as Esplit.
  assert (Hwd : wf (drop lo ivs)) by (rewrite <- Esplit in Hwf; now apply wf_app in Hwf as (_ & ? & _)).
  assert (Hgap : match ivs !! lo with None => True | Some e => iv_fileOff iv + iv_length iv <= iv_fileOff e end ->
    wf (take lo ivs ++ iv :: drop lo ivs) /\
    (forall x c, has_cell (take lo ivs ++ iv :: drop lo ivs) x c <-> newest ivs iv x c)).
  { intros Hnext. assert (Hafter : Forall (fun e => iv_fileOff iv + iv_length iv <= iv_fileOff e) (drop lo ivs)).
    { apply after_range; [assumption|]. pose proof (lookup_drop ivs lo 0) as L.
      rewrite Nat.add_0_r in L. rewrite <- L in Hnext. destruct (drop lo ivs); exact Hnext. }
    split.
    - apply (splice_wf (take lo ivs) [] (drop lo ivs) iv [iv]); auto; [now rewrite <- Esplit in Hwf| |].
      + repeat constructor; apply Hiv.
      + intros f [<-|[]]. left. unfold within. lia.
    - intros x c. replace (newest ivs iv x c)
        with (newest (take lo ivs ++ [] ++ drop lo ivs) iv x c) by (cbn [app]; now rewrite Esplit).
      rewrite newest_outside, newest_nil by assumption.
      change (iv :: drop lo ivs) with ([iv] ++ drop lo ivs). now rewrite !has_cell_app. }
  destruct (ivs !! lo) as [e|] eqn:El; [|now apply Hgap].
  rewrite Z.geb_leb, iend_eq by assumption.
  destruct (Z.leb_spec (iv_fileOff iv + iv_length iv) (iv_fileOff e)); [now apply Hgap|].
  destruct (_ && _ && _) eqn:Ex; [|exact Hgen].
  apply andb_true_iff in Ex as [[Eo Ee]%andb_true_iff Hnext]. apply Z.eqb_eq in Eo, Ee.
  rewrite iend_eq in Ee by eauto using wf_ok_lookup.
  destruct (insert_exact_spec ivs iv lo e) as [Hw Hc]; auto; [lia| |].
  { destruct (ivs !! (lo + 1)%nat); [|easy]. now apply Z.geb_le in Hnext. }
  rewrite Forall_lookup in Hv. specialize (Hv lo e El). unfold wins in Hw, Hc. rewrite Z.gtb_ltb in Hw, Hc.
  destruct (Z.leb_spec (iv_version iv) (iv_version e)).
  - rewrite (proj2 (Z.ltb_lt _ _)) in Hw, Hc by lia. now split.
  - rewrite (proj2 (Z.ltb_ge _ _)) in Hw, Hc by lia. now split.
Qed.

Lemma has_cell_version l x c : has_cell l x c -> exists e, In e l /\ in_iv x e /\ c_version c = iv_version e.
Proof. intros (e & He & Hx & <-). now exists e. Qed.

(** The per-byte specification of a write. *)
Definition overwrite (iv : interval) (x : Z) (old : option cell) : option cell :=
  if contains x iv then
    match old with
    | Some c => if c_version c >? iv_version iv then Some c else Some (cell_of iv x)
    | None => Some (cell_of iv x)
    end
  else old.

Lemma newest_overwrite ivs iv x c :
  wf ivs -> newest ivs iv x c <-> overwrite iv x (resolve ivs x) = Some c.
Proof.
  intros Hwf. unfold overwrite, newest. destruct (contains x iv) eqn:Ex.
  - apply contains_spec in Ex. destruct (resolve ivs x) as [c0|] eqn:E.
    + apply (resolve_has_cell ivs x c0 Hwf) in E as E'. destruct E' as (e0 & He0 & Hx0 & <-).
      cbn [c_version cell_of].
      assert (Huniq : forall e, In e ivs -> in_iv x e -> cell_of e x = cell_of e0 x).
      { intros e He Hx. assert (has_cell ivs x (cell_of e x)) as H by now exists e.
        apply (resolve_has_cell ivs x _ Hwf) in H. congruence. }
      fold (wins iv e0). destruct (wins iv e0) eqn:W; split.
      * intros [(_ & _ & Hno)|(e & He & Hx & _ & <-)]; [now destruct (Hno e0 He0 W)|].
        now rewrite (Huniq e He Hx).
      * intros [= <-]. right. exists e0. auto.
      * intros [(_ & <- & _)|(e & He & Hx & [Hw|?] & _)]; [reflexivity| |contradiction].
        specialize (Huniq e He Hx). injection Huniq as Ev _ _ _ _.
        unfold wins in *. rewrite Ev in Hw. congruence.
      * intros [= <-]. left. split_and!; auto. intros e He Hw Hx.
        specialize (Huniq e He Hx). injection Huniq as Ev _ _ _ _.
        unfold wins in *. rewrite Ev in Hw. congruence.
    + rewrite resolve_None in E by assumption.
      assert (Hnone : forall e, In e ivs -> ~ in_iv x e).
      { intros e He Hx. apply (E (cell_of e x)). now exists e. }
      split.
      * intros [(_ & <- & _)|(e & He & Hx & _)]; [reflexivity|now destruct (Hnone e He)].
      * intros [= <-]. left. split_and!; auto.
  - assert (Hx : ~ in_iv x iv) by (rewrite <- contains_spec; congruence).
    rewrite resolve_has_cell by assumption. unfold has_cell. split.
    + intros [(? & _)|(e & ? & ? & _ & ?)]; [contradiction|eauto].
    + intros (e & ? & ? & ?). right. exists e. auto.
Qed.

Lemma insert_resolve ivs iv :
  wf ivs -> iv_ok iv -> Forall (fun e => iv_version e <> iv_version iv) ivs ->
  wf (in_ivs (insert ivs iv)) /\
  (forall x, resolve (in_ivs (insert ivs iv)) x = overwrite iv x (resolve ivs x)).
Proof.
  intros Hwf Hiv Hv. destruct (insert_spec ivs iv Hwf Hiv Hv) as [Hw Hc]. split; [exact Hw|].
  intros x. destruct (overwrite iv x (resolve ivs x)) as [c|] eqn:E.
  - now apply resolve_has_cell, Hc, newest_overwrite.
  - apply resolve_None; [assumption|]. intros c H. apply Hc, newest_overwrite in H; [congruence|assumption].
Qed.

(** C2: recording a write in the interval index keeps it sorted and
    non-overlapping and implements newest-wins byte by byte, on the fast paths and
    on the general punch-and-merge path alike: a byte of the write maps to the write
    unless a record with a higher version already covers it, every other byte keeps
    its segment location. *)
Theorem insert_newest_wins ivs iv :
  wf ivs -> iv_ok iv -> Forall (fun e => iv_version e <> iv_version iv) ivs ->
  wf (in_ivs (insert ivs iv)) /\
  (forall x, resolve (in_ivs (insert ivs iv)) x = overwrite iv x (resolve ivs x)).
Proof. apply insert_resolve. Qed.

(** ** Replaying a log *)

Definition index_of (ws : list interval) : list interval :=
  fold_left (fun ivs w => in_ivs (insert ivs w)) ws [].

(** The record of [ws] a byte must resolve to: it covers the byte and no record
    of [ws] that covers it is newer. *)
Definition latest (ws : list interval) (x : Z) (c : cell) : Prop :=
  exists w, In w ws /\ in_iv x w /\ cell_of w x = c /\
            forall w', In w' ws -> in_iv x w' -> iv_version w' <= iv_version w.

Lemma index_of_snoc ws w : index_of (ws ++ [w]) = in_ivs (insert (index_of ws) w).
Proof. unfold index_of. now rewrite fold_left_app. Qed.

Lemma wf_in_cell ivs e : wf ivs -> In e ivs -> has_cell ivs (iv_fileOff e) (cell_of e (iv_fileOff e)).
Proof.
  intros [Hok _] He. rewrite List.Forall_forall in Hok. destruct (Hok e He) as (? & ? & ?).
  exists e. split_and!; auto. unfold in_iv. lia.
Qed.

Lemma latest_exists ws x w :
  In w ws -> in_iv x w ->
  exists w0, In w0 ws /\ in_iv x w0 /\ forall w', In w' ws -> in_iv x w' -> iv_version w' <= iv_version w0.
Proof.
  revert w. induction ws as [|a ws IH]; intros w Hin Hx; [easy|].
  assert (Hone : in_iv x a -> (forall w', In w' ws -> in_iv x w' -> iv_version w' <= iv_version a) ->
    exists w0, In w0 (a :: ws) /\ in_iv x w0 /\
      forall w', In w' (a :: ws) -> in_iv x w' -> iv_version w' <= iv_version w0).
  { intros Ha Hmax. exists a. cbn [In]. split_and!; auto. intros w' [<-|?] ?; [lia|auto]. }
  destruct (List.existsb (contains x) ws) eqn:E.
  - apply existsb_exists in E as (w1 & Hin1 & Hx1%contains_spec).
    destruct (IH w1 Hin1 Hx1) as (w0 & Hin0 & Hx0 & Hmax).
    destruct (contains x a) eqn:Ea.
    + apply contains_spec in Ea. destruct (Z.le_gt_cases (iv_version a) (iv_version w0)).
      * exists w0. cbn [In]. split_and!; auto. intros w' [<-|?] ?; auto.
      * apply Hone; auto. intros w' ? ?. specialize (Hmax w' ltac:(assumption) ltac:(assumption)). lia.
    + exists w0. cbn [In]. split_and!; auto. intros w' [<-|?] Hx'; auto.
      apply contains_spec in Hx'. congruence.
  - assert (Hnone : forall w', In w' ws -> ~ in_iv x w').
    { intros w' ? ?%contains_spec. apply not_true_iff_false in E. apply E, existsb_exists. eauto. }
    destruct Hin as [->|Hin]; [|now destruct (Hnone w)]. apply Hone; [assumption|].
    intros w' ? ?. now destruct (Hnone w').
Qed.

Lemma index_of_latest ws :
  Forall iv_ok ws -> NoDup (map iv_version ws) ->
  wf (index_of ws) /\ (forall x c, has_cell (index_of ws) x c <-> latest ws x c).
Proof.
  induction ws as [|w ws IH] using rev_ind; intros Hok Hnd.
  { split; [split; constructor|]. intros x c. rewrite has_cell_nil.
    split; [easy|now intros (? & [] & _)]. }
  apply Forall_app in Hok as [Hok Hw]. apply Forall_cons in Hw as [Hw _].
  rewrite map_app in Hnd. cbn [map] in Hnd. apply NoDup_app in Hnd as (Hnd & Hfresh & _).
  destruct (IH Hok Hnd) as [Hwf Hc].
  assert (Hne : forall w', In w' ws -> iv_version w' <> iv_version w).
  { intros w' Hin E. apply (Hfresh (iv_version w')); [|rewrite E; now left].
    apply list_elem_of_In, in_map, Hin. }
  destruct (insert_spec (index_of ws) w Hwf Hw) as [Hwf' Hc'].
  { apply List.Forall_forall. intros e He. apply (wf_in_cell _ _ Hwf), Hc in He as (w' & Hin & _ & E & _).
    injection E as Ev _ _ _ _. rewrite <- Ev. now apply Hne. }
  rewrite index_of_snoc. split; [exact Hwf'|]. intros x c. rewrite Hc'. clear Hc' IH Hok Hnd Hfresh Hwf'.
  unfold newest. unfold latest. setoid_rewrite in_app_iff. cbn [In].
  assert (Hcov : forall e, In e (index_of ws) -> in_iv x e -> latest ws x (cell_of e x))
    by (intros e He Hx; apply Hc; now exists e).
  split.
  - intros [(Hx & <- & Hno)|(e & He & Hx & Hor & <-)].
    + exists w. split_and!; auto. intros w' [Hin|[<-|[]]] Hx'; [|lia].
      destruct (Z.le_gt_cases (iv_version w') (iv_version w)) as [?|Hgt]; [assumption|exfalso].
      destruct (latest_exists ws x w' Hin Hx') as (w0 & Hin0 & Hx0 & Hmax).
      specialize (Hmax w' Hin Hx') as Hge.
      destruct (proj2 (Hc x (cell_of w0 x))) as (e & He & Hxe & E); [exists w0; auto|].
      injection E as Ev _ _ _ _. apply (Hno e He); [|assumption]. unfold wins. apply Z.gtb_lt. lia.
    + destruct (Hcov e He Hx) as (w0 & Hin & Hx0 & E & Hmax). exists w0. split_and!; auto.
      intros w' [Hin'|[<-|[]]] Hx'; [now apply Hmax|].
      destruct Hor as [Hwin|?]; [|contradiction]. unfold wins in Hwin.
      injection E as Ev _ _ _ _. rewrite Ev. apply Z.gtb_lt in Hwin. lia.
  - intros (w0 & [Hin|[<-|[]]] & Hx & <- & Hmax).
    + assert (latest ws x (cell_of w0 x)) as Hl by (exists w0; split_and!; auto).
      apply Hc in Hl as (e & He & Hxe & E). right. exists e. split_and!; auto.
      injection E as Ev _ _ _ _. destruct (contains x w) eqn:Ew; [left|right; now rewrite <- contains_spec, Ew].
      apply contains_spec in Ew. specialize (Hmax w ltac:(auto) Ew). specialize (Hne w0 Hin).
      unfold wins. apply Z.gtb_lt. lia.
    + left. split_and!; auto. intros e He Hwin Hxe. destruct (Hcov e He Hxe) as (w0 & Hin & Hx0 & E & _).
      specialize (Hmax w0 (or_introl Hin) Hx0). unfold wins in Hwin. apply Z.gtb_lt in Hwin.
      injection E as Ev _ _ _ _. lia.
Qed.

(** C28: the index a log of records builds depends only on the records, not on the
    order they are indexed in (appends arrive in version order, recovery and repack
    do not): whatever the order, every byte resolves to the covering record with the
    highest version, and to nothing exactly when no record covers it. *)
Theorem replay_order_irrelevant ws ws' :
  Forall iv_ok ws -> NoDup (map iv_version ws) -> Permutation ws ws' ->
  wf (index_of ws') /\
  (forall x c, resolve (index_of ws') x = Some c <-> latest ws x c) /\
  (forall x, resolve (index_of ws') x = resolve (index_of ws) x).
Proof.
  intros Hok Hnd P.
  destruct (index_of_latest ws Hok Hnd) as [Hwf Hc].
  destruct (index_of_latest ws') as [Hwf' Hc'].
  { now apply (Permutation_Forall P). }
  { now rewrite <- (Permutation_map iv_version P). }
  assert (Hl : forall x c, latest ws' x c <-> latest ws x c).
  { intros x c. unfold latest. split; intros (w & Hin & Hx & E & Hmax); exists w; split_and!; auto;
      try (eapply Permutation_in; [|exact Hin]; auto; now symmetry);
      intros w' Hin'; apply Hmax; (eapply Permutation_in; [|exact Hin']); auto; now symmetry. }
  split_and!; [exact Hwf'| |].
  - intros x c. now rewrite resolve_has_cell, Hc', Hl by assumption.
  - intros x. apply resolve_ext; auto. intros c. now rewrite Hc', Hc, Hl.
Qed.

(** ** Reads *)

(** Non-empty pieces that follow one another from [lo] to [hi]. *)
Fixpoint pieces_tile (lo hi : Z) (ps : list piece) : Prop :=
  match ps with
  | [] => lo = hi
  | p :: r => p_dstStart p = lo /\ lo < p_dstEnd p /\ pieces_tile (p_dstEnd p) hi r
  end.

(** The piece serves the destination byte [d] from what the index knows. *)
Definition serves (p : piece) (d : Z) (o : option cell) : Prop :=
  p_dstStart p <= d < p_dstEnd p /\
  match o with
  | None => p_hole p = true
  | Some c => p_hole p = false /\ p_cold p = c_cold c /\
      (c_cold c = false ->
        sl_SegmentID (p_loc p) = c_seg c /\ p_recOff p = c_recOff c /\
        sl_Offset (p_loc p) + p_subOff p + (d - p_dstStart p) = c_off c)
  end.

Definition served (ps : list piece) (d : Z) (o : option cell) : Prop := exists p, In p ps /\ serves p d o.

Lemma resolve_before iv l x : wf (iv :: l) -> x < iv_fileOff iv -> resolve (iv :: l) x = None.
Proof.
  intros Hwf Hx. apply resolve_None; [assumption|]. intros c (e & He & Hin & _).
  apply wf_cons_inv in Hwf as ((? & ? & ?) & _ & Hb). rewrite List.Forall_forall in Hb.
  destruct He as [<-|He]; [unfold in_iv in Hin; lia|]. specialize (Hb e He).
  unfold in_iv, iv_before in *. lia.
Qed.

Lemma resolve_skip iv l x : ~ in_iv x iv -> resolve (iv :: l) x = resolve l x.
Proof.
  intros Hx. unfold resolve. cbn [List.find]. destruct (contains x iv) eqn:E; [|reflexivity].
  apply contains_spec in E. contradiction.
Qed.

Lemma resolve_head iv l x : in_iv x iv -> resolve (iv :: l) x = Some (cell_of iv x).
Proof. intros Hx%contains_spec. unfold resolve. cbn [List.find]. now rewrite Hx. Qed.

Lemma served_cons p ps d o : serves p d o \/ served ps d o -> served (p :: ps) d o.
Proof. intros [H|(q & Hq & H)]; [exists p|exists q]; cbn; auto. Qed.

Lemma serves_hole s e d : s <= d < e -> serves (hole_piece s e) d None.
Proof. unfold serves. cbn. auto. Qed.

Lemma wf_ends_after iv l pos :
  wf (iv :: l) -> pos <= iv_fileOff iv + iv_length iv -> Forall (fun e => pos < iv_fileOff e + iv_length e) l.
Proof.
  intros Hwf Hp. apply wf_cons_inv in Hwf as (_ & [Hok _] & Hb). rewrite List.Forall_forall in *.
  intros e He. specialize (Hok e He) as (? & ? & ?). specialize (Hb e He). unfold iv_before in Hb. lia.
Qed.

Lemma plan_loop_spec rest offset end_ pos :
  wf rest -> offset <= pos <= end_ -> Forall (fun e => pos < iv_fileOff e + iv_length e) rest ->
  pieces_tile (pos - offset) (end_ - offset) (plan_loop rest offset end_ pos) /\
  (forall x, pos <= x < end_ -> served (plan_loop rest offset end_ pos) (x - offset) (resolve rest x)).
Proof.
  revert pos. induction rest as [|iv r IH]; intros pos Hwf Hpos Hend; cbn [plan_loop].
  { zcase; cbn; split; try lia. intros x Hx.
    apply served_cons. left. apply serves_hole. lia. }
  zcase; [|cbn; split; [lia|intros; lia]].
  assert (Hwf0 := Hwf). apply wf_cons_inv in Hwf as (Hiv & Hwf & Hb). pose proof Hiv as (? & ? & ?).
  apply Forall_cons in Hend as [He Hend]. rewrite iend_eq by assumption. rewrite Z.geb_leb.
  destruct (Z.leb_spec end_ (iv_fileOff iv)).
  { cbn. split; [lia|]. intros x Hx. rewrite resolve_before by (auto; lia).
    apply served_cons. left. apply serves_hole. lia. }
  set (q := if pos <? iv_fileOff iv then iv_fileOff iv else pos).
  assert (Hq : q = Z.max pos (iv_fileOff iv)) by (subst q; zcase; lia). clearbody q.
  set (se := Z.min (iv_fileOff iv + iv_length iv) end_).
  destruct (IH se) as [Ht Hs]; [assumption|lia|apply (wf_ends_after iv); [assumption|lia]|].
  set (p := if iv_cold iv then _ else _).
  assert (Hp : p_dstStart p = q - offset /\ p_dstEnd p = se - offset) by (subst p; now case_match).
  assert (Hsv : forall x, q <= x < se -> serves p (x - offset) (Some (cell_of iv x))).
  { intros x Hx. unfold serves. destruct Hp as [-> ->]. split; [lia|].
    subst p. cbn [c_cold cell_of]. destruct (iv_cold iv); cbn; split_and!; auto; [easy|].
    intros _. split_and!; auto. lia. }
  clearbody p. destruct Hp as [Hp1 Hp2].
  assert (Htail : pieces_tile (q - offset) (end_ - offset) (p :: plan_loop r offset end_ se)).
  { cbn. rewrite Hp1, Hp2. split_and!; [reflexivity|lia|exact Ht]. }
  assert (Hserve : forall x, q <= x < end_ ->
    served (p :: plan_loop r offset end_ se) (x - offset) (resolve (iv :: r) x)).
  { intros x Hx. apply served_cons. destruct (Z.lt_ge_cases x se).
    - left. rewrite resolve_head by (unfold in_iv; lia). apply Hsv. lia.
    - right. rewrite resolve_skip by (unfold in_iv; lia). apply Hs. lia. }
  clearbody se. destruct (Z.ltb_spec pos (iv_fileOff iv)); cbn [app].
  - replace q with (iv_fileOff iv) in * by lia. split; [cbn [pieces_tile hole_piece p_dstStart p_dstEnd]; auto with lia|].
    intros x Hx. apply served_cons. destruct (Z.lt_ge_cases x (iv_fileOff iv)).
    + left. rewrite resolve_before by (auto; lia). apply serves_hole. lia.
    + right. apply Hserve. lia.
  - replace q with pos in * by lia. now split.
Qed.

Lemma resolve_skip_prefix pre l x :
  Forall (fun e => iv_fileOff e + iv_length e <= x) pre -> resolve (pre ++ l) x = resolve l x.
Proof.
  induction 1 as [|e pre He Hpre IH]; [reflexivity|]. cbn [app].
  rewrite resolve_skip; [exact IH|]. unfold in_iv. lia.
Qed.

Lemma plan_serves ivs offset n :
  wf ivs -> 0 <= offset -> 0 <= n -> offset + n < 2 ^ 63 ->
  pieces_tile 0 n (plan ivs offset n) /\
  (forall d, 0 <= d < n -> served (plan ivs offset n) d (resolve ivs (offset + d))).
Proof.
  intros Hwf Ho Hn Hr. unfold plan. rewrite i64_small by (unfold in_i64; lia).
  destruct (search_end_spec ivs offset Hwf) as [Hlow Hhigh]. cbv zeta in Hlow, Hhigh.
  set (k := search_end ivs offset) in *. clearbody k.
  assert (Hd : wf (drop k ivs)).
  { rewrite <- (take_drop k ivs) in Hwf. now apply wf_app in Hwf as (_ & ? & _). }
  destruct (plan_loop_spec (drop k ivs) offset (offset + n) offset Hd ltac:(lia) Hhigh) as [Ht Hs].
  split; [now replace (offset - offset) with 0 in Ht by lia; replace (offset + n - offset) with n in Ht by lia|].
  intros d Hd'. specialize (Hs (offset + d) ltac:(lia)).
  replace (offset + d - offset) with d in Hs by lia.
  rewrite <- (take_drop k ivs) at 2. rewrite resolve_skip_prefix; [exact Hs|].
  eapply Forall_impl; [exact Hlow|]. cbn. intros. lia.
Qed.

(** a read plan covers the requested range exactly once, in order, and serves
    every byte from what the index knows of it: an unmapped byte from a hole piece, an
    evicted byte from a cold piece, and any other byte from the segment offset of the
    record that owns it. *)
Theorem plan_resolves ivs offset n :
  wf ivs -> 0 <= offset -> 0 <= n -> offset + n < 2 ^ 63 ->
  pieces_tile 0 n (plan ivs offset n) /\
  (forall d, 0 <= d < n -> served (plan ivs offset n) d (resolve ivs (offset + d))).
Proof. apply plan_serves. Qed.

(** ** Data extents *)

Lemma extents_loop_spec rest cs ce fs lo :
  wf rest -> 0 <= lo <= cs -> cs < ce -> Forall (fun e => ce <= iv_fileOff e) rest ->
  canonical_from lo (extents_loop rest cs ce fs) /\
  (forall x, covers (extents_loop rest cs ce fs) x <->
     x < fs /\ (cs <= x < ce \/ exists e, In e rest /\ in_iv x e)).
Proof.
  assert (Happ : forall cs ce x, covers (appendExtent cs ce fs) x <-> x < fs /\ cs <= x < ce).
  { intros cs0 ce0 x. unfold appendExtent. cbv zeta. repeat zcase; unfold covers, in_extent; cbn;
      (split; [intros (e & [<-|[]] & ?) || intros (e & [] & _); cbn in *; lia|intros; try lia]);
      eexists; (split; [left; reflexivity|cbn; lia]). }
  revert cs ce lo. induction rest as [|iv r IH]; intros cs ce lo Hwf Hlo Hc Hb; cbn [extents_loop].
  { split.
    - unfold appendExtent. cbv zeta. repeat zcase; cbn; lia.
    - intros x. rewrite Happ. split; [tauto|]. now intros [? [?|(e & [] & _)]]. }
  apply wf_cons_inv in Hwf as ((? & ? & ?) & Hwf & Hbe). apply Forall_cons in Hb as [Hb1 Hb].
  rewrite iend_eq by (unfold iv_ok; auto).
  assert (Hex : forall x, (exists e, In e (iv :: r) /\ in_iv x e) <->
                          in_iv x iv \/ exists e, In e r /\ in_iv x e).
  { intros x. cbn [In]. split; [intros (e & [<-|?] & ?); eauto|intros [?|(e & ? & ?)]; eauto]. }
  assert (Hnext : Forall (fun e => iv_fileOff iv + iv_length iv <= iv_fileOff e) r) by exact Hbe.
  zcase.
  - destruct (IH cs (Z.max ce (iv_fileOff iv + iv_length iv)) lo) as [Hcan Hcov]; auto; [lia| |].
    { eapply Forall_impl; [exact Hnext|]. cbn. intros. lia. }
    split; [exact Hcan|]. intros x. rewrite Hcov, Hex. unfold in_iv at 2. intuition lia.
  - destruct (IH (iv_fileOff iv) (iv_fileOff iv + iv_length iv) (ce + 1)) as [Hcan Hcov]; auto; try lia.
    split.
    + unfold appendExtent. cbv zeta. repeat zcase; cbn [app canonical_from];
        try (apply (canonical_from_weaken (ce + 1)); [lia|assumption]).
      * cbn. split_and!; try lia. apply (canonical_from_weaken (ce + 1)); [lia|assumption].
      * cbn. split_and!; try lia. assumption.
    + intros x. unfold covers in *. setoid_rewrite in_app_iff.
      rewrite (Hex x). specialize (Hcov x). specialize (Happ cs ce x). unfold in_iv at 1.
      split.
      * intros (e & [He|He] & Hx).
        -- assert (x < fs /\ cs <= x < ce) by (apply Happ; eauto). tauto.
        -- assert (x < fs /\ (iv_fileOff iv <= x < iv_fileOff iv + iv_length iv \/
             exists e, In e r /\ in_iv x e)) by (apply Hcov; eauto). tauto.
      * intros [Hf [Hx|Hx]].
        -- destruct (proj2 Happ (conj Hf Hx)) as (e & ? & ?). eauto.
        -- destruct (proj2 Hcov (conj Hf Hx)) as (e & ? & ?). eauto.
Qed.

Lemma resolve_Some_iff ivs x : resolve ivs x <> None <-> exists e, In e ivs /\ in_iv x e.
Proof.
  unfold resolve. split.
  - destruct (List.find (contains x) ivs) as [e|] eqn:E; [|easy]. intros _.
    apply find_some in E as [? ?%contains_spec]. eauto.
  - intros (e & He & Hx%contains_spec). destruct (List.find (contains x) ivs) eqn:E; [easy|].
    pose proof (find_none _ _ E e He). congruence.
Qed.

(** the extents the journal reports for SEEK_DATA/SEEK_HOLE are in the canonical
    form the hole map expects (sorted, non-empty, neither overlapping nor touching)
    and cover exactly the bytes below the file size that the index maps, evicted ones
    included. *)
Theorem DataExtents_exact ivs fileSize :
  wf ivs ->
  canonical (DataExtents ivs fileSize) /\
  (forall x, covers (DataExtents ivs fileSize) x <-> x < fileSize /\ resolve ivs x <> None).
Proof.
  intros Hwf. destruct ivs as [|iv r]; cbn [DataExtents].
  { split; [easy|]. intros x. split; [now intros (? & [] & _)|now intros [_ []]]. }
  apply wf_cons_inv in Hwf as (Hiv & Hwf & Hb). pose proof Hiv as (? & ? & ?).
  rewrite iend_eq by assumption.
  destruct (extents_loop_spec r (iv_fileOff iv) (iv_fileOff iv + iv_length iv) fileSize 0) as [Hc Hx];
    auto; try lia.
  split; [exact Hc|]. intros x. rewrite Hx, resolve_Some_iff. cbn [In]. unfold in_iv at 2. split.
  - intros [? [?|(e & ? & ?)]]; eauto 6.
  - intros [? (e & [<-|?] & ?)]; eauto 6.
Qed.

(** ** Byte accounting *)

Definition dirty_len (iv : interval) : Z :=
  if negb (iv_synced iv) && negb (iv_cold iv) then iv_length iv else 0.
Definition live_len (iv : interval) : Z := if iv_cold iv then 0 else iv_length iv.

Definition total (w : interval -> Z) (l : list interval) : Z := foldr (fun iv a => w iv + a) 0 l.
Definition dirty_bytes : list interval -> Z := total dirty_len.
Definition live_bytes : list interval -> Z := total live_len.
Definition dead_bytes (l : list segDead) : Z := foldr (fun d a => sd_bytes d + a) 0 l.

Lemma total_app w l l' : total w (l ++ l') = total w l + total w l'.
Proof. unfold total. induction l; cbn; [reflexivity|]. rewrite IHl. lia. Qed.

Lemma total_perm w l l' : Permutation l l' -> total w l = total w l'.
Proof. unfold total. induction 1; cbn; lia. Qed.

Lemma total_sort w l : total w (sort_by (key_lt iv_fileOff) l) = total w l.
Proof. symmetry. apply total_perm, sort_by_perm. Qed.

Lemma dead_bytes_app l l' : dead_bytes (l ++ l') = dead_bytes l + dead_bytes l'.
Proof. unfold dead_bytes. induction l; cbn; [reflexivity|]. rewrite IHl. lia. Qed.

(** What a superseded interval loses and what its re-marked fragments gain. *)
Lemma without_totals e ns ne :
  iv_ok e -> ns < ne -> iv_fileOff e < ne -> ns < iv_fileOff e + iv_length e ->
  let ov := Z.min (iv_fileOff e + iv_length e) ne - Z.max (iv_fileOff e) ns in
  let frags := remarkFragmentsDirty (without e ns ne) in
  0 < ov /\
  dirty_bytes frags.1 + (if negb (iv_cold e) && negb (iv_synced e) then ov else 0) = dirty_len e + frags.2 /\
  live_bytes frags.1 + (if negb (iv_cold e) then ov else 0) = live_len e.
Proof.
  intros Hok Hn H1 H2. pose proof Hok as (? & ? & ?). unfold without. rewrite iend_eq by assumption.
  unfold dirty_bytes, live_bytes, dirty_len, live_len, remarkFragmentsDirty, remark1.
  repeat zcase; cbn [app map foldr fst snd total clamp iv_synced iv_cold iv_length set_synced];
    destruct (iv_synced e) eqn:Es, (iv_cold e) eqn:Ec;
    cbn [negb andb set_synced clamp iv_synced iv_cold iv_length total foldr fst snd];
    rewrite ?Es, ?Ec; cbn [negb andb]; lia.
Qed.

(** The counters of the punch loop when nothing newer is in the way. *)
Lemma punch_totals iv mid st :
  iv_ok iv ->
  Forall iv_ok mid -> Forall (fun e => wins iv e = false) mid ->
  Forall (fun e => iv_fileOff e < iv_fileOff iv + iv_length iv) mid ->
  Forall (fun e => iv_fileOff iv < iv_fileOff e + iv_length e) mid ->
  let st' := fold_left (punch_step iv) mid st in
  pn_newFrags st' = pn_newFrags st /\ pn_shadowed st' = pn_shadowed st /\
  dirty_bytes (pn_survivors st') + pn_dirtyRemoved st' =
    dirty_bytes (pn_survivors st) + pn_dirtyRemoved st + dirty_bytes mid + (pn_dirtyAdded st' - pn_dirtyAdded st) /\
  live_bytes (pn_survivors st') + dead_bytes (pn_dead st') =
    live_bytes (pn_survivors st) + dead_bytes (pn_dead st) + live_bytes mid.
Proof.
  intros Hiv. pose proof Hiv as (? & ? & ?). revert st.
  induction mid as [|e mid IH]; intros st Hok Hw Hlt Hgt; cbn [fold_left].
  { unfold dirty_bytes, live_bytes. cbn [total foldr]. split_and!; auto; lia. }
  apply Forall_cons in Hok as [He Hok], Hw as [We Hw], Hlt as [Hle Hlt], Hgt as [Hge Hgt].
  cbv zeta in IH. destruct (IH (punch_step iv st e) Hok Hw Hlt Hgt) as (-> & -> & Ed & El).
  clear IH. destruct (without_totals e (iv_fileOff iv) (iv_fileOff iv + iv_length iv) He) as (Hov & Hd & Hl);
    [lia|assumption|assumption|].
  unfold punch_step in *. unfold wins in We. rewrite We in *. rewrite !iend_eq in * by assumption. cbv zeta in *.
  set (ov := Z.min _ _ - Z.max _ _) in *. rewrite Z.gtb_ltb, (proj2 (Z.ltb_lt 0 ov)) in * by lia.
  destruct (remarkFragmentsDirty _) as [frags added]. cbn [fst snd] in Hd, Hl.
  cbn [pn_survivors pn_newFrags pn_shadowed pn_dirtyRemoved pn_dirtyAdded pn_dead andb] in *.
  split_and!; auto.
  - unfold dirty_bytes in *. cbn [total foldr]. rewrite total_app in Ed.
    change (foldr (fun iv a => dirty_len iv + a) 0 mid) with (total dirty_len mid).
    destruct (iv_cold e), (iv_synced e); cbn [negb andb] in *; lia.
  - unfold live_bytes in *. cbn [total foldr]. rewrite total_app in El.
    change (foldr (fun iv a => live_len iv + a) 0 mid) with (total live_len mid).
    destruct (iv_cold e); cbn [negb andb] in *; rewrite ?dead_bytes_app in El; cbn [dead_bytes foldr sd_bytes] in El; lia.
Qed.

Lemma total_nil w : total w [] = 0.
Proof. reflexivity. Qed.

Lemma total_cons w e l : total w (e :: l) = w e + total w l.
Proof. reflexivity. Qed.

Definition accounted (ivs : list interval) (iv : interval) (r : inserted) : Prop :=
  dirty_bytes (in_ivs r) + in_dirtyRemoved r = dirty_bytes ivs + dirty_len iv + in_dirtyAdded r /\
  live_bytes (in_ivs r) + dead_bytes (in_dead r) = live_bytes ivs + live_len iv.

Lemma insert_general_accounting ivs iv :
  wf ivs -> iv_ok iv -> Forall (fun e => wins iv e = false) ivs ->
  accounted ivs iv (insert_general ivs (search_end ivs (iv_fileOff iv)) iv).
Proof.
  intros Hwf Hiv Hv. destruct (search_end_spec ivs (iv_fileOff iv) Hwf) as [_ Hhigh]. cbv zeta in Hhigh.
  set (lo := search_end ivs (iv_fileOff iv)) in *. pose proof (take_drop lo ivs) as Esplit.
  unfold insert_general.
  destruct (punch_loop_split iv (mkPunch [iv] [] false 0 0 []) (drop lo ivs))
    as (mid & after & Edrop & -> & Hmid & _).
  rewrite iend_eq in Hmid by assumption. rewrite Edrop in Esplit, Hhigh.
  set (pre := take lo ivs) in *. clearbody pre lo. subst ivs. destruct Hwf as [Hok _].
  rewrite !Forall_app in Hok, Hv. apply Forall_app in Hhigh as [Hhigh _].
  destruct (punch_totals iv mid (mkPunch [iv] [] false 0 0 [])) as (En & Es & Ed & El); try tauto.
  set (st := fold_left _ mid _) in *. clearbody st.
  cbn [pn_newFrags pn_shadowed pn_survivors pn_dirtyRemoved pn_dirtyAdded pn_dead] in En, Es, Ed, El.
  rewrite Es, andb_false_r. unfold accounted, dirty_bytes, live_bytes in *.
  cbn [in_ivs in_dirtyRemoved in_dirtyAdded in_dead].
  rewrite !total_app, !total_sort, !total_app, En, !total_cons, !total_nil.
  rewrite !total_nil in *. change (dead_bytes []) with 0 in El. lia.
Qed.

Lemma insert_accounted ivs iv :
  wf ivs -> iv_ok iv -> Forall (fun e => iv_version e < iv_version iv) ivs ->
  accounted ivs iv (insert ivs iv).
Proof.
  intros Hwf Hiv Hv.
  pose proof (insert_general_accounting ivs iv Hwf Hiv) as Hgen.
  assert (Hnw : Forall (fun e => wins iv e = false) ivs).
  { eapply Forall_impl; [exact Hv|]. cbn. intros e ?. unfold wins. rewrite Z.gtb_ltb. apply Z.ltb_ge. lia. }
  specialize (Hgen Hnw). unfold insert. set (lo := search_end ivs (iv_fileOff iv)) in *.
  assert (Hgap : accounted ivs iv (mkInserted (take lo ivs ++ iv :: drop lo ivs) 0 0 [])).
  { assert (E : forall w, total w ivs = total w (take lo ivs) + total w (drop lo ivs))
      by (intros w; now rewrite <- total_app, take_drop).
    unfold accounted, dirty_bytes, live_bytes. cbn [in_ivs in_dirtyRemoved in_dirtyAdded in_dead].
    rewrite !E, !total_app, !total_cons. change (dead_bytes []) with 0. lia. }
  destruct (ivs !! lo) as [e|] eqn:El; [|exact Hgap]. destruct (_ >=? _); [exact Hgap|].
  destruct (_ && _ && _) eqn:Ex; [|exact Hgen]. rewrite Forall_lookup in Hv. specialize (Hv lo e El).
  rewrite (proj2 (Z.leb_gt (iv_version iv) (iv_version e))) by lia.
  pose proof (lookup_lt_Some _ _ _ El).
  assert (E : forall w, total w ivs = total w (take lo ivs) + (w e + total w (drop (S lo) ivs)))
    by (intros w; now rewrite <- total_cons, <- total_app, take_drop_middle).
  unfold accounted, dirty_bytes, live_bytes. cbn [in_ivs in_dirtyRemoved in_dirtyAdded in_dead].
  rewrite insert_take_drop by assumption. rewrite !E, !total_app, !total_cons.
  assert (De : dirty_len e = if negb (iv_cold e) && negb (iv_synced e) then iv_length e else 0)
    by (unfold dirty_len; now rewrite andb_comm).
  assert (Le : live_len e = if negb (iv_cold e) then iv_length e else 0)
    by (unfold live_len; now destruct (iv_cold e)).
  destruct (iv_cold e), (iv_synced e); cbn [negb andb dead_bytes foldr sd_bytes] in *; lia.
Qed.

(** the byte counters of a live write (one newer than everything indexed) are
    exact: the dirty bytes of the index grow by the write's own dirty bytes plus the
    re-marked fragments the call reports minus the dirty bytes it reports as
    superseded, and the bytes charged to segments as dead are exactly the local bytes
    the index stops referencing. *)
Theorem insert_accounting ivs iv :
  wf ivs -> iv_ok iv -> Forall (fun e => iv_version e < iv_version iv) ivs ->
  dirty_bytes (in_ivs (insert ivs iv)) + in_dirtyRemoved (insert ivs iv) =
    dirty_bytes ivs + dirty_len iv + in_dirtyAdded (insert ivs iv) /\
  live_bytes (in_ivs (insert ivs iv)) + dead_bytes (in_dead (insert ivs iv)) =
    live_bytes ivs + live_len iv.
Proof. apply insert_accounted. Qed.

(** ** Delete and Truncate *)

Lemma bury_kept ivs v : (bury ivs v).1.1 = List.filter (fun iv => iv_version iv >? v) ivs.
Proof.
  induction ivs as [|iv r IH]; [reflexivity|]. cbn [bury List.filter].
  destruct (bury r v) as [[kept dirty] dead]. cbn [fst] in IH.
  destruct (iv_version iv >? v); cbn [fst]; [now rewrite IH|]. now destruct (iv_cold iv).
Qed.

Lemma dead_bytes_cons d l : dead_bytes (d :: l) = sd_bytes d + dead_bytes l.
Proof. reflexivity. Qed.

Lemma bury_totals ivs v :
  dirty_bytes (bury ivs v).1.1 + (bury ivs v).1.2 = dirty_bytes ivs /\
  live_bytes (bury ivs v).1.1 + dead_bytes (bury ivs v).2 = live_bytes ivs.
Proof.
  unfold dirty_bytes, live_bytes. induction ivs as [|iv r [IH1 IH2]]; [easy|]. cbn [bury].
  destruct (bury r v) as [[kept dirty] dead]. cbn [fst snd] in *.
  destruct (iv_version iv >? v), (iv_cold iv) eqn:Ec, (iv_synced iv) eqn:Es; cbn [fst snd negb];
    rewrite ?total_cons, ?dead_bytes_cons; cbn [sd_bytes];
    assert (dirty_len iv = if negb (iv_synced iv) && negb (iv_cold iv) then iv_length iv else 0) by reflexivity;
    assert (live_len iv = if iv_cold iv then 0 else iv_length iv) by reflexivity;
    rewrite Ec, Es in *; cbn [negb andb] in *; lia.
Qed.

Lemma filter_wf f ivs : wf ivs -> wf (List.filter f ivs).
Proof.
  intros [Hok Hs]. split; [|now apply StronglySorted_filter].
  rewrite List.Forall_forall in *. intros e He%filter_In. now apply Hok.
Qed.

Definition clip1 (v n : Z) (iv : interval) : list interval :=
  if (iv_version iv >? v) || (iend iv <=? n) then [iv]
  else if iv_fileOff iv <? n then [clamp iv (iv_fileOff iv) n] else [].

Lemma clip_kept ivs v n : (clip ivs v n).1.1 = flat_map (clip1 v n) ivs.
Proof.
  induction ivs as [|iv r IH]; [reflexivity|]. cbn [clip flat_map]. unfold clip1 at 1.
  destruct (clip r v n) as [[kept dirty] dead]. cbn [fst] in IH. subst kept.
  destruct (_ || _); [reflexivity|]. destruct (_ <? _); [reflexivity|]. now destruct (iv_cold iv).
Qed.

Lemma clip1_spec v n iv :
  iv_ok iv ->
  wf (clip1 v n iv) /\ Forall (within iv) (clip1 v n iv) /\
  (forall x c, has_cell (clip1 v n iv) x c <->
     in_iv x iv /\ cell_of iv x = c /\ (iv_version iv > v \/ x < n)).
Proof.
  intros Hok. pose proof Hok as (? & ? & ?). unfold clip1. rewrite iend_eq, Z.gtb_ltb by assumption.
  destruct (Z.ltb_spec v (iv_version iv)); cbn [orb]; [|zcase; [|zcase]].
  - split_and!; [repeat constructor; lia|repeat constructor; lia|].
    intros x c. rewrite has_cell_cons, has_cell_nil. split; [intros [[? ?]|[]]; split_and!; auto; lia|tauto].
  - split_and!; [repeat constructor; lia|repeat constructor; lia|].
    intros x c. rewrite has_cell_cons, has_cell_nil. unfold in_iv.
    split; [intros [[? ?]|[]]; split_and!; auto; lia|tauto].
  - split_and!; [repeat constructor; cbn; lia|repeat constructor; cbn; lia|].
    intros x c. rewrite has_cell_cons, has_cell_nil, cell_of_clamp. unfold in_iv. cbn.
    split; [intros [[? ?]|[]]; split_and!; auto; lia|intros (? & ? & ?); left; split; [lia|assumption]].
  - split_and!; [split; constructor|constructor|].
    intros x c. rewrite has_cell_nil. unfold in_iv. split; [easy|]. intros (? & _ & ?). lia.
Qed.

Lemma clip_totals ivs v n :
  Forall iv_ok ivs -> Forall (fun iv => iv_cold iv = true -> iv_synced iv = true) ivs ->
  dirty_bytes (clip ivs v n).1.1 + (clip ivs v n).1.2 = dirty_bytes ivs /\
  live_bytes (clip ivs v n).1.1 + dead_bytes (clip ivs v n).2 = live_bytes ivs.
Proof.
  unfold dirty_bytes, live_bytes. induction ivs as [|iv r IH]; [easy|].
  intros [Hok Hr]%Forall_cons [Hcs Hrs]%Forall_cons. destruct (IH Hr Hrs) as [IH1 IH2]. clear IH.
  cbn [clip]. destruct (clip r v n) as [[kept dirty] dead]. cbn [fst snd] in *.
  rewrite iend_eq by assumption. destruct (_ || _); [cbn [fst snd]; rewrite !total_cons; lia|].
  destruct (iv_cold iv) eqn:Ec, (iv_synced iv) eqn:Es; (try now specialize (Hcs eq_refl));
    destruct (_ <? _); cbn [fst snd negb]; rewrite ?total_cons, ?dead_bytes_cons; cbn [sd_bytes];
    assert (dirty_len iv = if negb (iv_synced iv) && negb (iv_cold iv) then iv_length iv else 0) by reflexivity;
    assert (live_len iv = if iv_cold iv then 0 else iv_length iv) by reflexivity;
    assert (dirty_len (clamp iv (iv_fileOff iv) n) =
      if negb (iv_synced iv) && negb (iv_cold iv) then n - iv_fileOff iv else 0) by reflexivity;
    assert (live_len (clamp iv (iv_fileOff iv) n) = if iv_cold iv then 0 else n - iv_fileOff iv) by reflexivity;
    rewrite Ec, Es in *; cbn [negb andb] in *; lia.
Qed.

Lemma bury_fenced ivs v : wf ivs ->
  wf (bury ivs v).1.1 /\ (forall x c, resolve (bury ivs v).1.1 x = Some c <-> resolve ivs x = Some c /\ c_version c > v).
Proof.
  intros Hwf. assert (Hwb : wf (bury ivs v).1.1) by (rewrite bury_kept; now apply filter_wf).
  split; [exact Hwb|]. intros x c. rewrite !resolve_has_cell by assumption.
  rewrite bury_kept. unfold has_cell. setoid_rewrite filter_In. split.
  - intros (e & [He Hv] & Hx & <-). apply Z.gtb_lt in Hv. split; [eauto|cbn; lia].
  - intros [(e & He & Hx & <-) Hv]. exists e. cbn in Hv. split_and!; auto. apply Z.gtb_lt. lia.
Qed.

Lemma clip_fenced ivs v n : wf ivs ->
  wf (clip ivs v n).1.1 /\
  (forall x c, resolve (clip ivs v n).1.1 x = Some c <-> resolve ivs x = Some c /\ (c_version c > v \/ x < n)).
Proof.
  intros Hwf. assert (Hok : forall e, In e ivs -> iv_ok e) by (apply List.Forall_forall, Hwf).
  assert (Hwc : wf (clip ivs v n).1.1).
  { rewrite clip_kept. apply flat_map_wf; [|assumption]. intros e He.
    destruct (clip1_spec v n e (Hok e He)) as (? & ? & _). now split. }
  split; [exact Hwc|]. intros x c. rewrite !resolve_has_cell by assumption. rewrite clip_kept, has_cell_flat_map. split.
  - intros (e & He & Hc). apply clip1_spec in Hc as (Hx & <- & Hor); [|auto].
    split; [now exists e|exact Hor].
  - intros [(e & He & Hx & <-) Hor]. exists e. split; [assumption|]. apply clip1_spec; auto.
Qed.

(** deleting a file at tombstone version [v] and truncating it to [n] at version
    [v] keep the index well formed and act byte by byte as their fences say: Delete
    forgets exactly the bytes of records at or below [v], Truncate exactly those among
    them at or past [n]; a write that raced past the marker survives whole.  The dirty
    and dead byte counts both report are exact. *)
Theorem delete_truncate_fenced ivs v n :
  wf ivs -> Forall (fun iv => iv_cold iv = true -> iv_synced iv = true) ivs ->
  (wf (bury ivs v).1.1 /\ wf (clip ivs v n).1.1) /\
  (forall x c, resolve (bury ivs v).1.1 x = Some c <-> resolve ivs x = Some c /\ c_version c > v) /\
  (forall x c, resolve (clip ivs v n).1.1 x = Some c <->
     resolve ivs x = Some c /\ (c_version c > v \/ x < n)) /\
  dirty_bytes (bury ivs v).1.1 + (bury ivs v).1.2 = dirty_bytes ivs /\
  dirty_bytes (clip ivs v n).1.1 + (clip ivs v n).1.2 = dirty_bytes ivs /\
  live_bytes (bury ivs v).1.1 + dead_bytes (bury ivs v).2 = live_bytes ivs /\
  live_bytes (clip ivs v n).1.1 + dead_bytes (clip ivs v n).2 = live_bytes ivs.
Proof.
  intros Hwf Hcs. destruct (bury_totals ivs v) as [B1 B2].
  destruct (clip_totals ivs v n (proj1 Hwf) Hcs) as [C1 C2].
  destruct (bury_fenced ivs v Hwf), (clip_fenced ivs v n Hwf). split_and!; auto.
Qed.

(** ** Witnesses *)

Definition sample_iv (off len ver : Z) (synced : bool) : interval :=
  mkInterval off len ver (mkLoc 7 (1000 + off) len) (900 + off) synced false.

(** A dirty record, a gap, a synced record. *)
Definition sample_ivs : list interval := [sample_iv 0 100 1 false; sample_iv 200 100 2 true].

Lemma sample_wf : wf sample_ivs.
Proof. repeat constructor; vm_compute; congruence. Qed.

Lemma sample_ok : iv_ok (sample_iv 50 200 3 false).
Proof. repeat constructor; vm_compute; congruence. Qed.

Lemma insert_newest_wins_witness :
  resolve (in_ivs (insert sample_ivs (sample_iv 50 200 3 false))) 260 =
  overwrite (sample_iv 50 200 3 false) 260 (resolve sample_ivs 260) /\
  length (in_ivs (insert sample_ivs (sample_iv 50 200 3 false))) = 3%nat.
Proof.
  split; [|vm_compute; reflexivity].
  refine (proj2 (insert_newest_wins sample_ivs _ sample_wf sample_ok _) 260).
  repeat constructor; vm_compute; congruence.
Defined.

Lemma replay_order_irrelevant_witness :
  resolve (index_of [sample_iv 50 200 3 false; sample_iv 200 100 2 true; sample_iv 0 100 1 false]) 60 =
  resolve (index_of [sample_iv 0 100 1 false; sample_iv 200 100 2 true; sample_iv 50 200 3 false]) 60.
Proof.
  refine (proj2 (proj2 (replay_order_irrelevant
    [sample_iv 0 100 1 false; sample_iv 200 100 2 true; sample_iv 50 200 3 false] _ _ _ _)) 60).
  - repeat constructor; vm_compute; congruence.
  - vm_compute. apply NoDup_ListNoDup. repeat constructor; cbn; intuition congruence.
  - apply Permutation_rev.
Defined.

Lemma plan_resolves_witness :
  pieces_tile 0 300 (plan sample_ivs 10 300) /\ length (plan sample_ivs 10 300) = 4%nat.
Proof.
  split; [|vm_compute; reflexivity].
  refine (proj1 (plan_resolves sample_ivs 10 300 sample_wf _ _ _)); lia.
Defined.

Lemma DataExtents_exact_witness : canonical (DataExtents sample_ivs 250).
Proof. exact (proj1 (DataExtents_exact sample_ivs 250 sample_wf)). Defined.

Lemma insert_accounting_witness :
  dirty_bytes (in_ivs (insert sample_ivs (sample_iv 50 200 3 false))) + 50 = 100 + 200 + 50.
Proof.
  refine (proj1 (insert_accounting sample_ivs (sample_iv 50 200 3 false) sample_wf sample_ok _)).
  repeat constructor; vm_compute; congruence.
Defined.

Lemma delete_truncate_fenced_witness : wf (bury sample_ivs 1).1.1 /\ wf (clip sample_ivs 2 250).1.1.
Proof.
  refine (proj1 (delete_truncate_fenced sample_ivs 1 250 sample_wf _)) ||
  (split; [refine (proj1 (proj1 (delete_truncate_fenced sample_ivs 1 250 sample_wf _)))
          |refine (proj2 (proj1 (delete_truncate_fenced sample_ivs 2 250 sample_wf _)))]);
  repeat constructor; vm_compute; congruence.
Defined.
