(* ===== verification/SlotTable.v ===== *)
(** * NFSv4.1 slot tables ([internal/adapter/nfs/v4/state/slot_table.go]) and the
    NFSv4.0 owner sequence ids ([openowner.go])

    A slot executes one request at a time and remembers the last reply.  The
    server side of exactly-once semantics is stated on executions: interleavings
    of SEQUENCE validations and request completions over all slots. *)

From S2P Require Import Prelude.

Definition DefaultMaxSlots : Z := 64.
Definition MinSlots : Z := 1.

Inductive SequenceValidation := SeqNew | SeqRetry | SeqMisordered.

(** The status codes [ValidateSequence] returns. *)
Definition NFS4ERR_DELAY : Z := 10008.
Definition NFS4ERR_BADSLOT : Z := 10053.
Definition NFS4ERR_SEQ_MISORDERED : Z := 10063.
Definition NFS4ERR_RETRY_UNCACHED_REP : Z := 10068.
Definition NFS4ERR_SEQ_FALSE_RETRY : Z := 10076.

Abbreviation bytes := (list Z).

(** A nil slice is [None], an empty non-nil one [Some []]. *)
Record Slot := mkSlot {
  SeqID : Z;
  InUse : bool;
  CachedReply : option bytes;
  RequestDigest : option bytes;
}.

Record SlotTable := mkSlotTable {
  slots : list Slot;
  highestSlotID : Z;
  targetHighestSlotID : Z;
  maxSlots : Z;
}.

Definition zeroSlot : Slot := mkSlot 0 false None None.

Definition NewSlotTable (numSlots : Z) : SlotTable :=
  let numSlots := if numSlots <? MinSlots then MinSlots else numSlots in
  let numSlots := if numSlots >? DefaultMaxSlots then DefaultMaxSlots else numSlots in
  mkSlotTable (replicate (Z.to_nat numSlots) zeroSlot) (u32 (numSlots - 1)) (u32 (numSlots - 1)) numSlots.

(** [len(b)] of a possibly nil slice. *)
Definition blen (b : option bytes) : nat := match b with None => 0 | Some l => length l end.
Definition bytes_Equal (a b : option bytes) : bool :=
  bool_decide (default [] a = default [] b).

(** The result of a validation: the slot returned for SeqNew and SeqRetry, or an
    error status. *)
Inductive seq_result :=
  | ResNew (s : Slot)
  | ResRetry (s : Slot)
  | ResErr (status : Z).

Definition validation_of (r : seq_result) : SequenceValidation :=
  match r with ResNew _ => SeqNew | ResRetry _ => SeqRetry | ResErr _ => SeqMisordered end.

Definition set_InUse (b : bool) (s : Slot) : Slot :=
  mkSlot (SeqID s) b (CachedReply s) (RequestDigest s).

(** [st.slots[slotID] = s]; [slotID] is in range where it is used. *)
Definition set_slot (st : SlotTable) (slotID : Z) (s : Slot) : SlotTable :=
  mkSlotTable (<[Z.to_nat slotID := s]> (slots st)) (highestSlotID st) (targetHighestSlotID st) (maxSlots st).
Definition get_slot (st : SlotTable) (slotID : Z) : Slot :=
  default zeroSlot (slots st !! Z.to_nat slotID).
Definition raise_highest (st : SlotTable) (slotID : Z) : SlotTable :=
  if slotID >? highestSlotID st
  then mkSlotTable (slots st) slotID (targetHighestSlotID st) (maxSlots st) else st.

Definition ValidateSequence (st : SlotTable) (slotID seqID : Z) (requestDigest : option bytes)
    : SlotTable * seq_result :=
  if slotID >=? maxSlots st then (st, ResErr NFS4ERR_BADSLOT)
  else
    let slot := get_slot st slotID in
    let expectedSeqID := u32 (SeqID slot + 1) in
    if seqID =? expectedSeqID then
      if InUse slot then (st, ResErr NFS4ERR_DELAY)
      else
        let slot := set_InUse true slot in
        (raise_highest (set_slot st slotID slot) slotID, ResNew slot)
    else if seqID =? SeqID slot then
      if InUse slot then (st, ResErr NFS4ERR_DELAY)
      else if (0 <? blen (RequestDigest slot))%nat && (0 <? blen requestDigest)%nat &&
              negb (bytes_Equal (RequestDigest slot) requestDigest)
      then (st, ResErr NFS4ERR_SEQ_FALSE_RETRY)
      else match CachedReply slot with
      | None => (st, ResErr NFS4ERR_RETRY_UNCACHED_REP)
      | Some _ => (st, ResRetry slot)
      end
    else (st, ResErr NFS4ERR_SEQ_MISORDERED).

Definition CompleteSlotRequest (st : SlotTable) (slotID seqID : Z) (cacheThis : bool)
    (reply requestDigest : option bytes) : SlotTable :=
  if slotID >=? maxSlots st then st
  else
    let digest := if (0 <? blen requestDigest)%nat then requestDigest else None in
    let cached := if cacheThis && bool_decide (reply <> None) then reply else None in
    raise_highest (set_slot st slotID (mkSlot seqID false cached digest)) slotID.

Definition SetTargetHighestSlotID (st : SlotTable) (target : Z) : SlotTable :=
  let target := if target >=? maxSlots st then u32 (maxSlots st - 1) else target in
  mkSlotTable (slots st) (highestSlotID st) target (maxSlots st).

Definition GetHighestSlotID (st : SlotTable) : Z := highestSlotID st.
Definition GetTargetHighestSlotID (st : SlotTable) : Z := targetHighestSlotID st.
Definition MaxSlots (st : SlotTable) : Z := maxSlots st.

Definition SlotsInUse (st : SlotTable) : nat :=
  length (List.filter InUse (take (Z.to_nat (maxSlots st)) (slots st))).
Definition HasInFlightRequests (st : SlotTable) : bool :=
  existsb InUse (take (Z.to_nat (maxSlots st)) (slots st)).

(** ** NFSv4.0 owner sequence ids *)

Inductive SeqIDValidation := SeqIDOK | SeqIDReplay | SeqIDBad.

Definition nextSeqID (current : Z) : Z := if current =? 0xFFFFFFFF then 1 else u32 (current + 1).

Definition ValidateSeqID (lastSeqID seqid : Z) : SeqIDValidation :=
  if seqid =? nextSeqID lastSeqID then SeqIDOK
  else if seqid =? lastSeqID then SeqIDReplay
  else SeqIDBad.

(** ** Executions

    [done] records the executed requests of every slot, newest first: their
    sequence id, digest, whether the reply was to be cached, and the reply.
    [pending] holds the requests the server is executing.  A completion carries
    the slot and sequence id of a request that was admitted, as COMPOUND
    processing does. *)

Record execution := mkExecution {
  ex_slot : Z; ex_seq : Z; ex_digest : option bytes; ex_cache : bool; ex_reply : option bytes;
}.

Record world := mkWorld {
  w_table : SlotTable;
  w_pending : gmap Z (Z * option bytes);
  w_done : list execution;
}.

Inductive step : world -> world -> Prop :=
  | step_validate st p d slotID seqID dg st' r :
      in_u32 slotID -> in_u32 seqID ->
      ValidateSequence st slotID seqID dg = (st', r) ->
      step (mkWorld st p d)
           (mkWorld st' (match r with ResNew _ => <[slotID := (seqID, dg)]> p | _ => p end) d)
  | step_complete st p d slotID seqID dg cacheThis reply :
      p !! slotID = Some (seqID, dg) ->
      step (mkWorld st p d)
           (mkWorld (CompleteSlotRequest st slotID seqID cacheThis reply dg) (delete slotID p)
                    (mkExecution slotID seqID dg cacheThis reply :: d))
  | step_target st p d t :
      in_u32 t -> step (mkWorld st p d) (mkWorld (SetTargetHighestSlotID st t) p d).

Inductive reachable (n : Z) : world -> Prop :=
  | reachable_init : reachable n (mkWorld (NewSlotTable n) ∅ [])
  | reachable_step w w' : reachable n w -> step w w' -> reachable n w'.

(** The executions of one slot, newest first. *)
Definition on_slot (s : Z) (d : list execution) : list execution :=
  List.filter (fun e => ex_slot e =? s) d.

(** ** Invariant *)

Definition table_ok (st : SlotTable) : Prop :=
  MinSlots <= maxSlots st <= DefaultMaxSlots /\
  length (slots st) = Z.to_nat (maxSlots st) /\
  highestSlotID st = maxSlots st - 1 /\
  0 <= targetHighestSlotID st < maxSlots st.

(** The k-th request a slot executed carried sequence id k (mod 2^32). *)
Fixpoint numbered (l : list execution) : Prop :=
  match l with
  | [] => True
  | e :: r => ex_seq e = u32 (Z.of_nat (S (length r))) /\ numbered r
  end.

(** What the slot remembers of the last request it executed. *)
Definition remembers (sl : Slot) (l : list execution) : Prop :=
  match l with
  | [] => CachedReply sl = None /\ RequestDigest sl = None
  | e :: _ =>
      CachedReply sl = (if ex_cache e && bool_decide (ex_reply e <> None) then ex_reply e else None) /\
      RequestDigest sl = (if (0 <? blen (ex_digest e))%nat then ex_digest e else None)
  end.

Definition slot_ok (w : world) (s : Z) : Prop :=
  let sl := get_slot (w_table w) s in
  let l := on_slot s (w_done w) in
  SeqID sl = u32 (Z.of_nat (length l)) /\ numbered l /\ remembers sl l /\
  match w_pending w !! s with
  | None => InUse sl = false
  | Some (seq, _) => InUse sl = true /\ seq = u32 (SeqID sl + 1)
  end.

Definition inv (w : world) : Prop :=
  table_ok (w_table w) /\
  (forall s, 0 <= s < maxSlots (w_table w) -> slot_ok w s) /\
  (forall s x, w_pending w !! s = Some x -> 0 <= s < maxSlots (w_table w)).

Lemma u32_succ n : u32 (u32 n + 1) = u32 (n + 1).
Proof. unfold u32, wrap. now rewrite Zplus_mod_idemp_l. Qed.

Lemma raise_highest_ok st s : highestSlotID st = maxSlots st - 1 -> s < maxSlots st -> raise_highest st s = st.
Proof. intros H Hs. unfold raise_highest. zcase; [lia|reflexivity]. Qed.

Lemma set_slot_raise st s sl :
  table_ok st -> s < maxSlots st -> raise_highest (set_slot st s sl) s = set_slot st s sl.
Proof. intros (_ & _ & H & _) Hs. now apply raise_highest_ok. Qed.

Lemma get_set_slot st s sl t :
  table_ok st -> 0 <= s < maxSlots st -> 0 <= t ->
  get_slot (set_slot st s sl) t = if t =? s then sl else get_slot st t.
Proof.
  intros (_ & Hlen & _) Hs Ht. unfold get_slot, set_slot. cbn. zcase.
  - subst t. now rewrite list_lookup_insert_eq by lia.
  - now rewrite list_lookup_insert_ne by lia.
Qed.

Lemma table_ok_set st s sl : table_ok st -> table_ok (set_slot st s sl).
Proof. unfold table_ok, set_slot. cbn. rewrite length_insert. tauto. Qed.

Lemma NewSlotTable_ok n : table_ok (NewSlotTable n).
Proof.
  unfold NewSlotTable. cbv zeta.
  set (m := if _ >? DefaultMaxSlots then _ else _).
  assert (Hm : 1 <= m <= 64) by (subst m; unfold MinSlots, DefaultMaxSlots; repeat zcase; lia).
  clearbody m. unfold table_ok, MinSlots, DefaultMaxSlots.
  cbn [slots maxSlots highestSlotID targetHighestSlotID].
  rewrite length_replicate, u32_small by (unfold in_u32; lia). lia.
Qed.

Lemma inv_init n : inv (mkWorld (NewSlotTable n) ∅ []).
Proof.
  split_and!; [apply NewSlotTable_ok| |intros s x; cbn; now rewrite lookup_empty].
  intros s Hs. pose proof (NewSlotTable_ok n) as (_ & Hlen & _).
  unfold slot_ok. cbn [w_table w_pending w_done on_slot List.filter length]. rewrite lookup_empty.
  assert (Eg : get_slot (NewSlotTable n) s = zeroSlot).
  { unfold get_slot. destruct (slots (NewSlotTable n) !! Z.to_nat s) eqn:E; [|reflexivity].
    unfold NewSlotTable in E. cbn [slots] in E. now apply lookup_replicate in E as [-> _]. }
  rewrite Eg. now vm_compute.
Qed.

(** A validation that fails changes nothing; the other cases. *)
Lemma ValidateSequence_cases st s q dg st' r :
  table_ok st -> 0 <= s -> ValidateSequence st s q dg = (st', r) ->
  let sl := get_slot st s in
  match r with
  | ResErr _ => st' = st
  | ResNew sl' => s < maxSlots st /\ q = u32 (SeqID sl + 1) /\ InUse sl = false /\
                  sl' = set_InUse true sl /\ st' = set_slot st s sl'
  | ResRetry sl' => s < maxSlots st /\ q = SeqID sl /\ InUse sl = false /\ sl' = sl /\ st' = st /\
                  CachedReply sl <> None /\
                  (blen (RequestDigest sl) = 0%nat \/ blen dg = 0%nat \/
                   default [] (RequestDigest sl) = default [] dg)
  end.
Proof.
  intros Hok Hs H. unfold ValidateSequence in H. cbv zeta in H.
  rewrite Z.geb_leb in H. destruct (Z.leb_spec (maxSlots st) s); [now inversion H|].
  set (sl := get_slot st s) in *.
  destruct (Z.eqb_spec q (u32 (SeqID sl + 1))); [destruct (InUse sl) eqn:E; [now inversion H|]|].
  { rewrite set_slot_raise in H by assumption. now inversion H. }
  destruct (Z.eqb_spec q (SeqID sl)); [|now inversion H].
  destruct (InUse sl) eqn:E; [now inversion H|].
  destruct (_ && negb _) eqn:Ed; [now inversion H|].
  destruct (CachedReply sl) eqn:Ec; inversion H; subst; [|reflexivity].
  split_and!; auto; [congruence|]. unfold bytes_Equal in Ed.
  destruct (Nat.ltb_spec 0 (blen (RequestDigest sl))); [|left; lia].
  destruct (Nat.ltb_spec 0 (blen dg)); [|right; left; lia].
  cbn [andb] in Ed. rewrite negb_false_iff, bool_decide_eq_true in Ed. auto.
Qed.

(** A slot whose entry, executions and pending request are untouched stays ok. *)
Lemma slot_ok_frame w w' s :
  get_slot (w_table w') s = get_slot (w_table w) s ->
  on_slot s (w_done w') = on_slot s (w_done w) ->
  w_pending w' !! s = w_pending w !! s -> slot_ok w s -> slot_ok w' s.
Proof. unfold slot_ok. intros -> -> ->. auto. Qed.

Lemma on_slot_cons s e d : on_slot s (e :: d) = if ex_slot e =? s then e :: on_slot s d else on_slot s d.
Proof. reflexivity. Qed.

Lemma inv_validate st p d slotID seqID dg st' r :
  in_u32 slotID -> ValidateSequence st slotID seqID dg = (st', r) ->
  inv (mkWorld st p d) ->
  inv (mkWorld st' (match r with ResNew _ => <[slotID := (seqID, dg)]> p | _ => p end) d).
Proof.
  intros [Hs0 _] HV (Hok & Hsl & Hp). cbn [w_table w_pending w_done] in *.
  pose proof (ValidateSequence_cases _ _ _ _ _ _ Hok Hs0 HV) as C. cbv zeta in C.
  destruct r as [sl'|sl'|e].
  - destruct C as (Hlt & Eq & Hu & Esl & ->). split_and!; cbn [w_table w_pending w_done].
    + now apply table_ok_set.
    + change (maxSlots (set_slot st slotID sl')) with (maxSlots st). intros s Hs.
      destruct (Z.eq_dec s slotID) as [->|Hne].
      * destruct (Hsl slotID Hs) as (E1 & E2 & E3 & E4). unfold slot_ok. cbn [w_table w_pending w_done] in *.
        rewrite get_set_slot, Z.eqb_refl, lookup_insert_eq by (auto; lia). subst sl'. cbn [SeqID InUse set_InUse].
        split_and!; auto.
      * apply (slot_ok_frame (mkWorld st p d)); cbn [w_table w_pending w_done]; auto.
        -- rewrite get_set_slot by (auto; lia). now rewrite (proj2 (Z.eqb_neq s slotID)).
        -- now rewrite lookup_insert_ne by congruence.
    + intros s x Hx. change (maxSlots (set_slot st slotID sl')) with (maxSlots st).
      destruct (Z.eq_dec s slotID) as [->|]; [lia|]. rewrite lookup_insert_ne in Hx by congruence. eauto.
  - destruct C as (_ & _ & _ & _ & -> & _). now split_and!.
  - subst st'. now split_and!.
Qed.

Lemma inv_complete st p d slotID seqID dg cacheThis reply :
  p !! slotID = Some (seqID, dg) -> inv (mkWorld st p d) ->
  inv (mkWorld (CompleteSlotRequest st slotID seqID cacheThis reply dg) (delete slotID p)
               (mkExecution slotID seqID dg cacheThis reply :: d)).
Proof.
  intros Hpend (Hok & Hsl & Hp). cbn [w_table w_pending w_done] in *.
  pose proof (Hp _ _ Hpend) as Hr. destruct (Hsl slotID Hr) as (E1 & E2 & E3 & E4).
  cbn [w_table w_pending w_done] in *. rewrite Hpend in E4. destruct E4 as [_ E4].
  unfold CompleteSlotRequest. rewrite Z.geb_leb, (proj2 (Z.leb_gt _ _)) by lia. cbv zeta.
  rewrite set_slot_raise by (auto; lia).
  set (nsl := mkSlot seqID false _ _).
  split_and!; cbn [w_table w_pending w_done].
  - now apply table_ok_set.
  - change (maxSlots (set_slot st slotID nsl)) with (maxSlots st). intros s Hs.
    destruct (Z.eq_dec s slotID) as [->|Hne].
    + unfold slot_ok. cbn [w_table w_pending w_done].
      rewrite get_set_slot, Z.eqb_refl, lookup_delete_eq, on_slot_cons by (auto; lia).
      cbn [ex_slot]. rewrite Z.eqb_refl. cbn [length numbered ex_seq remembers ex_cache ex_reply ex_digest].
      assert (En : seqID = u32 (Z.of_nat (S (length (on_slot slotID d))))).
      { rewrite E4, E1, u32_succ. f_equal. lia. }
      subst nsl. cbn [SeqID InUse CachedReply RequestDigest]. split_and!; auto.
    + apply (slot_ok_frame (mkWorld st p d)); cbn [w_table w_pending w_done]; auto.
      * rewrite get_set_slot by (auto; lia). now rewrite (proj2 (Z.eqb_neq s slotID)).
      * rewrite on_slot_cons. cbn [ex_slot]. now rewrite (proj2 (Z.eqb_neq slotID s)) by congruence.
      * now rewrite lookup_delete_ne by congruence.
  - intros s x Hx. apply lookup_delete_Some in Hx as [_ Hx].
    change (maxSlots (set_slot st slotID nsl)) with (maxSlots st). eauto.
Qed.

Lemma inv_target st p d t : in_u32 t -> inv (mkWorld st p d) -> inv (mkWorld (SetTargetHighestSlotID st t) p d).
Proof.
  intros [Ht _] (Hok & Hsl & Hp). cbn [w_table w_pending w_done] in *. split_and!; auto.
  cbn [w_table]. destruct Hok as (H1 & H2 & H3 & H4). unfold SetTargetHighestSlotID, table_ok. cbv zeta.
  cbn [slots maxSlots highestSlotID targetHighestSlotID]. split_and!; auto; try lia.
  - zcase; [|lia]. rewrite u32_small; unfold in_u32, MinSlots, DefaultMaxSlots in *; lia.
  - zcase; [|lia]. rewrite u32_small; unfold in_u32, MinSlots, DefaultMaxSlots in *; lia.
Qed.

Lemma slot_reachable_inv n w : reachable n w -> inv w.
Proof.
  induction 1 as [|w w' _ IH Hstep]; [apply inv_init|].
  destruct Hstep; eauto using inv_validate, inv_complete, inv_target.
Qed.

(** C10: exactly-once execution.  In every interleaving of SEQUENCE validations and
    completions over all slots, the requests each slot executed carry the consecutive
    sequence ids 1, 2, 3, ... (mod 2^32), so none is executed twice and none is skipped;
    a request is admitted as new only when the slot is idle and the sequence id is the
    next one; an accepted retry repeats the sequence id of the last executed request, its
    reply was to be cached, the cached bytes are that request's reply, and the digests
    agree when both are known; every refusal leaves the table unchanged. *)
Theorem exactly_once n w slotID seqID dg st' r :
  reachable n w -> 0 <= slotID < maxSlots (w_table w) ->
  ValidateSequence (w_table w) slotID seqID dg = (st', r) ->
  let executed := on_slot slotID (w_done w) in
  numbered executed /\
  match r with
  | ResNew _ => w_pending w !! slotID = None /\ seqID = u32 (Z.of_nat (length executed) + 1)
  | ResRetry sl =>
      w_pending w !! slotID = None /\
      exists e rest, executed = e :: rest /\ ex_seq e = seqID /\ ex_cache e = true /\
        CachedReply sl = ex_reply e /\ ex_reply e <> None /\
        (blen (ex_digest e) = 0%nat \/ blen dg = 0%nat \/ default [] (ex_digest e) = default [] dg)
  | ResErr _ => st' = w_table w
  end.
Proof.
  intros Hr Hs HV. destruct (slot_reachable_inv n w Hr) as (Hok & Hsl & Hp).
  destruct (Hsl slotID Hs) as (E1 & E2 & E3 & E4). cbv zeta.
  pose proof (ValidateSequence_cases _ _ _ _ _ _ Hok (proj1 Hs) HV) as C. cbv zeta in C.
  split; [exact E2|]. destruct r as [sl'|sl'|e].
  - destruct C as (_ & -> & Hu & _). split.
    + destruct (w_pending w !! slotID) as [[? ?]|]; [destruct E4; congruence|reflexivity].
    + rewrite E1. apply u32_succ.
  - destruct C as (_ & -> & Hu & -> & _ & Hc & Hd). split.
    { destruct (w_pending w !! slotID) as [[? ?]|]; [destruct E4; congruence|reflexivity]. }
    destruct (on_slot slotID (w_done w)) as [|e rest]; cbn [remembers] in E3; [tauto|].
    destruct E3 as [Ec Ed]. exists e, rest. cbn [numbered length] in E2, E1.
    destruct (ex_cache e && bool_decide (ex_reply e <> None)) eqn:B; [|congruence].
    apply andb_true_iff in B as [B1 B2]. rewrite bool_decide_eq_true in B2.
    split_and!; auto; [destruct E2; congruence|].
    rewrite Ed in Hd. destruct (Nat.ltb_spec 0 (blen (ex_digest e))); [exact Hd|left; lia].
  - exact C.
Qed.

(** bookkeeping of the slot table: in every reachable state the table has between
    one and 64 slots, the advertised target stays a valid slot id, the advertised highest
    slot id is always the last allocated one, and the table reports in-flight requests
    exactly when the server is executing one. *)
Theorem slot_table_bounds n w :
  reachable n w ->
  1 <= MaxSlots (w_table w) <= 64 /\
  0 <= GetTargetHighestSlotID (w_table w) < MaxSlots (w_table w) /\
  GetHighestSlotID (w_table w) = MaxSlots (w_table w) - 1 /\
  (HasInFlightRequests (w_table w) = true <-> w_pending w <> ∅).
Proof.
  intros Hr. destruct (slot_reachable_inv n w Hr) as ((H1 & H2 & H3 & H4) & Hsl & Hp).
  unfold MaxSlots, GetTargetHighestSlotID, GetHighestSlotID. unfold MinSlots, DefaultMaxSlots in *.
  split_and!; auto; try lia. unfold HasInFlightRequests. rewrite take_ge by lia.
  rewrite existsb_exists. split.
  - intros (sl & Hin & Hu) Hempty. apply list_elem_of_In, list_elem_of_lookup_1 in Hin as [i Hi].
    pose proof (lookup_lt_Some _ _ _ Hi). destruct (Hsl (Z.of_nat i) ltac:(lia)) as (_ & _ & _ & E4).
    rewrite Hempty, lookup_empty in E4. unfold get_slot in E4. rewrite Nat2Z.id, Hi in E4. cbn in E4. congruence.
  - intros Hne. apply map_choose in Hne as (s & [q dg] & Hs). pose proof (Hp _ _ Hs) as Hb.
    destruct (Hsl s Hb) as (_ & _ & _ & E4). rewrite Hs in E4. destruct E4 as [Hu _].
    destruct (lookup_lt_is_Some_2 (slots (w_table w)) (Z.to_nat s)) as [sl Hl]; [lia|].
    exists sl. split; [now apply list_elem_of_In, (list_elem_of_lookup_2 _ (Z.to_nat s))|].
    unfold get_slot in Hu. now rewrite Hl in Hu.
Qed.

(** The NFSv4.0 owner sequence: the next id is never 0, never the current one,
    and [ValidateSeqID] separates new requests from replays. *)
Lemma ValidateSeqID_spec last q :
  in_u32 last ->
  1 <= nextSeqID last < 2 ^ 32 /\ nextSeqID last <> last /\
  (ValidateSeqID last q = SeqIDOK <-> q = nextSeqID last) /\
  (ValidateSeqID last q = SeqIDReplay <-> q = last).
Proof.
  intros H. assert (Hn : 1 <= nextSeqID last < 2 ^ 32 /\ nextSeqID last <> last).
  { unfold nextSeqID. zcase; [lia|]. unfold in_u32 in H. rewrite u32_small by (unfold in_u32; lia). lia. }
  destruct Hn as [? Hne]. unfold ValidateSeqID.
  destruct (Z.eqb_spec q (nextSeqID last)), (Z.eqb_spec q last);
    (do 2 (split; [assumption|])); split; split; congruence.
Qed.

(** ** Witnesses *)

(** Slot 3: one cached request executed, then its retry. *)
Definition sample_table : SlotTable :=
  CompleteSlotRequest (fst (ValidateSequence (NewSlotTable 8) 3 1 (Some [1; 2]))) 3 1 true (Some [42]) (Some [1; 2]).

Definition sample_world : world :=
  mkWorld sample_table (delete 3 (<[3 := (1, Some [1; 2])]> ∅))
    [mkExecution 3 1 (Some [1; 2]) true (Some [42])].

Lemma sample_reachable : reachable 8 sample_world.
Proof.
  eapply reachable_step; [eapply reachable_step; [apply reachable_init|]|].
  - eapply (step_validate _ _ _ 3 1 (Some [1; 2])); [vm_compute; split; congruence..|].
    vm_compute. reflexivity.
  - apply (step_complete (fst (ValidateSequence (NewSlotTable 8) 3 1 (Some [1; 2])))
             (<[3 := (1, Some [1; 2])]> ∅) [] 3 1 (Some [1; 2]) true (Some [42])).
    vm_compute. reflexivity.
Qed.

Lemma exactly_once_witness :
  exists sl e rest,
    ValidateSequence sample_table 3 1 (Some [1; 2]) = (sample_table, ResRetry sl) /\
    on_slot 3 (w_done sample_world) = e :: rest /\ CachedReply sl = ex_reply e.
Proof.
  destruct (exactly_once 8 sample_world 3 1 (Some [1; 2]) sample_table
              (ResRetry (mkSlot 1 false (Some [42]) (Some [1; 2]))) sample_reachable)
    as (_ & _ & e & rest & He & _ & _ & Hc & _).
  - vm_compute. split; congruence.
  - vm_compute. reflexivity.
  - exists (mkSlot 1 false (Some [42]) (Some [1; 2])), e, rest.
    split; [vm_compute; reflexivity|]. split; [exact He|exact Hc].
Defined.

Lemma slot_table_bounds_witness : GetHighestSlotID sample_table = MaxSlots sample_table - 1.
Proof. exact (proj1 (proj2 (proj2 (slot_table_bounds 8 sample_world sample_reachable)))). Defined.
