(* ===== verification/SmbWindow.v ===== *)
(** * SMB2 message-id window and credits
    ([internal/adapter/smb/session/sequence_window.go], [credits.go],
    [credit_validation.go])

    The window is a bitmap of 64-bit words over the message ids from [low] on.
    Its specification is the set of message ids the client may still use. *)

From S2P Require Import Prelude.

Record CommandSequenceWindow := mkWindow {
  low : Z;
  high : Z;
  bitmap : list Z;
  maxSize : Z;
  available : Z;
}.

Definition NewCommandSequenceWindow (maxSize : Z) : CommandSequenceWindow :=
  mkWindow 0 2 [3] maxSize 1.

(** Word [offset / 64] has bit [offset % 64]; [None] when the index is out of
    range. *)
Definition word_bit (bm : list Z) (offset : Z) : option bool :=
  match bm !! Z.to_nat (offset / 64) with
  | Some word => Some (negb (word .& Z.shiftl 1 (offset mod 64) =? 0))
  | None => None
  end.

Definition clear_bit (bm : list Z) (offset : Z) : list Z :=
  alter (fun word => word .&^ Z.shiftl 1 (offset mod 64)) (Z.to_nat (offset / 64)) bm.
Definition set_bit (bm : list Z) (offset : Z) : list Z :=
  alter (fun word => word .| Z.shiftl 1 (offset mod 64)) (Z.to_nat (offset / 64)) bm.

(** The check loop: [n] iterations from [i]. *)
Fixpoint check_bits (w : CommandSequenceWindow) (messageId : Z) (i : Z) (n : nat) : bool :=
  match n with
  | O => true
  | S n =>
      let seq := u64 (messageId + i) in
      let offset := u64 (seq - low w) in
      match word_bit (bitmap w) offset with
      | None => false
      | Some false => false
      | Some true => check_bits w messageId (i + 1) n
      end
  end.

(** The consume loop. *)
Fixpoint clear_bits (bm : list Z) (lo messageId : Z) (i : Z) (n : nat) : list Z :=
  match n with
  | O => bm
  | S n =>
      let seq := u64 (messageId + i) in
      let offset := u64 (seq - lo) in
      clear_bits (clear_bit bm offset) lo messageId (i + 1) n
  end.

(** [advanceLow]: each iteration drops the first word. *)
Fixpoint advance (lo hi : Z) (bm : list Z) : Z * list Z :=
  match bm with
  | word :: rest =>
      if word =? 0 then
        let nextLow := u64 (lo + 64) in
        if nextLow >? hi then (lo, bm) else advance nextLow hi rest
      else (lo, bm)
  | [] => (lo, [])
  end.

Definition advanceLow (w : CommandSequenceWindow) : CommandSequenceWindow :=
  let '(lo, bm) := advance (low w) (high w) (bitmap w) in
  mkWindow lo (high w) bm (maxSize w) (available w).

Definition Consume (w : CommandSequenceWindow) (messageId creditCharge : Z)
    : CommandSequenceWindow * bool :=
  let charge := if creditCharge =? 0 then 1 else creditCharge in
  if (messageId <? low w) || (u64 (messageId + charge) >? high w) then (w, false)
  else if negb (check_bits w messageId 0 (Z.to_nat charge)) then (w, false)
  else
    let bm := clear_bits (bitmap w) (low w) messageId 0 (Z.to_nat charge) in
    let avail := if charge >? available w then 0 else available w - charge in
    (advanceLow (mkWindow (low w) (high w) bm (maxSize w) avail), true).

(** [for seq := w.high; seq < newHigh; seq++]. *)
Fixpoint set_bits (bm : list Z) (lo seq : Z) (n : nat) : list Z :=
  match n with
  | O => bm
  | S n => set_bits (set_bit bm (u64 (seq - lo))) lo (seq + 1) n
  end.

Definition Grant (w : CommandSequenceWindow) (count : Z) : CommandSequenceWindow * Z :=
  let grant := count in
  if (u64 (available w + grant) >? maxSize w) && (available w >=? maxSize w) then (w, 0)
  else
    let grant := if u64 (available w + grant) >? maxSize w
                 then maxSize w - available w else grant in
    let newHigh := u64 (high w + grant) in
    let totalSpan := u64 (newHigh - low w) in
    let neededWords := u64 (totalSpan + 63) / 64 in
    let bm := bitmap w ++ replicate (Z.to_nat neededWords - length (bitmap w)) 0 in
    let bm := set_bits bm (low w) (high w) (Z.to_nat (newHigh - high w)) in
    (mkWindow (low w) newHigh bm (maxSize w) (u64 (available w + grant)), u16 grant).

Definition Size (w : CommandSequenceWindow) : Z := u64 (high w - low w).

Definition Reclaim (w : CommandSequenceWindow) (n : Z) : CommandSequenceWindow :=
  let reclaim := if n >? available w then available w else n in
  mkWindow (low w) (high w) (bitmap w) (maxSize w) (available w - reclaim).

Definition Remaining (w : CommandSequenceWindow) : Z :=
  if available w >=? maxSize w then 0 else maxSize w - available w.

(** ** Credit charges *)

Definition CreditUnitSize : Z := 65536.

Definition CommandNegotiate : Z := 0x0000.
Definition CommandSessionSetup : Z := 0x0001.
Definition CommandRead : Z := 0x0008.
Definition CommandWrite : Z := 0x0009.
Definition CommandIoctl : Z := 0x000B.
Definition CommandCancel : Z := 0x000C.
Definition CommandQueryDirectory : Z := 0x000E.

Definition CalculateCreditCharge (bytes : Z) : Z :=
  if bytes =? 0 then 1
  else u16 (u64 (bytes + CreditUnitSize - 1) / CreditUnitSize).

Definition IsCreditExempt (command sessionID : Z) : bool :=
  if command =? CommandCancel then true
  else if sessionID =? 0 then (command =? CommandNegotiate) || (command =? CommandSessionSetup)
  else false.

Definition EffectiveCreditCharge (creditCharge : Z) : Z :=
  if creditCharge =? 0 then 1 else creditCharge.

Definition extractPayloadSize (command : Z) (body : list Z) : option Z :=
  let at_ (off : nat) :=
    if (length body <? off + 4)%nat then None
    else Some (le_decode (take 4 (drop off body))) in
  if command =? CommandRead then at_ 4%nat
  else if command =? CommandWrite then at_ 4%nat
  else if command =? CommandIoctl then at_ 28%nat
  else if command =? CommandQueryDirectory then at_ 4%nat
  else None.

(** [true] when the request is accepted ([nil] error). *)
Definition ValidateCreditCharge (command creditCharge : Z) (body : list Z) : bool :=
  match extractPayloadSize command body with
  | None => true
  | Some payloadSize =>
      negb (CalculateCreditCharge payloadSize >? EffectiveCreditCharge creditCharge)
  end.

(** ** Bits *)

Definition bit_at (bm : list Z) (offset : Z) : bool :=
  match bm !! Z.to_nat (offset / 64) with
  | Some word => Z.testbit word (offset mod 64)
  | None => false
  end.

Lemma word_bit_testbit word i : 0 <= i -> negb (word .& Z.shiftl 1 i =? 0) = Z.testbit word i.
Proof. intros Hi. rewrite Z.shiftl_1_l. now apply has_pow2. Qed.

Lemma word_bit_spec bm off : 0 <= off -> word_bit bm off = Some true <-> bit_at bm off = true.
Proof.
  intros Ho. unfold word_bit, bit_at. destruct (bm !! _) as [word|]; [|easy].
  rewrite word_bit_testbit by (apply Z.mod_pos_bound; lia). split; congruence.
Qed.

(** Offsets with equal word index and bit index are equal. *)
Lemma offset_eq a b : 0 <= a -> 0 <= b ->
  Z.to_nat (a / 64) = Z.to_nat (b / 64) -> a mod 64 = b mod 64 -> a = b.
Proof.
  intros Ha Hb Hq Hr. pose proof (Z.div_mod a 64). pose proof (Z.div_mod b 64).
  assert (0 <= a / 64) by (apply Z.div_pos; lia). assert (0 <= b / 64) by (apply Z.div_pos; lia). lia.
Qed.

Lemma alter_bit bm f off off' (b : bool) :
  0 <= off -> 0 <= off' ->
  (forall word i, 0 <= i -> Z.testbit (f word) i = if i =? off mod 64 then b else Z.testbit word i) ->
  bit_at (alter f (Z.to_nat (off / 64)) bm) off' =
  if off' =? off then match bm !! Z.to_nat (off / 64) with Some _ => b | None => false end
  else bit_at bm off'.
Proof.
  intros Ho Ho' Hf. unfold bit_at. pose proof (Z.mod_pos_bound off' 64 ltac:(lia)).
  destruct (decide (Z.to_nat (off / 64) = Z.to_nat (off' / 64))) as [Ew|Ew].
  - rewrite Ew, list_lookup_alter_eq. destruct (bm !! Z.to_nat (off' / 64)) as [word|]; cbn; [|now zcase].
    rewrite Hf by lia. destruct (Z.eqb_spec (off' mod 64) (off mod 64)).
    + assert (off' = off) as -> by now apply offset_eq. now rewrite Z.eqb_refl.
    + rewrite (proj2 (Z.eqb_neq off' off)); congruence.
  - rewrite list_lookup_alter_ne by congruence. rewrite (proj2 (Z.eqb_neq off' off)); congruence.
Qed.

Lemma clear_bit_at bm off off' :
  0 <= off -> 0 <= off' -> bit_at (clear_bit bm off) off' = if off' =? off then false else bit_at bm off'.
Proof.
  intros Ho Ho'. pose proof (Z.mod_pos_bound off 64 ltac:(lia)). unfold clear_bit.
  rewrite (alter_bit _ _ off off' false); auto.
  - zcase; [now destruct (bm !! _)|reflexivity].
  - intros word i Hi. rewrite Z.ldiff_spec, Z.shiftl_1_l, Z.pow2_bits_eqb, Z.eqb_sym by lia.
    destruct (i =? _); cbn; btauto.
Qed.

Lemma set_bit_at bm off off' :
  0 <= off -> 0 <= off' -> (Z.to_nat (off / 64) < length bm)%nat ->
  bit_at (set_bit bm off) off' = if off' =? off then true else bit_at bm off'.
Proof.
  intros Ho Ho' Hl. pose proof (Z.mod_pos_bound off 64 ltac:(lia)). unfold set_bit.
  rewrite (alter_bit _ _ off off' true); auto.
  - apply lookup_lt_is_Some_2 in Hl as [? ->]. reflexivity.
  - intros word i Hi. rewrite Z.lor_spec, Z.shiftl_1_l, Z.pow2_bits_eqb, Z.eqb_sym by lia.
    destruct (i =? _); cbn; btauto.
Qed.

(** ** Invariant and abstract state *)

(** The window spans at most the bitmap, and no bit is set past [high].  Message
    ids stay below 2^62: the connection would have to be granted that many. *)
Definition wok (w : CommandSequenceWindow) : Prop :=
  0 <= low w <= high w /\ high w < 2 ^ 62 /\
  high w - low w <= 64 * Z.of_nat (length (bitmap w)) < 2 ^ 63 /\
  (forall off, high w - low w <= off -> bit_at (bitmap w) off = false) /\
  0 <= available w <= maxSize w /\ maxSize w < 2 ^ 62.

(** The message ids the client may still use. *)
Definition usable (w : CommandSequenceWindow) (x : Z) : Prop :=
  low w <= x /\ bit_at (bitmap w) (x - low w) = true.

Lemma usable_range w x : wok w -> usable w x -> low w <= x < high w.
Proof.
  intros (_ & _ & _ & Hb & _) [Hl Hx]. split; [assumption|].
  destruct (Z.lt_ge_cases x (high w)); [assumption|]. rewrite Hb in Hx; [easy|lia].
Qed.

Lemma new_window_ok m : 1 <= m < 2 ^ 62 -> wok (NewCommandSequenceWindow m).
Proof.
  intros Hm. unfold wok, NewCommandSequenceWindow. cbn [low high bitmap maxSize available length].
  split_and!; try lia. intros off Hoff. unfold bit_at. destruct (Z.to_nat (off / 64)) eqn:E.
  - cbn [lookup list_lookup]. assert (off < 64).
    { destruct (Z.lt_ge_cases off 64); [assumption|]. assert (1 <= off / 64) by (apply Z.div_le_lower_bound; lia). lia. }
    rewrite Z.mod_small by lia. rewrite Z.bits_above_log2; [reflexivity|lia|cbn; lia].
  - reflexivity.
Qed.

Lemma usable_new m x : usable (NewCommandSequenceWindow m) x <-> x = 0 \/ x = 1.
Proof.
  split.
  - intros Hx. pose proof (usable_range _ _ (new_window_ok 1 ltac:(lia)) Hx) as H. cbn in H. lia.
  - intros [-> | ->]; (split; [cbn; lia|vm_compute; reflexivity]).
Qed.

Lemma bit_at_cons word rest off :
  0 <= off -> bit_at (word :: rest) off = if off <? 64 then Z.testbit word off else bit_at rest (off - 64).
Proof.
  intros Ho. unfold bit_at. zcase.
  - rewrite Z.div_small, Z.mod_small by lia. reflexivity.
  - assert (E : off / 64 = (off - 64) / 64 + 1).
    { rewrite <- Z.div_add by lia. f_equal. lia. }
    assert (0 <= (off - 64) / 64) by (apply Z.div_pos; lia).
    rewrite E. replace (Z.to_nat ((off - 64) / 64 + 1)) with (S (Z.to_nat ((off - 64) / 64))) by lia.
    cbn [lookup list_lookup]. replace (off mod 64) with ((off - 64) mod 64); [reflexivity|].
    replace off with (off - 64 + 1 * 64) at 2 by lia. now rewrite Z.mod_add by lia.
Qed.

(** Dropping all-zero words keeps every usable id. *)
Lemma advance_spec bm lo hi lo' bm' :
  0 <= lo <= hi -> hi < 2 ^ 62 -> hi - lo <= 64 * Z.of_nat (length bm) ->
  advance lo hi bm = (lo', bm') ->
  lo <= lo' <= hi /\ lo' - lo = 64 * (Z.of_nat (length bm) - Z.of_nat (length bm')) /\
  (forall x, lo' <= x -> bit_at bm' (x - lo') = bit_at bm (x - lo)) /\
  (forall x, lo <= x < lo' -> bit_at bm (x - lo) = false).
Proof.
  revert lo. induction bm as [|word rest IH]; intros lo Hlo Hhi Hlen; cbn [advance].
  { intros [= <- <-]. split_and!; auto; lia. }
  destruct (Z.eqb_spec word 0) as [->|]; [|intros [= <- <-]; split_and!; auto; lia].
  rewrite u64_small by (unfold in_u64; lia). zcase; [intros [= <- <-]; split_and!; auto; lia|].
  intros Ha. cbn [length] in Hlen. destruct (IH (lo + 64)) as (Hr & Hl & Hbit & Hz); auto; try lia.
  split_and!; try lia.
  - cbn [length]. lia.
  - intros x Hx. rewrite Hbit, bit_at_cons by lia. rewrite (proj2 (Z.ltb_ge _ _)) by lia. f_equal. lia.
  - intros x Hx. rewrite bit_at_cons by lia. zcase; [apply Z.bits_0|].
    replace (x - lo - 64) with (x - (lo + 64)) by lia. apply Hz. lia.
Qed.

Lemma advanceLow_spec w :
  wok w -> wok (advanceLow w) /\ (forall x, usable (advanceLow w) x <-> usable w x) /\
  high (advanceLow w) = high w /\ available (advanceLow w) = available w /\ maxSize (advanceLow w) = maxSize w.
Proof.
  intros (H1 & H2 & H3 & H4 & H5 & H6). unfold advanceLow.
  destruct (advance (low w) (high w) (bitmap w)) as [lo' bm'] eqn:E.
  destruct (advance_spec _ _ _ _ _ H1 H2 (proj1 H3) E) as (Hr & Hl & Hbit & Hz).
  split_and!; cbn [high available maxSize]; auto.
  - unfold wok. cbn [low high bitmap maxSize available]. split_and!; auto; try lia.
    intros off Hoff. replace off with (off + lo' - lo') by lia. rewrite Hbit by lia. apply H4. lia.
  - intros x. unfold usable. cbn [low bitmap]. split.
    + intros [Hx Hb]. rewrite Hbit in Hb by lia. split; [lia|assumption].
    + intros [Hx Hb]. destruct (Z.lt_ge_cases x lo'); [rewrite Hz in Hb by lia; easy|].
      rewrite Hbit by lia. split; [lia|assumption].
Qed.

(** ** Consume *)

Lemma check_bits_spec w m i n :
  wok w -> low w <= m -> 0 <= i -> m + i + Z.of_nat n < 2 ^ 64 ->
  check_bits w m i n = true <-> (forall x, m + i <= x < m + i + Z.of_nat n -> usable w x).
Proof.
  intros Hok Hm. revert i. pose proof Hok as (H1 & H2 & _).
  induction n as [|n IH]; intros i Hi Hn; cbn [check_bits].
  { split; [intros; lia|reflexivity]. }
  rewrite (u64_small (m + i)) by (unfold in_u64; lia).
  rewrite (u64_small (m + i - low w)) by (unfold in_u64; lia).
  destruct (word_bit (bitmap w) (m + i - low w)) as [[]|] eqn:E.
  - apply word_bit_spec in E; [|lia]. rewrite IH by lia. split.
    + intros H x Hx. destruct (Z.eq_dec x (m + i)) as [->|]; [split; [lia|exact E]|apply H; lia].
    + intros H x Hx. apply H. lia.
  - split; [easy|]. intros H. destruct (H (m + i)) as [_ Hb]; [lia|].
    apply word_bit_spec in Hb; [congruence|lia].
  - split; [easy|]. intros H. destruct (H (m + i)) as [_ Hb]; [lia|].
    apply word_bit_spec in Hb; [congruence|lia].
Qed.

(** An id past the window fails the first check, whatever the wrap-around of
    [messageId + charge]. *)
Lemma check_bits_past w m n :
  wok w -> in_u64 m -> high w <= m -> check_bits w m 0 (S n) = false.
Proof.
  intros (H1 & H2 & H3 & H4 & _) Hm Hh. cbn [check_bits]. rewrite Z.add_0_r. unfold in_u64 in *.
  rewrite (u64_small m), (u64_small (m - low w)) by (unfold in_u64; lia).
  destruct (word_bit (bitmap w) (m - low w)) as [[]|] eqn:E; auto.
  apply word_bit_spec in E; [|lia]. rewrite H4 in E by lia. easy.
Qed.

Lemma clear_bits_spec bm lo m i n off :
  0 <= lo <= m -> 0 <= i -> m + i + Z.of_nat n < 2 ^ 64 -> 0 <= off ->
  bit_at (clear_bits bm lo m i n) off =
  if (m + i - lo <=? off) && (off <? m + i + Z.of_nat n - lo) then false else bit_at bm off.
Proof.
  revert bm i. induction n as [|n IH]; intros bm i Hm Hi Hn Ho; cbn [clear_bits].
  { repeat zcase; cbn; auto; lia. }
  rewrite (u64_small (m + i)) by (unfold in_u64; lia).
  rewrite (u64_small (m + i - lo)) by (unfold in_u64; lia).
  rewrite IH, clear_bit_at by lia. repeat zcase; cbn; auto; lia.
Qed.

Lemma clear_bits_length bm lo m i n : length (clear_bits bm lo m i n) = length bm.
Proof.
  revert bm i. induction n; intros; cbn [clear_bits]; [reflexivity|].
  now rewrite IHn; unfold clear_bit; rewrite length_alter.
Qed.

Definition charge_of (creditCharge : Z) : Z := if creditCharge =? 0 then 1 else creditCharge.

Lemma Consume_spec w m c :
  wok w -> in_u64 m -> in_u16 c ->
  let charge := charge_of c in
  let '(w', ok) := Consume w m c in
  (ok = true <-> forall x, m <= x < m + charge -> usable w x) /\
  wok w' /\ high w' = high w /\ maxSize w' = maxSize w /\
  (ok = false -> w' = w) /\
  (ok = true -> available w' = Z.max 0 (available w - charge) /\
     forall x, usable w' x <-> usable w x /\ ~ (m <= x < m + charge)).
Proof.
  intros Hok Hm Hc charge. pose proof Hok as (H1 & H2 & H3 & H4 & H5 & H6).
  assert (Hch : 1 <= charge < 2 ^ 16) by (unfold charge, charge_of, in_u16 in *; zcase; lia).
  unfold Consume. cbv zeta. fold (charge_of c). fold charge.
  assert (Hfail : (exists x, m <= x < m + charge /\ ~ usable w x) ->
    (false = true <-> forall x, m <= x < m + charge -> usable w x) /\
    wok w /\ high w = high w /\ maxSize w = maxSize w /\ (false = false -> w = w) /\
    (false = true -> available w = Z.max 0 (available w - charge) /\
      forall x, usable w x <-> usable w x /\ ~ (m <= x < m + charge))).
  { intros (x & Hx & Hn). split_and!; auto; try easy. split; [easy|]. intros H. now apply H in Hx. }
  assert (Hrange : forall x, m <= x < m + charge -> usable w x -> low w <= x < high w)
    by (intros; now apply usable_range).
  destruct (Z.ltb_spec m (low w)); cbn [orb].
  { apply Hfail. exists m. split; [lia|]. intros Hu. apply Hrange in Hu; lia. }
  destruct (Z.lt_ge_cases m (high w)) as [Hmh|Hmh].
  2:{ replace (check_bits w m 0 (Z.to_nat charge)) with false.
      - destruct (_ >? _); apply Hfail; exists m; (split; [lia|]); intros Hu; apply Hrange in Hu; lia.
      - symmetry. replace (Z.to_nat charge) with (S (Z.to_nat (charge - 1))) by lia. now apply check_bits_past. }
  rewrite u64_small by (unfold in_u64; lia). rewrite Z.gtb_ltb.
  destruct (Z.ltb_spec (high w) (m + charge)).
  { apply Hfail. exists (m + charge - 1). split; [lia|]. intros Hu. apply Hrange in Hu; lia. }
  pose proof (check_bits_spec w m 0 (Z.to_nat charge) Hok ltac:(lia) ltac:(lia) ltac:(lia)) as Hchk.
  rewrite Z.add_0_r, Z2Nat.id in Hchk by lia.
  destruct (check_bits w m 0 (Z.to_nat charge)) eqn:E; cbn [negb].
  2:{ split_and!; auto; easy. }
  set (w1 := mkWindow _ _ (clear_bits _ _ _ _ _) _ _).
  assert (Hu1 : forall x, usable w1 x <-> usable w x /\ ~ (m <= x < m + charge)).
  { intros x. subst w1. unfold usable. cbn [low bitmap]. split.
    - intros [Hx Hb]. rewrite clear_bits_spec in Hb by lia. revert Hb. repeat zcase; cbn; intros Hb; try easy; (split; [now split|lia]).
    - intros [[Hx Hb] Hn]. rewrite clear_bits_spec by lia. split; [assumption|].
      repeat zcase; cbn; auto; lia. }
  assert (Hok1 : wok w1).
  { subst w1. unfold wok. cbn [low high bitmap maxSize available]. rewrite clear_bits_length.
    split_and!; auto; try lia; try (zcase; lia).
    intros off Hoff. rewrite clear_bits_spec by lia. rewrite H4 by lia. now destruct (_ && _). }
  destruct (advanceLow_spec w1 Hok1) as (Hok2 & Hu2 & E1 & E2 & E3).
  rewrite E1, E2, E3. split_and!; auto; try easy.
  intros _. split.
  - subst w1. cbn [available]. zcase; lia.
  - intros x. now rewrite Hu2, Hu1.
Qed.

(** [Consume] accepts a request exactly when every message id it charges is still
    usable, and then makes exactly those ids unusable and debits the credits
    (saturating at zero); a refused request leaves the window untouched.  The word
    compaction of [advanceLow] and the wrap-around of [messageId + charge] do not
    show. *)
Theorem Consume_exact w m c :
  wok w -> in_u64 m -> in_u16 c ->
  let charge := charge_of c in
  let '(w', ok) := Consume w m c in
  (ok = true <-> forall x, m <= x < m + charge -> usable w x) /\
  wok w' /\ high w' = high w /\ maxSize w' = maxSize w /\
  (ok = false -> w' = w) /\
  (ok = true -> available w' = Z.max 0 (available w - charge) /\
     forall x, usable w' x <-> usable w x /\ ~ (m <= x < m + charge)).
Proof. apply Consume_spec. Qed.

(** ** Grant *)

Lemma bit_at_app_zero bm k off : bit_at (bm ++ replicate k 0) off = bit_at bm off.
Proof.
  unfold bit_at. destruct (decide (Z.to_nat (off / 64) < length bm)%nat).
  - now rewrite lookup_app_l.
  - rewrite lookup_app_r by lia. rewrite (lookup_ge_None_2 bm) by lia.
    destruct (replicate k 0 !! _) eqn:E; [|reflexivity].
    apply lookup_replicate in E as [-> _]. apply Z.bits_0.
Qed.

Lemma set_bit_length bm off : length (set_bit bm off) = length bm.
Proof. apply length_alter. Qed.

Lemma set_bits_length bm lo seq n : length (set_bits bm lo seq n) = length bm.
Proof. revert bm seq. induction n; intros; cbn [set_bits]; [reflexivity|]. now rewrite IHn, set_bit_length. Qed.

Lemma set_bits_spec bm lo seq n off :
  0 <= lo <= seq -> seq + Z.of_nat n < 2 ^ 63 -> seq + Z.of_nat n - lo <= 64 * Z.of_nat (length bm) -> 0 <= off ->
  bit_at (set_bits bm lo seq n) off =
  if (seq - lo <=? off) && (off <? seq + Z.of_nat n - lo) then true else bit_at bm off.
Proof.
  revert bm seq. induction n as [|n IH]; intros bm seq Hlo Hs Hl Ho; cbn [set_bits].
  { repeat zcase; cbn; auto; lia. }
  rewrite u64_small by (unfold in_u64; lia).
  rewrite IH by (rewrite ?set_bit_length; lia). rewrite set_bit_at; try lia.
  - repeat zcase; cbn; auto; lia.
  - assert ((seq - lo) / 64 < Z.of_nat (length bm)) by (apply Z.div_lt_upper_bound; lia).
    assert (0 <= (seq - lo) / 64) by (apply Z.div_pos; lia). lia.
Qed.

Lemma Grant_spec w n :
  wok w -> in_u16 n -> high w + n < 2 ^ 62 ->
  let '(w', g) := Grant w n in
  g = Z.min n (maxSize w - available w) /\ wok w' /\
  high w' = high w + g /\ available w' = available w + g /\ maxSize w' = maxSize w /\
  (forall x, usable w' x <-> usable w x \/ high w <= x < high w + g).
Proof.
  intros Hok Hn Hh. pose proof Hok as (H1 & H2 & H3 & H4 & H5 & H6). unfold in_u16 in Hn.
  unfold Grant. cbv zeta. rewrite (u64_small (available w + n)) by (unfold in_u64; lia).
  destruct (_ && _) eqn:E.
  { apply andb_true_iff in E as [E1%Z.gtb_lt E2%Z.geb_le].
    assert (maxSize w - available w = 0) by lia. split_and!; auto; try lia.
    intros x. split; [auto|]. intros [?|?]; [assumption|lia]. }
  set (g := if available w + n >? maxSize w then maxSize w - available w else n).
  assert (Hg : g = Z.min n (maxSize w - available w)).
  { subst g. rewrite Z.gtb_ltb, Z.geb_leb in *. destruct (Z.ltb_spec (maxSize w) (available w + n));
      cbn [andb] in E; [apply Z.leb_gt in E|]; lia. }
  clearbody g. clear E.
  rewrite (u64_small (high w + g)) by (unfold in_u64; lia).
  rewrite (u64_small (high w + g - low w)), (u64_small (high w + g - low w + 63)) by (unfold in_u64; lia).
  set (words := (high w + g - low w + 63) / 64).
  assert (Hw : high w + g - low w <= 64 * words /\ 64 * words <= high w + g - low w + 63).
  { subst words. pose proof (Z.div_mod (high w + g - low w + 63) 64).
    pose proof (Z.mod_pos_bound (high w + g - low w + 63) 64). lia. }
  clearbody words. set (bm := bitmap w ++ replicate _ 0).
  assert (Hlen : Z.of_nat (length bm) = Z.max (Z.of_nat (length (bitmap w))) words).
  { subst bm. rewrite length_app, length_replicate. lia. }
  assert (Hbit : forall off, bit_at bm off = bit_at (bitmap w) off) by (intros; apply bit_at_app_zero).
  clearbody bm. rewrite (u64_small (available w + g)) by (unfold in_u64; lia).
  assert (Eg : u16 g = g) by (apply wrap_small; lia). rewrite Eg.
  replace (high w + g - high w) with g by lia.
  assert (Hset : forall off, 0 <= off -> bit_at (set_bits bm (low w) (high w) (Z.to_nat g)) off =
    if (high w - low w <=? off) && (off <? high w + g - low w) then true else bit_at (bitmap w) off).
  { intros off Ho. rewrite set_bits_spec, Hbit, Z2Nat.id by lia. reflexivity. }
  split_and!; cbn [high available maxSize]; auto.
  - unfold wok. cbn [low high bitmap maxSize available]. rewrite set_bits_length. split_and!; auto; try lia.
    intros off Hoff. rewrite Hset by lia. rewrite (proj2 (Z.ltb_ge _ _)), andb_false_r by lia. apply H4. lia.
  - intros x. unfold usable. cbn [low bitmap]. split.
    + intros [Hx Hb]. rewrite Hset in Hb by lia. revert Hb. repeat zcase; cbn; intros Hb; auto. right. lia.
    + intros [[Hx Hb]|Hx]; (split; [lia|]); rewrite Hset by lia; repeat zcase; cbn; auto; lia.
Qed.

Lemma Reclaim_spec w n :
  wok w -> 0 <= n -> wok (Reclaim w n) /\ (forall x, usable (Reclaim w n) x <-> usable w x) /\
  available (Reclaim w n) = Z.max 0 (available w - n).
Proof.
  intros (H1 & H2 & H3 & H4 & H5 & H6) Hn. unfold Reclaim, wok, usable. cbv zeta.
  cbn [low high bitmap maxSize available]. split_and!; auto; try lia; zcase; try lia.
Qed.

(** ** A connection *)

(** [log] holds the (message id, charge) ranges accepted so far. *)
Inductive connection (m : Z) : CommandSequenceWindow -> list (Z * Z) -> Prop :=
  | conn_new : connection m (NewCommandSequenceWindow m) []
  | conn_accept w log mid c w' :
      connection m w log -> in_u64 mid -> in_u16 c -> Consume w mid c = (w', true) ->
      connection m w' ((mid, charge_of c) :: log)
  | conn_refuse w log mid c w' :
      connection m w log -> in_u64 mid -> in_u16 c -> Consume w mid c = (w', false) ->
      connection m w' log
  | conn_grant w log n w' g :
      connection m w log -> in_u16 n -> high w + n < 2 ^ 62 -> Grant w n = (w', g) ->
      connection m w' log
  | conn_reclaim w log n :
      connection m w log -> in_u16 n -> connection m (Reclaim w n) log.

Definition disjoint_ranges (a b : Z * Z) : Prop := a.1 + a.2 <= b.1 \/ b.1 + b.2 <= a.1.

Lemma connection_inv m w log :
  1 <= m < 2 ^ 62 -> connection m w log ->
  wok w /\ maxSize w = m /\
  Forall (fun r => 0 < r.2 /\ forall x, r.1 <= x < r.1 + r.2 -> x < high w /\ ~ usable w x) log /\
  StronglySorted disjoint_ranges log.
Proof.
  intros Hm. induction 1 as [|w log mid c w' _ (Hok & Em & Hlog & Hs) Hid Hc E|
    w log mid c w' _ (Hok & Em & Hlog & Hs) Hid Hc E|w log n w' g _ (Hok & Em & Hlog & Hs) Hn Hb E|
    w log n _ (Hok & Em & Hlog & Hs) Hn].
  - split_and!; [now apply new_window_ok|reflexivity|constructor|constructor].
  - pose proof (Consume_spec w mid c Hok Hid Hc) as S. rewrite E in S.
    destruct S as (Hiff & Hok' & Eh & Em' & _ & Hu). destruct (Hu eq_refl) as [_ Hu'].
    pose proof (proj1 Hiff eq_refl) as Hall.
    assert (Hch : 0 < charge_of c) by (unfold charge_of, in_u16 in *; zcase; lia).
    split_and!; auto; [congruence| |].
    + constructor; cbn [fst snd].
      * split; [assumption|]. intros x Hx. rewrite Eh, Hu'. split; [|tauto].
        apply (usable_range _ _ Hok (Hall x Hx)).
      * eapply Forall_impl; [exact Hlog|]. cbn. intros r [Hr0 Hr]. split; [assumption|].
        intros x Hx. rewrite Eh, Hu'. destruct (Hr x Hx). tauto.
    + constructor; [assumption|]. eapply Forall_impl; [exact Hlog|]. cbn. intros r [Hr0 Hr].
      unfold disjoint_ranges. cbn [fst snd].
      destruct (Z.le_gt_cases (mid + charge_of c) r.1); [now left|].
      destruct (Z.le_gt_cases (r.1 + r.2) mid); [now right|exfalso].
      destruct (Hr (Z.max mid r.1) ltac:(lia)) as [_ Hn]. apply Hn, Hall. lia.
  - pose proof (Consume_spec w mid c Hok Hid Hc) as S. rewrite E in S.
    destruct S as (_ & _ & _ & _ & Hsame & _). rewrite (Hsame eq_refl). now split_and!.
  - pose proof (Grant_spec w n Hok Hn Hb) as S. rewrite E in S.
    destruct S as (Eg & Hok' & Eh & _ & Em' & Hu). split_and!; auto; [congruence|].
    eapply Forall_impl; [exact Hlog|]. cbn. intros r [Hr0 Hr]. split; [assumption|].
    intros x Hx. destruct (Hr x Hx). rewrite Eh, Hu. pose proof Hok as (_ & _ & _ & _ & ? & _).
    unfold in_u16 in Hn. split; [lia|]. intros [?|?]; [tauto|lia].
  - destruct (Reclaim_spec w n Hok ltac:(unfold in_u16 in Hn; lia)) as (Hok' & Hu & _).
    split_and!; auto.
Qed.

(** C15: replay protection and credit bound of a connection: whatever the sequence of
    requests, grants and reclaims, no message id is ever accepted twice (the accepted
    ranges are pairwise disjoint and can never become usable again), and the credits the
    client holds never exceed the configured maximum. *)
Theorem no_message_id_replay m w log :
  1 <= m < 2 ^ 62 -> connection m w log ->
  StronglySorted disjoint_ranges log /\
  (forall r x, In r log -> r.1 <= x < r.1 + r.2 -> ~ usable w x) /\
  0 <= available w <= m.
Proof.
  intros Hm Hc. destruct (connection_inv m w log Hm Hc) as (Hok & Em & Hlog & Hs).
  split_and!; auto.
  - intros r x Hin Hx. rewrite List.Forall_forall in Hlog. now apply (Hlog r Hin).
  - apply Hok.
  - rewrite <- Em. apply Hok.
Qed.

(** a grant extends the window by exactly the ids it advertises, never more than
    requested nor more than the client's remaining credit room, and adds precisely the
    ids from the old upper bound on. *)
Theorem Grant_exact w n :
  wok w -> in_u16 n -> high w + n < 2 ^ 62 ->
  let '(w', g) := Grant w n in
  g = Z.min n (Remaining w) /\ wok w' /\
  high w' = high w + g /\ available w' = available w + g /\
  (forall x, usable w' x <-> usable w x \/ high w <= x < high w + g).
Proof.
  intros Hok Hn Hh. pose proof (Grant_spec w n Hok Hn Hh) as S. destruct (Grant w n) as [w' g].
  destruct S as (Eg & ? & ? & ? & ? & ?). split_and!; auto. rewrite Eg. f_equal.
  unfold Remaining. pose proof Hok as (_ & _ & _ & _ & ? & _). zcase; lia.
Qed.

(** ** Credit charges *)

(** The charge of a payload that 16 bits can express is the ceiling of its size
    in units of 64 KiB, and at least one. *)
Lemma CalculateCreditCharge_ceiling payload :
  0 <= payload <= 65535 * 65536 ->
  1 <= CalculateCreditCharge payload /\
  forall n, 1 <= n -> (CalculateCreditCharge payload <= n <-> payload <= 65536 * n).
Proof.
  intros Hp. unfold CalculateCreditCharge, CreditUnitSize. destruct (Z.eqb_spec payload 0) as [->|Hnz]; [split; [lia|]; intros; lia|].
  rewrite u64_small by (unfold in_u64; lia).
  pose proof (Z.div_mod (payload + 65536 - 1) 65536). pose proof (Z.mod_pos_bound (payload + 65536 - 1) 65536).
  set (q := (payload + 65536 - 1) / 65536) in *. clearbody q. unfold u16. rewrite wrap_small by lia.
  split; [lia|]. intros n Hn. lia.
Qed.


(** For a payload above 65535 * 64 KiB the ceiling does not fit the 16-bit charge,
    which wraps to 0: any charge is accepted. *)
Theorem oversized_payload_passes command c body payload :
  in_u16 c -> extractPayloadSize command body = Some payload -> 65535 * 65536 < payload < 2 ^ 32 ->
  ValidateCreditCharge command c body = true.
Proof.
  intros Hc Hp Hr. unfold ValidateCreditCharge. rewrite Hp. unfold in_u16 in Hc.
  assert (He : 1 <= EffectiveCreditCharge c) by (unfold EffectiveCreditCharge; zcase; lia).
  unfold CalculateCreditCharge, CreditUnitSize. destruct (Z.eqb_spec payload 0); [lia|].
  rewrite u64_small by (unfold in_u64; lia).
  replace ((payload + 65536 - 1) / 65536) with 65536 by (apply Z.div_unique with (payload - 65535 * 65536 - 1); lia).
  change (u16 65536) with 0. rewrite negb_true_iff, Z.gtb_ltb, Z.ltb_ge. lia.
Qed.

(** ** Witnesses *)

Definition sample_window : CommandSequenceWindow := fst (Grant (NewCommandSequenceWindow 8192) 100).

Lemma sample_window_ok : wok sample_window.
Proof.
  unfold sample_window.
  pose proof (Grant_spec (NewCommandSequenceWindow 8192) 100 (new_window_ok 8192 ltac:(lia))
    ltac:(unfold in_u16; lia) ltac:(cbn; lia)) as S.
  destruct (Grant _ 100) as [w' g]. cbn [fst]. apply S.
Qed.

Lemma Consume_exact_witness :
  snd (Consume sample_window 1 70) = true /\ low (fst (Consume sample_window 1 70)) = 0 /\
  (forall x, 1 <= x < 71 -> usable sample_window x).
Proof.
  split; [vm_compute; reflexivity|]. split; [vm_compute; reflexivity|].
  pose proof (Consume_exact sample_window 1 70 sample_window_ok) as S.
  specialize (S ltac:(unfold in_u64; lia) ltac:(unfold in_u16; lia)).
  cbv zeta in S. destruct (Consume sample_window 1 70) as [w' ok] eqn:E.
  destruct S as [[H _] _]. apply H. revert E. vm_compute. now intros [= <- <-].
Defined.

Lemma Grant_exact_witness : high (fst (Grant (NewCommandSequenceWindow 8192) 100)) = 102.
Proof.
  pose proof (Grant_exact (NewCommandSequenceWindow 8192) 100 (new_window_ok 8192 ltac:(lia))
    ltac:(unfold in_u16; lia) ltac:(cbn; lia)) as S.
  destruct (Grant _ 100) as [w' g] eqn:E. destruct S as (Hg & _ & Hh & _). cbn [fst].
  rewrite Hh, Hg. reflexivity.
Defined.

Lemma no_message_id_replay_witness :
  snd (Consume (NewCommandSequenceWindow 8192) 0 1) = true /\
  ~ usable (fst (Consume (NewCommandSequenceWindow 8192) 0 1)) 0.
Proof.
  split; [vm_compute; reflexivity|].
  destruct (no_message_id_replay 8192 (fst (Consume (NewCommandSequenceWindow 8192) 0 1)) [(0, 1)])
    as (_ & H & _); [lia| |].
  - apply (conn_accept 8192 (NewCommandSequenceWindow 8192) [] 0 1); [constructor|..];
      [vm_compute; split; congruence|vm_compute; split; congruence|vm_compute; reflexivity].
  - apply (H (0, 1) 0); [now left|simpl; lia].
Defined.


(** A READ of 4294901761 bytes passes with a charge of one credit. *)
Lemma oversized_payload_passes_witness :
  ValidateCreditCharge CommandRead 1 [49; 0; 0; 0; 1; 0; 255; 255] = true.
Proof.
  apply (oversized_payload_passes CommandRead 1 [49; 0; 0; 0; 1; 0; 255; 255] 4294901761);
    [unfold in_u16; lia|vm_compute; reflexivity|lia].
Defined.
