(* ===== verification/SmbHeader.v ===== *)
(** * The SMB2 message header ([internal/adapter/smb/header/header.go],
    [parser.go], [encoder.go]; flags from [internal/adapter/smb/types]) *)

From S2P Require Import Prelude.

Definition HeaderSize : Z := 64.
Definition SMB2ProtocolID : Z := 0x424D53FE.
Definition SMB1ProtocolID : Z := 0x424D53FF.

Definition FlagResponse : Z := 0x00000001.
Definition FlagAsync : Z := 0x00000002.
Definition FlagRelated : Z := 0x00000004.
Definition FlagSigned : Z := 0x00000008.
Definition FlagReplay : Z := 0x20000000.

Record SMB2Header := mkSMB2Header {
  h_ProtocolID : list Z;
  h_StructureSize : Z;
  h_CreditCharge : Z;
  h_Status : Z;
  h_Command : Z;
  h_Credits : Z;
  h_Flags : Z;
  h_NextCommand : Z;
  h_MessageID : Z;
  h_Reserved : Z;
  h_TreeID : Z;
  h_AsyncId : Z;
  h_SessionID : Z;
  h_Signature : list Z;
}.

Definition IsResponse (flags : Z) : bool := has flags FlagResponse.
Definition IsAsync (flags : Z) : bool := has flags FlagAsync.
Definition IsSigned (flags : Z) : bool := has flags FlagSigned.
Definition IsRelated (flags : Z) : bool := has flags FlagRelated.
Definition IsReplay (flags : Z) : bool := has flags FlagReplay.

Inductive ParseError := ErrInvalidProtocolID | ErrMessageTooShort | ErrInvalidHeaderSize.

Definition Parse (data : list Z) : ParseError + SMB2Header :=
  if Z.of_nat (length data) <? HeaderSize then inl ErrMessageTooShort
  else if negb (field 0 4 data =? SMB2ProtocolID) then inl ErrInvalidProtocolID
  else if negb (field 4 2 data =? HeaderSize) then inl ErrInvalidHeaderSize
  else
    let flags := field 16 4 data in
    inr (mkSMB2Header (slice 0 4 data) (field 4 2 data) (field 6 2 data) (field 8 4 data)
           (field 12 2 data) (field 14 2 data) flags (field 20 4 data) (field 24 8 data)
           (field 32 4 data) (field 36 4 data)
           (if IsAsync flags then field 32 8 data else 0)
           (field 40 8 data) (slice 48 16 data)).

(** The sixteen stores of [Encode] fill the buffer from left to right. *)
Definition Encode (h : SMB2Header) : list Z :=
  le_encode 4 SMB2ProtocolID ++ le_encode 2 HeaderSize ++ le_encode 2 (h_CreditCharge h) ++
  le_encode 4 (h_Status h) ++ le_encode 2 (h_Command h) ++ le_encode 2 (h_Credits h) ++
  le_encode 4 (h_Flags h) ++ le_encode 4 (h_NextCommand h) ++ le_encode 8 (h_MessageID h) ++
  (if IsAsync (h_Flags h) then le_encode 8 (h_AsyncId h)
   else le_encode 4 (h_Reserved h) ++ le_encode 4 (h_TreeID h)) ++
  le_encode 8 (h_SessionID h) ++ h_Signature h.

Definition IsSMB2Message (data : list Z) : bool :=
  if (length data <? 4)%nat then false else field 0 4 data =? SMB2ProtocolID.
Definition IsSMB1Message (data : list Z) : bool :=
  if (length data <? 4)%nat then false else field 0 4 data =? SMB1ProtocolID.

Definition NewResponseHeader (req : SMB2Header) (status : Z) : SMB2Header :=
  let credits := if h_Credits req <? 256 then 256 else h_Credits req in
  mkSMB2Header (replicate 4 0) HeaderSize (h_CreditCharge req) status (h_Command req) credits
    FlagResponse 0 (h_MessageID req) 0 (h_TreeID req) 0 (h_SessionID req) (replicate 16 0).

Definition NewResponseHeaderWithCredits (req : SMB2Header) (status credits : Z) : SMB2Header :=
  let h := NewResponseHeader req status in
  mkSMB2Header (h_ProtocolID h) (h_StructureSize h) (h_CreditCharge h) (h_Status h) (h_Command h)
    credits (h_Flags h) (h_NextCommand h) (h_MessageID h) (h_Reserved h) (h_TreeID h) (h_AsyncId h)
    (h_SessionID h) (h_Signature h).

(** ** Round trips *)

Definition header_ok (h : SMB2Header) : Prop :=
  in_u16 (h_CreditCharge h) /\ in_u32 (h_Status h) /\ in_u16 (h_Command h) /\ in_u16 (h_Credits h) /\
  in_u32 (h_Flags h) /\ in_u32 (h_NextCommand h) /\ in_u64 (h_MessageID h) /\ in_u32 (h_Reserved h) /\
  in_u32 (h_TreeID h) /\ in_u64 (h_AsyncId h) /\ in_u64 (h_SessionID h) /\
  length (h_Signature h) = 16%nat.

(** The header as the wire carries it: fixed magic and size, and either an
    AsyncId or the two 32-bit fields it overlays. *)
Definition on_wire (h : SMB2Header) : SMB2Header :=
  let async := IsAsync (h_Flags h) in
  mkSMB2Header [0xFE; 0x53; 0x4D; 0x42] 64 (h_CreditCharge h) (h_Status h) (h_Command h)
    (h_Credits h) (h_Flags h) (h_NextCommand h) (h_MessageID h)
    (if async then h_AsyncId h mod 2 ^ 32 else h_Reserved h)
    (if async then h_AsyncId h / 2 ^ 32 else h_TreeID h)
    (if async then h_AsyncId h else 0) (h_SessionID h) (h_Signature h).

(** An 8-byte integer as two 4-byte halves. *)
Lemma le_encode_halves x : le_encode 8 x = le_encode 4 (x mod 2 ^ 32) ++ le_encode 4 (x / 2 ^ 32).
Proof.
  change 8%nat with (4 + 4)%nat. rewrite le_encode_app.
  change (2 ^ 32) with (256 ^ Z.of_nat 4). now rewrite le_encode_mod.
Qed.

(** The two 32-bit words at offset 32, whatever the header's kind. *)
Definition word32 (h : SMB2Header) : Z :=
  if IsAsync (h_Flags h) then h_AsyncId h mod 2 ^ 32 else h_Reserved h.
Definition word36 (h : SMB2Header) : Z :=
  if IsAsync (h_Flags h) then h_AsyncId h / 2 ^ 32 else h_TreeID h.

Lemma Encode_uniform h :
  Encode h =
  le_encode 4 SMB2ProtocolID ++ le_encode 2 HeaderSize ++ le_encode 2 (h_CreditCharge h) ++
  le_encode 4 (h_Status h) ++ le_encode 2 (h_Command h) ++ le_encode 2 (h_Credits h) ++
  le_encode 4 (h_Flags h) ++ le_encode 4 (h_NextCommand h) ++ le_encode 8 (h_MessageID h) ++
  le_encode 4 (word32 h) ++ le_encode 4 (word36 h) ++ le_encode 8 (h_SessionID h) ++ h_Signature h.
Proof.
  unfold Encode, word32, word36. destruct (IsAsync (h_Flags h)); [|now rewrite <- app_assoc].
  now rewrite (le_encode_halves (h_AsyncId h)), <- app_assoc.
Qed.

Lemma encode_length h : header_ok h -> length (Encode h) = 64%nat.
Proof.
  intros H. assert (Hs : length (h_Signature h) = 16%nat) by apply H.
  rewrite Encode_uniform, !length_app, !le_encode_length, Hs. reflexivity.
Qed.

Lemma Parse_Encode h rest :
  header_ok h -> Parse (Encode h ++ rest) = inr (on_wire h).
Proof.
  intros Hok. pose proof (encode_length h Hok) as Hlen.
  destruct Hok as (H1 & H2 & H3 & H4 & H5 & H6 & H7 & H8 & H9 & H10 & H11 & Hs).
  unfold in_u16, in_u32, in_u64 in *.
  assert (Hw : 0 <= word32 h < 2 ^ 32 /\ 0 <= word36 h < 2 ^ 32).
  { unfold word32, word36. destruct (IsAsync (h_Flags h)); [|split; assumption].
    split; [apply Z.mod_pos_bound; lia|].
    split; [apply Z.div_pos; lia|apply Z.div_lt_upper_bound; lia]. }
  assert (Hsig : forall pre, take 16 (drop 0 (h_Signature h ++ pre)) = h_Signature h)
    by (intros; rewrite <- Hs; apply take_app_length).
  assert (Hl : (64 <= length (Encode h ++ rest))%nat) by (rewrite length_app; lia).
  rewrite Encode_uniform in *. revert Hl. rewrite <- !app_assoc. set (data := _ ++ _). intros Hl.
  assert (F : forall off n x, slice off n data = le_encode n x -> 0 <= x < 2 ^ (8 * Z.of_nat n) -> field off n data = x).
  { intros off n x E Hx. apply field_of_slice; [exact E|exact Hx]. }
  unfold Parse. rewrite (proj2 (Z.ltb_ge _ _)) by (unfold HeaderSize; lia).
  rewrite (F 0%nat 4%nat SMB2ProtocolID), (F 4%nat 2%nat HeaderSize), !Z.eqb_refl;
    [|reflexivity|vm_compute; split; congruence|reflexivity|vm_compute; split; congruence].
  cbn [negb].
  rewrite (F 6%nat 2%nat (h_CreditCharge h)), (F 8%nat 4%nat (h_Status h)), (F 12%nat 2%nat (h_Command h)),
    (F 14%nat 2%nat (h_Credits h)), (F 16%nat 4%nat (h_Flags h)), (F 20%nat 4%nat (h_NextCommand h)),
    (F 24%nat 8%nat (h_MessageID h)), (F 32%nat 4%nat (word32 h)), (F 36%nat 4%nat (word36 h)),
    (F 40%nat 8%nat (h_SessionID h)) by (reflexivity || (cbn; lia)).
  f_equal. unfold on_wire. fold (word32 h) (word36 h). f_equal; [|exact (Hsig rest)].
  destruct (IsAsync (h_Flags h)) eqn:Ea; [|reflexivity].
  apply F; [|cbn; lia]. rewrite (le_encode_halves (h_AsyncId h)).
  replace (h_AsyncId h mod 2 ^ 32) with (word32 h) by (unfold word32; now rewrite Ea).
  replace (h_AsyncId h / 2 ^ 32) with (word36 h) by (unfold word36; now rewrite Ea). reflexivity.
Qed.

(** the SMB2 header survives the wire: parsing the 64 encoded bytes, whatever
    payload follows, gives back every field (with the protocol magic and size filled in);
    for an async header the 64-bit AsyncId is recovered and the overlaid 32-bit fields
    are its two halves. *)
Theorem smb2_header_encode_parse h rest :
  header_ok h -> length (Encode h) = 64%nat /\ Parse (Encode h ++ rest) = inr (on_wire h).
Proof. intros H. split; [now apply encode_length|now apply Parse_Encode]. Qed.

Lemma slice_slice_app off n m data : slice off n data ++ slice (off + n) m data = slice off (n + m) data.
Proof. symmetry. apply slice_app. Qed.

Lemma Encode_Parse data h :
  Forall is_byte data -> Parse data = inr h -> Encode h = take 64 data.
Proof.
  intros Hb HP. unfold Parse in HP. unfold HeaderSize in HP.
  destruct (Z.ltb_spec (Z.of_nat (length data)) 64) as [|Hl]; [easy|].
  destruct (Z.eqb_spec (field 0 4 data) SMB2ProtocolID) as [E0|]; [|easy].
  destruct (Z.eqb_spec (field 4 2 data) 64) as [E4|]; [|easy]. cbn [negb] in HP.
  injection HP as <-. unfold Encode.
  cbn [h_CreditCharge h_Status h_Command h_Credits h_Flags h_NextCommand h_MessageID h_Reserved
       h_TreeID h_AsyncId h_SessionID h_Signature].
  rewrite <- E0. change HeaderSize with 64. rewrite <- E4.
  assert (Hm : (if IsAsync (field 16 4 data)
      then le_encode 8 (if IsAsync (field 16 4 data) then field 32 8 data else 0)
      else le_encode 4 (field 32 4 data) ++ le_encode 4 (field 36 4 data)) = slice 32 8 data).
  { destruct (IsAsync _); rewrite !encode_field by (assumption || lia); [reflexivity|].
    now rewrite (slice_slice_app 32 4 4). }
  rewrite Hm, !encode_field by (assumption || lia).
  rewrite (slice_slice_app 40 8 16), (slice_slice_app 32 8 24), (slice_slice_app 24 8 32),
    (slice_slice_app 20 4 40), (slice_slice_app 16 4 44), (slice_slice_app 14 2 48),
    (slice_slice_app 12 2 50), (slice_slice_app 8 4 52), (slice_slice_app 6 2 56),
    (slice_slice_app 4 2 58), (slice_slice_app 0 4 60).
  reflexivity.
Qed.

Lemma Parse_ok_iff data :
  (exists h, Parse data = inr h) <->
  (64 <= length data)%nat /\ field 0 4 data = SMB2ProtocolID /\ field 4 2 data = 64.
Proof.
  unfold Parse, HeaderSize. destruct (Z.ltb_spec (Z.of_nat (length data)) 64).
  { split; [now intros [? ?]|]. intros. lia. }
  destruct (Z.eqb_spec (field 0 4 data) SMB2ProtocolID); cbn [negb]; [|split; [now intros [? ?]|tauto]].
  destruct (Z.eqb_spec (field 4 2 data) 64); cbn [negb]; [|split; [now intros [? ?]|tauto]].
  split; [intros _; split_and!; auto; lia|intros _; eauto].
Qed.

(** the parser loses nothing: it accepts a message exactly when it has 64 bytes, the
    SMB2 magic and the structure size 64, and re-encoding what it parsed reproduces the 64
    header bytes, signature included. *)
Theorem smb2_header_parse_encode data :
  Forall is_byte data ->
  ((exists h, Parse data = inr h) <->
     (64 <= length data)%nat /\ field 0 4 data = SMB2ProtocolID /\ field 4 2 data = 64) /\
  (forall h, Parse data = inr h -> Encode h = take 64 data).
Proof. intros Hb. split; [apply Parse_ok_iff|]. intros h. now apply Encode_Parse. Qed.

(** ** Witnesses *)

Definition sample_header : SMB2Header :=
  mkSMB2Header (replicate 4 0) 64 1 0x103 0xF 10 (FlagResponse .| FlagAsync) 0 77 0 0
    0x123456789ABCDEF0 42 (replicate 16 9).

Lemma smb2_header_encode_parse_witness :
  Parse (Encode sample_header ++ [1; 2; 3]) = inr (on_wire sample_header).
Proof.
  refine (proj2 (smb2_header_encode_parse sample_header [1; 2; 3] _)).
  repeat split; vm_compute; congruence.
Defined.

Lemma smb2_header_parse_encode_witness :
  Encode (on_wire sample_header) = take 64 (Encode sample_header ++ [1; 2; 3]).
Proof.
  refine (proj2 (smb2_header_parse_encode (Encode sample_header ++ [1; 2; 3]) _) (on_wire sample_header) _).
  - repeat constructor; vm_compute; congruence.
  - vm_compute. reflexivity.
Defined.
