(* ===== verification/JournalRecord.v ===== *)
(** * Journal record framing ([pkg/block/journal/record.go], the segment header of
    [segment.go] and the idx entry of [index.go])

    Bytes are integers in [0, 256).  A segment file read through [io.ReaderAt]
    is the list of its bytes. *)

From S2P Require Import Prelude.

Definition recordMagic : Z := 0xD5.
Definition recordHeaderSize : Z := 29.
Definition headerCRCCovers : Z := 24.
Definition payloadCRCSize : Z := 4.
Definition recordFlagsOffset : Z := headerCRCCovers.
Definition flagSynced : Z := Z.shiftl 1 0.
Definition flagTombstone : Z := Z.shiftl 1 1.
Definition flagTruncate : Z := Z.shiftl 1 2.

(** ** CRC-32C

    [crc32.Checksum] with the Castagnoli table: the reflected polynomial
    0x82F63B78, one bit at a time. *)

Definition crc_bit (c : Z) : Z :=
  if Z.odd c then Z.lxor (Z.shiftr c 1) 0x82F63B78 else Z.shiftr c 1.

Definition crc_byte (c b : Z) : Z := Nat.iter 8 crc_bit (Z.lxor c b).

Definition crc (b : list Z) : Z := u32 (Z.lxor (fold_left crc_byte b 0xFFFFFFFF) 0xFFFFFFFF).

(** The check value of CRC-32C on "123456789". *)
Example crc_check : crc [49; 50; 51; 52; 53; 54; 55; 56; 57] = 0xE3069283.
Proof. vm_compute. reflexivity. Qed.

(** ** Records *)

Record recordHeader := mkRecordHeader {
  rh_FileIDLen : Z;
  rh_FileOffset : Z;
  rh_PayloadLen : Z;
  rh_Version : Z;
  rh_Flags : Z;
}.

Definition recordLen (fileIDLen payloadLen : Z) : Z :=
  recordHeaderSize + fileIDLen + payloadLen + payloadCRCSize.

(** The first [headerCRCCovers] bytes. *)
Definition headerPrefix (h : recordHeader) : list Z :=
  [recordMagic; recordHeaderSize] ++ le_encode 2 (rh_FileIDLen h) ++ le_encode 8 (rh_FileOffset h) ++
  le_encode 4 (rh_PayloadLen h) ++ le_encode 8 (rh_Version h).

Definition encodeHeader (h : recordHeader) (fileID : list Z) : list Z :=
  headerPrefix h ++ [rh_Flags h] ++ le_encode 4 (crc (headerPrefix h)) ++ fileID.

Inductive HeaderError := ShortHeader | BadMagic | BadHeaderLen | HeaderCRCMismatch.

Definition byte_at (i : nat) (buf : list Z) : Z := default 0 (buf !! i).

Definition decodeHeader (buf : list Z) : HeaderError + recordHeader :=
  if Z.of_nat (length buf) <? recordHeaderSize then inl ShortHeader
  else if negb (byte_at 0 buf =? recordMagic) then inl BadMagic
  else if negb (byte_at 1 buf =? recordHeaderSize) then inl BadHeaderLen
  else if negb (crc (take (Z.to_nat headerCRCCovers) buf) =? field 25 4 buf) then inl HeaderCRCMismatch
  else inr (mkRecordHeader (field 2 2 buf) (field 4 8 buf) (field 12 4 buf) (field 16 8 buf)
              (byte_at 24 buf)).

Record record := mkRecord {
  rec_header : recordHeader;
  rec_fileID : list Z;
  rec_payload : list Z;
  rec_segOff : Z;
}.

(** [r.ReadAt(buf, off)] with a buffer of [n] bytes: the full buffer, or the
    number of bytes before the end of the file. *)
Definition ReadAt (seg : list Z) (off n : Z) : nat + list Z :=
  let got := take (Z.to_nat n) (drop (Z.to_nat off) seg) in
  if Z.of_nat (length got) <? n then inl (length got) else inr got.

Inductive ReadError := EOF | errTornRecord.

Definition readRecordAt (r : list Z) (off maxPayload : Z) : ReadError + (record * Z) :=
  match ReadAt r off recordHeaderSize with
  | inl n => if (n =? 0)%nat then inl EOF else inl errTornRecord
  | inr hdrBuf =>
      match decodeHeader hdrBuf with
      | inl _ => inl errTornRecord
      | inr h =>
          if rh_PayloadLen h >? maxPayload then inl errTornRecord
          else
            let body := rh_FileIDLen h + rh_PayloadLen h + payloadCRCSize in
            match ReadAt r (off + recordHeaderSize) body with
            | inl _ => inl errTornRecord
            | inr buf =>
                let payloadEnd := rh_FileIDLen h + rh_PayloadLen h in
                let payload := slice (Z.to_nat (rh_FileIDLen h)) (Z.to_nat (rh_PayloadLen h)) buf in
                let wantCRC := field (Z.to_nat payloadEnd) 4 buf in
                if negb (crc payload =? wantCRC) then inl errTornRecord
                else inr (mkRecord h (take (Z.to_nat (rh_FileIDLen h)) buf) payload off,
                          off + recordHeaderSize + body)
            end
      end
  end.

Definition segHeaderSize : Z := 64.

(** The loop of [scanValidRecords]; every record takes at least 33 bytes, so the
    segment size bounds the number of iterations. *)
Fixpoint scan_loop (fuel : nat) (r : list Z) (segSize maxPayload off : Z) : list record * Z :=
  match fuel with
  | O => ([], off)
  | S fuel =>
      if off <? segSize then
        match readRecordAt r off maxPayload with
        | inl _ => ([], off)
        | inr (rec, next) =>
            let '(recs, validUpTo) := scan_loop fuel r segSize maxPayload next in
            (rec :: recs, validUpTo)
        end
      else ([], off)
  end.

Definition scanValidRecords (r : list Z) (segSize maxPayload : Z) : list record * Z :=
  scan_loop (Z.to_nat segSize) r segSize maxPayload segHeaderSize.

(** The bytes [append] writes for one record: header and FileID, payload, CRC. *)
Definition encodeRecord (h : recordHeader) (fileID payload : list Z) : list Z :=
  encodeHeader h fileID ++ payload ++ le_encode 4 (crc payload).

(** The one-byte write into the Flags byte of the record at [recOff]. *)
Definition flipFlags (seg : list Z) (recOff : Z) (flags : Z) : list Z :=
  <[Z.to_nat (recOff + recordFlagsOffset) := flags]> seg.

(** [None] when the byte cannot be read; otherwise whether the bit was flipped,
    and the segment afterwards. *)
Definition flipRecordSynced (seg : list Z) (recOff : Z) : option (bool * list Z) :=
  match ReadAt seg (recOff + recordFlagsOffset) 1 with
  | inl _ => None
  | inr b =>
    let flags := byte_at 0 b in
    if has flags flagSynced then Some (false, seg)
    else Some (true, flipFlags seg recOff (flags .| flagSynced))
  end.

(** ** Segment header and idx entry *)

Definition segHeaderCRCCovers : Z := 28.
Definition segFlagSealed : Z := Z.shiftl 1 0.
Definition segMagic : list Z := [68; 70; 83; 74; 82; 78; 49; 0].

(** [createdAt] in Unix nanoseconds (an int64). *)
Definition encodeSegHeader (id createdAt flags : Z) : list Z :=
  let prefix := segMagic ++ le_encode 8 id ++ le_encode 8 (u64 createdAt) ++ le_encode 4 flags in
  prefix ++ le_encode 4 (crc prefix) ++ replicate 32 0.

Definition decodeSegHeader (buf : list Z) : option (Z * Z * Z) :=
  if Z.of_nat (length buf) <? segHeaderSize then None
  else if negb (bool_decide (slice 0 8 buf = segMagic)) then None
  else if negb (crc (take (Z.to_nat segHeaderCRCCovers) buf) =? field 28 4 buf) then None
  else Some (field 8 8 buf, i64 (field 16 8 buf), field 24 4 buf).

Record idxEntry := mkIdxEntry {
  ix_FileIDHash : Z; ix_FileOffset : Z; ix_PayloadLen : Z; ix_Version : Z; ix_SegOffset : Z; ix_Flags : Z;
}.

Definition idxEntrySize : Z := 40.

Definition idx_encode (e : idxEntry) : list Z :=
  le_encode 8 (ix_FileIDHash e) ++ le_encode 8 (ix_FileOffset e) ++ le_encode 4 (ix_PayloadLen e) ++
  le_encode 8 (ix_Version e) ++ le_encode 8 (ix_SegOffset e) ++ [ix_Flags e] ++ replicate 3 0.

(** ** Reading back what was written *)

Lemma crc_range b : in_u32 (crc b).
Proof. apply u32_range. Qed.

#[local] Opaque crc.

Definition set_Flags (f : Z) (h : recordHeader) : recordHeader :=
  mkRecordHeader (rh_FileIDLen h) (rh_FileOffset h) (rh_PayloadLen h) (rh_Version h) f.

Definition header_ok (h : recordHeader) : Prop :=
  in_u16 (rh_FileIDLen h) /\ in_u64 (rh_FileOffset h) /\ in_u32 (rh_PayloadLen h) /\
  in_u64 (rh_Version h) /\ in_u8 (rh_Flags h).

Lemma headerPrefix_length h : length (headerPrefix h) = 24%nat.
Proof. reflexivity. Qed.

(** The header decodes whatever the Flags byte is. *)
Lemma decodeHeader_encoded h f rest :
  header_ok h ->
  decodeHeader (headerPrefix h ++ [f] ++ le_encode 4 (crc (headerPrefix h)) ++ rest) = inr (set_Flags f h).
Proof.
  intros (H1 & H2 & H3 & H4 & _). unfold in_u16, in_u32, in_u64 in *.
  set (buf := headerPrefix h ++ _).
  assert (Hl : (29 <= length buf)%nat) by (subst buf; rewrite !length_app, headerPrefix_length, le_encode_length; cbn; lia).
  unfold decodeHeader. rewrite (proj2 (Z.ltb_ge _ _)) by (unfold recordHeaderSize; lia).
  change (byte_at 0 buf) with recordMagic. change (byte_at 1 buf) with recordHeaderSize.
  rewrite !Z.eqb_refl. cbn [negb].
  change (take (Z.to_nat headerCRCCovers) buf) with (headerPrefix h).
  rewrite (field_of_slice 25 4 buf (crc (headerPrefix h))) by (reflexivity || apply crc_range).
  rewrite Z.eqb_refl. cbn [negb]. change (byte_at 24 buf) with f.
  rewrite (field_of_slice 2 2 buf (rh_FileIDLen h)), (field_of_slice 4 8 buf (rh_FileOffset h)),
    (field_of_slice 12 4 buf (rh_PayloadLen h)), (field_of_slice 16 8 buf (rh_Version h))
    by (reflexivity || (cbn; lia)).
  reflexivity.
Qed.

Lemma ReadAt_middle pre l rest off n :
  off = Z.of_nat (length pre) -> n = Z.of_nat (length l) -> ReadAt (pre ++ l ++ rest) off n = inr l.
Proof.
  intros -> ->. unfold ReadAt. cbv zeta. rewrite !Nat2Z.id, drop_app_length, take_app_length.
  now rewrite Z.ltb_irrefl.
Qed.

Definition written := (recordHeader * list Z * list Z)%type.

Definition written_ok (maxPayload : Z) (w : written) : Prop :=
  let '(h, fileID, payload) := w in
  header_ok h /\ rh_FileIDLen h = Z.of_nat (length fileID) /\
  rh_PayloadLen h = Z.of_nat (length payload) /\ rh_PayloadLen h <= maxPayload.

Definition enc (w : written) : list Z := let '(h, fileID, payload) := w in encodeRecord h fileID payload.

Definition size_of (w : written) : Z :=
  let '(_, fileID, payload) := w in recordLen (Z.of_nat (length fileID)) (Z.of_nat (length payload)).

Lemma enc_length w : Z.of_nat (length (enc w)) = size_of w.
Proof.
  destruct w as [[h fileID] payload]. cbn [enc size_of]. unfold encodeRecord, encodeHeader, recordLen.
  rewrite !length_app, headerPrefix_length, !le_encode_length. cbn [length].
  unfold recordHeaderSize, payloadCRCSize. lia.
Qed.

Definition read_back (w : written) (off : Z) : record :=
  let '(h, fileID, payload) := w in mkRecord h fileID payload off.

Lemma set_Flags_id h : set_Flags (rh_Flags h) h = h.
Proof. now destruct h. Qed.

(** A written record is read back whole, at its place in the segment. *)
Lemma readRecordAt_enc maxPayload w pre rest :
  written_ok maxPayload w ->
  readRecordAt (pre ++ enc w ++ rest) (Z.of_nat (length pre)) maxPayload =
  inr (read_back w (Z.of_nat (length pre)), Z.of_nat (length pre) + size_of w).
Proof.
  destruct w as [[h fileID] payload]. intros (Hok & Hid & Hpl & Hmax). cbn [enc].
  unfold encodeRecord, encodeHeader. rewrite <- !app_assoc.
  set (hdr := headerPrefix h ++ [rh_Flags h] ++ le_encode 4 (crc (headerPrefix h))).
  assert (Hhdr : length hdr = 29%nat)
    by (subst hdr; rewrite !length_app, headerPrefix_length, le_encode_length; reflexivity).
  set (body := fileID ++ payload ++ le_encode 4 (crc payload)).
  replace (pre ++ headerPrefix h ++ [rh_Flags h] ++ le_encode 4 (crc (headerPrefix h)) ++ fileID ++
           payload ++ le_encode 4 (crc payload) ++ rest) with (pre ++ hdr ++ body ++ rest)
    by (subst hdr body; now rewrite <- !app_assoc).
  unfold readRecordAt. rewrite (ReadAt_middle pre hdr) by (auto; unfold recordHeaderSize; lia).
  assert (Hdec : decodeHeader hdr = inr h).
  { subst hdr. rewrite <- (app_nil_r (le_encode 4 _)), decodeHeader_encoded, set_Flags_id by assumption. reflexivity. }
  rewrite Hdec. rewrite Z.gtb_ltb, (proj2 (Z.ltb_ge _ _)) by lia. cbv zeta.
  rewrite (app_assoc pre hdr). rewrite (ReadAt_middle (pre ++ hdr) body).
  2:{ rewrite length_app. unfold recordHeaderSize. lia. }
  2:{ subst body. rewrite !length_app, le_encode_length. unfold payloadCRCSize. lia. }
  rewrite Hid, Hpl, <- Nat2Z.inj_add, !Nat2Z.id. subst body.
  assert (S1 : slice (length fileID) (length payload) (fileID ++ payload ++ le_encode 4 (crc payload)) = payload).
  { rewrite <- (Nat.add_0_r (length fileID)), slice_skip by reflexivity. now apply slice_here. }
  assert (S2 : field (length fileID + length payload) 4 (fileID ++ payload ++ le_encode 4 (crc payload)) = crc payload).
  { apply field_of_slice; [|apply crc_range]. rewrite slice_skip by reflexivity.
    rewrite <- (Nat.add_0_r (length payload)), slice_skip by reflexivity.
    rewrite <- (app_nil_r (le_encode 4 _)) at 1. apply slice_here, le_encode_length. }
  rewrite S1, S2, Z.eqb_refl. cbn [negb read_back size_of]. rewrite take_app_length.
  unfold recordLen. do 2 f_equal. lia.
Qed.

(** A proper prefix of a record is never mistaken for a record. *)
Lemma readRecordAt_torn maxPayload w pre k :
  written_ok maxPayload w -> (k < length (enc w))%nat ->
  exists e, readRecordAt (pre ++ take k (enc w)) (Z.of_nat (length pre)) maxPayload = inl e.
Proof.
  intros Hok Hk. pose proof (enc_length w) as Hlen. destruct w as [[h fileID] payload].
  pose proof Hok as (Hh & Hid & Hpl & Hmax). cbn [enc size_of] in *.
  unfold readRecordAt, ReadAt at 1. cbv zeta. rewrite Nat2Z.id, drop_app_length.
  destruct (Z.ltb_spec (Z.of_nat (length (take (Z.to_nat recordHeaderSize) (take k (encodeRecord h fileID payload)))))
    recordHeaderSize) as [|Hge].
  { destruct (_ =? 0)%nat; eauto. }
  assert (Hk29 : (29 <= k)%nat).
  { rewrite !length_take in Hge. unfold recordHeaderSize in Hge. lia. }
  assert (Hhdr : take (Z.to_nat recordHeaderSize) (take k (encodeRecord h fileID payload)) =
    headerPrefix h ++ [rh_Flags h] ++ le_encode 4 (crc (headerPrefix h))).
  { rewrite take_take, Nat.min_l by (unfold recordHeaderSize; lia). reflexivity. }
  assert (Hdec : decodeHeader (headerPrefix h ++ [rh_Flags h] ++ le_encode 4 (crc (headerPrefix h))) = inr h).
  { rewrite <- (app_nil_r (le_encode 4 _)), decodeHeader_encoded, set_Flags_id by assumption. reflexivity. }
  rewrite Hhdr, Hdec. rewrite Z.gtb_ltb, (proj2 (Z.ltb_ge _ _)) by lia.
  unfold ReadAt. cbv zeta. set (got := take _ _).
  assert (Hgot : (length got <= k - 29)%nat).
  { subst got. rewrite length_take, length_drop, length_app, length_take. unfold recordHeaderSize. lia. }
  rewrite (proj2 (Z.ltb_lt _ _)); [eauto|]. unfold recordLen, recordHeaderSize in Hlen. lia.
Qed.

(** ** Scanning a segment *)

(** The records of [ws] laid out from offset [off], and the offset after them. *)
Fixpoint laid_out (ws : list written) (off : Z) : list record :=
  match ws with
  | [] => []
  | w :: r => read_back w off :: laid_out r (off + size_of w)
  end.

Definition total_size (ws : list written) : Z := foldr (fun w a => size_of w + a) 0 ws.

Lemma size_of_min w : 33 <= size_of w.
Proof. destruct w as [[h fileID] payload]. cbn. unfold recordLen, recordHeaderSize, payloadCRCSize. lia. Qed.

Lemma total_size_bound ws : 33 * Z.of_nat (length ws) <= total_size ws.
Proof.
  induction ws as [|w r IH]; [reflexivity|]. unfold total_size in *. cbn [foldr length].
  pose proof (size_of_min w). lia.
Qed.

Lemma concat_enc_length ws : Z.of_nat (length (concat (map enc ws))) = total_size ws.
Proof.
  induction ws as [|w r IH]; [reflexivity|]. unfold total_size in *. cbn [map concat foldr].
  rewrite length_app, Nat2Z.inj_add, enc_length, IH. reflexivity.
Qed.

Lemma scan_loop_enc maxPayload ws pre tail fuel :
  Forall (written_ok maxPayload) ws -> (length ws < fuel)%nat ->
  let seg := pre ++ concat (map enc ws) ++ tail in
  let segSize := Z.of_nat (length seg) in
  let stop := Z.of_nat (length pre) + total_size ws in
  (tail = [] \/ exists e, readRecordAt seg stop maxPayload = inl e) ->
  scan_loop fuel seg segSize maxPayload (Z.of_nat (length pre)) = (laid_out ws (Z.of_nat (length pre)), stop).
Proof.
  revert pre fuel. induction ws as [|w r IH]; intros pre fuel Hok Hf seg segSize stop Hend.
  { destruct fuel as [|fuel]; [cbn in Hf; lia|]. cbn [scan_loop laid_out].
    subst stop segSize. change (total_size []) with 0 in *. rewrite Z.add_0_r in *.
    destruct Hend as [->|[e He]].
    - subst seg. cbn. rewrite app_nil_r, Z.ltb_irrefl. reflexivity.
    - rewrite He. now destruct (_ <? _). }
  destruct fuel as [|fuel]; [cbn in Hf; lia|]. cbn [length] in Hf.
  apply Forall_cons in Hok as [Hw Hok].
  assert (Eseg : seg = (pre ++ enc w) ++ concat (map enc r) ++ tail)
    by (subst seg; cbn [map concat]; now rewrite <- !app_assoc).
  assert (Eoff : Z.of_nat (length (pre ++ enc w)) = Z.of_nat (length pre) + size_of w)
    by (rewrite length_app, Nat2Z.inj_add, enc_length; reflexivity).
  assert (Estop : stop = Z.of_nat (length (pre ++ enc w)) + total_size r)
    by (subst stop; rewrite Eoff; unfold total_size; cbn [foldr]; lia).
  cbn [scan_loop]. rewrite (proj2 (Z.ltb_lt _ _)).
  2:{ subst segSize. rewrite Eseg, !length_app. pose proof (enc_length w). pose proof (size_of_min w). lia. }
  assert (Eread : readRecordAt seg (Z.of_nat (length pre)) maxPayload =
    inr (read_back w (Z.of_nat (length pre)), Z.of_nat (length pre) + size_of w)).
  { rewrite Eseg, <- app_assoc. now apply readRecordAt_enc. }
  rewrite Eread. cbn [laid_out]. specialize (IH (pre ++ enc w) fuel Hok ltac:(lia)). cbv zeta in IH.
  rewrite <- Eseg in IH. fold segSize in IH. rewrite <- Estop in IH. rewrite Eoff in IH.
  now rewrite (IH Hend).
Qed.

Lemma scanValidRecords_torn maxPayload hdr ws w k :
  length hdr = 64%nat -> Forall (written_ok maxPayload) ws -> written_ok maxPayload w ->
  (k < length (enc w))%nat ->
  let seg := hdr ++ concat (map enc ws) ++ take k (enc w) in
  scanValidRecords seg (Z.of_nat (length seg)) maxPayload =
  (laid_out ws segHeaderSize, segHeaderSize + total_size ws).
Proof.
  intros Hh Hok Hw Hk seg. unfold scanValidRecords. change segHeaderSize with (Z.of_nat 64). rewrite <- Hh.
  apply scan_loop_enc; [assumption| |].
  - subst seg. rewrite Nat2Z.id, !length_app. pose proof (concat_enc_length ws).
    pose proof (total_size_bound ws). lia.
  - right. subst seg. rewrite app_assoc.
    destruct (readRecordAt_torn maxPayload w (hdr ++ concat (map enc ws)) k Hw Hk) as [e He].
    exists e. rewrite <- He. f_equal. rewrite length_app, Nat2Z.inj_add, concat_enc_length. reflexivity.
Qed.

(** crash recovery of a segment: if the file holds its header, a sequence of
    complete records and any proper prefix of one more record (a write torn anywhere, an
    empty prefix included), the tail scan returns exactly the complete records, each with
    its header, FileID, payload and offset, and reports the segment intact up to the end
    of the last of them, where recovery truncates. *)
Theorem scan_recovers_written maxPayload hdr ws w k :
  length hdr = 64%nat -> Forall (written_ok maxPayload) ws -> written_ok maxPayload w ->
  (k < length (enc w))%nat ->
  let seg := hdr ++ concat (map enc ws) ++ take k (enc w) in
  scanValidRecords seg (Z.of_nat (length seg)) maxPayload =
  (laid_out ws segHeaderSize, segHeaderSize + total_size ws).
Proof. apply scanValidRecords_torn. Qed.

(** ** Termination of the scan on arbitrary bytes *)

Lemma ReadAt_bytes r off n buf : Forall is_byte r -> ReadAt r off n = inr buf -> Forall is_byte buf.
Proof.
  intros Hb. unfold ReadAt. cbv zeta. destruct (_ <? _); [easy|]. intros [= <-].
  now apply Forall_take, Forall_drop.
Qed.

Lemma readRecordAt_progress r off maxPayload rec next :
  Forall is_byte r -> readRecordAt r off maxPayload = inr (rec, next) -> off + 33 <= next.
Proof.
  intros Hb. unfold readRecordAt. destruct (ReadAt r off _) as [|hdrBuf] eqn:E1; [destruct (_ =? 0)%nat; easy|].
  destruct (decodeHeader hdrBuf) as [|h] eqn:E2; [easy|]. destruct (_ >? _); [easy|]. cbv zeta.
  destruct (ReadAt r (off + recordHeaderSize) _) as [|buf]; [easy|]. destruct (negb _); [easy|]. intros [= _ <-].
  apply ReadAt_bytes in E1; [|assumption]. unfold decodeHeader in E2.
  destruct (_ <? _); [easy|]. do 3 (destruct (negb _); [easy|]). injection E2 as <-. cbn [rh_FileIDLen rh_PayloadLen].
  assert (forall o n, 0 <= field o n hdrBuf).
  { intros. unfold field. now apply le_decode_range, slice_bytes. }
  pose proof (H 2%nat 2%nat). pose proof (H 12%nat 4%nat). unfold recordHeaderSize, payloadCRCSize. lia.
Qed.

Lemma scan_loop_fuel r segSize maxPayload fuel off :
  Forall is_byte r -> (Z.to_nat (segSize - off) <= fuel)%nat ->
  scan_loop fuel r segSize maxPayload off = scan_loop (Z.to_nat (segSize - off)) r segSize maxPayload off.
Proof.
  intros Hb. remember (Z.to_nat (segSize - off)) as n eqn:En. revert off fuel En.
  induction n as [n IH] using lt_wf_ind. intros off fuel En Hf.
  destruct fuel as [|fuel]; [replace n with 0%nat by lia; reflexivity|]. cbn [scan_loop].
  destruct (Z.ltb_spec off segSize).
  2:{ destruct n; [reflexivity|]. cbn [scan_loop]. now rewrite (proj2 (Z.ltb_ge _ _)). }
  destruct n as [|n]; [lia|]. cbn [scan_loop]. rewrite (proj2 (Z.ltb_lt _ _)) by assumption.
  destruct (readRecordAt r off maxPayload) as [|[rec next]] eqn:E; [reflexivity|].
  apply readRecordAt_progress in E; [|assumption].
  rewrite (IH (Z.to_nat (segSize - next)) ltac:(lia) next fuel eq_refl ltac:(lia)).
  now rewrite (IH (Z.to_nat (segSize - next)) ltac:(lia) next n eq_refl ltac:(lia)).
Qed.

(** the scan terminates on every segment content: each iteration advances by at
    least 33 bytes, so more iterations than the segment has bytes never change the
    result. *)
Theorem scan_terminates r segSize maxPayload fuel :
  Forall is_byte r -> (Z.to_nat segSize <= fuel)%nat ->
  scan_loop fuel r segSize maxPayload segHeaderSize = scanValidRecords r segSize maxPayload.
Proof.
  intros Hb Hf. unfold scanValidRecords. unfold segHeaderSize.
  rewrite (scan_loop_fuel r segSize maxPayload fuel) by (auto; lia).
  symmetry. apply scan_loop_fuel; [assumption|lia].
Qed.

(** ** Flipping the Flags byte in place *)

Lemma decodeHeader_flip buf f h :
  decodeHeader buf = inr h -> decodeHeader (<[24%nat := f]> buf) = inr (set_Flags f h).
Proof.
  unfold decodeHeader. rewrite length_insert.
  destruct (Z.ltb_spec (Z.of_nat (length buf)) recordHeaderSize) as [|Hl]; [easy|].
  unfold recordHeaderSize in Hl.
  assert (Hb : forall i, (i < 24)%nat -> byte_at i (<[24%nat := f]> buf) = byte_at i buf)
    by (intros; unfold byte_at; now rewrite list_lookup_insert_ne by lia).
  assert (Hf : forall o n, (o + n <= 24)%nat -> field o n (<[24%nat := f]> buf) = field o n buf).
  { intros. unfold field, slice. rewrite drop_insert_ge, take_insert_ge by lia. reflexivity. }
  rewrite !Hb by lia. change (Z.to_nat headerCRCCovers) with 24%nat. rewrite take_insert_ge by lia.
  assert (F25 : field 25 4 (<[24%nat := f]> buf) = field 25 4 buf)
    by (unfold field, slice; now rewrite drop_insert_lt by lia).
  rewrite F25, !Hf by lia.
  do 3 (destruct (negb _); [easy|]). intros [= <-]. unfold set_Flags. cbn.
  unfold byte_at. rewrite list_lookup_insert_eq by lia. reflexivity.
Qed.

Definition with_Flags (f : Z) (r : record) : record :=
  mkRecord (set_Flags f (rec_header r)) (rec_fileID r) (rec_payload r) (rec_segOff r).

Lemma ReadAt_header_flip seg off f hdrBuf :
  0 <= off -> ReadAt seg off recordHeaderSize = inr hdrBuf ->
  ReadAt (flipFlags seg off f) off recordHeaderSize = inr (<[24%nat := f]> hdrBuf).
Proof.
  intros Hoff. unfold ReadAt, flipFlags. cbv zeta.
  replace (Z.to_nat (off + recordFlagsOffset)) with (Z.to_nat off + 24)%nat
    by (unfold recordFlagsOffset, headerCRCCovers; lia).
  rewrite drop_insert_ge by lia. rewrite take_insert_lt by (unfold recordHeaderSize; lia).
  replace (Z.to_nat off + 24 - Z.to_nat off)%nat with 24%nat by lia. rewrite length_insert.
  destruct (_ <? _); [easy|]. now intros [= <-].
Qed.

Lemma ReadAt_body_flip seg off f n :
  0 <= off -> ReadAt (flipFlags seg off f) (off + recordHeaderSize) n = ReadAt seg (off + recordHeaderSize) n.
Proof.
  intros Hoff. unfold ReadAt, flipFlags. cbv zeta. rewrite drop_insert_lt; [reflexivity|].
  unfold recordFlagsOffset, headerCRCCovers, recordHeaderSize. lia.
Qed.

Lemma flip_flags_keeps_record seg off maxPayload f r next :
  0 <= off -> readRecordAt seg off maxPayload = inr (r, next) ->
  readRecordAt (flipFlags seg off f) off maxPayload = inr (with_Flags f r, next).
Proof.
  intros Hoff. unfold readRecordAt.
  destruct (ReadAt seg off recordHeaderSize) as [|hdrBuf] eqn:E1; [destruct (_ =? 0)%nat; easy|].
  rewrite (ReadAt_header_flip _ _ f _ Hoff E1).
  destruct (decodeHeader hdrBuf) as [|h] eqn:E2; [easy|]. rewrite (decodeHeader_flip _ f _ E2).
  cbn [set_Flags rh_PayloadLen rh_FileIDLen]. destruct (_ >? _); [easy|]. cbv zeta.
  rewrite ReadAt_body_flip by assumption. destruct (ReadAt seg (off + recordHeaderSize) _) as [|buf]; [easy|].
  destruct (negb _); [easy|]. now intros [= <- <-].
Qed.

Lemma ReadAt_flags seg off hdrBuf :
  0 <= off -> ReadAt seg off recordHeaderSize = inr hdrBuf ->
  ReadAt seg (off + recordFlagsOffset) 1 = inr [byte_at 24 hdrBuf].
Proof.
  intros Hoff. unfold ReadAt, byte_at, recordHeaderSize, recordFlagsOffset, headerCRCCovers.
  replace (Z.to_nat (off + 24)) with (Z.to_nat off + 24)%nat by lia. cbv zeta.
  rewrite <- drop_drop. generalize (drop (Z.to_nat off) seg) as l. intros l.
  destruct (Z.ltb_spec (Z.of_nat (length (take (Z.to_nat 29) l))) 29) as [|Hlen]; [easy|]. intros [= <-].
  rewrite length_take in Hlen. change (Z.to_nat 29) with 29%nat in *. change (Z.to_nat 1) with 1%nat.
  rewrite lookup_take_lt by lia.
  destruct (lookup_lt_is_Some_2 l 24 ltac:(lia)) as [x Hx]. rewrite Hx.
  rewrite (drop_S _ _ _ Hx). reflexivity.
Qed.

Lemma or_synced f : has f flagSynced = true -> f .| flagSynced = f.
Proof.
  change flagSynced with (2 ^ 0). rewrite has_pow2 by lia. intros H. apply Z.bits_inj'. intros i Hi.
  rewrite Z.lor_spec, Z.pow2_bits_eqb by lia. destruct (Z.eqb_spec 0 i) as [<-|]; [rewrite H; reflexivity|].
  apply orb_false_r.
Qed.

(** When the uploader marks a record synced it flips one bit in place, outside
    the bytes the header CRC covers: the record still validates, with the synced
    flag added and otherwise the same header, FileID, payload and successor; a
    record already marked is left alone. *)
Theorem flip_synced_keeps_record seg off maxPayload r next :
  0 <= off -> readRecordAt seg off maxPayload = inr (r, next) ->
  exists seg', flipRecordSynced seg off = Some (negb (has (rh_Flags (rec_header r)) flagSynced), seg') /\
    readRecordAt seg' off maxPayload = inr (with_Flags (rh_Flags (rec_header r) .| flagSynced) r, next).
Proof.
  intros Hoff H.
  assert (exists hdrBuf, ReadAt seg off recordHeaderSize = inr hdrBuf /\ byte_at 24 hdrBuf = rh_Flags (rec_header r))
    as (hdrBuf & Hread & Hflags).
  { revert H. unfold readRecordAt. destruct (ReadAt seg off recordHeaderSize) as [|hdrBuf]; [destruct (_ =? 0)%nat; easy|].
    unfold decodeHeader. repeat (case_match; try easy). intros [= <- _]. simplify_eq. eauto. }
  unfold flipRecordSynced. rewrite (ReadAt_flags _ _ _ Hoff Hread), Hflags. cbv zeta.
  change (byte_at 0 [rh_Flags (rec_header r)]) with (rh_Flags (rec_header r)). destruct (has (rh_Flags (rec_header r)) flagSynced) eqn:Eh.
  - exists seg. split; [reflexivity|]. rewrite or_synced by exact Eh. rewrite H.
    destruct r as [[] ? ? ?]. reflexivity.
  - eexists. split; [reflexivity|]. apply flip_flags_keeps_record; assumption.
Qed.

(** ** Segment headers *)

(** a segment header round-trips: recovery reads back the segment id, the creation
    time (a signed 64-bit value) and the flags, sealed bit included, from the 64 bytes
    written at creation or sealing, whatever records follow. *)
Theorem seg_header_roundtrip id createdAt flags rest :
  in_u64 id -> in_i64 createdAt -> in_u32 flags ->
  length (encodeSegHeader id createdAt flags) = 64%nat /\
  decodeSegHeader (encodeSegHeader id createdAt flags ++ rest) = Some (id, createdAt, flags).
Proof.
  intros Hi Hc Hf. unfold in_u64, in_u32 in *. split; [reflexivity|].
  unfold encodeSegHeader. cbv zeta. set (prefix := segMagic ++ _).
  rewrite <- !app_assoc. set (buf := prefix ++ _).
  assert (Hl : (64 <= length buf)%nat) by (subst buf prefix; rewrite !length_app; cbn; lia).
  unfold decodeSegHeader. rewrite (proj2 (Z.ltb_ge _ _)) by (unfold segHeaderSize; lia).
  rewrite bool_decide_eq_true_2 by reflexivity. cbn [negb].
  change (take (Z.to_nat segHeaderCRCCovers) buf) with prefix.
  rewrite (field_of_slice 28 4 buf (crc prefix)) by (reflexivity || apply crc_range).
  rewrite Z.eqb_refl. cbn [negb].
  pose proof (u64_range createdAt) as Hu. unfold in_u64 in Hu.
  rewrite (field_of_slice 8 8 buf id), (field_of_slice 16 8 buf (u64 createdAt)), (field_of_slice 24 4 buf flags)
    by (reflexivity || (cbn; lia)).
  now rewrite i64_u64.
Qed.

(** ** Witnesses *)

Definition sample_written : written := (mkRecordHeader 2 4096 3 7 0, [97; 98], [1; 2; 3]).

Lemma sample_written_ok : written_ok 1000 sample_written.
Proof. repeat split; vm_compute; congruence. Qed.

Lemma scan_recovers_written_witness :
  let seg := replicate 64 0 ++ concat (map enc [sample_written]) ++ take 20 (enc sample_written) in
  scanValidRecords seg (Z.of_nat (length seg)) 1000 =
  ([mkRecord (mkRecordHeader 2 4096 3 7 0) [97; 98] [1; 2; 3] 64], 102).
Proof.
  refine (scan_recovers_written 1000 (replicate 64 0) [sample_written] sample_written 20 _ _ _ _).
  - reflexivity.
  - constructor; [exact sample_written_ok|constructor].
  - exact sample_written_ok.
  - vm_compute. lia.
Defined.

Lemma scan_terminates_witness :
  scan_loop 200 [1; 2; 3] 100 1000 segHeaderSize = scanValidRecords [1; 2; 3] 100 1000.
Proof.
  apply (scan_terminates [1; 2; 3] 100 1000 200).
  - repeat constructor; vm_compute; congruence.
  - vm_compute. lia.
Defined.

Lemma flip_synced_keeps_record_witness :
  exists seg', flipRecordSynced (enc sample_written) 0 = Some (true, seg') /\
    readRecordAt seg' 0 1000 = inr (with_Flags 1 (read_back sample_written 0), 38).
Proof.
  refine (flip_synced_keeps_record (enc sample_written) 0 1000 (read_back sample_written 0) 38 _ _).
  - lia.
  - pose proof (readRecordAt_enc 1000 sample_written [] [] sample_written_ok) as H.
    rewrite app_nil_r in H. exact H.
Defined.

Lemma seg_header_roundtrip_witness :
  decodeSegHeader (encodeSegHeader 3 (-5) segFlagSealed) = Some (3, -5, segFlagSealed).
Proof.
  rewrite <- (app_nil_r (encodeSegHeader 3 (-5) segFlagSealed)).
  refine (proj2 (seg_header_roundtrip 3 (-5) segFlagSealed [] _ _ _)); vm_compute; split; congruence.
Defined.
