(* ===== verification/LockTypes.v ===== *)
(** * Byte-range locks and leases: data and conflict rules
    ([pkg/metadata/lock/types.go], [oplock.go], [delegation.go] and the pure
    functions of [manager.go])

    Two representations of a byte-range lock meet here.  A [FileLock] is an SMB
    lock, owned by an open or, when it has none, by a session; a [UnifiedLock]
    is an NLM or NFSv4 lock, an SMB lease or a delegation.  A length of zero
    means "to end of file"; an SMB zero-byte lock carries its own flag.  Every
    offset and length is a [uint64], and the ends are computed with wrap-around
    as in the source. *)

From S2P Require Import Prelude.

(** ** Data *)

Inductive LockType := LockTypeShared | LockTypeExclusive.
Inductive AccessMode := AccessModeNone | AccessModeDenyRead | AccessModeDenyWrite | AccessModeDenyAll.

#[export] Instance LockType_eq_dec : EqDecision LockType. Proof. solve_decision. Defined.
#[export] Instance AccessMode_eq_dec : EqDecision AccessMode. Proof. solve_decision. Defined.

(** The exclusion keys of [LockOwner] are only read when leases are broken. *)
Record LockOwner := mkLockOwner { OwnerID : string; lo_ClientID : string; lo_ShareName : string }.

Definition LeaseStateNone : Z := 0x00.
Definition LeaseStateRead : Z := 0x01.
Definition LeaseStateHandle : Z := 0x02.
Definition LeaseStateWrite : Z := 0x04.

Inductive BreakReason :=
  | BreakReasonUnspecified | BreakReasonDefault | BreakReasonSharingViolation | BreakReasonDestructive.

Record OpLock := mkOpLock {
  LeaseKey : list Z;
  LeaseState : Z;
  BreakToState : Z;
  BreakingToRequired : Z;
  Breaking : bool;
  BreakDeferred : bool;
  Epoch : Z;
  BreakStarted : Z;
  ol_Reclaim : bool;
  ParentLeaseKey : list Z;
  IsDirectory : bool;
  IsTraditionalOplock : bool;
  BrokenViaTimeout : bool;
  ol_BreakReason : BreakReason;
}.

Inductive DelegationType := DelegTypeRead | DelegTypeWrite.

Record Delegation := mkDelegation {
  DelegationID : string;
  DelegType : DelegationType;
  dg_IsDirectory : bool;
  dg_ClientID : string;
  dg_ShareName : string;
  dg_Breaking : bool;
  dg_BreakStarted : Z;
  Recalled : bool;
  Revoked : bool;
  NotificationMask : Z;
}.

Record UnifiedLock := mkUnifiedLock {
  ul_ID : string;
  ul_Owner : LockOwner;
  ul_FileHandle : string;
  ul_Offset : Z;
  ul_Length : Z;
  ul_Type : LockType;
  ul_AccessMode : AccessMode;
  ul_AcquiredAt : Z;
  ul_Blocking : bool;
  ul_Reclaim : bool;
  ul_Lease : option OpLock;
  ul_Delegation : option Delegation;
}.

Record FileLock := mkFileLock {
  fl_ID : Z;
  fl_SessionID : Z;
  fl_OpenID : string;
  fl_Offset : Z;
  fl_Length : Z;
  fl_Exclusive : bool;
  fl_AcquiredAt : Z;
  fl_ClientAddr : string;
  fl_ClientID : string;
  fl_IsZeroByte : bool;
  fl_persistID : string;
}.

Record LockConflict := mkLockConflict {
  lc_Offset : Z; lc_Length : Z; lc_Exclusive : bool; lc_OwnerSessionID : Z; lc_OwnerID : string }.

Record UnifiedLockConflict := mkUnifiedLockConflict { uc_Lock : UnifiedLock; uc_Reason : string }.

Definition ul_owner (ul : UnifiedLock) : string := OwnerID (ul_Owner ul).

Definition set_Type (t : LockType) (l : UnifiedLock) : UnifiedLock :=
  mkUnifiedLock (ul_ID l) (ul_Owner l) (ul_FileHandle l) (ul_Offset l) (ul_Length l) t (ul_AccessMode l)
    (ul_AcquiredAt l) (ul_Blocking l) (ul_Reclaim l) (ul_Lease l) (ul_Delegation l).

Definition set_AcquiredAt (n : Z) (l : UnifiedLock) : UnifiedLock :=
  mkUnifiedLock (ul_ID l) (ul_Owner l) (ul_FileHandle l) (ul_Offset l) (ul_Length l) (ul_Type l)
    (ul_AccessMode l) n (ul_Blocking l) (ul_Reclaim l) (ul_Lease l) (ul_Delegation l).

(** The fragment of a split lock: a clone with a fresh identifier and another range. *)
Definition set_Fragment (id : string) (off len : Z) (l : UnifiedLock) : UnifiedLock :=
  mkUnifiedLock id (ul_Owner l) (ul_FileHandle l) off len (ul_Type l) (ul_AccessMode l)
    (ul_AcquiredAt l) (ul_Blocking l) (ul_Reclaim l) (ul_Lease l) (ul_Delegation l).

(** ** Ranges *)

Definition rangeLast (offset length : Z) : Z :=
  if length =? 0 then max_u64 else u64 (u64 (offset + length) - 1).

Definition rangeEnd (offset length : Z) : Z :=
  if length =? 0 then max_u64 else u64 (offset + length).

Definition RangesOverlap (offset1 length1 offset2 length2 : Z) : bool :=
  (offset1 <=? rangeLast offset2 length2) && (offset2 <=? rangeLast offset1 length1).

Definition IsExclusive (ul : UnifiedLock) : bool := bool_decide (ul_Type ul = LockTypeExclusive).
Definition IsShared (ul : UnifiedLock) : bool := bool_decide (ul_Type ul = LockTypeShared).
Definition IsLease (ul : UnifiedLock) : bool := match ul_Lease ul with Some _ => true | None => false end.
Definition IsDelegation (ul : UnifiedLock) : bool := match ul_Delegation ul with Some _ => true | None => false end.

Definition End_ (ul : UnifiedLock) : Z :=
  if ul_Length ul =? 0 then max_u64 else u64 (ul_Offset ul + ul_Length ul).

Definition Contains (ul : UnifiedLock) (offset length : Z) : bool :=
  if ul_Length ul =? 0 then offset >=? ul_Offset ul
  else if length =? 0 then false
  else (offset >=? ul_Offset ul) && (u64 (offset + length) <=? End_ ul).

Definition Overlaps (ul : UnifiedLock) (offset length : Z) : bool :=
  RangesOverlap (ul_Offset ul) (ul_Length ul) offset length.

(** ** Leases and delegations *)

Definition HasRead (l : OpLock) : bool := has (LeaseState l) LeaseStateRead.
Definition HasWrite (l : OpLock) : bool := has (LeaseState l) LeaseStateWrite.
Definition HasHandle (l : OpLock) : bool := has (LeaseState l) LeaseStateHandle.

Definition ComputeLeaseBreakTo (existingState : Z) (reason : BreakReason) : Z :=
  match reason with
  | BreakReasonDestructive => LeaseStateNone
  | BreakReasonSharingViolation => existingState .&^ LeaseStateHandle
  | _ => existingState .&^ LeaseStateWrite
  end.

Definition nextProgressiveBreakTarget (ackedState required : Z) : Z :=
  if has ackedState (LeaseStateWrite .| LeaseStateHandle) then required .| LeaseStateRead else required.

Definition OpLocksConflict (existing requested : OpLock) : bool :=
  if bool_decide (LeaseKey existing = LeaseKey requested) then false
  else
    let existingState := if Breaking existing then BreakingToRequired existing else LeaseState existing in
    if has existingState LeaseStateWrite && has (LeaseState requested) (LeaseStateRead .| LeaseStateWrite)
    then true
    else has (LeaseState requested) LeaseStateWrite && has existingState (LeaseStateRead .| LeaseStateWrite).

Definition opLockConflictsWithByteLock (lease : OpLock) (leaseOwnerID : string) (lock : UnifiedLock) : bool :=
  if bool_decide (leaseOwnerID = ul_owner lock) then false else HasWrite lease && IsExclusive lock.

Definition DelegationConflictsWithLease (deleg : option Delegation) (lease : option OpLock) : bool :=
  match deleg, lease with
  | Some d, Some l =>
    match DelegType d with
    | DelegTypeWrite => negb (LeaseState l =? LeaseStateNone)
    | DelegTypeRead => HasWrite l
    end
  | _, _ => false
  end.

Definition accessModesConflict (a b : AccessMode) : bool :=
  bool_decide (a <> AccessModeNone) || bool_decide (b <> AccessModeNone).

(** ** Conflicts between two locks *)

Definition ConflictsWith (ul other : UnifiedLock) : bool :=
  if accessModesConflict (ul_AccessMode ul) (ul_AccessMode other) then true
  else match ul_Lease ul, ul_Lease other with
  | Some a, Some b => OpLocksConflict a b
  | Some a, None => opLockConflictsWithByteLock a (ul_owner ul) other
  | None, Some b => opLockConflictsWithByteLock b (ul_owner other) ul
  | None, None =>
    if negb (RangesOverlap (ul_Offset ul) (ul_Length ul) (ul_Offset other) (ul_Length other)) then false
    else if bool_decide (ul_owner ul = ul_owner other) then false
    else if IsShared ul && IsShared other then false
    else true
  end.

Definition IsUnifiedLockConflicting (existing requested : UnifiedLock) : bool :=
  ConflictsWith existing requested.

(** [fmt.Sprintf("session:%d", sessionID)]. *)
Definition callerOwnerID (openID : string) (sessionID : Z) : string :=
  if bool_decide (openID <> EmptyString) then openID
  else "session:" +:+ dec_string (Z.to_N sessionID).

Definition lockOwnerID (fl : FileLock) : string := callerOwnerID (fl_OpenID fl) (fl_SessionID fl).

Definition locksOverlap (a b : FileLock) : bool :=
  if fl_IsZeroByte a && fl_IsZeroByte b then false
  else if fl_IsZeroByte a || fl_IsZeroByte b then
    let '(zb, other) := if fl_IsZeroByte a then (a, b) else (b, a) in
    if fl_Offset zb =? 0 then false
    else (fl_Offset other <? fl_Offset zb) &&
         (rangeEnd (fl_Offset other) (fl_Length other) >? fl_Offset zb)
  else RangesOverlap (fl_Offset a) (fl_Length a) (fl_Offset b) (fl_Length b).

Definition IsLockConflicting (existing requested : FileLock) : bool :=
  if negb (locksOverlap existing requested) then false
  else if negb (fl_Exclusive existing) && negb (fl_Exclusive requested) then false
  else if bool_decide (lockOwnerID existing = lockOwnerID requested) then
    if bool_decide (fl_OpenID existing = EmptyString) || bool_decide (fl_OpenID requested = EmptyString)
    then false
    else if fl_Exclusive existing && negb (fl_Exclusive requested) then false
    else true
  else true.

Definition CheckIOConflict (existing : FileLock) (openID : string) (sessionID offset length : Z)
    (isWrite : bool) : bool :=
  if fl_IsZeroByte existing then false
  else if negb (RangesOverlap (fl_Offset existing) (fl_Length existing) offset length) then false
  else if bool_decide (lockOwnerID existing = callerOwnerID openID sessionID) then
    if negb isWrite then false else negb (fl_Exclusive existing)
  else if isWrite then true
  else fl_Exclusive existing.

Definition fileLockConflictsWithUnified (fl : FileLock) (ul : UnifiedLock) : bool :=
  if IsLease ul || IsDelegation ul then false
  else if fl_IsZeroByte fl then false
  else if negb (RangesOverlap (fl_Offset fl) (fl_Length fl) (ul_Offset ul) (ul_Length ul)) then false
  else fl_Exclusive fl || IsExclusive ul.

Definition unifiedLockBlocksIO (ul : UnifiedLock) (offset length : Z) (isWrite : bool) : bool :=
  if IsLease ul || IsDelegation ul then false
  else if negb (Overlaps ul offset length) then false
  else if isWrite then true
  else IsExclusive ul.

Definition conflictFrom (fl : FileLock) : LockConflict :=
  mkLockConflict (fl_Offset fl) (fl_Length fl) (fl_Exclusive fl) (fl_SessionID fl) (lockOwnerID fl).

Definition conflictFromUnified (ul : UnifiedLock) : LockConflict :=
  mkLockConflict (ul_Offset ul) (ul_Length ul) (IsExclusive ul) 0 (ul_owner ul).

Definition unifiedConflictFromFileLock (fl : FileLock) : UnifiedLockConflict :=
  mkUnifiedLockConflict
    (mkUnifiedLock EmptyString (mkLockOwner (lockOwnerID fl) EmptyString EmptyString) EmptyString
       (fl_Offset fl) (fl_Length fl) (if fl_Exclusive fl then LockTypeExclusive else LockTypeShared)
       AccessModeNone 0 false false None None)
    "cross-protocol byte-range conflict".

(** ** Splitting and merging *)

(** [before] and [after] are the identifiers [uuid.New] hands to the fragments. *)
Definition SplitLock (before after : string) (existing : UnifiedLock) (unlockOffset unlockLength : Z)
    : list UnifiedLock :=
  if negb (RangesOverlap (ul_Offset existing) (ul_Length existing) unlockOffset unlockLength)
  then [existing]
  else
    let lockEnd := End_ existing in
    let sum := u64 (unlockOffset + unlockLength) in
    let unlockEnd := if (unlockLength =? 0) || (sum <? unlockOffset) then max_u64 else sum in
    if (unlockOffset <=? ul_Offset existing) && (unlockEnd >=? lockEnd) then []
    else
      (if unlockOffset >? ul_Offset existing
       then [set_Fragment before (ul_Offset existing) (u64 (unlockOffset - ul_Offset existing)) existing]
       else []) ++
      (if unlockEnd <? lockEnd
       then [set_Fragment after unlockEnd
               (if ul_Length existing =? 0 then 0 else u64 (lockEnd - unlockEnd)) existing]
       else []).

Definition canMerge (a b : UnifiedLock) : bool :=
  if ul_Length a =? 0 then ul_Offset b >=? ul_Offset a
  else if ul_Length b =? 0 then End_ a >=? ul_Offset b
  else End_ a >=? ul_Offset b.

Definition mergeTwoLocks (a b : UnifiedLock) : UnifiedLock :=
  let off := Z.min (ul_Offset a) (ul_Offset b) in
  if (ul_Length a =? 0) || (ul_Length b =? 0) then set_Fragment (ul_ID a) off 0 a
  else set_Fragment (ul_ID a) off (u64 (Z.max (End_ a) (End_ b) - off)) a.

Fixpoint merge_sorted (current : UnifiedLock) (rest : list UnifiedLock) : list UnifiedLock :=
  match rest with
  | [] => [current]
  | next :: rest =>
    if canMerge current next then merge_sorted (mergeTwoLocks current next) rest
    else current :: merge_sorted next rest
  end.

Definition mergeRanges (locks : list UnifiedLock) : list UnifiedLock :=
  match sort_by (key_lt ul_Offset) locks with
  | [] => []
  | current :: rest => merge_sorted current rest
  end.

(** The grouping key of [MergeLocks]. *)
Definition groupKey (l : UnifiedLock) : string * LockType * string :=
  (ul_owner l, ul_Type l, ul_FileHandle l).

(** Go ranges over the map of groups in an unspecified order; the groups are
    taken here in one fixed order, and what is proved of [MergeLocks] does not
    depend on it. *)
Definition MergeLocks (locks : list UnifiedLock) : list UnifiedLock :=
  match locks with
  | [] => []
  | [l] => [l]
  | _ => flat_map (fun k => mergeRanges (filter (fun l => groupKey l = k) locks))
           (remove_dups (map groupKey locks))
  end.

(** ** What a range covers

    A range is acceptable when its last byte does not pass [2^64 - 1]; its
    bytes run to the end of the address space when its length is zero. *)

Definition range_ok (off len : Z) : Prop := in_u64 off /\ in_u64 len /\ off + len <= 2 ^ 64.

Definition in_range (x off len : Z) : Prop := off <= x < 2 ^ 64 /\ (len = 0 \/ x < off + len).

Definition ul_ok (l : UnifiedLock) : Prop := range_ok (ul_Offset l) (ul_Length l).
Definition ul_covers (l : UnifiedLock) (x : Z) : Prop := in_range x (ul_Offset l) (ul_Length l).

Definition fl_ok (l : FileLock) : Prop := range_ok (fl_Offset l) (fl_Length l).
Definition fl_covers (l : FileLock) (x : Z) : Prop :=
  fl_IsZeroByte l = false /\ in_range x (fl_Offset l) (fl_Length l).

Lemma rangeLast_ok off len :
  range_ok off len -> rangeLast off len = if len =? 0 then 2 ^ 64 - 1 else off + len - 1.
Proof.
  intros (Ho & Hl & Hs). unfold rangeLast, max_u64. destruct (Z.eqb_spec len 0) as [|Hn]; [reflexivity|].
  unfold in_u64 in *.
  destruct (u64_add_case off len Ho Hl) as [[-> Hlt]|[-> Hge]].
  - apply u64_small. unfold in_u64. lia.
  - replace (off + len - 2 ^ 64 - 1) with (-1) by lia. unfold u64, wrap.
    replace (off + len - 1) with (2 ^ 64 - 1) by lia. reflexivity.
Qed.

Lemma overlap_iff o1 l1 o2 l2 :
  range_ok o1 l1 -> range_ok o2 l2 ->
  RangesOverlap o1 l1 o2 l2 = true <-> exists x, in_range x o1 l1 /\ in_range x o2 l2.
Proof.
  intros H1 H2. unfold RangesOverlap.
  rewrite andb_true_iff, !Z.leb_le, (rangeLast_ok _ _ H1), (rangeLast_ok _ _ H2).
  destruct H1 as (Ho1 & Hl1 & Hs1), H2 as (Ho2 & Hl2 & Hs2). unfold in_range, in_u64 in *.
  split.
  - intros [Ha Hb]. exists (Z.max o1 o2). revert Ha Hb. repeat zcase; lia.
  - intros (x & Hx1 & Hx2). repeat zcase; lia.
Qed.

Lemma overlap_sym o1 l1 o2 l2 : RangesOverlap o1 l1 o2 l2 = RangesOverlap o2 l2 o1 l1.
Proof. unfold RangesOverlap. apply andb_comm. Qed.

(** Two acceptable byte ranges overlap, by the inclusive-end test, exactly
    when some byte belongs to both; a length of zero reaches the end of the
    address space and single-byte ranges at the very top are not lost. *)
Theorem RangesOverlap_exact o1 l1 o2 l2 :
  range_ok o1 l1 -> range_ok o2 l2 ->
  RangesOverlap o1 l1 o2 l2 = true <-> exists x, in_range x o1 l1 /\ in_range x o2 l2.
Proof. apply overlap_iff. Qed.

(** When two SMB locks meet: a byte of both, or the position of a zero-byte
    lock strictly inside the other lock's range. *)
Definition strictly_inside (zb other : FileLock) : Prop :=
  fl_Offset other < fl_Offset zb /\ in_range (fl_Offset zb) (fl_Offset other) (fl_Length other).

Definition meet (a b : FileLock) : Prop :=
  if fl_IsZeroByte a then (if fl_IsZeroByte b then False else strictly_inside a b)
  else if fl_IsZeroByte b then strictly_inside b a
  else exists x, fl_covers a x /\ fl_covers b x.

(** Below the last byte, where the exclusive end of the other lock does not wrap. *)
Definition end_fits (l : FileLock) : Prop := fl_Offset l + fl_Length l < 2 ^ 64 - 1.

Lemma strictly_inside_iff zb other :
  fl_ok zb -> fl_ok other -> end_fits zb -> end_fits other ->
  (if fl_Offset zb =? 0 then false
   else (fl_Offset other <? fl_Offset zb) && (rangeEnd (fl_Offset other) (fl_Length other) >? fl_Offset zb))
  = true <-> strictly_inside zb other.
Proof.
  unfold fl_ok, range_ok, end_fits, strictly_inside, in_range, rangeEnd, max_u64, in_u64.
  intros (Ho & Hl & Hs) (Ho2 & Hl2 & Hs2) He He2.
  rewrite (u64_small (_ + _)) by (unfold in_u64; lia).
  repeat zcase; simpl; split; intros; try discriminate; lia.
Qed.

Lemma locksOverlap_iff a b :
  fl_ok a -> fl_ok b -> end_fits a -> end_fits b -> locksOverlap a b = true <-> meet a b.
Proof.
  intros Ha Hb Ea Eb. unfold locksOverlap, meet.
  destruct (fl_IsZeroByte a) eqn:Za, (fl_IsZeroByte b) eqn:Zb; simpl.
  - split; [discriminate|tauto].
  - apply strictly_inside_iff; assumption.
  - apply strictly_inside_iff; assumption.
  - rewrite overlap_iff by assumption. unfold fl_covers. naive_solver.
Qed.

(** SMB lock compatibility, decided as in the source: two locks conflict when
    they meet, one of them is exclusive, and the pair is not excused by
    ownership: a session-level owner never blocks itself, and an open may stack
    a shared lock on its own exclusive lock. *)
Theorem IsLockConflicting_exact e r :
  fl_ok e -> fl_ok r -> end_fits e -> end_fits r ->
  IsLockConflicting e r = true <->
  meet e r /\ (fl_Exclusive e = true \/ fl_Exclusive r = true) /\
  ~ (lockOwnerID e = lockOwnerID r /\
     (fl_OpenID e = EmptyString \/ fl_OpenID r = EmptyString \/
      fl_Exclusive e = true /\ fl_Exclusive r = false)).
Proof.
  intros He Hr Ee Er. rewrite <- (locksOverlap_iff e r) by assumption. unfold IsLockConflicting.
  destruct (locksOverlap e r); simpl; [|naive_solver].
  destruct (fl_Exclusive e), (fl_Exclusive r); simpl; repeat case_bool_decide; simpl; naive_solver.
Qed.

(** ** Splitting *)

(** The exclusive end of a bounded lock is representable. *)
Definition end_ok (l : UnifiedLock) : Prop := ul_ok l /\ ul_Offset l + ul_Length l < 2 ^ 64.

(** [f] is a fragment of [l]: the same lock on some of its bytes. *)
Definition fragment_of (l f : UnifiedLock) : Prop :=
  end_ok f /\ ul_Owner f = ul_Owner l /\ ul_FileHandle f = ul_FileHandle l /\ ul_Type f = ul_Type l /\
  ul_AccessMode f = ul_AccessMode l /\ ul_Lease f = ul_Lease l /\ ul_Delegation f = ul_Delegation l /\
  (forall x, ul_covers f x -> ul_covers l x).

Lemma fragment_of_refl l : end_ok l -> fragment_of l l.
Proof. intros H. unfold fragment_of. repeat (split; [solve [reflexivity | exact H]|]). auto. Qed.

Lemma fragment_of_intro l id off len :
  end_ok l -> in_u64 off -> in_u64 len -> off + len < 2 ^ 64 ->
  (forall x, in_range x off len -> ul_covers l x) -> fragment_of l (set_Fragment id off len l).
Proof.
  unfold fragment_of, end_ok, ul_ok, range_ok, ul_covers, set_Fragment, in_u64. simpl.
  intros _ Ho Hl Hs Hc. repeat split; try lia; apply Hc; assumption.
Qed.

Definition unlock_end (uo ul : Z) : Z :=
  if (ul =? 0) || (uo + ul =? 2 ^ 64) then 2 ^ 64 - 1 else uo + ul.

Lemma unlock_end_eq uo ul :
  range_ok uo ul ->
  (if (ul =? 0) || (u64 (uo + ul) <? uo) then max_u64 else u64 (uo + ul)) = unlock_end uo ul.
Proof.
  intros (Ho & Hl & Hs). unfold unlock_end, max_u64. unfold in_u64 in *.
  destruct (u64_add_case uo ul Ho Hl) as [[-> H]|[-> H]]; repeat zcase; simpl; lia.
Qed.

Lemma End_eq l : end_ok l -> End_ l = if ul_Length l =? 0 then 2 ^ 64 - 1 else ul_Offset l + ul_Length l.
Proof.
  intros ((Ho & Hl & _) & H). unfold End_, max_u64. unfold in_u64 in *. zcase; [reflexivity|].
  apply u64_small. unfold in_u64. lia.
Qed.

(** The two fragments of a split whose ranges overlap. *)
Lemma SplitLock_overlapping before after l uo ul :
  end_ok l -> range_ok uo ul ->
  RangesOverlap (ul_Offset l) (ul_Length l) uo ul = true ->
  SplitLock before after l uo ul =
    (if uo >? ul_Offset l then [set_Fragment before (ul_Offset l) (uo - ul_Offset l) l] else []) ++
    (if unlock_end uo ul <? End_ l
     then [set_Fragment after (unlock_end uo ul)
             (if ul_Length l =? 0 then 0 else End_ l - unlock_end uo ul) l] else []).
Proof.
  intros Hl Hu Hov. unfold SplitLock. rewrite Hov. simpl. rewrite unlock_end_eq by exact Hu.
  assert (Hend : in_u64 (End_ l)) by (unfold End_; zcase; [split; reflexivity || (vm_compute; congruence)|apply u64_range]).
  assert (Hue : 0 <= unlock_end uo ul)
    by (unfold unlock_end; destruct Hu as ([? ?] & [? ?] & ?); repeat zcase; simpl; lia).
  destruct Hl as ((Ho & _) & _), Hu as (Huo & _). unfold in_u64 in *.
  destruct (Z.leb_spec uo (ul_Offset l)) as [H1|H1]; simpl.
  - rewrite Z.geb_leb. destruct (Z.leb_spec (End_ l) (unlock_end uo ul)) as [H2|H2].
    + repeat zcase; try lia. reflexivity.
    + repeat zcase; try lia; simpl; [reflexivity|]. rewrite u64_small by (unfold in_u64; lia). reflexivity.
  - rewrite (u64_small (uo - _)) by (unfold in_u64; lia).
    repeat zcase; try lia; simpl; try reflexivity. rewrite u64_small by (unfold in_u64; lia). reflexivity.
Qed.

Lemma SplitLock_fragments before after l uo ul :
  end_ok l -> range_ok uo ul -> Forall (fragment_of l) (SplitLock before after l uo ul).
Proof.
  intros Hl Hu. destruct (RangesOverlap (ul_Offset l) (ul_Length l) uo ul) eqn:Hov.
  - rewrite SplitLock_overlapping by assumption. rewrite End_eq by exact Hl.
    apply overlap_iff in Hov; [|apply Hl|exact Hu]. destruct Hov as (y & Hy1 & Hy2).
    assert (Hb := Hl). destruct Hb as ((Ho & Hlen & _) & Hs), Hu as (Huo & Hul & Hus).
    unfold unlock_end, in_range, in_u64 in *.
    apply Forall_app. split.
    + zcase; constructor; [|constructor]. apply fragment_of_intro; unfold in_u64, ul_covers, in_range; try lia.
      exact Hl.
    + repeat (zcase; simpl); try lia; try apply Forall_nil_2; apply Forall_singleton;
        (apply fragment_of_intro; [exact Hl|..]); unfold in_u64, ul_covers, in_range; lia.
  - unfold SplitLock. rewrite Hov. constructor; [apply fragment_of_refl, Hl|constructor].
Qed.

Lemma SplitLock_covers before after l uo ul x :
  end_ok l -> range_ok uo ul -> x < 2 ^ 64 - 1 ->
  (exists f, In f (SplitLock before after l uo ul) /\ ul_covers f x) <->
  ul_covers l x /\ ~ in_range x uo ul.
Proof.
  intros Hl Hu Hx. destruct (RangesOverlap (ul_Offset l) (ul_Length l) uo ul) eqn:Hov.
  - rewrite SplitLock_overlapping by assumption. rewrite End_eq by exact Hl.
    apply overlap_iff in Hov; [|apply Hl|exact Hu]. destruct Hov as (y & Hy1 & Hy2).
    destruct Hl as ((Ho & Hlen & _) & Hs), Hu as (Huo & Hul & Hus).
    unfold unlock_end, ul_covers, in_range, in_u64 in *.
    split.
    + intros (f & Hf & Hc). apply in_app_or in Hf. revert Hf.
      repeat (zcase; simpl); intros [Hf|Hf]; simpl in Hf; try tauto; destruct Hf as [<-|[]];
        simpl in Hc; lia.
    + intros [Hc Hn]. destruct (Z.lt_ge_cases x uo) as [Hlt|Hge].
      * eexists. split; [apply in_or_app; left; rewrite Z.gtb_ltb; destruct (Z.ltb_spec (ul_Offset l) uo);
          [left; reflexivity|lia]|]. simpl. lia.
      * eexists. split; [apply in_or_app; right|].
        -- match goal with |- In _ (if ?c then _ else _) => replace c with true end;
             [left; reflexivity|]. symmetry. apply Z.ltb_lt. revert Hn. repeat (zcase; simpl); lia.
        -- simpl. revert Hn. repeat (zcase; simpl); lia.
  - unfold SplitLock. rewrite Hov. simpl.
    split.
    + intros (f & [<-|[]] & Hc). split; [exact Hc|]. intros Hin.
      apply Bool.not_true_iff_false in Hov. apply Hov, overlap_iff; [apply Hl|exact Hu|].
      exists x. split; assumption.
    + intros [Hc _]. exists l. split; [left; reflexivity|exact Hc].
Qed.

(** A POSIX unlock of part of a lock keeps exactly the other bytes: the
    fragments of [SplitLock] are the same lock (owner, type, file) on disjoint
    ranges, and below the last byte of the address space they cover what the
    lock covered and the unlock range does not. *)
Theorem SplitLock_exact before after l uo ul :
  end_ok l -> range_ok uo ul ->
  Forall (fragment_of l) (SplitLock before after l uo ul) /\
  StronglySorted (fun a b => forall x y, ul_covers a x -> ul_covers b y -> x < y) (SplitLock before after l uo ul) /\
  (forall x, x < 2 ^ 64 - 1 ->
     (exists f, In f (SplitLock before after l uo ul) /\ ul_covers f x) <->
     ul_covers l x /\ ~ in_range x uo ul).
Proof.
  intros Hl Hu. split; [apply SplitLock_fragments; assumption|]. split.
  - destruct (RangesOverlap (ul_Offset l) (ul_Length l) uo ul) eqn:Hov.
    + rewrite SplitLock_overlapping by assumption.
      destruct Hu as ([? ?] & [? ?] & ?).
      repeat case_match; simpl; repeat constructor; unfold ul_covers, in_range; simpl;
        intros x y Hx Hy; unfold unlock_end in Hy; revert Hy; repeat (zcase; simpl); lia.
    + unfold SplitLock. rewrite Hov. simpl. repeat constructor.
  - intros x. apply SplitLock_covers; assumption.
Qed.

(** The exclusive end of a lock that reaches the top of the address space
    wraps to zero, so any unlock that overlaps it drops every byte behind the
    unlock range as well, and the whole lock when the unlock starts at or
    before it. *)
Theorem SplitLock_drops_top before after l uo ul :
  ul_ok l -> ul_Offset l + ul_Length l = 2 ^ 64 -> range_ok uo ul ->
  RangesOverlap (ul_Offset l) (ul_Length l) uo ul = true ->
  forall f x, In f (SplitLock before after l uo ul) -> ul_covers f x -> x < uo.
Proof.
  intros (Ho & Hlen & _) Htop Hu Hov f x. unfold SplitLock. rewrite Hov. simpl.
  unfold End_. rewrite Htop. change (u64 (2 ^ 64)) with 0. rewrite unlock_end_eq by exact Hu.
  unfold in_u64 in *. destruct (Z.eqb_spec (ul_Length l) 0) as [|Hn]; [lia|].
  assert (Hue : 0 <= unlock_end uo ul)
    by (unfold unlock_end; destruct Hu as ([? ?] & [? ?] & ?); repeat zcase; simpl; lia).
  destruct Hu as ([? ?] & _).
  destruct (Z.ltb_spec (unlock_end uo ul) 0) as [|_]; [lia|]. rewrite app_nil_r.
  repeat zcase; simpl; try tauto; try lia; intros [<-|[]]; unfold ul_covers, in_range; simpl;
    rewrite ?u64_small by (unfold in_u64; lia); lia.
Qed.

(** [f] is [l] on some of its bytes, whatever the unlock range was. *)
Definition within (l f : UnifiedLock) : Prop :=
  ul_ok f /\ ul_Owner f = ul_Owner l /\ ul_Type f = ul_Type l /\ ul_Lease f = ul_Lease l /\
  ul_Delegation f = ul_Delegation l /\ (forall x, ul_covers f x -> ul_covers l x).

Lemma within_refl l : ul_ok l -> within l l.
Proof. intros H. unfold within. repeat (split; [solve [reflexivity | exact H]|]). auto. Qed.

Lemma SplitLock_within before after l uo ul :
  ul_ok l -> in_u64 uo -> in_u64 ul -> Forall (within l) (SplitLock before after l uo ul).
Proof.
  intros Hl Huo Hul. unfold SplitLock.
  destruct (RangesOverlap (ul_Offset l) (ul_Length l) uo ul) eqn:Hov; simpl;
    [|apply Forall_singleton, within_refl, Hl].
  unfold RangesOverlap in Hov. apply andb_true_iff in Hov as [H1 H2]. apply Z.leb_le in H1, H2.
  rewrite (rangeLast_ok _ _ Hl) in H2. unfold rangeLast in H1.
  destruct Hl as (Ho & Hlen & Hs). unfold End_, max_u64 in *. unfold in_u64 in *.
  assert (Hfrag : forall id off len, 0 <= off < 2 ^ 64 -> 0 <= len -> off + len <= 2 ^ 64 ->
            len < 2 ^ 64 -> (forall x, in_range x off len -> ul_covers l x) -> within l (set_Fragment id off len l)).
  { intros. unfold within, ul_ok, range_ok, in_u64. simpl. repeat (split; [solve [reflexivity|lia]|]). auto. }
  destruct (Z.leb_spec uo (ul_Offset l)) as [Hle|Hgt]; simpl.
  all: destruct (u64_add_case uo ul Huo Hul) as [[Eu Hu]|[Eu Hu]]; rewrite Eu in *.
  all: destruct (u64_add_case (ul_Offset l) (ul_Length l) Ho Hlen) as [[El Hll]|[El Hll]]; rewrite El in *.
  all: revert H1 H2; repeat (zcase; simpl); intros ? ?; try lia; try apply Forall_nil_2;
    repeat apply Forall_cons_2; try apply Forall_nil_2; apply Hfrag; unfold ul_covers, in_range;
    rewrite ?(u64_small (_ - _)) by (unfold in_u64; lia); rewrite ?u64_small in * by (unfold in_u64; lia); try lia.
Qed.

(** ** Merging *)

Definition offset_le (a b : UnifiedLock) : Prop := ul_Offset a <= ul_Offset b.

(** [a] ends strictly before [b] begins: neither overlapping nor adjacent. *)
Definition gap (a b : UnifiedLock) : Prop := ul_Length a <> 0 /\ ul_Offset a + ul_Length a < ul_Offset b.

Lemma canMerge_true a b :
  end_ok a -> end_ok b -> offset_le a b -> canMerge a b = true ->
  end_ok (mergeTwoLocks a b) /\ ul_Offset (mergeTwoLocks a b) = ul_Offset a /\
  groupKey (mergeTwoLocks a b) = groupKey a /\
  (forall x, ul_covers (mergeTwoLocks a b) x <-> ul_covers a x \/ ul_covers b x).
Proof.
  intros Ha Hb Hle Hc.
  assert (Hmin : Z.min (ul_Offset a) (ul_Offset b) = ul_Offset a) by (apply Z.min_l, Hle).
  unfold canMerge in Hc. rewrite (End_eq _ Ha) in Hc. unfold mergeTwoLocks.
  rewrite Hmin, (End_eq _ Ha), (End_eq _ Hb).
  destruct Ha as ((Hoa & Hla & _) & Hsa), Hb as ((Hob & Hlb & _) & Hsb).
  unfold offset_le, end_ok, ul_ok, range_ok, ul_covers, in_range, in_u64, groupKey, ul_owner in *.
  destruct (Z.eqb_spec (ul_Length a) 0), (Z.eqb_spec (ul_Length b) 0); simpl; try lia.
  - repeat split; intros; try lia.
  - repeat split; intros; try lia.
  - apply Z.geb_le in Hc. repeat split; intros; try lia.
  - apply Z.geb_le in Hc. rewrite u64_small by (unfold in_u64; lia). repeat split; intros; try lia.
Qed.

Lemma canMerge_false a b :
  end_ok a -> end_ok b -> offset_le a b -> canMerge a b = false -> gap a b.
Proof.
  intros Ha Hb Hle Hc. unfold canMerge in Hc. rewrite (End_eq _ Ha) in Hc. unfold gap, offset_le in *.
  destruct (Z.eqb_spec (ul_Length a) 0) as [|Hn].
  - rewrite Z.geb_leb in Hc. apply Z.leb_gt in Hc. lia.
  - split; [exact Hn|]. destruct (ul_Length b =? 0); rewrite Z.geb_leb in Hc; apply Z.leb_gt in Hc; lia.
Qed.

(** What one pass over the sorted locks returns. *)
Definition merged_of (locks out : list UnifiedLock) (k : string * LockType * string) : Prop :=
  Forall (fun f => end_ok f /\ groupKey f = k) out /\
  StronglySorted gap out /\
  (forall x, (exists f, In f out /\ ul_covers f x) <-> exists l, In l locks /\ ul_covers l x).

Lemma merge_sorted_ok rest current k :
  Forall (fun l => end_ok l /\ groupKey l = k) (current :: rest) ->
  StronglySorted offset_le (current :: rest) ->
  merged_of (current :: rest) (merge_sorted current rest) k /\
  Forall (fun f => ul_Offset current <= ul_Offset f) (merge_sorted current rest).
Proof.
  revert current. induction rest as [|next rest IH]; intros current Hok Hs; simpl.
  - split; [|constructor; [lia|constructor]]. split; [exact Hok|]. split; [constructor; constructor|].
    intros x. reflexivity.
  - apply Forall_cons in Hok as [[Hc Hk] Hrest]. pose proof Hrest as Hnext.
    apply Forall_cons in Hnext as [[Hn Hkn] Hr].
    apply StronglySorted_inv in Hs as [Hs Hle]. apply Forall_cons in Hle as [Hcn Hcr].
    apply StronglySorted_inv in Hs as [Hs Hnr].
    destruct (canMerge current next) eqn:Hm.
    + destruct (canMerge_true _ _ Hc Hn Hcn Hm) as (Hok' & Hoff & Hkey & Hcov).
      destruct (IH (mergeTwoLocks current next)) as [(H1 & H2 & H3) H4].
      * constructor; [|exact Hr]. split; [exact Hok'|]. rewrite Hkey. exact Hk.
      * constructor; [exact Hs|]. eapply Forall_impl; [exact Hcr|]. unfold offset_le. intros a Ha. lia.
      * rewrite Hoff in H4. split; [|exact H4]. split; [exact H1|]. split; [exact H2|].
        intros x. rewrite H3. split.
        -- intros (l & [<-|Hl] & Hx); [apply Hcov in Hx as [Hx|Hx]|]; eexists; (split; [|exact Hx]); simpl; auto.
        -- intros (l & [<-|[<-|Hl]] & Hx).
           ++ exists (mergeTwoLocks current next). split; [left; reflexivity|apply Hcov; auto].
           ++ exists (mergeTwoLocks current next). split; [left; reflexivity|apply Hcov; auto].
           ++ exists l. split; [right; exact Hl|exact Hx].
    + pose proof (canMerge_false _ _ Hc Hn Hcn Hm) as Hgap.
      destruct (IH next Hrest) as [(H1 & H2 & H3) H4]; [constructor; assumption|].
      split.
      * split; [constructor; auto|]. split.
        -- constructor; [exact H2|]. eapply Forall_impl; [exact H4|]. unfold gap in *. intros a Ha. lia.
        -- intros x. split.
           ++ intros (f & [<-|Hf] & Hx).
              ** exists current. simpl. auto.
              ** destruct (proj1 (H3 x)) as (l & Hl & Hx'); [eauto|]. exists l. simpl in *. tauto.
           ++ intros (l & [<-|Hl] & Hx).
              ** exists current. simpl. auto.
              ** destruct (proj2 (H3 x)) as (f & Hf & Hx'); [eauto|]. exists f. simpl. auto.
      * constructor; [lia|]. eapply Forall_impl; [exact H4|]. unfold offset_le in *. intros a Ha. simpl in *. lia.
Qed.

Lemma mergeRanges_ok locks k :
  Forall (fun l => end_ok l /\ groupKey l = k) locks -> merged_of locks (mergeRanges locks) k.
Proof.
  intros H. unfold mergeRanges. pose proof (sort_by_sorted ul_Offset locks) as Hs.
  pose proof (sort_by_perm (key_lt ul_Offset) locks) as Hp.
  destruct (sort_by (key_lt ul_Offset) locks) as [|c rest].
  - apply Permutation_sym, Permutation_nil in Hp. subst. repeat split; try constructor; naive_solver.
  - assert (Hok : Forall (fun l => end_ok l /\ groupKey l = k) (c :: rest)) by (rewrite <- Hp; exact H).
    destruct (merge_sorted_ok rest c k Hok Hs) as [(H1 & H2 & H3) _].
    split; [exact H1|]. split; [exact H2|]. intros x. rewrite H3.
    split; intros (l & Hl & Hx); exists l; (split; [|exact Hx]);
      [apply (Permutation_in _ (Permutation_sym Hp))|apply (Permutation_in _ Hp)]; exact Hl.
Qed.

Lemma In_MergeLocks locks f :
  Forall end_ok locks ->
  In f (MergeLocks locks) <->
  exists k, In k (map groupKey locks) /\ In f (mergeRanges (filter (fun l => groupKey l = k) locks)).
Proof.
  intros Hok. destruct locks as [|a [|b locks]].
  - simpl. naive_solver.
  - simpl. split.
    + intros [<-|[]]. exists (groupKey a). split; [left; reflexivity|].
      rewrite filter_cons_True by reflexivity. left. reflexivity.
    + intros (k & [<-|[]] & Hf). rewrite filter_cons_True in Hf by reflexivity. exact Hf.
  - unfold MergeLocks. rewrite in_flat_map. split; intros (k & Hk & Hf); exists k; (split; [|exact Hf]).
    + rewrite <- list_elem_of_In, elem_of_remove_dups, list_elem_of_In in Hk. exact Hk.
    + apply list_elem_of_In, elem_of_remove_dups, list_elem_of_In. exact Hk.
Qed.

(** Merging loses and invents nothing: per owner, type and file, the merged
    locks cover exactly the bytes the input locks cover, and no two of them
    overlap or touch. *)
Theorem MergeLocks_exact locks :
  Forall end_ok locks ->
  Forall end_ok (MergeLocks locks) /\
  (forall k x, (exists f, In f (MergeLocks locks) /\ groupKey f = k /\ ul_covers f x) <->
               (exists l, In l locks /\ groupKey l = k /\ ul_covers l x)) /\
  (forall k, StronglySorted gap (mergeRanges (filter (fun l => groupKey l = k) locks))).
Proof.
  intros Hok.
  assert (Hgroup : forall k, merged_of (filter (fun l => groupKey l = k) locks)
            (mergeRanges (filter (fun l => groupKey l = k) locks)) k).
  { intros k. apply mergeRanges_ok, Forall_forall. intros l Hl. apply list_elem_of_filter in Hl as [Hk Hl].
    split; [|exact Hk]. rewrite Forall_forall in Hok. apply Hok, Hl. }
  split; [|split].
  - apply List.Forall_forall. intros f Hf. apply In_MergeLocks in Hf as (k & _ & Hf); [|exact Hok].
    destruct (Hgroup k) as (H1 & _ & _). rewrite List.Forall_forall in H1. apply H1, Hf.
  - intros k x. destruct (Hgroup k) as (H1 & _ & H3). rewrite List.Forall_forall in H1. split.
    + intros (f & Hf & Hk & Hx). apply In_MergeLocks in Hf as (k' & _ & Hf); [|exact Hok].
      assert (k' = k) as ->.
      { destruct (Hgroup k') as (H1' & _). rewrite List.Forall_forall in H1'.
        destruct (H1' f Hf) as [_ Hk']. congruence. }
      destruct (proj1 (H3 x)) as (l & Hl & Hx'); [eauto|].
      apply list_elem_of_In, list_elem_of_filter in Hl as [Hk' Hl]. exists l. rewrite <- list_elem_of_In. auto.
    + intros (l & Hl & Hk & Hx).
      destruct (proj2 (H3 x)) as (f & Hf & Hx').
      { exists l. split; [|exact Hx]. apply list_elem_of_In, list_elem_of_filter. rewrite list_elem_of_In. auto. }
      exists f. split; [|split; [apply H1, Hf|exact Hx']].
      apply In_MergeLocks; [exact Hok|]. exists k. split; [|exact Hf]. rewrite <- Hk. apply in_map, Hl.
  - intros k. apply Hgroup.
Qed.

(** ** The theorems at concrete locks *)

Definition sample_ul (owner : string) (off len : Z) (t : LockType) : UnifiedLock :=
  mkUnifiedLock ("id-" +:+ owner) (mkLockOwner owner "client" "share") "file" off len t AccessModeNone 0
    false false None None.

Definition sample_fl (openID : string) (off len : Z) (excl : bool) : FileLock :=
  mkFileLock 0 7 openID off len excl 0 EmptyString "smb:7" false EmptyString.

Ltac ranges := unfold fl_ok, end_fits, end_ok, ul_ok, range_ok, in_u64; simpl; lia.

Lemma RangesOverlap_exact_witness :
  RangesOverlap 10 10 15 0 = true <-> exists x, in_range x 10 10 /\ in_range x 15 0.
Proof. apply RangesOverlap_exact; ranges. Defined.

Lemma IsLockConflicting_exact_witness :
  IsLockConflicting (sample_fl "a" 0 10 true) (sample_fl "b" 5 10 false) = true /\
  meet (sample_fl "a" 0 10 true) (sample_fl "b" 5 10 false).
Proof.
  split; [vm_compute; reflexivity|].
  apply (IsLockConflicting_exact (sample_fl "a" 0 10 true) (sample_fl "b" 5 10 false)); try ranges.
  vm_compute. reflexivity.
Defined.

Lemma SplitLock_exact_witness :
  map ul_Offset (SplitLock "x" "y" (sample_ul "o" 0 100 LockTypeShared) 25 50) = [0; 75] /\
  Forall (fragment_of (sample_ul "o" 0 100 LockTypeShared))
    (SplitLock "x" "y" (sample_ul "o" 0 100 LockTypeShared) 25 50).
Proof.
  split; [vm_compute; reflexivity|].
  apply (SplitLock_exact "x" "y" (sample_ul "o" 0 100 LockTypeShared) 25 50); ranges.
Defined.

Lemma SplitLock_drops_top_witness :
  SplitLock "x" "y" (sample_ul "o" (2 ^ 64 - 100) 100 LockTypeExclusive) (2 ^ 64 - 100) 10 = [] /\
  (forall f x, In f (SplitLock "x" "y" (sample_ul "o" (2 ^ 64 - 100) 100 LockTypeExclusive) (2 ^ 64 - 100) 10) ->
     ul_covers f x -> x < 2 ^ 64 - 100).
Proof.
  split; [vm_compute; reflexivity|].
  apply (SplitLock_drops_top "x" "y" (sample_ul "o" (2 ^ 64 - 100) 100 LockTypeExclusive)); try ranges.
  vm_compute. reflexivity.
Defined.

Lemma MergeLocks_exact_witness :
  map ul_Length (MergeLocks [sample_ul "o" 0 10 LockTypeShared; sample_ul "o" 10 5 LockTypeShared;
                             sample_ul "o" 20 5 LockTypeShared]) = [15; 5] /\
  Forall end_ok (MergeLocks [sample_ul "o" 0 10 LockTypeShared; sample_ul "o" 10 5 LockTypeShared;
                             sample_ul "o" 20 5 LockTypeShared]).
Proof.
  split; [vm_compute; reflexivity|]. apply MergeLocks_exact. repeat constructor; ranges.
Defined.
