(* ===== verification/LockManager.v ===== *)
(** * The unified lock manager ([pkg/metadata/lock/manager.go], [indexes.go],
      [store.go], and the memory lock store)

    One [Manager] per share.  SMB byte-range locks live in [locks], NLM and
    NFSv4 byte-range locks, SMB leases and delegations in [unifiedLocks]; each
    acquisition path checks both maps.  Two reverse indexes are derived from
    [unifiedLocks], and, when a lock store is attached, every mutation is
    mirrored into it.  Each operation holds the manager's mutex from start to
    end, so an operation is one step of the state machine below. *)

From S2P Require Import Prelude LockTypes.

(** ** Persisted records *)

Record PersistedLock := mkPersistedLock {
  pl_ID : string;
  pl_ShareName : string;
  pl_FileID : string;
  pl_OwnerID : string;
  pl_ClientID : string;
  pl_LockType : LockType;
  pl_Offset : Z;
  pl_Length : Z;
  pl_IsZeroByte : bool;
  pl_IsLegacyByteRange : bool;
  pl_AccessMode : AccessMode;
  pl_AcquiredAt : Z;
  pl_ServerEpoch : Z;
  pl_LeaseKey : list Z;
  pl_LeaseState : Z;
  pl_LeaseEpoch : Z;
  pl_BreakToState : Z;
  pl_BreakingToRequired : Z;
  pl_Breaking : bool;
  pl_BreakStarted : Z;
  pl_ParentLeaseKey : list Z;
  pl_IsDirectory : bool;
  pl_IsTraditionalOplock : bool;
  pl_DelegationID : string;
  pl_DelegType : DelegationType;
  pl_DelegBreaking : bool;
  pl_DelegRecalled : bool;
  pl_DelegRevoked : bool;
  pl_DelegNotificationMask : Z;
}.

Definition zeroKey : list Z := repeat 0 16.

Definition set_ShareName (s : string) (p : PersistedLock) : PersistedLock :=
  mkPersistedLock (pl_ID p) s (pl_FileID p) (pl_OwnerID p) (pl_ClientID p) (pl_LockType p) (pl_Offset p)
    (pl_Length p) (pl_IsZeroByte p) (pl_IsLegacyByteRange p) (pl_AccessMode p) (pl_AcquiredAt p)
    (pl_ServerEpoch p) (pl_LeaseKey p) (pl_LeaseState p) (pl_LeaseEpoch p) (pl_BreakToState p)
    (pl_BreakingToRequired p) (pl_Breaking p) (pl_BreakStarted p) (pl_ParentLeaseKey p) (pl_IsDirectory p)
    (pl_IsTraditionalOplock p) (pl_DelegationID p) (pl_DelegType p) (pl_DelegBreaking p) (pl_DelegRecalled p)
    (pl_DelegRevoked p) (pl_DelegNotificationMask p).

(** A zero time is [0]; an absent lease or delegation leaves its fields zero. *)
Definition ToPersistedLock (lock : UnifiedLock) (epoch : Z) : PersistedLock :=
  let base := mkPersistedLock (ul_ID lock) (lo_ShareName (ul_Owner lock)) (ul_FileHandle lock)
    (ul_owner lock) (lo_ClientID (ul_Owner lock)) (ul_Type lock) (ul_Offset lock) (ul_Length lock)
    false false (ul_AccessMode lock) (ul_AcquiredAt lock) epoch in
  match ul_Lease lock with
  | Some l =>
    base (LeaseKey l) (LeaseState l) (Epoch l) (BreakToState l) (BreakingToRequired l) (Breaking l)
      (if Breaking l then BreakStarted l else 0)
      (if bool_decide (ParentLeaseKey l = zeroKey) then [] else ParentLeaseKey l)
      (IsDirectory l) (IsTraditionalOplock l) EmptyString DelegTypeRead false false false 0
  | None =>
    match ul_Delegation lock with
    | Some d => base [] 0 0 0 0 false 0 [] (dg_IsDirectory d) false (DelegationID d) (DelegType d)
                  (dg_Breaking d) (Recalled d) (Revoked d) (NotificationMask d)
    | None => base [] 0 0 0 0 false 0 [] false false EmptyString DelegTypeRead false false false 0
    end
  end.

Definition FromPersistedLock (pl : PersistedLock) : UnifiedLock :=
  let lease :=
    if (length (pl_LeaseKey pl) =? 16)%nat then
      let parent := if (length (pl_ParentLeaseKey pl) =? 16)%nat then pl_ParentLeaseKey pl else zeroKey in
      let required :=
        if pl_BreakingToRequired pl =? 0
        then (if pl_Breaking pl then pl_BreakToState pl else pl_LeaseState pl)
        else pl_BreakingToRequired pl in
      let strip s := if pl_IsDirectory pl then s .&^ LeaseStateWrite else s in
      Some (mkOpLock (pl_LeaseKey pl) (strip (pl_LeaseState pl)) (strip (pl_BreakToState pl)) (strip required)
              (pl_Breaking pl) false (pl_LeaseEpoch pl) (pl_BreakStarted pl) false parent (pl_IsDirectory pl)
              (pl_IsTraditionalOplock pl) false BreakReasonUnspecified)
    else None in
  let deleg :=
    if bool_decide (pl_DelegationID pl <> EmptyString) then
      Some (mkDelegation (pl_DelegationID pl) (pl_DelegType pl) (pl_IsDirectory pl) (pl_ClientID pl)
              (pl_ShareName pl) (pl_DelegBreaking pl) 0 (pl_DelegRecalled pl) (pl_DelegRevoked pl)
              (pl_DelegNotificationMask pl))
    else None in
  mkUnifiedLock (pl_ID pl) (mkLockOwner (pl_OwnerID pl) (pl_ClientID pl) (pl_ShareName pl)) (pl_FileID pl)
    (pl_Offset pl) (pl_Length pl) (pl_LockType pl) (pl_AccessMode pl) (pl_AcquiredAt pl) false false lease deleg.

Definition sessionIDFromOwnerID (ownerID : string) : option Z :=
  match cut_prefix "session:" ownerID with
  | None => None
  | Some digits => parse_uint digits 64
  end.

Definition fileLockFromPersisted (pl : PersistedLock) : FileLock :=
  let mk sid openID := mkFileLock 0 sid openID (pl_Offset pl) (pl_Length pl)
    (bool_decide (pl_LockType pl = LockTypeExclusive)) (pl_AcquiredAt pl) EmptyString (pl_ClientID pl)
    (pl_IsZeroByte pl) (pl_ID pl) in
  match sessionIDFromOwnerID (pl_OwnerID pl) with
  | Some sid => mk sid EmptyString
  | None => mk 0 (pl_OwnerID pl)
  end.

(** ** State *)

(** The reference-counted sets of handle keys, per lease key or client. *)
Abbreviation refs K := (gmap K (gmap string Z)).

Record Manager := mkManager {
  locks : gmap string (list FileLock);
  unifiedLocks : gmap string (list UnifiedLock);
  leaseKeyIndex : refs (list Z);
  clientHandleIndex : refs string;
  lockStore : option (gmap string PersistedLock);
  epoch : Z;
  shareName : string;
}.

Definition newBaseManager : Manager := mkManager ∅ ∅ ∅ ∅ None 0 EmptyString.

Definition with_locks (m : Manager) (x : gmap string (list FileLock)) : Manager :=
  mkManager x (unifiedLocks m) (leaseKeyIndex m) (clientHandleIndex m) (lockStore m) (epoch m) (shareName m).
Definition with_unified (m : Manager) (x : gmap string (list UnifiedLock)) : Manager :=
  mkManager (locks m) x (leaseKeyIndex m) (clientHandleIndex m) (lockStore m) (epoch m) (shareName m).
Definition with_indexes (m : Manager) (a : refs (list Z)) (b : refs string) : Manager :=
  mkManager (locks m) (unifiedLocks m) a b (lockStore m) (epoch m) (shareName m).
Definition with_store (m : Manager) (s : option (gmap string PersistedLock)) : Manager :=
  mkManager (locks m) (unifiedLocks m) (leaseKeyIndex m) (clientHandleIndex m) s (epoch m) (shareName m).

Definition SetLockStore (m : Manager) (s : gmap string PersistedLock) : Manager := with_store m (Some s).
Definition SetEpoch (m : Manager) (e : Z) : Manager :=
  mkManager (locks m) (unifiedLocks m) (leaseKeyIndex m) (clientHandleIndex m) (lockStore m) e (shareName m).
Definition SetShareName (m : Manager) (s : string) : Manager :=
  mkManager (locks m) (unifiedLocks m) (leaseKeyIndex m) (clientHandleIndex m) (lockStore m) (epoch m) s.

(** [m[h]] on a map of slices: the zero value is the empty slice. *)
Definition bucket {A} (m : gmap string (list A)) (h : string) : list A := default [] (m !! h).

(** "Update or clean up": an emptied bucket is deleted. *)
Definition set_bucket {A} (m : gmap string (list A)) (h : string) (l : list A) : gmap string (list A) :=
  match l with [] => delete h m | _ => <[h := l]> m end.

Inductive StoreError :=
  | ErrLocked (conflictOwner : string)
  | ErrLockNotFound
  | ErrLockConflict (reason conflictOwner : string)
  | ErrDelegation (message : string).

(** ** Reverse indexes *)

Definition refs_add {K} `{Countable K} (m : refs K) (k : K) (h : string) : refs K :=
  let b := default ∅ (m !! k) in <[k := <[h := default 0 (b !! h) + 1]> b]> m.

Definition refs_remove {K} `{Countable K} (m : refs K) (k : K) (h : string) : refs K :=
  match m !! k with
  | None => m
  | Some b =>
    let n := default 0 (b !! h) in
    if n >? 1 then <[k := <[h := n - 1]> b]> m
    else let b' := delete h b in
         if bool_decide (b' = ∅) then delete k m else <[k := b']> m
  end.

Definition indexAddLockLocked (m : Manager) (h : string) (l : UnifiedLock) : Manager :=
  let li := match ul_Lease l with Some le => refs_add (leaseKeyIndex m) (LeaseKey le) h | None => leaseKeyIndex m end in
  let cid := lo_ClientID (ul_Owner l) in
  let ci := if bool_decide (cid <> EmptyString) then refs_add (clientHandleIndex m) cid h else clientHandleIndex m in
  with_indexes m li ci.

Definition indexRemoveLockLocked (m : Manager) (h : string) (l : UnifiedLock) : Manager :=
  let li := match ul_Lease l with Some le => refs_remove (leaseKeyIndex m) (LeaseKey le) h | None => leaseKeyIndex m end in
  let cid := lo_ClientID (ul_Owner l) in
  let ci := if bool_decide (cid <> EmptyString) then refs_remove (clientHandleIndex m) cid h else clientHandleIndex m in
  with_indexes m li ci.

Definition reindexHandleLocked (m : Manager) (h : string) (old : list UnifiedLock) : Manager :=
  let m := fold_left (fun m l => indexRemoveLockLocked m h l) old m in
  fold_left (fun m l => indexAddLockLocked m h l) (bucket (unifiedLocks m) h) m.

(** ** The lock store: the memory implementation, keyed by record ID *)

Definition PutLock (s : gmap string PersistedLock) (pl : PersistedLock) : gmap string PersistedLock :=
  <[pl_ID pl := pl]> s.
Definition DeleteLock (s : gmap string PersistedLock) (id : string) : gmap string PersistedLock := delete id s.
Definition DeleteLocksByClient (s : gmap string PersistedLock) (clientID : string) : gmap string PersistedLock :=
  filter (fun kv => pl_ClientID kv.2 <> clientID) s.
Definition DeleteLocksByFile (s : gmap string PersistedLock) (fileID : string) : gmap string PersistedLock :=
  filter (fun kv => pl_FileID kv.2 <> fileID) s.

Definition set_persistID (id : string) (fl : FileLock) : FileLock :=
  mkFileLock (fl_ID fl) (fl_SessionID fl) (fl_OpenID fl) (fl_Offset fl) (fl_Length fl) (fl_Exclusive fl)
    (fl_AcquiredAt fl) (fl_ClientAddr fl) (fl_ClientID fl) (fl_IsZeroByte fl) id.

Definition assignPersistIDLocked (uuid : string) (fl : FileLock) : FileLock :=
  if bool_decide (fl_persistID fl <> EmptyString) then fl else set_persistID uuid fl.

Definition fileLockToPersisted (m : Manager) (h : string) (fl : FileLock) : PersistedLock :=
  mkPersistedLock (fl_persistID fl) (shareName m) h (lockOwnerID fl) (fl_ClientID fl)
    (if fl_Exclusive fl then LockTypeExclusive else LockTypeShared) (fl_Offset fl) (fl_Length fl)
    (fl_IsZeroByte fl) true AccessModeNone (fl_AcquiredAt fl) (epoch m) [] 0 0 0 0 false 0 [] false false
    EmptyString DelegTypeRead false false false 0.

Definition unifiedToPersisted (m : Manager) (ul : UnifiedLock) : PersistedLock :=
  let pl := ToPersistedLock ul (epoch m) in
  if bool_decide (shareName m <> EmptyString) then set_ShareName (shareName m) pl else pl.

Definition persistFileLockLocked (m : Manager) (h : string) (fl : FileLock) : Manager :=
  match lockStore m with None => m | Some s => with_store m (Some (PutLock s (fileLockToPersisted m h fl))) end.

Definition deleteFileLockLocked (m : Manager) (fl : FileLock) : Manager :=
  match lockStore m with
  | None => m
  | Some s => if bool_decide (fl_persistID fl = EmptyString) then m
              else with_store m (Some (DeleteLock s (fl_persistID fl)))
  end.

Definition persistUnifiedLockLocked (m : Manager) (ul : UnifiedLock) : Manager :=
  match lockStore m with None => m | Some s => with_store m (Some (PutLock s (unifiedToPersisted m ul))) end.

Definition deleteUnifiedLockLocked (m : Manager) (ul : UnifiedLock) : Manager :=
  match lockStore m with None => m | Some s => with_store m (Some (DeleteLock s (ul_ID ul))) end.

(** ** SMB byte-range locks

    [now] is the clock and [uuid] the identifier the operation may draw. *)

Definition same_range (fl lock : FileLock) : Prop :=
  lockOwnerID fl = lockOwnerID lock /\ fl_Offset fl = fl_Offset lock /\ fl_Length fl = fl_Length lock.

(** The update in place of a session-level re-lock. *)
Definition relock (now : Z) (uuid : string) (lock e : FileLock) : FileLock :=
  assignPersistIDLocked uuid
    (mkFileLock (fl_ID lock) (fl_SessionID e) (fl_OpenID e) (fl_Offset e) (fl_Length e) (fl_Exclusive lock)
       now (fl_ClientAddr e) (fl_ClientID e) (fl_IsZeroByte e) (fl_persistID e)).

Definition stamp (now : Z) (uuid : string) (lock : FileLock) : FileLock :=
  assignPersistIDLocked uuid
    (if fl_AcquiredAt lock =? 0
     then mkFileLock (fl_ID lock) (fl_SessionID lock) (fl_OpenID lock) (fl_Offset lock) (fl_Length lock)
            (fl_Exclusive lock) now (fl_ClientAddr lock) (fl_ClientID lock) (fl_IsZeroByte lock)
            (fl_persistID lock)
     else lock).

Definition append_lock (now : Z) (uuid : string) (m : Manager) (h : string) (lock : FileLock)
    : Manager * option StoreError :=
  let lock' := stamp now uuid lock in
  let m := with_locks m (<[h := bucket (locks m) h ++ [lock']]> (locks m)) in
  (persistFileLockLocked m h lock', None).

Definition Lock (now : Z) (uuid : string) (m : Manager) (h : string) (lock : FileLock)
    : Manager * option StoreError :=
  let existing := bucket (locks m) h in
  match List.find (fun e => IsLockConflicting e lock) existing with
  | Some e => (m, Some (ErrLocked (lockOwnerID e)))
  | None =>
    match List.find (fun ul => fileLockConflictsWithUnified lock ul) (bucket (unifiedLocks m) h) with
    | Some ul => (m, Some (ErrLocked (ul_owner ul)))
    | None =>
      if bool_decide (fl_OpenID lock = EmptyString) then
        match list_find (fun e => same_range e lock) existing with
        | Some (i, e) =>
          let e' := relock now uuid lock e in
          let m := with_locks m (<[h := <[i := e']> existing]> (locks m)) in
          (persistFileLockLocked m h e', None)
        | None => append_lock now uuid m h lock
        end
      else append_lock now uuid m h lock
    end
  end.

(** The [bool] says whether the release callback fires. *)
Definition Unlock (m : Manager) (h openID : string) (sessionID offset length : Z)
    : Manager * option StoreError * bool :=
  let existing := bucket (locks m) h in
  let owner := callerOwnerID openID sessionID in
  match list_find (fun e => lockOwnerID e = owner /\ fl_Offset e = offset /\ fl_Length e = length) existing with
  | None => (m, Some ErrLockNotFound, false)
  | Some (i, e) =>
    let m := deleteFileLockLocked m e in
    (with_locks m (set_bucket (locks m) h (delete i existing)), None, true)
  end.

Definition unlock_all (m : Manager) (h : string) (mine : FileLock -> bool) : Manager * nat :=
  let existing := bucket (locks m) h in
  match existing with
  | [] => (m, 0%nat)
  | _ =>
    let gone := List.filter mine existing in
    let m := fold_left deleteFileLockLocked gone m in
    (with_locks m (set_bucket (locks m) h (List.filter (fun e => negb (mine e)) existing)), length gone)
  end.

Definition UnlockAllForOpen (m : Manager) (h openID : string) : Manager * nat :=
  if bool_decide (openID = EmptyString) then (m, 0%nat)
  else unlock_all m h (fun e => bool_decide (fl_OpenID e = openID)).

Definition UnlockAllForSession (m : Manager) (h : string) (sessionID : Z) : Manager * nat :=
  unlock_all m h (fun e => fl_SessionID e =? sessionID).

Definition TestLock (m : Manager) (h : string) (lock : FileLock) : option LockConflict :=
  match List.find (fun e => IsLockConflicting e lock) (bucket (locks m) h) with
  | Some e => Some (conflictFrom e)
  | None =>
    match List.find (fun ul => fileLockConflictsWithUnified lock ul) (bucket (unifiedLocks m) h) with
    | Some ul => Some (conflictFromUnified ul)
    | None => None
    end
  end.

Definition TestLockByParams (m : Manager) (h : string) (sessionID offset length : Z) (exclusive : bool)
    : bool * option LockConflict :=
  match TestLock m h (mkFileLock 0 sessionID EmptyString offset length exclusive 0 EmptyString EmptyString
                        false EmptyString) with
  | Some c => (false, Some c)
  | None => (true, None)
  end.

Definition CheckForIO (m : Manager) (h openID : string) (sessionID offset length : Z) (isWrite : bool)
    : option LockConflict :=
  match List.find (fun e => CheckIOConflict e openID sessionID offset length isWrite) (bucket (locks m) h) with
  | Some e => Some (conflictFrom e)
  | None =>
    match List.find (fun ul => unifiedLockBlocksIO ul offset length isWrite) (bucket (unifiedLocks m) h) with
    | Some ul => Some (conflictFromUnified ul)
    | None => None
    end
  end.

Definition ListLocks (m : Manager) (h : string) : list FileLock := bucket (locks m) h.

Definition RemoveFileLocks (m : Manager) (h : string) : Manager := with_locks m (delete h (locks m)).

(** ** NLM and NFSv4 byte-range locks *)

Definition same_unified (el lock : UnifiedLock) : Prop :=
  ul_owner el = ul_owner lock /\ ul_Offset el = ul_Offset lock /\ ul_Length el = ul_Length lock.

Definition AddUnifiedLock (now : Z) (m : Manager) (h : string) (lock : UnifiedLock)
    : Manager * option StoreError :=
  let existing := bucket (unifiedLocks m) h in
  match List.find (fun el => ConflictsWith lock el) existing with
  | Some el => (m, Some (ErrLockConflict "lock conflict" (ul_owner el)))
  | None =>
    match (if negb (IsLease lock) && negb (IsDelegation lock)
           then List.find (fun fl => fileLockConflictsWithUnified fl lock) (bucket (locks m) h) else None) with
    | Some fl => (m, Some (ErrLockConflict "cross-protocol byte-range conflict" (lockOwnerID fl)))
    | None =>
      match list_find (fun el => same_unified el lock) existing with
      | Some (i, el) =>
        let el' := set_AcquiredAt now (set_Type (ul_Type lock) el) in
        let m := with_unified m (<[h := <[i := el']> existing]> (unifiedLocks m)) in
        (persistUnifiedLockLocked m el', None)
      | None =>
        let lock' := if ul_AcquiredAt lock =? 0 then set_AcquiredAt now lock else lock in
        let m := with_unified m (<[h := existing ++ [lock']]> (unifiedLocks m)) in
        (persistUnifiedLockLocked (indexAddLockLocked m h lock') lock', None)
      end
    end
  end.

Definition TestUnifiedLock (m : Manager) (h : string) (want : UnifiedLock) : option UnifiedLockConflict :=
  match List.find (fun el => ConflictsWith want el) (bucket (unifiedLocks m) h) with
  | Some el => Some (mkUnifiedLockConflict el "lock conflict")
  | None =>
    if negb (IsLease want) && negb (IsDelegation want) then
      match List.find (fun fl => fileLockConflictsWithUnified fl want) (bucket (locks m) h) with
      | Some fl => Some (unifiedConflictFromFileLock fl)
      | None => None
      end
    else None
  end.

(** The loop of [RemoveUnifiedLock]; [uuids] is the supply of [uuid.New]. *)
Fixpoint remove_loop (uuids : nat -> string) (i : nat) (owner : string) (offset length : Z)
    (m : Manager) (ls : list UnifiedLock) : Manager * list UnifiedLock * bool :=
  match ls with
  | [] => (m, [], false)
  | lock :: ls =>
    if bool_decide (ul_owner lock <> owner) || negb (Overlaps lock offset length) then
      let '(m, kept, found) := remove_loop uuids (S i) owner offset length m ls in (m, lock :: kept, found)
    else
      let frags := SplitLock (uuids (2 * i)%nat) (uuids (2 * i + 1)%nat) lock offset length in
      let m := fold_left persistUnifiedLockLocked frags (deleteUnifiedLockLocked m lock) in
      let '(m, kept, _) := remove_loop uuids (S i) owner offset length m ls in (m, frags ++ kept, true)
  end.

Definition RemoveUnifiedLock (uuids : nat -> string) (m : Manager) (h : string) (owner : LockOwner)
    (offset length : Z) : Manager * option StoreError :=
  let existing := bucket (unifiedLocks m) h in
  match existing with
  | [] => (m, Some ErrLockNotFound)
  | _ =>
    let '(m', newLocks, found) := remove_loop uuids 0 (OwnerID owner) offset length m existing in
    if found then
      let m' := with_unified m' (set_bucket (unifiedLocks m') h newLocks) in
      (reindexHandleLocked m' h existing, None)
    else (m, Some ErrLockNotFound)
  end.

Definition UpgradeLock (m : Manager) (h : string) (owner : LockOwner) (offset length : Z)
    : Manager * (StoreError + UnifiedLock) :=
  let ls := bucket (unifiedLocks m) h in
  match list_find (fun l => ul_owner l = OwnerID owner /\ ul_Type l = LockTypeShared /\
                            Overlaps l offset length = true) ls with
  | None =>
    match List.find (fun l => bool_decide (ul_owner l = OwnerID owner) && IsExclusive l &&
                              Overlaps l offset length) ls with
    | Some l => (m, inr l)
    | None => (m, inl ErrLockNotFound)
    end
  | Some (i, own) =>
    match List.find (fun l => bool_decide (ul_owner l <> OwnerID owner) && Overlaps l offset length) ls with
    | Some l => (m, inl (ErrLockConflict "other reader exists on range" (ul_owner l)))
    | None =>
      let own' := set_Type LockTypeExclusive own in
      let m := with_unified m (<[h := <[i := own']> ls]> (unifiedLocks m)) in
      (persistUnifiedLockLocked m own', inr own')
    end
  end.

Definition ListUnifiedLocks (m : Manager) (h : string) : list UnifiedLock := bucket (unifiedLocks m) h.

Definition GetUnifiedLock (m : Manager) (h : string) (owner : LockOwner) (offset length : Z)
    : StoreError + UnifiedLock :=
  match List.find (fun l => bool_decide (ul_owner l = OwnerID owner) && (ul_Offset l =? offset) &&
                            (ul_Length l =? length)) (bucket (unifiedLocks m) h) with
  | Some l => inr l
  | None => inl ErrLockNotFound
  end.

(** The break-wait channels it also clears are not modelled. *)
Definition RemoveFileUnifiedLocks (m : Manager) (h : string) : Manager :=
  let old := bucket (unifiedLocks m) h in
  reindexHandleLocked (with_unified m (delete h (unifiedLocks m))) h old.

Definition RemoveAllLocks (m : Manager) (h : string) : Manager :=
  let m := with_locks m (delete h (locks m)) in
  let m := RemoveFileUnifiedLocks m h in
  match lockStore m with None => m | Some s => with_store m (Some (DeleteLocksByFile s h)) end.

(** Go visits the client's handle keys in an unspecified order. *)
Definition RemoveClientLocks (m : Manager) (clientID : string) : Manager :=
  let keys := (map_to_list (default ∅ (clientHandleIndex m !! clientID))).*1 in
  let m := fold_left (fun m h =>
    let ls := bucket (unifiedLocks m) h in
    let rest := List.filter (fun l => negb (bool_decide (lo_ClientID (ul_Owner l) = clientID))) ls in
    reindexHandleLocked (with_unified m (set_bucket (unifiedLocks m) h rest)) h ls) keys m in
  match lockStore m with None => m | Some s => with_store m (Some (DeleteLocksByClient s clientID)) end.

Definition release_bucket (prefix h : string) (m : Manager) : Manager * nat :=
  let ls := bucket (unifiedLocks m) h in
  let gone := List.filter (fun l => has_prefix (ul_owner l) prefix) ls in
  let m' := fold_left deleteUnifiedLockLocked gone m in
  match gone with
  | [] => (m', 0%nat)
  | _ =>
    let rest := List.filter (fun l => negb (has_prefix (ul_owner l) prefix)) ls in
    (reindexHandleLocked (with_unified m' (set_bucket (unifiedLocks m') h rest)) h ls, length gone)
  end.

Definition ReleaseByOwnerPrefix (m : Manager) (prefix : string) : Manager * nat :=
  fold_left (fun '(m, n) h => let '(m, k) := release_bucket prefix h m in (m, (n + k)%nat))
    (map_to_list (unifiedLocks m)).*1 (m, 0%nat).

(** ** Leases and delegations enter and leave the same map *)

Definition lockTypeForLeaseState (state : Z) : LockType :=
  if has state LeaseStateWrite then LockTypeExclusive else LockTypeShared.

Definition createAndGrantLease (uuid : string) (now : Z) (m : Manager) (h fileHandle : string)
    (leaseKey parentLeaseKey : list Z) (owner : LockOwner) (requestedState : Z)
    (isDirectory isTraditionalOplock : bool) : Manager :=
  let newLock := mkUnifiedLock uuid owner fileHandle 0 0 (lockTypeForLeaseState requestedState) AccessModeNone
    now false false
    (Some (mkOpLock leaseKey requestedState 0 0 false false 1 0 false parentLeaseKey isDirectory
             isTraditionalOplock false BreakReasonUnspecified)) None in
  let m := with_unified m (<[h := bucket (unifiedLocks m) h ++ [newLock]]> (unifiedLocks m)) in
  persistUnifiedLockLocked (indexAddLockLocked m h newLock) newLock.

Definition DelegationOwnerID (clientID delegationID : string) : string :=
  "deleg:" +:+ clientID +:+ ":" +:+ delegationID.

Definition delegationToLockType (dt : DelegationType) : LockType :=
  match dt with DelegTypeWrite => LockTypeExclusive | DelegTypeRead => LockTypeShared end.

(** [recentlyBroken] is the answer of the anti-storm cache for this file. *)
Definition GrantDelegation (now : Z) (recentlyBroken : bool) (m : Manager) (h : string) (d : Delegation)
    : Manager * option StoreError :=
  if recentlyBroken then (m, Some (ErrDelegation "delegation denied: file recently had caching broken"))
  else
    let ls := bucket (unifiedLocks m) h in
    if existsb (fun l => DelegationConflictsWithLease (Some d) (ul_Lease l)) ls
    then (m, Some (ErrDelegation "delegation conflicts with existing lease"))
    else
      let newLock := mkUnifiedLock (DelegationID d)
        (mkLockOwner (DelegationOwnerID (dg_ClientID d) (DelegationID d)) (dg_ClientID d) (dg_ShareName d))
        h 0 0 (delegationToLockType (DelegType d)) AccessModeNone now false false None (Some d) in
      let m := with_unified m (<[h := ls ++ [newLock]]> (unifiedLocks m)) in
      (indexAddLockLocked m h newLock, None).

Definition removeMatchingLocks (m : Manager) (h : string) (deletePersisted : bool)
    (mtch : UnifiedLock -> bool) : Manager * bool :=
  let old := bucket (unifiedLocks m) h in
  let gone := List.filter mtch old in
  match gone with
  | [] => (m, false)
  | _ =>
    let m := if deletePersisted then fold_left deleteUnifiedLockLocked gone m else m in
    let rest := List.filter (fun l => negb (mtch l)) old in
    (reindexHandleLocked (with_unified m (set_bucket (unifiedLocks m) h rest)) h old, true)
  end.

Definition is_delegation (delegationID : string) (l : UnifiedLock) : bool :=
  match ul_Delegation l with Some d => bool_decide (DelegationID d = delegationID) | None => false end.

Definition RevokeDelegation (m : Manager) (h delegationID : string) : Manager * option StoreError :=
  let '(m, found) := removeMatchingLocks m h false (is_delegation delegationID) in
  (m, if found then None else Some (ErrDelegation "delegation not found")).

Definition revokeTimedOutLease (m : Manager) (h : string) (leaseKey : list Z) : Manager :=
  fst (removeMatchingLocks m h true
    (fun l => match ul_Lease l with Some le => bool_decide (LeaseKey le = leaseKey) | None => false end)).

Definition ReturnDelegation (m : Manager) (h delegationID : string) : Manager :=
  let ls := bucket (unifiedLocks m) h in
  let rest := List.filter (fun l => negb (is_delegation delegationID l)) ls in
  reindexHandleLocked (with_unified m (set_bucket (unifiedLocks m) h rest)) h ls.

Definition GetDelegation (m : Manager) (h delegationID : string) : option Delegation :=
  match List.find (is_delegation delegationID) (bucket (unifiedLocks m) h) with
  | Some l => ul_Delegation l
  | None => None
  end.

(** ** Restart *)

Definition restore_one (m : Manager) (pl : PersistedLock) : Manager :=
  let h := pl_FileID pl in
  if pl_IsLegacyByteRange pl then
    with_locks m (<[h := bucket (locks m) h ++ [fileLockFromPersisted pl]]> (locks m))
  else
    let ul := FromPersistedLock pl in
    indexAddLockLocked (with_unified m (<[h := bucket (unifiedLocks m) h ++ [ul]]> (unifiedLocks m))) h ul.

Definition RestoreLocks (m : Manager) (persisted : list PersistedLock) : Manager :=
  fold_left restore_one persisted m.

(** ** Buckets *)

Section buckets.
Context {A : Type}.
Implicit Types (m : gmap string (list A)) (h : string) (l : list A).

Lemma bucket_insert m h l : bucket (<[h := l]> m) h = l.
Proof. unfold bucket. rewrite lookup_insert_eq. reflexivity. Qed.

Lemma bucket_insert_ne m h h' l : h <> h' -> bucket (<[h := l]> m) h' = bucket m h'.
Proof. intros. unfold bucket. rewrite lookup_insert_ne by assumption. reflexivity. Qed.

Lemma bucket_delete m h : bucket (delete h m) h = [].
Proof. unfold bucket. rewrite lookup_delete_eq. reflexivity. Qed.

Lemma bucket_delete_ne m h h' : h <> h' -> bucket (delete h m) h' = bucket m h'.
Proof. intros. unfold bucket. rewrite lookup_delete_ne by assumption. reflexivity. Qed.

Lemma bucket_set m h l : bucket (set_bucket m h l) h = l.
Proof. destruct l; simpl; [apply bucket_delete|apply bucket_insert]. Qed.

Lemma bucket_set_ne m h h' l : h <> h' -> bucket (set_bucket m h l) h' = bucket m h'.
Proof. intros. destruct l; simpl; [apply bucket_delete_ne|apply bucket_insert_ne]; assumption. Qed.
End buckets.

Create Rewrite HintDb buckets.
#[export] Hint Rewrite @bucket_insert @bucket_delete @bucket_set : buckets.
#[export] Hint Rewrite @bucket_insert_ne @bucket_delete_ne @bucket_set_ne using assumption : buckets.

(** ** Store operations and index operations touch nothing else *)

Definition store_only (m m' : Manager) : Prop := exists s, m' = with_store m s.

Lemma store_only_refl m : store_only m m.
Proof. exists (lockStore m). destruct m. reflexivity. Qed.

Lemma store_only_trans a b c : store_only a b -> store_only b c -> store_only a c.
Proof. intros [s ->] [t ->]. exists t. reflexivity. Qed.

Lemma persistFileLockLocked_store m h fl : store_only m (persistFileLockLocked m h fl).
Proof. unfold persistFileLockLocked. case_match; [eexists; reflexivity|apply store_only_refl]. Qed.

Lemma deleteFileLockLocked_store m fl : store_only m (deleteFileLockLocked m fl).
Proof. unfold deleteFileLockLocked. repeat case_match; try apply store_only_refl. eexists; reflexivity. Qed.

Lemma persistUnifiedLockLocked_store m ul : store_only m (persistUnifiedLockLocked m ul).
Proof. unfold persistUnifiedLockLocked. case_match; [eexists; reflexivity|apply store_only_refl]. Qed.

Lemma deleteUnifiedLockLocked_store m ul : store_only m (deleteUnifiedLockLocked m ul).
Proof. unfold deleteUnifiedLockLocked. case_match; [eexists; reflexivity|apply store_only_refl]. Qed.

Lemma fold_store_only {A} (f : Manager -> A -> Manager) l m :
  (forall m x, store_only m (f m x)) -> store_only m (fold_left f l m).
Proof.
  intros Hf. revert m. induction l as [|x l IH]; intros m; simpl; [apply store_only_refl|].
  eapply store_only_trans; [apply Hf|apply IH].
Qed.

#[export] Hint Resolve store_only_refl persistFileLockLocked_store deleteFileLockLocked_store
  persistUnifiedLockLocked_store deleteUnifiedLockLocked_store : go.

Definition client_key (l : UnifiedLock) : option string :=
  let cid := lo_ClientID (ul_Owner l) in if bool_decide (cid <> EmptyString) then Some cid else None.

Definition lease_key (l : UnifiedLock) : option (list Z) := option_map LeaseKey (ul_Lease l).

Definition index_add {K} `{Countable K} (key : UnifiedLock -> option K) (h : string) (idx : refs K)
    (l : UnifiedLock) : refs K :=
  match key l with Some k => refs_add idx k h | None => idx end.

Definition index_remove {K} `{Countable K} (key : UnifiedLock -> option K) (h : string) (idx : refs K)
    (l : UnifiedLock) : refs K :=
  match key l with Some k => refs_remove idx k h | None => idx end.

Definition reindex {K} `{Countable K} (key : UnifiedLock -> option K) (h : string) (old new : list UnifiedLock)
    (idx : refs K) : refs K :=
  fold_left (index_add key h) new (fold_left (index_remove key h) old idx).

Lemma indexAdd_eq m h l :
  indexAddLockLocked m h l =
  with_indexes m (index_add lease_key h (leaseKeyIndex m) l) (index_add client_key h (clientHandleIndex m) l).
Proof.
  unfold indexAddLockLocked, index_add, lease_key, client_key.
  destruct (ul_Lease l); simpl; case_bool_decide; reflexivity.
Qed.

Lemma indexRemove_eq m h l :
  indexRemoveLockLocked m h l =
  with_indexes m (index_remove lease_key h (leaseKeyIndex m) l) (index_remove client_key h (clientHandleIndex m) l).
Proof.
  unfold indexRemoveLockLocked, index_remove, lease_key, client_key.
  destruct (ul_Lease l); simpl; case_bool_decide; reflexivity.
Qed.

Lemma fold_indexRemove m h ls :
  fold_left (fun m l => indexRemoveLockLocked m h l) ls m =
  with_indexes m (fold_left (index_remove lease_key h) ls (leaseKeyIndex m))
    (fold_left (index_remove client_key h) ls (clientHandleIndex m)).
Proof.
  revert m. induction ls as [|l ls IH]; intros m; simpl; [destruct m; reflexivity|].
  rewrite IH, indexRemove_eq. reflexivity.
Qed.

Lemma fold_indexAdd m h ls :
  fold_left (fun m l => indexAddLockLocked m h l) ls m =
  with_indexes m (fold_left (index_add lease_key h) ls (leaseKeyIndex m))
    (fold_left (index_add client_key h) ls (clientHandleIndex m)).
Proof.
  revert m. induction ls as [|l ls IH]; intros m; simpl; [destruct m; reflexivity|].
  rewrite IH, indexAdd_eq. reflexivity.
Qed.

Lemma reindex_eq m h old :
  reindexHandleLocked m h old =
  with_indexes m (reindex lease_key h old (bucket (unifiedLocks m) h) (leaseKeyIndex m))
    (reindex client_key h old (bucket (unifiedLocks m) h) (clientHandleIndex m)).
Proof. unfold reindexHandleLocked. rewrite fold_indexRemove, fold_indexAdd. reflexivity. Qed.

(** ** Mutual exclusion

    Two held locks are compatible when they share no byte, or are both shared,
    or belong to one owner.  Leases and delegations are caching rights, settled
    by breaking them, and take no part. *)

Definition byte_range (ul : UnifiedLock) : Prop := IsLease ul = false /\ IsDelegation ul = false.

Definition fl_compat (a b : FileLock) : Prop :=
  fl_IsZeroByte a = true \/ fl_IsZeroByte b = true \/
  RangesOverlap (fl_Offset a) (fl_Length a) (fl_Offset b) (fl_Length b) = false \/
  (fl_Exclusive a = false /\ fl_Exclusive b = false) \/ lockOwnerID a = lockOwnerID b.

Definition ul_compat (a b : UnifiedLock) : Prop :=
  byte_range a -> byte_range b ->
  RangesOverlap (ul_Offset a) (ul_Length a) (ul_Offset b) (ul_Length b) = false \/
  (ul_Type a = LockTypeShared /\ ul_Type b = LockTypeShared) \/ ul_owner a = ul_owner b.

Definition x_compat (fl : FileLock) (ul : UnifiedLock) : Prop := fileLockConflictsWithUnified fl ul = false.

Record bucket_ok (fls : list FileLock) (uls : list UnifiedLock) : Prop := mkBucketOk {
  bo_fl : Forall fl_ok fls;
  bo_ul : Forall ul_ok uls;
  bo_ff : ForallOrdPairs fl_compat fls;
  bo_uu : ForallOrdPairs ul_compat uls;
  bo_fu : forall fl ul, In fl fls -> In ul uls -> x_compat fl ul;
}.

Lemma fl_compat_sym a b : fl_compat a b -> fl_compat b a.
Proof. unfold fl_compat. rewrite (overlap_sym (fl_Offset b)). intuition. Qed.

Lemma ul_compat_sym a b : ul_compat a b -> ul_compat b a.
Proof. unfold ul_compat. rewrite (overlap_sym (ul_Offset b)). intuition. Qed.

Section ord_pairs.
Context {A : Type} (R : A -> A -> Prop).

Lemma ForallOrdPairs_sublist l k : sublist k l -> ForallOrdPairs R l -> ForallOrdPairs R k.
Proof.
  induction 1 as [|x k l Hs IH|x k l Hs IH]; intros H; [exact H| |]; inversion_clear H; auto.
  constructor; [|auto]. apply List.Forall_forall. intros y Hy.
  rewrite List.Forall_forall in H0. apply H0. apply list_elem_of_In.
  eapply elem_of_sublist; [apply list_elem_of_In; exact Hy|exact Hs].
Qed.

Lemma ForallOrdPairs_snoc l x : ForallOrdPairs R l -> (forall y, In y l -> R y x) -> ForallOrdPairs R (l ++ [x]).
Proof.
  induction 1 as [|y l Hy Hl IH]; intros Hx; simpl; [repeat constructor|].
  constructor; [|apply IH; intros; apply Hx; simpl; auto].
  apply Forall_app. split; [exact Hy|]. constructor; [apply Hx; left; reflexivity|constructor].
Qed.

Lemma ForallOrdPairs_insert (Rsym : forall a b, R a b -> R b a) l i x :
  ForallOrdPairs R l -> (forall y, In y l -> R y x) -> ForallOrdPairs R (<[i := x]> l).
Proof.
  intros H. revert i. induction H as [|y l Hy Hl IH]; intros i Hx; [destruct i; constructor|].
  destruct i as [|i]; simpl.
  - constructor; [|exact Hl]. apply List.Forall_forall. intros z Hz. apply Rsym, Hx. right. exact Hz.
  - constructor; [|apply IH; intros; apply Hx; right; assumption].
    apply Forall_insert; [exact Hy|]. apply Hx. left. reflexivity.
Qed.

Lemma ForallOrdPairs_lookup (Rsym : forall a b, R a b -> R b a) l i j a b :
  ForallOrdPairs R l -> i <> j -> l !! i = Some a -> l !! j = Some b -> R a b.
Proof.
  intros H. revert i j. induction H as [|y l Hy Hl IH]; intros [|i] [|j] Hij Ha Hb; simpl in *; try congruence.
  - injection Ha as ->. eapply Forall_lookup_1; eassumption.
  - injection Hb as ->. apply Rsym. eapply Forall_lookup_1; eassumption.
  - apply (IH i j); congruence.
Qed.
End ord_pairs.

Lemma In_insert {A} (l : list A) i x y : In y (<[i := x]> l) -> y = x \/ In y l.
Proof.
  rewrite <- !list_elem_of_In. intros Hy. apply list_elem_of_lookup in Hy as [j Hj].
  apply list_lookup_insert_Some in Hj as [(_ & -> & _)|(_ & Hj)]; [left; reflexivity|right].
  eapply list_elem_of_lookup_2. exact Hj.
Qed.

Lemma In_sublist {A} (k l : list A) x : sublist k l -> In x k -> In x l.
Proof. rewrite <- !list_elem_of_In. intros Hs Hx. eapply elem_of_sublist; eassumption. Qed.

Lemma sublist_List_filter {A} (f : A -> bool) l : sublist (List.filter f l) l.
Proof. induction l as [|x l IH]; simpl; [constructor|]. destruct (f x); constructor; exact IH. Qed.

Lemma find_none_In {A} (f : A -> bool) l x : List.find f l = None -> In x l -> f x = false.
Proof. intros H Hx. eapply List.find_none; eassumption. Qed.

Lemma bucket_ok_sublist fls uls fls' uls' :
  bucket_ok fls uls -> sublist fls' fls -> sublist uls' uls -> bucket_ok fls' uls'.
Proof.
  intros [H1 H2 H3 H4 H5] Sf Su. split.
  - rewrite List.Forall_forall in *. intros x Hx. apply H1. eapply In_sublist; eassumption.
  - rewrite List.Forall_forall in *. intros x Hx. apply H2. eapply In_sublist; eassumption.
  - eapply ForallOrdPairs_sublist; eassumption.
  - eapply ForallOrdPairs_sublist; eassumption.
  - intros fl ul Hf Hu. apply H5; eapply In_sublist; eassumption.
Qed.

(** *** What the acquisition checks establish *)

Lemma not_conflicting_compat e r : IsLockConflicting e r = false -> fl_compat e r.
Proof.
  unfold IsLockConflicting, locksOverlap, fl_compat. intros H.
  destruct (fl_IsZeroByte e); [auto|]. destruct (fl_IsZeroByte r); [auto|]. simpl in H.
  destruct (RangesOverlap _ _ _ _); [|auto]. simpl in H.
  destruct (fl_Exclusive e), (fl_Exclusive r); simpl in H; auto 6;
    case_bool_decide; simpl in H; try discriminate; auto 6.
Qed.

Lemma not_conflicting_ul_compat l el : ConflictsWith l el = false -> ul_compat el l.
Proof.
  unfold ConflictsWith, ul_compat, byte_range, IsLease, IsDelegation, IsShared. intros H [Ha _] [Hb _].
  destruct (accessModesConflict _ _); [discriminate|].
  destruct (ul_Lease l); [discriminate|]. destruct (ul_Lease el); [discriminate|].
  rewrite overlap_sym. destruct (RangesOverlap _ _ _ _); [|auto]. simpl in H.
  case_bool_decide; [right; right; congruence|]. right. left.
  destruct (ul_Type l), (ul_Type el); simpl in H; try discriminate; auto.
Qed.

(** Only these parts of a lock matter. *)
Definition fl_same (a b : FileLock) : Prop :=
  fl_Offset a = fl_Offset b /\ fl_Length a = fl_Length b /\ fl_Exclusive a = fl_Exclusive b /\
  fl_IsZeroByte a = fl_IsZeroByte b /\ lockOwnerID a = lockOwnerID b.

Definition ul_same (a b : UnifiedLock) : Prop :=
  ul_Offset a = ul_Offset b /\ ul_Length a = ul_Length b /\ ul_Type a = ul_Type b /\
  ul_Lease a = ul_Lease b /\ ul_Delegation a = ul_Delegation b /\ ul_owner a = ul_owner b.

Lemma fl_compat_same e a b : fl_same a b -> fl_compat e a -> fl_compat e b.
Proof. unfold fl_same, fl_compat. intros (-> & -> & -> & -> & ->). auto. Qed.

Lemma x_compat_fl_same a b ul : fl_same a b -> x_compat a ul -> x_compat b ul.
Proof. unfold fl_same, x_compat, fileLockConflictsWithUnified. intros (-> & -> & -> & -> & _). auto. Qed.

Lemma ul_compat_same e a b : ul_same a b -> ul_compat e a -> ul_compat e b.
Proof.
  unfold ul_same, ul_compat, byte_range, IsLease, IsDelegation.
  intros (-> & -> & -> & -> & -> & ->). auto.
Qed.

Lemma x_compat_ul_same fl a b : ul_same a b -> x_compat fl a -> x_compat fl b.
Proof.
  unfold ul_same, x_compat, fileLockConflictsWithUnified, IsLease, IsDelegation, IsExclusive.
  intros (-> & -> & -> & -> & -> & _). auto.
Qed.

Lemma stamp_same now uuid l : fl_same l (stamp now uuid l).
Proof.
  unfold stamp, assignPersistIDLocked, fl_same. repeat case_match; repeat case_bool_decide; simpl;
    repeat split; reflexivity.
Qed.

(** A session-level re-lock is never zero-byte, and then the updated entry
    behaves as the request. *)
Lemma relock_compat now uuid lock e o :
  fl_IsZeroByte lock = false -> same_range e lock -> fl_compat o lock -> fl_compat o (relock now uuid lock e).
Proof.
  intros Hz (Ho & Hof & Hl). unfold relock, assignPersistIDLocked, fl_compat.
  assert (lockOwnerID (relock now uuid lock e) = lockOwnerID lock) as Hown.
  { rewrite <- Ho. unfold relock, assignPersistIDLocked. case_bool_decide; reflexivity. }
  revert Hown. unfold relock, assignPersistIDLocked.
  case_bool_decide; simpl; intros ->; rewrite Hof, Hl, Hz; intuition congruence.
Qed.

Lemma relock_x_compat now uuid lock e ul :
  fl_IsZeroByte lock = false -> same_range e lock -> x_compat lock ul -> x_compat (relock now uuid lock e) ul.
Proof.
  intros Hz (_ & Hof & Hl). unfold x_compat, fileLockConflictsWithUnified, relock, assignPersistIDLocked.
  rewrite Hz. case_bool_decide; simpl; rewrite Hof, Hl; destruct (fl_IsZeroByte e), (IsLease ul || IsDelegation ul); auto.
Qed.

Lemma relock_ok now uuid lock e : fl_ok e -> fl_ok (relock now uuid lock e).
Proof. unfold relock, assignPersistIDLocked, fl_ok. case_bool_decide; auto. Qed.

(** *** Growing and carving a bucket *)

Lemma bucket_ok_add_fl fls uls e :
  bucket_ok fls uls -> fl_ok e -> (forall o, In o fls -> fl_compat o e) ->
  (forall ul, In ul uls -> x_compat e ul) -> bucket_ok (fls ++ [e]) uls.
Proof.
  intros [H1 H2 H3 H4 H5] He Hf Hu. split; auto.
  - apply Forall_app. split; [exact H1|]. constructor; [exact He|constructor].
  - apply ForallOrdPairs_snoc; assumption.
  - intros fl ul Hin Hul. apply in_app_or in Hin as [Hin|[<-|[]]]; auto.
Qed.

Lemma bucket_ok_set_fl fls uls i e :
  bucket_ok fls uls -> fl_ok e -> (forall o, In o fls -> fl_compat o e) ->
  (forall ul, In ul uls -> x_compat e ul) -> bucket_ok (<[i := e]> fls) uls.
Proof.
  intros [H1 H2 H3 H4 H5] He Hf Hu. split; auto.
  - apply Forall_insert; assumption.
  - apply ForallOrdPairs_insert; auto. apply fl_compat_sym.
  - intros fl ul Hin Hul. apply In_insert in Hin as [->|Hin]; auto.
Qed.

Lemma bucket_ok_add_ul fls uls e :
  bucket_ok fls uls -> ul_ok e -> (forall o, In o uls -> ul_compat o e) ->
  (forall fl, In fl fls -> x_compat fl e) -> bucket_ok fls (uls ++ [e]).
Proof.
  intros [H1 H2 H3 H4 H5] He Hf Hu. split; auto.
  - apply Forall_app. split; [exact H2|]. constructor; [exact He|constructor].
  - apply ForallOrdPairs_snoc; assumption.
  - intros fl ul Hin Hul. apply in_app_or in Hul as [Hul|[<-|[]]]; auto.
Qed.

Lemma bucket_ok_set_ul fls uls i e :
  bucket_ok fls uls -> ul_ok e -> (forall o, In o uls -> ul_compat o e) ->
  (forall fl, In fl fls -> x_compat fl e) -> bucket_ok fls (<[i := e]> uls).
Proof.
  intros [H1 H2 H3 H4 H5] He Hf Hu. split; auto.
  - apply Forall_insert; assumption.
  - apply ForallOrdPairs_insert; auto. apply ul_compat_sym.
  - intros fl ul Hin Hul. apply In_insert in Hul as [->|Hul]; auto.
Qed.

Lemma within_owner l f : within l f -> ul_owner f = ul_owner l.
Proof. intros (_ & Ho & _). unfold ul_owner. now rewrite Ho. Qed.

Lemma within_overlap o1 l1 l f :
  within l f -> ul_ok l -> range_ok o1 l1 ->
  RangesOverlap o1 l1 (ul_Offset l) (ul_Length l) = false -> RangesOverlap o1 l1 (ul_Offset f) (ul_Length f) = false.
Proof.
  intros (Hf & _ & _ & _ & _ & Hc) Hl H1 Hno. apply not_true_iff_false. intros Hov.
  apply not_true_iff_false in Hno. apply Hno. rewrite overlap_iff in * by (assumption || apply Hf || apply Hl).
  destruct Hov as (x & Hx & Hx'). exists x. split; [exact Hx|]. apply Hc, Hx'.
Qed.

Lemma within_compat o l f : within l f -> ul_ok l -> ul_ok o -> ul_compat o l -> ul_compat o f.
Proof.
  intros Hw Hl Ho H. unfold ul_compat, byte_range, IsLease, IsDelegation in *. pose proof Hw as (_ & Hown & Ht & -> & -> & _).
  rewrite Ht, (within_owner _ _ Hw). intros Hb Hb'. destruct (H Hb Hb') as [Hno|Hr]; [left|right; exact Hr].
  eapply within_overlap; eauto.
Qed.

Lemma within_x_compat fl l f : within l f -> ul_ok l -> fl_ok fl -> x_compat fl l -> x_compat fl f.
Proof.
  intros Hw Hl Ho. unfold x_compat, fileLockConflictsWithUnified, IsLease, IsDelegation, IsExclusive.
  pose proof Hw as (_ & Hown & Ht & -> & -> & _). rewrite Ht.
  destruct (_ || _); [auto|]. destruct (fl_IsZeroByte fl); [auto|].
  destruct (RangesOverlap (fl_Offset fl) (fl_Length fl) (ul_Offset l) (ul_Length l)) eqn:E; simpl; intros H.
  - rewrite H. destruct (negb _); reflexivity.
  - rewrite (within_overlap _ _ _ _ Hw Hl Ho E). reflexivity.
Qed.

(** Replacing each lock by some fragments of it. *)
Inductive carved : list UnifiedLock -> list UnifiedLock -> Prop :=
  | carved_nil : carved [] []
  | carved_cons l ls frags kept :
      Forall (within l) frags -> carved ls kept -> carved (l :: ls) (frags ++ kept).

Lemma carved_In ls ls' f : carved ls ls' -> In f ls' -> exists l, In l ls /\ within l f.
Proof.
  induction 1 as [|l ls frags kept Hf Hc IH]; simpl; [tauto|]. intros Hin.
  apply in_app_or in Hin as [Hin|Hin].
  - exists l. split; [left; reflexivity|]. rewrite List.Forall_forall in Hf. auto.
  - destruct (IH Hin) as (l' & Hl' & Hw). eauto.
Qed.

Lemma ForallOrdPairs_app_intro {A} (R : A -> A -> Prop) l k :
  ForallOrdPairs R l -> ForallOrdPairs R k -> (forall x y, In x l -> In y k -> R x y) -> ForallOrdPairs R (l ++ k).
Proof.
  induction 1 as [|x l Hx Hl IH]; simpl; intros Hk H; [exact Hk|]. constructor.
  - apply Forall_app. split; [exact Hx|]. apply List.Forall_forall. intros y Hy. apply H; [left; reflexivity|exact Hy].
  - apply IH; [exact Hk|]. intros. apply H; [right|]; assumption.
Qed.

Lemma ForallOrdPairs_all {A} (R : A -> A -> Prop) l : (forall x y, In x l -> In y l -> R x y) -> ForallOrdPairs R l.
Proof.
  induction l as [|x l IH]; intros H; constructor.
  - apply List.Forall_forall. intros y Hy. apply H; [left; reflexivity|right; exact Hy].
  - apply IH. intros. apply H; right; assumption.
Qed.

Lemma carved_pairs ls ls' :
  carved ls ls' -> Forall ul_ok ls -> ForallOrdPairs ul_compat ls -> ForallOrdPairs ul_compat ls'.
Proof.
  induction 1 as [|l ls frags kept Hf Hc IH]; intros Hok Hp; [constructor|].
  apply Forall_cons in Hok as [Hl Hls]. inversion_clear Hp as [|? ? Hhead Htail].
  rewrite List.Forall_forall in Hf, Hhead, Hls.
  apply ForallOrdPairs_app_intro.
  - apply ForallOrdPairs_all. intros a b Ha Hb _ _. right. right.
    rewrite (within_owner _ _ (Hf a Ha)), (within_owner _ _ (Hf b Hb)). reflexivity.
  - apply IH; [apply List.Forall_forall; exact Hls|exact Htail].
  - intros a b Ha Hb. destruct (carved_In _ _ _ Hc Hb) as (l' & Hl' & Hw).
    eapply within_compat; [exact Hw|auto|apply (Hf a Ha)|].
    apply ul_compat_sym. eapply within_compat; [apply (Hf a Ha)|exact Hl|auto|]. apply ul_compat_sym. auto.
Qed.

Lemma bucket_ok_carved fls uls uls' : bucket_ok fls uls -> carved uls uls' -> bucket_ok fls uls'.
Proof.
  intros [H1 H2 H3 H4 H5] Hc. split; auto.
  - apply List.Forall_forall. intros f Hf. destruct (carved_In _ _ _ Hc Hf) as (l & _ & Hw). apply Hw.
  - eapply carved_pairs; eassumption.
  - intros fl f Hfl Hf. destruct (carved_In _ _ _ Hc Hf) as (l & Hl & Hw).
    rewrite List.Forall_forall in H1, H2. eapply within_x_compat; eauto.
Qed.

Lemma remove_loop_carved uuids i owner off len m ls m' kept found :
  in_u64 off -> in_u64 len -> Forall ul_ok ls ->
  remove_loop uuids i owner off len m ls = (m', kept, found) -> carved ls kept /\ store_only m m'.
Proof.
  intros Ho Hl. revert i m m' kept found.
  induction ls as [|l ls IH]; intros i m m' kept found Hok H; simpl in H.
  - injection H as <- <- <-. split; [constructor|apply store_only_refl].
  - apply Forall_cons in Hok as [Hlk Hok]. destruct (_ || _).
    + destruct (remove_loop uuids (S i) owner off len m ls) as [[m1 k1] f1] eqn:E. injection H as <- <- <-.
      destruct (IH _ _ _ _ _ Hok E) as [Hc Hs]. split; [|exact Hs].
      apply (carved_cons l ls [l] k1); [apply Forall_singleton, within_refl, Hlk|exact Hc].
    + destruct (remove_loop uuids (S i) owner off len _ ls) as [[m1 k1] f1] eqn:E. injection H as <- <- <-.
      destruct (IH _ _ _ _ _ Hok E) as [Hc Hs]. split.
      * apply carved_cons; [apply SplitLock_within; assumption|exact Hc].
      * eapply store_only_trans; [|exact Hs].
        eapply store_only_trans; [apply deleteUnifiedLockLocked_store|].
        apply fold_store_only. auto with go.
Qed.

(** ** Reachable managers

    One rule per operation that changes the maps.  What the protocol adapters
    guarantee about a request is a premise of its rule: acceptable ranges, no
    zero-byte flag on a session-level lock, and byte-range locks only through
    [AddUnifiedLock]. *)

(** [UpgradeLock] looks neither at the SMB locks nor, beyond the requested
    range, at the rest of the lock it upgrades (see
    [UpgradeLock_ignores_smb_locks]); it keeps the locks exclusive when the
    request names the whole lock and no SMB lock meets it. *)
Definition upgrade_guarded (m : Manager) (h : string) (owner : LockOwner) (offset length : Z) : Prop :=
  (forall l, In l (bucket (unifiedLocks m) h) -> ul_owner l = OwnerID owner -> Overlaps l offset length = true ->
     ul_Offset l = offset /\ ul_Length l = length) /\
  (forall fl, In fl (bucket (locks m) h) ->
     RangesOverlap (fl_Offset fl) (fl_Length fl) offset length = false).

(** The operations of the manager.  A range that is locked ends within the
    64-bit range ([fl_ok], [ul_ok]), which the comment of [RangesOverlap] leaves
    to the callers; only an SMB open takes zero-byte locks; byte-range locks
    come in through [AddUnifiedLock], leases and delegations through their own
    operations. *)
Inductive step : Manager -> Manager -> Prop :=
  | S_Lock now uuid m h lock :
      fl_ok lock -> (fl_OpenID lock = EmptyString -> fl_IsZeroByte lock = false) ->
      step m (fst (Lock now uuid m h lock))
  | S_Unlock m h openID sid off len : step m (fst (fst (Unlock m h openID sid off len)))
  | S_UnlockAllForOpen m h openID : step m (fst (UnlockAllForOpen m h openID))
  | S_UnlockAllForSession m h sid : step m (fst (UnlockAllForSession m h sid))
  | S_RemoveFileLocks m h : step m (RemoveFileLocks m h)
  | S_AddUnifiedLock now m h lock :
      ul_ok lock -> byte_range lock -> step m (fst (AddUnifiedLock now m h lock))
  | S_RemoveUnifiedLock uuids m h owner off len :
      in_u64 off -> in_u64 len -> step m (fst (RemoveUnifiedLock uuids m h owner off len))
  | S_UpgradeLock m h owner off len :
      upgrade_guarded m h owner off len -> step m (fst (UpgradeLock m h owner off len))
  | S_RemoveFileUnifiedLocks m h : step m (RemoveFileUnifiedLocks m h)
  | S_RemoveAllLocks m h : step m (RemoveAllLocks m h)
  | S_RemoveClientLocks m cid : step m (RemoveClientLocks m cid)
  | S_ReleaseByOwnerPrefix m prefix : step m (fst (ReleaseByOwnerPrefix m prefix))
  | S_Lease uuid now m h fh key parent owner state isDir isOplock :
      step m (createAndGrantLease uuid now m h fh key parent owner state isDir isOplock)
  | S_GrantDelegation now recent m h d : step m (fst (GrantDelegation now recent m h d))
  | S_RevokeDelegation m h id : step m (fst (RevokeDelegation m h id))
  | S_revokeTimedOutLease m h key : step m (revokeTimedOutLease m h key)
  | S_ReturnDelegation m h id : step m (ReturnDelegation m h id)
  | S_SetLockStore m s : step m (SetLockStore m s)
  | S_SetEpoch m e : step m (SetEpoch m e)
  | S_SetShareName m s : step m (SetShareName m s).

Inductive reachable : Manager -> Prop :=
  | R_init : reachable newBaseManager
  | R_step m m' : reachable m -> step m m' -> reachable m'.

Definition inv (m : Manager) : Prop := forall h, bucket_ok (bucket (locks m) h) (bucket (unifiedLocks m) h).

(** Every bucket of [m'] is a part of the same bucket of [m]. *)
Definition shrinks (m m' : Manager) : Prop :=
  forall h, sublist (bucket (locks m') h) (bucket (locks m) h) /\
            sublist (bucket (unifiedLocks m') h) (bucket (unifiedLocks m) h).

Lemma shrinks_refl m : shrinks m m.
Proof. intros h. split; reflexivity. Qed.

Lemma shrinks_trans a b c : shrinks a b -> shrinks b c -> shrinks a c.
Proof. intros H1 H2 h. destruct (H1 h), (H2 h). split; etransitivity; eassumption. Qed.

Lemma shrinks_inv m m' : shrinks m m' -> inv m -> inv m'.
Proof. intros Hs Hi h. destruct (Hs h). eapply bucket_ok_sublist; eauto. Qed.

Lemma shrinks_store m m' : store_only m m' -> shrinks m m'.
Proof. intros [s ->] h. split; reflexivity. Qed.

Lemma shrinks_reindex m m' h old : shrinks m m' -> shrinks m (reindexHandleLocked m' h old).
Proof. rewrite reindex_eq. intros H. exact H. Qed.

Lemma shrinks_set_locks m h l : sublist l (bucket (locks m) h) -> shrinks m (with_locks m (set_bucket (locks m) h l)).
Proof.
  intros H h'. simpl. split; [|reflexivity].
  destruct (decide (h = h')) as [<-|Hn]; autorewrite with buckets; [exact H|reflexivity].
Qed.

Lemma shrinks_set_unified m h l :
  sublist l (bucket (unifiedLocks m) h) -> shrinks m (with_unified m (set_bucket (unifiedLocks m) h l)).
Proof.
  intros H h'. simpl. split; [reflexivity|].
  destruct (decide (h = h')) as [<-|Hn]; autorewrite with buckets; [exact H|reflexivity].
Qed.

Lemma store_only_maps m m' : store_only m m' -> locks m' = locks m /\ unifiedLocks m' = unifiedLocks m.
Proof. intros [s ->]. split; reflexivity. Qed.

Lemma fold_shrinks {A} (f : Manager -> A -> Manager) l m : (forall m x, shrinks m (f m x)) -> shrinks m (fold_left f l m).
Proof.
  intros Hf. revert m. induction l as [|x l IH]; intros m; simpl; [apply shrinks_refl|].
  eapply shrinks_trans; [apply Hf|apply IH].
Qed.

(** *** Releases only shrink *)

Lemma Unlock_shrinks m h openID sid off len : shrinks m (fst (fst (Unlock m h openID sid off len))).
Proof.
  unfold Unlock. case_match; [|apply shrinks_refl]. destruct p as [i e]. simpl.
  destruct (store_only_maps _ _ (deleteFileLockLocked_store m e)) as [E _]. rewrite <- E.
  eapply shrinks_trans; [apply shrinks_store, deleteFileLockLocked_store|].
  apply shrinks_set_locks. apply sublist_delete.
Qed.

Lemma unlock_all_shrinks m h f : shrinks m (fst (unlock_all m h f)).
Proof.
  unfold unlock_all. destruct (bucket (locks m) h) as [|x l] eqn:Hb; [apply shrinks_refl|]. simpl fst.
  set (m1 := fold_left deleteFileLockLocked _ m).
  assert (Hs : store_only m m1) by (apply fold_store_only; auto with go).
  eapply shrinks_trans; [apply shrinks_store, Hs|]. apply shrinks_set_locks.
  destruct (store_only_maps _ _ Hs) as [-> _]. rewrite Hb. apply (sublist_List_filter (fun e => negb (f e)) (x :: l)).
Qed.

Lemma RemoveFileUnifiedLocks_shrinks m h : shrinks m (RemoveFileUnifiedLocks m h).
Proof.
  unfold RemoveFileUnifiedLocks. apply shrinks_reindex.
  apply (shrinks_set_unified m h []). apply sublist_nil_l.
Qed.

Lemma RemoveFileLocks_shrinks m h : shrinks m (RemoveFileLocks m h).
Proof. apply (shrinks_set_locks m h []). apply sublist_nil_l. Qed.

Lemma RemoveAllLocks_shrinks m h : shrinks m (RemoveAllLocks m h).
Proof.
  unfold RemoveAllLocks. fold (RemoveFileLocks m h).
  assert (H : shrinks m (RemoveFileUnifiedLocks (RemoveFileLocks m h) h))
    by (eapply shrinks_trans; [apply RemoveFileLocks_shrinks|apply RemoveFileUnifiedLocks_shrinks]).
  case_match; [|exact H]. exact H.
Qed.

Lemma client_sweep_shrinks cid m h :
  shrinks m (reindexHandleLocked (with_unified m (set_bucket (unifiedLocks m) h
    (List.filter (fun l => negb (bool_decide (lo_ClientID (ul_Owner l) = cid))) (bucket (unifiedLocks m) h)))) h
    (bucket (unifiedLocks m) h)).
Proof. apply shrinks_reindex, shrinks_set_unified, sublist_List_filter. Qed.

Lemma RemoveClientLocks_shrinks m cid : shrinks m (RemoveClientLocks m cid).
Proof.
  unfold RemoveClientLocks. set (keys := _.*1). set (m1 := fold_left _ keys m).
  assert (H : shrinks m m1) by (apply fold_shrinks; intros; apply client_sweep_shrinks).
  case_match; exact H.
Qed.

Lemma release_bucket_shrinks prefix h m : shrinks m (fst (release_bucket prefix h m)).
Proof.
  unfold release_bucket. set (gone := List.filter _ _). set (m1 := fold_left deleteUnifiedLockLocked gone m).
  assert (Hs : store_only m m1) by (apply fold_store_only; auto with go).
  destruct gone; [apply shrinks_store, Hs|]. simpl fst. apply shrinks_reindex.
  eapply shrinks_trans; [apply shrinks_store, Hs|]. apply shrinks_set_unified.
  destruct (store_only_maps _ _ Hs) as [_ ->]. apply sublist_List_filter.
Qed.

Lemma ReleaseByOwnerPrefix_shrinks m prefix : shrinks m (fst (ReleaseByOwnerPrefix m prefix)).
Proof.
  unfold ReleaseByOwnerPrefix. generalize 0%nat as n. generalize ((map_to_list (unifiedLocks m)).*1) as keys.
  intros keys. revert m. induction keys as [|h keys IH]; intros m n; simpl; [apply shrinks_refl|].
  pose proof (release_bucket_shrinks prefix h m) as H. destruct (release_bucket prefix h m) as [m1 k].
  eapply shrinks_trans; [exact H|]. apply IH.
Qed.

Lemma removeMatchingLocks_shrinks m h dp f : shrinks m (fst (removeMatchingLocks m h dp f)).
Proof.
  unfold removeMatchingLocks. set (gone := List.filter f _). destruct gone eqn:Eg; [apply shrinks_refl|].
  simpl fst. apply shrinks_reindex. set (m1 := if dp then _ else _).
  assert (Hs : store_only m m1) by (subst m1; destruct dp; [apply (fold_store_only _ (u :: l)); auto with go|apply store_only_refl]).
  eapply shrinks_trans; [apply shrinks_store, Hs|]. apply shrinks_set_unified.
  destruct (store_only_maps _ _ Hs) as [_ ->]. apply sublist_List_filter.
Qed.

Lemma RevokeDelegation_shrinks m h id : shrinks m (fst (RevokeDelegation m h id)).
Proof.
  unfold RevokeDelegation. pose proof (removeMatchingLocks_shrinks m h false (is_delegation id)) as H.
  destruct (removeMatchingLocks _ _ _ _). exact H.
Qed.

Lemma ReturnDelegation_shrinks m h id : shrinks m (ReturnDelegation m h id).
Proof. apply shrinks_reindex, shrinks_set_unified, sublist_List_filter. Qed.

#[export] Hint Resolve shrinks_refl Unlock_shrinks unlock_all_shrinks RemoveFileUnifiedLocks_shrinks
  RemoveFileLocks_shrinks RemoveAllLocks_shrinks RemoveClientLocks_shrinks ReleaseByOwnerPrefix_shrinks
  RevokeDelegation_shrinks ReturnDelegation_shrinks removeMatchingLocks_shrinks : go.

(** *** Acquisitions keep the buckets exclusive *)

Lemma inv_set_locks m h l :
  inv m -> bucket_ok l (bucket (unifiedLocks m) h) -> inv (with_locks m (<[h := l]> (locks m))).
Proof.
  intros Hi Hb h'. simpl. destruct (decide (h = h')) as [<-|Hn]; autorewrite with buckets; [exact Hb|apply Hi].
Qed.

Lemma inv_set_unified m h l :
  inv m -> bucket_ok (bucket (locks m) h) l -> inv (with_unified m (<[h := l]> (unifiedLocks m))).
Proof.
  intros Hi Hb h'. simpl. destruct (decide (h = h')) as [<-|Hn]; autorewrite with buckets; [exact Hb|apply Hi].
Qed.

Lemma inv_store m m' : store_only m m' -> inv m -> inv m'.
Proof. intros Hs. apply shrinks_inv, shrinks_store, Hs. Qed.

Lemma append_lock_inv now uuid m h lock :
  inv m -> fl_ok lock -> (forall e, In e (bucket (locks m) h) -> fl_compat e lock) ->
  (forall ul, In ul (bucket (unifiedLocks m) h) -> x_compat lock ul) ->
  inv (fst (append_lock now uuid m h lock)).
Proof.
  intros Hi Hok Hf Hu. unfold append_lock. simpl fst.
  eapply inv_store; [apply persistFileLockLocked_store|]. apply inv_set_locks; [exact Hi|].
  pose proof (stamp_same now uuid lock) as Hs. apply bucket_ok_add_fl; [apply Hi|..].
  - unfold fl_ok in *. destruct Hs as (<- & <- & _). exact Hok.
  - intros o Ho. eapply fl_compat_same; eauto.
  - intros ul Hul. eapply x_compat_fl_same; eauto.
Qed.

Lemma Lock_inv now uuid m h lock :
  inv m -> fl_ok lock -> (fl_OpenID lock = EmptyString -> fl_IsZeroByte lock = false) ->
  inv (fst (Lock now uuid m h lock)).
Proof.
  intros Hi Hok Hz. unfold Lock.
  destruct (List.find _ (bucket (locks m) h)) eqn:Ef; [exact Hi|].
  destruct (List.find _ (bucket (unifiedLocks m) h)) eqn:Eu; [exact Hi|].
  assert (Hf : forall e, In e (bucket (locks m) h) -> fl_compat e lock).
  { intros e He. apply not_conflicting_compat. exact (find_none_In _ _ _ Ef He). }
  assert (Hu : forall ul, In ul (bucket (unifiedLocks m) h) -> x_compat lock ul).
  { intros ul Hul. exact (find_none_In _ _ _ Eu Hul). }
  case_bool_decide as Hopen; [|apply append_lock_inv; assumption].
  destruct (list_find _ _) as [[i e]|] eqn:Er; [|apply append_lock_inv; assumption].
  apply list_find_Some in Er as (Hlk & Hsame & _). simpl fst.
  eapply inv_store; [apply persistFileLockLocked_store|]. apply inv_set_locks; [exact Hi|].
  apply bucket_ok_set_fl; [apply Hi|..].
  - apply relock_ok. destruct (Hi h) as [H1 _ _ _ _]. eapply Forall_lookup_1; eassumption.
  - intros o Ho. apply relock_compat; auto.
  - intros ul Hul. apply relock_x_compat; auto.
Qed.

Lemma AddUnifiedLock_inv now m h lock :
  inv m -> ul_ok lock -> byte_range lock -> inv (fst (AddUnifiedLock now m h lock)).
Proof.
  intros Hi Hok [Hl Hd]. unfold AddUnifiedLock. rewrite Hl, Hd. cbn [negb andb].
  destruct (List.find _ (bucket (unifiedLocks m) h)) eqn:Eu; [exact Hi|].
  destruct (List.find _ (bucket (locks m) h)) eqn:Ef; [exact Hi|].
  assert (Hu : forall o, In o (bucket (unifiedLocks m) h) -> ul_compat o lock).
  { intros o Ho. apply not_conflicting_ul_compat. exact (find_none_In _ _ _ Eu Ho). }
  assert (Hf : forall fl, In fl (bucket (locks m) h) -> x_compat fl lock).
  { intros fl Hfl. exact (find_none_In _ _ _ Ef Hfl). }
  destruct (list_find _ _) as [[i el]|] eqn:Er; simpl fst.
  - apply list_find_Some in Er as (Hlk & (Hown & Hoff & Hlen) & _).
    eapply inv_store; [apply persistUnifiedLockLocked_store|]. apply inv_set_unified; [exact Hi|].
    apply bucket_ok_set_ul; [apply Hi|..].
    + destruct (Hi h) as [_ H2 _ _ _]. unfold ul_ok in *. simpl. rewrite Hoff, Hlen. exact Hok.
    + intros o Ho. specialize (Hu o Ho). unfold ul_compat, ul_owner in *. simpl.
      rewrite Hoff, Hlen, Hown. intros Hb _. apply Hu; [exact Hb|]. split; assumption.
    + intros fl Hfl. specialize (Hf fl Hfl). unfold x_compat, fileLockConflictsWithUnified in *. simpl.
      rewrite Hoff, Hlen. rewrite Hl, Hd in Hf. simpl in Hf.
      match goal with |- (if ?c then _ else _) = _ => destruct c end; [reflexivity|exact Hf].
  - eapply inv_store; [apply persistUnifiedLockLocked_store|]. rewrite indexAdd_eq.
    set (lock' := if ul_AcquiredAt lock =? 0 then _ else _).
    assert (Hs : ul_same lock lock') by (subst lock'; unfold ul_same; destruct (_ =? _); repeat split; reflexivity).
    change (inv (with_unified m (<[h:=bucket (unifiedLocks m) h ++ [lock']]> (unifiedLocks m)))).
    apply inv_set_unified; [exact Hi|]. apply bucket_ok_add_ul; [apply Hi|..].
    + unfold ul_ok in *. destruct Hs as (<- & <- & _). exact Hok.
    + intros o Ho. eapply ul_compat_same; eauto.
    + intros fl Hfl. eapply x_compat_ul_same; eauto.
Qed.

(** A lease or delegation entry is compatible with everything. *)
Lemma add_caching_inv m h l :
  inv m -> ul_ok l -> IsLease l || IsDelegation l = true ->
  inv (with_unified m (<[h := bucket (unifiedLocks m) h ++ [l]]> (unifiedLocks m))).
Proof.
  intros Hi Hok Hc. apply inv_set_unified; [exact Hi|]. apply bucket_ok_add_ul; [apply Hi|exact Hok|..].
  - intros o _ _ [Hl Hd]. rewrite Hl, Hd in Hc. discriminate.
  - intros fl _. unfold x_compat, fileLockConflictsWithUnified. rewrite Hc. reflexivity.
Qed.

Lemma RemoveUnifiedLock_inv uuids m h owner off len :
  inv m -> in_u64 off -> in_u64 len -> inv (fst (RemoveUnifiedLock uuids m h owner off len)).
Proof.
  intros Hi Ho Hl. unfold RemoveUnifiedLock. destruct (bucket (unifiedLocks m) h) as [|x ls] eqn:Hb; [exact Hi|].
  destruct (remove_loop _ _ _ _ _ _ _) as [[m' kept] found] eqn:E. destruct found; [|exact Hi]. simpl fst.
  pose proof (bo_ul _ _ (Hi h)) as Hoks. rewrite Hb in Hoks.
  destruct (remove_loop_carved _ _ _ _ _ _ _ _ _ _ Ho Hl Hoks E) as [Hc Hs].
  rewrite reindex_eq. intros h'. simpl. destruct (store_only_maps _ _ Hs) as [-> ->].
  destruct (decide (h = h')) as [<-|Hn]; autorewrite with buckets; [|apply Hi].
  eapply bucket_ok_carved; [apply Hi|]. rewrite Hb. exact Hc.
Qed.

Lemma UpgradeLock_inv m h owner off len :
  inv m -> upgrade_guarded m h owner off len -> inv (fst (UpgradeLock m h owner off len)).
Proof.
  intros Hi [Hwhole Hsmb]. unfold UpgradeLock. destruct (list_find _ _) as [[i own]|] eqn:Ef;
    [|destruct (List.find _ _); exact Hi].
  destruct (List.find _ _) eqn:Eo; [exact Hi|]. simpl fst.
  apply list_find_Some in Ef as (Hlk & (Hown & _ & Hov) & _).
  assert (Hin : In own (bucket (unifiedLocks m) h)) by (apply list_elem_of_In; eapply list_elem_of_lookup_2; exact Hlk).
  destruct (Hwhole own Hin Hown Hov) as [Ho Hl].
  eapply inv_store; [apply persistUnifiedLockLocked_store|]. apply inv_set_unified; [exact Hi|].
  apply bucket_ok_set_ul; [apply Hi|..].
  - exact (Forall_lookup_1 _ _ _ _ (bo_ul _ _ (Hi h)) Hlk).
  - intros o Hoin _ _. unfold ul_owner in *. simpl. destruct (decide (OwnerID (ul_Owner o) = OwnerID owner)) as [E|E].
    + right. right. congruence.
    + left. pose proof (find_none_In _ _ _ Eo Hoin) as Hn. simpl in Hn.
      rewrite bool_decide_eq_true_2 in Hn by exact E. rewrite Ho, Hl. exact Hn.
  - intros fl Hfl. unfold x_compat, fileLockConflictsWithUnified. simpl. rewrite Ho, Hl, (Hsmb fl Hfl). simpl.
    destruct (_ || _), (fl_IsZeroByte fl); reflexivity.
Qed.

Lemma whole_file_ok l : ul_Offset l = 0 -> ul_Length l = 0 -> ul_ok l.
Proof. unfold ul_ok, range_ok, in_u64. intros -> ->. lia. Qed.

Lemma step_inv m m' : inv m -> step m m' -> inv m'.
Proof.
  intros Hi Hstep. destruct Hstep; try (eapply shrinks_inv; [|exact Hi]; solve [auto with go]).
  - apply Lock_inv; assumption.
  - unfold UnlockAllForOpen. case_bool_decide; [exact Hi|]. eapply shrinks_inv; [apply unlock_all_shrinks|exact Hi].
  - eapply shrinks_inv; [apply unlock_all_shrinks|exact Hi].
  - apply AddUnifiedLock_inv; assumption.
  - apply RemoveUnifiedLock_inv; assumption.
  - apply UpgradeLock_inv; assumption.
  - unfold createAndGrantLease. eapply inv_store; [apply persistUnifiedLockLocked_store|]. rewrite indexAdd_eq.
    refine (add_caching_inv m h _ Hi _ _); [apply whole_file_ok; reflexivity|reflexivity].
  - unfold GrantDelegation. destruct recent; [exact Hi|]. destruct (existsb _ _); [exact Hi|].
    simpl fst. rewrite indexAdd_eq.
    refine (add_caching_inv m h _ Hi _ _); [apply whole_file_ok; reflexivity|reflexivity].
  - eapply shrinks_inv; [apply removeMatchingLocks_shrinks|exact Hi].
  - exact Hi.
  - exact Hi.
  - exact Hi.
Qed.

Lemma reachable_inv m : reachable m -> inv m.
Proof.
  induction 1 as [|m m' _ IH Hs]; [|eapply step_inv; eassumption].
  intros h. unfold newBaseManager, bucket. simpl. rewrite !lookup_empty. simpl.
  split; try constructor; simpl; tauto.
Qed.

(** C1: Cross-protocol mutual exclusion: in every lock manager reached from a
    new one by its operations, when every range that is locked ends within the
    64-bit range, an upgrade names a whole lock that no SMB lock meets, and no
    locks were restored after a restart, two different held byte-range locks
    on one file that contain the same byte are both shared or have the same
    owner, whether both came through SMB, both through NLM or NFSv4, or one
    through each; a lock taken over one protocol and a lock taken over the
    other can share a byte only when both are shared. *)
Theorem mutual_exclusion m h x :
  reachable m ->
  (forall i j a b, i <> j -> bucket (locks m) h !! i = Some a -> bucket (locks m) h !! j = Some b ->
     fl_covers a x -> fl_covers b x ->
     lockOwnerID a = lockOwnerID b \/ fl_Exclusive a = false /\ fl_Exclusive b = false) /\
  (forall i j a b, i <> j -> bucket (unifiedLocks m) h !! i = Some a -> bucket (unifiedLocks m) h !! j = Some b ->
     byte_range a -> byte_range b -> ul_covers a x -> ul_covers b x ->
     ul_owner a = ul_owner b \/ ul_Type a = LockTypeShared /\ ul_Type b = LockTypeShared) /\
  (forall a b, In a (bucket (locks m) h) -> In b (bucket (unifiedLocks m) h) -> byte_range b ->
     fl_covers a x -> ul_covers b x -> fl_Exclusive a = false /\ ul_Type b = LockTypeShared).
Proof.
  intros Hr. destruct (reachable_inv m Hr h) as [H1 H2 H3 H4 H5].
  split; [|split].
  - intros i j a b Hij Ha Hb [Hza Hxa] [Hzb Hxb].
    assert (Hc : fl_compat a b) by (eapply ForallOrdPairs_lookup; eauto using fl_compat_sym).
    assert (Hov : RangesOverlap (fl_Offset a) (fl_Length a) (fl_Offset b) (fl_Length b) = true)
      by (apply overlap_iff; [eapply Forall_lookup_1 in H1; eauto|eapply Forall_lookup_1 in H1; eauto|eauto]).
    unfold fl_compat in Hc. rewrite Hza, Hzb, Hov in Hc. intuition congruence.
  - intros i j a b Hij Ha Hb Hba Hbb Hxa Hxb.
    assert (Hc : ul_compat a b) by (eapply ForallOrdPairs_lookup; eauto using ul_compat_sym).
    assert (Hov : RangesOverlap (ul_Offset a) (ul_Length a) (ul_Offset b) (ul_Length b) = true)
      by (apply overlap_iff; [eapply Forall_lookup_1 in H2; eauto|eapply Forall_lookup_1 in H2; eauto|eauto]).
    specialize (Hc Hba Hbb). rewrite Hov in Hc. intuition congruence.
  - intros a b Ha Hb [Hbl Hbd] [Hz Hxa] Hxb.
    rewrite List.Forall_forall in H1, H2. specialize (H5 a b Ha Hb).
    unfold x_compat, fileLockConflictsWithUnified, IsExclusive in H5. rewrite Hbl, Hbd, Hz in H5. simpl in H5.
    assert (Hov : RangesOverlap (fl_Offset a) (fl_Length a) (ul_Offset b) (ul_Length b) = true)
      by (apply overlap_iff; [apply H1, Ha|apply H2, Hb|eauto]).
    rewrite Hov in H5. simpl in H5. apply orb_false_iff in H5 as [-> Ht]. split; [reflexivity|].
    apply bool_decide_eq_false in Ht. destruct (ul_Type b); congruence.
Qed.

(** ** Previews agree with acquisition *)

Lemma find_In {A} (f : A -> bool) l x : List.find f l = Some x -> In x l /\ f x = true.
Proof. apply List.find_some. Qed.

Lemma relock_fields now uuid lock e :
  same_range e lock ->
  lockOwnerID (relock now uuid lock e) = lockOwnerID lock /\ fl_Offset (relock now uuid lock e) = fl_Offset lock /\
  fl_Length (relock now uuid lock e) = fl_Length lock /\ fl_Exclusive (relock now uuid lock e) = fl_Exclusive lock.
Proof.
  intros (Ho & Hof & Hl). rewrite <- Ho, <- Hof, <- Hl. unfold relock, assignPersistIDLocked.
  case_bool_decide; repeat split; reflexivity.
Qed.

Definition holds_fl (m : Manager) (h : string) (lock : FileLock) : Prop :=
  exists e, In e (bucket (locks m) h) /\ lockOwnerID e = lockOwnerID lock /\ fl_Offset e = fl_Offset lock /\
            fl_Length e = fl_Length lock /\ fl_Exclusive e = fl_Exclusive lock.

Definition holds_ul (m : Manager) (h : string) (lock : UnifiedLock) : Prop :=
  exists e, In e (bucket (unifiedLocks m) h) /\ same_unified e lock /\ ul_Type e = ul_Type lock.

Lemma append_lock_holds now uuid m h lock :
  snd (append_lock now uuid m h lock) = None /\ holds_fl (fst (append_lock now uuid m h lock)) h lock.
Proof.
  split; [reflexivity|]. unfold append_lock. simpl fst.
  destruct (persistFileLockLocked_store
    (with_locks m (<[h:=bucket (locks m) h ++ [stamp now uuid lock]]> (locks m))) h (stamp now uuid lock)) as [s ->].
  exists (stamp now uuid lock). simpl. autorewrite with buckets.
  destruct (stamp_same now uuid lock) as (H1 & H2 & H3 & _ & H5).
  split; [apply in_or_app; right; left; reflexivity|auto].
Qed.

Lemma Lock_TestLock now uuid m h lock :
  match TestLock m h lock with
  | Some c => Lock now uuid m h lock = (m, Some (ErrLocked (lc_OwnerID c)))
  | None => snd (Lock now uuid m h lock) = None /\ holds_fl (fst (Lock now uuid m h lock)) h lock
  end.
Proof.
  unfold TestLock, Lock. destruct (List.find _ (bucket (locks m) h)) as [e|]; [reflexivity|].
  destruct (List.find _ (bucket (unifiedLocks m) h)) as [ul|]; [reflexivity|].
  case_bool_decide; [|apply append_lock_holds].
  destruct (list_find _ _) as [[i e]|] eqn:Er; [|apply append_lock_holds].
  apply list_find_Some in Er as (Hi & Hsame & _). split; [reflexivity|]. simpl fst.
  match goal with |- holds_fl (persistFileLockLocked ?a ?b ?c) _ _ =>
    destruct (persistFileLockLocked_store a b c) as [s ->] end.
  exists (relock now uuid lock e). simpl. autorewrite with buckets.
  split; [|apply relock_fields, Hsame].
  apply list_elem_of_In. eapply list_elem_of_lookup_2. apply list_lookup_insert_eq.
  apply lookup_lt_Some in Hi. exact Hi.
Qed.

Lemma AddUnifiedLock_TestUnifiedLock now m h lock :
  match TestUnifiedLock m h lock with
  | Some c => AddUnifiedLock now m h lock = (m, Some (ErrLockConflict (uc_Reason c) (ul_owner (uc_Lock c))))
  | None => snd (AddUnifiedLock now m h lock) = None /\ holds_ul (fst (AddUnifiedLock now m h lock)) h lock
  end.
Proof.
  unfold TestUnifiedLock, AddUnifiedLock. destruct (List.find _ (bucket (unifiedLocks m) h)) as [el|]; [reflexivity|].
  set (cross := if negb (IsLease lock) && negb (IsDelegation lock)
    then List.find (fun fl => fileLockConflictsWithUnified fl lock) (bucket (locks m) h) else None).
  assert (Hcross : (if negb (IsLease lock) && negb (IsDelegation lock) then
      match List.find (fun fl => fileLockConflictsWithUnified fl lock) (bucket (locks m) h) with
      | Some fl => Some (unifiedConflictFromFileLock fl) | None => None end else None) =
      option_map unifiedConflictFromFileLock cross)
    by (subst cross; destruct (_ && _); [destruct (List.find _ _)|]; reflexivity).
  rewrite Hcross. destruct cross as [fl|]; [reflexivity|]. simpl option_map. cbv iota.
  destruct (list_find _ _) as [[i el]|] eqn:Er; (split; [reflexivity|]); simpl fst.
  - apply list_find_Some in Er as (Hi & Hsame & _).
    match goal with |- holds_ul (persistUnifiedLockLocked ?a ?b) _ _ =>
      destruct (persistUnifiedLockLocked_store a b) as [s ->] end.
    exists (set_AcquiredAt now (set_Type (ul_Type lock) el)). simpl. autorewrite with buckets.
    split; [|split; [exact Hsame|reflexivity]].
    apply list_elem_of_In. eapply list_elem_of_lookup_2. apply list_lookup_insert_eq.
    apply lookup_lt_Some in Hi. exact Hi.
  - match goal with |- holds_ul (persistUnifiedLockLocked ?a ?b) _ _ =>
      destruct (persistUnifiedLockLocked_store a b) as [s ->] end.
    rewrite indexAdd_eq. eexists. simpl. autorewrite with buckets.
    split; [apply in_or_app; right; left; reflexivity|]. destruct (_ =? _); repeat split; reflexivity.
Qed.

(** A lock preview never disagrees with the acquisition it previews, on either
    path: when [TestLock] or [TestUnifiedLock] reports a conflict, the
    acquisition fails with that conflict's owner and changes nothing; when it
    reports none, the acquisition succeeds and the requested range is held with
    the requested type. *)
Theorem preview_agrees now uuid m h :
  (forall lock, match TestLock m h lock with
   | Some c => Lock now uuid m h lock = (m, Some (ErrLocked (lc_OwnerID c)))
   | None => snd (Lock now uuid m h lock) = None /\ holds_fl (fst (Lock now uuid m h lock)) h lock
   end) /\
  (forall lock, match TestUnifiedLock m h lock with
   | Some c => AddUnifiedLock now m h lock = (m, Some (ErrLockConflict (uc_Reason c) (ul_owner (uc_Lock c))))
   | None => snd (AddUnifiedLock now m h lock) = None /\ holds_ul (fst (AddUnifiedLock now m h lock)) h lock
   end).
Proof. split; intros lock; [apply Lock_TestLock|apply AddUnifiedLock_TestUnifiedLock]. Qed.

(** ** I/O against held locks *)

(** What a byte-range lock over a byte lets through. *)
Definition fl_allows (caller : string) (isWrite : bool) (fl : FileLock) : Prop :=
  if bool_decide (lockOwnerID fl = caller) then isWrite = true -> fl_Exclusive fl = true
  else isWrite = false /\ fl_Exclusive fl = false.

Definition ul_allows (isWrite : bool) (ul : UnifiedLock) : Prop := isWrite = false /\ ul_Type ul = LockTypeShared.

Lemma CheckIOConflict_iff fl openID sid off len w :
  fl_ok fl -> range_ok off len ->
  CheckIOConflict fl openID sid off len w = false <->
  forall x, in_range x off len -> fl_covers fl x -> fl_allows (callerOwnerID openID sid) w fl.
Proof.
  intros Hok Hr. unfold CheckIOConflict, fl_covers, fl_allows.
  destruct (fl_IsZeroByte fl); [split; [intros _ x _ [? _]; congruence|reflexivity]|].
  destruct (RangesOverlap (fl_Offset fl) (fl_Length fl) off len) eqn:Hov; simpl.
  - apply overlap_iff in Hov as (x & Hx1 & Hx2); [|exact Hok|exact Hr].
    transitivity (if bool_decide (lockOwnerID fl = callerOwnerID openID sid)
      then w = true -> fl_Exclusive fl = true else w = false /\ fl_Exclusive fl = false).
    + case_bool_decide; destruct w, (fl_Exclusive fl); simpl; intuition congruence.
    + split; [auto|]. intros H. apply (H x); auto.
  - split; [|reflexivity]. intros _ x Hx [_ Hc]. exfalso. apply not_true_iff_false in Hov. apply Hov.
    apply overlap_iff; [exact Hok|exact Hr|]. eauto.
Qed.

Lemma unifiedLockBlocksIO_iff ul off len w :
  ul_ok ul -> range_ok off len ->
  unifiedLockBlocksIO ul off len w = false <->
  (byte_range ul -> forall x, in_range x off len -> ul_covers ul x -> ul_allows w ul).
Proof.
  intros Hok Hr. unfold unifiedLockBlocksIO, byte_range, ul_allows, Overlaps, IsExclusive.
  destruct (IsLease ul), (IsDelegation ul); simpl; try (split; [intros _ [? ?]; congruence|reflexivity]).
  destruct (RangesOverlap (ul_Offset ul) (ul_Length ul) off len) eqn:Hov; simpl.
  - apply overlap_iff in Hov as (x & Hx1 & Hx2); [|exact Hok|exact Hr].
    transitivity (w = false /\ ul_Type ul = LockTypeShared).
    + destruct w; [intuition congruence|]. rewrite bool_decide_eq_false. destruct (ul_Type ul); intuition congruence.
    + split; [auto|]. intros H. apply (H (conj eq_refl eq_refl) x); assumption.
  - split; [|reflexivity]. intros _ _ x Hx Hc. exfalso. apply not_true_iff_false in Hov. apply Hov.
    apply overlap_iff; [exact Hok|exact Hr|]. eauto.
Qed.

Lemma find_none_iff {A} (f : A -> bool) l : List.find f l = None <-> forall x, In x l -> f x = false.
Proof.
  split; [intros H x Hx; eapply List.find_none; eassumption|].
  induction l as [|y l IH]; intros H; simpl; [reflexivity|]. rewrite (H y) by (left; reflexivity).
  apply IH. intros. apply H. right. assumption.
Qed.

(** An SMB read or write is let through exactly when every byte-range lock over
    one of its bytes permits it: one's own lock blocks only a write under a
    shared lock, another open's lock blocks every write and an exclusive one
    also reads, and so do the locks of NLM and NFSv4 clients. *)
Theorem CheckForIO_exact m h openID sid off len w :
  reachable m -> range_ok off len ->
  CheckForIO m h openID sid off len w = None <->
  forall x, in_range x off len ->
    (forall fl, In fl (bucket (locks m) h) -> fl_covers fl x -> fl_allows (callerOwnerID openID sid) w fl) /\
    (forall ul, In ul (bucket (unifiedLocks m) h) -> byte_range ul -> ul_covers ul x -> ul_allows w ul).
Proof.
  intros Hr Hrange. destruct (reachable_inv m Hr h) as [H1 H2 _ _ _]. rewrite List.Forall_forall in H1, H2.
  transitivity ((forall fl, In fl (bucket (locks m) h) -> CheckIOConflict fl openID sid off len w = false) /\
                (forall ul, In ul (bucket (unifiedLocks m) h) -> unifiedLockBlocksIO ul off len w = false)).
  - unfold CheckForIO. rewrite <- !find_none_iff.
    destruct (List.find _ (bucket (locks m) h)); [intuition congruence|].
    destruct (List.find _ (bucket (unifiedLocks m) h)); intuition congruence.
  - split.
    + intros [Ha Hb] x Hx. split.
      * intros fl Hfl. apply (CheckIOConflict_iff fl openID sid off len w); auto.
      * intros ul Hul Hbr. apply (unifiedLockBlocksIO_iff ul off len w); auto.
    + intros H. split.
      * intros fl Hfl. apply CheckIOConflict_iff; [auto|exact Hrange|]. intros x Hx. apply (H x Hx); assumption.
      * intros ul Hul. apply unifiedLockBlocksIO_iff; [auto|exact Hrange|]. intros Hbr x Hx. apply (H x Hx); assumption.
Qed.

(** ** Upgrading in place *)

(** A share on which an SMB open and an NFSv4 owner both hold a shared lock. *)
Definition sample_shared : Manager :=
  fst (AddUnifiedLock 1 (fst (Lock 1 "u1" newBaseManager "file" (sample_fl "open-a" 0 10 false))) "file"
         (sample_ul "nfs4:1" 0 10 LockTypeShared)).

Lemma sample_shared_reachable : reachable sample_shared.
Proof.
  unfold sample_shared.
  apply (R_step (fst (Lock 1 "u1" newBaseManager "file" (sample_fl "open-a" 0 10 false)))).
  - apply (R_step newBaseManager); [apply R_init|]. apply S_Lock; [ranges|discriminate].
  - apply S_AddUnifiedLock; [ranges|split; reflexivity].
Qed.

(** [UpgradeLock] looks only at the unified locks: from a reachable manager it
    can turn an NFSv4 shared lock exclusive while an SMB open still holds a
    shared lock on the same bytes, which no acquisition path permits. *)
Theorem UpgradeLock_ignores_smb_locks :
  exists m h owner off len,
    reachable m /\
    let m' := fst (UpgradeLock m h owner off len) in
    exists fl ul x, In fl (bucket (locks m') h) /\ In ul (bucket (unifiedLocks m') h) /\ byte_range ul /\
      fl_covers fl x /\ ul_covers ul x /\ ul_Type ul = LockTypeExclusive /\ lockOwnerID fl <> ul_owner ul.
Proof.
  exists sample_shared, "file", (mkLockOwner "nfs4:1" "client" "share"), 0, 10.
  split; [apply sample_shared_reachable|].
  exists (set_persistID "u1" (mkFileLock 0 7 "open-a" 0 10 false 1 EmptyString "smb:7" false EmptyString)).
  exists (set_Type LockTypeExclusive (set_AcquiredAt 1 (sample_ul "nfs4:1" 0 10 LockTypeShared))), 0.
  split; [vm_compute; left; reflexivity|]. split; [vm_compute; left; reflexivity|].
  split; [split; reflexivity|]. split; [split; [reflexivity|unfold in_range; simpl; lia]|].
  split; [unfold ul_covers, in_range; simpl; lia|]. split; [reflexivity|]. vm_compute. discriminate.
Qed.

(** ** Ranges past the end *)

(** The condition on ranges is needed: a lock from an offset "to the end of the
    file" as NFSv4 writes it, with length 2^64-1, has a last byte that wraps
    below its offset.  It overlaps nothing, so a second owner gets an exclusive
    lock on bytes that the first one has locked exclusively. *)
Theorem to_eof_range_wraps :
  let first := sample_ul "nfs4:1" 10 max_u64 LockTypeExclusive in
  let second := sample_ul "nfs4:2" 20 10 LockTypeExclusive in
  let m := fst (AddUnifiedLock 1 newBaseManager "file" first) in
  snd (AddUnifiedLock 1 newBaseManager "file" first) = None /\
  snd (AddUnifiedLock 2 m "file" second) = None /\
  length (bucket (unifiedLocks (fst (AddUnifiedLock 2 m "file" second))) "file") = 2%nat /\
  ul_covers first 20 /\ ul_covers second 20.
Proof.
  repeat split; try (vm_compute; reflexivity); unfold ul_covers, in_range, max_u64; simpl; lia.
Qed.

(** ** The theorems at a concrete share *)

Lemma mutual_exclusion_witness :
  length (bucket (locks sample_shared) "file") = 1%nat /\
  length (bucket (unifiedLocks sample_shared) "file") = 1%nat /\
  (forall a b, In a (bucket (locks sample_shared) "file") -> In b (bucket (unifiedLocks sample_shared) "file") ->
     byte_range b -> fl_covers a 5 -> ul_covers b 5 -> fl_Exclusive a = false /\ ul_Type b = LockTypeShared).
Proof.
  split; [vm_compute; reflexivity|]. split; [vm_compute; reflexivity|].
  apply (mutual_exclusion sample_shared "file" 5 sample_shared_reachable).
Defined.

Lemma CheckForIO_exact_witness :
  CheckForIO sample_shared "file" "open-b" 7 0 4 false = None /\
  CheckForIO sample_shared "file" "open-b" 7 0 4 true <> None /\
  (forall fl, In fl (bucket (locks sample_shared) "file") -> fl_covers fl 2 ->
     fl_allows (callerOwnerID "open-b" 7) false fl).
Proof.
  split; [vm_compute; reflexivity|]. split; [vm_compute; discriminate|].
  refine (proj1 (proj1 (CheckForIO_exact sample_shared "file" "open-b" 7 0 4 false sample_shared_reachable _) _ 2 _)).
  - ranges.
  - vm_compute. reflexivity.
  - unfold in_range. lia.
Defined.
