(* ===== verification/LockIndex.v ===== *)
(** * The lock manager's reverse indexes ([pkg/metadata/lock/indexes.go])

    [clientHandleIndex] and [leaseKeyIndex] are reference counts derived from
    [unifiedLocks]; operations maintain them with [indexAddLockLocked] and
    [reindexHandleLocked].  Here they are proved to be, in every reachable
    manager, exactly the counts of the locks actually held, and the operation
    that relies on them, [RemoveClientLocks], to sweep every lock of a client. *)

From S2P Require Import Prelude LockTypes LockManager.

Section counts.
Context {K : Type} `{Countable K}.
Implicit Types (idx : refs K) (k : K) (h : string).

Definition ref_count idx k h : Z := default 0 (default ∅ (idx !! k) !! h).

(** No empty set and no zero count is ever kept. *)
Definition refs_wf idx : Prop :=
  forall k b, idx !! k = Some b -> b <> ∅ /\ forall h n, b !! h = Some n -> 0 < n.

Lemma ref_count_nonneg idx k h : refs_wf idx -> 0 <= ref_count idx k h.
Proof.
  intros Hwf. unfold ref_count. destruct (idx !! k) as [b|] eqn:E; simpl; [|rewrite lookup_empty; simpl; lia].
  destruct (b !! h) as [n|] eqn:E'; simpl; [|lia]. apply Hwf in E as [_ E]. apply E in E'. lia.
Qed.

Definition at_key k h k' h' : Z := if bool_decide (k = k' /\ h = h') then 1 else 0.

Lemma refs_add_count idx k h k' h' :
  ref_count (refs_add idx k h) k' h' = ref_count idx k' h' + at_key k h k' h'.
Proof.
  unfold ref_count, refs_add, at_key. destruct (decide (k = k')) as [<-|Hk].
  - rewrite lookup_insert_eq. simpl. destruct (decide (h = h')) as [<-|Hh].
    + rewrite lookup_insert_eq, bool_decide_eq_true_2 by auto. reflexivity.
    + rewrite lookup_insert_ne, bool_decide_eq_false_2 by naive_solver. lia.
  - rewrite lookup_insert_ne, bool_decide_eq_false_2 by naive_solver. lia.
Qed.

Lemma refs_add_wf idx k h : refs_wf idx -> refs_wf (refs_add idx k h).
Proof.
  intros Hwf k' b. unfold refs_add. destruct (decide (k = k')) as [<-|Hk].
  - rewrite lookup_insert_eq. intros [= <-]. split; [apply insert_non_empty|].
    pose proof (ref_count_nonneg idx k h Hwf) as Hn. unfold ref_count in Hn.
    intros h' n. destruct (decide (h = h')) as [<-|Hh].
    + rewrite lookup_insert_eq. intros [= <-]. lia.
    + rewrite lookup_insert_ne by assumption. destruct (idx !! k) as [b|] eqn:E; simpl.
      * apply (Hwf k b E).
      * rewrite lookup_empty. discriminate.
  - rewrite lookup_insert_ne by assumption. apply Hwf.
Qed.

Lemma refs_remove_count idx k h k' h' :
  refs_wf idx -> ref_count (refs_remove idx k h) k' h' = Z.max 0 (ref_count idx k' h' - at_key k h k' h').
Proof.
  intros Hwf. pose proof (ref_count_nonneg idx k' h' Hwf) as Hnn. revert Hnn.
  unfold ref_count, refs_remove, at_key.
  destruct (idx !! k) as [b|] eqn:Eb.
  - destruct (decide (k = k')) as [<-|Hk].
    + rewrite Eb. simpl. intros Hnn. zcase.
      * rewrite lookup_insert_eq. simpl. destruct (decide (h = h')) as [<-|Hh].
        -- rewrite lookup_insert_eq, bool_decide_eq_true_2 by auto. simpl. lia.
        -- rewrite lookup_insert_ne, bool_decide_eq_false_2 by naive_solver. lia.
      * assert (default 0 (default ∅ ((if bool_decide (delete h b = ∅) then delete k idx
                  else <[k:=delete h b]> idx) !! k) !! h') = default 0 (delete h b !! h')) as ->.
        { case_bool_decide as Hem; [rewrite lookup_delete_eq, Hem; reflexivity|rewrite lookup_insert_eq; reflexivity]. }
        destruct (decide (h = h')) as [<-|Hh].
        -- rewrite lookup_delete_eq, bool_decide_eq_true_2 by auto. simpl. lia.
        -- rewrite lookup_delete_ne, bool_decide_eq_false_2 by naive_solver. lia.
    + rewrite (bool_decide_eq_false_2 (k = k' /\ h = h')) by naive_solver. intros Hnn.
      zcase; [|case_bool_decide]; rewrite ?lookup_insert_ne, ?lookup_delete_ne by assumption; lia.
  - destruct (decide (k = k')) as [<-|Hk].
    + rewrite Eb. simpl. rewrite lookup_empty. simpl. case_bool_decide; lia.
    + rewrite bool_decide_eq_false_2 by naive_solver. intros; lia.
Qed.

Lemma refs_remove_wf idx k h : refs_wf idx -> refs_wf (refs_remove idx k h).
Proof.
  intros Hwf. unfold refs_remove. destruct (idx !! k) as [b|] eqn:Eb; [|exact Hwf].
  destruct (Hwf k b Eb) as [Hne Hpos]. zcase; [|case_bool_decide as Hem]; intros k' b' Hl.
  - destruct (decide (k = k')) as [<-|Hk]; [|rewrite lookup_insert_ne in Hl by assumption; apply (Hwf _ _ Hl)].
    rewrite lookup_insert_eq in Hl. injection Hl as <-. split; [apply insert_non_empty|].
    intros h' n Hn. destruct (decide (h = h')) as [<-|Hh].
    + rewrite lookup_insert_eq in Hn. injection Hn as <-. lia.
    + rewrite lookup_insert_ne in Hn by assumption. apply (Hpos _ _ Hn).
  - destruct (decide (k = k')) as [<-|Hk]; [rewrite lookup_delete_eq in Hl; discriminate|].
    rewrite lookup_delete_ne in Hl by assumption. apply (Hwf _ _ Hl).
  - destruct (decide (k = k')) as [<-|Hk]; [|rewrite lookup_insert_ne in Hl by assumption; apply (Hwf _ _ Hl)].
    rewrite lookup_insert_eq in Hl. injection Hl as <-. split; [exact Hem|].
    intros h' n Hn. apply lookup_delete_Some in Hn as [_ Hn]. apply (Hpos _ _ Hn).
Qed.

(** How many locks of a bucket contribute the key [k]. *)
Context (key : UnifiedLock -> option K).

Definition holders k (ls : list UnifiedLock) : Z := Z.of_nat (length (filter (fun l => key l = Some k) ls)).

Lemma holders_cons k l ls : holders k (l :: ls) = (if bool_decide (key l = Some k) then 1 else 0) + holders k ls.
Proof.
  unfold holders. case_bool_decide as E.
  - rewrite filter_cons_True by assumption. cbn [length]. lia.
  - rewrite filter_cons_False by assumption. lia.
Qed.

Lemma holders_app k ls ls' : holders k (ls ++ ls') = holders k ls + holders k ls'.
Proof. unfold holders. rewrite filter_app, length_app. lia. Qed.

Lemma holders_nonneg k ls : 0 <= holders k ls.
Proof. unfold holders. lia. Qed.

Lemma adds_count h ls idx k' h' :
  ref_count (fold_left (index_add key h) ls idx) k' h' =
  ref_count idx k' h' + (if bool_decide (h = h') then holders k' ls else 0).
Proof.
  revert idx. induction ls as [|l ls IH]; intros idx; simpl.
  - unfold holders. simpl. case_bool_decide; lia.
  - rewrite IH, holders_cons. unfold index_add. destruct (key l) as [k|] eqn:E.
    + rewrite refs_add_count. unfold at_key. repeat case_bool_decide; naive_solver lia.
    + repeat case_bool_decide; naive_solver lia.
Qed.

Lemma adds_wf h ls idx : refs_wf idx -> refs_wf (fold_left (index_add key h) ls idx).
Proof.
  revert idx. induction ls as [|l ls IH]; intros idx Hwf; simpl; [exact Hwf|]. apply IH.
  unfold index_add. destruct (key l); [apply refs_add_wf|]; exact Hwf.
Qed.

Lemma index_remove_wf h idx l : refs_wf idx -> refs_wf (index_remove key h idx l).
Proof. intros Hwf. unfold index_remove. destruct (key l); [apply refs_remove_wf|]; exact Hwf. Qed.

Lemma removes_wf h ls idx : refs_wf idx -> refs_wf (fold_left (index_remove key h) ls idx).
Proof.
  revert idx. induction ls as [|l ls IH]; intros idx Hwf; simpl; [exact Hwf|]. apply IH, index_remove_wf, Hwf.
Qed.

Lemma removes_count h ls idx k' h' :
  refs_wf idx ->
  ref_count (fold_left (index_remove key h) ls idx) k' h' =
  Z.max 0 (ref_count idx k' h' - (if bool_decide (h = h') then holders k' ls else 0)).
Proof.
  revert idx. induction ls as [|l ls IH]; intros idx Hwf; simpl.
  - pose proof (ref_count_nonneg idx k' h' Hwf). unfold holders. simpl. case_bool_decide; lia.
  - rewrite (IH _ (index_remove_wf h idx l Hwf)), holders_cons.
    pose proof (holders_nonneg k' ls). pose proof (ref_count_nonneg idx k' h' Hwf).
    unfold index_remove. destruct (key l) as [k|] eqn:E.
    + rewrite refs_remove_count by exact Hwf. unfold at_key. repeat case_bool_decide; naive_solver lia.
    + repeat case_bool_decide; naive_solver lia.
Qed.

(** The index counts the held locks exactly. *)
Definition exact idx (u : gmap string (list UnifiedLock)) : Prop :=
  refs_wf idx /\ forall k h, ref_count idx k h = holders k (bucket u h).

Lemma exact_reindex idx u u' h :
  exact idx u -> (forall h', h <> h' -> bucket u' h' = bucket u h') ->
  exact (reindex key h (bucket u h) (bucket u' h) idx) u'.
Proof.
  intros [Hwf Hc] Hne. unfold reindex.
  split; [apply adds_wf, removes_wf, Hwf|].
  intros k h'. rewrite adds_count, (removes_count h (bucket u h) idx k h' Hwf), Hc.
  case_bool_decide as Eh; [subst; lia|]. rewrite (Hne h' Eh). pose proof (holders_nonneg k (bucket u h')). lia.
Qed.

Lemma exact_add idx u h l :
  exact idx u -> exact (index_add key h idx l) (<[h := bucket u h ++ [l]]> u).
Proof.
  intros [Hwf Hc]. split; [apply (adds_wf h [l]), Hwf|].
  intros k h'. pose proof (adds_count h [l] idx k h') as E. simpl in E. rewrite E, Hc.
  case_bool_decide as Eh; [subst h'|]; autorewrite with buckets; [rewrite holders_app; reflexivity|lia].
Qed.

(** Updates in place that keep the keys keep the counts. *)
Lemma exact_same_keys idx u h i l l' :
  exact idx u -> bucket u h !! i = Some l -> key l' = key l -> exact idx (<[h := <[i := l']> (bucket u h)]> u).
Proof.
  intros [Hwf Hc] Hi Hk. split; [exact Hwf|]. intros k h'. rewrite Hc.
  destruct (decide (h = h')) as [<-|Hn]; autorewrite with buckets; [|reflexivity].
  rewrite insert_take_drop by (apply lookup_lt_Some in Hi; exact Hi).
  rewrite <- (take_drop_middle _ _ _ Hi) at 1. rewrite !holders_app, !holders_cons, Hk. reflexivity.
Qed.
End counts.

(** ** Every operation keeps both indexes exact *)

Definition index_ok (m : Manager) : Prop :=
  exact lease_key (leaseKeyIndex m) (unifiedLocks m) /\ exact client_key (clientHandleIndex m) (unifiedLocks m).

Lemma index_ok_store m m' : store_only m m' -> index_ok m -> index_ok m'.
Proof. intros [s ->] H. exact H. Qed.

(** [m1] has [m]'s indexes, and its buckets except [h]. *)
Lemma index_ok_reindex m m1 h :
  index_ok m -> leaseKeyIndex m1 = leaseKeyIndex m -> clientHandleIndex m1 = clientHandleIndex m ->
  (forall h', h <> h' -> bucket (unifiedLocks m1) h' = bucket (unifiedLocks m) h') ->
  index_ok (reindexHandleLocked m1 h (bucket (unifiedLocks m) h)).
Proof.
  intros [H1 H2] E1 E2 Hne. rewrite reindex_eq. split; simpl; [rewrite E1|rewrite E2]; apply exact_reindex; assumption.
Qed.

Lemma index_ok_set m h l :
  index_ok m -> index_ok (reindexHandleLocked (with_unified m (set_bucket (unifiedLocks m) h l)) h (bucket (unifiedLocks m) h)).
Proof.
  intros H. apply (index_ok_reindex m); [exact H|reflexivity|reflexivity|].
  intros h' Hn. simpl. autorewrite with buckets. reflexivity.
Qed.

Lemma index_ok_set_store m m1 h l :
  store_only m m1 -> index_ok m ->
  index_ok (reindexHandleLocked (with_unified m1 (set_bucket (unifiedLocks m1) h l)) h (bucket (unifiedLocks m) h)).
Proof. intros Hs H. destruct Hs as [s ->]. apply (index_ok_set (with_store m s) h l). exact H. Qed.

Lemma index_ok_add m h l :
  index_ok m ->
  index_ok (indexAddLockLocked (with_unified m (<[h := bucket (unifiedLocks m) h ++ [l]]> (unifiedLocks m))) h l).
Proof. intros [H1 H2]. rewrite indexAdd_eq. split; simpl; apply exact_add; assumption. Qed.

Lemma index_ok_update m h i l l' :
  index_ok m -> bucket (unifiedLocks m) h !! i = Some l -> ul_Owner l' = ul_Owner l -> ul_Lease l' = ul_Lease l ->
  index_ok (with_unified m (<[h := <[i := l']> (bucket (unifiedLocks m) h)]> (unifiedLocks m))).
Proof.
  intros [H1 H2] Hi Ho Hl. split; simpl; eapply exact_same_keys; eauto.
  - unfold lease_key. rewrite Hl. reflexivity.
  - unfold client_key. rewrite Ho. reflexivity.
Qed.

Lemma index_ok_locks m l : index_ok m -> index_ok (with_locks m l).
Proof. intros H. exact H. Qed.

Lemma fold_index_ok {A} (f : Manager -> A -> Manager) l m :
  (forall m x, index_ok m -> index_ok (f m x)) -> index_ok m -> index_ok (fold_left f l m).
Proof. intros Hf. revert m. induction l as [|x l IH]; intros m H; simpl; auto. Qed.

Lemma Lock_index now uuid m h lock : index_ok m -> index_ok (fst (Lock now uuid m h lock)).
Proof.
  intros H. unfold Lock, append_lock. repeat case_match; simpl; try exact H;
    (eapply index_ok_store; [apply persistFileLockLocked_store|exact H]).
Qed.

Lemma Unlock_index m h openID sid off len : index_ok m -> index_ok (fst (fst (Unlock m h openID sid off len))).
Proof.
  intros H. unfold Unlock. repeat case_match; simpl; try exact H. apply index_ok_locks.
  eapply index_ok_store; [apply deleteFileLockLocked_store|exact H].
Qed.

Lemma unlock_all_index m h f : index_ok m -> index_ok (fst (unlock_all m h f)).
Proof.
  intros H. unfold unlock_all. destruct (bucket (locks m) h); [exact H|]. simpl fst. apply index_ok_locks.
  eapply index_ok_store; [apply fold_store_only; auto with go|exact H].
Qed.

Lemma AddUnifiedLock_index now m h lock : index_ok m -> index_ok (fst (AddUnifiedLock now m h lock)).
Proof.
  intros H. unfold AddUnifiedLock.
  destruct (List.find _ (bucket (unifiedLocks m) h)); [exact H|].
  match goal with |- context [match ?o with Some _ => _ | None => _ end] => destruct o end; [exact H|].
  destruct (list_find _ _) as [[i el]|] eqn:Er; simpl fst;
    (eapply index_ok_store; [apply persistUnifiedLockLocked_store|]).
  - apply list_find_Some in Er as (Hi & _). eapply index_ok_update; [exact H|exact Hi|reflexivity|reflexivity].
  - apply index_ok_add. exact H.
Qed.

Lemma remove_loop_store uuids owner off len ls : forall i m m' kept found,
  remove_loop uuids i owner off len m ls = (m', kept, found) -> store_only m m'.
Proof.
  induction ls as [|l ls IH]; intros i m m' kept found H; simpl in H.
  - injection H as <- _ _. apply store_only_refl.
  - destruct (_ || _).
    + destruct (remove_loop uuids (S i) owner off len m ls) as [[m1 k1] f1] eqn:E. injection H as <- _ _. eauto.
    + destruct (remove_loop uuids (S i) owner off len _ ls) as [[m1 k1] f1] eqn:E. injection H as <- _ _.
      eapply store_only_trans; [|eapply IH; exact E].
      eapply store_only_trans; [apply deleteUnifiedLockLocked_store|]. apply fold_store_only. auto with go.
Qed.

Lemma RemoveUnifiedLock_index uuids m h owner off len :
  index_ok m -> index_ok (fst (RemoveUnifiedLock uuids m h owner off len)).
Proof.
  intros H. unfold RemoveUnifiedLock. destruct (bucket (unifiedLocks m) h) as [|x ls] eqn:Hb; [exact H|].
  destruct (remove_loop _ _ _ _ _ _ _) as [[m' kept] found] eqn:E. destruct found; [|exact H]. simpl fst.
  rewrite <- Hb. apply index_ok_set_store; [eapply remove_loop_store; exact E|exact H].
Qed.

Lemma UpgradeLock_index m h owner off len : index_ok m -> index_ok (fst (UpgradeLock m h owner off len)).
Proof.
  intros H. unfold UpgradeLock. destruct (list_find _ _) as [[i own]|] eqn:Ef; [|destruct (List.find _ _); exact H].
  destruct (List.find _ _); [exact H|]. apply list_find_Some in Ef as (Hlk & _). simpl fst.
  eapply index_ok_store; [apply persistUnifiedLockLocked_store|]. eapply index_ok_update; [exact H|exact Hlk|..]; reflexivity.
Qed.

Lemma RemoveFileUnifiedLocks_index m h : index_ok m -> index_ok (RemoveFileUnifiedLocks m h).
Proof. apply (index_ok_set m h []). Qed.

Lemma client_sweep_index m keys cid :
  index_ok m ->
  index_ok (fold_left (fun m h => reindexHandleLocked (with_unified m (set_bucket (unifiedLocks m) h
    (List.filter (fun l => negb (bool_decide (lo_ClientID (ul_Owner l) = cid))) (bucket (unifiedLocks m) h)))) h
    (bucket (unifiedLocks m) h)) keys m).
Proof. apply fold_index_ok. intros. apply index_ok_set. assumption. Qed.

Lemma release_bucket_index prefix h m : index_ok m -> index_ok (fst (release_bucket prefix h m)).
Proof.
  intros H. unfold release_bucket. set (gone := List.filter _ _).
  assert (Hs : store_only m (fold_left deleteUnifiedLockLocked gone m)) by (apply fold_store_only; auto with go).
  revert Hs. generalize (fold_left deleteUnifiedLockLocked gone m). intros m1 Hs.
  destruct gone; [eapply index_ok_store; eassumption|]. apply index_ok_set_store; assumption.
Qed.

Lemma ReleaseByOwnerPrefix_index m prefix : index_ok m -> index_ok (fst (ReleaseByOwnerPrefix m prefix)).
Proof.
  unfold ReleaseByOwnerPrefix. generalize 0%nat as n. generalize ((map_to_list (unifiedLocks m)).*1) as keys.
  intros keys. revert m. induction keys as [|h keys IH]; intros m n H; simpl; [exact H|].
  pose proof (release_bucket_index prefix h m H) as H1. destruct (release_bucket prefix h m) as [m1 k].
  apply IH, H1.
Qed.

Lemma removeMatchingLocks_index m h dp f : index_ok m -> index_ok (fst (removeMatchingLocks m h dp f)).
Proof.
  intros H. unfold removeMatchingLocks. destruct (List.filter f _) as [|u l]; [exact H|]. cbn [fst].
  apply index_ok_set_store; [|exact H].
  destruct dp; [apply (fold_store_only _ (u :: l)); auto with go|apply store_only_refl].
Qed.

Lemma step_index m m' : index_ok m -> step m m' -> index_ok m'.
Proof.
  intros H Hstep. destruct Hstep.
  - apply Lock_index, H.
  - apply Unlock_index, H.
  - unfold UnlockAllForOpen. case_bool_decide; [exact H|]. apply unlock_all_index, H.
  - apply unlock_all_index, H.
  - exact H.
  - apply AddUnifiedLock_index, H.
  - apply RemoveUnifiedLock_index, H.
  - apply UpgradeLock_index, H.
  - apply RemoveFileUnifiedLocks_index, H.
  - unfold RemoveAllLocks. case_match; apply (RemoveFileUnifiedLocks_index (with_locks m (delete h (locks m))) h), H.
  - unfold RemoveClientLocks. case_match; apply (client_sweep_index m _ cid H).
  - apply ReleaseByOwnerPrefix_index, H.
  - unfold createAndGrantLease. eapply index_ok_store; [apply persistUnifiedLockLocked_store|]. apply index_ok_add, H.
  - unfold GrantDelegation. destruct recent; [exact H|]. destruct (existsb _ _); [exact H|]. apply index_ok_add, H.
  - unfold RevokeDelegation. pose proof (removeMatchingLocks_index m h false (is_delegation id) H).
    destruct (removeMatchingLocks _ _ _ _). assumption.
  - apply removeMatchingLocks_index, H.
  - apply index_ok_set, H.
  - exact H.
  - exact H.
  - exact H.
Qed.

Lemma exact_empty {K} `{Countable K} (key : UnifiedLock -> option K) : exact key ∅ ∅.
Proof.
  split.
  - intros k b Hb. rewrite lookup_empty in Hb. discriminate.
  - intros k h. unfold ref_count, bucket. rewrite !lookup_empty. simpl. rewrite lookup_empty. reflexivity.
Qed.

Lemma reachable_index m : reachable m -> index_ok m.
Proof. induction 1; [split; apply exact_empty|]. eapply step_index; eassumption. Qed.

(** The reverse indexes never drift: in every reachable manager a file is
    listed for a client (or a lease key) exactly when the client (or key)
    really holds a lock there, with the exact number of its locks as the
    reference count, and no empty or zero entry is kept. *)
Theorem indexes_never_drift m :
  reachable m ->
  refs_wf (clientHandleIndex m) /\ refs_wf (leaseKeyIndex m) /\
  (forall cid h, ref_count (clientHandleIndex m) cid h = holders client_key cid (bucket (unifiedLocks m) h)) /\
  (forall key h, ref_count (leaseKeyIndex m) key h = holders lease_key key (bucket (unifiedLocks m) h)).
Proof. intros Hr. destruct (reachable_index m Hr) as [[? ?] [? ?]]. auto. Qed.

(** ** Sweeping a client *)

Definition of_client (cid : string) (l : UnifiedLock) : bool := bool_decide (lo_ClientID (ul_Owner l) = cid).

Definition sweep (cid : string) (m : Manager) (h : string) : Manager :=
  reindexHandleLocked (with_unified m (set_bucket (unifiedLocks m) h
    (List.filter (fun l => negb (of_client cid l)) (bucket (unifiedLocks m) h)))) h (bucket (unifiedLocks m) h).

Lemma sweep_bucket cid m h h' :
  bucket (unifiedLocks (sweep cid m h)) h' =
  if bool_decide (h = h') then List.filter (fun l => negb (of_client cid l)) (bucket (unifiedLocks m) h')
  else bucket (unifiedLocks m) h'.
Proof.
  unfold sweep. rewrite reindex_eq. simpl. case_bool_decide as E; [subst h'|]; autorewrite with buckets; reflexivity.
Qed.

Lemma filter_absent {A} (f : A -> bool) l : (forall x, In x l -> f x = true) -> List.filter f l = l.
Proof.
  induction l as [|x l IH]; intros H; simpl; [reflexivity|]. rewrite (H x) by (left; reflexivity).
  rewrite IH; [reflexivity|]. intros. apply H. right. assumption.
Qed.

Lemma filter_idem {A} (f : A -> bool) l : List.filter f (List.filter f l) = List.filter f l.
Proof. apply filter_absent. intros x Hx. apply filter_In in Hx. apply Hx. Qed.

Lemma sweeps_bucket cid keys m h :
  bucket (unifiedLocks (fold_left (sweep cid) keys m)) h =
  if bool_decide (h ∈ keys) then List.filter (fun l => negb (of_client cid l)) (bucket (unifiedLocks m) h)
  else bucket (unifiedLocks m) h.
Proof.
  revert m. induction keys as [|k keys IH]; intros m; cbn [fold_left];
    [rewrite bool_decide_eq_false_2 by apply not_elem_of_nil; reflexivity|].
  rewrite IH, sweep_bucket, (bool_decide_ext (h ∈ k :: keys) (h = k \/ h ∈ keys)) by apply elem_of_cons.
  repeat case_bool_decide; try naive_solver. apply filter_idem.
Qed.

Lemma sweeps_locks cid keys m : locks (fold_left (sweep cid) keys m) = locks m.
Proof.
  revert m. induction keys as [|k keys IH]; intros m; [reflexivity|]. simpl. rewrite IH.
  unfold sweep. rewrite reindex_eq. reflexivity.
Qed.

Lemma ref_count_key {K} `{Countable K} (idx : refs K) k h :
  ref_count idx k h <> 0 -> h ∈ (map_to_list (default ∅ (idx !! k))).*1.
Proof.
  unfold ref_count. intros Hn. destruct (default ∅ (idx !! k) !! h) as [n|] eqn:E; [|simpl in Hn; lia].
  apply list_elem_of_fmap. exists (h, n). split; [reflexivity|]. apply elem_of_map_to_list. exact E.
Qed.

Lemma RemoveClientLocks_buckets m cid :
  index_ok m -> cid <> EmptyString ->
  (forall h, bucket (unifiedLocks (RemoveClientLocks m cid)) h =
             List.filter (fun l => negb (of_client cid l)) (bucket (unifiedLocks m) h)) /\
  locks (RemoveClientLocks m cid) = locks m.
Proof.
  intros [_ [_ Hcount]] Hcid. unfold RemoveClientLocks. fold (sweep cid).
  set (keys := (map_to_list _).*1).
  change (fold_left _ keys m) with (fold_left (sweep cid) keys m).
  pose proof (sweeps_locks cid keys m) as Hl.
  assert (Hb : forall h, bucket (unifiedLocks (fold_left (sweep cid) keys m)) h =
             List.filter (fun l => negb (of_client cid l)) (bucket (unifiedLocks m) h)).
  { intros h. rewrite sweeps_bucket. case_bool_decide as Hin; [reflexivity|]. symmetry. apply filter_absent.
    intros l Hlin. apply negb_true_iff, bool_decide_eq_false. intros Heq. apply Hin, ref_count_key.
    rewrite Hcount. unfold holders.
    assert (l ∈ filter (fun l => client_key l = Some cid) (bucket (unifiedLocks m) h)) as Hf.
    { apply list_elem_of_filter. split; [|apply list_elem_of_In, Hlin]. unfold client_key. rewrite Heq.
      rewrite bool_decide_eq_true_2 by assumption. reflexivity. }
    destruct (filter _ _); [inversion Hf|]. simpl. lia. }
  destruct (lockStore (fold_left (sweep cid) keys m)); split; assumption.
Qed.

Lemma sweeps_frame cid keys m :
  lockStore (fold_left (sweep cid) keys m) = lockStore m /\ epoch (fold_left (sweep cid) keys m) = epoch m /\
  shareName (fold_left (sweep cid) keys m) = shareName m.
Proof.
  revert m. induction keys as [|k keys IH]; intros m; [auto|]. cbn [fold_left].
  destruct (IH (sweep cid m k)) as (-> & -> & ->). unfold sweep. rewrite reindex_eq. auto.
Qed.

Lemma RemoveClientLocks_frame m cid :
  lockStore (RemoveClientLocks m cid) = option_map (fun s => DeleteLocksByClient s cid) (lockStore m) /\
  epoch (RemoveClientLocks m cid) = epoch m /\ shareName (RemoveClientLocks m cid) = shareName m.
Proof.
  unfold RemoveClientLocks. set (keys := (map_to_list _).*1).
  change (fold_left _ keys m) with (fold_left (sweep cid) keys m).
  destruct (sweeps_frame cid keys m) as (<- & <- & <-).
  destruct (lockStore (fold_left (sweep cid) keys m)) eqn:E; simpl; rewrite ?E; auto.
Qed.

(** Cleaning up after a disconnected client visits only the files its index
    lists, and that is enough: afterwards no unified lock, lease or delegation
    of the client is left on any file, the locks of the others are untouched
    and in order, the SMB locks are untouched, and no persisted record of the
    client survives. *)
Theorem RemoveClientLocks_complete m cid :
  reachable m -> cid <> EmptyString ->
  (forall h, bucket (unifiedLocks (RemoveClientLocks m cid)) h =
             List.filter (fun l => negb (of_client cid l)) (bucket (unifiedLocks m) h)) /\
  locks (RemoveClientLocks m cid) = locks m /\
  (forall s id pl, lockStore (RemoveClientLocks m cid) = Some s -> s !! id = Some pl -> pl_ClientID pl <> cid).
Proof.
  intros Hr Hcid. destruct (RemoveClientLocks_buckets m cid (reachable_index m Hr) Hcid) as [Hb Hl].
  split; [exact Hb|]. split; [exact Hl|]. intros s id pl. rewrite (proj1 (RemoveClientLocks_frame m cid)).
  destruct (lockStore m); intros [= <-] Hpl. apply map_lookup_filter_Some in Hpl as [_ Hpl]. exact Hpl.
Qed.

(** ** The theorems at a concrete share *)

Lemma indexes_never_drift_witness :
  ref_count (clientHandleIndex sample_shared) "client" "file" = 1 /\
  ref_count (clientHandleIndex sample_shared) "client" "file" =
  holders client_key "client" (bucket (unifiedLocks sample_shared) "file").
Proof.
  split; [vm_compute; reflexivity|]. apply (indexes_never_drift sample_shared sample_shared_reachable).
Defined.

Lemma RemoveClientLocks_complete_witness :
  bucket (unifiedLocks (RemoveClientLocks sample_shared "client")) "file" =
  List.filter (fun l => negb (of_client "client" l)) (bucket (unifiedLocks sample_shared) "file").
Proof.
  apply (RemoveClientLocks_complete sample_shared "client" sample_shared_reachable). discriminate.
Defined.
