(* ===== verification/LockDurable.v ===== *)
(** * Durability of locks ([pkg/metadata/lock/manager.go], [store.go])

    With a lock store attached, the lock operations mirror their changes into
    the store under the manager's mutex.  This file proves that the store is,
    after any sequence of the operations that do, exactly the set of records of the locks
    held in memory, and that a restart, [RestoreLocks] on the store's records in
    whatever order the store lists them, brings back exactly those locks.

    The store is taken to accept every write (a failed write is only logged,
    and then a restart may lose or resurrect that lock).  Delegations are not
    persisted by [GrantDelegation] and stay outside. *)

From S2P Require Import Prelude LockTypes LockManager LockIndex.

Abbreviation store := (gmap string PersistedLock).

(** ** A store that mirrors one list of entries and something else *)

Section mirror.
Context {E : Type} (idf : E -> string) (recf : E -> PersistedLock).
Context (other : string -> PersistedLock -> Prop).
Context (mine : PersistedLock -> Prop).
Context (other_not_mine : forall id pl, other id pl -> ~ mine pl).
Context (ok : E -> Prop) (recf_mine : forall e, ok e -> mine (recf e)).
Implicit Types (l : list E) (s : store).

Definition record_in l (id : string) (pl : PersistedLock) : Prop := exists e, In e l /\ idf e = id /\ recf e = pl.

Record mirrors (s : store) (l : list E) : Prop := mkMirrors {
  mi_ok : Forall ok l;
  mi_ids : NoDup (map idf l);
  mi_iff : forall id pl, s !! id = Some pl <-> other id pl \/ record_in l id pl;
}.

Lemma mirrors_stored s l e : mirrors s l -> In e l -> s !! idf e = Some (recf e).
Proof. intros [_ _ H] He. apply H. right. exists e. auto. Qed.

Lemma mirrors_other_id s l e pl : mirrors s l -> In e l -> ~ other (idf e) pl.
Proof.
  intros Hm He Ho. pose proof (mirrors_stored _ _ _ Hm He) as H1.
  assert (s !! idf e = Some pl) as H2 by (apply (mi_iff _ _ Hm); left; exact Ho).
  assert (pl = recf e) as -> by congruence. apply (other_not_mine _ _ Ho), recf_mine.
  destruct Hm as [Hok _ _]. rewrite List.Forall_forall in Hok. auto.
Qed.

Lemma NoDup_map_inj (l : list E) a b : NoDup (map idf l) -> In a l -> In b l -> idf a = idf b -> a = b.
Proof.
  induction l as [|x l IH]; simpl; intros Hn Ha Hb Heq; [tauto|].
  apply NoDup_cons in Hn as [Hx Hn]. rewrite list_elem_of_In in Hx.
  destruct Ha as [->|Ha], Hb as [->|Hb]; auto; exfalso; apply Hx.
  - rewrite Heq. apply in_map, Hb.
  - rewrite <- Heq. apply in_map, Ha.
Qed.

Lemma mirrors_append s l e :
  mirrors s l -> ok e -> s !! idf e = None -> mirrors (<[idf e := recf e]> s) (l ++ [e]).
Proof.
  intros Hm Hok Hfresh. split.
  - apply Forall_app. split; [apply (mi_ok _ _ Hm)|apply Forall_singleton, Hok].
  - rewrite map_app. apply NoDup_app. split; [apply (mi_ids _ _ Hm)|]. split; [|apply NoDup_singleton].
    intros x Hx Hin. apply list_elem_of_In in Hx. apply list_elem_of_In in Hin as [<-|[]].
    apply in_map_iff in Hx as (y & Hy & Hyl).
    rewrite <- Hy, (mirrors_stored s l y Hm Hyl) in Hfresh. discriminate.
  - intros id pl. destruct (decide (idf e = id)) as [<-|Hn].
    + rewrite lookup_insert_eq. split.
      * intros [= <-]. right. exists e. split; [apply in_or_app; right; left; reflexivity|auto].
      * intros [Ho|(y & Hy & Hid & <-)].
        -- assert (s !! idf e = Some pl) by (apply (mi_iff _ _ Hm); auto). congruence.
        -- apply in_app_or in Hy as [Hy|[<-|[]]]; [|reflexivity].
           rewrite <- Hid, (mirrors_stored s l y Hm Hy) in Hfresh. discriminate.
    + rewrite lookup_insert_ne, (mi_iff _ _ Hm) by assumption. unfold record_in. split.
      * intros [Ho|(y & Hy & Hid & <-)]; [left; exact Ho|right]. exists y. split; [apply in_or_app; auto|auto].
      * intros [Ho|(y & Hy & Hid & <-)]; [left; exact Ho|right].
        apply in_app_or in Hy as [Hy|[<-|[]]]; [exists y; auto|congruence].
Qed.

Lemma mirrors_delete_one s l1 e l2 : mirrors s (l1 ++ e :: l2) -> mirrors (delete (idf e) s) (l1 ++ l2).
Proof.
  intros Hm.
  assert (He : In e (l1 ++ e :: l2)) by (apply in_or_app; right; left; reflexivity).
  pose proof (mi_ids _ _ Hm) as Hn. rewrite map_app in Hn. simpl in Hn.
  assert (Hn' := Hn). rewrite <- Permutation_middle in Hn'. apply NoDup_cons in Hn' as [Hfresh Hn'].
  split; [|rewrite map_app; exact Hn'|].
  { pose proof (mi_ok _ _ Hm) as Hok. rewrite Forall_app, Forall_cons in Hok. apply Forall_app. tauto. }
  intros id pl. destruct (decide (idf e = id)) as [<-|Hid].
  - rewrite lookup_delete_eq. split; [discriminate|].
    intros [Ho|(y & Hy & Hid & _)]; [exfalso; eapply mirrors_other_id; eauto|].
    exfalso. apply Hfresh. rewrite <- Hid, <- map_app. apply list_elem_of_In, in_map, Hy.
  - rewrite lookup_delete_ne, (mi_iff _ _ Hm) by assumption. unfold record_in. split.
    + intros [Ho|(y & Hy & Hid' & <-)]; [left; exact Ho|right]. exists y. split; [|auto].
      apply in_app_or in Hy as [Hy|[<-|Hy]]; [| congruence |]; apply in_or_app; auto.
    + intros [Ho|(y & Hy & Hid' & <-)]; [left; exact Ho|right]. exists y. split; [|auto].
      apply in_app_or in Hy as [Hy|Hy]; apply in_or_app; simpl; auto.
Qed.

(** An update in place that keeps the identifier. *)
Lemma mirrors_update s l i e e' :
  mirrors s l -> l !! i = Some e -> ok e' -> idf e' = idf e ->
  mirrors (<[idf e' := recf e']> s) (<[i := e']> l).
Proof.
  intros Hm Hi Hok Hid. pose proof (lookup_lt_Some _ _ _ Hi) as Hlt.
  rewrite insert_take_drop by exact Hlt. pose proof Hm as Hm'. rewrite <- (take_drop_middle _ _ _ Hi) in Hm'.
  apply mirrors_delete_one in Hm'. rewrite Hid.
  assert (Hperm : mirrors (<[idf e := recf e']> (delete (idf e) s)) ((take i l ++ drop (S i) l) ++ [e'])).
  { rewrite <- Hid. apply mirrors_append; [rewrite Hid; exact Hm'|exact Hok|]. rewrite Hid. apply lookup_delete_eq. }
  rewrite insert_delete_eq in Hperm. destruct Hperm as [Hoks Hn Hiff]. split.
  - rewrite !Forall_app, Forall_singleton in Hoks. rewrite Forall_app, Forall_cons. tauto.
  - rewrite map_app in *. cbn [map]. rewrite <- Permutation_middle. rewrite map_app in Hn. cbn [map] in Hn.
    rewrite Permutation_app_comm in Hn. exact Hn.
  - intros id pl. rewrite Hiff. unfold record_in. split; intros [Ho|(y & Hy & Hrest)]; auto; right; exists y; (split; [|exact Hrest]).
    + apply in_app_or in Hy as [Hy|[<-|[]]]; [|apply in_or_app; right; left; reflexivity].
      apply in_app_or in Hy as [Hy|Hy]; apply in_or_app; simpl; auto.
    + apply in_app_or in Hy as [Hy|[<-|Hy]]; apply in_or_app; simpl; auto; left; apply in_or_app; auto.
Qed.

(** Deleting the entries selected by [f]. *)
Lemma mirrors_filter s pre l f :
  mirrors s (pre ++ l) ->
  mirrors (fold_left (fun s e => delete (idf e) s) (List.filter f l) s) (pre ++ List.filter (fun e => negb (f e)) l).
Proof.
  revert s pre. induction l as [|e l IH]; intros s pre Hm; simpl; [exact Hm|].
  destruct (f e); simpl.
  - apply IH. apply mirrors_delete_one. exact Hm.
  - change (e :: List.filter (fun e => negb (f e)) l) with ([e] ++ List.filter (fun e => negb (f e)) l).
    rewrite app_assoc. apply IH. rewrite <- app_assoc. exact Hm.
Qed.

Lemma mirrors_Permutation s l l' : Permutation l l' -> mirrors s l -> mirrors s l'.
Proof.
  intros Hp [Hok Hn Hi]. split; [rewrite <- Hp; exact Hok|rewrite <- Hp; exact Hn|]. intros id pl. rewrite Hi. unfold record_in.
  split; intros [Ho|(y & Hy & Hr)]; auto; right; exists y; (split; [|exact Hr]).
  - eapply Permutation_in; eassumption.
  - eapply Permutation_in; [symmetry|]; eassumption.
Qed.

Lemma mirrors_insert_mid s l1 l2 e :
  mirrors s (l1 ++ l2) -> ok e -> s !! idf e = None -> mirrors (<[idf e := recf e]> s) (l1 ++ e :: l2).
Proof.
  intros Hm Hok Hf. eapply mirrors_Permutation; [|apply mirrors_append; eassumption].
  rewrite Permutation_app_comm. simpl. apply Permutation_middle.
Qed.
End mirror.

(** ** The whole store *)

Definition held_fl (m : Manager) (h id : string) (pl : PersistedLock) : Prop :=
  record_in fl_persistID (fileLockToPersisted m h) (bucket (locks m) h) id pl.
Definition held_ul (m : Manager) (h id : string) (pl : PersistedLock) : Prop :=
  record_in ul_ID (unifiedToPersisted m) (bucket (unifiedLocks m) h) id pl.

(** [pl] is the record of a held lock whose identifier is [id]. *)
Definition held (m : Manager) (id : string) (pl : PersistedLock) : Prop :=
  (exists h, held_fl m h id pl) \/ (exists h, held_ul m h id pl).

Definition fl_id_ok (fl : FileLock) : Prop := fl_persistID fl <> EmptyString.
Definition ul_file (h : string) (ul : UnifiedLock) : Prop := ul_FileHandle ul = h.

Record durable (m : Manager) (s : store) : Prop := mkDurable {
  du_iff : forall id pl, s !! id = Some pl <-> held m id pl;
  du_fl : forall h, Forall fl_id_ok (bucket (locks m) h) /\ NoDup (map fl_persistID (bucket (locks m) h));
  du_ul : forall h, Forall (ul_file h) (bucket (unifiedLocks m) h) /\ NoDup (map ul_ID (bucket (unifiedLocks m) h));
}.

Lemma persisted_frame m m' :
  epoch m' = epoch m -> shareName m' = shareName m ->
  (forall h fl, fileLockToPersisted m' h fl = fileLockToPersisted m h fl) /\
  (forall ul, unifiedToPersisted m' ul = unifiedToPersisted m ul).
Proof.
  intros He Hs. split; intros; unfold fileLockToPersisted, unifiedToPersisted; rewrite He, Hs; reflexivity.
Qed.

Definition legacy_of (h : string) (pl : PersistedLock) : Prop := pl_IsLegacyByteRange pl = true /\ pl_FileID pl = h.
Definition unified_of (h : string) (pl : PersistedLock) : Prop := pl_IsLegacyByteRange pl = false /\ pl_FileID pl = h.

Lemma legacy_record m h fl : legacy_of h (fileLockToPersisted m h fl).
Proof. split; reflexivity. Qed.

Lemma unified_record m h ul : ul_file h ul -> unified_of h (unifiedToPersisted m ul).
Proof.
  intros Hf. unfold unified_of, unifiedToPersisted, ToPersistedLock, ul_file in *.
  destruct (ul_Lease ul), (ul_Delegation ul); simpl; case_bool_decide; simpl; auto.
Qed.

(** What the store holds besides the SMB locks, or the unified locks, of one file. *)
Definition besides_fl (m : Manager) (h id : string) (pl : PersistedLock) : Prop :=
  (exists h', h' <> h /\ held_fl m h' id pl) \/ (exists h', held_ul m h' id pl).
Definition besides_ul (m : Manager) (h id : string) (pl : PersistedLock) : Prop :=
  (exists h', held_fl m h' id pl) \/ (exists h', h' <> h /\ held_ul m h' id pl).

Definition mirrors_fl (m : Manager) (h : string) : store -> list FileLock -> Prop :=
  mirrors fl_persistID (fileLockToPersisted m h) (besides_fl m h) fl_id_ok.
Definition mirrors_ul (m : Manager) (h : string) : store -> list UnifiedLock -> Prop :=
  mirrors ul_ID (unifiedToPersisted m) (besides_ul m h) (ul_file h).

Lemma besides_fl_not_legacy m s h id pl : durable m s -> besides_fl m h id pl -> ~ legacy_of h pl.
Proof.
  intros Hd [(h' & Hn & fl & _ & _ & <-)|(h' & ul & Hul & _ & <-)] [Hl Hf].
  - simpl in Hf. congruence.
  - destruct (du_ul _ _ Hd h') as [Hok _]. rewrite List.Forall_forall in Hok.
    destruct (unified_record m h' ul (Hok ul Hul)). congruence.
Qed.

Lemma besides_ul_not_unified m s h id pl : durable m s -> besides_ul m h id pl -> ~ unified_of h pl.
Proof.
  intros Hd [(h' & fl & _ & _ & <-)|(h' & Hn & ul & Hul & _ & <-)] [Hl Hf].
  - discriminate.
  - destruct (du_ul _ _ Hd h') as [Hok _]. rewrite List.Forall_forall in Hok.
    destruct (unified_record m h' ul (Hok ul Hul)). congruence.
Qed.

Lemma durable_mirrors_fl m s h : durable m s -> mirrors_fl m h s (bucket (locks m) h).
Proof.
  intros Hd. destruct (du_fl _ _ Hd h) as [Hok Hn]. split; [exact Hok|exact Hn|].
  intros id pl. rewrite (du_iff _ _ Hd). unfold held, besides_fl, held_fl. split.
  - intros [(h' & Hh)|Hu]; [|tauto]. destruct (decide (h' = h)) as [->|Hne]; [right; exact Hh|left; left; eauto].
  - intros [[(h' & _ & Hh)|Hu]|Hh]; eauto.
Qed.

Lemma durable_mirrors_ul m s h : durable m s -> mirrors_ul m h s (bucket (unifiedLocks m) h).
Proof.
  intros Hd. destruct (du_ul _ _ Hd h) as [Hok Hn]. split; [exact Hok|exact Hn|].
  intros id pl. rewrite (du_iff _ _ Hd). unfold held, besides_ul, held_ul. split.
  - intros [Hf|(h' & Hh)]; [tauto|]. destruct (decide (h' = h)) as [->|Hne]; [right; exact Hh|left; right; eauto].
  - intros [[Hf|(h' & _ & Hh)]|Hh]; eauto.
Qed.

(** Putting a bucket back. *)
Lemma mirrors_fl_durable m m' s s' h :
  durable m s -> epoch m' = epoch m -> shareName m' = shareName m -> unifiedLocks m' = unifiedLocks m ->
  (forall h', h <> h' -> bucket (locks m') h' = bucket (locks m) h') ->
  mirrors_fl m h s' (bucket (locks m') h) -> durable m' s'.
Proof.
  intros Hd He Hs Hu Hne [Hok Hn Hiff]. destruct (persisted_frame m m' He Hs) as [Hrf Hru].
  assert (Hheld : forall h' id pl, h <> h' -> held_fl m' h' id pl <-> held_fl m h' id pl).
  { intros h' id pl Hh. unfold held_fl, record_in. rewrite Hne by exact Hh. setoid_rewrite Hrf. reflexivity. }
  assert (Hheldu : forall h' id pl, held_ul m' h' id pl <-> held_ul m h' id pl).
  { intros h' id pl. unfold held_ul, record_in. rewrite Hu. setoid_rewrite Hru. reflexivity. }
  split.
  - intros id pl. rewrite Hiff. unfold held, besides_fl. setoid_rewrite Hheldu. split.
    + intros [[(h' & Hh & H)|H]|H]; [left; exists h'; apply Hheld; auto|right; exact H|left; exists h].
      unfold held_fl, record_in in *. setoid_rewrite Hrf. exact H.
    + intros [(h' & H)|H]; [|left; right; exact H]. destruct (decide (h' = h)) as [->|Hh].
      * right. unfold held_fl, record_in in *. setoid_rewrite Hrf in H. exact H.
      * left. left. exists h'. split; [exact Hh|]. apply Hheld; auto.
  - intros h'. destruct (decide (h = h')) as [<-|Hh]; [auto|]. rewrite Hne by exact Hh. apply Hd.
  - intros h'. rewrite Hu. apply Hd.
Qed.

Lemma mirrors_ul_durable m m' s s' h :
  durable m s -> epoch m' = epoch m -> shareName m' = shareName m -> locks m' = locks m ->
  (forall h', h <> h' -> bucket (unifiedLocks m') h' = bucket (unifiedLocks m) h') ->
  mirrors_ul m h s' (bucket (unifiedLocks m') h) -> durable m' s'.
Proof.
  intros Hd He Hs Hu Hne [Hok Hn Hiff]. destruct (persisted_frame m m' He Hs) as [Hrf Hru].
  assert (Hheld : forall h' id pl, h <> h' -> held_ul m' h' id pl <-> held_ul m h' id pl).
  { intros h' id pl Hh. unfold held_ul, record_in. rewrite Hne by exact Hh. setoid_rewrite Hru. reflexivity. }
  assert (Hheldf : forall h' id pl, held_fl m' h' id pl <-> held_fl m h' id pl).
  { intros h' id pl. unfold held_fl, record_in. rewrite Hu. setoid_rewrite Hrf. reflexivity. }
  split.
  - intros id pl. rewrite Hiff. unfold held, besides_ul. setoid_rewrite Hheldf. split.
    + intros [[H|(h' & Hh & H)]|H]; [left; exact H|right; exists h'; apply Hheld; auto|right; exists h].
      unfold held_ul, record_in in *. setoid_rewrite Hru. exact H.
    + intros [H|(h' & H)]; [left; left; exact H|]. destruct (decide (h' = h)) as [->|Hh].
      * right. unfold held_ul, record_in in *. setoid_rewrite Hru in H. exact H.
      * left. right. exists h'. split; [exact Hh|]. apply Hheld; auto.
  - intros h'. rewrite Hu. apply Hd.
  - intros h'. destruct (decide (h = h')) as [<-|Hh]; [auto|]. rewrite Hne by exact Hh. apply Hd.
Qed.

Definition mirrored (m : Manager) : Prop := exists s, lockStore m = Some s /\ durable m s.

(** ** SMB locks *)

Lemma fl_update m s0 h s l i e e' :
  durable m s0 -> mirrors_fl m h s l -> l !! i = Some e -> fl_id_ok e' -> fl_persistID e' = fl_persistID e ->
  mirrors_fl m h (<[fl_persistID e' := fileLockToPersisted m h e']> s) (<[i := e']> l).
Proof.
  intros Hd. apply (mirrors_update _ _ _ (legacy_of h)); [|intros; apply legacy_record; assumption].
  intros id pl. eapply besides_fl_not_legacy; eassumption.
Qed.

Lemma fl_filter m s0 h s pre l f :
  durable m s0 -> mirrors_fl m h s (pre ++ l) ->
  mirrors_fl m h (fold_left (fun s e => delete (fl_persistID e) s) (List.filter f l) s)
    (pre ++ List.filter (fun e => negb (f e)) l).
Proof.
  intros Hd. apply (mirrors_filter _ _ _ (legacy_of h)); [|intros; apply legacy_record; assumption].
  intros id pl. eapply besides_fl_not_legacy; eassumption.
Qed.

Lemma fl_delete_one m s0 h s l1 e l2 :
  durable m s0 -> mirrors_fl m h s (l1 ++ e :: l2) -> mirrors_fl m h (delete (fl_persistID e) s) (l1 ++ l2).
Proof.
  intros Hd. apply (mirrors_delete_one _ _ _ (legacy_of h)); [|intros; apply legacy_record; assumption].
  intros id pl. eapply besides_fl_not_legacy; eassumption.
Qed.

Lemma ul_update m s0 h s l i e e' :
  durable m s0 -> mirrors_ul m h s l -> l !! i = Some e -> ul_file h e' -> ul_ID e' = ul_ID e ->
  mirrors_ul m h (<[ul_ID e' := unifiedToPersisted m e']> s) (<[i := e']> l).
Proof.
  intros Hd. apply (mirrors_update _ _ _ (unified_of h)); [|intros; apply unified_record; assumption].
  intros id pl. eapply besides_ul_not_unified; eassumption.
Qed.

Lemma ul_filter m s0 h s pre l f :
  durable m s0 -> mirrors_ul m h s (pre ++ l) ->
  mirrors_ul m h (fold_left (fun s e => delete (ul_ID e) s) (List.filter f l) s)
    (pre ++ List.filter (fun e => negb (f e)) l).
Proof.
  intros Hd. apply (mirrors_filter _ _ _ (unified_of h)); [|intros; apply unified_record; assumption].
  intros id pl. eapply besides_ul_not_unified; eassumption.
Qed.

Lemma ul_delete_one m s0 h s l1 e l2 :
  durable m s0 -> mirrors_ul m h s (l1 ++ e :: l2) -> mirrors_ul m h (delete (ul_ID e) s) (l1 ++ l2).
Proof.
  intros Hd. apply (mirrors_delete_one _ _ _ (unified_of h)); [|intros; apply unified_record; assumption].
  intros id pl. eapply besides_ul_not_unified; eassumption.
Qed.

Lemma append_lock_mirrored now uuid m h lock :
  mirrored m -> fl_persistID lock = EmptyString -> uuid <> EmptyString ->
  (forall s, lockStore m = Some s -> s !! uuid = None) ->
  mirrored (fst (append_lock now uuid m h lock)).
Proof.
  intros (s & Hs & Hd) Hid Hu Hf. unfold append_lock, persistFileLockLocked. simpl. rewrite Hs.
  eexists. split; [reflexivity|].
  assert (Hst : fl_persistID (stamp now uuid lock) = uuid).
  { unfold stamp, assignPersistIDLocked. destruct (_ =? _); simpl; rewrite Hid; reflexivity. }
  eapply (mirrors_fl_durable m _ s _ h Hd); try reflexivity; simpl.
  - intros h' Hn. autorewrite with buckets. reflexivity.
  - autorewrite with buckets. unfold PutLock. simpl pl_ID.
    apply (mirrors_append _ _ _ _ s _ (stamp now uuid lock)).
    + apply durable_mirrors_fl, Hd.
    + unfold fl_id_ok. congruence.
    + rewrite Hst. apply Hf, Hs.
Qed.

Lemma Lock_mirrored now uuid m h lock :
  mirrored m -> fl_persistID lock = EmptyString -> uuid <> EmptyString ->
  (forall s, lockStore m = Some s -> s !! uuid = None) ->
  mirrored (fst (Lock now uuid m h lock)).
Proof.
  intros Hm Hid Hu Hf. unfold Lock.
  destruct (List.find _ (bucket (locks m) h)); [exact Hm|].
  destruct (List.find _ (bucket (unifiedLocks m) h)); [exact Hm|].
  case_bool_decide; [|apply append_lock_mirrored; assumption].
  destruct (list_find _ _) as [[i e]|] eqn:Er; [|apply append_lock_mirrored; assumption].
  apply list_find_Some in Er as (Hi & _). destruct Hm as (s & Hs & Hd).
  unfold persistFileLockLocked. simpl. rewrite Hs. eexists. split; [reflexivity|].
  assert (He : fl_id_ok e) by (eapply Forall_lookup_1; [apply (du_fl _ _ Hd h)|exact Hi]).
  assert (Hid' : fl_persistID (relock now uuid lock e) = fl_persistID e).
  { unfold relock, assignPersistIDLocked. simpl. rewrite bool_decide_eq_true_2 by exact He. reflexivity. }
  eapply (mirrors_fl_durable m _ s _ h Hd); try reflexivity; simpl.
  - intros h' Hn. autorewrite with buckets. reflexivity.
  - autorewrite with buckets. unfold PutLock. simpl pl_ID. 
    apply (fl_update m s h s (bucket (locks m) h) i e (relock now uuid lock e) Hd); auto.
    + apply durable_mirrors_fl, Hd.
    + unfold fl_id_ok in *. congruence.
Qed.

(** The deletions of a release, as one sequence of deletions in the store. *)
Lemma delete_files_store gone m s :
  lockStore m = Some s -> Forall fl_id_ok gone ->
  fold_left deleteFileLockLocked gone m =
  with_store m (Some (fold_left (fun s e => delete (fl_persistID e) s) gone s)).
Proof.
  revert m s. induction gone as [|e gone IH]; intros m s Hs Hok; simpl; [rewrite <- Hs; destruct m; reflexivity|].
  apply Forall_cons in Hok as [He Hok]. unfold deleteFileLockLocked at 2. rewrite Hs.
  rewrite bool_decide_eq_false_2 by exact He. rewrite (IH _ (DeleteLock s (fl_persistID e))); [reflexivity|reflexivity|exact Hok].
Qed.

Lemma unlock_all_mirrored m h f : mirrored m -> mirrored (fst (unlock_all m h f)).
Proof.
  intros (s & Hs & Hd). unfold unlock_all. destruct (bucket (locks m) h) as [|x l] eqn:Hb; [exists s; auto|].
  rewrite <- Hb. pose proof (durable_mirrors_fl m s h Hd) as Hm.
  rewrite (delete_files_store _ m s Hs).
  - eexists. split; [reflexivity|]. eapply (mirrors_fl_durable m _ s _ h Hd); try reflexivity; simpl.
    + intros h' Hn. autorewrite with buckets. reflexivity.
    + autorewrite with buckets. apply (fl_filter m s h s [] (bucket (locks m) h) f Hd Hm).
  - destruct (du_fl _ _ Hd h) as [Hok _]. rewrite List.Forall_forall in *. intros e He.
    apply filter_In in He as [He _]. auto.
Qed.

Lemma Unlock_mirrored m h openID sid off len : mirrored m -> mirrored (fst (fst (Unlock m h openID sid off len))).
Proof.
  intros (s & Hs & Hd). unfold Unlock. destruct (list_find _ _) as [[i e]|] eqn:Er; [|exists s; auto].
  apply list_find_Some in Er as (Hi & _). simpl fst.
  assert (He : fl_id_ok e) by (eapply Forall_lookup_1; [apply (du_fl _ _ Hd h)|exact Hi]).
  unfold deleteFileLockLocked. rewrite Hs, bool_decide_eq_false_2 by exact He.
  eexists. split; [reflexivity|]. eapply (mirrors_fl_durable m _ s _ h Hd); try reflexivity; simpl.
  - intros h' Hn. autorewrite with buckets. reflexivity.
  - autorewrite with buckets. rewrite delete_take_drop. unfold DeleteLock.
    eapply fl_delete_one; [exact Hd|]. rewrite (take_drop_middle _ _ _ Hi). apply durable_mirrors_fl, Hd.
Qed.

(** ** Unified locks *)

Lemma unifiedToPersisted_ID m ul : pl_ID (unifiedToPersisted m ul) = ul_ID ul.
Proof.
  unfold unifiedToPersisted, ToPersistedLock. destruct (ul_Lease ul), (ul_Delegation ul); case_bool_decide; reflexivity.
Qed.

Lemma unifiedToPersisted_ClientID m ul : pl_ClientID (unifiedToPersisted m ul) = lo_ClientID (ul_Owner ul).
Proof.
  unfold unifiedToPersisted, ToPersistedLock. destruct (ul_Lease ul), (ul_Delegation ul); simpl; case_bool_decide; reflexivity.
Qed.

(** A mutated bucket together with the store that mirrors it. *)
Lemma mirrored_ul_intro m m' s s' h :
  durable m s -> lockStore m' = Some s' -> epoch m' = epoch m -> shareName m' = shareName m -> locks m' = locks m ->
  (forall h', h <> h' -> bucket (unifiedLocks m') h' = bucket (unifiedLocks m) h') ->
  mirrors_ul m h s' (bucket (unifiedLocks m') h) -> mirrored m'.
Proof. intros. exists s'. split; [assumption|]. eapply mirrors_ul_durable; eassumption. Qed.

Lemma ul_append_mirrored m h l :
  mirrored m -> ul_file h l -> (forall s, lockStore m = Some s -> s !! ul_ID l = None) ->
  mirrored (persistUnifiedLockLocked
    (indexAddLockLocked (with_unified m (<[h := bucket (unifiedLocks m) h ++ [l]]> (unifiedLocks m))) h l) l).
Proof.
  intros (s & Hs & Hd) Hfile Hf. rewrite indexAdd_eq. unfold persistUnifiedLockLocked. simpl. rewrite Hs.
  eapply (mirrored_ul_intro m _ s _ h Hd); try reflexivity; simpl.
  - intros h' Hn. autorewrite with buckets. reflexivity.
  - autorewrite with buckets. unfold PutLock. rewrite unifiedToPersisted_ID.
    apply (mirrors_append _ _ _ _ s _ l); [apply durable_mirrors_ul, Hd|exact Hfile|apply Hf, Hs].
Qed.

Lemma ul_update_mirrored m h i e e' :
  mirrored m -> bucket (unifiedLocks m) h !! i = Some e -> ul_ID e' = ul_ID e -> ul_FileHandle e' = ul_FileHandle e ->
  mirrored (persistUnifiedLockLocked (with_unified m (<[h := <[i := e']> (bucket (unifiedLocks m) h)]> (unifiedLocks m))) e').
Proof.
  intros (s & Hs & Hd) Hi Hid Hfh. unfold persistUnifiedLockLocked. simpl. rewrite Hs.
  eapply (mirrored_ul_intro m _ s _ h Hd); try reflexivity; simpl.
  - intros h' Hn. autorewrite with buckets. reflexivity.
  - autorewrite with buckets. unfold PutLock. rewrite unifiedToPersisted_ID.
    apply (ul_update m s h s (bucket (unifiedLocks m) h) i e e' Hd); auto.
    + apply durable_mirrors_ul, Hd.
    + unfold ul_file. rewrite Hfh. destruct (du_ul _ _ Hd h) as [Hok _].
      apply (Forall_lookup_1 (ul_file h) _ _ _ Hok Hi).
Qed.

Lemma AddUnifiedLock_mirrored now m h lock :
  mirrored m -> ul_file h lock -> (forall s, lockStore m = Some s -> s !! ul_ID lock = None) ->
  mirrored (fst (AddUnifiedLock now m h lock)).
Proof.
  intros Hm Hfile Hf. unfold AddUnifiedLock.
  destruct (List.find _ (bucket (unifiedLocks m) h)); [exact Hm|].
  match goal with |- context [match ?o with Some _ => _ | None => _ end] => destruct o end; [exact Hm|].
  destruct (list_find _ _) as [[i el]|] eqn:Er; simpl fst.
  - apply list_find_Some in Er as (Hi & _). eapply ul_update_mirrored; [exact Hm|exact Hi|reflexivity|reflexivity].
  - apply ul_append_mirrored; [exact Hm|destruct (_ =? _); exact Hfile|].
    intros s Hs. destruct (_ =? _); simpl; apply Hf, Hs.
Qed.

Lemma UpgradeLock_mirrored m h owner off len : mirrored m -> mirrored (fst (UpgradeLock m h owner off len)).
Proof.
  intros Hm. unfold UpgradeLock. destruct (list_find _ _) as [[i el]|] eqn:Er.
  - destruct (List.find _ _); [exact Hm|]. simpl fst. apply list_find_Some in Er as (Hi & _).
    eapply ul_update_mirrored; [exact Hm|exact Hi|reflexivity|reflexivity].
  - destruct (List.find _ _); exact Hm.
Qed.

Lemma delete_unified_store gone m s :
  lockStore m = Some s ->
  fold_left deleteUnifiedLockLocked gone m =
  with_store m (Some (fold_left (fun s e => delete (ul_ID e) s) gone s)).
Proof.
  revert m s. induction gone as [|e gone IH]; intros m s Hs; simpl; [rewrite <- Hs; destruct m; reflexivity|].
  unfold deleteUnifiedLockLocked at 2. rewrite Hs. rewrite (IH _ (DeleteLock s (ul_ID e))); reflexivity.
Qed.

(** Releasing the unified locks selected by [f] on one file, records included. *)
Lemma ul_release_mirrored m h f :
  mirrored m ->
  mirrored (reindexHandleLocked
    (with_unified (fold_left deleteUnifiedLockLocked (List.filter f (bucket (unifiedLocks m) h)) m)
       (set_bucket (unifiedLocks (fold_left deleteUnifiedLockLocked (List.filter f (bucket (unifiedLocks m) h)) m)) h
          (List.filter (fun l => negb (f l)) (bucket (unifiedLocks m) h)))) h (bucket (unifiedLocks m) h)).
Proof.
  intros (s & Hs & Hd). rewrite (delete_unified_store _ m s Hs), reindex_eq. simpl.
  eapply (mirrored_ul_intro m _ s _ h Hd); try reflexivity; simpl.
  - intros h' Hn. autorewrite with buckets. reflexivity.
  - autorewrite with buckets. apply (ul_filter m s h s [] (bucket (unifiedLocks m) h) f Hd).
    apply durable_mirrors_ul, Hd.
Qed.

Lemma revokeTimedOutLease_mirrored m h key : mirrored m -> mirrored (revokeTimedOutLease m h key).
Proof.
  intros Hm. unfold revokeTimedOutLease, removeMatchingLocks. set (f := fun l : UnifiedLock => _).
  pose proof (ul_release_mirrored m h f Hm) as H. destruct (List.filter f _) eqn:E; [exact Hm|exact H].
Qed.

Lemma release_bucket_mirrored prefix h m : mirrored m -> mirrored (fst (release_bucket prefix h m)).
Proof.
  intros Hm. unfold release_bucket. set (f := fun l : UnifiedLock => has_prefix (ul_owner l) prefix).
  pose proof (ul_release_mirrored m h f Hm) as H.
  change (List.filter (fun l => negb (has_prefix (ul_owner l) prefix))) with (List.filter (fun l => negb (f l))).
  destruct (List.filter f _) eqn:E; [exact Hm|exact H].
Qed.

Lemma ReleaseByOwnerPrefix_mirrored m prefix : mirrored m -> mirrored (fst (ReleaseByOwnerPrefix m prefix)).
Proof.
  unfold ReleaseByOwnerPrefix. generalize 0%nat as n. generalize ((map_to_list (unifiedLocks m)).*1) as keys.
  intros keys. revert m. induction keys as [|h keys IH]; intros m n Hm; simpl; [exact Hm|].
  pose proof (release_bucket_mirrored prefix h m Hm) as H1. destruct (release_bucket prefix h m) as [m1 k].
  apply IH, H1.
Qed.

(** ** Splitting a persisted lock *)

Lemma SplitLock_shape before after l uo ul :
  Overlaps l uo ul = true ->
  exists (c1 c2 : bool) o1 l1 o2 l2, SplitLock before after l uo ul =
    (if c1 then [set_Fragment before o1 l1 l] else []) ++ (if c2 then [set_Fragment after o2 l2 l] else []).
Proof.
  unfold Overlaps, SplitLock. intros ->. simpl. case_match.
  - exists false, false, 0, 0, 0, 0. reflexivity.
  - do 6 eexists. reflexivity.
Qed.

(** The identifiers from position [n] on have not been used. *)
Definition unused (uuids : nat -> string) (n : nat) (s : store) : Prop := forall k, (n <= k)%nat -> s !! uuids k = None.

Lemma unused_insert uuids n k s pl :
  Inj (=) (=) uuids -> (k < n)%nat -> unused uuids n s -> unused uuids n (<[uuids k := pl]> s).
Proof.
  intros Hinj Hk Hu j Hj. rewrite lookup_insert_ne; [auto|]. intros E. apply Hinj in E. lia.
Qed.

(** One fragment, or none. *)
Lemma put_fragment m0 m h s l1 l2 (c : bool) id o len l :
  epoch m = epoch m0 -> shareName m = shareName m0 -> lockStore m = Some s ->
  mirrors_ul m0 h s (l1 ++ l2) -> ul_file h l -> s !! id = None ->
  exists s', fold_left persistUnifiedLockLocked (if c then [set_Fragment id o len l] else []) m = with_store m (Some s') /\
    mirrors_ul m0 h s' ((l1 ++ (if c then [set_Fragment id o len l] else [])) ++ l2) /\
    (forall id', id' <> id -> s' !! id' = s !! id').
Proof.
  intros He Hsh Hs Hm Hf Hfresh. destruct c.
  - simpl. unfold persistUnifiedLockLocked. rewrite Hs. eexists. split; [reflexivity|].
    destruct (persisted_frame m0 m He Hsh) as [_ ->]. unfold PutLock. rewrite unifiedToPersisted_ID.
    split; [|intros id' Hn; apply lookup_insert_ne; simpl; congruence].
    rewrite <- app_assoc. apply (mirrors_insert_mid _ _ _ _ s l1 l2 (set_Fragment id o len l)); assumption.
  - exists s. simpl. rewrite app_nil_r. split; [rewrite <- Hs; destruct m; reflexivity|auto].
Qed.

Lemma remove_loop_mirrored uuids owner off len m0 s0 h :
  Inj (=) (=) uuids -> durable m0 s0 ->
  forall ls pre i m s m' kept found,
  epoch m = epoch m0 -> shareName m = shareName m0 -> lockStore m = Some s ->
  Forall (ul_file h) ls -> unused uuids (2 * i) s -> mirrors_ul m0 h s (pre ++ ls) ->
  remove_loop uuids i owner off len m ls = (m', kept, found) ->
  exists s', m' = with_store m (Some s') /\ mirrors_ul m0 h s' (pre ++ kept).
Proof.
  intros Hinj Hd. induction ls as [|l ls IH]; intros pre i m s m' kept found He Hsh Hs Hfile Hun Hm H; simpl in H.
  - injection H as <- <- <-. exists s. split; [rewrite <- Hs; destruct m; reflexivity|exact Hm].
  - apply Forall_cons in Hfile as [Hl Hfile]. destruct (_ || _) eqn:Ec.
    + destruct (remove_loop uuids (S i) owner off len m ls) as [[m1 k1] f1] eqn:E. injection H as <- <- <-.
      replace (pre ++ l :: k1) with ((pre ++ [l]) ++ k1) by (rewrite <- app_assoc; reflexivity).
      apply (IH (pre ++ [l]) (S i) m s m1 k1 f1 He Hsh Hs Hfile); [intros k Hk; apply Hun; lia| |exact E].
      rewrite <- app_assoc. exact Hm.
    + apply orb_false_iff in Ec as [_ Hov]. apply negb_false_iff in Hov.
      destruct (SplitLock_shape (uuids (2 * i)%nat) (uuids (2 * i + 1)%nat) l off len Hov)
        as (c1 & c2 & o1 & l1 & o2 & l2 & Hshape).
      replace (i + (i + 0))%nat with (2 * i)%nat in H by lia. rewrite Hshape in H.
      unfold deleteUnifiedLockLocked in H. rewrite Hs, fold_left_app in H.
      pose proof (ul_delete_one m0 s0 h s pre l ls Hd Hm) as Hm1.
      set (md := with_store m (Some (DeleteLock s (ul_ID l)))) in H.
      assert (Hdel : forall n, (2 * i <= n)%nat -> delete (ul_ID l) s !! uuids n = None)
        by (intros n Hn; destruct (decide (ul_ID l = uuids n)) as [->|Hne];
            [apply lookup_delete_eq|rewrite lookup_delete_ne by exact Hne; auto]).
      destruct (put_fragment m0 md h (delete (ul_ID l) s) pre ls c1 (uuids (2 * i)%nat) o1 l1 l)
        as (s1 & E1 & Hm2 & Hs1); auto.
      rewrite E1 in H.
      destruct (put_fragment m0 (with_store md (Some s1)) h s1
                  (pre ++ (if c1 then [set_Fragment (uuids (2 * i)%nat) o1 l1 l] else [])) ls c2
                  (uuids (2 * i + 1)%nat) o2 l2 l) as (s2 & E2 & Hm3 & Hs2); auto.
      { rewrite Hs1; [apply Hdel; lia|]. intros Heq. apply Hinj in Heq. lia. }
      rewrite E2 in H.
      destruct (remove_loop uuids (S i) owner off len _ ls) as [[m1 k1] f1] eqn:E. injection H as <- <- <-.
      rewrite app_assoc. rewrite <- (app_assoc pre) in Hm3.
      assert (Hun2 : unused uuids (2 * S i) s2).
      { intros k Hk. rewrite Hs2, Hs1; [apply Hdel; lia| |]; intros Heq; apply Hinj in Heq; lia. }
      destruct (IH _ (S i) (with_store (with_store md (Some s1)) (Some s2)) s2 m1 k1 f1 He Hsh eq_refl Hfile Hun2 Hm3 E)
        as (s' & -> & Hm').
      exists s'. split; [reflexivity|exact Hm'].
Qed.

Lemma RemoveUnifiedLock_mirrored uuids m h owner off len :
  mirrored m -> Inj (=) (=) uuids -> (forall s, lockStore m = Some s -> unused uuids 0 s) ->
  mirrored (fst (RemoveUnifiedLock uuids m h owner off len)).
Proof.
  intros (s & Hs & Hd) Hinj Hun. unfold RemoveUnifiedLock.
  destruct (bucket (unifiedLocks m) h) as [|x ls] eqn:Hb; [exists s; auto|]. rewrite <- Hb.
  destruct (remove_loop _ _ _ _ _ _ _) as [[m' kept] found] eqn:E. destruct found; [|exists s; auto]. simpl fst.
  destruct (remove_loop_mirrored uuids (OwnerID owner) off len m s h Hinj Hd _ [] 0 m s m' kept true
              eq_refl eq_refl Hs (proj1 (du_ul _ _ Hd h)) (Hun s Hs) (durable_mirrors_ul m s h Hd) E) as (s' & -> & Hm').
  - rewrite reindex_eq. eapply (mirrored_ul_intro m _ s s' h Hd); try reflexivity; simpl.
    + intros h' Hn. autorewrite with buckets. reflexivity.
    + autorewrite with buckets. exact Hm'.
Qed.

Lemma RemoveAllLocks_mirrored m h : mirrored m -> mirrored (RemoveAllLocks m h).
Proof.
  intros (s & Hs & Hd). unfold RemoveAllLocks, RemoveFileUnifiedLocks. rewrite reindex_eq. simpl. rewrite Hs.
  eexists. split; [reflexivity|].
  split.
  - intros id pl. unfold DeleteLocksByFile. rewrite map_lookup_filter_Some, (du_iff _ _ Hd). simpl.
    unfold held, held_fl, held_ul, record_in. simpl. split.
    + intros [[(h' & fl & Hin & Hid & <-)|(h' & ul & Hin & Hid & <-)] Hne]; [left|right]; exists h'.
      * simpl in Hne. exists fl. autorewrite with buckets. rewrite bucket_delete_ne by congruence. auto.
      * destruct (du_ul _ _ Hd h') as [Hok _]. rewrite List.Forall_forall in Hok.
        destruct (unified_record m h' ul (Hok ul Hin)) as [_ Hf].
        exists ul. rewrite bucket_delete_ne by congruence. auto.
    + intros [(h' & fl & Hin & Hid & <-)|(h' & ul & Hin & Hid & <-)];
        (destruct (decide (h = h')) as [<-|Hne]; [rewrite bucket_delete in Hin; destruct Hin|];
         rewrite bucket_delete_ne in Hin by exact Hne).
      * split; [left; exists h', fl; auto|]. simpl. congruence.
      * split; [right; exists h', ul; auto|].
        destruct (du_ul _ _ Hd h') as [Hok _]. rewrite List.Forall_forall in Hok.
        destruct (unified_record m h' ul (Hok ul Hin)) as [_ Hf].
        change (pl_FileID (unifiedToPersisted m ul) <> h). congruence.
  - intros h'. simpl. destruct (decide (h = h')) as [<-|Hne]; autorewrite with buckets;
      [split; constructor|apply Hd].
  - intros h'. simpl. destruct (decide (h = h')) as [<-|Hne]; autorewrite with buckets;
      [split; constructor|apply Hd].
Qed.

(** The sweep of a client that holds no SMB lock of this share. *)
Lemma RemoveClientLocks_mirrored m cid :
  mirrored m -> index_ok m -> cid <> EmptyString ->
  (forall h fl, In fl (bucket (locks m) h) -> fl_ClientID fl <> cid) -> mirrored (RemoveClientLocks m cid).
Proof.
  intros (s & Hs & Hd) Hix Hcid Hsmb. destruct (RemoveClientLocks_buckets m cid Hix Hcid) as [Hb Hl].
  destruct (RemoveClientLocks_frame m cid) as (Hst & He & Hsh). rewrite Hs in Hst.
  destruct (persisted_frame m (RemoveClientLocks m cid) He Hsh) as [Hrf Hru].
  eexists. split; [exact Hst|]. split.
  - intros id pl. unfold DeleteLocksByClient. rewrite map_lookup_filter_Some, (du_iff _ _ Hd).
    unfold held, held_fl, held_ul, record_in. setoid_rewrite Hb. setoid_rewrite Hl. setoid_rewrite Hrf. setoid_rewrite Hru.
    split.
    + intros [[(h & fl & Hin & Hid & <-)|(h & ul & Hin & Hid & <-)] Hne]; [left|right]; exists h; [exists fl; auto|].
      exists ul. split; [|auto]. apply filter_In. split; [exact Hin|].
      apply negb_true_iff, bool_decide_eq_false. rewrite <- (unifiedToPersisted_ClientID m). exact Hne.
    + intros [(h & fl & Hin & Hid & <-)|(h & ul & Hin & Hid & <-)].
      * split; [left; exists h, fl; auto|]. exact (Hsmb h fl Hin).
      * apply filter_In in Hin as [Hin Hn]. apply negb_true_iff, bool_decide_eq_false in Hn.
        split; [right; exists h, ul; auto|]. change (pl_ClientID (unifiedToPersisted m ul) <> cid).
        rewrite unifiedToPersisted_ClientID. exact Hn.
  - intros h. rewrite Hl. apply Hd.
  - intros h. rewrite Hb. destruct (du_ul _ _ Hd h) as [Hf Hn].
    pose proof (sublist_List_filter (fun l => negb (of_client cid l)) (bucket (unifiedLocks m) h)) as Hsub. split.
    + rewrite List.Forall_forall in *. intros x Hx. apply Hf. eapply In_sublist; eassumption.
    + eapply sublist_NoDup; [exact Hn|]. apply (fmap_sublist ul_ID), Hsub.
Qed.

(** ** Any sequence of operations

    The identifiers drawn from [uuid.New] are not yet in the store, a request
    carries no persistent identifier of its own and names the file it is filed
    under.  The sweep of a client takes its unified locks only, while it deletes
    the records of both kinds, so it keeps the mirror when the client has no SMB
    lock (see [sweep_keeps_smb_locks]).  Left out are the delegations, which
    are never persisted, and [RemoveFileLocks] and [RemoveFileUnifiedLocks],
    which do not touch the store; the program calls neither. *)

Definition unused_id (m : Manager) (id : string) : Prop :=
  id <> EmptyString /\ forall s, lockStore m = Some s -> s !! id = None.

Inductive saved_step : Manager -> Manager -> Prop :=
  | D_Lock now uuid m h lock :
      fl_persistID lock = EmptyString -> unused_id m uuid -> saved_step m (fst (Lock now uuid m h lock))
  | D_Unlock m h openID sid off len : saved_step m (fst (fst (Unlock m h openID sid off len)))
  | D_UnlockAllForOpen m h openID : saved_step m (fst (UnlockAllForOpen m h openID))
  | D_UnlockAllForSession m h sid : saved_step m (fst (UnlockAllForSession m h sid))
  | D_AddUnifiedLock now m h lock :
      ul_file h lock -> unused_id m (ul_ID lock) -> saved_step m (fst (AddUnifiedLock now m h lock))
  | D_RemoveUnifiedLock uuids m h owner off len :
      Inj (=) (=) uuids -> (forall s, lockStore m = Some s -> unused uuids 0 s) ->
      saved_step m (fst (RemoveUnifiedLock uuids m h owner off len))
  | D_UpgradeLock m h owner off len : saved_step m (fst (UpgradeLock m h owner off len))
  | D_Lease uuid now m h key parent owner state isDir isOplock :
      unused_id m uuid -> saved_step m (createAndGrantLease uuid now m h h key parent owner state isDir isOplock)
  | D_revokeTimedOutLease m h key : saved_step m (revokeTimedOutLease m h key)
  | D_ReleaseByOwnerPrefix m prefix : saved_step m (fst (ReleaseByOwnerPrefix m prefix))
  | D_RemoveClientLocks m cid :
      cid <> EmptyString -> (forall h fl, In fl (bucket (locks m) h) -> fl_ClientID fl <> cid) ->
      saved_step m (RemoveClientLocks m cid)
  | D_RemoveAllLocks m h : saved_step m (RemoveAllLocks m h).

(** A manager as it is wired at start-up, with its store, epoch and share. *)
Definition fresh_manager (s : store) (e : Z) (share : string) : Manager := mkManager ∅ ∅ ∅ ∅ (Some s) e share.

Inductive saved : Manager -> Prop :=
  | Sv_init e share : saved (fresh_manager ∅ e share)
  | Sv_step m m' : saved m -> saved_step m m' -> saved m'.

Lemma saved_step_index m m' : index_ok m -> saved_step m m' -> index_ok m'.
Proof.
  intros H Hstep. destruct Hstep.
  - apply Lock_index, H.
  - apply Unlock_index, H.
  - unfold UnlockAllForOpen. case_bool_decide; [exact H|]. apply unlock_all_index, H.
  - apply unlock_all_index, H.
  - apply AddUnifiedLock_index, H.
  - apply RemoveUnifiedLock_index, H.
  - apply UpgradeLock_index, H.
  - unfold createAndGrantLease. eapply index_ok_store; [apply persistUnifiedLockLocked_store|]. apply index_ok_add, H.
  - apply removeMatchingLocks_index, H.
  - apply ReleaseByOwnerPrefix_index, H.
  - unfold RemoveClientLocks. case_match; apply (client_sweep_index m _ cid H).
  - unfold RemoveAllLocks. case_match; apply (RemoveFileUnifiedLocks_index (with_locks m (delete h (locks m))) h), H.
Qed.

Lemma saved_index m : saved m -> index_ok m.
Proof.
  induction 1 as [e share|m m' _ IH Hs]; [|eapply saved_step_index; eassumption].
  split; apply exact_empty.
Qed.

Lemma saved_mirrored m : saved m -> mirrored m.
Proof.
  induction 1 as [e share|m m' Hsv IH Hs].
  - exists ∅. split; [reflexivity|]. split.
    + intros id pl. rewrite lookup_empty. split; [discriminate|]. unfold held, held_fl, held_ul, record_in, bucket. simpl.
      intros [(h & x & Hx & _)|(h & x & Hx & _)]; rewrite lookup_empty in Hx; destruct Hx.
    + intros h. unfold bucket. simpl. rewrite lookup_empty. split; constructor.
    + intros h. unfold bucket. simpl. rewrite lookup_empty. split; constructor.
  - destruct Hs as [? ? ? ? ? ? [? ?]| | | |? ? ? ? ? [? ?]| | |? ? ? ? ? ? ? ? ? ? [? ?]| | | |].
    + apply Lock_mirrored; assumption.
    + apply Unlock_mirrored, IH.
    + unfold UnlockAllForOpen. case_bool_decide; [exact IH|]. apply unlock_all_mirrored, IH.
    + apply unlock_all_mirrored, IH.
    + apply AddUnifiedLock_mirrored; assumption.
    + apply RemoveUnifiedLock_mirrored; assumption.
    + apply UpgradeLock_mirrored, IH.
    + apply ul_append_mirrored; [exact IH|reflexivity|assumption].
    + apply revokeTimedOutLease_mirrored, IH.
    + apply ReleaseByOwnerPrefix_mirrored, IH.
    + apply RemoveClientLocks_mirrored; auto using saved_index.
    + apply RemoveAllLocks_mirrored, IH.
Qed.


(** ** Restart *)

Definition legacy_record_of (h : string) (pl : PersistedLock) : bool :=
  pl_IsLegacyByteRange pl && bool_decide (pl_FileID pl = h).
Definition unified_record_of (h : string) (pl : PersistedLock) : bool :=
  negb (pl_IsLegacyByteRange pl) && bool_decide (pl_FileID pl = h).

Lemma RestoreLocks_buckets ps m h :
  bucket (locks (RestoreLocks m ps)) h =
    bucket (locks m) h ++ map fileLockFromPersisted (List.filter (legacy_record_of h) ps) /\
  bucket (unifiedLocks (RestoreLocks m ps)) h =
    bucket (unifiedLocks m) h ++ map FromPersistedLock (List.filter (unified_record_of h) ps).
Proof.
  unfold RestoreLocks. revert m. induction ps as [|pl ps IH]; intros m; simpl; [rewrite !app_nil_r; auto|].
  destruct (IH (restore_one m pl)) as [-> ->]. unfold restore_one, legacy_record_of, unified_record_of.
  destruct (pl_IsLegacyByteRange pl); simpl; case_bool_decide as Eh; simpl; rewrite ?indexAdd_eq; simpl;
    rewrite ?Eh; autorewrite with buckets; rewrite <- ?app_assoc; auto.
Qed.

(** What a restart keeps of an SMB lock and of a unified lock. *)
Definition fl_kept (fl fl' : FileLock) : Prop :=
  fl_same fl fl' /\ fl_persistID fl' = fl_persistID fl /\ fl_ClientID fl' = fl_ClientID fl /\
  fl_OpenID fl' = fl_OpenID fl.

Definition ul_kept (ul ul' : UnifiedLock) : Prop :=
  ul_ID ul' = ul_ID ul /\ ul_owner ul' = ul_owner ul /\ ul_FileHandle ul' = ul_FileHandle ul /\
  ul_Offset ul' = ul_Offset ul /\ ul_Length ul' = ul_Length ul /\ ul_Type ul' = ul_Type ul /\
  ul_AccessMode ul' = ul_AccessMode ul /\ (byte_range ul -> byte_range ul' /\ ul_same ul ul').

(** The owner string of a lock can be read back: an open's identifier is not
    mistaken for a session, and session identifiers are 64-bit. *)
Definition owner_readable (fl : FileLock) : Prop :=
  sessionIDFromOwnerID (fl_OpenID fl) = None /\ in_u64 (fl_SessionID fl).

Lemma sessionID_roundtrip sid :
  in_u64 sid -> sessionIDFromOwnerID ("session:" +:+ dec_string (Z.to_N sid)) = Some sid.
Proof. intros H. unfold sessionIDFromOwnerID. rewrite cut_prefix_app. apply parse_uint_dec, H. Qed.

Lemma file_lock_roundtrip m h fl : owner_readable fl -> fl_kept fl (fileLockFromPersisted (fileLockToPersisted m h fl)).
Proof.
  intros [Hopen Hsid]. unfold fl_kept, fl_same, fileLockFromPersisted. cbn [pl_OwnerID fileLockToPersisted].
  unfold lockOwnerID, callerOwnerID. destruct (decide (fl_OpenID fl = EmptyString)) as [He|Hne].
  - rewrite (bool_decide_eq_false_2 (fl_OpenID fl <> EmptyString)) by tauto. rewrite sessionID_roundtrip by exact Hsid.
    simpl. rewrite He. destruct (fl_Exclusive fl); repeat split; reflexivity.
  - rewrite (bool_decide_eq_true_2 (fl_OpenID fl <> EmptyString)) by exact Hne. rewrite Hopen.
    simpl. rewrite (bool_decide_eq_true_2 (fl_OpenID fl <> EmptyString)) by exact Hne.
    destruct (fl_Exclusive fl); repeat split; reflexivity.
Qed.

Lemma unified_roundtrip m ul : ul_kept ul (FromPersistedLock (unifiedToPersisted m ul)).
Proof.
  unfold ul_kept, unifiedToPersisted, ToPersistedLock, byte_range, ul_same, IsLease, IsDelegation, ul_owner.
  destruct (ul_Lease ul), (ul_Delegation ul); case_bool_decide; simpl;
    (repeat (split; [reflexivity|])); intros [? ?]; try discriminate; repeat split; reflexivity.
Qed.

Lemma durable_pl_ID m s id pl : durable m s -> s !! id = Some pl -> pl_ID pl = id.
Proof.
  intros Hd H. apply (du_iff _ _ Hd) in H as [(h & fl & _ & <- & <-)|(h & ul & _ & <- & <-)];
    [reflexivity|apply unifiedToPersisted_ID].
Qed.

Lemma durable_values_NoDup m s : durable m s -> NoDup (map_to_list s).*2.
Proof.
  intros Hd. pose proof (NoDup_fst_map_to_list s) as Hn.
  assert (Heq : (map_to_list s).*1 = map pl_ID (map_to_list s).*2).
  { rewrite <- list_fmap_compose. apply list_fmap_ext. intros i [id pl] Hi. simpl. symmetry.
    eapply durable_pl_ID; [exact Hd|]. apply elem_of_map_to_list. eapply list_elem_of_lookup_2. exact Hi. }
  rewrite Heq in Hn. eapply NoDup_fmap_1. exact Hn.
Qed.

Lemma durable_In_values m s pl : durable m s -> In pl (map_to_list s).*2 <-> exists id, held m id pl.
Proof.
  intros Hd. setoid_rewrite <- (du_iff _ _ Hd). rewrite in_map_iff. split.
  - intros ([id pl'] & <- & Hin). exists id. apply elem_of_map_to_list, list_elem_of_In, Hin.
  - intros (id & H). exists (id, pl). split; [reflexivity|]. apply list_elem_of_In, elem_of_map_to_list, H.
Qed.

Lemma NoDup_records {E} (idf : E -> string) (recf : E -> PersistedLock) l :
  (forall e, pl_ID (recf e) = idf e) -> NoDup (map idf l) -> NoDup (map recf l).
Proof.
  intros Hid Hn. apply (NoDup_fmap_1 pl_ID).
  replace (pl_ID <$> map recf l) with (map idf l); [exact Hn|].
  change (pl_ID <$> map recf l) with (map pl_ID (map recf l)). rewrite map_map. apply map_ext. intros e. symmetry. apply Hid.
Qed.

Lemma NoDup_List_filter {A} (f : A -> bool) l : NoDup l -> NoDup (List.filter f l).
Proof. intros H. eapply sublist_NoDup; [exact H|]. apply sublist_List_filter. Qed.

(** The records of one file, in the store and in memory. *)
Lemma records_of_file m s ps h :
  durable m s -> Permutation ps (map_to_list s).*2 ->
  Permutation (List.filter (legacy_record_of h) ps) (map (fileLockToPersisted m h) (bucket (locks m) h)) /\
  Permutation (List.filter (unified_record_of h) ps) (map (unifiedToPersisted m) (bucket (unifiedLocks m) h)).
Proof.
  intros Hd Hp.
  assert (Hn : NoDup ps) by (rewrite Hp; eapply durable_values_NoDup; exact Hd).
  assert (Hin : forall pl, In pl ps <-> exists id, held m id pl).
  { intros pl. rewrite <- (durable_In_values m s pl Hd). split; apply Permutation_in; [exact Hp|symmetry; exact Hp]. }
  destruct (du_fl _ _ Hd h) as [_ Hnf]. destruct (du_ul _ _ Hd h) as [_ Hnu].
  split; (apply list.NoDup_Permutation; [apply NoDup_List_filter, Hn| |intros pl; rewrite !list_elem_of_In, filter_In, Hin, in_map_iff]).
  - apply (NoDup_records fl_persistID); [reflexivity|exact Hnf].
  - unfold legacy_record_of. rewrite andb_true_iff, bool_decide_eq_true. split.
    + intros [(id & [(h' & fl & Hfl & _ & <-)|(h' & ul & Hul & _ & <-)]) [Hl Hf]].
      * simpl in Hf. subst h'. exists fl. auto.
      * exfalso. destruct (du_ul _ _ Hd h') as [Hok _]. rewrite List.Forall_forall in Hok.
        destruct (unified_record m h' ul (Hok ul Hul)). congruence.
    + intros (fl & <- & Hfl). split; [|auto]. exists (fl_persistID fl). left. exists h, fl. auto.
  - apply (NoDup_records ul_ID); [apply unifiedToPersisted_ID|exact Hnu].
  - unfold unified_record_of. rewrite andb_true_iff, negb_true_iff, bool_decide_eq_true. split.
    + intros [(id & [(h' & fl & Hfl & _ & <-)|(h' & ul & Hul & _ & <-)]) [Hl Hf]]; [discriminate|].
      destruct (du_ul _ _ Hd h') as [Hok _]. rewrite List.Forall_forall in Hok.
      destruct (unified_record m h' ul (Hok ul Hul)) as [_ Hf']. assert (h' = h) as -> by congruence. exists ul. auto.
    + intros (ul & <- & Hul). pose proof (proj1 (du_ul _ _ Hd h)) as Hok. rewrite List.Forall_forall in Hok.
      destruct (unified_record m h ul (Hok ul Hul)). split; [|auto]. exists (ul_ID ul). right. exists h, ul. auto.
Qed.

Lemma Forall2_map_r {A B} (R : A -> B -> Prop) (f : A -> B) l : (forall x, In x l -> R x (f x)) -> Forall2 R l (map f l).
Proof. induction l as [|x l IH]; intros H; simpl; constructor; [apply H; left; reflexivity|]. apply IH. intros. apply H. right. assumption. Qed.


(** ** Sweeping an SMB client *)

(** The sweep at the end of a grace period drops the client's records but not
    its SMB locks, which stay in force and are lost at the next restart. *)
Theorem sweep_keeps_smb_locks :
  let m := fst (Lock 1 "u1" (fresh_manager ∅ 3 "share") "file" (sample_fl "open-a" 0 10 true)) in
  option_map size (lockStore m) = Some 1%nat /\
  lockStore (RemoveClientLocks m "smb:7") = Some ∅ /\
  bucket (locks (RemoveClientLocks m "smb:7")) "file" = bucket (locks m) "file" /\
  length (bucket (locks m) "file") = 1%nat.
Proof. repeat split; vm_compute; reflexivity. Qed.

(** ** The theorems at a concrete share *)

Definition sample_saved : Manager :=
  fst (AddUnifiedLock 1 (fst (Lock 1 "u1" (fresh_manager ∅ 3 "share") "file" (sample_fl "open-a" 0 10 false)))
         "file" (sample_ul "nfs4:1" 20 10 LockTypeExclusive)).

Definition sample_store : store := default ∅ (lockStore sample_saved).

Lemma sample_saved_saved : saved sample_saved.
Proof.
  unfold sample_saved.
  apply (Sv_step (fst (Lock 1 "u1" (fresh_manager ∅ 3 "share") "file" (sample_fl "open-a" 0 10 false)))).
  - apply (Sv_step (fresh_manager ∅ 3 "share")); [apply Sv_init|].
    apply D_Lock; [reflexivity|]. split; [discriminate|]. intros s [= <-]. reflexivity.
  - apply D_AddUnifiedLock; [reflexivity|]. split; [discriminate|]. intros s [= <-]. vm_compute. reflexivity.
Qed.


