(* ===== verification/Deadlock.v ===== *)
(** * Deadlock detection ([pkg/metadata/lock/deadlock.go])

    The wait-for graph: an edge from a waiting owner to each owner it waits for.
    Before a blocking lock request parks, [WouldCauseCycle] looks for a path from
    a lock holder back to the waiter by depth-first search with a shared visited
    set; [AddWaiter] then records the wait.  The client of the graph is the SMB
    handler that parks a blocking LOCK request
    ([internal/adapter/smb/handlers/lock_async.go]): [conflictHolders] collects
    the owners it waits for from the lock manager, [parkLockOnConflict] checks
    ([park_check]) and records ([park_record]) in two critical sections of the
    graph. *)

From S2P Require Import Prelude.
From S2P Require Import LockTypes.
From S2P Require Import LockManager.

Abbreviation WaitForGraph := (gmap string (gset string)).

Definition NewWaitForGraph : WaitForGraph := ∅.

(** The depth-first search, threading the visited set that the Go code mutates.
    Go visits a wait set in an unspecified order; [elements] fixes one. *)
Fixpoint canReach (fuel : nat) (g : WaitForGraph) (from to : string) (visited : gset string)
    : bool * gset string :=
  if decide (from ∈ visited) then (false, visited)
  else
    let visited := {[from]} ∪ visited in
    match g !! from with
    | None => (false, visited)
    | Some waitSet =>
      if decide (to ∈ waitSet) then (true, visited)
      else match fuel with
      | O => (false, visited)
      | S fuel =>
        (fix loop (ws : list string) (visited : gset string) : bool * gset string :=
           match ws with
           | [] => (false, visited)
           | waitingFor :: ws =>
             let '(found, visited) := canReach fuel g waitingFor to visited in
             if found then (true, visited) else loop ws visited
           end) (elements waitSet) visited
      end
    end.

(** Each level of the recursion marks one more waiting owner, so as many levels
    as there are waiting owners suffice. *)
Definition WouldCauseCycle (g : WaitForGraph) (waiter : string) (owners : list string) : bool :=
  existsb (fun owner => fst (canReach (size g) g owner waiter ∅)) owners.

Definition AddWaiter (g : WaitForGraph) (waiter : string) (owners : list string) : WaitForGraph :=
  match owners with
  | [] => g
  | _ => <[waiter := list_to_set owners ∪ default ∅ (g !! waiter)]> g
  end.

Definition RemoveWaiter (g : WaitForGraph) (waiter : string) : WaitForGraph := delete waiter g.

Definition RemoveOwner (g : WaitForGraph) (owner : string) : WaitForGraph :=
  delete owner (omap (fun ws => let ws := ws ∖ {[owner]} in if decide (ws = ∅) then None else Some ws) g).

Definition GetWaitersFor (g : WaitForGraph) (owner : string) : list string :=
  (filter (fun kv : string * gset string => owner ∈ kv.2) (map_to_list g)).*1.

Definition Size (g : WaitForGraph) : nat := size g.

(** ** Parking a blocking SMB lock *)

Definition lockOwnerOf (fl : FileLock) : string :=
  if bool_decide (fl_OpenID fl <> EmptyString) then fl_OpenID fl
  else "session:" +:+ dec_string (Z.to_N (fl_SessionID fl)).

(** The loop over the locks of the file, with the owners collected so far. *)
Fixpoint conflict_loop (fileLock : FileLock) (existing : list FileLock) (owners : list string) : list string :=
  match existing with
  | [] => owners
  | e :: existing =>
    if negb (IsLockConflicting e fileLock) then conflict_loop fileLock existing owners
    else
      let owner := lockOwnerOf e in
      if decide (owner = EmptyString \/ owner = fl_OpenID fileLock) then conflict_loop fileLock existing owners
      else if decide (owner ∈ owners) then conflict_loop fileLock existing owners
      else conflict_loop fileLock existing (owners ++ [owner])
  end.

Definition conflictHolders (m : Manager) (h : string) (fileLock : FileLock) : list string :=
  conflict_loop fileLock (ListLocks m h) [].

(** The deadlock guard, evaluated under the read lock of the graph. *)
Definition deadlocked (g : WaitForGraph) (fileLock : FileLock) (owners : list string) : bool :=
  negb (bool_decide (owners = [])) && WouldCauseCycle g (fl_OpenID fileLock) owners.

(** The first half of parking: the owners the request waits for, or [None] when
    the check refuses it. *)
Definition park_check (g : WaitForGraph) (m : Manager) (h : string) (fileLock : FileLock) : option (list string) :=
  let owners := conflictHolders m h fileLock in
  if deadlocked g fileLock owners then None else Some owners.

(** The second half, in a later critical section of the graph: [reserved] and
    [registered] are the outcomes of the async-credit reservation and of the
    registry of pending locks; [None] is a request that is not parked. *)
Definition park_record (g : WaitForGraph) (fileLock : FileLock) (owners : list string) (reserved registered : bool)
    : option WaitForGraph :=
  if negb reserved then None
  else if negb registered then None
  else Some (AddWaiter g (fl_OpenID fileLock) owners).

(** The wait-graph side of parking: [g] is the graph at the check and [g_later] the
    graph when the wait is recorded, since the mutex is released in between. *)
Definition parkLockOnConflict (g g_later : WaitForGraph) (m : Manager) (h : string) (fileLock : FileLock)
    (reserved registered : bool) : option WaitForGraph :=
  match park_check g m h fileLock with
  | None => None
  | Some owners => park_record g_later fileLock owners reserved registered
  end.

(** ** Edges and paths *)

Definition waits (g : WaitForGraph) (a b : string) : Prop := exists ws, g !! a = Some ws /\ b ∈ ws.

Inductive path (g : WaitForGraph) : string -> string -> Prop :=
  | path_edge a b : waits g a b -> path g a b
  | path_step a b c : waits g a b -> path g b c -> path g a c.

Definition acyclic (g : WaitForGraph) : Prop := forall x, ~ path g x x.

Lemma path_app g a b c : path g a b -> path g b c -> path g a c.
Proof. induction 1; eauto using path. Qed.

Lemma path_mono g g' : (forall a b, waits g a b -> waits g' a b) -> forall a b, path g a b -> path g' a b.
Proof. intros H a b. induction 1; eauto using path. Qed.

(** ** The search is exact *)

Fixpoint scan (fuel : nat) (g : WaitForGraph) (to : string) (ws : list string) (visited : gset string)
    : bool * gset string :=
  match ws with
  | [] => (false, visited)
  | w :: ws =>
    let '(found, visited) := canReach fuel g w to visited in
    if found then (true, visited) else scan fuel g to ws visited
  end.

Lemma canReach_eq fuel g from to visited :
  canReach fuel g from to visited =
  if decide (from ∈ visited) then (false, visited)
  else match g !! from with
  | None => (false, {[from]} ∪ visited)
  | Some waitSet =>
    if decide (to ∈ waitSet) then (true, {[from]} ∪ visited)
    else match fuel with
    | O => (false, {[from]} ∪ visited)
    | S fuel => scan fuel g to (elements waitSet) ({[from]} ∪ visited)
    end
  end.
Proof.
  destruct fuel as [|fuel]; simpl; [reflexivity|].
  destruct (decide (from ∈ visited)); [reflexivity|]. destruct (g !! from) as [ws|]; [|reflexivity].
  destruct (decide (to ∈ ws)); [reflexivity|]. generalize (elements ws) as l, ({[from]} ∪ visited) as v.
  induction l as [|w l IH]; intros v; simpl; [reflexivity|]. destruct (canReach fuel g w to v) as [[|] v']; auto.
Qed.

Lemma canReach_sound fuel g from to visited :
  fst (canReach fuel g from to visited) = true -> path g from to.
Proof.
  revert from visited. induction fuel as [|fuel IH]; intros from visited; rewrite canReach_eq.
  - repeat case_match; simpl; intros; try discriminate. apply path_edge. eexists. eauto.
  - destruct (decide (from ∈ visited)); [discriminate|]. destruct (g !! from) as [ws|] eqn:Hws; [|discriminate].
    destruct (decide (to ∈ ws)) as [Hto|]; [intros _; apply path_edge; eexists; eauto|].
    assert (Hel : forall w, w ∈ elements ws -> waits g from w).
    { intros w Hw. exists ws. split; [exact Hws|]. apply elem_of_elements, Hw. }
    revert Hel. generalize (elements ws) as l, ({[from]} ∪ visited) as v.
    induction l as [|w l IHl]; intros v Hel; simpl; [discriminate|].
    specialize (IH w v). destruct (canReach fuel g w to v) as [[|] v']; simpl in *.
    + intros _. eapply path_step; [apply Hel; left|apply IH; reflexivity].
    + apply IHl. intros. apply Hel. right. assumption.
Qed.

(** What a failed search from [v] to [v'] has established: everything newly
    visited has all its successors visited, and none of them waits for [to]. *)
Record explored (g : WaitForGraph) (to : string) (v v' : gset string) : Prop := mkExplored {
  ex_grow : v ⊆ v';
  ex_closed : forall x y, x ∈ v' -> x ∉ v -> waits g x y -> y ∈ v';
  ex_miss : forall x, x ∈ v' -> x ∉ v -> ~ waits g x to;
}.

Lemma explored_refl g to v : explored g to v v.
Proof. split; [reflexivity|tauto|tauto]. Qed.

Lemma explored_trans g to a b c : explored g to a b -> explored g to b c -> explored g to a c.
Proof.
  intros [H1 H2 H3] [K1 K2 K3]. split; [set_solver| |].
  - intros x y Hx Hn Hw. destruct (decide (x ∈ b)) as [Hb|Hb]; [apply K1; eauto|eauto].
  - intros x Hx Hn Hw. destruct (decide (x ∈ b)) as [Hb|Hb]; [exact (H3 x Hb Hn Hw)|exact (K3 x Hx Hb Hw)].
Qed.

(** The unvisited waiting owners: they bound the depth of the search. *)
Definition fresh_nodes (g : WaitForGraph) (v : gset string) : nat := size (dom g ∖ v).

Lemma fresh_nodes_mono g v v' : v ⊆ v' -> (fresh_nodes g v' <= fresh_nodes g v)%nat.
Proof. intros H. apply subseteq_size. set_solver. Qed.

Lemma fresh_nodes_mark g x v :
  x ∉ v -> x ∈ dom g -> (fresh_nodes g ({[x]} ∪ v) < fresh_nodes g v)%nat.
Proof. intros Hn Hd. apply subset_size. set_solver. Qed.

Lemma canReach_complete fuel g to : forall from visited v',
  (fresh_nodes g visited <= fuel)%nat ->
  canReach fuel g from to visited = (false, v') -> explored g to visited v' /\ from ∈ v'.
Proof.
  induction fuel as [|fuel IH]; intros from visited v' Hfuel; rewrite canReach_eq;
    (destruct (decide (from ∈ visited)) as [Hv|Hv]; [intros [= <-]; split; [apply explored_refl|exact Hv]|]);
    (destruct (g !! from) as [ws|] eqn:Hws;
     [|intros [= <-]; split; [|set_solver]; split; [set_solver| |]; intros x; [intros y|];
       intros Hx Hn (ws & Hws' & _); assert (x = from) as -> by set_solver; congruence]);
    (destruct (decide (to ∈ ws)) as [Hto|Hto]; [discriminate|]);
    pose proof (fresh_nodes_mark g from visited Hv (elem_of_dom_2 _ _ _ Hws)) as Hlt.
  - lia.
  - intros Hscan.
    assert (Hall : explored g to ({[from]} ∪ visited) v' /\ forall w, w ∈ elements ws -> w ∈ v').
    { revert Hscan. assert (Hf : (fresh_nodes g ({[from]} ∪ visited) <= fuel)%nat) by lia. revert Hf.
      generalize (elements ws) as l, ({[from]} ∪ visited) as v.
      induction l as [|w l IHl]; intros v Hf; simpl.
      - intros [= <-]. split; [apply explored_refl|]. intros w Hw. inversion Hw.
      - destruct (canReach fuel g w to v) as [[|] v1] eqn:E; [discriminate|]. intros Hscan.
        destruct (IH w v v1 Hf E) as [Hex Hin].
        destruct (IHl v1) as [Hex' Hin']; [|exact Hscan|].
        + pose proof (fresh_nodes_mono g v v1 (ex_grow _ _ _ _ Hex)). lia.
        + split; [eapply explored_trans; eassumption|]. intros x Hx. apply elem_of_cons in Hx as [->|Hx]; [|auto].
          apply (ex_grow _ _ _ _ Hex'), Hin. }
    destruct Hall as [[H1 H2 H3] Hel]. split; [|apply H1; set_solver]. split; [set_solver| |].
    + intros x y Hx Hn Hw. destruct (decide (x = from)) as [->|Hne]; [|apply (H2 x y Hx); [set_solver|exact Hw]].
      destruct Hw as (ws' & Hws' & Hy). rewrite Hws in Hws'. injection Hws' as <-. apply Hel, elem_of_elements, Hy.
    + intros x Hx Hn Hw. destruct (decide (x = from)) as [->|Hne]; [|apply (H3 x Hx); [set_solver|exact Hw]].
      destruct Hw as (ws' & Hws' & Hy). rewrite Hws in Hws'. injection Hws' as <-. contradiction.
Qed.

Lemma explored_no_path g to v' a : explored g to ∅ v' -> a ∈ v' -> ~ path g a to.
Proof.
  intros [_ Hc Hm] Ha Hp. revert Ha Hm. induction Hp as [a b Hw|a b c Hw _ IH]; intros Ha Hm.
  - apply (Hm a Ha); [set_solver|exact Hw].
  - apply IH; [|exact Hm]. apply (Hc a b Ha); [set_solver|exact Hw].
Qed.

Lemma canReach_iff g from to : fst (canReach (size g) g from to ∅) = true <-> path g from to.
Proof.
  split; [apply canReach_sound|]. intros Hp.
  destruct (canReach (size g) g from to ∅) as [[|] v'] eqn:E; [reflexivity|]. exfalso.
  assert (Hf : (fresh_nodes g ∅ <= size g)%nat).
  { unfold fresh_nodes. rewrite <- size_dom. apply subseteq_size. set_solver. }
  destruct (canReach_complete _ g to from ∅ v' Hf E) as [Hex Hin].
  exact (explored_no_path _ _ _ _ Hex Hin Hp).
Qed.

Lemma WouldCauseCycle_iff g waiter owners :
  WouldCauseCycle g waiter owners = true <-> exists o, In o owners /\ path g o waiter.
Proof. unfold WouldCauseCycle. rewrite existsb_exists. setoid_rewrite canReach_iff. reflexivity. Qed.

(** The deadlock check is exact: [WouldCauseCycle] answers true exactly when
    some owner the request would wait for already waits, directly or through
    others, for the waiter; the search terminates on every graph, cyclic ones
    included. *)
Theorem deadlock_check_exact g waiter owners :
  WouldCauseCycle g waiter owners = true <-> exists o, In o owners /\ path g o waiter.
Proof. apply WouldCauseCycle_iff. Qed.

(** ** Keeping the graph free of deadlocks *)

Lemma AddWaiter_lookup g w owners a :
  owners <> [] ->
  AddWaiter g w owners !! a = if decide (a = w) then Some (list_to_set owners ∪ default ∅ (g !! w)) else g !! a.
Proof.
  intros Hne. destruct owners as [|o owners]; [contradiction|]. unfold AddWaiter.
  destruct (decide (a = w)) as [->|Hn]; [apply lookup_insert_eq|apply lookup_insert_ne; congruence].
Qed.

Lemma waits_add g w owners a b :
  waits (AddWaiter g w owners) a b <-> waits g a b \/ (a = w /\ In b owners).
Proof.
  destruct (decide (owners = [])) as [->|Hne]; [simpl; naive_solver|].
  unfold waits. rewrite (AddWaiter_lookup g w owners a Hne), <- list_elem_of_In.
  destruct (decide (a = w)) as [->|Hn]; [|naive_solver]. destruct (g !! w) as [ws|]; simpl; split.
  - intros (ws' & [= <-] & Hb). apply elem_of_union in Hb. rewrite elem_of_list_to_set in Hb. naive_solver.
  - intros H. eexists. split; [reflexivity|]. apply elem_of_union. rewrite elem_of_list_to_set. naive_solver.
  - intros (ws' & [= <-] & Hb). apply elem_of_union in Hb. rewrite elem_of_list_to_set in Hb. set_solver.
  - intros H. eexists. split; [reflexivity|]. apply elem_of_union. rewrite elem_of_list_to_set. naive_solver.
Qed.

Lemma waits_remove_waiter g w a b : waits (RemoveWaiter g w) a b <-> waits g a b /\ a <> w.
Proof.
  unfold RemoveWaiter, waits. setoid_rewrite lookup_delete_Some. naive_solver.
Qed.

Lemma waits_remove_owner g o a b : waits (RemoveOwner g o) a b <-> waits g a b /\ a <> o /\ b <> o.
Proof.
  unfold RemoveOwner, waits. setoid_rewrite lookup_delete_Some. setoid_rewrite lookup_omap_Some. split.
  - intros (ws & (Hn & ws0 & Hd & Hws) & Hb). case_decide; [discriminate|]. injection Hd as <-.
    apply elem_of_difference in Hb as [Hb Hne]. rewrite elem_of_singleton in Hne. eauto 10.
  - intros ((ws & Hws & Hb) & Ha & Hbo). exists (ws ∖ {[o]}). split; [|set_solver].
    split; [congruence|]. exists ws. split; [|exact Hws]. case_decide as Hem; [|reflexivity]. set_solver.
Qed.

(** A path in the extended graph stays in the old one, or goes through the new
    waiter and then through one of its new owners. *)
Lemma path_add g w owners a b :
  path (AddWaiter g w owners) a b ->
  path g a b \/ ((a = w \/ path g a w) /\ exists o, In o owners /\ (o = b \/ path g o b)).
Proof.
  induction 1 as [a b Hw|a b c Hw _ IH]; apply waits_add in Hw as [Hw|[-> Hin]].
  - left. apply path_edge, Hw.
  - right. split; [left; reflexivity|]. exists b. auto.
  - destruct IH as [Hp|[Hp Ho]]; [left; eapply path_step; eassumption|]. right. split; [|exact Ho]. right.
    destruct Hp as [->|Hp]; [apply path_edge, Hw|eapply path_step; eassumption].
  - right. split; [left; reflexivity|]. destruct IH as [Hp|[Hp (o & Ho & Hob)]].
    + exists b. auto.
    + exists o. auto.
Qed.

Lemma AddWaiter_acyclic g w owners :
  acyclic g -> WouldCauseCycle g w owners = false -> ~ In w owners -> acyclic (AddWaiter g w owners).
Proof.
  intros Hac Hno Hself x Hp. apply not_true_iff_false in Hno. apply Hno, WouldCauseCycle_iff.
  apply path_add in Hp as [Hp|[Hxw (o & Ho & Hox)]]; [exfalso; exact (Hac x Hp)|].
  exists o. split; [exact Ho|]. destruct Hxw as [->|Hxw], Hox as [->|Hox]; try assumption.
  - contradiction.
  - eapply path_app; eassumption.
Qed.

(** The owners a request waits for: those of the conflicting locks of the file,
    the requesting open itself excluded. *)
Lemma conflict_loop_in fl o : forall existing owners,
  In o (conflict_loop fl existing owners) <->
  In o owners \/ (o <> EmptyString /\ o <> fl_OpenID fl /\
    exists e, In e existing /\ IsLockConflicting e fl = true /\ lockOwnerOf e = o).
Proof.
  induction existing as [|e existing IH]; intros owners; simpl; [naive_solver|].
  destruct (IsLockConflicting e fl) eqn:E; simpl; [|rewrite IH; naive_solver congruence].
  repeat case_decide; rewrite IH; [naive_solver| |rewrite in_app_iff; simpl; naive_solver].
  rewrite list_elem_of_In in *. naive_solver.
Qed.

Lemma conflictHolders_in m h fl o :
  In o (conflictHolders m h fl) <->
  o <> EmptyString /\ o <> fl_OpenID fl /\
  exists e, In e (ListLocks m h) /\ IsLockConflicting e fl = true /\ lockOwnerOf e = o.
Proof. unfold conflictHolders. rewrite conflict_loop_in. simpl. tauto. Qed.

(** What a passed check has established of the graph. *)
Definition safe_wait (g : WaitForGraph) (p : string * list string) : Prop :=
  WouldCauseCycle g p.1 p.2 = false /\ ~ In p.1 p.2.

Lemma park_check_spec g m h fl owners :
  park_check g m h fl = Some owners -> owners = conflictHolders m h fl /\ safe_wait g (fl_OpenID fl, owners).
Proof.
  unfold park_check, deadlocked. destruct (bool_decide (conflictHolders m h fl = [])) eqn:E; simpl.
  - apply bool_decide_eq_true in E. rewrite E. intros [= <-]. repeat split; simpl; auto.
  - destruct (WouldCauseCycle g _ _) eqn:Hc; [discriminate|]. intros [= <-]. repeat split; [exact Hc|]. simpl.
    rewrite conflictHolders_in. tauto.
Qed.

(** A graph that lost edges is no less safe. *)
Lemma acyclic_fewer g g' : (forall a b, waits g' a b -> waits g a b) -> acyclic g -> acyclic g'.
Proof. intros H Hac x Hp. exact (Hac x (path_mono _ _ H _ _ Hp)). Qed.

Lemma safe_wait_fewer g g' p : (forall a b, waits g' a b -> waits g a b) -> safe_wait g p -> safe_wait g' p.
Proof.
  intros H [Hc Hs]. split; [|exact Hs]. apply not_true_iff_false. apply not_true_iff_false in Hc. contradict Hc.
  apply WouldCauseCycle_iff. apply WouldCauseCycle_iff in Hc as (o & Ho & Hp). exists o.
  split; [exact Ho|exact (path_mono _ _ H _ _ Hp)].
Qed.

Lemma RemoveWaiter_fewer g w a b : waits (RemoveWaiter g w) a b -> waits g a b.
Proof. rewrite waits_remove_waiter. tauto. Qed.

Lemma RemoveOwner_fewer g o a b : waits (RemoveOwner g o) a b -> waits g a b.
Proof. rewrite waits_remove_owner. tauto. Qed.

(** The life of a wait-for graph, with the requests that passed the check and
    have not recorded their wait yet.  The check and the record are two critical
    sections of the graph's mutex; between them other requests check or record,
    waits end (granted, cancelled or timed out) and owners leave; a request that
    gets no async credit or finds the registry full gives up.  With [apart], a
    request records its wait only when no other one is between its own check and
    record; without it, the interleaving is arbitrary. *)
Inductive parking (apart : bool) : WaitForGraph -> list (string * list string) -> Prop :=
  | P_new : parking apart NewWaitForGraph []
  | P_check g pending m h fl owners :
      parking apart g pending -> park_check g m h fl = Some owners ->
      parking apart g ((fl_OpenID fl, owners) :: pending)
  | P_record g pending i fl owners g' :
      parking apart g pending -> pending !! i = Some (fl_OpenID fl, owners) ->
      (apart = true -> length pending = 1%nat) ->
      park_record g fl owners true true = Some g' ->
      parking apart g' (delete i pending)
  | P_giveup g pending i : parking apart g pending -> parking apart g (delete i pending)
  | P_done g pending w : parking apart g pending -> parking apart (RemoveWaiter g w) pending
  | P_release g pending o : parking apart g pending -> parking apart (RemoveOwner g o) pending.

(** One request checks and records with no other one in between. *)
Lemma parkLockOnConflict_parking apart g m h fl g' :
  parking apart g [] -> parkLockOnConflict g g m h fl true true = Some g' -> parking apart g' [].
Proof.
  intros Hg. unfold parkLockOnConflict. destruct (park_check g m h fl) as [owners|] eqn:E; [|discriminate]. intros Hr.
  apply (P_record apart g [(fl_OpenID fl, owners)] 0%nat fl owners); [|reflexivity|reflexivity|exact Hr].
  apply (P_check apart g [] m h); assumption.
Qed.

Lemma parking_safe g pending : parking true g pending -> acyclic g /\ Forall (safe_wait g) pending.
Proof.
  induction 1 as [|g pending m h fl owners _ [Hac Hs] Hc|g pending i fl owners g' _ [Hac Hs] Hi Hone Hr
                 |g pending i _ [Hac Hs]|g pending w _ [Hac Hs]|g pending o _ [Hac Hs]].
  - split; [|constructor]. intros x Hp. destruct Hp as [? ? (ws & Hws & _)|? ? ? (ws & Hws & _) _];
      unfold NewWaitForGraph in Hws; rewrite lookup_empty in Hws; discriminate.
  - apply park_check_spec in Hc as [-> Hc]. split; [exact Hac|constructor; assumption].
  - destruct pending as [|p [|? ?]]; try discriminate (Hone eq_refl). destruct i as [|i]; [|destruct i; discriminate].
    simpl in Hi. injection Hi as ->. apply Forall_inv in Hs as [Hcy Hself]. injection Hr as <-.
    split; [|constructor]. apply AddWaiter_acyclic; assumption.
  - split; [exact Hac|]. apply Forall_delete, Hs.
  - split; [exact (acyclic_fewer _ _ (RemoveWaiter_fewer g w) Hac)|].
    eapply Forall_impl; [exact Hs|]. intros p. apply safe_wait_fewer, RemoveWaiter_fewer.
  - split; [exact (acyclic_fewer _ _ (RemoveOwner_fewer g o) Hac)|].
    eapply Forall_impl; [exact Hs|]. intros p. apply safe_wait_fewer, RemoveOwner_fewer.
Qed.


(** The waiters reported for an owner are exactly those parked behind it, so
    that the ones to notify on a release are neither missed nor spurious. *)
Theorem GetWaitersFor_exact g o w : In w (GetWaitersFor g o) <-> waits g w o.
Proof.
  unfold GetWaitersFor, waits. rewrite <- list_elem_of_In, list_elem_of_fmap. split.
  - intros ([w' ws] & -> & Hin). apply list_elem_of_filter in Hin as [Ho Hin]. exists ws. split; [|exact Ho].
    apply elem_of_map_to_list, Hin.
  - intros (ws & Hws & Ho). exists (w, ws). split; [reflexivity|]. apply list_elem_of_filter.
    split; [exact Ho|]. apply elem_of_map_to_list, Hws.
Qed.

(** A request that would wait for its own owner is never refused by the check
    in a deadlock-free graph, and recording it makes the owner wait for itself. *)
Theorem self_wait_is_not_detected g w :
  acyclic g -> WouldCauseCycle g w [w] = false /\ path (AddWaiter g w [w]) w w.
Proof.
  intros Hg. split.
  - apply not_true_iff_false. intros H. apply WouldCauseCycle_iff in H as (o & [<-|[]] & Hp).
    exact (Hg _ Hp).
  - apply path_edge, waits_add. simpl. auto.
Qed.

(** ** The theorems at a concrete graph *)

(** Open "a" holds file "f", open "b" holds file "g", open "c" file "k". *)
Definition sample_holders : Manager :=
  fst (Lock 1 "u3" (fst (Lock 1 "u2" (fst (Lock 1 "u1" newBaseManager "f" (sample_fl "a" 0 10 true)))
    "g" (sample_fl "b" 0 10 true))) "k" (sample_fl "c" 0 10 true)).

Definition sample_graph : WaitForGraph := AddWaiter (AddWaiter NewWaitForGraph "b" ["c"]) "a" ["b"].

Lemma sample_graph_parking : parking true sample_graph [].
Proof.
  apply (parkLockOnConflict_parking true (AddWaiter NewWaitForGraph "b" ["c"]) sample_holders "g"
    (sample_fl "a" 5 1 true)); [|vm_compute; reflexivity].
  apply (parkLockOnConflict_parking true NewWaitForGraph sample_holders "k" (sample_fl "b" 5 1 true));
    [apply P_new|vm_compute; reflexivity].
Qed.


Lemma self_wait_is_not_detected_witness :
  WouldCauseCycle sample_graph "c" ["c"] = false /\ path (AddWaiter sample_graph "c" ["c"]) "c" "c".
Proof.
  apply (self_wait_is_not_detected sample_graph "c"). apply (parking_safe _ _ sample_graph_parking).
Defined.

(** The race: "a" asks for the file of "b" while "b" asks for the file of "a".
    Both checks pass on the empty graph before either wait is recorded, and the
    two opens then wait for each other. *)
Theorem parking_race_deadlocks : exists g, parking false g [] /\ path g "a" "a".
Proof.
  exists (AddWaiter (AddWaiter NewWaitForGraph "b" ["a"]) "a" ["b"]). split.
  - apply (P_record false (AddWaiter NewWaitForGraph "b" ["a"]) [("a", ["b"])] 0%nat (sample_fl "a" 5 1 true) ["b"]);
      [|reflexivity|discriminate|reflexivity].
    apply (P_record false NewWaitForGraph [("b", ["a"]); ("a", ["b"])] 0%nat (sample_fl "b" 5 1 true) ["a"]);
      [|reflexivity|discriminate|reflexivity].
    apply (P_check false NewWaitForGraph [("a", ["b"])] sample_holders "f" (sample_fl "b" 5 1 true) ["a"]);
      [|vm_compute; reflexivity].
    apply (P_check false NewWaitForGraph [] sample_holders "g" (sample_fl "a" 5 1 true) ["b"]);
      [apply P_new|vm_compute; reflexivity].
  - apply (path_step _ _ "b"); [|apply path_edge]; apply waits_add; simpl; [auto|].
    left. apply (waits_add NewWaitForGraph "b" ["a"]). simpl. auto.
Qed.
