(* ===== verification/Chunker.v ===== *)
(** * Content-defined chunking ([pkg/block/chunker/chunker.go], [params.go],
    [gear.go])

    FastCDC over a byte stream: a rolling gear hash decides the chunk
    boundaries, between a minimum and a maximum size, with a harder mask before
    the average size than after it.  The reference below is declarative: a
    boundary is the first breakpoint of the data.  Deduplication rests on that
    boundary being a property of the bytes alone, not of how they are buffered. *)

From S2P Require Import Prelude.

Definition MinChunkSize : Z := 1 * 1024 * 1024.
Definition AvgChunkSize : Z := 4 * 1024 * 1024.
Definition MaxChunkSize : Z := 16 * 1024 * 1024.

Record Params := mkParams { Min : Z; Avg : Z; Max : Z }.

Definition DefaultParams : Params := mkParams MinChunkSize AvgChunkSize MaxChunkSize.

Inductive ParamsError := ErrBelowFloor | ErrOrdering.

Definition Validate (p : Params) : option ParamsError :=
  if Min p <? 4 * 1024 then Some ErrBelowFloor
  else if (Avg p <? Min p) || (Max p <? Avg p) then Some ErrOrdering
  else None.

Definition MaskS : Z := 0x0003590703530000.
Definition MaskL : Z := 0x0000d90003530000.

(** ** The gear table: 256 draws of splitmix64 *)

Definition splitmix64 (state : Z) : Z :=
  let z := state in
  let z := u64 (Z.lxor z (Z.shiftr z 30) * 0xBF58476D1CE4E5B9) in
  let z := u64 (Z.lxor z (Z.shiftr z 27) * 0x94D049BB133111EB) in
  Z.lxor z (Z.shiftr z 31).

Fixpoint gear_loop (n : nat) (state : Z) : list Z :=
  match n with
  | O => []
  | S n => let state := u64 (state + 0x9E3779B97F4A7C15) in splitmix64 state :: gear_loop n state
  end.

Definition gearTable : list Z := Eval vm_compute in gear_loop 256 0x9E3779B97F4A7C15.

(** [fp = (fp << 1) + gearTable[data[i]]] *)
Definition roll (fp b : Z) : Z := u64 (u64 (Z.shiftl fp 1) + nth (Z.to_nat b) gearTable 0).

(** ** The chunker *)

Definition NewChunkerWithParams (p : Params) : Params :=
  match Validate p with Some _ => DefaultParams | None => p end.

(** One scanning region: the bytes from position [i] on, up to its first
    breakpoint. *)
Fixpoint region (mask fp i : Z) (rest : list Z) : Z * option Z :=
  match rest with
  | [] => (fp, None)
  | b :: rest =>
    let fp := roll fp b in
    if Z.land fp mask =? 0 then (fp, Some (i + 1)) else region mask fp (i + 1) rest
  end.

Definition between (lo hi : Z) (data : list Z) : list Z :=
  drop (Z.to_nat lo) (take (Z.to_nat hi) data).

Definition Next (p : Params) (data : list Z) (final : bool) : Z * bool :=
  let n := Z.of_nat (length data) in
  if n =? 0 then (0, final)
  else if final && (n <=? Min p) then (n, true)
  else if n <? Min p then (0, false)
  else
    let end_ := if n >? Max p then Max p else n in
    let fp := fold_left roll (between 0 (Min p) data) 0 in
    let smallEnd := if Avg p >? end_ then end_ else Avg p in
    match region MaskS fp (Min p) (between (Min p) smallEnd data) with
    | (_, Some b) => (b, final && (b =? n))
    | (fp, None) =>
      match region MaskL fp smallEnd (between smallEnd end_ data) with
      | (_, Some b) => (b, final && (b =? n))
      | (_, None) =>
        if end_ =? Max p then (Max p, false)
        else if negb final then (0, false)
        else (n, true)
      end
    end.

(** ** The reference: breakpoints of the data *)

Definition params_ok (p : Params) : Prop := 0 < Min p /\ Min p <= Avg p /\ Avg p <= Max p.

Definition gear_hash (data : list Z) : Z := fold_left roll data 0.

Definition mask_at (p : Params) (i : Z) : Z := if i <? Avg p then MaskS else MaskL.

(** Position [i] of [data] is a breakpoint. *)
Definition breakpoint (p : Params) (data : list Z) (i : Z) : Prop :=
  Min p <= i < Max p /\ i < Z.of_nat (length data) /\
  Z.land (gear_hash (between 0 (i + 1) data)) (mask_at p i) = 0.

Definition first_breakpoint (p : Params) (data : list Z) (i : Z) : Prop :=
  breakpoint p data i /\ forall j, j < i -> ~ breakpoint p data j.

(** The reference chunking of a whole stream, for the fuel of its length. *)
Fixpoint chunk_loop (fuel : nat) (p : Params) (data : list Z) : list (list Z) :=
  match fuel, data with
  | O, _ | _, [] => []
  | S fuel, _ =>
    let b := Z.to_nat (fst (Next p data true)) in
    take b data :: chunk_loop fuel p (drop b data)
  end.

Definition chunks (p : Params) (data : list Z) : list (list Z) := chunk_loop (length data) p data.

Lemma NewChunkerWithParams_ok p : params_ok (NewChunkerWithParams p).
Proof.
  unfold NewChunkerWithParams, Validate, params_ok. repeat zcase; simpl; try (unfold MinChunkSize, AvgChunkSize, MaxChunkSize; lia).
Qed.

(** ** The two regions are one scan *)

Fixpoint first_break (p : Params) (fp i : Z) (rest : list Z) : option Z :=
  match rest with
  | [] => None
  | b :: rest =>
    let fp := roll fp b in
    if Z.land fp (mask_at p i) =? 0 then Some (i + 1) else first_break p fp (i + 1) rest
  end.

Lemma region_spec p mask : forall rest fp i,
  (forall j, i <= j < i + Z.of_nat (length rest) -> mask_at p j = mask) ->
  (region mask fp i rest).2 = first_break p fp i rest /\
  ((region mask fp i rest).2 = None -> (region mask fp i rest).1 = fold_left roll rest fp).
Proof.
  induction rest as [|b rest IH]; intros fp i Hm; simpl; [auto|]. simpl in Hm. rewrite (Hm i) by lia.
  destruct (Z.land (roll fp b) mask =? 0); [split; [reflexivity|discriminate]|]. apply IH. intros. apply Hm. lia.
Qed.

Lemma first_break_app p : forall l fp i r,
  first_break p fp i (l ++ r) =
  match first_break p fp i l with
  | Some b => Some b
  | None => first_break p (fold_left roll l fp) (i + Z.of_nat (length l)) r
  end.
Proof.
  induction l as [|b l IH]; intros fp i r; simpl; [f_equal; lia|].
  destruct (_ =? 0); [reflexivity|]. rewrite IH. destruct (first_break p _ _ l); [reflexivity|]. f_equal. lia.
Qed.

Lemma first_break_spec p : forall rest fp i,
  match first_break p fp i rest with
  | Some b => i < b <= i + Z.of_nat (length rest) /\
      Z.land (fold_left roll (take (Z.to_nat (b - i)) rest) fp) (mask_at p (b - 1)) = 0 /\
      (forall j, i <= j < b - 1 -> Z.land (fold_left roll (take (Z.to_nat (j + 1 - i)) rest) fp) (mask_at p j) <> 0)
  | None => forall j, i <= j < i + Z.of_nat (length rest) ->
      Z.land (fold_left roll (take (Z.to_nat (j + 1 - i)) rest) fp) (mask_at p j) <> 0
  end.
Proof.
  induction rest as [|b rest IH]; intros fp i; simpl; [lia|].
  destruct (Z.eqb_spec (Z.land (roll fp b) (mask_at p i)) 0) as [E|E].
  - split; [lia|]. replace (i + 1 - 1) with i by lia. replace (Z.to_nat (i + 1 - i)) with 1%nat by lia.
    simpl. split; [exact E|lia].
  - assert (Hstep : forall j, i < j -> take (Z.to_nat (j + 1 - i)) (b :: rest) = b :: take (Z.to_nat (j + 1 - (i + 1))) rest).
    { intros j Hj. replace (Z.to_nat (j + 1 - i)) with (S (Z.to_nat (j + 1 - (i + 1)))) by lia. reflexivity. }
    assert (Hhere : take (Z.to_nat (i + 1 - i)) (b :: rest) = [b]).
    { replace (Z.to_nat (i + 1 - i)) with 1%nat by lia. reflexivity. }
    specialize (IH (roll fp b) (i + 1)). destruct (first_break p (roll fp b) (i + 1) rest) as [e|].
    + destruct IH as (H1 & H2 & H3). split; [lia|]. split.
      * replace (e - i) with (e - 1 + 1 - i) by lia. rewrite Hstep by lia. simpl.
        replace (e - 1 + 1 - (i + 1)) with (e - (i + 1)) by lia. exact H2.
      * intros j Hj. destruct (decide (j = i)) as [->|]; [rewrite Hhere; exact E|].
        rewrite Hstep by lia. simpl. apply H3. lia.
    + intros j Hj. destruct (decide (j = i)) as [->|]; [rewrite Hhere; exact E|].
      rewrite Hstep by lia. simpl. apply IH. lia.
Qed.

Lemma between_length lo hi data :
  0 <= lo -> lo <= hi -> hi <= Z.of_nat (length data) -> Z.of_nat (length (between lo hi data)) = hi - lo.
Proof. intros. unfold between. rewrite length_drop, length_take. lia. Qed.

Lemma between_app lo mid hi data :
  0 <= lo -> lo <= mid -> mid <= hi -> between lo hi data = between lo mid data ++ between mid hi data.
Proof.
  intros. unfold between. rewrite <- (take_drop (Z.to_nat mid) (take (Z.to_nat hi) data)) at 1.
  rewrite take_take, Nat.min_l by lia.
  destruct (decide (Z.to_nat lo <= length (take (Z.to_nat mid) data))%nat) as [Hle|Hgt].
  - rewrite drop_app_le by exact Hle. reflexivity.
  - rewrite length_take in Hgt.
    rewrite (drop_ge (take (Z.to_nat hi) data)) by (rewrite length_take; lia).
    rewrite app_nil_r. symmetry. rewrite app_nil_r. reflexivity.
Qed.

Lemma between_prefix lo hi data more :
  hi <= Z.of_nat (length data) -> between lo hi (data ++ more) = between lo hi data.
Proof. intros. unfold between. rewrite take_app_le by lia. reflexivity. Qed.

Lemma between_take lo hi cap data :
  hi <= cap -> between lo hi (take (Z.to_nat cap) data) = between lo hi data.
Proof. intros. unfold between. rewrite take_take, Nat.min_l by lia. reflexivity. Qed.

(** The end of the scanning window. *)
Definition window_end (p : Params) (data : list Z) : Z := Z.min (Z.of_nat (length data)) (Max p).

(** The two regions of [Next] as one scan of the window. *)
Definition scan_window (p : Params) (data : list Z) : option Z :=
  first_break p (gear_hash (between 0 (Min p) data)) (Min p) (between (Min p) (window_end p data) data).

Lemma scan_window_spec p data :
  params_ok p -> Min p <= Z.of_nat (length data) ->
  match scan_window p data with
  | Some b => first_breakpoint p data (b - 1) /\ Min p < b <= window_end p data
  | None => forall i, ~ breakpoint p data i
  end.
Proof.
  intros (H0 & H1 & H2) Hn. unfold scan_window. set (e := window_end p data).
  assert (He : Min p <= e <= Z.of_nat (length data) /\ e <= Max p) by (unfold e, window_end; lia).
  assert (Hlen : Z.of_nat (length (between (Min p) e data)) = e - Min p) by (apply between_length; lia).
  assert (Hhash : forall i, Min p <= i < e ->
    fold_left roll (take (Z.to_nat (i + 1 - Min p)) (between (Min p) e data)) (gear_hash (between 0 (Min p) data)) =
    gear_hash (between 0 (i + 1) data)).
  { intros i Hi. unfold gear_hash. rewrite (between_app 0 (Min p) (i + 1) data) by lia. rewrite fold_left_app.
    f_equal. unfold between. rewrite take_drop_commute, take_take. f_equal. f_equal. lia. }
  pose proof (first_break_spec p (between (Min p) e data) (gear_hash (between 0 (Min p) data)) (Min p)) as H.
  rewrite Hlen in H. destruct (first_break _ _ _ _) as [b|].
  - destruct H as (Hb & Hz & Hnz). split; [|lia]. split.
    + split; [lia|]. split; [lia|]. rewrite <- Hhash by lia. replace (b - 1 + 1 - Min p) with (b - Min p) by lia. exact Hz.
    + intros j Hj (Hr & Hl & Hbr). rewrite <- Hhash in Hbr by lia. apply (Hnz j); [lia|exact Hbr].
  - intros i (Hr & Hl & Hbr). assert (i < e) by (unfold e, window_end; lia).
    rewrite <- Hhash in Hbr by lia. apply (H i); [lia|exact Hbr].
Qed.

Lemma Next_scan p data final :
  params_ok p ->
  Next p data final =
  let n := Z.of_nat (length data) in
  if n =? 0 then (0, final)
  else if final && (n <=? Min p) then (n, true)
  else if n <? Min p then (0, false)
  else match scan_window p data with
  | Some b => (b, final && (b =? n))
  | None => if Max p <=? n then (Max p, false) else if final then (n, true) else (0, false)
  end.
Proof.
  intros (H0 & H1 & H2). unfold Next. set (n := Z.of_nat (length data)). simpl.
  destruct (Z.eqb_spec n 0); [reflexivity|]. destruct (final && (n <=? Min p)); [reflexivity|].
  destruct (Z.ltb_spec n (Min p)); [reflexivity|].
  assert (He : (if n >? Max p then Max p else n) = window_end p data) by (unfold window_end; fold n; zcase; lia).
  rewrite He. set (e := window_end p data). assert (Hen : Min p <= e /\ e = Z.min n (Max p)) by (unfold e, window_end; lia).
  assert (Hs : (if Avg p >? e then e else Avg p) = Z.min (Avg p) e) by (zcase; lia). rewrite Hs.
  set (s := Z.min (Avg p) e). assert (Hse : Min p <= s <= e) by lia.
  assert (L1 : Z.of_nat (length (between (Min p) s data)) = s - Min p) by (apply between_length; lia).
  assert (L2 : Z.of_nat (length (between s e data)) = e - s) by (apply between_length; lia).
  assert (Hscan : scan_window p data =
    first_break p (gear_hash (between 0 (Min p) data)) (Min p) (between (Min p) s data ++ between s e data)).
  { unfold scan_window. fold e. rewrite (between_app (Min p) s e) by lia. reflexivity. }
  rewrite Hscan, first_break_app, L1. replace (Min p + (s - Min p)) with s by lia.
  change (fold_left roll (between 0 (Min p) data) 0) with (gear_hash (between 0 (Min p) data)).
  destruct (region_spec p MaskS (between (Min p) s data) (gear_hash (between 0 (Min p) data)) (Min p)) as [R1 F1].
  { intros j Hj. unfold mask_at. destruct (Z.ltb_spec j (Avg p)); [reflexivity|lia]. }
  destruct (region MaskS _ _ _) as [fp [b|]]; simpl in *; rewrite <- R1; [reflexivity|]. rewrite F1 by reflexivity.
  destruct (region_spec p MaskL (between s e data)
    (fold_left roll (between (Min p) s data) (gear_hash (between 0 (Min p) data))) s) as [R2 _].
  { intros j Hj. unfold mask_at. destruct (Z.ltb_spec j (Avg p)); [lia|reflexivity]. }
  destruct (region MaskL _ _ _) as [fp' [b|]]; simpl in *; rewrite <- R2; [reflexivity|].
  destruct (Z.eqb_spec e (Max p)), (Z.leb_spec (Max p) n); try lia; [reflexivity|]. destruct final; reflexivity.
Qed.

(** What a call returns, by the breakpoints of the data. *)
Lemma Next_cases p data final :
  params_ok p ->
  let n := Z.of_nat (length data) in
  let '(b, done) := Next p data final in
  (forall i, first_breakpoint p data i -> b = i + 1 /\ done = final && (b =? n)) /\
  ((forall i, ~ breakpoint p data i) ->
   (b, done) =
     if final && (n <=? Min p) then (n, true)
     else if Max p <=? n then (Max p, false)
     else if final then (n, true) else (0, false)) /\
  0 <= b <= n /\ b <= Max p.
Proof.
  intros Hp n. rewrite Next_scan by exact Hp. cbv zeta. fold n. destruct Hp as (H0 & H1 & H2).
  assert (Hsmall : n <= Min p -> forall i, ~ breakpoint p data i) by (intros Hs i (? & ? & _); unfold n in Hs; lia).
  destruct (Z.eqb_spec n 0) as [E|E].
  { split; [intros i [Hb _]; exfalso; apply (Hsmall ltac:(lia) i Hb)|]. split; [|lia]. intros _.
    destruct final; simpl; repeat zcase; try lia; rewrite ?E; reflexivity. }
  destruct (final && (n <=? Min p)) eqn:Ef.
  { apply andb_prop in Ef as [-> Hle]. apply Z.leb_le in Hle.
    split; [intros i [Hb _]; exfalso; apply (Hsmall Hle i Hb)|]. split; [reflexivity|lia]. }
  destruct (Z.ltb_spec n (Min p)) as [Hlt|Hge].
  { split; [intros i [Hb _]; exfalso; apply (Hsmall ltac:(lia) i Hb)|]. split; [|lia]. intros _.
    destruct final; simpl in Ef; [apply Z.leb_gt in Ef; lia|]. zcase; [lia|reflexivity]. }
  pose proof (scan_window_spec p data (conj H0 (conj H1 H2)) Hge) as Hw. unfold window_end in Hw. fold n in Hw.
  destruct (scan_window p data) as [b|].
  - destruct Hw as [[Hb Hleast] Hr]. split; [|split; [intros Hno; exfalso; exact (Hno _ Hb)|lia]].
    intros i [Hi Hmin]. assert (i = b - 1) as ->; [|split; [lia|reflexivity]].
    destruct (Z.lt_trichotomy i (b - 1)) as [Hl|[He|Hg]]; [exfalso; exact (Hleast _ Hl Hi)|exact He|exfalso; exact (Hmin _ Hg Hb)].
  - assert (Hnf : forall i, first_breakpoint p data i -> False) by (intros i [Hi _]; exact (Hw i Hi)).
    destruct (Z.leb_spec (Max p) n), final; (split; [intros i Hi; exfalso; exact (Hnf i Hi)|split; [reflexivity|lia]]).
Qed.

Lemma scan_window_ext p data data' :
  params_ok p -> window_end p data = window_end p data' -> Min p <= window_end p data ->
  between 0 (window_end p data) data = between 0 (window_end p data) data' ->
  scan_window p data = scan_window p data'.
Proof.
  intros (H0 & H1 & H2) He Hm Heq. unfold scan_window. rewrite <- He. set (e := window_end p data) in *.
  rewrite !(between_app 0 (Min p) e) in Heq by lia.
  assert (Hl : length (between 0 (Min p) data) = length (between 0 (Min p) data')).
  { apply Nat2Z.inj. rewrite !between_length; unfold e, window_end in *; lia. }
  apply app_inj_1 in Heq as [-> ->]; [reflexivity|exact Hl].
Qed.

(** A buffer of at least the maximum size decides the boundary, whatever
    follows it. *)
Lemma Next_full_buffer p buf more f f' :
  params_ok p -> Max p <= Z.of_nat (length buf) ->
  fst (Next p buf f) = fst (Next p (buf ++ more) f') /\ 0 < fst (Next p buf f).
Proof.
  intros Hp Hmax. pose proof Hp as (H0 & H1 & H2). rewrite !Next_scan by exact Hp. rewrite length_app, Nat2Z.inj_add. simpl.
  set (n := Z.of_nat (length buf)) in *. set (k := Z.of_nat (length more)). assert (0 <= k) by lia.
  assert (Hw : scan_window p buf = scan_window p (buf ++ more)).
  { assert (Hwe : window_end p buf = Max p) by (unfold window_end; lia).
    apply scan_window_ext; [exact Hp| |lia|].
    - unfold window_end. rewrite length_app. lia.
    - symmetry. rewrite Hwe. apply between_prefix. lia. }
  rewrite <- Hw. pose proof (scan_window_spec p buf Hp ltac:(lia)) as Hs.
  destruct (scan_window p buf) as [b|] eqn:Eb; destruct f, f'; simpl; repeat zcase; simpl; try lia;
    destruct Hs as [_ Hs]; unfold window_end in Hs; fold n in Hs; try lia.
Qed.

Lemma breakpoint_extend p data more i :
  i < Z.of_nat (length data) -> breakpoint p (data ++ more) i <-> breakpoint p data i.
Proof.
  intros Hi. unfold breakpoint. rewrite between_prefix by lia. rewrite length_app. split; intros (? & ? & ?); repeat split; (lia || assumption).
Qed.

(** Either some breakpoint is the first one, or there is none. *)
Lemma breakpoint_dec p data :
  params_ok p -> (exists i, first_breakpoint p data i) \/ (forall i, ~ breakpoint p data i).
Proof.
  intros Hp. destruct (decide (Min p <= Z.of_nat (length data))) as [Hn|Hn].
  - pose proof (scan_window_spec p data Hp Hn) as H. destruct (scan_window p data) as [b|]; [left; exists (b - 1); tauto|right; exact H].
  - right. intros i (? & ? & _). lia.
Qed.

Lemma Next_stable p data b done more final :
  params_ok p -> Next p data false = (b, done) -> 0 < b -> fst (Next p (data ++ more) final) = b.
Proof.
  intros Hp HN Hb. destruct (breakpoint_dec p data Hp) as [[i [Hi Hmin]]|Hno].
  - pose proof (Next_cases p data false Hp) as H. cbv zeta in H. rewrite HN in H. destruct H as (Hbr & _).
    destruct (Hbr i (conj Hi Hmin)) as [-> _]. destruct Hi as (Hr & Hl & Hz).
    pose proof (Next_cases p (data ++ more) final Hp) as H. cbv zeta in H. destruct (Next p (data ++ more) final) as [b' d'].
    destruct H as (Hbr' & _). apply (Hbr' i). split.
    + apply breakpoint_extend; [exact Hl|]. repeat split; (lia || assumption).
    + intros j Hj Hbj. apply (Hmin j Hj). apply (breakpoint_extend p data more j); [lia|exact Hbj].
  - pose proof (Next_cases p data false Hp) as H. cbv zeta in H. rewrite HN in H. destruct H as (_ & Hn & _).
    specialize (Hn Hno). simpl in Hn. destruct (Z.leb_spec (Max p) (Z.of_nat (length data))) as [Hm|Hm]; [|inversion Hn; lia].
    destruct (Next_full_buffer p data more false final Hp Hm) as [He _]. rewrite <- He, HN. reflexivity.
Qed.

Lemma Next_final_pos p data :
  params_ok p -> data <> [] -> 0 < fst (Next p data true) <= Z.of_nat (length data) /\ fst (Next p data true) <= Max p.
Proof.
  intros Hp Hne. pose proof (Next_cases p data true Hp) as H. cbv zeta in H. destruct (Next p data true) as [b d].
  destruct H as (Hbr & Hno & Hb & Hm). simpl. split; [|exact Hm]. split; [|lia].
  assert (0 < Z.of_nat (length data)) by (destruct data; [contradiction|simpl; lia]).
  destruct Hp as (H0 & H1 & H2). destruct (breakpoint_dec p data (conj H0 (conj H1 H2))) as [[i Hi]|Hn].
  - destruct (Hbr i Hi) as [-> _]. destruct Hi as [(? & _) _]. lia.
  - specialize (Hno Hn). simpl in Hno. repeat zcase_in Hno; inversion Hno; lia.
Qed.

Lemma Next_final_min p data :
  params_ok p -> fst (Next p data true) < Z.of_nat (length data) -> Min p <= fst (Next p data true).
Proof.
  intros Hp Hlt. pose proof (Next_cases p data true Hp) as H. cbv zeta in H. destruct (Next p data true) as [b d].
  simpl in *. destruct H as (Hbr & Hno & _). destruct Hp as (H0 & H1 & H2).
  destruct (breakpoint_dec p data (conj H0 (conj H1 H2))) as [[i Hi]|Hn].
  - destruct (Hbr i Hi) as [-> _]. destruct Hi as [(? & _) _]. lia.
  - specialize (Hno Hn). simpl in Hno. repeat zcase_in Hno; inversion Hno; lia.
Qed.

Lemma chunk_loop_spec p : params_ok p -> forall fuel data,
  (length data <= fuel)%nat ->
  concat (chunk_loop fuel p data) = data /\
  Forall (fun c => 0 < Z.of_nat (length c) <= Max p) (chunk_loop fuel p data) /\
  Forall (fun c => Min p <= Z.of_nat (length c)) (removelast (chunk_loop fuel p data)).
Proof.
  intros Hp. induction fuel as [|fuel IH]; intros data Hf.
  { destruct data; [simpl; auto|simpl in Hf; lia]. }
  destruct data as [|x data]; [simpl; auto|]. set (d := x :: data) in *.
  assert (Hd : d <> []) by discriminate. destruct (Next_final_pos p d Hp Hd) as [Hb Hm].
  pose proof (Next_final_min p d Hp) as Hmin.
  change (chunk_loop (S fuel) p d) with
    (take (Z.to_nat (fst (Next p d true))) d :: chunk_loop fuel p (drop (Z.to_nat (fst (Next p d true))) d)).
  set (b := fst (Next p d true)) in *.
  destruct (IH (drop (Z.to_nat b) d)) as (I1 & I2 & I3); [rewrite length_drop; lia|]. split; [|split].
  - simpl. rewrite I1. apply take_drop.
  - constructor; [rewrite length_take; lia|exact I2].
  - simpl. destruct (chunk_loop fuel p (drop (Z.to_nat b) d)) as [|c cs] eqn:E; [constructor|].
    constructor; [|exact I3]. rewrite length_take.
    assert (Z.of_nat (length (drop (Z.to_nat b) d)) > 0).
    { rewrite <- I1. inversion I2. simpl. rewrite length_app. lia. }
    rewrite length_drop in *. lia.
Qed.

Lemma chunk_loop_fuel p : params_ok p -> forall fuel fuel' data,
  (length data <= fuel)%nat -> (length data <= fuel')%nat -> chunk_loop fuel p data = chunk_loop fuel' p data.
Proof.
  intros Hp. induction fuel as [|fuel IH]; intros fuel' data Hf Hf'.
  { destruct data; [destruct fuel'; reflexivity|simpl in Hf; lia]. }
  destruct data as [|x data]; [destruct fuel'; reflexivity|]. destruct fuel' as [|fuel']; [simpl in Hf'; lia|].
  assert (Hne : x :: data <> []) by discriminate. pose proof (Next_final_pos p (x :: data) Hp Hne) as [Hb _].
  change (chunk_loop (S fuel) p (x :: data)) with
    (take (Z.to_nat (fst (Next p (x :: data) true))) (x :: data) ::
     chunk_loop fuel p (drop (Z.to_nat (fst (Next p (x :: data) true))) (x :: data))).
  change (chunk_loop (S fuel') p (x :: data)) with
    (take (Z.to_nat (fst (Next p (x :: data) true))) (x :: data) ::
     chunk_loop fuel' p (drop (Z.to_nat (fst (Next p (x :: data) true))) (x :: data))).
  f_equal. apply IH; rewrite length_drop; lia.
Qed.

Lemma chunks_cons p data :
  params_ok p -> data <> [] ->
  let b := Z.to_nat (fst (Next p data true)) in
  chunks p data = take b data :: chunks p (drop b data).
Proof.
  intros Hp Hne b. pose proof (Next_final_pos p data Hp Hne) as [Hb _]. unfold chunks.
  destruct data as [|x data]; [contradiction|].
  change (chunk_loop (length (x :: data)) p (x :: data)) with
    (take b (x :: data) :: chunk_loop (length data) p (drop b (x :: data))).
  f_equal. apply chunk_loop_fuel; [exact Hp| |lia]. rewrite length_drop. subst b. simpl length in *. lia.
Qed.

(** C39: Content-defined chunking is exact: [Next] cuts at the first breakpoint of the
    data, at the maximum size when it has none, and at the end of a final buffer
    otherwise; it reports [done] exactly when the cut is the end of a final buffer
    (nothing is said of [done] for a buffer of exactly the maximum size without a
    breakpoint, see [full_final_chunk_not_done]); chunking a stream with it tiles
    the stream with non-empty chunks of at most the maximum size, all but the last
    of at least the minimum. *)
Theorem chunking_exact p0 data :
  let p := NewChunkerWithParams p0 in
  (forall final, let '(b, done) := Next p data final in
     let n := Z.of_nat (length data) in
     (forall i, first_breakpoint p data i -> b = i + 1 /\ done = final && (b =? n)) /\
     ((forall i, ~ breakpoint p data i) ->
      b = (if final && (n <=? Min p) then n else if Max p <=? n then Max p else if final then n else 0) /\
      (n <> Max p -> done = final && (b =? n)))) /\
  concat (chunks p data) = data /\
  Forall (fun c => 0 < Z.of_nat (length c) <= Max p) (chunks p data) /\
  Forall (fun c => Min p <= Z.of_nat (length c)) (removelast (chunks p data)).
Proof.
  intros p. pose proof (NewChunkerWithParams_ok p0) as Hp. fold p in Hp. split.
  - intros final. pose proof (Next_cases p data final Hp) as H. cbv zeta in *.
    destruct (Next p data final) as [b done]. destruct H as (H1 & H2 & _). split; [exact H1|]. intros Hno.
    specialize (H2 Hno). destruct Hp as (Hp0 & Hp1 & Hp2).
    destruct final; simpl in H2 |- *; repeat zcase; injection H2 as -> ->; (split; [reflexivity|]); intros Hn;
      first [reflexivity|lia].
  - apply chunk_loop_spec; [exact Hp|lia].
Qed.

(** A final buffer of exactly the maximum size without a breakpoint is cut at its
    end, yet not reported as done. *)
Theorem full_final_chunk_not_done p0 data :
  let p := NewChunkerWithParams p0 in
  Min p < Max p -> Z.of_nat (length data) = Max p -> (forall i, ~ breakpoint p data i) ->
  Next p data true = (Z.of_nat (length data), false).
Proof.
  intros p Hlt Hn Hno. pose proof (Next_cases p data true (NewChunkerWithParams_ok p0)) as H. cbv zeta in H.
  destruct (Next p data true) as [b done]. destruct H as (_ & H & _). rewrite (H Hno), Hn. simpl. repeat zcase; [lia|reflexivity|lia].
Qed.

(** A boundary found in a partial buffer is final: whatever bytes follow, and
    whether or not the stream ends there, the same prefix is cut off. *)
Theorem boundary_stable p0 data b done more final :
  let p := NewChunkerWithParams p0 in
  Next p data false = (b, done) -> 0 < b -> fst (Next p (data ++ more) final) = b.
Proof. intros p. apply Next_stable, NewChunkerWithParams_ok. Qed.

(** ** A concrete stream *)

Fixpoint lcg_bytes (n : nat) (s : Z) : list Z :=
  match n with
  | O => []
  | S n => let s := (s * 1103515245 + 12345) mod 2 ^ 31 in Z.shiftr s 16 mod 256 :: lcg_bytes n s
  end.

Definition sample_params : Params := mkParams 4096 4096 8192.
Definition sample_data : list Z := lcg_bytes (Z.to_nat 6000) 40.

Example full_final_chunk_sample : Next sample_params (repeat 0 8192) true = (8192, false).
Proof. vm_compute. reflexivity. Qed.

Lemma boundary_stable_witness :
  Next sample_params sample_data false = (5342, false) /\
  forall more final, fst (Next sample_params (sample_data ++ more) final) = 5342.
Proof.
  assert (H : Next sample_params sample_data false = (5342, false)) by (vm_compute; reflexivity).
  split; [exact H|]. intros more final. exact (boundary_stable sample_params sample_data 5342 false more final H eq_refl).
Defined.
