(* ===== verification/JournalCarve.v ===== *)
(** * Carving the journal ([pkg/block/journal/carve.go], [carve_dispatch.go])

    Carving moves a file's dirty bytes to the remote store.  A snapshot of the
    dirty intervals is split into contiguous runs; a run's bytes are streamed
    through the chunker, chunks that are not yet remote are packed into blocks,
    blocks are committed concurrently, and once a block and all earlier ones are
    committed the intervals below its watermark are marked synced, in memory and,
    record by record, on disk.

    The collaborators behind interfaces are parameters: the content hash
    ([blake3.Sum256]), the answers of the deduper, the read results of the
    segments, the outcomes of [CommitBlock].  Their answers may differ at every
    call: they are indexed by the iteration of the packing loop, or chosen by the
    step relation. *)

From S2P Require Import Prelude.
From S2P Require Import Chunker.
From S2P Require Import JournalIndex.

(** ** Which files and which runs *)

Definition is_dirty (iv : interval) : bool := negb (iv_synced iv) && negb (iv_cold iv).

(** The trigger of [carveCandidates], for one file. *)
Definition eligible (force : bool) (CarveBlockSize now maxAge firstDirtyNanos : Z) (ivs : list interval) : bool :=
  let dirty := fold_left (fun d iv => if is_dirty iv then d + iv_length iv else d) ivs 0 in
  if dirty =? 0 then false
  else
    let aged := negb (firstDirtyNanos =? 0) && (now - firstDirtyNanos >=? maxAge) in
    force || (dirty >=? CarveBlockSize) || aged.

Definition snapshot (ivs : list interval) : list interval := List.filter is_dirty ivs.

(** The inner loop of [carveFile]: the rest of the run that [prev] belongs to, and
    what follows it. *)
Fixpoint run_from (prev : interval) (snap : list interval) : list interval * list interval :=
  match snap with
  | [] => ([], [])
  | iv :: rest =>
    if iv_fileOff iv =? iend prev then let '(run, after) := run_from iv rest in (iv :: run, after)
    else ([], snap)
  end.

Fixpoint split_runs (fuel : nat) (snap : list interval) : list (list interval) :=
  match fuel, snap with
  | O, _ | _, [] => []
  | S fuel, iv :: rest => let '(run, after) := run_from iv rest in (iv :: run) :: split_runs fuel after
  end.

(** The runs [carveFile] carves, in order. *)
Definition carveRuns (ivs : list interval) : list (list interval) :=
  split_runs (length (snapshot ivs)) (snapshot ivs).

(** [maybeResetDirtyClock] *)
Definition maybeResetDirtyClock (ivs : list interval) (firstDirtyNanos : Z) : Z :=
  if existsb is_dirty ivs then firstDirtyNanos else 0.

(** ** Packing a run *)

Section carve.
Context {Hash : Type} {HashEq : EqDecision Hash} {HashCount : Countable Hash}.
Variable Sum256 : list Z -> Hash.
Variable fileID : string.
Variable params : Params.
Variable CarveBlockSize : Z.

Record CarveChunk := mkChunk {
  cc_Hash : Hash;
  cc_FileID : string;
  cc_FileOffset : Z;
  cc_Data : list Z;
}.

(** What the packing loop has produced so far: the logical offset, the block
    being packed with its fill cursor, and the blocks handed to the dispatcher
    with their watermarks. *)
Record packed := mkPacked {
  po_fileOff : Z;
  po_pending : list CarveChunk;
  po_arenaOff : Z;
  po_newOffsets : list Z;
  po_BytesCarved : Z;
  po_submitted : list (list CarveChunk * Z);
}.

Definition flush (out : packed) (watermark : Z) : packed :=
  mkPacked (po_fileOff out) [] 0 (po_newOffsets out) (po_BytesCarved out)
    (po_submitted out ++ [(po_pending out, watermark)]).

(** The collaborators' answers at each iteration of the loop. *)
Record env := mkEnv {
  ctx_err : nat -> bool;
  aborted : nat -> bool;
  IsChunkDurable : nat -> Hash -> option bool;
  acquire : nat -> bool;
}.

(** One chunk: hash, dedup, copy into the arena, advance, flush a full block.
    [None] is an error of the deduper or of the arena pool. *)
Definition emit (E : env) (iter : nat) (out : packed) (data : list Z) : option packed :=
  let boundary := Z.of_nat (length data) in
  let h := Sum256 data in
  match IsChunkDurable E iter h with
  | None => None
  | Some durable =>
    if negb durable && bool_decide (po_pending out = []) && negb (acquire E iter) then None
    else
      let pending := if durable then po_pending out
                     else po_pending out ++ [mkChunk h fileID (po_fileOff out) data] in
      let arenaOff := if durable then po_arenaOff out else po_arenaOff out + boundary in
      let carved := if durable then po_BytesCarved out else po_BytesCarved out + boundary in
      let out := mkPacked (i64 (po_fileOff out + boundary)) pending arenaOff
                   (po_newOffsets out ++ [po_fileOff out]) carved (po_submitted out) in
      Some (if arenaOff >=? CarveBlockSize then flush out (po_fileOff out) else out)
  end.

(** The run reader: the payloads left to read, [None] where a read fails. *)
Inductive fill_end := Full | Eof | ReadErr.

Fixpoint fill (cap : Z) (buf : list Z) (pieces : list (option (list Z)))
    : list Z * list (option (list Z)) * fill_end :=
  if cap <=? Z.of_nat (length buf) then (buf, pieces, Full)
  else match pieces with
  | [] => (buf, [], Eof)
  | None :: pieces => (buf, pieces, ReadErr)
  | Some d :: pieces =>
    let k := cap - Z.of_nat (length buf) in
    if Z.of_nat (length d) <=? k then fill cap (buf ++ d) pieces
    else (buf ++ take (Z.to_nat k) d, Some (drop (Z.to_nat k) d) :: pieces, Full)
  end.

Record pack := mkPack {
  pk_iter : nat;
  pk_buf : list Z;
  pk_pieces : list (option (list Z));
  pk_eof : bool;
  pk_out : packed;
}.

Inductive outcome := Finished | PackErr | Aborted.

(** One iteration of the packing loop; [inl] goes round again. *)
Definition pack_iter (E : env) (st : pack) : pack + (packed * outcome) :=
  if ctx_err E (pk_iter st) then inr (pk_out st, PackErr)
  else if aborted E (pk_iter st) then inr (pk_out st, Aborted)
  else
    let '(buf, pieces, e) :=
      if pk_eof st then (pk_buf st, pk_pieces st, Eof) else fill MaxChunkSize (pk_buf st) (pk_pieces st) in
    match e with
    | ReadErr => inr (pk_out st, PackErr)
    | _ =>
      let eof := match e with Eof => true | _ => false end in
      if bool_decide (buf = []) then inr (pk_out st, Finished)
      else
        let boundary := fst (Next (NewChunkerWithParams params) buf eof) in
        if (boundary =? 0) && negb eof then inl (mkPack (S (pk_iter st)) buf pieces eof (pk_out st))
        else
          let boundary := if boundary =? 0 then Z.of_nat (length buf) else boundary in
          match emit E (pk_iter st) (pk_out st) (take (Z.to_nat boundary) buf) with
          | None => inr (pk_out st, PackErr)
          | Some out =>
            let buf := drop (Z.to_nat boundary) buf in
            if eof && bool_decide (buf = []) then inr (out, Finished)
            else inl (mkPack (S (pk_iter st)) buf pieces eof out)
          end
    end.

Fixpoint pack_loop (fuel : nat) (E : env) (st : pack) : option (packed * outcome) :=
  match fuel with
  | O => None
  | S fuel => match pack_iter E st with inl st => pack_loop fuel E st | inr r => Some r end
  end.

Definition pack_start (fileOff : Z) (pieces : list (option (list Z))) : pack :=
  mkPack 0 [] pieces false (mkPacked fileOff [] 0 [] 0 []).

(** The blocks [carveRun] submits: those of the loop, and, when packing finished
    and no commit has failed since ([aborted_late]), the remainder with the end of
    the run as its watermark. *)
Definition carve_blocks (r : packed * outcome) (aborted_late : bool) (runEnd : Z) : list (list CarveChunk * Z) :=
  match r with
  | (out, Finished) => if aborted_late then po_submitted out else po_submitted (flush out runEnd)
  | (out, _) => po_submitted out
  end.

(** ** Marking intervals and records synced *)

(** The first loop of [flipUpTo], over the run from [flipIdx] on: the index, the
    new [flipIdx], the bytes taken off the unsynced counter, the records touched. *)
Fixpoint flip_loop (ivs : list interval) (run : list interval) (flipIdx : nat) (watermark : Z)
    : list interval * nat * Z * list (Z * Z) :=
  match run with
  | [] => (ivs, flipIdx, 0, [])
  | iv :: run =>
    if iend iv <=? watermark then
      match findRecord ivs (iv_fileOff iv) (iv_version iv) with
      | Some k =>
        match ivs !! k with
        | Some e =>
          if negb (iv_synced e) then
            let '(ivs, idx, bytes, touched) := flip_loop (<[k := set_synced true e]> ivs) run (S flipIdx) watermark in
            (ivs, idx, iv_length e + bytes, (sl_SegmentID (iv_loc iv), iv_recOff iv) :: touched)
          else flip_loop ivs run (S flipIdx) watermark
        | None => flip_loop ivs run (S flipIdx) watermark
        end
      | None => flip_loop ivs run (S flipIdx) watermark
      end
    else (ivs, flipIdx, 0, [])
  end.

Definition recordHasDirtyFragment (ivs : list interval) (seg recOff : Z) : bool :=
  existsb (fun e => (sl_SegmentID (iv_loc e) =? seg) && (iv_recOff e =? recOff) &&
                    negb (iv_synced e) && negb (iv_cold e)) ivs.

(** [flipUpTo]: the index, the new [flipIdx], the bytes off the unsynced counter
    and the records whose on-disk flag is to be set. *)
Definition flipUpTo (ivs : list interval) (run : list interval) (flipIdx : nat) (watermark : Z)
    : list interval * nat * Z * list (Z * Z) :=
  let '(ivs, idx, bytes, touched) := flip_loop ivs (drop flipIdx run) flipIdx watermark in
  (ivs, idx, bytes, List.filter (fun rk => negb (recordHasDirtyFragment ivs rk.1 rk.2)) touched).

(** ** The dispatcher

    A worker per submitted block: it commits, waits for its predecessor, flips,
    and reports to its successor. *)

Inductive phase := Committing | Committed (ok : bool) | Flipped (ok : bool).

Record worker := mkWorker { w_chunks : list CarveChunk; w_watermark : Z; w_phase : phase }.

Record dispatch := mkDispatch {
  d_workers : list worker;
  d_flipIdx : nat;
  d_ivs : list interval;
  d_unsynced : Z;
  d_onDisk : list (Z * Z);
  d_remote : gset Hash;
  d_BlocksWritten : Z;
  d_abort : bool;
}.

Definition set_phase (w : worker) (ph : phase) : worker := mkWorker (w_chunks w) (w_watermark w) ph.

Definition hashes (chunks : list CarveChunk) : gset Hash := list_to_set (map cc_Hash chunks).

(** [submit] *)
Definition submit (d : dispatch) (chunks : list CarveChunk) (watermark : Z) : dispatch :=
  mkDispatch (d_workers d ++ [mkWorker chunks watermark Committing]) (d_flipIdx d) (d_ivs d) (d_unsynced d)
    (d_onDisk d) (d_remote d) (d_BlocksWritten d) (d_abort d).

(** [commitAndFlip] up to the wait: [ok] is the outcome of [CommitBlock], which is
    atomic; a block without chunks is not sent. *)
Definition commit (d : dispatch) (i : nat) (w : worker) (ok : bool) : dispatch :=
  let ok := ok || bool_decide (w_chunks w = []) in
  mkDispatch (<[i := set_phase w (Committed ok)]> (d_workers d)) (d_flipIdx d) (d_ivs d) (d_unsynced d)
    (d_onDisk d) (if ok then hashes (w_chunks w) ∪ d_remote d else d_remote d) (d_BlocksWritten d)
    (d_abort d || negb ok).

(** What the worker receives from its predecessor, if it has finished. *)
Definition predecessor (d : dispatch) (i : nat) : option bool :=
  match i with
  | O => Some true
  | S j => match d_workers d !! j with Some (mkWorker _ _ (Flipped ok)) => Some ok | _ => None end
  end.

(** The rest of [commitAndFlip], once the predecessor answered [proceed].  Writing
    the on-disk flags can fail after some of them ([written]) reached the disk. *)
Definition flip (run : list interval) (d : dispatch) (i : nat) (w : worker) (committed proceed : bool)
    (written : list (Z * Z)) (flip_err : bool) : dispatch :=
  if proceed && committed then
    let '(ivs, idx, bytes, _) := flipUpTo (d_ivs d) run (d_flipIdx d) (w_watermark w) in
    mkDispatch (<[i := set_phase w (Flipped (negb flip_err))]> (d_workers d)) idx ivs (d_unsynced d - bytes)
      (written ++ d_onDisk d) (d_remote d)
      (if negb flip_err && negb (bool_decide (w_chunks w = [])) then d_BlocksWritten d + 1 else d_BlocksWritten d)
      (d_abort d || flip_err)
  else
    mkDispatch (<[i := set_phase w (Flipped false)]> (d_workers d)) (d_flipIdx d) (d_ivs d) (d_unsynced d)
      (d_onDisk d) (d_remote d) (d_BlocksWritten d) (d_abort d || (proceed && negb committed)).

(** ** The reference: the chunks of the run, in order *)

Definition payload (pieces : list (option (list Z))) : list Z := concat (omap id pieces).

Fixpoint tiles (off : Z) (cs : list (list Z)) : list (Z * list Z) :=
  match cs with
  | [] => []
  | c :: cs => (off, c) :: tiles (off + Z.of_nat (length c)) cs
  end.

Fixpoint emit_all (E : env) (iter : nat) (out : packed) (cs : list (list Z)) : option packed :=
  match cs with
  | [] => Some out
  | c :: cs => match emit E iter out c with None => None | Some out => emit_all E (S iter) out cs end
  end.

Lemma fill_spec cap : forall pieces buf,
  let '(buf', pieces', e) := fill cap buf pieces in
  buf ++ payload pieces = buf' ++ payload pieces' /\
  match e with
  | Full => cap <= Z.of_nat (length buf')
  | Eof => pieces' = []
  | ReadErr => In None pieces
  end.
Proof.
  induction pieces as [|[d|] pieces IH]; intros buf; simpl; destruct (Z.leb_spec cap (Z.of_nat (length buf))); auto.
  destruct (Z.leb_spec (Z.of_nat (length d)) (cap - Z.of_nat (length buf))) as [Hle|Hgt].
  - specialize (IH (buf ++ d)). destruct (fill cap (buf ++ d) pieces) as [[buf' pieces'] e].
    destruct IH as [He Hend]. rewrite <- He, <- app_assoc. split; [reflexivity|]. destruct e; auto.
  - unfold payload. simpl. rewrite <- app_assoc, (app_assoc (take _ d)), take_drop. split; [reflexivity|].
    rewrite length_app, length_take. lia.
Qed.

Section packing.
Variable E : env.
Hypothesis fits : Max (NewChunkerWithParams params) <= MaxChunkSize.

(** One iteration: it ends the loop, or cuts the first chunk off the bytes left. *)
Lemma pack_iter_spec st :
  (pk_eof st = true -> pk_pieces st = []) ->
  let R := pk_buf st ++ payload (pk_pieces st) in
  match pack_iter E st with
  | inl st' => exists c rest, chunks (NewChunkerWithParams params) R = c :: rest /\ c <> [] /\
      R = c ++ (pk_buf st' ++ payload (pk_pieces st')) /\
      rest = chunks (NewChunkerWithParams params) (pk_buf st' ++ payload (pk_pieces st')) /\
      emit E (pk_iter st) (pk_out st) c = Some (pk_out st') /\ pk_iter st' = S (pk_iter st) /\
      (pk_eof st' = true -> pk_pieces st' = [])
  | inr (out, Finished) =>
      R = [] /\ out = pk_out st \/
      exists c, chunks (NewChunkerWithParams params) R = [c] /\ emit E (pk_iter st) (pk_out st) c = Some out
  | inr (out, _) => out = pk_out st
  end.
Proof.
  intros Heof R. set (p := NewChunkerWithParams params) in *.
  assert (Hp : params_ok p) by apply NewChunkerWithParams_ok. unfold pack_iter. fold p.
  destruct (ctx_err E (pk_iter st)); [reflexivity|]. destruct (aborted E (pk_iter st)); [reflexivity|].
  set (f := if pk_eof st then _ else _).
  assert (Hf : let '(buf, pieces, e) := f in R = buf ++ payload pieces /\
    match e with Full => MaxChunkSize <= Z.of_nat (length buf) | Eof => pieces = [] | ReadErr => True end).
  { unfold f. destruct (pk_eof st) eqn:He; [split; [reflexivity|apply Heof; reflexivity]|].
    pose proof (fill_spec MaxChunkSize (pk_pieces st) (pk_buf st)) as H. destruct (fill _ _ _) as [[buf pieces] e].
    destruct H as [H1 H2]. split; [exact H1|]. destruct e; auto. }
  destruct f as [[buf pieces] e]. destruct Hf as [HR He].
  destruct e; [|subst pieces|reflexivity].
  - (* a full buffer *)
    destruct (Next_full_buffer p buf (payload pieces) false true Hp ltac:(lia)) as [HN Hpos]. rewrite <- HR in HN.
    assert (Hne : buf <> []) by (intros ->; simpl in *; unfold MaxChunkSize in *; lia).
    assert (HneR : R <> []) by (rewrite HR; destruct buf; [contradiction|discriminate]).
    assert (Hle : fst (Next p buf false) <= Z.of_nat (length buf)).
    { pose proof (Next_cases p buf false Hp) as H. cbv zeta in H. destruct (Next p buf false). simpl. lia. }
    rewrite bool_decide_eq_false_2 by exact Hne. cbv zeta.
    destruct (Z.eqb_spec (fst (Next p buf false)) 0) as [E0|_]; [lia|]. simpl.
    set (b := Z.to_nat (fst (Next p buf false))) in *.
    assert (Hc : chunks p R = take b buf :: chunks p (drop b buf ++ payload pieces)).
    { rewrite (chunks_cons p R Hp HneR), <- HN. fold b. rewrite HR, take_app_le, drop_app_le by lia. reflexivity. }
    destruct (emit E (pk_iter st) (pk_out st) (take b buf)) as [out|] eqn:Hem; [|reflexivity]. simpl.
    exists (take b buf), (chunks p (drop b buf ++ payload pieces)). repeat split; auto.
    + intros Hnil. apply (f_equal length) in Hnil. rewrite length_take in Hnil. simpl in Hnil. lia.
    + rewrite app_assoc, take_drop. exact HR.
    + discriminate.
  - (* the end of the run *)
    rewrite app_nil_r in HR. destruct (decide (buf = [])) as [->|Hne].
    { rewrite bool_decide_eq_true_2 by reflexivity. left. auto. }
    rewrite bool_decide_eq_false_2 by exact Hne. cbv zeta.
    destruct (Next_final_pos p buf Hp Hne) as [Hpos _].
    destruct (Z.eqb_spec (fst (Next p buf true)) 0) as [E0|_]; [lia|]. simpl.
    set (b := Z.to_nat (fst (Next p buf true))) in *.
    assert (Hc : chunks p R = take b buf :: chunks p (drop b buf)) by (rewrite HR; apply chunks_cons; assumption).
    destruct (emit E (pk_iter st) (pk_out st) (take b buf)) as [out|] eqn:Hem; [|reflexivity].
    case_bool_decide as Hd.
    + right. exists (take b buf). rewrite Hc, Hd. auto.
    + exists (take b buf), (chunks p (drop b buf)). simpl. rewrite app_nil_r. repeat split; auto.
      * intros Hnil. apply (f_equal length) in Hnil. rewrite length_take in Hnil. simpl in Hnil. lia.
      * rewrite take_drop. exact HR.
Qed.

(** The loop emits, in order, the chunks of the bytes left: all of them when it
    finishes, a prefix when it stops on an error. *)
Lemma pack_loop_prefix : forall fuel st out oc,
  (pk_eof st = true -> pk_pieces st = []) ->
  pack_loop fuel E st = Some (out, oc) ->
  let cs := chunks (NewChunkerWithParams params) (pk_buf st ++ payload (pk_pieces st)) in
  exists n, emit_all E (pk_iter st) (pk_out st) (take n cs) = Some out /\
    (oc = Finished -> (length cs <= n)%nat).
Proof.
  induction fuel as [|fuel IH]; intros st out oc Heof; simpl; [discriminate|].
  pose proof (pack_iter_spec st Heof) as H. cbv zeta in H.
  destruct (pack_iter E st) as [st'|[out' oc']].
  - destruct H as (c & rest & -> & _ & _ & -> & Hem & Hit & Heof'). intros Hl.
    destruct (IH st' out oc Heof' Hl) as (n & Hn & Hfin). exists (S n). simpl. rewrite Hem, <- Hit.
    split; [exact Hn|]. intros Hoc. specialize (Hfin Hoc). simpl in *. lia.
  - intros [= <- <-]. destruct oc'; [|subst out'; exists 0%nat; split; [reflexivity|discriminate]..].
    destruct H as [[-> ->]|(c & -> & Hem)].
    + exists 0%nat. split; [reflexivity|]. intros _. simpl. lia.
    + exists 1%nat. simpl. rewrite Hem. split; [reflexivity|lia].
Qed.

(** Every iteration consumes at least a byte, so the loop ends. *)
Lemma pack_loop_total : forall fuel st,
  (pk_eof st = true -> pk_pieces st = []) ->
  (length (pk_buf st ++ payload (pk_pieces st)) < fuel)%nat -> pack_loop fuel E st <> None.
Proof.
  induction fuel as [|fuel IH]; intros st Heof Hf; [lia|]. simpl.
  pose proof (pack_iter_spec st Heof) as H. cbv zeta in H. destruct (pack_iter E st) as [st'|[out' oc']]; [|discriminate].
  destruct H as (c & rest & _ & Hne & HR & _ & _ & _ & Heof'). apply IH; [exact Heof'|].
  rewrite HR, length_app in Hf. destruct c; [contradiction|simpl in Hf; lia].
Qed.

(** Without errors the loop finishes. *)
Definition healthy (pieces : list (option (list Z))) : Prop :=
  Forall (fun d => d <> None) pieces /\
  forall k, ctx_err E k = false /\ aborted E k = false /\ acquire E k = true /\
            forall h, IsChunkDurable E k h <> None.

Lemma fill_healthy cap : forall pieces buf,
  Forall (fun d => d <> None) pieces ->
  let '(_, pieces', e) := fill cap buf pieces in Forall (fun d => d <> None) pieces' /\ e <> ReadErr.
Proof.
  induction pieces as [|[d|] pieces IH]; intros buf H; simpl; destruct (cap <=? _); try (split; [exact H|discriminate]).
  - inversion H; subst. destruct (_ <=? _); [apply IH; assumption|]. split; [constructor; [discriminate|assumption]|discriminate].
  - inversion H. contradiction.
Qed.

Lemma emit_healthy pieces iter out c : healthy pieces -> emit E iter out c <> None.
Proof.
  intros [_ H]. destruct (H iter) as (_ & _ & Ha & Hd). unfold emit. specialize (Hd (Sum256 c)).
  destruct (IsChunkDurable E iter (Sum256 c)); [|contradiction]. rewrite Ha, andb_false_r. discriminate.
Qed.

Lemma pack_iter_healthy st :
  healthy (pk_pieces st) ->
  match pack_iter E st with inl st' => healthy (pk_pieces st') | inr (_, oc) => oc = Finished end.
Proof.
  intros Hh. pose proof Hh as [Hp He]. destruct (He (pk_iter st)) as (H1 & H2 & _). unfold pack_iter. rewrite H1, H2.
  set (f := if pk_eof st then _ else _).
  assert (Hf : Forall (fun d => d <> None) f.1.2 /\ f.2 <> ReadErr).
  { unfold f. destruct (pk_eof st); [split; [exact Hp|discriminate]|].
    pose proof (fill_healthy MaxChunkSize (pk_pieces st) (pk_buf st) Hp) as Hf. destruct (fill _ _ _) as [[buf pieces] e]. exact Hf. }
  destruct f as [[buf pieces] e]. simpl in Hf. destruct Hf as [Hf Hne].
  destruct e; [| |contradiction]; cbv zeta; (case_bool_decide; [reflexivity|]);
    (match goal with |- context [if ?c then inl _ else _] => destruct c; [split; assumption|] end);
    (match goal with |- context [emit ?a ?b ?c ?d] =>
       pose proof (emit_healthy _ b c d Hh) as Hem; destruct (emit a b c d); [|contradiction] end);
    (match goal with |- context [if ?c then inr _ else _] => destruct c; [reflexivity|split; assumption] end).
Qed.

Lemma pack_loop_finishes : forall fuel st,
  healthy (pk_pieces st) ->
  match pack_loop fuel E st with Some (_, oc) => oc = Finished | None => True end.
Proof.
  induction fuel as [|fuel IH]; intros st Hh; simpl; [exact I|]. pose proof (pack_iter_healthy st Hh) as H.
  destruct (pack_iter E st) as [st'|[out oc]]; [apply IH, H|exact H].
Qed.
End packing.

(** ** What the blocks contain *)

Definition chunk_of (off : Z) (c : list Z) : CarveChunk := mkChunk (Sum256 c) fileID off c.

(** The deduper answered that the [k]-th chunk is already remote. *)
Definition dup (E : env) (k : nat) (c : list Z) : Prop := IsChunkDurable E k (Sum256 c) = Some true.

Definition in_block (blocks : list (list CarveChunk * Z)) (j : nat) (ch : CarveChunk) : Prop :=
  exists chunks w, blocks !! j = Some (chunks, w) /\ In ch chunks.

Fixpoint novel (E : env) (iter : nat) (off : Z) (cs : list (list Z)) : list CarveChunk :=
  match cs with
  | [] => []
  | c :: cs =>
    (match IsChunkDurable E iter (Sum256 c) with Some true => [] | _ => [chunk_of off c] end) ++ novel E (S iter) (off + Z.of_nat (length c)) cs
  end.

Definition block_bytes (chunks : list CarveChunk) : Z :=
  foldr (fun ch a => Z.of_nat (length (cc_Data ch)) + a) 0 chunks.

Definition len (cs : list (list Z)) : Z := Z.of_nat (length (concat cs)).

(** After emitting [cs] from offset [s]. *)
Record packed_ok (E : env) (s : Z) (cs : list (list Z)) (out : packed) : Prop := mkPackedOk {
  ok_off : po_fileOff out = s + len cs;
  ok_offsets : po_newOffsets out = map fst (tiles s cs);
  ok_novel : concat (map fst (po_submitted out)) ++ po_pending out = novel E 0 s cs;
  ok_blocks : forall j chunks w, po_submitted out !! j = Some (chunks, w) ->
    exists n, (n <= length cs)%nat /\ w = s + len (take n cs) /\
      forall k off c, (k < n)%nat -> tiles s cs !! k = Some (off, c) ->
        dup E k c \/ exists j', (j' <= j)%nat /\ in_block (po_submitted out) j' (chunk_of off c);
  ok_pending : forall k off c, tiles s cs !! k = Some (off, c) ->
    dup E k c \/ In (chunk_of off c) (po_pending out) \/ exists j', in_block (po_submitted out) j' (chunk_of off c);
  ok_arena : po_arenaOff out = block_bytes (po_pending out);
  ok_sizes : Forall (fun b => block_bytes b.1 < CarveBlockSize + Max (NewChunkerWithParams params)) (po_submitted out);
}.

Lemma block_bytes_app a b : block_bytes (a ++ b) = block_bytes a + block_bytes b.
Proof. induction a as [|x a IH]; [reflexivity|]. unfold block_bytes in *. simpl. rewrite IH. lia. Qed.

Lemma len_app a b : len (a ++ b) = len a + len b.
Proof. unfold len. rewrite concat_app, length_app. lia. Qed.

Lemma tiles_app off a b : tiles off (a ++ b) = tiles off a ++ tiles (off + len a) b.
Proof.
  revert off. induction a as [|c a IH]; intros off; simpl; [f_equal; unfold len; simpl; lia|].
  rewrite IH. f_equal. f_equal. f_equal. unfold len. simpl. rewrite length_app. lia.
Qed.

Lemma tiles_length off cs : length (tiles off cs) = length cs.
Proof. revert off. induction cs; intros; simpl; auto. Qed.

Lemma novel_app E iter off a b :
  novel E iter off (a ++ b) = novel E iter off a ++ novel E (iter + length a) (off + len a) b.
Proof.
  revert iter off. induction a as [|c a IH]; intros iter off; simpl.
  - f_equal; [lia|unfold len; simpl; lia].
  - rewrite IH, app_assoc. f_equal. f_equal; [lia|]. unfold len. simpl. rewrite length_app. lia.
Qed.

Lemma emit_all_snoc E l : forall iter out c,
  emit_all E iter out (l ++ [c]) =
  match emit_all E iter out l with Some out => emit E (iter + length l) out c | None => None end.
Proof.
  induction l as [|d l IH]; intros iter out c; simpl.
  - rewrite Nat.add_0_r. destruct (emit E iter out c); reflexivity.
  - destruct (emit E iter out d); [|reflexivity]. rewrite IH. replace (S iter + length l)%nat with (iter + S (length l))%nat by lia. reflexivity.
Qed.

Lemma in_block_app blocks b j ch : in_block blocks j ch -> in_block (blocks ++ b) j ch.
Proof. intros (chunks & w & Hj & Hin). exists chunks, w. split; [apply lookup_app_l_Some, Hj|exact Hin]. Qed.

Lemma in_block_last blocks chunks w ch : In ch chunks -> in_block (blocks ++ [(chunks, w)]) (length blocks) ch.
Proof. intros H. exists chunks, w. split; [apply list_lookup_middle; reflexivity|exact H]. Qed.

(** Handing the pending block over keeps the invariant. *)
Lemma flush_ok E s cs out n :
  packed_ok E s cs out -> block_bytes (po_pending out) < CarveBlockSize + Max (NewChunkerWithParams params) ->
  (length cs <= n)%nat -> packed_ok E s cs (flush out (s + len (take n cs))).
Proof.
  intros [H1 H2 H3 H4 H5 H6 H7] Hb Hn. split; simpl; auto.
  - rewrite map_app, concat_app. simpl. rewrite !app_nil_r. exact H3.
  - intros j chunks w Hj. apply lookup_snoc_Some in Hj as [[Hlt Hj]|[-> [= <- <-]]].
    + destruct (H4 j chunks w Hj) as (m & Hm & Hw & Hc). exists m. split; [exact Hm|]. split; [exact Hw|].
      intros k off c Hk Ht. destruct (Hc k off c Hk Ht) as [Hd|(j' & Hj' & Hin)]; [left; exact Hd|right].
      exists j'. split; [exact Hj'|apply in_block_app, Hin].
    + exists (length cs). split; [lia|]. rewrite !take_ge by lia. split; [reflexivity|]. intros k off c Hk Ht.
      destruct (H5 k off c Ht) as [Hd|[Hp|(j' & Hin)]]; [left; exact Hd| |]; right.
      * exists (length (po_submitted out)). split; [lia|apply in_block_last, Hp].
      * exists j'. split; [|apply in_block_app, Hin]. destruct Hin as (chunks & w & Hl & _).
        apply lookup_lt_Some in Hl. lia.
  - intros k off c Ht. destruct (H5 k off c Ht) as [Hd|[Hp|(j' & Hin)]]; [left; exact Hd| |]; right; right.
    + exists (length (po_submitted out)). apply in_block_last, Hp.
    + exists j'. apply in_block_app, Hin.
  - apply Forall_app. split; [exact H7|]. constructor; [exact Hb|constructor].
Qed.

(** Placing one more chunk, before the block is perhaps handed over. *)
Lemma place_ok E s cs out c durable :
  packed_ok E s cs out -> 0 <= s -> s + len (cs ++ [c]) < 2 ^ 63 ->
  IsChunkDurable E (length cs) (Sum256 c) = Some durable ->
  packed_ok E s (cs ++ [c])
    (mkPacked (i64 (po_fileOff out + Z.of_nat (length c)))
       (if durable then po_pending out else po_pending out ++ [chunk_of (po_fileOff out) c])
       (if durable then po_arenaOff out else po_arenaOff out + Z.of_nat (length c))
       (po_newOffsets out ++ [po_fileOff out])
       (if durable then po_BytesCarved out else po_BytesCarved out + Z.of_nat (length c)) (po_submitted out)).
Proof.
  intros [H1 H2 H3 H4 H5 H6 H7] Hs Hlt Hd. assert (Hl1 : len [c] = Z.of_nat (length c)) by (unfold len; simpl; rewrite app_nil_r; reflexivity).
  rewrite len_app, Hl1 in Hlt. assert (0 <= len cs) by (unfold len; lia).
  assert (Ht : tiles s (cs ++ [c]) = tiles s cs ++ [(po_fileOff out, c)]) by (rewrite tiles_app, H1; reflexivity).
  split; simpl.
  - rewrite len_app, Hl1, H1, i64_small; [lia|]. unfold in_i64. lia.
  - rewrite Ht, map_app, H2. reflexivity.
  - rewrite novel_app, <- H3, <- H1. simpl. rewrite Hd, app_nil_r. destruct durable; [rewrite app_nil_r; reflexivity|].
    rewrite <- app_assoc. reflexivity.
  - intros j chunks w Hj. destruct (H4 j chunks w Hj) as (m & Hm & Hw & Hc). exists m. rewrite length_app, take_app_le by lia.
    split; [lia|]. split; [exact Hw|]. intros k off c' Hk Htk. apply (Hc k); [exact Hk|].
    rewrite Ht, lookup_app_l in Htk by (rewrite tiles_length; lia). exact Htk.
  - intros k off c' Htk. rewrite Ht in Htk. apply lookup_snoc_Some in Htk as [[_ Htk]|[Hk [= <- <-]]].
    + destruct (H5 k off c' Htk) as [?|[?|?]]; [left; assumption| |right; right; assumption].
      right. left. destruct durable; [assumption|]. apply in_or_app. left. assumption.
    + rewrite tiles_length in Hk. subst k. unfold dup. rewrite Hd. destruct durable; [left; reflexivity|].
      right. left. apply in_or_app. right. left. reflexivity.
  - destruct durable; [exact H6|]. rewrite block_bytes_app, H6. simpl. lia.
  - exact H7.
Qed.

Lemma emit_ok E s cs out c out' :
  packed_ok E s cs out -> po_arenaOff out < CarveBlockSize -> 0 <= s -> s + len (cs ++ [c]) < 2 ^ 63 ->
  Z.of_nat (length c) <= Max (NewChunkerWithParams params) -> 0 < CarveBlockSize ->
  emit E (length cs) out c = Some out' -> packed_ok E s (cs ++ [c]) out' /\ po_arenaOff out' < CarveBlockSize.
Proof.
  intros Hok Ha Hs Hlt Hc Hbs. unfold emit. destruct (IsChunkDurable E (length cs) (Sum256 c)) as [durable|] eqn:Hd; [|discriminate].
  destruct (_ && _); [discriminate|]. intros [= <-].
  pose proof (place_ok E s cs out c durable Hok Hs Hlt Hd) as Hp. unfold chunk_of in Hp. set (out1 := mkPacked _ _ _ _ _ _) in *.
  assert (Hle : po_arenaOff out1 <= po_arenaOff out + Z.of_nat (length c)) by (simpl; destruct durable; lia).
  destruct (Z.geb_spec (if durable then po_arenaOff out else po_arenaOff out + Z.of_nat (length c)) CarveBlockSize) as [Hge|Hlt'].
  - split; [|simpl; lia]. change (i64 (po_fileOff out + Z.of_nat (length c))) with (po_fileOff out1).
    rewrite (ok_off _ _ _ _ Hp). rewrite <- (take_ge (cs ++ [c]) (length (cs ++ [c]))) at 2 by lia.
    apply flush_ok; [exact Hp| |lia]. rewrite <- (ok_arena _ _ _ _ Hp). lia.
  - split; [exact Hp|exact Hlt'].
Qed.

Lemma emit_all_ok E s cs out' :
  0 <= s -> s + len cs < 2 ^ 63 -> Forall (fun c => Z.of_nat (length c) <= Max (NewChunkerWithParams params)) cs ->
  0 < CarveBlockSize ->
  emit_all E 0 (mkPacked s [] 0 [] 0 []) cs = Some out' -> packed_ok E s cs out' /\ po_arenaOff out' < CarveBlockSize.
Proof.
  intros Hs Hlt Hf Hbs. revert out' Hlt Hf. induction cs as [|c cs IH] using rev_ind; intros out' Hlt Hf.
  - intros [= <-]. split; [|exact Hbs]. split; simpl; auto; try discriminate; unfold len; simpl; lia.
  - rewrite emit_all_snoc. apply Forall_app in Hf as [Hf Hc]. apply Forall_cons_1 in Hc as [Hc _].
    destruct (emit_all E 0 _ cs) as [out|]; [|discriminate].
    assert (Hlt2 : s + len cs < 2 ^ 63) by (rewrite len_app in Hlt; unfold len in *; lia).
    destruct (IH out Hlt2 Hf eq_refl) as [Hok Ha]. apply emit_ok; assumption.
Qed.

Lemma chunks_max data : Forall (fun c => Z.of_nat (length c) <= Max (NewChunkerWithParams params)) (chunks (NewChunkerWithParams params) data).
Proof.
  destruct (chunk_loop_spec (NewChunkerWithParams params) (NewChunkerWithParams_ok params) (length data) data) as (_ & H & _); [lia|].
  eapply Forall_impl; [exact H|]. simpl. intros; lia.
Qed.

Lemma chunks_len data : len (chunks (NewChunkerWithParams params) data) = Z.of_nat (length data).
Proof.
  destruct (chunk_loop_spec (NewChunkerWithParams params) (NewChunkerWithParams_ok params) (length data) data) as (H & _); [lia|].
  unfold len, chunks. rewrite H. reflexivity.
Qed.

Lemma len_take_le n cs : len (take n cs) <= len cs.
Proof. rewrite <- (take_drop n cs) at 2. rewrite len_app. unfold len at 3. lia. Qed.

Lemma pack_start_eof s pieces : pk_eof (pack_start s pieces) = true -> pk_pieces (pack_start s pieces) = [].
Proof. discriminate. Qed.

(** The result of packing a run from offset [s], in terms of the emitted chunks. *)
Lemma pack_result E s pieces fuel r :
  Max (NewChunkerWithParams params) <= MaxChunkSize -> 0 < CarveBlockSize -> 0 <= s ->
  s + Z.of_nat (length (payload pieces)) < 2 ^ 63 ->
  pack_loop fuel E (pack_start s pieces) = Some r ->
  let cs := chunks (NewChunkerWithParams params) (payload pieces) in
  exists n, packed_ok E s (take n cs) r.1 /\ po_arenaOff r.1 < CarveBlockSize /\ (r.2 = Finished -> (length cs <= n)%nat).
Proof.
  intros Hfit Hbs Hs Hlt Hl cs. destruct r as [out oc].
  destruct (pack_loop_prefix E Hfit fuel _ out oc (pack_start_eof s pieces) Hl) as (n & He & Hfin).
  exists n. simpl in He, Hfin. fold cs in He, Hfin. simpl.
  pose proof (len_take_le n cs) as Hle. unfold cs in Hle at 2. rewrite chunks_len in Hle.
  destruct (emit_all_ok E s (take n cs) out) as [H1 H2]; auto; [lia|]. apply Forall_take, chunks_max.
Qed.

(** Every watermark is the end of a chunk, and all chunks up to it are in the
    blocks submitted so far or were already remote. *)
Definition blocks_cover (E : env) (s : Z) (cs : list (list Z)) (blocks : list (list CarveChunk * Z)) : Prop :=
  forall j chunks w, blocks !! j = Some (chunks, w) ->
    exists n, (n <= length cs)%nat /\ w = s + len (take n cs) /\
      forall k off c, (k < n)%nat -> tiles s cs !! k = Some (off, c) ->
        dup E k c \/ exists j', (j' <= j)%nat /\ in_block blocks j' (chunk_of off c).

Lemma carve_blocks_cover E s pieces fuel r late :
  Max (NewChunkerWithParams params) <= MaxChunkSize -> 0 < CarveBlockSize -> 0 <= s ->
  s + Z.of_nat (length (payload pieces)) < 2 ^ 63 ->
  pack_loop fuel E (pack_start s pieces) = Some r ->
  blocks_cover E s (chunks (NewChunkerWithParams params) (payload pieces))
    (carve_blocks r late (s + Z.of_nat (length (payload pieces)))).
Proof.
  intros Hfit Hbs Hs Hlt Hl. pose proof (NewChunkerWithParams_ok params) as (Hp0 & Hp1 & Hp2).
  destruct (pack_result E s pieces fuel r Hfit Hbs Hs Hlt Hl) as (n & Hok & Ha & Hfin).
  rewrite <- chunks_len. set (cs := chunks _ _) in *.
  assert (Hpre : blocks_cover E s cs (po_submitted r.1)).
  { intros j chunks w Hj. destruct (ok_blocks _ _ _ _ Hok j chunks w Hj) as (m & Hm & Hw & Hc).
    rewrite length_take in Hm. exists m. split; [lia|]. rewrite take_take, Nat.min_l in Hw by lia. split; [exact Hw|].
    intros k off c Hk Ht. apply (Hc k off c Hk). rewrite <- (take_drop n cs), tiles_app in Ht.
    rewrite lookup_app_l in Ht by (rewrite tiles_length, length_take; lia). exact Ht. }
  destruct r as [out []]; [|exact Hpre..]. unfold carve_blocks. destruct late; [exact Hpre|]. specialize (Hfin eq_refl). rewrite take_ge in Hok by exact Hfin.
  simpl in *. pose proof (flush_ok E s cs out n Hok) as Hfl. rewrite take_ge in Hfl by exact Hfin.
  assert (Hb : block_bytes (po_pending out) < CarveBlockSize + Max (NewChunkerWithParams params)).
  { rewrite <- (ok_arena _ _ _ _ Hok). lia. }
  intros j. exact (ok_blocks _ _ _ _ (Hfl Hb Hfin) j).
Qed.

(** C38: Packing a run is exact, when the configured maximum chunk size is at most the
    16 MiB carve buffer (the default is; with larger parameters the loop need not
    end: [oversized_chunks_never_carve]), the block size is positive and the run
    ends below [2 ^ 63].  The loop then ends on every run; without errors of the
    reader, the deduper and the pool it tiles the run with the chunks of its bytes,
    however the reads split them, and hands over exactly the chunks that are not
    yet remote, in order, in blocks of bounded size. *)
Theorem carve_packs_run E s pieces :
  Max (NewChunkerWithParams params) <= MaxChunkSize -> 0 < CarveBlockSize -> 0 <= s ->
  s + Z.of_nat (length (payload pieces)) < 2 ^ 63 ->
  let cs := chunks (NewChunkerWithParams params) (payload pieces) in
  exists r, pack_loop (S (length (payload pieces))) E (pack_start s pieces) = Some r /\
    (healthy E pieces ->
     r.2 = Finished /\ po_newOffsets r.1 = map fst (tiles s cs) /\
     concat (map fst (carve_blocks r false (s + Z.of_nat (length (payload pieces))))) = novel E 0 s cs) /\
    forall late, Forall (fun b => block_bytes b.1 < CarveBlockSize + Max (NewChunkerWithParams params))
      (carve_blocks r late (s + Z.of_nat (length (payload pieces)))).
Proof.
  intros Hfit Hbs Hs Hlt cs. pose proof (NewChunkerWithParams_ok params) as (Hp0 & Hp1 & Hp2).
  pose proof (pack_loop_total E Hfit (S (length (payload pieces))) (pack_start s pieces) (pack_start_eof s pieces)) as Ht.
  pose proof (pack_loop_finishes E (S (length (payload pieces))) (pack_start s pieces)) as Hh.
  destruct (pack_loop _ E (pack_start s pieces)) as [r|] eqn:Hl; [|exfalso; apply Ht; [simpl; lia|reflexivity]].
  exists r. split; [reflexivity|].
  destruct (pack_result E s pieces _ r Hfit Hbs Hs Hlt Hl) as (n & Hok & Ha & Hfin). fold cs in Hok, Hfin. split.
  - intros Hheal. specialize (Hh Hheal). destruct r as [out oc]. subst oc. specialize (Hfin eq_refl).
    rewrite take_ge in Hok by exact Hfin. split; [reflexivity|]. split; [apply Hok|].
    simpl. rewrite map_app, concat_app. simpl. rewrite app_nil_r. apply Hok.
  - intros late. pose proof (ok_sizes _ _ _ _ Hok) as Hsz. destruct r as [out []]; [|exact Hsz..]. simpl in *.
    destruct late; [exact Hsz|].
    apply Forall_app. split; [exact Hsz|]. constructor; [|constructor]. simpl. rewrite <- (ok_arena _ _ _ _ Hok). lia.
Qed.

(** ** What other operations do to the index meanwhile *)

(** [f] is what is left of [e]: part of its range, the same record, and not
    synced unless [e] was. *)
Definition piece_of (e f : interval) : Prop :=
  within e f /\ iv_version f = iv_version e /\ (iv_synced f = true -> iv_synced e = true).

Lemma piece_of_refl e : piece_of e e.
Proof. unfold piece_of, within. intuition lia. Qed.

Lemma piece_of_trans a b c : piece_of a b -> piece_of b c -> piece_of a c.
Proof. unfold piece_of, within. intros (H1 & H2 & H3) (K1 & K2 & K3). intuition (lia || congruence). Qed.

Lemma remark1_piece e : piece_of e (remark1 e).
Proof. unfold remark1. destruct (_ && _); [|apply piece_of_refl]. unfold piece_of, within. simpl. intuition (lia || discriminate). Qed.

Lemma without_pieces e rs re : iv_ok e -> rs < re -> Forall (piece_of e) (without e rs re).
Proof.
  intros He Hr. apply List.Forall_forall. intros f Hf. apply in_without in Hf as (lo & hi & -> & H1 & H2 & H3 & _); [|assumption..].
  unfold piece_of, within. simpl. intuition lia.
Qed.

Lemma pieces_map_remark e l : Forall (piece_of e) l -> Forall (piece_of e) (map remark1 l).
Proof. intros H. apply Forall_map. eapply Forall_impl; [exact H|]. intros f Hf. eapply piece_of_trans; [exact Hf|apply remark1_piece]. Qed.

Lemma survivor_pieces iv e : iv_ok iv -> iv_ok e -> Forall (piece_of e) (survivor iv e).
Proof.
  intros Hiv He. unfold survivor. destruct (wins iv e); [constructor; [apply piece_of_refl|constructor]|].
  apply pieces_map_remark, without_pieces; [exact He|]. rewrite iend_eq by exact Hiv. destruct Hiv; lia.
Qed.

Lemma carve_pieces iv mid : iv_ok iv -> Forall iv_ok mid -> forall frags,
  Forall iv_ok frags -> Forall (piece_of iv) frags -> Forall (piece_of iv) (fold_left (carve iv) mid frags).
Proof.
  intros Hiv. induction mid as [|e mid IH]; intros Hmid frags Hok Hf; simpl; [exact Hf|]. inversion Hmid; subst.
  apply IH; [assumption| |]; unfold carve; destruct (wins iv e); try assumption; unfold subtractAll;
    apply List.Forall_forall; intros f Hin; apply in_flat_map in Hin as (g & Hg & Hfg);
    rewrite List.Forall_forall in Hok, Hf; specialize (Hok g Hg); specialize (Hf g Hg);
    (assert (Hlt : iv_fileOff e < iend e) by (rewrite iend_eq by assumption; match goal with H : iv_ok e |- _ => destruct H; lia end)).
  - pose proof (without_ok g _ _ Hok Hlt) as Hw. rewrite List.Forall_forall in Hw. exact (Hw f Hfg).
  - pose proof (without_pieces g _ _ Hok Hlt) as Hw. rewrite List.Forall_forall in Hw.
    eapply piece_of_trans; [exact Hf|exact (Hw f Hfg)].
Qed.

Lemma insert_pieces ivs iv f :
  wf ivs -> iv_ok iv -> In f (in_ivs (insert ivs iv)) -> piece_of iv f \/ exists e, In e ivs /\ piece_of e f.
Proof.
  intros Hwf Hiv. assert (Hold : forall l, incl l ivs -> In f l -> piece_of iv f \/ exists e, In e ivs /\ piece_of e f).
  { intros l Hl Hf. right. exists f. split; [apply Hl, Hf|apply piece_of_refl]. }
  assert (Hnew : forall l l', incl (l ++ l') ivs -> In f (l ++ iv :: l') -> piece_of iv f \/ exists e, In e ivs /\ piece_of e f).
  { intros l l' Hl Hf. apply in_app_or in Hf as [Hf|[<-|Hf]].
    - apply (Hold l); [|exact Hf]. intros x Hx. apply Hl, in_or_app. auto.
    - left. apply piece_of_refl.
    - apply (Hold l'); [|exact Hf]. intros x Hx. apply Hl, in_or_app. auto. }
  unfold insert. set (lo := search_end ivs (iv_fileOff iv)).
  assert (Htd : incl (take lo ivs ++ drop lo ivs) ivs) by (rewrite take_drop; apply incl_refl).
  destruct (ivs !! lo) as [e|] eqn:El; [|apply Hnew, Htd]. destruct (_ >=? _); [apply Hnew, Htd|].
  match goal with |- context [if ?c then _ else insert_general _ _ _] => destruct c end.
  - destruct (_ <=? _); [apply Hold, incl_refl|]. simpl. intros Hf. apply list_elem_of_In, list_elem_of_lookup in Hf as [i Hi].
    apply list_lookup_insert_Some in Hi as [(_ & -> & _)|(_ & Hi)]; [left; apply piece_of_refl|].
    apply (Hold ivs); [apply incl_refl|]. apply list_elem_of_In, list_elem_of_lookup. eauto.
  - unfold insert_general. destruct (punch_loop_split iv (mkPunch [iv] [] false 0 0 []) (drop lo ivs)) as (mid & after & Hd & Hpl & _).
    rewrite Hpl. destruct (punch_fold iv mid (mkPunch [iv] [] false 0 0 [])) as (Hs & Hn & _). simpl in Hs, Hn.
    set (st := fold_left (punch_step iv) mid _) in *.
    assert (Hmid : Forall iv_ok mid).
    { destruct Hwf as [Hok _]. rewrite <- (take_drop lo ivs), Hd in Hok. apply Forall_app in Hok as [_ Hok].
      apply Forall_app in Hok as [Hok _]. exact Hok. }
    assert (Hfr : Forall (piece_of iv) (pn_newFrags st)).
    { rewrite Hn. apply carve_pieces; auto; constructor; auto using piece_of_refl. }
    set (nf := if _ && pn_shadowed _ then _ else _). assert (Hnf : Forall (piece_of iv) nf.1).
    { unfold nf. destruct (_ && _ && _); simpl; [apply pieces_map_remark|]; exact Hfr. }
    destruct nf as [newFrags added]. simpl in *. rewrite Hs. intros Hf.
    assert (Hm : In f (take lo ivs) \/ In f (flat_map (survivor iv) mid) \/ In f newFrags \/ In f after).
    { repeat rewrite in_app_iff in Hf. rewrite elem_of_sort_by, in_app_iff in Hf. tauto. }
    assert (Hsub : incl mid ivs /\ incl after ivs).
    { rewrite Hd in Htd. split; intros x Hx; apply Htd; rewrite !in_app_iff; auto. }
    destruct Hm as [Hf'|[Hf'|[Hf'|Hf']]].
    + apply (Hold (take lo ivs)); [|exact Hf']. intros x Hx. apply Htd, in_or_app. auto.
    + apply in_flat_map in Hf' as (e' & He' & Hf'). right. exists e'. split; [exact (proj1 Hsub e' He')|].
      rewrite List.Forall_forall in Hmid. pose proof (survivor_pieces iv e' Hiv (Hmid e' He')) as Hsp.
      rewrite List.Forall_forall in Hsp. apply Hsp, Hf'.
    + left. rewrite List.Forall_forall in Hnf. apply Hnf, Hf'.
    + apply (Hold after); [exact (proj2 Hsub)|exact Hf'].
Qed.

Lemma bury_pieces ivs v f : In f (bury ivs v).1.1 -> exists e, In e ivs /\ piece_of e f.
Proof. rewrite bury_kept. intros H. apply filter_In in H as [H _]. exists f. split; [exact H|apply piece_of_refl]. Qed.

Lemma clip_pieces ivs v n f : Forall iv_ok ivs -> In f (clip ivs v n).1.1 -> exists e, In e ivs /\ piece_of e f.
Proof.
  intros Hok. rewrite clip_kept. intros H. apply in_flat_map in H as (e & He & Hf). exists e. split; [exact He|].
  rewrite List.Forall_forall in Hok. specialize (Hok e He). revert Hf. unfold clip1. rewrite iend_eq by exact Hok.
  destruct (Z.leb_spec (iv_fileOff e + iv_length e) n), (_ >? v); simpl; try (intros [<-|[]]; apply piece_of_refl).
  destruct (Z.ltb_spec (iv_fileOff e) n); simpl; [|tauto]. intros [<-|[]]. unfold piece_of, within. simpl. intuition lia.
Qed.

Lemma wf_shape l l' :
  map (fun e => (iv_fileOff e, iv_length e)) l = map (fun e => (iv_fileOff e, iv_length e)) l' -> wf l -> wf l'.
Proof.
  revert l'. induction l as [|e l IH]; intros [|e' l']; simpl; try discriminate; [auto|]. intros [= Ho Hl Ht] Hwf.
  apply wf_cons_inv in Hwf as (Hok & Hwf & Hb). specialize (IH l' Ht Hwf).
  assert (Hb' : Forall (iv_before e') l').
  { clear -Ho Hl Ht Hb. revert l' Ht. induction Hb as [|x l Hx _ IHb]; intros [|x' l']; simpl; try discriminate; [constructor|].
    intros [= H1 H2 H3]. constructor; [unfold iv_before in *; lia|auto]. }
  destruct IH as [I1 I2]. split; constructor; auto. unfold iv_ok in *. lia.
Qed.

Lemma wf_set_synced ivs k e b : ivs !! k = Some e -> wf ivs -> wf (<[k := set_synced b e]> ivs).
Proof.
  intros Hk. apply wf_shape. rewrite list_fmap_insert. symmetry. apply list_insert_id. rewrite list_lookup_fmap, Hk. reflexivity.
Qed.

Lemma findRecord_Some ivs off v k :
  wf ivs -> findRecord ivs off v = Some k -> exists e, ivs !! k = Some e /\ in_iv off e /\ iv_version e = v.
Proof.
  intros Hwf. unfold findRecord. destruct (search_end_spec ivs off Hwf) as [_ Hhi]. set (lo := search_end ivs off) in *.
  destruct (ivs !! lo) as [e|] eqn:He; [|discriminate]. destruct (_ && _) eqn:Hc; [|discriminate]. intros [= <-].
  apply andb_prop in Hc as [H1 H2]. apply Z.leb_le in H1. apply Z.eqb_eq in H2. exists e. split; [exact He|]. split; [|exact H2].
  rewrite Forall_lookup in Hhi. specialize (Hhi 0%nat e). rewrite lookup_drop, Nat.add_0_r in Hhi. specialize (Hhi He).
  unfold in_iv. lia.
Qed.

(** An interval after flipping: untouched, or one a run interval led to. *)
Definition flipped_from (ivs run : list interval) (watermark : Z) (f : interval) : Prop :=
  In f ivs \/
  exists e iv, In e ivs /\ f = set_synced true e /\ In iv run /\ iv_version e = iv_version iv /\
               in_iv (iv_fileOff iv) e /\ iend iv <= watermark.

Lemma flip_loop_spec watermark : forall run ivs idx,
  wf ivs ->
  let '(ivs', idx', bytes, touched) := flip_loop ivs run idx watermark in
  wf ivs' /\ Forall (flipped_from ivs run watermark) ivs' /\ (idx <= idx' <= idx + length run)%nat.
Proof.
  assert (Hrefl : forall ivs run, Forall (flipped_from ivs run watermark) ivs).
  { intros. apply List.Forall_forall. left. assumption. }
  assert (Hmono : forall ivs iv run f, flipped_from ivs run watermark f -> flipped_from ivs (iv :: run) watermark f).
  { intros ivs iv run f [H|(e & i & H1 & H2 & H3 & H4)]; [left; exact H|right]. exists e, i.
    split; [exact H1|]. split; [exact H2|]. split; [right; exact H3|exact H4]. }
  induction run as [|iv run IH]; intros ivs idx Hwf; simpl; [split; [exact Hwf|split; [apply Hrefl|lia]]|].
  destruct (Z.leb_spec (iend iv) watermark) as [Hw|Hw]; [|split; [exact Hwf|split; [apply Hrefl|lia]]].
  assert (Hskip : let '(ivs', idx', bytes, touched) := flip_loop ivs run (S idx) watermark in
    wf ivs' /\ Forall (flipped_from ivs (iv :: run) watermark) ivs' /\ (idx <= idx' <= idx + S (length run))%nat).
  { specialize (IH ivs (S idx) Hwf). destruct (flip_loop ivs run (S idx) watermark) as [[[ivs' idx'] bytes] touched].
    destruct IH as (H1 & H2 & H3). split; [exact H1|]. split; [|lia]. eapply Forall_impl; [exact H2|]. intros f. apply Hmono. }
  destruct (findRecord ivs (iv_fileOff iv) (iv_version iv)) as [k|] eqn:Hfr; [|exact Hskip].
  destruct (findRecord_Some _ _ _ _ Hwf Hfr) as (e & He & Hin & Hv). rewrite He.
  destruct (negb (iv_synced e)); [|exact Hskip].
  specialize (IH (<[k := set_synced true e]> ivs) (S idx) (wf_set_synced ivs k e true He Hwf)).
  destruct (flip_loop _ run (S idx) watermark) as [[[ivs' idx'] bytes] touched]. destruct IH as (H1 & H2 & H3).
  split; [exact H1|]. split; [|lia]. eapply Forall_impl; [exact H2|]. intros f Hf.
  assert (Hflip : flipped_from ivs (iv :: run) watermark (set_synced true e)).
  { right. exists e, iv. split; [apply list_elem_of_In, list_elem_of_lookup; eauto|].
    split; [reflexivity|]. split; [left; reflexivity|]. auto. }
  assert (Hin1 : forall x, In x (<[k := set_synced true e]> ivs) -> x = set_synced true e \/ In x ivs).
  { intros x Hx. apply list_elem_of_In, list_elem_of_lookup in Hx as [i Hi].
    apply list_lookup_insert_Some in Hi as [(_ & -> & _)|(_ & Hi)]; [left; reflexivity|right].
    apply list_elem_of_In, list_elem_of_lookup. eauto. }
  destruct Hf as [Hf|(e1 & i1 & He1 & -> & Hi1 & Hv1 & Hin2 & Hw1)].
  - destruct (Hin1 f Hf) as [->|Hf']; [exact Hflip|left; exact Hf'].
  - destruct (Hin1 e1 He1) as [->|He1']; [exact Hflip|]. right. exists e1, i1.
    split; [exact He1'|]. split; [reflexivity|]. split; [right; exact Hi1|]. auto.
Qed.

(** ** Interleavings of one run's workers with the rest of the system *)

Section dispatcher.
Variable E : env.
Variable s : Z.
Variable cs : list (list Z).
Variable blocks : list (list CarveChunk * Z).
Variable run ivs0 : list interval.

(** [carving d]: [d] is reached from the index [ivs0].  Blocks are submitted in
    order, a chunk the deduper called durable being remote by then; workers commit
    in any order and flip in submission order; meanwhile other writes, deletes and
    truncates change the index, and other uploads reach the remote store. *)
Inductive carving : dispatch -> Prop :=
  | C_start unsynced onDisk remote : carving (mkDispatch [] 0 ivs0 unsynced onDisk remote 0 false)
  | C_submit d chunks w :
      carving d -> blocks !! length (d_workers d) = Some (chunks, w) ->
      (forall k off c, tiles s cs !! k = Some (off, c) -> off + Z.of_nat (length c) <= w -> dup E k c ->
         Sum256 c ∈ d_remote d) ->
      carving (submit d chunks w)
  | C_commit d i w ok :
      carving d -> d_workers d !! i = Some w -> w_phase w = Committing -> carving (commit d i w ok)
  | C_flip d i w committed proceed written flip_err :
      carving d -> d_workers d !! i = Some w -> w_phase w = Committed committed ->
      predecessor d i = Some proceed ->
      incl written (flipUpTo (d_ivs d) run (d_flipIdx d) (w_watermark w)).2 ->
      carving (flip run d i w committed proceed written flip_err)
  | C_write d iv :
      carving d -> iv_ok iv -> iv_synced iv = false ->
      Forall (fun e => iv_version e < iv_version iv) (d_ivs d ++ run) ->
      carving (mkDispatch (d_workers d) (d_flipIdx d) (in_ivs (insert (d_ivs d) iv)) (d_unsynced d)
                 (d_onDisk d) (d_remote d) (d_BlocksWritten d) (d_abort d))
  | C_delete d v :
      carving d ->
      carving (mkDispatch (d_workers d) (d_flipIdx d) (bury (d_ivs d) v).1.1 (d_unsynced d)
                 (d_onDisk d) (d_remote d) (d_BlocksWritten d) (d_abort d))
  | C_truncate d v n :
      carving d ->
      carving (mkDispatch (d_workers d) (d_flipIdx d) (clip (d_ivs d) v n).1.1 (d_unsynced d)
                 (d_onDisk d) (d_remote d) (d_BlocksWritten d) (d_abort d))
  | C_remote d hs :
      carving d ->
      carving (mkDispatch (d_workers d) (d_flipIdx d) (d_ivs d) (d_unsynced d)
                 (d_onDisk d) (hs ∪ d_remote d) (d_BlocksWritten d) (d_abort d)).

(** Byte [x] of the file is in a chunk of the run that the remote store holds. *)
Definition stored (D : gset Hash) (x : Z) : Prop :=
  exists k off c, tiles s cs !! k = Some (off, c) /\ off <= x < off + Z.of_nat (length c) /\ Sum256 c ∈ D.

(** Where an interval of the index comes from, and why it may be synced. *)
Definition accounted_for (D : gset Hash) (f : interval) : Prop :=
  (exists e, In e ivs0 /\ within e f /\ iv_version f = iv_version e /\
     (iv_synced f = true -> iv_synced e = true \/ forall x, in_iv x f -> stored D x)) \/
  (Forall (fun iv => iv_version iv <> iv_version f) run /\ iv_synced f = false).

Definition committed_ok (ph : phase) : bool :=
  match ph with Committed ok | Flipped ok => ok | Committing => false end.

Record dispatch_inv (d : dispatch) : Prop := mkInv {
  inv_wf : wf (d_ivs d);
  inv_ivs : Forall (accounted_for (d_remote d)) (d_ivs d);
  inv_blocks : forall j w, d_workers d !! j = Some w -> blocks !! j = Some (w_chunks w, w_watermark w);
  inv_remote : forall j w, d_workers d !! j = Some w -> committed_ok (w_phase w) = true ->
    forall ch, In ch (w_chunks w) -> cc_Hash ch ∈ d_remote d;
  inv_order : forall i j w w', (i <= j)%nat -> d_workers d !! i = Some w -> d_workers d !! j = Some w' ->
    w_phase w' = Flipped true -> w_phase w = Flipped true;
  inv_dups : forall j w k off c, d_workers d !! j = Some w -> tiles s cs !! k = Some (off, c) ->
    off + Z.of_nat (length c) <= w_watermark w -> dup E k c -> Sum256 c ∈ d_remote d;
}.

Lemma accounted_mono D D' f : D ⊆ D' -> accounted_for D f -> accounted_for D' f.
Proof.
  intros HD [(e & H1 & H2 & H3 & H4)|H]; [left|right; exact H]. exists e. split; [exact H1|]. split; [exact H2|]. split; [exact H3|].
  intros Hs. destruct (H4 Hs) as [H|H]; [left; exact H|right]. intros x Hx. destruct (H x Hx) as (k & off & c & K1 & K2 & K3).
  exists k, off, c. auto.
Qed.

Lemma accounted_piece D e f : accounted_for D e -> piece_of e f -> accounted_for D f.
Proof.
  intros [(e0 & H1 & H2 & H3 & H4)|[H1 H2]] (P1 & P2 & P3).
  - left. exists e0. split; [exact H1|]. split; [unfold within in *; lia|]. split; [congruence|].
    intros Hs. destruct (H4 (P3 Hs)) as [H|H]; [left; exact H|right]. intros x Hx. apply H. unfold in_iv, within in *. lia.
  - right. split; [rewrite P2; exact H1|]. destruct (iv_synced f); [rewrite P3 in H2; [discriminate|reflexivity]|reflexivity].
Qed.

Lemma accounted_pieces D ivs ivs' :
  Forall (accounted_for D) ivs -> (forall f, In f ivs' -> exists e, In e ivs /\ piece_of e f) -> Forall (accounted_for D) ivs'.
Proof.
  intros H Hp. rewrite List.Forall_forall in *. intros f Hf. destruct (Hp f Hf) as (e & He & Hpe).
  eapply accounted_piece; [apply H, He|exact Hpe].
Qed.

Lemma tiles_cover n : forall cs' o x, o <= x < o + len (take n cs') ->
  exists k off c, (k < n)%nat /\ tiles o cs' !! k = Some (off, c) /\ off <= x < off + Z.of_nat (length c).
Proof.
  induction n as [|n IH]; intros [|c cs'] o x Hx; unfold len in Hx; simpl in Hx; try lia.
  rewrite length_app, Nat2Z.inj_add in Hx. destruct (decide (x < o + Z.of_nat (length c))) as [Hlt|Hge].
  - exists 0%nat, o, c. split; [lia|]. split; [reflexivity|lia].
  - destruct (IH cs' (o + Z.of_nat (length c)) x) as (k & off & c' & Hk & Ht & Hr); [unfold len; lia|].
    exists (S k), off, c'. split; [lia|]. split; [exact Ht|exact Hr].
Qed.

Lemma tiles_end n : forall cs' o k off c, (k < n)%nat -> tiles o cs' !! k = Some (off, c) ->
  off + Z.of_nat (length c) <= o + len (take n cs').
Proof.
  induction n as [|n IH]; intros [|c' cs'] o k off c Hk; [lia..|discriminate|]. destruct k as [|k]; simpl.
  - intros [= <- <-]. unfold len. simpl. rewrite length_app. lia.
  - intros Ht. apply IH in Ht; [|lia]. unfold len in *. simpl. rewrite length_app. lia.
Qed.

Hypothesis Hcover : blocks_cover E s cs blocks.
Hypothesis Hwf0 : wf ivs0.
Hypothesis Hrun : forall iv, In iv run -> In iv ivs0 /\ s <= iv_fileOff iv.

(** Once a block and all earlier ones are committed, every byte below its
    watermark is stored. *)
Lemma below_watermark_stored d i w :
  dispatch_inv d -> d_workers d !! i = Some w ->
  (forall j w', (j <= i)%nat -> d_workers d !! j = Some w' -> committed_ok (w_phase w') = true) ->
  forall x, s <= x < w_watermark w -> stored (d_remote d) x.
Proof.
  intros Hinv Hi Hall x Hx. pose proof (inv_blocks d Hinv i w Hi) as Hb.
  destruct (Hcover i _ _ Hb) as (n & Hn & Hw & Hc). rewrite Hw in Hx.
  destruct (tiles_cover n cs s x Hx) as (k & off & c & Hk & Ht & Hr). exists k, off, c. split; [exact Ht|]. split; [exact Hr|].
  destruct (Hc k off c Hk Ht) as [Hd|(j & Hj & chunks & w0 & Hbj & Hin)].
  - apply (inv_dups d Hinv i w k off c Hi Ht); [|exact Hd]. rewrite Hw. eapply tiles_end; eassumption.
  - assert (Hlt : (j < length (d_workers d))%nat) by (apply lookup_lt_Some in Hi; lia).
    destruct (lookup_lt_is_Some_2 _ _ Hlt) as [w' Hw']. pose proof (inv_blocks d Hinv j w' Hw') as Hbj'.
    rewrite Hbj in Hbj'. injection Hbj' as -> ->.
    exact (inv_remote d Hinv j w' Hw' (Hall j w' Hj Hw') _ Hin).
Qed.

(** Two intervals of a well-formed index that share a byte are the same. *)
Lemma wf_same a b x : In a ivs0 -> In b ivs0 -> in_iv x a -> in_iv x b -> a = b.
Proof.
  intros Ha Hb Hxa Hxb. apply list_elem_of_In, list_elem_of_lookup in Ha as [i Hi], Hb as [j Hj].
  destruct (Nat.lt_trichotomy i j) as [Hlt|[->|Hlt]]; [|congruence|].
  - pose proof (wf_lookup_lt ivs0 i j a b Hwf0 Hi Hj Hlt). unfold iv_before, in_iv in *. lia.
  - pose proof (wf_lookup_lt ivs0 j i b a Hwf0 Hj Hi Hlt). unfold iv_before, in_iv in *. lia.
Qed.

Lemma flipped_accounted D ivs w f :
  Forall (accounted_for D) ivs -> (forall x, s <= x < w -> stored D x) ->
  flipped_from ivs run w f -> accounted_for D f.
Proof.
  intros Hivs Hst [Hf|(e & iv & He & -> & Hiv & Hv & Hin & Hw)].
  - rewrite List.Forall_forall in Hivs. apply Hivs, Hf.
  - rewrite List.Forall_forall in Hivs. destruct (Hivs e He) as [(e0 & H1 & H2 & H3 & H4)|[Hno _]].
    + left. exists e0. split; [exact H1|]. split; [exact H2|]. split; [exact H3|]. intros _. right. intros x Hx.
      destruct (Hrun iv Hiv) as [Hiv0 Hs]. assert (Hok : iv_ok iv) by (destruct Hwf0 as [Hok _]; rewrite List.Forall_forall in Hok; auto).
      assert (e0 = iv) as ->.
      { apply (wf_same e0 iv (iv_fileOff iv) H1 Hiv0); [|unfold in_iv; destruct Hok as (? & ? & ?); lia].
        unfold in_iv, within in *. lia. }
      apply Hst. rewrite iend_eq in Hw by exact Hok. unfold in_iv, within in *. simpl in *. lia.
    + rewrite List.Forall_forall in Hno. exfalso. exact (Hno iv Hiv (eq_sym Hv)).
Qed.

Lemma lookup_worker_insert (d : dispatch) i w ph j w' :
  d_workers d !! i = Some w -> <[i := set_phase w ph]> (d_workers d) !! j = Some w' ->
  (j = i /\ w' = set_phase w ph) \/ (j <> i /\ d_workers d !! j = Some w').
Proof. intros Hi Hj. apply list_lookup_insert_Some in Hj as [(<- & -> & _)|(Hne & Hj)]; [left; auto|right; auto]. Qed.

Lemma submit_inv d chunks w :
  dispatch_inv d -> blocks !! length (d_workers d) = Some (chunks, w) ->
  (forall k off c, tiles s cs !! k = Some (off, c) -> off + Z.of_nat (length c) <= w -> dup E k c -> Sum256 c ∈ d_remote d) ->
  dispatch_inv (submit d chunks w).
Proof.
  intros [I1 I2 I3 I4 I5 I6] Hb Hd. split; simpl; auto.
  - intros j w' Hj. apply lookup_snoc_Some in Hj as [[_ Hj]|[-> <-]]; [apply I3, Hj|exact Hb].
  - intros j w' Hj. apply lookup_snoc_Some in Hj as [[_ Hj]|[_ <-]]; [apply (I4 j w' Hj)|discriminate].
  - intros i j w1 w2 Hij Hi Hj Hph. apply lookup_snoc_Some in Hj as [[Hl Hj]|[_ <-]]; [|discriminate].
    rewrite lookup_app_l in Hi by lia. exact (I5 i j w1 w2 Hij Hi Hj Hph).
  - intros j w' k off c Hj Ht Hw Hdup. apply lookup_snoc_Some in Hj as [[_ Hj]|[_ <-]]; [eapply I6; eassumption|].
    exact (Hd k off c Ht Hw Hdup).
Qed.

Lemma commit_inv d i w ok :
  dispatch_inv d -> d_workers d !! i = Some w -> w_phase w = Committing -> dispatch_inv (commit d i w ok).
Proof.
  intros [I1 I2 I3 I4 I5 I6] Hi Hph. unfold commit. set (ok' := ok || bool_decide (w_chunks w = [])).
  set (R := if ok' then _ else _).
  assert (Hmono : d_remote d ⊆ R) by (unfold R; destruct ok'; set_solver).
  split; simpl; auto.
  - eapply Forall_impl; [exact I2|]. intros f. apply accounted_mono, Hmono.
  - intros j w' Hj. destruct (lookup_worker_insert d i w _ j w' Hi Hj) as [[-> ->]|[_ Hj']]; [apply (I3 i w Hi)|apply I3, Hj'].
  - intros j w' Hj Hc ch Hch. destruct (lookup_worker_insert d i w _ j w' Hi Hj) as [[-> ->]|[_ Hj']].
    + simpl in Hc, Hch. unfold R. rewrite Hc. apply elem_of_union_l. unfold hashes. apply elem_of_list_to_set, list_elem_of_In, in_map, Hch.
    + apply Hmono. exact (I4 j w' Hj' Hc ch Hch).
  - intros i1 j w1 w2 Hij H1 H2 Hf. destruct (lookup_worker_insert d i w _ j w2 Hi H2) as [[-> ->]|[_ H2']]; [discriminate|].
    destruct (lookup_worker_insert d i w _ i1 w1 Hi H1) as [[-> ->]|[_ H1']]; [|exact (I5 i1 j w1 w2 Hij H1' H2' Hf)].
    pose proof (I5 i j w w2 Hij Hi H2' Hf). congruence.
  - intros j w' k off c Hj Ht Hw Hd. apply Hmono.
    destruct (lookup_worker_insert d i w _ j w' Hi Hj) as [[-> ->]|[_ Hj']]; [exact (I6 i w k off c Hi Ht Hw Hd)|eapply I6; eassumption].
Qed.

(** A worker whose predecessor reported success has all its predecessors flipped. *)
Lemma predecessor_true d i j w :
  dispatch_inv d -> predecessor d i = Some true -> (j < i)%nat -> d_workers d !! j = Some w -> w_phase w = Flipped true.
Proof.
  intros Hinv Hp Hj Hw. destruct i as [|i]; [lia|]. simpl in Hp.
  destruct (d_workers d !! i) as [[ch wm ph]|] eqn:Hi; [|discriminate]. destruct ph as [| |ok]; try discriminate. injection Hp as ->.
  exact (inv_order d Hinv j i w _ ltac:(lia) Hw Hi eq_refl).
Qed.

Lemma flip_inv d i w committed proceed written flip_err :
  dispatch_inv d -> d_workers d !! i = Some w -> w_phase w = Committed committed -> predecessor d i = Some proceed ->
  dispatch_inv (flip run d i w committed proceed written flip_err).
Proof.
  intros Hinv Hi Hph Hpred.
  assert (Hworkers : forall ok ivs idx un disk bw ab,
    wf ivs -> Forall (accounted_for (d_remote d)) ivs -> (ok = true -> proceed = true /\ committed = true) ->
    dispatch_inv (mkDispatch (<[i := set_phase w (Flipped ok)]> (d_workers d)) idx ivs un disk (d_remote d) bw ab)).
  { intros ok ivs idx un disk bw ab Hwf Hivs Hok. pose proof Hinv as [I1 I2 I3 I4 I5 I6]. split; simpl; auto.
    - intros j w' Hj. destruct (lookup_worker_insert d i w _ j w' Hi Hj) as [[-> ->]|[_ Hj']]; [apply (I3 i w Hi)|apply I3, Hj'].
    - intros j w' Hj Hc ch Hch. destruct (lookup_worker_insert d i w _ j w' Hi Hj) as [[-> ->]|[_ Hj']]; [|exact (I4 j w' Hj' Hc ch Hch)].
      simpl in Hc. apply (I4 i w Hi); [|exact Hch]. rewrite Hph. apply Hok, Hc.
    - intros i1 j w1 w2 Hij H1 H2 Hf. destruct (lookup_worker_insert d i w _ j w2 Hi H2) as [[-> ->]|[Hne H2']].
      + simpl in Hf. injection Hf as ->. destruct (Hok eq_refl) as [-> _].
        destruct (lookup_worker_insert d i w _ i1 w1 Hi H1) as [[-> ->]|[Hne H1']]; [reflexivity|].
        apply (predecessor_true d i i1 w1 Hinv Hpred); [lia|exact H1'].
      + destruct (lookup_worker_insert d i w _ i1 w1 Hi H1) as [[-> ->]|[_ H1']]; [|exact (I5 i1 j w1 w2 Hij H1' H2' Hf)].
        pose proof (I5 i j w w2 Hij Hi H2' Hf). congruence.
    - intros j w' k off c Hj Ht Hw Hd.
      destruct (lookup_worker_insert d i w _ j w' Hi Hj) as [[-> ->]|[_ Hj']]; [exact (I6 i w k off c Hi Ht Hw Hd)|eapply I6; eassumption]. }
  unfold flip. destruct (proceed && committed) eqn:Hpc.
  - apply andb_prop in Hpc as [-> ->]. unfold flipUpTo.
    pose proof (flip_loop_spec (w_watermark w) (drop (d_flipIdx d) run) (d_ivs d) (d_flipIdx d) (inv_wf d Hinv)) as Hfl.
    destruct (flip_loop _ _ _ _) as [[[ivs idx] bytes] touched]. destruct Hfl as (Hwf & Hfrom & _).
    apply Hworkers; [exact Hwf| |auto]. eapply Forall_impl; [exact Hfrom|]. intros f Hf.
    apply (flipped_accounted _ (d_ivs d) (w_watermark w) f (inv_ivs d Hinv)).
    + apply (below_watermark_stored d i w Hinv Hi). intros j w' Hj Hw'. destruct (decide (j = i)) as [->|Hne].
      * rewrite Hi in Hw'. injection Hw' as <-. rewrite Hph. reflexivity.
      * rewrite (predecessor_true d i j w' Hinv Hpred ltac:(lia) Hw'). reflexivity.
    + destruct Hf as [Hf|(e & iv & H1 & H2 & H3 & H4)]; [left; exact Hf|right]. exists e, iv.
      split; [exact H1|]. split; [exact H2|]. split; [|exact H4]. rewrite <- (take_drop (d_flipIdx d) run). apply in_or_app. auto.
  - apply Hworkers; [apply Hinv|apply Hinv|discriminate].
Qed.

Lemma carving_inv d : carving d -> dispatch_inv d.
Proof.
  assert (Hindex : forall d ivs, dispatch_inv d -> wf ivs -> Forall (accounted_for (d_remote d)) ivs ->
    dispatch_inv (mkDispatch (d_workers d) (d_flipIdx d) ivs (d_unsynced d) (d_onDisk d) (d_remote d) (d_BlocksWritten d) (d_abort d))).
  { intros d0 ivs [I1 I2 I3 I4 I5 I6] H1 H2. split; assumption. }
  induction 1 as [un disk remote|d chunks w _ IH Hb Hd|d i w ok _ IH Hi Hph|d i w c p wr fe _ IH Hi Hph Hp _
                 |d iv _ IH Hok Hsy Hv|d v _ IH|d v n _ IH|d hs _ IH].
  - split; simpl; try discriminate; auto. apply List.Forall_forall. intros f Hf. left. exists f.
    split; [exact Hf|]. split; [unfold within; lia|]. auto.
  - apply submit_inv; assumption.
  - apply commit_inv; assumption.
  - apply flip_inv; assumption.
  - apply Forall_app in Hv as [Hv Hvr]. apply Hindex; [exact IH| |].
    + apply insert_spec; [apply IH|exact Hok|]. eapply Forall_impl; [exact Hv|]. simpl. intros; lia.
    + apply List.Forall_forall. intros f Hf. destruct (insert_pieces _ _ _ (inv_wf d IH) Hok Hf) as [Hp|(e & He & Hp)].
      * right. destruct Hp as (_ & Hver & Hs). split.
        -- eapply Forall_impl; [exact Hvr|]. simpl. intros; lia.
        -- destruct (iv_synced f); [rewrite Hs in Hsy; [discriminate|reflexivity]|reflexivity].
      * eapply accounted_piece; [|exact Hp]. pose proof (inv_ivs d IH) as Ha. rewrite List.Forall_forall in Ha. apply Ha, He.
  - apply Hindex; [exact IH| |].
    + rewrite bury_kept. apply filter_wf, IH.
    + eapply accounted_pieces; [apply IH|]. apply bury_pieces.
  - apply Hindex; [exact IH| |].
    + rewrite clip_kept. apply flat_map_wf; [|apply IH]. intros e He. destruct (inv_wf d IH) as [Hok _].
      rewrite List.Forall_forall in Hok. destruct (clip1_spec v n e (Hok e He)) as (C1 & C2 & _). auto.
    + eapply accounted_pieces; [apply IH|]. intros f. apply clip_pieces. apply (inv_wf d IH).
  - destruct IH as [I1 I2 I3 I4 I5 I6]. split; simpl; auto.
    + eapply Forall_impl; [exact I2|]. intros f. apply accounted_mono. set_solver.
    + intros j w Hj Hc ch Hch. apply elem_of_union_r. eauto.
    + intros j w k off c Hj Ht Hw Hd. apply elem_of_union_r. eauto.
Qed.
End dispatcher.

(** ** The runs *)

Lemma run_from_app prev snap : (run_from prev snap).1 ++ (run_from prev snap).2 = snap.
Proof.
  revert prev. induction snap as [|iv snap IH]; intros prev; simpl; [reflexivity|].
  destruct (_ =? _); [|reflexivity]. specialize (IH iv). destruct (run_from iv snap) as [r a]. simpl in *. congruence.
Qed.

(** Each interval starts where the previous one ends. *)
Fixpoint contiguous (prev : interval) (l : list interval) : Prop :=
  match l with [] => True | iv :: l => iv_fileOff iv = iend prev /\ contiguous iv l end.

Definition run_end (prev : interval) (l : list interval) : Z := iend (List.last l prev).

Lemma last_cons (iv prev : interval) l : List.last (iv :: l) prev = List.last l iv.
Proof. revert iv prev. induction l as [|x l IH]; intros; [reflexivity|]. change (List.last (iv :: x :: l) prev) with (List.last (x :: l) prev). rewrite !IH. reflexivity. Qed.

Lemma run_from_maximal prev snap :
  contiguous prev (run_from prev snap).1 /\
  match (run_from prev snap).2 with [] => True | iv :: _ => iv_fileOff iv <> run_end prev (run_from prev snap).1 end.
Proof.
  revert prev. induction snap as [|iv snap IH]; intros prev; simpl; [auto|].
  destruct (Z.eqb_spec (iv_fileOff iv) (iend prev)) as [He|Hne]; [|simpl; auto].
  specialize (IH iv). destruct (run_from iv snap) as [r a]. simpl in *. destruct IH as [I1 I2]. split; [auto|].
  destruct a; [exact I|]. unfold run_end in *. rewrite last_cons. exact I2.
Qed.

Fixpoint apart_runs (rs : list (list interval)) : Prop :=
  match rs with
  | [] => True
  | r :: rs =>
    match r with [] => False | iv :: l => contiguous iv l /\
      match rs with (iv' :: _) :: _ => iv_fileOff iv' <> run_end iv l | _ => True end end /\ apart_runs rs
  end.

Lemma split_runs_spec : forall fuel snap, (length snap <= fuel)%nat ->
  concat (split_runs fuel snap) = snap /\ apart_runs (split_runs fuel snap).
Proof.
  induction fuel as [|fuel IH]; intros [|iv snap] Hf; simpl in *; auto; [lia|].
  pose proof (run_from_app iv snap) as Ha. pose proof (run_from_maximal iv snap) as Hm.
  destruct (run_from iv snap) as [r a]. simpl in *. destruct (IH a) as [I1 I2].
  { rewrite <- Ha, length_app in Hf. lia. }
  rewrite I1, Ha. split; [reflexivity|]. destruct Hm as [M1 M2]. split; [|exact I2]. split; [exact M1|].
  destruct (split_runs fuel a) as [|[|iv' r'] rs]; auto. simpl in I1. rewrite <- I1 in M2. exact M2.
Qed.

(** The runs partition the dirty intervals, in order, into maximal contiguous
    groups: every dirty byte is carved, once, and no run bridges a gap. *)
Theorem carveRuns_partition ivs :
  concat (carveRuns ivs) = List.filter is_dirty ivs /\ apart_runs (carveRuns ivs).
Proof. apply split_runs_spec. unfold snapshot. lia. Qed.

Lemma wf_concat_in (ls : list (list interval)) l : wf (concat ls) -> In l ls -> wf l.
Proof.
  intros Hwf Hl. apply in_split in Hl as (l1 & l2 & ->). rewrite concat_app in Hwf. simpl in Hwf.
  apply wf_app in Hwf as (_ & Hwf & _). apply wf_app in Hwf as (Hwf & _). exact Hwf.
Qed.

Lemma carveRuns_in ivs iv l :
  wf ivs -> In (iv :: l) (carveRuns ivs) -> forall x, In x (iv :: l) -> In x ivs /\ iv_fileOff iv <= iv_fileOff x.
Proof.
  intros Hwf Hr x Hx. destruct (split_runs_spec (length (snapshot ivs)) (snapshot ivs) (le_n _)) as [Hc _].
  fold (carveRuns ivs) in Hc. split.
  - assert (Hin : In x (snapshot ivs)) by (rewrite <- Hc; apply in_concat; eauto). apply filter_In in Hin as [Hin _]. exact Hin.
  - assert (Hw : wf (iv :: l)) by (eapply wf_concat_in; [rewrite Hc; apply filter_wf, Hwf|exact Hr]).
    apply wf_cons_inv in Hw as ((Hok1 & Hok2 & _) & _ & Hb). destruct Hx as [->|Hx]; [lia|].
    rewrite List.Forall_forall in Hb. specialize (Hb x Hx). unfold iv_before in Hb. lia.
Qed.

(** C20: ** Crash safety

    For every packing of a run and every interleaving of its workers with other
    operations: an interval marked synced was already synced before, or all its
    bytes are in chunks the remote store holds; the on-disk flag of a record is
    only written when no live fragment of the record is dirty; and a block whose
    worker flipped had all earlier blocks committed. *)
Theorem synced_only_when_stored E pieces fuel r late iv l ivs0 d :
  let run := iv :: l in
  let s := iv_fileOff iv in
  let cs := chunks (NewChunkerWithParams params) (payload pieces) in
  let blocks := carve_blocks r late (run_end iv l) in
  Max (NewChunkerWithParams params) <= MaxChunkSize -> 0 < CarveBlockSize ->
  wf ivs0 -> In run (carveRuns ivs0) ->
  run_end iv l = s + Z.of_nat (length (payload pieces)) -> run_end iv l < 2 ^ 63 ->
  pack_loop fuel E (pack_start s pieces) = Some r ->
  carving E s cs blocks run ivs0 d ->
  (forall f, In f (d_ivs d) -> iv_synced f = true ->
     (exists e, In e ivs0 /\ within e f /\ iv_version f = iv_version e /\ iv_synced e = true) \/
     (forall x, in_iv x f -> stored s cs (d_remote d) x)) /\
  (forall w rk f,
     let res := flipUpTo (d_ivs d) run (d_flipIdx d) w in
     In rk res.2 -> In f res.1.1.1 -> sl_SegmentID (iv_loc f) = rk.1 -> iv_recOff f = rk.2 ->
     iv_cold f = false -> iv_synced f = true) /\
  (forall i j w w' ch, (i <= j)%nat -> d_workers d !! i = Some w -> d_workers d !! j = Some w' ->
     w_phase w' = Flipped true -> In ch (w_chunks w) -> cc_Hash ch ∈ d_remote d).
Proof.
  intros run s cs blocks Hfit Hbs Hwf Hr Hend Hlt Hpack Hd.
  assert (Hok : iv_ok iv).
  { destruct (carveRuns_in ivs0 iv l Hwf Hr iv (or_introl eq_refl)) as [Hin _]. destruct Hwf as [Hwf _].
    rewrite List.Forall_forall in Hwf. apply Hwf, Hin. }
  assert (Hcover : blocks_cover E s cs blocks).
  { unfold blocks. rewrite Hend. apply (carve_blocks_cover E s pieces fuel r late); auto; [destruct Hok; unfold s; lia|lia]. }
  pose proof (carving_inv E s cs blocks run ivs0 Hcover Hwf (carveRuns_in ivs0 iv l Hwf Hr) d Hd) as Hinv.
  split; [|split].
  - intros f Hf Hs. pose proof (inv_ivs _ _ _ _ _ _ _ Hinv) as Ha. rewrite List.Forall_forall in Ha.
    destruct (Ha f Hf) as [(e & H1 & H2 & H3 & H4)|[_ H]]; [|congruence].
    destruct (H4 Hs) as [H|H]; [left; exists e; auto|right; exact H].
  - intros w rk f res. unfold res, flipUpTo. destruct (flip_loop _ _ _ _) as [[[ivs idx] bytes] touched]. simpl.
    intros Hrk Hf Hseg Hoff Hcold. apply filter_In in Hrk as [_ Hrk]. apply negb_true_iff in Hrk.
    destruct (iv_synced f) eqn:Hsy; [reflexivity|]. exfalso. apply not_true_iff_false in Hrk. apply Hrk, existsb_exists. exists f.
    split; [exact Hf|]. rewrite Hseg, Hoff, Hsy, Hcold, !Z.eqb_refl. reflexivity.
  - intros i j w w' ch Hij Hi Hj Hph Hch. pose proof (inv_order _ _ _ _ _ _ _ Hinv i j w w' Hij Hi Hj Hph) as Hw.
    apply (inv_remote _ _ _ _ _ _ _ Hinv i w Hi); [rewrite Hw; reflexivity|exact Hch].
Qed.

(** ** Chunk sizes beyond the buffer *)

Lemma fill_bounds cap : forall pieces buf,
  Z.of_nat (length buf) <= cap -> Forall (fun d => d <> None) pieces -> cap <= Z.of_nat (length (buf ++ payload pieces)) ->
  (fill cap buf pieces).2 = Full /\ Z.of_nat (length (fill cap buf pieces).1.1) = cap.
Proof.
  induction pieces as [|[d|] pieces IH]; intros buf Hb Hp Hl; simpl;
    (destruct (Z.leb_spec cap (Z.of_nat (length buf))); [simpl; split; [reflexivity|lia]|]).
  - rewrite app_nil_r in Hl. lia.
  - inversion Hp; subst. destruct (Z.leb_spec (Z.of_nat (length d)) (cap - Z.of_nat (length buf))).
    + apply IH; [rewrite length_app; lia|assumption|]. rewrite <- app_assoc. exact Hl.
    + simpl. split; [reflexivity|]. rewrite length_app, length_take. lia.
  - inversion Hp. contradiction.
Qed.

(** A share whose minimum chunk size exceeds the carve buffer never carves a run
    as long as the buffer: the chunker keeps asking for more bytes, the buffer has
    no room for them, and the packing loop goes round without end. *)
Theorem oversized_chunks_never_carve E s pieces :
  Validate params = None -> MaxChunkSize < Min params ->
  MaxChunkSize <= Z.of_nat (length (payload pieces)) -> healthy E pieces ->
  forall fuel, pack_loop fuel E (pack_start s pieces) = None.
Proof.
  intros Hval Hmin Hlen Hheal.
  assert (Hnew : NewChunkerWithParams params = params) by (unfold NewChunkerWithParams; rewrite Hval; reflexivity).
  assert (Hloop : forall fuel st, pk_eof st = false -> healthy E (pk_pieces st) ->
    Z.of_nat (length (pk_buf st)) <= MaxChunkSize -> MaxChunkSize <= Z.of_nat (length (pk_buf st ++ payload (pk_pieces st))) ->
    pack_loop fuel E st = None).
  { induction fuel as [|fuel IH]; intros st Heof Hh Hb Hl; [reflexivity|]. simpl. unfold pack_iter.
    pose proof Hh as [Hp He]. destruct (He (pk_iter st)) as (-> & -> & _). rewrite Heof.
    destruct (fill_bounds MaxChunkSize (pk_pieces st) (pk_buf st) Hb Hp Hl) as [F1 F2].
    pose proof (fill_healthy MaxChunkSize (pk_pieces st) (pk_buf st) Hp) as F3.
    pose proof (fill_spec MaxChunkSize (pk_pieces st) (pk_buf st)) as F4.
    destruct (fill MaxChunkSize (pk_buf st) (pk_pieces st)) as [[buf pcs] e]. simpl in F1, F2. subst e.
    destruct F3 as [F3 _], F4 as [F4 _].
    assert (Hne : buf <> []) by (intros ->; simpl in F2; unfold MaxChunkSize in F2; lia).
    rewrite bool_decide_eq_false_2 by exact Hne. rewrite Hnew.
    assert (HN : Next params buf false = (0, false)).
    { unfold Next. destruct (Z.eqb_spec (Z.of_nat (length buf)) 0) as [E0|_]; [unfold MaxChunkSize in *; lia|]. simpl.
      destruct (Z.ltb_spec (Z.of_nat (length buf)) (Min params)); [reflexivity|lia]. }
    rewrite HN. simpl. apply IH; simpl; [reflexivity|split; [exact F3|exact He]|lia|]. rewrite length_app. lia. }
  intros fuel. apply Hloop; simpl; [reflexivity|exact Hheal|unfold MaxChunkSize; lia|exact Hlen].
Qed.
End carve.

(** ** A concrete run: two adjacent records *)

Definition sample_env : @env (list Z) :=
  mkEnv (fun _ => false) (fun _ => false) (fun _ _ => Some false) (fun _ => true).

Definition sample_first : interval := mkInterval 0 4 1 (mkLoc 1 0 4) 0 false false.
Definition sample_second : interval := mkInterval 4 6 2 (mkLoc 1 40 6) 40 false false.
Definition sample_pieces : list (option (list Z)) := [Some [1; 2; 3; 4]; Some [5; 6; 7; 8; 9; 10]].

Definition sample_result : packed * outcome :=
  match pack_loop id "f" DefaultParams 8 11 sample_env (pack_start 0 sample_pieces) with
  | Some r => r
  | None => (mkPacked 0 [] 0 [] 0 [], PackErr)
  end.

Lemma sample_healthy (pieces : list (option (list Z))) : Forall (fun d => d <> None) pieces -> healthy sample_env pieces.
Proof. intros H. split; [exact H|]. intros k. repeat split; discriminate. Qed.

Lemma carve_packs_run_witness :
  pack_loop id "f" DefaultParams 8 11 sample_env (pack_start 0 sample_pieces) = Some sample_result /\
  exists r, pack_loop id "f" DefaultParams 8 11 sample_env (pack_start 0 sample_pieces) = Some r /\ r.2 = Finished.
Proof.
  split; [vm_compute; reflexivity|].
  destruct (carve_packs_run id "f" DefaultParams 8 sample_env 0 sample_pieces) as (r & Hr & Hh & _);
    [vm_compute; discriminate|reflexivity|lia|vm_compute; reflexivity|].
  exists r. split; [exact Hr|]. apply Hh, sample_healthy. repeat constructor; discriminate.
Defined.

(** The index before, and after the block was committed and flipped. *)
Definition sample_index : list interval := [sample_first; sample_second].

Definition sample_submitted : @dispatch (list Z) _ _ :=
  submit (mkDispatch [] 0 sample_index 10 [] ∅ 0 false) [mkChunk [1;2;3;4;5;6;7;8;9;10] "f" 0 [1;2;3;4;5;6;7;8;9;10]] 10.

Definition sample_worker (ph : phase) : @worker (list Z) :=
  mkWorker [mkChunk [1;2;3;4;5;6;7;8;9;10] "f" 0 [1;2;3;4;5;6;7;8;9;10]] 10 ph.

Definition sample_committed : @dispatch (list Z) _ _ := commit sample_submitted 0 (sample_worker Committing) true.

Definition sample_flipped : @dispatch (list Z) _ _ :=
  flip sample_index sample_committed 0 (sample_worker (Committed true)) true true [(1, 0); (1, 40)] false.

Lemma sample_flipped_carving :
  carving id sample_env 0 [[1;2;3;4;5;6;7;8;9;10]] (carve_blocks sample_result false 10) sample_index sample_index sample_flipped.
Proof.
  apply C_flip; [|reflexivity|reflexivity|reflexivity|vm_compute; tauto].
  apply C_commit; [|reflexivity|reflexivity].
  apply C_submit; [apply C_start|vm_compute; reflexivity|]. intros k off c _ _ Hd. discriminate Hd.
Qed.

Lemma synced_only_when_stored_witness :
  map iv_synced (d_ivs sample_flipped) = [true; true] /\
  forall f, In f (d_ivs sample_flipped) -> iv_synced f = true ->
    (exists e, In e sample_index /\ within e f /\ iv_version f = iv_version e /\ iv_synced e = true) \/
    (forall x, in_iv x f -> stored id 0 [[1;2;3;4;5;6;7;8;9;10]] (d_remote sample_flipped) x).
Proof.
  split; [vm_compute; reflexivity|].
  apply (synced_only_when_stored id "f" DefaultParams 8 sample_env sample_pieces 11 sample_result false sample_first
           [sample_second] sample_index sample_flipped).
  - vm_compute. discriminate.
  - reflexivity.
  - split; [repeat constructor; vm_compute; congruence|]. repeat constructor. vm_compute. discriminate.
  - vm_compute. left. reflexivity.
  - vm_compute. reflexivity.
  - vm_compute. reflexivity.
  - vm_compute. reflexivity.
  - exact sample_flipped_carving.
Defined.

Definition big_params : Params := mkParams (32 * 1024 * 1024) (128 * 1024 * 1024) (256 * 1024 * 1024).

Lemma oversized_chunks_never_carve_witness :
  Validate big_params = None /\
  forall fuel, pack_loop id "f" big_params 8 fuel sample_env (pack_start 0 [Some (repeat 0 (Z.to_nat MaxChunkSize))]) = None.
Proof.
  split; [reflexivity|]. apply (oversized_chunks_never_carve id "f" big_params 8); [reflexivity|reflexivity| |].
  - unfold payload. cbn [omap list_omap id concat]. rewrite app_nil_r, repeat_length, Z2Nat.id; [|discriminate].
    apply Z.le_refl.
  - apply sample_healthy. constructor; [discriminate|constructor].
Defined.
