(* ===== verification/JournalStore.v ===== *)
(** * The journal store: segments, appends, reads, deletes
    ([pkg/block/journal/store.go], [segment.go], [shard.go], the read path of [index.go])

    A store is its shards and counters together with the segment files on disk.  Every
    operation is a step: it holds the lock of its shard (reclamation: the carve lock) in
    the source.  A file is its bytes and how many of them are durable: a write makes
    bytes readable, [fd.Sync] makes what is there durable.  Disk errors are not
    modelled; the [.idx] sidecars are written and rebuilt but never read, and are left
    out. *)

From S2P Require Import Prelude.
From S2P Require Import HoleMap.
From S2P Require Import JournalIndex.
From S2P Require Import JournalRecord.

(** ** Data *)

(** A [FileID] is a Go string: its bytes. *)
Definition FileID := list Z.

Record Config := mkConfig {
  SegmentSize : Z;
  ShardCount : nat;
  MaxLocalBytes : Z;
  (** [GCDeadRatioForce], as a fraction *)
  gcRatioNum : Z;
  gcRatioDen : Z;
}.

Record segmentMeta := mkSegMeta {
  sg_id : Z;
  sg_createdAt : Z;
  sg_sealed : bool;
  sg_tail : Z;
  sg_liveBytes : Z;
  sg_deadBytes : Z;
  sg_records : Z;
  sg_syncedRecords : Z;
  sg_lastAccess : Z;
  sg_minVersion : Z;
}.

Record fileIndex := mkFileIndex { fi_ivs : list interval; fi_firstDirtyNanos : Z }.

Record shard := mkShard {
  sh_active : segmentMeta;
  sh_sealed : gmap Z segmentMeta;
  sh_index : gmap FileID fileIndex;
}.

Record File := mkFile { fl_bytes : list Z; fl_durable : nat }.

Record Store := mkStore {
  st_cfg : Config;
  st_shards : list shard;
  st_nextSeg : Z;
  st_version : Z;
  st_pinVersion : Z;
  st_unsynced : Z;
  st_diskBytes : Z;
  st_writes : Z;
  st_evictionDisabled : bool;
  st_closed : bool;
  st_disk : gmap Z File;
}.

(** [ErrUnfinished] is no error of the program: the result of a loop of the model that
    has not ended within its bound.  [journal_store_refines] shows it is never the result
    of an operation. *)
Inductive JErr :=
  | ErrUnfinished
  | errClosed | ErrNegativeOffset | ErrNegativeSize | ErrFileIDTooLong | ErrPayloadTooLong | ErrRecordTooBig
  | ErrLocalStoreFull | ErrSegmentExists | ErrUnknownSegment | ErrRead | CorruptRangeError.

(** ** Updates *)

Definition set_shards (l : list shard) (s : Store) : Store :=
  mkStore (st_cfg s) l (st_nextSeg s) (st_version s) (st_pinVersion s) (st_unsynced s) (st_diskBytes s) (st_writes s)
    (st_evictionDisabled s) (st_closed s) (st_disk s).
Definition set_disk (d : gmap Z File) (s : Store) : Store :=
  mkStore (st_cfg s) (st_shards s) (st_nextSeg s) (st_version s) (st_pinVersion s) (st_unsynced s) (st_diskBytes s) (st_writes s)
    (st_evictionDisabled s) (st_closed s) d.
Definition set_next (nextSeg version : Z) (s : Store) : Store :=
  mkStore (st_cfg s) (st_shards s) nextSeg version (st_pinVersion s) (st_unsynced s) (st_diskBytes s) (st_writes s)
    (st_evictionDisabled s) (st_closed s) (st_disk s).
Definition add_counts (unsynced diskBytes writes : Z) (s : Store) : Store :=
  mkStore (st_cfg s) (st_shards s) (st_nextSeg s) (st_version s) (st_pinVersion s) (st_unsynced s + unsynced)
    (st_diskBytes s + diskBytes) (st_writes s + writes) (st_evictionDisabled s) (st_closed s) (st_disk s).

Definition SetPinVersion (v : Z) (s : Store) : Store :=
  mkStore (st_cfg s) (st_shards s) (st_nextSeg s) (st_version s) v (st_unsynced s) (st_diskBytes s) (st_writes s)
    (st_evictionDisabled s) (st_closed s) (st_disk s).
Definition SetEvictionEnabled (enabled : bool) (s : Store) : Store :=
  mkStore (st_cfg s) (st_shards s) (st_nextSeg s) (st_version s) (st_pinVersion s) (st_unsynced s) (st_diskBytes s) (st_writes s)
    (negb enabled) (st_closed s) (st_disk s).
Definition Close (s : Store) : Store :=
  mkStore (st_cfg s) (st_shards s) (st_nextSeg s) (st_version s) (st_pinVersion s) (st_unsynced s) (st_diskBytes s) (st_writes s)
    (st_evictionDisabled s) true (st_disk s).

Definition JournalVersion (s : Store) : Z := st_version s.

(** ** Files *)

(** [fd.WriteAt(data, off)]. *)
Definition pwrite (b : list Z) (off : Z) (data : list Z) : list Z :=
  let o := Z.to_nat off in
  take o b ++ replicate (o - length b) 0 ++ data ++ drop (o + length data) b.

Definition write_file (id off : Z) (data : list Z) (d : gmap Z File) : gmap Z File :=
  alter (fun f => mkFile (pwrite (fl_bytes f) off data) (fl_durable f)) id d.

Definition sync_file (id : Z) (d : gmap Z File) : gmap Z File :=
  alter (fun f => mkFile (fl_bytes f) (length (fl_bytes f))) id d.

(** ** Segments *)

Definition set_tail (t : Z) (m : segmentMeta) : segmentMeta :=
  mkSegMeta (sg_id m) (sg_createdAt m) (sg_sealed m) t (sg_liveBytes m) (sg_deadBytes m) (sg_records m) (sg_syncedRecords m)
    (sg_lastAccess m) (sg_minVersion m).
Definition set_sealed (m : segmentMeta) : segmentMeta :=
  mkSegMeta (sg_id m) (sg_createdAt m) true (sg_tail m) (sg_liveBytes m) (sg_deadBytes m) (sg_records m) (sg_syncedRecords m)
    (sg_lastAccess m) (sg_minVersion m).
Definition add_dead (n : Z) (m : segmentMeta) : segmentMeta :=
  mkSegMeta (sg_id m) (sg_createdAt m) (sg_sealed m) (sg_tail m) (sg_liveBytes m) (sg_deadBytes m + n) (sg_records m)
    (sg_syncedRecords m) (sg_lastAccess m) (sg_minVersion m).
Definition add_record (payloadLen : Z) (synced : bool) (m : segmentMeta) : segmentMeta :=
  mkSegMeta (sg_id m) (sg_createdAt m) (sg_sealed m) (sg_tail m) (sg_liveBytes m + payloadLen) (sg_deadBytes m) (sg_records m + 1)
    (if synced then sg_syncedRecords m + 1 else sg_syncedRecords m) (sg_lastAccess m) (sg_minVersion m).
Definition touch (now : Z) (m : segmentMeta) : segmentMeta :=
  mkSegMeta (sg_id m) (sg_createdAt m) (sg_sealed m) (sg_tail m) (sg_liveBytes m) (sg_deadBytes m) (sg_records m)
    (sg_syncedRecords m) now (sg_minVersion m).

Definition noteMinVersion (v : Z) (m : segmentMeta) : segmentMeta :=
  if negb (sg_minVersion m =? 0) && (sg_minVersion m <=? v) then m
  else mkSegMeta (sg_id m) (sg_createdAt m) (sg_sealed m) (sg_tail m) (sg_liveBytes m) (sg_deadBytes m) (sg_records m)
         (sg_syncedRecords m) (sg_lastAccess m) v.

Definition nextVersion (s : Store) : Z := u64 (st_version s + 1).

Definition createSegment (now : Z) (s : Store) : (JErr + segmentMeta) * Store :=
  let id := st_nextSeg s in
  let s := set_next (u64 (id + 1)) (st_version s) s in
  match st_disk s !! id with
  | Some _ => (inl ErrSegmentExists, s)
  | None =>
      let bytes := encodeSegHeader id now 0 in
      (inr (mkSegMeta id now false segHeaderSize 0 0 0 0 0 0),
       add_counts 0 segHeaderSize 0 (set_disk (<[id := mkFile bytes (length bytes)]> (st_disk s)) s))
  end.

Definition sealInPlace (m : segmentMeta) (d : gmap Z File) : segmentMeta * gmap Z File :=
  (set_sealed m, sync_file (sg_id m) (write_file (sg_id m) 0 (encodeSegHeader (sg_id m) (sg_createdAt m) segFlagSealed)
                                        (sync_file (sg_id m) d))).

(** The segment whose tail a record goes to, and the file. *)
Definition put_record (m : segmentMeta) (h : recordHeader) (id : FileID) (payload : list Z) (d : gmap Z File)
    : segmentMeta * gmap Z File :=
  (set_tail (sg_tail m + recordLen (Z.of_nat (length id)) (Z.of_nat (length payload))) m,
   write_file (sg_id m) (sg_tail m) (encodeRecord h id payload) d).

Definition data_header (id : FileID) (fileOff version : Z) (synced : bool) (data : list Z) : recordHeader :=
  mkRecordHeader (Z.of_nat (length id)) fileOff (Z.of_nat (length data)) version (if synced then flagSynced else 0).
Definition tomb_header (id : FileID) (version : Z) : recordHeader :=
  mkRecordHeader (Z.of_nat (length id)) 0 0 version flagTombstone.
Definition trunc_header (id : FileID) (version newSize : Z) : recordHeader :=
  mkRecordHeader (Z.of_nat (length id)) newSize 0 version flagTruncate.

Definition writeDataRecord (m : segmentMeta) (id : FileID) (fileOff version : Z) (synced : bool) (data : list Z) (d : gmap Z File)
    : segmentMeta * gmap Z File := put_record m (data_header id fileOff version synced data) id data d.
Definition writeTombstoneRecord (m : segmentMeta) (id : FileID) (version : Z) (d : gmap Z File) : segmentMeta * gmap Z File :=
  put_record m (tomb_header id version) id [] d.
Definition writeTruncateRecord (m : segmentMeta) (id : FileID) (version newSize : Z) (d : gmap Z File) : segmentMeta * gmap Z File :=
  put_record m (trunc_header id version newSize) id [] d.

(** ** Shards *)

Definition fnvOffset64 : Z := 14695981039346656037.
Definition fnvPrime64 : Z := 1099511628211.
Definition fnv1a (s : list Z) : Z := fold_left (fun h b => u64 (Z.lxor h b * fnvPrime64)) s fnvOffset64.

Definition shardIndex (s : Store) (id : FileID) : nat :=
  Z.to_nat (Z.land (fnv1a id) (Z.of_nat (ShardCount (st_cfg s)) - 1)).

Definition zero_meta : segmentMeta := mkSegMeta 0 0 false 0 0 0 0 0 0 0.
Definition newShard (active : segmentMeta) : shard := mkShard active ∅ ∅.

Definition shard_at (s : Store) (i : nat) : shard := default (newShard zero_meta) (st_shards s !! i).
Definition shardFor (s : Store) (id : FileID) : shard := shard_at s (shardIndex s id).
Definition put_shard (i : nat) (sh : shard) (s : Store) : Store := set_shards (<[i := sh]> (st_shards s)) s.

Definition segment (sh : shard) (id : Z) : option segmentMeta :=
  if sg_id (sh_active sh) =? id then Some (sh_active sh) else sh_sealed sh !! id.

Definition set_active (m : segmentMeta) (sh : shard) : shard := mkShard m (sh_sealed sh) (sh_index sh).
Definition set_index (ix : gmap FileID fileIndex) (sh : shard) : shard := mkShard (sh_active sh) (sh_sealed sh) ix.
Definition set_sealeds (l : gmap Z segmentMeta) (sh : shard) : shard := mkShard (sh_active sh) l (sh_index sh).

Definition upd_segment (id : Z) (f : segmentMeta -> segmentMeta) (sh : shard) : shard :=
  if sg_id (sh_active sh) =? id then set_active (f (sh_active sh)) sh else set_sealeds (alter f id (sh_sealed sh)) sh.

(** Bytes that died, charged to their segments. *)
Definition charge (dead : list segDead) (sh : shard) : shard :=
  fold_left (fun sh d => upd_segment (sd_seg d) (add_dead (sd_bytes d)) sh) dead sh.

(** The index of a file; an unknown file has none. *)
Definition ivs_of (sh : shard) (id : FileID) : list interval :=
  match sh_index sh !! id with Some fi => fi_ivs fi | None => [] end.

Definition put_ivs (id : FileID) (kept : list interval) (ix : gmap FileID fileIndex) : gmap FileID fileIndex :=
  match kept with
  | [] => delete id ix
  | _ => alter (fun fi => mkFileIndex kept (fi_firstDirtyNanos fi)) id ix
  end.

(** The active segment is sealed and a fresh one opened. *)
Definition sealSegment (now : Z) (i : nat) (s : Store) : (JErr + unit) * Store :=
  let sh := shard_at s i in
  let '(old, d) := sealInPlace (sh_active sh) (st_disk s) in
  let sh := mkShard (sh_active sh) (<[sg_id old := old]> (sh_sealed sh)) (sh_index sh) in
  let s := set_disk d s in
  match createSegment now s with
  | (inl e, s) => (inl e, put_shard i (set_active old sh) s)
  | (inr seg, s) => (inr tt, put_shard i (set_active seg sh) s)
  end.

Definition rotate (now : Z) (i : nat) (recLen : Z) (s : Store) : (JErr + unit) * Store :=
  if sg_tail (sh_active (shard_at s i)) + recLen >? SegmentSize (st_cfg s) then sealSegment now i s else (inr tt, s).

(** ** Appending *)

Definition maxFileIDLen : Z := 2 ^ 16 - 1.
Definition maxPayloadLen : Z := 2 ^ 32 - 1.

(** The part of [appendRecord] under the shard lock. *)
Definition append_in_shard (now : Z) (id : FileID) (offset : Z) (data : list Z) (synced : bool) (s : Store) : Store :=
  let i := shardIndex s id in
  let sh := shard_at s i in
  let seg := sh_active sh in
  let len := Z.of_nat (length data) in
  let recLen := recordLen (Z.of_nat (length id)) len in
  let version := nextVersion s in
  let segOff := sg_tail seg in
  let payloadOff := segOff + recordHeaderSize + Z.of_nat (length id) in
  let '(seg, d) := writeDataRecord seg id offset version synced data (st_disk s) in
  let seg := touch now (noteMinVersion version (add_record len synced seg)) in
  let fi := default (mkFileIndex [] 0) (sh_index sh !! id) in
  let r := insert (fi_ivs fi)
             (mkInterval offset len version (mkLoc (sg_id seg) payloadOff len) segOff synced false) in
  let dirtyDelta := in_dirtyAdded r - in_dirtyRemoved r + (if synced then 0 else len) in
  let first := if (fi_firstDirtyNanos fi =? 0) && (negb synced || (0 <? in_dirtyAdded r)) then now else fi_firstDirtyNanos fi in
  let sh := charge (in_dead r) (set_index (<[id := mkFileIndex (in_ivs r) first]> (sh_index sh)) (set_active seg sh)) in
  add_counts dirtyDelta recLen 1 (put_shard i sh (set_disk d (set_next (st_nextSeg s) version s))).

(** [ensureSpace] is the capacity gate of the write path ([JournalReclaim]). *)
Definition appendRecord (ensureSpace : Z -> Z -> Store -> (JErr + unit) * Store)
    (now : Z) (id : FileID) (offset : Z) (data : list Z) (synced : bool) (s : Store) : (JErr + unit) * Store :=
  let recLen := recordLen (Z.of_nat (length id)) (Z.of_nat (length data)) in
  if st_closed s then (inl errClosed, s)
  else if (length data =? 0)%nat then (inr tt, s)
  else if offset <? 0 then (inl ErrNegativeOffset, s)
  else match ensureSpace now recLen s with
  | (inl e, s) => (inl e, s)
  | (inr _, s) =>
      if Z.of_nat (length id) >? maxFileIDLen then (inl ErrFileIDTooLong, s)
      else if Z.of_nat (length data) >? maxPayloadLen then (inl ErrPayloadTooLong, s)
      else if recLen >? SegmentSize (st_cfg s) - segHeaderSize then (inl ErrRecordTooBig, s)
      else match rotate now (shardIndex s id) recLen s with
      | (inl e, s) => (inl e, s)
      | (inr _, s) => (inr tt, append_in_shard now id offset data synced s)
      end
  end.

(** A tombstone or a truncate marker, made durable at once. *)
Definition append_marker (now : Z) (id : FileID) (write : segmentMeta -> Z -> gmap Z File -> segmentMeta * gmap Z File)
    (s : Store) : (JErr + Z) * Store :=
  let recLen := recordLen (Z.of_nat (length id)) 0 in
  if Z.of_nat (length id) >? maxFileIDLen then (inl ErrFileIDTooLong, s)
  else
    let i := shardIndex s id in
    match rotate now i recLen s with
    | (inl e, s) => (inl e, s)
    | (inr _, s) =>
        let version := nextVersion s in
        let sh := shard_at s i in
        let '(seg, d) := write (sh_active sh) version (st_disk s) in
        let seg := noteMinVersion version seg in
        (inr version, put_shard i (set_active seg sh) (set_disk (sync_file (sg_id seg) d) (set_next (st_nextSeg s) version s)))
    end.

Definition appendTombstone (now : Z) (id : FileID) : Store -> (JErr + Z) * Store :=
  append_marker now id (fun seg version => writeTombstoneRecord seg id version).
Definition appendTruncateMarker (now : Z) (id : FileID) (newSize : Z) : Store -> (JErr + Z) * Store :=
  append_marker now id (fun seg version => writeTruncateRecord seg id version newSize).

(** ** Delete, Truncate, Commit *)

(** What [Delete] and [Truncate] do to the index once their marker is durable. *)
Definition cut_index (id : FileID) (cut : list interval -> list interval * Z * list segDead) (s : Store) : Store :=
  let i := shardIndex s id in
  let sh := shard_at s i in
  match sh_index sh !! id with
  | None => s
  | Some fi =>
      let '(kept, dirty, dead) := cut (fi_ivs fi) in
      add_counts (- dirty) 0 0 (put_shard i (charge dead (set_index (put_ivs id kept (sh_index sh)) sh)) s)
  end.

(** [reclaim] is [reclaimEmptied] ([JournalReclaim]); its error is ignored. *)
Definition Delete (reclaim : Z -> nat -> Store -> Store) (now : Z) (id : FileID) (s : Store) : (JErr + unit) * Store :=
  if st_closed s then (inl errClosed, s)
  else match appendTombstone now id s with
  | (inl e, s) => (inl e, s)
  | (inr tombVer, s) => (inr tt, reclaim now (shardIndex s id) (cut_index id (fun ivs => bury ivs tombVer) s))
  end.

Definition Truncate (now : Z) (id : FileID) (newSize : Z) (s : Store) : (JErr + unit) * Store :=
  if st_closed s then (inl errClosed, s)
  else if newSize <? 0 then (inl ErrNegativeSize, s)
  else if negb (past (ivs_of (shardFor s id) id) newSize) then (inr tt, s)
  else match appendTruncateMarker now id newSize s with
  | (inl e, s) => (inl e, s)
  | (inr truncVer, s) => (inr tt, cut_index id (fun ivs => clip ivs truncVer newSize) s)
  end.

(** One fsync of the active segment; [JournalCommit] has the protocol that shares it. *)
Definition Commit (id : FileID) (s : Store) : (JErr + unit) * Store :=
  if st_closed s then (inl errClosed, s)
  else (inr tt, set_disk (sync_file (sg_id (sh_active (shardFor s id))) (st_disk s)) s).

Definition SeedCold (id : FileID) (offset len : Z) (s : Store) : (JErr + unit) * Store :=
  if st_closed s then (inl errClosed, s)
  else if len <=? 0 then (inr tt, s)
  else
    let i := shardIndex s id in
    let sh := shard_at s i in
    let version := nextVersion s in
    let fi := default (mkFileIndex [] 0) (sh_index sh !! id) in
    let r := insert (fi_ivs fi) (mkInterval offset len version zeroLoc 0 true true) in
    (inr tt, put_shard i (set_index (<[id := mkFileIndex (in_ivs r) (fi_firstDirtyNanos fi)]> (sh_index sh)) sh)
               (set_next (st_nextSeg s) version s)).

Definition store_FileSize (s : Store) (id : FileID) : option Z :=
  (fun fi => FileSize (fi_ivs fi)) <$> sh_index (shardFor s id) !! id.

Definition ListFiles (s : Store) : list FileID := st_shards s ≫= fun sh => (map_to_list (sh_index sh)).*1.

(** ** Reading *)

(** One piece of the plan: its bytes and whether it is cold. *)
Definition read_piece (s : Store) (sh : shard) (p : piece) : (JErr + (list Z * bool)) :=
  let n := p_dstEnd p - p_dstStart p in
  if p_hole p then inr (replicate (Z.to_nat n) 0, false)
  else if p_cold p then inr (replicate (Z.to_nat n) 0, true)
  else match segment sh (sl_SegmentID (p_loc p)), st_disk s !! sl_SegmentID (p_loc p) with
  | Some _, Some f =>
      match ReadAt (fl_bytes f) (sl_Offset (p_loc p) + p_subOff p) n with
      | inr b => inr (b, false)
      | inl _ => inl ErrRead
      end
  | _, _ => inl ErrUnknownSegment
  end.

Definition verifiedRead (s : Store) (sh : shard) (id : FileID) (p : piece) : (JErr + (list Z * bool)) :=
  let n := p_dstEnd p - p_dstStart p in
  if p_hole p then inr (replicate (Z.to_nat n) 0, false)
  else if p_cold p then inr (replicate (Z.to_nat n) 0, true)
  else match segment sh (sl_SegmentID (p_loc p)), st_disk s !! sl_SegmentID (p_loc p) with
  | Some _, Some f =>
      match readRecordAt (fl_bytes f) (p_recOff p) (SegmentSize (st_cfg s)) with
      | inl _ => inl CorruptRangeError
      | inr (rec, _) =>
          let payloadStart := p_recOff p + recordHeaderSize + Z.of_nat (length (rec_fileID rec)) in
          let within := sl_Offset (p_loc p) + p_subOff p - payloadStart in
          if negb (bool_decide (rec_fileID rec = id)) then inl CorruptRangeError
          else if (within <? 0) || (within + n >? Z.of_nat (length (rec_payload rec))) then inl CorruptRangeError
          else inr (slice (Z.to_nat within) (Z.to_nat n) (rec_payload rec), false)
      end
  | _, _ => inl ErrUnknownSegment
  end.

Fixpoint read_pieces (read : piece -> (JErr + (list Z * bool))) (ps : list piece) : JErr + (list Z * bool) :=
  match ps with
  | [] => inr ([], false)
  | p :: ps =>
      match read p with
      | inl e => inl e
      | inr (b, cold) =>
          match read_pieces read ps with
          | inl e => inl e
          | inr (bs, colds) => inr (b ++ bs, cold || colds)
          end
      end
  end.

(** The bytes read and whether some of them are cold; access times are left out. *)
Definition store_ReadAt (verifyReads : bool) (id : FileID) (offset n : Z) (s : Store) : JErr + (list Z * bool) :=
  if st_closed s then inl errClosed
  else if offset <? 0 then inl ErrNegativeOffset
  else if n =? 0 then inr ([], false)
  else
    let sh := shardFor s id in
    match sh_index sh !! id with
    | None => inr (replicate (Z.to_nat n) 0, false)
    | Some fi => read_pieces (if verifyReads then verifiedRead s sh id else read_piece s sh) (plan (fi_ivs fi) offset n)
    end.
