(* ===== verification/JournalReclaim.v ===== *)
(** * The journal store: eviction and garbage collection
    ([pkg/block/journal/reclaim.go])

    Whole segments are dropped when they hold nothing that is needed locally: eviction
    marks their bytes cold, garbage collection first copies the live ones elsewhere.
    Passes are steps of their own: the [busy] flags that keep concurrent passes off
    each other's segments are not needed and left out, and so are read guards. *)

From S2P Require Import Prelude.
From S2P Require Import HoleMap.
From S2P Require Import JournalIndex.
From S2P Require Import JournalRecord.
From S2P Require Import JournalStore.

(** ** Which segments may go *)

Definition evictable (m : segmentMeta) : bool := sg_sealed m && (sg_syncedRecords m =? sg_records m).

Definition pinned (s : Store) (m : segmentMeta) : bool :=
  negb (st_pinVersion s =? 0) && (negb (sg_minVersion m =? 0) && (sg_minVersion m <=? st_pinVersion s)).

(** [retireSegment]: the bytes freed. *)
Definition retireSegment (i : nat) (m : segmentMeta) (s : Store) : Z * Store :=
  let sh := shard_at s i in
  (sg_tail m, add_counts 0 (- sg_tail m) 0
    (set_disk (delete (sg_id m) (st_disk s)) (put_shard i (set_sealeds (delete (sg_id m) (sh_sealed sh)) sh) s))).

(** ** Eviction *)

Definition colder (best : option (nat * segmentMeta)) (c : nat * segmentMeta) : option (nat * segmentMeta) :=
  match best with
  | None => Some c
  | Some b => if sg_lastAccess c.2 <? sg_lastAccess b.2 then Some c else best
  end.

Definition sealed_list (sh : shard) : list segmentMeta := (map_to_list (sh_sealed sh)).*2.

Definition claimColdestEvictable (s : Store) : option (nat * segmentMeta) :=
  fold_left colder
    (imap (fun i sh => (i, sh)) (st_shards s) ≫= fun '(i, sh) =>
       (fun m => (i, m)) <$> List.filter (fun m => evictable m && negb (pinned s m)) (sealed_list sh))
    None.

Definition set_cold (iv : interval) : interval :=
  mkInterval (iv_fileOff iv) (iv_length iv) (iv_version iv) (iv_loc iv) (iv_recOff iv) (iv_synced iv) true.

Definition map_ivs (f : interval -> interval) (ix : gmap FileID fileIndex) : gmap FileID fileIndex :=
  (fun fi => mkFileIndex (map f (fi_ivs fi)) (fi_firstDirtyNanos fi)) <$> ix.

Definition evictSegment (i : nat) (m : segmentMeta) (s : Store) : Z * Store :=
  let sh := shard_at s i in
  let cool := fun iv => if (sl_SegmentID (iv_loc iv) =? sg_id m) && negb (iv_cold iv) then set_cold iv else iv in
  retireSegment i m (put_shard i (set_index (map_ivs cool (sh_index sh)) sh) s).

(** An active segment all of whose records are synced. *)
Definition synced_active (s : Store) (sh : shard) : bool :=
  let act := sh_active sh in
  (0 <? sg_records act) && (sg_syncedRecords act =? sg_records act) && negb (pinned s act).

Fixpoint sealSyncedActives_from (now : Z) (i n : nat) (s : Store) : (JErr + bool) * Store :=
  match n with
  | O => (inr false, s)
  | S n =>
      if synced_active s (shard_at s i) then
        match sealSegment now i s with
        | (inl e, s) => (inl e, s)
        | (inr _, s) =>
            match sealSyncedActives_from now (S i) n s with
            | (inl e, s) => (inl e, s)
            | (inr _, s) => (inr true, s)
            end
        end
      else sealSyncedActives_from now (S i) n s
  end.

Definition sealSyncedActives (now : Z) (s : Store) : (JErr + bool) * Store :=
  sealSyncedActives_from now 0 (length (st_shards s)) s.

Record EvictResult := mkEvictResult { SegmentsEvicted : Z; BytesFreed : Z }.

Definition sealed_count (s : Store) : nat := sum_list_with (fun sh => size (sh_sealed sh)) (st_shards s).

(** Every round but the one that seals the active segments drops a segment. *)
Fixpoint evict_loop (fuel : nat) (now targetBytes : Z) (allowActiveSeal : bool) (res : EvictResult) (s : Store)
    : (JErr + EvictResult) * Store :=
  match fuel with
  | O => (inl ErrUnfinished, s)
  | S fuel =>
      match claimColdestEvictable s with
      | None =>
          if allowActiveSeal then
            match sealSyncedActives now s with
            | (inl e, s) => (inl e, s)
            | (inr true, s) => evict_loop fuel now targetBytes false res s
            | (inr false, s) => (inr res, s)
            end
          else (inr res, s)
      | Some (i, m) =>
          let '(freed, s) := evictSegment i m s in
          let res := mkEvictResult (SegmentsEvicted res + 1) (BytesFreed res + freed) in
          if (targetBytes <=? 0) || (targetBytes <=? BytesFreed res) then (inr res, s)
          else evict_loop fuel now targetBytes allowActiveSeal res s
      end
  end.

Definition evict (now targetBytes : Z) (allowActiveSeal : bool) (s : Store) : (JErr + EvictResult) * Store :=
  if st_closed s then (inl errClosed, s)
  else if st_evictionDisabled s then (inr (mkEvictResult 0 0), s)
  else evict_loop (S (S (sealed_count s + length (st_shards s)))) now targetBytes allowActiveSeal (mkEvictResult 0 0) s.

Definition Evict (now targetBytes : Z) (s : Store) : (JErr + EvictResult) * Store := evict now targetBytes true s.

(** The gate of the write path.  A writer that finds nothing to evict waits for the
    carver and tries again, or gives up; here it gives up, and a writer that waited is
    one that came later. *)
Fixpoint ensure_loop (fuel : nat) (now needed : Z) (s : Store) : (JErr + unit) * Store :=
  if st_diskBytes s + needed <=? MaxLocalBytes (st_cfg s) then (inr tt, s)
  else match fuel with
  | O => (inl ErrUnfinished, s)
  | S fuel =>
      match evict now (st_diskBytes s + needed - MaxLocalBytes (st_cfg s)) false s with
      | (inl e, s) => (inl e, s)
      | (inr res, s) => if SegmentsEvicted res =? 0 then (inl ErrLocalStoreFull, s) else ensure_loop fuel now needed s
      end
  end.

Definition ensureSpace (now needed : Z) (s : Store) : (JErr + unit) * Store :=
  if MaxLocalBytes (st_cfg s) <=? 0 then (inr tt, s) else ensure_loop (S (sealed_count s)) now needed s.

(** Nothing is evicted while the cap is not reached. *)
Lemma ensureSpace_fits now needed s :
  MaxLocalBytes (st_cfg s) <= 0 \/ st_diskBytes s + needed <= MaxLocalBytes (st_cfg s) -> ensureSpace now needed s = (inr tt, s).
Proof.
  intros H. unfold ensureSpace. destruct (Z.leb_spec (MaxLocalBytes (st_cfg s)) 0); [reflexivity|]. cbn [ensure_loop].
  destruct (Z.leb_spec (st_diskBytes s + needed) (MaxLocalBytes (st_cfg s))); [reflexivity|lia].
Qed.

(** ** Segments a deletion emptied *)

(** The segments that live intervals point into. *)
Definition live_segs (sh : shard) : gset Z :=
  list_to_set ((map_to_list (sh_index sh)).*2 ≫= fun fi =>
    (fun iv => sl_SegmentID (iv_loc iv)) <$> List.filter (fun iv => negb (iv_cold iv)) (fi_ivs fi)).

Definition emptied (s : Store) (live : gset Z) (sh : shard) : list segmentMeta :=
  List.filter (fun m => negb (bool_decide (sg_id m ∈ live)) && evictable m && negb (pinned s m)) (sealed_list sh).

Definition retire_all (i : nat) (l : list segmentMeta) (s : Store) : Store :=
  fold_left (fun s m => (retireSegment i m s).2) l s.

Definition reclaimEmptied (now : Z) (i : nat) (s : Store) : Store :=
  let sh := shard_at s i in
  let live := live_segs sh in
  let r := if synced_active s sh && negb (bool_decide (sg_id (sh_active sh) ∈ live)) then sealSegment now i s else (inr tt, s) in
  match r with
  | (inl _, s) => s
  | (inr _, s) => retire_all i (emptied s live (shard_at s i)) s
  end.

(** ** Garbage collection *)

(** Live bytes of a segment, from the index. *)
Definition live_in (sh : shard) (id : Z) : Z :=
  foldr Z.add 0 ((map_to_list (sh_index sh)).*2 ≫= fun fi =>
    (fun iv => iv_length iv) <$> List.filter (fun iv => negb (iv_cold iv) && (sl_SegmentID (iv_loc iv) =? id)) (fi_ivs fi)).

(** The dead fraction of a segment that may be repacked. *)
Definition dead_fraction (s : Store) (sh : shard) (m : segmentMeta) : option (Z * Z) :=
  if pinned s m || (sg_deadBytes m <=? 0) then None
  else
    let occupied := sg_liveBytes m in
    if occupied <=? 0 then Some (1, 1)
    else
      let dead := occupied - live_in sh (sg_id m) in
      if dead <=? 0 then None else Some (dead, occupied).

Definition deader (s : Store) (sh : shard) (best : option segmentMeta * (Z * Z)) (m : segmentMeta) : option segmentMeta * (Z * Z) :=
  match dead_fraction s sh m with
  | None => best
  | Some (n, d) => if best.2.1 * d <? n * best.2.2 then (Some m, (n, d)) else best
  end.

Definition pickVictim (force : bool) (sh : shard) (s : Store) : option segmentMeta :=
  let '(best, (n, d)) := fold_left (deader s sh) (sealed_list sh) (None, (0, 1)) in
  if negb force && (n * gcRatioDen (st_cfg s) <? gcRatioNum (st_cfg s) * d) then None else best.

Record liveRec := mkLiveRec {
  lr_id : FileID;
  lr_fileOff : Z;
  lr_length : Z;
  lr_version : Z;
  lr_synced : bool;
  lr_srcOff : Z;
}.

Definition findMove (moves : list liveRec) (lo hi ver : Z) : option nat :=
  fst <$> list_find (fun m => lr_version m = ver /\ lr_fileOff m <= lo /\ hi <= lr_fileOff m + lr_length m) moves.

Inductive markRec :=
  | MarkTombstone (id : FileID) (version : Z)
  | MarkTruncate (id : FileID) (version newSize : Z).

Definition marker_of (rec : record) : option markRec :=
  let h := rec_header rec in
  if has (rh_Flags h) flagTombstone then Some (MarkTombstone (rec_fileID rec) (rh_Version h))
  else if has (rh_Flags h) flagTruncate then Some (MarkTruncate (rec_fileID rec) (rh_Version h) (i64 (rh_FileOffset h)))
  else None.

Definition segment_records (s : Store) (id : Z) : list record :=
  match st_disk s !! id with
  | Some f => (scanValidRecords (fl_bytes f) (SegmentSize (st_cfg s)) (SegmentSize (st_cfg s))).1
  | None => []
  end.

Definition victimMarkers (s : Store) (m : segmentMeta) : list markRec := omap marker_of (segment_records s (sg_id m)).

(** The live intervals of the victim. *)
Definition victim_moves (sh : shard) (victim : Z) : list liveRec :=
  map_to_list (sh_index sh) ≫= fun '(id, fi) =>
    (fun iv => mkLiveRec id (iv_fileOff iv) (iv_length iv) (iv_version iv) (iv_synced iv) (sl_Offset (iv_loc iv))) <$>
      List.filter (fun iv => negb (iv_cold iv) && (sl_SegmentID (iv_loc iv) =? victim)) (fi_ivs fi).

(** Copies the survivors to the target; their payload offsets there. *)
Fixpoint copy_moves (src : list Z) (moves : list liveRec) (target : segmentMeta) (d : gmap Z File)
    : JErr + (list Z * segmentMeta * gmap Z File) :=
  match moves with
  | [] => inr ([], target, d)
  | m :: moves =>
      if (lr_length m <? 0) || (lr_length m >? maxPayloadLen) then inl ErrPayloadTooLong
      else match ReadAt src (lr_srcOff m) (lr_length m) with
      | inl _ => inl ErrRead
      | inr data =>
          let payloadOff := sg_tail target + recordHeaderSize + Z.of_nat (length (lr_id m)) in
          let '(target, d) := writeDataRecord target (lr_id m) (lr_fileOff m) (lr_version m) (lr_synced m) data d in
          match copy_moves src moves (noteMinVersion (lr_version m) target) d with
          | inl e => inl e
          | inr (offs, target, d) => inr (payloadOff :: offs, target, d)
          end
      end
  end.

Definition copy_marker (td : segmentMeta * gmap Z File) (mk : markRec) : segmentMeta * gmap Z File :=
  match mk with
  | MarkTombstone id v => let '(t, d) := writeTombstoneRecord td.1 id v td.2 in (noteMinVersion v t, d)
  | MarkTruncate id v n => let '(t, d) := writeTruncateRecord td.1 id v n td.2 in (noteMinVersion v t, d)
  end.

(** An interval of the victim now points into the target; [None] when no move covers it. *)
Definition repoint (victim target : Z) (moves : list liveRec) (newOff : list Z) (iv : interval) : option interval :=
  if iv_cold iv || negb (sl_SegmentID (iv_loc iv) =? victim) then Some iv
  else
    mi ← findMove moves (iv_fileOff iv) (iend iv) (iv_version iv);
    m ← moves !! mi; off ← newOff !! mi;
    Some (mkInterval (iv_fileOff iv) (iv_length iv) (iv_version iv)
            (mkLoc target (off + (iv_fileOff iv - lr_fileOff m)) (sl_Length (iv_loc iv)))
            (off - recordHeaderSize - Z.of_nat (length (lr_id m))) (iv_synced iv) (iv_cold iv)).

Definition points_into (victim : Z) (sh : shard) : bool :=
  existsb (fun fi => existsb (fun iv => negb (iv_cold iv) && (sl_SegmentID (iv_loc iv) =? victim)) (fi_ivs fi))
    (map_to_list (sh_index sh)).*2.

Definition dropVictim (i : nat) (victim : segmentMeta) (occupied : Z) (s : Store) : Z * Store :=
  if points_into (sg_id victim) (shard_at s i) then (0, s) else (occupied, (retireSegment i victim s).2).

(** The survivors and the markers of the victim in a sealed target: [bytes durable]. *)
Definition repack_copy (now : Z) (moves : list liveRec) (markers : list markRec) (victim : segmentMeta) (s : Store)
    : (JErr + (list Z * segmentMeta)) * Store :=
  match createSegment now s with
  | (inl e, s) => (inl e, s)
  | (inr target, s) =>
      let src := match st_disk s !! sg_id victim with Some f => fl_bytes f | None => [] end in
      match copy_moves src moves target (st_disk s) with
      | inl e => (inl e, set_disk (delete (sg_id target) (st_disk s)) s)
      | inr (newOff, target, d) =>
          let '(target, d) := fold_left copy_marker markers (target, d) in
          let '(target, d) := sealInPlace target d in
          let relocated := foldr Z.add 0 (map lr_length moves) in
          let syncedCount := Z.of_nat (length (List.filter lr_synced moves)) in
          let target := mkSegMeta (sg_id target) (sg_createdAt target) (sg_sealed target) (sg_tail target) relocated
                          (sg_deadBytes target) (sg_records target) syncedCount (sg_lastAccess target) (sg_minVersion target) in
          (inr (newOff, target), add_counts 0 (sg_tail target - segHeaderSize) 0 (set_disk d s))
      end
  end.

(** The index points to the target, then the victim goes. *)
Definition repack_finish (i : nat) (moves : list liveRec) (newOff : list Z) (target victim : segmentMeta) (s : Store) : Z * Store :=
  let sh := shard_at s i in
  let re := repoint (sg_id victim) (sg_id target) moves newOff in
  let s1 := put_shard i (mkShard (sh_active sh) (<[sg_id target := target]> (sh_sealed sh))
                           (map_ivs (fun iv => default iv (re iv)) (sh_index sh))) s in
  if existsb (fun fi => existsb (fun iv => bool_decide (re iv = None)) (fi_ivs fi)) (map_to_list (sh_index sh)).*2 then (0, s1)
  else (Z.max 0 (sg_liveBytes victim - foldr Z.add 0 (map lr_length moves)), (retireSegment i victim s1).2).

Definition repackSegment (now : Z) (i : nat) (victim : segmentMeta) (s : Store) : (JErr + Z) * Store :=
  let moves := victim_moves (shard_at s i) (sg_id victim) in
  let markers := victimMarkers s victim in
  match moves, markers with
  | [], [] => let '(n, s) := dropVictim i victim (sg_liveBytes victim) s in (inr n, s)
  | _, _ =>
      match repack_copy now moves markers victim s with
      | (inl e, s) => (inl e, s)
      | (inr (newOff, target), s) => let '(n, s) := repack_finish i moves newOff target victim s in (inr n, s)
      end
  end.

(** Every round drops a segment and the target has no dead bytes: the sealed segments
    bound the rounds.  The retry on a victim that another pass has claimed is left out:
    passes run one at a time here. *)
Fixpoint gc_loop (fuel : nat) (now : Z) (i : nat) (force : bool) (s : Store) : (JErr + Z) * Store :=
  match fuel with
  | O => (inl ErrUnfinished, s)
  | S fuel =>
      match pickVictim force (shard_at s i) s with
      | None => (inr 0, s)
      | Some victim =>
          match repackSegment now i victim s with
          | (inl e, s) => (inl e, s)
          | (inr net, s) =>
              if force then (inr net, s)
              else match gc_loop fuel now i force s with
              | (inl e, s) => (inl e, s)
              | (inr more, s) => (inr (net + more), s)
              end
          end
      end
  end.

Definition gcShard (now : Z) (i : nat) (force : bool) (s : Store) : (JErr + Z) * Store :=
  gc_loop (S (size (sh_sealed (shard_at s i)))) now i force s.

Fixpoint gc_shards (now : Z) (i n : nat) (force : bool) (s : Store) : (JErr + Z) * Store :=
  match n with
  | O => (inr 0, s)
  | S n =>
      match gcShard now i force s with
      | (inl e, s) => (inl e, s)
      | (inr net, s) =>
          match gc_shards now (S i) n force s with
          | (inl e, s) => (inl e, s)
          | (inr more, s) => (inr (net + more), s)
          end
      end
  end.

Definition GC (now : Z) (force : bool) (s : Store) : (JErr + Z) * Store :=
  if st_closed s then (inl errClosed, s) else gc_shards now 0 (length (st_shards s)) force s.

(** ** The whole operations *)

Definition WriteAt (now : Z) (id : FileID) (offset : Z) (data : list Z) : Store -> (JErr + unit) * Store :=
  appendRecord ensureSpace now id offset data false.
Definition Hydrate (now : Z) (id : FileID) (offset : Z) (data : list Z) : Store -> (JErr + unit) * Store :=
  appendRecord ensureSpace now id offset data true.
Definition store_Delete (now : Z) (id : FileID) : Store -> (JErr + unit) * Store := Delete reclaimEmptied now id.
