(* ===== verification/JournalRecover.v ===== *)
(** * The journal store: opening, recovery, point-in-time restore
    ([pkg/block/journal/recovery.go], [Open] and [RestoreToVersion] of [store.go])

    Recovery rebuilds the shards from the segment files.  The age of a file, which the
    sweep of orphans looks at, is a parameter; the sidecar files are left out. *)

From S2P Require Import Prelude.
From S2P Require Import HoleMap.
From S2P Require Import JournalIndex.
From S2P Require Import JournalRecord.
From S2P Require Import JournalStore.
From S2P Require Import JournalReclaim.

Definition minSegmentSize : Z := Z.shiftl 1 20.
Definition orphanMinAge : Z := 5 * 60 * 10 ^ 9.

Inductive OpenError := ErrShardCount | ErrSegmentSize | ErrCreate (e : JErr) | Panic.

(** ** Replaying segments *)

Record truncMark := mkTruncMark { tm_version : Z; tm_newSize : Z }.

(** The markers of a log: the highest tombstone and truncate marker of every file. *)
Record Marks := mkMarks { mk_tombstones : gmap FileID Z; mk_truncations : gmap FileID truncMark }.

Definition note_marker (rec : record) (ms : Marks) : Marks :=
  let h := rec_header rec in
  let fid := rec_fileID rec in
  if has (rh_Flags h) flagTombstone then
    if rh_Version h >? default 0 (mk_tombstones ms !! fid)
    then mkMarks (<[fid := rh_Version h]> (mk_tombstones ms)) (mk_truncations ms) else ms
  else if has (rh_Flags h) flagTruncate then
    match mk_truncations ms !! fid with
    | Some cur => if rh_Version h >? tm_version cur
                  then mkMarks (mk_tombstones ms) (<[fid := mkTruncMark (rh_Version h) (i64 (rh_FileOffset h))]> (mk_truncations ms))
                  else ms
    | None => mkMarks (mk_tombstones ms) (<[fid := mkTruncMark (rh_Version h) (i64 (rh_FileOffset h))]> (mk_truncations ms))
    end
  else ms.

Definition is_marker (rec : record) : bool :=
  has (rh_Flags (rec_header rec)) flagTombstone || has (rh_Flags (rec_header rec)) flagTruncate.

(** The interval a data record is replayed as. *)
Definition interval_of (seg : Z) (rec : record) : interval :=
  let h := rec_header rec in
  mkInterval (i64 (rh_FileOffset h)) (rh_PayloadLen h) (rh_Version h)
    (mkLoc seg (rec_segOff rec + recordHeaderSize + Z.of_nat (length (rec_fileID rec))) (rh_PayloadLen h))
    (rec_segOff rec) (has (rh_Flags h) flagSynced) false.

Definition replay_record (now : Z) (seg : Z) (rec : record) (ix : gmap FileID fileIndex) : gmap FileID fileIndex :=
  if is_marker rec then ix
  else
    let fid := rec_fileID rec in
    let fi := default (mkFileIndex [] 0) (ix !! fid) in
    let iv := interval_of seg rec in
    <[fid := mkFileIndex (in_ivs (insert (fi_ivs fi) iv))
               (if negb (iv_synced iv) && (fi_firstDirtyNanos fi =? 0) then now else fi_firstDirtyNanos fi)]> ix.

(** What the records of a segment add to a segment's counters. *)
Definition count_record (rec : record) (m : segmentMeta) : segmentMeta :=
  let m := noteMinVersion (rh_Version (rec_header rec)) m in
  if is_marker rec then m
  else add_record (rh_PayloadLen (rec_header rec)) (has (rh_Flags (rec_header rec)) flagSynced) m.

Definition count_records (recs : list record) (m : segmentMeta) : segmentMeta := fold_left (fun m r => count_record r m) recs m.

(** One shard while it is rebuilt. *)
Record Rebuilt := mkRebuilt {
  rb_active : option segmentMeta;
  rb_sealed : gmap Z segmentMeta;
  rb_index : gmap FileID fileIndex;
}.
Definition no_shard : Rebuilt := mkRebuilt None ∅ ∅.

Record Recovery := mkRecovery {
  rc_shards : list Rebuilt;
  rc_pool : list segmentMeta;
  rc_orphans : list Z;
  rc_maxVersion : Z;
  rc_marks : Marks;
  rc_disk : gmap Z File;
}.

(** A segment joins its shard.  A second unsealed segment takes over as active and
    demotes the first; the records are then counted on the first. *)
Definition attach (sealed : bool) (recs : list record) (m : segmentMeta) (b : Rebuilt) : Rebuilt :=
  if sealed then mkRebuilt (rb_active b) (<[sg_id m := count_records recs m]> (rb_sealed b)) (rb_index b)
  else match rb_active b with
  | None => mkRebuilt (Some (count_records recs m)) (rb_sealed b) (rb_index b)
  | Some a =>
      let '(act, dem) := if sg_id m >? sg_id a then (m, a) else (a, m) in
      mkRebuilt (Some act) (<[sg_id dem := count_records recs (set_sealed dem)]> (rb_sealed b)) (rb_index b)
  end.

Definition shard_slot (cfg : Config) (id : FileID) : nat := Z.to_nat (Z.land (fnv1a id) (Z.of_nat (ShardCount cfg) - 1)).

(** [fd.Truncate(validUpTo)], fsynced. *)
Definition truncate_file (id : Z) (n : Z) (d : gmap Z File) : gmap Z File :=
  alter (fun f => let b := take (Z.to_nat n) (fl_bytes f) in mkFile b (length b)) id d.

Definition recover_segment (cfg : Config) (now : Z) (rc : Recovery) (id : Z) : option Recovery :=
  let orphan := mkRecovery (rc_shards rc) (rc_pool rc) (rc_orphans rc ++ [id]) (rc_maxVersion rc) (rc_marks rc) (rc_disk rc) in
  match rc_disk rc !! id with
  | None => Some orphan
  | Some f =>
      match decodeSegHeader (take (Z.to_nat segHeaderSize) (fl_bytes f)) with
      | None => Some orphan
      | Some (hdrID, createdAt, flags) =>
          if negb (hdrID =? id) then Some orphan
          else
            let sealed := has flags segFlagSealed in
            let '(recs, validUpTo) := scanValidRecords (fl_bytes f) (SegmentSize cfg) (SegmentSize cfg) in
            let m := mkSegMeta id createdAt sealed validUpTo 0 0 0 0 0 0 in
            match recs with
            | [] =>
                if sealed then None
                else Some (mkRecovery (rc_shards rc) (rc_pool rc ++ [m]) (rc_orphans rc) (rc_maxVersion rc) (rc_marks rc) (rc_disk rc))
            | first :: _ =>
                let d := if negb sealed && (validUpTo <? Z.of_nat (length (fl_bytes f)))
                         then truncate_file id validUpTo (rc_disk rc) else rc_disk rc in
                let i := shard_slot cfg (rec_fileID first) in
                let b := attach sealed recs m (default no_shard (rc_shards rc !! i)) in
                let b := mkRebuilt (rb_active b) (rb_sealed b) (fold_left (fun ix r => replay_record now id r ix) recs (rb_index b)) in
                Some (mkRecovery (<[i := b]> (rc_shards rc)) (rc_pool rc) (rc_orphans rc)
                        (foldl (fun v r => Z.max v (rh_Version (rec_header r))) (rc_maxVersion rc) recs)
                        (fold_left (fun ms r => note_marker r ms) recs (rc_marks rc)) d)
            end
      end
  end.

(** ** Honouring the markers *)

(** The intervals recovery keeps of one file. *)
Definition honour (ms : Marks) (fid : FileID) (ivs : list interval) : list interval :=
  let ivs := match mk_tombstones ms !! fid with Some tv => (bury ivs tv).1.1 | None => ivs end in
  match mk_truncations ms !! fid with Some tm => (clip ivs (tm_version tm) (tm_newSize tm)).1.1 | None => ivs end.

Definition honour_index (ms : Marks) (ix : gmap FileID fileIndex) : gmap FileID fileIndex :=
  map_imap (fun fid fi => match honour ms fid (fi_ivs fi) with
                          | [] => None
                          | kept => Some (mkFileIndex kept (fi_firstDirtyNanos fi))
                          end) ix.

(** Dead bytes of a segment, from what is live. *)
Definition recount (sh : shard) (m : segmentMeta) : segmentMeta :=
  let dead := sg_liveBytes m - live_in sh (sg_id m) in
  if 0 <? dead then mkSegMeta (sg_id m) (sg_createdAt m) (sg_sealed m) (sg_tail m) (sg_liveBytes m) dead (sg_records m)
                      (sg_syncedRecords m) (sg_lastAccess m) (sg_minVersion m)
  else m.

Definition dirty_in (ix : gmap FileID fileIndex) : Z :=
  foldr Z.add 0 ((map_to_list ix).*2 ≫= fun fi =>
    (fun iv => iv_length iv) <$> List.filter (fun iv => negb (iv_cold iv) && negb (iv_synced iv)) (fi_ivs fi)).

(** ** Every shard gets an active segment *)

Definition choose_active (now : Z) (b : Rebuilt) (pool : list segmentMeta) (s : Store)
    : (JErr + (segmentMeta * list segmentMeta)) * Store :=
  match rb_active b, pool with
  | Some act, _ => (inr (act, pool), s)
  | None, m :: pool => (inr (m, pool), s)
  | None, [] => match createSegment now s with (inl e, s) => (inl e, s) | (inr seg, s) => (inr (seg, []), s) end
  end.

Definition shard_of (b : Rebuilt) (act : segmentMeta) : shard :=
  let sh := mkShard act (rb_sealed b) (rb_index b) in
  mkShard (recount sh act) (recount sh <$> rb_sealed b) (rb_index b).

Fixpoint staff (now : Z) (rebuilt : list Rebuilt) (pool : list segmentMeta) (s : Store) : (JErr + list segmentMeta) * Store :=
  match rebuilt with
  | [] => (inr pool, s)
  | b :: rebuilt =>
      match choose_active now b pool s with
      | (inl e, s) => (inl e, s)
      | (inr (act, pool), s) => staff now rebuilt pool (set_shards (st_shards s ++ [shard_of b act]) s)
      end
  end.

Definition disk_total (l : list shard) : Z :=
  foldr Z.add 0 (map (fun sh => sg_tail (sh_active sh) + foldr Z.add 0 (map sg_tail (sealed_list sh))) l).

Definition sweepOrphans (age : Z -> Z) (ids : list Z) (d : gmap Z File) : gmap Z File :=
  fold_left (fun d id => if age id <? orphanMinAge then d else delete id d) ids d.

Definition segment_ids (d : gmap Z File) : list Z := sort_by Z.ltb (map_to_list d).*1.

Definition recover_all (cfg : Config) (now : Z) (d : gmap Z File) : option Recovery :=
  fold_left (fun o id => rc ← o; recover_segment cfg now rc id) (segment_ids d)
    (Some (mkRecovery (replicate (ShardCount cfg) no_shard) [] [] 0 (mkMarks ∅ ∅) d)).

Definition max_id (d : gmap Z File) : Z := foldr Z.max 0 (map_to_list d).*1.

Definition recover (cfg : Config) (now : Z) (age : Z -> Z) (d : gmap Z File) : OpenError + Store :=
  match recover_all cfg now d with
  | None => inl Panic
  | Some rc =>
      let rebuilt := map (fun b => mkRebuilt (rb_active b) (rb_sealed b) (honour_index (rc_marks rc) (rb_index b))) (rc_shards rc) in
      let s := mkStore cfg [] (u64 (max_id d + 1)) (rc_maxVersion rc) 0
                 (foldr Z.add 0 (map (fun b => dirty_in (rb_index b)) rebuilt)) 0 0 false false (rc_disk rc) in
      match staff now rebuilt (rc_pool rc) s with
      | (inl e, _) => inl (ErrCreate e)
      | (inr spare, s) =>
          let s := set_disk (sweepOrphans age (rc_orphans rc ++ map sg_id spare) (st_disk s)) s in
          inr (mkStore cfg (st_shards s) (st_nextSeg s) (st_version s) 0 (st_unsynced s) (disk_total (st_shards s)) 0 false false (st_disk s))
      end
  end.

(** ** Opening *)

Definition defaultSegmentSize : Z := Z.shiftl 256 20.
Definition defaultShardCount : nat := 16.

(** The settings the store model reads; the default of [GCDeadRatioForce] is 0.5. *)
Definition withDefaults (c : Config) : Config :=
  mkConfig (if SegmentSize c <=? 0 then defaultSegmentSize else SegmentSize c)
    (if (ShardCount c =? 0)%nat then defaultShardCount else ShardCount c) (MaxLocalBytes c)
    (if gcRatioNum c <=? 0 then 1 else gcRatioNum c) (if gcRatioNum c <=? 0 then 2 else gcRatioDen c).

(** A float64 has 53 significant bits; a tie goes to the even neighbour. *)
Definition round53 (n : Z) : Z :=
  let e := Z.log2 n - 52 in
  if e <=? 0 then n
  else
    let q := Z.shiftr n e in
    let r := n - Z.shiftl q e in
    let half := Z.shiftl 1 (e - 1) in
    Z.shiftl (if (half <? r) || ((half =? r) && Z.odd q) then q + 1 else q) e.

(** [int64(float64(free) * 0.8)] for less than 2^63 free bytes: the float64 next to 0.8 is
    3602879701896397 / 2^52. *)
Definition free_share (free : Z) : Z := Z.shiftr (round53 (round53 free * 3602879701896397)) 52.

(** [free] is the answer of [diskFreeBytes], [None] when it fails: an unset cap becomes a
    share of the free space. *)
Definition with_cap (free : option Z) (c : Config) : Config :=
  if MaxLocalBytes c <=? 0 then
    match free with
    | Some n => if 0 <? n then mkConfig (SegmentSize c) (ShardCount c) (free_share n) (gcRatioNum c) (gcRatioDen c) else c
    | None => c
    end
  else c.

Definition settings (free : option Z) (c : Config) : Config := with_cap free (withDefaults c).

Definition open_dir (cfg : Config) (now : Z) (age : Z -> Z) (d : gmap Z File) : OpenError + Store :=
  if negb (Z.land (Z.of_nat (ShardCount cfg)) (Z.of_nat (ShardCount cfg) - 1) =? 0) then inl ErrShardCount
  else if SegmentSize cfg <? minSegmentSize then inl ErrSegmentSize
  else if bool_decide (d = ∅) then
    match staff now (replicate (ShardCount cfg) no_shard) [] (mkStore cfg [] 0 0 0 0 0 0 false false ∅) with
    | (inl e, _) => inl (ErrCreate e)
    | (inr _, s) => inr s
    end
  else recover cfg now age d.

(** The background collection that [Open] also starts is a [GC] at any point of a
    history. *)
Definition Open (free : option Z) (cfg : Config) (now : Z) (age : Z -> Z) (d : gmap Z File) : OpenError + Store :=
  open_dir (settings free cfg) now age d.

Lemma settings_shards free cfg :
  (0 < ShardCount (settings free cfg))%nat /\ (Z.of_nat (ShardCount cfg) < 2 ^ 64 -> Z.of_nat (ShardCount (settings free cfg)) < 2 ^ 64).
Proof.
  assert (ShardCount (settings free cfg) = ShardCount (withDefaults cfg)) as ->.
  { unfold settings, with_cap. repeat case_match; reflexivity. }
  unfold withDefaults, defaultShardCount. cbn. destruct (Nat.eqb_spec (ShardCount cfg) 0); lia.
Qed.

(** The free space only sets the cap. *)
Lemma settings_same free free' cfg :
  ShardCount (settings free cfg) = ShardCount (settings free' cfg) /\ SegmentSize (settings free cfg) = SegmentSize (settings free' cfg).
Proof. unfold settings, with_cap. split; repeat case_match; reflexivity. Qed.

(** ** Restoring a version *)

(** Phase one: what every file was at version [v]. *)
Definition view_at (s : Store) (v : Z) : gmap FileID fileIndex :=
  let recs := st_shards s ≫= fun sh => (sh_active sh :: sealed_list sh) ≫= fun m =>
                (fun r => (sg_id m, r)) <$> List.filter (fun r => rh_Version (rec_header r) <=? v) (segment_records s (sg_id m)) in
  let ms := fold_left (fun ms r => note_marker r.2 ms) recs (mkMarks ∅ ∅) in
  honour_index ms (fold_left (fun ix r => replay_record 0 r.1 r.2 ix) recs ∅).

Definition read_extent (s : Store) (id : FileID) (iv : interval) : JErr + (Z * list Z) :=
  match segment (shardFor s id) (sl_SegmentID (iv_loc iv)), st_disk s !! sl_SegmentID (iv_loc iv) with
  | Some _, Some f =>
      match ReadAt (fl_bytes f) (sl_Offset (iv_loc iv)) (iv_length iv) with inr b => inr (iv_fileOff iv, b) | inl _ => inl ErrRead end
  | _, _ => inl ErrUnknownSegment
  end.

Fixpoint read_extents (s : Store) (id : FileID) (ivs : list interval) : JErr + list (Z * list Z) :=
  match ivs with
  | [] => inr []
  | iv :: ivs =>
      if iv_length iv <=? 0 then read_extents s id ivs
      else match read_extent s id iv, read_extents s id ivs with
      | inr e, inr es => inr (e :: es)
      | inl e, _ => inl e
      | _, inl e => inl e
      end
  end.

Fixpoint write_extents (now : Z) (id : FileID) (exts : list (Z * list Z)) (s : Store) : (JErr + unit) * Store :=
  match exts with
  | [] => (inr tt, s)
  | (off, data) :: exts =>
      match WriteAt now id off data s with (inl e, s) => (inl e, s) | (inr _, s) => write_extents now id exts s end
  end.

Fixpoint rematerialize (now : Z) (files : list (FileID * fileIndex)) (s : Store) : (JErr + unit) * Store :=
  match files with
  | [] => (inr tt, s)
  | (id, fi) :: files =>
      match read_extents s id (fi_ivs fi) with
      | inl e => (inl e, s)
      | inr exts =>
          match store_Delete now id s with
          | (inl e, s) => (inl e, s)
          | (inr _, s) =>
              match write_extents now id exts s with (inl e, s) => (inl e, s) | (inr _, s) => rematerialize now files s end
          end
      end
  end.

Fixpoint delete_all (now : Z) (ids : list FileID) (s : Store) : (JErr + unit) * Store :=
  match ids with
  | [] => (inr tt, s)
  | id :: ids => match store_Delete now id s with (inl e, s) => (inl e, s) | (inr _, s) => delete_all now ids s end
  end.

Definition RestoreToVersion (now : Z) (v : Z) (s : Store) : (JErr + unit) * Store :=
  if st_closed s then (inl errClosed, s)
  else
    let vIndex := view_at s v in
    let head := List.filter (fun id => bool_decide (vIndex !! id = None)) (ListFiles s) in
    match rematerialize now (map_to_list vIndex) s with
    | (inl e, s) => (inl e, s)
    | (inr _, s) => delete_all now head s
    end.
