(* ===== verification/JournalInv.v ===== *)
(** * The journal store: disk, contents and invariant

    A segment file is its header and the records written to it: the first part
    relates the bytes to the records and the intervals of the index to the records
    they came from.  What the store holds is a byte map per file: a byte is a hole,
    cold (evicted, still remote), or known.  The invariant says that every interval
    the index knows points into a record of its own file, in a segment of its own
    shard. *)

From S2P Require Import Prelude.
From S2P Require Import HoleMap.
From S2P Require Import JournalIndex.
From S2P Require Import JournalRecord.
From S2P Require Import JournalStore.
From S2P Require Import JournalReclaim.
From S2P Require Import JournalRecover.

(** ** Writing at the end and at the front *)

Lemma pwrite_end b off data : off = Z.of_nat (length b) -> pwrite b off data = b ++ data.
Proof.
  intros ->. unfold pwrite. rewrite Nat2Z.id, firstn_all, Nat.sub_diag, drop_ge by lia. cbn. now rewrite app_nil_r.
Qed.

Lemma pwrite_front h h' b : length h' = length h -> pwrite (h ++ b) 0 h' = h' ++ b.
Proof.
  intros E. unfold pwrite. change (Z.to_nat 0) with 0%nat. rewrite Nat.add_0_l, E, drop_app_length. reflexivity.
Qed.

Lemma segHeader_length id c f : length (encodeSegHeader id c f) = 64%nat.
Proof. unfold encodeSegHeader. now rewrite !length_app, !le_encode_length, length_replicate. Qed.

(** ** Scanning *)

Lemma scan_loop_stops maxPayload segSize ws : forall pre tail fuel,
  Forall (written_ok maxPayload) ws -> (length ws < fuel)%nat ->
  let seg := pre ++ concat (map enc ws) ++ tail in
  let stop := Z.of_nat (length pre) + total_size ws in
  stop <= segSize -> (exists e, readRecordAt seg stop maxPayload = inl e) ->
  scan_loop fuel seg segSize maxPayload (Z.of_nat (length pre)) = (laid_out ws (Z.of_nat (length pre)), stop).
Proof.
  induction ws as [|w r IH]; intros pre tail fuel Hok Hf seg stop Hs He; (destruct fuel as [|fuel]; [cbn in Hf; lia|]).
  - cbn [scan_loop laid_out]. unfold stop in *. change (total_size []) with 0 in *. rewrite Z.add_0_r in *.
    destruct He as [e ->]. now destruct (_ <? _).
  - cbn [length] in Hf. inversion Hok as [|? ? Hw Hr]; subst.
    assert (seg = (pre ++ enc w) ++ concat (map enc r) ++ tail) as Es by (unfold seg; cbn [map concat]; now rewrite <- !app_assoc).
    assert (Z.of_nat (length (pre ++ enc w)) = Z.of_nat (length pre) + size_of w) as Eo
      by (rewrite length_app, Nat2Z.inj_add, enc_length; reflexivity).
    assert (stop = Z.of_nat (length (pre ++ enc w)) + total_size r) as Et by (unfold stop; rewrite Eo; unfold total_size; cbn [foldr]; lia).
    pose proof (size_of_min w). pose proof (total_size_bound r). cbn [scan_loop].
    rewrite (proj2 (Z.ltb_lt _ _)) by lia.
    rewrite Es, <- app_assoc, readRecordAt_enc by done. cbn [laid_out]. specialize (IH (pre ++ enc w) tail fuel Hr ltac:(lia)).
    cbv zeta in IH. rewrite <- Es, <- Et, Eo in IH. rewrite app_assoc, <- Es. now rewrite IH.
Qed.

(** A file that ends with its last record, or inside the next. *)
Definition torn (maxPayload : Z) (tail : list Z) : Prop :=
  exists w k, written_ok maxPayload w /\ (k < length (enc w))%nat /\ tail = take k (enc w).

Lemma scan_file S hdr ws tail :
  length hdr = 64%nat -> Forall (written_ok S) ws -> torn S tail -> 64 + total_size ws <= S ->
  scanValidRecords (hdr ++ concat (map enc ws) ++ tail) S S = (laid_out ws segHeaderSize, segHeaderSize + total_size ws).
Proof.
  intros Hh Hok (w & k & Hw & Hk & ->) Hs. unfold scanValidRecords. change segHeaderSize with (Z.of_nat 64). rewrite <- Hh.
  pose proof (total_size_bound ws). apply scan_loop_stops; [done|lia|lia|].
  destruct (readRecordAt_torn S w (hdr ++ concat (map enc ws)) k Hw Hk) as [e He]. exists e. rewrite app_assoc, <- He. f_equal.
  rewrite length_app, Nat2Z.inj_add, concat_enc_length. reflexivity.
Qed.

(** ** Records and their bytes *)

Lemma laid_out_app ws ws' : forall o, laid_out (ws ++ ws') o = laid_out ws o ++ laid_out ws' (o + total_size ws).
Proof.
  induction ws as [|w ws IH]; intros o; cbn [laid_out app]; [unfold total_size; cbn; now rewrite Z.add_0_r|].
  rewrite IH. unfold total_size. cbn [foldr]. now rewrite Z.add_assoc.
Qed.

Lemma total_size_app ws ws' : total_size (ws ++ ws') = total_size ws + total_size ws'.
Proof. induction ws as [|w ws IH]; unfold total_size in *; cbn; lia. Qed.

Lemma laid_out_in rec ws : forall o, rec ∈ laid_out ws o -> exists w ws1 ws2,
  ws = ws1 ++ w :: ws2 /\ rec = read_back w (o + total_size ws1).
Proof.
  induction ws as [|w ws IH]; intros o Hin; cbn [laid_out] in Hin; [now apply elem_of_nil in Hin|].
  apply elem_of_cons in Hin as [->|Hin].
  - exists w, [], ws. split; [done|]. unfold total_size. cbn. now rewrite Z.add_0_r.
  - destruct (IH _ Hin) as (w' & ws1 & ws2 & -> & ->). exists w', (w :: ws1), ws2. split; [done|].
    unfold total_size. cbn [foldr]. now rewrite Z.add_assoc.
Qed.

(** Where the payload of a record is. *)
Definition payload_off (rec : record) : Z := rec_segOff rec + recordHeaderSize + Z.of_nat (length (rec_fileID rec)).

Lemma payload_bytes hdr ws tail rec :
  rec ∈ laid_out ws (Z.of_nat (length hdr)) ->
  exists pre post, hdr ++ concat (map enc ws) ++ tail = pre ++ rec_payload rec ++ post /\ Z.of_nat (length pre) = payload_off rec.
Proof.
  intros Hin. apply laid_out_in in Hin as (w & ws1 & ws2 & -> & ->). destruct w as [[h fid] payload].
  rewrite map_app, concat_app. cbn [map concat enc read_back rec_payload rec_segOff rec_fileID].
  unfold encodeRecord. exists (hdr ++ concat (map enc ws1) ++ encodeHeader h fid), (le_encode 4 (crc payload) ++ concat (map enc ws2) ++ tail).
  split; [now rewrite <- !app_assoc|]. unfold payload_off. cbn [rec_segOff rec_fileID].
  rewrite !length_app, !Nat2Z.inj_add, concat_enc_length. unfold encodeHeader. rewrite !length_app, headerPrefix_length, le_encode_length.
  unfold recordHeaderSize. cbn [length]. lia.
Qed.

(** ** The layout of a segment file *)

(** A record as the store writes it. *)
Definition good (S : Z) (w : written) : Prop :=
  written_ok S w /\ let '(h, _, _) := w in rh_FileOffset h < 2 ^ 63.

Definition layout (S : Z) (b : list Z) (ws : list written) : Prop :=
  exists hdr, length hdr = 64%nat /\ b = hdr ++ concat (map enc ws) /\ Forall (good S) ws.

(** The record at an offset. *)
Definition rec_at (S : Z) (b : list Z) (off : Z) (w : written) : Prop :=
  exists ws1 ws2, layout S b (ws1 ++ w :: ws2) /\ off = 64 + total_size ws1.

(** Everything readable stays so. *)
Definition keeps (S : Z) (b b' : list Z) : Prop := forall off w, rec_at S b off w -> rec_at S b' off w.

Lemma layout_length S b ws : layout S b ws -> Z.of_nat (length b) = 64 + total_size ws.
Proof. intros (hdr & Hh & -> & _). rewrite length_app, Nat2Z.inj_add, concat_enc_length, Hh. lia. Qed.

Lemma layout_new S id c f : layout S (encodeSegHeader id c f) [].
Proof. exists (encodeSegHeader id c f). rewrite app_nil_r. auto using segHeader_length. Qed.

Lemma layout_append S b ws w : good S w -> layout S b ws -> layout S (b ++ enc w) (ws ++ [w]).
Proof.
  intros Hw (hdr & Hh & -> & Hok). exists hdr. rewrite map_app, concat_app. cbn. rewrite app_nil_r, <- app_assoc.
  split_and!; [done..|]. apply Forall_app. auto.
Qed.

Lemma layout_header S b ws h' : length h' = 64%nat -> layout S b ws -> layout S (pwrite b 0 h') ws.
Proof. intros Hh' (hdr & Hh & -> & Hok). exists h'. rewrite pwrite_front by lia. auto. Qed.

Lemma keeps_append S b w : good S w -> keeps S b (b ++ enc w).
Proof.
  intros Hw off w' (ws1 & ws2 & Hl & ->). exists ws1, (ws2 ++ [w]). split; [|done].
  replace (ws1 ++ w' :: ws2 ++ [w]) with ((ws1 ++ w' :: ws2) ++ [w]) by now rewrite <- app_assoc. now apply layout_append.
Qed.

Lemma keeps_header S b h' : length h' = 64%nat -> keeps S b (pwrite b 0 h').
Proof. intros Hh' off w' (ws1 & ws2 & Hl & ->). exists ws1, ws2. split; [now apply layout_header|done]. Qed.

Lemma keeps_refl S b : keeps S b b.
Proof. now intros ?. Qed.

Lemma keeps_trans S a b c : keeps S a b -> keeps S b c -> keeps S a c.
Proof. unfold keeps. auto. Qed.

Lemma rec_at_last S b ws w : good S w -> layout S b ws -> rec_at S (b ++ enc w) (64 + total_size ws) w.
Proof. intros Hw Hl. exists ws, []. split; [now apply layout_append|done]. Qed.

Lemma rec_at_good S b off w : rec_at S b off w -> good S w.
Proof. intros (ws1 & ws2 & (hdr & _ & _ & Hok) & _). apply Forall_app in Hok as [_ Hok]. now inversion Hok. Qed.

(** What a reader finds. *)
Lemma rec_at_split S b off w : rec_at S b off w ->
  exists pre post, b = pre ++ enc w ++ post /\ off = Z.of_nat (length pre) /\ 64 <= off.
Proof.
  intros (ws1 & ws2 & (hdr & Hh & -> & Hok) & ->). exists (hdr ++ concat (map enc ws1)), (concat (map enc ws2)).
  rewrite map_app, concat_app. cbn. rewrite <- !app_assoc. split; [done|].
  rewrite length_app, Nat2Z.inj_add, concat_enc_length, Hh. pose proof (total_size_bound ws1). lia.
Qed.

Lemma rec_at_read S b off w : rec_at S b off w -> readRecordAt b off S = inr (read_back w off, off + size_of w).
Proof.
  intros H. pose proof (proj1 (rec_at_good _ _ _ _ H)). destruct (rec_at_split _ _ _ _ H) as (pre & post & -> & -> & _).
  now apply readRecordAt_enc.
Qed.

Lemma rec_at_inj S b off w w' : rec_at S b off w -> rec_at S b off w' -> w = w'.
Proof.
  intros H%rec_at_read H'%rec_at_read. rewrite H in H'. destruct w as [[h fid] p], w' as [[h' fid'] p'].
  cbn in H'. congruence.
Qed.

(** The payload of the record at [off]. *)
Lemma rec_at_payload S b off h fid p k n : rec_at S b off (h, fid, p) ->
  0 <= k -> 0 <= n -> k + n <= Z.of_nat (length p) ->
  ReadAt b (off + recordHeaderSize + Z.of_nat (length fid) + k) n = inr (slice (Z.to_nat k) (Z.to_nat n) p).
Proof.
  intros H Hk Hn Hb. destruct (rec_at_split _ _ _ _ H) as (pre & post & -> & -> & _). cbn [enc]. unfold encodeRecord.
  replace p with (take (Z.to_nat k) p ++ slice (Z.to_nat k) (Z.to_nat n) p ++ drop (Z.to_nat n) (drop (Z.to_nat k) p)) at 1
    by (unfold slice; rewrite (take_drop (Z.to_nat n)); apply take_drop).
  rewrite <- !app_assoc, !app_assoc, <- 2!app_assoc. rewrite <- (app_assoc _ (slice _ _ _)).
  apply ReadAt_middle; unfold encodeHeader; rewrite ?length_app, ?headerPrefix_length, ?le_encode_length; unfold slice;
    rewrite !length_take, ?length_drop; unfold recordHeaderSize; cbn [length]; lia.
Qed.

(** ** Contents *)

Inductive Byte := Hole | Cold | Known (b : Z).

Definition byte_of (d : gmap Z File) (c : cell) : Z :=
  match d !! c_seg c with Some f => byte_at (Z.to_nat (c_off c)) (fl_bytes f) | None => 0 end.

Definition byte_at_cell (d : gmap Z File) (o : option cell) : Byte :=
  match o with None => Hole | Some c => if c_cold c then Cold else Known (byte_of d c) end.

Definition shard_content (d : gmap Z File) (sh : shard) (id : FileID) (x : Z) : Byte :=
  byte_at_cell d (resolve (ivs_of sh id) x).

(** The byte at [x] of a file. *)
Definition content (s : Store) (id : FileID) (x : Z) : Byte := shard_content (st_disk s) (shardFor s id) id x.

(** ** The invariant *)

Definition tail_of (sh : shard) (g : Z) : option Z := sg_tail <$> segment sh g.
Definition owns (sh : shard) (g : Z) : Prop := is_Some (segment sh g).

Section inv.
Context (S : Z).

(** A byte of the file [id] that is in a record. *)
Definition held (b : list Z) (id : FileID) (c : cell) : Prop :=
  exists h p, rec_at S b (c_recOff c) (h, id, p) /\
    0 <= c_off c - (c_recOff c + recordHeaderSize + Z.of_nat (length id)) < Z.of_nat (length p).

Definition cell_inv (d : gmap Z File) (v : Z) (sh : shard) (id : FileID) (c : cell) : Prop :=
  0 <= c_version c <= v /\
  (c_cold c = false -> owns sh (c_seg c) /\ exists f, d !! c_seg c = Some f /\ held (fl_bytes f) id c).

Definition segs_inv (d : gmap Z File) (sh : shard) : Prop :=
  (forall g m, sh_sealed sh !! g = Some m -> sg_id m = g) /\
  sh_sealed sh !! sg_id (sh_active sh) = None /\
  (forall g t, tail_of sh g = Some t -> exists f ws, d !! g = Some f /\ layout S (fl_bytes f) ws /\ t = 64 + total_size ws).

Definition has_file (ix : gmap FileID fileIndex) (id : FileID) (x : Z) (c : cell) : Prop :=
  exists fi, ix !! id = Some fi /\ has_cell (fi_ivs fi) x c.

Definition index_inv (d : gmap Z File) (v : Z) (sh : shard) (ix : gmap FileID fileIndex) : Prop :=
  (forall id fi, ix !! id = Some fi -> wf (fi_ivs fi)) /\
  (forall id x c, has_file ix id x c -> cell_inv d v sh id c) /\
  (forall id x c id' x' c', has_file ix id x c -> has_file ix id' x' c' -> c_version c = c_version c' -> id = id').

Definition shard_inv (d : gmap Z File) (v : Z) (sh : shard) : Prop := segs_inv d sh /\ index_inv d v sh (sh_index sh).

End inv.

(** [k] more segments can be created. *)
Record Inv (k : nat) (s : Store) : Prop := {
  inv_shards : length (st_shards s) = ShardCount (st_cfg s) /\ (0 < ShardCount (st_cfg s))%nat;
  inv_each : forall i sh, st_shards s !! i = Some sh -> shard_inv (SegmentSize (st_cfg s)) (st_disk s) (st_version s) sh;
  inv_apart : forall i j shi shj g, st_shards s !! i = Some shi -> st_shards s !! j = Some shj ->
    owns shi g -> owns shj g -> i = j;
  inv_fresh : forall g f, st_disk s !! g = Some f -> g < st_nextSeg s;
  inv_next : 0 <= st_nextSeg s /\ st_nextSeg s + Z.of_nat k < 2 ^ 64;
  inv_version : 0 <= st_version s < 2 ^ 64;
}.

(** ** Bytes *)

Lemma held_byte S b id c : held S b id c ->
  exists h p, rec_at S b (c_recOff c) (h, id, p) /\
    let k := c_off c - (c_recOff c + recordHeaderSize + Z.of_nat (length id)) in
    0 <= k < Z.of_nat (length p) /\ byte_at (Z.to_nat (c_off c)) b = byte_at (Z.to_nat k) p.
Proof.
  intros (h & p & Hr & Hk). exists h, p. split; [done|]. cbv zeta.
  set (k := c_off c - _) in *. split; [done|].
  pose proof (rec_at_payload S b _ _ _ _ k 1 Hr ltac:(lia) ltac:(lia) ltac:(lia)) as E.
  replace (c_recOff c + recordHeaderSize + Z.of_nat (length id) + k) with (c_off c) in E by (subst k; lia).
  unfold ReadAt in E. cbv zeta in E. destruct (_ <? _); [done|]. injection E as E.
  unfold byte_at. assert (forall (l : list Z) n, default 0 (l !! n) = default 0 (take 1 (drop n l) !! 0%nat)) as Hd.
  { intros l n. rewrite lookup_take_lt by lia. rewrite lookup_drop. now rewrite Nat.add_0_r. }
  rewrite Hd. change 1%nat with (Z.to_nat 1). rewrite E. unfold slice. rewrite <- Hd. done.
Qed.

Lemma held_keeps S b b' id c : keeps S b b' -> held S b id c ->
  held S b' id c /\ byte_at (Z.to_nat (c_off c)) b' = byte_at (Z.to_nat (c_off c)) b.
Proof.
  intros Hk H. assert (held S b' id c) as H' by (destruct H as (h & p & Hr & ?); exists h, p; auto). split; [done|].
  apply held_byte in H as (h & p & Hr & _ & E). apply held_byte in H' as (h' & p' & Hr' & _ & E'). cbv zeta in *.
  apply Hk in Hr. pose proof (rec_at_inj _ _ _ _ _ Hr Hr') as [= -> ->]. congruence.
Qed.

(** ** Frames *)

(** The files of [P] are there and what they hold is readable. *)
Definition disk_keeps (S : Z) (P : Z -> Prop) (d d' : gmap Z File) : Prop :=
  forall g f, P g -> d !! g = Some f -> exists f', d' !! g = Some f' /\ keeps S (fl_bytes f) (fl_bytes f').

Lemma cell_inv_mono S d d' v v' sh sh' id c :
  (owns sh (c_seg c) -> owns sh' (c_seg c)) -> disk_keeps S (owns sh) d d' -> v <= v' ->
  cell_inv S d v sh id c -> cell_inv S d' v' sh' id c /\ (c_cold c = false -> byte_of d' c = byte_of d c).
Proof.
  intros Ho Hd Hv [Hc Hh]. split.
  - split; [lia|]. intros E. destruct (Hh E) as (Hown & f & Hf & Hb). split; [auto|].
    destruct (Hd _ _ Hown Hf) as (f' & Hf' & Hk). exists f'. split; [done|]. now apply (held_keeps S (fl_bytes f)).
  - intros E. destruct (Hh E) as (Hown & f & Hf & Hb). unfold byte_of. rewrite Hf.
    destruct (Hd _ _ Hown Hf) as (f' & -> & Hk). now apply (held_keeps S _ _ id).
Qed.

Lemma index_inv_mono S d d' v v' sh sh' ix :
  (forall g, owns sh g -> owns sh' g) -> disk_keeps S (owns sh) d d' -> v <= v' ->
  index_inv S d v sh ix -> index_inv S d' v' sh' ix.
Proof.
  intros Ho Hd Hv (Hw & Hc & Hu). split_and!; [done| |done]. intros id x c Hin.
  apply (cell_inv_mono S d d' v v' sh sh' id c); auto. eauto.
Qed.

Lemma has_file_resolve (ix : gmap FileID fileIndex) (id : FileID) x c fi :
  wf (fi_ivs fi) -> ix !! id = Some fi -> resolve (fi_ivs fi) x = Some c -> has_file ix id x c.
Proof. intros Hw Hi Hr. exists fi. split; [done|]. now apply resolve_has_cell. Qed.

Lemma content_mono S d d' v sh sh' id x :
  sh_index sh' = sh_index sh -> disk_keeps S (owns sh) d d' -> index_inv S d v sh (sh_index sh) ->
  shard_content d' sh' id x = shard_content d sh id x.
Proof.
  intros Ei Hd (Hw & Hc & _). unfold shard_content, ivs_of. rewrite Ei. destruct (sh_index sh !! id) as [fi|] eqn:E; [|done].
  unfold byte_at_cell. destruct (resolve (fi_ivs fi) x) as [c|] eqn:Er; [|done]. destruct (c_cold c) eqn:Ec; [done|].
  f_equal. eapply (cell_inv_mono S d d' v v sh sh id c); [done|done|reflexivity| |done].
  eapply Hc. eauto using has_file_resolve.
Qed.

Lemma disk_keeps_refl S P d : disk_keeps S P d d.
Proof. intros g f _ H. exists f. auto using keeps_refl. Qed.

Lemma disk_keeps_eq S (P : Z -> Prop) d d' : (forall g, P g -> d' !! g = d !! g) -> disk_keeps S P d d'.
Proof. intros H g f Hg Hf. exists f. rewrite H by done. auto using keeps_refl. Qed.

Lemma disk_keeps_trans S P d d' d'' : disk_keeps S P d d' -> disk_keeps S P d' d'' -> disk_keeps S P d d''.
Proof.
  intros H1 H2 g f Hg Hf. destruct (H1 _ _ Hg Hf) as (f' & Hf' & ?). destruct (H2 _ _ Hg Hf') as (f'' & ? & ?).
  exists f''. eauto using keeps_trans.
Qed.

(** ** Reading *)

Definition value (b : Byte) : Z := match b with Known b => b | _ => 0 end.
Definition is_cold (b : Byte) : bool := match b with Cold => true | _ => false end.

(** What a read of these bytes returns. *)
Definition read_of (l : list Byte) : list Z * bool := (map value l, existsb is_cold l).

Lemma tile_unique ps : forall lo hi p q d, pieces_tile lo hi ps -> In p ps -> In q ps ->
  p_dstStart p <= d < p_dstEnd p -> p_dstStart q <= d < p_dstEnd q -> p = q.
Proof.
  assert (forall ps lo hi q, pieces_tile lo hi ps -> In q ps -> lo <= p_dstStart q) as Hlo.
  { clear ps. induction ps as [|r ps IH]; intros lo hi q Ht Hq; [destruct Hq|]. destruct Ht as (E & Hr & Ht). destruct Hq as [->|Hq]; [subst; lia|].
    specialize (IH _ _ _ Ht Hq). lia. }
  induction ps as [|r ps IH]; intros lo hi p q d Ht Hp Hq Hdp Hdq; [destruct Hp|]. destruct Ht as (E & Hr & Ht).
  destruct Hp as [->|Hp], Hq as [->|Hq]; [done| | |].
  - specialize (Hlo _ _ _ _ Ht Hq). lia.
  - specialize (Hlo _ _ _ _ Ht Hp). lia.
  - eapply IH; eauto.
Qed.

(** The piece serves its whole range. *)
Definition serves_all (ivs : list interval) (offset : Z) (p : piece) : Prop :=
  p_dstStart p < p_dstEnd p /\ forall d, p_dstStart p <= d < p_dstEnd p -> serves p d (resolve ivs (offset + d)).

Lemma tile_pos ps : forall lo hi p, pieces_tile lo hi ps -> In p ps -> lo <= p_dstStart p < p_dstEnd p /\ p_dstEnd p <= hi.
Proof.
  induction ps as [|r ps IH]; intros lo hi p Ht Hp; [destruct Hp|]. destruct Ht as (E & Hr & Ht).
  assert (forall ps lo hi, pieces_tile lo hi ps -> lo <= hi) as Hle.
  { clear. induction ps as [|r ps IH]; intros lo hi Ht; [cbn in Ht; lia|]. destruct Ht as (E & Hr & Ht). specialize (IH _ _ Ht). lia. }
  destruct Hp as [->|Hp]; [specialize (Hle _ _ _ Ht); lia|]. specialize (IH _ _ _ Ht Hp). lia.
Qed.

Lemma plan_serves_all ivs offset n p :
  wf ivs -> 0 <= offset -> 0 <= n -> offset + n < 2 ^ 63 -> In p (plan ivs offset n) -> serves_all ivs offset p.
Proof.
  intros Hw Ho Hn Hr Hp. destruct (plan_serves ivs offset n Hw Ho Hn Hr) as [Ht Hs].
  destruct (tile_pos _ _ _ _ Ht Hp) as [? ?]. split; [lia|]. intros d Hd.
  destruct (Hs d ltac:(lia)) as (q & Hq & Hsv). now replace p with q by (eapply tile_unique; [exact Ht|done..|apply Hsv|lia]).
Qed.

Lemma map_seqZ_const {A} (f : Z -> A) a m n : (forall d, m <= d < m + n -> f d = a) -> map f (seqZ m n) = replicate (Z.to_nat n) a.
Proof.
  intros H. apply list_eq. intros i. rewrite list_lookup_fmap. destruct (decide (i < Z.to_nat n)%nat).
  - rewrite lookup_seqZ_lt, lookup_replicate_2 by lia. cbn. f_equal. apply H. lia.
  - rewrite lookup_seqZ_ge by lia. symmetry. apply lookup_replicate_None. lia.
Qed.

Lemma existsb_seqZ_const (f : Z -> bool) a m n : 0 < n -> (forall d, m <= d < m + n -> f d = a) -> existsb f (seqZ m n) = a.
Proof.
  intros Hn H. destruct a.
  - apply existsb_exists. exists m. split; [apply list_elem_of_In, elem_of_seqZ; lia|apply H; lia].
  - apply not_true_iff_false. intros (d & Hd & E)%existsb_exists. apply list_elem_of_In, elem_of_seqZ in Hd.
    rewrite H in E by lia. done.
Qed.

Lemma existsb_map {A B} (f : B -> bool) (g : A -> B) l : existsb f (map g l) = existsb (fun a => f (g a)) l.
Proof. induction l as [|a l IH]; cbn; [done|]. now rewrite IH. Qed.

Section read.
Context (s : Store) (sh : shard) (id : FileID) (fi : fileIndex).
Hypothesis Hsh : index_inv (SegmentSize (st_cfg s)) (st_disk s) (st_version s) sh (sh_index sh).
Hypothesis Hfi : sh_index sh !! id = Some fi.

(** The bytes of a piece. *)
Definition piece_bytes (offset : Z) (p : piece) : list Byte :=
  map (fun d => shard_content (st_disk s) sh id (offset + d)) (seqZ (p_dstStart p) (p_dstEnd p - p_dstStart p)).

Lemma resolved_inv x c : resolve (fi_ivs fi) x = Some c -> cell_inv (SegmentSize (st_cfg s)) (st_disk s) (st_version s) sh id c.
Proof. destruct Hsh as (Hw & Hc & _). intros Hr. eapply Hc, has_file_resolve; eauto. Qed.

Lemma piece_empty offset p (b : Byte) :
  p_dstStart p < p_dstEnd p -> value b = 0 ->
  (forall d, p_dstStart p <= d < p_dstEnd p -> shard_content (st_disk s) sh id (offset + d) = b) ->
  read_of (piece_bytes offset p) = (replicate (Z.to_nat (p_dstEnd p - p_dstStart p)) 0, is_cold b).
Proof.
  intros Hp Hv Hc. unfold read_of, piece_bytes. f_equal.
  - rewrite map_map. apply map_seqZ_const. intros d Hd. rewrite Hc by lia. done.
  - rewrite existsb_map. apply existsb_seqZ_const; [lia|]. intros d Hd. rewrite Hc by lia. done.
Qed.

(** A live piece is a range of one record. *)
Lemma live_piece offset p :
  serves_all (fi_ivs fi) offset p -> p_hole p = false -> p_cold p = false ->
  let n := p_dstEnd p - p_dstStart p in
  owns sh (sl_SegmentID (p_loc p)) /\ exists f h pl, st_disk s !! sl_SegmentID (p_loc p) = Some f /\
    rec_at (SegmentSize (st_cfg s)) (fl_bytes f) (p_recOff p) (h, id, pl) /\
    let k := sl_Offset (p_loc p) + p_subOff p - (p_recOff p + recordHeaderSize + Z.of_nat (length id)) in
    0 <= k /\ k + n <= Z.of_nat (length pl) /\
    read_of (piece_bytes offset p) = (slice (Z.to_nat k) (Z.to_nat n) pl, false).
Proof.
  intros [Hp Hsv] Hh Hc n.
  assert (forall d, p_dstStart p <= d < p_dstEnd p -> exists c, resolve (fi_ivs fi) (offset + d) = Some c /\ c_cold c = false /\
    c_seg c = sl_SegmentID (p_loc p) /\ c_recOff c = p_recOff p /\
    c_off c = sl_Offset (p_loc p) + p_subOff p + (d - p_dstStart p)) as Hcell.
  { intros d Hd. destruct (Hsv d Hd) as [_ Hs]. destruct (resolve _ _) as [c|]; [|congruence]. exists c.
    destruct Hs as (_ & Ec & Hl). rewrite Hc in Ec. symmetry in Ec. destruct (Hl Ec) as (-> & -> & ->). auto. }
  assert (forall d, p_dstStart p <= d < p_dstEnd p -> owns sh (sl_SegmentID (p_loc p)) /\ exists f, st_disk s !! sl_SegmentID (p_loc p) = Some f /\
    exists h pl, rec_at (SegmentSize (st_cfg s)) (fl_bytes f) (p_recOff p) (h, id, pl) /\
    let k := sl_Offset (p_loc p) + p_subOff p + (d - p_dstStart p) - (p_recOff p + recordHeaderSize + Z.of_nat (length id)) in
    0 <= k < Z.of_nat (length pl) /\ shard_content (st_disk s) sh id (offset + d) = Known (byte_at (Z.to_nat k) pl)) as Hbyte.
  { intros d Hd. destruct (Hcell d Hd) as (c & Hr & Hcc & Es & Er & Eo). destruct (resolved_inv _ _ Hr) as [_ Hb].
    destruct (Hb Hcc) as (Hown & f & Hf & Hheld). rewrite Es in *. split; [done|]. exists f. split; [done|].
    apply held_byte in Hheld as (h & pl & Hrec & Hk & Hbv). rewrite Er, Eo in *. exists h, pl. split; [done|]. cbv zeta.
    split; [done|]. unfold shard_content, ivs_of. rewrite Hfi, Hr. cbn [byte_at_cell]. rewrite Hcc. f_equal.
    unfold byte_of. rewrite Es, Hf, Eo. done. }
  destruct (Hbyte (p_dstStart p) ltac:(lia)) as (Hown & f & Hf & h & pl & Hrec & Hk0 & _). cbv zeta in Hk0.
  split; [done|]. exists f, h, pl. split; [done|]. split; [done|]. cbv zeta. set (k := sl_Offset _ + _ - _) in *.
  assert (forall d, p_dstStart p <= d < p_dstEnd p -> 0 <= k + (d - p_dstStart p) < Z.of_nat (length pl) /\
    shard_content (st_disk s) sh id (offset + d) = Known (byte_at (Z.to_nat (k + (d - p_dstStart p))) pl)) as Hall.
  { intros d Hd. destruct (Hbyte d Hd) as (_ & f' & Hf' & h' & pl' & Hrec' & Hk' & Hb'). rewrite Hf in Hf'. injection Hf' as <-.
    pose proof (rec_at_inj _ _ _ _ _ Hrec Hrec') as [= <- <-]. cbv zeta in *. unfold k in *.
    replace (sl_Offset (p_loc p) + p_subOff p - (p_recOff p + recordHeaderSize + Z.of_nat (length id)) + (d - p_dstStart p))
      with (sl_Offset (p_loc p) + p_subOff p + (d - p_dstStart p) - (p_recOff p + recordHeaderSize + Z.of_nat (length id))) by lia.
    auto. }
  split; [lia|]. pose proof (proj1 (Hall (p_dstEnd p - 1) ltac:(lia))) as Hend. split; [subst n; lia|].
  unfold read_of, piece_bytes. f_equal.
  - rewrite map_map. apply list_eq. intros j. rewrite list_lookup_fmap. unfold slice. destruct (decide (j < Z.to_nat n)%nat).
    + rewrite lookup_seqZ_lt by (subst n; lia). cbn.
      assert (p_dstStart p <= p_dstStart p + Z.of_nat j < p_dstEnd p) as Hj by (subst n; lia). rewrite (proj2 (Hall _ Hj)). cbn.
      rewrite lookup_take_lt by lia. rewrite lookup_drop. unfold byte_at.
      replace (Z.to_nat (k + (p_dstStart p + Z.of_nat j - p_dstStart p))) with (Z.to_nat k + j)%nat by (subst n; lia).
      destruct (lookup_lt_is_Some_2 pl (Z.to_nat k + j)) as [z ->]; [subst n; lia|done].
    + rewrite lookup_seqZ_ge by (subst n; lia). rewrite lookup_take_ge by lia. done.
  - rewrite existsb_map. apply existsb_seqZ_const; [subst n; lia|]. intros d Hd. rewrite (proj2 (Hall d ltac:(lia))). done.
Qed.

Lemma hole_or_cold offset p b :
  serves_all (fi_ivs fi) offset p -> (p_hole p = true /\ b = Hole) \/ (p_hole p = false /\ p_cold p = true /\ b = Cold) ->
  forall d, p_dstStart p <= d < p_dstEnd p -> shard_content (st_disk s) sh id (offset + d) = b.
Proof.
  intros [_ Hsv] Hb d Hd. destruct (Hsv d Hd) as [_ Hs]. unfold shard_content, ivs_of. rewrite Hfi. destruct (resolve _ _) as [c|]; cbn.
  - destruct Hs as (E1 & E2 & _). destruct Hb as [[E _]|(_ & E & ->)]; [congruence|]. now rewrite <- E2, E.
  - destruct Hb as [[_ ->]|(E & _)]; [done|congruence].
Qed.

Lemma piece_read offset p : serves_all (fi_ivs fi) offset p ->
  read_piece s sh p = inr (read_of (piece_bytes offset p)) /\ verifiedRead s sh id p = inr (read_of (piece_bytes offset p)).
Proof.
  intros Hs. pose proof Hs as [Hp _]. unfold read_piece, verifiedRead. destruct (p_hole p) eqn:Eh.
  { rewrite (piece_empty offset p Hole) by (eauto using hole_or_cold). auto. }
  destruct (p_cold p) eqn:Ec.
  { rewrite (piece_empty offset p Cold) by (eauto using hole_or_cold). auto. }
  destruct (live_piece offset p Hs Eh Ec) as ([m Hm] & f & h & pl & Hf & Hrec & Hk & Hn & ->). cbv zeta in *. rewrite Hm, Hf.
  set (k := sl_Offset _ + _ - _) in *. set (n := p_dstEnd p - p_dstStart p) in *. split.
  - replace (sl_Offset (p_loc p) + p_subOff p) with (p_recOff p + recordHeaderSize + Z.of_nat (length id) + k) by (subst k; lia).
    now rewrite (rec_at_payload _ _ _ _ _ _ _ _ Hrec) by lia.
  - rewrite (rec_at_read _ _ _ _ Hrec). cbn [read_back rec_fileID rec_payload]. rewrite bool_decide_true by done. cbn [negb].
    cbv zeta. fold k. destruct (Z.ltb_spec k 0); [lia|]. destruct (Z.gtb_spec (k + n) (Z.of_nat (length pl))); [lia|].
    done.
Qed.

Lemma read_of_app l l' : read_of (l ++ l') = ((read_of l).1 ++ (read_of l').1, (read_of l).2 || (read_of l').2).
Proof. unfold read_of. cbn. now rewrite map_app, existsb_app. Qed.

Lemma pieces_read (read : piece -> JErr + (list Z * bool)) offset ps : forall lo hi,
  (forall p, In p ps -> read p = inr (read_of (piece_bytes offset p))) -> pieces_tile lo hi ps -> lo <= hi ->
  read_pieces read ps = inr (read_of (map (fun d => shard_content (st_disk s) sh id (offset + d)) (seqZ lo (hi - lo)))).
Proof.
  induction ps as [|p ps IH]; intros lo hi Hr Ht Hle; cbn [read_pieces].
  { cbn in Ht. subst. rewrite Z.sub_diag. done. }
  destruct Ht as (<- & Hp & Ht). rewrite Hr by (now left).
  assert (p_dstEnd p <= hi) as Hpe.
  { clear -Ht. revert Ht. generalize (p_dstEnd p) as x. induction ps as [|q ps IH]; intros x Ht; [cbn in Ht; lia|].
    destruct Ht as (? & ? & Ht). apply IH in Ht. lia. }
  rewrite (IH (p_dstEnd p) hi) by (auto; intros; apply Hr; now right).
  replace (hi - p_dstStart p) with ((p_dstEnd p - p_dstStart p) + (hi - p_dstEnd p)) by lia.
  rewrite seqZ_app, map_app, read_of_app by lia. unfold piece_bytes at 1.
  replace (p_dstStart p + (p_dstEnd p - p_dstStart p)) with (p_dstEnd p) by lia. destruct (read_of _); done.
Qed.

End read.
