(* ===== verification/JournalOps.v ===== *)
(** * The journal store: what every operation does to the contents

    Writing, sealing, deleting, truncating: the invariant is kept and the contents
    change exactly as asked. *)

From S2P Require Import Prelude.
From S2P Require Import HoleMap.
From S2P Require Import JournalIndex.
From S2P Require Import JournalRecord.
From S2P Require Import JournalStore.
From S2P Require Import JournalReclaim.
From S2P Require Import JournalRecover.
From S2P Require Import JournalInv.

(** ** Shards *)

Lemma land_le a n : 0 <= n -> 0 <= Z.land a n <= n.
Proof.
  intros Hn. apply Z.ldiff_le; [done|]. apply Z.bits_inj'. intros i _. rewrite Z.ldiff_spec, Z.land_spec, Z.bits_0.
  now destruct (Z.testbit a i), (Z.testbit n i).
Qed.

Lemma shardIndex_lt s id : (0 < ShardCount (st_cfg s))%nat -> (shardIndex s id < ShardCount (st_cfg s))%nat.
Proof. intros H. unfold shardIndex. pose proof (land_le (fnv1a id) (Z.of_nat (ShardCount (st_cfg s)) - 1)). lia. Qed.

Lemma shard_lookup k s i : Inv k s -> (i < ShardCount (st_cfg s))%nat -> st_shards s !! i = Some (shard_at s i).
Proof.
  intros H Hi. unfold shard_at. destruct (lookup_lt_is_Some_2 (st_shards s) i) as [sh E]; [rewrite (proj1 (inv_shards _ _ H)); lia|].
  now rewrite E.
Qed.

Lemma shardFor_lookup k s id : Inv k s -> st_shards s !! shardIndex s id = Some (shardFor s id).
Proof. intros H. eapply shard_lookup; [exact H|]. apply shardIndex_lt, (inv_shards _ _ H). Qed.

Lemma shardIndex_cfg s s' id : st_cfg s' = st_cfg s -> shardIndex s' id = shardIndex s id.
Proof. intros E. unfold shardIndex. now rewrite E. Qed.

Lemma owns_tail S d sh g : segs_inv S d sh -> owns sh g -> exists f ws, d !! g = Some f /\ layout S (fl_bytes f) ws.
Proof.
  intros (_ & _ & Ht) [m Hm]. destruct (Ht g (sg_tail m)) as (f & ws & ? & ? & _); [unfold tail_of; now rewrite Hm|eauto].
Qed.

(** ** A step that changes one shard *)

Section step.
Context (k k' i : nat) (s s' : Store) (sh sh' : shard).
Hypothesis Hinv : Inv k s.
Hypothesis Hsh : st_shards s !! i = Some sh.
Hypothesis Ecfg : st_cfg s' = st_cfg s.
Hypothesis Eshards : st_shards s' = <[i := sh']> (st_shards s).
Hypothesis Hdisk : forall g, ~ owns sh g -> g < st_nextSeg s -> st_disk s' !! g = st_disk s !! g.
Hypothesis Hver : st_version s <= st_version s'.

Lemma shard_step_at : shard_at s' i = sh'.
Proof. unfold shard_at. rewrite Eshards, list_lookup_insert_eq; [done|]. now apply lookup_lt_Some in Hsh. Qed.

Lemma shard_step_other j shj g : j <> i -> st_shards s !! j = Some shj -> owns shj g -> st_disk s' !! g = st_disk s !! g.
Proof.
  intros Hj Hshj Ho. apply Hdisk.
  - intros Ho'. apply Hj. symmetry. eapply (inv_apart _ _ Hinv); eauto.
  - destruct (owns_tail _ _ _ _ (proj1 (inv_each _ _ Hinv _ _ Hshj)) Ho) as (f & _ & Hf & _). eapply (inv_fresh _ _ Hinv); eauto.
Qed.

Lemma shard_step_inv :
  shard_inv (SegmentSize (st_cfg s)) (st_disk s') (st_version s') sh' ->
  (forall g, owns sh' g -> owns sh g \/ st_nextSeg s <= g) ->
  (forall g f, st_disk s' !! g = Some f -> g < st_nextSeg s') ->
  st_nextSeg s <= st_nextSeg s' -> st_nextSeg s' + Z.of_nat k' < 2 ^ 64 -> st_version s' < 2 ^ 64 -> Inv k' s'.
Proof.
  intros Hi Hown Hfresh Hn Hk Hv. pose proof (inv_next _ _ Hinv). pose proof (inv_version _ _ Hinv).
  assert (forall j shj g, j <> i -> st_shards s !! j = Some shj -> owns shj g -> owns sh' g -> False) as Hap.
  { intros j shj g Hj Hshj Ho Ho'. destruct (Hown g Ho') as [Ho''|Hge].
    - apply Hj. eapply (inv_apart _ _ Hinv); eauto.
    - destruct (owns_tail _ _ _ _ (proj1 (inv_each _ _ Hinv _ _ Hshj)) Ho) as (f & _ & Hf & _). apply (inv_fresh _ _ Hinv) in Hf. lia. }
  split.
  - rewrite Eshards, length_insert, Ecfg. apply (inv_shards _ _ Hinv).
  - intros j shj Hj. rewrite Eshards in Hj. rewrite Ecfg. apply list_lookup_insert_Some in Hj as [(-> & <- & _)|[Hne Hj]]; [done|].
    destruct (inv_each _ _ Hinv j shj Hj) as [(H1 & H2 & H3) H4]. split.
    + split_and!; [done..|]. intros g t Ht. destruct (H3 g t Ht) as (f & ws & Hf & ? & ?). exists f, ws.
      rewrite (shard_step_other j shj g); [auto|done|done|]. unfold tail_of in Ht. apply fmap_Some in Ht as (m & Hm & _). now exists m.
    + eapply index_inv_mono; [| |exact Hver|exact H4]; [done|]. apply disk_keeps_eq. intros g. now apply (shard_step_other j).
  - intros j j' shj shj' g. rewrite Eshards. intros [(-> & <- & _)|[Hne Hj]]%list_lookup_insert_Some
      [(-> & <- & _)|[Hne' Hj']]%list_lookup_insert_Some Ho Ho'; [done| | |].
    + exfalso. eauto.
    + exfalso. eauto.
    + eapply (inv_apart _ _ Hinv); eauto.
  - done.
  - lia.
  - lia.
Qed.

Lemma shard_step_content id x :
  content s' id x = if decide (shardIndex s id = i) then shard_content (st_disk s') sh' id x else content s id x.
Proof.
  unfold content. unfold shardFor. rewrite (shardIndex_cfg s s') by done. destruct (decide _) as [E|E].
  - rewrite E. now rewrite shard_step_at.
  - assert (shard_at s' (shardIndex s id) = shard_at s (shardIndex s id)) as ->.
    { unfold shard_at. now rewrite Eshards, list_lookup_insert_ne by done. }
    pose proof (shardFor_lookup _ _ id Hinv) as Hl. apply (content_mono (SegmentSize (st_cfg s)) _ _ (st_version s)); [done| |].
    + apply disk_keeps_eq. intros g. now apply (shard_step_other (shardIndex s id)).
    + apply (inv_each _ _ Hinv _ _ Hl).
Qed.

(** When nothing of the shard's files changes either. *)
Lemma shard_step_before id x : shardIndex s id = i -> content s id x = shard_content (st_disk s) sh id x.
Proof. intros E. unfold content, shardFor. rewrite E. unfold shard_at. now rewrite Hsh. Qed.

End step.

(** ** Segment bookkeeping *)

(** [sh'] has the segments of [sh]. *)
Definition same_segs (sh sh' : shard) : Prop :=
  sg_id (sh_active sh') = sg_id (sh_active sh) /\
  (forall g, tail_of sh' g = tail_of sh g) /\
  (forall g, sh_sealed sh' !! g = None <-> sh_sealed sh !! g = None) /\
  ((forall g m, sh_sealed sh !! g = Some m -> sg_id m = g) -> forall g m, sh_sealed sh' !! g = Some m -> sg_id m = g).

Lemma same_segs_refl sh : same_segs sh sh.
Proof. repeat split; auto. Qed.

Lemma same_segs_trans a b c : same_segs a b -> same_segs b c -> same_segs a c.
Proof.
  intros (A1 & A2 & A3 & A4) (B1 & B2 & B3 & B4). split_and!; [congruence| | |auto].
  - intros g. now rewrite B2.
  - intros g. now rewrite B3.
Qed.

Lemma same_segs_index sh ix : same_segs sh (set_index ix sh).
Proof. repeat split; auto. Qed.

Lemma same_segs_owns sh sh' g : same_segs sh sh' -> owns sh' g <-> owns sh g.
Proof.
  intros (_ & Ht & _). specialize (Ht g). unfold tail_of, owns in *. destruct (segment sh' g), (segment sh g); cbn in Ht; done. 
Qed.

Lemma same_segs_inv S d sh sh' : same_segs sh sh' -> segs_inv S d sh -> segs_inv S d sh'.
Proof.
  intros (E1 & E2 & E3 & E4) (H1 & H2 & H3). split_and!; [auto|rewrite E1; now apply E3|]. intros g t. rewrite E2. auto.
Qed.

Lemma upd_segment_same g f sh : (forall m, sg_id (f m) = sg_id m /\ sg_tail (f m) = sg_tail m) -> same_segs sh (upd_segment g f sh).
Proof.
  intros Hf. unfold upd_segment. destruct (Z.eqb_spec (sg_id (sh_active sh)) g) as [E|E]; unfold same_segs, tail_of, segment; cbn.
  - rewrite (proj1 (Hf _)). split_and!; [done| |done|done]. intros g'. destruct (_ =? _); [|done]. cbn. now rewrite (proj2 (Hf _)).
  - split_and!; [done| | |].
    + intros g'. destruct (_ =? g'); [done|]. destruct (decide (g = g')) as [->|].
      * rewrite lookup_alter_eq. destruct (sh_sealed sh !! g'); cbn; [|done]. now rewrite (proj2 (Hf _)).
      * now rewrite lookup_alter_ne.
    + intros g'. destruct (decide (g = g')) as [->|]; [rewrite lookup_alter_eq|now rewrite lookup_alter_ne].
      destruct (sh_sealed sh !! g'); cbn; split; done.
    + intros Hid g' m. destruct (decide (g = g')) as [->|]; [rewrite lookup_alter_eq|rewrite lookup_alter_ne by done; auto].
      destruct (sh_sealed sh !! g') as [m0|] eqn:E0; cbn; [|done]. intros [= <-]. rewrite (proj1 (Hf _)). auto.
Qed.

Lemma upd_segment_index g f sh : sh_index (upd_segment g f sh) = sh_index sh.
Proof. unfold upd_segment. now case_match. Qed.

Lemma charge_same dead sh : same_segs sh (charge dead sh).
Proof.
  unfold charge. revert sh. induction dead as [|d dead IH]; intros sh; cbn [fold_left]; [apply same_segs_refl|].
  eapply same_segs_trans; [|apply IH]. now apply upd_segment_same.
Qed.

Lemma charge_index dead sh : sh_index (charge dead sh) = sh_index sh.
Proof.
  unfold charge. revert sh. induction dead as [|d dead IH]; intros sh; cbn [fold_left]; [done|].
  now rewrite IH, upd_segment_index.
Qed.

(** ** Appending a record to the active segment *)

Lemma write_file_eq g off data d f : d !! g = Some f -> write_file g off data d !! g = Some (mkFile (pwrite (fl_bytes f) off data) (fl_durable f)).
Proof. intros E. unfold write_file. now rewrite lookup_alter_eq, E. Qed.

Lemma write_file_ne g g' off data d : g' <> g -> write_file g off data d !! g' = d !! g'.
Proof. intros E. unfold write_file. now rewrite lookup_alter_ne. Qed.

Lemma sync_file_lookup g g' d : fl_bytes <$> sync_file g d !! g' = fl_bytes <$> d !! g'.
Proof.
  unfold sync_file. destruct (decide (g = g')) as [->|]; [rewrite lookup_alter_eq|now rewrite lookup_alter_ne].
  now destruct (d !! g').
Qed.

Lemma sync_file_Some g g' d f : d !! g' = Some f -> exists f', sync_file g d !! g' = Some f' /\ fl_bytes f' = fl_bytes f.
Proof.
  intros E. pose proof (sync_file_lookup g g' d) as H. rewrite E in H. destruct (sync_file g d !! g') as [f'|]; [|done].
  exists f'. split; [done|]. now injection H.
Qed.

Lemma sync_file_Some_inv g g' d f : sync_file g d !! g' = Some f -> exists f', d !! g' = Some f' /\ fl_bytes f' = fl_bytes f.
Proof.
  intros E. pose proof (sync_file_lookup g g' d) as H. rewrite E in H. destruct (d !! g') as [f'|]; [|done].
  exists f'. split; [done|]. now injection H.
Qed.

Lemma set_active_same m m' sh : sg_id m' = sg_id m -> sg_tail m' = sg_tail m -> same_segs (set_active m sh) (set_active m' sh).
Proof.
  intros Ei Et. unfold same_segs, tail_of, segment. cbn. rewrite Ei. split_and!; [done| |done|done].
  intros g. destruct (_ =? _); [|done]. cbn. now rewrite Et.
Qed.

Lemma set_active_owns m sh g : sg_id m = sg_id (sh_active sh) -> owns (set_active m sh) g <-> owns sh g.
Proof. intros E. unfold owns, segment. cbn. rewrite E. destruct (_ =? _); [|done]. split; intros _; eauto. Qed.

Lemma active_file S d sh : segs_inv S d sh -> exists f ws, d !! sg_id (sh_active sh) = Some f /\ layout S (fl_bytes f) ws /\
  sg_tail (sh_active sh) = 64 + total_size ws.
Proof. intros (_ & _ & H). apply H. unfold tail_of, segment. now rewrite Z.eqb_refl. Qed.

Lemma active_owned sh : owns sh (sg_id (sh_active sh)).
Proof. unfold owns, segment. rewrite Z.eqb_refl. eauto. Qed.

Section put.
Context (S : Z) (d : gmap Z File) (sh : shard) (h : recordHeader) (id : FileID) (p : list Z).
Hypothesis Hsegs : segs_inv S d sh.
Hypothesis Hgood : good S (h, id, p).

Let seg := (put_record (sh_active sh) h id p d).1.
Let d' := (put_record (sh_active sh) h id p d).2.

Lemma put_file : exists f ws, d !! sg_id (sh_active sh) = Some f /\ layout S (fl_bytes f) ws /\
  sg_tail (sh_active sh) = 64 + total_size ws /\
  d' !! sg_id (sh_active sh) = Some (mkFile (fl_bytes f ++ enc (h, id, p)) (fl_durable f)).
Proof.
  destruct (active_file _ _ _ Hsegs) as (f & ws & Hf & Hl & Ht). exists f, ws. split_and!; [done..|].
  unfold d', put_record. cbn [snd]. rewrite (write_file_eq _ _ _ _ _ Hf). do 2 f_equal. apply pwrite_end.
  rewrite (layout_length _ _ _ Hl). exact Ht.
Qed.

Lemma put_other g : g <> sg_id (sh_active sh) -> d' !! g = d !! g.
Proof. intros Hg. unfold d', put_record. cbn [snd]. now apply write_file_ne. Qed.

Lemma put_keeps P : disk_keeps S P d d'.
Proof.
  destruct put_file as (f & ws & Hf & Hl & Ht & Hf'). intros g f0 _ Hf0. destruct (decide (g = sg_id (sh_active sh))) as [->|Hg].
  - rewrite Hf in Hf0. injection Hf0 as <-. eexists. split; [exact Hf'|]. now apply keeps_append.
  - exists f0. rewrite put_other by done. auto using keeps_refl.
Qed.

Lemma put_segs : segs_inv S d' (set_active seg sh).
Proof.
  destruct put_file as (f & ws & Hf & Hl & Ht & Hf'). destruct Hsegs as (H1 & H2 & H3). split_and!; [done|done|].
  intros g t Hg. unfold tail_of, segment in Hg. cbn in Hg. destruct (Z.eqb_spec (sg_id (sh_active sh)) g) as [<-|Hne].
  - injection Hg as <-. eexists _, (ws ++ [(h, id, p)]). split; [exact Hf'|]. split; [now apply layout_append|].
    rewrite total_size_app. change (total_size [(h, id, p)]) with (recordLen (Z.of_nat (length id)) (Z.of_nat (length p)) + 0).
    unfold seg, put_record. cbn. lia.
  - rewrite put_other by done. apply H3. unfold tail_of, segment. destruct (Z.eqb_spec (sg_id (sh_active sh)) g); [done|exact Hg].
Qed.

Lemma put_rec : exists f, d' !! sg_id (sh_active sh) = Some f /\ rec_at S (fl_bytes f) (sg_tail (sh_active sh)) (h, id, p).
Proof.
  destruct put_file as (f & ws & Hf & Hl & Ht & Hf'). eexists. split; [exact Hf'|]. rewrite Ht. now apply rec_at_last.
Qed.

Lemma put_dom g f : d' !! g = Some f -> is_Some (d !! g).
Proof.
  destruct put_file as (f0 & _ & Hf0 & _). destruct (decide (g = sg_id (sh_active sh))) as [->|Hg]; [eauto|].
  rewrite put_other by done. eauto.
Qed.

End put.

(** ** Changing the index *)

Lemma index_inv_upd S d v v' sh ix ix' id :
  index_inv S d v sh ix -> v <= v' ->
  (forall id' fi', ix' !! id' = Some fi' -> wf (fi_ivs fi') /\
     forall x c, has_cell (fi_ivs fi') x c -> has_file ix id' x c \/ (id' = id /\ cell_inv S d v' sh id c /\ v < c_version c)) ->
  index_inv S d v' sh ix'.
Proof.
  intros (Hw & Hc & Hu) Hv H. split_and!.
  - intros id' fi' E. exact (proj1 (H _ _ E)).
  - intros id' x c (fi' & E & Hcell). destruct (proj2 (H _ _ E) _ _ Hcell) as [Hin|(-> & ? & _)]; [|done].
    destruct (Hc _ _ _ Hin) as [? ?]. split; [lia|done].
  - intros id1 x1 c1 id2 x2 c2 (fi1 & E1 & H1) (fi2 & E2 & H2) Ev.
    destruct (proj2 (H _ _ E1) _ _ H1) as [Hin1|(-> & _ & Hn1)], (proj2 (H _ _ E2) _ _ H2) as [Hin2|(-> & _ & Hn2)]; [eauto| | |done].
    + apply Hc in Hin1 as [? _]. lia.
    + apply Hc in Hin2 as [? _]. lia.
Qed.

Lemma index_inv_sub S d v sh ix ix' :
  index_inv S d v sh ix ->
  (forall id' fi', ix' !! id' = Some fi' -> wf (fi_ivs fi') /\ forall x c, has_cell (fi_ivs fi') x c -> has_file ix id' x c) ->
  index_inv S d v sh ix'.
Proof.
  intros Hi H. eapply (index_inv_upd S d v v sh ix ix' []); [done|lia|]. intros id' fi' E. destruct (H _ _ E) as [? Hc].
  split; [done|]. intros. left. eauto.
Qed.

(** Every interval of a file is older than the next version. *)
Lemma older S d v sh ix id fi : index_inv S d v sh ix -> ix !! id = Some fi -> Forall (fun e => iv_version e <= v) (fi_ivs fi).
Proof.
  intros (Hw & Hc & _) E. apply List.Forall_forall. intros e He.
  pose proof (wf_in_cell _ _ (Hw _ _ E) He) as Hcell. destruct (Hc id (iv_fileOff e) _ (ex_intro _ fi (conj E Hcell))) as [Hv _].
  cbn in Hv. lia.
Qed.

(** The intervals of a file in an index. *)
Definition ivs_in (ix : gmap FileID fileIndex) (id : FileID) : list interval :=
  match ix !! id with Some fi => fi_ivs fi | None => [] end.

Lemma ivs_in_wf S d v sh ix id : index_inv S d v sh ix -> wf (ivs_in ix id).
Proof. intros (Hw & _). unfold ivs_in. destruct (ix !! id) eqn:E; [eauto|]. split; constructor. Qed.

Lemma ivs_in_older S d v sh ix id : index_inv S d v sh ix -> Forall (fun e => iv_version e <= v) (ivs_in ix id).
Proof. intros H. unfold ivs_in. destruct (ix !! id) eqn:E; [eauto using older|constructor]. Qed.

Lemma ivs_in_file ix id x c : has_cell (ivs_in ix id) x c -> has_file ix id x c.
Proof. unfold ivs_in. destruct (ix !! id) as [fi|] eqn:E; [now exists fi|]. now intros ?%has_cell_nil. Qed.

Lemma insert_newest ivs iv v :
  wf ivs -> iv_ok iv -> Forall (fun e => iv_version e <= v) ivs -> v < iv_version iv ->
  wf (in_ivs (insert ivs iv)) /\
  forall x, resolve (in_ivs (insert ivs iv)) x = if contains x iv then Some (cell_of iv x) else resolve ivs x.
Proof.
  intros Hw Hiv Ho Hv. destruct (insert_resolve ivs iv Hw Hiv) as [Hw' Hr].
  { eapply Forall_impl; [exact Ho|]. cbn. lia. }
  split; [done|]. intros x. rewrite Hr. unfold overwrite. destruct (contains x iv); [|done].
  destruct (resolve ivs x) as [c|] eqn:E; [|done]. apply resolve_has_cell, has_cell_version in E as (e & He & _ & ->); [|done].
  rewrite List.Forall_forall in Ho. specialize (Ho e He). destruct (Z.gtb_spec (iv_version e) (iv_version iv)); [lia|done].
Qed.

Lemma index_insert S d v sh ix id iv first :
  index_inv S d v sh ix -> iv_ok iv -> v < iv_version iv ->
  (forall x, in_iv x iv -> cell_inv S d (iv_version iv) sh id (cell_of iv x)) ->
  let ix' := <[id := mkFileIndex (in_ivs (insert (fi_ivs (default (mkFileIndex [] 0) (ix !! id))) iv)) first]> ix in
  index_inv S d (iv_version iv) sh ix' /\
  forall id' x, resolve (ivs_in ix' id') x =
    if bool_decide (id' = id) && contains x iv then Some (cell_of iv x) else resolve (ivs_in ix id') x.
Proof.
  intros Hix Hiv Hv Hnew. cbv zeta.
  assert (fi_ivs (default (mkFileIndex [] 0) (ix !! id)) = ivs_in ix id) as -> by (unfold ivs_in; now destruct (ix !! id)).
  destruct (insert_newest (ivs_in ix id) iv v) as [Hw Hr]; eauto using ivs_in_wf, ivs_in_older. split.
  - eapply index_inv_upd; [exact Hix|lia|]. intros id' fi'. destruct (decide (id' = id)) as [->|Hne].
    + rewrite lookup_insert_eq. intros [= <-]. cbn. split; [done|]. intros x c Hc. apply resolve_has_cell in Hc; [|done].
      rewrite Hr in Hc. destruct (contains x iv) eqn:Ex.
      * injection Hc as <-. right. apply contains_spec in Ex. split_and!; [done|eauto|cbn; lia].
      * left. apply ivs_in_file, resolve_has_cell; eauto using ivs_in_wf.
    + rewrite lookup_insert_ne by done. intros E. split; [eapply Hix; eauto|]. intros x c Hc. left. now exists fi'.
  - intros id' x. unfold ivs_in at 1. destruct (decide (id' = id)) as [->|Hne].
    + rewrite lookup_insert_eq, bool_decide_true by done. cbn. apply Hr.
    + rewrite lookup_insert_ne, bool_decide_false by done. done.
Qed.

(** ** Writes *)

Lemma data_good S id offset version synced data :
  Z.of_nat (length id) <= maxFileIDLen -> Z.of_nat (length data) <= maxPayloadLen -> Z.of_nat (length data) <= S ->
  0 <= offset < 2 ^ 63 -> 0 <= version < 2 ^ 64 -> good S (data_header id offset version synced data, id, data).
Proof.
  unfold maxFileIDLen, maxPayloadLen. intros Hi Hd HS Ho Hv. split; [|cbn; lia].
  split; [|cbn [data_header rh_FileIDLen rh_PayloadLen]; auto].
  unfold header_ok, in_u16, in_u64, in_u32, in_u8. cbn [data_header rh_FileIDLen rh_FileOffset rh_PayloadLen rh_Version rh_Flags].
  split_and!; try lia; destruct synced; vm_compute; congruence.
Qed.

Lemma nextVersion_eq k s : Inv k s -> st_version s + 1 < 2 ^ 64 -> nextVersion s = st_version s + 1.
Proof. intros H Hv. unfold nextVersion. apply u64_small. unfold in_u64. pose proof (inv_version _ _ H). lia. Qed.

Section append.
Context (k : nat) (s : Store) (now : Z) (id : FileID) (offset : Z) (data : list Z) (synced : bool).
Let len := Z.of_nat (length data).
Hypothesis Hinv : Inv k s.
Hypothesis Hver : st_version s + 1 < 2 ^ 64.
Hypothesis Hid : Z.of_nat (length id) <= maxFileIDLen.
Hypothesis Hlen : 0 < len <= maxPayloadLen /\ len <= SegmentSize (st_cfg s).
Hypothesis Hoff : 0 <= offset /\ offset + len < 2 ^ 63.

Lemma append_in_shard_spec :
  let s' := append_in_shard now id offset data synced s in
  Inv k s' /\ st_version s' = st_version s + 1 /\
  forall id' x, content s' id' x =
    if bool_decide (id' = id) && ((offset <=? x) && (x <? offset + len)) then Known (byte_at (Z.to_nat (x - offset)) data)
    else content s id' x.
Proof.
  cbv zeta. pose proof (shardFor_lookup _ _ id Hinv) as Hsh. pose proof (inv_version _ _ Hinv) as Hv0.
  pose proof (inv_each _ _ Hinv _ _ Hsh) as [Hsegs Hix]. set (sh := shardFor s id) in *. set (S := SegmentSize (st_cfg s)) in *.
  set (v' := st_version s + 1). set (h := data_header id offset v' synced data).
  assert (good S (h, id, data)) as Hg by (apply data_good; unfold len in *; lia).
  set (d' := (put_record (sh_active sh) h id data (st_disk s)).2).
  set (iv := mkInterval offset len v'
    (mkLoc (sg_id (sh_active sh)) (sg_tail (sh_active sh) + recordHeaderSize + Z.of_nat (length id)) len) (sg_tail (sh_active sh)) synced false).
  destruct (put_rec S (st_disk s) sh h id data Hsegs Hg) as (f' & Hf' & Hrec). fold d' in Hf'.
  set (s' := append_in_shard now id offset data synced s).
  assert (exists sh1 first, st_shards s' = <[shardIndex s id := sh1]> (st_shards s) /\ same_segs (set_active (put_record (sh_active sh) h id data (st_disk s)).1 sh) sh1 /\
    sh_index sh1 = <[id := mkFileIndex (in_ivs (insert (fi_ivs (default (mkFileIndex [] 0) (sh_index sh !! id))) iv)) first]> (sh_index sh))
    as (sh1 & first & Es & Hsame & Ei).
  { unfold s', append_in_shard. rewrite (nextVersion_eq k s) by done. fold v'. fold (shardFor s id). fold sh. eexists _, _. cbn. split; [reflexivity|]. split.
    - eapply same_segs_trans; [|apply charge_same]. eapply same_segs_trans; [|apply same_segs_index]. now apply set_active_same;
      unfold noteMinVersion; case_match.
    - rewrite charge_index. cbn. unfold noteMinVersion. case_match; reflexivity. }
  assert (st_disk s' = d' /\ st_cfg s' = st_cfg s /\ st_nextSeg s' = st_nextSeg s /\ st_version s' = v') as (Ed & Ec & En & Ev)
    by (unfold s', append_in_shard; rewrite (nextVersion_eq k s) by done; done).
  assert (forall g, owns sh1 g <-> owns sh g) as Hown.
  { intros g. rewrite (same_segs_owns _ _ g Hsame). now apply set_active_owns. }
  assert (iv_ok iv) as Hivok by (unfold iv_ok; cbn; lia).
  assert (forall x, in_iv x iv -> cell_inv S d' v' sh1 id (cell_of iv x)) as Hnew.
  { intros x Hx. split; [cbn; lia|]. intros _. split; [apply Hown, active_owned|]. exists f'. split; [done|]. exists h, data. split; [done|].
    unfold in_iv in Hx. cbn in *. fold len. lia. }
  assert (index_inv S d' (st_version s) sh1 (sh_index sh)) as Hix1
    by (eapply index_inv_mono; [| | |exact Hix]; [apply Hown|now apply put_keeps|lia]).
  destruct (index_insert S d' (st_version s) sh1 (sh_index sh) id iv first Hix1 Hivok ltac:(cbn; lia) Hnew) as [Hix' Hres].
  rewrite <- Ei in Hix', Hres. change (iv_version iv) with v' in Hix'.
  assert (forall g, ~ owns sh g -> g < st_nextSeg s -> st_disk s' !! g = st_disk s !! g) as Hdisk.
  { intros g Hg' _. rewrite Ed. apply put_other. intros ->. apply Hg', active_owned. }
  assert (st_version s <= st_version s') as Hle by lia.
  split; [|split; [done|]].
  - eapply (shard_step_inv k k (shardIndex s id) s s' sh sh1); eauto; rewrite ?Ed, ?En, ?Ev; try lia.
    + split; [|done]. eapply same_segs_inv; [exact Hsame|]. now apply put_segs.
    + intros g Hg'. left. now apply Hown.
    + intros g f Hf. apply (put_dom S) in Hf as [f0 Hf0]; [|done]. eapply (inv_fresh _ _ Hinv); eauto.
    + apply (inv_next _ _ Hinv).
  - intros id' x. rewrite (shard_step_content k (shardIndex s id) s s' sh sh1 Hinv Hsh Ec Es Hdisk).
    destruct (decide (shardIndex s id' = shardIndex s id)) as [E|E].
    + unfold shard_content. rewrite Ed. change (ivs_of sh1 id') with (ivs_in (sh_index sh1) id'). rewrite Hres.
      assert (contains x iv = (offset <=? x) && (x <? offset + len)) as <- by reflexivity.
      destruct (bool_decide (id' = id) && contains x iv) eqn:Eb.
      * cbn [byte_at_cell cell_of c_cold iv]. f_equal. apply andb_true_iff in Eb as [_ Hx%contains_spec].
        destruct (Hnew x Hx) as [_ Hc]. destruct (Hc eq_refl) as (_ & f0 & Hf0 & Hheld).
        assert (Some f0 = Some f') as [= ->] by (rewrite <- Hf0, <- Hf'; reflexivity). unfold byte_of. rewrite Hf0.
        apply held_byte in Hheld as (h0 & p0 & Hrec0 & _ & ->). cbn [cell_of c_recOff c_seg iv] in *.
        pose proof (rec_at_inj _ _ _ _ _ Hrec Hrec0) as [= <- <-].
        f_equal. f_equal. cbn. lia.
      * rewrite (shard_step_before (shardIndex s id) s sh Hsh id' x E). symmetry.
        change (resolve (ivs_in (sh_index sh) id') x) with (resolve (ivs_of sh id') x). symmetry.
        eapply (content_mono S (st_disk s) d' (st_version s) sh sh); [done|now apply put_keeps|done].
    + destruct (bool_decide_reflect (id' = id)) as [->|]; [done|]. done.
Qed.

End append.

(** ** Sealing *)

(** What an operation that writes nothing leaves alone. *)
Definition quiet (s s' : Store) : Prop :=
  st_cfg s' = st_cfg s /\ st_closed s' = st_closed s /\ st_version s' = st_version s /\
  st_evictionDisabled s' = st_evictionDisabled s /\ forall id x, content s' id x = content s id x.

Lemma quiet_refl s : quiet s s.
Proof. repeat split. Qed.

Lemma quiet_trans a b c : quiet a b -> quiet b c -> quiet a c.
Proof. intros (A1 & A2 & A3 & A4 & A5) (B1 & B2 & B3 & B4 & B5). split_and!; congruence. Qed.

Lemma seal_eq m d f : d !! sg_id m = Some f ->
  exists f', (sealInPlace m d).2 !! sg_id m = Some f' /\
    fl_bytes f' = pwrite (fl_bytes f) 0 (encodeSegHeader (sg_id m) (sg_createdAt m) segFlagSealed).
Proof.
  intros Hf. unfold sealInPlace. cbn [snd]. destruct (sync_file_Some (sg_id m) _ _ _ Hf) as (f1 & Hf1 & E1).
  apply (write_file_eq _ 0 (encodeSegHeader (sg_id m) (sg_createdAt m) segFlagSealed)) in Hf1.
  destruct (sync_file_Some (sg_id m) _ _ _ Hf1) as (f2 & Hf2 & E2). exists f2. split; [done|]. rewrite E2. cbn. now rewrite E1.
Qed.

Lemma sync_file_ne g g' d : g' <> g -> sync_file g d !! g' = d !! g'.
Proof. intros H. unfold sync_file. now rewrite lookup_alter_ne. Qed.

Lemma seal_ne m d g : g <> sg_id m -> (sealInPlace m d).2 !! g = d !! g.
Proof. intros H. unfold sealInPlace. cbn [snd]. now rewrite sync_file_ne, write_file_ne, sync_file_ne. Qed.

Lemma seal_keeps S P m d : disk_keeps S P d (sealInPlace m d).2.
Proof.
  intros g f _ Hf. destruct (decide (g = sg_id m)) as [->|Hg].
  - destruct (seal_eq _ _ _ Hf) as (f' & Hf' & E). exists f'. split; [done|]. rewrite E. apply keeps_header, segHeader_length.
  - exists f. rewrite seal_ne by done. auto using keeps_refl.
Qed.

Lemma seal_layout S m d f ws : d !! sg_id m = Some f -> layout S (fl_bytes f) ws ->
  exists f', (sealInPlace m d).2 !! sg_id m = Some f' /\ layout S (fl_bytes f') ws.
Proof.
  intros Hf Hl. destruct (seal_eq _ _ _ Hf) as (f' & Hf' & E). exists f'. split; [done|]. rewrite E.
  apply layout_header; [apply segHeader_length|done].
Qed.

Lemma seal_dom m d g f : (sealInPlace m d).2 !! g = Some f -> is_Some (d !! g).
Proof.
  destruct (decide (g = sg_id m)) as [->|Hg]; [|rewrite seal_ne by done; eauto]. unfold sealInPlace. cbn [snd]. intros H.
  apply sync_file_Some_inv in H as (f' & H & _). unfold write_file in H. rewrite lookup_alter_eq in H.
  destruct (sync_file (sg_id m) d !! sg_id m) as [f1|] eqn:E; [|done]. apply sync_file_Some_inv in E as (f2 & E & _). eauto.
Qed.

(** The next segment id is free. *)
Lemma createSegment_fresh k now s : Inv (S k) s ->
  let seg := mkSegMeta (st_nextSeg s) now false segHeaderSize 0 0 0 0 0 0 in
  exists s', createSegment now s = (inr seg, s') /\
    st_shards s' = st_shards s /\ st_cfg s' = st_cfg s /\ st_nextSeg s' = st_nextSeg s + 1 /\ st_version s' = st_version s /\
    st_closed s' = st_closed s /\ st_evictionDisabled s' = st_evictionDisabled s /\ st_pinVersion s' = st_pinVersion s /\
    exists f, layout (SegmentSize (st_cfg s)) (fl_bytes f) [] /\ st_disk s' = <[st_nextSeg s := f]> (st_disk s).
Proof.
  intros H. cbv zeta. unfold createSegment. cbn. pose proof (inv_next _ _ H) as [H1 H2].
  destruct (st_disk s !! st_nextSeg s) as [f|] eqn:E; [apply (inv_fresh _ _ H) in E; lia|].
  eexists. split; [reflexivity|]. cbn. rewrite (u64_small (st_nextSeg s + 1)) by (unfold in_u64; lia).
  split_and!; try done. eexists. split; [|reflexivity]. cbn. apply layout_new.
Qed.

Lemma owned_below k s i sh g : Inv k s -> st_shards s !! i = Some sh -> owns sh g -> g < st_nextSeg s.
Proof.
  intros H Hsh Ho. destruct (owns_tail _ _ _ _ (proj1 (inv_each _ _ H _ _ Hsh)) Ho) as (f & _ & Hf & _).
  eapply (inv_fresh _ _ H); eauto.
Qed.

(** A shard with one more sealed segment and a new active one. *)
Definition sealed_over (seg old : segmentMeta) (sh : shard) : shard :=
  mkShard seg (<[sg_id old := old]> (sh_sealed sh)) (sh_index sh).

Lemma sealed_over_owns seg sh g :
  (forall g m, sh_sealed sh !! g = Some m -> sg_id m = g) -> sh_sealed sh !! sg_id (sh_active sh) = None ->
  sg_id seg <> sg_id (sh_active sh) ->
  tail_of (sealed_over seg (set_sealed (sh_active sh)) sh) g = if sg_id seg =? g then Some (sg_tail seg) else tail_of sh g.
Proof.
  intros H1 H2 Hne. unfold tail_of, segment. cbn. destruct (Z.eqb_spec (sg_id seg) g) as [<-|Hg]; [done|].
  destruct (Z.eqb_spec (sg_id (sh_active sh)) g) as [<-|Hg']; [now rewrite lookup_insert_eq|now rewrite lookup_insert_ne].
Qed.

Lemma tail_owns sh g : owns sh g <-> is_Some (tail_of sh g).
Proof. unfold owns, tail_of. now rewrite fmap_is_Some. Qed.

Lemma sealSegment_spec k now i s : Inv (S k) s -> (i < ShardCount (st_cfg s))%nat ->
  exists s', sealSegment now i s = (inr tt, s') /\ Inv k s' /\ quiet s s' /\ st_nextSeg s' = st_nextSeg s + 1 /\
    st_shards s' = <[i := sealed_over (mkSegMeta (st_nextSeg s) now false segHeaderSize 0 0 0 0 0 0)
                            (set_sealed (sh_active (shard_at s i))) (shard_at s i)]> (st_shards s).
Proof.
  intros H Hi. pose proof (shard_lookup _ _ i H Hi) as Hsh. set (sh := shard_at s i) in *.
  pose proof (inv_each _ _ H _ _ Hsh) as [Hsegs Hix]. set (S0 := SegmentSize (st_cfg s)) in *.
  set (d := (sealInPlace (sh_active sh) (st_disk s)).2). set (s1 := set_disk d s).
  assert (Inv (S k) s1 /\ sh_active (shard_at s1 i) = sh_active sh) as [H1 _].
  { split; [|done]. destruct H as [I1 I2 I3 I4 I5 I6]. split; [exact I1| |exact I3| |exact I5|exact I6].
    - intros j shj Hj. destruct (I2 j shj Hj) as [(A1 & A2 & A3) A4]. split.
      + split_and!; [done..|]. intros g t Ht. destruct (A3 g t Ht) as (f & ws & Hf & Hl & ->). cbn [s1 set_disk st_disk].
        destruct (decide (g = sg_id (sh_active sh))) as [->|Hg].
        * destruct (seal_layout S0 _ _ _ _ Hf Hl) as (f' & ? & ?). exists f', ws. auto.
        * exists f, ws. unfold d. rewrite seal_ne by done. auto.
      + eapply index_inv_mono; [done| |reflexivity|exact A4]. apply seal_keeps.
    - intros g f Hf. apply seal_dom in Hf as [f' Hf']. eauto. }
  destruct (createSegment_fresh k now s1 H1) as (s2 & E2 & Esh & Ec & En & Ev & Ecl & Eev & _ & f & Hl & Ed).
  change (st_nextSeg s1) with (st_nextSeg s) in *. change (st_shards s1) with (st_shards s) in *.
  change (st_cfg s1) with (st_cfg s) in *. change (st_version s1) with (st_version s) in *. change (st_disk s1) with d in *.
  set (seg := mkSegMeta (st_nextSeg s) now false segHeaderSize 0 0 0 0 0 0) in *.
  set (sh' := sealed_over seg (set_sealed (sh_active sh)) sh). set (s' := put_shard i sh' s2).
  assert (sealSegment now i s = (inr tt, s')) as Es.
  { unfold sealSegment. fold sh. cbn [sealInPlace]. fold s1. unfold s1, d, sealInPlace in E2. cbn [snd] in E2. rewrite E2. reflexivity. }
  exists s'. split; [exact Es|].
  destruct Hsegs as (A1 & A2 & A3).
  assert (sg_id (sh_active sh) < st_nextSeg s) as Hact by (eapply owned_below; [exact H|exact Hsh|apply active_owned]).
  assert (forall g, tail_of sh' g = if st_nextSeg s =? g then Some 64 else tail_of sh g) as Htail.
  { intros g. apply (sealed_over_owns seg); [done|done|cbn; lia]. }
  assert (forall g, owns sh g -> owns sh' g) as Hmono.
  { intros g. rewrite !tail_owns, Htail. destruct (_ =? g); [eauto|done]. }
  assert (forall g f0, st_disk s !! g = Some f0 -> g <> st_nextSeg s) as Hold.
  { intros g f0 Hf0 ->. apply (inv_fresh _ _ H) in Hf0. lia. }
  assert (disk_keeps S0 (owns sh) (st_disk s) (st_disk s')) as Hk.
  { cbn. rewrite Ed. apply (disk_keeps_trans _ _ _ d); [apply seal_keeps|]. intros g f0 Hg Hf0. exists f0.
    pose proof (owned_below _ _ _ _ _ H Hsh Hg). rewrite lookup_insert_ne by lia. auto using keeps_refl. }
  assert (st_shards s' = <[i := sh']> (st_shards s)) as Eshards by (cbn; now rewrite Esh).
  assert (forall g, ~ owns sh g -> g < st_nextSeg s -> st_disk s' !! g = st_disk s !! g) as Hdisk.
  { intros g Hg Hlt. cbn. rewrite Ed, lookup_insert_ne by lia. apply seal_ne. intros ->. apply Hg, active_owned. }
  assert (st_version s <= st_version s') as Hle by (cbn; lia).
  split; [|split; [|split; [done|exact Eshards]]].
  - eapply (shard_step_inv (S k) k i s s' sh sh' H Hsh Ec Eshards Hdisk Hle).
    + split.
      * split_and!.
        -- intros g m. cbn. rewrite lookup_insert_Some. intros [[<- <-]|[_ Hm]]; [done|auto].
        -- cbn. rewrite lookup_insert_ne by lia. destruct (sh_sealed sh !! st_nextSeg s) as [m|] eqn:E; [|done].
           exfalso. assert (owns sh (st_nextSeg s)) as Ho.
           { unfold owns, segment. destruct (Z.eqb_spec (sg_id (sh_active sh)) (st_nextSeg s)); [lia|]. rewrite E. eauto. }
           pose proof (owned_below _ _ _ _ _ H Hsh Ho). lia.
        -- intros g t. rewrite Htail. cbn [s' put_shard set_shards st_disk]. rewrite Ed. destruct (Z.eqb_spec (st_nextSeg s) g) as [<-|Hg].
           ++ intros [= <-]. rewrite lookup_insert_eq. exists f, []. split_and!; [done..|reflexivity].
           ++ intros Ht. destruct (A3 g t Ht) as (f0 & ws & Hf0 & Hl0 & ->). rewrite lookup_insert_ne by done.
              destruct (decide (g = sg_id (sh_active sh))) as [->|Hg'].
              ** destruct (seal_layout S0 _ _ _ _ Hf0 Hl0) as (f' & ? & ?). exists f', ws. auto.
              ** exists f0, ws. unfold d. rewrite seal_ne by done. auto.
      * cbn. rewrite Ev. eapply index_inv_mono; [exact Hmono|exact Hk|reflexivity|exact Hix].
    + intros g. rewrite !tail_owns, Htail. destruct (Z.eqb_spec (st_nextSeg s) g); [right; lia|auto].
    + intros g f0. cbn. rewrite Ed, En, lookup_insert_Some. intros [[<- _]|[_ Hf0]]; [lia|].
      apply seal_dom in Hf0 as [f1 Hf1]. apply (inv_fresh _ _ H) in Hf1. lia.
    + cbn. lia.
    + cbn. pose proof (inv_next _ _ H). lia.
    + cbn. rewrite Ev. apply (inv_version _ _ H).
  - split_and!; [done..|]. intros id x. rewrite (shard_step_content (S k) i s s' sh sh' H Hsh Ec Eshards Hdisk).
    destruct (decide _) as [E|E]; [|done]. rewrite (shard_step_before i s sh Hsh id x E).
    eapply (content_mono S0 _ _ (st_version s) sh sh'); [done|exact Hk|exact Hix].
Qed.

Lemma rotate_spec k now i recLen s : Inv (S k) s -> (i < ShardCount (st_cfg s))%nat ->
  exists s', rotate now i recLen s = (inr tt, s') /\ Inv k s' /\ quiet s s'.
Proof.
  intros H Hi. unfold rotate. destruct (_ >? _).
  - destruct (sealSegment_spec k now i s H Hi) as (s' & ? & ? & ? & _). eauto.
  - exists s. split_and!; [done| |apply quiet_refl]. destruct H as [I1 I2 I3 I4 I5 I6]. split; try done. lia.
Qed.

(** ** Fsync *)

Lemma same_bytes_spec k s s' :
  Inv k s -> st_shards s' = st_shards s -> st_cfg s' = st_cfg s -> st_nextSeg s' = st_nextSeg s -> st_version s' = st_version s ->
  (forall g, fl_bytes <$> st_disk s' !! g = fl_bytes <$> st_disk s !! g) ->
  Inv k s' /\ forall id x, content s' id x = content s id x.
Proof.
  intros H Es Ec En Ev Hd.
  assert (forall g f, st_disk s !! g = Some f -> exists f', st_disk s' !! g = Some f' /\ fl_bytes f' = fl_bytes f) as Hto.
  { intros g f Hf. specialize (Hd g). rewrite Hf in Hd. destruct (st_disk s' !! g) as [f'|]; [|done]. injection Hd as <-. eauto. }
  assert (forall S P, disk_keeps S P (st_disk s) (st_disk s')) as Hk.
  { intros S P g f _ Hf. destruct (Hto g f Hf) as (f' & ? & E). exists f'. rewrite E. auto using keeps_refl. }
  split.
  - destruct H as [I1 I2 I3 I4 I5 I6]. split; rewrite ?Es, ?Ec, ?En, ?Ev; [done| |done| |done|done].
    + intros i sh Hi. destruct (I2 i sh Hi) as [(A1 & A2 & A3) A4]. split.
      * split_and!; [done..|]. intros g t Ht. destruct (A3 g t Ht) as (f & ws & Hf & Hl & ->). destruct (Hto g f Hf) as (f' & ? & E).
        exists f', ws. rewrite E. auto.
      * eapply index_inv_mono; [done|apply Hk|reflexivity|exact A4].
    + intros g f Hf. specialize (Hd g). rewrite Hf in Hd. destruct (st_disk s !! g) as [f'|] eqn:E; [eauto|done].
  - intros id x. unfold content, shardFor. rewrite (shardIndex_cfg s s') by done. unfold shard_at. rewrite Es. fold (shard_at s (shardIndex s id)).
    eapply (content_mono (SegmentSize (st_cfg s)) _ _ (st_version s)); [done|apply Hk|].
    eapply (inv_each _ _ H), shardFor_lookup, H.
Qed.

Lemma Commit_spec k id s : Inv k s -> Inv k (Commit id s).2 /\ quiet s (Commit id s).2.
Proof.
  intros H. unfold Commit. destruct (st_closed s) eqn:E; cbn; [split; [done|apply quiet_refl]|].
  set (s' := set_disk _ s). destruct (same_bytes_spec k s s') as [? Hc]; try done.
  { intros g. apply sync_file_lookup. } 
Qed.

(** ** Cold ranges *)

Lemma SeedCold_spec k id offset len s :
  Inv k s -> st_closed s = false -> st_version s + 1 < 2 ^ 64 -> 0 <= offset -> 0 < len -> offset + len < 2 ^ 63 ->
  exists s', SeedCold id offset len s = (inr tt, s') /\ Inv k s' /\ st_version s' = st_version s + 1 /\
    st_cfg s' = st_cfg s /\ st_closed s' = false /\
    forall id' x, content s' id' x =
      if bool_decide (id' = id) && ((offset <=? x) && (x <? offset + len)) then Cold else content s id' x.
Proof.
  intros H Hcl Hv Ho Hl Hol. pose proof (shardFor_lookup _ _ id H) as Hsh. pose proof (inv_version _ _ H) as Hv0.
  pose proof (inv_each _ _ H _ _ Hsh) as [Hsegs Hix]. unfold SeedCold. rewrite Hcl. destruct (Z.leb_spec len 0); [lia|].
  rewrite (nextVersion_eq k s H Hv). fold (shardFor s id). set (sh := shardFor s id) in *. set (v' := st_version s + 1).
  set (iv := mkInterval offset len v' zeroLoc 0 true true). set (sh1 := set_index _ sh). set (s' := put_shard _ _ _).
  exists s'. split; [done|].
  assert (forall x, in_iv x iv -> cell_inv (SegmentSize (st_cfg s)) (st_disk s) v' sh id (cell_of iv x)) as Hnew.
  { intros x Hx. split; [cbn; lia|done]. }
  destruct (index_insert _ _ _ sh (sh_index sh) id iv (fi_firstDirtyNanos (default (mkFileIndex [] 0) (sh_index sh !! id))) Hix)
    as [Hix' Hres]; [unfold iv_ok; cbn; lia|cbn; lia|exact Hnew|].
  assert (st_shards s' = <[shardIndex s id := sh1]> (st_shards s)) as Es by done.
  assert (forall g, ~ owns sh g -> g < st_nextSeg s -> st_disk s' !! g = st_disk s !! g) as Hdisk by done.
  split; [|split_and!; [done..|]].
  - eapply (shard_step_inv k k _ s s' sh sh1 H Hsh); try done; cbn; try lia.
    + intros g Hg. left. exact Hg.
    + apply (inv_fresh _ _ H).
    + apply (inv_next _ _ H).
  - intros id' x. rewrite (shard_step_content k _ s s' sh sh1 H Hsh eq_refl Es Hdisk). destruct (decide _) as [E|E].
    + unfold shard_content. change (ivs_of sh1 id') with (ivs_in (sh_index sh1) id'). rewrite Hres.
      change (contains x iv) with ((offset <=? x) && (x <? offset + len)). rewrite (shard_step_before _ s sh Hsh id' x E).
      destruct (_ && _); done.
    + destruct (bool_decide_reflect (id' = id)) as [->|]; done.
Qed.

(** ** Markers *)

Lemma append_marker_spec k now id mk s :
  Inv (S k) s -> Z.of_nat (length id) <= maxFileIDLen -> st_version s + 1 < 2 ^ 64 ->
  good (SegmentSize (st_cfg s)) (mk (st_version s + 1), id, []) ->
  exists s', append_marker now id (fun seg version d => put_record seg (mk version) id [] d) s = (inr (st_version s + 1), s') /\
    Inv k s' /\ st_version s' = st_version s + 1 /\ st_cfg s' = st_cfg s /\ st_closed s' = st_closed s /\
    forall id' x, content s' id' x = content s id' x.
Proof.
  intros H Hid Hv Hg. pose proof (shardIndex_lt s id (proj2 (inv_shards _ _ H))) as Hi.
  unfold append_marker. destruct (Z.gtb_spec (Z.of_nat (length id)) maxFileIDLen); [lia|].
  destruct (rotate_spec k now (shardIndex s id) (recordLen (Z.of_nat (length id)) 0) s H Hi) as (s1 & E1 & H1 & (Q1 & Q2 & Q3 & _ & Q4)). rewrite E1.
  rewrite (nextVersion_eq k s1 H1) by lia. rewrite Q3. set (v' := st_version s + 1) in *.
  pose proof (shardFor_lookup _ _ id H1) as Hsh. rewrite (shardIndex_cfg s s1) in Hsh by done. unfold shardFor in Hsh.
  rewrite (shardIndex_cfg s s1) in Hsh by done. set (sh := shard_at s1 (shardIndex s id)) in *.
  pose proof (inv_each _ _ H1 _ _ Hsh) as [Hsegs Hix]. rewrite <- Q1 in Hg. set (S0 := SegmentSize (st_cfg s1)) in *.
  destruct (put_record (sh_active sh) (mk v') id [] (st_disk s1)) as [seg d] eqn:Ep.
  assert (seg = (put_record (sh_active sh) (mk v') id [] (st_disk s1)).1) as Eseg by now rewrite Ep.
  assert (d = (put_record (sh_active sh) (mk v') id [] (st_disk s1)).2) as Ed by now rewrite Ep.
  set (seg' := noteMinVersion v' seg). set (s2 := put_shard (shardIndex s id) (set_active seg' sh) (set_disk d (set_next (st_nextSeg s1) v' s1))).
  assert (sg_id seg' = sg_id seg /\ sg_tail seg' = sg_tail seg) as [Ei Et] by (unfold seg', noteMinVersion; now case_match).
  assert (same_segs (set_active seg sh) (set_active seg' sh)) as Hsame by now apply set_active_same.
  assert (sg_id seg = sg_id (sh_active sh)) as Eid by now rewrite Eseg.
  assert (forall g, owns (set_active seg' sh) g <-> owns sh g) as Hown by (intros g; apply set_active_owns; congruence).
  assert (disk_keeps S0 (owns sh) (st_disk s1) d) as Hk by (rewrite Ed; now apply put_keeps).
  assert (forall g, ~ owns sh g -> g < st_nextSeg s1 -> st_disk s2 !! g = st_disk s1 !! g) as Hdisk.
  { intros g Hg' _. cbn. rewrite Ed. apply put_other. intros ->. apply Hg', active_owned. }
  assert (Inv k s2 /\ forall id' x, content s2 id' x = content s1 id' x) as [H2 Q2'].
  { pose proof (inv_version _ _ H1). split.
    - eapply (shard_step_inv k k (shardIndex s id) s1 s2 sh (set_active seg' sh) H1 Hsh); try done; cbn; try lia.
      + split; [eapply same_segs_inv; [exact Hsame|]; rewrite Eseg, Ed; now apply put_segs|].
        eapply index_inv_mono; [apply Hown|exact Hk| |exact Hix]. lia.
      + intros g Hg'. left. now apply Hown.
      + intros g f. rewrite Ed. intros Hf. apply (put_dom S0) in Hf as [f0 Hf0]; [|done]. eapply (inv_fresh _ _ H1); eauto.
      + apply (inv_next _ _ H1).
    - intros id' x. rewrite (shard_step_content k (shardIndex s id) s1 s2 sh (set_active seg' sh) H1 Hsh eq_refl eq_refl Hdisk). destruct (decide _) as [E|E]; [|done].
      rewrite (shard_step_before _ s1 sh Hsh id' x E). eapply (content_mono S0 _ _ (st_version s1)); [done|exact Hk|exact Hix]. }
  eexists. split; [reflexivity|]. destruct (same_bytes_spec k s2 (put_shard (shardIndex s id) (set_active seg' sh)
    (set_disk (sync_file (sg_id seg') d) (set_next (st_nextSeg s1) v' s1))) H2) as [H3 Q3']; try done.
  { intros g. apply sync_file_lookup. }
  split_and!; try done. intros id' x. now rewrite Q3', Q2', Q4.
Qed.

(** ** Cutting the index *)

Lemma put_ivs_in id kept ix id' : is_Some (ix !! id) ->
  ivs_in (put_ivs id kept ix) id' = if decide (id' = id) then kept else ivs_in ix id'.
Proof.
  intros [fi E]. unfold ivs_in, put_ivs. destruct (decide (id' = id)) as [->|Hne]; destruct kept as [|e kept].
  - now rewrite lookup_delete_eq.
  - now rewrite lookup_alter_eq, E.
  - now rewrite lookup_delete_ne.
  - now rewrite lookup_alter_ne.
Qed.

Lemma ivs_in_Some ix id fi : ix !! id = Some fi -> ivs_in ix id = fi_ivs fi.
Proof. unfold ivs_in. now intros ->. Qed.

Lemma resolve_cut ivs kept (P : Z -> bool) x : wf ivs -> wf kept ->
  (forall x c, has_cell kept x c <-> has_cell ivs x c /\ P x = true) ->
  resolve kept x = if P x then resolve ivs x else None.
Proof.
  intros Hw Hw' Hc. destruct (P x) eqn:E.
  - apply resolve_ext; [done..|]. intros c. rewrite Hc, E. intuition.
  - apply resolve_None; [done|]. intros c Hcell. apply Hc in Hcell as [_ Hx]. congruence.
Qed.

Lemma cut_index_spec k id cut (P : Z -> bool) s :
  Inv k s ->
  (forall ivs, wf ivs -> Forall (fun e => iv_version e <= st_version s) ivs ->
     wf (cut ivs).1.1 /\ forall x c, has_cell (cut ivs).1.1 x c <-> has_cell ivs x c /\ P x = true) ->
  let s' := cut_index id cut s in
  Inv k s' /\ st_version s' = st_version s /\ st_cfg s' = st_cfg s /\ st_closed s' = st_closed s /\
  forall id' x, content s' id' x = if bool_decide (id' = id) && negb (P x) then Hole else content s id' x.
Proof.
  intros H Hcut. cbv zeta. pose proof (shardFor_lookup _ _ id H) as Hsh. pose proof (inv_version _ _ H) as Hv0.
  pose proof (inv_each _ _ H _ _ Hsh) as [Hsegs Hix]. unfold cut_index. fold (shardFor s id). set (sh := shardFor s id) in *.
  destruct (sh_index sh !! id) as [fi|] eqn:E.
  2: { split_and!; try done. intros id' x. destruct (bool_decide_reflect (id' = id)) as [->|]; cbn; [|done].
       destruct (P x); cbn; [done|]. unfold content, shard_content, ivs_of. fold sh. now rewrite E. }
  destruct (cut (fi_ivs fi)) as [[kept dirty] dead] eqn:Ec.
  destruct (Hcut (fi_ivs fi)) as [Hw Hc]; [eapply Hix; eauto|eauto using older|]. rewrite Ec in Hw, Hc. cbn [fst] in Hw, Hc.
  set (sh1 := charge dead _). set (s' := add_counts _ _ _ _).
  assert (same_segs sh sh1) as Hsame by (eapply same_segs_trans; [apply same_segs_index|apply charge_same]).
  assert (sh_index sh1 = put_ivs id kept (sh_index sh)) as Ei by (unfold sh1; now rewrite charge_index).
  assert (st_shards s' = <[shardIndex s id := sh1]> (st_shards s)) as Es by done.
  assert (forall g, ~ owns sh g -> g < st_nextSeg s -> st_disk s' !! g = st_disk s !! g) as Hdisk by done.
  assert (forall id' x, resolve (ivs_in (sh_index sh1) id') x =
    if bool_decide (id' = id) && negb (P x) then None else resolve (ivs_in (sh_index sh) id') x) as Hres.
  { intros id' x. rewrite Ei, put_ivs_in by eauto. destruct (decide (id' = id)) as [->|Hne].
    - rewrite bool_decide_true, (ivs_in_Some _ _ _ E) by done. cbn. rewrite (resolve_cut (fi_ivs fi) kept P) by (eauto; eapply Hix; eauto).
      now destruct (P x).
    - now rewrite bool_decide_false. }
  split; [|split_and!; [done..|]].
  - eapply (shard_step_inv k k _ s s' sh sh1 H Hsh eq_refl Es Hdisk); cbn; try lia.
    + split; [now apply (same_segs_inv _ _ sh)|]. rewrite Ei.
      apply (index_inv_mono _ (st_disk s) _ (st_version s) _ sh); [intros g; now apply same_segs_owns|apply disk_keeps_refl|reflexivity|].
      eapply index_inv_sub; [exact Hix|]. intros id' fi' E'. assert (ivs_in (put_ivs id kept (sh_index sh)) id' = fi_ivs fi') as Eiv by now apply ivs_in_Some.
      rewrite put_ivs_in in Eiv by eauto. destruct (decide (id' = id)) as [->|Hne].
      * subst kept. split; [done|]. intros x c Hx. exists fi. split; [done|]. now apply Hc.
      * rewrite <- Eiv. split; [eapply ivs_in_wf; exact Hix|]. intros. now apply ivs_in_file.
    + intros g. rewrite (same_segs_owns sh sh1) by done. auto.
    + apply (inv_fresh _ _ H).
    + apply (inv_next _ _ H).
  - intros id' x. rewrite (shard_step_content k _ s s' sh sh1 H Hsh eq_refl Es Hdisk). destruct (decide _) as [E'|E'].
    + unfold shard_content. change (ivs_of sh1 id') with (ivs_in (sh_index sh1) id'). rewrite Hres.
      rewrite (shard_step_before _ s sh Hsh id' x E'). destruct (_ && _); done.
    + destruct (bool_decide_reflect (id' = id)) as [->|]; done.
Qed.

Lemma bury_all ivs v : Forall (fun e => iv_version e <= v) ivs -> (bury ivs v).1.1 = [].
Proof.
  intros H. rewrite bury_kept. induction H as [|e ivs He H IH]; [done|]. cbn. destruct (Z.gtb_spec (iv_version e) v); [lia|done].
Qed.

Lemma clip_cells ivs v n : wf ivs -> Forall (fun e => iv_version e <= v) ivs ->
  wf (clip ivs v n).1.1 /\ forall x c, has_cell (clip ivs v n).1.1 x c <-> has_cell ivs x c /\ (x <? n) = true.
Proof.
  intros Hw Hv. rewrite clip_kept. pose proof Hw as [Hok _]. rewrite List.Forall_forall in Hok, Hv. split.
  - apply flat_map_wf; [|done]. intros e He. destruct (clip1_spec v n e (Hok e He)) as (? & ? & _). auto.
  - intros x c. rewrite has_cell_flat_map. split.
    + intros (e & He & Hc). apply clip1_spec in Hc as (Hx & <- & Hn); [|auto]. specialize (Hv e He).
      split; [now exists e|]. apply Z.ltb_lt. lia.
    + intros [(e & He & Hx & Ec) Hn%Z.ltb_lt]. exists e. split; [done|]. apply clip1_spec; [auto|]. auto.
Qed.

(** ** Delete and Truncate *)

Lemma tomb_good S id version : Z.of_nat (length id) <= maxFileIDLen -> 0 <= version < 2 ^ 64 -> 0 <= S ->
  good S (tomb_header id version, id, []).
Proof.
  unfold maxFileIDLen. intros. split; [|cbn; lia]. unfold written_ok, header_ok, in_u16, in_u64, in_u32, in_u8.
  cbn [tomb_header rh_FileIDLen rh_FileOffset rh_PayloadLen rh_Version rh_Flags length].
  split_and!; try lia; try reflexivity; vm_compute; congruence.
Qed.

Lemma trunc_good S id version n : Z.of_nat (length id) <= maxFileIDLen -> 0 <= version < 2 ^ 64 -> 0 <= S -> 0 <= n < 2 ^ 63 ->
  good S (trunc_header id version n, id, []).
Proof.
  unfold maxFileIDLen. intros. split; [|cbn; lia]. unfold written_ok, header_ok, in_u16, in_u64, in_u32, in_u8.
  cbn [trunc_header rh_FileIDLen rh_FileOffset rh_PayloadLen rh_Version rh_Flags length].
  split_and!; try lia; try reflexivity; vm_compute; congruence.
Qed.

(** Up to the reclamation of what the deletion emptied. *)
Lemma Delete_index k now id s :
  Inv (S k) s -> 0 <= SegmentSize (st_cfg s) -> Z.of_nat (length id) <= maxFileIDLen -> st_version s + 1 < 2 ^ 64 ->
  exists s1, appendTombstone now id s = (inr (st_version s + 1), s1) /\
    let s' := cut_index id (fun ivs => bury ivs (st_version s + 1)) s1 in
    Inv k s' /\ st_version s' = st_version s + 1 /\ st_cfg s' = st_cfg s /\ st_closed s' = st_closed s /\ st_cfg s1 = st_cfg s /\
    forall id' x, content s' id' x = if bool_decide (id' = id) then Hole else content s id' x.
Proof.
  intros H HS Hid Hv. pose proof (inv_version _ _ H).
  destruct (append_marker_spec k now id (tomb_header id) s H Hid Hv) as (s1 & E1 & H1 & Ev & Ec & Ecl & Q); [apply tomb_good; lia|].
  exists s1. split; [exact E1|]. cbv zeta.
  destruct (cut_index_spec k id (fun ivs => bury ivs (st_version s + 1)) (fun _ => false) s1 H1) as (H2 & Ev2 & Ec2 & Ecl2 & Q2).
  { intros ivs Hw Ho. rewrite Ev in Ho. rewrite bury_all by done. split; [split; constructor|]. intros x c.
    split; [now intros ?%has_cell_nil|now intros [_ ?]]. }
  split_and!; try congruence; try done. intros id' x. rewrite Q2, Q. destruct (bool_decide _); done.
Qed.

Lemma not_past k s id n x : Inv k s -> past (ivs_of (shardFor s id) id) n = false -> n <= x -> content s id x = Hole.
Proof.
  intros H Ep Hx. pose proof (shardFor_lookup _ _ id H) as Hsh. pose proof (inv_each _ _ H _ _ Hsh) as [_ Hix].
  unfold content, shard_content. change (ivs_of (shardFor s id) id) with (ivs_in (sh_index (shardFor s id)) id) in *.
  assert (resolve (ivs_in (sh_index (shardFor s id)) id) x = None) as ->; [|done].
  pose proof (ivs_in_wf _ _ _ _ _ id Hix) as Hw. apply resolve_None; [done|]. intros c (e & He & Hin & _).
  apply not_true_iff_false in Ep. apply Ep. unfold past. apply existsb_exists. exists e. split; [done|].
  destruct Hw as [Hok _]. rewrite List.Forall_forall in Hok. rewrite iend_eq by auto. unfold in_iv in Hin. apply Z.gtb_lt. lia.
Qed.

Lemma Truncate_spec k now id n s :
  Inv (S k) s -> st_closed s = false -> 0 <= SegmentSize (st_cfg s) -> Z.of_nat (length id) <= maxFileIDLen -> st_version s + 1 < 2 ^ 64 ->
  0 <= n < 2 ^ 63 ->
  exists s', Truncate now id n s = (inr tt, s') /\ Inv k s' /\ st_version s' <= st_version s + 1 /\ st_version s <= st_version s' /\
    st_cfg s' = st_cfg s /\ st_closed s' = false /\
    forall id' x, content s' id' x = if bool_decide (id' = id) && (n <=? x) then Hole else content s id' x.
Proof.
  intros H Hcl HS Hid Hv Hn. pose proof (inv_version _ _ H). unfold Truncate. rewrite Hcl. destruct (Z.ltb_spec n 0); [lia|].
  pose proof (shardFor_lookup _ _ id H) as Hsh. pose proof (inv_each _ _ H _ _ Hsh) as [Hsegs Hix].
  destruct (past (ivs_of (shardFor s id) id) n) eqn:Ep; cbn [negb].
  - destruct (append_marker_spec k now id (fun v => trunc_header id v n) s H Hid Hv) as (s1 & E1 & HI & Ev & Ec & Ecl & Q);
      [apply trunc_good; lia|]. unfold appendTruncateMarker, writeTruncateRecord. rewrite E1.
    destruct (cut_index_spec k id (fun ivs => clip ivs (st_version s + 1) n) (fun x => x <? n) s1 HI) as (H2 & Ev2 & Ec2 & Ecl2 & Q2).
    { intros ivs Hw Ho. rewrite Ev in Ho. now apply clip_cells. }
    eexists. split; [reflexivity|]. split_and!; [done|lia|lia|congruence|congruence|]. intros id' x. rewrite Q2, Q.
    now rewrite <- Z.leb_antisym.
  - exists s. split; [done|]. split_and!; [|lia|lia|done|done|].
    + destruct H as [I1 I2 I3 I4 I5 I6]. split; try done. lia.
    + intros id' x. destruct (bool_decide_reflect (id' = id)) as [->|]; cbn; [|done]. destruct (Z.leb_spec n x); [|done].
      now apply (not_past (S k) s id n).
Qed.
