(* ===== verification/JournalEvict.v ===== *)
(** * The journal store: what eviction does to the contents

    Dropping a segment loses nothing but the local copy of bytes that are marked cold. *)

From S2P Require Import Prelude.
From S2P Require Import HoleMap.
From S2P Require Import JournalIndex.
From S2P Require Import JournalRecord.
From S2P Require Import JournalStore.
From S2P Require Import JournalReclaim.
From S2P Require Import JournalRecover.
From S2P Require Import JournalInv.
From S2P Require Import JournalOps.

(** ** Mapping over intervals *)

Section ranges.
Context (f : interval -> interval).
Hypothesis Hf : forall e, iv_fileOff (f e) = iv_fileOff e /\ iv_length (f e) = iv_length e.

Lemma map_ranges_wf ivs : wf ivs -> wf (map f ivs).
Proof.
  intros [Hok Hs]. split.
  - apply Forall_map. eapply Forall_impl; [exact Hok|]. intros e. unfold iv_ok. destruct (Hf e) as [-> ->]. done.
  - clear Hok. induction Hs as [|e ivs Hs IH He]; cbn; constructor; [done|]. apply Forall_map. eapply Forall_impl; [exact He|].
    intros e'. unfold iv_before. destruct (Hf e) as [-> ->], (Hf e') as [-> _]. done.
Qed.

Lemma map_ranges_cell ivs x c : has_cell (map f ivs) x c <-> exists e, In e ivs /\ in_iv x e /\ cell_of (f e) x = c.
Proof.
  unfold has_cell. setoid_rewrite in_map_iff. split.
  - intros (e' & (e & <- & He) & Hx & Hc). exists e. unfold in_iv in *. destruct (Hf e) as [Eo El]. rewrite Eo, El in Hx. auto.
  - intros (e & He & Hx & Hc). exists (f e). split; [eauto|]. unfold in_iv in *. destruct (Hf e) as [-> ->]. auto.
Qed.

(** The cells change as [g] says. *)
Lemma map_ranges_resolve (g : cell -> cell) ivs x : wf ivs ->
  (forall e, In e ivs -> in_iv x e -> cell_of (f e) x = g (cell_of e x)) ->
  resolve (map f ivs) x = g <$> resolve ivs x.
Proof.
  intros Hw Hg. pose proof (map_ranges_wf ivs Hw) as Hw'. destruct (resolve ivs x) as [c|] eqn:E; cbn.
  - apply resolve_has_cell in E as (e & He & Hx & <-); [|done]. apply resolve_has_cell; [done|]. apply map_ranges_cell.
    exists e. auto.
  - apply resolve_None; [done|]. intros c (e & He & Hx & _)%map_ranges_cell. rewrite resolve_None in E by done.
    apply (E (cell_of e x)). exists e. auto.
Qed.

End ranges.

Lemma ivs_in_map_ivs f ix id : ivs_in (map_ivs f ix) id = map f (ivs_in ix id).
Proof. unfold ivs_in, map_ivs. rewrite lookup_fmap. now destruct (ix !! id). Qed.

Lemma map_ivs_lookup f ix id fi : map_ivs f ix !! id = Some fi -> exists fi0, ix !! id = Some fi0 /\ fi_ivs fi = map f (fi_ivs fi0).
Proof. unfold map_ivs. rewrite lookup_fmap. destruct (ix !! id) as [fi0|]; [|done]. intros [= <-]. now exists fi0. Qed.

(** A map over the intervals keeps the invariant when every cell it makes is all right and
    keeps its version. *)
Lemma index_inv_map S d v sh f ix :
  (forall e, iv_fileOff (f e) = iv_fileOff e /\ iv_length (f e) = iv_length e /\ iv_version (f e) = iv_version e) ->
  index_inv S d v sh ix ->
  (forall id fi e x, ix !! id = Some fi -> In e (fi_ivs fi) -> in_iv x e -> cell_inv S d v sh id (cell_of e x) ->
     cell_inv S d v sh id (cell_of (f e) x)) ->
  index_inv S d v sh (map_ivs f ix).
Proof.
  intros Hf (Hw & Hc & Hu) Hnew.
  assert (forall e, iv_fileOff (f e) = iv_fileOff e /\ iv_length (f e) = iv_length e) as Hr by (intros e; destruct (Hf e) as (? & ? & _); auto).
  assert (forall id x c, has_file (map_ivs f ix) id x c -> exists fi e, ix !! id = Some fi /\ In e (fi_ivs fi) /\ in_iv x e /\
    has_file ix id x (cell_of e x) /\ c = cell_of (f e) x) as Hin.
  { intros id x c (fi & E & Hcell). apply map_ivs_lookup in E as (fi0 & E & Ei). rewrite Ei in Hcell.
    apply (map_ranges_cell f Hr) in Hcell as (e & He & Hx & <-). exists fi0, e. split_and!; try done. exists fi0. split; [done|]. now exists e. }
  split_and!.
  - intros id fi E. apply map_ivs_lookup in E as (fi0 & E & ->). apply map_ranges_wf; eauto.
  - intros id x c (fi & e & E & He & Hx & Hfile & ->)%Hin. eapply Hnew; eauto.
  - intros id x c id' x' c' (fi & e & _ & _ & _ & Hfile & ->)%Hin (fi' & e' & _ & _ & _ & Hfile' & ->)%Hin. cbn.
    rewrite (proj2 (proj2 (Hf e))), (proj2 (proj2 (Hf e'))). intros Ev. eapply Hu; [exact Hfile|exact Hfile'|exact Ev].
Qed.

(** ** Retiring a segment *)

(** No live interval of the shard is in the segment. *)
Definition unreferenced (sh : shard) (g : Z) : Prop :=
  forall id x c, has_file (sh_index sh) id x c -> c_cold c = false -> c_seg c <> g.

Lemma retireSegment_spec k i m s sh :
  Inv k s -> st_shards s !! i = Some sh -> sh_sealed sh !! sg_id m = Some m -> unreferenced sh (sg_id m) ->
  let s' := (retireSegment i m s).2 in
  Inv k s' /\ quiet s s' /\ st_shards s' = <[i := set_sealeds (delete (sg_id m) (sh_sealed sh)) sh]> (st_shards s) /\
  st_nextSeg s' = st_nextSeg s /\ st_pinVersion s' = st_pinVersion s.
Proof.
  intros H Hsh Hm Hun. cbv zeta. pose proof (inv_each _ _ H _ _ Hsh) as [Hsegs Hix]. set (S0 := SegmentSize (st_cfg s)) in *.
  unfold retireSegment. assert (shard_at s i = sh) as -> by (unfold shard_at; now rewrite Hsh). cbn [snd].
  set (sh' := set_sealeds _ sh). set (s' := add_counts _ _ _ _). destruct Hsegs as (A1 & A2 & A3).
  assert (sg_id m <> sg_id (sh_active sh)) as Hna by congruence.
  assert (forall g, g <> sg_id m -> segment sh' g = segment sh g) as Hseg.
  { intros g Hg. unfold segment. cbn. destruct (_ =? g); [done|]. now rewrite lookup_delete_ne by congruence. }
  assert (segment sh' (sg_id m) = None) as Hgone.
  { unfold segment. cbn. destruct (Z.eqb_spec (sg_id (sh_active sh)) (sg_id m)); [congruence|]. apply lookup_delete_eq. }
  assert (forall g, owns sh' g -> owns sh g /\ g <> sg_id m) as Hown.
  { intros g [m' Hm']. destruct (decide (g = sg_id m)) as [->|Hg]; [congruence|]. split; [|done]. rewrite Hseg in Hm' by done. now exists m'. }
  assert (owns sh (sg_id m)) as Hownm.
  { unfold owns, segment. destruct (_ =? _); [eauto|]. rewrite Hm. eauto. }
  assert (st_shards s' = <[i := sh']> (st_shards s)) as Es by done.
  assert (forall g, ~ owns sh g -> g < st_nextSeg s -> st_disk s' !! g = st_disk s !! g) as Hdisk.
  { intros g Hg _. cbn. rewrite lookup_delete_ne; [done|]. intros E. rewrite <- E in Hg. now apply Hg. }
  assert (disk_keeps S0 (fun g => g <> sg_id m) (st_disk s) (st_disk s')) as Hk.
  { apply disk_keeps_eq. intros g Hg. cbn. now rewrite lookup_delete_ne by congruence. }
  assert (forall id x c, has_file (sh_index sh) id x c -> cell_inv S0 (st_disk s') (st_version s) sh' id c /\
    (c_cold c = false -> byte_of (st_disk s') c = byte_of (st_disk s) c)) as Hcell.
  { intros id x c Hfile. destruct (proj1 (proj2 Hix) _ _ _ Hfile) as [Hv Hc]. split.
    - split; [done|]. intros Ec. destruct (Hc Ec) as (Ho & f & Hf & Hheld). pose proof (Hun _ _ _ Hfile Ec) as Hne. split.
      + unfold owns. now rewrite Hseg.
      + exists f. cbn. now rewrite lookup_delete_ne.
    - intros Ec. pose proof (Hun _ _ _ Hfile Ec) as Hne. unfold byte_of. cbn. now rewrite lookup_delete_ne. }
  pose proof (inv_version _ _ H). pose proof (inv_next _ _ H). split; [|split; [|done]].
  - eapply (shard_step_inv k k i s s' sh sh' H Hsh eq_refl Es Hdisk); cbn; try lia.
    + split.
      * split_and!; [|cbn; rewrite lookup_delete_ne by done; done|].
        -- intros g m'. cbn. rewrite lookup_delete_Some. intros [_ ?]. eauto.
        -- intros g t Ht. assert (owns sh' g) as [_ Hg]%Hown by (apply tail_owns; eauto). unfold tail_of in Ht. rewrite Hseg in Ht by done.
           cbn. rewrite lookup_delete_ne by done. apply A3. exact Ht.
      * destruct Hix as (Hw & _ & Hu). split_and!; [done| |done]. intros. eapply Hcell; eauto.
    + intros g [? _]%Hown. auto.
    + intros g f. rewrite lookup_delete_Some. intros [_ Hf]. eapply (inv_fresh _ _ H); eauto.
  - split_and!; [done..|]. intros id x. rewrite (shard_step_content k i s s' sh sh' H Hsh eq_refl Es Hdisk).
    destruct (decide _) as [E|E]; [|done]. rewrite (shard_step_before i s sh Hsh id x E).
    unfold shard_content, ivs_of. cbn [sh' set_sealeds sh_index]. destruct (sh_index sh !! id) as [fi|] eqn:Ef; [|done].
    unfold byte_at_cell. destruct (resolve (fi_ivs fi) x) as [c|] eqn:Er; [|done]. destruct (c_cold c) eqn:Ec; [done|]. f_equal.
    eapply Hcell; [|done]. eapply has_file_resolve; [eapply Hix|..]; eauto.
Qed.

(** ** Evicting a segment *)

(** Nothing changes but that some known bytes are cold. *)
Definition cooled (s s' : Store) : Prop :=
  st_cfg s' = st_cfg s /\ st_closed s' = st_closed s /\ st_version s' = st_version s /\
  st_evictionDisabled s' = st_evictionDisabled s /\
  forall id x, content s' id x = content s id x \/ (content s' id x = Cold /\ exists b, content s id x = Known b).

Lemma quiet_cooled s s' : quiet s s' -> cooled s s'.
Proof. intros (? & ? & ? & ? & Q). split_and!; auto. Qed.

Lemma cooled_refl s : cooled s s.
Proof. apply quiet_cooled, quiet_refl. Qed.

Lemma cooled_trans a b c : cooled a b -> cooled b c -> cooled a c.
Proof.
  intros (A1 & A2 & A3 & A4 & A5) (B1 & B2 & B3 & B4 & B5). split_and!; [congruence..|]. intros id x.
  destruct (B5 id x) as [E|[E [v Ev]]], (A5 id x) as [E'|[E' [v' Ev']]]; rewrite ?E, ?E'; eauto.
  right. split; [done|]. rewrite <- E'. eauto.
Qed.

Definition cool (g : Z) (iv : interval) : interval :=
  if (sl_SegmentID (iv_loc iv) =? g) && negb (iv_cold iv) then set_cold iv else iv.

Definition cool_cell (g : Z) (c : cell) : cell :=
  if (c_seg c =? g) && negb (c_cold c) then mkCell (c_version c) (c_seg c) (c_off c) (c_recOff c) true else c.

Lemma cool_range g e : iv_fileOff (cool g e) = iv_fileOff e /\ iv_length (cool g e) = iv_length e /\ iv_version (cool g e) = iv_version e.
Proof. unfold cool. now case_match. Qed.

Lemma cell_of_cool g e x : cell_of (cool g e) x = cool_cell g (cell_of e x).
Proof. unfold cool, cool_cell. cbn. now destruct (_ && _). Qed.

Lemma evictSegment_spec k i m s sh :
  Inv k s -> st_shards s !! i = Some sh -> sh_sealed sh !! sg_id m = Some m ->
  let s' := (evictSegment i m s).2 in
  Inv k s' /\ cooled s s' /\ st_nextSeg s' = st_nextSeg s /\ st_pinVersion s' = st_pinVersion s /\
  st_shards s' = <[i := mkShard (sh_active sh) (delete (sg_id m) (sh_sealed sh)) (map_ivs (cool (sg_id m)) (sh_index sh))]> (st_shards s).
Proof.
  intros H Hsh Hm. cbv zeta. pose proof (inv_each _ _ H _ _ Hsh) as [Hsegs Hix]. set (S0 := SegmentSize (st_cfg s)) in *.
  unfold evictSegment. assert (shard_at s i = sh) as -> by (unfold shard_at; now rewrite Hsh). fold (cool (sg_id m)).
  set (sh1 := set_index _ sh). set (s1 := put_shard i sh1 s).
  assert (st_shards s1 = <[i := sh1]> (st_shards s)) as Es by done.
  assert (forall g, ~ owns sh g -> g < st_nextSeg s -> st_disk s1 !! g = st_disk s !! g) as Hdisk by done.
  pose proof (inv_version _ _ H). pose proof (inv_next _ _ H).
  assert (Inv k s1) as HI1.
  { eapply (shard_step_inv k k i s s1 sh sh1 H Hsh eq_refl Es Hdisk); cbn; try lia.
    - split; [apply (same_segs_inv _ _ sh); [apply same_segs_index|done]|].
      apply index_inv_map; [apply cool_range| |].
      + eapply index_inv_mono; [|apply disk_keeps_refl|reflexivity|exact Hix]. done.
      + intros id fi e x _ _ _ [Hv Hc]. rewrite cell_of_cool. unfold cool_cell. destruct (_ && _); [|done]. split; done.
    - auto.
    - apply (inv_fresh _ _ H). }
  assert (cooled s s1) as Q1.
  { split_and!; [done..|]. intros id x. rewrite (shard_step_content k i s s1 sh sh1 H Hsh eq_refl Es Hdisk).
    destruct (decide _) as [E|E]; [|auto]. rewrite (shard_step_before i s sh Hsh id x E). unfold shard_content.
    change (ivs_of sh1 id) with (ivs_in (map_ivs (cool (sg_id m)) (sh_index sh)) id). rewrite ivs_in_map_ivs.
    rewrite (map_ranges_resolve (cool (sg_id m)) ltac:(intros e; destruct (cool_range (sg_id m) e) as (? & ? & _); auto) (cool_cell (sg_id m)));
      [|eapply ivs_in_wf; exact Hix|intros; apply cell_of_cool].
    change (ivs_of sh id) with (ivs_in (sh_index sh) id). destruct (resolve (ivs_in (sh_index sh) id) x) as [c|]; cbn; [|auto].
    unfold cool_cell. destruct (c_cold c) eqn:Ec; rewrite ?andb_false_r, ?andb_true_r, ?Ec; [auto|].
    destruct (_ =? _); cbn; rewrite ?Ec; [right; eauto|auto]. }
  assert (st_shards s1 !! i = Some sh1) as Hsh1 by (rewrite Es, list_lookup_insert_eq; [done|now apply lookup_lt_Some in Hsh]).
  destruct (retireSegment_spec k i m s1 sh1 HI1 Hsh1 Hm) as (H2 & Q2 & Es2 & En2 & Ep2).
  { intros id x c (fi & E & Hcell) Ec. apply map_ivs_lookup in E as (fi0 & _ & Ei). rewrite Ei in Hcell.
    apply (map_ranges_cell (cool (sg_id m))) in Hcell as (e & _ & _ & <-); [|intros e; destruct (cool_range (sg_id m) e) as (? & ? & _); auto].
    rewrite cell_of_cool in *. unfold cool_cell in *. destruct (Z.eqb_spec (c_seg (cell_of e x)) (sg_id m)) as [Eg|Eg]; [|done].
    exfalso. cbn [andb] in Ec. destruct (c_cold (cell_of e x)) eqn:E'; cbn [negb] in Ec; [congruence|discriminate Ec]. }
  split; [done|]. split; [eapply cooled_trans; [exact Q1|now apply quiet_cooled]|]. split; [done|]. split; [done|].
  rewrite Es2. cbn. rewrite list_insert_insert_eq. done.
Qed.

(** ** Passes *)

Lemma Inv_le k k' s : (k' <= k)%nat -> Inv k s -> Inv k' s.
Proof. intros Hk [I1 I2 I3 I4 I5 I6]. split; try done. lia. Qed.

Lemma sealed_list_in k s i sh m : Inv k s -> st_shards s !! i = Some sh -> In m (sealed_list sh) -> sh_sealed sh !! sg_id m = Some m.
Proof.
  intros H Hsh Hin. unfold sealed_list in Hin. apply list_elem_of_In, list_elem_of_fmap in Hin as ([g m'] & -> & Hin).
  apply elem_of_map_to_list in Hin. pose proof (inv_each _ _ H _ _ Hsh) as [(A1 & _) _]. cbn. now rewrite (A1 _ _ Hin).
Qed.

Lemma fold_colder_in l : forall b c, fold_left colder l b = Some c -> b = Some c \/ In c l.
Proof.
  induction l as [|a l IH]; intros b c Hc; cbn in *; [auto|]. destruct (IH _ _ Hc) as [E|?]; [|auto].
  unfold colder in E. destruct b as [b|]; [destruct (_ <? _)|]; injection E as <-; auto.
Qed.

Lemma claim_spec k s i m : Inv k s -> claimColdestEvictable s = Some (i, m) ->
  exists sh, st_shards s !! i = Some sh /\ sh_sealed sh !! sg_id m = Some m /\ evictable m = true /\ pinned s m = false.
Proof.
  intros H Hc. unfold claimColdestEvictable in Hc. apply fold_colder_in in Hc as [Hc|Hin]; [done|].
  apply list_elem_of_In, list_elem_of_bind in Hin as ([j sh] & Hin & Hj). apply list_elem_of_fmap in Hin as (m' & [= -> ->] & Hm).
  apply list_elem_of_In, filter_In in Hm as [Hm [He Hp%negb_true_iff]%andb_true_iff].
  apply elem_of_lookup_imap in Hj as (j' & sh' & [= -> ->] & Hsh). exists sh'. split_and!; [done| |done|done].
  eapply sealed_list_in; eauto.
Qed.

Lemma sealSyncedActives_from_spec now n : forall i k s, Inv (n + k) s -> (i + n <= ShardCount (st_cfg s))%nat ->
  exists b s', sealSyncedActives_from now i n s = (inr b, s') /\ Inv k s' /\ quiet s s'.
Proof.
  induction n as [|n IH]; intros i k s H Hi; cbn [sealSyncedActives_from].
  { exists false, s. split_and!; [done|done|apply quiet_refl]. }
  destruct (synced_active s (shard_at s i)).
  - destruct (sealSegment_spec (n + k) now i s H ltac:(lia)) as (s1 & -> & H1 & Q1 & _).
    destruct (IH (S i) k s1 H1) as (b & s2 & -> & H2 & Q2); [rewrite (proj1 Q1); lia|].
    exists true, s2. split_and!; [done|done|eauto using quiet_trans].
  - destruct (IH (S i) k s) as (b & s2 & -> & H2 & Q2); [eapply Inv_le; [|exact H]; lia|lia|]. eauto.
Qed.

Lemma sealSyncedActives_spec now k s : Inv (ShardCount (st_cfg s) + k) s ->
  exists b s', sealSyncedActives now s = (inr b, s') /\ Inv k s' /\ quiet s s'.
Proof.
  intros H. unfold sealSyncedActives. rewrite (proj1 (inv_shards _ _ H)). apply sealSyncedActives_from_spec; [done|lia].
Qed.

(** The segments a pass may create. *)
Definition seal_cost (s : Store) (allowActiveSeal : bool) : nat := if allowActiveSeal then ShardCount (st_cfg s) else 0.

Lemma sealed_count_insert s s' i sh sh' :
  st_shards s !! i = Some sh -> st_shards s' = <[i := sh']> (st_shards s) ->
  (sealed_count s' + size (sh_sealed sh) = sealed_count s + size (sh_sealed sh'))%nat.
Proof.
  unfold sealed_count. intros Hsh ->. rewrite insert_take_drop by now apply lookup_lt_Some in Hsh.
  rewrite <- (take_drop_middle (st_shards s) i sh) at 3 by done. rewrite !sum_list_with_app. cbn. lia.
Qed.

Lemma evictSegment_count k i m s sh : Inv k s -> st_shards s !! i = Some sh -> sh_sealed sh !! sg_id m = Some m ->
  sealed_count s = S (sealed_count (evictSegment i m s).2).
Proof.
  intros H Hsh Hm. destruct (evictSegment_spec k i m s sh H Hsh Hm) as (_ & _ & _ & _ & Es).
  pose proof (sealed_count_insert _ _ _ _ _ Hsh Es) as Hc. cbn [sh_sealed] in Hc.
  rewrite map_size_delete_Some in Hc by eauto. assert (size (sh_sealed sh) <> 0)%nat; [|lia].
  intros E%map_size_empty_iff. now rewrite E, lookup_empty in Hm.
Qed.

Lemma sealSyncedActives_from_count now n : forall i k s, Inv (n + k) s -> (i + n <= ShardCount (st_cfg s))%nat ->
  (sealed_count (sealSyncedActives_from now i n s).2 <= sealed_count s + n)%nat.
Proof.
  induction n as [|n IH]; intros i k s H Hi; cbn [sealSyncedActives_from]; [cbn; lia|]. destruct (synced_active s (shard_at s i)).
  - assert (i < ShardCount (st_cfg s))%nat as Hi' by lia.
    destruct (sealSegment_spec (n + k) now i s H Hi') as (s1 & -> & H1 & Q1 & _ & Es). pose proof (shard_lookup _ _ i H Hi') as Hsh.
    pose proof (sealed_count_insert _ _ _ _ _ Hsh Es) as Hc. cbn [sealed_over sh_sealed] in Hc.
    pose proof (inv_each _ _ H _ _ Hsh) as [(_ & A2 & _) _]. change (sg_id (set_sealed ?m)) with (sg_id m) in Hc. rewrite map_size_insert_None in Hc by done.
    specialize (IH (S i) k s1 H1). rewrite (proj1 Q1) in IH. destruct (sealSyncedActives_from now (S i) n s1) as [[e|b] s2]; cbn [snd] in *; lia.
  - specialize (IH (S i) k s (Inv_le (S n + k) (n + k) s ltac:(lia) H) ltac:(lia)). lia.
Qed.

(** The rounds an eviction pass can still take. *)
Definition rounds (allow : bool) (s : Store) : nat := (sealed_count s + (if allow then S (ShardCount (st_cfg s)) else 0))%nat.

Lemma evict_loop_spec now target fuel : forall allow res k s, Inv (seal_cost s allow + k) s -> (rounds allow s < fuel)%nat ->
  exists r s', evict_loop fuel now target allow res s = (inr r, s') /\ Inv k s' /\ cooled s s' /\
    (allow = false -> forall j, Inv j s -> Inv j s') /\ SegmentsEvicted res <= SegmentsEvicted r /\
    Z.of_nat (sealed_count s') + (SegmentsEvicted r - SegmentsEvicted res) <= Z.of_nat (sealed_count s + seal_cost s allow) /\
    (allow = false -> Z.of_nat (sealed_count s') + (SegmentsEvicted r - SegmentsEvicted res) = Z.of_nat (sealed_count s)).
Proof.
  induction fuel as [|fuel IH]; intros allow res k s H Hf; [lia|]. cbn [evict_loop].
  destruct (claimColdestEvictable s) as [[i m]|] eqn:Ec.
  - destruct (claim_spec _ _ _ _ H Ec) as (sh & Hsh & Hm & _). destruct (evictSegment_spec _ i m s sh H Hsh Hm) as (H1 & Q1 & _).
    pose proof (evictSegment_count _ _ _ _ _ H Hsh Hm) as Hc.
    assert (forall j, Inv j s -> Inv j (evictSegment i m s).2) as Hj by (intros j Hj; now destruct (evictSegment_spec _ i m s sh Hj Hsh Hm)).
    destruct (evictSegment i m s) as [freed s1]. cbn [snd] in *.
    assert (forall a, seal_cost s1 a = seal_cost s a) as Esc by (intros a; unfold seal_cost; now rewrite (proj1 Q1)).
    destruct (_ || _). { eexists _, s1. split; [done|]. cbn [SegmentsEvicted]. split_and!; [eapply Inv_le; [|exact H1]; lia|done|auto|lia|lia|lia]. }
    destruct (IH allow (mkEvictResult (SegmentsEvicted res + 1) (BytesFreed res + freed)) k s1) as (r & s2 & -> & H2 & Q2 & J2 & A1 & A2 & A3).
    { now rewrite Esc. } { unfold rounds in *. rewrite (proj1 Q1). lia. }
    cbn [SegmentsEvicted] in A1, A2, A3. rewrite Esc in A2. exists r, s2.
    split_and!; [done|done|eauto using cooled_trans|auto|lia|lia|intros E; specialize (A3 E); lia].
  - destruct allow; cbn [seal_cost] in H.
    + destruct (sealSyncedActives_spec now k s H) as (b & s1 & E & H1 & Q1).
      pose proof (sealSyncedActives_from_count now (length (st_shards s)) 0 k s) as Hc. rewrite (proj1 (inv_shards _ _ H)) in Hc.
      specialize (Hc H ltac:(lia)). pose proof E as E'. unfold sealSyncedActives in E'. rewrite (proj1 (inv_shards _ _ H)) in E'. rewrite E' in Hc. cbn [snd] in Hc.
      rewrite E. unfold rounds in Hf. destruct b.
      * destruct (IH false res k s1 H1) as (r & s2 & -> & H2 & Q2 & _ & A1 & A2 & _); [unfold rounds; lia|]. cbn [seal_cost] in *.
        exists r, s2. split_and!; [done|done|apply (cooled_trans _ s1); [now apply quiet_cooled|done]|done|lia|lia|done].
      * exists res, s1. cbn [seal_cost]. split_and!; [done|done|now apply quiet_cooled|done|lia|lia|done].
    + exists res, s. cbn [seal_cost]. split_and!; [done|done|apply cooled_refl|auto|lia|lia|lia].
Qed.

Lemma evict_spec now target allow k s : Inv (seal_cost s allow + k) s ->
  Inv k (evict now target allow s).2 /\ cooled s (evict now target allow s).2 /\
  (allow = false -> forall j, Inv j s -> Inv j (evict now target allow s).2) /\
  (st_closed s = false -> exists r, (evict now target allow s).1 = inr r /\ 0 <= SegmentsEvicted r /\
     Z.of_nat (sealed_count (evict now target allow s).2) + SegmentsEvicted r <= Z.of_nat (sealed_count s + seal_cost s allow) /\
     (allow = false -> Z.of_nat (sealed_count (evict now target allow s).2) + SegmentsEvicted r = Z.of_nat (sealed_count s))).
Proof.
  intros H. unfold evict. assert (Inv k s) as Hk by (eapply Inv_le; [|exact H]; lia).
  destruct (st_closed s) eqn:Ecl; cbn [fst snd]; [split_and!; [done|apply cooled_refl|done|done]|].
  destruct (st_evictionDisabled s); cbn [fst snd].
  { split_and!; [done|apply cooled_refl|done|]. intros _. eexists. split_and!; [reflexivity|cbn; lia..]. }
  match goal with |- context [evict_loop ?f ?n ?t ?a ?r s] => destruct (evict_loop_spec n t f a r k s H) as (r' & s' & -> & H' & Q' & J' & A1 & A2 & A3) end.
  { unfold rounds. rewrite (proj1 (inv_shards _ _ H)). destruct allow; lia. }
  cbn in *. split_and!; [done|done|done|]. intros _. exists r'. split_and!; [done|lia|lia|intros E; specialize (A3 E); lia].
Qed.

Lemma ensure_loop_spec now needed fuel : forall k s, Inv k s ->
  Inv k (ensure_loop fuel now needed s).2 /\ cooled s (ensure_loop fuel now needed s).2.
Proof.
  induction fuel as [|fuel IH]; intros k s H; cbn [ensure_loop]; (destruct (_ <=? _); [split; [done|apply cooled_refl]|]).
  { split; [done|apply cooled_refl]. }
  destruct (evict_spec now (st_diskBytes s + needed - MaxLocalBytes (st_cfg s)) false k s H) as (H1 & Q1 & _).
  destruct (evict _ _ _ s) as [[e|res] s1]; cbn in *; [auto|]. destruct (_ =? 0); [auto|]. destruct (IH k s1 H1) as [H2 Q2].
  eauto using cooled_trans.
Qed.

Lemma ensureSpace_spec now needed k s : Inv k s -> Inv k (ensureSpace now needed s).2 /\ cooled s (ensureSpace now needed s).2.
Proof.
  intros H. unfold ensureSpace. destruct (_ <=? 0); [split; [done|apply cooled_refl]|]. now apply ensure_loop_spec.
Qed.

Lemma ensureSpace_unlimited now needed s : MaxLocalBytes (st_cfg s) <= 0 -> ensureSpace now needed s = (inr tt, s).
Proof. intros H. unfold ensureSpace. destruct (Z.leb_spec (MaxLocalBytes (st_cfg s)) 0); [done|lia]. Qed.

(** ** Writes, whole *)

(** What a write of [data] at [offset] makes of the contents. *)
Definition written_over (s s' : Store) (id : FileID) (offset : Z) (data : list Z) : Prop :=
  forall id' x, content s' id' x =
    if bool_decide (id' = id) && ((offset <=? x) && (x <? offset + Z.of_nat (length data))) then Known (byte_at (Z.to_nat (x - offset)) data)
    else content s id' x.

(** What an append leaves: eviction first, then the write or an error. *)
Definition append_post (k : nat) (s : Store) (id : FileID) (offset : Z) (data : list Z) (r : (JErr + unit) * Store) : Prop :=
  exists s1, cooled s s1 /\ Inv k r.2 /\ st_cfg r.2 = st_cfg s /\ st_closed r.2 = st_closed s /\
    st_version s <= st_version r.2 <= st_version s + 1 /\
    match r.1 with inr _ => written_over s1 r.2 id offset data | inl _ => forall id' x, content r.2 id' x = content s1 id' x end.

Lemma append_post_error k s s1 id offset data e : Inv k s1 -> cooled s s1 -> append_post k s id offset data (inl e, s1).
Proof.
  intros H Q. exists s1. split; [done|]. destruct Q as (? & ? & ? & _). split_and!; try done; cbn; lia.
Qed.

Lemma append_post_nothing k s id offset : Inv k s -> append_post k s id offset [] (inr tt, s).
Proof.
  intros H. exists s. split; [apply cooled_refl|]. split_and!; [done..|cbn; lia|cbn; lia|]. intros id' x. cbn.
  replace ((offset <=? x) && (x <? offset + Z.of_nat 0)) with false by (symmetry; apply andb_false_iff; rewrite Z.leb_gt, Z.ltb_ge; lia).
  now destruct (bool_decide _).
Qed.

Lemma appendRecord_spec now id offset data synced k s :
  Inv (S k) s -> st_version s + 1 < 2 ^ 64 -> offset + Z.of_nat (length data) < 2 ^ 63 ->
  append_post k s id offset data (appendRecord ensureSpace now id offset data synced s).
Proof.
  intros H Hv Ho. unfold appendRecord. pose proof (Inv_le (S k) k s ltac:(lia) H) as Hk.
  destruct (st_closed s) eqn:Ecl; [apply append_post_error; [done|apply cooled_refl]|].
  destruct (Nat.eqb_spec (length data) 0) as [E0|]; [apply nil_length_inv in E0 as ->; now apply append_post_nothing|].
  destruct (Z.ltb_spec offset 0); [apply append_post_error; [done|apply cooled_refl]|].
  destruct (ensureSpace_spec now (recordLen (Z.of_nat (length id)) (Z.of_nat (length data))) (S k) s H) as [H1 Q1].
  destruct (ensureSpace _ _ s) as [[e|u] s1]; cbn [fst snd] in *; (assert (Inv k s1) as Hk1 by (eapply Inv_le; [|exact H1]; lia)).
  { now apply append_post_error. }
  destruct (Z.gtb_spec (Z.of_nat (length id)) maxFileIDLen) as [|Hid]; [now apply append_post_error|].
  destruct (Z.gtb_spec (Z.of_nat (length data)) maxPayloadLen) as [|Hpl]; [now apply append_post_error|].
  destruct (Z.gtb_spec (recordLen (Z.of_nat (length id)) (Z.of_nat (length data))) (SegmentSize (st_cfg s1) - segHeaderSize)) as [|Hrl];
    [now apply append_post_error|].
  destruct (rotate_spec k now (shardIndex s1 id) (recordLen (Z.of_nat (length id)) (Z.of_nat (length data))) s1 H1) as (s2 & -> & H2 & Q2);
    [apply shardIndex_lt, (inv_shards _ _ H1)|]. destruct Q2 as (Ec2 & Ecl2 & Ev2 & _ & Q2). pose proof Q1 as (Ec & Ecl1 & Ev & _ & _).
  destruct (append_in_shard_spec k s2 now id offset data synced H2) as (H3 & Ev3 & Q3); [lia|lia| |lia|].
  { unfold recordLen, recordHeaderSize, payloadCRCSize, segHeaderSize in Hrl. rewrite Ec2. lia. }
  exists s1. split; [done|]. cbn [fst snd]. split_and!; [done|cbn; congruence|cbn; congruence|lia|lia|]. intros id' x. rewrite Q3, Q2. done.
Qed.

(** ** Segments a deletion emptied *)

Lemma live_segs_spec k s i sh g : Inv k s -> st_shards s !! i = Some sh -> g ∉ live_segs sh -> unreferenced sh g.
Proof.
  intros H Hsh Hg id x c (fi & E & e & He & Hx & <-) Ec Es. apply Hg. unfold live_segs. apply elem_of_list_to_set, list_elem_of_bind.
  exists fi. split.
  - apply list_elem_of_fmap. exists e. split; [now rewrite <- Es|]. apply list_elem_of_In, filter_In. split; [done|]. cbn in Ec. now rewrite Ec.
  - apply list_elem_of_fmap. exists (id, fi). split; [done|]. now apply elem_of_map_to_list.
Qed.

Lemma retire_all_spec i l : forall k s sh, Inv k s -> st_shards s !! i = Some sh -> NoDup (map sg_id l) ->
  (forall m, In m l -> sh_sealed sh !! sg_id m = Some m /\ unreferenced sh (sg_id m)) ->
  Inv k (retire_all i l s) /\ quiet s (retire_all i l s).
Proof.
  induction l as [|m l IH]; intros k s sh H Hsh Hnd Hl; cbn [retire_all fold_left]; [split; [done|apply quiet_refl]|].
  destruct (Hl m ltac:(now left)) as [Hm Hun]. destruct (retireSegment_spec k i m s sh H Hsh Hm Hun) as (H1 & Q1 & Es & _).
  cbn [map] in Hnd. apply NoDup_cons in Hnd as [Hn Hnd].
  destruct (IH k _ _ H1 ltac:(rewrite Es, list_lookup_insert_eq; [reflexivity|now apply lookup_lt_Some in Hsh]) Hnd) as [H2 Q2].
  { intros m' Hm'. destruct (Hl m' ltac:(now right)) as [Hs' Hun']. split; [|exact Hun']. cbn. rewrite lookup_delete_ne; [done|].
    intros E. apply Hn. rewrite E. apply list_elem_of_In, in_map, Hm'. }
  split; [done|eauto using quiet_trans].
Qed.

Lemma sealed_list_nodup k s i sh : Inv k s -> st_shards s !! i = Some sh -> NoDup (map sg_id (sealed_list sh)).
Proof.
  intros H Hsh. pose proof (inv_each _ _ H _ _ Hsh) as [(A1 & _) _]. unfold sealed_list.
  assert (map sg_id (map_to_list (sh_sealed sh)).*2 = (map_to_list (sh_sealed sh)).*1) as ->; [|apply NoDup_fst_map_to_list].
  rewrite <- list_fmap_compose. apply list_fmap_ext. intros j [g m] Hj. cbn. apply A1. apply elem_of_map_to_list. eapply list_elem_of_lookup_2, Hj.
Qed.

Lemma reclaimEmptied_spec now i k s : Inv (S k) s -> (i < ShardCount (st_cfg s))%nat ->
  Inv k (reclaimEmptied now i s) /\ quiet s (reclaimEmptied now i s).
Proof.
  intros H Hi. pose proof (shard_lookup _ _ i H Hi) as Hsh. unfold reclaimEmptied. set (sh := shard_at s i) in *.
  assert (forall s1 sh1, Inv k s1 -> st_shards s1 !! i = Some sh1 -> sh_index sh1 = sh_index sh ->
    Inv k (retire_all i (emptied s1 (live_segs sh) (shard_at s1 i)) s1) /\ quiet s1 (retire_all i (emptied s1 (live_segs sh) (shard_at s1 i)) s1)) as Hall.
  { intros s1 sh1 H1 Hsh1 Ei. assert (shard_at s1 i = sh1) as -> by (unfold shard_at; now rewrite Hsh1).
    apply (retire_all_spec i _ k s1 sh1); [done|done| |].
    - eapply sublist_NoDup; [eapply (sealed_list_nodup _ _ _ _ H1 Hsh1)|]. unfold emptied.
      generalize (sealed_list sh1) as l. induction l as [|a l IH]; cbn; [constructor|]. destruct (_ && _); cbn; now constructor.
    - intros m Hm. apply filter_In in Hm as [Hm Hb]. split; [eapply sealed_list_in; eauto|].
      apply andb_true_iff in Hb as [[Hb _]%andb_true_iff _]. apply negb_true_iff, bool_decide_eq_false in Hb.
      pose proof (live_segs_spec _ _ _ _ _ H Hsh Hb) as Hun. intros id x c. rewrite Ei. apply Hun. }
  destruct (synced_active s sh && _).
  - destruct (sealSegment_spec k now i s H Hi) as (s1 & -> & H1 & Q1 & _ & Es).
    destruct (Hall s1 _ H1 ltac:(rewrite Es, list_lookup_insert_eq; [reflexivity|now apply lookup_lt_Some in Hsh]) eq_refl) as [H2 Q2].
    split; [done|eauto using quiet_trans].
  - apply Inv_le with (k' := k) in H; [|lia]. eauto.
Qed.

Lemma store_Delete_spec now id k s :
  Inv (S (S k)) s -> st_closed s = false -> 0 <= SegmentSize (st_cfg s) -> Z.of_nat (length id) <= maxFileIDLen -> st_version s + 1 < 2 ^ 64 ->
  exists s', store_Delete now id s = (inr tt, s') /\ Inv k s' /\ st_version s' = st_version s + 1 /\ st_cfg s' = st_cfg s /\ st_closed s' = false /\
    forall id' x, content s' id' x = if bool_decide (id' = id) then Hole else content s id' x.
Proof.
  intros H Hcl HS Hid Hv. unfold store_Delete, Delete. rewrite Hcl.
  destruct (Delete_index (S k) now id s H HS Hid Hv) as (s1 & -> & H1 & Ev & Ec & Ecl & Ec1 & Q). cbv zeta in *.
  eexists. split; [reflexivity|]. set (s2 := cut_index _ _ s1) in *.
  destruct (reclaimEmptied_spec now (shardIndex s1 id) k s2 H1) as [H2 (Q1 & Q2 & Q3 & _ & Q4)].
  { rewrite Ec, <- Ec1. apply shardIndex_lt. rewrite Ec1. apply (inv_shards _ _ H). }
  split_and!; [done|congruence|congruence|congruence|]. intros id' x. rewrite Q4. apply Q.
Qed.
