(* ===== verification/JournalGC.v ===== *)
(** * The journal store: garbage collection changes no byte

    The survivors of a victim are copied, the index points to the copies, the victim goes. *)

From S2P Require Import Prelude.
From S2P Require Import HoleMap.
From S2P Require Import JournalIndex.
From S2P Require Import JournalRecord.
From S2P Require Import JournalStore.
From S2P Require Import JournalReclaim.
From S2P Require Import JournalRecover.
From S2P Require Import JournalInv.
From S2P Require Import JournalOps.
From S2P Require Import JournalEvict.

(** ** What a scan of a segment finds *)

Lemma read_past_end S b ws : layout S b ws -> readRecordAt b (64 + total_size ws) S = inl EOF.
Proof.
  intros Hl. unfold readRecordAt, ReadAt. cbv zeta. rewrite drop_ge; [now rewrite take_nil|].
  pose proof (layout_length _ _ _ Hl). lia.
Qed.

Lemma scan_loop_sub S segSize b fuel : forall ws1 ws2 rec, layout S b (ws1 ++ ws2) ->
  In rec (scan_loop fuel b segSize S (64 + total_size ws1)).1 -> exists w off, In w ws2 /\ rec = read_back w off.
Proof.
  induction fuel as [|fuel IH]; intros ws1 ws2 rec Hl Hin; cbn [scan_loop] in Hin; [done|].
  destruct (_ <? _); [|done]. destruct ws2 as [|w ws2].
  - rewrite app_nil_r in Hl. rewrite (read_past_end _ _ _ Hl) in Hin. done.
  - assert (rec_at S b (64 + total_size ws1) w) as Hr by (exists ws1, ws2; auto). rewrite (rec_at_read _ _ _ _ Hr) in Hin.
    specialize (IH (ws1 ++ [w]) ws2 rec). rewrite <- app_assoc in IH. specialize (IH Hl).
    replace (64 + total_size ws1 + size_of w) with (64 + total_size (ws1 ++ [w])) in Hin
      by (rewrite total_size_app; change (total_size [w]) with (size_of w + 0); lia).
    destruct (scan_loop fuel b segSize S _) as [recs off']. cbn in Hin. destruct Hin as [<-|Hin].
    + exists w, (64 + total_size ws1). split; [now left|done].
    + destruct (IH Hin) as (w' & off & ? & ?). exists w', off. split; [now right|done].
Qed.

(** The header a marker is copied with. *)
Definition marker_record (mk : markRec) : written :=
  match mk with
  | MarkTombstone id v => (tomb_header id v, id, [])
  | MarkTruncate id v n => (trunc_header id v n, id, [])
  end.

Lemma marker_good S w off mk : good S w -> marker_of (read_back w off) = Some mk -> good S (marker_record mk).
Proof.
  destruct w as [[h id] p]. intros [[(H1 & H2 & H3 & H4 & _) (Ei & Ep & HS)] Ho]. unfold marker_of. cbn. unfold in_u16, in_u64, in_u32 in *.
  destruct (has (rh_Flags h) flagTombstone); [intros [= <-]; apply tomb_good; unfold maxFileIDLen; lia|].
  destruct (has (rh_Flags h) flagTruncate); [|done]. intros [= <-]. apply trunc_good; unfold maxFileIDLen; try lia.
  rewrite i64_small; [lia|unfold in_i64; lia].
Qed.

Lemma victim_markers_good S s m : SegmentSize (st_cfg s) = S ->
  (exists f ws, st_disk s !! sg_id m = Some f /\ layout S (fl_bytes f) ws) -> Forall (fun mk => good S (marker_record mk)) (victimMarkers s m).
Proof.
  intros <- (f & ws & Hf & Hl). apply Forall_forall. intros mk Hin. unfold victimMarkers in Hin. apply list_elem_of_omap in Hin as (rec & Hin & Hm).
  unfold segment_records in Hin. rewrite Hf in Hin. apply list_elem_of_In in Hin. apply (scan_loop_sub _ _ _ _ [] ws) in Hin as (w & off & Hw & ->); [|done].
  destruct Hl as (_ & _ & _ & Hok). rewrite List.Forall_forall in Hok. eapply marker_good; eauto.
Qed.

(** ** The target *)

(** A segment that is being filled: its file and what is in it. *)
Definition filling (S : Z) (t : segmentMeta) (d : gmap Z File) (b : list Z) : Prop :=
  exists f ws, d !! sg_id t = Some f /\ fl_bytes f = b /\ layout S b ws /\ sg_tail t = 64 + total_size ws.

Lemma filling_put S t d b h id p : good S (h, id, p) -> filling S t d b ->
  let r := put_record t h id p d in
  filling S r.1 r.2 (b ++ enc (h, id, p)) /\ rec_at S (b ++ enc (h, id, p)) (sg_tail t) (h, id, p) /\ sg_id r.1 = sg_id t /\
  (forall g, g <> sg_id t -> r.2 !! g = d !! g) /\ sg_deadBytes r.1 = sg_deadBytes t.
Proof.
  intros Hg (f & ws & Hf & <- & Hl & Ht). cbv zeta. unfold put_record. cbn [fst snd set_tail sg_id]. split_and!.
  - eexists _, (ws ++ [(h, id, p)]). cbn [set_tail sg_id sg_tail]. split; [apply write_file_eq, Hf|]. cbn [fl_bytes]. split.
    + apply pwrite_end. rewrite (layout_length _ _ _ Hl). exact Ht.
    + split; [now apply layout_append|]. rewrite total_size_app.
      change (total_size [(h, id, p)]) with (recordLen (Z.of_nat (length id)) (Z.of_nat (length p)) + 0). lia.
  - rewrite Ht. now apply rec_at_last.
  - done.
  - intros g Hne. now apply write_file_ne.
  - done.
Qed.

Lemma filling_meta S t t' d b : sg_id t' = sg_id t -> sg_tail t' = sg_tail t -> filling S t d b -> filling S t' d b.
Proof. intros E1 E2 (f & ws & ? & ? & ? & ?). exists f, ws. rewrite E1, E2. auto. Qed.

Lemma note_id v t : sg_id (noteMinVersion v t) = sg_id t /\ sg_tail (noteMinVersion v t) = sg_tail t.
Proof. unfold noteMinVersion. now case_match. Qed.

Lemma note_dead v t : sg_deadBytes (noteMinVersion v t) = sg_deadBytes t.
Proof. unfold noteMinVersion. now case_match. Qed.

(** A move that can be made: its bytes. *)
Definition move_data (S : Z) (src : list Z) (m : liveRec) (data : list Z) : Prop :=
  ReadAt src (lr_srcOff m) (lr_length m) = inr data /\ 0 <= lr_length m <= maxPayloadLen /\
  good S (data_header (lr_id m) (lr_fileOff m) (lr_version m) (lr_synced m) data, lr_id m, data).

Lemma copy_moves_spec S src moves : forall t d b, filling S t d b -> Forall (fun m => exists data, move_data S src m data) moves ->
  exists offs t' d' b', copy_moves src moves t d = inr (offs, t', d') /\ filling S t' d' b' /\ sg_id t' = sg_id t /\ keeps S b b' /\
    (forall g, g <> sg_id t -> d' !! g = d !! g) /\ length offs = length moves /\ sg_deadBytes t' = sg_deadBytes t /\
    forall j m off, moves !! j = Some m -> offs !! j = Some off -> exists data h, move_data S src m data /\
      rec_at S b' (off - recordHeaderSize - Z.of_nat (length (lr_id m))) (h, lr_id m, data).
Proof.
  induction moves as [|m moves IH]; intros t d b Hfill Hok; cbn [copy_moves].
  { exists [], t, d, b. split_and!; try done. apply keeps_refl. }
  apply Forall_cons in Hok as [(data & Hm) Hok]. pose proof Hm as (Hrd & Hlen & Hg).
  destruct (Z.ltb_spec (lr_length m) 0); [lia|]. destruct (Z.gtb_spec (lr_length m) maxPayloadLen); [lia|]. cbn [orb]. rewrite Hrd.
  unfold writeDataRecord. set (h := data_header _ _ _ _ _) in *.
  destruct (filling_put S t d b h (lr_id m) data Hg Hfill) as (Hfill1 & Hrec & Eid & Hother & Edead).
  destruct (put_record t h (lr_id m) data d) as [t1 d1]. cbn [fst snd] in *.
  destruct (IH (noteMinVersion (lr_version m) t1) d1 _ (filling_meta S _ _ _ _ (proj1 (note_id _ _)) (proj2 (note_id _ _)) Hfill1) Hok)
    as (offs & t' & d' & b' & -> & Hfill' & Eid' & Hk & Hother' & Hlo & Edead' & Hj).
  rewrite (proj1 (note_id _ _)) in Eid', Hother'. rewrite note_dead in Edead'.
  eexists _, t', d', b'. split; [reflexivity|]. split_and!; [done|congruence| | |cbn; lia|congruence|].
  - eapply keeps_trans; [|exact Hk]. now apply keeps_append.
  - intros g Hne. rewrite Hother' by congruence. auto.
  - intros [|j] m' off; cbn; [|apply Hj]. intros [= <-] [= <-]. exists data, h. split; [done|]. apply Hk.
    replace (_ - _ - _) with (sg_tail t) by lia. exact Hrec.
Qed.

Lemma filling_marker S t d b h id v : good S (h, id, []) -> filling S t d b ->
  exists t1 d1 b1, (let '(t, d) := put_record t h id [] d in (noteMinVersion v t, d)) = (t1, d1) /\ filling S t1 d1 b1 /\ sg_id t1 = sg_id t /\
    keeps S b b1 /\ (forall g, g <> sg_id t -> d1 !! g = d !! g) /\ sg_deadBytes t1 = sg_deadBytes t.
Proof.
  intros Hg Hfill. destruct (filling_put S t d b h id [] Hg Hfill) as (A & _ & B & C & D). destruct (put_record t h id [] d) as [t1 d1].
  cbn [fst snd] in *. eexists _, _, _. split; [reflexivity|]. split; [eapply filling_meta; [apply note_id|apply note_id|exact A]|].
  split; [now rewrite (proj1 (note_id _ _))|]. split; [now apply keeps_append|]. split; [exact C|now rewrite note_dead].
Qed.

Lemma copy_markers_spec S markers : forall t d b, filling S t d b -> Forall (fun mk => good S (marker_record mk)) markers ->
  let r := fold_left copy_marker markers (t, d) in
  exists b', filling S r.1 r.2 b' /\ sg_id r.1 = sg_id t /\ keeps S b b' /\ (forall g, g <> sg_id t -> r.2 !! g = d !! g) /\
    sg_deadBytes r.1 = sg_deadBytes t.
Proof.
  induction markers as [|mk markers IH]; intros t d b Hfill Hok; cbn [fold_left].
  { exists b. split_and!; try done. apply keeps_refl. }
  apply Forall_cons in Hok as [Hg Hok].
  assert (exists t1 d1 b1, copy_marker (t, d) mk = (t1, d1) /\ filling S t1 d1 b1 /\ sg_id t1 = sg_id t /\ keeps S b b1 /\
    (forall g, g <> sg_id t -> d1 !! g = d !! g) /\ sg_deadBytes t1 = sg_deadBytes t) as (t1 & d1 & b1 & -> & Hf1 & E1 & Hk1 & Ho1 & D1).
  { destruct mk as [id v|id v n]; cbn [marker_record copy_marker fst snd] in *; unfold writeTombstoneRecord, writeTruncateRecord.
    - now apply filling_marker.
    - now apply filling_marker. }
  destruct (IH t1 d1 b1 Hf1 Hok) as (b' & Hf' & E' & Hk' & Ho' & D'). exists b'. split_and!; [done|congruence|eauto using keeps_trans| |congruence].
  intros g Hne. rewrite Ho' by congruence. auto.
Qed.

(** ** The survivors *)

Definition move_of (id : FileID) (e : interval) : liveRec :=
  mkLiveRec id (iv_fileOff e) (iv_length e) (iv_version e) (iv_synced e) (sl_Offset (iv_loc e)).

(** A live interval of the victim [g]. *)
Definition survivor_in (sh : shard) (g : Z) (id : FileID) (e : interval) : Prop :=
  exists fi, sh_index sh !! id = Some fi /\ In e (fi_ivs fi) /\ iv_cold e = false /\ sl_SegmentID (iv_loc e) = g.

Lemma victim_moves_in sh g m : m ∈ victim_moves sh g <-> exists id e, survivor_in sh g id e /\ m = move_of id e.
Proof.
  unfold victim_moves. rewrite list_elem_of_bind. split.
  - intros ([id fi] & Hin & Hfi%elem_of_map_to_list). apply list_elem_of_fmap in Hin as (e & -> & He).
    apply list_elem_of_In, filter_In in He as [He [Hc%negb_true_iff Hg%Z.eqb_eq]%andb_true_iff]. exists id, e. split; [|done]. now exists fi.
  - intros (id & e & (fi & Hfi & He & Hc & Hg) & ->). exists (id, fi). split; [|now apply elem_of_map_to_list].
    apply list_elem_of_fmap. exists e. split; [done|]. apply list_elem_of_In, filter_In. split; [done|]. rewrite Hc, Hg. cbn. apply Z.eqb_refl.
Qed.

Section survivors.
Context (k i : nat) (s : Store) (sh : shard) (g : Z).
Hypothesis Hinv : Inv k s.
Hypothesis Hsh : st_shards s !! i = Some sh.

Lemma survivor_ok id e : survivor_in sh g id e -> iv_ok e.
Proof.
  intros (fi & Hfi & He & _). destruct (inv_each _ _ Hinv _ _ Hsh) as [_ (Hw & _)]. destruct (Hw _ _ Hfi) as [Hok _].
  rewrite List.Forall_forall in Hok. auto.
Qed.

Lemma survivor_resolve id e fi x : sh_index sh !! id = Some fi -> In e (fi_ivs fi) -> in_iv x e -> resolve (fi_ivs fi) x = Some (cell_of e x).
Proof.
  intros Hfi He Hx. destruct (inv_each _ _ Hinv _ _ Hsh) as [_ (Hw & _)]. apply resolve_has_cell; [eauto|]. now exists e.
Qed.

Lemma survivor_data id e : survivor_in sh g id e -> exists f data, st_disk s !! g = Some f /\
  move_data (SegmentSize (st_cfg s)) (fl_bytes f) (move_of id e) data /\ Z.of_nat (length data) = iv_length e /\
  forall x, in_iv x e -> byte_of (st_disk s) (cell_of e x) = byte_at (Z.to_nat (x - iv_fileOff e)) data.
Proof.
  intros Hsv. pose proof (survivor_ok _ _ Hsv) as (Ho1 & Ho2 & Ho3). destruct Hsv as (fi & Hfi & He & Hc & Hg).
  pose proof (inv_each _ _ Hinv _ _ Hsh) as Hshi. set (p := mkPiece 0 (iv_length e) (iv_loc e) 0 (iv_recOff e) false false).
  assert (serves_all (fi_ivs fi) (iv_fileOff e) p) as Hs.
  { split; [done|]. intros d Hd. cbn in Hd. rewrite (survivor_resolve id e fi) by (auto; unfold in_iv; lia). split; [done|]. cbn. split_and!; [done..|].
    intros _. split_and!; [done..|lia]. }
  destruct (live_piece s sh id fi (proj2 Hshi) Hfi (iv_fileOff e) p Hs eq_refl eq_refl) as (_ & f & h & pl & Hf & Hrec & Hk & Hn & Hread).
  cbv zeta in *. cbn [p p_loc p_subOff p_recOff p_dstStart p_dstEnd] in *. rewrite Hg in Hf. rewrite Z.add_0_r, Z.sub_0_r in *.
  set (kk := sl_Offset (iv_loc e) - _) in *. exists f, (slice (Z.to_nat kk) (Z.to_nat (iv_length e)) pl).
  assert (Z.of_nat (length (slice (Z.to_nat kk) (Z.to_nat (iv_length e)) pl)) = iv_length e) as Hlen
    by (unfold slice; rewrite length_take, length_drop; lia).
  pose proof (rec_at_good _ _ _ _ Hrec) as [[(G1 & G2 & G3 & G4 & _) (G5 & G6 & G7)] _]. unfold in_u16, in_u32 in *.
  assert (0 <= iv_version e < 2 ^ 64) as Hv.
  { assert (has_file (sh_index sh) id (iv_fileOff e) (cell_of e (iv_fileOff e))) as Hfile.
    { exists fi. split; [done|]. exists e. split_and!; [done| |done]. unfold in_iv. lia. }
    destruct Hshi as [_ (_ & Hcc & _)]. apply Hcc in Hfile as [Hv _]. cbn in Hv. pose proof (inv_version _ _ Hinv). lia. }
  split; [done|]. split; [|split; [exact Hlen|]].
  - split_and!; cbn; [|lia|unfold maxPayloadLen; lia|].
    + replace (sl_Offset (iv_loc e)) with (iv_recOff e + recordHeaderSize + Z.of_nat (length id) + kk) by (subst kk; lia).
      apply (rec_at_payload _ _ _ _ _ _ _ _ Hrec); lia.
    + apply data_good; rewrite ?Hlen; unfold maxFileIDLen, maxPayloadLen; lia.
  - intros x Hx. unfold read_of, piece_bytes in Hread. cbn [p p_dstStart p_dstEnd] in Hread. injection Hread as Hread _. rewrite Z.sub_0_r in Hread.
    unfold byte_at. rewrite <- Hread, !list_lookup_fmap. unfold in_iv in Hx. rewrite lookup_seqZ_lt by lia. cbn.
    replace (iv_fileOff e + (0 + Z.of_nat (Z.to_nat (x - iv_fileOff e)))) with x by lia. unfold shard_content, ivs_of. rewrite Hfi.
    rewrite (survivor_resolve id e fi) by done. cbn. now rewrite Hc.
Qed.

(** Versions tell survivors apart. *)
Lemma findMove_survivor id e : survivor_in sh g id e ->
  exists j, findMove (victim_moves sh g) (iv_fileOff e) (iend e) (iv_version e) = Some j /\ victim_moves sh g !! j = Some (move_of id e).
Proof.
  intros Hsv. pose proof (survivor_ok _ _ Hsv) as Hok. pose proof Hok as (Ho1 & Ho2 & Ho3). unfold findMove. rewrite iend_eq by done.
  destruct (list_find _ (victim_moves sh g)) as [[j m]|] eqn:E.
  - apply list_find_Some in E as (Hj & (Ev & Hlo & Hhi) & _). exists j. split; [done|]. rewrite Hj. f_equal.
    apply list_elem_of_lookup_2, victim_moves_in in Hj as (id' & e' & Hsv' & ->). cbn in *.
    pose proof (survivor_ok _ _ Hsv') as (Ho1' & Ho2' & Ho3'). destruct Hsv as (fi & Hfi & He & _), Hsv' as (fi' & Hfi' & He' & _).
    pose proof (inv_each _ _ Hinv _ _ Hsh) as [_ (Hw & _ & Hu)].
    assert (has_file (sh_index sh) id (iv_fileOff e) (cell_of e (iv_fileOff e))) as H1
      by (exists fi; split; [done|]; exists e; split_and!; [done|unfold in_iv; lia|done]).
    assert (has_file (sh_index sh) id' (iv_fileOff e) (cell_of e' (iv_fileOff e))) as H2
      by (exists fi'; split; [done|]; exists e'; split_and!; [done|unfold in_iv; lia|done]).
    assert (id' = id) as -> by (symmetry; eapply Hu; [exact H1|exact H2|cbn; congruence]). rewrite Hfi in Hfi'. injection Hfi' as <-.
    f_equal. apply list_elem_of_In in He as [a Ha]%list_elem_of_lookup_1, He' as [b Hb]%list_elem_of_lookup_1.
    destruct (Nat.lt_trichotomy a b) as [Hab|[->|Hab]]; [| congruence |].
    + pose proof (wf_lookup_lt _ _ _ _ _ (Hw _ _ Hfi) Ha Hb Hab) as Hbf. unfold iv_before in Hbf. lia.
    + pose proof (wf_lookup_lt _ _ _ _ _ (Hw _ _ Hfi) Hb Ha Hab) as Hbf. unfold iv_before in Hbf. lia.
  - exfalso. rewrite list_find_None in E. rewrite Forall_forall in E. apply (E (move_of id e)); [apply victim_moves_in; eauto|]. cbn. lia.
Qed.

Lemma survivors_data f : st_disk s !! g = Some f ->
  Forall (fun m => exists data, move_data (SegmentSize (st_cfg s)) (fl_bytes f) m data) (victim_moves sh g).
Proof.
  intros Hf. apply Forall_forall. intros m (id & e & Hsv & ->)%victim_moves_in. destruct (survivor_data id e Hsv) as (f' & data & Hf' & Hm & _).
  rewrite Hf in Hf'. injection Hf' as <-. eauto.
Qed.

End survivors.

(** ** Repacking *)

Section repack.
Context (k i : nat) (now : Z) (s : Store) (sh : shard) (victim : segmentMeta).
Hypothesis Hinv : Inv (S k) s.
Hypothesis Hsh : st_shards s !! i = Some sh.
Hypothesis Hvictim : sh_sealed sh !! sg_id victim = Some victim.

Let S0 := SegmentSize (st_cfg s).
Let g := sg_id victim.
Let moves := victim_moves sh g.

Lemma victim_owned : owns sh g.
Proof. unfold owns, segment. destruct (_ =? _); [eauto|]. fold g in Hvictim. rewrite Hvictim. eauto. Qed.

Lemma victim_file : exists f ws, st_disk s !! g = Some f /\ layout S0 (fl_bytes f) ws.
Proof. apply (owns_tail S0 _ sh), victim_owned. apply (inv_each _ _ Hinv _ _ Hsh). Qed.

Lemma repack_copy_spec :
  exists f newOff target s2, st_disk s !! g = Some f /\
    repack_copy now moves (victimMarkers s victim) victim s = (inr (newOff, target), s2) /\
    st_shards s2 = st_shards s /\ st_cfg s2 = st_cfg s /\ st_version s2 = st_version s /\ st_closed s2 = st_closed s /\
    st_evictionDisabled s2 = st_evictionDisabled s /\ st_pinVersion s2 = st_pinVersion s /\ st_nextSeg s2 = st_nextSeg s + 1 /\
    sg_id target = st_nextSeg s /\ sg_deadBytes target = 0 /\ length newOff = length moves /\
    (forall g', g' <> st_nextSeg s -> st_disk s2 !! g' = st_disk s !! g') /\
    exists ft ws, st_disk s2 !! st_nextSeg s = Some ft /\ layout S0 (fl_bytes ft) ws /\ sg_tail target = 64 + total_size ws /\
    forall j m off, moves !! j = Some m -> newOff !! j = Some off -> exists data h, move_data S0 (fl_bytes f) m data /\
      rec_at S0 (fl_bytes ft) (off - recordHeaderSize - Z.of_nat (length (lr_id m))) (h, lr_id m, data).
Proof.
  destruct victim_file as (f & wsv & Hf & Hlv). exists f. unfold repack_copy.
  destruct (createSegment_fresh k now s Hinv) as (s1 & -> & Esh & Ec & En & Ev & Ecl & Eev & Ep & f0 & Hl0 & Ed).
  set (t0 := mkSegMeta (st_nextSeg s) now false segHeaderSize 0 0 0 0 0 0).
  assert (g < st_nextSeg s) as Hg by (eapply owned_below; [exact Hinv|exact Hsh|apply victim_owned]).
  assert (st_disk s1 !! g = Some f) as Hf1 by (rewrite Ed, lookup_insert_ne by lia; done). fold g. rewrite Hf1.
  assert (filling S0 t0 (st_disk s1) (fl_bytes f0)) as Hfill.
  { exists f0, []. cbn [t0 sg_id]. rewrite Ed, lookup_insert_eq. split_and!; done. }
  destruct (copy_moves_spec S0 (fl_bytes f) moves t0 (st_disk s1) (fl_bytes f0) Hfill) as (offs & t1 & d1 & b1 & -> & Hfill1 & Eid1 & _ & Ho1 & Hlen & D1 & Hj).
  { apply (survivors_data _ i s sh g Hinv Hsh f Hf). }
  destruct (copy_markers_spec S0 (victimMarkers s victim) t1 d1 b1 Hfill1) as (b2 & Hfill2 & Eid2 & Hk2 & Ho2 & D2).
  { apply victim_markers_good; [done|eauto]. }
  destruct (fold_left copy_marker (victimMarkers s victim) (t1, d1)) as [t2 d2]. cbn [fst snd] in *.
  destruct Hfill2 as (f2 & ws2 & Hf2 & Eb2 & Hl2 & Ht2). rewrite <- Eb2 in *.
  assert (sg_id t2 = st_nextSeg s) as Eid by (rewrite Eid2, Eid1; done).
  destruct (seal_eq t2 d2 f2 Hf2) as (ft & Hft & Ebt).
  assert (keeps S0 (fl_bytes f2) (fl_bytes ft)) as Hk3 by (rewrite Ebt; apply keeps_header, segHeader_length).
  assert (layout S0 (fl_bytes ft) ws2) as Hlt by (rewrite Ebt; apply layout_header; [apply segHeader_length|done]).
  assert (forall g', g' <> st_nextSeg s -> (sealInPlace t2 d2).2 !! g' = st_disk s !! g') as Hother.
  { intros g' Hne. rewrite seal_ne by congruence. rewrite Ho2 by (rewrite Eid1; done). rewrite Ho1 by done. rewrite Ed, lookup_insert_ne by congruence. done. }
  rewrite Eid in Hft. unfold sealInPlace in *. cbn [snd] in *. eexists _, _, _. split; [done|]. split; [reflexivity|].
  cbn [add_counts set_disk st_shards st_cfg st_version st_closed st_evictionDisabled st_pinVersion st_nextSeg st_disk sg_id sg_tail set_sealed sg_deadBytes].
  split_and!; try done; [rewrite D2, D1; done|]. exists ft, ws2. split_and!; try done. intros j m off Hm Hoff. destruct (Hj j m off Hm Hoff) as (data & h & Hd & Hr).
  exists data, h. split; [done|]. now apply Hk3, Hk2.
Qed.

Section finish.
Context (newOff : list Z) (target : segmentMeta) (s2 : Store) (f ft : File) (wst : list written).
Hypothesis Hf : st_disk s !! g = Some f.
Hypothesis Esh : st_shards s2 = st_shards s.
Hypothesis Ec : st_cfg s2 = st_cfg s.
Hypothesis Ev : st_version s2 = st_version s.
Hypothesis En : st_nextSeg s2 = st_nextSeg s + 1.
Hypothesis Et : sg_id target = st_nextSeg s.
Hypothesis Hlen : length newOff = length moves.
Hypothesis Hother : forall g', g' <> st_nextSeg s -> st_disk s2 !! g' = st_disk s !! g'.
Hypothesis Hft : st_disk s2 !! st_nextSeg s = Some ft.
Hypothesis Hlt : layout S0 (fl_bytes ft) wst.
Hypothesis Htt : sg_tail target = 64 + total_size wst.
Hypothesis Hcopied : forall j m off, moves !! j = Some m -> newOff !! j = Some off ->
  exists data h, move_data S0 (fl_bytes f) m data /\
    rec_at S0 (fl_bytes ft) (off - recordHeaderSize - Z.of_nat (length (lr_id m))) (h, lr_id m, data).

Let re := repoint g (sg_id target) moves newOff.
Let to := fun iv => default iv (re iv).
Let sh1 := mkShard (sh_active sh) (<[sg_id target := target]> (sh_sealed sh)) (map_ivs to (sh_index sh)).
Let s1 := put_shard i sh1 s2.

(** A survivor points to its copy. *)
Lemma repoint_survivor id e : survivor_in sh g id e ->
  exists off data h, re e = Some (mkInterval (iv_fileOff e) (iv_length e) (iv_version e)
      (mkLoc (st_nextSeg s) off (sl_Length (iv_loc e))) (off - recordHeaderSize - Z.of_nat (length id)) (iv_synced e) (iv_cold e)) /\
    rec_at S0 (fl_bytes ft) (off - recordHeaderSize - Z.of_nat (length id)) (h, id, data) /\ Z.of_nat (length data) = iv_length e /\
    forall x, in_iv x e -> byte_of (st_disk s) (cell_of e x) = byte_at (Z.to_nat (x - iv_fileOff e)) data.
Proof.
  intros Hsv. destruct (survivor_data _ i s sh g Hinv Hsh id e Hsv) as (f' & data & Hf' & Hmd & Hdl & Hbytes).
  destruct (findMove_survivor _ i s sh g Hinv Hsh id e Hsv) as (j & Efind & Hmove). fold moves in Efind, Hmove.
  destruct (lookup_lt_is_Some_2 newOff j) as [off Hoff]; [rewrite Hlen; now apply lookup_lt_Some in Hmove|].
  destruct (Hcopied j _ off Hmove Hoff) as (data' & h & Hmd' & Hrec). cbn [move_of lr_id] in Hrec.
  assert (data' = data) as -> by (rewrite Hf in Hf'; injection Hf' as <-; destruct Hmd as [E _], Hmd' as [E' _]; congruence).
  exists off, data, h. split_and!; try done. destruct Hsv as (fi & _ & _ & Hcold & Hg). unfold re, repoint. rewrite Hcold, Hg, Z.eqb_refl. cbn [negb orb].
  rewrite Efind. cbn. rewrite Hmove. cbn. rewrite Hoff. cbn. rewrite Et. do 2 f_equal. f_equal. lia.
Qed.

Lemma repoint_case id fi e : sh_index sh !! id = Some fi -> In e (fi_ivs fi) -> survivor_in sh g id e \/ re e = Some e.
Proof.
  intros Hfi He. unfold re, repoint. destruct (iv_cold e) eqn:Ecold; [auto|]. destruct (Z.eqb_spec (sl_SegmentID (iv_loc e)) g); [|auto].
  left. exists fi. auto.
Qed.

Lemma repoint_range e : iv_fileOff (to e) = iv_fileOff e /\ iv_length (to e) = iv_length e /\ iv_version (to e) = iv_version e.
Proof.
  unfold to, re, repoint. destruct (_ || _); [done|]. destruct (findMove _ _ _ _) as [j|]; cbn; [|done].
  destruct (moves !! j); cbn; [|done]. destruct (newOff !! j); done.
Qed.

Lemma repoint_range2 e : iv_fileOff (to e) = iv_fileOff e /\ iv_length (to e) = iv_length e.
Proof. destruct (repoint_range e) as (? & ? & _). auto. Qed.

(** No survivor is left behind. *)
Lemma none_remaining : existsb (fun fi => existsb (fun iv => bool_decide (re iv = None)) (fi_ivs fi)) (map_to_list (sh_index sh)).*2 = false.
Proof.
  apply not_true_iff_false. intros (fi & Hin & Hex)%existsb_exists. apply list_elem_of_In, list_elem_of_fmap in Hin as ([id fi'] & -> & Hin).
  apply elem_of_map_to_list in Hin. apply existsb_exists in Hex as (e & He & Hn%bool_decide_eq_true). cbn in He.
  destruct (repoint_case id fi' e Hin He) as [Hsv|E]; [|congruence]. destruct (repoint_survivor id e Hsv) as (? & ? & ? & E & _). congruence.
Qed.

Lemma shard_below g' : owns sh g' -> g' < st_nextSeg s.
Proof. intros Hg'. eapply owned_below; eauto. Qed.

Lemma target_segment g' : segment sh1 g' = if decide (g' = st_nextSeg s) then Some target else segment sh g'.
Proof.
  pose proof (shard_below _ (active_owned sh)). unfold segment. cbn [sh1 sh_active sh_sealed]. destruct (decide (g' = st_nextSeg s)) as [->|Hne].
  - destruct (Z.eqb_spec (sg_id (sh_active sh)) (st_nextSeg s)); [lia|]. rewrite Et. apply lookup_insert_eq.
  - destruct (_ =? _); [done|]. rewrite lookup_insert_ne by congruence. done.
Qed.

Lemma target_index : index_inv S0 (st_disk s1) (st_version s) sh1 (sh_index sh).
Proof.
  pose proof (inv_each _ _ Hinv _ _ Hsh) as [_ Hix]. eapply index_inv_mono; [| |reflexivity|exact Hix].
  - intros g' [m Hm]. unfold owns. rewrite target_segment. destruct (decide _); [eauto|]. rewrite Hm. eauto.
  - apply disk_keeps_eq. intros g' Hg'. apply shard_below in Hg'. apply Hother. lia.
Qed.

(** The cells after repointing. *)
Lemma repoint_cell id fi e x : sh_index sh !! id = Some fi -> In e (fi_ivs fi) -> in_iv x e ->
  cell_inv S0 (st_disk s1) (st_version s) sh1 id (cell_of (to e) x) /\
  (iv_cold e = false -> byte_of (st_disk s1) (cell_of (to e) x) = byte_of (st_disk s) (cell_of e x)) /\
  iv_cold (to e) = iv_cold e /\ (iv_cold e = false -> sl_SegmentID (iv_loc (to e)) <> g).
Proof.
  intros Hfi He Hx. assert (has_file (sh_index sh) id x (cell_of e x)) as Hfile by (exists fi; split; [done|]; now exists e).
  pose proof (shard_below _ victim_owned) as Hgn. pose proof (proj1 (proj2 target_index) _ _ _ Hfile) as Hci.
  pose proof (inv_each _ _ Hinv _ _ Hsh) as [_ Hix]. destruct (repoint_case id fi e Hfi He) as [Hsv|E].
  - destruct (repoint_survivor id e Hsv) as (off & data & h & E & Hrec & Hdl & Hbytes). unfold to. unfold in_iv in Hx.
    assert (cell_inv S0 (st_disk s1) (st_version s) sh1 id (cell_of (default e (re e)) x)) as Hnew.
    { rewrite E. split; [exact (proj1 Hci)|]. intros _. cbn. split; [unfold owns; rewrite target_segment, decide_True by done; eauto|].
      exists ft. split; [exact Hft|]. exists h, data. cbn. split; [done|]. lia. }
    split; [exact Hnew|]. rewrite E in *. cbn. split_and!; [|done|lia]. intros Hc. rewrite (Hbytes x Hx).
    destruct Hnew as [_ Hn]. destruct (Hn Hc) as (_ & f3 & Hf3 & Hheld). change (st_disk s2 !! st_nextSeg s = Some f3) in Hf3.
    rewrite Hft in Hf3. injection Hf3 as <-. unfold byte_of. cbn [cell_of c_seg iv_loc sl_SegmentID]. change (st_disk s1) with (st_disk s2). rewrite Hft.
    apply held_byte in Hheld as (h' & p' & Hrec' & _ & Eb). cbn in Hrec'. pose proof (rec_at_inj _ _ _ _ _ Hrec Hrec') as [= <- <-].
    etransitivity; [exact Eb|]. f_equal. cbn. lia.
  - assert (to e = e) as -> by (unfold to; now rewrite E). split; [done|]. split_and!; [|done|].
    + intros Hc. destruct (proj1 (proj2 Hix) _ _ _ Hfile) as [_ Hci0]. destruct (Hci0 Hc) as (Ho & _).
      unfold byte_of. cbn [st_disk s1 put_shard set_shards]. rewrite Hother; [done|]. apply shard_below in Ho. lia.
    + intros Hc Hg. assert (survivor_in sh g id e) as Hsv by (exists fi; auto). destruct (repoint_survivor id e Hsv) as (off & ? & ? & E' & _).
      rewrite E in E'. injection E' as E'. rewrite E' in Hg. cbn in Hg. lia.
Qed.

Lemma finish_shards : st_shards s1 = <[i := sh1]> (st_shards s).
Proof. unfold s1. cbn. now rewrite Esh. Qed.

Lemma finish_disk g' : ~ owns sh g' -> g' < st_nextSeg s -> st_disk s1 !! g' = st_disk s !! g'.
Proof. intros _ Hlt'. apply Hother. lia. Qed.

Lemma finish_inv : Inv k s1.
Proof.
  pose proof (inv_each _ _ Hinv _ _ Hsh) as [(A1 & A2 & A3) _]. pose proof (inv_next _ _ Hinv). pose proof (inv_version _ _ Hinv).
  pose proof (shard_below _ (active_owned sh)).
  eapply (shard_step_inv (S k) k i s s1 sh sh1 Hinv Hsh Ec finish_shards finish_disk); [unfold s1; cbn; lia| | | |unfold s1; cbn; lia..].
  - split; [split_and!|].
    + intros g' m. cbn. rewrite lookup_insert_Some. intros [[<- <-]|[_ ?]]; auto.
    + cbn. rewrite lookup_insert_ne by lia. done.
    + intros g' t. unfold tail_of. rewrite target_segment. cbn [s1 put_shard set_shards st_disk]. destruct (decide (g' = st_nextSeg s)) as [->|Hne].
      * intros [= <-]. exists ft, wst. auto.
      * intros Ht. rewrite Hother by done. apply A3. exact Ht.
    + cbn [s1 put_shard set_shards st_version]. rewrite Ev. apply index_inv_map; [exact repoint_range|exact target_index|].
      intros id fi e x Hfi He Hx _. now apply (repoint_cell id fi e x).
  - intros g' [m Hm]. rewrite target_segment in Hm. destruct (decide _); [right; lia|left; now exists m].
  - intros g' f'. cbn. rewrite En. destruct (decide (g' = st_nextSeg s)); [lia|]. rewrite Hother by done. intros Hf'.
    apply (inv_fresh _ _ Hinv) in Hf'. lia.
Qed.

Lemma finish_content id x : content s1 id x = content s id x.
Proof.
  rewrite (shard_step_content (S k) i s s1 sh sh1 Hinv Hsh Ec finish_shards finish_disk). destruct (decide _) as [E|E]; [|done].
  rewrite (shard_step_before i s sh Hsh id x E). unfold shard_content, ivs_of. cbn [sh1 sh_index]. unfold map_ivs. rewrite lookup_fmap.
  destruct (sh_index sh !! id) as [fi|] eqn:Hfi; [|done]. cbn. pose proof (inv_each _ _ Hinv _ _ Hsh) as [_ (Hw & _)]. apply Hw in Hfi as Hwf.
  destruct (resolve (fi_ivs fi) x) as [c|] eqn:Er.
  - apply resolve_has_cell in Er as (e & He & Hx & <-); [|done].
    assert (resolve (map to (fi_ivs fi)) x = Some (cell_of (to e) x)) as ->.
    { apply resolve_has_cell; [now apply map_ranges_wf; [apply repoint_range2|]|]. apply map_ranges_cell; [apply repoint_range2|]. eauto. }
    destruct (repoint_cell id fi e x Hfi He Hx) as (_ & Hb & Hc & _). cbn. rewrite Hc.
    destruct (iv_cold e) eqn:Ecold; [done|]. f_equal. now apply Hb.
  - assert (resolve (map to (fi_ivs fi)) x = None) as ->; [|done]. apply resolve_None; [now apply map_ranges_wf; [apply repoint_range2|]|].
    rewrite resolve_None in Er by done. intros c Hcell. apply (map_ranges_cell to repoint_range2) in Hcell as (e & He & Hx & _).
    apply (Er (cell_of e x)). now exists e.
Qed.

Lemma repack_finish_spec :
  let s' := (repack_finish i moves newOff target victim s2).2 in
  Inv k s' /\ (st_closed s2 = st_closed s -> st_evictionDisabled s2 = st_evictionDisabled s -> quiet s s') /\
  st_shards s' = <[i := mkShard (sh_active sh) (delete g (<[sg_id target := target]> (sh_sealed sh))) (map_ivs to (sh_index sh))]> (st_shards s).
Proof.
  cbv zeta. unfold repack_finish. assert (shard_at s2 i = sh) as -> by (unfold shard_at; now rewrite Esh, Hsh).
  fold g. fold re. rewrite none_remaining. fold to. fold sh1. fold s1. cbn [snd].
  assert (st_shards s1 !! i = Some sh1) as Hsh1 by (rewrite finish_shards, list_lookup_insert_eq; [done|now apply lookup_lt_Some in Hsh]).
  destruct (retireSegment_spec k i victim s1 sh1 finish_inv Hsh1) as (H2 & Q2 & Es2 & _).
  - cbn. rewrite lookup_insert_ne; [exact Hvictim|]. pose proof (shard_below _ victim_owned) as Hb. fold g. lia.
  - intros id x c (fi & E & Hcell) Hcold. cbn in E. apply map_ivs_lookup in E as (fi0 & E & Ei). rewrite Ei in Hcell.
    apply (map_ranges_cell to repoint_range2) in Hcell as (e & He & Hx & <-).
    destruct (repoint_cell id fi0 e x E He Hx) as (_ & _ & Hc & Hn). cbn in *. apply Hn. congruence.
  - split; [done|]. split; [|rewrite Es2, finish_shards, list_insert_insert_eq; done].
    intros Ecl Eev. eapply quiet_trans; [|exact Q2]. split_and!; [done..|exact finish_content].
Qed.

End finish.

End repack.

(** The sealed segments a collection may still take. *)
Definition candidates (l : gmap Z segmentMeta) : nat := size (filter (fun p => 0 < sg_deadBytes p.2) l).

Lemma candidates_drop l g m : l !! g = Some m -> 0 < sg_deadBytes m -> candidates l = S (candidates (delete g l)).
Proof.
  intros Hm Hd. unfold candidates. rewrite map_filter_delete. symmetry. rewrite <- (map_size_insert_None g m) by apply lookup_delete_eq.
  f_equal. rewrite insert_delete_eq. apply insert_id. now apply map_lookup_filter_Some.
Qed.

Lemma candidates_add l g m : l !! g = None -> sg_deadBytes m = 0 -> candidates (<[g := m]> l) = candidates l.
Proof.
  intros Hn Hd. unfold candidates. rewrite map_filter_insert_False by (cbn; lia). now rewrite (delete_id _ g) by done.
Qed.

Lemma candidates_size l : (candidates l <= size l)%nat.
Proof. unfold candidates. apply map_size_filter. Qed.

(** What a pass over shard [i] leaves. *)
Definition collected (i : nat) (s s' : Store) : Prop := quiet s s' /\ forall j, j <> i -> st_shards s' !! j = st_shards s !! j.

Lemma points_into_spec k s i sh g : Inv k s -> st_shards s !! i = Some sh -> victim_moves sh g = [] -> points_into g sh = false /\ unreferenced sh g.
Proof.
  intros H Hsh Hm.
  assert (forall id e, ~ survivor_in sh g id e) as Hno.
  { intros id e Hsv. assert (move_of id e ∈ victim_moves sh g) as Hin by (apply victim_moves_in; eauto). rewrite Hm in Hin. now apply elem_of_nil in Hin. }
  split.
  - apply not_true_iff_false. intros (fi & Hin & Hex)%existsb_exists. apply list_elem_of_In, list_elem_of_fmap in Hin as ([id fi'] & -> & Hin).
    apply elem_of_map_to_list in Hin. apply existsb_exists in Hex as (e & He & [Hc%negb_true_iff Hg%Z.eqb_eq]%andb_true_iff).
    apply (Hno id e). exists fi'. auto.
  - intros id x c (fi & Hfi & e & He & Hx & <-) Hc Hg. cbn in *. apply (Hno id e). exists fi. auto.
Qed.

Lemma repackSegment_spec k i now s sh victim :
  Inv (S k) s -> st_shards s !! i = Some sh -> sh_sealed sh !! sg_id victim = Some victim -> 0 < sg_deadBytes victim ->
  exists n s' sh', repackSegment now i victim s = (inr n, s') /\ Inv k s' /\ collected i s s' /\
    st_shards s' !! i = Some sh' /\ candidates (sh_sealed sh) = S (candidates (sh_sealed sh')).
Proof.
  intros H Hsh Hv Hdead. unfold repackSegment. assert (shard_at s i = sh) as -> by (unfold shard_at; now rewrite Hsh).
  assert (i < length (st_shards s))%nat as Hi by now apply lookup_lt_Some in Hsh.
  assert (forall s', st_shards s' = <[i := default sh (st_shards s' !! i)]> (st_shards s) -> forall j, j <> i -> st_shards s' !! j = st_shards s !! j) as Hj.
  { intros s' -> j Hne. now rewrite list_lookup_insert_ne. }
  destruct (victim_moves sh (sg_id victim)) as [|m ms] eqn:Em, (victimMarkers s victim) as [|mk mks] eqn:Ek.
  { destruct (points_into_spec _ _ _ _ _ H Hsh Em) as [Ep Hun]. unfold dropVictim.
    assert (shard_at s i = sh) as -> by (unfold shard_at; now rewrite Hsh). rewrite Ep.
    destruct (retireSegment_spec (S k) i victim s sh H Hsh Hv Hun) as (H1 & Q1 & Es & _).
    eexists _, _, _. split; [reflexivity|]. split; [eapply Inv_le; [|exact H1]; lia|]. split; [split; [done|]|].
    - intros j Hne. rewrite Es. now rewrite list_lookup_insert_ne.
    - rewrite Es, list_lookup_insert_eq by done. split; [reflexivity|]. cbn. now apply (candidates_drop _ _ victim). }
  all: rewrite <- Em, <- Ek; destruct (repack_copy_spec k i now s sh victim H Hsh Hv)
    as (f & newOff & target & s2 & Hf & -> & Esh & Ec & Ev & Ecl & Eev & Ep & En & Et & Ed0 & Hlen & Hother & ft & ws & Hft & Hlt & Htt & Hcp).
  all: destruct (repack_finish_spec k i s sh victim H Hsh Hv newOff target s2 f ft ws Hf Esh Ec Ev En Et Hlen Hother Hft Hlt Htt Hcp) as (H3 & Q3 & Es3).
  all: destruct (repack_finish i _ newOff target victim s2) as [n s3]; cbn [snd] in *; eexists n, s3, _; split; [reflexivity|]; split; [done|].
  all: assert (sh_sealed sh !! sg_id target = None) as Hnone
    by (rewrite Et; destruct (sh_sealed sh !! st_nextSeg s) as [m'|] eqn:E'; [|done];
        assert (owns sh (st_nextSeg s)) as Ho by (unfold owns, segment; destruct (_ =? _); [eauto|rewrite E'; eauto]);
        pose proof (owned_below _ _ _ _ _ H Hsh Ho); lia).
  all: split; [split; [auto|intros j Hne; now rewrite Es3, list_lookup_insert_ne]|].
  all: rewrite Es3, list_lookup_insert_eq by done; split; [reflexivity|]; cbn [sh_sealed].
  all: rewrite delete_insert_ne by congruence; rewrite candidates_add; [|rewrite lookup_delete_ne; [done|congruence]|done].
  all: now apply (candidates_drop _ _ victim).
Qed.

Lemma fold_deader_in s sh l : forall b m, (fold_left (deader s sh) l b).1 = Some m -> b.1 = Some m \/ (In m l /\ 0 < sg_deadBytes m).
Proof.
  induction l as [|a l IH]; intros b m Hm; cbn in *; [auto|]. destruct (IH _ _ Hm) as [E|[? ?]]; [|auto].
  unfold deader in E. destruct (dead_fraction s sh a) as [[n d]|] eqn:Ed; [|auto]. destruct (_ <? _); [|auto].
  injection E as <-. right. split; [auto|]. unfold dead_fraction in Ed. destruct (pinned s a); [done|]. cbn in Ed.
  destruct (Z.leb_spec (sg_deadBytes a) 0); [done|lia].
Qed.

Lemma pickVictim_spec k s i sh force m : Inv k s -> st_shards s !! i = Some sh -> pickVictim force sh s = Some m ->
  sh_sealed sh !! sg_id m = Some m /\ 0 < sg_deadBytes m.
Proof.
  intros H Hsh Hm. unfold pickVictim in Hm. destruct (fold_left (deader s sh) (sealed_list sh) (None, (0, 1))) as [best [n d]] eqn:E.
  destruct (_ && _); [done|]. subst best. pose proof (fold_deader_in s sh (sealed_list sh) (None, (0, 1)) m) as Hin. rewrite E in Hin.
  destruct (Hin eq_refl) as [?|[Hl ?]]; [done|]. split; [eapply sealed_list_in; eauto|done].
Qed.

Lemma collected_trans i a b c : collected i a b -> collected i b c -> collected i a c.
Proof. intros [Q1 J1] [Q2 J2]. split; [eauto using quiet_trans|]. intros j Hj. now rewrite J2, J1. Qed.

Lemma collected_refl i s : collected i s s.
Proof. split; [apply quiet_refl|done]. Qed.

(** The loop takes every candidate at most once: more fuel changes nothing, and a pass that
    is not forced leaves no victim. *)
Lemma gc_loop_spec now i force fuel : forall k s sh, Inv (fuel + k) s -> st_shards s !! i = Some sh -> (candidates (sh_sealed sh) < fuel)%nat ->
  exists n s', gc_loop fuel now i force s = (inr n, s') /\ Inv k s' /\ collected i s s' /\
    (forall fuel', (candidates (sh_sealed sh) < fuel')%nat -> gc_loop fuel' now i force s = (inr n, s')) /\
    (force = false -> pickVictim false (shard_at s' i) s' = None).
Proof.
  induction fuel as [|fuel IH]; intros k s sh H Hsh Hc; [lia|].
  assert (shard_at s i = sh) as Eat by (unfold shard_at; now rewrite Hsh).
  cbn [gc_loop]. rewrite Eat. destruct (pickVictim force sh s) as [m|] eqn:Ep.
  - destruct (pickVictim_spec _ _ _ _ _ _ H Hsh Ep) as [Hm Hd].
    destruct (repackSegment_spec (fuel + k) i now s sh m H Hsh Hm Hd) as (n & s1 & sh1 & E1 & H1 & C1 & Hsh1 & Ec). rewrite E1. destruct force eqn:Ef.
    + exists n, s1. split; [done|]. split; [eapply Inv_le; [|exact H1]; lia|]. split; [done|]. split; [|done].
      intros [|fuel'] Hf; [lia|]. cbn [gc_loop]. now rewrite Eat, Ep, E1.
    + destruct (IH k s1 sh1 H1 Hsh1 ltac:(lia)) as (n2 & s2 & -> & H2 & C2 & Hfuel & Hnone). exists (n + n2), s2.
      split; [done|]. split; [done|]. split; [eauto using collected_trans|]. split; [|done].
      intros [|fuel'] Hf; [lia|]. cbn [gc_loop]. rewrite Eat, Ep, E1, Hfuel by lia. done.
  - exists 0, s. split; [done|]. split; [eapply Inv_le; [|exact H]; lia|]. split; [apply collected_refl|]. split; [|now intros ->; rewrite Eat].
    intros [|fuel'] Hf; [lia|]. cbn [gc_loop]. now rewrite Eat, Ep.
Qed.

(** The segments a collection of shards [i], [i + 1], ... may create. *)
Fixpoint gc_cost (s : Store) (i n : nat) : nat :=
  match n with O => 0 | S n => S (size (sh_sealed (shard_at s i))) + gc_cost s (S i) n end.

Lemma gc_cost_ext s s' n : forall i, (forall j, (i <= j)%nat -> st_shards s' !! j = st_shards s !! j) -> gc_cost s' i n = gc_cost s i n.
Proof.
  induction n as [|n IH]; intros i H; [done|]. cbn. assert (shard_at s' i = shard_at s i) as -> by (unfold shard_at; now rewrite H).
  rewrite IH; [done|]. intros. apply H. lia.
Qed.

Lemma gc_cost_at s i n : forall j, (j <= i < j + n)%nat -> (S (size (sh_sealed (shard_at s i))) <= gc_cost s j n)%nat.
Proof.
  induction n as [|n IH]; intros j Hj; [lia|]. cbn [gc_cost]. destruct (decide (j = i)) as [->|]; [lia|]. specialize (IH (S j)). lia.
Qed.

Lemma gc_shards_spec now force n : forall i k s, Inv (gc_cost s i n + k) s -> (i + n <= ShardCount (st_cfg s))%nat ->
  exists m s', gc_shards now i n force s = (inr m, s') /\ Inv k s' /\ quiet s s'.
Proof.
  induction n as [|n IH]; intros i k s H Hi; cbn [gc_shards].
  { exists 0, s. split_and!; [done|done|apply quiet_refl]. }
  cbn [gc_cost] in H. unfold gcShard. assert (i < ShardCount (st_cfg s))%nat as Hi' by lia. pose proof (shard_lookup _ _ i H Hi') as Hsh.
  destruct (gc_loop_spec now i force (S (size (sh_sealed (shard_at s i)))) (gc_cost s (S i) n + k) s (shard_at s i)) as (m1 & s1 & -> & H1 & [Q1 J1] & _).
  { rewrite Nat.add_assoc. exact H. }
  { exact Hsh. }
  { pose proof (candidates_size (sh_sealed (shard_at s i))). lia. }
  destruct (IH (S i) k s1) as (m2 & s2 & -> & H2 & Q2).
  { rewrite (gc_cost_ext s s1); [done|]. intros j Hj. apply J1. lia. }
  { rewrite (proj1 Q1). lia. }
  exists (m1 + m2), s2. split_and!; [done|done|eauto using quiet_trans].
Qed.

Lemma GC_spec now force k s : Inv (gc_cost s 0 (ShardCount (st_cfg s)) + k) s -> st_closed s = false ->
  exists n s', GC now force s = (inr n, s') /\ Inv k s' /\ quiet s s'.
Proof.
  intros H Hcl. unfold GC. rewrite Hcl, (proj1 (inv_shards _ _ H)). apply gc_shards_spec; [done|lia].
Qed.
