(* ===== verification/JournalSpec.v ===== *)
(** * The journal store refines a map of bytes

    The specification is a byte map per file.  A write sets a range, a delete clears a
    file, a truncation clears what is past the new size, commits and garbage collection
    change nothing, eviction may only turn known bytes cold.  Every operation of the
    store implements its step of the specification, and a read returns what the map
    says. *)

From S2P Require Import Prelude.
From S2P Require Import HoleMap.
From S2P Require Import JournalIndex.
From S2P Require Import JournalRecord.
From S2P Require Import JournalStore.
From S2P Require Import JournalReclaim.
From S2P Require Import JournalRecover.
From S2P Require Import JournalInv.
From S2P Require Import JournalOps.
From S2P Require Import JournalEvict.
From S2P Require Import JournalGC.

(** ** Operations *)

Inductive op :=
  | OpWrite (now : Z) (id : FileID) (offset : Z) (data : list Z)
  | OpHydrate (now : Z) (id : FileID) (offset : Z) (data : list Z)
  | OpDelete (now : Z) (id : FileID)
  | OpTruncate (now : Z) (id : FileID) (newSize : Z)
  | OpCommit (id : FileID)
  | OpSeedCold (id : FileID) (offset len : Z)
  | OpEvict (now targetBytes : Z)
  | OpGC (now : Z) (force : bool).

(** The error of a call, if it failed. *)
Definition err_of {A} (r : JErr + A) : option JErr := match r with inl e => Some e | inr _ => None end.
Definition outcome_of {A} (r : (JErr + A) * Store) : option JErr * Store := (err_of r.1, r.2).

Definition exec (o : op) (s : Store) : option JErr * Store :=
  match o with
  | OpWrite now id offset data => outcome_of (WriteAt now id offset data s)
  | OpHydrate now id offset data => outcome_of (Hydrate now id offset data s)
  | OpDelete now id => outcome_of (store_Delete now id s)
  | OpTruncate now id n => outcome_of (Truncate now id n s)
  | OpCommit id => outcome_of (Commit id s)
  | OpSeedCold id offset len => outcome_of (SeedCold id offset len s)
  | OpEvict now target => outcome_of (Evict now target s)
  | OpGC now force => outcome_of (GC now force s)
  end.

(** ** The specification *)

Definition Contents := FileID -> Z -> Byte.

(** Some known bytes went cold. *)
Definition cooler (a a' : Contents) : Prop :=
  forall id x, a' id x = a id x \/ (a' id x = Cold /\ exists b, a id x = Known b).

Definition in_range (offset len x : Z) : bool := (offset <=? x) && (x <? offset + len).

(** Why a write may be refused. *)
Definition refused (cfg : Config) (id : FileID) (offset : Z) (data : list Z) (e : JErr) : Prop :=
  match e with
  | ErrNegativeOffset => offset < 0
  | ErrFileIDTooLong => maxFileIDLen < Z.of_nat (length id)
  | ErrPayloadTooLong => maxPayloadLen < Z.of_nat (length data)
  | ErrRecordTooBig => SegmentSize cfg - segHeaderSize < recordLen (Z.of_nat (length id)) (Z.of_nat (length data))
  | ErrLocalStoreFull => 0 < MaxLocalBytes cfg
  | _ => False
  end.

Definition write_step (cfg : Config) (id : FileID) (offset : Z) (data : list Z) (e : option JErr) (a a' : Contents) : Prop :=
  match e with
  | None => exists a1, cooler a a1 /\ forall id' x, a' id' x =
      if bool_decide (id' = id) && in_range offset (Z.of_nat (length data)) x then Known (byte_at (Z.to_nat (x - offset)) data) else a1 id' x
  | Some e => cooler a a' /\ refused cfg id offset data e
  end.

Definition spec_step (cfg : Config) (o : op) (e : option JErr) (a a' : Contents) : Prop :=
  match o with
  | OpWrite _ id offset data | OpHydrate _ id offset data => write_step cfg id offset data e a a'
  | OpDelete _ id =>
      match e with
      | None => forall id' x, a' id' x = if bool_decide (id' = id) then Hole else a id' x
      | Some e => e = ErrFileIDTooLong /\ forall id' x, a' id' x = a id' x
      end
  | OpTruncate _ id n =>
      match e with
      | None => forall id' x, a' id' x = if bool_decide (id' = id) && (n <=? x) then Hole else a id' x
      | Some e => (e = ErrFileIDTooLong \/ e = ErrNegativeSize) /\ forall id' x, a' id' x = a id' x
      end
  | OpCommit _ | OpGC _ _ => e = None /\ forall id' x, a' id' x = a id' x
  | OpSeedCold id offset len => e = None /\ forall id' x, a' id' x = if bool_decide (id' = id) && in_range offset len x then Cold else a id' x
  | OpEvict _ _ => e = None /\ cooler a a'
  end.

(** ** When an operation may run *)

(** A store that is open. *)
Definition Ready (s : Store) : Prop := Inv 0 s /\ st_closed s = false /\ 0 <= SegmentSize (st_cfg s).

(** File ranges stay below 2^63: [offset + length] is an int64. *)
Definition int64_range (o : op) : Prop :=
  match o with
  | OpWrite _ _ offset data | OpHydrate _ _ offset data => offset + Z.of_nat (length data) < 2 ^ 63
  | OpTruncate _ _ n => n < 2 ^ 63
  | OpSeedCold _ offset len => 0 <= offset /\ offset + len < 2 ^ 63
  | _ => True
  end.

(** The segment ids an operation may use up. *)
Definition cost (o : op) (s : Store) : nat :=
  match o with
  | OpEvict _ _ => ShardCount (st_cfg s)
  | OpGC _ _ => gc_cost s 0 (ShardCount (st_cfg s))
  | _ => 2
  end.

(** Neither versions nor segment ids, both uint64, run out. *)
Definition room (o : op) (s : Store) : Prop :=
  st_version s + 1 < 2 ^ 64 /\ st_nextSeg s + Z.of_nat (cost o s) < 2 ^ 64.

Definition allowed (o : op) (s : Store) : Prop := int64_range o /\ room o s.

(** ** One step *)

Lemma Ready_room s o : Ready s -> room o s -> Inv (cost o s) s.
Proof. intros [[I1 I2 I3 I4 I5 I6] _] [_ Hn]. split; try done. lia. Qed.

Lemma cooled_cooler s s' : cooled s s' -> cooler (content s) (content s').
Proof. intros (_ & _ & _ & _ & H). exact H. Qed.

Lemma ensure_loop_error now needed fuel : forall k s e, Inv k s -> st_closed s = false -> (sealed_count s < fuel)%nat ->
  (ensure_loop fuel now needed s).1 = inl e -> e = ErrLocalStoreFull.
Proof.
  induction fuel as [|fuel IH]; intros k s e H Hcl Hf; cbn [ensure_loop]; (destruct (_ <=? _); [done|]); [lia|].
  destruct (evict_spec now (st_diskBytes s + needed - MaxLocalBytes (st_cfg s)) false k s H) as (H1 & Q1 & _ & Hr).
  destruct (Hr Hcl) as (res & Er & A1 & _ & A3). specialize (A3 eq_refl).
  destruct (evict _ _ _ s) as [r s1]. cbn [fst snd] in *. subst r. destruct (Z.eqb_spec (SegmentsEvicted res) 0); [now intros [= <-]|].
  apply (IH k); [done| |lia]. destruct Q1 as (_ & E & _). congruence.
Qed.

Lemma ensureSpace_error now needed k s e : Inv k s -> st_closed s = false -> (ensureSpace now needed s).1 = inl e ->
  e = ErrLocalStoreFull /\ 0 < MaxLocalBytes (st_cfg s).
Proof.
  intros H Hcl. unfold ensureSpace. destruct (Z.leb_spec (MaxLocalBytes (st_cfg s)) 0); [done|].
  intros He. split; [|done]. eapply ensure_loop_error; [exact H|done| |exact He]. lia.
Qed.

Lemma appendRecord_error now id offset data synced k s e : Inv (S k) s -> st_closed s = false ->
  (appendRecord ensureSpace now id offset data synced s).1 = inl e -> refused (st_cfg s) id offset data e.
Proof.
  intros H Hcl. unfold appendRecord. rewrite Hcl. destruct (_ =? 0)%nat; [done|]. destruct (Z.ltb_spec offset 0); [now intros [= <-]|].
  pose proof (ensureSpace_error now (recordLen (Z.of_nat (length id)) (Z.of_nat (length data))) (S k) s) as He.
  destruct (ensureSpace_spec now (recordLen (Z.of_nat (length id)) (Z.of_nat (length data))) (S k) s H) as [H1 (Ec & _)].
  destruct (ensureSpace _ _ s) as [[e1|u] s1]; cbn [fst snd] in *.
  { intros [= <-]. destruct (He e1 H Hcl eq_refl) as [-> ?]. done. }
  destruct (Z.gtb_spec (Z.of_nat (length id)) maxFileIDLen); [now intros [= <-]|].
  destruct (Z.gtb_spec (Z.of_nat (length data)) maxPayloadLen); [now intros [= <-]|].
  destruct (Z.gtb_spec (recordLen (Z.of_nat (length id)) (Z.of_nat (length data))) (SegmentSize (st_cfg s1) - segHeaderSize));
    [intros [= <-]; cbn; rewrite <- Ec; lia|].
  destruct (rotate_spec k now (shardIndex s1 id) (recordLen (Z.of_nat (length id)) (Z.of_nat (length data))) s1 H1) as (s2 & -> & _); [|done].
  apply shardIndex_lt, (inv_shards _ _ H1).
Qed.

Lemma append_step now id offset data synced s :
  Inv 2 s -> st_closed s = false -> 0 <= SegmentSize (st_cfg s) -> st_version s + 1 < 2 ^ 64 -> offset + Z.of_nat (length data) < 2 ^ 63 ->
  let r := outcome_of (appendRecord ensureSpace now id offset data synced s) in
  Ready r.2 /\ st_cfg r.2 = st_cfg s /\ write_step (st_cfg s) id offset data r.1 (content s) (content r.2).
Proof.
  intros H Hcl HS Hv Ho. cbv zeta.
  destruct (appendRecord_spec now id offset data synced 1 s H Hv Ho) as (s1 & Q1 & H1 & Ec & Ecl & _ & Hres).
  pose proof (appendRecord_error now id offset data synced 1 s) as He.
  destruct (appendRecord ensureSpace now id offset data synced s) as [r s']. cbn [outcome_of fst snd] in *.
  split; [split_and!; [eapply Inv_le; [|exact H1]; lia|congruence|congruence]|]. split; [done|]. destruct r as [e|u]; cbn.
  - split; [|now apply He]. intros id' x. rewrite Hres. now apply cooled_cooler.
  - exists (content s1). split; [now apply cooled_cooler|]. exact Hres.
Qed.

Lemma Delete_too_long now id s : st_closed s = false -> maxFileIDLen < Z.of_nat (length id) -> store_Delete now id s = (inl ErrFileIDTooLong, s).
Proof.
  intros Hcl Hid. unfold store_Delete, Delete, appendTombstone, append_marker. rewrite Hcl.
  destruct (Z.gtb_spec (Z.of_nat (length id)) maxFileIDLen); [done|lia].
Qed.

Lemma Truncate_refused now id n s : st_closed s = false -> n < 0 \/ maxFileIDLen < Z.of_nat (length id) ->
  Truncate now id n s = (inl ErrNegativeSize, s) \/ Truncate now id n s = (inl ErrFileIDTooLong, s) \/
  (Truncate now id n s = (inr tt, s) /\ 0 <= n /\ past (ivs_of (shardFor s id) id) n = false).
Proof.
  intros Hcl Hid. unfold Truncate, appendTruncateMarker, append_marker. rewrite Hcl. destruct (Z.ltb_spec n 0); [auto|].
  destruct (past _ _) eqn:Ep; cbn [negb]; [|auto]. destruct (Z.gtb_spec (Z.of_nat (length id)) maxFileIDLen); [auto|lia].
Qed.

Lemma exec_refines o s : Ready s -> allowed o s ->
  Ready (exec o s).2 /\ st_cfg (exec o s).2 = st_cfg s /\ spec_step (st_cfg s) o (exec o s).1 (content s) (content (exec o s).2).
Proof.
  intros Hr [Hi Hroom]. pose proof (Ready_room _ _ Hr Hroom) as H. destruct Hroom as [Hv _]. destruct Hr as (H0 & Hcl & HS).
  destruct o as [now id offset data|now id offset data|now id|now id n|id|id offset len|now target|now force]; cbn [exec cost int64_range spec_step] in *.
  - now apply append_step.
  - now apply append_step.
  - destruct (Z.le_gt_cases (Z.of_nat (length id)) maxFileIDLen) as [Hid|Hid].
    + destruct (store_Delete_spec now id 0 s H Hcl HS Hid Hv) as (s' & -> & H' & _ & Ec & Ecl & Q). cbn. split_and!; try done. unfold Ready. rewrite Ec. auto.
    + rewrite Delete_too_long by (auto; lia). cbn. unfold Ready. auto.
  - destruct (decide (0 <= n /\ Z.of_nat (length id) <= maxFileIDLen)) as [[Hn Hid]|Hno].
    + destruct (Truncate_spec 0 now id n s (Inv_le 2 1 s ltac:(lia) H) Hcl HS Hid Hv ltac:(lia)) as (s' & -> & H' & _ & _ & Ec & Ecl & Q). cbn. split_and!; try done. unfold Ready. rewrite Ec. auto.
    + destruct (Truncate_refused now id n s Hcl ltac:(lia)) as [->|[->|(-> & Hn & Ep)]]; cbn; unfold Ready; split_and!; auto.
      intros id' x. destruct (bool_decide_reflect (id' = id)) as [->|]; cbn; [|done]. destruct (Z.leb_spec n x); [|done]. now apply (not_past 2 s id n).
  - destruct (Commit_spec 0 id s H0) as [H' (Q1 & Q2 & _ & _ & Q3)]. unfold Commit in *. rewrite Hcl in *. cbn in *. split_and!; try done.
  - destruct (Z.le_gt_cases len 0) as [Hl|Hl].
    + unfold SeedCold. rewrite Hcl. destruct (Z.leb_spec len 0); [|lia]. cbn. split_and!; try done. intros id' x. unfold in_range.
      replace ((offset <=? x) && (x <? offset + len)) with false by (symmetry; apply andb_false_iff; rewrite Z.leb_gt, Z.ltb_ge; lia).
      now rewrite andb_false_r.
    + destruct (SeedCold_spec 0 id offset len s H0 Hcl Hv ltac:(lia) Hl ltac:(lia)) as (s' & -> & H' & _ & Ec & Ecl & Q). cbn. split_and!; try done. unfold Ready. rewrite Ec. auto.
  - unfold Evict. destruct (evict_spec now target true 0 s) as (H' & Q & _ & Hres); [unfold seal_cost; now rewrite Nat.add_0_r|].
    destruct (Hres Hcl) as (r & Er & _). destruct (evict now target true s) as [r' s']. cbn [fst snd] in *. subst r'. cbn.
    pose proof Q as (Ec & Ecl & _). split_and!; [split_and!; [done|congruence|congruence]|done|done|now apply cooled_cooler].
  - destruct (GC_spec now force 0 s) as (n & s' & -> & H' & (Ec & Ecl & _ & _ & Q)); [now rewrite Nat.add_0_r|done|]. cbn.
    split_and!; try done. unfold Ready. rewrite Ec, Ecl. auto.
Qed.

(** ** Reading *)

Lemma ReadAt_index s verify id offset n :
  index_inv (SegmentSize (st_cfg s)) (st_disk s) (st_version s) (shardFor s id) (sh_index (shardFor s id)) ->
  st_closed s = false -> 0 <= offset -> 0 <= n -> offset + n < 2 ^ 63 ->
  store_ReadAt verify id offset n s = inr (read_of (map (content s id) (seqZ offset n))).
Proof.
  intros Hinv Hcl Ho Hn Hr. unfold store_ReadAt. rewrite Hcl. destruct (Z.ltb_spec offset 0); [lia|].
  destruct (Z.eqb_spec n 0) as [->|Hn0]; [done|].
  destruct (sh_index (shardFor s id) !! id) as [fi|] eqn:Efi.
  - pose proof (proj1 Hinv _ _ Efi) as Hw. destruct (plan_serves (fi_ivs fi) offset n Hw Ho Hn Hr) as [Ht _].
    rewrite (pieces_read s (shardFor s id) id _ offset _ 0 n); [|intros p Hp|exact Ht|lia].
    + rewrite Z.sub_0_r. do 2 f_equal. apply list_eq. intros j. rewrite !list_lookup_fmap. destruct (decide (Z.of_nat j < n)).
      * rewrite !lookup_seqZ_lt by lia. cbn. unfold content. now do 2 f_equal.
      * now rewrite !lookup_seqZ_ge by lia.
    + destruct (piece_read s (shardFor s id) id fi Hinv Efi offset p) as [E1 E2]; [now apply (plan_serves_all _ _ n)|]. destruct verify; [exact E2|exact E1].
  - assert (forall x, content s id x = Hole) as Hh by (intros x; unfold content, shard_content, ivs_of; now rewrite Efi).
    unfold read_of. do 2 f_equal.
    + rewrite map_map. symmetry. apply map_seqZ_const. intros d _. now rewrite Hh.
    + rewrite existsb_map. symmetry. apply existsb_seqZ_const; [lia|]. intros d _. now rewrite Hh.
Qed.

Lemma ReadAt_spec k s verify id offset n : Inv k s -> st_closed s = false -> 0 <= offset -> 0 <= n -> offset + n < 2 ^ 63 ->
  store_ReadAt verify id offset n s = inr (read_of (map (content s id) (seqZ offset n))).
Proof. intros H. apply ReadAt_index. pose proof (shardFor_lookup _ _ id H) as Hsh. apply (inv_each _ _ H _ _ Hsh). Qed.

(** ** A new store *)

(** The store while its first segments are created. *)
Definition starting (cfg : Config) (s : Store) : Prop :=
  st_cfg s = cfg /\ st_nextSeg s = Z.of_nat (length (st_shards s)) /\ st_version s = 0 /\ st_closed s = false /\
  (forall g f, st_disk s !! g = Some f -> 0 <= g < st_nextSeg s) /\
  forall i sh, st_shards s !! i = Some sh -> sh_sealed sh = ∅ /\ sh_index sh = ∅ /\ sg_id (sh_active sh) = Z.of_nat i /\ sg_tail (sh_active sh) = 64 /\
    exists c, st_disk s !! Z.of_nat i = Some (mkFile (encodeSegHeader (Z.of_nat i) c 0) 64).

Lemma recount_empty act m : sg_liveBytes m = 0 -> recount (mkShard act ∅ ∅) m = m.
Proof. intros E. unfold recount, live_in. cbn. rewrite map_to_list_empty. cbn. rewrite E. done. Qed.

Lemma staff_spec cfg now n : forall s, starting cfg s -> Z.of_nat (length (st_shards s) + n) < 2 ^ 64 ->
  exists s', staff now (replicate n no_shard) [] s = (inr [], s') /\ starting cfg s' /\ length (st_shards s') = (length (st_shards s) + n)%nat.
Proof.
  induction n as [|n IH]; intros s Hs Hn; cbn [replicate staff].
  { exists s. rewrite Nat.add_0_r. auto. }
  destruct Hs as (Ec & En & Ev & Ecl & Hd & Hsh). unfold choose_active, createSegment, shard_of. cbn [no_shard rb_active rb_sealed rb_index].
  destruct (st_disk (set_next (u64 (st_nextSeg s + 1)) (st_version s) s) !! st_nextSeg s) as [f|] eqn:E; [cbn in E; apply Hd in E; lia|].
  rewrite fmap_empty, recount_empty by done. edestruct IH as (s' & Es' & Hs' & Hl'); [| |eexists s'; split; [exact Es'|split; [exact Hs'|]]].
  - split_and!; cbn; [done| |done|done| |].
    + rewrite length_app. cbn. rewrite En, u64_small; [lia|unfold in_u64; lia].
    + intros g f. rewrite (u64_small (st_nextSeg s + 1)) by (unfold in_u64; lia). rewrite lookup_insert_Some. intros [[<- _]|[_ Hf]]; [lia|]. apply Hd in Hf. lia.
    + intros i sh [Hi|[Hge Hi]]%lookup_app_Some.
      * destruct (Hsh i sh Hi) as (A1 & A2 & A3 & A4 & c & Hf). split_and!; [done..|]. exists c.
        rewrite lookup_insert_ne; [done|]. apply lookup_lt_Some in Hi. lia.
      * apply list_lookup_singleton_Some in Hi as [Hi <-]. assert (st_nextSeg s = Z.of_nat i) as Ei by lia. cbn. split_and!; [done..|].
        rewrite <- Ei, lookup_insert_eq. now eexists.
  - cbn. rewrite length_app. cbn. lia.
  - rewrite Hl'. cbn. rewrite length_app. cbn. lia.
Qed.

Lemma starting_ready cfg s : starting cfg s -> length (st_shards s) = ShardCount cfg -> (0 < ShardCount cfg)%nat -> Z.of_nat (ShardCount cfg) < 2 ^ 64 ->
  0 <= SegmentSize cfg -> Ready s /\ forall id x, content s id x = Hole.
Proof.
  intros (Ec & En & Ev & Ecl & Hd & Hsh) Hl Hpos Hlt HS. rewrite Hl in En.
  assert (forall i sh g, st_shards s !! i = Some sh -> owns sh g -> g = Z.of_nat i /\ segment sh g = Some (sh_active sh)) as Hown.
  { intros i sh g Hi [m Hm]. destruct (Hsh i sh Hi) as (A1 & _ & A3 & _). unfold segment in *. rewrite A1, A3 in *.
    destruct (Z.eqb_spec (Z.of_nat i) g); [auto|]. now rewrite lookup_empty in Hm. }
  assert (Inv 0 s) as HI.
  { split; rewrite ?Ec, ?Ev; [auto| | | |lia|lia].
    - intros i sh Hi. destruct (Hsh i sh Hi) as (A1 & A2 & A3 & A4 & c0 & Hf). split; [split_and!|].
      + intros g m. now rewrite A1, lookup_empty.
      + now rewrite A1, lookup_empty.
      + intros g t Ht. destruct (Hown i sh g Hi) as [-> Hseg]; [apply tail_owns; eauto|]. unfold tail_of in Ht. rewrite Hseg in Ht.
        injection Ht as <-. eexists _, []. rewrite A4. split_and!; [exact Hf|apply layout_new|done].
      + rewrite A2. split_and!; [intros id fi; now rewrite lookup_empty| |]; intros id x c; unfold has_file; setoid_rewrite lookup_empty; [by intros (? & ? & ?)|].
        intros ? ? ? (? & ? & ?). done.
    - intros i j shi shj g Hi Hj Ho Ho'. destruct (Hown _ _ _ Hi Ho), (Hown _ _ _ Hj Ho'). lia.
    - intros g f Hf. apply Hd in Hf. lia. }
  split; [split_and!; [done|done|now rewrite Ec]|]. intros id x. pose proof (shardFor_lookup _ _ id HI) as Hf.
  destruct (Hsh _ _ Hf) as (_ & A2 & _). unfold content, shard_content, ivs_of. rewrite A2, lookup_empty. done.
Qed.

Lemma open_starting cfg now age s : open_dir cfg now age ∅ = inr s -> Z.of_nat (ShardCount cfg) < 2 ^ 64 ->
  starting cfg s /\ length (st_shards s) = ShardCount cfg /\ minSegmentSize <= SegmentSize cfg.
Proof.
  intros E Hlt. unfold open_dir in E. destruct (negb _); [done|]. destruct (Z.ltb_spec (SegmentSize cfg) minSegmentSize) as [|HS]; [done|].
  rewrite bool_decide_true in E by done. set (s0 := mkStore cfg [] 0 0 0 0 0 0 false false ∅) in *.
  destruct (staff_spec cfg now (ShardCount cfg) s0) as (s' & Es & Hst & Hl).
  - split_and!; cbn; done.
  - cbn. lia.
  - rewrite Es in E. injection E as <-. auto.
Qed.

Lemma open_ready cfg now age s : open_dir cfg now age ∅ = inr s -> (0 < ShardCount cfg)%nat -> Z.of_nat (ShardCount cfg) < 2 ^ 64 ->
  Ready s /\ st_cfg s = cfg /\ forall id x, content s id x = Hole.
Proof.
  intros E Hpos Hlt. destruct (open_starting _ _ _ _ E Hlt) as (Hst & Hl & HS). pose proof Hst as (Ec & _).
  unfold minSegmentSize in HS. change (Z.shiftl 1 20) with 1048576 in HS.
  destruct (starting_ready cfg s Hst) as [? ?]; [exact Hl|done|done|lia|auto].
Qed.

(** ** Sequences *)

Fixpoint run (ops : list op) (s : Store) : list (option JErr) * Store :=
  match ops with
  | [] => ([], s)
  | o :: ops => let '(e, s) := exec o s in let '(es, s) := run ops s in (e :: es, s)
  end.

(** Every operation runs from a state where it is allowed. *)
Fixpoint admissible (ops : list op) (s : Store) : Prop :=
  match ops with
  | [] => True
  | o :: ops => allowed o s /\ admissible ops (exec o s).2
  end.

Fixpoint spec_run (cfg : Config) (ops : list op) (es : list (option JErr)) (a a' : Contents) : Prop :=
  match ops, es with
  | [], [] => forall id x, a' id x = a id x
  | o :: ops, e :: es => exists a1, spec_step cfg o e a a1 /\ spec_run cfg ops es a1 a'
  | _, _ => False
  end.

Lemma run_refines ops : forall s, Ready s -> admissible ops s ->
  let '(es, s') := run ops s in Ready s' /\ spec_run (st_cfg s) ops es (content s) (content s').
Proof.
  induction ops as [|o ops IH]; intros s Hr Ha; cbn [run]; [done|]. destruct Ha as [Ho Ha].
  destruct (exec_refines o s Hr Ho) as (Hr1 & Ec & Hstep). destruct (exec o s) as [e s1]. cbn [fst snd] in *.
  specialize (IH s1 Hr1 Ha). destruct (run ops s1) as [es s']. destruct IH as [Hr' Hspec]. split; [done|].
  cbn. exists (content s1). rewrite <- Ec. rewrite Ec at 1. auto.
Qed.

Lemma spec_step_ext cfg o e a b a' : (forall id x, b id x = a id x) -> spec_step cfg o e a a' -> spec_step cfg o e b a'.
Proof.
  intros E. assert (forall a', cooler a a' -> cooler b a') as Hcool by (intros a'' H id x; rewrite E; apply H).
  destruct o; cbn [spec_step write_step]; try (destruct e; cbn); try setoid_rewrite E; try done; try naive_solver.
Qed.

Lemma spec_run_ext cfg ops es a b a' : (forall id x, b id x = a id x) -> spec_run cfg ops es a a' -> spec_run cfg ops es b a'.
Proof.
  intros E. destruct ops as [|o ops], es as [|e es]; cbn; try done; [setoid_rewrite E; done|].
  intros (a1 & H1 & H2). exists a1. split; [eapply spec_step_ext; eauto|done].
Qed.

(** C4: whatever is done to a new journal store (writes, hydrations, deletions,
    truncations, commits, cold seeding, eviction, garbage collection, in any order, with
    sealing and rotation in between), it behaves as a byte map per file: every call
    succeeds or fails as the specification allows and has its effect on the map, and a
    read, verified or not, never fails and returns exactly the bytes of the map, holes
    and cold bytes as zeros, with the cold ones reported. *)
Theorem journal_store_refines free cfg now age s0 ops :
  Open free cfg now age ∅ = inr s0 -> Z.of_nat (ShardCount cfg) < 2 ^ 64 -> admissible ops s0 ->
  let '(es, s) := run ops s0 in
  exists a, spec_run (settings free cfg) ops es (fun _ _ => Hole) a /\
    forall verify id offset n, 0 <= offset -> 0 <= n -> offset + n < 2 ^ 63 ->
      store_ReadAt verify id offset n s = inr (read_of (map (a id) (seqZ offset n))).
Proof.
  intros E Hlt Ha. destruct (settings_shards free cfg) as [Hpos Hlt'].
  destruct (open_ready _ _ _ _ E Hpos (Hlt' Hlt)) as (Hr & Ec & Hh). pose proof (run_refines ops s0 Hr Ha) as H.
  destruct (run ops s0) as [es s]. destruct H as [(HI & Hcl & _) Hspec]. exists (content s). split.
  - rewrite <- Ec. eapply spec_run_ext; [|exact Hspec]. intros. now rewrite Hh.
  - intros. eapply ReadAt_spec; eauto.
Qed.

(** ** The passes end *)

(** A pass of eviction with enough fuel, whatever the fuel. *)
Lemma evict_loop_fuel now target fuel : forall fuel' allow res k s, Inv (seal_cost s allow + k) s ->
  (rounds allow s < fuel)%nat -> (rounds allow s < fuel')%nat ->
  evict_loop fuel now target allow res s = evict_loop fuel' now target allow res s.
Proof.
  induction fuel as [|fuel IH]; intros [|fuel'] allow res k s H Hf Hf'; try lia. cbn [evict_loop].
  destruct (claimColdestEvictable s) as [[i m]|] eqn:Ec.
  - destruct (claim_spec _ _ _ _ H Ec) as (sh & Hsh & Hm & _). destruct (evictSegment_spec _ i m s sh H Hsh Hm) as (H1 & Q1 & _).
    pose proof (evictSegment_count _ _ _ _ _ H Hsh Hm) as Hc. destruct (evictSegment i m s) as [freed s1]. cbn [snd] in *.
    destruct (_ || _); [done|]. unfold rounds, seal_cost in *. apply (IH fuel' allow _ k s1); unfold rounds, seal_cost; rewrite ?(proj1 Q1); [done|lia|lia].
  - destruct allow; [|done]. cbn [seal_cost] in H. destruct (sealSyncedActives_spec now k s H) as (b & s1 & E & H1 & Q1).
    pose proof (sealSyncedActives_from_count now (length (st_shards s)) 0 k s) as Hc. rewrite (proj1 (inv_shards _ _ H)) in Hc.
    specialize (Hc H ltac:(lia)). unfold sealSyncedActives in E. rewrite (proj1 (inv_shards _ _ H)) in E. rewrite E in Hc. cbn [snd] in Hc.
    unfold sealSyncedActives. rewrite (proj1 (inv_shards _ _ H)), E. destruct b; [|done]. unfold rounds in *.
    apply (IH fuel' false res k s1); unfold rounds; cbn; [done|lia|lia].
Qed.

(** C34: eviction and garbage collection end by themselves, when no other pass of the
    store runs at the same time and segment ids do not run out.  A pass of either, with at
    least as many rounds as there are sealed segments and shards, plus two, returns a
    result and not [ErrUnfinished], the same whatever the bound, so the bounds in [Evict]
    and [gcShard] are never what stops them.  Each eviction drops a sealed segment: without
    sealing, the sealed segments go down by exactly the number reported, and with it, those
    left and those evicted are at most the ones there were and one per shard.  Each round of a collection drops a victim and leaves
    fewer sealed segments with dead bytes, and a collection that is not forced ends with
    no victim left. *)
Theorem reclamation_terminates now target force s i fuel :
  Ready s -> (i < ShardCount (st_cfg s))%nat -> st_nextSeg s + Z.of_nat (cost (OpGC now force) s + ShardCount (st_cfg s)) < 2 ^ 64 ->
  (sealed_count s + ShardCount (st_cfg s) + 2 <= fuel)%nat ->
  (exists r s', evict_loop fuel now target true (mkEvictResult 0 0) s = (inr r, s') /\
     (st_evictionDisabled s = false -> Evict now target s = (inr r, s')) /\
     Z.of_nat (sealed_count s') + SegmentsEvicted r <= Z.of_nat (sealed_count s + ShardCount (st_cfg s))) /\
  (exists r s', evict_loop fuel now target false (mkEvictResult 0 0) s = (inr r, s') /\
     Z.of_nat (sealed_count s') + SegmentsEvicted r = Z.of_nat (sealed_count s)) /\
  (exists n s', gc_loop fuel now i force s = (inr n, s') /\ gcShard now i force s = (inr n, s') /\
     (force = false -> pickVictim false (shard_at s' i) s' = None)) /\
  (forall victim, pickVictim force (shard_at s i) s = Some victim ->
     exists n s', repackSegment now i victim s = (inr n, s') /\
       (candidates (sh_sealed (shard_at s' i)) < candidates (sh_sealed (shard_at s i)))%nat).
Proof.
  intros (H & Hcl & HS) Hi Hn Hfuel. pose proof (inv_shards _ _ H) as [Hl _].
  assert (forall k, (k <= cost (OpGC now force) s + ShardCount (st_cfg s))%nat -> Inv k s) as Hk.
  { intros k Hk. destruct H as [I1 I2 I3 I4 I5 I6]. split; try done. lia. }
  pose proof (shard_lookup _ _ i H Hi) as Hsh. pose proof (candidates_size (sh_sealed (shard_at s i))) as Hc.
  assert (size (sh_sealed (shard_at s i)) <= sealed_count s)%nat as Hsize.
  { apply (sum_list_with_in _ (fun sh => size (sh_sealed sh))). eapply list_elem_of_lookup_2; exact Hsh. }
  assert (S (size (sh_sealed (shard_at s i))) <= cost (OpGC now force) s)%nat as Hcost by (apply gc_cost_at; lia).
  split_and!.
  - destruct (evict_loop_spec now target fuel true (mkEvictResult 0 0) 0 s) as (r & s' & E & _ & _ & _ & _ & A & _);
      [apply Hk; unfold seal_cost; lia|unfold rounds; lia|].
    exists r, s'. split; [done|]. cbn [seal_cost SegmentsEvicted] in A. split; [|lia]. intros Hd. unfold Evict, evict. rewrite Hcl, Hd, <- E.
    apply (evict_loop_fuel _ _ _ _ _ _ 0); unfold rounds, seal_cost; rewrite ?Hl; [apply Hk; lia|lia|lia].
  - destruct (evict_loop_spec now target fuel false (mkEvictResult 0 0) 0 s) as (r & s' & E & _ & _ & _ & _ & _ & A); [apply Hk; unfold seal_cost; lia|unfold rounds; lia|].
    exists r, s'. split; [done|]. specialize (A eq_refl). cbn [SegmentsEvicted] in A. lia.
  - unfold gcShard. destruct (gc_loop_spec now i force (S (size (sh_sealed (shard_at s i)))) 0 s (shard_at s i)) as (n & s' & E & _ & _ & Hf & Hnone);
      [apply Hk; lia|done|lia|]. exists n, s'. split_and!; [apply Hf; lia|done|done].
  - intros m Ep. destruct (pickVictim_spec _ _ _ _ _ _ H Hsh Ep) as [Hm Hd].
    destruct (repackSegment_spec 0 i now s (shard_at s i) m) as (n & s1 & sh1 & E1 & _ & _ & Hsh1 & Ec); [apply Hk; lia|done..|].
    exists n, s1. split; [done|]. unfold shard_at at 1. rewrite Hsh1. cbn. lia.
Qed.

(** ** Witnesses *)

Definition demo_cfg : Config := mkConfig 1048576 2 0 1 2.
Definition demo_age : Z -> Z := fun _ => 0.
Definition demo_id : FileID := [97; 98].
Definition demo_store : Store :=
  Eval vm_compute in match Open (Some 1000000) demo_cfg 5 demo_age ∅ with inr s => s | inl _ => mkStore demo_cfg [] 0 0 0 0 0 0 false false ∅ end.
Definition demo_ops : list op :=
  [OpWrite 6 demo_id 0 [1; 2; 3; 4]; OpHydrate 7 demo_id 2 [8; 9]; OpTruncate 8 demo_id 3; OpCommit demo_id; OpSeedCold demo_id 3 1;
   OpGC 9 true; OpEvict 10 0; OpDelete 11 [99]].

Lemma demo_admissible : admissible demo_ops demo_store.
Proof. repeat (split; [split; [vm_compute; intuition congruence|split; vm_compute; reflexivity]|]). exact I. Qed.

Lemma journal_store_refines_witness : exists a,
  spec_run (settings (Some 1000000) demo_cfg) demo_ops (run demo_ops demo_store).1 (fun _ _ => Hole) a /\
  store_ReadAt true demo_id 0 5 (run demo_ops demo_store).2 = inr (read_of (map (a demo_id) (seqZ 0 5))).
Proof.
  pose proof (journal_store_refines (Some 1000000) demo_cfg 5 demo_age demo_store demo_ops eq_refl ltac:(vm_compute; reflexivity) demo_admissible) as H.
  destruct (run demo_ops demo_store) as [es s]. destruct H as (a & H1 & H2). exists a. split; [exact H1|]. apply H2; lia.
Defined.

Lemma demo_ready : Ready demo_store.
Proof. exact (proj1 (open_ready (settings (Some 1000000) demo_cfg) 5 demo_age demo_store eq_refl ltac:(cbn; lia) ltac:(vm_compute; reflexivity))). Qed.

(** A store with a sealed segment, half of it dead: the eviction seals the two synced
    active segments and drops the colder one. *)
Definition half_dead_ops : list op :=
  [OpHydrate 6 [100] 0 [1; 2; 3; 4]; OpHydrate 7 demo_id 0 [1; 2; 3; 4]; OpHydrate 8 demo_id 0 [5; 6; 7; 8]; OpEvict 9 1].
Definition half_dead : Store := Eval vm_compute in (run half_dead_ops demo_store).2.

Lemma half_dead_ready : Ready half_dead.
Proof.
  assert (admissible half_dead_ops demo_store) as Ha.
  { repeat (split; [split; [vm_compute; intuition congruence|split; vm_compute; reflexivity]|]). exact I. }
  pose proof (run_refines half_dead_ops demo_store demo_ready Ha) as H.
  assert ((run half_dead_ops demo_store).2 = half_dead) as E by (vm_compute; reflexivity).
  destruct (run half_dead_ops demo_store) as [es s]. cbn [snd] in E. subst s. apply H.
Qed.

Lemma reclamation_terminates_witness :
  (exists n s', gc_loop 100 0 0 false half_dead = (inr n, s') /\ gcShard 0 0 false half_dead = (inr n, s') /\
    pickVictim false (shard_at s' 0) s' = None) /\
  sealed_count half_dead = 1%nat /\ is_Some (pickVictim false (shard_at half_dead 0) half_dead).
Proof.
  split; [|split; [vm_compute; reflexivity|vm_compute; eauto]].
  destruct (reclamation_terminates 0 0 false half_dead 0 100 half_dead_ready) as (_ & _ & (n & s' & E1 & E2 & E3) & _);
    [cbn; lia|vm_compute; reflexivity|vm_compute; lia|].
  exists n, s'. auto.
Defined.
