(* ===== verification/JournalReplay.v ===== *)
(** * The journal store: what recovery rebuilds

    What a set of records says about a byte does not depend on the order or on the
    segments they are in: the newest record that covers the byte, unless a deletion or
    the last truncation of the file came later.  Recovery of a directory of segment
    files, torn tails included, succeeds and rebuilds exactly what the complete records
    in them say. *)

From S2P Require Import Prelude.
From S2P Require Import HoleMap.
From S2P Require Import JournalIndex.
From S2P Require Import JournalRecord.
From S2P Require Import JournalStore.
From S2P Require Import JournalReclaim.
From S2P Require Import JournalRecover.
From S2P Require Import JournalInv.
From S2P Require Import JournalOps.

(** ** What records say *)

Definition header_of (w : written) : recordHeader := w.1.1.
Definition file_of (w : written) : FileID := w.1.2.
Definition version_of (w : written) : Z := rh_Version (header_of w).
Definition offset_of (w : written) : Z := rh_FileOffset (header_of w).
Definition is_tomb (w : written) : bool := has (rh_Flags (header_of w)) flagTombstone.
Definition is_trunc (w : written) : bool := negb (is_tomb w) && has (rh_Flags (header_of w)) flagTruncate.
Definition is_data (w : written) : bool := negb (is_tomb w) && negb (has (rh_Flags (header_of w)) flagTruncate).

Definition covers (id : FileID) (x : Z) (w : written) : Prop :=
  is_data w = true /\ file_of w = id /\ offset_of w <= x < offset_of w + Z.of_nat (length w.2).

(** The last truncation of a file. *)
Definition last_trunc (l : list written) (id : FileID) (t : written) : Prop :=
  t ∈ l /\ is_trunc t = true /\ file_of t = id /\
  forall t', t' ∈ l -> is_trunc t' = true -> file_of t' = id -> version_of t' <= version_of t.

(** A later marker took the byte of a record of version [v] away. *)
Definition taken (l : list written) (id : FileID) (x v : Z) : Prop :=
  (exists t, t ∈ l /\ is_tomb t = true /\ file_of t = id /\ v <= version_of t) \/
  (exists t, last_trunc l id t /\ v <= version_of t /\ offset_of t <= x).

Definition cut (l : list written) (id : FileID) (x : Z) (w : written) : Prop := taken l id x (version_of w).

Definition Shows (l : list written) (id : FileID) (x : Z) (b : Byte) : Prop :=
  (exists w, w ∈ l /\ covers id x w /\ (forall w', w' ∈ l -> covers id x w' -> version_of w' <= version_of w) /\
     ~ cut l id x w /\ b = Known (byte_at (Z.to_nat (x - offset_of w)) w.2)) \/
  ((forall w, w ∈ l -> covers id x w -> cut l id x w) /\ b = Hole).

Definition distinct (l : list written) : Prop := forall w w', w ∈ l -> w' ∈ l -> version_of w = version_of w' -> w = w'.

Lemma Shows_fun l id x b b' : distinct l -> Shows l id x b -> Shows l id x b' -> b = b'.
Proof.
  intros Hd [(w & Hw & Hc & Hmax & Hn & ->)|[Hall ->]] [(w' & Hw' & Hc' & Hmax' & Hn' & ->)|[Hall' ->]]; [|exfalso; eauto..|done].
  assert (w = w') as -> by (apply Hd; [done..|]; specialize (Hmax _ Hw' Hc'); specialize (Hmax' _ Hw Hc); lia). done.
Qed.

(** Only the records of the file matter. *)
Lemma Shows_ext l l' id x b : (forall w, file_of w = id -> w ∈ l <-> w ∈ l') -> Shows l id x b -> Shows l' id x b.
Proof.
  intros E. assert (forall t, last_trunc l id t <-> last_trunc l' id t) as Et.
  { intros t. unfold last_trunc. split; intros (? & ? & Hf & Hm); split_and!; try done; (apply E; done) || (intros t' Ht' ? Hf'; apply Hm; [apply E|..]; done). }
  assert (forall w, cut l id x w <-> cut l' id x w) as Ec.
  { intros w. unfold cut, taken. setoid_rewrite Et. split; (intros [(t & ? & ? & ? & ?)|?]; [left; exists t; split_and!; try done; now apply E|now right]). }
  intros [(w & Hw & Hc & Hmax & Hn & ->)|[Hall ->]].
  - left. exists w. pose proof Hc as (_ & Hf & _). split_and!; [now apply E|done| |by rewrite <- Ec|done].
    intros w' Hw' Hc'. apply Hmax; [|done]. apply E; [apply Hc'|done].
  - right. split; [|done]. intros w Hw Hc. apply Ec, Hall; [|done]. apply E; [apply Hc|done].
Qed.

(** ** Replaying a log *)

Definition written_of (r : record) : written := (rec_header r, rec_fileID r, rec_payload r).

(** The log of segments: every record with the segment it is in. *)
Definition entries (g : Z) (ws : list written) : list (Z * record) := (fun r => (g, r)) <$> laid_out ws segHeaderSize.

Lemma written_of_laid_out ws : forall o, written_of <$> laid_out ws o = ws.
Proof. induction ws as [|[[h f] p] ws IH]; intros o; cbn; [done|]. now rewrite IH. Qed.

Definition is_data_of (id : FileID) (e : Z * record) : bool := is_data (written_of e.2) && bool_decide (rec_fileID e.2 = id).
Definition intervals (id : FileID) (l : list (Z * record)) : list interval :=
  (fun e => interval_of e.1 e.2) <$> List.filter (is_data_of id) l.

Lemma is_marker_data r : is_marker r = negb (is_data (written_of r)).
Proof. unfold is_marker, is_data, is_tomb. cbn. now rewrite negb_andb, !negb_involutive. Qed.

Lemma intervals_snoc id l e : intervals id (l ++ [e]) = intervals id l ++ (if is_data_of id e then [interval_of e.1 e.2] else []).
Proof. unfold intervals. rewrite List.filter_app, fmap_app. cbn. now destruct (is_data_of id e). Qed.

Lemma ivs_default (ix : gmap FileID fileIndex) (id : FileID) : fi_ivs (default (mkFileIndex [] 0) (ix !! id)) = ivs_in ix id.
Proof. unfold ivs_in. now destruct (ix !! id). Qed.

Lemma replay_ivs now id l :
  ivs_in (fold_left (fun ix e => replay_record now e.1 e.2 ix) l ∅) id = index_of (intervals id l).
Proof.
  induction l as [|e l IH] using rev_ind; [done|]. rewrite fold_left_app, intervals_snoc. cbn [fold_left].
  set (ix := fold_left _ l ∅) in *. unfold replay_record, is_data_of. rewrite is_marker_data.
  destruct (is_data (written_of e.2)); cbn [negb andb]; [|now rewrite app_nil_r].
  destruct (bool_decide_reflect (rec_fileID e.2 = id)) as [<-|Hne].
  - rewrite index_of_snoc, <- IH, <- (ivs_default ix). unfold ivs_in. now rewrite lookup_insert_eq.
  - rewrite app_nil_r, <- IH. unfold ivs_in. now rewrite lookup_insert_ne.
Qed.

(** The markers of a log. *)
Definition marks_of (l : list (Z * record)) : Marks := fold_left (fun ms e => note_marker e.2 ms) l (mkMarks ∅ ∅).

Definition writtens (l : list (Z * record)) : list written := (fun e => written_of e.2) <$> l.

Lemma writtens_app l l' : writtens (l ++ l') = writtens l ++ writtens l'.
Proof. apply fmap_app. Qed.

Lemma last_trunc_older l id t w : (is_trunc w = true -> file_of w = id -> version_of w <= version_of t) ->
  last_trunc l id t -> last_trunc (l ++ [w]) id t.
Proof.
  intros Hw (Ht & ? & ? & Hm). split_and!; [apply elem_of_app; auto|done..|]. intros t' Ht' ? ?.
  apply elem_of_app in Ht' as [Ht'|Ht'%list_elem_of_singleton]; [auto|subst; auto].
Qed.

Lemma last_trunc_unique l id t t' : distinct l -> last_trunc l id t -> last_trunc l id t' -> t' = t.
Proof. intros Hd (? & ? & ? & Hm) (? & ? & ? & Hm'). apply Hd; [done..|]. apply Z.le_antisymm; auto. Qed.

Lemma last_trunc_newer l id w : is_trunc w = true -> file_of w = id ->
  (forall t, t ∈ l -> is_trunc t = true -> file_of t = id -> version_of t <= version_of w) -> last_trunc (l ++ [w]) id w.
Proof.
  intros Ht Hf Hm. split_and!; [apply elem_of_app; right; now left|done..|]. intros t' Ht' ? ?.
  apply elem_of_app in Ht' as [Ht'|Ht'%list_elem_of_singleton]; [auto|subst; lia].
Qed.

(** What recovery knows of the truncations of a file, and of its deletions. *)
Definition trunc_known (o : option truncMark) (l : list written) (id : FileID) : Prop :=
  match o with
  | Some tm => exists t, last_trunc l id t /\ tm = mkTruncMark (version_of t) (i64 (offset_of t))
  | None => forall t, t ∈ l -> is_trunc t = true -> file_of t <> id
  end.

Definition tomb_known (o : option Z) (l : list written) (id : FileID) : Prop :=
  match o with
  | Some v => (exists t, t ∈ l /\ is_tomb t = true /\ file_of t = id /\ version_of t = v) /\
      forall t, t ∈ l -> is_tomb t = true -> file_of t = id -> version_of t <= v
  | None => forall t, t ∈ l -> is_tomb t = true -> file_of t <> id
  end.

Lemma trunc_known_keep o l w id : trunc_known o l id ->
  (is_trunc w = true -> file_of w = id -> exists tm, o = Some tm /\ version_of w <= tm_version tm) -> trunc_known o (l ++ [w]) id.
Proof.
  destruct o as [tm|]; intros Ho Hw.
  - destruct Ho as (t & Ht & ->). exists t. split; [|done]. apply last_trunc_older; [|done]. intros H1 H2.
    destruct (Hw H1 H2) as (tm & [= <-] & ?). done.
  - intros t Ht Htr Hf. apply elem_of_app in Ht as [Ht|Ht%list_elem_of_singleton]; [now apply (Ho t)|]. subst t.
    now destruct (Hw Htr Hf) as (? & [=] & _).
Qed.

Lemma trunc_known_new o l w id : trunc_known o l id -> is_trunc w = true -> file_of w = id ->
  (forall tm, o = Some tm -> tm_version tm < version_of w) ->
  trunc_known (Some (mkTruncMark (version_of w) (i64 (offset_of w)))) (l ++ [w]) id.
Proof.
  intros Ho Htr Hf Hgt. exists w. split; [|done]. apply last_trunc_newer; [done..|]. intros t Ht Htt Hft. destruct o as [tm|].
  - destruct Ho as (t0 & (_ & _ & _ & Hm) & ->). specialize (Hgt _ eq_refl). cbn in Hgt. specialize (Hm _ Ht Htt Hft). lia.
  - now apply Ho in Hft.
Qed.

Lemma tomb_known_keep o l w id : tomb_known o l id ->
  (is_tomb w = true -> file_of w = id -> exists v, o = Some v /\ version_of w <= v) -> tomb_known o (l ++ [w]) id.
Proof.
  destruct o as [v|]; intros Ho Hv.
  - destruct Ho as [(t & ? & ? & ? & ?) Hm]. split; [exists t; split_and!; try done; apply elem_of_app; auto|].
    intros t' Ht' ? ?. apply elem_of_app in Ht' as [Ht'|Ht'%list_elem_of_singleton]; [auto|]. subst t'.
    destruct Hv as (? & [= <-] & ?); auto.
  - intros t Ht ? ?. apply elem_of_app in Ht as [Ht|Ht%list_elem_of_singleton]; [now apply (Ho t)|]. subst t.
    now destruct Hv as (? & [=] & _).
Qed.

Lemma tomb_known_new o l w id : tomb_known o l id -> is_tomb w = true -> file_of w = id -> default 0 o < version_of w ->
  tomb_known (Some (version_of w)) (l ++ [w]) id.
Proof.
  intros Ho Htr Hf Hgt. split; [exists w; split_and!; [apply elem_of_app; right; now left|done..]|].
  intros t Ht Htt Hft. apply elem_of_app in Ht as [Ht|Ht%list_elem_of_singleton]; [|subst t; reflexivity]. destruct o as [v|].
  - destruct Ho as [_ Hm]. specialize (Hm _ Ht Htt Hft). cbn in Hgt. lia.
  - now apply Ho in Hft.
Qed.

(** One record. *)
Definition trunc_of (ms : Marks) (id : FileID) : option truncMark := mk_truncations ms !! id.
Definition tomb_of (ms : Marks) (id : FileID) : option Z := mk_tombstones ms !! id.

Lemma note_marker_known r ms l id : 0 < version_of (written_of r) ->
  trunc_known (trunc_of ms id) l id -> tomb_known (tomb_of ms id) l id ->
  trunc_known (trunc_of (note_marker r ms) id) (l ++ [written_of r]) id /\
  tomb_known (tomb_of (note_marker r ms) id) (l ++ [written_of r]) id.
Proof.
  set (w := written_of r). intros Hpos Hu Ho. unfold note_marker.
  change (rh_Version (rec_header r)) with (version_of w). change (rh_FileOffset (rec_header r)) with (offset_of w).
  change (rec_fileID r) with (file_of w). change (has (rh_Flags (rec_header r)) flagTombstone) with (is_tomb w).
  change (mk_truncations ms !! file_of w) with (trunc_of ms (file_of w)).
  change (mk_tombstones ms !! file_of w) with (tomb_of ms (file_of w)).
  destruct (is_tomb w) eqn:Et.
  - assert (is_trunc w = false) as Etr by (unfold is_trunc; now rewrite Et).
    destruct (Z.gtb_spec (version_of w) (default 0 (tomb_of ms (file_of w)))) as [Hgt|Hle].
    + split; [apply trunc_known_keep; [done|congruence]|]. unfold tomb_of. cbn [mk_tombstones]. destruct (decide (id = file_of w)) as [->|Hne].
      * rewrite lookup_insert_eq. eapply tomb_known_new; eauto.
      * rewrite lookup_insert_ne by done. apply tomb_known_keep; [done|]. congruence.
    + split; [apply trunc_known_keep; [done|congruence]|]. apply tomb_known_keep; [done|]. intros _ <-.
      destruct (tomb_of ms (file_of w)) as [v|]; [eauto|cbn in Hle; lia].
  - assert (is_trunc w = has (rh_Flags (rec_header r)) flagTruncate) as Etr by (unfold is_trunc; now rewrite Et). rewrite <- Etr.
    destruct (is_trunc w) eqn:Etw; [|split; [apply trunc_known_keep|apply tomb_known_keep]; congruence].
    assert (forall ms', mk_tombstones ms' = mk_tombstones ms -> mk_truncations ms' = <[file_of w := mkTruncMark (version_of w) (i64 (offset_of w))]> (mk_truncations ms) ->
      (forall tm, trunc_of ms (file_of w) = Some tm -> tm_version tm < version_of w) ->
      trunc_known (trunc_of ms' id) (l ++ [w]) id /\ tomb_known (tomb_of ms' id) (l ++ [w]) id) as Hnew.
    { intros ms' E1 E2 Hgt. unfold trunc_of, tomb_of. rewrite E1, E2. split; [|apply tomb_known_keep; [done|congruence]].
      destruct (decide (id = file_of w)) as [->|Hne].
      - rewrite lookup_insert_eq. eapply trunc_known_new; eauto.
      - rewrite lookup_insert_ne by done. apply trunc_known_keep; [done|]. congruence. }
    destruct (trunc_of ms (file_of w)) as [cur|] eqn:Em; [destruct (Z.gtb_spec (version_of w) (tm_version cur))|].
    + apply Hnew; [done..|]. now intros tm [= <-].
    + split; [|apply tomb_known_keep; [done|congruence]]. apply trunc_known_keep; [done|]. intros _ <-. eauto.
    + now apply Hnew.
Qed.

Lemma marks_known l id : (forall w, w ∈ writtens l -> 0 < version_of w) ->
  trunc_known (trunc_of (marks_of l) id) (writtens l) id /\ tomb_known (tomb_of (marks_of l) id) (writtens l) id.
Proof.
  induction l as [|e l IH] using rev_ind; intros Hpos.
  { unfold trunc_of, tomb_of. cbn. rewrite !lookup_empty. split; intros t Ht; now apply elem_of_nil in Ht. }
  rewrite writtens_app in *. change (writtens [e]) with [written_of e.2] in *.
  destruct IH as [Hu Ho]; [intros; apply Hpos, elem_of_app; auto|].
  unfold marks_of. rewrite fold_left_app. apply note_marker_known; [|done..]. apply Hpos, elem_of_app. right. now left.
Qed.

(** ** Honouring the markers *)

Lemma taken_dec ms id l x v : distinct l -> trunc_known (trunc_of ms id) l id -> tomb_known (tomb_of ms id) l id ->
  taken l id x v \/ ~ taken l id x v.
Proof.
  intros Hd Hu Ho. unfold taken.
  assert ((exists t, t ∈ l /\ is_tomb t = true /\ file_of t = id /\ v <= version_of t) \/
    ~ (exists t, t ∈ l /\ is_tomb t = true /\ file_of t = id /\ v <= version_of t)) as [H1|H1]; [|tauto|].
  { destruct (tomb_of ms id) as [tv|]; [|right; now intros (t & ? & ? & ?%Ho & _)]. destruct Ho as [(t & ? & ? & ? & E) Hm].
    destruct (Z.le_gt_cases v tv); [left; exists t; rewrite E; auto|right]. intros (t' & ? & ? & ? & ?). specialize (Hm t'). lia || (assert (version_of t' <= tv) by auto; lia). }
  assert ((exists t, last_trunc l id t /\ v <= version_of t /\ offset_of t <= x) \/
    ~ (exists t, last_trunc l id t /\ v <= version_of t /\ offset_of t <= x)) as [H2|H2]; [|tauto|tauto].
  destruct (trunc_of ms id) as [tm|]; [|right; intros (t & (? & ? & ?%Hu & _) & _); done]. destruct Hu as (t & Ht & _).
  destruct (decide (v <= version_of t /\ offset_of t <= x)); [left; eauto|right]. intros (t' & Ht' & ?).
  assert (t' = t) as -> by (eapply last_trunc_unique; eauto). done.
Qed.

Lemma honour_cells ms id l ivs : wf ivs -> distinct l ->
  trunc_known (trunc_of ms id) l id -> tomb_known (tomb_of ms id) l id ->
  (forall t, t ∈ l -> 0 <= offset_of t < 2 ^ 63) ->
  wf (honour ms id ivs) /\
  forall x c, resolve (honour ms id ivs) x = Some c <-> resolve ivs x = Some c /\ ~ taken l id x (c_version c).
Proof.
  intros Hw Hd Hu Ho Hoff. unfold honour, taken. fold (tomb_of ms id). fold (trunc_of ms id).
  set (ivs1 := match tomb_of ms id with Some tv => _ | None => _ end).
  assert (wf ivs1 /\ forall x c, resolve ivs1 x = Some c <-> resolve ivs x = Some c /\
    ~ (exists t, t ∈ l /\ is_tomb t = true /\ file_of t = id /\ c_version c <= version_of t)) as [Hw1 H1].
  { subst ivs1. destruct (tomb_of ms id) as [v|].
    - destruct (bury_fenced ivs v Hw) as [Hwb Hb]. split; [done|]. intros x c. rewrite Hb. destruct Ho as [(t & Ht1 & Ht2 & Ht3 & Ht4) Hm].
      split; intros [Hr Hc]; (split; [done|]).
      + intros (t' & ? & ? & ? & ?). specialize (Hm t'). lia || (assert (version_of t' <= v) by auto; lia).
      + destruct (Z.le_gt_cases (c_version c) v); [|lia]. destruct Hc. exists t. rewrite Ht4. auto.
    - split; [done|]. intros x c. split; [|tauto]. intros Hr. split; [done|]. intros (t & Ht & Htt & Hf & _). now apply (Ho t). }
  destruct (trunc_of ms id) as [tm|].
  - destruct Hu as (t & Ht & ->). pose proof Ht as (Hin & Htr & Hft & Hm). cbn [tm_version tm_newSize].
    rewrite i64_small by (unfold in_i64; specialize (Hoff t Hin); lia).
    destruct (clip_fenced ivs1 (version_of t) (offset_of t) Hw1) as [Hwc Hc]. split; [done|]. intros x c. rewrite Hc, H1.
    split; [intros [[Hr Hn] Hcx]; split; [done|]; intros [?|(t' & Ht' & ? & ?)]; [done|]|intros [Hr Hn]; split; [tauto|]].
    + assert (t' = t) as -> by (eapply last_trunc_unique; eauto). lia.
    + destruct (Z.le_gt_cases (c_version c) (version_of t)); [|lia]. destruct (Z.le_gt_cases (offset_of t) x); [|lia].
      destruct Hn. right. eauto.
  - split; [done|]. intros x c. rewrite H1. split; [|tauto]. intros [Hr Hn]. split; [done|]. intros [?|(t & (Hin & Htr & Hf & _) & _)]; [done|].
    now apply (Hu t).
Qed.

(** A record the store can have written. *)
Definition sane (w : written) : Prop :=
  0 < version_of w /\ 0 <= offset_of w < 2 ^ 63 /\ rh_PayloadLen (header_of w) = Z.of_nat (length w.2) /\
  (is_data w = true -> 0 < Z.of_nat (length w.2) /\ offset_of w + Z.of_nat (length w.2) < 2 ^ 63).

Definition versions (l : list (Z * record)) : list Z := version_of <$> writtens l.

Lemma NoDup_distinct (l : list written) : NoDup (version_of <$> l) -> distinct l.
Proof.
  intros Hn w w' Hw Hw' E. apply list_elem_of_lookup in Hw as [i Hi]. apply list_elem_of_lookup in Hw' as [j Hj].
  assert (i = j) as ->; [|congruence]. apply (NoDup_lookup _ _ _ (version_of w) Hn); rewrite list_lookup_fmap; [rewrite Hi|rewrite Hj, E]; done.
Qed.

Lemma elem_of_writtens l w : w ∈ writtens l <-> exists g r, (g, r) ∈ l /\ w = written_of r.
Proof.
  unfold writtens. rewrite list_elem_of_fmap. split; [intros ([g r] & -> & H); eauto|intros (g & r & H & ->)].
  now exists (g, r).
Qed.

Section rebuilt.
Context (l : list (Z * record)) (id : FileID).
Hypothesis Hsane : forall w, w ∈ writtens l -> sane w.
Hypothesis Hnodup : NoDup (versions l).

Lemma in_intervals iv : In iv (intervals id l) <->
  exists g r, (g, r) ∈ l /\ is_data (written_of r) = true /\ rec_fileID r = id /\ iv = interval_of g r.
Proof.
  unfold intervals. rewrite <- list_elem_of_In, list_elem_of_fmap. split.
  - intros ([g r] & -> & H). apply list_elem_of_In, filter_In in H as [H E]. unfold is_data_of in E.
    apply andb_true_iff in E as [? E%bool_decide_eq_true]. exists g, r. split_and!; try done. now apply list_elem_of_In.
  - intros (g & r & H & Hd & Hf & ->). exists (g, r). split; [done|]. apply list_elem_of_In, filter_In.
    split; [now apply list_elem_of_In|]. unfold is_data_of. cbn. rewrite Hd. now apply bool_decide_eq_true.
Qed.

Lemma interval_covers g r x : (g, r) ∈ l -> is_data (written_of r) = true -> rec_fileID r = id ->
  iv_ok (interval_of g r) /\ iv_version (interval_of g r) = version_of (written_of r) /\ (in_iv x (interval_of g r) <-> covers id x (written_of r)).
Proof.
  intros Hin Hd Hf. destruct (Hsane (written_of r)) as (Hv & Ho & Hl & Hdata); [apply elem_of_writtens; eauto|].
  destruct (Hdata Hd) as [? ?]. unfold offset_of, header_of, written_of in *. cbn in *.
  assert (i64 (rh_FileOffset (rec_header r)) = rh_FileOffset (rec_header r)) as Ei by (apply i64_small; unfold in_i64; lia).
  unfold iv_ok, in_iv, covers, interval_of, offset_of, header_of. cbn. rewrite Ei, Hl. split_and!; try lia; [done|].
  split; [intros ?; split_and!; try done; lia|intros (_ & _ & ?); lia].
Qed.

Lemma intervals_ok : Forall iv_ok (intervals id l) /\ NoDup (map iv_version (intervals id l)).
Proof.
  split.
  - apply List.Forall_forall. intros iv (g & r & Hin & Hd & Hf & ->)%in_intervals. now apply (interval_covers g r 0).
  - clear Hsane. unfold versions, writtens, intervals in *. rewrite <- list_fmap_compose in Hnodup. induction l as [|[g r] l' IH]; [constructor|].
    cbn in Hnodup. apply NoDup_cons in Hnodup as [Hn Hnd]. cbn. destruct (is_data_of id (g, r)); [|now apply IH]. cbn. apply NoDup_cons. split; [|now apply IH].
    intros (iv & E & Hiv)%list_elem_of_In%in_map_iff. apply list_elem_of_In, list_elem_of_fmap in Hiv as ([g' r'] & -> & Hin).
    apply list_elem_of_In, filter_In in Hin as [Hin _]. apply Hn, list_elem_of_fmap. exists (g', r'). split; [done|]. now apply list_elem_of_In.
Qed.

Definition rebuilt_ivs : list interval := honour (marks_of l) id (index_of (intervals id l)).

Lemma rebuilt_resolve : wf rebuilt_ivs /\ forall x,
  match resolve rebuilt_ivs x with
  | Some c => exists g r, (g, r) ∈ l /\ covers id x (written_of r) /\
      (forall w', w' ∈ writtens l -> covers id x w' -> version_of w' <= version_of (written_of r)) /\
      ~ cut (writtens l) id x (written_of r) /\ c = cell_of (interval_of g r) x
  | None => forall w, w ∈ writtens l -> covers id x w -> cut (writtens l) id x w
  end.
Proof.
  destruct intervals_ok as [Hok Hnd]. destruct (index_of_latest _ Hok Hnd) as [Hw Hl].
  destruct (marks_known l id) as [Hu Ho]; [intros w ?%Hsane; now destruct H|].
  destruct (honour_cells (marks_of l) id (writtens l) _ Hw (NoDup_distinct _ Hnodup) Hu Ho) as [Hw' Hr]; [intros t Ht; now apply Hsane|].
  split; [done|]. intros x. fold rebuilt_ivs in Hr.
  assert (forall c, latest (intervals id l) x c -> exists g r, (g, r) ∈ l /\ covers id x (written_of r) /\
      (forall w', w' ∈ writtens l -> covers id x w' -> version_of w' <= version_of (written_of r)) /\ c = cell_of (interval_of g r) x) as Hlat.
  { intros c (iv & Hiv & Hx & <- & Hmax). apply in_intervals in Hiv as (g & r & Hin & Hd & Hf & ->).
    destruct (interval_covers g r x Hin Hd Hf) as (_ & Ev & Hc). exists g, r. split_and!; [done|tauto| |done].
    intros w' Hw0 Hc'. apply elem_of_writtens in Hw0 as (g' & r' & Hin' & ->). pose proof Hc' as (Hd' & Hf' & _).
    destruct (interval_covers g' r' x Hin' Hd' Hf') as (_ & Ev' & Hcov'). rewrite <- Ev, <- Ev'. apply Hmax; [apply in_intervals; eauto 10|tauto]. }
  destruct (resolve rebuilt_ivs x) as [c|] eqn:E.
  - apply Hr in E as [E Hn]. apply resolve_has_cell, Hl, Hlat in E as (g & r & Hin & Hc & Hmax & ->); [|done].
    exists g, r. split_and!; try done.
  - intros w Hw0 Hc. apply elem_of_writtens in Hw0 as (g & r & Hin & ->). pose proof Hc as (Hd & Hf & _).
    destruct (interval_covers g r x Hin Hd Hf) as (_ & Ev & Hcov).
    destruct (latest_exists (intervals id l) x (interval_of g r)) as (iv & Hiv & Hx & Hmax); [apply in_intervals; eauto 10|tauto|].
    assert (latest (intervals id l) x (cell_of iv x)) as Hli by (exists iv; auto).
    assert (resolve (index_of (intervals id l)) x = Some (cell_of iv x)) as Hres by (apply resolve_has_cell, Hl; done).
    assert (iv_version (interval_of g r) <= iv_version iv) as Hle by (apply Hmax; [apply in_intervals; eauto 10|tauto]).
    rewrite Ev in Hle.
    destruct (taken_dec (marks_of l) id (writtens l) x (iv_version iv) (NoDup_distinct _ Hnodup) Hu Ho) as [Ht|Hn].
    + unfold cut. destruct Ht as [(t & ? & ? & ? & ?)|(t & ? & ? & ?)]; [left|right]; exists t; split_and!; try done; lia.
    + assert (resolve rebuilt_ivs x = Some (cell_of iv x)) by (apply Hr; auto). congruence.
Qed.

End rebuilt.

(** ** Segment files *)

(** A segment file that may end in the middle of a record. *)
Definition readable (S : Z) (g : Z) (b : list Z) (ws : list written) : Prop :=
  exists c fl tail, b = encodeSegHeader g c fl ++ concat (map enc ws) ++ tail /\ in_u32 fl /\ torn S tail /\ Forall (good S) ws /\
    64 + total_size ws <= S /\ (has fl segFlagSealed = true -> ws <> [] /\ tail = []).

Lemma u64_i64 x : u64 (i64 x) = u64 x.
Proof. unfold i64, u64, wrap. rewrite Zminus_mod_idemp_l. f_equal. lia. Qed.

Lemma i64_range x : in_i64 (i64 x).
Proof. unfold in_i64, i64. pose proof (Z.mod_pos_bound (x + 2 ^ 63) (2 ^ 64)). lia. Qed.

Lemma decode_header g c fl rest : in_u64 g -> in_u32 fl ->
  decodeSegHeader (take (Z.to_nat segHeaderSize) (encodeSegHeader g c fl ++ rest)) = Some (g, i64 c, fl).
Proof.
  intros Hg Hf. change (Z.to_nat segHeaderSize) with 64%nat. rewrite take_app_le, take_ge by (rewrite segHeader_length; lia).
  replace (encodeSegHeader g c fl) with (encodeSegHeader g (i64 c) fl ++ []) by (rewrite app_nil_r; unfold encodeSegHeader; now rewrite u64_i64).
  apply seg_header_roundtrip; [done| |done]. apply i64_range.
Qed.

Section disk.
Context (cfg : Config) (now : Z) (d : gmap Z File) (W : gmap Z (list written)).
Hypothesis Hfiles : forall g f, d !! g = Some f -> in_u64 g /\ exists ws, W !! g = Some ws /\ readable (SegmentSize cfg) g (fl_bytes f) ws.
Hypothesis Hdom : forall g, is_Some (W !! g) -> is_Some (d !! g).

Definition recs (g : Z) : list written := default [] (W !! g).
Definition slot (g : Z) : nat := match recs g with w :: _ => shard_slot cfg (file_of w) | [] => 0 end.

Hypothesis Hslots : forall g w, w ∈ recs g -> shard_slot cfg (file_of w) = slot g /\ (slot g < ShardCount cfg)%nat.

(** The records of the segments [ids], and those of one shard. *)
Definition log (ids : list Z) : list (Z * record) := ids ≫= fun g => entries g (recs g).
Definition log_in (i : nat) (ids : list Z) : list (Z * record) :=
  ids ≫= fun g => if (slot g =? i)%nat then entries g (recs g) else [].

(** A shard after the segments [ids]. *)
Definition rebuilt_from (ids : list Z) (i : nat) (b : Rebuilt) : Prop :=
  rb_index b = fold_left (fun ix e => replay_record now e.1 e.2 ix) (log_in i ids) ∅ /\
  (forall g m, rb_sealed b !! g = Some m -> sg_id m = g) /\
  (forall g, g ∈ ids -> recs g <> [] -> slot g = i -> (exists m, rb_active b = Some m /\ sg_id m = g) \/ is_Some (rb_sealed b !! g)).

Record Recovered (ids : list Z) (rc : Recovery) : Prop := {
  rv_length : length (rc_shards rc) = ShardCount cfg;
  rv_shards : forall i b, rc_shards rc !! i = Some b -> rebuilt_from ids i b;
  rv_pool : forall m, m ∈ rc_pool rc -> recs (sg_id m) = [] /\ is_Some (d !! sg_id m);
  rv_orphans : rc_orphans rc = [];
  rv_marks : rc_marks rc = marks_of (log ids);
  rv_version : 0 <= rc_maxVersion rc /\ forall w, w ∈ writtens (log ids) -> version_of w <= rc_maxVersion rc;
  rv_rest : forall g, g ∉ ids -> rc_disk rc !! g = d !! g;
  rv_disk : forall g, g ∈ ids -> recs g <> [] -> exists f, rc_disk rc !! g = Some f /\ layout (SegmentSize cfg) (fl_bytes f) (recs g);
  rv_dom : forall g, is_Some (rc_disk rc !! g) -> is_Some (d !! g);
}.

Lemma log_snoc ids g : log (ids ++ [g]) = log ids ++ entries g (recs g).
Proof. unfold log. rewrite bind_app. cbn. now rewrite app_nil_r. Qed.

Lemma log_in_snoc i ids g : log_in i (ids ++ [g]) = log_in i ids ++ (if (slot g =? i)%nat then entries g (recs g) else []).
Proof. unfold log_in. rewrite bind_app. cbn. now rewrite app_nil_r. Qed.

(** The scan of a file. *)
Lemma scan_readable g f : d !! g = Some f -> exists c fl tail,
  fl_bytes f = (encodeSegHeader g c fl ++ concat (map enc (recs g))) ++ tail /\
  decodeSegHeader (take (Z.to_nat segHeaderSize) (fl_bytes f)) = Some (g, i64 c, fl) /\
  scanValidRecords (fl_bytes f) (SegmentSize cfg) (SegmentSize cfg) = (laid_out (recs g) segHeaderSize, segHeaderSize + total_size (recs g)) /\
  (has fl segFlagSealed = true -> recs g <> [] /\ tail = []) /\ Forall (good (SegmentSize cfg)) (recs g).
Proof.
  intros Hf. destruct (Hfiles _ _ Hf) as (Hg & ws & Hw & c & fl & tail & -> & Hfl & Ht & Hgood & Hs & Hseal).
  exists c, fl, tail. unfold recs. rewrite Hw. cbn [default]. unfold default, id. split_and!; [now rewrite <- app_assoc|now apply decode_header| |done..].
  apply scan_file; [apply segHeader_length| |done..]. eapply Forall_impl; [exact Hgood|]. now intros w [? _].
Qed.

Lemma attach_owns sealed rs m b : (forall g m, rb_sealed b !! g = Some m -> sg_id m = g) ->
  let b' := attach sealed rs m b in
  rb_index b' = rb_index b /\ (forall g m, rb_sealed b' !! g = Some m -> sg_id m = g) /\
  (forall g, g = sg_id m \/ (exists a, rb_active b = Some a /\ sg_id a = g) \/ is_Some (rb_sealed b !! g) ->
     (exists a, rb_active b' = Some a /\ sg_id a = g) \/ is_Some (rb_sealed b' !! g)).
Proof.
  intros Hs.
  assert (forall rs m, sg_id (count_records rs m) = sg_id m) as Hid.
  { clear. induction rs as [|r rs IH]; intros m; [done|]. cbn. rewrite IH. unfold count_record, noteMinVersion. now destruct (is_marker r), (_ && _). }
  cbv zeta. unfold attach. destruct sealed; [|destruct (rb_active b) as [a|] eqn:Ea].
  - cbn. split_and!; [done| |].
    + intros g m' [[<- <-]|[_ H]]%lookup_insert_Some; [apply Hid|auto].
    + intros g [->|[H|H]]; [right; rewrite lookup_insert_eq; eauto|auto|right]. apply lookup_insert_is_Some'. auto.
  - assert (forall act dem, (act = m /\ dem = a) \/ (act = a /\ dem = m) ->
      let b' := mkRebuilt (Some act) (<[sg_id dem := count_records rs (set_sealed dem)]> (rb_sealed b)) (rb_index b) in
      (forall g m, rb_sealed b' !! g = Some m -> sg_id m = g) /\
      (forall g, g = sg_id m \/ (exists a0, Some a = Some a0 /\ sg_id a0 = g) \/ is_Some (rb_sealed b !! g) ->
        (exists a0, rb_active b' = Some a0 /\ sg_id a0 = g) \/ is_Some (rb_sealed b' !! g))) as Hboth.
    { intros act dem Had. cbn. split.
      - intros g m' [[<- <-]|[_ H]]%lookup_insert_Some; [now rewrite Hid|auto].
      - intros g Hg. rewrite lookup_insert_is_Some'. destruct Hg as [->|[(a0 & [= <-] & <-)|?]]; [| |auto];
          destruct Had as [[-> ->]|[-> ->]]; eauto. }
    destruct (_ >? _); cbn [rb_index]; (split; [done|]); apply Hboth; auto.
  - cbn. split_and!; [done|done|]. intros g [->|[(? & [=] & _)|?]]; [left; eexists; split; [done|apply Hid]|auto].
Qed.

Lemma trim_layout g f c fl tail : fl_bytes f = (encodeSegHeader g c fl ++ concat (map enc (recs g))) ++ tail ->
  Forall (good (SegmentSize cfg)) (recs g) ->
  layout (SegmentSize cfg) (take (Z.to_nat (segHeaderSize + total_size (recs g))) (fl_bytes f)) (recs g) /\
  (Z.of_nat (length (fl_bytes f)) <= segHeaderSize + total_size (recs g) -> layout (SegmentSize cfg) (fl_bytes f) (recs g)).
Proof.
  intros Hb Hgood. assert (Z.of_nat (length (encodeSegHeader g c fl ++ concat (map enc (recs g)))) = segHeaderSize + total_size (recs g)) as Hl
    by (rewrite length_app, Nat2Z.inj_add, concat_enc_length, segHeader_length; reflexivity).
  assert (layout (SegmentSize cfg) (encodeSegHeader g c fl ++ concat (map enc (recs g))) (recs g)) as Hlay
    by (exists (encodeSegHeader g c fl); auto using segHeader_length).
  split.
  - rewrite Hb, <- Hl, Nat2Z.id, take_app_length. exact Hlay.
  - intros Hle. rewrite Hb, length_app, Nat2Z.inj_add, Hl in Hle. destruct tail; [|cbn in Hle; lia]. now rewrite Hb, app_nil_r.
Qed.

Lemma max_version rs v : let v' := foldl (fun v r => Z.max v (rh_Version (rec_header r))) v rs in
  v <= v' /\ forall r, r ∈ rs -> rh_Version (rec_header r) <= v'.
Proof.
  revert v. induction rs as [|r rs IH]; intros v; cbn [foldl]; [split; [lia|intros r H; now apply elem_of_nil in H]|].
  destruct (IH (Z.max v (rh_Version (rec_header r)))) as [H1 H2]. split; [lia|].
  intros r' [->|H]%elem_of_cons; [lia|auto].
Qed.

Lemma writtens_entries g ws : writtens (entries g ws) = ws.
Proof. unfold writtens, entries. rewrite <- list_fmap_compose. apply written_of_laid_out. Qed.

Lemma replay_entries {A} (F : Z * record -> A -> A) g ws a :
  fold_left (fun a e => F e a) (entries g ws) a = fold_left (fun a r => F (g, r) a) (laid_out ws segHeaderSize) a.
Proof. unfold entries. generalize (laid_out ws segHeaderSize) as rs. intros rs. revert a. induction rs as [|r rs IH]; intros a; cbn; auto. Qed.

Lemma recover_segment_spec ids rc g : Recovered ids rc -> g ∉ ids -> is_Some (d !! g) ->
  exists rc', recover_segment cfg now rc g = Some rc' /\ Recovered (ids ++ [g]) rc'.
Proof.
  intros H Hg [f Hf]. destruct (scan_readable g f Hf) as (c & fl & tail & Hb & Hdec & Hscan & Hseal & Hgood).
  unfold recover_segment. rewrite (rv_rest _ _ H) by done. rewrite Hf, Hdec, Z.eqb_refl, Hscan. cbn [negb].
  assert (forall g', g' ∈ ids ++ [g] <-> g' ∈ ids \/ g' = g) as Hel by (intros g'; now rewrite elem_of_app, list_elem_of_singleton).
  destruct (recs g) as [|w0 ws0] eqn:Er.
  - cbn [laid_out]. destruct (has fl segFlagSealed); [now destruct (Hseal eq_refl)|]. eexists. split; [reflexivity|].
    assert (entries g (recs g) = []) as Ee by now rewrite Er.
    destruct H as [H1 H2 H3 H4 H5 H6 H7 H8 H9]. split; cbn [rc_shards rc_pool rc_orphans rc_marks rc_maxVersion rc_disk];
      rewrite ?log_snoc, ?Ee, ?app_nil_r; try done.
    + intros i b Hi. destruct (H2 i b Hi) as (A1 & A2 & A3). split_and!; [|done|].
      * rewrite log_in_snoc, Ee. now destruct (_ =? _)%nat; rewrite app_nil_r.
      * intros g' [?| ->]%Hel ? ?; [now apply A3|congruence].
    + intros m [Hm|Hm%list_elem_of_singleton]%elem_of_app; [auto|subst m; cbn; eauto].
    + intros g' Hn. apply H7. intros ?. now apply Hn, Hel; left.
    + intros g' [?| ->]%Hel ?; [now apply H8|congruence].
  - assert (recs g <> []) as Hne by congruence. assert (slot g = shard_slot cfg (file_of w0)) as Es by (unfold slot; now rewrite Er).
    assert (rec_fileID (read_back w0 segHeaderSize) = file_of w0) as Ef by now destruct w0 as [[? ?] ?].
    cbn [laid_out]. rewrite Ef, <- Es. change (read_back w0 segHeaderSize :: laid_out ws0 (segHeaderSize + size_of w0)) with (laid_out (w0 :: ws0) segHeaderSize).
    rewrite <- Er. eexists. split; [reflexivity|]. destruct (Hslots g w0) as [_ Hlt]; [rewrite Er; now left|].
    destruct (trim_layout g f c fl tail) as [Htrim Hfull]; [now rewrite Er|now rewrite Er|].
    destruct H as [H1 H2 H3 H4 H5 H6 H7 H8 H9].
    assert (is_Some (rc_shards rc !! slot g)) as [b Hb0] by (apply lookup_lt_is_Some; lia).
    destruct (H2 _ _ Hb0) as (A1 & A2 & A3). rewrite Hb0. change (default no_shard (Some b)) with b.
    set (m := mkSegMeta g _ _ _ _ _ _ _ _ _). set (sealed := has fl segFlagSealed).
    destruct (attach_owns sealed (laid_out (recs g) segHeaderSize) m b A2) as (B1 & B2 & B3).
    split; cbn [rc_shards rc_pool rc_orphans rc_marks rc_maxVersion rc_disk]; rewrite ?log_snoc, ?length_insert; try done.
    + intros i b' Hb'. destruct (decide (i = slot g)) as [->|Hi].
      * rewrite list_lookup_insert_eq in Hb' by lia. injection Hb' as <-. unfold rebuilt_from. cbn. split_and!; [|done|].
        -- rewrite log_in_snoc, Nat.eqb_refl, fold_left_app, replay_entries, B1, A1. done.
        -- intros g' Hin Hn Hs. apply B3. apply Hel in Hin as [Hin| ->]; [right; now apply A3|now left].
      * rewrite list_lookup_insert_ne in Hb' by congruence. destruct (H2 _ _ Hb') as (C1 & C2 & C3). split_and!; [|done|].
        -- rewrite log_in_snoc, C1. destruct (Nat.eqb_spec (slot g) i); [congruence|]. now rewrite app_nil_r.
        -- intros g' [?| ->]%Hel ? ?; [now apply C3|congruence].
    + rewrite H5. unfold marks_of. rewrite fold_left_app. symmetry. apply replay_entries.
    + rewrite writtens_app, writtens_entries. destruct (max_version (laid_out (recs g) segHeaderSize) (rc_maxVersion rc)) as [M1 M2]. cbv zeta in *.
      split; [lia|]. intros w [Hw|Hw]%elem_of_app; [specialize (proj2 H6 w Hw); lia|].
      rewrite <- (written_of_laid_out (recs g) segHeaderSize) in Hw. apply list_elem_of_fmap in Hw as (r & -> & Hr). apply M2, Hr.
    + intros g' Hn. assert (g' <> g) by (intros ->; apply Hn, Hel; auto). assert (g' ∉ ids) by (intros ?; apply Hn, Hel; auto).
      destruct (_ && _); [unfold truncate_file; rewrite lookup_alter_ne by done|]; now apply H7.
    + intros g' [Hin| ->]%Hel Hn.
      * assert (g' <> g) by congruence. destruct (_ && _); [unfold truncate_file; rewrite lookup_alter_ne by done|]; now apply H8.
      * unfold truncate_file. destruct (negb sealed && _) eqn:Et.
        -- rewrite lookup_alter_eq, H7, Hf by done. eexists. split; [reflexivity|]. exact Htrim.
        -- exists f. rewrite H7 by done. split; [done|]. apply andb_false_iff in Et as [Et|Et%Z.ltb_ge]; [|now apply Hfull].
           apply negb_false_iff in Et. destruct (Hseal Et) as [_ ->]. apply Hfull. rewrite Hb, app_nil_r, length_app, Nat2Z.inj_add, concat_enc_length, segHeader_length, Er. reflexivity.
    + intros g' Hg'. apply H9. destruct (_ && _); [|done]. unfold truncate_file in Hg'. now apply lookup_alter_is_Some in Hg'.
Qed.

(** ** All segments *)

Lemma segment_ids_spec g : g ∈ segment_ids d <-> is_Some (d !! g).
Proof.
  unfold segment_ids. rewrite list_elem_of_In, elem_of_sort_by, <- list_elem_of_In, list_elem_of_fmap. split.
  - intros ([g' f] & -> & H). apply elem_of_map_to_list in H. eauto.
  - intros [f H]. exists (g, f). split; [done|]. now apply elem_of_map_to_list.
Qed.

Lemma segment_ids_NoDup : NoDup (segment_ids d).
Proof. unfold segment_ids. rewrite <- sort_by_perm. apply NoDup_fst_map_to_list. Qed.

Lemma recover_fold l : forall ids rc, Recovered ids rc -> NoDup (ids ++ l) -> (forall g, g ∈ l -> is_Some (d !! g)) ->
  exists rc', fold_left (fun o id => rc ← o; recover_segment cfg now rc id) l (Some rc) = Some rc' /\ Recovered (ids ++ l) rc'.
Proof.
  induction l as [|g l IH]; intros ids rc H Hnd Hl; cbn [fold_left]; [exists rc; now rewrite app_nil_r|].
  destruct (recover_segment_spec ids rc g H) as (rc1 & E & H1); [|apply Hl; now left|].
  - apply NoDup_app in Hnd as (_ & Hn & _). intros Hg. apply (Hn g Hg). now left.
  - cbn [mbind option_bind]. rewrite E. destruct (IH (ids ++ [g]) rc1 H1) as (rc' & E' & H').
    + now rewrite <- app_assoc.
    + intros g' Hg'. apply Hl. now right.
    + exists rc'. rewrite <- app_assoc in H'. auto.
Qed.

Lemma recover_all_spec : exists rc, recover_all cfg now d = Some rc /\ Recovered (segment_ids d) rc.
Proof.
  unfold recover_all. apply (recover_fold _ []); [|apply segment_ids_NoDup|intros g; apply segment_ids_spec].
  split; cbn; try done.
  - apply length_replicate.
  - intros i b [-> _]%lookup_replicate. split_and!; [done|intros g m; cbn; now rewrite lookup_empty|intros g H; now apply elem_of_nil in H].
  - intros m H. now apply elem_of_nil in H.
  - split; [lia|]. intros w H. now apply elem_of_nil in H.
  - intros g H. now apply elem_of_nil in H.
Qed.

(** ** Index of a shard *)

Lemma honour_nil (ms : Marks) (id : FileID) : honour ms id [] = [].
Proof. unfold honour. destruct (mk_tombstones ms !! id), (mk_truncations ms !! id); reflexivity. Qed.

Lemma honour_index_ivs (ms : Marks) (ix : gmap FileID fileIndex) (id : FileID) : ivs_in (honour_index ms ix) id = honour ms id (ivs_in ix id).
Proof.
  unfold ivs_in, honour_index. rewrite map_lookup_imap. destruct (ix !! id) as [fi|]; cbn [mbind option_bind]; [|now rewrite honour_nil].
  now destruct (honour ms id (fi_ivs fi)) eqn:E.
Qed.

Lemma elem_of_log ids g r : (g, r) ∈ log ids <-> g ∈ ids /\ r ∈ laid_out (recs g) segHeaderSize.
Proof.
  unfold log, entries. rewrite list_elem_of_bind. split.
  - intros (g' & H & Hg). apply list_elem_of_fmap in H as (r' & [= -> ->] & H). auto.
  - intros [Hg Hr]. exists g. split; [|done]. apply list_elem_of_fmap. eauto.
Qed.

Lemma log_file g r ids : (g, r) ∈ log ids -> written_of r ∈ recs g.
Proof.
  intros [_ H]%elem_of_log. rewrite <- (written_of_laid_out (recs g) segHeaderSize). apply list_elem_of_fmap. eauto.
Qed.

(** All records of a file are in segments of its shard. *)
Lemma intervals_in i ids id : intervals id (log_in i ids) = if (shard_slot cfg id =? i)%nat then intervals id (log ids) else [].
Proof.
  assert (forall g, is_Some (List.find (is_data_of id) (entries g (recs g))) -> slot g = shard_slot cfg id) as Hs.
  { intros g [e He]. apply find_some in He as [He Hd]. apply list_elem_of_In, list_elem_of_fmap in He as (r & -> & Hr).
    unfold is_data_of in Hd. apply andb_true_iff in Hd as [_ Hd%bool_decide_eq_true]. cbn in Hd.
    destruct (Hslots g (written_of r)) as [E _]; [|now rewrite <- E; cbn; rewrite Hd].
    rewrite <- (written_of_laid_out (recs g) segHeaderSize). apply list_elem_of_fmap. eauto. }
  assert (forall l, List.find (is_data_of id) l = None -> intervals id l = []) as Hno.
  { intros l Hl. unfold intervals. induction l as [|e l IH]; [done|]. cbn in Hl |- *. destruct (is_data_of id e); [done|auto]. }
  unfold intervals in *. induction ids as [|g ids IH]; [now destruct (_ =? _)%nat|]. unfold log, log_in in *. cbn [mbind list_bind].
  rewrite !List.filter_app, !fmap_app, IH. specialize (Hs g). specialize (Hno (entries g (recs g))).
  destruct (List.find (is_data_of id) (entries g (recs g))) as [e|].
  - rewrite (Hs ltac:(eauto)). now destruct (_ =? _)%nat.
  - rewrite Hno by done. destruct (slot g =? i)%nat; [rewrite Hno by done|cbn]; now destruct (_ =? _)%nat.
Qed.

Lemma shard_ivs ids i b id : rebuilt_from ids i b ->
  ivs_in (honour_index (marks_of (log ids)) (rb_index b)) id = if (shard_slot cfg id =? i)%nat then rebuilt_ivs (log ids) id else [].
Proof.
  intros (-> & _ & _). rewrite honour_index_ivs, replay_ivs, intervals_in. unfold rebuilt_ivs. destruct (_ =? _)%nat; [done|]. apply honour_nil.
Qed.

End disk.

(** ** Every shard gets an active segment *)

(** What a shard is made of: the index, and every segment of the rebuilt one. *)
Definition staffed (b : Rebuilt) (sh : shard) : Prop :=
  sh_index sh = rb_index b /\
  forall g, (exists m, rb_active b = Some m /\ sg_id m = g) \/ is_Some (rb_sealed b !! g) -> owns sh g.

Lemma recount_id sh m : sg_id (recount sh m) = sg_id m.
Proof. unfold recount. cbv zeta. now destruct (_ <? _). Qed.

Lemma staffed_join b act : (forall m, rb_active b = Some m -> act = m) -> staffed b (shard_of b act).
Proof.
  intros Ha. split; [done|]. intros g Hg. unfold owns, segment. cbn. rewrite recount_id.
  destruct (Z.eqb_spec (sg_id act) g); [eauto|]. rewrite lookup_fmap, fmap_is_Some.
  destruct Hg as [(m & Hm & <-)|?]; [|done]. now destruct (Ha m Hm).
Qed.

(** Segments below the next id are as they were. *)
Definition older_disk (s s' : Store) : Prop :=
  st_nextSeg s <= st_nextSeg s' /\ st_version s' = st_version s /\
  (forall g, is_Some (st_disk s' !! g) -> g < st_nextSeg s') /\ (forall g, g < st_nextSeg s -> st_disk s' !! g = st_disk s !! g).

Lemma choose_active_spec now b pool s :
  (forall g, is_Some (st_disk s !! g) -> g < st_nextSeg s) -> 0 <= st_nextSeg s -> st_nextSeg s + 1 < 2 ^ 64 ->
  exists act pool' s', choose_active now b pool s = (inr (act, pool'), s') /\
    (forall m, rb_active b = Some m -> act = m) /\ (forall m, m ∈ pool' -> m ∈ pool) /\
    st_shards s' = st_shards s /\ st_nextSeg s' <= st_nextSeg s + 1 /\ older_disk s s'.
Proof.
  intros Hd H0 Hn. unfold choose_active, older_disk. destruct (rb_active b) as [act|]; [|destruct pool as [|m pool]].
  - exists act, pool, s. split_and!; try done; try lia. now intros m [= <-].
  - unfold createSegment. destruct (st_disk (set_next (u64 (st_nextSeg s + 1)) (st_version s) s) !! st_nextSeg s) as [f|] eqn:E.
    { exfalso. cbn in E. specialize (Hd (st_nextSeg s) ltac:(eauto)). lia. }
    eexists _, [], _. split; [reflexivity|]. cbn. rewrite u64_small by (unfold in_u64; lia). split_and!; try done; try lia.
    + intros g. rewrite lookup_insert_is_Some'. intros [<-|Hg]; [lia|]. specialize (Hd g Hg). lia.
    + intros g Hg. now rewrite lookup_insert_ne by lia.
  - exists m, pool, s. split_and!; try done; try lia. intros m' Hm'. now right.
Qed.

Lemma staff_rebuilt now rebuilt : forall pool s,
  (forall g, is_Some (st_disk s !! g) -> g < st_nextSeg s) -> 0 <= st_nextSeg s -> st_nextSeg s + Z.of_nat (length rebuilt) < 2 ^ 64 ->
  exists spare s' shs, staff now rebuilt pool s = (inr spare, s') /\ st_shards s' = st_shards s ++ shs /\ Forall2 staffed rebuilt shs /\
    (forall m, m ∈ spare -> m ∈ pool) /\ older_disk s s'.
Proof.
  induction rebuilt as [|b rebuilt IH]; intros pool s Hd H0 Hn; cbn [staff].
  { exists pool, s, []. rewrite app_nil_r. split_and!; done. }
  cbn [length] in Hn. destruct (choose_active_spec now b pool s Hd H0 ltac:(lia)) as (act & pool' & s1 & -> & Ha & Hp & Es & En & (D1 & D2 & D3 & D4)).
  destruct (IH pool' (set_shards (st_shards s1 ++ [shard_of b act]) s1)) as (spare & s' & shs & E & E1 & E2 & E3 & (F1 & F2 & F3 & F4));
    [done|cbn; lia..|]. cbn in F1, F2, F4.
  exists spare, s', (shard_of b act :: shs). split_and!; [done| | |auto|].
  - rewrite E1. cbn. now rewrite Es, <- app_assoc.
  - constructor; [|done]. now apply staffed_join.
  - split_and!; [lia|congruence|done|]. intros g Hg. rewrite F4 by lia. auto.
Qed.

(** ** The recovered store *)

Lemma sweep_keeps age ids g : forall d, g ∉ ids -> sweepOrphans age ids d !! g = d !! g.
Proof.
  unfold sweepOrphans. induction ids as [|i ids IH]; intros d Hg; cbn [fold_left]; [done|].
  apply not_elem_of_cons in Hg as [Hne Hg]. rewrite IH by done. destruct (_ <? _); [done|]. now rewrite lookup_delete_ne.
Qed.

Lemma max_id_ge d g : is_Some (d !! g) -> g <= max_id d.
Proof.
  intros [f Hf]. unfold max_id. assert (g ∈ (map_to_list d).*1) as Hg by (apply list_elem_of_fmap; exists (g, f); split; [done|now apply elem_of_map_to_list]).
  induction ((map_to_list d).*1) as [|h l IH]; [now apply elem_of_nil in Hg|]. cbn. apply elem_of_cons in Hg as [->|Hg]; [lia|]. specialize (IH Hg). lia.
Qed.

Lemma max_id_nonneg d : 0 <= max_id d.
Proof. unfold max_id. induction ((map_to_list d).*1) as [|h l IH]; cbn; lia. Qed.

Section recovered.
Context (cfg : Config) (d : gmap Z File) (W : gmap Z (list written)).
Hypothesis Hfiles : forall g f, d !! g = Some f -> in_u64 g /\ exists ws, W !! g = Some ws /\ readable (SegmentSize cfg) g (fl_bytes f) ws.
Hypothesis Hslots : forall g w, w ∈ recs W g -> shard_slot cfg (file_of w) = slot cfg W g /\ (slot cfg W g < ShardCount cfg)%nat.

(** Everything the directory holds. *)
Definition all_log : list (Z * record) := log W (segment_ids d).
Definition all_records : list written := writtens all_log.

Hypothesis Hsane : forall w, w ∈ all_records -> sane w.
Hypothesis Hnodup : NoDup (versions all_log).

Section shard.
Context (i : nat) (dk : gmap Z File) (v : Z) (sh : shard).
Hypothesis Hix : forall id, ivs_in (sh_index sh) id = if (shard_slot cfg id =? i)%nat then rebuilt_ivs all_log id else [].
Hypothesis Hown : forall g, is_Some (d !! g) -> recs W g <> [] -> slot cfg W g = i -> owns sh g.
Hypothesis Hdk : forall g, is_Some (d !! g) -> recs W g <> [] -> exists f, dk !! g = Some f /\ layout (SegmentSize cfg) (fl_bytes f) (recs W g).
Hypothesis Hv : forall w, w ∈ all_records -> version_of w <= v.

Lemma entry_held g r id x : (g, r) ∈ all_log -> covers id x (written_of r) ->
  let c := cell_of (interval_of g r) x in
  exists f, dk !! g = Some f /\ held (SegmentSize cfg) (fl_bytes f) id c /\
    byte_of dk c = byte_at (Z.to_nat (x - offset_of (written_of r))) (rec_payload r).
Proof.
  intros Hin Hc. assert (sane (written_of r)) as (_ & Ho & _ & _) by (apply Hsane, elem_of_writtens; eauto).
  pose proof (log_file _ _ _ _ Hin) as Hw. apply elem_of_log in Hin as [Hg%segment_ids_spec Hr].
  destruct (Hdk g Hg) as (f & Hf & Hl); [now intros E; rewrite E in Hw; apply elem_of_nil in Hw|].
  apply laid_out_in in Hr as (w & ws1 & ws2 & E & ->). rewrite E in Hl. destruct w as [[h fid] p]. cbn in Hc, Ho |- *.
  destruct Hc as (_ & <- & Hx). unfold offset_of, header_of, file_of in *. cbn in *.
  assert (i64 (rh_FileOffset h) = rh_FileOffset h) as Ei by (apply i64_small; unfold in_i64; lia).
  assert (held (SegmentSize cfg) (fl_bytes f) fid (cell_of (interval_of g (mkRecord h fid p (segHeaderSize + total_size ws1))) x)) as Hh.
  { exists h, p. cbn. rewrite Ei. split; [|lia]. now exists ws1, ws2. }
  exists f. split_and!; [done|exact Hh|]. unfold byte_of. cbn [cell_of c_seg interval_of iv_loc sl_SegmentID]. rewrite Hf.
  apply held_byte in Hh as (h' & p' & Hrec & _ & ->). cbn [cell_of c_recOff interval_of iv_recOff rec_segOff] in *.
  assert (rec_at (SegmentSize cfg) (fl_bytes f) (segHeaderSize + total_size ws1) (h, fid, p)) as Hrec' by now exists ws1, ws2.
  pose proof (rec_at_inj _ _ _ _ _ Hrec Hrec') as [= -> ->]. f_equal. f_equal. cbn. rewrite Ei. lia.
Qed.

Lemma file_cell id x c : has_file (sh_index sh) id x c ->
  shard_slot cfg id = i /\ exists g r, (g, r) ∈ all_log /\ covers id x (written_of r) /\ c = cell_of (interval_of g r) x.
Proof.
  intros (fi & Hfi & Hc). pose proof (Hix id) as E. unfold ivs_in in E. rewrite Hfi in E. rewrite E in Hc.
  destruct (Nat.eqb_spec (shard_slot cfg id) i); [|now apply has_cell_nil in Hc]. split; [done|].
  destruct (rebuilt_resolve all_log id Hsane Hnodup) as [Hw Hr]. specialize (Hr x). apply resolve_has_cell in Hc; [|done]. rewrite Hc in Hr.
  destruct Hr as (g & r & ? & ? & _ & _ & ?). eauto.
Qed.

Lemma shard_rebuilt : index_inv (SegmentSize cfg) dk v sh (sh_index sh) /\
  forall id x, shard_slot cfg id = i -> Shows all_records id x (shard_content dk sh id x).
Proof.
  split; [split_and!|].
  - intros id fi Hfi. pose proof (Hix id) as E. unfold ivs_in in E. rewrite Hfi in E. rewrite E.
    destruct (_ =? _)%nat; [apply rebuilt_resolve; done|split; constructor].
  - intros id x c (Hs & g & r & Hin & Hc & ->)%file_cell. assert (written_of r ∈ all_records) as Hall by (apply elem_of_writtens; eauto).
    pose proof (Hv _ Hall) as Hle. destruct (Hsane _ Hall) as (Hpos & _). split; [change (c_version _) with (version_of (written_of r)); lia|].
    intros _. destruct (entry_held g r id x Hin Hc) as (f & Hf & Hh & _). split; [|eauto]. pose proof (log_file _ _ _ _ Hin) as Hw.
    apply elem_of_log in Hin as [Hg%segment_ids_spec _].
    change (c_seg (cell_of (interval_of g r) x)) with g. apply Hown; [done|now intros E; rewrite E in Hw; apply elem_of_nil in Hw|].
    destruct (Hslots _ _ Hw) as [<- _]. now destruct Hc as (_ & -> & _).
  - intros id x c id' x' c' (_ & g & r & Hin & Hc & ->)%file_cell (_ & g' & r' & Hin' & Hc' & ->)%file_cell E.
    assert (written_of r = written_of r') as Er.
    { apply (NoDup_distinct all_records Hnodup); [apply elem_of_writtens; eauto..|done]. }
    destruct Hc as (_ & <- & _), Hc' as (_ & <- & _). now rewrite Er.
  - intros id x Hs. unfold shard_content. change (ivs_of sh id) with (ivs_in (sh_index sh) id). rewrite Hix, Hs, Nat.eqb_refl.
    destruct (rebuilt_resolve all_log id Hsane Hnodup) as [Hw Hr]. specialize (Hr x). destruct (resolve (rebuilt_ivs all_log id) x) as [c|]; cbn.
    + destruct Hr as (g & r & Hin & Hc & Hmax & Hn & ->). left. exists (written_of r). split_and!; try done; [apply elem_of_writtens; eauto|].
      destruct (entry_held g r id x Hin Hc) as (f & _ & _ & Hb). cbn [cell_of c_cold interval_of iv_cold]. f_equal. exact Hb.
    + right. auto.
Qed.

End shard.

(** A store that opens and serves what the records say. *)
Definition serves_records (l : list written) (s : Store) : Prop :=
  st_cfg s = cfg /\ st_closed s = false /\ length (st_shards s) = ShardCount cfg /\
  (forall i sh, st_shards s !! i = Some sh -> index_inv (SegmentSize cfg) (st_disk s) (st_version s) sh (sh_index sh)) /\
  forall id x, Shows l id x (content s id x).

Hypothesis Hcount : forall id, (shard_slot cfg id < ShardCount cfg)%nat.
Hypothesis Hroom : max_id d + 1 + Z.of_nat (ShardCount cfg) < 2 ^ 64.

Lemma recover_serves now age : exists s, recover cfg now age d = inr s /\ serves_records all_records s.
Proof.
  destruct (recover_all_spec cfg now d W Hfiles Hslots) as (rc & E & [H1 H2 H3 H4 H5 [H6 H6'] _ H8 H9]).
  unfold recover. rewrite E. pose proof (max_id_nonneg d) as Hm. rewrite u64_small by (unfold in_u64; lia).
  set (rebuilt := map _ (rc_shards rc)). set (s0 := mkStore _ _ _ _ _ _ _ _ _ _ _).
  destruct (staff_rebuilt now rebuilt (rc_pool rc) s0) as (spare & s1 & shs & -> & E1 & E2 & E3 & (_ & Ev & _ & E4)).
  { intros g Hg%H9%max_id_ge. cbn. lia. } { cbn. lia. } { unfold rebuilt. rewrite length_map, H1. cbn. lia. }
  rewrite H4. cbn [app]. eexists. split; [reflexivity|].
  assert (length shs = ShardCount cfg) as Hl by (rewrite <- (Forall2_length _ _ _ E2); unfold rebuilt; now rewrite length_map).
  assert (forall i sh, shs !! i = Some sh -> index_inv (SegmentSize cfg) (sweepOrphans age (map sg_id spare) (st_disk s1)) (st_version s1) sh (sh_index sh) /\
    forall id x, shard_slot cfg id = i -> Shows all_records id x (shard_content (sweepOrphans age (map sg_id spare) (st_disk s1)) sh id x)) as Hsh.
  { intros i sh Hi. destruct (Forall2_lookup_r _ _ _ _ _ E2 Hi) as (b' & Hb' & Es & Eo). unfold rebuilt in Hb'.
    rewrite list_lookup_fmap in Hb'. destruct (rc_shards rc !! i) as [b|] eqn:Eb; [|done]. injection Hb' as <-. cbn in Es, Eo.
    pose proof (H2 _ _ Eb) as Hrb. apply (shard_rebuilt i).
    - intros id. rewrite Es, H5. eapply shard_ivs; eauto.
    - intros g Hg Hne Hs. apply Eo, Hrb; [now apply segment_ids_spec|done..].
    - intros g Hg Hne. rewrite sweep_keeps, E4 by (try (apply max_id_ge in Hg; cbn; lia);
        intros (m & -> & Hm')%list_elem_of_fmap; now destruct (H3 m (E3 m Hm'))). apply H8; [now apply segment_ids_spec|done].
    - rewrite Ev. exact H6'. }
  split_and!; cbn [st_cfg st_closed st_shards st_disk st_version set_disk]; [done|done| | |].
  - now rewrite E1.
  - intros i sh Hi. rewrite E1 in Hi. now apply (Hsh i).
  - intros id x. unfold content, shardFor, shard_at. cbn [st_shards st_disk set_disk]. rewrite E1. cbn [st_shards s0 app].
    change (shardIndex _ id) with (shard_slot cfg id). destruct (lookup_lt_is_Some_2 shs (shard_slot cfg id)) as [sh Hi]; [rewrite Hl; auto|].
    rewrite Hi. now apply (Hsh _ _ Hi).
Qed.

End recovered.
