(* ===== verification/JournalDurable.v ===== *)
(** * The journal store: what is durable

    The records of a store that is written, truncated and committed: which segment and
    shard each is in, in which order, and how many of them an fsync has made durable.
    What the index serves is what the records say. *)

From stdpp Require Import sorting.
From S2P Require Import Prelude.
From S2P Require Import HoleMap.
From S2P Require Import JournalIndex.
From S2P Require Import JournalRecord.
From S2P Require Import JournalStore.
From S2P Require Import JournalReclaim.
From S2P Require Import JournalRecover.
From S2P Require Import JournalInv.
From S2P Require Import JournalOps.
From S2P Require Import JournalEvict.
From S2P Require Import JournalSpec.
From S2P Require Import JournalReplay.

(** ** One more record *)

Lemma cut_data l l' w id x w0 : (forall u, u ∈ l' <-> u ∈ l \/ u = w) -> is_data w = true -> cut l' id x w0 <-> cut l id x w0.
Proof.
  intros Hl Hd. unfold is_data in Hd. apply andb_true_iff in Hd as [Ht Hu]. apply negb_true_iff in Ht, Hu.
  assert (is_trunc w = false) as Htr by (unfold is_trunc; now rewrite Ht, Hu).
  assert (forall t, last_trunc l' id t <-> last_trunc l id t) as Hlast.
  { intros t. unfold last_trunc. setoid_rewrite Hl. split.
    - intros ([?| ->] & ? & ? & Hm); [split_and!; auto|congruence].
    - intros (? & ? & ? & Hm). split_and!; auto. intros t' [?| ->] ? ?; [auto|congruence]. }
  unfold cut, taken. setoid_rewrite Hlast. setoid_rewrite Hl. split; intros [(t & Hin & ? & ? & ?)|?]; auto; left.
  - destruct Hin as [?| ->]; [eauto|congruence].
  - eauto 10.
Qed.

Lemma Shows_write l l' w id x b : (forall u, u ∈ l' <-> u ∈ l \/ u = w) -> is_data w = true ->
  (forall u, u ∈ l -> version_of u < version_of w) -> Shows l id x b ->
  Shows l' id x (if bool_decide (id = file_of w) && in_range (offset_of w) (Z.of_nat (length w.2)) x
                 then Known (byte_at (Z.to_nat (x - offset_of w)) w.2) else b).
Proof.
  intros Hl Hd Hv Hs. assert (bool_decide (id = file_of w) && in_range (offset_of w) (Z.of_nat (length w.2)) x = true <-> covers id x w) as Hc.
  { unfold covers, in_range. rewrite !andb_true_iff, bool_decide_eq_true, Z.leb_le, Z.ltb_lt. intuition congruence. }
  destruct (_ && _).
  - assert (covers id x w) as Hcov by now apply Hc. left. exists w. split_and!; [apply Hl; auto|done| |rewrite cut_data by eauto|done].
    + intros w' [Hw'| ->]%Hl _; [|lia]. specialize (Hv _ Hw'). lia.
    + intros [(t & Ht & _ & _ & ?)|(t & (Ht & _) & ? & _)]; specialize (Hv _ Ht); lia.
  - assert (~ covers id x w) as Hn by (intros ?%Hc; done). destruct Hs as [(w0 & Hw0 & Hc0 & Hmax & Hnc & ->)|[Hall ->]].
    + left. exists w0. split_and!; [apply Hl; auto|done| |by rewrite cut_data by eauto|done]. intros w' [Hw'| ->]%Hl Hc'; [auto|done].
    + right. split; [|done]. intros w' [Hw'| ->]%Hl Hc'; [|done]. rewrite cut_data by eauto. auto.
Qed.

Lemma Shows_trunc l l' w id x b : (forall u, u ∈ l' <-> u ∈ l \/ u = w) -> is_trunc w = true ->
  (forall u, u ∈ l -> version_of u < version_of w) ->
  (forall t, t ∈ l -> is_trunc t = true -> file_of t = file_of w -> offset_of w <= offset_of t) -> Shows l id x b ->
  Shows l' id x (if bool_decide (id = file_of w) && (offset_of w <=? x) then Hole else b).
Proof.
  intros Hl Ht Hv Ho Hs. assert (is_tomb w = false /\ is_data w = false) as [Hnt Hnd].
  { unfold is_trunc in Ht. apply andb_true_iff in Ht as [Ht1 Ht2]. apply negb_true_iff in Ht1. unfold is_data. now rewrite Ht1, Ht2. }
  destruct (bool_decide_reflect (id = file_of w)) as [->|Hne]; cbn [andb].
  2: { apply (Shows_ext l); [|done]. intros u <-. rewrite Hl. split; [auto|]. intros [?| ->]; done. }
  assert (last_trunc l' (file_of w) w) as Hlast.
  { split_and!; [apply Hl; auto|done..|]. intros t' [Hin| ->]%Hl _ _; [|lia]. specialize (Hv _ Hin). lia. }
  assert (forall w0, w0 ∈ l' -> covers (file_of w) x w0 -> w0 ∈ l) as Hold by (intros w0 [?| ->]%Hl (? & _); [done|congruence]).
  destruct (Z.leb_spec (offset_of w) x) as [Hx|Hx].
  - right. split; [|done]. intros w0 Hw0 Hc0. right. exists w. specialize (Hv w0 (Hold _ Hw0 Hc0)). split_and!; [done|lia|done].
  - assert (forall w0, cut l' (file_of w) x w0 <-> cut l (file_of w) x w0) as Hcut.
    { intros w0. unfold cut, taken. split; intros [(t & Hin & ? & ? & ?)|(t & Htl & ? & ?)].
      - apply Hl in Hin as [?| ->]; [left; eauto|congruence].
      - exfalso. destruct Htl as (Hin & Htt & Hf & Hm). destruct (proj1 (Hl t) Hin) as [Hin'| ->]; [specialize (Ho t Hin' Htt Hf)|]; lia.
      - left. exists t. split_and!; try done. apply Hl. auto.
      - exfalso. destruct Htl as (Hin & Htt & Hf & _). specialize (Ho t Hin Htt Hf). lia. }
    destruct Hs as [(w0 & Hw0 & Hc0 & Hmax & Hnc & ->)|[Hall ->]].
    + left. exists w0. split_and!; [apply Hl; auto|done| |by rewrite Hcut|done]. intros w' Hw' Hc'. auto.
    + right. split; [|done]. intros w' Hw' Hc'. apply Hcut. auto.
Qed.

(** ** The log of a store *)

(** Every segment, with the shard it belongs to. *)
Notation Ghost := (gmap Z (nat * list written)).

Definition records (W : Ghost) : list written := (map_to_list W) ≫= fun p => p.2.2.

Lemma elem_of_records W w : w ∈ records W <-> exists g i ws, W !! g = Some (i, ws) /\ w ∈ ws.
Proof.
  unfold records. rewrite list_elem_of_bind. split.
  - intros ([g [i ws]] & H & Hp). apply elem_of_map_to_list in Hp. cbn in H. eauto 10.
  - intros (g & i & ws & H & Hw). exists (g, (i, ws)). split; [done|]. now apply elem_of_map_to_list.
Qed.

Definition earlier (w w' : written) : Prop := version_of w < version_of w'.

(** [act i] is the active segment of shard [i]; all others are sealed and durable. *)
Record Log (cfg : Config) (act : nat -> Z) (d : gmap Z File) (v : Z) (W : Ghost) : Prop := {
  lg_dom : forall g, is_Some (W !! g) <-> is_Some (d !! g);
  lg_file : forall g i ws f, W !! g = Some (i, ws) -> d !! g = Some f ->
    (exists c, fl_bytes f = encodeSegHeader g c (if g =? act i then 0 else segFlagSealed) ++ concat (map enc ws)) /\
    (64 <= fl_durable f <= length (fl_bytes f))%nat /\ (g <> act i -> ws <> [] /\ fl_durable f = length (fl_bytes f));
  lg_recs : forall g i ws, W !! g = Some (i, ws) -> (i < ShardCount cfg)%nat /\ in_u64 g /\ Forall (good (SegmentSize cfg)) ws /\
    64 + total_size ws <= SegmentSize cfg /\ StronglySorted earlier ws /\
    forall w, w ∈ ws -> sane w /\ version_of w <= v /\ shard_slot cfg (file_of w) = i;
  lg_active : forall i, (i < ShardCount cfg)%nat -> exists ws, W !! act i = Some (i, ws);
  lg_apart : forall g i ws g' i' ws' w w', W !! g = Some (i, ws) -> W !! g' = Some (i', ws') -> w ∈ ws -> w' ∈ ws' ->
    version_of w = version_of w' -> g = g';
  lg_order : forall g i ws ws' w w', W !! g = Some (i, ws) -> W !! act i = Some (i, ws') -> g <> act i -> w ∈ ws -> w' ∈ ws' -> earlier w w';
}.

(** A record an fsync has covered. *)
Definition durable (d : gmap Z File) (W : Ghost) (w : written) : Prop :=
  exists g i ws1 ws2 f, W !! g = Some (i, ws1 ++ w :: ws2) /\ d !! g = Some f /\ 64 + total_size (ws1 ++ [w]) <= Z.of_nat (fl_durable f).

Definition grows (d : gmap Z File) (W : Ghost) (d' : gmap Z File) (W' : Ghost) : Prop := forall w, durable d W w -> durable d' W' w.

Lemma Log_act cfg act act' d v W : (forall i, (i < ShardCount cfg)%nat -> act' i = act i) -> Log cfg act d v W -> Log cfg act' d v W.
Proof.
  intros E [L1 L2 L3 L4 L5 L6]. split; try done.
  - intros g i ws f Hg Hf. destruct (L3 _ _ _ Hg) as (Hi & _). rewrite E by done. eauto.
  - intros i Hi. rewrite E by done. auto.
  - intros g i ws ws' w w' Hg. destruct (L3 _ _ _ Hg) as (Hi & _). rewrite E by done. eauto.
Qed.

Section transitions.
Context (cfg : Config) (act : nat -> Z) (d d' : gmap Z File) (v : Z) (W : Ghost) (i : nat) (ws : list written) (f : File).
Hypothesis L : Log cfg act d v W.
Hypothesis Hi : W !! act i = Some (i, ws).
Hypothesis Hf : d !! act i = Some f.

(** The record [w] is appended to the active segment. *)
Section put.
Context (w : written).
Hypothesis Hw : good (SegmentSize cfg) w /\ sane w /\ shard_slot cfg (file_of w) = i.
Hypothesis Hv : v < version_of w.
Hypothesis Hfit : 64 + total_size ws + size_of w <= SegmentSize cfg.
Hypothesis Hf' : d' !! act i = Some (mkFile (fl_bytes f ++ enc w) (fl_durable f)).
Hypothesis Hrest : forall g, g <> act i -> d' !! g = d !! g.

Let W' : Ghost := <[act i := (i, ws ++ [w])]> W.

Lemma put_lookup g j us : W' !! g = Some (j, us) ->
  (g = act i /\ j = i /\ us = ws ++ [w]) \/ (g <> act i /\ W !! g = Some (j, us)).
Proof. unfold W'. rewrite lookup_insert_Some. intros [[<- [= <- <-]]|[? ?]]; auto. Qed.

Lemma put_elem g j us u : W' !! g = Some (j, us) -> u ∈ us -> u = w /\ g = act i \/ exists us', W !! g = Some (j, us') /\ u ∈ us'.
Proof.
  intros [(-> & -> & ->)|[? ?]]%put_lookup Hu; [|eauto]. apply elem_of_app in Hu as [?|?%list_elem_of_singleton]; eauto.
Qed.

Lemma put_records u : u ∈ records W' <-> u ∈ records W \/ u = w.
Proof.
  rewrite !elem_of_records. split.
  - intros (g & j & us & Hg & Hu). destruct (put_elem _ _ _ _ Hg Hu) as [[-> _]|(us' & ? & ?)]; eauto 10.
  - intros [(g & j & us & Hg & Hu)| ->].
    + destruct (decide (g = act i)) as [->|Hne].
      * rewrite Hi in Hg. injection Hg as <- <-. exists (act i), i, (ws ++ [w]). split; [apply lookup_insert_eq|apply elem_of_app; auto].
      * exists g, j, us. split; [unfold W'; now rewrite lookup_insert_ne|done].
    + exists (act i), i, (ws ++ [w]). split; [apply lookup_insert_eq|]. apply elem_of_app. right. now left.
Qed.

Lemma put_grows : grows d W d' W'.
Proof.
  clear Hfit Hw Hv.
  intros u (g & j & us1 & us2 & f0 & Hg & Hf0 & Hle). destruct (decide (g = act i)) as [->|Hne].
  - rewrite Hi in Hg. injection Hg as <- ->. rewrite Hf in Hf0. injection Hf0 as <-.
    exists (act i), i, us1, (us2 ++ [w]), (mkFile (fl_bytes f ++ enc w) (fl_durable f)). split_and!; [|done|done].
    unfold W'. rewrite lookup_insert_eq. now rewrite <- app_assoc.
  - exists g, j, us1, us2, f0. split_and!; [unfold W'; now rewrite lookup_insert_ne|now rewrite Hrest|done].
Qed.

Lemma older_records u : u ∈ records W -> version_of u <= v.
Proof. intros (g & j & us & Hg & Hu)%elem_of_records. now apply (lg_recs _ _ _ _ _ L _ _ _ Hg). Qed.

Lemma Log_put : Log cfg act d' (version_of w) W'.
Proof.
  destruct L as [L1 L2 L3 L4 L5 L6]. destruct Hw as (Hgood & Hsane & Hslot). destruct (L3 _ _ _ Hi) as (B1 & B2 & B3 & B4 & B5 & B6).
  assert (forall g j us u, W !! g = Some (j, us) -> u ∈ us -> version_of u < version_of w) as Hold.
  { intros g j us u Hg Hu. assert (version_of u <= v); [|lia]. now apply (L3 _ _ _ Hg). }
  split.
  - intros g. unfold W'. destruct (decide (g = act i)) as [->|Hne].
    + rewrite lookup_insert_eq, Hf'. split; eauto.
    + rewrite lookup_insert_ne, Hrest by done. apply L1.
  - intros g j us f0 [(-> & -> & ->)|[Hne Hg]]%put_lookup Hf0.
    + rewrite Hf' in Hf0. injection Hf0 as <-. cbn. destruct (L2 _ _ _ _ Hi Hf) as ([c Hb] & Hd & _). split_and!; [|lia|rewrite length_app; lia|done].
      exists c. rewrite Hb, map_app, concat_app. cbn [map concat]. now rewrite app_nil_r, <- app_assoc.
    + rewrite Hrest in Hf0 by done. eauto.
  - intros g j us [(-> & -> & ->)|[Hne Hg]]%put_lookup.
    + split_and!; [done|apply B2|apply Forall_app; auto|rewrite total_size_app; unfold total_size at 2; cbn; lia| |].
      * apply StronglySorted_app. split_and!; [|done|repeat constructor]. intros u u' Hu Hu'%list_elem_of_singleton. subst u'. unfold earlier. eauto.
      * intros u [Hu|Hu%list_elem_of_singleton]%elem_of_app; [|subst u; split_and!; try done; lia].
        destruct (B6 u Hu) as (? & ? & ?). split_and!; try done. lia.
    + destruct (L3 _ _ _ Hg) as (C1 & C2 & C3 & C4 & C5 & C6). split_and!; try done; try apply C2. intros u Hu. destruct (C6 u Hu) as (? & ? & ?). split_and!; try done. lia.
  - intros j Hj. unfold W'. destruct (L4 j Hj) as [us Hus]. destruct (decide (act j = act i)) as [E|Hne].
    + rewrite E, lookup_insert_eq. rewrite E, Hi in Hus. injection Hus as -> _. eauto.
    + rewrite lookup_insert_ne by done. eauto.
  - intros g j us g' j' us' u u' Hg Hg' Hu Hu' E. destruct (put_elem _ _ _ _ Hg Hu) as [[-> ->]|(us0 & H0 & H0')], (put_elem _ _ _ _ Hg' Hu') as [[-> ->]|(us1 & H1 & H1')];
      [done| | |eapply L5; eauto].
    + specialize (Hold _ _ _ _ H1 H1'). lia.
    + specialize (Hold _ _ _ _ H0 H0'). lia.
  - intros g j us us' u u' Hg Hg' Hne Hu Hu'. destruct (put_elem _ _ _ _ Hg Hu) as [[-> ->]|(us0 & H0 & H0')].
    + exfalso. apply put_lookup in Hg as [(_ & -> & _)|[? _]]; done.
    + destruct (put_elem _ _ _ _ Hg' Hu') as [[-> _]|(us1 & H1 & H1')]; [unfold earlier; eauto|]. eapply L6; [exact H0|exact H1|done..].
Qed.

End put.

(** The active segment is sealed and [g'] takes its place. *)
Section seal.
Context (g' c c' : Z).
Hypothesis Hne : ws <> [].
Hypothesis Hfresh : d !! g' = None.
Hypothesis Hg' : in_u64 g'.
Hypothesis Hsealed : exists f', d' !! act i = Some f' /\ fl_bytes f' = encodeSegHeader (act i) c segFlagSealed ++ concat (map enc ws) /\
  fl_durable f' = length (fl_bytes f').
Hypothesis Hnew : d' !! g' = Some (mkFile (encodeSegHeader g' c' 0) 64).
Hypothesis Hrest : forall g, g <> act i -> g <> g' -> d' !! g = d !! g.

Let W' : Ghost := <[g' := (i, [])]> W.
Let act' (j : nat) : Z := if decide (j = i) then g' else act j.

Lemma seal_fresh : W !! g' = None.
Proof. destruct (W !! g') eqn:E; [|done]. destruct (proj1 (lg_dom _ _ _ _ _ L g')) as [f0 Hf0]; eauto. congruence. Qed.

Lemma seal_lookup g j us : W' !! g = Some (j, us) -> (g = g' /\ j = i /\ us = []) \/ (g <> g' /\ W !! g = Some (j, us)).
Proof. unfold W'. rewrite lookup_insert_Some. intros [[<- [= <- <-]]|[? ?]]; auto. Qed.

Lemma seal_records u : u ∈ records W' <-> u ∈ records W.
Proof.
  rewrite !elem_of_records. split; intros (g & j & us & Hg & Hu).
  - apply seal_lookup in Hg as [(_ & _ & ->)|[_ ?]]; [now apply elem_of_nil in Hu|eauto].
  - exists g, j, us. split; [|done]. unfold W'. rewrite lookup_insert_ne; [done|]. intros <-. now rewrite seal_fresh in Hg.
Qed.

Lemma seal_grows : grows d W d' W'.
Proof.
  intros u (g & j & us1 & us2 & f0 & Hg & Hf0 & Hle). assert (g <> g') as Hgg by (intros ->; congruence).
  assert (W' !! g = Some (j, us1 ++ u :: us2)) as HW by (unfold W'; now rewrite lookup_insert_ne). destruct (decide (g = act i)) as [->|Hga].
  - rewrite Hi in Hg. injection Hg as <- E. destruct Hsealed as (f' & Hf' & Hb & Hd). exists (act i), i, us1, us2, f'. split_and!; [done..|].
    rewrite Hd, Hb, length_app, Nat2Z.inj_add, concat_enc_length, segHeader_length, E, !total_size_app.
    pose proof (total_size_bound us2). unfold total_size in *. cbn. lia.
  - exists g, j, us1, us2, f0. split_and!; [done|now rewrite Hrest|done].
Qed.

Lemma Log_seal : Log cfg act' d' v W'.
Proof.
  pose proof seal_fresh as HWf. destruct L as [L1 L2 L3 L4 L5 L6]. destruct (L3 _ _ _ Hi) as (B1 & B2 & B3 & B4 & B5 & B6).
  assert (act i <> g') as Hai by (intros E; congruence).
  assert (forall j us, W !! act i = Some (j, us) -> j = i) as Hown by (intros j us E; rewrite Hi in E; congruence).
  assert (act' i = g') as Ea by (unfold act'; now rewrite decide_True).
  assert (forall g j us, W !! g = Some (j, us) -> g <> act i -> (g =? act' j) = (g =? act j)) as Heq.
  { intros g j us Hg Hga. unfold act'. destruct (decide (j = i)) as [->|]; [|done].
    destruct (Z.eqb_spec g g') as [E|], (Z.eqb_spec g (act i)); congruence. }
  split.
  - intros g. unfold W'. destruct (decide (g = g')) as [->|Hg]; [rewrite lookup_insert_eq, Hnew; split; eauto|].
    rewrite lookup_insert_ne by done. destruct (decide (g = act i)) as [->|Hga]; [|now rewrite Hrest].
    destruct Hsealed as (f' & -> & _). rewrite Hi. split; eauto.
  - intros g j us f0 [(-> & -> & ->)|[Hg HW]]%seal_lookup Hf0.
    + rewrite Hnew in Hf0. injection Hf0 as <-. cbn [fl_bytes fl_durable]. rewrite Ea, Z.eqb_refl, segHeader_length.
      split_and!; [exists c'; now rewrite app_nil_r|lia..|done].
    + destruct (decide (g = act i)) as [->|Hga].
      * pose proof (Hown _ _ HW) as ->. rewrite Hi in HW. injection HW as <-. destruct Hsealed as (f' & Hf' & Hb & Hd). rewrite Hf' in Hf0. injection Hf0 as <-.
        rewrite Ea, (proj2 (Z.eqb_neq _ _) Hai). split_and!; [eauto| |lia|auto]. rewrite Hd, Hb, length_app, segHeader_length. lia.
      * rewrite Hrest in Hf0 by done. rewrite (Heq _ _ _ HW Hga). destruct (L2 _ _ _ _ HW Hf0) as (C1 & C2 & C3). split_and!; [done|lia..|].
        intros Hn. apply C3. apply Z.eqb_neq. rewrite <- (Heq _ _ _ HW Hga). now apply Z.eqb_neq.
  - intros g j us [(-> & -> & ->)|[Hg HW]]%seal_lookup; [|eauto]. split_and!; [done|done|constructor|unfold total_size at 1; cbn; pose proof (total_size_bound ws); lia|constructor|].
    intros u Hu. now apply elem_of_nil in Hu.
  - intros j Hj. unfold act', W'. destruct (decide (j = i)) as [->|Hji]; [rewrite lookup_insert_eq; eauto|].
    destruct (L4 j Hj) as [us Hus]. exists us. rewrite lookup_insert_ne; [done|]. intros E. rewrite <- E, HWf in Hus. done.
  - intros g j us g0 j' us' u u' [(-> & -> & ->)|[Hg HW]]%seal_lookup [(-> & -> & ->)|[Hg0 HW0]]%seal_lookup Hu Hu' E;
      [done|now apply elem_of_nil in Hu|now apply elem_of_nil in Hu'|eauto].
  - intros g j us us' u u' [(-> & -> & ->)|[Hg HW]]%seal_lookup H2 Hn Hu Hu'; [now rewrite Ea in Hn|].
    apply seal_lookup in H2 as [(E & -> & ->)|[Hj HW']]; [now apply elem_of_nil in Hu'|]. destruct (decide (j = i)) as [->|Hji]; [now rewrite Ea in Hj|].
    unfold act' in *. rewrite decide_False in Hn, HW' by done. eapply L6; [exact HW|exact HW'|done..].
Qed.

End seal.
End transitions.

(** An fsync. *)
Lemma Log_sync cfg act d v W g : Log cfg act d v W ->
  Log cfg act (sync_file g d) v W /\ grows d W (sync_file g d) W /\
  forall i ws f, W !! g = Some (i, ws) -> sync_file g d !! g = Some f -> fl_durable f = length (fl_bytes f).
Proof.
  intros [L1 L2 L3 L4 L5 L6].
  assert (forall h f', sync_file g d !! h = Some f' -> exists f, d !! h = Some f /\ fl_bytes f' = fl_bytes f /\
    ((h <> g /\ fl_durable f' = fl_durable f) \/ (h = g /\ fl_durable f' = length (fl_bytes f')))) as Hs.
  { intros h f' Hf'. unfold sync_file in Hf'. destruct (decide (h = g)) as [->|Hne].
    - rewrite lookup_alter_eq in Hf'. destruct (d !! g) as [f|]; [|done]. injection Hf' as <-. exists f. cbn. auto.
    - rewrite lookup_alter_ne in Hf' by done. exists f'. auto. }
  assert (forall h, is_Some (sync_file g d !! h) <-> is_Some (d !! h)) as Hdom by (intros h; unfold sync_file; apply lookup_alter_is_Some).
  split; [split; try done|split].
  - intros h. rewrite Hdom. apply L1.
  - intros h i ws f' HW Hf'. destruct (Hs _ _ Hf') as (f & Hf & Eb & Hd). destruct (L2 _ _ _ _ HW Hf) as (C1 & C2 & C3). rewrite Eb in *.
    split_and!; [done|lia..|]. intros Hn. destruct (C3 Hn) as [? ?]. split; [done|]. lia.
  - intros w (h & i & ws1 & ws2 & f & HW & Hf & Hle). destruct (proj2 (Hdom h)) as [f' Hf']; [eauto|].
    destruct (Hs _ _ Hf') as (f0 & Hf0 & Eb & Hd). rewrite Hf in Hf0. injection Hf0 as <-. exists h, i, ws1, ws2, f'. split_and!; [done..|].
    destruct (L2 _ _ _ _ HW Hf) as (_ & C2 & _). rewrite Eb in *. lia.
  - intros i ws f' _ Hf'. destruct (Hs _ _ Hf') as (f & _ & _ & [[? _]|[_ ?]]); done.
Qed.

(** After an fsync of the active segment of a shard all its records are durable. *)
Lemma sync_covers cfg act d v W i w : Log cfg act d v W -> w ∈ records W -> shard_slot cfg (file_of w) = i ->
  durable (sync_file (act i) d) W w.
Proof.
  intros L Hw Hs. destruct (Log_sync _ _ _ _ _ (act i) L) as (L' & _ & Hd). apply elem_of_records in Hw as (g & j & ws & HW & Hin).
  destruct (lg_recs _ _ _ _ _ L' _ _ _ HW) as (_ & _ & _ & _ & _ & Hr). destruct (Hr w Hin) as (_ & _ & Hj). assert (j = i) as -> by congruence.
  destruct (proj1 (lg_dom _ _ _ _ _ L' g)) as [f Hf]; [eauto|]. destruct (lg_file _ _ _ _ _ L' _ _ _ _ HW Hf) as ([c Hb] & _ & Hseal).
  assert (fl_durable f = length (fl_bytes f)) as Hdur.
  { destruct (decide (g = act i)) as [->|Hne]; [eapply Hd; eauto|now apply Hseal]. }
  apply list_elem_of_split in Hin as (ws1 & ws2 & ->). exists g, i, ws1, ws2, f. split_and!; [done..|].
  rewrite Hdur, Hb, length_app, Nat2Z.inj_add, concat_enc_length, segHeader_length, !total_size_app. pose proof (total_size_bound ws2).
  unfold total_size in *. cbn. lia.
Qed.

(** ** Operations *)

Definition actives (s : Store) (i : nat) : Z := sg_id (sh_active (shard_at s i)).

Definition Logged (s : Store) (W : Ghost) : Prop := Log (st_cfg s) (actives s) (st_disk s) (st_version s) W.

(** From [s] and [W] to [s'] and [W'] without a new record. *)
Definition same_records (s : Store) (W : Ghost) (s' : Store) (W' : Ghost) : Prop :=
  Logged s' W' /\ (forall u, u ∈ records W' <-> u ∈ records W) /\ grows (st_disk s) W (st_disk s') W'.

(** With the record [w]. *)
Definition one_record (w : written) (s : Store) (W : Ghost) (s' : Store) (W' : Ghost) : Prop :=
  Logged s' W' /\ (forall u, u ∈ records W' <-> u ∈ records W \/ u = w) /\ grows (st_disk s) W (st_disk s') W'.

Lemma same_then_one w s W s1 W1 s2 W2 : same_records s W s1 W1 -> one_record w s1 W1 s2 W2 -> one_record w s W s2 W2.
Proof.
  intros (_ & A2 & A3) (B1 & B2 & B3). split_and!; [done| |unfold grows in *; auto]. intros u. now rewrite B2, A2.
Qed.

Lemma active_tail k s W i ws : Inv k s -> Logged s W -> (i < ShardCount (st_cfg s))%nat -> W !! actives s i = Some (i, ws) ->
  exists f, st_disk s !! actives s i = Some f /\ sg_tail (sh_active (shard_at s i)) = 64 + total_size ws /\
    Z.of_nat (length (fl_bytes f)) = 64 + total_size ws.
Proof.
  intros H L Hi HW. pose proof (shard_lookup _ _ i H Hi) as Hsh. pose proof (inv_each _ _ H _ _ Hsh) as [Hsegs _].
  destruct (active_file _ _ _ Hsegs) as (f & ws0 & Hf & Hl & Ht). exists f. split; [done|]. apply layout_length in Hl.
  destruct (lg_file _ _ _ _ _ L _ _ _ _ HW Hf) as ([c Hb] & _).
  assert (Z.of_nat (length (fl_bytes f)) = 64 + total_size ws) by (rewrite Hb, length_app, Nat2Z.inj_add, concat_enc_length, segHeader_length; lia).
  split; [lia|done].
Qed.

Lemma seal_durable m d f : d !! sg_id m = Some f -> exists f', (sealInPlace m d).2 !! sg_id m = Some f' /\
  fl_bytes f' = pwrite (fl_bytes f) 0 (encodeSegHeader (sg_id m) (sg_createdAt m) segFlagSealed) /\ fl_durable f' = length (fl_bytes f').
Proof.
  intros Hf. destruct (seal_eq _ _ _ Hf) as (f' & Hf' & Hb). exists f'. split_and!; [done..|].
  unfold sealInPlace in Hf'. cbn [snd] in Hf'. unfold sync_file at 1 in Hf'. rewrite lookup_alter_eq in Hf'.
  destruct (write_file _ _ _ _ !! _); [|done]. now injection Hf' as <-.
Qed.

Lemma seal_logged k now i s W ws : Inv (S k) s -> Logged s W -> (i < ShardCount (st_cfg s))%nat -> W !! actives s i = Some (i, ws) -> ws <> [] ->
  exists s' W', sealSegment now i s = (inr tt, s') /\ same_records s W s' W' /\ W' !! actives s' i = Some (i, []).
Proof.
  intros H L Hi HW Hne. destruct (sealSegment_spec k now i s H Hi) as (s' & E & H' & (Ec & _ & Ev & _ & _) & En & Es).
  destruct (active_tail _ _ _ _ _ H L Hi HW) as (f & Hf & _). pose proof (inv_next _ _ H) as Hn.
  assert (st_disk s !! st_nextSeg s = None) as Hfresh by (destruct (st_disk s !! st_nextSeg s) eqn:E0; [apply (inv_fresh _ _ H) in E0; lia|done]).
  assert (st_nextSeg s <> actives s i) as Hna by (intros E0; rewrite E0 in Hfresh; congruence).
  assert (st_disk s' = <[st_nextSeg s := mkFile (encodeSegHeader (st_nextSeg s) now 0) 64]> (sealInPlace (sh_active (shard_at s i)) (st_disk s)).2) as Ed.
  { assert ((sealInPlace (sh_active (shard_at s i)) (st_disk s)).2 !! st_nextSeg s = None) as En0 by (now rewrite seal_ne).
    revert E. unfold sealSegment, createSegment. destruct (sealInPlace _ (st_disk s)) as [old d1]. cbn [snd] in *. cbn [set_next set_disk st_disk st_nextSeg].
    rewrite En0. intros [= <-]. reflexivity. }
  assert (forall j, (j < ShardCount (st_cfg s))%nat -> actives s' j = if decide (j = i) then st_nextSeg s else actives s j) as Ea.
  { intros j Hj. unfold actives, shard_at. rewrite Es. destruct (decide (j = i)) as [->|Hji].
    - rewrite list_lookup_insert_eq; [done|]. pose proof (inv_shards _ _ H). lia.
    - now rewrite list_lookup_insert_ne by done. }
  destruct (lg_file _ _ _ _ _ L _ _ _ _ HW Hf) as ([c Hb] & _).
  assert (exists f', st_disk s' !! actives s i = Some f' /\ fl_bytes f' = encodeSegHeader (actives s i) (sg_createdAt (sh_active (shard_at s i))) segFlagSealed ++ concat (map enc ws) /\
    fl_durable f' = length (fl_bytes f')) as Hsealed.
  { destruct (seal_durable _ _ _ Hf) as (f' & Hf' & Hb' & Hd'). exists f'. rewrite Ed, lookup_insert_ne by done. split_and!; [done| |done].
    rewrite Hb', Hb, pwrite_front; [done|]. now rewrite !segHeader_length. }
  assert (forall g, g <> actives s i -> g <> st_nextSeg s -> st_disk s' !! g = st_disk s !! g) as Hrest.
  { intros g Hg1 Hg2. rewrite Ed, lookup_insert_ne by done. now apply seal_ne. }
  assert (st_disk s' !! st_nextSeg s = Some (mkFile (encodeSegHeader (st_nextSeg s) now 0) 64)) as Hnew by (rewrite Ed; apply lookup_insert_eq).
  exists s', (<[st_nextSeg s := (i, [])]> W). split; [done|]. split.
  - split_and!; [|eapply seal_records; eauto|eapply seal_grows; eauto].
    unfold Logged. rewrite Ec, Ev. eapply Log_act; [|eapply Log_seal; eauto; unfold in_u64; lia]. exact Ea.
  - rewrite Ea, decide_True by done. apply lookup_insert_eq.
Qed.

(** The active segment has room for the record. *)
Definition has_room (s : Store) (i : nat) (recLen : Z) : Prop := sg_tail (sh_active (shard_at s i)) + recLen <= SegmentSize (st_cfg s).

Lemma rotate_logged k now i recLen s W : Inv (S k) s -> Logged s W -> (i < ShardCount (st_cfg s))%nat -> recLen <= SegmentSize (st_cfg s) - segHeaderSize ->
  exists s' W', rotate now i recLen s = (inr tt, s') /\ Inv k s' /\ quiet s s' /\ same_records s W s' W' /\ has_room s' i recLen.
Proof.
  intros H L Hi Hr. destruct (rotate_spec k now i recLen s H Hi) as (s' & E & H' & Q).
  assert (same_records s W s W) as Hsame by (split_and!; [done|done|now intros u]).
  unfold rotate in *. destruct (Z.gtb_spec (sg_tail (sh_active (shard_at s i)) + recLen) (SegmentSize (st_cfg s))) as [Hgt|Hle].
  - destruct (lg_active _ _ _ _ _ L i Hi) as [ws HW]. destruct (active_tail _ _ _ _ _ H L Hi HW) as (f & _ & Ht & _).
    destruct (seal_logged k now i s W ws H L Hi HW) as (s1 & W1 & E1 & HS & HW1).
    { intros ->. unfold total_size in Ht. cbn in Ht. unfold segHeaderSize in Hr. lia. }
    rewrite E in E1. injection E1 as <-. exists s', W1. split_and!; [done..|]. unfold has_room. pose proof Q as (Ec & _). rewrite Ec.
    destruct (active_tail k s' W1 i [] H') as (_ & _ & Ht1 & _); [apply HS|now rewrite Ec|done|]. unfold total_size in Ht1. cbn in Ht1. unfold segHeaderSize in Hr. lia.
  - injection E as <-. exists s, W. split_and!; try done.
Qed.

(** The store serves what its records say. *)
Definition faithful (s : Store) (W : Ghost) : Prop := forall id x, Shows (records W) id x (content s id x).

Lemma put_logged k s W i s' h id p : Inv k s -> Logged s W -> (i < ShardCount (st_cfg s))%nat ->
  good (SegmentSize (st_cfg s)) (h, id, p) -> sane (h, id, p) -> shard_slot (st_cfg s) id = i -> rh_Version h = st_version s + 1 ->
  has_room s i (recordLen (Z.of_nat (length id)) (Z.of_nat (length p))) ->
  st_disk s' = (put_record (sh_active (shard_at s i)) h id p (st_disk s)).2 -> st_cfg s' = st_cfg s -> st_version s' = st_version s + 1 ->
  (forall j, actives s' j = actives s j) -> exists W', one_record (h, id, p) s W s' W'.
Proof.
  intros H L Hi Hg Hsn Hs Hv Hroom Ed Ec Ev Ea. destruct (lg_active _ _ _ _ _ L i Hi) as [ws HW].
  destruct (active_tail _ _ _ _ _ H L Hi HW) as (f & Hf & Ht & Hlen).
  assert (st_disk s' !! actives s i = Some (mkFile (fl_bytes f ++ enc (h, id, p)) (fl_durable f))) as Hf'.
  { rewrite Ed. unfold put_record. cbn [snd]. rewrite (write_file_eq _ _ _ _ _ Hf). do 2 f_equal. apply pwrite_end. lia. }
  assert (forall g, g <> actives s i -> st_disk s' !! g = st_disk s !! g) as Hrest.
  { intros g Hgn. rewrite Ed. unfold put_record. cbn [snd]. now apply write_file_ne. }
  exists (<[actives s i := (i, ws ++ [(h, id, p)])]> W). split_and!; [|eapply put_records; eauto|eapply put_grows; eauto].
  unfold Logged. rewrite Ec, Ev, <- Hv. change (rh_Version h) with (version_of (h, id, p)).
  eapply Log_act; [|eapply (Log_put (st_cfg s) (actives s) (st_disk s) _ (st_version s) W i ws f); eauto].
  - intros j _. apply Ea.
  - unfold version_of, header_of. cbn. lia.
  - unfold has_room in Hroom. rewrite Ht in Hroom. unfold size_of. lia.
Qed.

Lemma append_actives now id offset data synced s j :
  actives (append_in_shard now id offset data synced s) j = actives s j.
Proof.
  unfold actives, shard_at, append_in_shard. cbn. destruct (decide (j = shardIndex s id)) as [->|Hne]; [|now rewrite list_lookup_insert_ne].
  destruct (decide (shardIndex s id < length (st_shards s))%nat); [|now rewrite list_insert_ge by lia].
  rewrite list_lookup_insert_eq by done. cbn. fold (shard_at s (shardIndex s id)).
  match goal with |- sg_id (sh_active (charge ?l ?sh)) = _ => destruct (charge_same l sh) as [-> _] end.
  cbn. unfold noteMinVersion. now case_match.
Qed.

Lemma append_logged k now id offset data synced s W : Inv k s -> Logged s W -> faithful s W -> st_version s + 1 < 2 ^ 64 ->
  Z.of_nat (length id) <= maxFileIDLen -> 0 < Z.of_nat (length data) <= maxPayloadLen -> Z.of_nat (length data) <= SegmentSize (st_cfg s) ->
  0 <= offset -> offset + Z.of_nat (length data) < 2 ^ 63 ->
  has_room s (shardIndex s id) (recordLen (Z.of_nat (length id)) (Z.of_nat (length data))) ->
  let s' := append_in_shard now id offset data synced s in
  let w := (data_header id offset (st_version s + 1) synced data, id, data) in
  st_version s' = st_version s + 1 /\ is_data w = true /\ exists W', one_record w s W s' W' /\ faithful s' W'.
Proof.
  intros H L F Hv Hid Hlen HS Ho Hoff Hroom s' w. pose proof (inv_version _ _ H) as Hv0.
  destruct (append_in_shard_spec k s now id offset data synced H Hv Hid ltac:(lia) ltac:(lia)) as (H' & Ev & Hc). fold s' in H', Ev, Hc.
  assert (is_data w = true) as Hd by (unfold is_data, is_tomb, w; cbn; now destruct synced). split_and!; [done..|].
  assert (shardIndex s id < ShardCount (st_cfg s))%nat as Hi by (apply shardIndex_lt, (inv_shards _ _ H)).
  destruct (put_logged k s W (shardIndex s id) s' (data_header id offset (st_version s + 1) synced data) id data) as (W' & HW'); try done.
  - now apply data_good; lia.
  - split_and!; unfold version_of, offset_of, header_of; cbn; try lia.
  - unfold s', append_in_shard. rewrite (nextVersion_eq k s H Hv). reflexivity.
  - intros j. apply append_actives.
  - exists W'. split; [done|]. intros id' x. rewrite Hc. destruct HW' as (_ & Hrec & _).
    pose proof (Shows_write (records W) (records W') w id' x (content s id' x) Hrec Hd) as Hsh. apply Hsh; [|apply F].
    intros u Hu. change (version_of w) with (st_version s + 1). pose proof (older_records _ _ _ _ _ L u Hu). lia.
Qed.

(** What a step that keeps every record does: at most one new record, with the next version. *)
Definition advances (P : written -> Prop) (s : Store) (W : Ghost) (s' : Store) : Prop :=
  exists W', faithful s' W' /\
    ((same_records s W s' W' /\ st_version s' = st_version s) \/
     (exists w, one_record w s W s' W' /\ st_version s' = st_version s + 1 /\ version_of w = st_version s + 1 /\ P w)).

Lemma faithful_same s W s' W' : (forall u, u ∈ records W' <-> u ∈ records W) -> (forall id x, content s' id x = content s id x) ->
  faithful s W -> faithful s' W'.
Proof. intros Hr Hc F id x. rewrite Hc. eapply Shows_ext; [|apply F]. intros w _. symmetry. apply Hr. Qed.

Lemma advances_refl P s W : Logged s W -> faithful s W -> advances P s W s.
Proof. intros L F. exists W. split; [done|]. left. split; [|done]. split_and!; [done|done|now intros u]. Qed.

Lemma same_records_refl s W : Logged s W -> same_records s W s W.
Proof. intros L. split_and!; [done|done|now intros u]. Qed.

Lemma write_advances now id offset data synced k s W : Inv (S k) s -> Logged s W -> faithful s W ->
  (MaxLocalBytes (st_cfg s) <= 0 \/ st_diskBytes s + recordLen (Z.of_nat (length id)) (Z.of_nat (length data)) <= MaxLocalBytes (st_cfg s)) ->
  st_version s + 1 < 2 ^ 64 -> offset + Z.of_nat (length data) < 2 ^ 63 ->
  advances (fun w => is_trunc w = false) s W (appendRecord ensureSpace now id offset data synced s).2.
Proof.
  intros H L F Hmax Hv Ho. unfold appendRecord. destruct (st_closed s); [now apply advances_refl|].
  destruct (Nat.eqb_spec (length data) 0); [now apply advances_refl|]. destruct (Z.ltb_spec offset 0); [now apply advances_refl|].
  rewrite ensureSpace_fits by exact Hmax.
  destruct (Z.gtb_spec (Z.of_nat (length id)) maxFileIDLen); [now apply advances_refl|].
  destruct (Z.gtb_spec (Z.of_nat (length data)) maxPayloadLen); [now apply advances_refl|].
  destruct (Z.gtb_spec (recordLen (Z.of_nat (length id)) (Z.of_nat (length data))) (SegmentSize (st_cfg s) - segHeaderSize)); [now apply advances_refl|].
  assert (shardIndex s id < ShardCount (st_cfg s))%nat as Hi by (apply shardIndex_lt, (inv_shards _ _ H)).
  destruct (rotate_logged k now _ _ s W H L Hi ltac:(eassumption)) as (s1 & W1 & -> & HI1 & Q & S1 & Hroom).
  pose proof Q as (Ec & _ & Ev & _ & Hc). pose proof S1 as (L1 & R1 & _). cbn [snd].
  destruct (append_logged k now id offset data synced s1 W1) as (Ev' & Hd & W' & HW' & F'); try done; try lia.
  - now apply (faithful_same s W).
  - rewrite Ec. unfold recordLen, recordHeaderSize, payloadCRCSize, segHeaderSize in *. lia.
  - now rewrite (shardIndex_cfg s s1).
  - exists W'. split; [done|]. right. eexists. split_and!; [eapply same_then_one; eauto|lia|unfold version_of, header_of; cbn; lia|].
    unfold is_data in Hd. apply andb_true_iff in Hd as [_ Hd%negb_true_iff]. unfold is_trunc. now rewrite Hd, andb_false_r.
Qed.

(** A marker is durable at once. *)
Lemma marker_logged k now id mk s W : Inv (S k) s -> Logged s W -> minSegmentSize <= SegmentSize (st_cfg s) -> st_version s + 1 < 2 ^ 64 ->
  Z.of_nat (length id) <= maxFileIDLen -> good (SegmentSize (st_cfg s)) (mk (st_version s + 1), id, []) -> sane (mk (st_version s + 1), id, []) ->
  rh_Version (mk (st_version s + 1)) = st_version s + 1 ->
  exists s' W', append_marker now id (fun seg version d => put_record seg (mk version) id [] d) s = (inr (st_version s + 1), s') /\
    one_record (mk (st_version s + 1), id, []) s W s' W' /\ st_version s' = st_version s + 1 /\ st_cfg s' = st_cfg s.
Proof.
  intros H L HS Hv Hid Hg Hsn Hver. assert (shardIndex s id < ShardCount (st_cfg s))%nat as Hi by (apply shardIndex_lt, (inv_shards _ _ H)).
  unfold append_marker. destruct (Z.gtb_spec (Z.of_nat (length id)) maxFileIDLen); [lia|].
  destruct (rotate_logged k now (shardIndex s id) (recordLen (Z.of_nat (length id)) 0) s W H L Hi) as (s1 & W1 & -> & H1 & Q & S1 & Hroom).
  { unfold recordLen, recordHeaderSize, payloadCRCSize, segHeaderSize, maxFileIDLen, minSegmentSize in *. rewrite Z.shiftl_1_l in HS. lia. }
  pose proof Q as (Ec & _ & Ev & _). pose proof S1 as (L1 & _). rewrite (nextVersion_eq k s1 H1), Ev by lia.
  set (v := st_version s + 1) in *. set (i := shardIndex s id) in *. set (sh := shard_at s1 i).
  destruct (put_record (sh_active sh) (mk v) id [] (st_disk s1)) as [seg d] eqn:Ep.
  assert (sg_id seg = actives s1 i) as Eseg by now injection Ep as <- _.
  assert (sg_id (noteMinVersion v seg) = actives s1 i) as Eid by (rewrite <- Eseg; unfold noteMinVersion; now case_match).
  set (s2 := put_shard i (set_active (noteMinVersion v seg) sh) (set_disk d (set_next (st_nextSeg s1) v s1))).
  assert (forall j, actives s2 j = actives s1 j) as Ea.
  { intros j. unfold actives at 1, s2, shard_at. cbn. destruct (decide (j = i)) as [->|Hne]; [|now rewrite list_lookup_insert_ne].
    rewrite list_lookup_insert_eq; [exact Eid|]. pose proof (inv_shards _ _ H1). rewrite Ec in *. lia. }
  destruct (put_logged k s1 W1 i s2 (mk v) id []) as (W2 & L2 & R2 & G2); try done; try (rewrite ?Ec; done); try (rewrite ?Ev; done).
  { fold sh. now rewrite Ep. }
  eexists _, W2. split; [reflexivity|]. rewrite Eid. cbn. split; [|done]. eapply same_then_one; [exact S1|].
  destruct (Log_sync _ _ _ _ _ (actives s1 i) L2) as (L3 & G3 & _). split_and!; [|done|].
  - eapply Log_act; [|exact L3]. done.
  - intros u Hu. apply G3, G2, Hu.
Qed.

Lemma cut_actives id cut s j : actives (cut_index id cut s) j = actives s j.
Proof.
  unfold actives, cut_index. destruct (sh_index _ !! id) as [fi|]; [|done]. destruct (cut (fi_ivs fi)) as [[kept dirty] dead].
  unfold shard_at. cbn. destruct (decide (j = shardIndex s id)) as [->|Hne]; [|now rewrite list_lookup_insert_ne].
  destruct (decide (shardIndex s id < length (st_shards s))%nat); [|now rewrite list_insert_ge by lia].
  rewrite list_lookup_insert_eq by done. cbn.
  match goal with |- sg_id (sh_active (charge ?l ?sh)) = _ => now destruct (charge_same l sh) as [-> _] end.
Qed.

Lemma cut_disk id cut s : st_disk (cut_index id cut s) = st_disk s /\ st_cfg (cut_index id cut s) = st_cfg s /\ st_version (cut_index id cut s) = st_version s.
Proof. unfold cut_index. destruct (sh_index _ !! id) as [fi|]; [|done]. now destruct (cut (fi_ivs fi)) as [[kept dirty] dead]. Qed.

Lemma truncate_advances now id n k s W : Inv (S k) s -> Logged s W -> faithful s W -> st_closed s = false ->
  minSegmentSize <= SegmentSize (st_cfg s) -> st_version s + 1 < 2 ^ 64 -> n < 2 ^ 63 ->
  (forall t, t ∈ records W -> is_trunc t = true -> file_of t = id -> n <= offset_of t) ->
  advances (fun w => file_of w = id /\ offset_of w = n) s W (Truncate now id n s).2.
Proof.
  intros H L F Hcl HS Hv Hn Hmin. pose proof (inv_version _ _ H) as Hv0.
  assert (0 <= SegmentSize (st_cfg s)) as HS0 by (unfold minSegmentSize in HS; rewrite Z.shiftl_1_l in HS; lia).
  destruct (decide (0 <= n /\ Z.of_nat (length id) <= maxFileIDLen)) as [[Hn0 Hid]|Hno].
  2: { destruct (Truncate_refused now id n s Hcl ltac:(lia)) as [->|[->|(-> & _)]]; now apply advances_refl. }
  destruct (Truncate_spec k now id n s H Hcl HS0 Hid Hv ltac:(lia)) as (s' & E & H' & _ & _ & _ & _ & Hc). rewrite E. cbn [snd].
  unfold Truncate in E. rewrite Hcl in E. destruct (Z.ltb_spec n 0); [lia|].
  destruct (past (ivs_of (shardFor s id) id) n) eqn:Ep; cbn [negb] in E; [|injection E as <-; now apply advances_refl].
  set (w := (trunc_header id (st_version s + 1) n, id, []) : written).
  destruct (marker_logged k now id (fun v => trunc_header id v n) s W H L HS Hv Hid) as (s1 & W1 & E1 & (L1 & R1 & G1) & Ev1 & Ec1); try done.
  { apply trunc_good; lia. } { unfold sane, version_of, offset_of, header_of. cbn. split_and!; try lia. done. }
  unfold appendTruncateMarker, writeTruncateRecord in E. rewrite E1 in E. injection E as <-.
  destruct (cut_disk id (fun ivs => clip ivs (st_version s + 1) n) s1) as (Ed & Ecut & Evc). set (s' := cut_index _ _ s1) in *.
  exists W1. split.
  - intros id' x. rewrite Hc. pose proof (Shows_trunc (records W) (records W1) w id' x (content s id' x) R1 eq_refl) as Hsh. apply Hsh; [|done|apply F].
    intros u Hu. change (version_of w) with (st_version s + 1). pose proof (older_records _ _ _ _ _ L u Hu). lia.
  - right. exists w. split_and!; [split_and!; [|done|]|lia|done..].
    + unfold Logged. rewrite Ed, Ecut, Evc. eapply Log_act; [|exact L1]. intros j _. apply cut_actives.
    + now rewrite Ed.
Qed.

Lemma commit_advances id s W : Logged s W -> faithful s W -> st_closed s = false ->
  (forall id' x, content (Commit id s).2 id' x = content s id' x) ->
  exists W', faithful (Commit id s).2 W' /\ same_records s W (Commit id s).2 W' /\ st_version (Commit id s).2 = st_version s /\
    forall w, w ∈ records W' -> shard_slot (st_cfg s) (file_of w) = shardIndex s id -> durable (st_disk (Commit id s).2) W' w.
Proof.
  intros L F Hcl Hc. exists W. split; [now apply (faithful_same s W)|]. unfold Commit in *. rewrite Hcl in *. cbn [snd] in *.
  change (sg_id (sh_active (shardFor s id))) with (actives s (shardIndex s id)). destruct (Log_sync _ _ _ _ _ (actives s (shardIndex s id)) L) as (L' & G & _).
  split_and!; [split_and!; [exact L'|done|exact G]|done|]. intros w Hw Hs. cbn. eapply sync_covers; eauto.
Qed.
