(* ===== verification/JournalCrash.v ===== *)
(** * The journal store: power failures

    A power failure cuts every file somewhere past what was fsynced.  The store opens
    again, and every file reads as it did after some prefix of the operations, one that
    includes every commit of the file. *)

From stdpp Require Import sorting.
From S2P Require Import Prelude.
From S2P Require Import HoleMap.
From S2P Require Import JournalIndex.
From S2P Require Import JournalRecord.
From S2P Require Import JournalStore.
From S2P Require Import JournalReclaim.
From S2P Require Import JournalRecover.
From S2P Require Import JournalInv.
From S2P Require Import JournalOps.
From S2P Require Import JournalEvict.
From S2P Require Import JournalSpec.
From S2P Require Import JournalReplay.
From S2P Require Import JournalDurable.

(** ** What survives *)

(** Every file is cut at or after its durable length. *)
Definition crashed (d d' : gmap Z File) : Prop :=
  forall g, match d !! g, d' !! g with
    | Some f, Some f' => exists n, (fl_durable f <= n <= length (fl_bytes f))%nat /\ f' = mkFile (take n (fl_bytes f)) n
    | None, None => True
    | _, _ => False
    end.

(** The worst failure: nothing past the durable length is left. *)
Definition crash (d : gmap Z File) : gmap Z File :=
  (fun f => mkFile (take (fl_durable f) (fl_bytes f)) (fl_durable f)) <$> d.

Lemma crash_crashed d : map_Forall (fun _ f => (fl_durable f <= length (fl_bytes f))%nat) d -> crashed d (crash d).
Proof.
  intros H g. unfold crash. rewrite lookup_fmap. destruct (d !! g) as [f|] eqn:E; cbn; [|done].
  exists (fl_durable f). split; [|done]. split; [done|]. exact (H g f E).
Qed.

(** The records that fit into [n] bytes. *)
Fixpoint fit (n : Z) (ws : list written) : list written :=
  match ws with
  | [] => []
  | w :: r => if size_of w <=? n then w :: fit (n - size_of w) r else []
  end.

Lemma total_size_cons w ws : total_size (w :: ws) = size_of w + total_size ws.
Proof. reflexivity. Qed.

Lemma torn_nil S : 0 <= S -> torn S [].
Proof.
  intros HS. exists (mkRecordHeader 0 0 0 0 0, [], []), 0%nat. split_and!; [|cbn; lia|done].
  split; [|cbn; auto]. unfold header_ok, in_u16, in_u64, in_u32, in_u8. cbn. lia.
Qed.

Lemma fit_take S ws : forall n, 0 <= S -> Forall (good S) ws -> 0 <= n <= total_size ws -> exists tail,
  take (Z.to_nat n) (concat (map enc ws)) = concat (map enc (fit n ws)) ++ tail /\ torn S tail /\ (fit n ws = ws -> tail = []).
Proof.
  induction ws as [|w ws IH]; intros n HS Hg Hn; cbn [map concat fit].
  { exists []. rewrite take_nil. auto using torn_nil. }
  inversion Hg as [|? ? Hw Hws]; subst. rewrite total_size_cons in Hn. pose proof (enc_length w) as Hl. destruct (Z.leb_spec (size_of w) n).
  - destruct (IH (n - size_of w) HS Hws ltac:(lia)) as (tail & E & Ht & Hf). exists tail. split_and!; [|done|intros [= ?]; auto].
    rewrite take_app_ge by lia. replace (Z.to_nat n - length (enc w))%nat with (Z.to_nat (n - size_of w)) by lia. rewrite E.
    cbn [map concat]. now rewrite <- app_assoc.
  - exists (take (Z.to_nat n) (enc w)). cbn [map concat app]. split_and!; [rewrite take_app_le by lia; done| |done].
    exists w, (Z.to_nat n). split_and!; [apply Hw|lia|done].
Qed.

Lemma fit_prefix ws : forall n, exists rest, ws = fit n ws ++ rest.
Proof.
  induction ws as [|w ws IH]; intros n; cbn [fit]; [now exists []|]. destruct (_ <=? _); [|now exists (w :: ws)].
  destruct (IH (n - size_of w)) as [rest E]. exists rest. cbn. now rewrite <- E.
Qed.

Lemma fit_size ws : forall n, 0 <= n -> total_size (fit n ws) <= n.
Proof.
  induction ws as [|w ws IH]; intros n Hn; cbn [fit]; [unfold total_size; cbn; lia|]. destruct (Z.leb_spec (size_of w) n); [|unfold total_size; cbn; lia].
  rewrite total_size_cons. specialize (IH (n - size_of w)). lia.
Qed.

Lemma fit_in ws1 : forall w ws2 n, total_size (ws1 ++ [w]) <= n -> w ∈ fit n (ws1 ++ w :: ws2).
Proof.
  induction ws1 as [|u ws1 IH]; intros w ws2 n Hn; cbn [app fit] in *; rewrite total_size_cons in Hn.
  - unfold total_size in Hn. cbn in Hn. destruct (Z.leb_spec (size_of w) n); [now left|lia].
  - pose proof (total_size_bound (ws1 ++ [w])). destruct (Z.leb_spec (size_of u) n); [|lia]. right. apply IH. lia.
Qed.

Lemma fit_all ws n : total_size ws <= n -> fit n ws = ws.
Proof.
  revert n. induction ws as [|w ws IH]; intros n Hn; cbn [fit]; [done|]. rewrite total_size_cons in Hn. pose proof (total_size_bound ws).
  destruct (Z.leb_spec (size_of w) n); [|lia]. now rewrite IH by lia.
Qed.

Section survive.
Context (cfg : Config) (act : nat -> Z) (d d' : gmap Z File) (v : Z) (W : Ghost).
Hypothesis L : Log cfg act d v W.
Hypothesis Hcr : crashed d d'.
Hypothesis HS : 0 <= SegmentSize cfg.

Definition size_in (dk : gmap Z File) (g : Z) : Z := match dk !! g with Some f => Z.of_nat (length (fl_bytes f)) | None => 0 end.

(** The complete records of the files after the failure. *)
Definition survivors : gmap Z (list written) := map_imap (fun g p => Some (fit (size_in d' g - 64) p.2)) W.

Lemma survivors_lookup g i ws : W !! g = Some (i, ws) -> recs survivors g = fit (size_in d' g - 64) ws.
Proof. intros E. unfold recs, survivors. now rewrite map_lookup_imap, E. Qed.

Lemma crashed_file g i ws : W !! g = Some (i, ws) -> exists f n, d !! g = Some f /\ d' !! g = Some (mkFile (take n (fl_bytes f)) n) /\
  (fl_durable f <= n <= length (fl_bytes f))%nat /\ (64 <= n)%nat /\ size_in d' g = Z.of_nat n /\ Z.of_nat (length (fl_bytes f)) = 64 + total_size ws.
Proof.
  intros HW. destruct (proj1 (lg_dom _ _ _ _ _ L g)) as [f Hf]; [eauto|]. destruct (lg_file _ _ _ _ _ L _ _ _ _ HW Hf) as ([c Hb] & Hd & _).
  specialize (Hcr g). rewrite Hf in Hcr. destruct (d' !! g) as [f'|] eqn:Hf'; [|done]. destruct Hcr as (n & Hn & ->).
  exists f, n. split_and!; try done; try lia.
  - unfold size_in. rewrite Hf'. cbn. rewrite length_take. lia.
  - rewrite Hb, length_app, Nat2Z.inj_add, concat_enc_length, segHeader_length. lia.
Qed.

Lemma crashed_dom g : is_Some (d' !! g) <-> is_Some (W !! g).
Proof.
  transitivity (is_Some (d !! g)); [|symmetry; apply (lg_dom _ _ _ _ _ L g)]. specialize (Hcr g). destruct (d !! g), (d' !! g); try done; split; eauto. all: now intros [? ?].
Qed.

Lemma survivor_of g w : w ∈ recs survivors g -> exists i ws, W !! g = Some (i, ws) /\ w ∈ ws.
Proof.
  intros Hw. destruct (W !! g) as [[i ws]|] eqn:E.
  - exists i, ws. split; [done|]. rewrite (survivors_lookup g i ws E) in Hw. destruct (fit_prefix ws (size_in d' g - 64)) as [rest ->].
    apply elem_of_app. auto.
  - unfold recs, survivors in Hw. rewrite map_lookup_imap, E in Hw. now apply elem_of_nil in Hw.
Qed.

Lemma survivors_readable g f : d' !! g = Some f -> in_u64 g /\ exists ws, survivors !! g = Some ws /\ readable (SegmentSize cfg) g (fl_bytes f) ws.
Proof.
  intros Hf. destruct (proj1 (crashed_dom g)) as [[i ws] HW]; [eauto|]. destruct (lg_recs _ _ _ _ _ L _ _ _ HW) as (_ & Hg & Hgood & Hsz & _ & _).
  split; [done|]. exists (fit (size_in d' g - 64) ws). split; [unfold survivors; now rewrite map_lookup_imap, HW|].
  destruct (crashed_file g i ws HW) as (f0 & n & Hf0 & Hf' & Hn & H64 & Esz & Hlen). rewrite Hf in Hf'. injection Hf' as ->. cbn [fl_bytes].
  destruct (lg_file _ _ _ _ _ L _ _ _ _ HW Hf0) as ([c Hb] & Hd & Hseal). set (fl := if g =? act i then 0 else segFlagSealed) in *.
  destruct (fit_take (SegmentSize cfg) ws (size_in d' g - 64) HS Hgood) as (tail & Et & Htorn & Hfull); [lia|].
  exists c, fl, tail. destruct (fit_prefix ws (size_in d' g - 64)) as [rest Erest]. split_and!.
  - rewrite Hb, take_app_ge by (rewrite segHeader_length; lia). rewrite segHeader_length.
    replace (n - 64)%nat with (Z.to_nat (size_in d' g - 64)) by lia. now rewrite Et.
  - unfold fl, in_u32. destruct (_ =? _); vm_compute; split; congruence.
  - done.
  - rewrite Erest in Hgood. now apply Forall_app in Hgood.
  - pose proof (fit_size ws (size_in d' g - 64)). lia.
  - intros Hfl. assert (g <> act i) as Hne by (intros E; unfold fl in Hfl; rewrite (proj2 (Z.eqb_eq _ _) E) in Hfl; done).
    destruct (Hseal Hne) as [Hws Hdur]. rewrite fit_all in * by lia. auto.
Qed.

Lemma survivors_slot g w : w ∈ recs survivors g -> shard_slot cfg (file_of w) = slot cfg survivors g /\ (slot cfg survivors g < ShardCount cfg)%nat.
Proof.
  intros Hw. destruct (survivor_of g w Hw) as (i & ws & HW & Hin). destruct (lg_recs _ _ _ _ _ L _ _ _ HW) as (Hi & _ & _ & _ & _ & Hr).
  destruct (Hr w Hin) as (_ & _ & Hs). assert (slot cfg survivors g = i) as ->; [|auto].
  unfold slot. destruct (recs survivors g) as [|w0 r] eqn:E; [now apply elem_of_nil in Hw|].
  destruct (survivor_of g w0) as (i' & ws' & HW' & Hin'); [rewrite E; now left|]. rewrite HW in HW'. injection HW' as <- <-. now apply Hr.
Qed.

Lemma elem_of_survivors w : w ∈ all_records d' survivors <-> exists g, w ∈ recs survivors g.
Proof.
  unfold all_records, all_log. rewrite elem_of_writtens. split.
  - intros (g & r & Hin & ->). exists g. now apply (log_file _ g r (segment_ids d')).
  - intros [g Hw]. destruct (survivor_of g w Hw) as (i & ws & HW & _). rewrite <- (written_of_laid_out (recs survivors g) segHeaderSize) in Hw.
    apply list_elem_of_fmap in Hw as (r & -> & Hr). exists g, r. split; [|done]. apply elem_of_log. split; [|done].
    apply segment_ids_spec, crashed_dom. eauto.
Qed.

Lemma survivors_records w : w ∈ all_records d' survivors -> w ∈ records W.
Proof. intros [g Hw]%elem_of_survivors. destruct (survivor_of g w Hw) as (i & ws & ? & ?). apply elem_of_records. eauto. Qed.

Lemma records_distinct : distinct (records W).
Proof.
  intros w w' (g & i & ws & HW & Hw)%elem_of_records (g' & i' & ws' & HW' & Hw')%elem_of_records E.
  assert (g = g') as <- by (eapply (lg_apart _ _ _ _ _ L); eauto). rewrite HW in HW'. injection HW' as <- <-.
  destruct (lg_recs _ _ _ _ _ L _ _ _ HW) as (_ & _ & _ & _ & Hso & _). clear -Hso Hw Hw' E.
  induction Hso as [|u us Hso IH Hu]; [now apply elem_of_nil in Hw|]. rewrite List.Forall_forall in Hu. unfold earlier in Hu.
  apply elem_of_cons in Hw, Hw'. destruct Hw as [Ew|Hw], Hw' as [Ew'|Hw']; [congruence| | |auto]; subst.
  - apply list_elem_of_In in Hw'. specialize (Hu _ Hw'). lia.
  - apply list_elem_of_In in Hw. specialize (Hu _ Hw). lia.
Qed.

Lemma sorted_NoDup ws : StronglySorted earlier ws -> NoDup (version_of <$> ws).
Proof.
  induction 1 as [|u us Hso IH Hu]; [constructor|]. cbn. apply NoDup_cons. split; [|done]. intros (w & E & Hw)%list_elem_of_fmap.
  rewrite List.Forall_forall in Hu. apply list_elem_of_In in Hw. specialize (Hu _ Hw). unfold earlier in Hu. lia.
Qed.

Lemma survivors_NoDup : NoDup (versions (all_log d' survivors)).
Proof.
  unfold versions, all_log. pose proof (segment_ids_NoDup d') as Hnd. induction (segment_ids d') as [|g ids IH]; [constructor|].
  apply NoDup_cons in Hnd as [Hg Hnd]. unfold log. cbn [mbind list_bind]. fold (log survivors ids).
  rewrite writtens_app, fmap_app, writtens_entries. apply NoDup_app. split_and!; [| |auto].
  - destruct (W !! g) as [[i ws]|] eqn:E.
    + rewrite (survivors_lookup g i ws E). apply sorted_NoDup. destruct (lg_recs _ _ _ _ _ L _ _ _ E) as (_ & _ & _ & _ & Hso & _).
      destruct (fit_prefix ws (size_in d' g - 64)) as [rest Er]. rewrite Er in Hso. now apply StronglySorted_app in Hso.
    + unfold recs, survivors. rewrite map_lookup_imap, E. constructor.
  - intros n (w & -> & Hw)%list_elem_of_fmap (w' & E & Hw')%list_elem_of_fmap. apply elem_of_writtens in Hw' as (g' & r & Hin & ->).
    pose proof (log_file _ _ _ _ Hin) as Hr. apply elem_of_log in Hin as [Hg' _].
    destruct (survivor_of g w Hw) as (i & ws & HW & Hin), (survivor_of g' _ Hr) as (i' & ws' & HW' & Hin').
    assert (g = g') as <-; [|done]. eapply (lg_apart _ _ _ _ _ L); eauto.
Qed.

(** Durable records survive; the records a shard loses are its last ones. *)
Lemma durable_survives w : durable d W w -> w ∈ all_records d' survivors.
Proof.
  intros (g & i & ws1 & ws2 & f & HW & Hf & Hle). apply elem_of_survivors. exists g. rewrite (survivors_lookup _ _ _ HW).
  destruct (crashed_file _ _ _ HW) as (f0 & n & Hf0 & _ & Hn & _ & -> & _). rewrite Hf in Hf0. injection Hf0 as <-. apply fit_in. lia.
Qed.

Lemma lost_last w u : w ∈ records W -> w ∉ all_records d' survivors -> u ∈ all_records d' survivors ->
  shard_slot cfg (file_of u) = shard_slot cfg (file_of w) -> version_of u < version_of w.
Proof.
  intros (g & i & ws & HW & Hw)%elem_of_records Hlost (g' & Hu)%elem_of_survivors Hs.
  destruct (survivor_of g' u Hu) as (i' & ws' & HW' & Hin'). destruct (lg_recs _ _ _ _ _ L _ _ _ HW) as (_ & _ & _ & _ & Hso & Hr).
  destruct (lg_recs _ _ _ _ _ L _ _ _ HW') as (_ & _ & _ & _ & _ & Hr'). destruct (Hr _ Hw) as (_ & _ & E1), (Hr' _ Hin') as (_ & _ & E2).
  assert (i' = i) as -> by congruence. destruct (crashed_file _ _ _ HW) as (f & n & Hf & _ & Hn & _ & Esz & Hlen).
  assert (g = act i) as ->.
  { destruct (decide (g = act i)) as [|Hne]; [done|]. exfalso. apply Hlost, elem_of_survivors. exists g. rewrite (survivors_lookup _ _ _ HW).
    destruct (lg_file _ _ _ _ _ L _ _ _ _ HW Hf) as (_ & _ & Hseal). destruct (Hseal Hne) as [_ Hdur]. rewrite fit_all by lia. done. }
  destruct (decide (g' = act i)) as [->|Hne]; [|eapply (lg_order _ _ _ _ _ L); [exact HW'|exact HW|done..]].
  rewrite HW in HW'. injection HW' as <-. rewrite (survivors_lookup _ _ _ HW) in Hu.
  destruct (fit_prefix ws (size_in d' (act i) - 64)) as [rest Er]. rewrite Er in Hso, Hw. apply StronglySorted_app in Hso as (Hlt & _).
  apply elem_of_app in Hw as [Hw|Hw]; [|now apply Hlt]. exfalso. apply Hlost, elem_of_survivors. exists (act i). now rewrite (survivors_lookup _ _ _ HW).
Qed.

End survive.

(** ** Histories *)

(** Writes, hydrations, truncations and commits. *)
Definition plain (o : op) : bool :=
  match o with OpWrite _ _ _ _ | OpHydrate _ _ _ _ | OpTruncate _ _ _ | OpCommit _ => true | _ => false end.

(** The sizes a file is truncated to. *)
Definition truncs (id : FileID) (ops : list op) : list Z :=
  ops ≫= fun o => match o with OpTruncate _ id' n => if bool_decide (id' = id) then [n] else [] | _ => [] end.

(** No truncation of a file to more than an earlier one. *)
Definition shrinking (ops : list op) : Prop := forall id, StronglySorted Z.ge (truncs id ops).

Definition ran (ops : list op) (s : Store) : Store := (run ops s).2.

Lemma ran_snoc ops o : forall s, ran (ops ++ [o]) s = (exec o (ran ops s)).2.
Proof.
  unfold ran. induction ops as [|o' ops IH]; intros s; cbn [app run].
  - cbn [snd]. now destruct (exec o s).
  - destruct (exec o' s) as [e s1]. specialize (IH s1). destruct (run (ops ++ [o]) s1), (run ops s1). exact IH.
Qed.

Lemma admissible_snoc ops o : forall s, admissible (ops ++ [o]) s <-> admissible ops s /\ allowed o (ran ops s).
Proof.
  unfold ran. induction ops as [|o' ops IH]; intros s; cbn [app run admissible]; [tauto|].
  rewrite IH. destruct (exec o' s) as [e s1]. cbn [snd]. destruct (run ops s1). cbn [snd]. tauto.
Qed.

Lemma ran_ready ops s : Ready s -> admissible ops s -> Ready (ran ops s) /\ st_cfg (ran ops s) = st_cfg s.
Proof.
  intros Hr. induction ops as [|o ops IH] using rev_ind; [done|]. rewrite admissible_snoc, ran_snoc. intros [Ha Ho].
  destruct (IH Ha) as [Hr1 Ec]. destruct (exec_refines o _ Hr1 Ho) as (? & ? & _). split; [done|congruence].
Qed.

(** The records up to a version. *)
Definition upto (v : Z) (W : Ghost) : list written := List.filter (fun w => version_of w <=? v) (records W).

Lemma elem_of_upto v W w : w ∈ upto v W <-> w ∈ records W /\ version_of w <= v.
Proof. unfold upto. rewrite !list_elem_of_In, filter_In, Z.leb_le. done. Qed.

(** What is known of every moment of a history. *)
Record History (s0 : Store) (ops : list op) (W : Ghost) : Prop := {
  hy_logged : Logged (ran ops s0) W;
  hy_faithful : faithful (ran ops s0) W;
  hy_truncs : forall t, t ∈ records W -> is_trunc t = true -> offset_of t ∈ truncs (file_of t) ops;
  hy_version : forall ops1 ops2, ops = ops1 ++ ops2 -> st_version (ran ops1 s0) <= st_version (ran ops s0);
  hy_past : forall ops1 ops2, ops = ops1 ++ ops2 -> forall id x, Shows (upto (st_version (ran ops1 s0)) W) id x (content (ran ops1 s0) id x);
  hy_durable : forall ops1 id ops2 w, ops = (ops1 ++ [OpCommit id]) ++ ops2 -> w ∈ records W ->
    shard_slot (st_cfg s0) (file_of w) = shard_slot (st_cfg s0) id -> version_of w <= st_version (ran (ops1 ++ [OpCommit id]) s0) ->
    durable (st_disk (ran ops s0)) W w;
}.

Lemma truncs_app id ops o : truncs id (ops ++ [o]) = truncs id ops ++ truncs id [o].
Proof. apply bind_app. Qed.

(** The record of a write fits under the local cap, if there is one: nothing is evicted
    to make room. *)
Definition fits (o : op) (s : Store) : Prop :=
  match o with
  | OpWrite _ id _ data | OpHydrate _ id _ data =>
      MaxLocalBytes (st_cfg s) <= 0 \/ st_diskBytes s + recordLen (Z.of_nat (length id)) (Z.of_nat (length data)) <= MaxLocalBytes (st_cfg s)
  | _ => True
  end.

Fixpoint under_cap (ops : list op) (s : Store) : Prop :=
  match ops with
  | [] => True
  | o :: ops => fits o s /\ under_cap ops (exec o s).2
  end.

Lemma under_cap_snoc ops o : forall s, under_cap (ops ++ [o]) s <-> under_cap ops s /\ fits o (ran ops s).
Proof.
  unfold ran. induction ops as [|o' ops IH]; intros s; cbn [app run under_cap]; [tauto|].
  rewrite IH. destruct (exec o' s) as [e s1]. cbn [snd]. destruct (run ops s1). cbn [snd]. tauto.
Qed.

(** One step. *)
Lemma exec_advances o s W : Ready s -> allowed o s -> plain o = true ->
  fits o s -> minSegmentSize <= SegmentSize (st_cfg s) -> Logged s W -> faithful s W ->
  (forall now id n t, o = OpTruncate now id n -> t ∈ records W -> is_trunc t = true -> file_of t = id -> n <= offset_of t) ->
  exists W', faithful (exec o s).2 W' /\
    (forall id w, o = OpCommit id -> w ∈ records W' -> shard_slot (st_cfg s) (file_of w) = shardIndex s id -> durable (st_disk (exec o s).2) W' w) /\
    ((same_records s W (exec o s).2 W' /\ st_version (exec o s).2 = st_version s) \/
     (exists w, one_record w s W (exec o s).2 W' /\ st_version (exec o s).2 = st_version s + 1 /\ version_of w = st_version s + 1 /\
        (is_trunc w = true -> offset_of w ∈ truncs (file_of w) [o]))).
Proof.
  intros Hr [Hi Hroom] Hp Hmax HS L F Hmin. pose proof (Ready_room _ _ Hr Hroom) as H. destruct Hroom as [Hv _]. destruct Hr as (H0 & Hcl & _).
  assert (forall P s', (forall w, P w -> is_trunc w = true -> offset_of w ∈ truncs (file_of w) [o]) -> (forall id, o <> OpCommit id) -> advances P s W s' ->
    exists W', faithful s' W' /\
    (forall id w, o = OpCommit id -> w ∈ records W' -> shard_slot (st_cfg s) (file_of w) = shardIndex s id -> durable (st_disk s') W' w) /\
    ((same_records s W s' W' /\ st_version s' = st_version s) \/
     (exists w, one_record w s W s' W' /\ st_version s' = st_version s + 1 /\ version_of w = st_version s + 1 /\
        (is_trunc w = true -> offset_of w ∈ truncs (file_of w) [o])))) as Hadv.
  { intros P0 s' HP Hnc (W' & F' & Hc). exists W'. split_and!; [done|intros id w ->; now destruct (Hnc id)|].
    destruct Hc as [?|(w & ? & ? & ? & ?)]; [auto|right; eauto 10]. }
  destruct o as [now id offset data|now id offset data|now id|now id n|id|id offset len|now target|now force]; try done; cbn [exec cost int64_range] in *.
  - apply (Hadv (fun w => is_trunc w = false)); [congruence|done|]. unfold outcome_of. cbn [snd]. now apply (write_advances _ _ _ _ _ 1).
  - apply (Hadv (fun w => is_trunc w = false)); [congruence|done|]. unfold outcome_of. cbn [snd]. now apply (write_advances _ _ _ _ _ 1).
  - apply (Hadv (fun w => file_of w = id /\ offset_of w = n)); [|done|].
    + intros w [-> ->] _. unfold truncs. cbn. rewrite bool_decide_true by done. now left.
    + unfold outcome_of. cbn [snd]. apply (truncate_advances _ _ _ 1); eauto.
  - destruct (commit_advances id s W L F Hcl) as (W' & F' & S' & Ev & Hd).
    { destruct (Commit_spec 0 id s H0) as [_ (_ & _ & _ & _ & Hc)]. exact Hc. }
    exists W'. unfold outcome_of. cbn [snd]. split_and!; [done| |auto]. intros id' w [= <-]. apply Hd.
Qed.

Section history.
Context (cfg : Config) (s0 : Store).
Hypothesis Hready : Ready s0.
Hypothesis Hcfg : st_cfg s0 = cfg.
Hypothesis HS : minSegmentSize <= SegmentSize cfg.

Lemma history_start W : Logged s0 W -> faithful s0 W -> records W = [] -> History s0 [] W.
Proof.
  intros L F HW. split; try done.
  - intros t Ht. rewrite HW in Ht. now apply elem_of_nil in Ht.
  - intros ops1 ops2 E. symmetry in E. apply app_nil in E as [-> _]. done.
  - intros ops1 ops2 E. symmetry in E. apply app_nil in E as [-> _]. intros id x. eapply Shows_ext; [|apply F].
    intros w _. rewrite elem_of_upto, HW. split; [now intros ?%elem_of_nil|tauto].
  - intros ops1 id ops2 w E. symmetry in E. apply app_nil in E as [E _]. now apply app_nil in E as [_ ?].
Qed.

(** A history the theorem is about. *)
Definition recoverable (ops : list op) : Prop :=
  admissible ops s0 /\ forallb plain ops = true /\ shrinking ops /\ under_cap ops s0.

Lemma recoverable_prefix ops1 ops2 : recoverable (ops1 ++ ops2) -> recoverable ops1.
Proof.
  intros (Ha & Hp & Hsh & Hc). split_and!.
  - clear Hc. induction ops2 as [|o r IH] using rev_ind; [now rewrite app_nil_r in Ha|]. rewrite app_assoc in Ha, Hp, Hsh. apply IH.
    + now apply admissible_snoc in Ha.
    + rewrite forallb_app in Hp. now apply andb_true_iff in Hp as [? _].
    + intros id. specialize (Hsh id). rewrite truncs_app in Hsh. now apply StronglySorted_app in Hsh.
  - rewrite forallb_app in Hp. now apply andb_true_iff in Hp as [? _].
  - intros id. specialize (Hsh id). unfold truncs in *. rewrite bind_app in Hsh. now apply StronglySorted_app in Hsh.
  - clear Ha Hp Hsh. induction ops2 as [|o r IH] using rev_ind; [now rewrite app_nil_r in Hc|].
    rewrite app_assoc in Hc. apply IH. now apply under_cap_snoc in Hc.
Qed.

Lemma history_step ops o W : History s0 ops W -> recoverable (ops ++ [o]) ->
  exists W', History s0 (ops ++ [o]) W' /\ st_version (ran (ops ++ [o]) s0) <= st_version (ran ops s0) + 1.
Proof.
  intros [Y1 Y2 Y3 Y4 Y5 Y6] ([Ha Ho]%admissible_snoc & Hp & Hsh & [_ Hfit]%under_cap_snoc). rewrite forallb_app in Hp. apply andb_true_iff in Hp as [_ Hp].
  cbn in Hp. rewrite andb_true_r in Hp. destruct (ran_ready ops s0 Hready Ha) as [Hr Ec]. rewrite Hcfg in Ec.
  destruct (exec_advances o (ran ops s0) W Hr Ho Hp Hfit) as (W' & F' & Hcom & Hcase); rewrite ?Ec; try done.
  { intros now id n t -> Ht Htr Hf. specialize (Hsh id). rewrite truncs_app in Hsh. apply StronglySorted_app in Hsh as (Hge & _).
    assert (offset_of t >= n); [|lia]. apply Hge; [rewrite <- Hf; auto|]. unfold truncs. cbn. rewrite bool_decide_true by done. now left. }
  rewrite <- ran_snoc in *. set (s := ran ops s0) in *. set (s' := ran (ops ++ [o]) s0) in *. exists W'.
  assert (Logged s' W' /\ (forall u, u ∈ records W -> u ∈ records W') /\ grows (st_disk s) W (st_disk s') W' /\
    st_version s <= st_version s' <= st_version s + 1 /\
    (forall u, u ∈ records W' -> u ∈ records W \/ (version_of u = st_version s + 1 /\ (is_trunc u = true -> offset_of u ∈ truncs (file_of u) [o]))))
    as (L' & Hsub & Hgrow & Hver & Hnew).
  { destruct Hcase as [[(? & R & ?) ?]|(w & (? & R & ?) & ? & ? & ?)]; split_and!; try done; try lia; intros u Hu; try (apply R; auto).
    - left. now apply R.
    - apply R in Hu as [?| ->]; auto. }
  assert (forall ops1 ops2, ops ++ [o] = ops1 ++ ops2 -> ops1 = ops ++ [o] \/ exists r, ops = ops1 ++ r) as Hpre.
  { intros ops1 ops2 E. destruct ops2 as [|o2 r _] using rev_ind; [left; now rewrite app_nil_r in E|].
    rewrite app_assoc in E. apply app_inj_tail in E as [E _]. eauto. }
  split; [|lia]. split; fold s'; [done|done| | | |].
  - intros t [Ht|[_ Ht]]%Hnew Htr; rewrite truncs_app, elem_of_app; [left; auto|right; auto].
  - intros ops1 ops2 E. destruct (Hpre _ _ E) as [->|[r ->]]; [done|]. specialize (Y4 ops1 r eq_refl). lia.
  - intros ops1 ops2 E id x. destruct (Hpre _ _ E) as [->|[r Er]].
    + fold s'. eapply Shows_ext; [|apply F']. intros w _. rewrite elem_of_upto. split; [|tauto]. intros Hw. split; [done|].
      now apply (older_records _ _ _ _ _ L').
    + eapply Shows_ext; [|apply (Y5 _ _ Er)]. intros w _. rewrite !elem_of_upto. specialize (Y4 _ _ Er). fold s in Y4. split; intros [Hw Hv]; (split; [|done]); [auto|].
      apply Hnew in Hw as [?|[? _]]; [done|lia].
  - intros ops1 id ops2 w E Hw Hs Hv. destruct (Hpre _ _ E) as [E1|[r Er]].
    + apply app_inj_tail in E1 as [-> <-]. eapply Hcom; [done|done|]. rewrite Ec, <- Hcfg. unfold shardIndex. fold (shard_slot (st_cfg s) id). rewrite Hs.
      subst s. now rewrite Ec, Hcfg.
    + apply Hgrow. apply (Y6 ops1 id r); try done. apply Hnew in Hw as [?|[? _]]; [done|].
      specialize (Y4 _ _ Er). fold s in Y4. lia.
Qed.

Lemma history_all W ops : History s0 [] W -> recoverable ops -> exists W', History s0 ops W'.
Proof.
  intros H0. induction ops as [|o ops IH] using rev_ind; intros Hr; [eauto|]. destruct IH as [W1 H1]; [now apply recoverable_prefix in Hr|].
  destruct (history_step ops o W1 H1 Hr) as (W' & ? & _). eauto.
Qed.

(** No moment skips a version, and versions do not go back. *)
Lemma version_steps W ops1 o ops2 : History s0 [] W -> recoverable (ops1 ++ o :: ops2) ->
  st_version (ran (ops1 ++ [o]) s0) <= st_version (ran ops1 s0) + 1.
Proof.
  intros H0 Hr. replace (ops1 ++ o :: ops2) with ((ops1 ++ [o]) ++ ops2) in Hr by now rewrite <- app_assoc. apply recoverable_prefix in Hr.
  destruct (history_all W ops1 H0) as [W1 H1]; [now apply recoverable_prefix in Hr|]. now destruct (history_step ops1 o W1 H1 Hr) as (? & _ & ?).
Qed.

Lemma version_grows W ops1 ops2 ops3 : History s0 [] W -> recoverable (ops1 ++ ops2 ++ ops3) ->
  st_version (ran ops1 s0) <= st_version (ran (ops1 ++ ops2) s0).
Proof.
  intros H0 Hr. rewrite app_assoc in Hr. apply recoverable_prefix in Hr. destruct (history_all W _ H0 Hr) as [W1 H1]. now apply (hy_version _ _ _ H1 ops1 ops2).
Qed.

End history.

(** The longest prefix with a property the empty one has. *)
Lemma longest_prefix {A} (P : list A -> bool) l : P [] = true -> exists l1 l2, l = l1 ++ l2 /\ P l1 = true /\
  match l2 with [] => True | a :: _ => P (l1 ++ [a]) = false end.
Proof.
  intros H0. induction l as [|a l IH] using rev_ind; [exists [], []; auto|]. destruct (P (l ++ [a])) eqn:E.
  - exists (l ++ [a]), []. rewrite app_nil_r. auto.
  - destruct IH as (l1 & l2 & -> & H1 & H2). destruct l2 as [|b l2].
    + rewrite app_nil_r in *. exists l1, [a]. auto.
    + exists l1, (b :: l2 ++ [a]). split; [now rewrite <- app_assoc|auto].
Qed.

(** ** A new store *)

Lemma start_logged cfg s : starting cfg s -> length (st_shards s) = ShardCount cfg -> minSegmentSize <= SegmentSize cfg -> Z.of_nat (ShardCount cfg) < 2 ^ 64 ->
  exists W, Logged s W /\ records W = [].
Proof.
  intros (Ec & En & Ev & Ecl & Hd & Hsh) Hl HS Hlt. set (W := map_imap (fun g (_ : File) => Some (Z.to_nat g, [] : list written)) (st_disk s)).
  assert (forall g i ws, W !! g = Some (i, ws) -> ws = [] /\ 0 <= g < Z.of_nat (ShardCount cfg) /\ g = Z.of_nat i /\ g = actives s i /\
    exists c, st_disk s !! g = Some (mkFile (encodeSegHeader g c 0) 64)) as HW.
  { intros g i ws E. unfold W in E. rewrite map_lookup_imap in E. destruct (st_disk s !! g) as [f|] eqn:Ef; [|done].
    cbn in E. injection E as <- <-. pose proof (Hd _ _ Ef) as Hg. rewrite En, Hl in Hg.
    destruct (lookup_lt_is_Some_2 (st_shards s) (Z.to_nat g)) as [sh Hi]; [lia|]. destruct (Hsh _ _ Hi) as (_ & _ & A3 & _ & c & Hf).
    rewrite Z2Nat.id in * by lia. split_and!; try done; try lia; [|exists c; congruence]. unfold actives, shard_at. now rewrite Hi. }
  exists W. split.
  - unfold Logged. rewrite Ec. split.
    + intros g. unfold W. rewrite map_lookup_imap. destruct (st_disk s !! g); cbn; split; (done || eauto).
    + intros g i ws f E Hf. destruct (HW _ _ _ E) as (-> & _ & _ & Ea & c & Hc). rewrite Hc in Hf. injection Hf as <-. cbn [fl_bytes fl_durable].
      rewrite <- Ea, Z.eqb_refl, segHeader_length. split_and!; [exists c; now rewrite app_nil_r|lia|lia|done].
    + intros g i ws E. destruct (HW _ _ _ E) as (-> & Hg & Ei & _). split_and!; [lia|unfold in_u64; lia|constructor| |constructor|].
      * unfold total_size. cbn. unfold minSegmentSize in HS. change (Z.shiftl 1 20) with 1048576 in HS. lia.
      * intros w Hw. now apply elem_of_nil in Hw.
    + intros i Hi. exists []. destruct (lookup_lt_is_Some_2 (st_shards s) i) as [sh Hsi]; [lia|]. destruct (Hsh _ _ Hsi) as (_ & _ & A3 & _ & c & Hf).
      unfold actives, shard_at. rewrite Hsi. cbn [default]. unfold default, id. rewrite A3. unfold W. rewrite map_lookup_imap, Hf. cbn. now rewrite Nat2Z.id.
    + intros g i ws g' i' ws' w w' E _ Hw. destruct (HW _ _ _ E) as (-> & _). now apply elem_of_nil in Hw.
    + intros g i ws ws' w w' E _ _ Hw. destruct (HW _ _ _ E) as (-> & _). now apply elem_of_nil in Hw.
  - apply elem_of_nil_inv. intros w (g & i & ws & E & Hw)%elem_of_records. destruct (HW _ _ _ E) as (-> & _). now apply elem_of_nil in Hw.
Qed.

(** ** The theorem *)

(** What of a file's records is left is what there was after some prefix. *)
Lemma prefix_survives cfg s0 ops W d' id : Ready s0 -> st_cfg s0 = cfg -> minSegmentSize <= SegmentSize cfg ->
  (exists W0, History s0 [] W0) -> recoverable s0 ops -> History s0 ops W -> st_version s0 = 0 ->
  crashed (st_disk (ran ops s0)) d' ->
  exists ops1 ops2, ops = ops1 ++ ops2 /\ OpCommit id ∉ ops2 /\
    forall w, file_of w = id -> w ∈ upto (st_version (ran ops1 s0)) W <-> w ∈ all_records d' (survivors d' W).
Proof.
  intros Hr Hcfg HS [W0 H0] Hrec HY Hv0 Hcr. pose proof HY as [Y1 Y2 Y3 Y4 Y5 Y6].
  assert (st_cfg (ran ops s0) = cfg) as Ec by (destruct (ran_ready ops s0 Hr (proj1 Hrec)) as [_ ->]; done). unfold Logged in Y1. rewrite Ec in Y1.
  assert (0 <= SegmentSize cfg) as HS0 by (unfold minSegmentSize in HS; change (Z.shiftl 1 20) with 1048576 in HS; lia).
  pose proof (records_distinct _ _ _ _ _ Y1) as Hdist.
  set (sv := all_records d' (survivors d' W)). set (i := shard_slot cfg id).
  assert (forall w, w ∈ records W -> version_of w ∈ version_of <$> sv -> w ∈ sv) as Hback.
  { intros w Hw (u & E & Hu)%list_elem_of_fmap. rewrite (Hdist w u); auto. eapply survivors_records; eauto. }
  set (keep := fun l : list op => forallb (fun w => negb (bool_decide (shard_slot cfg (file_of w) = i) && (version_of w <=? st_version (ran l s0))) ||
    bool_decide (version_of w ∈ version_of <$> sv)) (records W)).
  assert (forall l, keep l = true <-> forall w, w ∈ records W -> shard_slot cfg (file_of w) = i -> version_of w <= st_version (ran l s0) -> w ∈ sv) as Hkeep.
  { intros l. unfold keep. rewrite forallb_forall. split.
    - intros Hk w Hw Hs Hv. apply Hback; [done|]. specialize (Hk w (proj1 (list_elem_of_In _ _) Hw)). rewrite bool_decide_true, (proj2 (Z.leb_le _ _) Hv) in Hk by done.
      now apply bool_decide_eq_true in Hk.
    - intros Hk w Hw%list_elem_of_In. destruct (bool_decide_reflect (shard_slot cfg (file_of w) = i)); [|done]. destruct (Z.leb_spec (version_of w) (st_version (ran l s0))); [|done].
      cbn. apply bool_decide_eq_true, list_elem_of_fmap. eauto. }
  destruct (longest_prefix keep ops) as (ops1 & ops2 & E & Hk1 & Hk2).
  { apply Hkeep. intros w Hw _ Hv. change (ran [] s0) with s0 in Hv. apply elem_of_records in Hw as (g & j & ws & HW & Hw).
    destruct (lg_recs _ _ _ _ _ Y1 _ _ _ HW) as (_ & _ & _ & _ & _ & Hrs). destruct (Hrs w Hw) as ((? & _) & _). lia. }
  subst ops. assert (ops2 = [] \/ exists o r w, ops2 = o :: r /\ w ∈ records W /\ shard_slot cfg (file_of w) = i /\
    version_of w = st_version (ran ops1 s0) + 1 /\ version_of w <= st_version (ran (ops1 ++ [o]) s0) /\ w ∉ sv) as Hlost.
  { destruct ops2 as [|o r]; [auto|right]. pose proof (version_steps cfg s0 Hr Hcfg HS W0 ops1 o r H0 Hrec) as Hstep.
    unfold keep in Hk2. apply not_true_iff_false in Hk2. rewrite forallb_forall in Hk2.
    destruct (decide (Forall (fun w => negb (bool_decide (shard_slot cfg (file_of w) = i) && (version_of w <=? st_version (ran (ops1 ++ [o]) s0))) ||
      bool_decide (version_of w ∈ version_of <$> sv) = true) (records W))) as [Hall|Hex]; [exfalso; apply Hk2; now apply List.Forall_forall|].
    apply not_Forall_Exists, Exists_exists in Hex as (w & Hw & Hn); [|apply _]. exists o, r, w. cbn in Hn. apply not_true_iff_false, orb_false_iff in Hn as [Hn1 Hn2].
    apply negb_false_iff, andb_true_iff in Hn1 as [Hs%bool_decide_eq_true Hv%Z.leb_le]. apply bool_decide_eq_false in Hn2.
    assert (w ∉ sv) as Hns by (intros ?; apply Hn2, list_elem_of_fmap; eauto). split_and!; try done.
    destruct (Z.le_gt_cases (version_of w) (st_version (ran ops1 s0))); [|lia]. destruct Hns. now apply (proj1 (Hkeep ops1) Hk1). }
  exists ops1, ops2. split_and!; [done| |].
  - intros (r1 & r2 & E)%list_elem_of_split. destruct Hlost as [->|(o & r & w & -> & Hw & Hs & Hv & Hle & Hns)]; [now destruct r1|].
    apply Hns. apply (durable_survives _ _ _ _ _ _ Y1 Hcr).
    assert (ops1 ++ o :: r = ((ops1 ++ r1) ++ [OpCommit id]) ++ r2) as E2 by (rewrite E; now rewrite <- !app_assoc).
    eapply (Y6 (ops1 ++ r1) id r2); [exact E2|done|now rewrite Hcfg|].
    assert (exists q, (ops1 ++ r1) ++ [OpCommit id] = (ops1 ++ [o]) ++ q) as [q Eq].
    { destruct r1 as [|o1 r1]; cbn in E; injection E as -> ->; [exists []|exists (r1 ++ [OpCommit id])]; now rewrite <- ?app_assoc, ?app_nil_r. }
    rewrite Eq. rewrite E2, Eq, <- app_assoc in Hrec. pose proof (version_grows cfg s0 Hr Hcfg HS W0 (ops1 ++ [o]) q r2 H0 Hrec). lia.
  - intros w Hf. rewrite elem_of_upto. split; [intros [Hw Hv]; apply (proj1 (Hkeep ops1) Hk1); [done|unfold i; now rewrite Hf|done]|].
    intros Hw. assert (w ∈ records W) as HwW by (eapply survivors_records; eauto). split; [done|]. destruct Hlost as [->|(_ & _ & u & _ & Hu & Hs & Hv & _ & Hns)].
    + rewrite app_nil_r in Y1. now apply (older_records _ _ _ _ _ Y1).
    + assert (version_of w < version_of u); [|lia]. eapply (lost_last cfg); eauto. rewrite Hs, Hf. done.
Qed.

Lemma max_id_lt d n : (forall g, is_Some (d !! g) -> g < n) -> 0 < n -> max_id d < n.
Proof.
  intros Hd Hn. unfold max_id. assert (forall g, g ∈ (map_to_list d).*1 -> g < n) as Hg.
  { intros g ([g' f] & -> & H)%list_elem_of_fmap. apply elem_of_map_to_list in H. apply Hd. eauto. }
  induction ((map_to_list d).*1) as [|h l IH]; cbn; [done|]. specialize (IH ltac:(intros; apply Hg; now right)). specialize (Hg h ltac:(now left)). lia.
Qed.

(** The store opens again and serves the surviving records. *)
Lemma reopens cfg cfg' s0 ops W d' now age : Ready s0 -> st_cfg s0 = cfg -> minSegmentSize <= SegmentSize cfg ->
  ShardCount cfg' = ShardCount cfg -> SegmentSize cfg' = SegmentSize cfg ->
  admissible ops s0 -> History s0 ops W -> crashed (st_disk (ran ops s0)) d' -> st_nextSeg (ran ops s0) + Z.of_nat (ShardCount cfg) < 2 ^ 64 ->
  d' <> ∅ /\ exists s', recover cfg' now age d' = inr s' /\ serves_records cfg' (all_records d' (survivors d' W)) s'.
Proof.
  intros Hr Hcfg HS Hsc Hss Ha [Y1 Y2 _ _ _ _] Hcr Hroom. destruct (ran_ready ops s0 Hr Ha) as [(HI & _) Ec]. rewrite Hcfg in Ec. unfold Logged in Y1. rewrite Ec in Y1.
  assert (0 <= SegmentSize cfg) as HS0 by (unfold minSegmentSize in HS; change (Z.shiftl 1 20) with 1048576 in HS; lia).
  pose proof (inv_shards _ _ HI) as [_ Hpos]. rewrite Ec in Hpos. pose proof (inv_next _ _ HI) as [Hn0 _].
  pose proof (crashed_dom _ _ _ _ _ _ Y1 Hcr) as Hdom. destruct (lg_active _ _ _ _ _ Y1 0%nat Hpos) as [ws0 HW0].
  assert (forall g, is_Some (d' !! g) -> g < st_nextSeg (ran ops s0)) as Hlt.
  { intros g Hg%Hdom. apply (lg_dom _ _ _ _ _ Y1) in Hg as [f Hf]. now apply (inv_fresh _ _ HI) in Hf. }
  assert (is_Some (d' !! actives (ran ops s0) 0)) as H0 by (apply Hdom; eauto). split; [intros ->; now rewrite lookup_empty in H0; destruct H0|].
  assert (forall id, shard_slot cfg' id = shard_slot cfg id) as Hslot by (intros id; unfold shard_slot; now rewrite Hsc).
  apply recover_serves.
  - intros g f Hf. rewrite Hss. eapply survivors_readable; eauto.
  - intros g w Hw. rewrite Hslot, Hsc. replace (slot cfg' (survivors d' W) g) with (slot cfg (survivors d' W) g); [eapply survivors_slot; eauto|].
    unfold slot. case_match; [reflexivity|]. now rewrite Hslot.
  - intros w Hw. assert (w ∈ records W) as (g & i & ws & HW & Hin)%elem_of_records by (eapply survivors_records; eauto).
    destruct (lg_recs _ _ _ _ _ Y1 _ _ _ HW) as (_ & _ & _ & _ & _ & Hrs). now apply Hrs.
  - eapply survivors_NoDup; eauto.
  - intros id. rewrite Hslot, Hsc. change (shard_slot cfg id) with (shardIndex (mkStore cfg [] 0 0 0 0 0 0 false false ∅) id). now apply shardIndex_lt.
  - rewrite Hsc. assert (max_id d' < st_nextSeg (ran ops s0)); [|lia]. apply max_id_lt; [done|].
    pose proof (Hlt _ H0) as Hl0. destruct (lg_recs _ _ _ _ _ Y1 _ _ _ HW0) as (_ & Hu & _). unfold in_u64 in Hu. lia.
Qed.

(** C5: a power failure at any point of a history of writes, hydrations, truncations and
    commits loses no committed data.  Whatever the failure cuts off the segment files past
    what was fsynced, the store opens again, whatever the free space is then, and every
    file reads, at every offset, verified or not, exactly as it did after some prefix of
    the history that includes every commit of the file: no byte is torn, invented, or
    taken from a later write without the earlier ones.  The history stays under the local
    cap, the configured one or the one derived from the free space, so nothing is evicted;
    it has no deletions, cold seeding or collections, the background one included (see
    [collected_before_durable]); it does not truncate a file to more than an earlier
    truncation of it did; and the segment numbers do not run out. *)
Theorem crash_keeps_committed free cfg now age s0 ops d' free' now' age' :
  Open free cfg now age ∅ = inr s0 -> recoverable s0 ops ->
  Z.of_nat (ShardCount cfg) < 2 ^ 64 -> st_nextSeg (ran ops s0) + Z.of_nat (ShardCount (settings free cfg)) < 2 ^ 64 ->
  crashed (st_disk (ran ops s0)) d' ->
  exists s', Open free' cfg now' age' d' = inr s' /\
    forall id, exists ops1 ops2, ops = ops1 ++ ops2 /\ OpCommit id ∉ ops2 /\
      forall verify offset n, 0 <= offset -> 0 <= n -> offset + n < 2 ^ 63 ->
        store_ReadAt verify id offset n s' = store_ReadAt verify id offset n (ran ops1 s0).
Proof.
  intros E Hrec Hlt0 Hroom Hcr. destruct (settings_shards free cfg) as [Hpos Hlt]. specialize (Hlt Hlt0).
  destruct (settings_same free' free cfg) as [Hsc Hss]. unfold Open in *.
  set (cfg1 := settings free cfg) in *. set (cfg2 := settings free' cfg) in *. clearbody cfg1 cfg2. rename cfg1 into c.
  destruct (open_ready _ _ _ _ E Hpos Hlt) as (Hr & Hcfg & Hhole).
  destruct (open_starting _ _ _ _ E Hlt) as (Hst & Hl & HS). destruct (start_logged c s0 Hst Hl HS Hlt) as (W0 & L0 & HW0).
  assert (History s0 [] W0) as H0.
  { apply history_start; [done| |done]. intros id x. rewrite HW0, Hhole. right. split; [|done]. intros w Hw. now apply elem_of_nil in Hw. }
  destruct (history_all c s0 Hr Hcfg HS W0 ops H0 Hrec) as [W HY].
  destruct (reopens c cfg2 s0 ops W d' now' age' Hr Hcfg HS Hsc Hss (proj1 Hrec) HY Hcr Hroom) as (Hne & s' & Es & (Ec' & Ecl' & Hl' & Hix & Hshow)).
  exists s'. split.
  { unfold open_dir in *. rewrite Hsc, Hss. destruct (negb _); [done|]. destruct (_ <? _); [done|]. now rewrite bool_decide_false. }
  intros id. destruct (prefix_survives c s0 ops W d' id Hr Hcfg HS (ex_intro _ _ H0) Hrec HY) as (ops1 & ops2 & E1 & Hc & Hsame); [apply Hst|done|].
  exists ops1, ops2. split_and!; [done..|]. intros verify offset n Ho Hn Hon.
  assert (recoverable s0 ops1) as [Ha1 _] by (eapply recoverable_prefix; now rewrite <- E1). destruct (ran_ready ops1 s0 Hr Ha1) as [(HI1 & Hcl1 & _) _].
  rewrite (ReadAt_spec 0 (ran ops1 s0)) by done. rewrite ReadAt_index; [| |done..].
  - do 2 f_equal. apply map_ext. intros x. pose proof HY as [Y1 _ _ _ Y5 _].
    apply (Shows_fun (all_records d' (survivors d' W)) id x); [|apply Hshow|eapply Shows_ext; [exact Hsame|now apply (Y5 ops1 ops2)]].
    intros w w' Hw Hw'. eapply records_distinct; [exact Y1|eapply survivors_records; eauto..].
  - unfold shardFor, shard_at. destruct (lookup_lt_is_Some_2 (st_shards s') (shardIndex s' id)) as [sh Hsh].
    { rewrite Hl', <- Ec'. apply shardIndex_lt. rewrite Ec', Hsc. done. }
    rewrite Hsh, Ec'. now apply (Hix _ _ Hsh).
Qed.

(** ** An instance *)

(** A write that is committed, a truncation, and a write that is not. *)
Definition crash_ops : list op :=
  [OpWrite 6 demo_id 0 [1; 2; 3; 4]; OpTruncate 7 demo_id 3; OpHydrate 8 [99] 0 [5; 5]; OpCommit demo_id; OpWrite 9 demo_id 0 [8; 9]].

Lemma crash_ops_recoverable : recoverable demo_store crash_ops.
Proof.
  split_and!; [|reflexivity| |].
  - repeat (split; [split; [vm_compute; intuition congruence|split; vm_compute; reflexivity]|]). exact I.
  - intros id. unfold crash_ops, truncs. cbn. destruct (bool_decide (demo_id = id)); repeat constructor.
  - repeat (split; [try exact I; right; vm_compute; congruence|]). exact I.
Qed.

Lemma crash_keeps_committed_witness :
  (exists s', Open None demo_cfg 10 demo_age (crash (st_disk (ran crash_ops demo_store))) = inr s' /\
    exists ops1 ops2, crash_ops = ops1 ++ ops2 /\ OpCommit demo_id ∉ ops2 /\
      store_ReadAt true demo_id 0 4 s' = store_ReadAt true demo_id 0 4 (ran ops1 demo_store)) /\
  store_ReadAt true demo_id 0 4 (ran crash_ops demo_store) = inr ([8; 9; 3; 0], false).
Proof.
  split; [|vm_compute; reflexivity].
  destruct (crash_keeps_committed (Some 1000000) demo_cfg 5 demo_age demo_store crash_ops (crash (st_disk (ran crash_ops demo_store))) None 10 demo_age) as (s' & E & H).
  - reflexivity.
  - exact crash_ops_recoverable.
  - vm_compute. reflexivity.
  - vm_compute. reflexivity.
  - apply crash_crashed. apply (bool_decide_unpack _). vm_compute. exact I.
  - exists s'. split; [exact E|]. destruct (H demo_id) as (ops1 & ops2 & E1 & Hc & Hr). exists ops1, ops2. split; [exact E1|]. split; [exact Hc|].
    apply Hr; lia.
Defined.
