(* ===== verification/JournalExamples.v ===== *)
(** * The journal store: what it gets wrong

    Runs of the store, evaluated.  Segments are small here: [Open] asks for a mebibyte,
    which only makes the runs longer. *)

From S2P Require Import Prelude.
From S2P Require Import HoleMap.
From S2P Require Import JournalIndex.
From S2P Require Import JournalRecord.
From S2P Require Import JournalStore.
From S2P Require Import JournalReclaim.
From S2P Require Import JournalRecover.
From S2P Require Import JournalInv.
From S2P Require Import JournalSpec.
From S2P Require Import JournalCrash.

(** One shard, segments of 200 bytes, no local limit, collection from one half dead. *)
Definition small : Config := mkConfig 200 1 0 1 2.

Definition new_store (cfg : Config) : Store :=
  (staff 0 (replicate (ShardCount cfg) no_shard) [] (mkStore cfg [] 0 0 0 0 0 0 false false ∅)).2.

Definition after (ops : list op) : list (option JErr) * Store := run ops (new_store small).

Definition reopened (s : Store) : option Store :=
  match recover (st_cfg s) 0 (fun _ => 0) (crash (st_disk s)) with inr s => Some s | inl _ => None end.

Definition read_file (id : FileID) (offset n : Z) (s : Store) : option (list Z * bool) :=
  match store_ReadAt true id offset n s with inr r => Some r | inl _ => None end.

(** A read before the power failure and one after it. *)
Definition before_and_after (ops : list op) (id : FileID) (offset n : Z) : option (list Z * bool) * option (list Z * bool) :=
  let s := (after ops).2 in (read_file id offset n s, s' ← reopened s; read_file id offset n s').

Definition fileA : FileID := [65].
Definition fileB : FileID := [66].
Definition fileC : FileID := [67].

(** Recovery keeps only the last truncation of a file.  A file is cut to two bytes,
    grows again past a hole, and is cut in the hole: after a restart four of the bytes
    that were cut first are back, although everything was committed. *)
Example truncated_bytes_return :
  before_and_after
    [OpWrite 0 fileA 0 [1; 2; 3; 4; 5; 6; 7; 8; 9; 10]; OpTruncate 0 fileA 2; OpWrite 0 fileA 7 [77]; OpTruncate 0 fileA 6; OpCommit fileA]
    fileA 0 8 =
  (Some ([1; 2; 0; 0; 0; 0; 0; 0], false), Some ([1; 2; 3; 4; 5; 6; 0; 0], false)).
Proof. vm_compute. reflexivity. Qed.

(** Garbage collection drops a committed record as soon as a newer one supersedes it,
    although the newer one is not durable yet: after a power failure the file reads
    as neither. *)
Example collected_before_durable :
  before_and_after [OpWrite 0 fileA 0 (replicate 90 9); OpCommit fileA; OpWrite 0 fileA 0 (replicate 90 8); OpGC 0 false] fileA 0 3 =
  (Some ([8; 8; 8], false), Some ([0; 0; 0], false)).
Proof. vm_compute. reflexivity. Qed.

(** The segment a collection writes has no record count, so with no synced record in it
    it counts as synced whole: eviction drops it, and bytes that were never uploaded
    are left to be fetched from a remote that does not have them. *)
Example dirty_bytes_evicted :
  let ops := [OpWrite 0 fileA 0 (replicate 60 9); OpWrite 0 fileA 0 (replicate 30 7); OpGC 0 true] in
  read_file fileA 30 3 (after ops).2 = Some ([9; 9; 9], false) /\
  (after (ops ++ [OpEvict 0 0])).1 = [None; None; None; None] /\
  read_file fileA 30 3 (after (ops ++ [OpEvict 0 0])).2 = Some ([0; 0; 0], true).
Proof. vm_compute. auto. Qed.

(** A sealed segment with nothing but deletions in it counts as synced and empty and is
    dropped by the next deletion: after a restart a deleted file is back. *)
Example deleted_file_returns :
  let ops := [OpWrite 0 fileB 0 (replicate 90 9); OpDelete 0 fileB; OpDelete 0 fileC; OpDelete 0 fileC; OpDelete 0 fileC; OpDelete 0 fileC] in
  before_and_after ops fileB 0 3 = (Some ([0; 0; 0], false), Some ([9; 9; 9], false)).
Proof. vm_compute. reflexivity. Qed.

(** The disk use the capacity gate looks at leaves deletions and truncations out. *)
Example disk_use_undercounted :
  let s := (after [OpWrite 0 fileA 0 [1]; OpDelete 0 fileA; OpDelete 0 fileA; OpDelete 0 fileA; OpDelete 0 fileA]).2 in
  (st_diskBytes s, foldr Z.add 0 (map (fun p => Z.of_nat (length (fl_bytes p.2))) (map_to_list (st_disk s)))) = (163, 299).
Proof. vm_compute. reflexivity. Qed.

(** One damaged byte in the first record of a sealed segment makes the store impossible to
    open: recovery takes the first record of every sealed segment for granted. *)
Example unreadable_segment_fails_open :
  let d := st_disk (after [OpWrite 0 fileA 0 (replicate 90 9); OpWrite 0 fileA 0 (replicate 90 8); OpCommit fileA]).2 in
  match recover small 0 (fun _ => 0) d, recover small 0 (fun _ => 0) (write_file 0 70 [1] d) with
  | inr _, inl Panic => True
  | _, _ => False
  end.
Proof. vm_compute. exact I. Qed.

(** A power failure in the middle of the first record of a segment leaves its bytes in
    the file: recovery cuts torn tails off, but not those of a segment with no complete
    record, which it hands out again as empty.  The next records overwrite the front of
    the leftovers only; after another failure the scan reads on into them.  A payload
    that holds the bytes of a record (here a write of [66 66] to file B) then comes
    alive: B reads as if it had been written. *)
Definition smuggled : list Z := encodeRecord (data_header fileB 0 77 false [66; 66]) fileB [66; 66].

Definition cut_files (n : nat) (d : gmap Z File) : gmap Z File := (fun f => mkFile (take n (fl_bytes f)) n) <$> d.

Example leftovers_become_records :
  let s := (after [OpWrite 0 fileA 0 ([1; 1; 1; 1; 1] ++ smuggled)]).2 in
  let torn := cut_files 137 (st_disk s) in
  match recover small 0 (fun _ => 0) torn with
  | inl _ => False
  | inr s1 =>
      let s2 := (run [OpWrite 0 fileA 0 [7]; OpCommit fileA] s1).2 in
      read_file fileB 0 2 s1 = Some ([0; 0], false) /\ read_file fileB 0 2 s2 = Some ([0; 0], false) /\
      (s3 ← reopened s2; read_file fileA 0 1 s3) = Some ([7], false) /\
      (s3 ← reopened s2; read_file fileB 0 2 s3) = Some ([66; 66], false)
  end.
Proof. vm_compute. auto. Qed.
