(* ===== verification/MetaTypes.v ===== *)
(** * Metadata: data model ([pkg/metadata/file_types.go], [types.go],
    [auth_identity.go], [validation.go], [file_helpers.go],
    [errors/errors.go])

    Files and their attributes, file handles, identities and authentication
    contexts, share options, error codes, and the validation functions every
    namespace operation starts with.  Also the small state-and-error monad the
    service operations are written in: a Go function that returns [(T, error)]
    and mutates shared state of type [S] is a value of [M S T].

    UUIDs come from a third-party package: they are an interface ([UuidLib])
    whose law is the documented one, that parsing a printed UUID gives it back.
    Times are nanoseconds ([Z]); the zero time is 0.  Error messages are not
    modelled, only error codes. *)

From S2P Require Import Prelude.
From S2P Require Import AclTypes.
From S2P Require Import AclEvaluate.
From S2P Require Import HoleMap.

(** ** Errors *)

Inductive ErrorCode :=
  | ErrNotFound | ErrAccessDenied | ErrAuthRequired | ErrPermissionDenied
  | ErrAlreadyExists | ErrNotEmpty | ErrIsDirectory | ErrNotDirectory
  | ErrInvalidArgument | ErrIOError | ErrNoSpace | ErrQuotaExceeded
  | ErrReadOnly | ErrNotSupported | ErrInvalidHandle | ErrStaleHandle
  | ErrLocked | ErrLockNotFound | ErrPrivilegeRequired | ErrNameTooLong
  | ErrDeadlock | ErrGracePeriod | ErrLockLimitExceeded | ErrLockConflict
  | ErrConnectionLimitReached | ErrConflict.

(** What a call can end with besides a result: a [StoreError] with its code, an
    error of another type, or a run-time panic. *)
Inductive GoError :=
  | StoreError (c : ErrorCode)
  | PlainError
  | Panic.

#[export] Instance ErrorCode_eq_dec : EqDecision ErrorCode.
Proof. solve_decision. Defined.
#[export] Instance GoError_eq_dec : EqDecision GoError.
Proof. solve_decision. Defined.

Definition IsNotFoundError (e : GoError) : bool := bool_decide (e = StoreError ErrNotFound).

(** ** The state and error monad *)

Definition Result (A : Type) : Type := GoError + A.

Definition M (S A : Type) : Type := S -> Result A * S.

#[export] Instance M_ret S : MRet (M S) := fun A a s => (inr a, s).
#[export] Instance M_bind S : MBind (M S) := fun A B k m s =>
  match m s with
  | (inl e, s') => (inl e, s')
  | (inr a, s') => k a s'
  end.

Definition throw {S A} (e : GoError) : M S A := fun s => (inl e, s).
Definition fail {S A} (c : ErrorCode) : M S A := throw (StoreError c).
Definition gets {S A} (f : S -> A) : M S A := fun s => (inr (f s), s).
Definition modify {S} (f : S -> S) : M S unit := fun s => (inr tt, f s).

(** [_, err := call()]: the error becomes a value. *)
Definition attempt {S A} (m : M S A) : M S (Result A) := fun s =>
  let '(r, s') := m s in (inr r, s').

(** A pure fallible computation. *)
Definition lift {S A} (r : Result A) : M S A := fun s => (r, s).

(** [if c { return err }] *)
Definition check {S} (ok : bool) (c : ErrorCode) : M S unit := if ok then mret tt else fail c.

(** The result of a run and the state it leaves. *)
Definition result {S A} (m : M S A) (s : S) : Result A := (m s).1.
Definition after {S A} (m : M S A) (s : S) : S := (m s).2.

(** Inverting a successful run, one [bind] at a time. *)
Lemma bind_inv {S A B} (m : M S A) (k : A -> M S B) s b s' :
  (m ≫= k) s = (inr b, s') -> exists a s1, m s = (inr a, s1) /\ k a s1 = (inr b, s').
Proof. unfold mbind, M_bind. destruct (m s) as [[e|a] s1]; [discriminate|eauto]. Qed.

(** A failing [bind] failed in one of its halves. *)
Lemma bind_fail {S A B} (m : M S A) (k : A -> M S B) s e s' :
  (m ≫= k) s = (inl e, s') ->
  m s = (inl e, s') \/ exists a s1, m s = (inr a, s1) /\ k a s1 = (inl e, s').
Proof. unfold mbind, M_bind. destruct (m s) as [[e'|a] s1]; [injection 1 as <- <-|]; eauto. Qed.

Lemma check_inv {S} ok c (s s' : S) u : check ok c s = (inr u, s') -> ok = true /\ s' = s.
Proof. destruct ok; cbn; [injection 1 as <- <-; auto|discriminate]. Qed.

Lemma gets_inv {S A} (f : S -> A) s s' a : gets f s = (inr a, s') -> a = f s /\ s' = s.
Proof. injection 1 as <- <-. auto. Qed.

Lemma modify_inv {S} (f : S -> S) s s' u : modify f s = (inr u, s') -> s' = f s.
Proof. now injection 1 as _ <-. Qed.

Lemma lift_inv {S A} (r : Result A) (s s' : S) a : lift r s = (inr a, s') -> r = inr a /\ s' = s.
Proof. injection 1 as -> <-. auto. Qed.

Lemma ret_inv {S A} (a b : A) (s s' : S) : (mret a : M S A) s = (inr b, s') -> b = a /\ s' = s.
Proof. injection 1 as <- <-. auto. Qed.

Lemma attempt_inv {S A} (m : M S A) s s' r : attempt m s = (inr r, s') -> m s = (r, s').
Proof. unfold attempt. destruct (m s). now injection 1 as <- <-. Qed.

(** [mstep H]: one step of the successful run [H], naming what it binds. *)
Ltac mstep H :=
  match type of H with
  | (_ ≫= _) _ = (inr _, _) =>
      let a := fresh "a" in let s1 := fresh "s" in let H1 := fresh "H" in
      apply bind_inv in H as (a & s1 & H1 & H); mstep H1
  | check _ _ _ = _ => apply check_inv in H as [H ->]
  | gets _ _ = _ => apply gets_inv in H as [-> ->]
  | modify _ _ = _ => apply modify_inv in H as ->
  | lift _ _ = _ => apply lift_inv in H as [H ->]
  | mret _ _ = _ => apply ret_inv in H as [-> ->]
  | throw _ _ = (inr _, _) => discriminate H
  | fail _ _ = (inr _, _) => discriminate H
  | _ => idtac
  end.

(** ** UUIDs and file handles *)

Class UuidLib := {
  UUID : Type;
  UUID_eq_dec :: EqDecision UUID;
  uuid_String : UUID -> string;
  uuid_Parse : string -> option UUID;
  uuid_Nil : UUID;
}.

(** [uuid.Parse] accepts the form [UUID.String] prints. *)
Class UuidLaws (U : UuidLib) : Prop :=
  uuid_parse_string : forall id : UUID, uuid_Parse (uuid_String id) = Some id.

(** Handles are byte strings, used as map keys ([handleToKey]). *)
Definition FileHandle := string.

(** [strings.Index(s, sep)] for a one-byte separator, as the two parts around it. *)
Fixpoint cut_char (c : Ascii.ascii) (s : string) : option (string * string) :=
  match s with
  | EmptyString => None
  | String a s' =>
      if Ascii.eqb a c then Some (EmptyString, s')
      else '(p, q) ← cut_char c s'; Some (String a p, q)
  end.

(** The byte [':']. *)
Definition colon : Ascii.ascii := Ascii.ascii_of_N 58.

Definition maxHandleLen : nat := 64.

Section Handles.
Context `{U : UuidLib}.

Definition EncodeShareHandle (shareName : string) (id : UUID) : Result FileHandle :=
  let encoded := shareName +:+ ":" +:+ uuid_String id in
  if (maxHandleLen <? String.length encoded)%nat then inl PlainError else inr encoded.

Definition DecodeFileHandle (handle : FileHandle) : Result (string * UUID) :=
  match cut_char colon handle with
  | None => inl (StoreError ErrInvalidHandle)
  | Some (shareName, uuidStr) =>
      if String.eqb shareName "" then inl (StoreError ErrInvalidHandle)
      else match uuid_Parse uuidStr with
      | None => inl (StoreError ErrInvalidHandle)
      | Some id => inr (shareName, id)
      end
  end.

Definition shareNameForHandle (handle : FileHandle) : string :=
  match DecodeFileHandle handle with
  | inl _ => ""
  | inr (shareName, _) => shareName
  end.

(** [newID] is what [uuid.New()] returned. *)
Definition GenerateNewHandle (shareName : string) (newID : UUID) : Result FileHandle :=
  EncodeShareHandle shareName newID.
End Handles.

(** ** Files *)

Inductive FileType :=
  | FileTypeRegular | FileTypeDirectory | FileTypeSymlink | FileTypeBlockDevice
  | FileTypeCharDevice | FileTypeSocket | FileTypeFIFO.

#[export] Instance FileType_eq_dec : EqDecision FileType.
Proof. solve_decision. Defined.

Definition is_type (a b : FileType) : bool := bool_decide (a = b).

(** A 32-byte hash; [None] of [option] fields is Go's nil pointer. *)
Record FileAttr := mkFileAttr {
  fa_Type : FileType;
  fa_Mode : Z;
  fa_UID : Z;
  fa_GID : Z;
  fa_Nlink : Z;
  fa_Size : Z;
  fa_Atime : Z;
  fa_Mtime : Z;
  fa_Ctime : Z;
  fa_CreationTime : Z;
  fa_PayloadID : string;
  fa_LinkTarget : string;
  fa_Rdev : Z;
  fa_Hidden : bool;
  fa_ACL : option ACL;
  fa_EAs : gmap string (list Z);
  fa_IdempotencyToken : Z;
  fa_Blocks : list ChunkRef;
  fa_ObjectID : list Z;
  fa_DeletedAt : option Z;
  fa_OriginalPath : string;
  fa_DeletedBy : string;
}.

(** Field assignments [attr.F = v]. *)
Definition set_Type (v : FileType) (a : FileAttr) : FileAttr :=
  let '(mkFileAttr _ m u g n sz at_ mt ct cr p lt rd hd ac ea it bl ob da op db) := a in
  mkFileAttr v m u g n sz at_ mt ct cr p lt rd hd ac ea it bl ob da op db.
Definition set_Mode (v : Z) (a : FileAttr) : FileAttr :=
  let '(mkFileAttr ty _ u g n sz at_ mt ct cr p lt rd hd ac ea it bl ob da op db) := a in
  mkFileAttr ty v u g n sz at_ mt ct cr p lt rd hd ac ea it bl ob da op db.
Definition set_UID (v : Z) (a : FileAttr) : FileAttr :=
  let '(mkFileAttr ty m _ g n sz at_ mt ct cr p lt rd hd ac ea it bl ob da op db) := a in
  mkFileAttr ty m v g n sz at_ mt ct cr p lt rd hd ac ea it bl ob da op db.
Definition set_GID (v : Z) (a : FileAttr) : FileAttr :=
  let '(mkFileAttr ty m u _ n sz at_ mt ct cr p lt rd hd ac ea it bl ob da op db) := a in
  mkFileAttr ty m u v n sz at_ mt ct cr p lt rd hd ac ea it bl ob da op db.
Definition set_Nlink (v : Z) (a : FileAttr) : FileAttr :=
  let '(mkFileAttr ty m u g _ sz at_ mt ct cr p lt rd hd ac ea it bl ob da op db) := a in
  mkFileAttr ty m u g v sz at_ mt ct cr p lt rd hd ac ea it bl ob da op db.
Definition set_Size (v : Z) (a : FileAttr) : FileAttr :=
  let '(mkFileAttr ty m u g n _ at_ mt ct cr p lt rd hd ac ea it bl ob da op db) := a in
  mkFileAttr ty m u g n v at_ mt ct cr p lt rd hd ac ea it bl ob da op db.
Definition set_Atime (v : Z) (a : FileAttr) : FileAttr :=
  let '(mkFileAttr ty m u g n sz _ mt ct cr p lt rd hd ac ea it bl ob da op db) := a in
  mkFileAttr ty m u g n sz v mt ct cr p lt rd hd ac ea it bl ob da op db.
Definition set_Mtime (v : Z) (a : FileAttr) : FileAttr :=
  let '(mkFileAttr ty m u g n sz at_ _ ct cr p lt rd hd ac ea it bl ob da op db) := a in
  mkFileAttr ty m u g n sz at_ v ct cr p lt rd hd ac ea it bl ob da op db.
Definition set_Ctime (v : Z) (a : FileAttr) : FileAttr :=
  let '(mkFileAttr ty m u g n sz at_ mt _ cr p lt rd hd ac ea it bl ob da op db) := a in
  mkFileAttr ty m u g n sz at_ mt v cr p lt rd hd ac ea it bl ob da op db.
Definition set_CreationTime (v : Z) (a : FileAttr) : FileAttr :=
  let '(mkFileAttr ty m u g n sz at_ mt ct _ p lt rd hd ac ea it bl ob da op db) := a in
  mkFileAttr ty m u g n sz at_ mt ct v p lt rd hd ac ea it bl ob da op db.
Definition set_PayloadID (v : string) (a : FileAttr) : FileAttr :=
  let '(mkFileAttr ty m u g n sz at_ mt ct cr _ lt rd hd ac ea it bl ob da op db) := a in
  mkFileAttr ty m u g n sz at_ mt ct cr v lt rd hd ac ea it bl ob da op db.
Definition set_LinkTarget (v : string) (a : FileAttr) : FileAttr :=
  let '(mkFileAttr ty m u g n sz at_ mt ct cr p _ rd hd ac ea it bl ob da op db) := a in
  mkFileAttr ty m u g n sz at_ mt ct cr p v rd hd ac ea it bl ob da op db.
Definition set_Rdev (v : Z) (a : FileAttr) : FileAttr :=
  let '(mkFileAttr ty m u g n sz at_ mt ct cr p lt _ hd ac ea it bl ob da op db) := a in
  mkFileAttr ty m u g n sz at_ mt ct cr p lt v hd ac ea it bl ob da op db.
Definition set_Hidden (v : bool) (a : FileAttr) : FileAttr :=
  let '(mkFileAttr ty m u g n sz at_ mt ct cr p lt rd _ ac ea it bl ob da op db) := a in
  mkFileAttr ty m u g n sz at_ mt ct cr p lt rd v ac ea it bl ob da op db.
Definition set_ACL (v : option ACL) (a : FileAttr) : FileAttr :=
  let '(mkFileAttr ty m u g n sz at_ mt ct cr p lt rd hd _ ea it bl ob da op db) := a in
  mkFileAttr ty m u g n sz at_ mt ct cr p lt rd hd v ea it bl ob da op db.
Definition set_EAs (v : gmap string (list Z)) (a : FileAttr) : FileAttr :=
  let '(mkFileAttr ty m u g n sz at_ mt ct cr p lt rd hd ac _ it bl ob da op db) := a in
  mkFileAttr ty m u g n sz at_ mt ct cr p lt rd hd ac v it bl ob da op db.
Definition set_Blocks (v : list ChunkRef) (a : FileAttr) : FileAttr :=
  let '(mkFileAttr ty m u g n sz at_ mt ct cr p lt rd hd ac ea it _ ob da op db) := a in
  mkFileAttr ty m u g n sz at_ mt ct cr p lt rd hd ac ea it v ob da op db.
Definition set_ObjectID (v : list Z) (a : FileAttr) : FileAttr :=
  let '(mkFileAttr ty m u g n sz at_ mt ct cr p lt rd hd ac ea it bl _ da op db) := a in
  mkFileAttr ty m u g n sz at_ mt ct cr p lt rd hd ac ea it bl v da op db.
Definition set_trash (da : option Z) (op db : string) (a : FileAttr) : FileAttr :=
  let '(mkFileAttr ty m u g n sz at_ mt ct cr p lt rd hd ac ea it bl ob _ _ _) := a in
  mkFileAttr ty m u g n sz at_ mt ct cr p lt rd hd ac ea it bl ob da op db.

(** A file as the store returns it: identity and location with attributes. *)
Record File `{UuidLib} := mkFile {
  f_ID : UUID;
  f_ShareName : string;
  f_Path : string;
  f_Attr : FileAttr;
}.

Definition set_Attr `{UuidLib} (f : FileAttr -> FileAttr) (x : File) : File :=
  mkFile _ (f_ID x) (f_ShareName x) (f_Path x) (f (f_Attr x)).

Definition f_Type `{UuidLib} (f : File) : FileType := fa_Type (f_Attr f).

(** The deep copies of [clone.go] and [CopyFileAttr] detach the copy from the
    original; on values without sharing they are the identity, except that
    [CopyFileAttr] keeps only some fields and only the ACEs of an ACL. *)
Definition CopyFileAttr (a : FileAttr) : FileAttr :=
  mkFileAttr (fa_Type a) (fa_Mode a) (fa_UID a) (fa_GID a) (fa_Nlink a) (fa_Size a)
    (fa_Atime a) (fa_Mtime a) (fa_Ctime a) (fa_CreationTime a) (fa_PayloadID a)
    (fa_LinkTarget a) (fa_Rdev a) (fa_Hidden a)
    ((fun l => mkACL (acl_ACEs l) "" false false false None) <$> fa_ACL a)
    ∅ 0 [] [] None "" "".

(** ** Mode defaults, in octal in the source: 0755, 0777, 0644 *)

Definition DefaultMode (fileType : FileType) : Z :=
  match fileType with
  | FileTypeDirectory => 0x1ED
  | FileTypeSymlink => 0x1FF
  | _ => 0x1A4
  end.

(** 0o7777 and the four persistent DOS bits. *)
Definition modeMask : Z := 0xFFF .| 0x40000 .| 0x80000 .| 0x100000 .| 0x200000.

Definition dosAttributeModeBits : Z :=
  0x10000 .| 0x20000 .| 0x40000 .| 0x80000 .| 0x100000 .| 0x200000.

Definition ModeSticky : Z := 0x200.
Definition ModeSetgid : Z := 0x400.
Definition ModeSetuid : Z := 0x800.

Definition ApplyModeDefault (mode : Z) (fileType : FileType) : Z :=
  let mode := if mode =? 0 then DefaultMode fileType else mode in
  mode .& modeMask.

(** ** Paths, names, device numbers *)

Definition MaxNameLen : nat := 255.
Definition MaxPathLen : nat := 4096.

(** [strings.ContainsAny(name, "/\x00")] *)
Fixpoint contains_slash_nul (s : string) : bool :=
  match s with
  | EmptyString => false
  | String a s' =>
      Ascii.eqb a (Ascii.ascii_of_N 47) || Ascii.eqb a (Ascii.ascii_of_N 0) || contains_slash_nul s'
  end.

Definition ValidateName (name : string) : Result unit :=
  if String.eqb name "" || String.eqb name "." || String.eqb name ".." || contains_slash_nul name
  then inl (StoreError ErrInvalidArgument)
  else if (MaxNameLen <? String.length name)%nat then inl (StoreError ErrNameTooLong)
  else inr tt.

Definition ValidatePath (path : string) : Result unit :=
  if (MaxPathLen <? String.length path)%nat then inl (StoreError ErrNameTooLong) else inr tt.

Definition ValidateCreateType (fileType : FileType) : Result unit :=
  if negb (is_type fileType FileTypeRegular) && negb (is_type fileType FileTypeDirectory)
  then inl (StoreError ErrInvalidArgument) else inr tt.

Definition ValidateSpecialFileType (fileType : FileType) : Result unit :=
  match fileType with
  | FileTypeBlockDevice | FileTypeCharDevice | FileTypeSocket | FileTypeFIFO => inr tt
  | _ => inl (StoreError ErrInvalidArgument)
  end.

Definition ValidateSymlinkTarget (target : string) : Result unit :=
  if String.eqb target "" then inl (StoreError ErrInvalidArgument) else inr tt.

(** [strings.ReplaceAll(target, "\\", "/")] *)
Fixpoint replace_backslash (s : string) : string :=
  match s with
  | EmptyString => EmptyString
  | String a s' =>
      String (if Ascii.eqb a (Ascii.ascii_of_N 92) then Ascii.ascii_of_N 47 else a)
             (replace_backslash s')
  end.

(** [strings.Split(s, "/")] *)
Fixpoint split_slash (s : string) : list string :=
  match s with
  | EmptyString => [""%string]
  | String a s' =>
      if Ascii.eqb a (Ascii.ascii_of_N 47) then ""%string :: split_slash s'
      else match split_slash s' with
           | [] => [String a EmptyString]
           | c :: cs => String a c :: cs
           end
  end.

Definition has_prefix (p s : string) : bool :=
  match cut_prefix p s with Some _ => true | None => false end.

Definition trim_prefix (p s : string) : string :=
  match cut_prefix p s with Some r => r | None => s end.

Definition ValidateMFsymlinkTarget (target : string) : Result unit :=
  match ValidateSymlinkTarget target with
  | inl e => inl e
  | inr _ =>
      if has_prefix "/" target then inl (StoreError ErrInvalidArgument)
      else if existsb (fun c => String.eqb c "..") (split_slash (replace_backslash target))
      then inl (StoreError ErrInvalidArgument)
      else inr tt
  end.

Definition buildPath (parentPath childName : string) : string :=
  if String.eqb parentPath "/" then "/" +:+ childName
  else parentPath +:+ "/" +:+ childName.

Definition buildPayloadID `{UuidLib} (shareName : string) (id : UUID) : string :=
  trim_prefix "/" shareName +:+ "/" +:+ uuid_String id.

Definition BuildPayloadID (shareName fullPath : string) : string :=
  let share := trim_prefix "/" shareName in
  let path := trim_prefix "/" fullPath in
  if String.eqb share "" then path
  else if String.eqb path "" then share
  else share +:+ "/" +:+ path.

Definition MakeRdev (major minor : Z) : Z :=
  u64 (Z.shiftl major 20) .| (minor .& 0xFFFFF).
Definition RdevMajor (rdev : Z) : Z := u32 (Z.shiftr rdev 20).
Definition RdevMinor (rdev : Z) : Z := u32 (rdev .& 0xFFFFF).

Definition GetInitialLinkCount (fileType : FileType) : Z :=
  if is_type fileType FileTypeDirectory then 2 else 1.

(** ** Identities and authentication contexts *)

Record Identity := mkIdentity {
  id_UID : option Z;
  id_GID : option Z;
  id_GIDs : list Z;
  id_SID : option string;
  id_GroupSIDs : list string;
  id_Username : string;
  id_Domain : string;
}.

(** The fields of [AuthContext] the metadata layer reads. *)
Record AuthContext := mkAuthContext {
  ac_AuthMethod : string;
  ac_Identity : option Identity;
  ac_ClientAddr : string;
  ac_ShareReadOnly : bool;
  ac_WriteAuthorizedByHandle : bool;
  ac_HasDeleteAccess : bool;
  ac_BypassTraverseChecking : bool;
}.

Definition NewSystemAuthContext : AuthContext :=
  mkAuthContext "system" (Some (mkIdentity (Some 0) (Some 0) [] None [] "root" "")) "internal"
    false true false false.

(** [gidSet] caches [GIDs]; the cached lookup answers as the list does. *)
Definition HasGID (i : Identity) (gid : Z) : bool := contains_Z gid (id_GIDs i).

(** [ctx.Identity != nil && ctx.Identity.UID != nil], with the UID. *)
Definition caller_UID (c : AuthContext) : option Z := i ← ac_Identity c; id_UID i.
Definition is_root (c : AuthContext) : bool :=
  match caller_UID c with Some u => u =? 0 | None => false end.

Record IdentityMapping := mkIdentityMapping {
  im_MapAllToAnonymous : bool;
  im_MapPrivilegedToAnonymous : bool;
  im_AnonymousUID : option Z;
  im_AnonymousGID : option Z;
  im_AnonymousSID : option string;
}.

Record ShareOptions := mkShareOptions {
  so_ReadOnly : bool;
  so_Async : bool;
  so_AllowedClients : list string;
  so_DeniedClients : list string;
  so_RequireAuth : bool;
  so_AllowedAuthMethods : list string;
  so_IdentityMapping : option IdentityMapping;
}.

Definition RequiresRoot (c : AuthContext) : Result unit :=
  match caller_UID c with
  | Some u => if u =? 0 then inr tt else inl (StoreError ErrPrivilegeRequired)
  | None => inl (StoreError ErrPrivilegeRequired)
  end.

Definition ApplyOwnerDefaults (attr : FileAttr) (c : AuthContext) : FileAttr :=
  match ac_Identity c with
  | Some i =>
      match id_UID i with
      | Some uid =>
          let attr := if fa_UID attr =? 0 then set_UID uid attr else attr in
          match id_GID i with
          | Some gid => if fa_GID attr =? 0 then set_GID gid attr else attr
          | None => attr
          end
      | None => attr
      end
  | None => attr
  end.

(** [now] is what [time.Now()] returned. *)
Definition ApplyCreateDefaults (attr : FileAttr) (linkTarget : string) (now : Z) : FileAttr :=
  let attr := set_Mode (ApplyModeDefault (fa_Mode attr) (fa_Type attr)) attr in
  let attr := set_Atime now attr in
  let attr := set_Mtime now attr in
  let attr := set_Ctime now attr in
  let attr := set_CreationTime now attr in
  if is_type (fa_Type attr) FileTypeSymlink
  then set_Size (Z.of_nat (String.length linkTarget)) attr
  else set_Size 0 attr.

(** ** Handles decode to what they encode *)

(** A share name a handle can carry: [DecodeFileHandle] cuts at the first colon. *)
Definition share_ok (shareName : string) : Prop :=
  shareName <> EmptyString /\ cut_char colon shareName = None.

Lemma cut_char_app c s t :
  cut_char c s = None -> cut_char c (s +:+ String c t) = Some (s, t).
Proof.
  induction s as [|a s IH]; unfold String.app; cbn -[Ascii.eqb]; fold String.app.
  - now rewrite Ascii.eqb_refl.
  - destruct (Ascii.eqb a c); [discriminate|].
    destruct (cut_char c s) as [[]|]; [discriminate|]. intros _.
    change (cut_char c (s +:+ String c t) ≫= (fun '(p, q) => Some (String a p, q)) =
            Some (String a s, t)).
    now rewrite IH.
Qed.

Section HandleFacts.
Context `{L : UuidLaws}.

Lemma EncodeShareHandle_inv shareName id h :
  EncodeShareHandle shareName id = inr h -> h = shareName +:+ ":" +:+ uuid_String id.
Proof. unfold EncodeShareHandle. now destruct (_ <? _)%nat; [discriminate|injection 1]. Qed.

Lemma decode_encoded shareName id h :
  share_ok shareName -> EncodeShareHandle shareName id = inr h ->
  DecodeFileHandle h = inr (shareName, id).
Proof.
  intros [Hne Hc] Henc. apply EncodeShareHandle_inv in Henc as ->.
  change (shareName +:+ ":" +:+ uuid_String id) with (shareName +:+ String colon (uuid_String id)).
  unfold DecodeFileHandle. rewrite cut_char_app by done.
  rewrite (proj2 (String.eqb_neq _ _) Hne), uuid_parse_string. reflexivity.
Qed.
End HandleFacts.

(** A UUID package that prints and parses strings as they are. *)
Definition string_uuids : UuidLib :=
  {| UUID := string; UUID_eq_dec := String.string_dec; uuid_String := id; uuid_Parse := Some;
     uuid_Nil := EmptyString |}.

#[export] Instance string_uuids_laws : UuidLaws string_uuids.
Proof. intros id. reflexivity. Qed.

(** ** Names that pass validation *)

Lemma contains_slash_nul_app s t :
  contains_slash_nul (s +:+ t) = contains_slash_nul s || contains_slash_nul t.
Proof.
  induction s as [|a s IH]; [done|].
  change (contains_slash_nul (String a s +:+ t)) with
    (Ascii.eqb a (Ascii.ascii_of_N 47) || Ascii.eqb a (Ascii.ascii_of_N 0) ||
     contains_slash_nul (s +:+ t)).
  cbn -[Ascii.eqb]. now rewrite IH, !orb_assoc.
Qed.

Lemma ValidateName_ok name :
  ValidateName name = inr tt ->
  name <> "" /\ name <> "." /\ name <> ".." /\ contains_slash_nul name = false /\
  (String.length name <= 255)%nat.
Proof.
  unfold ValidateName, MaxNameLen. intros H.
  destruct (String.eqb_spec name ""), (String.eqb_spec name "."), (String.eqb_spec name "..");
    cbn [orb] in H; try discriminate.
  destruct (contains_slash_nul name); [discriminate|].
  destruct (Nat.ltb_spec 255 (String.length name)); [discriminate|auto with lia].
Qed.
