(* ===== verification/Permissions.v ===== *)
(** * Access decisions ([pkg/metadata/auth_permissions.go], [auth_identity.go],
    [validation.go])

    Share access lists hold addresses and CIDR ranges.  The parsing the Go
    standard library does for them ([net.ParseIP], [net.ParseCIDR],
    [IPNet.Contains], [net.SplitHostPort]) is written out first, for the two address
    families; an address is a number and its width.

    Three gates decide what a caller may do.  [CheckShareAccess] admits a client
    to a share and squashes its identity; [checkFilePermissionsFile] and
    [CheckParentCreateAccessFile] answer POSIX-style permission requests from
    mode bits or from the ACL; [CheckFileAccessWithParentGeneric] answers a
    Windows desired-access mask at open.  Every function is translated with the
    loaded file and the share options the store returned for it ([None] when the
    lookup failed); the store accesses around them are in the service files. *)

From S2P Require Import Prelude.
From S2P Require Import AclTypes.
From S2P Require Import AclEvaluate.
From S2P Require Import MetaTypes.

(** A parsed address: the family and its value, of 32 or 128 bits. *)
Inductive Addr := IPv4 (v : Z) | IPv6 (v : Z).

(** *** IPv4: four decimal fields, 0 to 255, no leading zeros *)

Definition dot : Ascii.ascii := Ascii.ascii_of_N 46.
Definition slash : Ascii.ascii := Ascii.ascii_of_N 47.

Fixpoint split_on (c : Ascii.ascii) (s : string) : list string :=
  match s with
  | EmptyString => [""%string]
  | String a s' =>
      if Ascii.eqb a c then ""%string :: split_on c s'
      else match split_on c s' with
           | [] => [String a EmptyString]
           | f :: fs => String a f :: fs
           end
  end.

Definition octet (s : string) : option Z :=
  match s with
  | String a (String _ _) => if Ascii.eqb a (Ascii.ascii_of_N 48) then None else parse_uint s 8
  | _ => parse_uint s 8
  end.

Definition parse_octets (fs : list string) : option Z :=
  match mapM octet fs with
  | Some [a; b; c; d] => Some (((a * 256 + b) * 256 + c) * 256 + d)
  | _ => None
  end.

Definition parseIPv4 (s : string) : option Z := parse_octets (split_on dot s).

(** *** IPv6: groups of one to four hex digits, one "::", an IPv4 tail *)

Definition hex_digit (a : Ascii.ascii) : option Z :=
  let n := Z.of_N (Ascii.N_of_ascii a) in
  if (48 <=? n) && (n <=? 57) then Some (n - 48)
  else if (97 <=? n) && (n <=? 102) then Some (n - 87)
  else if (65 <=? n) && (n <=? 70) then Some (n - 55)
  else None.

Fixpoint hex_value (s : string) (acc : Z) : option Z :=
  match s with
  | EmptyString => Some acc
  | String a s' => d ← hex_digit a; hex_value s' (acc * 16 + d)
  end.

Definition hex_group (s : string) : option Z :=
  if (String.length s =? 0)%nat || (4 <? String.length s)%nat then None else hex_value s 0.

(** The 16-bit groups of colon-separated fields, the last of which may be IPv4. *)
Fixpoint groups (fs : list string) : option (list Z) :=
  match fs with
  | [] => Some []
  | [f] =>
      match cut_char dot f with
      | Some _ => v ← parseIPv4 f; Some [Z.shiftr v 16; v .& 0xFFFF]
      | None => g ← hex_group f; Some [g]
      end
  | f :: fs => g ← hex_group f; gs ← groups fs; Some (g :: gs)
  end.

Definition groups_value (gs : list Z) : Z := fold_left (fun acc g => acc * 65536 + g) gs 0.

(** The text around the first "::". *)
Fixpoint cut_double_colon (s : string) : option (string * string) :=
  match s with
  | String a s' =>
      match s' with
      | String b r =>
          if Ascii.eqb a colon && Ascii.eqb b colon then Some (EmptyString, r)
          else '(p, q) ← cut_double_colon s'; Some (String a p, q)
      | EmptyString => None
      end
  | EmptyString => None
  end.

Definition fields_of (s : string) : option (list Z) :=
  if String.eqb s "" then Some [] else groups (split_on colon s).

Definition parseIPv6 (s : string) : option Z :=
  match cut_double_colon s with
  | Some (l, r) =>
      gl ← (if String.eqb l "" then Some []
            else match cut_char dot l with Some _ => None | None => groups (split_on colon l) end);
      gr ← fields_of r;
      if (length gl + length gr <? 8)%nat
      then Some (groups_value (gl ++ replicate (8 - length gl - length gr) 0 ++ gr))
      else None
  | None =>
      gs ← groups (split_on colon s);
      if (length gs =? 8)%nat then Some (groups_value gs) else None
  end.

(** The family is decided by the first dot or colon ([netip.ParseAddr]); an
    address with a zone is refused by both callers. *)
Fixpoint first_of (s : string) : option Ascii.ascii :=
  match s with
  | EmptyString => None
  | String a s' =>
      if Ascii.eqb a dot || Ascii.eqb a colon || Ascii.eqb a (Ascii.ascii_of_N 37) then Some a
      else first_of s'
  end.

Definition ParseAddr (s : string) : option Addr :=
  match first_of s with
  | Some a =>
      if Ascii.eqb a dot then IPv4 <$> parseIPv4 s
      else if Ascii.eqb a colon then IPv6 <$> parseIPv6 s
      else None
  | None => None
  end.

(** [To4]: an IPv4 address, or an IPv6 address in ::ffff:0:0/96. *)
Definition To4 (a : Addr) : option Z :=
  match a with
  | IPv4 v => Some v
  | IPv6 v => if Z.shiftr v 32 =? 0xFFFF then Some (v .& 0xFFFFFFFF) else None
  end.

(** ** CIDR ranges *)

(** A network: its address (of 32 or 128 bits) and its prefix length. *)
Record IPNet := mkIPNet { net_wide : bool; net_addr : Z; net_len : Z }.

Definition ParseCIDR (s : string) : option IPNet :=
  '(addr, mask) ← cut_char slash s;
  a ← ParseAddr addr;
  n ← parse_uint mask 31;
  match a with
  | IPv4 v => if n <=? 32 then Some (mkIPNet false v n) else None
  | IPv6 v => if n <=? 128 then Some (mkIPNet true v n) else None
  end.

(** The leading [n] of [w] bits agree. *)
Definition same_prefix (w n x y : Z) : bool := Z.shiftr x (w - n) =? Z.shiftr y (w - n).

(** [IPNet.Contains]: an IPv4 client is compared as 32 bits with a network whose
    own address is IPv4 or IPv4-mapped (its mask cut to the last 32 bits), an
    IPv6 client as 128 bits with the others. *)
Definition Contains (n : IPNet) (a : Addr) : bool :=
  if net_wide n then
    let masked := Z.shiftl (Z.shiftr (net_addr n) (128 - net_len n)) (128 - net_len n) in
    match To4 (IPv6 masked), To4 a with
    | Some m4, Some v => same_prefix 32 (Z.max 0 (net_len n - 96)) m4 v
    | None, None => match a with IPv6 v => same_prefix 128 (net_len n) masked v | _ => false end
    | _, _ => false
    end
  else match To4 a with
    | Some v => same_prefix 32 (net_len n) (net_addr n) v
    | None => false
    end.

Definition MatchesIPPattern (clientIP pattern : string) : bool :=
  match ParseCIDR pattern with
  | Some ipNet =>
      match ParseAddr clientIP with
      | Some ip => Contains ipNet ip
      | None => false
      end
  | None => String.eqb clientIP pattern
  end.

Example cidr_v4 : MatchesIPPattern "10.1.2.3" "10.0.0.0/8" = true.
Proof. vm_compute. reflexivity. Qed.
Example cidr_v6 : MatchesIPPattern "2001:db8::17" "2001:db8::/32" = true.
Proof. vm_compute. reflexivity. Qed.
Example cidr_mapped : MatchesIPPattern "::ffff:10.1.2.3" "10.0.0.0/8" = true.
Proof. vm_compute. reflexivity. Qed.

(** An IPv4 client is in an IPv4 range exactly when its leading bits are the range's. *)
Lemma MatchesIPPattern_cidr4 client pattern v net n :
  ParseAddr client = Some (IPv4 v) -> ParseCIDR pattern = Some (mkIPNet false net n) -> 0 <= n <= 32 ->
  MatchesIPPattern client pattern = true <->
  forall i, 32 - n <= i -> Z.testbit v i = Z.testbit net i.
Proof.
  intros Hc Hp Hn. unfold MatchesIPPattern. rewrite Hp, Hc. cbn. unfold same_prefix.
  rewrite Z.eqb_eq. split.
  - intros H i Hi. replace i with ((i - (32 - n)) + (32 - n)) by lia.
    rewrite <- !Z.shiftr_spec by lia. congruence.
  - intros H. apply Z.bits_inj'. intros i Hi. rewrite !Z.shiftr_spec by lia.
    symmetry. apply H. lia.
Qed.

(** A pattern that is not a CIDR range matches only itself. *)
Lemma MatchesIPPattern_exact client pattern :
  ParseCIDR pattern = None -> MatchesIPPattern client pattern = String.eqb client pattern.
Proof. intros H. unfold MatchesIPPattern. now rewrite H. Qed.

(** ** Identity mapping *)

Definition IsAdministratorSID (sid : string) : bool :=
  if String.eqb sid "" then false
  else if String.eqb sid "S-1-5-32-544" then true
  else domainAdminSIDPattern sid.

Definition ApplyIdentityMapping (identity : Identity) (mapping : option IdentityMapping) : Identity :=
  match mapping with
  | None => identity
  | Some m =>
      if im_MapAllToAnonymous m then
        mkIdentity (im_AnonymousUID m) (im_AnonymousGID m) [] (im_AnonymousSID m) [] "" ""
      else if im_MapPrivilegedToAnonymous m then
        let r := identity in
        let r :=
          match id_UID r with
          | Some 0 =>
              mkIdentity (im_AnonymousUID m) (im_AnonymousGID m) [] (id_SID r) (id_GroupSIDs r)
                (id_Username r) (id_Domain r)
          | _ => r
          end in
        match id_SID r with
        | Some sid =>
            if IsAdministratorSID sid then
              mkIdentity (id_UID r) (id_GID r) (id_GIDs r) (im_AnonymousSID m) []
                (id_Username r) (id_Domain r)
            else r
        | None => r
        end
      else identity
  end.

(** ** Share access *)

Record AccessDecision := mkAccessDecision {
  ad_Allowed : bool;
  ad_AllowedAuthMethods : list string;
  ad_ReadOnly : bool;
}.

Definition refused : AccessDecision := mkAccessDecision false [] false.

(** [net.SplitHostPort], the host only; [None] is its error. *)
Fixpoint cut_last_colon (s : string) : option (string * string) :=
  match s with
  | EmptyString => None
  | String a s' =>
      match cut_last_colon s' with
      | Some (p, q) => Some (String a p, q)
      | None => if Ascii.eqb a colon then Some (EmptyString, s') else None
      end
  end.

Definition lbracket : Ascii.ascii := Ascii.ascii_of_N 91.
Definition rbracket : Ascii.ascii := Ascii.ascii_of_N 93.

Definition has_char (c : Ascii.ascii) (s : string) : bool :=
  match cut_char c s with Some _ => true | None => false end.

Definition SplitHost (hostport : string) : option string :=
  '(before, port) ← cut_last_colon hostport;
  match hostport with
  | String a rest =>
      if Ascii.eqb a lbracket then
        '(host, tail) ← cut_char rbracket rest;
        match tail with
        | String c port' =>
            if Ascii.eqb c colon && negb (has_char colon port') &&
               negb (has_char lbracket rest) && negb (has_char rbracket tail)
            then Some host else None
        | EmptyString => None
        end
      else if has_char colon before || has_char lbracket hostport || has_char rbracket hostport
      then None else Some before
  | EmptyString => None
  end.

(** The decision, and the context of an admitted client. *)
Definition CheckShareAccess (opts : ShareOptions) (clientAddr authMethod : string)
    (identity : option Identity) : AccessDecision * option AuthContext :=
  let clientAddr := match SplitHost clientAddr with Some h => h | None => clientAddr end in
  if so_RequireAuth opts && String.eqb authMethod "anonymous" then (refused, None)
  else if match so_AllowedAuthMethods opts with
          | [] => false
          | ms => negb (existsb (String.eqb authMethod) ms)
          end
  then (mkAccessDecision false (so_AllowedAuthMethods opts) false, None)
  else if existsb (MatchesIPPattern clientAddr) (so_DeniedClients opts) then (refused, None)
  else if match so_AllowedClients opts with
          | [] => false
          | cs => negb (existsb (MatchesIPPattern clientAddr) cs)
          end
  then (refused, None)
  else
    let effective := (fun i => ApplyIdentityMapping i (so_IdentityMapping opts)) <$> identity in
    (mkAccessDecision true (so_AllowedAuthMethods opts) (so_ReadOnly opts),
     Some (mkAuthContext authMethod effective clientAddr false false false false)).

(** ** Permission flags *)

Definition PermissionRead : Z := 1.
Definition PermissionWrite : Z := 2.
Definition PermissionExecute : Z := 4.
Definition PermissionDelete : Z := 8.
Definition PermissionListDirectory : Z := 16.
Definition PermissionTraverse : Z := 32.
Definition PermissionChangePermissions : Z := 64.
Definition PermissionChangeOwnership : Z := 128.

Definition CalculatePermissionsFromBits (bits : Z) : Z :=
  let granted := 0 in
  let granted := or_if (has bits 0x4) (PermissionRead .| PermissionListDirectory) granted in
  let granted := or_if (has bits 0x2) (PermissionWrite .| PermissionDelete) granted in
  or_if (has bits 0x1) (PermissionExecute .| PermissionTraverse) granted.

Definition CheckOtherPermissions (mode requested : Z) : Z :=
  CalculatePermissionsFromBits (mode .& 0x7) .& requested.

(** [shareOpts != nil && shareOpts.ReadOnly] *)
Definition opts_read_only (shareOpts : option ShareOptions) : bool :=
  match shareOpts with Some o => so_ReadOnly o | None => false end.

(** ** ACL evaluation contexts *)

Definition anonymousContext (gid : Z) : EvaluateContext :=
  mkEvaluateContext "" 0 0 [] AnonymousFileOwnerUID gid "" [] false.

Definition who_of (i : Identity) : string :=
  if negb (String.eqb (id_Username i) "") && negb (String.eqb (id_Domain i) "")
  then id_Username i +:+ "@" +:+ id_Domain i
  else if negb (String.eqb (id_Username i) "") then id_Username i
  else "".

Definition identityContext (attr : FileAttr) (i : Identity) (uid : Z) : EvaluateContext :=
  let sid := default "" (id_SID i) in
  mkEvaluateContext (who_of i) uid (default 0 (id_GID i)) (id_GIDs i) (fa_UID attr) (fa_GID attr)
    sid (id_GroupSIDs i) (HasTakeOwnershipPrivilege sid (id_GroupSIDs i)).

Definition buildFileAccessEvalContext (attr : FileAttr) (authCtx : option AuthContext)
    : EvaluateContext :=
  match c ← authCtx; i ← ac_Identity c; uid ← id_UID i; Some (i, uid) with
  | None => anonymousContext (fa_GID attr)
  | Some (i, uid) => identityContext attr i uid
  end.

(** ** Mode bits and ACLs to permission flags *)

Definition permToACLMask : list (Z * Z) :=
  [ (PermissionRead, ACE4_READ_DATA);
    (PermissionWrite, ACE4_WRITE_DATA .| ACE4_APPEND_DATA);
    (PermissionExecute, ACE4_EXECUTE);
    (PermissionDelete, ACE4_DELETE);
    (PermissionListDirectory, ACE4_READ_DATA);
    (PermissionTraverse, ACE4_EXECUTE);
    (PermissionChangePermissions, ACE4_WRITE_ACL);
    (PermissionChangeOwnership, ACE4_WRITE_OWNER) ].

Definition evaluateWithACL (fileACL : option ACL) (evalCtx : EvaluateContext) (requested : Z)
    (shareOpts : option ShareOptions) : Z :=
  let granted :=
    fold_left (fun granted pm =>
      or_if (has requested pm.1 && Evaluate fileACL evalCtx pm.2) pm.1 granted)
      permToACLMask 0 in
  let granted :=
    if opts_read_only shareOpts then granted .&^ (PermissionWrite .| PermissionDelete)
    else granted in
  granted .& requested.

Definition rootPermissions (shareOpts : option ShareOptions) (requested : Z) : Z :=
  if opts_read_only shareOpts then requested .&^ (PermissionWrite .| PermissionDelete)
  else requested.

Definition evaluateACLPermissions (attr : FileAttr) (identity : option Identity)
    (shareOpts : option ShareOptions) (requested : Z) : Z :=
  match i ← identity; uid ← id_UID i; Some (i, uid) with
  | None => evaluateWithACL (fa_ACL attr) (anonymousContext (fa_GID attr)) requested shareOpts
  | Some (i, uid) =>
      if uid =? 0 then rootPermissions shareOpts requested
      else evaluateWithACL (fa_ACL attr) (identityContext attr i uid) requested shareOpts
  end.

(** The owner, group or other bits that apply to a caller. *)
Definition classBits (attr : FileAttr) (i : Identity) (uid : Z) : Z :=
  if uid =? fa_UID attr then Z.shiftr (fa_Mode attr) 6 .& 0x7
  else if match id_GID i with
          | Some gid => (gid =? fa_GID attr) || HasGID i (fa_GID attr)
          | None => false
          end
  then Z.shiftr (fa_Mode attr) 3 .& 0x7
  else fa_Mode attr .& 0x7.

Definition modeDOSReadonly : Z := 0x100000.

Definition calculatePermissions (attr : FileAttr) (identity : option Identity)
    (shareOpts : option ShareOptions) (requested : Z) : Z :=
  match fa_ACL attr with
  | Some _ => evaluateACLPermissions attr identity shareOpts requested
  | None =>
      match i ← identity; uid ← id_UID i; Some (i, uid) with
      | None => CheckOtherPermissions (fa_Mode attr) requested
      | Some (i, uid) =>
          if uid =? 0 then rootPermissions shareOpts requested
          else
            let permBits := classBits attr i uid in
            let permBits := if has (fa_Mode attr) modeDOSReadonly then permBits .&^ 0x2 else permBits in
            let granted := CalculatePermissionsFromBits permBits in
            let granted := or_if (uid =? fa_UID attr)
              (PermissionChangePermissions .| PermissionChangeOwnership) granted in
            let granted :=
              if opts_read_only shareOpts then granted .&^ (PermissionWrite .| PermissionDelete)
              else granted in
            granted .& requested
      end
  end.

Definition checkFilePermissionsFile (ctx : AuthContext) (attr : FileAttr)
    (shareOpts : option ShareOptions) (requested : Z) : Z :=
  let writePerms := requested .& (PermissionWrite .| PermissionDelete) in
  if ac_WriteAuthorizedByHandle ctx && negb (ac_ShareReadOnly ctx) &&
     negb (opts_read_only shareOpts) && negb (HasExplicitDeny (fa_ACL attr)) &&
     negb (writePerms =? 0)
  then writePerms
  else
    let granted := calculatePermissions attr (ac_Identity ctx) shareOpts requested in
    if ac_ShareReadOnly ctx then granted .&^ (PermissionWrite .| PermissionDelete) else granted.

(** [shareIsReadOnly] is evaluated by the caller from the store. *)
Definition permissionResult (shareIsReadOnly : bool) (granted perm : Z) : Result unit :=
  if granted .& perm =? 0 then
    if has perm (PermissionWrite .| PermissionDelete) && shareIsReadOnly
    then inl (StoreError ErrReadOnly)
    else inl (StoreError ErrAccessDenied)
  else inr tt.

Definition checkPermissionFile (ctx : AuthContext) (attr : FileAttr)
    (shareOpts : option ShareOptions) (shareIsReadOnly : bool) (perm : Z) : Result unit :=
  permissionResult shareIsReadOnly (checkFilePermissionsFile ctx attr shareOpts perm) perm.

(** ** Creating an entry in a directory *)

Definition ACE4_ADD_FILE : Z := ACE4_WRITE_DATA.
Definition ACE4_ADD_SUBDIRECTORY : Z := ACE4_APPEND_DATA.

Definition CheckParentCreateAccessFile (ctx : AuthContext) (attr : FileAttr)
    (shareOpts : option ShareOptions) (shareIsReadOnly isDirectory : bool) : Result unit :=
  match fa_ACL attr with
  | None => checkPermissionFile ctx attr shareOpts shareIsReadOnly PermissionWrite
  | Some _ =>
      if ac_ShareReadOnly ctx || opts_read_only shareOpts then
        if opts_read_only shareOpts then inl (StoreError ErrReadOnly)
        else inl (StoreError ErrAccessDenied)
      else if is_root ctx then inr tt
      else
        let mask := if isDirectory then ACE4_ADD_SUBDIRECTORY else ACE4_ADD_FILE in
        if Evaluate (fa_ACL attr) (buildFileAccessEvalContext attr (Some ctx)) mask then inr tt
        else inl (StoreError ErrAccessDenied)
  end.

(** ** The sticky bit *)

Definition CheckStickyBitRestriction (ctx : AuthContext) (dirAttr fileAttr : FileAttr) : Result unit :=
  let callerUID := default max_u32 (caller_UID ctx) in
  if negb (has (fa_Mode dirAttr) ModeSticky) then inr tt
  else if callerUID =? 0 then inr tt
  else if fa_UID fileAttr =? callerUID then inr tt
  else if fa_UID dirAttr =? callerUID then inr tt
  else inl (StoreError ErrAccessDenied).

(** ** Desired access at open *)

Definition accessMaskMaximumAllowed : Z := 0x02000000.
Definition accessMaskSystemSecurity : Z := 0x01000000.
Definition accessMaskPosixGenericAll : Z := 0x001F01FF.
Definition accessMaskPosixRead : Z := 0x00120089.
Definition accessMaskPosixWrite : Z := 0x00120116.
Definition accessMaskPosixExecute : Z := 0x001200A0.
Definition accessMaskPosixMinimal : Z := 0x00120000.

Definition auth_is_root (authCtx : option AuthContext) : bool :=
  match authCtx with Some c => is_root c | None => false end.

Definition parentGrantsDeleteChild (parent : option FileAttr) (authCtx : option AuthContext) : bool :=
  match parent with
  | None => false
  | Some p =>
      match fa_ACL p with
      | None => true
      | Some _ =>
          if auth_is_root authCtx then true
          else Evaluate (fa_ACL p) (buildFileAccessEvalContext p authCtx) ACE4_DELETE_CHILD
      end
  end.

(** The granted mask and the error, both of which the Go function returns. *)
Definition CheckFileAccessWithParentGeneric (file : FileAttr) (parent : option FileAttr)
    (authCtx : option AuthContext) (desiredAccess genericDerived : Z) : Z * option ErrorCode :=
  let maximumAllowed := has desiredAccess accessMaskMaximumAllowed in
  let explicit := ExpandGenericMask (desiredAccess .&^ accessMaskMaximumAllowed) in
  let genericDerived :=
    genericDerived .| GenericDerivedBits (desiredAccess .&^ accessMaskMaximumAllowed) in
  if auth_is_root authCtx then
    (if maximumAllowed then accessMaskPosixGenericAll .| explicit else explicit, None)
  else if has explicit accessMaskSystemSecurity then (0, Some ErrPrivilegeRequired)
  else match fa_ACL file with
  | None => (if maximumAllowed then accessMaskPosixGenericAll .| explicit else explicit, None)
  | Some _ =>
      let evalCtx := buildFileAccessEvalContext file authCtx in
      let granted := EvaluateGranted (fa_ACL file) evalCtx explicit in
      let granted :=
        or_if (has explicit ACE4_READ_ATTRIBUTES && negb (has granted ACE4_READ_ATTRIBUTES))
          ACE4_READ_ATTRIBUTES granted in
      let granted :=
        or_if (has explicit ACE4_DELETE && negb (has granted ACE4_DELETE) &&
               parentGrantsDeleteChild parent authCtx)
          ACE4_DELETE granted in
      if maximumAllowed then
        let effective := EvaluateGranted (fa_ACL file) evalCtx ProbeMaskAll in
        let effective := or_if (parentGrantsDeleteChild parent authCtx) ACE4_DELETE effective in
        let effective := effective .| ACE4_READ_ATTRIBUTES in
        let effective := effective .| granted in
        let named := explicit .&^ genericDerived in
        (effective,
         if negb (named =? 0) && negb (effective .& named =? named)
         then Some ErrAccessDenied else None)
      else
        (granted,
         if negb (explicit =? 0) && negb (granted .& explicit =? explicit)
         then Some ErrAccessDenied else None)
  end.

Definition CheckFileAccessWithParent (file : FileAttr) (parent : option FileAttr)
    (authCtx : option AuthContext) (desiredAccess : Z) : Z * option ErrorCode :=
  CheckFileAccessWithParentGeneric file parent authCtx desiredAccess 0.

Definition CheckFileAccess (file : FileAttr) (authCtx : option AuthContext) (desiredAccess : Z)
    : Z * option ErrorCode :=
  CheckFileAccessWithParent file None authCtx desiredAccess.

(** [isGroupMember] of the POSIX fallback. *)
Definition group_member (attr : FileAttr) (authCtx : option AuthContext) : bool :=
  match i ← authCtx; ac_Identity i with
  | Some i =>
      match id_GID i with Some gid => gid =? fa_GID attr | None => false end ||
      existsb (fun gid => gid =? fa_GID attr) (id_GIDs i)
  | None => false
  end.

Definition ComputeMaximalAccess (file : FileAttr) (authCtx : option AuthContext) : Z :=
  match fa_ACL file with
  | Some _ =>
      if auth_is_root authCtx then accessMaskPosixGenericAll
      else ExpandGenericMask
             (EvaluateGranted (fa_ACL file) (buildFileAccessEvalContext file authCtx) ProbeMaskAll)
  | None =>
      if match c ← authCtx; caller_UID c with Some u => u =? fa_UID file | None => false end
      then accessMaskPosixGenericAll
      else
        let permBits :=
          if group_member file authCtx then Z.shiftr (fa_Mode file) 3 .& 0x7
          else fa_Mode file .& 0x7 in
        let access := 0 in
        let access := or_if (has permBits 0x4) accessMaskPosixRead access in
        let access := or_if (has permBits 0x2) accessMaskPosixWrite access in
        let access := or_if (has permBits 0x1) accessMaskPosixExecute access in
        if access =? 0 then accessMaskPosixMinimal else access
  end.

(** ** Facts about granted masks *)

(** [x] has no bit outside [m]. *)
Definition within (x m : Z) : Prop := forall i, 0 <= i -> Z.testbit x i = true -> Z.testbit m i = true.

Definition W_D : Z := PermissionWrite .| PermissionDelete.

Lemma within_land x m : within (x .& m) m.
Proof. intros i Hi. rewrite Z.land_spec. now intros []%andb_true_iff. Qed.

Lemma within_ldiff x y m : within x m -> within (x .&^ y) m.
Proof. intros H i Hi. rewrite Z.ldiff_spec. intros []%andb_true_iff. auto. Qed.

Lemma within_land_comm x m : within (m .& x) m.
Proof. rewrite Z.land_comm. apply within_land. Qed.

Lemma mask_within_refl x : within x x.
Proof. now intros i. Qed.

#[export] Hint Resolve within_land within_land_comm within_ldiff mask_within_refl : go.

Lemma has_ldiff_same x m : has (x .&^ m) m = false.
Proof.
  unfold has. apply negb_false_iff, Z.eqb_eq. bitwise.
Qed.

Lemma has_within x y m : within x y -> has y m = false -> has x m = false.
Proof.
  unfold has, within. rewrite !negb_false_iff, !Z.eqb_eq. intros H E. apply Z.bits_inj'.
  intros i Hi. rewrite Z.land_spec, Z.bits_0. destruct (Z.testbit x i) eqn:Ex; [|done].
  assert (Z.testbit (y .& m) i = false) as E' by now rewrite E, Z.bits_0.
  rewrite Z.land_spec, (H i Hi Ex) in E'. exact E'.
Qed.

Lemma rootPermissions_within o r : within (rootPermissions o r) r.
Proof. unfold rootPermissions. destruct (opts_read_only o); auto with go. Qed.

Lemma evaluateACLPermissions_within attr id o r : within (evaluateACLPermissions attr id o r) r.
Proof.
  unfold evaluateACLPermissions, evaluateWithACL.
  destruct (_ ≫= _) as [[i uid]|]; [destruct (uid =? 0)|]; cbv zeta;
    auto using rootPermissions_within with go.
Qed.

Lemma calculatePermissions_within attr id o r : within (calculatePermissions attr id o r) r.
Proof.
  unfold calculatePermissions, CheckOtherPermissions.
  destruct (fa_ACL attr); [apply evaluateACLPermissions_within|].
  destruct (_ ≫= _) as [[i uid]|]; [destruct (uid =? 0)|]; cbv zeta;
    auto using rootPermissions_within with go.
Qed.

(** nothing is granted that was not asked for: the permission funnel returns a
    subset of the requested flags for every file, caller, share and flag. *)
Theorem granted_subset_requested ctx attr o r :
  within (checkFilePermissionsFile ctx attr o r) r.
Proof.
  unfold checkFilePermissionsFile. cbv zeta.
  destruct (_ && _); [auto with go|].
  destruct (ac_ShareReadOnly ctx); auto using calculatePermissions_within with go.
Qed.

(** *** Read-only ceilings *)

(** Callers without a numeric identity, on a file without an ACL. *)
Definition anonymous_posix (ctx : AuthContext) (attr : FileAttr) : bool :=
  match fa_ACL attr, caller_UID ctx with None, None => true | _, _ => false end.

Lemma identity_uid ctx :
  (i ← ac_Identity ctx; uid ← id_UID i; Some (i, uid)) = None <-> caller_UID ctx = None.
Proof. unfold caller_UID. destruct (ac_Identity ctx) as [i|]; cbn; [destruct (id_UID i)|]; done. Qed.

Lemma rootPermissions_read_only o r : opts_read_only o = true -> has (rootPermissions o r) W_D = false.
Proof. unfold rootPermissions. intros ->. apply has_ldiff_same. Qed.

Lemma read_only_land g r : has ((g .&^ W_D) .& r) W_D = false.
Proof. unfold has. apply negb_false_iff, Z.eqb_eq. bitwise. Qed.

Lemma evaluateWithACL_read_only a c o r :
  opts_read_only o = true -> has (evaluateWithACL a c r o) W_D = false.
Proof. unfold evaluateWithACL. intros ->. apply read_only_land. Qed.

Lemma calculatePermissions_read_only ctx attr o r :
  opts_read_only o = true ->
  has (calculatePermissions attr (ac_Identity ctx) o r) W_D =
  anonymous_posix ctx attr && has (CheckOtherPermissions (fa_Mode attr) r) W_D.
Proof.
  intros Ho. unfold calculatePermissions, evaluateACLPermissions, anonymous_posix.
  pose proof (identity_uid ctx) as Hid.
  destruct (_ ≫= _) as [[i uid]|] eqn:E.
  - assert (exists u, caller_UID ctx = Some u) as [u Hu].
    { destruct (caller_UID ctx); [eauto|]. now discriminate (proj2 Hid). }
    rewrite Hu. destruct (fa_ACL attr); destruct (uid =? 0); cbn [andb];
      auto using rootPermissions_read_only, evaluateWithACL_read_only.
    rewrite Ho. apply read_only_land.
  - rewrite (proj1 Hid eq_refl). destruct (fa_ACL attr); cbn [andb];
      auto using evaluateWithACL_read_only.
Qed.

(** on a share that is read-only for the caller, or read-only in its stored
    options, write and delete permission are never granted, whatever the file's
    mode or ACL, also to root and also through a write-authorised SMB handle;
    with one exception the code has: under the stored option alone, a caller
    without a numeric identity still gets the other-class write bit of a file
    that has no ACL.  The per-user ceiling has no exception. *)
Theorem read_only_ceiling ctx attr o r :
  ac_ShareReadOnly ctx = true \/ opts_read_only o = true ->
  has (checkFilePermissionsFile ctx attr o r) W_D =
  negb (ac_ShareReadOnly ctx) && anonymous_posix ctx attr &&
  has (CheckOtherPermissions (fa_Mode attr) r) W_D.
Proof.
  intros H. unfold checkFilePermissionsFile. cbv zeta.
  destruct (ac_ShareReadOnly ctx) eqn:Hs.
  - rewrite andb_false_r. cbn [andb negb]. apply has_ldiff_same.
  - destruct H as [H|Ho]; [discriminate|]. rewrite Ho. cbn [negb].
    rewrite andb_false_r. cbn [andb]. now apply calculatePermissions_read_only.
Qed.

(** The exception is real: an anonymous client may write a world-writable file
    of a read-only share. *)
Definition plain_attr (mode uid gid : Z) (a : option ACL) : FileAttr :=
  mkFileAttr FileTypeRegular mode uid gid 1 0 0 0 0 0 "" "" 0 false a ∅ 0 [] [] None "" "".

Definition plain_ctx (i : option Identity) : AuthContext :=
  mkAuthContext "unix" i "10.0.0.1" false false false false.

Definition read_only_share : ShareOptions := mkShareOptions true false [] [] false [] None.

Example anonymous_writes_read_only_share :
  has (checkFilePermissionsFile (plain_ctx None) (plain_attr 0x1B6 1000 1000 None)
         (Some read_only_share) PermissionWrite) PermissionWrite = true.
Proof. reflexivity. Qed.

Lemma read_only_ceiling_witness :
  has (checkFilePermissionsFile (plain_ctx (Some (mkIdentity (Some 0) (Some 0) [] None [] "" "")))
         (plain_attr 0x1FF 1000 1000 None) (Some read_only_share) 0xFF) W_D = false.
Proof. rewrite read_only_ceiling by (right; reflexivity). reflexivity. Defined.

(** *** Explicit denial *)

Definition without_handle (ctx : AuthContext) : AuthContext :=
  mkAuthContext (ac_AuthMethod ctx) (ac_Identity ctx) (ac_ClientAddr ctx) (ac_ShareReadOnly ctx)
    false (ac_HasDeleteAccess ctx) (ac_BypassTraverseChecking ctx).

(** an explicit DENY ACE on the file switches the handle bypass off: the answer
    is the one the caller would get without a write-authorised handle. *)
Theorem explicit_deny_beats_handle ctx attr o r :
  HasExplicitDeny (fa_ACL attr) = true ->
  checkFilePermissionsFile ctx attr o r = checkFilePermissionsFile (without_handle ctx) attr o r.
Proof.
  intros H. unfold checkFilePermissionsFile. rewrite H. cbn [negb].
  rewrite !andb_false_r. cbn [andb]. reflexivity.
Qed.

(** *** Mode bits *)

(** The POSIX class of a caller, as the shift of its three mode bits. *)
Definition class_shift (attr : FileAttr) (i : Identity) (uid : Z) : Z :=
  if uid =? fa_UID attr then 6
  else if match id_GID i with
          | Some gid => (gid =? fa_GID attr) || HasGID i (fa_GID attr)
          | None => false
          end then 3 else 0.

(** What POSIX says about each permission flag, from the class's mode bits. *)
Definition posix_bit (attr : FileAttr) (i : Identity) (uid k : Z) : bool :=
  let mode b := Z.testbit (fa_Mode attr) (class_shift attr i uid + b) in
  if (k =? 0) || (k =? 4) then mode 2
  else if (k =? 1) || (k =? 3) then mode 1 && negb (Z.testbit (fa_Mode attr) 20)
  else if (k =? 2) || (k =? 5) then mode 0
  else if (k =? 6) || (k =? 7) then uid =? fa_UID attr
  else false.

Lemma classBits_bit attr i uid b :
  0 <= b < 3 -> Z.testbit (classBits attr i uid) b = Z.testbit (fa_Mode attr) (class_shift attr i uid + b).
Proof.
  intros Hb. unfold classBits, class_shift.
  assert (Z.testbit 0x7 b = true) as H7.
  { assert (b = 0 \/ b = 1 \/ b = 2) as [->|[->| ->]] by lia; reflexivity. }
  destruct (uid =? fa_UID attr); [|destruct (match id_GID i with Some _ => _ | None => _ end)];
    rewrite Z.land_spec, ?Z.shiftr_spec, H7, andb_true_r by lia; f_equal; lia.
Qed.

Lemma classBits_range attr i uid : 0 <= classBits attr i uid < 8.
Proof.
  unfold classBits. destruct (uid =? fa_UID attr); [|destruct (match id_GID i with Some _ => _ | None => _ end)];
    apply (land_ones_bound _ 3); lia.
Qed.

(** The flags of the three class bits. *)
Lemma CalculatePermissionsFromBits_bit b k :
  0 <= k ->
  Z.testbit (CalculatePermissionsFromBits b) k =
  if (k =? 0) || (k =? 4) then Z.testbit b 2
  else if (k =? 1) || (k =? 3) then Z.testbit b 1
  else if (k =? 2) || (k =? 5) then Z.testbit b 0
  else false.
Proof.
  intros Hk. unfold CalculatePermissionsFromBits. cbv zeta. rewrite !or_if_spec, Z.bits_0.
  change (has b 0x4) with (has b (2 ^ 2)). change (has b 0x2) with (has b (2 ^ 1)).
  change (has b 0x1) with (has b (2 ^ 0)). rewrite !has_pow2 by lia.
  change (PermissionRead .| PermissionListDirectory) with 17.
  change (PermissionWrite .| PermissionDelete) with 10.
  change (PermissionExecute .| PermissionTraverse) with 36.
  destruct (Z.lt_ge_cases k 6) as [Hlt|Hge].
  - assert (k = 0 \/ k = 1 \/ k = 2 \/ k = 3 \/ k = 4 \/ k = 5) as Hc by lia.
    destruct Hc as [->|[->|[->|[->|[->| ->]]]]]; cbn; btauto.
  - rewrite (testbit_above_width 17 6), (testbit_above_width 10 6), (testbit_above_width 36 6) by lia.
    rewrite !andb_false_r.
    repeat zcase; try lia; reflexivity.
Qed.

(** without an ACL, an identified caller other than root gets exactly what
    the mode bits of its class say: read and list from r, write and delete from
    w unless the DOS read-only bit is set, execute and traverse from x, chmod and
    chown for the owner, restricted to what it asked for. *)
Theorem posix_permissions_exact ctx attr o r i uid :
  fa_ACL attr = None -> ac_Identity ctx = Some i -> id_UID i = Some uid -> uid <> 0 ->
  ac_WriteAuthorizedByHandle ctx = false -> ac_ShareReadOnly ctx = false ->
  opts_read_only o = false ->
  forall k, 0 <= k ->
    Z.testbit (checkFilePermissionsFile ctx attr o r) k =
    posix_bit attr i uid k && Z.testbit r k.
Proof.
  intros Ha Hi Hu Hr Hw Hs Ho k Hk. unfold checkFilePermissionsFile. cbv zeta.
  rewrite Hw, Hs. cbn [andb]. unfold calculatePermissions. rewrite Ha, Hi. cbn. rewrite Hu. cbn.
  rewrite (proj2 (Z.eqb_neq _ _) Hr), Ho, Z.land_spec. f_equal.
  rewrite or_if_spec, CalculatePermissionsFromBits_bit by lia.
  change modeDOSReadonly with (2 ^ 20). rewrite has_pow2 by lia.
  unfold posix_bit. rewrite <- !classBits_bit by lia.
  set (cb := classBits attr i uid). set (dos := Z.testbit (fa_Mode attr) 20).
  assert (Hb : forall b, Z.testbit (if dos then cb .&^ 0x2 else cb) b =
                         Z.testbit cb b && negb (dos && Z.testbit 0x2 b)).
  { intros b. destruct dos; rewrite ?Z.ldiff_spec; cbn; btauto. }
  rewrite !Hb. change (PermissionChangePermissions .| PermissionChangeOwnership) with 192.
  clearbody cb dos. clear Hb. destruct (Z.lt_ge_cases k 8) as [Hlt|Hge].
  - assert (k = 0 \/ k = 1 \/ k = 2 \/ k = 3 \/ k = 4 \/ k = 5 \/ k = 6 \/ k = 7) as Hc by lia.
    destruct Hc as [->|[->|[->|[->|[->|[->|[->| ->]]]]]]]; cbn; btauto.
  - rewrite (testbit_above_width 192 8) by lia.
    repeat zcase; try lia; cbn [orb]; btauto.
Qed.

Definition alice : Identity := mkIdentity (Some 1000) (Some 100) [200] None [] "alice" "".

Lemma posix_permissions_exact_witness :
  Z.testbit (checkFilePermissionsFile (plain_ctx (Some alice)) (plain_attr 0x1A4 1000 100 None) None
    PermissionWrite) 1 = true.
Proof.
  rewrite (posix_permissions_exact (plain_ctx (Some alice)) (plain_attr 0x1A4 1000 100 None) None
    PermissionWrite alice 1000); try reflexivity; lia.
Defined.

(** *** Desired access *)

Section Open.
Context (file : FileAttr) (parent : option FileAttr) (authCtx : option AuthContext) (a : ACL).
Hypothesis Hacl : fa_ACL file = Some a.
Hypothesis Hroot : auth_is_root authCtx = false.

(** What the file's DACL, the attribute rule and the parent grant together. *)
Definition open_bit (i : Z) : bool :=
  granted_bit a (buildFileAccessEvalContext file authCtx) i || (i =? 7) ||
  (i =? 16) && parentGrantsDeleteChild parent authCtx.

(** The granted mask with the two overrides folded in. *)
Lemma overrides_bit explicit (p : bool) i :
  0 <= i ->
  let g := EvaluateGranted (fa_ACL file) (buildFileAccessEvalContext file authCtx) explicit in
  let g := or_if (has explicit ACE4_READ_ATTRIBUTES && negb (has g ACE4_READ_ATTRIBUTES))
             ACE4_READ_ATTRIBUTES g in
  let g := or_if (has explicit ACE4_DELETE && negb (has g ACE4_DELETE) && p) ACE4_DELETE g in
  Z.testbit g i = Z.testbit explicit i &&
    (granted_bit a (buildFileAccessEvalContext file authCtx) i || (i =? 7) || (i =? 16) && p).
Proof.
  intros Hi. cbv zeta. change ACE4_READ_ATTRIBUTES with (2 ^ 7). change ACE4_DELETE with (2 ^ 16).
  rewrite !or_if_spec, !has_pow2, !or_if_spec, Hacl, !EvaluateGranted_bit by lia.
  rewrite !Z.pow2_bits_eqb by lia. rewrite (Z.eqb_sym 7 i), (Z.eqb_sym 16 i).
  destruct (Z.eqb_spec i 7) as [->|H7]; [cbn; btauto|].
  destruct (Z.eqb_spec i 16) as [->|H16]; [cbn; btauto|]. btauto.
Qed.

(** The same for every caller but root, one without an identity included. *)
Lemma open_access_bits desired g :
  has desired accessMaskMaximumAllowed = false -> 0 <= desired ->
  has (ExpandGenericMask desired) accessMaskSystemSecurity = false ->
  let '(granted, err) := CheckFileAccessWithParentGeneric file parent authCtx desired g in
  let explicit := ExpandGenericMask desired in
  (forall i, 0 <= i -> Z.testbit granted i = Z.testbit explicit i && open_bit i) /\
  (err = None <-> forall i, 0 <= i -> Z.testbit explicit i = true -> open_bit i = true) /\
  (err = None \/ err = Some ErrAccessDenied).
Proof.
  intros Hmax Hpos Hsec.
  assert (Hd : desired .&^ accessMaskMaximumAllowed = desired).
  { apply Z.bits_inj'. intros i Hi. rewrite Z.ldiff_spec.
    change accessMaskMaximumAllowed with (2 ^ 25) in *. rewrite has_pow2 in Hmax by lia.
    rewrite Z.pow2_bits_eqb by lia. destruct (Z.eqb_spec 25 i) as [<-|]; [rewrite Hmax|]; btauto. }
  unfold CheckFileAccessWithParentGeneric. rewrite Hmax, Hroot, Hd, Hsec, Hacl. cbv zeta.
  set (explicit := ExpandGenericMask desired) in *.
  pose proof (overrides_bit explicit (parentGrantsDeleteChild parent authCtx)) as Hbits.
  cbv zeta in Hbits. rewrite Hacl in Hbits. set (granted := or_if (_ && _ && _) _ _) in *.
  split; [exact Hbits|]. split.
  - destruct (Z.eqb_spec explicit 0) as [E0|_]; cbn [negb andb].
    { split; [|done]. intros _ i Hi. now rewrite E0, Z.bits_0. }
    destruct (granted .& explicit =? explicit) eqn:E.
    + split; [|done]. intros _ i Hi B. apply (proj1 (land_eq_iff_bits _ _) E i Hi) in B.
      rewrite Hbits in B by done. apply andb_true_iff in B. exact (proj2 B).
    + split; [discriminate|]. intros H. apply not_true_iff_false in E. destruct E.
      apply land_eq_iff_bits. intros i Hi B. rewrite Hbits, B by done. now apply H.
  - match goal with |- context [if ?b then _ else _] => destruct b end; auto.
Qed.

(** A caller with an identity. *)
Definition identified : Prop := exists c i, authCtx = Some c /\ ac_Identity c = Some i.

(** C35: a caller with an identity other than root who opens a file with a DACL for
    an explicit access mask, without MAXIMUM_ALLOWED and without
    ACCESS_SYSTEM_SECURITY, is granted of the mask, after GENERIC expansion,
    exactly the bits the DACL grants by first match, READ_ATTRIBUTES, and DELETE
    when the parent directory grants DELETE_CHILD; the open succeeds exactly when
    that is the whole mask and fails with access denied otherwise. *)
Theorem open_access_exact desired g :
  identified -> has desired accessMaskMaximumAllowed = false -> 0 <= desired ->
  has (ExpandGenericMask desired) accessMaskSystemSecurity = false ->
  let '(granted, err) := CheckFileAccessWithParentGeneric file parent authCtx desired g in
  let explicit := ExpandGenericMask desired in
  (forall i, 0 <= i -> Z.testbit granted i = Z.testbit explicit i && open_bit i) /\
  (err = None <-> forall i, 0 <= i -> Z.testbit explicit i = true -> open_bit i = true) /\
  (err = None \/ err = Some ErrAccessDenied).
Proof. intros _. apply open_access_bits. Qed.

(** for a request of MAXIMUM_ALLOWED alone, the handle's access is the
    maximal access reported to the client plus READ_ATTRIBUTES and, when the
    parent grants DELETE_CHILD, DELETE: the two disagree on exactly those bits. *)
Theorem maximal_access_agrees i :
  0 <= i ->
  Z.testbit (CheckFileAccessWithParent file parent authCtx accessMaskMaximumAllowed).1 i =
  Z.testbit (ComputeMaximalAccess file authCtx) i || (i =? 7) ||
  (i =? 16) && parentGrantsDeleteChild parent authCtx.
Proof.
  intros Hi. unfold CheckFileAccessWithParent, CheckFileAccessWithParentGeneric, ComputeMaximalAccess.
  rewrite Hroot, Hacl.
  change (has accessMaskMaximumAllowed accessMaskMaximumAllowed) with true.
  change (accessMaskMaximumAllowed .&^ accessMaskMaximumAllowed) with 0.
  change (ExpandGenericMask 0) with 0. change (has 0 accessMaskSystemSecurity) with false.
  cbn [fst]. cbv zeta. change (has 0 ACE4_READ_ATTRIBUTES) with false.
  change (has 0 ACE4_DELETE) with false. cbn [andb or_if].
  rewrite ExpandGenericMask_fix.
  - change ACE4_READ_ATTRIBUTES with (2 ^ 7). change ACE4_DELETE with (2 ^ 16).
    rewrite !Z.lor_spec, or_if_spec, !EvaluateGranted_bit, !Z.pow2_bits_eqb, Z.bits_0 by lia.
    rewrite (Z.eqb_sym 7 i), (Z.eqb_sym 16 i). btauto.
  - apply Z.bits_inj'. intros j Hj. rewrite Z.land_spec, EvaluateGranted_bit, Z.bits_0 by lia.
    assert (Z.testbit (ProbeMaskAll .& genericMask) j = false) as E by apply Z.bits_0.
    rewrite Z.land_spec in E. destruct (Z.testbit ProbeMaskAll j), (Z.testbit genericMask j);
      try discriminate; btauto.
Qed.
End Open.

Definition reader_acl : ACL :=
  mkACL [mkACE ACE4_ACCESS_ALLOWED_ACE_TYPE 0 (ACE4_READ_DATA .| ACE4_READ_ACL) SpecialEveryone false]
    "" false false false None.

Lemma open_access_exact_witness :
  (CheckFileAccessWithParentGeneric (plain_attr 0 0 0 (Some reader_acl)) None
     (Some (plain_ctx (Some alice))) ACE4_WRITE_DATA 0).2 = Some ErrAccessDenied.
Proof.
  pose proof (open_access_exact (plain_attr 0 0 0 (Some reader_acl)) None
    (Some (plain_ctx (Some alice))) reader_acl eq_refl eq_refl ACE4_WRITE_DATA 0
    (ltac:(eexists _, _; split; reflexivity)) eq_refl (ltac:(discriminate)) eq_refl) as H.
  destruct (CheckFileAccessWithParentGeneric _ _ _ _ _) as [g e] eqn:E.
  destruct H as (_ & Hok & [->| ->]); [|reflexivity].
  exfalso. discriminate (proj1 Hok eq_refl 1 ltac:(lia) eq_refl).
Defined.

(** The delete right of the parent is looked up for a caller without an identity too,
    where the comment says that such callers bypass the check. *)
Example nil_identity_asks_parent :
  parentGrantsDeleteChild (Some (plain_attr 0 0 0 (Some reader_acl))) (Some (plain_ctx None)) = false /\
  parentGrantsDeleteChild (Some (plain_attr 0 0 0 (Some reader_acl))) None = false.
Proof. split; vm_compute; reflexivity. Qed.

(** *** Squashing and share access *)

Lemma squashed_not_root i m :
  im_AnonymousUID m <> Some 0 ->
  im_MapAllToAnonymous m = true \/ im_MapPrivilegedToAnonymous m = true ->
  id_UID (ApplyIdentityMapping i (Some m)) <> Some 0.
Proof.
  intros Ha Hm. unfold ApplyIdentityMapping. destruct (im_MapAllToAnonymous m); [exact Ha|].
  destruct Hm as [|Hm]; [discriminate|]. rewrite Hm. cbv zeta.
  destruct (id_UID i) as [[|p|p]|] eqn:E; cbn [id_SID id_UID];
    (destruct (id_SID i); [destruct (IsAdministratorSID _)|]); cbn; congruence.
Qed.

(** An allow list that is empty or has a matching entry. *)
Lemma allow_list_spec {A} (f : A -> bool) l :
  match l with [] => false | x :: l => negb (existsb f (x :: l)) end = false <->
  l = [] \/ exists x, In x l /\ f x = true.
Proof.
  rewrite <- existsb_exists. destruct l as [|x l]; [naive_solver|].
  rewrite negb_false_iff. naive_solver.
Qed.

Lemma existsb_false_spec {A} (f : A -> bool) l :
  existsb f l = false <-> forall x, In x l -> f x = false.
Proof.
  rewrite <- not_true_iff_false, existsb_exists. split.
  - intros H x Hx. apply not_true_iff_false. eauto.
  - intros H (x & Hx & E). now rewrite H in E.
Qed.

(** An admitted caller under a mapping of all or of privileged users to an anonymous UID
    other than 0 is not root. *)
Lemma mapped_not_root method (id : option Identity) host opts m :
  so_IdentityMapping opts = Some m -> im_AnonymousUID m <> Some 0 ->
  im_MapAllToAnonymous m = true \/ im_MapPrivilegedToAnonymous m = true ->
  is_root (mkAuthContext method
    ((fun i => ApplyIdentityMapping i (so_IdentityMapping opts)) <$> id) host
    false false false false) = false.
Proof.
  intros Hm Ha Hor. unfold is_root, caller_UID. destruct id as [i|]; cbn; [|done]. rewrite Hm.
  pose proof (squashed_not_root i m Ha Hor) as Hn.
  destruct (id_UID _) as [u|]; [|done]. apply Z.eqb_neq. congruence.
Qed.

(** C36: a client is admitted to a share, and gets a context, exactly when
    authentication is not required or it is not anonymous, its method is allowed (an
    empty list allows all), no deny pattern matches its address, and an allow pattern
    does (or none is configured); a denied client is refused even when it is also
    allowed. *)
Theorem share_access_exact opts addr method id :
  let host := match SplitHost addr with Some h => h | None => addr end in
  (ad_Allowed (CheckShareAccess opts addr method id).1 = true <->
     ~ (so_RequireAuth opts = true /\ method = "anonymous"%string) /\
     (so_AllowedAuthMethods opts = [] \/ In method (so_AllowedAuthMethods opts)) /\
     (forall p, In p (so_DeniedClients opts) -> MatchesIPPattern host p = false) /\
     (so_AllowedClients opts = [] \/
      exists p, In p (so_AllowedClients opts) /\ MatchesIPPattern host p = true)) /\
  (ad_Allowed (CheckShareAccess opts addr method id).1 = true <->
     exists ctx, (CheckShareAccess opts addr method id).2 = Some ctx).
Proof.
  intros host. unfold CheckShareAccess. fold host. cbv zeta.
  set (c1 := so_RequireAuth opts && _).
  set (c2 := match so_AllowedAuthMethods opts with [] => _ | _ => _ end).
  set (c3 := existsb _ _). set (c4 := match so_AllowedClients opts with [] => _ | _ => _ end).
  assert (H1 : ~ (so_RequireAuth opts = true /\ method = "anonymous"%string) <-> c1 = false).
  { unfold c1. rewrite andb_false_iff, String.eqb_neq. destruct (so_RequireAuth opts); naive_solver. }
  assert (H2 : so_AllowedAuthMethods opts = [] \/ In method (so_AllowedAuthMethods opts) <-> c2 = false).
  { unfold c2. rewrite allow_list_spec. setoid_rewrite String.eqb_eq. naive_solver. }
  rewrite H1, H2, <- existsb_false_spec, <- allow_list_spec. fold c3 c4.
  destruct c1, c2, c3, c4; cbn; (split; [naive_solver|]); naive_solver.
Qed.
