(* ===== verification/Quota.v ===== *)
(** * Per-identity quotas ([pkg/metadata/store/internal/quota], [quota_usage.go],
    [quota_limits.go], [quota_enforce.go])

    Usage is counted per owning user and per owning group: a transaction
    accumulates changes in a [Delta] that is folded into the store's [Cache] once,
    at commit.  Limits are configured per share and identity, with a soft
    threshold that may be exceeded for a grace period.  The user and group maps of
    the cache are one map keyed by scope and id.  Persisting grace timers to the
    control plane is a callback with no effect on the decisions and is left out. *)

From S2P Require Import Prelude.
From S2P Require Import MetaTypes.

Inductive QuotaScope := QuotaScopeUser | QuotaScopeGroup.

#[export] Instance QuotaScope_eq_dec : EqDecision QuotaScope.
Proof. solve_decision. Defined.
#[export] Instance QuotaScope_countable : Countable QuotaScope.
Proof.
  refine (inj_countable' (fun s => match s with QuotaScopeUser => false | QuotaScopeGroup => true end)
    (fun b : bool => if b then QuotaScopeGroup else QuotaScopeUser) _).
  now intros [].
Defined.

Record UsageStat := mkUsageStat { us_Bytes : Z; us_Files : Z }.

#[export] Instance UsageStat_eq_dec : EqDecision UsageStat.
Proof. solve_decision. Defined.

Definition zeroUsage : UsageStat := mkUsageStat 0 0.

Abbreviation Key := (QuotaScope * Z)%type.

(** ** Accounting *)

Abbreviation Cache := (gmap Key UsageStat).
Abbreviation Delta := (gmap Key UsageStat).

Definition Get (c : Cache) (scope : QuotaScope) (id : Z) : UsageStat :=
  default zeroUsage (c !! (scope, id)).

(** [cur.Bytes += d.Bytes; cur.Files += d.Files] *)
Definition add_usage (u d : UsageStat) : UsageStat :=
  mkUsageStat (i64 (us_Bytes u + us_Bytes d)) (i64 (us_Files u + us_Files d)).

(** One iteration of the loop of [Apply]: the new value of a bucket. *)
Definition apply_bucket (cur d : UsageStat) : option UsageStat :=
  let u := add_usage cur d in
  let u := mkUsageStat (if us_Bytes u <? 0 then 0 else us_Bytes u)
                       (if us_Files u <? 0 then 0 else us_Files u) in
  if (us_Bytes u =? 0) && (us_Files u =? 0) then None else Some u.

(** Each key of the delta is folded into its own bucket, so the iteration order
    of the Go map does not matter. *)
Definition Apply (c : Cache) (delta : Delta) : Cache :=
  merge (fun cur d =>
    match d with
    | None => cur
    | Some d => apply_bucket (default zeroUsage cur) d
    end) c delta.

Definition bump (d : Delta) (k : Key) (u : UsageStat) : Delta :=
  <[k := add_usage (default zeroUsage (d !! k)) u]> d.

Definition Add (d : Delta) (uid gid bytes files : Z) : Delta :=
  if (bytes =? 0) && (files =? 0) then d
  else
    let d := bump d (QuotaScopeUser, uid) (mkUsageStat bytes files) in
    bump d (QuotaScopeGroup, gid) (mkUsageStat bytes files).

Definition AddKeyed (d : Delta) (k : Key) (s : UsageStat) : Delta :=
  if (us_Bytes s =? 0) && (us_Files s =? 0) then d else bump d k s.

(** ** Limits *)

Record IdentityQuota := mkIdentityQuota {
  iq_Scope : QuotaScope;
  iq_ID : Z;
  iq_LimitBytes : Z;
  iq_SoftBytes : Z;
  iq_LimitFiles : Z;
  iq_SoftFiles : Z;
  iq_GraceSeconds : Z;
  iq_GraceStartedAt : Z;
}.

Definition set_GraceStartedAt (t : Z) (q : IdentityQuota) : IdentityQuota :=
  mkIdentityQuota (iq_Scope q) (iq_ID q) (iq_LimitBytes q) (iq_SoftBytes q) (iq_LimitFiles q)
    (iq_SoftFiles q) (iq_GraceSeconds q) t.

Definition DefaultUserID : Z := max_u32.

Record quotaLimits := mkQuotaLimits {
  ql_byShare : gmap string (gmap Key IdentityQuota);
  ql_dynGrace : gmap string (gmap Key Z);
}.

Definition newQuotaLimits : quotaLimits := mkQuotaLimits ∅ ∅.

(** A missing map reads as an empty one. *)
Definition share_quotas (q : quotaLimits) (share : string) : gmap Key IdentityQuota :=
  default ∅ (ql_byShare q !! share).
Definition share_grace (q : quotaLimits) (share : string) : gmap Key Z :=
  default ∅ (ql_dynGrace q !! share).

(** Writing a share's inner map back; an empty one is dropped. *)
Definition put_quotas (q : quotaLimits) (share : string) (m : gmap Key IdentityQuota) : quotaLimits :=
  mkQuotaLimits (if decide (m = ∅) then delete share (ql_byShare q) else <[share := m]> (ql_byShare q))
    (ql_dynGrace q).
Definition put_grace (q : quotaLimits) (share : string) (m : gmap Key Z) : quotaLimits :=
  mkQuotaLimits (ql_byShare q)
    (if decide (m = ∅) then delete share (ql_dynGrace q) else <[share := m]> (ql_dynGrace q)).

Definition dynGraceStartedAt (q : quotaLimits) (share : string) (scope : QuotaScope) (realID : Z) : Z :=
  default 0 (share_grace q share !! (scope, realID)).

(** The new table and whether the stored value changed. *)
Definition setDynGrace (q : quotaLimits) (share : string) (scope : QuotaScope) (realID t : Z)
    : quotaLimits * bool :=
  let m := share_grace q share in
  let key := (scope, realID) in
  if t =? 0 then
    match m !! key with
    | None => (q, false)
    | Some _ => (put_grace q share (delete key m), true)
    end
  else if decide (m !! key = Some t) then (q, false)
  else (put_grace q share (<[key := t]> m), true).

Definition seedDynGrace (q : quotaLimits) (share : string) (byUID : gmap Z Z) : quotaLimits :=
  put_grace q share
    (list_to_map (map (fun '(uid, t) => ((QuotaScopeUser, uid), t))
      (List.filter (fun '(_, t) => negb (t =? 0)) (map_to_list byUID)))).

Definition set_quota (q : quotaLimits) (share : string) (iq : IdentityQuota) : quotaLimits :=
  put_quotas q share (<[(iq_Scope iq, iq_ID iq) := iq]> (share_quotas q share)).

Definition remove_quota (q : quotaLimits) (share : string) (scope : QuotaScope) (id : Z) : quotaLimits :=
  put_quotas q share (delete (scope, id) (share_quotas q share)).

(** A later entry of the list wins, as in the loop. *)
Definition replaceShare (q : quotaLimits) (share : string) (quotas : list IdentityQuota) : quotaLimits :=
  put_quotas q share
    (fold_left (fun m iq => <[(iq_Scope iq, iq_ID iq) := iq]> m) quotas ∅).

Definition get_quota (q : quotaLimits) (share : string) (scope : QuotaScope) (id : Z)
    : option IdentityQuota := share_quotas q share !! (scope, id).

Definition resolveUser (q : quotaLimits) (share : string) (uid : Z) : option IdentityQuota :=
  match get_quota q share QuotaScopeUser uid with
  | Some iq => Some iq
  | None => get_quota q share QuotaScopeUser DefaultUserID
  end.

Definition hasAny (q : quotaLimits) (share : string) : bool := negb (bool_decide (share_quotas q share = ∅)).

Definition liveGraceStartedAt (q : quotaLimits) (share : string) (scope : QuotaScope) (id : Z) : Z :=
  match share_quotas q share !! (scope, id) with
  | Some iq => iq_GraceStartedAt iq
  | None => 0
  end.

Definition updateGraceStartedAt (q : quotaLimits) (share : string) (scope : QuotaScope) (id t : Z)
    : quotaLimits * bool :=
  match share_quotas q share !! (scope, id) with
  | None => (q, false)
  | Some iq =>
      if iq_GraceStartedAt iq =? t then (q, false)
      else (put_quotas q share (<[(scope, id) := set_GraceStartedAt t iq]> (share_quotas q share)), true)
  end.

(** ** Enforcement *)

Record quotaDimension := mkDim { d_used : Z; d_delta : Z; d_soft : Z; d_hard : Z }.

Definition isDefaultUserFallback (scope : QuotaScope) (iq : IdentityQuota) : bool :=
  bool_decide (scope = QuotaScopeUser) && (iq_ID iq =? DefaultUserID).

Definition liveGrace (q : quotaLimits) (share : string) (scope : QuotaScope) (usageID : Z)
    (fallback : bool) (rowID : Z) : Z :=
  if fallback then dynGraceStartedAt q share scope usageID
  else liveGraceStartedAt q share scope rowID.

(** [startGrace], and [clearGrace] with the zero time. *)
Definition setGrace (q : quotaLimits) (share : string) (scope : QuotaScope) (usageID : Z)
    (fallback : bool) (rowID t : Z) : quotaLimits :=
  if fallback then (setDynGrace q share scope usageID t).1
  else (updateGraceStartedAt q share scope rowID t).1.

(** The loop over the two dimensions: [None] when a hard ceiling blocks,
    otherwise whether a soft threshold is crossed. *)
Fixpoint scan_dims (dims : list quotaDimension) (overSoft : bool) : option bool :=
  match dims with
  | [] => Some overSoft
  | d :: dims =>
      if d_delta d <=? 0 then scan_dims dims overSoft
      else
        let projected := i64 (d_used d + d_delta d) in
        if (d_hard d >? 0) && (projected >? d_hard d) then None
        else scan_dims dims (overSoft || (d_soft d >? 0) && (projected >? d_soft d))
  end.

Definition dims_of (usage : UsageStat) (iq : IdentityQuota) (byteDelta fileDelta : Z)
    : list quotaDimension :=
  [ mkDim (us_Bytes usage) byteDelta (iq_SoftBytes iq) (iq_LimitBytes iq);
    mkDim (us_Files usage) fileDelta (iq_SoftFiles iq) (iq_LimitFiles iq) ].

(** [now] is the clock; [usage] what the store reported for the identity. *)
Definition enforceOne (share : string) (usage : UsageStat) (scope : QuotaScope) (usageID : Z)
    (iq : IdentityQuota) (byteDelta fileDelta now : Z) : M quotaLimits unit := fun q =>
  match scan_dims (dims_of usage iq byteDelta fileDelta) false with
  | None => (inl (StoreError ErrQuotaExceeded), q)
  | Some overSoft =>
      let fallback := isDefaultUserFallback scope iq in
      if negb overSoft then (inr tt, setGrace q share scope usageID fallback (iq_ID iq) 0)
      else if iq_GraceSeconds iq <=? 0 then (inr tt, q)
      else
        let graceStart := liveGrace q share scope usageID fallback (iq_ID iq) in
        if graceStart =? 0 then (inr tt, setGrace q share scope usageID fallback (iq_ID iq) now)
        else if now >? graceStart + i64 (iq_GraceSeconds iq * 10 ^ 9)
        then (inl (StoreError ErrQuotaExceeded), q)
        else (inr tt, q)
  end.

Definition checkIdentityQuotas (share : string) (c : Cache) (uid gid byteDelta fileDelta now : Z)
    : M quotaLimits unit :=
  if (byteDelta <=? 0) && (fileDelta <=? 0) then mret tt
  else
    any ← gets (fun q => hasAny q share);
    if negb any then mret tt
    else
      user ← gets (fun q => resolveUser q share uid);
      match user with
      | Some iq =>
          enforceOne share (Get c QuotaScopeUser uid) QuotaScopeUser uid iq byteDelta fileDelta now
      | None => mret tt
      end;;
      group ← gets (fun q => get_quota q share QuotaScopeGroup gid);
      match group with
      | Some iq =>
          enforceOne share (Get c QuotaScopeGroup gid) QuotaScopeGroup gid iq byteDelta fileDelta now
      | None => mret tt
      end.

(** ** Decisions *)

Definition over (limit : quotaDimension -> Z) (d : quotaDimension) : Prop :=
  0 < d_delta d /\ 0 < limit d /\ limit d < d_used d + d_delta d.

Definition dim_ok (d : quotaDimension) : Prop := 0 < d_delta d -> in_i64 (d_used d + d_delta d).

Lemma scan_dims_spec dims b :
  Forall dim_ok dims ->
  match scan_dims dims b with
  | None => Exists (over d_hard) dims
  | Some o => Forall (fun d => ~ over d_hard d) dims /\ (o = true <-> b = true \/ Exists (over d_soft) dims)
  end.
Proof.
  intros Hok. revert b. induction Hok as [|d dims Hd Hok IH]; intros b; cbn.
  { split; [constructor|]. rewrite Exists_nil. tauto. }
  destruct (Z.leb_spec (d_delta d) 0) as [Hle|Hgt].
  - specialize (IH b). destruct (scan_dims dims b).
    + destruct IH as [H1 H2]. split; [constructor; [unfold over; lia|done]|].
      rewrite H2, Exists_cons. unfold over. intuition lia.
    + now right.
  - rewrite (i64_small _ (Hd Hgt)), !Z.gtb_ltb.
    destruct (Z.ltb_spec 0 (d_hard d)), (Z.ltb_spec (d_hard d) (d_used d + d_delta d)); cbn [andb];
      try (left; unfold over; lia).
    all: specialize (IH (b || ((0 <? d_soft d) && (d_soft d <? d_used d + d_delta d))));
      destruct (scan_dims dims _); [|now right];
      destruct IH as [H1 H2]; split; [constructor; [unfold over; lia|done]|];
      rewrite H2, Exists_cons, orb_true_iff, andb_true_iff, !Z.ltb_lt; unfold over; intuition lia.
Qed.

(** The timer a decision reads and writes: of the identity for a default-user
    fallback, of the configured row otherwise. *)
Inductive timer := Dyn (share : string) (scope : QuotaScope) (id : Z)
                 | Row (share : string) (scope : QuotaScope) (id : Z).

#[export] Instance timer_eq_dec : EqDecision timer.
Proof. solve_decision. Defined.

Definition timer_of (share : string) (scope : QuotaScope) (usageID : Z) (iq : IdentityQuota) : timer :=
  if isDefaultUserFallback scope iq then Dyn share scope usageID else Row share scope (iq_ID iq).

Definition started (q : quotaLimits) (t : timer) : Z :=
  match t with
  | Dyn share scope id => dynGraceStartedAt q share scope id
  | Row share scope id => liveGraceStartedAt q share scope id
  end.

Lemma share_grace_put q share m share' :
  share_grace (put_grace q share m) share' = if decide (share = share') then m else share_grace q share'.
Proof.
  unfold share_grace, put_grace. cbn. destruct (decide (m = ∅)) as [->|Hm], (decide (share = share')) as [->|Hs];
    [rewrite lookup_delete_eq|rewrite lookup_delete_ne|rewrite lookup_insert_eq|rewrite lookup_insert_ne];
    done.
Qed.

Lemma share_quotas_put q share m share' :
  share_quotas (put_quotas q share m) share' = if decide (share = share') then m else share_quotas q share'.
Proof.
  unfold share_quotas, put_quotas. cbn. destruct (decide (m = ∅)) as [->|Hm], (decide (share = share')) as [->|Hs];
    [rewrite lookup_delete_eq|rewrite lookup_delete_ne|rewrite lookup_insert_eq|rewrite lookup_insert_ne];
    done.
Qed.

Lemma setDynGrace_started q share scope id t timer' :
  started (setDynGrace q share scope id t).1 timer' =
  if decide (timer' = Dyn share scope id) then t else started q timer'.
Proof.
  unfold setDynGrace. cbv zeta.
  assert (Hput : forall m, started (put_grace q share m) timer' =
    match timer' with
    | Dyn sh sc i => default 0 ((if decide (share = sh) then m else share_grace q sh) !! (sc, i))
    | Row _ _ _ => started q timer'
    end).
  { intros m. destruct timer' as [sh sc i|sh sc i]; cbn; [|done].
    unfold dynGraceStartedAt. now rewrite share_grace_put. }
  destruct (decide (timer' = Dyn share scope id)) as [->|D].
  - assert (Hown : forall m, started (put_grace q share m) (Dyn share scope id) =
                             default 0 (m !! (scope, id))).
    { intros m. rewrite Hput. now rewrite decide_True. }
    destruct (Z.eqb_spec t 0) as [->|Ht];
      [destruct (share_grace q share !! (scope, id)) eqn:E
      |destruct (decide (share_grace q share !! (scope, id) = Some t)) as [E|E]]; cbn [fst].
    + rewrite Hown. now rewrite lookup_delete_eq.
    + cbn. unfold dynGraceStartedAt. now rewrite E.
    + cbn. unfold dynGraceStartedAt. now rewrite E.
    + rewrite Hown. now rewrite lookup_insert_eq.
  - assert (Hne : forall m, (forall sh sc i, timer' = Dyn sh sc i -> share = sh ->
        m !! (sc, i) = share_grace q share !! (sc, i)) -> started (put_grace q share m) timer' = started q timer').
    { intros m Hm. rewrite Hput. destruct timer' as [sh sc i|sh sc i]; [|done]. cbn.
      unfold dynGraceStartedAt. destruct (decide (share = sh)) as [->|]; [|done]. now rewrite (Hm sh sc i). }
    destruct (Z.eqb_spec t 0) as [->|Ht];
      [destruct (share_grace q share !! (scope, id)) eqn:E
      |destruct (decide (share_grace q share !! (scope, id) = Some t)) as [E|E]]; cbn [fst]; try done;
      apply Hne; intros sh sc i -> <-;
      [rewrite lookup_delete_ne by congruence|rewrite lookup_insert_ne by congruence]; done.
Qed.

Lemma updateGraceStartedAt_started q share scope id t timer' :
  is_Some (get_quota q share scope id) ->
  started (updateGraceStartedAt q share scope id t).1 timer' =
  if decide (timer' = Row share scope id) then t else started q timer'.
Proof.
  intros [iq Hiq]. unfold get_quota in Hiq. unfold updateGraceStartedAt. rewrite Hiq.
  destruct (decide (timer' = Row share scope id)) as [->|D];
    destruct (Z.eqb_spec (iq_GraceStartedAt iq) t) as [Ht|Ht]; cbn [fst started]; try done.
  - unfold liveGraceStartedAt. now rewrite Hiq.
  - unfold liveGraceStartedAt. rewrite share_quotas_put, decide_True by done.
    now rewrite lookup_insert_eq.
  - destruct timer' as [sh sc i|sh sc i]; [done|]. cbn. unfold liveGraceStartedAt.
    rewrite share_quotas_put. destruct (decide (share = sh)) as [->|]; [|done].
    rewrite lookup_insert_ne by congruence. done.
Qed.

Lemma setGrace_started q share scope usageID iq t timer' :
  is_Some (get_quota q share scope (iq_ID iq)) ->
  started (setGrace q share scope usageID (isDefaultUserFallback scope iq) (iq_ID iq) t) timer' =
  if decide (timer' = timer_of share scope usageID iq) then t else started q timer'.
Proof.
  intros H. unfold setGrace, timer_of. destruct (isDefaultUserFallback scope iq);
    [apply setDynGrace_started|now apply updateGraceStartedAt_started].
Qed.

Lemma liveGrace_started q share scope usageID iq :
  liveGrace q share scope usageID (isDefaultUserFallback scope iq) (iq_ID iq) =
  started q (timer_of share scope usageID iq).
Proof. unfold liveGrace, timer_of. now destruct (isDefaultUserFallback scope iq). Qed.

(** What a decision does, from the two kinds of excess and its timer [t0]. *)
Definition quota_verdict (hard soft : Prop) (iq : IdentityQuota) (t0 now : Z)
    (r : Result unit) (t1 : Z) : Prop :=
  (hard /\ r = inl (StoreError ErrQuotaExceeded) /\ t1 = t0) \/
  (~ hard /\ ~ soft /\ r = inr tt /\ t1 = 0) \/
  (~ hard /\ soft /\ iq_GraceSeconds iq <= 0 /\ r = inr tt /\ t1 = t0) \/
  (~ hard /\ soft /\ 0 < iq_GraceSeconds iq /\ t0 = 0 /\ r = inr tt /\ t1 = now) \/
  (~ hard /\ soft /\ 0 < iq_GraceSeconds iq /\ t0 <> 0 /\ t1 = t0 /\
   r = if now >? t0 + i64 (iq_GraceSeconds iq * 10 ^ 9)
       then inl (StoreError ErrQuotaExceeded) else inr tt).

(** one quota decision, on every branch: an operation that would take a
    dimension it increases over a hard limit is refused and changes no timer;
    otherwise it is refused exactly when a soft threshold is crossed, a grace
    period is configured and running, and it has elapsed; the timer starts at the
    first crossing and is cleared by an operation under the thresholds of the
    dimensions it increases.  No other identity's or row's timer is touched. *)
Theorem enforceOne_exact share usage scope usageID iq byteDelta fileDelta now q :
  is_Some (get_quota q share scope (iq_ID iq)) ->
  let dims := dims_of usage iq byteDelta fileDelta in
  Forall dim_ok dims ->
  let t := timer_of share scope usageID iq in
  let '(r, q') := enforceOne share usage scope usageID iq byteDelta fileDelta now q in
  quota_verdict (Exists (over d_hard) dims) (Exists (over d_soft) dims) iq
    (started q t) now r (started q' t) /\
  (forall t', t' <> t -> started q' t' = started q t').
Proof.
  intros Hrow dims Hok t. unfold enforceOne. fold dims.
  pose proof (scan_dims_spec dims false Hok) as Hscan. unfold quota_verdict.
  destruct (scan_dims dims false) as [o|]; [|split; [left|]; auto].
  destruct Hscan as [Hh Hs].
  assert (Hnh : ~ Exists (over d_hard) dims).
  { intros HE%Exists_exists. rewrite Forall_forall in Hh. naive_solver. }
  assert (Hsoft : Exists (over d_soft) dims <-> o = true) by (rewrite Hs; naive_solver).
  destruct o; cbn [negb].
  - assert (Exists (over d_soft) dims) by now apply Hsoft.
    rewrite liveGrace_started. fold t.
    destruct (Z.leb_spec (iq_GraceSeconds iq) 0); [split; [do 2 right; left|]; auto|].
    destruct (Z.eqb_spec (started q t) 0) as [E|E].
    + split; [do 3 right; left; repeat split; auto|intros t' Ht']; rewrite setGrace_started by done;
        [now rewrite decide_True|now rewrite decide_False].
    + destruct (now >? _) eqn:E2; (split; [do 4 right; rewrite ?E2; repeat split|]; auto).
  - assert (~ Exists (over d_soft) dims) by (rewrite Hsoft; done).
    split; [right; left; repeat split; auto|intros t' Ht']; rewrite setGrace_started by done;
      [now rewrite decide_True|now rewrite decide_False].
Qed.

Definition sample_quota : IdentityQuota := mkIdentityQuota QuotaScopeUser 7 1000 500 10 2 60 0.
Definition sample_limits : quotaLimits := set_quota newQuotaLimits "/export" sample_quota.

Lemma enforceOne_exact_witness :
  (enforceOne "/export" (mkUsageStat 900 1) QuotaScopeUser 7 sample_quota 200 0 5 sample_limits).1 =
  inl (StoreError ErrQuotaExceeded).
Proof.
  pose proof (enforceOne_exact "/export" (mkUsageStat 900 1) QuotaScopeUser 7 sample_quota 200 0 5
    sample_limits) as H.
  destruct (enforceOne _ _ _ _ _ _ _ _ _) as [r q'] eqn:E. cbn [fst].
  destruct H as [[(_ & -> & _)|H] _].
  - eexists. reflexivity.
  - repeat constructor; unfold dim_ok, in_i64; cbn; lia.
  - reflexivity.
  - exfalso. assert (Hh : Exists (over d_hard) (dims_of (mkUsageStat 900 1) sample_quota 200 0)).
    { left. unfold over; cbn; lia. }
    naive_solver.
Defined.

(** The grace timer is shared by the two dimensions but cleared by looking only
    at those an operation increases: a user over the soft file limit can write
    one byte, which clears the timer, and go on creating files after the grace
    period that the first crossing started. *)
Example grace_timer_evaded :
  let create t := enforceOne "/export" (mkUsageStat 0 2) QuotaScopeUser 7 sample_quota 0 1 t in
  let write t := enforceOne "/export" (mkUsageStat 0 3) QuotaScopeUser 7 sample_quota 1 0 t in
  let second := 10 ^ 9 in
  result (create second;; create (62 * second)) sample_limits = inl (StoreError ErrQuotaExceeded) /\
  result (create second;; write (2 * second);; create (62 * second)) sample_limits = inr tt.
Proof. split; vm_compute; reflexivity. Qed.

(** ** Accounting facts *)

Lemma Apply_lookup c d k :
  Apply c d !! k = match d !! k with
                   | None => c !! k
                   | Some u => apply_bucket (default zeroUsage (c !! k)) u
                   end.
Proof.
  unfold Apply. rewrite lookup_merge. unfold diag_None. destruct (d !! k), (c !! k); done.
Qed.

(** The value a delta has accumulated for a key. *)
Definition pending (d : Delta) (k : Key) : UsageStat := default zeroUsage (d !! k).

Lemma pending_bump d k u k' :
  pending (bump d k u) k' = if decide (k = k') then add_usage (pending d k') u else pending d k'.
Proof.
  unfold pending, bump. destruct (decide (k = k')) as [->|]; [now rewrite lookup_insert_eq|].
  now rewrite lookup_insert_ne.
Qed.

(** A usage of the identity, in the range where accounting is exact. *)
Definition usage_ok (u : UsageStat) : Prop :=
  0 <= us_Bytes u < 2 ^ 63 /\ 0 <= us_Files u < 2 ^ 63.

(** Folding a delta that leads to a representable usage gives that usage. *)
Lemma apply_exact c d scope id u :
  usage_ok u ->
  us_Bytes u = i64 (us_Bytes (Get c scope id) + us_Bytes (pending d (scope, id))) ->
  us_Files u = i64 (us_Files (Get c scope id) + us_Files (pending d (scope, id))) ->
  usage_ok (Get c scope id) ->
  Get (Apply c d) scope id = u.
Proof.
  unfold Get, pending. intros [Hb Hf] Eb Ef [Hcb Hcf]. rewrite Apply_lookup.
  revert Eb Ef. destruct (d !! (scope, id)) as [v|]; cbn; intros Eb Ef.
  - unfold apply_bucket, add_usage. cbn. rewrite <- Eb, <- Ef.
    destruct (Z.ltb_spec (us_Bytes u) 0), (Z.ltb_spec (us_Files u) 0); try lia.
    destruct u as [b f]; cbn in *.
    destruct (Z.eqb_spec b 0) as [->|], (Z.eqb_spec f 0) as [->|]; cbn; done.
  - rewrite !Z.add_0_r, !i64_small in * by (unfold in_i64; lia).
    destruct (default zeroUsage (c !! (scope, id))), u; cbn in *; congruence.
Qed.

(** Two-complement addition is associative up to wrapping. *)
Lemma i64_add_l x y : i64 (i64 x + y) = i64 (x + y).
Proof.
  unfold i64. f_equal.
  replace ((x + 2 ^ 63) mod 2 ^ 64 - 2 ^ 63 + y + 2 ^ 63) with ((x + 2 ^ 63) mod 2 ^ 64 + y) by lia.
  rewrite Zplus_mod_idemp_l. f_equal. lia.
Qed.

Lemma i64_add_r x y : i64 (x + i64 y) = i64 (x + y).
Proof. now rewrite Z.add_comm, i64_add_l, Z.add_comm. Qed.
