(* ===== verification/MetaStore.v ===== *)
(** * The in-memory metadata store ([pkg/metadata/store/memory/transaction.go],
    [store.go], [files.go])

    The store keeps inodes, parent edges, directory entries, link counts and a
    secondary index as maps keyed by handle, plus a used-bytes counter and
    per-identity usage.  Operations run inside [WithTransaction]: under the
    store's mutex the maps are mutated directly, a snapshot is restored when the
    closure fails, and counter changes are accumulated and applied once at
    commit.  Maps nothing here writes (device numbers, block records, synced
    markers, server configuration) are left out, and so are inode numbers, which
    are a hash of the handle. *)

From S2P Require Import Prelude.
From S2P Require Import AclTypes.
From S2P Require Import HoleMap.
From S2P Require Import MetaTypes.
From S2P Require Import Quota.

Record shareData := mkShareData {
  sd_Name : string;
  sd_Options : ShareOptions;
  sd_RootHandle : FileHandle;
  sd_seeded : bool;
}.

Record fileData := mkFileData { fd_Attr : FileAttr; fd_ShareName : string }.

Record MemoryStore := mkStore {
  st_shares : gmap string shareData;
  st_files : gmap FileHandle fileData;
  st_parents : gmap FileHandle FileHandle;
  st_children : gmap FileHandle (gmap string FileHandle);
  st_linkCounts : gmap FileHandle Z;
  st_objectIndex : gmap (list Z) FileHandle;
  st_usedBytes : Z;
  st_quota : gmap (QuotaScope * Z) UsageStat;
}.

Definition emptyStore : MemoryStore := mkStore ∅ ∅ ∅ ∅ ∅ ∅ 0 ∅.

Definition set_files (m : gmap FileHandle fileData) (s : MemoryStore) : MemoryStore :=
  mkStore (st_shares s) m (st_parents s) (st_children s) (st_linkCounts s) (st_objectIndex s)
    (st_usedBytes s) (st_quota s).
Definition set_shares (m : gmap string shareData) (s : MemoryStore) : MemoryStore :=
  mkStore m (st_files s) (st_parents s) (st_children s) (st_linkCounts s) (st_objectIndex s)
    (st_usedBytes s) (st_quota s).
Definition set_parents (m : gmap FileHandle FileHandle) (s : MemoryStore) : MemoryStore :=
  mkStore (st_shares s) (st_files s) m (st_children s) (st_linkCounts s) (st_objectIndex s)
    (st_usedBytes s) (st_quota s).
Definition set_children (m : gmap FileHandle (gmap string FileHandle)) (s : MemoryStore) : MemoryStore :=
  mkStore (st_shares s) (st_files s) (st_parents s) m (st_linkCounts s) (st_objectIndex s)
    (st_usedBytes s) (st_quota s).
Definition set_linkCounts (m : gmap FileHandle Z) (s : MemoryStore) : MemoryStore :=
  mkStore (st_shares s) (st_files s) (st_parents s) (st_children s) m (st_objectIndex s)
    (st_usedBytes s) (st_quota s).
Definition set_objectIndex (m : gmap (list Z) FileHandle) (s : MemoryStore) : MemoryStore :=
  mkStore (st_shares s) (st_files s) (st_parents s) (st_children s) (st_linkCounts s) m
    (st_usedBytes s) (st_quota s).

Section Store.
Context `{U : UuidLib}.

(** ** Reads *)

(** The children map of a directory; a missing one is empty. *)
Definition children_of (s : MemoryStore) (dir : FileHandle) : gmap string FileHandle :=
  default ∅ (st_children s !! dir).

Definition str_lt (a b : string) : bool := String.ltb a b.

Definition sortedChildNames (m : gmap string FileHandle) : list string :=
  sort_by str_lt (map fst (map_to_list m)).

Definition childNameLocked (s : MemoryStore) (parent child : FileHandle) : string :=
  let m := children_of s parent in
  default "" (head (List.filter (fun n => negb (String.eqb n "") && bool_decide (m !! n = Some child))
    (sortedChildNames m))).

Definition maxDepth : nat := 4096.

(** The loop of [derivePathLocked]: the components found, leaf first. *)
Fixpoint path_components (fuel : nat) (s : MemoryStore) (current : FileHandle) : list string :=
  match fuel with
  | O => []
  | S fuel =>
      match st_parents s !! current with
      | None => []
      | Some parent =>
          let name := childNameLocked s parent current in
          if String.eqb name "" then [] else name :: path_components fuel s parent
      end
  end.

Definition derivePathLocked (s : MemoryStore) (handle : FileHandle) : string :=
  match path_components maxDepth s handle with
  | [] => "/"
  | cs => fold_left (fun acc c => acc +:+ "/" +:+ c) (rev cs) ""
  end.

Definition buildFileWithNlink (s : MemoryStore) (handle : FileHandle) (fd : fileData) : Result File :=
  match DecodeFileHandle handle with
  | inl _ => inl (StoreError ErrInvalidHandle)
  | inr (shareName, id) =>
      let nlink := default 1 (st_linkCounts s !! handle) in
      inr (mkFile _ id shareName (derivePathLocked s handle) (set_Nlink nlink (fd_Attr fd)))
  end.

Definition getFile (s : MemoryStore) (handle : FileHandle) : Result File :=
  match st_files s !! handle with
  | None => inl (StoreError ErrNotFound)
  | Some fd => buildFileWithNlink s handle fd
  end.

Definition getChild (s : MemoryStore) (dir : FileHandle) (name : string) : Result FileHandle :=
  match m ← st_children s !! dir; m !! name with
  | None => inl (StoreError ErrNotFound)
  | Some h => inr h
  end.

Definition getParent (s : MemoryStore) (handle : FileHandle) : Result FileHandle :=
  match st_parents s !! handle with
  | None => inl (StoreError ErrNotFound)
  | Some h => inr h
  end.

Definition getLinkCount (s : MemoryStore) (handle : FileHandle) : Z :=
  default 0 (st_linkCounts s !! handle).

Definition getShareOptions (s : MemoryStore) (shareName : string) : Result ShareOptions :=
  match st_shares s !! shareName with
  | None => inl (StoreError ErrNotFound)
  | Some sd => inr (sd_Options sd)
  end.

Definition getRootHandle (s : MemoryStore) (shareName : string) : Result FileHandle :=
  match st_shares s !! shareName with
  | None => inl (StoreError ErrNotFound)
  | Some sd => inr (sd_RootHandle sd)
  end.

(** *** Directory pages *)

Record DirEntry := mkDirEntry { de_Name : string; de_Handle : FileHandle; de_Attr : option FileAttr }.

(** [sort.SearchStrings] and the skip of the cursor itself. *)
Definition childPageStart (sortedNames : list string) (cursor : string) : nat :=
  if String.eqb cursor "" then O
  else
    let idx := sort_search (length sortedNames)
      (fun i => negb (str_lt (default "" (sortedNames !! i)) cursor)) in
    if bool_decide (sortedNames !! idx = Some cursor) then S idx else idx.

Definition entry_of (s : MemoryStore) (m : gmap string FileHandle) (name : string) : DirEntry :=
  let h := default "" (m !! name) in
  let attr :=
    (fun fd =>
      let a := fd_Attr fd in
      let nlink :=
        match st_linkCounts s !! h with
        | Some n => n
        | None => if is_type (fa_Type a) FileTypeDirectory then 2 else 1
        end in
      set_Nlink nlink a) <$> st_files s !! h in
  mkDirEntry name h attr.

Definition ListChildren (s : MemoryStore) (dir : FileHandle) (cursor : string) (limit : Z)
    : list DirEntry * string :=
  match st_children s !! dir with
  | None => ([], ""%string)
  | Some m =>
      let sortedNames := sortedChildNames m in
      let startIdx := childPageStart sortedNames cursor in
      let limit := if limit <=? 0 then 1000 else limit in
      let names := take (Z.to_nat limit) (drop startIdx sortedNames) in
      let nextCursor :=
        if (startIdx + length names <? length sortedNames)%nat then default "" (last names) else "" in
      (map (entry_of s m) names, nextCursor)
  end.

(** ** Transactions *)

Record TxState := mkTx {
  tx_store : MemoryStore;
  tx_pendingDelta : Z;
  tx_quota : gmap (QuotaScope * Z) UsageStat;
}.

Definition on_store (f : MemoryStore -> MemoryStore) (t : TxState) : TxState :=
  mkTx (f (tx_store t)) (tx_pendingDelta t) (tx_quota t).

Definition Tx := M TxState.

Definition tx_read {A} (f : MemoryStore -> Result A) : Tx A := fun t => (f (tx_store t), t).

Definition GetFile (handle : FileHandle) : Tx File := tx_read (fun s => getFile s handle).
Definition GetChild (dir : FileHandle) (name : string) : Tx FileHandle :=
  tx_read (fun s => getChild s dir name).
Definition GetParent (handle : FileHandle) : Tx FileHandle := tx_read (fun s => getParent s handle).
Definition GetLinkCount (handle : FileHandle) : Tx Z := tx_read (fun s => inr (getLinkCount s handle)).

(** [ObjectID.IsZero] *)
Definition isZeroID (id : list Z) : bool := forallb (fun b => b =? 0) id.

(** Signed conversions of sizes. *)
Definition int64 (x : Z) : Z := i64 x.

(** The accounting of a [PutFile] on a regular file: [old] is the regular file
    the key held before. *)
Definition charge_put (old : option FileAttr) (new : FileAttr) (t : TxState) : TxState :=
  let oldSize := match old with Some o => fa_Size o | None => 0 end in
  let delta := i64 (tx_pendingDelta t + i64 (int64 (fa_Size new) - int64 oldSize)) in
  let q := tx_quota t in
  let q :=
    match old with
    | None => Add q (fa_UID new) (fa_GID new) (int64 (fa_Size new)) 1
    | Some o =>
        if (fa_UID o =? fa_UID new) && (fa_GID o =? fa_GID new)
        then Add q (fa_UID new) (fa_GID new) (i64 (int64 (fa_Size new) - int64 oldSize)) 0
        else Add (Add q (fa_UID o) (fa_GID o) (i64 (- int64 oldSize)) (-1))
               (fa_UID new) (fa_GID new) (int64 (fa_Size new)) 1
    end in
  mkTx (tx_store t) delta q.

Definition regular_at (s : MemoryStore) (key : FileHandle) : option FileAttr :=
  fd ← st_files s !! key;
  if is_type (fa_Type (fd_Attr fd)) FileTypeRegular then Some (fd_Attr fd) else None.

(** Steps 2 and 3 of the index maintenance, and the two map writes. *)
Definition store_put (key : FileHandle) (file : File) (s : MemoryStore) : MemoryStore :=
  let attr := f_Attr file in
  let idx := st_objectIndex s in
  let idx :=
    match st_files s !! key with
    | Some fd =>
        if negb (isZeroID (fa_ObjectID (fd_Attr fd))) &&
           negb (bool_decide (fa_ObjectID (fd_Attr fd) = fa_ObjectID attr))
        then delete (fa_ObjectID (fd_Attr fd)) idx else idx
    | None => idx
    end in
  let idx := if isZeroID (fa_ObjectID attr) then idx else <[fa_ObjectID attr := key]> idx in
  let s := set_objectIndex idx s in
  let s := set_files (<[key := mkFileData attr (f_ShareName file)]> (st_files s)) s in
  match st_linkCounts s !! key with
  | Some _ => s
  | None =>
      set_linkCounts
        (<[key := if is_type (fa_Type attr) FileTypeDirectory then 2 else 1]> (st_linkCounts s)) s
  end.

(** Another file already claims the ObjectID. *)
Definition claimed (s : MemoryStore) (key : FileHandle) (id : list Z) : bool :=
  negb (isZeroID id) &&
  match st_objectIndex s !! id with
  | Some other => negb (String.eqb other key)
  | None => false
  end.

Definition PutFile (file : File) : Tx unit := fun t =>
  match EncodeShareHandle (f_ShareName file) (f_ID file) with
  | inl _ => (inl (StoreError ErrInvalidHandle), t)
  | inr key =>
      let t :=
        if is_type (f_Type file) FileTypeRegular
        then charge_put (regular_at (tx_store t) key) (f_Attr file) t
        else t in
      if claimed (tx_store t) key (fa_ObjectID (f_Attr file))
      then (inl (StoreError ErrConflict), t)
      else (inr tt, on_store (store_put key file) t)
  end.

Definition store_delete (key : FileHandle) (attr : FileAttr) (s : MemoryStore) : MemoryStore :=
  let idx := st_objectIndex s in
  let idx :=
    if negb (isZeroID (fa_ObjectID attr)) && bool_decide (idx !! fa_ObjectID attr = Some key)
    then delete (fa_ObjectID attr) idx else idx in
  mkStore (st_shares s) (delete key (st_files s)) (delete key (st_parents s))
    (delete key (st_children s)) (delete key (st_linkCounts s)) idx (st_usedBytes s) (st_quota s).

Definition charge_delete (attr : FileAttr) (t : TxState) : TxState :=
  if is_type (fa_Type attr) FileTypeRegular then
    mkTx (tx_store t)
      (if fa_Size attr >? 0 then i64 (tx_pendingDelta t - int64 (fa_Size attr)) else tx_pendingDelta t)
      (Add (tx_quota t) (fa_UID attr) (fa_GID attr) (i64 (- int64 (fa_Size attr))) (-1))
  else t.

Definition DeleteFile (handle : FileHandle) : Tx unit := fun t =>
  match st_files (tx_store t) !! handle with
  | None => (inl (StoreError ErrNotFound), t)
  | Some fd => (inr tt, on_store (store_delete handle (fd_Attr fd)) (charge_delete (fd_Attr fd) t))
  end.

Definition store_set_child (dir : FileHandle) (name : string) (child : FileHandle) (s : MemoryStore)
    : MemoryStore :=
  set_children (<[dir := <[name := child]> (children_of s dir)]> (st_children s)) s.

Definition SetChild (dir : FileHandle) (name : string) (child : FileHandle) : Tx unit :=
  modify (on_store (store_set_child dir name child)).

Definition store_delete_child (dir : FileHandle) (name : string) (s : MemoryStore) : MemoryStore :=
  set_children (<[dir := delete name (children_of s dir)]> (st_children s)) s.

Definition DeleteChild (dir : FileHandle) (name : string) : Tx unit := fun t =>
  match getChild (tx_store t) dir name with
  | inl e => (inl e, t)
  | inr _ => (inr tt, on_store (store_delete_child dir name) t)
  end.

Definition store_set_parent (handle parent : FileHandle) (s : MemoryStore) : MemoryStore :=
  set_parents (<[handle := parent]> (st_parents s)) s.

Definition SetParent (handle parent : FileHandle) : Tx unit :=
  modify (on_store (store_set_parent handle parent)).

Definition store_set_link_count (handle : FileHandle) (count : Z) (s : MemoryStore) : MemoryStore :=
  set_linkCounts (<[handle := count]> (st_linkCounts s)) s.

Definition SetLinkCount (handle : FileHandle) (count : Z) : Tx unit :=
  modify (on_store (store_set_link_count handle count)).

(** [restoreLocked]: the maps of the snapshot over the current store. *)
Definition restoreLocked (snap s : MemoryStore) : MemoryStore :=
  mkStore (st_shares snap) (st_files snap) (st_parents snap) (st_children snap)
    (st_linkCounts snap) (st_objectIndex snap) (st_usedBytes s) (st_quota s).

(** Applying the accumulated counters at commit. *)
Definition commit (t : TxState) : MemoryStore :=
  let s := tx_store t in
  mkStore (st_shares s) (st_files s) (st_parents s) (st_children s) (st_linkCounts s)
    (st_objectIndex s)
    (if tx_pendingDelta t =? 0 then st_usedBytes s else i64 (st_usedBytes s + tx_pendingDelta t))
    (Apply (st_quota s) (tx_quota t)).

Definition WithTransaction {A} (fn : Tx A) : M MemoryStore A := fun s =>
  match fn (mkTx s 0 ∅) with
  | (inl e, t) => (inl e, restoreLocked s (tx_store t))
  | (inr a, t) => (inr a, commit t)
  end.
End Store.
