(* ===== verification/MetaService.v ===== *)
(** * The metadata service: namespace operations ([pkg/metadata/service.go],
    [file_create.go], [file_remove.go], [directory.go], [file_modify.go],
    [file_recycle.go], [dir_times.go], [pending_writes.go])

    Creating, linking, removing and moving entries, on the service state: the
    store, the coalesced directory timestamps, the buffered writes, the quota
    limits and the recycle-bin policy.  Each operation is the Go function: its
    validation, permission checks and lookups against the store, then its one
    transaction, then the bookkeeping after commit.

    All shares are served by one store; a handle of an unregistered share is
    stale.  The clock and the UUID generator are streams read through counters.
    Context cancellation, the optional read caches of other back ends and the
    mutexes that serialise transactions of those back ends are left out; change
    notifications are recorded as events. *)

From S2P Require Import Prelude.
From S2P Require Import AclTypes.
From S2P Require Import AclEvaluate.
From S2P Require Import AclInherit.
From S2P Require Import HoleMap.
From S2P Require Import MetaTypes.
From S2P Require Import Permissions.
From S2P Require Import Quota.
From S2P Require Import MetaStore.

Inductive DirChangeType := DirChangeAddEntry | DirChangeRemoveEntry | DirChangeRenameEntry.

Record dirTimes := mkDirTimes { dt_mtime : Z; dt_ctime : Z; dt_atime : Z; dt_lastFlush : Z }.

Definition dirTimesFlushInterval : Z := 2 * 10 ^ 9.

(** Glob matching of exclude patterns is a predicate of the configuration. *)
Record TrashConfig := mkTrashConfig { tc_Enabled : bool; tc_Excluded : string -> bool }.

Definition RecycleDirName : string := "#recycle".

Record PendingWriteState `{UuidLib} := mkPending {
  pw_MaxSize : Z;
  pw_LastMtime : Z;
  pw_PayloadID : string;
  pw_PreWriteAttr : option FileAttr;
  pw_ClearSetuidSetgid : bool;
  pw_CachedFile : option File;
}.

(** [sv_trash] is the policy's answer per share; without a policy it is [None]
    everywhere. *)
Record Service `{UuidLib} := mkService {
  sv_store : MemoryStore;
  sv_registered : gset string;
  sv_dirTimes : gmap FileHandle dirTimes;
  sv_pending : gmap FileHandle PendingWriteState;
  sv_quotas : quotaLimits;
  sv_shareQuota : gmap string Z;
  sv_deferredCommit : bool;
  sv_trash : string -> option TrashConfig;
  sv_events : list (FileHandle * DirChangeType);
  sv_clock : nat -> Z;
  sv_ticks : nat;
  sv_uuids : nat -> UUID;
  sv_ids : nat;
}.

Record DirWcc := mkDirWcc { wcc_Before : FileAttr; wcc_After : option FileAttr }.

Section Service.
Context `{U : UuidLib}.

Definition Svc := M Service.

Definition with_store (st : MemoryStore) (s : Service) : Service :=
  mkService _ st (sv_registered s) (sv_dirTimes s) (sv_pending s) (sv_quotas s) (sv_shareQuota s)
    (sv_deferredCommit s) (sv_trash s) (sv_events s) (sv_clock s) (sv_ticks s) (sv_uuids s) (sv_ids s).
Definition with_dirTimes (m : gmap FileHandle dirTimes) (s : Service) : Service :=
  mkService _ (sv_store s) (sv_registered s) m (sv_pending s) (sv_quotas s) (sv_shareQuota s)
    (sv_deferredCommit s) (sv_trash s) (sv_events s) (sv_clock s) (sv_ticks s) (sv_uuids s) (sv_ids s).
Definition with_pending (m : gmap FileHandle PendingWriteState) (s : Service) : Service :=
  mkService _ (sv_store s) (sv_registered s) (sv_dirTimes s) m (sv_quotas s) (sv_shareQuota s)
    (sv_deferredCommit s) (sv_trash s) (sv_events s) (sv_clock s) (sv_ticks s) (sv_uuids s) (sv_ids s).
Definition with_quotas (q : quotaLimits) (s : Service) : Service :=
  mkService _ (sv_store s) (sv_registered s) (sv_dirTimes s) (sv_pending s) q (sv_shareQuota s)
    (sv_deferredCommit s) (sv_trash s) (sv_events s) (sv_clock s) (sv_ticks s) (sv_uuids s) (sv_ids s).
Definition with_events (l : list (FileHandle * DirChangeType)) (s : Service) : Service :=
  mkService _ (sv_store s) (sv_registered s) (sv_dirTimes s) (sv_pending s) (sv_quotas s)
    (sv_shareQuota s) (sv_deferredCommit s) (sv_trash s) l (sv_clock s) (sv_ticks s) (sv_uuids s) (sv_ids s).
Definition with_ticks (n : nat) (s : Service) : Service :=
  mkService _ (sv_store s) (sv_registered s) (sv_dirTimes s) (sv_pending s) (sv_quotas s)
    (sv_shareQuota s) (sv_deferredCommit s) (sv_trash s) (sv_events s) (sv_clock s) n (sv_uuids s) (sv_ids s).
Definition with_ids (n : nat) (s : Service) : Service :=
  mkService _ (sv_store s) (sv_registered s) (sv_dirTimes s) (sv_pending s) (sv_quotas s)
    (sv_shareQuota s) (sv_deferredCommit s) (sv_trash s) (sv_events s) (sv_clock s) (sv_ticks s)
    (sv_uuids s) n.

Definition with_deferredCommit (b : bool) (s : Service) : Service :=
  mkService _ (sv_store s) (sv_registered s) (sv_dirTimes s) (sv_pending s) (sv_quotas s)
    (sv_shareQuota s) b (sv_trash s) (sv_events s) (sv_clock s) (sv_ticks s) (sv_uuids s) (sv_ids s).

(** [SetDeferredCommit] *)
Definition SetDeferredCommit (enabled : bool) : Svc unit := modify (with_deferredCommit enabled).

(** ** Environment *)

Definition time_Now : Svc Z := fun s =>
  (inr (sv_clock s (sv_ticks s)), with_ticks (S (sv_ticks s)) s).

Definition uuid_New : Svc UUID := fun s =>
  (inr (sv_uuids s (sv_ids s)), with_ids (S (sv_ids s)) s).

(** A read of the store. *)
Definition rd {A} (f : MemoryStore -> Result A) : Svc A := fun s => (f (sv_store s), s).

(** [withRelaxedTransaction]; this store has no relaxed variant. *)
Definition transact {A} (fn : Tx A) : Svc A := fun s =>
  let '(r, st) := WithTransaction fn (sv_store s) in (r, with_store st s).

Definition on_quotas {A} (m : M quotaLimits A) : Svc A := fun s =>
  let '(r, q) := m (sv_quotas s) in (r, with_quotas q s).

Definition notifyDirChange (dir : FileHandle) (ty : DirChangeType) : Svc unit :=
  modify (fun s => with_events (sv_events s ++ [(dir, ty)]) s).

Definition GetStoreForShare (shareName : string) : Svc unit :=
  ok ← gets (fun s => bool_decide (shareName ∈ sv_registered s));
  check ok ErrStaleHandle.

Definition storeForHandle (handle : FileHandle) : Svc unit :=
  p ← lift (DecodeFileHandle handle);
  GetStoreForShare p.1.

(** ** Permission checks against the store *)

Definition share_opts (s : MemoryStore) (shareName : string) : option ShareOptions :=
  match getShareOptions s shareName with inl _ => None | inr o => Some o end.

Definition shareIsReadOnly (handle : FileHandle) (s : Service) : bool :=
  match result (storeForHandle handle) s with
  | inl _ => false
  | inr _ =>
      match getFile (sv_store s) handle with
      | inl _ => false
      | inr file => opts_read_only (share_opts (sv_store s) (f_ShareName file))
      end
  end.

Definition shareForbidsWrites (ctx : AuthContext) (handle : FileHandle) (s : Service) : bool :=
  ac_ShareReadOnly ctx || shareIsReadOnly handle s.

Definition filePermissions (ctx : AuthContext) (handle : FileHandle) (file : File) (requested : Z)
    : Svc Z :=
  storeForHandle handle;;
  opts ← gets (fun s => share_opts (sv_store s) (f_ShareName file));
  mret (checkFilePermissionsFile ctx (f_Attr file) opts requested).

Definition checkFilePermissions (ctx : AuthContext) (handle : FileHandle) (requested : Z) : Svc Z :=
  storeForHandle handle;;
  file ← rd (fun st => getFile st handle);
  filePermissions ctx handle file requested.

Definition permission_result (handle : FileHandle) (granted perm : Z) : Svc unit :=
  ro ← gets (shareIsReadOnly handle);
  lift (permissionResult ro granted perm).

Definition checkPermission (ctx : AuthContext) (handle : FileHandle) (perm : Z) : Svc unit :=
  granted ← checkFilePermissions ctx handle perm;
  permission_result handle granted perm.

Definition checkFilePermission (ctx : AuthContext) (handle : FileHandle) (file : File) (perm : Z)
    : Svc unit :=
  granted ← filePermissions ctx handle file perm;
  permission_result handle granted perm.

Definition checkWritePermission (ctx : AuthContext) (handle : FileHandle) : Svc unit :=
  checkPermission ctx handle PermissionWrite.
Definition checkReadPermission (ctx : AuthContext) (handle : FileHandle) : Svc unit :=
  checkPermission ctx handle PermissionRead.
Definition checkExecutePermission (ctx : AuthContext) (handle : FileHandle) : Svc unit :=
  checkPermission ctx handle PermissionExecute.

Definition checkParentCreateAccess (ctx : AuthContext) (handle : FileHandle) (file : File)
    (isDirectory : bool) : Svc unit :=
  storeForHandle handle;;
  opts ← gets (fun s => share_opts (sv_store s) (f_ShareName file));
  ro ← gets (shareIsReadOnly handle);
  lift (CheckParentCreateAccessFile ctx (f_Attr file) opts ro isDirectory).

Definition checkDeletePermission (ctx : AuthContext) (parentHandle : FileHandle) : Svc unit :=
  if ac_HasDeleteAccess ctx && negb (ac_ShareReadOnly ctx) then mret tt
  else checkWritePermission ctx parentHandle.

(** ** Coalesced directory timestamps *)

(** The tracker's new entry and whether a flush is due. *)
Definition RecordBump (handle : FileHandle) (t : Z) (m : gmap FileHandle dirTimes)
    : gmap FileHandle dirTimes * bool :=
  let dt := default (mkDirTimes 0 0 0 t) (m !! handle) in
  let dt := if t >? dt_mtime dt then mkDirTimes t t t (dt_lastFlush dt) else dt in
  (<[handle := dt]> m, dirTimesFlushInterval <=? t - dt_lastFlush dt).

Definition ClearIfFlushed (handle : FileHandle) (flushedTo : Z) (m : gmap FileHandle dirTimes)
    : gmap FileHandle dirTimes :=
  match m !! handle with
  | None => m
  | Some dt =>
      if negb (dt_mtime dt >? flushedTo) then delete handle m
      else <[handle := mkDirTimes (dt_mtime dt) (dt_ctime dt) (dt_atime dt) flushedTo]> m
  end.

(** The updated attributes and whether a field advanced. *)
Definition applyDirTimes (attr : FileAttr) (dt : dirTimes) : FileAttr * bool :=
  let m := dt_mtime dt >? fa_Mtime attr in
  let c := dt_ctime dt >? fa_Ctime attr in
  let a := dt_atime dt >? fa_Atime attr in
  let attr := if m then set_Mtime (dt_mtime dt) attr else attr in
  let attr := if c then set_Ctime (dt_ctime dt) attr else attr in
  let attr := if a then set_Atime (dt_atime dt) attr else attr in
  (attr, m || c || a).

Definition mergeDirTimes (m : gmap FileHandle dirTimes) (handle : FileHandle) (attr : FileAttr)
    : FileAttr :=
  if negb (is_type (fa_Type attr) FileTypeDirectory) then attr
  else match m !! handle with
  | Some dt => (applyDirTimes attr dt).1
  | None => attr
  end.

Definition mergeDir (handle : FileHandle) (attr : FileAttr) : Svc FileAttr :=
  gets (fun s => mergeDirTimes (sv_dirTimes s) handle attr).

Definition flush_tx (dirHandle : FileHandle) (dt : dirTimes) : Tx unit :=
  dir ← GetFile dirHandle;
  if negb (is_type (f_Type dir) FileTypeDirectory) then mret tt
  else
    let '(attr, changed) := applyDirTimes (f_Attr dir) dt in
    if changed then PutFile (set_Attr (fun _ => attr) dir) else mret tt.

(** Best effort: a failure leaves the pending entry for a later flush. *)
Definition flushDirTimes (dirHandle : FileHandle) : Svc unit :=
  pend ← gets (fun s => sv_dirTimes s !! dirHandle);
  match pend with
  | None => mret tt
  | Some dt =>
      ok ← attempt (storeForHandle dirHandle);
      match ok with
      | inl _ => mret tt
      | inr _ =>
          r ← attempt (transact (flush_tx dirHandle dt));
          match r with
          | inl _ => mret tt
          | inr _ => modify (fun s => with_dirTimes (ClearIfFlushed dirHandle (dt_mtime dt) (sv_dirTimes s)) s)
          end
      end
  end.

Definition recordDirTimes (dirHandle : FileHandle) (t : Z) : Svc unit :=
  due ← (fun s => let '(m, due) := RecordBump dirHandle t (sv_dirTimes s) in (inr due, with_dirTimes m s));
  if (due : bool) then flushDirTimes dirHandle else mret tt.

(** ** Reading through the overlays *)

Definition mergePendingWrites (m : gmap FileHandle PendingWriteState) (handle : FileHandle) (file : File)
    : File :=
  match m !! handle with
  | None => file
  | Some p =>
      let file := if pw_MaxSize p >? fa_Size (f_Attr file)
                  then set_Attr (set_Size (pw_MaxSize p)) file else file in
      let file := if pw_LastMtime p >? fa_Mtime (f_Attr file)
                  then set_Attr (fun a => set_Ctime (pw_LastMtime p) (set_Mtime (pw_LastMtime p) a)) file
                  else file in
      if pw_ClearSetuidSetgid p
      then set_Attr (fun a => set_Mode (fa_Mode a .&^ (ModeSetuid .| ModeSetgid)) a) file else file
  end.

(** [Service.GetFile]: the stored file under its buffered writes and timestamps. *)
Definition ServiceGetFile (handle : FileHandle) : Svc File :=
  storeForHandle handle;;
  file ← rd (fun st => getFile st handle);
  file ← gets (fun s => mergePendingWrites (sv_pending s) handle file);
  attr ← mergeDir handle (f_Attr file);
  mret (set_Attr (fun _ => attr) file).

Definition ServiceGetChild (dirHandle : FileHandle) (name : string) : Svc FileHandle :=
  storeForHandle dirHandle;;
  rd (fun st => getChild st dirHandle name).

Definition ServiceGetRootHandle (shareName : string) : Svc FileHandle :=
  GetStoreForShare shareName;;
  rd (fun st => getRootHandle st shareName).

(** [Mtime = Ctime = Atime = now] of the returned directory attributes. *)
Definition bump_times (now : Z) (a : FileAttr) : FileAttr := set_Atime now (set_Ctime now (set_Mtime now a)).
End Service.
