(* ===== verification/Namespace.v ===== *)
(** * Namespace operations ([pkg/metadata/file_create.go], [file_remove.go],
    [directory.go], [file_modify.go], [file_recycle.go])

    [createEntry] and its wrappers, [CreateHardLink], [RemoveFile],
    [RemoveDirectory], [Move], [MarkFileAsOrphaned] and the recycle bin, each as
    the checks it makes, the transaction it runs and what it does after commit.
    [Move] and [recycleNode] call each other; the model takes fuel for the depth
    of that recursion, and two levels are enough. *)

From S2P Require Import Prelude.
From S2P Require Import AclTypes.
From S2P Require Import AclEvaluate.
From S2P Require Import AclInherit.
From S2P Require Import HoleMap.
From S2P Require Import MetaTypes.
From S2P Require Import Permissions.
From S2P Require Import Quota.
From S2P Require Import MetaStore.
From S2P Require Import MetaService.

Section Namespace.
Context `{U : UuidLib}.

(** [identity.HasGID] dereferences the identity. *)
Definition identity_HasGID (i : option Identity) (gid : Z) : Result bool :=
  match i with None => inl Panic | Some i => inr (HasGID i gid) end.

(** The mode and group of a new entry under the parent's set-group-ID bit. *)
Definition inherit_sgid (parent attr : FileAttr) (fileType : FileType) : FileAttr :=
  if has (fa_Mode parent) ModeSetgid then
    let attr := set_GID (fa_GID parent) attr in
    if is_type fileType FileTypeDirectory
    then set_Mode (fa_Mode attr .| ModeSetgid) attr
    else set_Mode (fa_Mode attr .&^ ModeSetgid) attr
  else attr.

Definition strip_setid (ctx : AuthContext) (attr : FileAttr) (fileType : FileType) : Result FileAttr :=
  if is_root ctx then inr attr
  else
    let attr := set_Mode (fa_Mode attr .&^ ModeSetuid) attr in
    if negb (is_type fileType FileTypeDirectory) && has (fa_Mode attr) ModeSetgid then
      match identity_HasGID (ac_Identity ctx) (fa_GID attr) with
      | inl e => inl e
      | inr true => inr attr
      | inr false => inr (set_Mode (fa_Mode attr .&^ ModeSetgid) attr)
      end
    else inr attr.

Definition creator_of (ctx : AuthContext) : Creator :=
  match ac_Identity ctx with
  | None => mkCreator 0 0 ""
  | Some i => mkCreator (default 0 (id_UID i)) (default 0 (id_GID i)) (default "" (id_SID i))
  end.

(** Everything the new entry's attributes depend on. *)
Definition new_attributes (ctx : AuthContext) (parent : File) (attr : FileAttr) (fileType : FileType)
    (linkTarget : string) (deviceMajor deviceMinor : Z) (id : UUID) (now : Z) : Result FileAttr :=
  let a := set_LinkTarget linkTarget (set_Type fileType attr) in
  let a := ApplyCreateDefaults a linkTarget now in
  let a := ApplyOwnerDefaults a ctx in
  let a := inherit_sgid (f_Attr parent) a fileType in
  match strip_setid ctx a fileType with
  | inl e => inl e
  | inr a =>
      let a := if is_type fileType FileTypeRegular
               then set_PayloadID (buildPayloadID (f_ShareName parent) id) a else a in
      let a := if is_type fileType FileTypeBlockDevice || is_type fileType FileTypeCharDevice
               then set_Rdev (MakeRdev deviceMajor deviceMinor) a else a in
      inr (set_Nlink (GetInitialLinkCount fileType) a)
  end.

Definition inherit_acl (ctx : AuthContext) (parent : File) (fileType : FileType) (a : FileAttr)
    : FileAttr :=
  match fa_ACL (f_Attr parent) with
  | None => a
  | Some p =>
      set_ACL (ComputeInheritedACL (Some p) (is_type fileType FileTypeDirectory) (creator_of ctx)) a
  end.

(** [err == nil] means the name is taken; an error other than not-found is returned. *)
Definition require_absent (dir : FileHandle) (name : string) : Svc unit :=
  r ← attempt (rd (fun st => getChild st dir name));
  match r with
  | inr _ => fail ErrAlreadyExists
  | inl e => if IsNotFoundError e then mret tt else throw e
  end.

Definition tx_require_absent (dir : FileHandle) (name : string) : Tx unit :=
  r ← attempt (GetChild dir name);
  match r with
  | inr _ => fail ErrAlreadyExists
  | inl _ => mret tt
  end.

Definition create_tx (parentHandle newHandle : FileHandle) (name : string) (newFile : File) : Tx unit :=
  tx_require_absent parentHandle name;;
  PutFile newFile;;
  SetLinkCount newHandle (fa_Nlink (f_Attr newFile));;
  SetParent newHandle parentHandle;;
  SetChild parentHandle name newHandle;;
  if is_type (f_Type newFile) FileTypeDirectory then
    n ← GetLinkCount parentHandle;
    SetLinkCount parentHandle (u32 (n + 1))
  else mret tt.

Definition createEntry (ctx : AuthContext) (parentHandle : FileHandle) (name : string)
    (attr : FileAttr) (fileType : FileType) (linkTarget : string) (deviceMajor deviceMinor : Z)
    : Svc (File * DirWcc) :=
  storeForHandle parentHandle;;
  lift (ValidateName name);;
  parent ← rd (fun st => getFile st parentHandle);
  check (is_type (f_Type parent) FileTypeDirectory) ErrNotDirectory;;
  let fullPath := buildPath (f_Path parent) name in
  lift (ValidatePath fullPath);;
  checkParentCreateAccess ctx parentHandle parent (is_type fileType FileTypeDirectory);;
  require_absent parentHandle name;;
  newID ← uuid_New;
  newHandle ← lift (GenerateNewHandle (f_ShareName parent) newID);
  p ← lift (DecodeFileHandle newHandle);
  t0 ← time_Now;
  newAttr ← lift (new_attributes ctx parent attr fileType linkTarget deviceMajor deviceMinor p.2 t0);
  (if is_type fileType FileTypeRegular then
     c ← gets (fun s => st_quota (sv_store s));
     now ← time_Now;
     on_quotas (checkIdentityQuotas (f_ShareName parent) c (fa_UID newAttr) (fa_GID newAttr)
       (i64 (fa_Size newAttr)) 1 now)
   else mret tt);;
  let newFile := mkFile _ p.2 (f_ShareName parent) fullPath (inherit_acl ctx parent fileType newAttr) in
  before ← mergeDir parentHandle (f_Attr parent);
  now ← time_Now;
  transact (create_tx parentHandle newHandle name newFile);;
  recordDirTimes parentHandle now;;
  mret (newFile, mkDirWcc (CopyFileAttr before) (Some (CopyFileAttr (bump_times now before)))).

Definition notifying {A} (dir : FileHandle) (ty : DirChangeType) (m : Svc A) : Svc A :=
  a ← m; notifyDirChange dir ty;; mret a.

Definition CreateFile (ctx : AuthContext) (parentHandle : FileHandle) (name : string) (attr : FileAttr)
    : Svc (File * DirWcc) :=
  notifying parentHandle DirChangeAddEntry
    (createEntry ctx parentHandle name attr FileTypeRegular "" 0 0).

Definition CreateDirectory (ctx : AuthContext) (parentHandle : FileHandle) (name : string)
    (attr : FileAttr) : Svc (File * DirWcc) :=
  notifying parentHandle DirChangeAddEntry
    (createEntry ctx parentHandle name attr FileTypeDirectory "" 0 0).

Definition CreateSymlink (ctx : AuthContext) (parentHandle : FileHandle) (name target : string)
    (attr : FileAttr) : Svc (File * DirWcc) :=
  lift (ValidateSymlinkTarget target);;
  notifying parentHandle DirChangeAddEntry
    (createEntry ctx parentHandle name attr FileTypeSymlink target 0 0).

Definition CreateSpecialFile (ctx : AuthContext) (parentHandle : FileHandle) (name : string)
    (fileType : FileType) (attr : FileAttr) (deviceMajor deviceMinor : Z) : Svc (File * DirWcc) :=
  lift (ValidateSpecialFileType fileType);;
  (if is_type fileType FileTypeBlockDevice || is_type fileType FileTypeCharDevice
   then lift (RequiresRoot ctx) else mret tt);;
  notifying parentHandle DirChangeAddEntry
    (createEntry ctx parentHandle name attr fileType "" deviceMajor deviceMinor).

(** ** Hard links *)

(** [if txDir, err := tx.GetFile(h); err == nil { dir = txDir }] *)
Definition reread (handle : FileHandle) (old : File) : Tx File :=
  r ← attempt (GetFile handle);
  mret (match r with inr f => f | inl _ => old end).

Definition link_tx (dirHandle targetHandle : FileHandle) (name : string) (dir target : File) (now : Z)
    : Tx DirWcc :=
  dir ← reread dirHandle dir;
  tx_require_absent dirHandle name;;
  SetChild dirHandle name targetHandle;;
  n ← GetLinkCount targetHandle;
  SetLinkCount targetHandle (u32 (n + 1));;
  PutFile (set_Attr (set_Ctime now) target);;
  let after := set_Attr (fun a => set_Ctime now (set_Mtime now a)) dir in
  PutFile after;;
  mret (mkDirWcc (CopyFileAttr (f_Attr dir)) (Some (CopyFileAttr (f_Attr after)))).

Definition CreateHardLink (ctx : AuthContext) (dirHandle : FileHandle) (name : string)
    (targetHandle : FileHandle) : Svc DirWcc :=
  storeForHandle dirHandle;;
  lift (ValidateName name);;
  dir ← rd (fun st => getFile st dirHandle);
  check (is_type (f_Type dir) FileTypeDirectory) ErrNotDirectory;;
  lift (ValidatePath (buildPath (f_Path dir) name));;
  checkWritePermission ctx dirHandle;;
  target ← rd (fun st => getFile st targetHandle);
  check (negb (is_type (f_Type target) FileTypeDirectory)) ErrIsDirectory;;
  require_absent dirHandle name;;
  now ← time_Now;
  wcc ← transact (link_tx dirHandle targetHandle name dir target now);
  notifyDirChange dirHandle DirChangeAddEntry;;
  mret wcc.

(** ** Removing *)

Definition PopPending (handle : FileHandle) : Svc unit :=
  modify (fun s => with_pending (delete handle (sv_pending s)) s).

(** The transaction of [RemoveFile]; the result is the link count it leaves. *)
Definition remove_tx (parentHandle fileHandle : FileHandle) (name : string) (file : File) (now : Z)
    : Tx Z :=
  linkCount ← GetLinkCount fileHandle;
  left ← (if linkCount >? 1 then
            SetLinkCount fileHandle (linkCount - 1);;
            PutFile (set_Attr (set_Ctime now) file);;
            mret (linkCount - 1)
          else
            SetLinkCount fileHandle 0;;
            PutFile (set_Attr (fun a => set_Nlink 0 (set_Ctime now a)) file);;
            mret 0);
  DeleteChild parentHandle name;;
  mret left.

(** What the caller gets back: an empty payload while other links remain. *)
Definition removed_view (file : File) (left now : Z) : File :=
  set_Attr (fun a =>
    let a := if left >? 0 then set_PayloadID "" a else a in
    set_Ctime now (set_Nlink left a)) file.

(** The share-relative path of an entry, without the leading slash. *)
Definition rel_path (parent : File) (name : string) : string :=
  trim_prefix "/" (buildPath (f_Path parent) name).

Definition inRecycle (relPath : string) : bool :=
  let rel := trim_prefix "/" relPath in
  String.eqb rel RecycleDirName || has_prefix (RecycleDirName +:+ "/") rel.

(** The share's bin applies to this entry. *)
Definition recycles (handle : FileHandle) (parent : File) (name : string) (s : Service) : bool :=
  match sv_trash s (shareNameForHandle handle) with
  | Some cfg => tc_Enabled cfg && negb (inRecycle (rel_path parent name)) && negb (tc_Excluded cfg name)
  | None => false
  end.

(** [recycle] is [recycleNode]. *)
Definition RemoveFile_with (recycle : AuthContext -> string -> FileHandle -> string -> string -> Svc File)
    (ctx : AuthContext) (parentHandle : FileHandle) (name : string) : Svc (File * DirWcc) :=
  storeForHandle parentHandle;;
  lift (ValidateName name);;
  parent ← rd (fun st => getFile st parentHandle);
  check (is_type (f_Type parent) FileTypeDirectory) ErrNotDirectory;;
  fileHandle ← rd (fun st => getChild st parentHandle name);
  file ← rd (fun st => getFile st fileHandle);
  check (negb (is_type (f_Type file) FileTypeDirectory)) ErrIsDirectory;;
  checkDeletePermission ctx parentHandle;;
  lift (CheckStickyBitRestriction ctx (f_Attr parent) (f_Attr file));;
  bin ← gets (recycles parentHandle parent name);
  if (bin : bool) then
    recycled ← recycle ctx (shareNameForHandle parentHandle) parentHandle name (rel_path parent name);
    after ← attempt (rd (fun st => getFile st parentHandle));
    notifyDirChange parentHandle DirChangeRemoveEntry;;
    mret (recycled, mkDirWcc (CopyFileAttr (f_Attr parent))
      (match after with inr f => Some (CopyFileAttr (f_Attr f)) | inl _ => None end))
  else
    before ← mergeDir parentHandle (f_Attr parent);
    now ← time_Now;
    left ← transact (remove_tx parentHandle fileHandle name file now);
    (if left =? 0 then PopPending fileHandle else mret tt);;
    recordDirTimes parentHandle now;;
    notifyDirChange parentHandle DirChangeRemoveEntry;;
    mret (removed_view file left now,
          mkDirWcc (CopyFileAttr before) (Some (CopyFileAttr (bump_times now before)))).

(** The transaction of [RemoveDirectory]. *)
Definition rmdir_tx (parentHandle dirHandle : FileHandle) (name : string) (parent : File)
    (times : gmap FileHandle dirTimes) : Tx FileAttr :=
  parent ← reread parentHandle parent;
  let before := mergeDirTimes times parentHandle (f_Attr parent) in
  DeleteFile dirHandle;;
  DeleteChild parentHandle name;;
  n ← GetLinkCount parentHandle;
  (if n >? 0 then SetLinkCount parentHandle (n - 1) else mret tt);;
  mret before.

Definition RemoveDirectory_with
    (recycle : AuthContext -> string -> FileHandle -> string -> string -> Svc File)
    (ctx : AuthContext) (parentHandle : FileHandle) (name : string) : Svc DirWcc :=
  storeForHandle parentHandle;;
  lift (ValidateName name);;
  parent ← rd (fun st => getFile st parentHandle);
  check (is_type (f_Type parent) FileTypeDirectory) ErrNotDirectory;;
  dirHandle ← rd (fun st => getChild st parentHandle name);
  dir ← rd (fun st => getFile st dirHandle);
  check (is_type (f_Type dir) FileTypeDirectory) ErrNotDirectory;;
  checkDeletePermission ctx parentHandle;;
  lift (CheckStickyBitRestriction ctx (f_Attr parent) (f_Attr dir));;
  bin ← gets (recycles parentHandle parent name);
  if (bin : bool) then
    recycle ctx (shareNameForHandle parentHandle) parentHandle name (rel_path parent name);;
    after ← attempt (rd (fun st => getFile st parentHandle));
    notifyDirChange parentHandle DirChangeRemoveEntry;;
    mret (mkDirWcc (CopyFileAttr (f_Attr parent))
      (match after with inr f => Some (CopyFileAttr (f_Attr f)) | inl _ => None end))
  else
    entries ← gets (fun s => (ListChildren (sv_store s) dirHandle "" 1).1);
    check (match entries with [] => true | _ => false end) ErrNotEmpty;;
    now ← time_Now;
    times ← gets sv_dirTimes;
    before ← transact (rmdir_tx parentHandle dirHandle name parent times);
    recordDirTimes parentHandle now;;
    modify (fun s => with_dirTimes (delete dirHandle (sv_dirTimes s)) s);;
    notifyDirChange parentHandle DirChangeRemoveEntry;;
    mret (mkDirWcc (CopyFileAttr before) (Some (CopyFileAttr (bump_times now before)))).

(** ** Moving *)

Definition RenameWcc : Type := DirWcc * DirWcc.

(** Unlinking a replaced destination file inside the rename's transaction. *)
Definition unlink_tx (dstHandle : FileHandle) (dstFile : File) (now : Z) : Tx unit :=
  linkCount ← GetLinkCount dstHandle;
  SetLinkCount dstHandle (if linkCount >? 1 then linkCount - 1 else 0);;
  PutFile (set_Attr (set_Ctime now) dstFile).

Definition replace_tx (toDir : FileHandle) (toName : string) (dst : option (FileHandle * File)) (now : Z)
    : Tx unit :=
  match dst with
  | None => mret tt
  | Some (dstHandle, dstFile) =>
      (if is_type (f_Type dstFile) FileTypeDirectory then DeleteFile dstHandle
       else unlink_tx dstHandle dstFile now);;
      DeleteChild toDir toName
  end.

(** The link counts of the two parents when a directory changes parent. *)
Definition reparent_tx (fromDir toDir srcHandle : FileHandle) (isDir : bool) : Tx unit :=
  SetParent srcHandle toDir;;
  if isDir then
    n ← GetLinkCount fromDir;
    (if n >? 0 then SetLinkCount fromDir (n - 1) else mret tt);;
    n ← GetLinkCount toDir;
    SetLinkCount toDir (u32 (n + 1))
  else mret tt.

Definition move_tx (fromDir toDir srcHandle : FileHandle) (fromName toName : string)
    (srcDir dstDir srcFile : File) (dst : option (FileHandle * File))
    (times : gmap FileHandle dirTimes) (now now' : Z) : Tx (FileAttr * FileAttr) :=
  let sameDir := String.eqb fromDir toDir in
  srcDir ← reread fromDir srcDir;
  let srcBefore := mergeDirTimes times fromDir (f_Attr srcDir) in
  dstBefore ← (if sameDir then mret srcBefore
               else dstDir ← reread toDir dstDir; mret (mergeDirTimes times toDir (f_Attr dstDir)));
  replace_tx toDir toName dst now';;
  DeleteChild fromDir fromName;;
  SetChild toDir toName srcHandle;;
  (if negb sameDir then reparent_tx fromDir toDir srcHandle (is_type (f_Type srcFile) FileTypeDirectory)
   else mret tt);;
  PutFile (set_Attr (set_Ctime now) srcFile);;
  mret (srcBefore, dstBefore).

(** The checks on an existing destination; the result is what the transaction
    has to remove ([None] when the victim has just been recycled). *)
Definition check_destination
    (recycle : AuthContext -> string -> FileHandle -> string -> string -> Svc File)
    (ctx : AuthContext) (toDir : FileHandle) (toName : string) (dstDir srcFile : File)
    : Svc (option (FileHandle * File)) :=
  r ← attempt (rd (fun st => getChild st toDir toName));
  match r with
  | inl e => if IsNotFoundError e then mret None else throw e
  | inr dstHandle =>
      dstFile ← rd (fun st => getFile st dstHandle);
      lift (CheckStickyBitRestriction ctx (f_Attr dstDir) (f_Attr dstFile));;
      if is_type (f_Type srcFile) FileTypeDirectory then
        check (is_type (f_Type dstFile) FileTypeDirectory) ErrNotDirectory;;
        entries ← gets (fun s => (ListChildren (sv_store s) dstHandle "" 1).1);
        check (match entries with [] => true | _ => false end) ErrNotEmpty;;
        mret (Some (dstHandle, dstFile))
      else
        check (negb (is_type (f_Type dstFile) FileTypeDirectory)) ErrIsDirectory;;
        bin ← gets (recycles toDir dstDir toName);
        if (bin : bool) then
          recycle ctx (shareNameForHandle toDir) toDir toName (rel_path dstDir toName);;
          mret None
        else mret (Some (dstHandle, dstFile))
  end.

(** Leaving a sticky directory for another parent takes ownership of the moved
    directory. *)
Definition check_sticky_reparent (ctx : AuthContext) (fromDir toDir : FileHandle)
    (srcDir srcFile : File) : Result unit :=
  if is_type (f_Type srcFile) FileTypeDirectory && negb (String.eqb fromDir toDir) &&
     has (fa_Mode (f_Attr srcDir)) ModeSticky
  then
    let callerUID := default max_u32 (caller_UID ctx) in
    if negb (callerUID =? 0) && negb (fa_UID (f_Attr srcFile) =? callerUID)
    then inl (StoreError ErrAccessDenied) else inr tt
  else inr tt.

Definition Move_with
    (recycle : AuthContext -> string -> FileHandle -> string -> string -> Svc File)
    (ctx : AuthContext) (fromDir : FileHandle) (fromName : string) (toDir : FileHandle)
    (toName : string) : Svc (option RenameWcc) :=
  storeForHandle fromDir;;
  lift (ValidateName fromName);;
  lift (ValidateName toName);;
  if String.eqb fromDir toDir && String.eqb fromName toName then mret None
  else
    srcDir ← rd (fun st => getFile st fromDir);
    check (is_type (f_Type srcDir) FileTypeDirectory) ErrNotDirectory;;
    dstDir ← rd (fun st => getFile st toDir);
    check (is_type (f_Type dstDir) FileTypeDirectory) ErrNotDirectory;;
    lift (ValidatePath (buildPath (f_Path dstDir) toName));;
    checkWritePermission ctx fromDir;;
    checkWritePermission ctx toDir;;
    srcHandle ← rd (fun st => getChild st fromDir fromName);
    srcFile ← rd (fun st => getFile st srcHandle);
    lift (CheckStickyBitRestriction ctx (f_Attr srcDir) (f_Attr srcFile));;
    lift (check_sticky_reparent ctx fromDir toDir srcDir srcFile);;
    dst ← check_destination recycle ctx toDir toName dstDir srcFile;
    now ← time_Now;
    now' ← time_Now;
    times ← gets sv_dirTimes;
    befores ← transact (move_tx fromDir toDir srcHandle fromName toName srcDir dstDir srcFile dst
                          times now now');
    let sameDir := String.eqb fromDir toDir in
    recordDirTimes fromDir now;;
    (if negb sameDir then recordDirTimes toDir now else mret tt);;
    notifyDirChange fromDir DirChangeRenameEntry;;
    (if negb sameDir then notifyDirChange toDir DirChangeAddEntry else mret tt);;
    let wcc a := mkDirWcc (CopyFileAttr a) (Some (CopyFileAttr (set_Ctime now (set_Mtime now a)))) in
    mret (Some (wcc befores.1, wcc befores.2)).

(** ** The recycle bin *)

Definition principalOf (ctx : AuthContext) : string :=
  match ac_Identity ctx with
  | None => ""
  | Some i =>
      if negb (String.eqb (id_Username i) "") then id_Username i
      else match id_UID i with Some u => dec_string (Z.to_N u) | None => "" end
  end.

Definition ensureChildDir (ctx : AuthContext) (parentHandle : FileHandle) (name : string) (perm : Z)
    : Svc FileHandle :=
  r ← attempt (ServiceGetChild parentHandle name);
  match r with
  | inr h =>
      existing ← ServiceGetFile h;
      check (is_type (f_Type existing) FileTypeDirectory) ErrNotDirectory;;
      mret h
  | inl _ =>
      let attr := mkFileAttr FileTypeDirectory perm 0 0 0 0 0 0 0 0 "" "" 0 false None ∅ 0 [] [] None "" "" in
      r ← attempt (CreateDirectory ctx parentHandle name attr);
      match r with
      | inl e => if bool_decide (e = StoreError ErrAlreadyExists) then mret tt else throw e
      | inr _ => mret tt
      end;;
      ServiceGetChild parentHandle name
  end.

Fixpoint ensureChildDirs (ctx : AuthContext) (parentHandle : FileHandle) (dirs : list string)
    : Svc FileHandle :=
  match dirs with
  | [] => mret parentHandle
  | d :: dirs =>
      h ← ensureChildDir ctx parentHandle d 0x1C0;
      ensureChildDirs ctx h dirs
  end.

Definition maxBinNameAttempts : nat := 1000.

Fixpoint free_name_loop (fuel attempt_no : nat) (destParent : FileHandle) (name nanos candidate : string)
    : Svc string :=
  match fuel with
  | O => fail ErrAlreadyExists
  | S fuel =>
      r ← attempt (ServiceGetChild destParent candidate);
      match r with
      | inl e => if IsNotFoundError e then mret candidate else throw e
      | inr _ =>
          let next :=
            match attempt_no with
            | O => name +:+ " (" +:+ nanos +:+ ")"
            | _ => name +:+ " (" +:+ nanos +:+ "-" +:+ dec_string (N.of_nat attempt_no) +:+ ")"
            end in
          free_name_loop fuel (S attempt_no) destParent name nanos next
      end
  end.

Definition freeBinName (destParent : FileHandle) (name : string) : Svc string :=
  now ← time_Now;
  free_name_loop maxBinNameAttempts 0 destParent name (dec_string (Z.to_N now)) name.

Definition stamp_tx (handle : FileHandle) (deletedAt : option Z) (origRel deletedBy : string) : Svc unit :=
  storeForHandle handle;;
  file ← rd (fun st => getFile st handle);
  transact (PutFile (set_Attr (set_trash deletedAt origRel deletedBy) file)).

Definition stampRecycled (handle : FileHandle) (deletedAt : Z) (origRel deletedBy : string) : Svc unit :=
  stamp_tx handle (Some deletedAt) origRel deletedBy.

Definition clearRecycleStamp (handle : FileHandle) : Svc unit := stamp_tx handle None "" "".

Definition recycleNode_with
    (move : AuthContext -> FileHandle -> string -> FileHandle -> string -> Svc (option RenameWcc))
    (ctx : AuthContext) (shareName : string) (parentHandle : FileHandle) (name origRel : string)
    : Svc File :=
  victimHandle ← ServiceGetChild parentHandle name;
  victim ← ServiceGetFile victimHandle;
  rootHandle ← ServiceGetRootHandle shareName;
  binHandle ← ensureChildDir ctx rootHandle RecycleDirName 0x1C0;
  let rel := trim_prefix "/" origRel in
  let parts := split_slash rel in
  destParent ← ensureChildDirs ctx binHandle (removelast parts);
  destName ← freeBinName destParent (List.last parts ""%string);
  now ← time_Now;
  stampRecycled victimHandle now rel (principalOf ctx);;
  r ← attempt (move ctx parentHandle name destParent destName);
  match r with
  | inl _ =>
      attempt (clearRecycleStamp victimHandle);;
      fail ErrIOError
  | inr _ => mret (set_Attr (set_PayloadID "") victim)
  end.

(** The mutual recursion of [Move] and [recycleNode], with fuel for its depth. *)
Fixpoint Move_fuel (fuel : nat) (ctx : AuthContext) (fromDir : FileHandle) (fromName : string)
    (toDir : FileHandle) (toName : string) : Svc (option RenameWcc) :=
  match fuel with
  | O => throw Panic
  | S fuel => Move_with (recycleNode_with (Move_fuel fuel)) ctx fromDir fromName toDir toName
  end.

Definition Move := Move_fuel 2.
Definition recycleNode := recycleNode_with (Move_fuel 1).

Definition RemoveFile := RemoveFile_with recycleNode.
Definition RemoveDirectory := RemoveDirectory_with recycleNode.

Definition MarkFileAsOrphaned (handle : FileHandle) : Svc unit :=
  storeForHandle handle;;
  file ← rd (fun st => getFile st handle);
  if is_type (f_Type file) FileTypeDirectory then mret tt
  else
    transact (SetLinkCount handle 0);;
    now ← time_Now;
    transact (PutFile (set_Attr (fun a => set_Ctime now (set_Nlink 0 a)) file)).
End Namespace.
