(* ===== verification/FsSpec.v ===== *)
(** * An abstract namespace

    The specification the namespace operations are checked against: inodes with
    their types, directory entries, parent edges and link counts, and what
    creating, linking, unlinking, removing and renaming do to them.  The
    invariant is what makes it a file system: entries lead from directories to
    inodes, a file's link count is the number of its names, a directory's is two
    plus the number of its subdirectories, a directory has at most one name, its
    parent edge is that name's directory, and no directory contains itself. *)

From S2P Require Import Prelude.
From S2P Require Import MetaTypes.

Record Fs := mkFs {
  fs_types : gmap FileHandle FileType;
  fs_entries : gmap (FileHandle * string) FileHandle;
  fs_parents : gmap FileHandle FileHandle;
  fs_links : gmap FileHandle Z;
}.

Definition is_dir (f : Fs) (h : FileHandle) : Prop := fs_types f !! h = Some FileTypeDirectory.

#[export] Instance is_dir_dec f h : Decision (is_dir f h).
Proof. unfold is_dir. apply _. Defined.

(** The number of names of an inode, and of subdirectories of a directory. *)
Definition nrefs (f : Fs) (h : FileHandle) : Z :=
  Z.of_nat (size (filter (fun e => e.2 = h) (fs_entries f))).

Definition nsub (f : Fs) (d : FileHandle) : Z :=
  Z.of_nat (size (filter (fun e => e.1.1 = d /\ is_dir f e.2) (fs_entries f))).

(** [h] is a subdirectory of [d]. *)
Definition edge (f : Fs) (d h : FileHandle) : Prop :=
  exists n, fs_entries f !! (d, n) = Some h /\ is_dir f h.

Record fs_ok (f : Fs) : Prop := {
  ok_entry : forall d n h, fs_entries f !! (d, n) = Some h -> is_dir f d /\ is_Some (fs_types f !! h);
  ok_file_links : forall h ty, fs_types f !! h = Some ty -> ty <> FileTypeDirectory ->
    fs_links f !! h = Some (nrefs f h);
  ok_dir_links : forall h, is_dir f h -> fs_links f !! h = Some (2 + nsub f h);
  ok_dir_once : forall k1 k2 h, fs_entries f !! k1 = Some h -> fs_entries f !! k2 = Some h ->
    is_dir f h -> k1 = k2;
  ok_parent : forall d n h, fs_entries f !! (d, n) = Some h -> is_dir f h ->
    fs_parents f !! h = Some d;
  ok_acyclic : forall h, ~ tc (edge f) h h;
}.

(** ** Operations *)

Definition fs_link_count (f : Fs) (h : FileHandle) : Z := default 0 (fs_links f !! h).

Definition fs_create (d : FileHandle) (n : string) (h : FileHandle) (ty : FileType) (f : Fs) : Fs :=
  let links := <[h := if is_type ty FileTypeDirectory then 2 else 1]> (fs_links f) in
  mkFs (<[h := ty]> (fs_types f)) (<[(d, n) := h]> (fs_entries f)) (<[h := d]> (fs_parents f))
    (if is_type ty FileTypeDirectory then <[d := fs_link_count f d + 1]> links else links).

Definition fs_link (d : FileHandle) (n : string) (h : FileHandle) (f : Fs) : Fs :=
  mkFs (fs_types f) (<[(d, n) := h]> (fs_entries f)) (fs_parents f)
    (<[h := fs_link_count f h + 1]> (fs_links f)).

(** Removing a name of a file; its inode stays, with no links, after the last. *)
Definition fs_unlink (d : FileHandle) (n : string) (h : FileHandle) (f : Fs) : Fs :=
  mkFs (fs_types f) (delete (d, n) (fs_entries f)) (fs_parents f)
    (<[h := fs_link_count f h - 1]> (fs_links f)).

Definition fs_rmdir (d : FileHandle) (n : string) (h : FileHandle) (f : Fs) : Fs :=
  mkFs (delete h (fs_types f)) (delete (d, n) (fs_entries f)) (delete h (fs_parents f))
    (<[d := fs_link_count f d - 1]> (delete h (fs_links f))).

(** Renaming an entry to a free name. *)
Definition fs_rename (fd : FileHandle) (fn : string) (td : FileHandle) (tn : string) (h : FileHandle)
    (f : Fs) : Fs :=
  let links :=
    if decide (is_dir f h /\ fd <> td) then
      let l := <[fd := fs_link_count f fd - 1]> (fs_links f) in
      <[td := default 0 (l !! td) + 1]> l
    else fs_links f in
  mkFs (fs_types f) (<[(td, tn) := h]> (delete (fd, fn) (fs_entries f)))
    (if decide (fd = td) then fs_parents f else <[h := td]> (fs_parents f)) links.

(** ** Counting *)

Lemma size_filter_insert {K A} `{Countable K} (P : K * A -> Prop) `{!forall x, Decision (P x)}
    (m : gmap K A) k v :
  m !! k = None ->
  size (filter P (<[k := v]> m)) = ((if decide (P (k, v)) then 1 else 0) + size (filter P m))%nat.
Proof.
  intros Hk. destruct (decide (P (k, v))) as [HP|HP].
  - rewrite map_filter_insert_True by done. apply map_size_insert_None.
    apply map_lookup_filter_None. naive_solver.
  - rewrite map_filter_insert_False by done. now rewrite delete_id.
Qed.

Lemma size_filter_delete {K A} `{Countable K} (P : K * A -> Prop) `{!forall x, Decision (P x)}
    (m : gmap K A) k v :
  m !! k = Some v ->
  size (filter P m) = ((if decide (P (k, v)) then 1 else 0) + size (filter P (delete k m)))%nat.
Proof.
  intros Hk. rewrite <- (insert_delete_id m k v Hk) at 1.
  apply size_filter_insert, lookup_delete_eq.
Qed.

Lemma nrefs_insert (f f' : Fs) k h h' :
  fs_entries f' = <[k := h]> (fs_entries f) -> fs_entries f !! k = None ->
  nrefs f' h' = nrefs f h' + if decide (h = h') then 1 else 0.
Proof.
  intros E Hk. unfold nrefs. rewrite E, size_filter_insert by done. cbn.
  repeat case_decide; lia.
Qed.

Lemma nrefs_delete (f f' : Fs) k h h' :
  fs_entries f' = delete k (fs_entries f) -> fs_entries f !! k = Some h ->
  nrefs f' h' = nrefs f h' - if decide (h = h') then 1 else 0.
Proof.
  intros E Hk. unfold nrefs. rewrite E, (size_filter_delete _ (fs_entries f) k h) by done. cbn.
  repeat case_decide; lia.
Qed.

(** The subdirectory count only looks at entries, and at the types of what they name. *)
Definition same_dirs (f f' : Fs) : Prop :=
  forall k h, fs_entries f !! k = Some h -> (is_dir f h <-> is_dir f' h).

Lemma filter_sub_ext (f f' : Fs) (m : gmap (FileHandle * string) FileHandle) d :
  (forall k h, m !! k = Some h -> (is_dir f h <-> is_dir f' h)) ->
  size (filter (fun e => e.1.1 = d /\ is_dir f e.2) m) =
  size (filter (fun e => e.1.1 = d /\ is_dir f' e.2) m).
Proof.
  intros Hs. f_equal. apply map_filter_ext. intros k h Hk. cbn. now rewrite (Hs k h Hk).
Qed.

Lemma nsub_insert (f f' : Fs) k h d' :
  fs_entries f' = <[k := h]> (fs_entries f) -> fs_entries f !! k = None -> same_dirs f f' ->
  nsub f' d' = nsub f d' + if decide (k.1 = d' /\ is_dir f' h) then 1 else 0.
Proof.
  intros E Hk Hs. unfold nsub. rewrite E, size_filter_insert, <- (filter_sub_ext f f') by done. cbn.
  repeat case_decide; lia.
Qed.

Lemma nsub_delete (f f' : Fs) k h d' :
  fs_entries f' = delete k (fs_entries f) -> fs_entries f !! k = Some h ->
  (forall k' h', k' <> k -> fs_entries f !! k' = Some h' -> (is_dir f h' <-> is_dir f' h')) ->
  nsub f' d' = nsub f d' - if decide (k.1 = d' /\ is_dir f h) then 1 else 0.
Proof.
  intros E Hk Hs. unfold nsub.
  rewrite E, (size_filter_delete _ (fs_entries f) k h) by done. cbn.
  rewrite <- (filter_sub_ext f f').
  - repeat case_decide; lia.
  - intros k' h' [Hne Hk']%lookup_delete_Some. apply (Hs k'); auto.
Qed.

Lemma nrefs_nonneg f h : 0 <= nrefs f h.
Proof. unfold nrefs. lia. Qed.

Lemma nsub_nonneg f h : 0 <= nsub f h.
Proof. unfold nsub. lia. Qed.

Lemma nrefs_pos f k h : fs_entries f !! k = Some h -> 0 < nrefs f h.
Proof.
  intros Hk. unfold nrefs. rewrite (size_filter_delete _ (fs_entries f) k h) by done. cbn.
  case_decide; [lia|done].
Qed.

Lemma nrefs_zero f h : nrefs f h = 0 <-> forall k, fs_entries f !! k <> Some h.
Proof.
  split.
  - intros H0 k Hk. apply nrefs_pos in Hk. lia.
  - intros H. unfold nrefs. rewrite (proj2 (map_empty_filter _ _)); [done|].
    intros k v Hk Hv. cbn in Hv. subst v. now apply (H k).
Qed.

(** ** Paths through directories *)

Lemma tc_sub {A} (R R' : relation A) x y : (forall a b, R a b -> R' a b) -> tc R x y -> tc R' x y.
Proof. intros Hs H. induction H; [apply tc_once|eapply tc_l]; eauto. Qed.

(** A path with one more edge available either avoids it or passes through it. *)
Lemma tc_add_edge {A} (R R' : relation A) a b x y :
  (forall u v, R' u v -> R u v \/ u = a /\ v = b) ->
  tc R' x y -> tc R x y \/ rtc R x a /\ rtc R b y.
Proof.
  intros Hadd H. induction H as [x y Hxy|x z y Hxz _ IH].
  - destruct (Hadd _ _ Hxy) as [Hr|[-> ->]]; [left; now apply tc_once|right; split; apply rtc_refl].
  - destruct (Hadd _ _ Hxz) as [Hr|[-> ->]].
    + destruct IH as [IH|[IH1 IH2]]; [left; eapply tc_l; eauto|right; split; [eapply rtc_l; eauto|done]].
    + right. split; [apply rtc_refl|]. destruct IH as [IH|[_ IH]]; [now apply tc_rtc|done].
Qed.

(** Adding an edge to an acyclic graph creates a cycle only if its target
    already reaches its source. *)
Lemma acyclic_add_edge {A} (R R' : relation A) a b :
  (forall u v, R' u v -> R u v \/ u = a /\ v = b) ->
  (forall x, ~ tc R x x) -> ~ rtc R b a -> forall x, ~ tc R' x x.
Proof.
  intros Hadd Hac Hna x Hx. destruct (tc_add_edge R R' a b x x Hadd Hx) as [H|[H1 H2]].
  - now apply (Hac x).
  - apply Hna. eapply rtc_trans; eauto.
Qed.

Lemma acyclic_sub {A} (R R' : relation A) :
  (forall a b, R' a b -> R a b) -> (forall x, ~ tc R x x) -> forall x, ~ tc R' x x.
Proof. intros Hs Hac x Hx. apply (Hac x). eapply tc_sub; eauto. Qed.

(** A fresh inode reaches nothing but itself. *)
Lemma rtc_from_leaf {A} (R : relation A) h y : (forall z, ~ R h z) -> rtc R h y -> y = h.
Proof. intros Hl [->|(z & Hz & _)]%rtc_inv; [done|]. now apply Hl in Hz. Qed.

(** ** Preservation *)

Section Preserve.
Context (f : Fs) (Hok : fs_ok f).

Lemma entry_target k h : fs_entries f !! k = Some h -> is_Some (fs_types f !! h).
Proof. destruct k as [d n]. intros Hk. now apply (ok_entry f Hok d n h). Qed.

Lemma entry_dir d n h : fs_entries f !! (d, n) = Some h -> is_dir f d.
Proof. intros Hk. now apply (ok_entry f Hok d n h). Qed.

(** Nothing refers to an inode that does not exist. *)
Lemma unreferenced h : fs_types f !! h = None -> forall k, fs_entries f !! k <> Some h.
Proof. intros Hn k Hk. apply entry_target in Hk as [? Hk]. congruence. Qed.

Lemma unpopulated h : ~ is_dir f h -> forall n, fs_entries f !! (h, n) = None.
Proof.
  intros Hn n. destruct (fs_entries f !! (h, n)) as [x|] eqn:E; [|done].
  now apply entry_dir in E.
Qed.

Lemma links_of_dir d : is_dir f d -> fs_link_count f d = 2 + nsub f d.
Proof. intros Hd. unfold fs_link_count. now rewrite (ok_dir_links f Hok d Hd). Qed.

Lemma links_of_file h ty :
  fs_types f !! h = Some ty -> ty <> FileTypeDirectory -> fs_link_count f h = nrefs f h.
Proof. intros Ht Hn. unfold fs_link_count. now rewrite (ok_file_links f Hok h ty Ht Hn). Qed.

(** *** Creating *)

Section Create.
Context (d : FileHandle) (n : string) (h : FileHandle) (ty : FileType).
Hypothesis Hd : is_dir f d.
Hypothesis Hfree : fs_entries f !! (d, n) = None.
Hypothesis Hfresh : fs_types f !! h = None.

Let f' := fs_create d n h ty f.

Lemma create_ne : d <> h.
Proof. intros ->. unfold is_dir in Hd. congruence. Qed.

Lemma create_type x : fs_types f' !! x = if decide (x = h) then Some ty else fs_types f !! x.
Proof.
  cbn. case_decide; [subst; apply lookup_insert_eq|apply lookup_insert_ne; congruence].
Qed.

Lemma create_dir x : x <> h -> (is_dir f' x <-> is_dir f x).
Proof. intros Hx. unfold is_dir. rewrite create_type, decide_False by done. done. Qed.

Lemma create_same_dirs : same_dirs f f'.
Proof.
  intros k x Hk. symmetry. apply create_dir. intros ->. now apply (unreferenced h Hfresh k).
Qed.

Lemma create_nsub x :
  nsub f' x = nsub f x + if decide (d = x /\ ty = FileTypeDirectory) then 1 else 0.
Proof.
  rewrite (nsub_insert f f' (d, n) h) by (done || apply create_same_dirs). cbn.
  assert (is_dir f' h <-> ty = FileTypeDirectory) as Hh.
  { unfold is_dir. rewrite create_type, decide_True by done. naive_solver. }
  repeat case_decide; naive_solver.
Qed.

Lemma create_nrefs x : nrefs f' x = nrefs f x + if decide (h = x) then 1 else 0.
Proof. now apply (nrefs_insert f f' (d, n) h). Qed.

Lemma create_link x :
  x <> h -> fs_links f' !! x =
    if decide (x = d /\ ty = FileTypeDirectory) then Some (fs_link_count f d + 1) else fs_links f !! x.
Proof.
  intros Hx. cbn. unfold is_type. destruct (decide (ty = FileTypeDirectory)) as [E|E].
  - rewrite bool_decide_eq_true_2 by done. destruct (decide (x = d)) as [->|Hxd].
    + rewrite decide_True by done. now rewrite lookup_insert_eq.
    + rewrite decide_False by naive_solver. now rewrite !lookup_insert_ne by congruence.
  - rewrite bool_decide_eq_false_2 by done. rewrite decide_False by naive_solver.
    now rewrite lookup_insert_ne by congruence.
Qed.

Lemma create_link_new :
  fs_links f' !! h = Some (if decide (ty = FileTypeDirectory) then 2 else 1).
Proof.
  cbn. unfold is_type. pose proof create_ne. destruct (decide (ty = FileTypeDirectory)) as [E|E].
  - rewrite bool_decide_eq_true_2 by done. rewrite lookup_insert_ne by congruence. now rewrite lookup_insert_eq.
  - rewrite bool_decide_eq_false_2 by done. now rewrite lookup_insert_eq.
Qed.

Lemma fs_create_ok : fs_ok f'.
Proof.
  pose proof create_ne as Hne.
  assert (Hz : nrefs f h = 0) by (apply nrefs_zero, unreferenced; done).
  assert (Hzs : nsub f h = 0).
  { unfold nsub. rewrite (proj2 (map_empty_filter _ _)); [done|].
    intros [d' n'] x Hk [Hd' _]. cbn in Hd'. subst d'.
    rewrite unpopulated in Hk; [done|]. unfold is_dir. congruence. }
  assert (Hent : forall k x, fs_entries f' !! k = Some x ->
            (k = (d, n) /\ x = h) \/ (fs_entries f !! k = Some x /\ x <> h)).
  { intros k x Hk. cbn in Hk. apply lookup_insert_Some in Hk as [[<- <-]|[? Hk]]; [auto|right].
    split; [done|].
    intros ->. now apply (unreferenced h Hfresh k). }
  split.
  - intros d' n' x [[[= -> ->] ->]|[Hk Hx]]%Hent.
    + split; [now apply create_dir|rewrite create_type, decide_True by done; eauto].
    + split; [|rewrite create_type, decide_False by done; now apply (entry_target _ _ Hk)].
      apply entry_dir in Hk. apply create_dir; [|done]. intros ->. unfold is_dir in Hk. congruence.
  - intros x tx Hx Hn. rewrite create_nrefs. rewrite create_type in Hx. destruct (decide (x = h)) as [->|Hxh].
    + injection Hx as <-. rewrite create_link_new, Hz, (decide_True (P := h = h)), decide_False by done.
      done.
    + assert (x <> d) by (intros ->; unfold is_dir in Hd; congruence).
      rewrite create_link, decide_False, (decide_False (P := h = x)) by (congruence || tauto).
      now rewrite Z.add_0_r, (ok_file_links f Hok x tx).
  - intros x Hx. rewrite create_nsub. destruct (decide (x = h)) as [->|Hxh].
    + unfold is_dir in Hx. rewrite create_type, decide_True in Hx by done. injection Hx as Hx.
      rewrite create_link_new, Hzs, decide_True, decide_False by naive_solver. done.
    + apply create_dir in Hx; [|done]. rewrite create_link by done.
      destruct (decide (x = d /\ ty = FileTypeDirectory)) as [[-> Ht]|Hn].
      * rewrite decide_True, links_of_dir by done. f_equal. lia.
      * rewrite decide_False by naive_solver. now rewrite Z.add_0_r, (ok_dir_links f Hok x).
  - intros k1 k2 x [[-> ->]|[H1 Hx1]]%Hent [[-> Hx2]|[H2 Hx2]]%Hent Hx; try done.
    apply (ok_dir_once f Hok k1 k2 x); auto. now apply create_dir.
  - intros d' n' x [[[= -> ->] ->]|[Hk Hx]]%Hent Hdx.
    + cbn. now rewrite lookup_insert_eq.
    + cbn. rewrite lookup_insert_ne by congruence. apply (ok_parent f Hok d' n'); [done|].
      now apply create_dir.
  - apply (acyclic_add_edge (edge f) _ d h); [|apply (ok_acyclic f Hok)|].
    + intros u v (m & [[[= -> ->] ->]|[Hk Hx]]%Hent & Hv); [auto|left].
      exists m. split; [done|]. now apply create_dir.
    + intros Hr. apply rtc_from_leaf in Hr; [congruence|].
      intros z (m & Hm & _). rewrite unpopulated in Hm; [done|]. unfold is_dir. congruence.
Qed.
End Create.

(** *** Linking and unlinking a file *)

Lemma fs_link_ok d n h ty :
  is_dir f d -> fs_entries f !! (d, n) = None -> fs_types f !! h = Some ty -> ty <> FileTypeDirectory ->
  fs_ok (fs_link d n h f).
Proof.
  intros Hd Hfree Ht Hn. set (f' := fs_link d n h f).
  assert (Hh : ~ is_dir f' h) by (unfold is_dir; cbn; congruence).
  assert (Hent : forall k x, fs_entries f' !! k = Some x ->
            (k = (d, n) /\ x = h) \/ fs_entries f !! k = Some x).
  { intros k x Hk. cbn in Hk. apply lookup_insert_Some in Hk as [[<- <-]|[? Hk]]; auto. }
  split.
  - intros d' n' x [[[= -> ->] ->]|Hk]%Hent; [split; [done|cbn; eauto]|now apply (ok_entry f Hok d' n')].
  - intros x tx Hx Hnx. rewrite (nrefs_insert f f' (d, n) h) by done. cbn.
    destruct (decide (h = x)) as [<-|Hne].
    + rewrite lookup_insert_eq, (links_of_file h ty) by done. done.
    + rewrite lookup_insert_ne, Z.add_0_r by done. now apply (ok_file_links f Hok x tx).
  - intros x Hx. rewrite (nsub_insert f f' (d, n) h), decide_False, Z.add_0_r by (done || naive_solver).
    unfold f'. cbn [fs_links fs_link]. rewrite lookup_insert_ne by congruence.
    now apply (ok_dir_links f Hok).
  - intros k1 k2 x H1 H2 Hx. apply Hent in H1 as [[-> ->]|H1]; [done|].
    apply Hent in H2 as [[-> ->]|H2]; [done|]. now apply (ok_dir_once f Hok k1 k2 x).
  - intros d' n' x [[[= -> ->] ->]|Hk]%Hent Hdx; [done|now apply (ok_parent f Hok d' n')].
  - apply (acyclic_sub (edge f)); [|apply (ok_acyclic f Hok)].
    intros u v (m & [[[= -> ->] ->]|Hk]%Hent & Hv); [done|now exists m].
Qed.

Lemma fs_unlink_ok d n h ty :
  fs_entries f !! (d, n) = Some h -> fs_types f !! h = Some ty -> ty <> FileTypeDirectory ->
  fs_ok (fs_unlink d n h f).
Proof.
  intros Hk Ht Hn. set (f' := fs_unlink d n h f).
  assert (Hent : forall k x, fs_entries f' !! k = Some x -> fs_entries f !! k = Some x).
  { intros k x E. cbn in E. now apply lookup_delete_Some in E as [_ E]. }
  split.
  - intros d' n' x Hx%Hent. now apply (ok_entry f Hok d' n').
  - intros x tx Hx Hnx. rewrite (nrefs_delete f f' (d, n) h) by done. cbn.
    destruct (decide (h = x)) as [<-|Hne].
    + rewrite lookup_insert_eq, (links_of_file h ty) by done. done.
    + rewrite lookup_insert_ne, Z.sub_0_r by done. now apply (ok_file_links f Hok x tx).
  - intros x Hx. rewrite (nsub_delete f f' (d, n) h), decide_False, Z.sub_0_r
      by (done || (unfold is_dir; cbn; naive_solver)).
    unfold f'. cbn [fs_links fs_unlink].
    rewrite lookup_insert_ne by (intros ->; unfold is_dir in Hx; cbn in Hx; congruence).
    now apply (ok_dir_links f Hok).
  - intros k1 k2 x H1%Hent H2%Hent Hx. now apply (ok_dir_once f Hok k1 k2 x).
  - intros d' n' x Hx%Hent Hdx. now apply (ok_parent f Hok d' n').
  - apply (acyclic_sub (edge f)); [|apply (ok_acyclic f Hok)].
    intros u v (m & Hm%Hent & Hv). now exists m.
Qed.

(** *** Removing an empty directory *)

Lemma fs_rmdir_ok d n h :
  fs_entries f !! (d, n) = Some h -> is_dir f h -> (forall m, fs_entries f !! (h, m) = None) ->
  fs_ok (fs_rmdir d n h f).
Proof.
  intros Hk Hh Hempty. set (f' := fs_rmdir d n h f).
  assert (Hne : d <> h) by (intros ->; now rewrite Hempty in Hk).
  assert (Hent : forall k x, fs_entries f' !! k = Some x -> fs_entries f !! k = Some x /\ x <> h).
  { intros k x E. cbn in E. apply lookup_delete_Some in E as [Hkne E]. split; [done|]. intros ->.
    apply Hkne. now apply (ok_dir_once f Hok _ _ h). }
  assert (Htype : forall x, x <> h -> fs_types f' !! x = fs_types f !! x).
  { intros x Hx. cbn. now rewrite lookup_delete_ne by congruence. }
  assert (Hgone : fs_types f' !! h = None) by apply lookup_delete_eq.
  split.
  - intros d' n' x [Hx Hxh]%Hent. split; [|rewrite Htype by done; now apply (entry_target _ _ Hx)].
    assert (d' <> h) by (intros ->; now rewrite Hempty in Hx).
    unfold is_dir. rewrite Htype by done. now apply entry_dir in Hx.
  - intros x tx Hx Hnx. assert (x <> h) by (intros ->; congruence). rewrite Htype in Hx by done.
    rewrite (nrefs_delete f f' (d, n) h), (decide_False (P := h = x)) by (done || congruence).
    rewrite Z.sub_0_r. cbn. rewrite lookup_insert_ne, lookup_delete_ne by
      (try congruence; intros ->; apply entry_dir in Hk; unfold is_dir in Hk; congruence).
    now apply (ok_file_links f Hok x tx).
  - intros x Hx. assert (x <> h) by (intros ->; unfold is_dir in Hx; congruence).
    unfold is_dir in Hx. rewrite Htype in Hx by done. rewrite (nsub_delete f f' (d, n) h); [|done|done|].
    + unfold f'. cbn [fs_links fs_rmdir fst]. destruct (decide (d = x)) as [<-|Hdx].
      * rewrite decide_True, lookup_insert_eq, (links_of_dir d) by done. f_equal. lia.
      * rewrite decide_False, lookup_insert_ne, lookup_delete_ne, Z.sub_0_r by naive_solver.
        now apply (ok_dir_links f Hok).
    + intros k' x' Hk' Hx'. unfold is_dir. rewrite Htype; [done|].
      intros ->. apply Hk'. now apply (ok_dir_once f Hok _ _ h).
  - intros k1 k2 x [H1 Hx1]%Hent [H2 _]%Hent Hx. apply (ok_dir_once f Hok k1 k2 x); auto.
    unfold is_dir in *. now rewrite Htype in Hx.
  - intros d' n' x [Hx Hxh]%Hent Hdx. cbn. rewrite lookup_delete_ne by congruence.
    apply (ok_parent f Hok d' n'); [done|]. unfold is_dir in *. now rewrite Htype in Hdx.
  - apply (acyclic_sub (edge f)); [|apply (ok_acyclic f Hok)].
    intros u v (m & [Hm Hvh]%Hent & Hv). exists m. split; [done|].
    unfold is_dir in *. now rewrite Htype in Hv.
Qed.

(** *** Renaming *)

Section Rename.
Context (fd : FileHandle) (fn : string) (td : FileHandle) (tn : string) (h : FileHandle).
Hypothesis Hsrc : fs_entries f !! (fd, fn) = Some h.
Hypothesis Hdst : fs_entries f !! (td, tn) = None.
Hypothesis Htd : is_dir f td.

Let f' := fs_rename fd fn td tn h f.

Lemma rename_entry k x :
  fs_entries f' !! k = Some x -> (k = (td, tn) /\ x = h) \/ (fs_entries f !! k = Some x /\ k <> (fd, fn)).
Proof.
  intros Hk. cbn in Hk. apply lookup_insert_Some in Hk as [[<- <-]|[_ Hk]]; [auto|right].
  apply lookup_delete_Some in Hk as [? ?]. auto.
Qed.

(** The same file system with the source name removed and nothing else. *)
Let f1 := mkFs (fs_types f) (delete (fd, fn) (fs_entries f)) (fs_parents f) (fs_links f).

Lemma rename_free : fs_entries f1 !! (td, tn) = None.
Proof. cbn. apply lookup_delete_None. auto. Qed.

Lemma rename_nrefs x : nrefs f' x = nrefs f x.
Proof.
  rewrite (nrefs_insert f1 f' (td, tn) h), (nrefs_delete f f1 (fd, fn) h) by (done || apply rename_free).
  lia.
Qed.

Lemma rename_nsub x :
  nsub f' x = nsub f x - (if decide (fd = x /\ is_dir f h) then 1 else 0)
                       + (if decide (td = x /\ is_dir f h) then 1 else 0).
Proof.
  rewrite (nsub_insert f1 f' (td, tn) h), (nsub_delete f f1 (fd, fn) h) by (done || apply rename_free).
  done.
Qed.

(** The directory is not moved below itself. *)
Hypothesis Hbelow : is_dir f h -> ~ rtc (edge f) h td.

Lemma rename_links x : is_dir f x -> fs_links f' !! x = Some (2 + nsub f' x).
Proof.
  intros Hx. pose proof (entry_dir _ _ _ Hsrc) as Hfd. rewrite rename_nsub.
  unfold f'. cbn [fs_links fs_rename].
  destruct (decide (is_dir f h /\ fd <> td)) as [[Hh Hne]|Hn].
  - destruct (decide (x = td)) as [->|Hxt].
    + rewrite lookup_insert_eq, lookup_insert_ne by congruence.
      rewrite (ok_dir_links f Hok td Htd), decide_False, decide_True by naive_solver.
      change (default 0 (Some (2 + nsub f td))) with (2 + nsub f td). f_equal. lia.
    + rewrite lookup_insert_ne by congruence. destruct (decide (x = fd)) as [->|Hxf].
      * rewrite lookup_insert_eq, links_of_dir, decide_True, decide_False by naive_solver. f_equal. lia.
      * rewrite lookup_insert_ne, !decide_False by naive_solver.
        rewrite (ok_dir_links f Hok x Hx). f_equal. lia.
  - rewrite (ok_dir_links f Hok x Hx). f_equal.
    destruct (decide (is_dir f h)) as [Hh|Hh].
    + assert (fd = td) as E by (destruct (decide (fd = td)); [done|naive_solver]). rewrite E. lia.
    + rewrite !decide_False by naive_solver. lia.
Qed.

Lemma fs_rename_ok : fs_ok f'.
Proof.
  pose proof (entry_dir _ _ _ Hsrc) as Hfd.
  split.
  - intros d n x [[[= -> ->] ->]|[Hk _]]%rename_entry; [split; [done|now apply (entry_target _ _ Hsrc)]|].
    now apply (ok_entry f Hok d n).
  - intros x tx Hx Hnx. rewrite rename_nrefs, <- (ok_file_links f Hok x tx Hx Hnx).
    assert (Hnd : ~ is_dir f x) by (unfold is_dir; cbn in Hx; congruence).
    unfold f'. cbn [fs_links fs_rename].
    destruct (decide (is_dir f h /\ fd <> td)) as [[Hh Hne]|Hn]; [|done].
    now rewrite !lookup_insert_ne by congruence.
  - intros x Hx. now apply rename_links.
  - intros k1 k2 x H1 H2 Hx.
    assert (Hone : forall k, fs_entries f !! k = Some h -> is_dir f h -> k = (fd, fn)).
    { intros k Hk Hh. now apply (ok_dir_once f Hok k (fd, fn) h). }
    apply rename_entry in H1 as [[-> ->]|[H1 N1]]; apply rename_entry in H2 as [[-> E]|[H2 N2]]; auto.
    + destruct N2. now apply Hone.
    + subst x. destruct N1. now apply Hone.
    + now apply (ok_dir_once f Hok k1 k2 x).
  - intros d n x [[[= -> ->] ->]|[Hk Nk]]%rename_entry Hx; unfold f'; cbn [fs_parents fs_rename].
    + destruct (decide (fd = td)) as [<-|Hne]; [now apply (ok_parent f Hok fd fn)|].
      now rewrite lookup_insert_eq.
    + destruct (decide (fd = td)) as [<-|Hne]; [now apply (ok_parent f Hok d n)|].
      rewrite lookup_insert_ne; [now apply (ok_parent f Hok d n)|].
      intros <-. apply Nk. now apply (ok_dir_once f Hok _ _ h).
  - destruct (decide (is_dir f h)) as [Hh|Hh].
    + apply (acyclic_add_edge (edge f) _ td h); [|apply (ok_acyclic f Hok)|now apply Hbelow].
      intros u v (m & [[[= -> ->] ->]|[Hk _]]%rename_entry & Hv); [auto|left; now exists m].
    + apply (acyclic_sub (edge f)); [|apply (ok_acyclic f Hok)].
      intros u v (m & [[[= -> ->] ->]|[Hk _]]%rename_entry & Hv); [done|now exists m].
Qed.
End Rename.
End Preserve.
