(* ===== verification/StoreFacts.v ===== *)
(** * The store as a namespace; atomicity of transactions

    [view] reads the abstract namespace of [FsSpec] off the store's maps; the
    lemmas say what each store operation does to it.  The classes [Framed],
    [KeepsStore], [NoFail] and [FailSafe] classify service code by how it treats
    the store, so that all-or-nothing behaviour of a whole operation is found by
    instance resolution. *)

From S2P Require Import Prelude.
From S2P Require Import HoleMap.
From S2P Require Import MetaTypes.
From S2P Require Import Quota.
From S2P Require Import MetaStore.
From S2P Require Import MetaService.
From S2P Require Import FsSpec.

Definition view (s : MemoryStore) : Fs :=
  mkFs (fmap (M := gmap FileHandle) (fun fd => fa_Type (fd_Attr fd)) (st_files s))
    (map_uncurry (M1 := gmap FileHandle) (M2 := gmap string) (M12 := gmap (FileHandle * string))
       (st_children s))
    (st_parents s) (st_linkCounts s).

Section Facts.
Context `{L : UuidLaws}.

(** Every stored inode is keyed by the handle its share and UUID encode to. *)
Definition keyed (s : MemoryStore) : Prop :=
  forall h fd, st_files s !! h = Some fd ->
    share_ok (fd_ShareName fd) /\ exists id, EncodeShareHandle (fd_ShareName fd) id = inr h.

(** ** Reads *)

Lemma view_type s h fd : st_files s !! h = Some fd -> fs_types (view s) !! h = Some (fa_Type (fd_Attr fd)).
Proof. intros H. cbn. now rewrite lookup_fmap, H. Qed.

Lemma view_entry s d n : fs_entries (view s) !! (d, n) = (st_children s !! d) ≫= (.!! n).
Proof. cbn. apply lookup_map_uncurry. Qed.

Lemma view_child s d n : fs_entries (view s) !! (d, n) = children_of s d !! n.
Proof. rewrite view_entry. unfold children_of. destruct (st_children s !! d); done. Qed.

Lemma getChild_inr s d n h : getChild s d n = inr h <-> fs_entries (view s) !! (d, n) = Some h.
Proof. rewrite view_entry. unfold getChild. destruct (_ ≫= _); naive_solver. Qed.

Lemma getChild_inl s d n e :
  getChild s d n = inl e -> e = StoreError ErrNotFound /\ fs_entries (view s) !! (d, n) = None.
Proof. rewrite view_entry. unfold getChild. destruct (_ ≫= _); naive_solver. Qed.

Lemma set_Nlink_Type n a : fa_Type (set_Nlink n a) = fa_Type a.
Proof. now destruct a. Qed.

(** A file read from the store names the handle it was read by. *)
Lemma getFile_inv s h f :
  keyed s -> getFile s h = inr f ->
  EncodeShareHandle (f_ShareName f) (f_ID f) = inr h /\ share_ok (f_ShareName f) /\
  fs_types (view s) !! h = Some (f_Type f).
Proof.
  intros Hk. unfold getFile. destruct (st_files s !! h) as [fd|] eqn:E; [|discriminate].
  destruct (Hk h fd E) as [Hs [id Hid]]. unfold buildFileWithNlink.
  rewrite (decode_encoded _ _ _ Hs Hid). injection 1 as <-. cbn. split_and!; [done|done|].
  unfold f_Type. cbn. now rewrite lookup_fmap, E, set_Nlink_Type.
Qed.

(** ** Writes *)

Lemma PutFile_inv f t t' u :
  PutFile f t = (inr u, t') ->
  exists key, EncodeShareHandle (f_ShareName f) (f_ID f) = inr key /\
    tx_store t' = store_put key f (tx_store t).
Proof.
  unfold PutFile. destruct (EncodeShareHandle _ _) as [|key]; [discriminate|].
  destruct (is_type _ _); cbn; (destruct (claimed _ _ _); [discriminate|]); injection 1 as _ <-; eauto.
Qed.

Lemma store_put_files key f s :
  st_files (store_put key f s) = <[key := mkFileData (f_Attr f) (f_ShareName f)]> (st_files s).
Proof. unfold store_put. cbv zeta. destruct (st_linkCounts _ !! key); done. Qed.

Lemma store_put_children key f s : st_children (store_put key f s) = st_children s.
Proof. unfold store_put. cbv zeta. destruct (st_linkCounts _ !! key); done. Qed.

Lemma store_put_parents key f s : st_parents (store_put key f s) = st_parents s.
Proof. unfold store_put. cbv zeta. destruct (st_linkCounts _ !! key); done. Qed.

Lemma store_put_links key f s :
  st_linkCounts (store_put key f s) =
  match st_linkCounts s !! key with
  | Some _ => st_linkCounts s
  | None => <[key := if is_type (f_Type f) FileTypeDirectory then 2 else 1]> (st_linkCounts s)
  end.
Proof. unfold store_put. cbv zeta. cbn. destruct (st_linkCounts s !! key); done. Qed.

Lemma store_put_counters key f s :
  st_usedBytes (store_put key f s) = st_usedBytes s /\ st_quota (store_put key f s) = st_quota s.
Proof. unfold store_put. cbv zeta. destruct (st_linkCounts _ !! key); done. Qed.

Lemma store_put_shares key f s : st_shares (store_put key f s) = st_shares s.
Proof. unfold store_put. cbv zeta. destruct (st_linkCounts _ !! key); done. Qed.

Lemma view_put key f s :
  view (store_put key f s) =
  mkFs (<[key := f_Type f]> (fs_types (view s))) (fs_entries (view s)) (fs_parents (view s))
    (match fs_links (view s) !! key with
     | Some _ => fs_links (view s)
     | None => <[key := if is_type (f_Type f) FileTypeDirectory then 2 else 1]> (fs_links (view s))
     end).
Proof.
  unfold view. cbn. rewrite store_put_files, store_put_children, store_put_parents, store_put_links.
  now rewrite fmap_insert.
Qed.

(** Rewriting an inode without changing its type. *)
Lemma view_put_same key f s :
  fs_types (view s) !! key = Some (f_Type f) -> is_Some (fs_links (view s) !! key) ->
  view (store_put key f s) = view s.
Proof.
  intros Ht [n Hn]. rewrite view_put, Hn, insert_id by done. done.
Qed.

Lemma keyed_put key f s :
  keyed s -> share_ok (f_ShareName f) -> EncodeShareHandle (f_ShareName f) (f_ID f) = inr key ->
  keyed (store_put key f s).
Proof.
  intros Hk Hs He h fd. rewrite store_put_files.
  intros [[<- <-]|[_ H]]%lookup_insert_Some; cbn; eauto.
Qed.

Lemma view_set_child d n h s :
  view (store_set_child d n h s) =
  mkFs (fs_types (view s)) (<[(d, n) := h]> (fs_entries (view s))) (fs_parents (view s)) (fs_links (view s)).
Proof.
  unfold view, store_set_child, set_children. cbn. f_equal. apply map_eq. intros [d' n'].
  rewrite lookup_map_uncurry. destruct (decide (d = d')) as [<-|Hd].
  - rewrite lookup_insert_eq. cbn. destruct (decide (n = n')) as [<-|Hn].
    + now rewrite !lookup_insert_eq.
    + rewrite !lookup_insert_ne by congruence. rewrite lookup_map_uncurry. unfold children_of.
      destruct (st_children s !! d); done.
  - rewrite !lookup_insert_ne by congruence. now rewrite lookup_map_uncurry.
Qed.

Lemma view_delete_child d n s :
  view (store_delete_child d n s) =
  mkFs (fs_types (view s)) (delete (d, n) (fs_entries (view s))) (fs_parents (view s)) (fs_links (view s)).
Proof.
  unfold view, store_delete_child, set_children. cbn. f_equal. apply map_eq. intros [d' n'].
  rewrite lookup_map_uncurry. destruct (decide (d = d')) as [<-|Hd].
  - rewrite lookup_insert_eq. cbn. destruct (decide (n = n')) as [<-|Hn].
    + now rewrite !lookup_delete_eq.
    + rewrite !lookup_delete_ne by congruence. rewrite lookup_map_uncurry. unfold children_of.
      destruct (st_children s !! d); done.
  - rewrite lookup_insert_ne, lookup_delete_ne by congruence. now rewrite lookup_map_uncurry.
Qed.

(** Deleting an inode that has no entries of its own. *)
Lemma view_delete h attr s :
  (forall n, fs_entries (view s) !! (h, n) = None) ->
  view (store_delete h attr s) =
  mkFs (delete h (fs_types (view s))) (fs_entries (view s)) (delete h (fs_parents (view s)))
    (delete h (fs_links (view s))).
Proof.
  intros He. unfold view, store_delete. cbn. rewrite fmap_delete. f_equal.
  apply map_eq. intros [d n]. rewrite !lookup_map_uncurry. destruct (decide (h = d)) as [<-|Hd].
  - rewrite lookup_delete_eq. symmetry. rewrite <- view_entry. apply He.
  - now rewrite lookup_delete_ne.
Qed.

Lemma keyed_files s s' : st_files s' = st_files s -> keyed s -> keyed s'.
Proof. intros E H h fd. rewrite E. apply H. Qed.

Lemma keyed_delete h attr s : keyed s -> keyed (store_delete h attr s).
Proof. intros H x fd. cbn. intros [_ Hx]%lookup_delete_Some. now apply H. Qed.
End Facts.

(** ** All-or-nothing *)

Section Atomic.
Context `{U : UuidLib}.

(** Transaction code never touches the committed counters: their changes are
    accumulated and applied at commit. *)
Class Framed {A} (m : Tx A) : Prop :=
  framed : forall t, st_usedBytes (tx_store (m t).2) = st_usedBytes (tx_store t) /\
                     st_quota (tx_store (m t).2) = st_quota (tx_store t).

#[export] Instance framed_ret {A} (a : A) : Framed (mret a).
Proof. now intros t. Qed.
#[export] Instance framed_bind {A B} (m : Tx A) (k : A -> Tx B) :
  Framed m -> (forall a, Framed (k a)) -> Framed (m ≫= k).
Proof.
  intros Hm Hk t. unfold mbind, M_bind. specialize (Hm t). destruct (m t) as [[e|a] t'] eqn:E; [done|].
  destruct (Hk a t') as [H1 H2]. cbn in *. now rewrite H1, H2.
Qed.
#[export] Instance framed_attempt {A} (m : Tx A) : Framed m -> Framed (attempt m).
Proof. intros Hm t. unfold attempt. specialize (Hm t). now destruct (m t). Qed.
#[export] Instance framed_throw {A} e : Framed (throw e : Tx A).
Proof. now intros t. Qed.
#[export] Instance framed_read {A} (f : MemoryStore -> Result A) : Framed (tx_read f).
Proof. now intros t. Qed.
#[export] Instance framed_on_store f :
  (forall s, st_usedBytes (f s) = st_usedBytes s /\ st_quota (f s) = st_quota s) ->
  Framed (modify (on_store f)).
Proof. intros H t. apply H. Qed.
#[export] Instance framed_SetChild d n h : Framed (SetChild d n h).
Proof. now intros t. Qed.
#[export] Instance framed_SetParent h p : Framed (SetParent h p).
Proof. now intros t. Qed.
#[export] Instance framed_SetLinkCount h n : Framed (SetLinkCount h n).
Proof. now intros t. Qed.
#[export] Instance framed_DeleteChild d n : Framed (DeleteChild d n).
Proof. intros t. unfold DeleteChild. now destruct (getChild _ _ _). Qed.
#[export] Instance framed_DeleteFile h : Framed (DeleteFile h).
Proof.
  intros t. unfold DeleteFile. destruct (st_files _ !! h) as [fd|]; [|done].
  unfold charge_delete. now destruct (is_type _ _).
Qed.
#[export] Instance framed_PutFile f : Framed (PutFile f).
Proof.
  intros t. unfold PutFile. destruct (EncodeShareHandle _ _) as [|key]; [done|].
  destruct (is_type _ _); cbn; (destruct (claimed _ _ _); [done|]); cbn; apply store_put_counters.
Qed.

(** A failed transaction leaves the store as it was. *)
Lemma rollback {A} (fn : Tx A) s e s' :
  Framed fn -> WithTransaction fn s = (inl e, s') -> s' = s.
Proof.
  intros Hf. unfold WithTransaction. specialize (Hf (mkTx s 0 ∅)).
  destruct (fn (mkTx s 0 ∅)) as [[e'|a] t]; [|discriminate]. injection 1 as _ <-. cbn in Hf.
  unfold restoreLocked. destruct Hf as [-> ->]. now destruct s.
Qed.

(** The recycle bin is off for every share. *)
Definition trash_off (s : Service) : Prop :=
  forall sh cfg, sv_trash s sh = Some cfg -> tc_Enabled cfg = false.

(** Code that only reads the store (and no code changes the trash policy). *)
Class KeepsStore {A} (m : Svc A) : Prop :=
  keeps_store : forall s, sv_store (m s).2 = sv_store s /\ sv_trash (m s).2 = sv_trash s.
(** Code that always returns a result. *)
Class NoFail {A} (m : Svc A) : Prop := no_fail : forall s e, (m s).1 <> inl e.
(** Code that leaves the store untouched when it fails. *)
Class FailSafe {A} (m : Svc A) : Prop :=
  fail_safe : forall s e s', trash_off s -> m s = (inl e, s') -> sv_store s' = sv_store s.

#[export] Instance keeps_ret {A} (a : A) : KeepsStore (mret a).
Proof. now intros s. Qed.
#[export] Instance keeps_bind {A B} (m : Svc A) (k : A -> Svc B) :
  KeepsStore m -> (forall a, KeepsStore (k a)) -> KeepsStore (m ≫= k).
Proof.
  intros Hm Hk s. unfold mbind, M_bind. specialize (Hm s). destruct (m s) as [[e|a] s']; [done|].
  destruct (Hk a s') as [-> ->]. done.
Qed.
#[export] Instance keeps_lift {A} (r : Result A) : KeepsStore (lift r).
Proof. now intros s. Qed.
#[export] Instance keeps_throw {A} e : KeepsStore (throw e : Svc A).
Proof. now intros s. Qed.
#[export] Instance keeps_fail {A} c : KeepsStore (MetaTypes.fail c : Svc A).
Proof. now intros s. Qed.
#[export] Instance keeps_gets {A} (f : Service -> A) : KeepsStore (gets f).
Proof. now intros s. Qed.
#[export] Instance keeps_rd {A} (f : MemoryStore -> Result A) : KeepsStore (rd f).
Proof. now intros s. Qed.
#[export] Instance keeps_check b c : KeepsStore (check b c).
Proof. intros s. now destruct b. Qed.
#[export] Instance keeps_attempt {A} (m : Svc A) : KeepsStore m -> KeepsStore (attempt m).
Proof. intros Hm s. unfold attempt. specialize (Hm s). now destruct (m s). Qed.
#[export] Instance keeps_now : KeepsStore time_Now.
Proof. now intros s. Qed.
#[export] Instance keeps_uuid : KeepsStore uuid_New.
Proof. now intros s. Qed.
#[export] Instance keeps_quotas {A} (m : M quotaLimits A) : KeepsStore (on_quotas m).
Proof. intros s. unfold on_quotas. now destruct (m (sv_quotas s)). Qed.
#[export] Instance keeps_if {A} (b : bool) (m m' : Svc A) :
  KeepsStore m -> KeepsStore m' -> KeepsStore (if b then m else m').
Proof. now destruct b. Qed.
#[export] Instance keeps_notify d ty : KeepsStore (notifyDirChange d ty).
Proof. now intros s. Qed.

#[export] Instance safe_keeps {A} (m : Svc A) : KeepsStore m -> FailSafe m | 10.
Proof. intros Hm s e s' _ E. destruct (Hm s) as [H _]. now rewrite E in H. Qed.
#[export] Instance safe_bind {A B} (m : Svc A) (k : A -> Svc B) :
  KeepsStore m -> (forall a, FailSafe (k a)) -> FailSafe (m ≫= k) | 1.
Proof.
  intros Hm Hk s e s' Ht [E|(a & s1 & E1 & E2)]%bind_fail; destruct (Hm s) as [H1 H2].
  - now rewrite E in H1.
  - rewrite E1 in H1, H2. cbn in H1, H2. rewrite <- H1. apply (Hk a s1 e); [|done].
    unfold trash_off. now rewrite H2.
Qed.
#[export] Instance safe_then {A B} (m : Svc A) (k : A -> Svc B) :
  FailSafe m -> (forall a, NoFail (k a)) -> FailSafe (m ≫= k) | 2.
Proof.
  intros Hm Hk s e s' Ht [E|(a & s1 & E1 & E2)]%bind_fail.
  - now apply (Hm s e).
  - destruct (Hk a s1 e). now rewrite E2.
Qed.
#[export] Instance safe_transact {A} (fn : Tx A) : Framed fn -> FailSafe (transact fn).
Proof.
  intros Hf s e s' _. unfold transact. destruct (WithTransaction fn (sv_store s)) as [r st] eqn:E.
  injection 1 as -> <-. now apply rollback in E.
Qed.
#[export] Instance safe_if {A} (b : bool) (m m' : Svc A) :
  FailSafe m -> FailSafe m' -> FailSafe (if b then m else m').
Proof. now destruct b. Qed.

#[export] Instance nofail_ret {A} (a : A) : NoFail (mret a).
Proof. now intros s. Qed.
#[export] Instance nofail_bind {A B} (m : Svc A) (k : A -> Svc B) :
  NoFail m -> (forall a, NoFail (k a)) -> NoFail (m ≫= k).
Proof.
  intros Hm Hk s e. unfold mbind, M_bind. specialize (Hm s). destruct (m s) as [[e'|a] s'].
  - now destruct (Hm e').
  - apply Hk.
Qed.
#[export] Instance nofail_gets {A} (f : Service -> A) : NoFail (gets f).
Proof. now intros s. Qed.
#[export] Instance nofail_modify f : NoFail (modify f).
Proof. now intros s. Qed.
#[export] Instance nofail_attempt {A} (m : Svc A) : NoFail (attempt m).
Proof. intros s e. unfold attempt. now destruct (m s). Qed.
#[export] Instance nofail_if {A} (b : bool) (m m' : Svc A) :
  NoFail m -> NoFail m' -> NoFail (if b then m else m').
Proof. now destruct b. Qed.
#[export] Instance nofail_notify d ty : NoFail (notifyDirChange d ty).
Proof. now intros s. Qed.

#[export] Instance nofail_flush h : NoFail (flushDirTimes h).
Proof.
  unfold flushDirTimes. apply nofail_bind; [apply _|]. intros [dt|]; [|apply _].
  apply nofail_bind; [apply _|]. intros [|]; [apply _|].
  apply nofail_bind; [apply _|]. intros [|]; apply _.
Qed.
#[export] Instance nofail_recordDirTimes h t : NoFail (recordDirTimes h t).
Proof.
  unfold recordDirTimes. apply nofail_bind; [|intros []; apply _].
  intros s e. now destruct (RecordBump h t (sv_dirTimes s)).
Qed.

(** The permission checks read. *)
#[export] Instance keeps_storeForHandle h : KeepsStore (storeForHandle h).
Proof. unfold storeForHandle, GetStoreForShare. apply _. Qed.
#[export] Instance keeps_filePermissions c h f r : KeepsStore (filePermissions c h f r).
Proof. unfold filePermissions. apply _. Qed.
#[export] Instance keeps_permission_result h g p : KeepsStore (permission_result h g p).
Proof. unfold permission_result. apply _. Qed.
#[export] Instance keeps_checkPermission c h p : KeepsStore (checkPermission c h p).
Proof. unfold checkPermission, checkFilePermissions. apply _. Qed.
#[export] Instance keeps_checkParentCreateAccess c h f b : KeepsStore (checkParentCreateAccess c h f b).
Proof. unfold checkParentCreateAccess. apply _. Qed.
#[export] Instance keeps_checkWritePermission c h : KeepsStore (checkWritePermission c h).
Proof. unfold checkWritePermission. apply _. Qed.
#[export] Instance keeps_checkDeletePermission c h : KeepsStore (checkDeletePermission c h).
Proof. unfold checkDeletePermission. apply _. Qed.
#[export] Instance keeps_mergeDir h a : KeepsStore (mergeDir h a).
Proof. unfold mergeDir. apply _. Qed.
End Atomic.
