(* ===== verification/NamespaceAtomic.v ===== *)
(** * All-or-nothing namespace operations, and the depth of renames

    Every namespace operation makes its checks first and its changes in one
    transaction, and nothing after the commit can fail: an operation that returns
    an error leaves the store as it found it.

    [Move] recycles a file it replaces, and recycling moves that file into the
    bin, by [Move] again.  The name in the bin is one that [freeBinName] found
    free, so the inner rename replaces nothing and does not recycle: two levels
    of fuel decide every call. *)

From S2P Require Import Prelude.
From S2P Require Import HoleMap.
From S2P Require Import MetaTypes.
From S2P Require Import Permissions.
From S2P Require Import Quota.
From S2P Require Import MetaStore.
From S2P Require Import MetaService.
From S2P Require Import Namespace.
From S2P Require Import StoreFacts.

Section Atomicity.
Context `{U : UuidLib}.

#[export] Instance framed_check b c : Framed (check b c).
Proof. intros t. now destruct b. Qed.
#[export] Instance framed_fail {A} c : Framed (MetaTypes.fail c : Tx A).
Proof. now intros t. Qed.
#[export] Instance framed_if {A} (b : bool) (m m' : Tx A) : Framed m -> Framed m' -> Framed (if b then m else m').
Proof. now destruct b. Qed.
#[export] Instance framed_GetFile h : Framed (GetFile h).
Proof. unfold GetFile. apply _. Qed.
#[export] Instance framed_GetChild d n : Framed (GetChild d n).
Proof. unfold GetChild. apply _. Qed.
#[export] Instance framed_GetLinkCount h : Framed (GetLinkCount h).
Proof. unfold GetLinkCount. apply _. Qed.
#[export] Instance framed_reread h f : Framed (reread h f).
Proof. unfold reread. apply _. Qed.
#[export] Instance framed_absent d n : Framed (tx_require_absent d n).
Proof. unfold tx_require_absent. apply framed_bind; [apply _|]. intros []; apply _. Qed.
#[export] Instance framed_create_tx p h n f : Framed (create_tx p h n f).
Proof. unfold create_tx. apply _. Qed.
#[export] Instance framed_link_tx d h n f g now : Framed (link_tx d h n f g now).
Proof. unfold link_tx. apply _. Qed.
#[export] Instance framed_remove_tx p h n f now : Framed (remove_tx p h n f now).
Proof. unfold remove_tx. apply _. Qed.
#[export] Instance framed_rmdir_tx p h n f m : Framed (rmdir_tx p h n f m).
Proof. unfold rmdir_tx. apply _. Qed.
#[export] Instance framed_replace_tx d n o now : Framed (replace_tx d n o now).
Proof. unfold replace_tx, unlink_tx. destruct o as [[]|]; apply _. Qed.
#[export] Instance framed_move_tx fd td h fn tn a b c o m t t' :
  Framed (move_tx fd td h fn tn a b c o m t t').
Proof. unfold move_tx, reparent_tx. apply _. Qed.

#[export] Instance keeps_absent d n : KeepsStore (require_absent d n).
Proof. unfold require_absent. apply keeps_bind; [apply _|]. intros []; apply _. Qed.

(** The bin's branch is not taken when the bin is off. *)
#[export] Instance safe_bin {A} h p n (k : bool -> Svc A) :
  FailSafe (k false) -> FailSafe (gets (recycles h p n) ≫= k) | 0.
Proof.
  intros Hk s e s' Ht. unfold mbind, M_bind, gets.
  assert (recycles h p n s = false) as ->.
  { unfold recycles. destruct (sv_trash s _) as [cfg|] eqn:E; [|done]. now rewrite (Ht _ _ E). }
  now apply Hk.
Qed.

#[export] Instance safe_match {A B} (r : Result A) (f : GoError -> Svc B) (g : A -> Svc B) :
  (forall e, FailSafe (f e)) -> (forall a, FailSafe (g a)) ->
  FailSafe (match r with inl e => f e | inr a => g a end).
Proof. now destruct r. Qed.

#[export] Instance safe_createEntry ctx p n a ty l x y : FailSafe (createEntry ctx p n a ty l x y).
Proof. unfold createEntry. apply _. Qed.
#[export] Instance safe_notifying {A} d ty (m : Svc A) : FailSafe m -> FailSafe (notifying d ty m).
Proof. unfold notifying. apply _. Qed.
#[export] Instance safe_CreateHardLink ctx d n h : FailSafe (CreateHardLink ctx d n h).
Proof. unfold CreateHardLink. apply _. Qed.
#[export] Instance nofail_pop h : NoFail (PopPending h).
Proof. now intros s. Qed.
#[export] Instance safe_RemoveFile r ctx p n : FailSafe (RemoveFile_with r ctx p n).
Proof. unfold RemoveFile_with. apply _. Qed.
#[export] Instance safe_RemoveDirectory r ctx p n : FailSafe (RemoveDirectory_with r ctx p n).
Proof. unfold RemoveDirectory_with. apply _. Qed.

(** Code that only reads the store while the bin is off. *)
Class KeepsOff {A} (m : Svc A) : Prop :=
  keeps_off : forall s, trash_off s -> sv_store (m s).2 = sv_store s /\ sv_trash (m s).2 = sv_trash s.

#[export] Instance off_keeps {A} (m : Svc A) : KeepsStore m -> KeepsOff m | 10.
Proof. intros H s _. apply H. Qed.
#[export] Instance off_bind {A B} (m : Svc A) (k : A -> Svc B) :
  KeepsOff m -> (forall a, KeepsOff (k a)) -> KeepsOff (m ≫= k) | 5.
Proof.
  intros Hm Hk s Ht. unfold mbind, M_bind. specialize (Hm s Ht). destruct (m s) as [[e|a] s']; [done|].
  cbn in Hm. destruct Hm as [H1 H2]. destruct (Hk a s') as [-> ->]; [|done].
  unfold trash_off. now rewrite H2.
Qed.
#[export] Instance off_bin {A} h p n (k : bool -> Svc A) :
  KeepsOff (k false) -> KeepsOff (gets (recycles h p n) ≫= k) | 0.
Proof.
  intros Hk s Ht. unfold mbind, M_bind, gets.
  assert (recycles h p n s = false) as ->; [|now apply Hk].
  unfold recycles. destruct (sv_trash s _) as [cfg|] eqn:E; [|done]. now rewrite (Ht _ _ E).
Qed.
#[export] Instance off_if {A} (b : bool) (m m' : Svc A) :
  KeepsOff m -> KeepsOff m' -> KeepsOff (if b then m else m').
Proof. now destruct b. Qed.
#[export] Instance off_check_destination r ctx td tn a b : KeepsOff (check_destination r ctx td tn a b).
Proof.
  unfold check_destination. apply off_bind; [apply _|]. intros [e|h]; apply _.
Qed.
#[export] Instance safe_bind_off {A B} (m : Svc A) (k : A -> Svc B) :
  KeepsOff m -> (forall a, FailSafe (k a)) -> FailSafe (m ≫= k) | 3.
Proof.
  intros Hm Hk s e s' Ht [E|(a & s1 & E1 & E2)]%bind_fail; destruct (Hm s Ht) as [H1 H2].
  - now rewrite E in H1.
  - rewrite E1 in H1, H2. cbn in H1, H2. rewrite <- H1. apply (Hk a s1 e); [|done].
    unfold trash_off. now rewrite H2.
Qed.
#[export] Instance safe_Move r ctx fd fn td tn : FailSafe (Move_with r ctx fd fn td tn).
Proof. unfold Move_with. apply _. Qed.

(** The namespace operations of the service. *)
Inductive ns_op :=
  | OpCreate (dir : FileHandle) (name : string) (attr : FileAttr) (ty : FileType) (target : string)
      (major minor : Z)
  | OpLink (dir : FileHandle) (name : string) (target : FileHandle)
  | OpRemove (dir : FileHandle) (name : string)
  | OpRmdir (dir : FileHandle) (name : string)
  | OpMove (fromDir : FileHandle) (fromName : string) (toDir : FileHandle) (toName : string).

Definition run_op (ctx : AuthContext) (op : ns_op) : Svc unit :=
  match op with
  | OpCreate d n a ty t x y => createEntry ctx d n a ty t x y;; mret tt
  | OpLink d n h => CreateHardLink ctx d n h;; mret tt
  | OpRemove d n => RemoveFile ctx d n;; mret tt
  | OpRmdir d n => RemoveDirectory ctx d n;; mret tt
  | OpMove fd fn td tn => Move ctx fd fn td tn;; mret tt
  end.

#[export] Instance run_op_safe ctx op : FailSafe (run_op ctx op).
Proof. destruct op; cbn [run_op]; unfold RemoveFile, RemoveDirectory, Move; cbn [Move_fuel]; apply _. Qed.

(** C17: with every recycle bin off, a namespace operation that fails changes
    nothing: for creates, hard links, removals, directory removals and renames,
    with any caller and any error, the store after the failed call is the store
    before it.  (With a bin on, a failed removal may have created the bin's
    directories.) *)
Theorem failed_operation_changes_nothing ctx op s e s' :
  trash_off s -> run_op ctx op s = (inl e, s') -> sv_store s' = sv_store s.
Proof.
  apply run_op_safe.
Qed.
End Atomicity.

Section Depth.
Context `{U : UuidLib}.

(** Two continuations of the same first half. *)
Lemma bind_agree {S A B} (m : M S A) (k k' : A -> M S B) s :
  (forall a s', m s = (inr a, s') -> k a s' = k' a s') -> (m ≫= k) s = (m ≫= k') s.
Proof. intros H. unfold mbind, M_bind. destruct (m s) as [[e|a] s'] eqn:E; [done|]. now apply H. Qed.

Lemma bind_agree_l {S A B} (m m' : M S A) (k : A -> M S B) s : m s = m' s -> (m ≫= k) s = (m' ≫= k) s.
Proof. unfold mbind, M_bind. now intros ->. Qed.

Lemma if_agree {S A} (b : bool) (m m' n : M S A) s : m s = m' s -> (if b then n else m) s = (if b then n else m') s.
Proof. now destruct b. Qed.

Definition Recycle := AuthContext -> string -> FileHandle -> string -> string -> Svc File.
Definition Mover := AuthContext -> FileHandle -> string -> FileHandle -> string -> Svc (option RenameWcc).

(** The name is free in the store. *)
Definition absent (d : FileHandle) (n : string) (s : Service) : Prop :=
  exists e, getChild (sv_store s) d n = inl e.

Lemma absent_keep {A} (m : Svc A) d n s a s' :
  absent d n s -> KeepsStore m -> m s = (a, s') -> absent d n s'.
Proof.
  intros [e He] Hk E. specialize (Hk s). rewrite E in Hk. destruct Hk as [Hk _].
  cbn in Hk. exists e. now rewrite Hk.
Qed.

(** Past a step that only reads, on both sides. *)
Ltac same_step H :=
  let a := fresh "a" in let s1 := fresh "s" in let E := fresh "E" in
  apply bind_agree; intros a s1 E; apply (absent_keep _ _ _ _ _ _ H _) in E; clear H; rename E into H.

(** A rename to a free name does not look at how to recycle. *)
Lemma Move_free (r r' : Recycle) ctx fd fn td tn s :
  absent td tn s -> Move_with r ctx fd fn td tn s = Move_with r' ctx fd fn td tn s.
Proof.
  intros Ha. unfold Move_with. do 3 same_step Ha. apply if_agree. do 11 same_step Ha.
  apply bind_agree_l. unfold check_destination. destruct Ha as [e He].
  unfold mbind, M_bind, attempt, rd. now rewrite He.
Qed.

(** A bad or stale handle is not a missing entry. *)
Lemma storeForHandle_found h s e s' : storeForHandle h s = (inl e, s') -> IsNotFoundError e = false.
Proof.
  unfold storeForHandle, GetStoreForShare, DecodeFileHandle. intros H.
  apply bind_fail in H as [H|(p & s1 & _ & H)].
  - unfold lift in H. repeat case_match; simplify_eq; done.
  - apply bind_fail in H as [H|(b & s2 & _ & H)]; [discriminate|]. destruct b; [discriminate|].
    now injection H as <- _.
Qed.

(** What [freeBinName] returns is free. *)
Lemma free_name_absent fuel i d name nanos c s a s' :
  free_name_loop fuel i d name nanos c s = (inr a, s') -> absent d a s'.
Proof.
  revert i c s. induction fuel as [|fuel IH]; intros i c s H; [discriminate|]. cbn [free_name_loop] in H.
  apply bind_inv in H as (r & s1 & E & H). apply attempt_inv in E.
  destruct r as [e|h]; [|now apply IH in H].
  destruct (IsNotFoundError e) eqn:En; [|discriminate]. mstep H.
  unfold ServiceGetChild in E. apply bind_fail in E as [E|(u & s2 & _ & E)].
  - apply storeForHandle_found in E. congruence.
  - injection E as E <-. now exists e.
Qed.

(** Stamping a file leaves every directory as it was. *)
Lemma stamp_absent h x y z d n s u s' :
  stamp_tx h x y z s = (inr u, s') -> absent d n s -> absent d n s'.
Proof.
  intros H Ha. unfold stamp_tx in H. apply bind_inv in H as (v & s1 & E & H).
  apply (absent_keep _ _ _ _ _ _ Ha _) in E. clear Ha. apply bind_inv in H as (f & s2 & E2 & H).
  apply (absent_keep _ _ _ _ _ _ E _) in E2. clear E. destruct E2 as [e He]. exists e.
  unfold transact, WithTransaction in H. destruct (PutFile _ _) as [[|w] t] eqn:Ep; [discriminate|].
  injection H as _ <-. apply PutFile_inv in Ep as (key & _ & Et). cbn [tx_store] in Et. cbn.
  unfold getChild in *. unfold commit. cbn [st_children]. now rewrite Et, store_put_children.
Qed.

(** Two ways to move that agree on free names recycle alike. *)
Lemma recycle_agree (m m' : Mover) ctx sh p n o s :
  (forall c fd fn td tn s, absent td tn s -> m c fd fn td tn s = m' c fd fn td tn s) ->
  recycleNode_with m ctx sh p n o s = recycleNode_with m' ctx sh p n o s.
Proof.
  intros Hm. unfold recycleNode_with. do 5 (apply bind_agree; intros ? ? _).
  apply bind_agree. intros destName s1 E. unfold freeBinName in E. apply bind_inv in E as (now & s2 & _ & E).
  apply free_name_absent in E. same_step E.
  apply bind_agree. intros u s4 Es. apply (stamp_absent _ _ _ _ _ _ _ _ _ Es) in E.
  apply bind_agree_l. unfold attempt. now rewrite (Hm _ _ _ _ _ _ E).
Qed.

Lemma Move_agree (r r' : Recycle) ctx fd fn td tn s :
  (forall c sh p n o s, r c sh p n o s = r' c sh p n o s) ->
  Move_with r ctx fd fn td tn s = Move_with r' ctx fd fn td tn s.
Proof.
  intros Hr. unfold Move_with. do 3 (apply bind_agree; intros ? ? _). apply if_agree.
  do 11 (apply bind_agree; intros ? ? _). apply bind_agree_l. unfold check_destination.
  apply bind_agree. intros [e|dh] ? _; [done|]. do 2 (apply bind_agree; intros ? ? _).
  destruct (is_type _ _); [done|]. do 2 (apply bind_agree; intros ? ? _).
  case_match; [|done]. now apply bind_agree_l.
Qed.

(** the mutual recursion of rename and recycle bin ends: however much deeper
    it is allowed to go, every rename gives the result it gives at depth two, so
    [Move] is decided by [Move_fuel 2] and never runs out. *)
Theorem move_recursion_bounded n ctx fd fn td tn s :
  Move_fuel (S (S n)) ctx fd fn td tn s = Move ctx fd fn td tn s.
Proof.
  unfold Move. cbn [Move_fuel]. apply Move_agree. intros c sh p m o s0. apply recycle_agree.
  intros. now apply Move_free.
Qed.
End Depth.
