(* ===== verification/NamespaceRefine.v ===== *)
(** * The namespace operations implement the abstract namespace

    For each operation of [Namespace], what a successful run does to the
    namespace the store holds: it is the operation of [FsSpec] of the same name.
    Directory timestamps, wcc data, quota charges and the inode rewrites that go
    with them are invisible there.  With the preservation lemmas of [FsSpec] the
    invariant holds along every run of operations. *)

From S2P Require Import Prelude.
From S2P Require Import HoleMap.
From S2P Require Import MetaTypes.
From S2P Require Import Permissions.
From S2P Require Import Quota.
From S2P Require Import MetaStore.
From S2P Require Import MetaService.
From S2P Require Import Namespace.
From S2P Require Import FsSpec.
From S2P Require Import StoreFacts.
From S2P Require Import NamespaceAtomic.

(** Inverting runs inside a transaction and of the service. *)
Section Inversion.
Context `{U : UuidLib}.

Lemma tx_read_inv {A} (f : MemoryStore -> Result A) t t' a :
  tx_read f t = (inr a, t') -> f (tx_store t) = inr a /\ t' = t.
Proof. injection 1 as <- <-. auto. Qed.

Lemma rd_inv {A} (f : MemoryStore -> Result A) s s' a :
  rd f s = (inr a, s') -> f (sv_store s) = inr a /\ s' = s.
Proof. injection 1 as <- <-. auto. Qed.

Lemma DeleteChild_inv d n t t' u :
  DeleteChild d n t = (inr u, t') ->
  (exists h, fs_entries (view (tx_store t)) !! (d, n) = Some h) /\
  t' = on_store (store_delete_child d n) t.
Proof.
  unfold DeleteChild. destruct (getChild _ _ _) as [|h] eqn:E; [discriminate|].
  injection 1 as _ <-. apply getChild_inr in E. eauto.
Qed.

Lemma DeleteFile_inv h t t' u :
  DeleteFile h t = (inr u, t') -> exists attr, tx_store t' = store_delete h attr (tx_store t).
Proof.
  unfold DeleteFile. destruct (st_files _ !! h) as [fd|] eqn:E; [|discriminate]. injection 1 as _ <-.
  exists (fd_Attr fd). unfold charge_delete. now destruct (is_type _ _).
Qed.

Lemma absent_inv d n t t' u :
  tx_require_absent d n t = (inr u, t') -> t' = t /\ fs_entries (view (tx_store t)) !! (d, n) = None.
Proof.
  unfold tx_require_absent. intros H. mstep H. apply attempt_inv in H0.
  destruct a as [e|h]; [|discriminate]. mstep H. injection H0 as E <-.
  now apply getChild_inl in E as [_ E].
Qed.

Lemma transact_inv {A} (fn : Tx A) s s' a :
  transact fn s = (inr a, s') ->
  exists t, fn (mkTx (sv_store s) 0 ∅) = (inr a, t) /\ s' = with_store (commit t) s.
Proof.
  unfold transact, WithTransaction. destruct (fn _) as [[e|b] t]; [discriminate|].
  injection 1 as <- <-. eauto.
Qed.
End Inversion.

Ltac tstep H :=
  mstep H;
  repeat match goal with
  | E : GetFile _ _ = (inr _, _) |- _ => apply tx_read_inv in E as [E ->]
  | E : GetChild _ _ _ = (inr _, _) |- _ => apply tx_read_inv in E as [E ->]
  | E : GetLinkCount _ _ = (inr _, _) |- _ => apply tx_read_inv in E as [E ->]; injection E as <-
  | E : rd _ _ = (inr _, _) |- _ => apply rd_inv in E as [E ->]
  | E : SetChild _ _ _ _ = (inr _, _) |- _ => apply modify_inv in E as ->
  | E : SetParent _ _ _ = (inr _, _) |- _ => apply modify_inv in E as ->
  | E : SetLinkCount _ _ _ = (inr _, _) |- _ => apply modify_inv in E as ->
  | E : tx_require_absent _ _ _ = (inr _, _) |- _ => apply absent_inv in E as [-> E]
  end.

Section Refine.
Context `{L : UuidLaws}.

(** What the store keeps: inodes under their own handles, and a namespace that
    is well formed. *)
Record wf (s : MemoryStore) : Prop := { wf_keyed : keyed s; wf_fs : fs_ok (view s) }.

Lemma wf_links s h ty : wf s -> fs_types (view s) !! h = Some ty -> is_Some (fs_links (view s) !! h).
Proof.
  intros [_ Hok] Ht. destruct (decide (ty = FileTypeDirectory)) as [->|Hn].
  - rewrite (ok_dir_links _ Hok h Ht). eauto.
  - rewrite (ok_file_links _ Hok h ty Ht Hn). eauto.
Qed.

(** Rewriting the inode of a stored file, keeping its type. *)
Lemma PutFile_same f t t' u h :
  PutFile f t = (inr u, t') -> EncodeShareHandle (f_ShareName f) (f_ID f) = inr h -> share_ok (f_ShareName f) ->
  keyed (tx_store t) -> fs_types (view (tx_store t)) !! h = Some (f_Type f) ->
  is_Some (fs_links (view (tx_store t)) !! h) ->
  view (tx_store t') = view (tx_store t) /\ keyed (tx_store t').
Proof.
  intros Hp He Hs Hk Ht Hl. apply PutFile_inv in Hp as (key & He' & ->).
  rewrite He in He'. injection He' as <-. split; [now apply view_put_same|now apply keyed_put].
Qed.

Lemma view_set_link_count h n s :
  view (store_set_link_count h n s) =
  mkFs (fs_types (view s)) (fs_entries (view s)) (fs_parents (view s)) (<[h := n]> (fs_links (view s))).
Proof. done. Qed.

Lemma view_set_parent h p s :
  view (store_set_parent h p s) =
  mkFs (fs_types (view s)) (fs_entries (view s)) (<[h := p]> (fs_parents (view s))) (fs_links (view s)).
Proof. done. Qed.

Lemma getLinkCount_view s h : getLinkCount s h = fs_link_count (view s) h.
Proof. done. Qed.

(** The link count a new inode ends with does not depend on what [PutFile] wrote. *)
Lemma relink (m : gmap FileHandle Z) h k k' :
  <[h := k]> (match m !! h with Some _ => m | None => <[h := k']> m end) = <[h := k]> m.
Proof. destruct (m !! h); [done|apply insert_insert_eq]. Qed.

(** *** Creating *)

Lemma create_tx_view p h n f t t' u :
  create_tx p h n f t = (inr u, t') ->
  EncodeShareHandle (f_ShareName f) (f_ID f) = inr h -> share_ok (f_ShareName f) ->
  fa_Nlink (f_Attr f) = GetInitialLinkCount (f_Type f) -> p <> h ->
  0 <= fs_link_count (view (tx_store t)) p < 2 ^ 32 - 1 -> keyed (tx_store t) ->
  view (tx_store t') = fs_create p n h (f_Type f) (view (tx_store t)) /\ keyed (tx_store t') /\
  fs_entries (view (tx_store t)) !! (p, n) = None.
Proof.
  intros H He Hs Hn Hne Hb Hk. unfold create_tx in H. do 5 tstep H.
  apply PutFile_inv in H1 as (key & He' & Hst). rewrite He in He'. injection He' as <-.
  rewrite Hn in H. unfold GetInitialLinkCount in H.
  pose proof (keyed_put _ _ _ Hk Hs He) as Hk'. unfold fs_create.
  destruct (is_type (f_Type f) FileTypeDirectory) eqn:Ed; tstep H; cbn [on_store tx_store] in *;
    (split; [|split; [rewrite Hst; apply (keyed_files (store_put h f (tx_store t))); done|done]]).
  - rewrite getLinkCount_view, !view_set_link_count, view_set_child, view_set_parent, view_set_link_count, Hst, view_put.
    cbn [fs_types fs_entries fs_parents fs_links fs_link_count]. rewrite Ed, relink. f_equal. f_equal.
    unfold fs_link_count. cbn [fs_links]. rewrite lookup_insert_ne by congruence. apply u32_small.
    unfold fs_link_count in Hb. unfold in_u32. lia.
  - rewrite view_set_child, view_set_parent, view_set_link_count, Hst, view_put.
    cbn [fs_types fs_entries fs_parents fs_links fs_link_count]. now rewrite Ed, relink.
Qed.
(** *** Linking *)

Lemma reread_inv h old t t' f :
  reread h old t = (inr f, t') -> getFile (tx_store t) h = inr old -> f = old /\ t' = t.
Proof.
  intros H Hg. unfold reread in H. mstep H. apply attempt_inv in H0. unfold GetFile, tx_read in H0.
  rewrite Hg in H0. injection H0 as <- <-. mstep H. auto.
Qed.

(** Rewriting a file read from the store, in a store that still has its inode. *)
Lemma PutFile_stored g f t t' u h s0 :
  PutFile (set_Attr g f) t = (inr u, t') -> keyed s0 -> getFile s0 h = inr f ->
  (forall a, fa_Type (g a) = fa_Type a) -> keyed (tx_store t) ->
  fs_types (view (tx_store t)) !! h = fs_types (view s0) !! h ->
  is_Some (fs_links (view (tx_store t)) !! h) ->
  view (tx_store t') = view (tx_store t) /\ keyed (tx_store t').
Proof.
  intros Hp Hk0 Hg Hty Hk Ht Hl. apply (getFile_inv s0) in Hg as (He & Hs & Ht0); [|done].
  apply (PutFile_same (set_Attr g f) t t' u h); try done.
  rewrite Ht, Ht0. unfold f_Type. cbn. now rewrite Hty.
Qed.

Lemma keyed_on_store g t :
  st_files (g (tx_store t)) = st_files (tx_store t) -> keyed (tx_store t) -> keyed (tx_store (on_store g t)).
Proof. intros E. now apply keyed_files. Qed.

Lemma link_tx_view d h n dir target now t t' w :
  link_tx d h n dir target now t = (inr w, t') ->
  getFile (tx_store t) d = inr dir -> getFile (tx_store t) h = inr target -> wf (tx_store t) ->
  0 <= fs_link_count (view (tx_store t)) h < 2 ^ 32 - 1 ->
  view (tx_store t') = fs_link d n h (view (tx_store t)) /\ keyed (tx_store t') /\
  fs_entries (view (tx_store t)) !! (d, n) = None.
Proof.
  intros H Hd Hh Hwf Hb. unfold link_tx in H. tstep H.
  apply reread_inv in H0 as [-> ->]; [|done].
  do 7 tstep H.
  destruct Hwf as [Hk Hok] eqn:Ew; clear Ew.
  eapply PutFile_stored in H1 as [Hv1 Hk1]; [|exact Hk|exact Hh|now intros []|exact Hk|reflexivity|].
  2: { cbn. rewrite lookup_insert_eq. eauto. }
  eapply PutFile_stored in H2 as [Hv2 Hk2]; [|exact Hk|exact Hd|now intros []|exact Hk1|now rewrite Hv1|].
  2: { rewrite Hv1. cbn. apply getFile_inv in Hd as (_ & _ & Hd); [|done].
       apply lookup_insert_is_Some. destruct (decide (h = d)); [now left|right; split; [done|]].
       now apply (wf_links _ d (f_Type dir)). }
  rewrite Hv2, Hv1. split; [|done].
  cbn [on_store tx_store]. rewrite view_set_link_count, view_set_child.
  rewrite getLinkCount_view, view_set_child. unfold fs_link, fs_link_count. cbn [fs_types fs_entries fs_parents fs_links].
  rewrite u32_small; [done|]. unfold fs_link_count in Hb. unfold in_u32. lia.
Qed.
(** *** Removing *)

Lemma file_links_pos s k h ty :
  wf s -> fs_entries (view s) !! k = Some h -> fs_types (view s) !! h = Some ty -> ty <> FileTypeDirectory ->
  0 < fs_link_count (view s) h.
Proof.
  intros Hwf Hk Ht Hn. rewrite (links_of_file _ (wf_fs _ Hwf) h ty) by done. now apply (nrefs_pos _ k).
Qed.

(** One name fewer: the count a removal stores. *)
Lemma drop_link n : 0 < n -> (if n >? 1 then n - 1 else 0) = n - 1.
Proof. destruct (n >? 1) eqn:E; lia. Qed.

Lemma remove_tx_view p h n file now t t' left :
  remove_tx p h n file now t = (inr left, t') ->
  getFile (tx_store t) h = inr file -> wf (tx_store t) -> f_Type file <> FileTypeDirectory ->
  fs_entries (view (tx_store t)) !! (p, n) = Some h ->
  view (tx_store t') = fs_unlink p n h (view (tx_store t)) /\ keyed (tx_store t') /\
  left = fs_link_count (view (tx_store t)) h - 1.
Proof.
  intros H Hg Hwf Hn He. destruct (getFile_inv _ _ _ (wf_keyed _ Hwf) Hg) as (_ & _ & Ht).
  pose proof (file_links_pos _ _ _ _ Hwf He Ht Hn) as Hpos. rewrite <- getLinkCount_view in *.
  unfold remove_tx in H. tstep H. tstep H. apply bind_inv in H as (u & t2 & Hd & H). tstep H.
  apply DeleteChild_inv in Hd as [_ ->].
  assert (view (tx_store s) = view (store_set_link_count h (getLinkCount (tx_store t) h - 1) (tx_store t)) /\
    keyed (tx_store s) /\ a = getLinkCount (tx_store t) h - 1) as (Hv & Hk & ->).
  { rewrite <- (drop_link (getLinkCount _ _)) by done.
    destruct (getLinkCount (tx_store t) h >? 1); tstep H0; tstep H0; tstep H0;
      (eapply PutFile_stored in H as [Hv Hk];
        [|exact (wf_keyed _ Hwf)|exact Hg|now intros []|exact (wf_keyed _ Hwf)|done
         |cbn; rewrite lookup_insert_eq; eauto]); done. }
  split_and!; [|apply (keyed_on_store (store_delete_child p n)); done|done].
  cbn [on_store tx_store]. rewrite view_delete_child, Hv. done.
Qed.

Lemma rmdir_tx_view p h n parent times t t' a :
  rmdir_tx p h n parent times t = (inr a, t') ->
  getFile (tx_store t) p = inr parent -> wf (tx_store t) ->
  fs_entries (view (tx_store t)) !! (p, n) = Some h -> is_dir (view (tx_store t)) h ->
  (forall m, fs_entries (view (tx_store t)) !! (h, m) = None) ->
  view (tx_store t') = fs_rmdir p n h (view (tx_store t)) /\ keyed (tx_store t').
Proof.
  intros H Hg Hwf He Hd Hempty. assert (Hne : p <> h).
  { intros ->. now rewrite Hempty in He. }
  assert (Hpd : is_dir (view (tx_store t)) p) by (eapply entry_dir; [apply Hwf|exact He]).
  pose proof (links_of_dir _ (wf_fs _ Hwf) p Hpd) as Hlp.
  pose proof (nsub_nonneg (view (tx_store t)) p).
  unfold rmdir_tx in H. tstep H. apply reread_inv in H1 as [-> ->]; [|done].
  tstep H. apply DeleteFile_inv in H1 as [attr Hdel].
  tstep H. apply DeleteChild_inv in H1 as [_ ->].
  tstep H. apply bind_inv in H as (u2 & t2 & H & Hr). tstep Hr.
  set (t1 := on_store (store_delete_child p n) s) in *.
  assert (Hv : view (tx_store t1) =
    mkFs (delete h (fs_types (view (tx_store t)))) (delete (p, n) (fs_entries (view (tx_store t))))
      (delete h (fs_parents (view (tx_store t)))) (delete h (fs_links (view (tx_store t))))).
  { unfold t1. cbn [on_store tx_store]. now rewrite view_delete_child, Hdel, view_delete. }
  assert (Hc : getLinkCount (store_delete_child p n (tx_store s)) p = fs_link_count (view (tx_store t)) p).
  { change (store_delete_child p n (tx_store s)) with (tx_store t1).
    rewrite getLinkCount_view, Hv. unfold fs_link_count. cbn. now rewrite lookup_delete_ne. }
  assert (Hk1 : keyed (tx_store t1)).
  { apply (keyed_files (tx_store s)); [done|]. rewrite Hdel. apply keyed_delete, Hwf. }
  rewrite Hc in H. destruct (Z.gtb_spec (fs_link_count (view (tx_store t)) p) 0) as [_|]; [|lia].
  tstep H. split; [|done]. cbn [on_store tx_store]. now rewrite view_set_link_count, Hv.
Qed.

(** *** Moving *)

Definition unlink_dst (td : FileHandle) (tn : string) (dst : option (FileHandle * File)) (f : Fs) : Fs :=
  match dst with None => f | Some (dh, _) => fs_unlink td tn dh f end.

(** What [check_destination] establishes for the transaction, when no directory
    is replaced. *)
Definition dst_ok (s : MemoryStore) (td : FileHandle) (tn : string) (dst : option (FileHandle * File)) : Prop :=
  match dst with
  | None => fs_entries (view s) !! (td, tn) = None
  | Some (dh, df) => fs_entries (view s) !! (td, tn) = Some dh /\ getFile s dh = inr df /\
                     f_Type df <> FileTypeDirectory
  end.

Lemma replace_tx_view td tn dst now t t' u :
  replace_tx td tn dst now t = (inr u, t') -> wf (tx_store t) -> dst_ok (tx_store t) td tn dst ->
  view (tx_store t') = unlink_dst td tn dst (view (tx_store t)) /\ keyed (tx_store t').
Proof.
  intros H Hwf Hd. destruct dst as [[dh df]|]; unfold replace_tx in H; [|tstep H; split; [done|apply Hwf]].
  destruct Hd as (He & Hg & Hn). destruct (getFile_inv _ _ _ (wf_keyed _ Hwf) Hg) as (_ & _ & Ht).
  unfold is_type in H. rewrite bool_decide_eq_false_2 in H by done.
  unfold unlink_tx in H. tstep H. tstep H0. tstep H0.
  eapply PutFile_stored in H0 as [Hv Hk];
    [|exact (wf_keyed _ Hwf)|exact Hg|now intros []|exact (wf_keyed _ Hwf)|done
     |cbn; rewrite lookup_insert_eq; eauto].
  apply DeleteChild_inv in H as [_ ->]. cbn [on_store tx_store]. split.
  - rewrite view_delete_child, Hv. cbn [on_store tx_store].
    rewrite drop_link by (rewrite getLinkCount_view; eapply file_links_pos; eauto). done.
  - now apply (keyed_files (tx_store s)).
Qed.
Lemma reparent_tx_view fd td h b t t' u :
  reparent_tx fd td h b t = (inr u, t') -> fd <> td -> 0 < fs_link_count (view (tx_store t)) fd ->
  0 <= fs_link_count (view (tx_store t)) td < 2 ^ 32 - 1 ->
  st_files (tx_store t') = st_files (tx_store t) /\
  view (tx_store t') =
    let f := view (tx_store t) in
    mkFs (fs_types f) (fs_entries f) (<[h := td]> (fs_parents f))
      (if b then let l := <[fd := fs_link_count f fd - 1]> (fs_links f) in
                 <[td := default 0 (l !! td) + 1]> l
       else fs_links f).
Proof.
  intros H Hne Hfd Htd. unfold reparent_tx in H. tstep H. destruct b; [|tstep H; split; done].
  tstep H. rewrite getLinkCount_view, view_set_parent in H. tstep H.
  replace (_ >? 0) with true in H0 by (symmetry; apply Z.gtb_lt; exact Hfd).
  tstep H0. tstep H. cbn [on_store tx_store]. split; [done|].
  rewrite !getLinkCount_view, !view_set_link_count, !view_set_parent.
  unfold fs_link_count in *. cbn [fs_types fs_entries fs_parents fs_links] in *.
  cbv zeta. rewrite !lookup_insert_ne by done. rewrite u32_small; [done|unfold in_u32; lia].
Qed.

Lemma unlink_dst_types td tn dst f : fs_types (unlink_dst td tn dst f) = fs_types f.
Proof. now destruct dst as [[]|]. Qed.

Lemma unlink_dst_links s td tn dst x ty :
  wf s -> dst_ok s td tn dst -> fs_types (view s) !! x = Some ty ->
  is_Some (fs_links (unlink_dst td tn dst (view s)) !! x) /\
  (ty = FileTypeDirectory -> fs_link_count (unlink_dst td tn dst (view s)) x = fs_link_count (view s) x).
Proof.
  intros Hwf Hd Ht. pose proof (wf_links _ _ _ Hwf Ht) as Hl. destruct dst as [[dh df]|]; [|done].
  destruct Hd as (_ & Hg & Hn). apply getFile_inv in Hg as (_ & _ & Htd); [|apply Hwf].
  unfold fs_link_count at 1. cbn. destruct (decide (x = dh)) as [->|Hx].
  - rewrite lookup_insert_eq. split; [eauto|]. intros ->. congruence.
  - now rewrite lookup_insert_ne by done.
Qed.

Lemma move_tx_view fd td h fn tn srcDir dstDir srcFile dst times now now' t t' a :
  move_tx fd td h fn tn srcDir dstDir srcFile dst times now now' t = (inr a, t') ->
  wf (tx_store t) -> getFile (tx_store t) fd = inr srcDir -> getFile (tx_store t) td = inr dstDir ->
  f_Type dstDir = FileTypeDirectory -> f_Type srcDir = FileTypeDirectory ->
  getFile (tx_store t) h = inr srcFile -> dst_ok (tx_store t) td tn dst ->
  fs_link_count (view (tx_store t)) td < 2 ^ 32 - 1 ->
  view (tx_store t') = fs_rename fd fn td tn h (unlink_dst td tn dst (view (tx_store t))) /\
  keyed (tx_store t').
Proof.
  intros H Hwf Hfd Htd Hdt Hst Hh Hdst Hb.
  destruct (getFile_inv _ _ _ (wf_keyed _ Hwf) Hfd) as (_ & _ & Tfd).
  destruct (getFile_inv _ _ _ (wf_keyed _ Hwf) Htd) as (_ & _ & Ttd).
  destruct (getFile_inv _ _ _ (wf_keyed _ Hwf) Hh) as (_ & _ & Th).
  rewrite Hdt in Ttd. rewrite Hst in Tfd.
  pose proof (unlink_dst_links _ td tn dst _ _ Hwf Hdst Tfd) as [_ Lfd].
  pose proof (unlink_dst_links _ td tn dst _ _ Hwf Hdst Ttd) as [_ Ltd].
  pose proof (unlink_dst_links _ td tn dst _ _ Hwf Hdst Th) as [Lh _].
  rewrite (links_of_dir _ (wf_fs _ Hwf) fd Tfd) in Lfd.
  rewrite (links_of_dir _ (wf_fs _ Hwf) td Ttd) in Hb, Ltd.
  specialize (Lfd eq_refl). specialize (Ltd eq_refl).
  pose proof (nsub_nonneg (view (tx_store t)) fd). pose proof (nsub_nonneg (view (tx_store t)) td).
  unfold move_tx in H. tstep H. apply reread_inv in H2 as [-> ->]; [|done].
  apply bind_inv in H as (db & t1 & Hdb & H).
  assert (t1 = t) as -> by (destruct (String.eqb fd td);
    [now tstep Hdb|tstep Hdb; apply reread_inv in H2 as [-> ->]; [now tstep Hdb|done]]).
  apply bind_inv in H as (u1 & t1 & Hrep & H). apply replace_tx_view in Hrep as [V1 K1]; [|done|done].
  tstep H. apply DeleteChild_inv in H2 as [_ ->]. tstep H.
  apply bind_inv in H as (u2 & t2 & Hrp & H). tstep H. tstep H.
  set (f1 := unlink_dst td tn dst (view (tx_store t))) in *.
  assert (V2 : view (tx_store t2) = fs_rename fd fn td tn h f1 /\ keyed (tx_store t2)).
  { unfold fs_rename. assert (is_dir f1 h <-> f_Type srcFile = FileTypeDirectory) as Hdir.
    { unfold is_dir, f1. rewrite unlink_dst_types, Th. split; [now injection 1|now intros ->]. }
    destruct (String.eqb_spec fd td) as [->|Hne]; cbn [negb] in Hrp.
    - tstep Hrp. split; [|exact K1]. rewrite (decide_False (P := is_dir f1 h /\ td <> td)) by (intros [_ Hx]; now apply Hx).
      rewrite decide_True by done.
      cbn [on_store tx_store]. now rewrite view_set_child, view_delete_child, V1.
    - apply reparent_tx_view in Hrp as [Hf Hv]; [|done|..].
      + split; [|apply (keyed_files (tx_store t1)); [now rewrite Hf|exact K1]].
        rewrite Hv. cbn [on_store tx_store]. rewrite !view_set_child, !view_delete_child, V1. cbv zeta.
        rewrite (decide_False (P := fd = td)) by done. unfold is_type.
        cbn [fs_types fs_entries fs_parents fs_links]. f_equal.
        destruct (decide (f_Type srcFile = FileTypeDirectory)) as [E|E].
        * rewrite bool_decide_eq_true_2, decide_True by tauto. done.
        * rewrite bool_decide_eq_false_2, decide_False by tauto. done.
      + cbn [on_store tx_store]. rewrite view_set_child, view_delete_child, V1. unfold fs_link_count in *. cbn. lia.
      + cbn [on_store tx_store]. rewrite view_set_child, view_delete_child, V1. unfold fs_link_count in *. cbn. lia. }
  destruct V2 as [V2 K2].
  eapply PutFile_stored in H2 as [Hv Hk]; [|exact (wf_keyed _ Hwf)|exact Hh|now intros []|exact K2|..].
  - now rewrite Hv.
  - rewrite V2. unfold fs_rename. cbn. unfold f1. now rewrite unlink_dst_types.
  - rewrite V2. unfold fs_rename. cbn [fs_links]. case_decide; [|done].
    apply lookup_insert_is_Some'. right. apply lookup_insert_is_Some'. now right.
Qed.
(** ** The service around the store *)

Lemma flush_tx_view h dt t t' u :
  flush_tx h dt t = (inr u, t') -> wf (tx_store t) ->
  view (tx_store t') = view (tx_store t) /\ keyed (tx_store t').
Proof.
  intros H Hwf. unfold flush_tx in H. tstep H.
  destruct (is_type (f_Type a) FileTypeDirectory); cbn [negb] in H; [|tstep H; split; [done|apply Hwf]].
  destruct (applyDirTimes (f_Attr a) dt) as [attr [|]] eqn:E; [|tstep H; split; [done|apply Hwf]].
  destruct (getFile_inv _ _ _ (wf_keyed _ Hwf) H0) as (He & Hs & Ht).
  apply (PutFile_same _ _ _ _ h) in H; try done;
    [apply Hwf| |now apply (wf_links _ h (f_Type a))].
  rewrite Ht. unfold f_Type. cbn [set_Attr f_Attr]. f_equal.
  unfold applyDirTimes in E. injection E as <- _. destruct (f_Attr a); cbn.
  repeat match goal with |- context [if ?b then _ else _] => destruct b end; done.
Qed.

#[export] Instance framed_flush_tx h dt : Framed (flush_tx h dt).
Proof. unfold flush_tx. apply framed_bind; [apply _|]. intros f. destruct (applyDirTimes _ _). apply _. Qed.

Lemma recordDirTimes_view h now s s' u :
  recordDirTimes h now s = (inr u, s') -> wf (sv_store s) ->
  view (sv_store s') = view (sv_store s) /\ keyed (sv_store s').
Proof.
  intros H Hwf. unfold recordDirTimes in H. apply bind_inv in H as (due & s1 & E & H).
  assert (sv_store s1 = sv_store s) as E1.
  { destruct (RecordBump h now (sv_dirTimes s)). now injection E as _ <-. }
  rewrite <- E1 in *. clear E E1. destruct due; [|mstep H; split; [done|apply Hwf]].
  unfold flushDirTimes in H. mstep H. destruct (_ !! h) as [dt|]; [|mstep H; split; [done|apply Hwf]].
  apply bind_inv in H as (ok & s2 & E & H). apply attempt_inv in E.
  pose proof (keeps_storeForHandle h s1) as [E1 _]. rewrite E in E1. cbn in E1. rewrite <- E1 in *.
  destruct ok; [mstep H; split; [done|apply Hwf]|].
  apply bind_inv in H as (r & s3 & E2 & H). apply attempt_inv in E2. destruct r as [e|x].
  - mstep H. unfold transact in E2. destruct (WithTransaction _ _) as [r st] eqn:E3. injection E2 as -> <-.
    apply rollback in E3 as ->; [|apply _]. split; [done|apply Hwf].
  - mstep H. apply transact_inv in E2 as (t & E2 & ->). now apply flush_tx_view in E2.
Qed.
(** Service code leaves the trash policy and the UUID stream alone, and only
    consumes UUIDs. *)
Class KeepsEnv {A} (m : Svc A) : Prop :=
  keeps_env : forall s, sv_trash (m s).2 = sv_trash s /\ sv_uuids (m s).2 = sv_uuids s /\
                        (sv_ids s <= sv_ids (m s).2)%nat.

#[export] Instance env_bind {A B} (m : Svc A) (k : A -> Svc B) :
  KeepsEnv m -> (forall a, KeepsEnv (k a)) -> KeepsEnv (m ≫= k).
Proof.
  intros Hm Hk s. unfold mbind, M_bind. specialize (Hm s). destruct (m s) as [[e|a] s']; [done|].
  cbn in Hm. destruct Hm as (H1 & H2 & H3), (Hk a s') as (-> & -> & H6). split_and!; [done|done|lia].
Qed.
#[export] Instance env_attempt {A} (m : Svc A) : KeepsEnv m -> KeepsEnv (attempt m).
Proof. intros Hm s. unfold attempt. specialize (Hm s). now destruct (m s). Qed.
#[export] Instance env_if {A} (b : bool) (m m' : Svc A) : KeepsEnv m -> KeepsEnv m' -> KeepsEnv (if b then m else m').
Proof. now destruct b. Qed.
#[export] Instance env_result {A B} (r : Result A) (f : GoError -> Svc B) (g : A -> Svc B) :
  (forall e, KeepsEnv (f e)) -> (forall a, KeepsEnv (g a)) ->
  KeepsEnv (match r with inl e => f e | inr a => g a end).
Proof. now destruct r. Qed.
#[export] Instance env_option {A B} (r : option A) (f : Svc B) (g : A -> Svc B) :
  KeepsEnv f -> (forall a, KeepsEnv (g a)) -> KeepsEnv (match r with None => f | Some a => g a end).
Proof. now destruct r. Qed.
#[export] Instance env_ret {A} (a : A) : KeepsEnv (mret a).
Proof. now intros s. Qed.
#[export] Instance env_lift {A} (r : Result A) : KeepsEnv (lift r).
Proof. now intros s. Qed.
#[export] Instance env_throw {A} e : KeepsEnv (throw e : Svc A).
Proof. now intros s. Qed.
#[export] Instance env_fail {A} c : KeepsEnv (MetaTypes.fail c : Svc A).
Proof. now intros s. Qed.
#[export] Instance env_gets {A} (f : Service -> A) : KeepsEnv (gets f).
Proof. now intros s. Qed.
#[export] Instance env_rd {A} (f : MemoryStore -> Result A) : KeepsEnv (rd f).
Proof. now intros s. Qed.
#[export] Instance env_check b c : KeepsEnv (check b c).
Proof. intros s. now destruct b. Qed.
#[export] Instance env_now : KeepsEnv time_Now.
Proof. now intros s. Qed.
#[export] Instance env_uuid : KeepsEnv uuid_New.
Proof. intros s. cbn. auto. Qed.
#[export] Instance env_quotas {A} (m : M quotaLimits A) : KeepsEnv (on_quotas m).
Proof. intros s. unfold on_quotas. now destruct (m (sv_quotas s)). Qed.
#[export] Instance env_notify d ty : KeepsEnv (notifyDirChange d ty).
Proof. now intros s. Qed.
#[export] Instance env_transact {A} (fn : Tx A) : KeepsEnv (transact fn).
Proof. intros s. unfold transact. now destruct (WithTransaction fn (sv_store s)). Qed.
#[export] Instance env_dirTimes f : KeepsEnv (modify (fun s => with_dirTimes (f s) s)).
Proof. now intros s. Qed.
#[export] Instance env_pending f : KeepsEnv (modify (fun s => with_pending (f s) s)).
Proof. now intros s. Qed.

#[export] Instance env_storeForHandle h : KeepsEnv (storeForHandle h).
Proof. unfold storeForHandle, GetStoreForShare. apply _. Qed.
#[export] Instance env_checkPermission c h p : KeepsEnv (checkPermission c h p).
Proof. unfold checkPermission, checkFilePermissions, filePermissions, permission_result. apply _. Qed.
#[export] Instance env_checkWrite c h : KeepsEnv (checkWritePermission c h).
Proof. unfold checkWritePermission. apply _. Qed.
#[export] Instance env_checkDelete c h : KeepsEnv (checkDeletePermission c h).
Proof. unfold checkDeletePermission. apply _. Qed.
#[export] Instance env_checkParent c h f b : KeepsEnv (checkParentCreateAccess c h f b).
Proof. unfold checkParentCreateAccess. apply _. Qed.
#[export] Instance env_mergeDir h a : KeepsEnv (mergeDir h a).
Proof. unfold mergeDir. apply _. Qed.
#[export] Instance env_flush h : KeepsEnv (flushDirTimes h).
Proof. unfold flushDirTimes. apply _. Qed.
#[export] Instance env_record h t : KeepsEnv (recordDirTimes h t).
Proof.
  unfold recordDirTimes. apply env_bind; [|apply _]. intros s. now destruct (RecordBump h t (sv_dirTimes s)).
Qed.
#[export] Instance env_getChild d n : KeepsEnv (ServiceGetChild d n).
Proof. unfold ServiceGetChild. apply _. Qed.
#[export] Instance env_getFile h : KeepsEnv (ServiceGetFile h).
Proof. unfold ServiceGetFile. apply _. Qed.
#[export] Instance env_getRoot n : KeepsEnv (ServiceGetRootHandle n).
Proof. unfold ServiceGetRootHandle, GetStoreForShare. apply _. Qed.
#[export] Instance env_absent d n : KeepsEnv (require_absent d n).
Proof. unfold require_absent. apply _. Qed.
#[export] Instance env_createEntry ctx p n a ty l x y : KeepsEnv (createEntry ctx p n a ty l x y).
Proof. unfold createEntry. apply _. Qed.
#[export] Instance env_link ctx d n h : KeepsEnv (CreateHardLink ctx d n h).
Proof. unfold CreateHardLink. apply _. Qed.

(** The bin's own operations. *)
#[export] Instance env_ensureChildDir ctx p n m : KeepsEnv (ensureChildDir ctx p n m).
Proof. unfold ensureChildDir, CreateDirectory, notifying. apply _. Qed.
#[export] Instance env_ensureChildDirs ctx p ds : KeepsEnv (ensureChildDirs ctx p ds).
Proof. revert p. induction ds as [|d ds IH]; intros p; cbn [ensureChildDirs]; apply _. Qed.
#[export] Instance env_freeBinName d n : KeepsEnv (freeBinName d n).
Proof.
  unfold freeBinName. apply env_bind; [apply _|]. intros now. generalize O as i, n at 2 as c.
  induction maxBinNameAttempts as [|k IH]; intros i c; cbn [free_name_loop]; apply _.
Qed.

Section Env.
Context (move : AuthContext -> FileHandle -> string -> FileHandle -> string -> Svc (option RenameWcc)).
Context `{!forall c a b d e, KeepsEnv (move c a b d e)}.
#[local] Instance env_recycle c sh p n o : KeepsEnv (recycleNode_with move c sh p n o).
Proof. unfold recycleNode_with, stampRecycled, clearRecycleStamp, stamp_tx. apply _. Qed.
Lemma env_remove c p n : KeepsEnv (RemoveFile_with (recycleNode_with move) c p n).
Proof. unfold RemoveFile_with, PopPending. apply _. Qed.
Lemma env_rmdir c p n : KeepsEnv (RemoveDirectory_with (recycleNode_with move) c p n).
Proof. unfold RemoveDirectory_with. apply _. Qed.
Lemma env_move c fd fn td tn : KeepsEnv (Move_with (recycleNode_with move) c fd fn td tn).
Proof. unfold Move_with, check_destination. apply _. Qed.
End Env.

#[export] Instance env_Move_fuel k c fd fn td tn : KeepsEnv (Move_fuel k c fd fn td tn).
Proof. revert c fd fn td tn. induction k as [|k IH]; intros; cbn [Move_fuel]; [apply _|now apply env_move]. Qed.

#[export] Instance env_run_op ctx op : KeepsEnv (run_op ctx op).
Proof.
  destruct op; cbn [run_op]; unfold RemoveFile, RemoveDirectory, recycleNode, Move; (apply env_bind; [|apply _]).
  all: first [apply _ | now apply env_remove, _ | now apply env_rmdir, _].
Qed.
End Refine.
