(* ===== verification/NamespaceSteps.v ===== *)
(** * Runs of namespace operations

    The specification of each operation as a step of the abstract namespace, the
    theorem that the service implements it, and the invariant along every
    sequence of operations, successful or not. *)

From S2P Require Import Prelude.
From S2P Require Import HoleMap.
From S2P Require Import MetaTypes.
From S2P Require Import Permissions.
From S2P Require Import Quota.
From S2P Require Import MetaStore.
From S2P Require Import MetaService.
From S2P Require Import Namespace.
From S2P Require Import FsSpec.
From S2P Require Import StoreFacts.
From S2P Require Import NamespaceAtomic.
From S2P Require Import NamespaceRefine.

(** What a successful operation does to the namespace. *)
Inductive op_spec (f : Fs) : ns_op -> Fs -> Prop :=
  | spec_create d n a ty t x y h :
      is_dir f d -> fs_entries f !! (d, n) = None -> fs_types f !! h = None ->
      op_spec f (OpCreate d n a ty t x y) (fs_create d n h ty f)
  | spec_link d n h ty :
      is_dir f d -> fs_entries f !! (d, n) = None -> fs_types f !! h = Some ty -> ty <> FileTypeDirectory ->
      op_spec f (OpLink d n h) (fs_link d n h f)
  | spec_remove d n h ty :
      fs_entries f !! (d, n) = Some h -> fs_types f !! h = Some ty -> ty <> FileTypeDirectory ->
      op_spec f (OpRemove d n) (fs_unlink d n h f)
  | spec_rmdir d n h :
      fs_entries f !! (d, n) = Some h -> is_dir f h -> (forall m, fs_entries f !! (h, m) = None) ->
      op_spec f (OpRmdir d n) (fs_rmdir d n h f)
  | spec_move_noop d n : op_spec f (OpMove d n d n) f
  | spec_move fd fn td tn h :
      fs_entries f !! (fd, fn) = Some h -> is_dir f td -> fs_entries f !! (td, tn) = None ->
      op_spec f (OpMove fd fn td tn) (fs_rename fd fn td tn h f)
  | spec_move_over fd fn td tn h dh ty :
      fs_entries f !! (fd, fn) = Some h -> (fd, fn) <> (td, tn) -> ~ is_dir f h ->
      fs_entries f !! (td, tn) = Some dh -> fs_types f !! dh = Some ty -> ty <> FileTypeDirectory ->
      op_spec f (OpMove fd fn td tn) (fs_rename fd fn td tn h (fs_unlink td tn dh f)).

(** The renames the specification covers: the source is not a directory above
    the destination, and the destination is not a directory. *)
Definition allowed (f : Fs) (op : ns_op) : Prop :=
  match op with
  | OpMove fd fn td tn =>
      (forall h, fs_entries f !! (fd, fn) = Some h -> is_dir f h -> ~ rtc (edge f) h td) /\
      (forall h, fs_entries f !! (td, tn) = Some h -> ~ is_dir f h)
  | _ => True
  end.

(** Link counts stay below 2^32 while there are fewer names than that. *)
Definition room (f : Fs) : Prop := Z.of_nat (size (fs_entries f)) < 2 ^ 32 - 4.

Lemma op_spec_ok f op f' : fs_ok f -> allowed f op -> op_spec f op f' -> fs_ok f'.
Proof.
  intros Hok Ha Hs. destruct Hs.
  - now apply fs_create_ok.
  - now apply (fs_link_ok f Hok d n h ty).
  - now apply (fs_unlink_ok f Hok d n h ty).
  - now apply fs_rmdir_ok.
  - done.
  - destruct Ha as [Ha _]. apply fs_rename_ok; eauto.
  - assert (fs_ok (fs_unlink td tn dh f)) as Hok' by (now apply (fs_unlink_ok f Hok td tn dh ty)).
    apply fs_rename_ok; try done; cbn.
    + now rewrite lookup_delete_ne.
    + apply lookup_delete_eq.
    + now apply (ok_entry f Hok td tn dh).
Qed.

(** ** The service implements the specification *)

Lemma size_filter_le {K A} `{Countable K} (P : K * A -> Prop) `{!forall x, Decision (P x)} (m : gmap K A) :
  (size (filter P m) <= size m)%nat.
Proof. apply map_subseteq_size, map_filter_subseteq. Qed.

Lemma links_bound f h ty :
  fs_ok f -> room f -> fs_types f !! h = Some ty -> 0 <= fs_link_count f h < 2 ^ 32 - 1.
Proof.
  intros Hok Hr Ht. unfold room in Hr. destruct (decide (ty = FileTypeDirectory)) as [->|Hn].
  - rewrite (links_of_dir f Hok h Ht). unfold nsub. pose proof (size_filter_le (fun e => e.1.1 = h /\ is_dir f e.2) (fs_entries f)). lia.
  - rewrite (links_of_file f Hok h ty Ht Hn). unfold nrefs. pose proof (size_filter_le (fun e => e.2 = h) (fs_entries f)). lia.
Qed.

Section Implements.
Context `{L : UuidLaws}.

(** The UUID stream has no repetitions and its rest is not in use. *)
Record fresh (s : Service) : Prop := {
  fresh_inj : Inj eq eq (sv_uuids s);
  fresh_unused : forall n sh h, (sv_ids s <= n)%nat -> share_ok sh ->
    EncodeShareHandle sh (sv_uuids s n) = inr h -> fs_types (view (sv_store s)) !! h = None;
}.

Record good (s : Service) : Prop := {
  good_wf : wf (sv_store s);
  good_bin : trash_off s;
  good_fresh : fresh s;
}.

(** Code that only reads, run successfully. *)
Lemma quiet_inv {A} (m : Svc A) s s' r :
  m s = (r, s') -> KeepsStore m -> KeepsEnv m ->
  sv_store s' = sv_store s /\ sv_trash s' = sv_trash s /\ sv_uuids s' = sv_uuids s /\ (sv_ids s <= sv_ids s')%nat.
Proof.
  intros E Hk He. specialize (Hk s). specialize (He s). rewrite E in Hk, He. cbn in *. tauto.
Qed.

Lemma require_absent_inv d n s s' u :
  require_absent d n s = (inr u, s') -> s' = s /\ fs_entries (view (sv_store s)) !! (d, n) = None.
Proof.
  unfold require_absent. intros H. mstep H. apply attempt_inv in H0.
  destruct a as [e|h]; [|discriminate]. injection H0 as E <-. apply getChild_inl in E as [-> E].
  unfold IsNotFoundError in H. rewrite bool_decide_eq_true_2 in H by done. mstep H. done.
Qed.

End Implements.

(** Inverting a step of the service: one that ran, and one that only read. *)
Ltac nstep H :=
  mstep H;
  repeat match goal with E : notifyDirChange _ _ _ = (inr _, _) |- _ => apply modify_inv in E as -> end.

Ltac qstep H :=
  let E := fresh "E" in let x := fresh "x" in let s1 := fresh "s" in
  apply bind_inv in H as (x & s1 & E & H);
  first [ apply check_inv in E as [E ->] | apply lift_inv in E as [E ->]
        | apply rd_inv in E as [E ->] | apply gets_inv in E as [-> ->]
        | apply require_absent_inv in E as [-> E]
        | apply quiet_inv in E as (? & ? & ? & ?); [|apply _|apply _] ].

Section Runs.
Context `{L : UuidLaws}.

Lemma ListChildren_empty s h :
  match (ListChildren s h "" 1).1 with [] => true | _ => false end = true ->
  forall n, fs_entries (view s) !! (h, n) = None.
Proof.
  unfold ListChildren. intros H n. rewrite view_entry. destruct (st_children s !! h) as [m|]; [|done]. cbn in *.
  destruct (sortedChildNames m) as [|x l] eqn:E; [|discriminate].
  destruct (m !! n) as [c|] eqn:En; [|done]. exfalso.
  assert (In n (sortedChildNames m)) as Hin; [|now rewrite E in Hin].
  apply elem_of_sort_by, in_map_iff. exists (n, c). split; [done|].
  now apply list_elem_of_In, elem_of_map_to_list.
Qed.

Lemma fresh_keep s s' :
  fresh s -> sv_uuids s' = sv_uuids s -> (sv_ids s <= sv_ids s')%nat ->
  (forall h, fs_types (view (sv_store s)) !! h = None -> fs_types (view (sv_store s')) !! h = None) ->
  fresh s'.
Proof.
  intros [Hi Hu] E1 E2 Hd. split; rewrite E1; [done|]. intros n sh h Hn Hs He.
  apply Hd, (Hu n sh); [lia|done|done].
Qed.
(** *** Creating *)

Lemma set_Mode_Type v a : fa_Type (set_Mode v a) = fa_Type a.
Proof. now destruct a. Qed.

Ltac attr_cases :=
  repeat match goal with
  | |- context [if ?b then _ else _] => destruct b
  | |- context [match ?o with Some _ => _ | None => _ end] => destruct o
  end; try done.

Lemma defaults_type a l now : fa_Type (ApplyCreateDefaults a l now) = fa_Type a.
Proof. destruct a. unfold ApplyCreateDefaults. cbn. attr_cases. Qed.

Lemma owner_type a ctx : fa_Type (ApplyOwnerDefaults a ctx) = fa_Type a.
Proof. destruct a. unfold ApplyOwnerDefaults. cbn. attr_cases. Qed.

Lemma sgid_type p a ty : fa_Type (inherit_sgid p a ty) = fa_Type a.
Proof. destruct a. unfold inherit_sgid. cbn. attr_cases. Qed.

Lemma strip_setid_type ctx a ty b : strip_setid ctx a ty = inr b -> fa_Type b = fa_Type a.
Proof.
  unfold strip_setid, identity_HasGID. intros H. cbv zeta in H.
  repeat (case_match; simplify_eq); now rewrite ?set_Mode_Type.
Qed.

Lemma new_attributes_inv ctx p a ty l x y id now b :
  new_attributes ctx p a ty l x y id now = inr b -> fa_Type b = ty /\ fa_Nlink b = GetInitialLinkCount ty.
Proof.
  unfold new_attributes. destruct (strip_setid _ _ _) as [|c] eqn:E; [discriminate|]. injection 1 as <-.
  apply strip_setid_type in E. rewrite sgid_type, owner_type, defaults_type in E.
  replace (fa_Type (set_LinkTarget l (set_Type ty a))) with ty in E by now destruct a.
  destruct c; cbn in E. subst. attr_cases.
Qed.

Lemma inherit_acl_keeps ctx p ty a :
  fa_Type (inherit_acl ctx p ty a) = fa_Type a /\ fa_Nlink (inherit_acl ctx p ty a) = fa_Nlink a.
Proof. unfold inherit_acl. destruct (fa_ACL (f_Attr p)); now destruct a. Qed.

Lemma is_type_true ty ty' : is_type ty ty' = true -> ty = ty'.
Proof. apply bool_decide_eq_true. Qed.

Lemma is_type_false ty ty' : negb (is_type ty ty') = true -> ty <> ty'.
Proof. rewrite negb_true_iff. apply bool_decide_eq_false. Qed.

Lemma createEntry_spec ctx p n attr ty l x y s r s' :
  createEntry ctx p n attr ty l x y s = (inr r, s') -> good s -> room (view (sv_store s)) ->
  exists h, is_dir (view (sv_store s)) p /\ fs_entries (view (sv_store s)) !! (p, n) = None /\
    fs_types (view (sv_store s)) !! h = None /\
    view (sv_store s') = fs_create p n h ty (view (sv_store s)) /\ keyed (sv_store s') /\ fresh s'.
Proof.
  intros H [Hwf Hbin Hfr] Hr. unfold createEntry in H. do 7 qstep H.
  apply bind_inv in H as (id & s3 & Eu & H). injection Eu as <- <-.
  do 3 qstep H. do 4 qstep H. apply bind_inv in H as (u & s7 & Et & H). 
  rewrite H4, H0 in *. cbn [sv_store sv_ids sv_uuids with_ids with_ticks] in *. rewrite H4 in *. rewrite ?H0 in *.
  destruct (getFile_inv _ _ _ (wf_keyed _ Hwf) E0) as (_ & Hsh & Tp). apply is_type_true in E1.
  rewrite E1 in Tp. unfold GenerateNewHandle in E4. rewrite (decode_encoded _ _ _ Hsh E4) in E5.
  injection E5 as <-. apply new_attributes_inv in E7 as [Tn Nn].
  destruct (inherit_acl_keeps ctx x2 ty x10) as [Ta Na].
  assert (Hu : sv_uuids s1 = sv_uuids s) by congruence.
  assert (Hnew : fs_types (view (sv_store s)) !! x7 = None).
  { apply (fresh_unused s Hfr (sv_ids s1) (f_ShareName x2)); [lia|done|now rewrite <- Hu]. }
  apply transact_inv in Et as (t & Et & ->). cbn [sv_store with_ticks] in Et. rewrite H8 in Et.
  apply create_tx_view in Et as (Vt & Kt & Hfree); cbn [tx_store f_ShareName f_ID]; try done.
  2: { unfold f_Type. cbn [f_Attr]. congruence. }
  2: { intros ->. congruence. }
  2: { now apply (links_bound _ p FileTypeDirectory); [apply Hwf| |]. }
  2: { apply Hwf. }
  cbn [tx_store] in *. replace (f_Type _) with ty in Vt by (unfold f_Type; cbn [f_Attr]; congruence).
  apply bind_inv in H as (u' & s9 & Hrec & H). mstep H.
  pose proof (env_record p x13 (with_store (commit t) (with_ticks (S (sv_ticks s2)) s2))) as (_ & R1 & R2).
  rewrite Hrec in R1, R2. cbn [snd with_store with_ticks sv_uuids sv_ids] in R1, R2.
  assert (Hwf' : wf (commit t)).
  { split; [exact Kt|]. change (view (commit t)) with (view (tx_store t)). rewrite Vt.
    apply fs_create_ok; [apply Hwf|done|done|done]. }
  apply recordDirTimes_view in Hrec as [Vr Kr]; [|exact Hwf'].
  assert (Vs : view (sv_store s9) = fs_create p n x7 ty (view (sv_store s))) by (rewrite Vr; exact Vt).
  exists x7. split_and!; try done. split.
  { rewrite R1, H10, Hu. apply Hfr. }
  intros m sh h Hm Hs He. rewrite Vs. cbn. rewrite R1, H10, Hu in He. apply lookup_insert_None. split.
  - apply (fresh_unused s Hfr m sh); [lia|done|done].
  - intros ->. rewrite Hu in E4. pose proof (decode_encoded _ _ _ Hs He) as D1.
    rewrite (decode_encoded _ _ _ Hsh E4) in D1. injection D1 as _ D1. apply (fresh_inj s Hfr) in D1. lia.
Qed.
(** *** Linking, removing *)

Lemma CreateHardLink_spec ctx d n h s r s' :
  CreateHardLink ctx d n h s = (inr r, s') -> good s -> room (view (sv_store s)) ->
  exists ty, is_dir (view (sv_store s)) d /\ fs_entries (view (sv_store s)) !! (d, n) = None /\
    fs_types (view (sv_store s)) !! h = Some ty /\ ty <> FileTypeDirectory /\
    view (sv_store s') = fs_link d n h (view (sv_store s)) /\ keyed (sv_store s').
Proof.
  intros H [Hwf Hbin Hfr] Hr. unfold CreateHardLink in H. do 10 qstep H.
  apply bind_inv in H as (w & s3 & Et & H). apply transact_inv in Et as (t & Et & ->).
  do 2 nstep H. cbn [sv_store with_ticks] in *. rewrite H4, H0 in *.
  destruct (getFile_inv _ _ _ (wf_keyed _ Hwf) E0) as (_ & _ & Td).
  destruct (getFile_inv _ _ _ (wf_keyed _ Hwf) E3) as (_ & _ & Th).
  apply is_type_true in E1. rewrite E1 in Td. apply is_type_false in E4.
  apply link_tx_view in Et as (Vt & Kt & Hfree); try done.
  - exists (f_Type x5). split_and!; [done|done|done|done|exact Vt|exact Kt].
  - now apply (links_bound _ h (f_Type x5)); [apply Hwf| |].
Qed.

Lemma trash_off_recycles h p n s : trash_off s -> recycles h p n s = false.
Proof.
  intros Ht. unfold recycles. destruct (sv_trash s _) as [cfg|] eqn:E; [|done]. now rewrite (Ht _ _ E).
Qed.

Lemma trash_off_keep s s' : sv_trash s' = sv_trash s -> trash_off s -> trash_off s'.
Proof. unfold trash_off. now intros ->. Qed.

(** The bookkeeping after a commit that left a well-formed store. *)
Lemma after_commit h now t s0 s' u :
  recordDirTimes h now (with_store (commit t) s0) = (inr u, s') ->
  fs_ok (view (tx_store t)) -> keyed (tx_store t) ->
  view (sv_store s') = view (tx_store t) /\ keyed (sv_store s').
Proof. intros H Ho Hk. now apply recordDirTimes_view in H. Qed.

Lemma RemoveFile_spec rec ctx p n s r s' :
  RemoveFile_with rec ctx p n s = (inr r, s') -> good s ->
  exists h ty, fs_entries (view (sv_store s)) !! (p, n) = Some h /\
    fs_types (view (sv_store s)) !! h = Some ty /\ ty <> FileTypeDirectory /\
    view (sv_store s') = fs_unlink p n h (view (sv_store s)) /\ keyed (sv_store s') /\
    fa_Nlink (f_Attr r.1) = fs_link_count (view (sv_store s)) h - 1.
Proof.
  intros H [Hwf Hbin Hfr]. unfold RemoveFile_with in H. do 9 qstep H.
  apply bind_inv in H as (bin & s3 & Eb & H). apply gets_inv in Eb as [-> ->].
  rewrite trash_off_recycles in H by (apply (trash_off_keep s); [congruence|done]).
  do 2 qstep H. apply bind_inv in H as (left & s3 & Et & H). apply transact_inv in Et as (t & Et & ->).
  cbn [sv_store with_ticks] in *. rewrite H4, H0 in *.
  apply getChild_inr in E2. apply is_type_false in E4.
  destruct (getFile_inv _ _ _ (wf_keyed _ Hwf) E3) as (_ & _ & Th).
  apply remove_tx_view in Et as (Vt & Kt & Hleft); try done. cbn [tx_store] in *.
  apply bind_inv in H as (u1 & s3 & Ep & H).
  assert (exists s4, s3 = with_store (commit t) s4) as [s4 ->].
  { destruct (left =? 0); [apply modify_inv in Ep as ->|mstep Ep]; [|eauto].
    now eexists (with_pending _ _). }
  apply bind_inv in H as (u2 & s5 & Er & H). apply after_commit in Er as [Vr Kr]; [| |done].
  - do 2 nstep H. exists x3, (f_Type x4). cbn [sv_store with_events]. rewrite Vr. split_and!; try done.
    cbn [fst]. rewrite <- Hleft. unfold removed_view. cbn [f_Attr set_Attr].
    destruct (f_Attr x4), (left >? 0); done.
  - rewrite Vt. now apply (fs_unlink_ok _ (wf_fs _ Hwf) p n x3 (f_Type x4)).
Qed.

Lemma RemoveDirectory_spec rec ctx p n s r s' :
  RemoveDirectory_with rec ctx p n s = (inr r, s') -> good s ->
  exists h, fs_entries (view (sv_store s)) !! (p, n) = Some h /\ is_dir (view (sv_store s)) h /\
    (forall m, fs_entries (view (sv_store s)) !! (h, m) = None) /\
    view (sv_store s') = fs_rmdir p n h (view (sv_store s)) /\ keyed (sv_store s').
Proof.
  intros H [Hwf Hbin Hfr]. unfold RemoveDirectory_with in H. do 9 qstep H.
  apply bind_inv in H as (bin & s3 & Eb & H). apply gets_inv in Eb as [-> ->].
  rewrite trash_off_recycles in H by (apply (trash_off_keep s); [congruence|done]).
  do 4 qstep H. apply bind_inv in H as (a & s3 & Et & H). apply transact_inv in Et as (t & Et & ->).
  cbn [sv_store with_ticks] in *. rewrite H4, H0 in *.
  apply getChild_inr in E2. apply is_type_true in E4.
  destruct (getFile_inv _ _ _ (wf_keyed _ Hwf) E3) as (_ & _ & Th). rewrite E4 in Th.
  injection E6 as <-. pose proof (ListChildren_empty _ _ E7) as Hempty.
  apply rmdir_tx_view in Et as (Vt & Kt); try done. cbn [tx_store] in *.
  apply bind_inv in H as (u2 & s5 & Er & H). apply after_commit in Er as [Vr Kr]; [| |done].
  - do 3 nstep H. exists x3. cbn [sv_store with_events with_dirTimes]. rewrite Vr. split_and!; done.
  - rewrite Vt. now apply fs_rmdir_ok; [apply Hwf| | |].
Qed.
(** *** Renaming *)

Lemma check_destination_inv rec ctx td tn dstDir srcFile s s' dst :
  check_destination rec ctx td tn dstDir srcFile s = (inr dst, s') -> trash_off s -> keyed (sv_store s) ->
  (forall h, fs_entries (view (sv_store s)) !! (td, tn) = Some h -> ~ is_dir (view (sv_store s)) h) ->
  s' = s /\ dst_ok (sv_store s) td tn dst /\ (is_Some dst -> f_Type srcFile <> FileTypeDirectory).
Proof.
  intros H Hbin Hk Hnd. unfold check_destination in H. apply bind_inv in H as (r & s1 & Er & H).
  apply attempt_inv in Er. injection Er as Er <-. destruct r as [e|dh].
  { apply getChild_inl in Er as [-> Er]. unfold IsNotFoundError in H. rewrite bool_decide_eq_true_2 in H by done.
    mstep H. split_and!; [done|exact Er|]. now intros []. }
  apply getChild_inr in Er. do 2 qstep H. destruct (getFile_inv _ _ _ Hk E) as (_ & _ & Td).
  assert (Hn : f_Type x <> FileTypeDirectory).
  { intros Hd. apply (Hnd dh Er). unfold is_dir. congruence. }
  unfold is_type in H. rewrite (bool_decide_eq_false_2 (f_Type x = _)) in H by done.
  case_bool_decide as Hs; [mstep H; discriminate|]. mstep H.
  apply bind_inv in H as (bin & s1 & Eb & H). apply gets_inv in Eb as [-> ->].
  rewrite trash_off_recycles in H by done. mstep H. done.
Qed.

Lemma unlink_dst_ok s td tn dst : wf s -> dst_ok s td tn dst -> fs_ok (unlink_dst td tn dst (view s)).
Proof.
  intros Hwf Hd. destruct dst as [[dh df]|]; [|apply Hwf]. destruct Hd as (He & Hg & Hn).
  destruct (getFile_inv _ _ _ (wf_keyed _ Hwf) Hg) as (_ & _ & Ht).
  now apply (fs_unlink_ok _ (wf_fs _ Hwf) td tn dh (f_Type df)).
Qed.

Lemma move_spec s fd fn td tn h srcFile dst :
  wf s -> dst_ok s td tn dst -> fs_entries (view s) !! (fd, fn) = Some h -> (fd, fn) <> (td, tn) ->
  getFile s h = inr srcFile -> (is_Some dst -> f_Type srcFile <> FileTypeDirectory) ->
  is_dir (view s) td ->
  op_spec (view s) (OpMove fd fn td tn) (fs_rename fd fn td tn h (unlink_dst td tn dst (view s))).
Proof.
  intros Hwf Hd Hs Hne Hg Hsrc Htd. destruct (getFile_inv _ _ _ (wf_keyed _ Hwf) Hg) as (_ & _ & Th).
  destruct dst as [[dh df]|]; [|now apply spec_move].
  destruct Hd as (He & Hgd & Hn). destruct (getFile_inv _ _ _ (wf_keyed _ Hwf) Hgd) as (_ & _ & Td).
  apply (spec_move_over _ _ _ _ _ h dh (f_Type df)); try done.
  unfold is_dir. rewrite Th. intros [= E]. now apply Hsrc.
Qed.

Lemma Move_spec rec ctx fd fn td tn s r s' :
  Move_with rec ctx fd fn td tn s = (inr r, s') -> good s -> room (view (sv_store s)) ->
  allowed (view (sv_store s)) (OpMove fd fn td tn) ->
  op_spec (view (sv_store s)) (OpMove fd fn td tn) (view (sv_store s')) /\ keyed (sv_store s').
Proof.
  intros H [Hwf Hbin Hfr] Hr Ha. unfold Move_with in H. do 3 qstep H.
  destruct (String.eqb fd td && String.eqb fn tn) eqn:Esame.
  { apply andb_true_iff in Esame as [->%String.eqb_eq ->%String.eqb_eq]. mstep H. rewrite H0.
    split; [constructor|apply Hwf]. }
  assert (Hne : (fd, fn) <> (td, tn)).
  { intros [= -> ->]. now rewrite !String.eqb_refl in Esame. }
  do 11 qstep H. rewrite H8, H4, H0 in *.
  apply getChild_inr in E6. apply is_type_true in E2. apply is_type_true in E4.
  destruct (getFile_inv _ _ _ (wf_keyed _ Hwf) E3) as (_ & _ & Td). rewrite E4 in Td.
  apply bind_inv in H as (dst & s3 & Ed & H).
  apply check_destination_inv in Ed as (-> & Hdst & Hsrc).
  2: { apply (trash_off_keep s); [congruence|done]. }
  2: { rewrite H8. apply Hwf. }
  2: { rewrite H8. apply Ha. }
  rewrite H8 in Hdst. do 3 qstep H. apply bind_inv in H as (bs & s4 & Et & H).
  apply transact_inv in Et as (t & Et & ->). cbn [sv_store with_ticks] in *. rewrite H8 in Et.
  pose proof (links_bound _ td _ (wf_fs _ Hwf) Hr Td) as Hb.
  apply move_tx_view in Et as (Vt & Kt); try done; [|apply Hb]. cbn [tx_store] in *.
  pose proof (move_spec _ fd fn td tn _ _ dst Hwf Hdst E6 Hne E7 Hsrc Td) as Hop.
  assert (Hok : fs_ok (view (tx_store t))) by (rewrite Vt; apply (op_spec_ok _ _ _ (wf_fs _ Hwf) Ha Hop)).
  apply bind_inv in H as (u1 & s4 & Er & H). apply after_commit in Er as [Vr Kr]; [|done|done].
  apply bind_inv in H as (u2 & s5 & Er2 & H).
  assert (view (sv_store s5) = view (tx_store t) /\ keyed (sv_store s5)) as [V5 K5].
  { destruct (negb _); [|now mstep Er2]. rewrite <- Vr. apply recordDirTimes_view in Er2; [done|].
    split; [done|now rewrite Vr]. }
  nstep H. apply bind_inv in H as (u3 & s6 & En & H). mstep H.
  assert (sv_store s6 = sv_store s5) as ->; [|now rewrite V5, Vt].
  destruct (negb _); [apply modify_inv in En as ->|mstep En]; done.
Qed.
(** ** Runs *)

Lemma op_spec_types f op f' h :
  op_spec f op f' -> (forall d n a ty t x y, op <> OpCreate d n a ty t x y) ->
  fs_types f !! h = None -> fs_types f' !! h = None.
Proof.
  intros Hs Hc Hn. destruct Hs; try done; [now edestruct Hc|]. cbn. rewrite lookup_delete_None. auto.
Qed.

Lemma step_implements ctx op s u s' :
  run_op ctx op s = (inr u, s') -> good s -> room (view (sv_store s)) -> allowed (view (sv_store s)) op ->
  op_spec (view (sv_store s)) op (view (sv_store s')) /\ good s'.
Proof.
  intros H Hg Hr Ha. pose proof (env_run_op ctx op s) as (Et & Eu & Ei). rewrite H in Et, Eu, Ei. cbn in Et, Eu, Ei.
  assert (op_spec (view (sv_store s)) op (view (sv_store s')) /\ keyed (sv_store s') /\ fresh s') as (Ho & Hk & Hf).
  { destruct op; cbn [run_op] in H; apply bind_inv in H as (r & s1 & H & Hr'); apply ret_inv in Hr' as [_ ->].
    - apply createEntry_spec in H as (h & Hd & Hn & Ht & -> & Hk & Hf); [|done|done]. split_and!; [|done|done]. now constructor.
    - apply CreateHardLink_spec in H as (ty & Hd & Hn & Ht & Hty & E & Hk); [|done|done].
      split_and!; [rewrite E; econstructor; eauto|done|]. apply (fresh_keep s); [apply Hg|done|done|]. now rewrite E.
    - apply RemoveFile_spec in H as (h & ty & He & Ht & Hty & E & Hk & _); [|done].
      split_and!; [rewrite E; econstructor; eauto|done|]. apply (fresh_keep s); [apply Hg|done|done|]. now rewrite E.
    - apply RemoveDirectory_spec in H as (h & He & Hd & Hm & E & Hk); [|done].
      split_and!; [rewrite E; econstructor; eauto|done|]. apply (fresh_keep s); [apply Hg|done|done|]. rewrite E.
      intros x Hx. cbn. rewrite lookup_delete_None. auto.
    - apply Move_spec in H as (Ho & Hk); [|done|done|done].
      split_and!; [done|done|]. apply (fresh_keep s); [apply Hg|done|done|].
      intros x. now apply (op_spec_types _ (OpMove fromDir fromName toDir toName)). }
  split; [done|]. split; [|now apply (trash_off_keep s); [|apply Hg]|done].
  split; [done|]. apply (op_spec_ok (view (sv_store s)) op); [apply Hg|done|done].
Qed.

(** Runs of operations by any callers, failed operations included. *)
Inductive reaches (s0 : Service) : Service -> Prop :=
  | reaches_refl : reaches s0 s0
  | reaches_step ctx op s :
      reaches s0 s -> room (view (sv_store s)) -> allowed (view (sv_store s)) op ->
      reaches s0 (after (run_op ctx op) s).

(** C3: each namespace operation of the service that succeeds, from a well
    formed store with every recycle bin off, unused new identifiers and fewer
    than 2^32 - 4 names, and that is not a rename of a directory to a place below
    itself nor a rename onto a directory, is on the namespace the store holds
    exactly the abstract operation: create, hard link, unlink, rmdir, and rename
    with or without a replaced file, with the preconditions the specification
    asks for.  (The two excluded renames break the tree, see
    [rename_into_itself] and [rename_over_directory_leaks_link].) *)
Theorem operations_refine ctx op s u s' :
  run_op ctx op s = (inr u, s') -> good s -> room (view (sv_store s)) -> allowed (view (sv_store s)) op ->
  op_spec (view (sv_store s)) op (view (sv_store s')).
Proof. intros H Hg Hr Ha. now apply (step_implements ctx op s u s'). Qed.

(** C16: the namespace invariant holds along every run of operations by any
    callers, one after the other, failed ones included, with every recycle bin
    off, unused new identifiers, fewer than 2^32 - 4 names at each step and no
    rename of a directory below itself or onto a directory: link counts are the
    number of names (two plus the number of subdirectories for a directory),
    entries lead from directories to existing inodes, a directory has one name,
    its parent edge is that name's directory, there are no cycles, and every
    inode sits under the handle of its own share and UUID. *)
Theorem namespace_invariant s0 s : good s0 -> reaches s0 s -> good s.
Proof.
  intros H0 Hr. induction Hr as [|ctx op s Hr IH Hroom Ha]; [done|].
  unfold after. destruct (run_op ctx op s) as [[e|u] s'] eqn:E; cbn [snd].
  - pose proof (env_run_op ctx op s) as (Et & Eu & Ei). rewrite E in Et, Eu, Ei. cbn in Et, Eu, Ei.
    pose proof (run_op_safe ctx op s e s' (good_bin _ IH) E) as Es.
    split; [rewrite Es; apply IH|now apply (trash_off_keep s); [|apply IH]|].
    apply (fresh_keep s); [apply IH|done|done|]. now rewrite Es.
  - now apply step_implements in E as [_ E].
Qed.
End Runs.
