(* ===== verification/NamespaceExamples.v ===== *)
(** * The namespace operations on a small share

    A share with an empty root directory: it satisfies the invariant the theorems
    of [NamespaceSteps] start from, they are applied to it, and it shows where the
    operations leave the specification. *)

From S2P Require Import Prelude.
From S2P Require Import HoleMap.
From S2P Require Import MetaTypes.
From S2P Require Import Permissions.
From S2P Require Import Quota.
From S2P Require Import MetaStore.
From S2P Require Import MetaService.
From S2P Require Import Namespace.
From S2P Require Import FsSpec.
From S2P Require Import StoreFacts.
From S2P Require Import NamespaceAtomic.
From S2P Require Import NamespaceRefine.
From S2P Require Import NamespaceSteps.

#[local] Existing Instance string_uuids.

Definition dir_attr (mode uid gid : Z) : FileAttr :=
  mkFileAttr FileTypeDirectory mode uid gid 2 0 0 0 0 0 "" "" 0 false None ∅ 0 [] [] None "" "".

Definition rw_share : ShareOptions := mkShareOptions false false [] [] false [] None.

Definition root_h : FileHandle := "/export:root".

Definition sample_store : MemoryStore :=
  mkStore {["/export"%string := mkShareData "/export" rw_share root_h false]}
    {[root_h := mkFileData (dir_attr 0x1FF 0 0) "/export"]} ∅ {[root_h := ∅]} {[root_h := 2]} ∅ 0 ∅.

(** The n-th UUID is n tallies. *)
Fixpoint tally (n : nat) : string :=
  match n with O => "" | S n => "u" +:+ tally n end.

Definition sample_service : Service :=
  mkService _ sample_store {["/export"%string]} ∅ ∅ newQuotaLimits ∅ true (fun _ => None) []
    (fun n => 1000 + Z.of_nat n) 0 tally 0.

Definition handle_no (n : nat) : FileHandle := "/export:" +:+ tally n.

Definition admin : AuthContext := NewSystemAuthContext.

#[export] Instance tally_inj : Inj eq eq tally.
Proof. intros n. induction n as [|n IH]; intros [|m]; cbn; [done|done|done|]. intros [= E]. f_equal. now apply IH. Qed.

Lemma sample_view : view sample_store = mkFs {[root_h := FileTypeDirectory]} ∅ ∅ {[root_h := 2]}.
Proof. reflexivity. Qed.

Lemma sample_good : good sample_service.
Proof.
  split.
  - split.
    + intros h fd H. cbn in H. apply lookup_singleton_Some in H as [<- <-]. split; [split; [done|reflexivity]|]. now exists "root"%string.
    + cbn [sv_store sample_service]. rewrite sample_view. split; cbn.
      * intros d n h H. now rewrite lookup_empty in H.
      * intros h ty [<- <-]%lookup_singleton_Some. done.
      * intros h Hd. unfold is_dir in Hd. cbn in Hd. apply lookup_singleton_Some in Hd as [<- _].
        reflexivity.
      * intros k1 k2 h H. now rewrite lookup_empty in H.
      * intros d n h H. now rewrite lookup_empty in H.
      * intros h Hc. assert (exists x, edge (mkFs {[root_h := FileTypeDirectory]} ∅ ∅ {[root_h := 2]}) h x) as (x & n & He & _).
        { destruct Hc; eauto. }
        cbn in He. now rewrite lookup_empty in He.
  - now intros sh cfg.
  - split; [apply _|]. intros n sh h _ [Hs1 Hs2] He. cbn [sv_store sample_service].
    rewrite sample_view. cbn [fs_types]. apply lookup_singleton_None.
    intros <-. pose proof (decode_encoded sh (tally n) root_h) as Hd. cbn in He.
    specialize (Hd (conj Hs1 Hs2) He). vm_compute in Hd. injection Hd as _ Hd. destruct n; discriminate.
Qed.

Lemma sample_room : room (view (sv_store sample_service)).
Proof. unfold room. cbn [sv_store sample_service]. rewrite sample_view. vm_compute. reflexivity. Qed.

(** ** The theorems applied *)

Lemma failed_operation_changes_nothing_witness :
  let r := run_op admin (OpRmdir root_h "missing") sample_service in
  r.1 = inl (StoreError ErrNotFound) /\ sv_store r.2 = sv_store sample_service.
Proof.
  split; [vm_compute; reflexivity|].
  apply (failed_operation_changes_nothing admin (OpRmdir root_h "missing") _ (StoreError ErrNotFound)).
  - now intros sh cfg.
  - vm_compute. reflexivity.
Defined.

Definition mkdir_a : ns_op := OpCreate root_h "a" (dir_attr 0x1ED 0 0) FileTypeDirectory "" 0 0.

Lemma operations_refine_witness :
  let r := run_op admin mkdir_a sample_service in
  r.1 = inr tt /\ op_spec (view (sv_store sample_service)) mkdir_a (view (sv_store r.2)).
Proof.
  split; [vm_compute; reflexivity|].
  apply (operations_refine admin mkdir_a _ tt).
  - vm_compute. reflexivity.
  - apply sample_good.
  - apply sample_room.
  - done.
Defined.

Lemma namespace_invariant_witness : good (after (run_op admin mkdir_a) sample_service).
Proof.
  apply (namespace_invariant sample_service); [apply sample_good|].
  apply reaches_step; [apply reaches_refl|apply sample_room|done].
Defined.

(** ** Where the operations leave the specification *)

Definition att : FileAttr := dir_attr 0x1ED 0 0.

(** A directory can be renamed into itself: it leaves the tree, and its parent
    edge becomes a cycle. *)
Example rename_into_itself :
  let run := CreateDirectory admin root_h "a" att;; Move admin root_h "a" (handle_no 0) "b" in
  let s := sv_store (after run sample_service) in
  (exists r, result run sample_service = inr r) /\
  map_to_list (fs_entries (view s)) = [((handle_no 0, "b"%string), handle_no 0)] /\
  st_parents s !! handle_no 0 = Some (handle_no 0).
Proof. split_and!; [eexists|..]; vm_compute; reflexivity. Qed.

(** Renaming a directory over an empty one leaves the link count of the target's
    parent one too high: the root has one subdirectory and count 4. *)
Example rename_over_directory_leaks_link :
  let run := CreateDirectory admin root_h "a" att;; CreateDirectory admin root_h "b" att;;
             Move admin root_h "a" root_h "b" in
  let s := sv_store (after run sample_service) in
  (exists r, result run sample_service = inr r) /\
  map_to_list (fs_entries (view s)) = [((root_h, "b"%string), handle_no 0)] /\
  st_linkCounts s !! root_h = Some 4.
Proof. split_and!; [eexists|..]; vm_compute; reflexivity. Qed.

(** Renaming one hard link over another link to the same file removes the old
    name; POSIX makes it a no-op. *)
Example rename_between_links :
  let run := CreateFile admin root_h "a" att;; CreateHardLink admin root_h "b" (handle_no 0);;
             Move admin root_h "a" root_h "b" in
  let s := sv_store (after run sample_service) in
  (exists r, result run sample_service = inr r) /\
  map_to_list (fs_entries (view s)) = [((root_h, "b"%string), handle_no 0)].
Proof. split_and!; [eexists|..]; vm_compute; reflexivity. Qed.

(** Removal checks emptiness before its transaction: an entry created in between
    keeps its inode under a directory that no longer exists. *)
Example rmdir_races_with_create :
  let s1 := after (CreateDirectory admin root_h "a" att) sample_service in
  let s2 := after (CreateFile admin (handle_no 0) "x" att) s1 in
  (ListChildren (sv_store s1) (handle_no 0) "" 1).1 = [] /\
  match getFile (sv_store s1) root_h with
  | inr root =>
      let '(r, s3) := transact (rmdir_tx root_h (handle_no 0) "a" root (sv_dirTimes s2)) s2 in
      (exists a, r = inr a) /\ is_Some (st_files (sv_store s3) !! handle_no 1) /\
      st_parents (sv_store s3) !! handle_no 1 = Some (handle_no 0) /\
      st_files (sv_store s3) !! handle_no 0 = None
  | inl _ => False
  end.
Proof. vm_compute. repeat split; eauto. Qed.

(** A file with a second name, renamed to [.nfs1] and marked as orphaned, gives
    its content up when that name is removed: the payload returned to the caller
    for deletion is still the content of the other name. *)
Example orphaned_link_loses_content :
  let run := CreateFile admin root_h "foo" att;; CreateHardLink admin root_h "bar" (handle_no 0);;
             Move admin root_h "foo" root_h ".nfs1";; MarkFileAsOrphaned (handle_no 0);;
             RemoveFile admin root_h ".nfs1" in
  let s := sv_store (after run sample_service) in
  map_to_list (fs_entries (view s)) = [((root_h, "bar"%string), handle_no 0)] /\
  match result run sample_service, getFile s (handle_no 0) with
  | inr (removed, _), inr bar =>
      fa_PayloadID (f_Attr removed) <> ""%string /\
      fa_PayloadID (f_Attr removed) = fa_PayloadID (f_Attr bar) /\ fa_Nlink (f_Attr bar) = 0
  | _, _ => False
  end.
Proof. split; [vm_compute; reflexivity|]. vm_compute. repeat split. discriminate. Qed.

(** Removing the last name of a file releases none of its usage. *)
Example removal_keeps_usage :
  let run := CreateFile admin root_h "foo" att;;
             (f ← rd (fun st => getFile st (handle_no 0));
              transact (PutFile (set_Attr (set_Size 4096) f)));;
             RemoveFile admin root_h "foo" in
  let s := sv_store (after run sample_service) in
  (exists r, result run sample_service = inr r) /\ map_to_list (fs_entries (view s)) = [] /\ st_usedBytes s = 4096.
Proof. split_and!; [eexists|..]; vm_compute; reflexivity. Qed.


Definition anonymous : AuthContext := mkAuthContext "none" None "10.0.0.1" false false false false.

Definition sgid_attr : FileAttr := set_Mode 0x5B4 att.

(** An anonymous caller that creates a file with the set-group-ID bit makes the
    service dereference its missing identity. *)
Example anonymous_setgid_create_panics :
  result (CreateFile anonymous root_h "foo" sgid_attr) sample_service = inl Panic.
Proof. vm_compute. reflexivity. Qed.
