(* ===== verification/MetaIO.v ===== *)
(** * The metadata service: reads, writes and attributes
    ([pkg/metadata/io.go], [pending_writes.go], [file_modify.go],
    [file_types.go], [service.go])

    Writes in two phases: [PrepareWrite] validates and returns an intent,
    [CommitWrite] applies it after the content is written, either at once or by
    recording it in the pending-writes tracker, whose entries are flushed to the
    store later and overlaid on reads meanwhile.  [SetFileAttributes], [Lookup],
    [ReadSymlink] and extended attributes.

    Case folding and BLAKE3 are an interface ([AttrLib]).  Flush locks and
    durability levels are left out: the in-memory store has one durability. *)

From S2P Require Import Prelude.
From S2P Require Import AclTypes.
From S2P Require Import AclEvaluate.
From S2P Require Import AclMode.
From S2P Require Import HoleMap.
From S2P Require Import MetaTypes.
From S2P Require Import Permissions.
From S2P Require Import Quota.
From S2P Require Import MetaStore.
From S2P Require Import MetaService.
From S2P Require Import Namespace.

Class AttrLib := {
  EqualFold : string -> string -> bool;
  blake3 : list Z -> list Z;
}.

(** [strings.EqualFold] is equality under a fold of the string. *)
Class AttrLaws (A : AttrLib) : Prop := {
  fold_refl : forall s, EqualFold s s = true;
  fold_sym : forall s t, EqualFold s t = EqualFold t s;
  fold_trans : forall s t u, EqualFold s t = true -> EqualFold t u = true -> EqualFold s u = true;
}.

Definition suidSgid : Z := 0xC00.

Record WriteOperation := mkWriteOperation {
  wo_Handle : FileHandle;
  wo_NewSize : Z;
  wo_NewMtime : Z;
  wo_PayloadID : string;
  wo_PreWriteAttr : FileAttr;
}.

(** ** The pending-writes tracker *)

Section Tracker.
Context `{U : UuidLib}.

#[local] Notation Tracker := (gmap FileHandle PendingWriteState).

Definition RecordWrite (handle : FileHandle) (intent : WriteOperation) (clearSetuid : bool) (t : Tracker)
    : PendingWriteState * Tracker :=
  let state :=
    match t !! handle with
    | None =>
        mkPending _ (wo_NewSize intent) (wo_NewMtime intent) (wo_PayloadID intent)
          (Some (wo_PreWriteAttr intent)) clearSetuid None
    | Some p =>
        mkPending _ (if wo_NewSize intent >? pw_MaxSize p then wo_NewSize intent else pw_MaxSize p)
          (if pw_LastMtime p =? 0 then wo_NewMtime intent else pw_LastMtime p)
          (pw_PayloadID p) (pw_PreWriteAttr p) (pw_ClearSetuidSetgid p || clearSetuid) (pw_CachedFile p)
    end in
  (state, <[handle := state]> t).

Definition GetPendingSize (handle : FileHandle) (t : Tracker) : option Z := pw_MaxSize <$> t !! handle.

Definition GetPending (handle : FileHandle) (t : Tracker) : option PendingWriteState := t !! handle.

Definition GetCachedFile (handle : FileHandle) (t : Tracker) : option File :=
  p ← t !! handle; pw_CachedFile p.

Definition SetCachedFile (handle : FileHandle) (file : File) (t : Tracker) : Tracker :=
  match t !! handle with
  | None => <[handle := mkPending _ 0 0 "" None false (Some file)]> t
  | Some p =>
      <[handle := mkPending _ (pw_MaxSize p) (pw_LastMtime p) (pw_PayloadID p) (pw_PreWriteAttr p)
                    (pw_ClearSetuidSetgid p) (Some file)]> t
  end.

Definition PopPending_state (handle : FileHandle) (t : Tracker) : option PendingWriteState * Tracker :=
  (t !! handle, delete handle t).

Definition RestorePending (handle : FileHandle) (state : PendingWriteState) (t : Tracker) : Tracker :=
  match t !! handle with
  | None => <[handle := state]> t
  | Some cur =>
      <[handle := mkPending _
          (if pw_MaxSize state >? pw_MaxSize cur then pw_MaxSize state else pw_MaxSize cur)
          (if (pw_LastMtime cur =? 0) && negb (pw_LastMtime state =? 0)
           then pw_LastMtime state else pw_LastMtime cur)
          (pw_PayloadID cur)
          (match pw_PreWriteAttr cur with None => pw_PreWriteAttr state | a => a end)
          (pw_ClearSetuidSetgid cur || pw_ClearSetuidSetgid state)
          (match pw_CachedFile cur with None => pw_CachedFile state | f => f end)]> t
  end.

Definition PopAllPending (t : Tracker) : list (FileHandle * PendingWriteState) * Tracker :=
  (map_to_list t, ∅).

Definition UpdatePendingMtime (handle : FileHandle) (mtime : Z) (t : Tracker) : Tracker * bool :=
  match t !! handle with
  | None => (t, false)
  | Some p =>
      (<[handle := mkPending _ (pw_MaxSize p) mtime (pw_PayloadID p) (pw_PreWriteAttr p)
                     (pw_ClearSetuidSetgid p) (pw_CachedFile p)]> t, true)
  end.

Definition InvalidateCache (handle : FileHandle) (t : Tracker) : Tracker :=
  match t !! handle with
  | None => t
  | Some p =>
      if bool_decide (pw_PreWriteAttr p = None) && (pw_MaxSize p =? 0) then delete handle t
      else <[handle := mkPending _ (pw_MaxSize p) (pw_LastMtime p) (pw_PayloadID p) (pw_PreWriteAttr p)
                         (pw_ClearSetuidSetgid p) None]> t
  end.

Definition on_pending (f : Tracker -> Tracker) : Svc unit :=
  modify (fun s => with_pending (f (sv_pending s)) s).
End Tracker.

(** ** Writing *)

Section Write.
Context `{U : UuidLib}.

(** The type checks of reads and writes: a regular file, or one of two errors. *)
Definition require_regular (file : File) : Svc unit :=
  if is_type (f_Type file) FileTypeRegular then mret tt
  else if is_type (f_Type file) FileTypeDirectory then fail ErrIsDirectory
  else fail ErrInvalidArgument.

(** The share's byte quota. *)
Definition check_share_quota (shareName : string) (newSize size : Z) : Svc unit :=
  quotaBytes ← gets (fun s => default 0 (sv_shareQuota s !! shareName));
  used ← gets (fun s => st_usedBytes (sv_store s));
  check (negb ((quotaBytes >? 0) && (newSize >? size) &&
               (i64 (used + int64 (newSize - size)) >? quotaBytes))) ErrNoSpace.

(** The file an intent is prepared on, and whether it was read from the store. *)
Definition write_target (handle : FileHandle) : Svc (File * bool) :=
  cached ← gets (fun s => GetCachedFile handle (sv_pending s));
  match cached with
  | Some file => mret (file, false)
  | None =>
      file ← rd (fun st => getFile st handle);
      (if is_type (f_Type file) FileTypeRegular then on_pending (SetCachedFile handle file) else mret tt);;
      mret (file, true)
  end.

Definition PrepareWrite (ctx : AuthContext) (handle : FileHandle) (newSize : Z) : Svc WriteOperation :=
  p ← lift (DecodeFileHandle handle);
  GetStoreForShare p.1;;
  target ← write_target handle;
  let '(file, freshFetch) := target in
  require_regular file;;
  check_share_quota p.1 newSize (fa_Size (f_Attr file));;
  (if newSize >? fa_Size (f_Attr file) then
     c ← gets (fun s => st_quota (sv_store s));
     now ← time_Now;
     on_quotas (checkIdentityQuotas p.1 c (fa_UID (f_Attr file)) (fa_GID (f_Attr file))
       (int64 (newSize - fa_Size (f_Attr file))) 0 now)
   else mret tt);;
  (if (freshFetch : bool) then checkFilePermission ctx handle file PermissionWrite
   else checkWritePermission ctx handle);;
  pend ← gets (fun s => GetPending handle (sv_pending s));
  newMtime ← (match pend with
              | Some st => if negb (pw_LastMtime st =? 0) then mret (pw_LastMtime st) else time_Now
              | None => time_Now
              end);
  mret (mkWriteOperation handle newSize newMtime (fa_PayloadID (f_Attr file)) (CopyFileAttr (f_Attr file))).

(** A caller with a user ID other than root's. *)
Definition non_root_writer (ctx : AuthContext) : bool :=
  match caller_UID ctx with Some u => negb (u =? 0) | None => false end.

Definition clear_suid_sgid (a : FileAttr) : FileAttr := set_Mode (fa_Mode a .&^ suidSgid) a.

Definition clear_tx (handle : FileHandle) (mtime : Z) : Tx unit :=
  file ← GetFile handle;
  PutFile (set_Attr (fun a => set_Ctime mtime (clear_suid_sgid a)) file).

Definition record_write (intent : WriteOperation) (clearSetuid : bool) : Svc PendingWriteState := fun s =>
  let '(st, t) := RecordWrite (wo_Handle intent) intent clearSetuid (sv_pending s) in
  (inr st, with_pending t s).

(** Clearing the set-ID bits in the store at once; the intent to record. *)
Definition clear_now (intent : WriteOperation) : Svc WriteOperation :=
  ok ← attempt (storeForHandle (wo_Handle intent));
  match ok with
  | inr _ =>
      attempt (transact (clear_tx (wo_Handle intent) (wo_NewMtime intent)));;
      on_pending (InvalidateCache (wo_Handle intent));;
      mret (mkWriteOperation (wo_Handle intent) (wo_NewSize intent) (wo_NewMtime intent)
              (wo_PayloadID intent) (clear_suid_sgid (wo_PreWriteAttr intent)))
  | inl _ => mret intent
  end.

Definition deferredCommitWrite (ctx : AuthContext) (intent : WriteOperation) : Svc File :=
  let clearSetuid := non_root_writer ctx in
  intent ← (if clearSetuid && has (fa_Mode (wo_PreWriteAttr intent)) suidSgid
            then clear_now intent else mret intent);
  state ← record_write intent clearSetuid;
  let a := set_Ctime (pw_LastMtime state) (set_Mtime (pw_LastMtime state)
             (set_Size (pw_MaxSize state) (wo_PreWriteAttr intent))) in
  let a := if pw_ClearSetuidSetgid state then clear_suid_sgid a else a in
  match DecodeFileHandle (wo_Handle intent) with
  | inr (shareName, id) => mret (mkFile _ id shareName "" a)
  | inl _ => mret (mkFile _ uuid_Nil "" "" a)
  end.

Definition commit_write_tx (ctx : AuthContext) (intent : WriteOperation) (now : Z) : Tx File :=
  file ← GetFile (wo_Handle intent);
  check (is_type (f_Type file) FileTypeRegular) ErrIsDirectory;;
  let file := set_Attr (fun a =>
    let a := if wo_NewSize intent >? fa_Size a then set_Size (wo_NewSize intent) a else a in
    let a := set_Ctime now (set_Mtime now a) in
    if non_root_writer ctx then clear_suid_sgid a else a) file in
  PutFile file;;
  mret file.

Definition immediateCommitWrite (ctx : AuthContext) (intent : WriteOperation) : Svc File :=
  storeForHandle (wo_Handle intent);;
  now ← time_Now;
  transact (commit_write_tx ctx intent now).

Definition CommitWrite (ctx : AuthContext) (intent : WriteOperation) : Svc File :=
  deferred ← gets sv_deferredCommit;
  if (deferred : bool) then deferredCommitWrite ctx intent else immediateCommitWrite ctx intent.

(** ** Flushing *)

Definition apply_pending (state : PendingWriteState) (a : FileAttr) : FileAttr :=
  let a := if pw_MaxSize state >? fa_Size a then set_Size (pw_MaxSize state) a else a in
  let a := if negb (pw_LastMtime state =? 0)
           then set_Ctime (pw_LastMtime state) (set_Mtime (pw_LastMtime state) a) else a in
  if pw_ClearSetuidSetgid state then clear_suid_sgid a else a.

Definition flush_write_tx (handle : FileHandle) (state : PendingWriteState) : Tx unit :=
  file ← GetFile handle;
  PutFile (set_Attr (apply_pending state) file).

Definition flushPendingWrite (handle : FileHandle) (state : PendingWriteState) : Svc unit :=
  storeForHandle handle;;
  transact (flush_write_tx handle state).

Definition hasWriteData (state : PendingWriteState) : bool :=
  (pw_MaxSize state >? 0) || negb (pw_LastMtime state =? 0) || pw_ClearSetuidSetgid state.

(** Caching again what the popped state had cached. *)
Definition recache (handle : FileHandle) (state : PendingWriteState) : Svc unit :=
  match pw_CachedFile state with
  | Some file => on_pending (SetCachedFile handle file)
  | None => mret tt
  end.

(** The result is whether there was data to flush; on failure it is an error
    and the popped state is back in the tracker. *)
Definition FlushPendingWriteForFile (handle : FileHandle) : Svc bool :=
  popped ← (fun s => let '(p, t) := PopPending_state handle (sv_pending s) in (inr p, with_pending t s));
  match popped with
  | None => mret false
  | Some state =>
      if negb (hasWriteData state) then recache handle state;; mret false
      else
        r ← attempt (flushPendingWrite handle state);
        match r with
        | inl e => on_pending (RestorePending handle state);; throw e
        | inr _ => recache handle state;; mret true
        end
  end.

(** The number flushed and whether the last failure was reported. *)
Fixpoint flush_entries (l : list (FileHandle * PendingWriteState)) : Svc (nat * option GoError) :=
  match l with
  | [] => mret (O, None)
  | (handle, state) :: l =>
      r ← attempt (flushPendingWrite handle state);
      rest ← flush_entries l;
      mret (match r with
            | inl e => (rest.1, match rest.2 with None => Some e | e' => e' end)
            | inr _ => (S rest.1, rest.2)
            end)
  end.

Definition FlushAllPendingWritesForShutdown : Svc (nat * option GoError) :=
  entries ← (fun s => let '(l, t) := PopAllPending (sv_pending s) in (inr l, with_pending t s));
  flush_entries entries.

Definition PrewarmWriteCache (handle : FileHandle) (file : option File) : Svc unit :=
  match file with
  | Some f => if is_type (f_Type f) FileTypeRegular then on_pending (SetCachedFile handle f) else mret tt
  | None => mret tt
  end.

(** ** Reading *)

Definition GetFileCached (handle : FileHandle) : Svc File :=
  cached ← gets (fun s => GetCachedFile handle (sv_pending s));
  match cached with
  | Some file => gets (fun s => mergePendingWrites (sv_pending s) handle file)
  | None => ServiceGetFile handle
  end.

Definition PrepareRead (ctx : AuthContext) (handle : FileHandle) : Svc FileAttr :=
  storeForHandle handle;;
  file ← ServiceGetFile handle;
  require_regular file;;
  checkReadPermission ctx handle;;
  mret (f_Attr file).

Definition ReadSymlink (handle : FileHandle) : Svc (string * File) :=
  storeForHandle handle;;
  file ← rd (fun st => getFile st handle);
  check (is_type (f_Type file) FileTypeSymlink) ErrInvalidArgument;;
  mret (fa_LinkTarget (f_Attr file), file).

Definition Lookup (ctx : AuthContext) (dirHandle : FileHandle) (name : string) : Svc File :=
  storeForHandle dirHandle;;
  dir ← rd (fun st => getFile st dirHandle);
  attr ← mergeDir dirHandle (f_Attr dir);
  let dir := set_Attr (fun _ => attr) dir in
  check (is_type (f_Type dir) FileTypeDirectory) ErrNotDirectory;;
  (if ac_BypassTraverseChecking ctx then mret tt else checkExecutePermission ctx dirHandle);;
  if String.eqb name "." then mret dir
  else if String.eqb name ".." then
    r ← attempt (rd (fun st => getParent st dirHandle));
    match r with
    | inl _ => mret dir
    | inr parentHandle => ServiceGetFile parentHandle
    end
  else
    childHandle ← rd (fun st => getChild st dirHandle name);
    ServiceGetFile childHandle.
End Write.
