(* ===== verification/SetAttr.v ===== *)
(** * Changing attributes ([pkg/metadata/file_modify.go], [file_types.go],
    [pkg/block/objectid.go])

    [SetFileAttributes]: who may change what, the order the changes are applied
    in, truncation, and the persist-and-invalidate step at the end; extended
    attributes with case-insensitive names. *)

From S2P Require Import Prelude.
From S2P Require Import AclTypes.
From S2P Require Import AclEvaluate.
From S2P Require Import AclMode.
From S2P Require Import HoleMap.
From S2P Require Import MetaTypes.
From S2P Require Import Permissions.
From S2P Require Import Quota.
From S2P Require Import MetaStore.
From S2P Require Import MetaService.
From S2P Require Import Namespace.
From S2P Require Import MetaIO.

(** ** Extended attributes *)

Record EAMutation := mkEAMutation { ea_Name : string; ea_Value : list Z; ea_Delete : bool }.

Section EAs.
Context `{A : AttrLib}.

(** The iteration order of a Go map is unspecified; here it is [map_to_list]'s.
    With at most one key per folded name the order does not matter. *)
Definition findEAKey (eas : gmap string (list Z)) (name : string) : option string :=
  match eas !! name with
  | Some _ => Some name
  | None => fst <$> head (List.filter (fun kv => EqualFold kv.1 name) (map_to_list eas))
  end.

Definition LookupEA (eas : gmap string (list Z)) (name : string) : option (list Z) :=
  k ← findEAKey eas name; eas !! k.

Definition apply_ea (eas : gmap string (list Z)) (m : EAMutation) : gmap string (list Z) :=
  let existing := findEAKey eas (ea_Name m) in
  if ea_Delete m then
    match existing with Some k => delete k eas | None => eas end
  else <[default (ea_Name m) existing := ea_Value m]> eas.

Definition ApplyEAMutations (muts : list EAMutation) (eas : gmap string (list Z)) : gmap string (list Z) :=
  fold_left apply_ea muts eas.

(** At most one key per folded name. *)
Definition ea_unique (eas : gmap string (list Z)) : Prop :=
  forall k k', is_Some (eas !! k) -> is_Some (eas !! k') -> EqualFold k k' = true -> k = k'.
End EAs.

(** ** Object identifiers *)

(** The string "dittofs:objectid:v1" and a NUL byte. *)
Definition objectIDDomainPrefix : list Z :=
  map (fun c => Z.of_N (Ascii.N_of_ascii c)) (String.list_ascii_of_string "dittofs:objectid:v1") ++ [0].

Definition ComputeObjectID `{A : AttrLib} (blocks : list ChunkRef) : list Z :=
  blake3 (objectIDDomainPrefix ++ concat (map cr_Hash blocks)).

(** ** Setting attributes *)

Record SetAttrs := mkSetAttrs {
  sa_Mode : option Z;
  sa_ModeOrMask : option Z;
  sa_ModeAndNotMask : option Z;
  sa_UID : option Z;
  sa_GID : option Z;
  sa_Size : option Z;
  sa_Atime : option Z;
  sa_Mtime : option Z;
  sa_AtimeNow : bool;
  sa_MtimeNow : bool;
  sa_CreationTime : option Z;
  sa_Ctime : option Z;
  sa_Hidden : option bool;
  sa_ACL : option ACL;
  sa_EAMutations : list EAMutation;
}.

Definition no_attrs : SetAttrs :=
  mkSetAttrs None None None None None None None None false false None None None None [].

Section SetAttr.
Context `{U : UuidLib} `{A : AttrLib}.

Definition is_owner (ctx : AuthContext) (a : FileAttr) : bool :=
  match caller_UID ctx with Some u => u =? fa_UID a | None => false end.

Definition is_none {B} (o : option B) : bool := match o with None => true | Some _ => false end.

(** The three changes for which write permission replaces ownership. *)
Definition writePermSufficient (a : FileAttr) (attrs : SetAttrs) : bool :=
  let noOwnershipAttrs := is_none (sa_Mode attrs) && is_none (sa_UID attrs) && is_none (sa_GID attrs) in
  let onlySettingTimesToNow :=
    noOwnershipAttrs && is_none (sa_Size attrs) && (sa_AtimeNow attrs || sa_MtimeNow attrs) in
  let onlySettingSize :=
    noOwnershipAttrs && negb (is_none (sa_Size attrs)) && negb (sa_AtimeNow attrs) &&
    negb (sa_MtimeNow attrs) in
  let onlyClearingSuidSgid :=
    match sa_Mode attrs with
    | Some m =>
        is_none (sa_UID attrs) && is_none (sa_GID attrs) && is_none (sa_Size attrs) &&
        (m =? fa_Mode a .&^ suidSgid) && has (fa_Mode a) suidSgid
    | None => false
    end in
  onlySettingTimesToNow || onlySettingSize || onlyClearingSuidSgid.

Definition check_setattr (ctx : AuthContext) (handle : FileHandle) (a : FileAttr) (attrs : SetAttrs)
    : Svc unit :=
  if negb (is_owner ctx a) && negb (is_root ctx) then
    if writePermSufficient a attrs then checkWritePermission ctx handle else fail ErrPermissionDenied
  else mret tt.

(** A file being changed, and [modified]. *)
Definition Edit : Type := FileAttr * bool.

Definition change (f : FileAttr -> FileAttr) (e : Edit) : Edit := (f e.1, true).

Definition change_if {B} (o : option B) (f : B -> FileAttr -> FileAttr) (e : Edit) : Edit :=
  match o with Some v => change (f v) e | None => e end.

(** chmod: the set-ID bits a non-root caller may keep, and the ACL. *)
Definition new_mode (ctx : AuthContext) (a : FileAttr) (mode : Z) : Result Z :=
  if is_root ctx then inr mode
  else
    let owner := is_owner ctx a in
    let mode := if has mode ModeSetuid && negb owner then mode .&^ ModeSetuid else mode in
    if has mode ModeSetgid then
      if negb owner then inr (mode .&^ ModeSetgid)
      else match identity_HasGID (ac_Identity ctx) (fa_GID a) with
           | inl e => inl e
           | inr true => inr mode
           | inr false => inr (mode .&^ ModeSetgid)
           end
    else inr mode.

Definition edit_mode (ctx : AuthContext) (attrs : SetAttrs) (e : Edit) : Result Edit :=
  match sa_Mode attrs with
  | None => inr e
  | Some mode =>
      match new_mode ctx e.1 mode with
      | inl err => inl err
      | inr m =>
          inr (change (fun a =>
            let a := set_Mode m a in
            match fa_ACL a with None => a | Some _ => set_ACL (AdjustACLForMode (fa_ACL a) m) a end) e)
      end
  end.

Definition edit_masks (attrs : SetAttrs) (e : Edit) : Edit :=
  let e := change_if (sa_ModeOrMask attrs)
    (fun m a => set_Mode (fa_Mode a .| (m .& dosAttributeModeBits)) a) e in
  change_if (sa_ModeAndNotMask attrs)
    (fun m a => set_Mode (fa_Mode a .&^ (m .& dosAttributeModeBits)) a) e.

(** chown and chgrp; the last component is [ownershipChanged]. *)
Definition edit_owner (ctx : AuthContext) (attrs : SetAttrs) (e : Edit) : Result (Edit * bool) :=
  match sa_UID attrs with
  | None => inr (e, false)
  | Some uid =>
      if negb (uid =? fa_UID e.1) then
        if is_root ctx then inr (change (set_UID uid) e, true) else inl (StoreError ErrPermissionDenied)
      else inr (e, false)
  end.

Definition may_chgrp (ctx : AuthContext) (gid : Z) : Result bool :=
  if is_root ctx then inr true
  else match ac_Identity ctx with
  | None => inl Panic
  | Some i => inr (bool_decide (id_GID i = Some gid) || HasGID i gid)
  end.

Definition edit_group (ctx : AuthContext) (attrs : SetAttrs) (eo : Edit * bool) : Result (Edit * bool) :=
  match sa_GID attrs with
  | None => inr eo
  | Some gid =>
      match may_chgrp ctx gid with
      | inl err => inl err
      | inr false => inl (StoreError ErrPermissionDenied)
      | inr true =>
          if negb (gid =? fa_GID eo.1.1) then inr (change (set_GID gid) eo.1, true) else inr eo
      end
  end.

(** A new owner or group drops the set-ID bits of files. *)
Definition edit_chown_clears (eo : Edit * bool) : Edit :=
  let '(e, changed) := eo in
  if (changed : bool) && negb (is_type (fa_Type e.1) FileTypeDirectory) &&
     negb (is_type (fa_Type e.1) FileTypeSymlink)
  then (clear_suid_sgid e.1, e.2) else e.

(** A truncation below the size prunes the block list and recomputes its root. *)
Definition truncate_blocks (size : Z) (a : FileAttr) : FileAttr :=
  match fa_Blocks a with
  | [] => a
  | _ =>
      if size <? fa_Size a then
        let blocks := PruneChunkRefsToSize (fa_Blocks a) size in
        let a := set_Blocks blocks a in
        if isZeroID (fa_ObjectID a) then a
        else set_ObjectID (match blocks with [] => replicate 32 0 | _ => ComputeObjectID blocks end) a
      else a
  end.

Definition edit_size (ctx : AuthContext) (size now : Z) (e : Edit) : Edit :=
  change (fun a =>
    let a := set_Size size (truncate_blocks size a) in
    let a := set_Ctime now (set_Mtime now a) in
    if is_type (fa_Type a) FileTypeRegular && negb (is_root ctx) then clear_suid_sgid a else a) e.

Definition edit_times (attrs : SetAttrs) (now : Z) (e : Edit) : Edit :=
  let e := change_if (sa_Atime attrs) set_Atime e in
  let e := change_if (sa_Mtime attrs) set_Mtime e in
  let e := if sa_AtimeNow attrs then change (set_Atime now) e else e in
  let e := if sa_MtimeNow attrs then change (set_Mtime now) e else e in
  let e := change_if (sa_CreationTime attrs) set_CreationTime e in
  change_if (sa_Ctime attrs) set_Ctime e.

Definition edit_acl (attrs : SetAttrs) (e : Edit) : Result Edit :=
  match sa_ACL attrs with
  | None => inr e
  | Some l =>
      match ValidateACL (Some l) with
      | Some _ => inl (StoreError ErrInvalidArgument)
      | None => inr (change (set_ACL (Some l)) e)
      end
  end.

(** The changes, in the order they are applied. *)
Definition edit_file (ctx : AuthContext) (handle : FileHandle) (attrs : SetAttrs) (now : Z) (a : FileAttr)
    : Svc Edit :=
  e ← lift (edit_mode ctx attrs (a, false));
  let e := edit_masks attrs e in
  eo ← lift (edit_owner ctx attrs e);
  eo ← lift (edit_group ctx attrs eo);
  let e := edit_chown_clears eo in
  e ← (match sa_Size attrs with
       | Some size => checkWritePermission ctx handle;; mret (edit_size ctx size now e)
       | None => mret e
       end);
  let e := edit_times attrs now e in
  e ← lift (edit_acl attrs e);
  let e := change_if (sa_Hidden attrs) set_Hidden e in
  match sa_EAMutations attrs with
  | [] => mret e
  | muts =>
      (if negb (is_owner ctx a) && negb (is_root ctx) then checkWritePermission ctx handle else mret tt);;
      mret (change (fun a => set_EAs (ApplyEAMutations muts (fa_EAs a)) a) e)
  end.

(** Persisting: a size change discards buffered writes, another change only
    drops the cached file. *)
Definition persist_attrs (handle : FileHandle) (attrs : SetAttrs) (file : File) : Svc unit :=
  transact (PutFile file);;
  match sa_Size attrs with
  | Some _ => PopPending handle
  | None => on_pending (InvalidateCache handle)
  end.

Definition SetFileAttributes (ctx : AuthContext) (handle : FileHandle) (attrs : SetAttrs) : Svc DirWcc :=
  storeForHandle handle;;
  file ← rd (fun st => getFile st handle);
  let dirTimeSet :=
    is_type (f_Type file) FileTypeDirectory &&
    (negb (is_none (sa_Mtime attrs)) || negb (is_none (sa_Atime attrs)) ||
     sa_MtimeNow attrs || sa_AtimeNow attrs) in
  a ← mergeDir handle (f_Attr file);
  ro ← gets (shareForbidsWrites ctx handle);
  check (negb ro) ErrReadOnly;;
  check_setattr ctx handle a attrs;;
  now ← time_Now;
  e ← edit_file ctx handle attrs now a;
  let after := if e.2 && is_none (sa_Ctime attrs) then set_Ctime now e.1 else e.1 in
  (if (e.2 : bool) then persist_attrs handle attrs (set_Attr (fun _ => after) file) else mret tt);;
  (if (dirTimeSet : bool) then modify (fun s => with_dirTimes (delete handle (sv_dirTimes s)) s) else mret tt);;
  mret (mkDirWcc (CopyFileAttr a) (Some (CopyFileAttr after))).
End SetAttr.
