(* ===== verification/SetAttrFacts.v ===== *)
(** * What an attribute change can do

    Who can change the owner, the group and the permission bits of a file, that a
    truncation is final whatever was buffered, and that extended attributes are
    a map with case-insensitive keys. *)

From S2P Require Import Prelude.
From S2P Require Import AclTypes.
From S2P Require Import HoleMap.
From S2P Require Import MetaTypes.
From S2P Require Import Permissions.
From S2P Require Import Quota.
From S2P Require Import MetaStore.
From S2P Require Import MetaService.
From S2P Require Import Namespace.
From S2P Require Import StoreFacts.
From S2P Require Import NamespaceAtomic.
From S2P Require Import NamespaceRefine.
From S2P Require Import NamespaceSteps.
From S2P Require Import MetaIO.
From S2P Require Import WritePath.
From S2P Require Import SetAttr.

(** ** Permission bits *)

(** No permission, sticky or set-ID bit is gained, and only set-ID bits are lost. *)
Definition perm_le (m m' : Z) : Prop :=
  (forall i, 0 <= i < 12 -> Z.testbit m i = true -> Z.testbit m' i = true) /\
  (forall i, 0 <= i < 10 -> Z.testbit m i = Z.testbit m' i).

#[export] Instance perm_le_preorder : PreOrder perm_le.
Proof.
  split.
  - now intros m.
  - intros x y z [H1 H2] [H3 H4]. split; [auto|]. intros i Hi. now rewrite H2, H4.
Qed.

Lemma testbit_dos m i : 0 <= i < 12 -> Z.testbit (m .& dosAttributeModeBits) i = false.
Proof.
  intros Hi. rewrite Z.land_spec. assert (Z.testbit dosAttributeModeBits i = false) as ->; [|now rewrite andb_false_r].
  assert (i ∈ seqZ 0 12) as Hin by (apply elem_of_seqZ; lia). revert i Hi Hin.
  assert (Forall (fun i => Z.testbit dosAttributeModeBits i = false) (seqZ 0 12)) as HF by (vm_compute; repeat constructor).
  rewrite Forall_forall in HF. auto.
Qed.

Lemma perm_le_or m k : perm_le (m .| (k .& dosAttributeModeBits)) m.
Proof.
  split; intros i Hi; rewrite Z.lor_spec, testbit_dos by lia; now rewrite orb_false_r.
Qed.

Lemma perm_le_andnot m k : perm_le (m .&^ (k .& dosAttributeModeBits)) m.
Proof.
  split; intros i Hi; rewrite Z.ldiff_spec, testbit_dos by lia; now rewrite andb_true_r.
Qed.

Lemma perm_le_clear m : perm_le (m .&^ suidSgid) m.
Proof.
  split; intros i Hi; rewrite Z.ldiff_spec; [now intros [? _]%andb_true_iff|].
  assert (Z.testbit suidSgid i = false) as ->; [|now rewrite andb_true_r].
  assert (i ∈ seqZ 0 10) as Hin by (apply elem_of_seqZ; lia). revert i Hi Hin.
  assert (Forall (fun i => Z.testbit suidSgid i = false) (seqZ 0 10)) as HF by (vm_compute; repeat constructor).
  rewrite Forall_forall in HF. auto.
Qed.

(** ** The stages of a change *)

Section SetAttrFacts.
Context `{L : UuidLaws} `{A : AttrLib}.

(** The owner, the group and the type stay, and no permission is gained. *)
Definition keeps_owner (a' a : FileAttr) : Prop :=
  fa_UID a' = fa_UID a /\ fa_GID a' = fa_GID a /\ fa_Type a' = fa_Type a /\ perm_le (fa_Mode a') (fa_Mode a).

#[local] Instance keeps_owner_preorder : PreOrder keeps_owner.
Proof.
  split.
  - intros a. unfold keeps_owner. split_and!; done.
  - intros x y z (H1 & H2 & H3 & H4) (H5 & H6 & H7 & H8). unfold keeps_owner.
    split_and!; [congruence..|etransitivity; eauto].
Qed.

(** An update of one other field. *)
Class Harmless (f : FileAttr -> FileAttr) : Prop := harmless : forall a, keeps_owner (f a) a.

#[local] Instance harmless_size v : Harmless (set_Size v).
Proof. intros []. unfold keeps_owner. done. Qed.
#[local] Instance harmless_atime v : Harmless (set_Atime v).
Proof. intros []. unfold keeps_owner. done. Qed.
#[local] Instance harmless_mtime v : Harmless (set_Mtime v).
Proof. intros []. unfold keeps_owner. done. Qed.
#[local] Instance harmless_ctime v : Harmless (set_Ctime v).
Proof. intros []. unfold keeps_owner. done. Qed.
#[local] Instance harmless_creation v : Harmless (set_CreationTime v).
Proof. intros []. unfold keeps_owner. done. Qed.
#[local] Instance harmless_acl v : Harmless (set_ACL v).
Proof. intros []. unfold keeps_owner. done. Qed.
#[local] Instance harmless_hidden v : Harmless (set_Hidden v).
Proof. intros []. unfold keeps_owner. done. Qed.
#[local] Instance harmless_eas v : Harmless (set_EAs v).
Proof. intros []. unfold keeps_owner. done. Qed.
#[local] Instance harmless_blocks v : Harmless (set_Blocks v).
Proof. intros []. unfold keeps_owner. done. Qed.
#[local] Instance harmless_object v : Harmless (set_ObjectID v).
Proof. intros []. unfold keeps_owner. done. Qed.
#[local] Instance harmless_nlink v : Harmless (set_Nlink v).
Proof. intros []. unfold keeps_owner. done. Qed.
#[local] Instance harmless_clear : Harmless clear_suid_sgid.
Proof. intros []. unfold keeps_owner, clear_suid_sgid. cbn. split_and!; try done; apply perm_le_clear. Qed.

Lemma change_keeps f e a : Harmless f -> keeps_owner e.1 a -> keeps_owner (change f e).1 a.
Proof. intros Hf He. etransitivity; [apply Hf|done]. Qed.

Lemma change_if_keeps {B} (o : option B) f e a :
  (forall v, Harmless (f v)) -> keeps_owner e.1 a -> keeps_owner (change_if o f e).1 a.
Proof. intros Hf He. destruct o; [now apply change_keeps|done]. Qed.

Lemma if_keeps (b : bool) (e e' : Edit) a : keeps_owner e.1 a -> keeps_owner e'.1 a -> keeps_owner (if b then e else e').1 a.
Proof. now destruct b. Qed.

Lemma edit_masks_keeps attrs e : keeps_owner (edit_masks attrs e).1 e.1.
Proof.
  unfold edit_masks. apply change_if_keeps.
  - intros v []. unfold keeps_owner. cbn. split_and!; try done; apply perm_le_andnot.
  - apply change_if_keeps; [|done]. intros v []. unfold keeps_owner. cbn. split_and!; try done; apply perm_le_or.
Qed.

Lemma edit_chown_clears_keeps eo : keeps_owner (edit_chown_clears eo).1 eo.1.1.
Proof. destruct eo as [e b]. unfold edit_chown_clears. case_match; [apply harmless_clear|done]. Qed.

Lemma edit_size_keeps ctx n now e : keeps_owner (edit_size ctx n now e).1 e.1.
Proof.
  unfold edit_size, change. cbn [fst]. cbv zeta. assert (keeps_owner (truncate_blocks n e.1) e.1) as Ht.
  { unfold truncate_blocks. repeat case_match; try done; (etransitivity; [apply harmless_object|]) || idtac; apply harmless_blocks. }
  case_match; [etransitivity; [apply harmless_clear|]|];
    (etransitivity; [apply harmless_ctime|etransitivity; [apply harmless_mtime|etransitivity; [apply harmless_size|done]]]).
Qed.

Lemma edit_times_keeps attrs now e : keeps_owner (edit_times attrs now e).1 e.1.
Proof.
  unfold edit_times. cbv zeta. do 2 (apply change_if_keeps; [apply _|]).
  do 2 (apply if_keeps; [apply change_keeps; [apply _|]|]).
  all: repeat (apply if_keeps; [apply change_keeps; [apply _|]|]).
  all: do 2 (apply change_if_keeps; [apply _|]); done.
Qed.

Lemma edit_acl_keeps attrs e e' : edit_acl attrs e = inr e' -> keeps_owner e'.1 e.1.
Proof. unfold edit_acl. repeat case_match; intros [= <-]; [apply harmless_acl|done]. Qed.

(** The mode [chmod] stores, and the stages that change owner and group. *)
Definition mode_result (ctx : AuthContext) (a : FileAttr) (attrs : SetAttrs) (m : Z) : Prop :=
  match sa_Mode attrs with None => m = fa_Mode a | Some m0 => new_mode ctx a m0 = inr m end.

Lemma edit_mode_inv ctx attrs a e :
  edit_mode ctx attrs (a, false) = inr e ->
  mode_result ctx a attrs (fa_Mode e.1) /\ fa_UID e.1 = fa_UID a /\ fa_GID e.1 = fa_GID a /\ fa_Type e.1 = fa_Type a.
Proof.
  unfold edit_mode, mode_result. destruct (sa_Mode attrs) as [m0|]; [|now intros [= <-]].
  cbn [fst]. destruct (new_mode ctx a m0) as [|m]; [discriminate|]. intros [= <-]. destruct a. cbn.
  destruct fa_ACL; done.
Qed.

Lemma edit_owner_inv ctx attrs e eo :
  edit_owner ctx attrs e = inr eo ->
  fa_UID eo.1.1 = default (fa_UID e.1) (sa_UID attrs) /\ fa_GID eo.1.1 = fa_GID e.1 /\
  fa_Mode eo.1.1 = fa_Mode e.1 /\ fa_Type eo.1.1 = fa_Type e.1 /\
  (fa_UID eo.1.1 <> fa_UID e.1 -> is_root ctx = true).
Proof.
  unfold edit_owner. destruct (sa_UID attrs) as [u|]; [|now intros [= <-]].
  destruct (Z.eqb_spec u (fa_UID e.1)) as [->|Hu]; cbn [negb]; [now intros [= <-]|].
  destruct (is_root ctx); [|discriminate]. intros [= <-]. destruct e as [[] b]. done.
Qed.

Lemma edit_group_inv ctx attrs eo eo' :
  edit_group ctx attrs eo = inr eo' ->
  fa_GID eo'.1.1 = default (fa_GID eo.1.1) (sa_GID attrs) /\ fa_UID eo'.1.1 = fa_UID eo.1.1 /\
  fa_Mode eo'.1.1 = fa_Mode eo.1.1 /\ fa_Type eo'.1.1 = fa_Type eo.1.1 /\
  (sa_GID attrs <> None -> may_chgrp ctx (fa_GID eo'.1.1) = inr true).
Proof.
  unfold edit_group. destruct (sa_GID attrs) as [g|]; [|now intros [= <-]].
  destruct (may_chgrp ctx g) as [|[|]] eqn:E; [discriminate| |discriminate].
  destruct (Z.eqb_spec g (fa_GID eo.1.1)) as [->|Hg]; cbn [negb]; [now intros [= <-]|].
  intros [= <-]. destruct eo as [[[] b] c]. done.
Qed.
Lemma edit_file_inv ctx h attrs now a s e s' :
  edit_file ctx h attrs now a s = (inr e, s') ->
  exists m, mode_result ctx a attrs m /\ perm_le (fa_Mode e.1) m /\ fa_Type e.1 = fa_Type a /\
    fa_UID e.1 = default (fa_UID a) (sa_UID attrs) /\ (fa_UID e.1 <> fa_UID a -> is_root ctx = true) /\
    fa_GID e.1 = default (fa_GID a) (sa_GID attrs) /\
    (sa_GID attrs <> None -> may_chgrp ctx (fa_GID e.1) = inr true).
Proof.
  intros H. unfold edit_file in H. qstep H. apply edit_mode_inv in E as (Hm & U1 & G1 & T1).
  pose proof (edit_masks_keeps attrs x) as (U2 & G2 & T2 & M2). cbv zeta in H.
  qstep H. apply edit_owner_inv in E as (U3 & G3 & M3 & T3 & R3).
  qstep H. apply edit_group_inv in E as (G4 & U4 & M4 & T4 & R4).
  pose proof (edit_chown_clears_keeps x1) as K5. set (e5 := edit_chown_clears x1) in *.
  apply bind_inv in H as (e6 & s6 & E6 & H).
  assert (keeps_owner e6.1 e5.1) as K6.
  { destruct (sa_Size attrs); [apply bind_inv in E6 as (? & ? & _ & E6)|]; mstep E6; [apply edit_size_keeps|done]. }
  pose proof (edit_times_keeps attrs now e6) as K7. qstep H. apply edit_acl_keeps in E as K8.
  assert (keeps_owner e.1 x2.1) as K9.
  { assert (keeps_owner (change_if (sa_Hidden attrs) set_Hidden x2).1 x2.1) as K.
    { apply change_if_keeps; [apply _|done]. }
    destruct (sa_EAMutations attrs); [mstep H; exact K|].
    apply bind_inv in H as (? & ? & _ & H). mstep H. etransitivity; [|exact K]. apply harmless_eas. }
  assert (keeps_owner e.1 x1.1.1) as (Ku & Kg & Kt & Km).
  { etransitivity; [exact K9|]. etransitivity; [exact K8|]. etransitivity; [exact K7|].
    etransitivity; [exact K6|exact K5]. }
  exists (fa_Mode x.1). split_and!; try congruence.
  - etransitivity; [exact Km|]. rewrite M4, M3. exact M2.
  - intros Hne. apply R3. congruence.
  - intros Hg. rewrite Kg. now apply R4.
Qed.

#[local] Instance keeps_edit_file ctx h attrs now a : KeepsStore (edit_file ctx h attrs now a).
Proof.
  unfold edit_file. repeat (apply keeps_bind; [apply _|intros ?]). destruct (sa_Size attrs); cbv zeta.
  all: repeat (apply keeps_bind; [apply _|intros ?]); destruct (sa_EAMutations attrs); apply _.
Qed.

#[local] Instance env_edit_file ctx h attrs now a : KeepsEnv (edit_file ctx h attrs now a).
Proof.
  unfold edit_file. repeat (apply env_bind; [apply _|intros ?]). destruct (sa_EAMutations attrs); apply _.
Qed.

#[local] Instance keeps_check_setattr ctx h a attrs : KeepsStore (check_setattr ctx h a attrs).
Proof. unfold check_setattr. apply _. Qed.
#[local] Instance env_check_setattr ctx h a attrs : KeepsEnv (check_setattr ctx h a attrs).
Proof. unfold check_setattr. apply _. Qed.

Lemma mergeDirTimes_keeps m h a : keeps_owner (mergeDirTimes m h a) a.
Proof.
  unfold mergeDirTimes, applyDirTimes. destruct (negb _); [done|]. destruct (m !! h) as [dt|]; [|done]. cbn [fst].
  destruct (_ >? fa_Atime a); [etransitivity; [apply harmless_atime|]|];
    (destruct (_ >? fa_Ctime a); [etransitivity; [apply harmless_ctime|]|]);
    (destruct (_ >? fa_Mtime a); [apply harmless_mtime|done]).
Qed.

Lemma persist_inv h attrs b f s s' u :
  persist_attrs h attrs (set_Attr (fun _ => b) f) s = (inr u, s') -> getFile (sv_store s) h = inr f ->
  keyed (sv_store s) -> stored s' h b /\ (sa_Size attrs <> None -> sv_pending s' !! h = None).
Proof.
  intros H Hg Hk. unfold persist_attrs in H. apply bind_inv in H as (v & s1 & Ep & H).
  apply transact_inv in Ep as (t & Ep & ->). apply (PutFile_stores _ _ h) in Ep as [_ [sh Hs]]; [|done|done].
  destruct (sa_Size attrs); apply modify_inv in H as ->; (split; [exists sh; exact Hs|]); [|done].
  intros _. cbn. apply lookup_delete_eq.
Qed.

(** What a successful change was: the file read, the checks passed, the edit made
    and the attributes stored. *)
Lemma SetFileAttributes_inv ctx h attrs s w s' :
  SetFileAttributes ctx h attrs s = (inr w, s') -> keyed (sv_store s) ->
  shareForbidsWrites ctx h s = false /\
  exists a n now e s1 s2 s3, stored s h a /\
    let a0 := mergeDirTimes (sv_dirTimes s) h (set_Nlink n a) in
    check_setattr ctx h a0 attrs s = (inr tt, s1) /\ sv_store s2 = sv_store s /\ sv_pending s2 = sv_pending s1 /\
    edit_file ctx h attrs now a0 s2 = (inr e, s3) /\
    stored s' h (if e.2 then if is_none (sa_Ctime attrs) then set_Ctime now e.1 else e.1 else a) /\
    (e.2 = true -> sa_Size attrs <> None -> sv_pending s' !! h = None).
Proof.
  intros H Hk. unfold SetFileAttributes in H. cbv zeta in H.
  apply bind_inv in H as (u & s0 & E0 & H). apply storeForHandle_state in E0 as ->.
  qstep H. unfold mergeDir in H. qstep H. injection E0 as <-. qstep H. injection E0 as <-. qstep H. rename E0 into Ero.
  apply negb_true_iff in Ero. split; [done|].
  destruct (getFile_attr _ _ _ E) as (fd & n & Hfd & Ha). rewrite Ha in H.
  apply bind_inv in H as ([] & s1 & Ec & H). apply bind_inv in H as (now & s2 & En & H). injection En as _ <-.
  apply bind_inv in H as (e & s3 & Ee & H).
  exists (fd_Attr fd), n, now, e, s1, (with_ticks (S (sv_ticks s1)) s1), s3.
  pose proof (quiet_inv _ _ _ _ Ec _ _) as (Es1 & _). pose proof (quiet_inv _ _ _ _ Ee _ _) as (Es3 & _).
  cbn [sv_store with_ticks] in Es3. rewrite Es1 in Es3.
  assert (Hst : stored s h (fd_Attr fd)) by (exists (fd_ShareName fd); rewrite Hfd; now destruct fd).
  cbv zeta. split; [done|]. split; [done|]. split; [done|]. split; [done|]. split; [done|].
  apply bind_inv in H as (u1 & s4 & Ep & H). apply bind_inv in H as (u2 & s5 & Ed & H). mstep H.
  assert (sv_store s5 = sv_store s4 /\ sv_pending s5 = sv_pending s4) as [Ea Eb].
  { match type of Ed with (if ?b then _ else _) _ = _ => destruct b end;
      [apply modify_inv in Ed as ->|mstep Ed]; done. }
  destruct e as [e1 [|]]; cbn [fst snd andb] in *.
  - assert (stored s4 h (if is_none (sa_Ctime attrs) then set_Ctime now e1 else e1) /\
            (sa_Size attrs <> None -> sv_pending s4 !! h = None)) as [Hs Hp].
    { apply (persist_inv _ _ _ x s3 _ u1); [exact Ep|now rewrite Es3|now rewrite Es3]. }
    rewrite Eb. split; [now apply (stored_store s4)|auto].
  - mstep Ep. split; [|done]. apply (stored_store s); [congruence|done].
Qed.
(** ** Privileges *)

Lemma has_setuid m : has m ModeSetuid = Z.testbit m 11.
Proof. now apply (has_pow2 m 11). Qed.
Lemma has_setgid m : has m ModeSetgid = Z.testbit m 10.
Proof. now apply (has_pow2 m 10). Qed.

Lemma testbit_drop m k i : 0 <= k -> 0 <= i -> Z.testbit (m .&^ 2 ^ k) i = Z.testbit m i && negb (k =? i).
Proof. intros Hk Hi. rewrite Z.ldiff_spec, Z.pow2_bits_eqb by done. done. Qed.

(** The caller belongs to the group. *)
Definition in_group (ctx : AuthContext) (gid : Z) : Prop :=
  exists i, ac_Identity ctx = Some i /\ (id_GID i = Some gid \/ HasGID i gid = true).

(** [chmod] gives a caller only the set-ID bits it may set. *)
Lemma new_mode_inv ctx a m m' :
  new_mode ctx a m = inr m' ->
  perm_le m' m /\
  (Z.testbit m' 11 = true -> is_root ctx = true \/ is_owner ctx a = true) /\
  (Z.testbit m' 10 = true -> is_root ctx = true \/
     is_owner ctx a = true /\ exists i, ac_Identity ctx = Some i /\ HasGID i (fa_GID a) = true).
Proof.
  unfold new_mode. destruct (is_root ctx); [intros [= <-]; split_and!; [done|auto|auto]|]. cbv zeta. rewrite has_setuid, !has_setgid.
  change ModeSetuid with (2 ^ 11). change ModeSetgid with (2 ^ 10).
  set (m1 := if Z.testbit m 11 && negb (is_owner ctx a) then m .&^ 2 ^ 11 else m).
  assert (perm_le m1 m /\ (Z.testbit m1 11 = true -> is_owner ctx a = true)) as [P1 Q1].
  { unfold m1. destruct (Z.testbit m 11) eqn:E, (is_owner ctx a); cbn [andb negb]; try (split; [done|congruence]).
    split; [split; intros i Hi; rewrite testbit_drop by lia|rewrite testbit_drop by lia; now rewrite andb_false_r].
    - now intros [? _]%andb_true_iff.
    - replace (11 =? i) with false by lia. now rewrite andb_true_r. }
  assert (forall m2, m2 = m1 .&^ 2 ^ 10 -> perm_le m2 m /\ (Z.testbit m2 11 = true -> is_owner ctx a = true) /\
    Z.testbit m2 10 = false) as Hdrop.
  { intros m2 ->. split; [|split].
    - etransitivity; [|exact P1]. split; intros i Hi; rewrite testbit_drop by lia.
      + intros [? _]%andb_true_iff; done.
      + replace (10 =? i) with false by lia. now rewrite andb_true_r.
    - rewrite testbit_drop by lia. intros [? _]%andb_true_iff. auto.
    - rewrite testbit_drop by lia. now rewrite andb_false_r. }
  destruct (Z.testbit m1 10) eqn:E10; [|intros [= <-]; split_and!; [done|auto|congruence]].
  destruct (is_owner ctx a) eqn:Eo; cbn [negb].
  - unfold identity_HasGID. destruct (ac_Identity ctx) as [i|] eqn:Ei; [|discriminate].
    destruct (HasGID i (fa_GID a)) eqn:Eg; intros [= <-]; [split_and!; [done|auto|eauto]|].
    destruct (Hdrop _ eq_refl) as (H1 & H2 & H3). split_and!; [done|auto|congruence].
  - intros [= <-]. destruct (Hdrop _ eq_refl) as (H1 & H2 & H3). split_and!; [done| |congruence].
    intros H. specialize (H2 H). congruence.
Qed.

Lemma mergeDirTimes_mode m h a : fa_Mode (mergeDirTimes m h a) = fa_Mode a.
Proof.
  unfold mergeDirTimes, applyDirTimes. destruct (negb _); [done|]. destruct (m !! h) as [dt|]; [|done].
  destruct a. cbn. repeat case_match; done.
Qed.

(** A caller that is neither owner nor root passes the check only for changes
    that touch neither owner nor group, and set no permission. *)
Lemma check_setattr_inv ctx h a attrs s s' :
  check_setattr ctx h a attrs s = (inr tt, s') -> is_owner ctx a = false -> is_root ctx = false ->
  sa_UID attrs = None /\ sa_GID attrs = None /\
  match sa_Mode attrs with Some m => m = fa_Mode a .&^ suidSgid | None => True end.
Proof.
  unfold check_setattr. intros H Ho Hr. rewrite Ho, Hr in H. cbn [negb andb] in H.
  destruct (writePermSufficient a attrs) eqn:E; [|discriminate]. unfold writePermSufficient in E.
  destruct (sa_Mode attrs), (sa_UID attrs), (sa_GID attrs); cbn in E; try discriminate; try done;
    rewrite ?andb_false_r in E; try discriminate.
  split_and!; try done. apply andb_true_iff in E as [E _]. apply andb_true_iff in E as [_ E].
  now apply Z.eqb_eq in E.
Qed.

Lemma stranger_change ctx h a attrs s s' m :
  check_setattr ctx h a attrs s = (inr tt, s') -> is_owner ctx a = false -> is_root ctx = false ->
  mode_result ctx a attrs m -> perm_le m (fa_Mode a) /\ sa_GID attrs = None.
Proof.
  intros Hc Ho Hr Hm. apply check_setattr_inv in Hc as (_ & Hg & Hmo); [|done|done]. split; [|done].
  unfold mode_result in Hm. destruct (sa_Mode attrs) as [m0|]; [|now subst m].
  subst m0. apply new_mode_inv in Hm as [Hm _]. etransitivity; [exact Hm|apply perm_le_clear].
Qed.

Lemma may_chgrp_inv ctx gid : is_root ctx = false -> may_chgrp ctx gid = inr true -> in_group ctx gid.
Proof.
  unfold may_chgrp, in_group. intros ->. destruct (ac_Identity ctx) as [i|]; [|discriminate]. intros [= H].
  exists i. split; [done|]. apply orb_true_iff in H as [H|H]; [left|now right]. now apply bool_decide_eq_true in H.
Qed.

(** C32: changing attributes needs the privilege for it.  Whatever is asked, after
    a change that succeeds the owner differs only for root, the group only for
    root or an owner that belongs to the new group, permission and sticky bits
    only for root or the owner, set-user-ID is gained only through root or the
    owner, set-group-ID only through root or an owner in the file's group; and the
    share was writable. *)
Theorem setattr_privileges ctx h attrs s w s' a :
  SetFileAttributes ctx h attrs s = (inr w, s') -> keyed (sv_store s) -> stored s h a ->
  shareForbidsWrites ctx h s = false /\
  exists a', stored s' h a' /\
    (fa_UID a' <> fa_UID a -> is_root ctx = true) /\
    (fa_GID a' <> fa_GID a -> is_root ctx = true \/ is_owner ctx a = true /\ in_group ctx (fa_GID a')) /\
    (forall i, 0 <= i < 10 -> Z.testbit (fa_Mode a') i <> Z.testbit (fa_Mode a) i ->
       is_root ctx = true \/ is_owner ctx a = true) /\
    (Z.testbit (fa_Mode a') 11 = true -> Z.testbit (fa_Mode a) 11 = false ->
       is_root ctx = true \/ is_owner ctx a = true) /\
    (Z.testbit (fa_Mode a') 10 = true -> Z.testbit (fa_Mode a) 10 = false ->
       is_root ctx = true \/
       is_owner ctx a = true /\ exists i, ac_Identity ctx = Some i /\ HasGID i (fa_GID a) = true).
Proof.
  intros H Hk Ha. apply SetFileAttributes_inv in H as (Hro & b & n & now & e & s1 & s2 & s3 & Hb & Hc & _ & _ & He & Hs' & _); [|done].
  split; [done|]. rewrite (stored_fun _ _ _ _ Hb Ha) in *. clear b Hb. cbv zeta in *.
  set (a0 := mergeDirTimes (sv_dirTimes s) h (set_Nlink n a)) in *.
  assert (fa_UID a0 = fa_UID a /\ fa_GID a0 = fa_GID a) as [Eu Eg].
  { destruct (mergeDirTimes_keeps (sv_dirTimes s) h (set_Nlink n a)) as (K1 & K2 & _). fold a0 in K1, K2.
    rewrite K1, K2. now destruct a. }
  assert (fa_Mode a0 = fa_Mode a) as Em.
  { unfold a0. rewrite mergeDirTimes_mode. now destruct a. }
  assert (is_owner ctx a0 = is_owner ctx a) as Eo by (unfold is_owner; now rewrite Eu).
  eexists. split; [exact Hs'|]. destruct e as [e1 [|]]; cbn [fst snd] in *; [|split_and!; congruence].
  apply edit_file_inv in He as (m & Hm & Hle & _ & Hu & Hru & Hgid & Hrg). cbn [fst] in *.
  rewrite Eu in Hu, Hru. rewrite Eg in Hgid.
  set (a' := if is_none (sa_Ctime attrs) then set_Ctime now e1 else e1).
  assert (fa_UID a' = fa_UID e1 /\ fa_GID a' = fa_GID e1 /\ fa_Mode a' = fa_Mode e1) as (-> & -> & ->).
  { unfold a'. destruct (is_none _); [now destruct e1|done]. }
  destruct (is_root ctx) eqn:Er; [split_and!; auto|].
  destruct (is_owner ctx a) eqn:Eow.
  - split_and!; auto.
    + intros Hne. right. split; [done|]. destruct (sa_GID attrs) as [g|] eqn:Esg; [|cbn in Hgid; congruence].
      now apply may_chgrp_inv; [|apply Hrg].
    + intros H10 Hn10. right. split; [done|]. apply (proj1 Hle 10) in H10; [|lia]. unfold mode_result in Hm.
      destruct (sa_Mode attrs) as [m0|]; [|subst m; congruence].
      apply new_mode_inv in Hm as (_ & _ & Hm). destruct (Hm H10) as [Hx|[_ (i & Hi & Hg)]]; [congruence|].
      exists i. now rewrite <- Eg.
  - destruct (stranger_change _ _ _ _ _ _ _ Hc Eo Er Hm) as [Hp Hg]. rewrite Em in Hp. rewrite Hg in Hgid. cbn in Hgid.
    assert (perm_le (fa_Mode e1) (fa_Mode a)) as [P1 P2] by (etransitivity; eauto).
    split; [exact Hru|]. split; [congruence|]. split_and!.
    + intros i Hi Hd. now destruct Hd; apply P2.
    + intros H1 H2. apply (P1 11) in H1; [congruence|lia].
    + intros H1 H2. apply (P1 10) in H1; [congruence|lia].
Qed.
(** ** Truncation *)

Definition same_content (a' a : FileAttr) : Prop := fa_Size a' = fa_Size a /\ fa_Blocks a' = fa_Blocks a.

#[local] Instance same_content_preorder : PreOrder same_content.
Proof. split; [now intros a|]. intros x y z [H1 H2] [H3 H4]. split; congruence. Qed.

Ltac content_cases :=
  unfold same_content; repeat (case_match; simplify_eq/=); try done.

Lemma edit_mode_content ctx attrs a e : edit_mode ctx attrs (a, false) = inr e -> same_content e.1 a.
Proof.
  unfold edit_mode, same_content. destruct (sa_Mode attrs) as [m|]; [|now intros [= <-]].
  destruct (new_mode ctx (a, false).1 m) as [|m']; [discriminate|]. intros [= <-]. destruct a. cbn.
  now destruct fa_ACL.
Qed.

Lemma before_size_content ctx attrs a e1 e2 e3 :
  edit_mode ctx attrs (a, false) = inr e1 -> edit_owner ctx attrs (edit_masks attrs e1) = inr e2 ->
  edit_group ctx attrs e2 = inr e3 -> same_content (edit_chown_clears e3).1 a.
Proof.
  intros H1 H2 H3. transitivity e3.1.1.
  { destruct e3 as [[e b] c]. unfold edit_chown_clears, clear_suid_sgid, same_content. cbn. destruct e. now case_match. }
  transitivity e2.1.1.
  { unfold edit_group in H3. destruct e2 as [[[] b] c]. cbn in H3. content_cases. }
  transitivity (edit_masks attrs e1).1.
  { unfold edit_owner in H2. destruct (edit_masks attrs e1) as [[] b]. cbn in H2. content_cases. }
  transitivity e1.1.
  { unfold edit_masks, change_if, change. destruct e1 as [[] b]. destruct (sa_ModeOrMask attrs), (sa_ModeAndNotMask attrs); done. }
  apply edit_mode_content in H1. done.
Qed.

Lemma edit_times_content attrs now e :
  same_content (edit_times attrs now e).1 e.1 /\ (e.2 = true -> (edit_times attrs now e).2 = true).
Proof.
  unfold edit_times, change_if, change, same_content. destruct e as [[] b]. cbn [fst snd].
  destruct (sa_Atime attrs), (sa_Mtime attrs), (sa_AtimeNow attrs), (sa_MtimeNow attrs), (sa_CreationTime attrs),
    (sa_Ctime attrs); done.
Qed.

Lemma edit_acl_content attrs e e' :
  edit_acl attrs e = inr e' -> same_content e'.1 e.1 /\ (e.2 = true -> e'.2 = true).
Proof.
  unfold edit_acl, same_content. repeat case_match; intros [= <-]; [|done]. now destruct e as [[] b].
Qed.

Lemma edit_size_content ctx n now e :
  (edit_size ctx n now e).2 = true /\ fa_Size (edit_size ctx n now e).1 = n /\
  fa_Blocks (edit_size ctx n now e).1 =
    (if n <? fa_Size e.1 then PruneChunkRefsToSize (fa_Blocks e.1) n else fa_Blocks e.1).
Proof.
  unfold edit_size, change. cbn [fst snd]. split; [done|]. cbv zeta.
  assert (fa_Blocks (truncate_blocks n e.1) =
    (if n <? fa_Size e.1 then PruneChunkRefsToSize (fa_Blocks e.1) n else fa_Blocks e.1)) as <-.
  { unfold truncate_blocks. destruct e as [[] b]. cbn [fst MetaTypes.fa_Blocks MetaTypes.fa_Size]. destruct fa_Blocks as [|r l]; [now destruct (n <? fa_Size)|].
    destruct (n <? fa_Size); [|done]. cbn [set_Blocks]. now case_match. }
  destruct (is_type _ _ && _); now destruct (truncate_blocks n e.1).
Qed.

Lemma edit_file_size ctx h attrs n now a s e s' :
  edit_file ctx h attrs now a s = (inr e, s') -> sa_Size attrs = Some n ->
  e.2 = true /\ fa_Size e.1 = n /\
  fa_Blocks e.1 = (if n <? fa_Size a then PruneChunkRefsToSize (fa_Blocks a) n else fa_Blocks a).
Proof.
  intros H Hn. unfold edit_file in H. qstep H. cbv zeta in H. qstep H. qstep H.
  pose proof (before_size_content _ _ _ _ _ _ E E0 E1) as [Cz Cb]. rewrite Hn in H.
  set (e5 := edit_chown_clears x1) in *.
  apply bind_inv in H as (e6 & s6 & E6 & H). apply bind_inv in E6 as (? & ? & _ & E6). mstep E6. qstep H.
  destruct (edit_size_content ctx n now e5) as (S1 & S2 & S3).
  destruct (edit_times_content attrs now (edit_size ctx n now e5)) as [[T1 T2] T3].
  apply edit_acl_content in E2 as [[A1 A2] A3].
  assert (same_content e.1 x4.1 /\ e.2 = true) as [[C1 C2] C3].
  { assert (same_content (change_if (sa_Hidden attrs) set_Hidden x4).1 x4.1 /\
            (change_if (sa_Hidden attrs) set_Hidden x4).2 = true) as [K1 K2].
    { unfold change_if, change, same_content. specialize (A3 (T3 S1)). destruct x4 as [[] b], (sa_Hidden attrs); done. }
    destruct (sa_EAMutations attrs); [mstep H; done|]. apply bind_inv in H as (? & ? & _ & H). mstep H.
    split; [|done]. transitivity (change_if (sa_Hidden attrs) set_Hidden x4).1; [|done].
    unfold same_content, change. cbn [fst]. now destruct (change_if _ _ _).1. }
  split; [done|]. rewrite C1, A1, T1, S2, C2, A2, T2, S3, Cz, Cb. done.
Qed.

(** C33: a truncation or extension is final: the stored size is the one asked for,
    chunks from the new end on are dropped, the buffered writes of the file are
    gone, and a reader sees exactly that size. *)
Theorem truncate_is_final ctx h attrs n s w s' a :
  SetFileAttributes ctx h attrs s = (inr w, s') -> keyed (sv_store s) -> stored s h a ->
  fa_Type a = FileTypeRegular -> sa_Size attrs = Some n ->
  sv_pending s' !! h = None /\
  (exists a', stored s' h a' /\ fa_Size a' = n /\
     (n < fa_Size a -> forall r, In r (fa_Blocks a') -> In r (fa_Blocks a) /\ cr_Offset r < n)) /\
  (forall f, result (ServiceGetFile h) s' = inr f -> f_Type f = FileTypeRegular -> fa_Size (f_Attr f) = n).
Proof.
  intros H Hk Ha Hty Hn.
  apply SetFileAttributes_inv in H as (_ & b & k & now & e & s1 & s2 & s3 & Hb & _ & _ & _ & He & Hs' & Hp); [|done].
  rewrite (stored_fun _ _ _ _ Hb Ha) in *. clear b Hb. cbv zeta in He.
  rewrite mergeDirTimes_file in He by (rewrite set_Nlink_Type, Hty; done).
  apply (edit_file_size _ _ _ n) in He as (E2 & Ez & Eb); [|done]. rewrite E2 in Hs'.
  specialize (Hp E2 ltac:(now rewrite Hn)). split; [done|].
  set (a' := if is_none (sa_Ctime attrs) then set_Ctime now e.1 else e.1) in *.
  assert (fa_Size a' = n /\ fa_Blocks a' = fa_Blocks e.1) as [Z1 Z2].
  { rewrite <- Ez. unfold a'. destruct (is_none _); [now destruct e.1|done]. }
  split.
  - exists a'. split_and!; [done|done|]. intros Hlt r Hr. rewrite Z2, Eb in Hr.
    replace (fa_Size (set_Nlink k a)) with (fa_Size a) in Hr by now destruct a.
    replace (fa_Blocks (set_Nlink k a)) with (fa_Blocks a) in Hr by now destruct a.
    replace (n <? fa_Size a) with true in Hr by lia. now apply PruneChunkRefsToSize_spec in Hr.
  - intros f Hf Hfty. apply ServiceGetFile_inv in Hf as (p & b & j & _ & _ & Hb & Ea).
    rewrite (stored_fun _ _ _ _ Hb Hs'), Hp in Ea. cbn [merge_attr] in Ea. unfold f_Type in Hfty.
    rewrite mergeDirTimes_file in Ea; [rewrite Ea, <- Z1; now destruct a'|].
    rewrite Ea, mergeDirTimes_type in Hfty. now rewrite Hfty.
Qed.
End SetAttrFacts.

(** ** Extended attributes *)

Section EAFacts.
Context `{Laws : AttrLaws}.

Lemma findEAKey_Some eas n k : findEAKey eas n = Some k -> is_Some (eas !! k) /\ EqualFold k n = true.
Proof.
  unfold findEAKey. destruct (eas !! n) as [v|] eqn:E.
  - intros [= <-]. split; [eauto|apply fold_refl].
  - destruct (List.filter _ _) as [|[k' v] l] eqn:Ef; [discriminate|]. intros [= <-]. cbn in *.
    assert (In (k', v) (List.filter (fun kv : string * list Z => EqualFold kv.1 n) (map_to_list eas))) as Hin.
    { rewrite Ef. now left. }
    apply filter_In in Hin as [Hin Hf]. split; [|done]. apply list_elem_of_In, elem_of_map_to_list in Hin. eauto.
Qed.

Lemma findEAKey_None eas n : findEAKey eas n = None -> forall k, is_Some (eas !! k) -> EqualFold k n = false.
Proof.
  unfold findEAKey. destruct (eas !! n) eqn:E; [discriminate|].
  destruct (List.filter _ _) as [|kv l] eqn:Ef; [|discriminate]. intros _ k [v Hk].
  destruct (EqualFold k n) eqn:Efold; [|done]. exfalso.
  assert (In (k, v) (List.filter (fun kv : string * list Z => EqualFold kv.1 n) (map_to_list eas))) as Hin.
  { apply filter_In. split; [now apply list_elem_of_In, elem_of_map_to_list|done]. }
  now rewrite Ef in Hin.
Qed.

(** With one key per folded name, the key found is the one there is. *)
Lemma findEAKey_unique eas n k :
  ea_unique eas -> is_Some (eas !! k) -> EqualFold k n = true -> findEAKey eas n = Some k.
Proof.
  intros Hu Hk Hf. destruct (findEAKey eas n) as [k'|] eqn:E.
  - apply findEAKey_Some in E as [Hk' Hf']. f_equal. apply Hu; [done|done|].
    apply (fold_trans _ n); [done|]. now rewrite fold_sym.
  - rewrite (findEAKey_None _ _ E k Hk) in Hf. discriminate.
Qed.

(** The value under a folded name. *)
Lemma LookupEA_spec eas n v :
  ea_unique eas -> LookupEA eas n = Some v <-> exists k, eas !! k = Some v /\ EqualFold k n = true.
Proof.
  intros Hu. unfold LookupEA. split.
  - destruct (findEAKey eas n) as [k|] eqn:E; [|discriminate]. cbn. intros Hk.
    apply findEAKey_Some in E as [_ Hf]. eauto.
  - intros (k & Hk & Hf). rewrite (findEAKey_unique _ n k) by (eauto || done). done.
Qed.

Lemma apply_ea_unique eas m : ea_unique eas -> ea_unique (apply_ea eas m).
Proof.
  intros Hu. unfold apply_ea. destruct (findEAKey eas (ea_Name m)) as [k0|] eqn:E; destruct (ea_Delete m); cbn; try done.
  - intros k k' Hk Hk'. apply Hu; [destruct Hk as [v [_ Hk]%lookup_delete_Some]|destruct Hk' as [v [_ Hk']%lookup_delete_Some]]; eauto.
  - apply findEAKey_Some in E as [H0 _]. intros k k' Hk Hk'. rewrite lookup_insert_is_Some' in Hk, Hk'.
    apply Hu; [destruct Hk as [<-|]|destruct Hk' as [<-|]]; done.
  - pose proof (findEAKey_None _ _ E) as Hno. intros k k' Hk Hk' Hf. rewrite lookup_insert_is_Some' in Hk, Hk'.
    destruct Hk as [<-|Hk], Hk' as [<-|Hk']; [done| | |now apply Hu].
    + rewrite fold_sym, (Hno k' Hk') in Hf. discriminate.
    + rewrite (Hno k Hk) in Hf. discriminate.
Qed.

Lemma fold_via s t u : EqualFold s u = true -> EqualFold t u = true -> EqualFold s t = true.
Proof. intros H1 H2. apply (fold_trans _ u); [done|]. now rewrite fold_sym. Qed.

(** The key a mutation writes or deletes, and the keys it leaves. *)
Definition ea_key (eas : gmap string (list Z)) (m : EAMutation) : string :=
  default (ea_Name m) (findEAKey eas (ea_Name m)).

Lemma ea_key_fold eas m : EqualFold (ea_key eas m) (ea_Name m) = true.
Proof.
  unfold ea_key. destruct (findEAKey eas (ea_Name m)) as [k|] eqn:E; [now apply findEAKey_Some in E|apply fold_refl].
Qed.

Lemma ea_key_unique eas m k :
  ea_unique eas -> is_Some (eas !! k) -> EqualFold k (ea_Name m) = true -> k = ea_key eas m.
Proof. intros Hu Hk Hf. unfold ea_key. now rewrite (findEAKey_unique _ _ k). Qed.

Lemma apply_ea_key eas m :
  apply_ea eas m = if ea_Delete m then delete (ea_key eas m) eas else <[ea_key eas m := ea_Value m]> eas.
Proof.
  unfold apply_ea, ea_key. destruct (ea_Delete m); [|done].
  destruct (findEAKey eas (ea_Name m)) as [k|] eqn:E; cbn; [done|].
  rewrite delete_id; [done|]. destruct (eas !! ea_Name m) eqn:En; [|done].
  pose proof (findEAKey_None _ _ E (ea_Name m) ltac:(eauto)) as Hf. now rewrite fold_refl in Hf.
Qed.

(** extended attributes behave as a map with case-insensitive keys: after a
    set the name reads back the value under any spelling, after a delete it is
    gone, other names are untouched, and there is never more than one spelling. *)
Theorem ea_roundtrip eas m n :
  ea_unique eas ->
  ea_unique (apply_ea eas m) /\
  LookupEA (apply_ea eas m) n =
    (if EqualFold (ea_Name m) n then if ea_Delete m then None else Some (ea_Value m) else LookupEA eas n).
Proof.
  intros Hu. pose proof (apply_ea_unique eas m Hu) as Hu'. split; [done|].
  apply option_eq. intros v. rewrite (LookupEA_spec _ _ _ Hu'), apply_ea_key.
  pose proof (ea_key_fold eas m) as Hk. destruct (EqualFold (ea_Name m) n) eqn:Ef.
  - assert (forall k, eas !! k = Some v -> EqualFold k n = true -> k = ea_key eas m) as Hone.
    { intros k Hkv Hf. apply ea_key_unique; [done|eauto|]. now apply (fold_via _ _ n). }
    destruct (ea_Delete m); (split; [intros (k & Hkv & Hf)|intros Hv]); try discriminate.
    + apply lookup_delete_Some in Hkv as [Hne Hkv]. now destruct Hne; symmetry; apply Hone.
    + apply lookup_insert_Some in Hkv as [[_ <-]|[Hne Hkv]]; [done|]. now destruct Hne; symmetry; apply Hone.
    + injection Hv as <-. exists (ea_key eas m). rewrite lookup_insert_eq. split; [done|]. now apply (fold_trans _ (ea_Name m)).
  - rewrite (LookupEA_spec _ _ _ Hu).
    assert (forall k, EqualFold k n = true -> ea_key eas m <> k) as Hne.
    { intros k Hf <-. rewrite fold_sym in Hk. rewrite (fold_trans _ _ _ Hk Hf) in Ef. discriminate. }
    split; intros (k & Hkv & Hf); exists k; (split; [|done]); specialize (Hne k Hf); destruct (ea_Delete m);
      now rewrite ?lookup_delete_ne, ?lookup_insert_ne in * by done.
Qed.
End EAFacts.
