(* ===== verification/IoExamples.v ===== *)
(** * Reads, writes and attributes on a small share

    Concrete runs of the write path and of attribute changes on the share of
    [NamespaceExamples], where what the code does and what it says part. *)

From S2P Require Import Prelude.
From S2P Require Import AclTypes.
From S2P Require Import AclEvaluate.
From S2P Require Import HoleMap.
From S2P Require Import MetaTypes.
From S2P Require Import Permissions.
From S2P Require Import Quota.
From S2P Require Import MetaStore.
From S2P Require Import MetaService.
From S2P Require Import Namespace.
From S2P Require Import MetaIO.
From S2P Require Import StoreFacts.
From S2P Require Import WritePath.
From S2P Require Import SetAttr.
From S2P Require Import SetAttrFacts.
From S2P Require Import NamespaceExamples.

#[local] Existing Instance string_uuids.

(** Folding that distinguishes every string, and a hash that is the identity. *)
#[local] Instance exact_fold : AttrLib := {| EqualFold := String.eqb; blake3 := id |}.

(** A caller that is neither root nor the owner, and one without an identity. *)
Definition bob : AuthContext :=
  mkAuthContext "unix" (Some (mkIdentity (Some 1001) (Some 1001) [1001] None [] "bob" "")) "10.0.0.2"
    false false false false.

Definition file_attr (mode uid : Z) : FileAttr := dir_attr mode uid 0.

(** Writing [n] bytes up to offset [n], and a flush. *)
Definition write_to (ctx : AuthContext) (h : FileHandle) (n : Z) : Svc File :=
  op ← PrepareWrite ctx h n; CommitWrite ctx op.

(** A 100-byte file, committed. *)
Definition with_file : Service :=
  after (CreateFile admin root_h "f" (file_attr 0x1B6 0);; write_to admin (handle_no 0) 100;;
         FlushPendingWriteForFile (handle_no 0)) sample_service.

(** The answer to a deferred write below the end of the file has the size of the
    write, not of the file, although a read reports the file's. *)
Example deferred_write_reports_shrunk_size :
  match result (write_to admin (handle_no 0) 10) with_file,
        result (write_to admin (handle_no 0) 10;; ServiceGetFile (handle_no 0)) with_file with
  | inr written, inr read => fa_Size (f_Attr written) = 10 /\ fa_Size (f_Attr read) = 100
  | _, _ => False
  end.
Proof. vm_compute. done. Qed.

(** After a flush the cached file is the one from before the write. *)
Example flush_recaches_stale_file :
  match result (GetFileCached (handle_no 0)) with_file, result (ServiceGetFile (handle_no 0)) with_file with
  | inr cached, inr stored => fa_Size (f_Attr cached) = 0 /\ fa_Size (f_Attr stored) = 100
  | _, _ => False
  end.
Proof. vm_compute. done. Qed.

(** The stale size also makes the share quota count a file twice: with 150 bytes
    allowed and 100 in use, growing by one byte is refused. *)
Example stale_cache_refuses_write :
  let s := mkService _ (sv_store with_file) (sv_registered with_file) (sv_dirTimes with_file)
             (sv_pending with_file) (sv_quotas with_file) {["/export"%string := 150]} true
             (sv_trash with_file) [] (sv_clock with_file) (sv_ticks with_file) (sv_uuids with_file)
             (sv_ids with_file) in
  st_usedBytes (sv_store s) = 100 /\
  result (write_to admin (handle_no 0) 101) s = inl (StoreError ErrNoSpace).
Proof. vm_compute. done. Qed.

(** A caller without an identity that may write a set-user-ID file leaves the bit
    set; any other caller but root clears it. *)
Example anonymous_write_keeps_setuid :
  let s := after (SetFileAttributes admin (handle_no 0) (mkSetAttrs (Some 0x9B6) None None None None None
                    None None false false None None None None [])) with_file in
  match result (write_to anonymous (handle_no 0) 10;; FlushPendingWriteForFile (handle_no 0);;
                ServiceGetFile (handle_no 0)) s,
        result (write_to bob (handle_no 0) 10;; FlushPendingWriteForFile (handle_no 0);;
                ServiceGetFile (handle_no 0)) s with
  | inr f, inr g => has (fa_Mode (f_Attr f)) ModeSetuid = true /\ has (fa_Mode (f_Attr g)) ModeSetuid = false
  | _, _ => False
  end.
Proof. vm_compute. done. Qed.

Definition open_acl : ACL :=
  mkACL [mkACE ACE4_ACCESS_ALLOWED_ACE_TYPE 0 0x1F01FF SpecialEveryone false] "" false false false None.

(** A caller who may only write a file replaces its ACL by setting a time along
    with it; alone the ACL change is refused. *)
Example writer_replaces_acl :
  let with_time t := mkSetAttrs None None None None None None None None false t None None None (Some open_acl) [] in
  result (SetFileAttributes bob (handle_no 0) (with_time false)) with_file = inl (StoreError ErrPermissionDenied) /\
  (exists w, result (SetFileAttributes bob (handle_no 0) (with_time true)) with_file = inr w) /\
  match getFile (sv_store (after (SetFileAttributes bob (handle_no 0) (with_time true)) with_file)) (handle_no 0) with
  | inr f => fa_ACL (f_Attr f) = Some open_acl
  | inl _ => False
  end.
Proof. split_and!; [|eexists|]; vm_compute; reflexivity. Qed.

(** An attribute change reads the file before its transaction: a flush in between
    is undone, size included. *)
Example setattr_loses_concurrent_flush :
  let s := after (write_to admin (handle_no 0) 500) with_file in
  match getFile (sv_store s) (handle_no 0) with
  | inr file =>
      let s1 := after (FlushPendingWriteForFile (handle_no 0)) s in
      let s2 := after (persist_attrs (handle_no 0) no_attrs (set_Attr (set_Mode 0x180) file)) s1 in
      match getFile (sv_store s1) (handle_no 0), getFile (sv_store s2) (handle_no 0) with
      | inr f1, inr f2 => fa_Size (f_Attr f1) = 500 /\ fa_Size (f_Attr f2) = 100
      | _, _ => False
      end
  | inl _ => False
  end.
Proof. vm_compute. done. Qed.

(** An explicit modification time set while a write is buffered is overwritten
    when the write is flushed. *)
Example flush_overrides_explicit_mtime :
  let s := after (write_to admin (handle_no 0) 10) with_file in
  let set_mtime := mkSetAttrs None None None None None None None (Some 77) false false None None None None [] in
  match result (SetFileAttributes admin (handle_no 0) set_mtime;; rd (fun st => getFile st (handle_no 0))) s,
        result (SetFileAttributes admin (handle_no 0) set_mtime;; FlushPendingWriteForFile (handle_no 0);;
                rd (fun st => getFile st (handle_no 0))) s with
  | inr f, inr g => fa_Mtime (f_Attr f) = 77 /\ fa_Mtime (f_Attr g) <> 77
  | _, _ => False
  end.
Proof. vm_compute. done. Qed.

(** ** The theorems applied *)

(** [keyed], decided by decoding every handle. *)
Definition keyed_b (st : MemoryStore) : bool :=
  forallb (fun e : FileHandle * fileData =>
    match DecodeFileHandle e.1 with
    | inr (sh, id) =>
        bool_decide (sh = fd_ShareName e.2) && negb (String.eqb sh "") &&
        bool_decide (cut_char colon sh = None) && bool_decide (EncodeShareHandle sh id = inr e.1)
    | inl _ => false
    end) (map_to_list (st_files st)).

Lemma keyed_b_ok st : keyed_b st = true -> keyed st.
Proof.
  unfold keyed_b. rewrite forallb_forall. intros H h fd Hfd.
  specialize (H (h, fd)). rewrite <- list_elem_of_In, elem_of_map_to_list in H. specialize (H Hfd). cbn [fst snd] in H.
  destruct (DecodeFileHandle h) as [|[sh id]]; [discriminate|].
  apply andb_true_iff in H as [H H4]. apply andb_true_iff in H as [H H3]. apply andb_true_iff in H as [H1 H2].
  apply bool_decide_eq_true in H1, H3, H4. subst sh. split; [split; [|done]|eauto].
  intros E. now rewrite E in H2.
Qed.

(** A run is its result and the state after it. *)
Lemma ran {S A} (m : M S A) s r : result m s = r -> m s = (r, after m s).
Proof. intros <-. unfold result, after. now destruct (m s). Qed.

(** The file's stored attributes, and the state with no cached file. *)
Definition stored_attr (s : Service) (h : FileHandle) : FileAttr :=
  match st_files (sv_store s) !! h with Some fd => fd_Attr fd | None => dir_attr 0 0 0 end.

Lemma stored_attr_ok s h : is_Some (st_files (sv_store s) !! h) -> stored s h (stored_attr s h).
Proof. intros [fd H]. unfold stored, stored_attr. rewrite H. exists (fd_ShareName fd). now destruct fd. Qed.

Definition idle : Service := with_pending ∅ with_file.

Definition write_op (n : Z) : WriteOperation :=
  mkWriteOperation (handle_no 0) n 5000 "" (stored_attr idle (handle_no 0)).

Definition two_writes : list (AuthContext * WriteOperation) := [(admin, write_op 40); (bob, write_op 300)].

Lemma deferred_writes_refine_immediate_witness :
  exists ad ai,
    stored (after (FlushPendingWriteForFile (handle_no 0)) (after (commit_all two_writes) (with_deferredCommit true idle))) (handle_no 0) ad /\
    stored (after (commit_all two_writes) (with_deferredCommit false idle)) (handle_no 0) ai /\
    fa_Size ad = fa_Size ai /\ fa_Size ai = 300 /\ fa_Mode ad = fa_Mode ai.
Proof.
  destruct (deferred_writes_refine_immediate two_writes (handle_no 0) idle (stored_attr idle (handle_no 0))
    (after (commit_all two_writes) (with_deferredCommit true idle))
    (after (FlushPendingWriteForFile (handle_no 0)) (after (commit_all two_writes) (with_deferredCommit true idle)))
    (after (commit_all two_writes) (with_deferredCommit false idle)) tt tt)
    as (ad & ai & Hd & Hi & Hz & Hz' & Hm & _).
  - apply keyed_b_ok. vm_compute. reflexivity.
  - apply stored_attr_ok. vm_compute. eauto.
  - vm_compute. discriminate.
  - vm_compute. reflexivity.
  - repeat constructor; vm_compute; discriminate.
  - apply ran. vm_compute. reflexivity.
  - apply ran. vm_compute. reflexivity.
  - apply ran. vm_compute. reflexivity.
  - exists ad, ai. split_and!; [exact Hd|exact Hi|exact Hz|rewrite Hz'; vm_compute; reflexivity|exact Hm].
Defined.

(** A buffered write of a handle no share owns. *)
Definition orphan_write : Service :=
  with_pending {["nowhere"%string := mkPending _ 10 1 "" None false None]} with_file.

Lemma failed_flush_loses_nothing_witness :
  result (FlushPendingWriteForFile "nowhere") orphan_write = inl (StoreError ErrInvalidHandle) /\
  sv_pending (after (FlushPendingWriteForFile "nowhere") orphan_write) = sv_pending orphan_write.
Proof.
  split; [vm_compute; reflexivity|].
  apply (failed_flush_loses_nothing "nowhere" orphan_write (StoreError ErrInvalidHandle)).
  apply ran. vm_compute. reflexivity.
Defined.

Definition buffered : Service := after (write_to admin (handle_no 0) 500) with_file.

Lemma flush_invisible_witness :
  visible (after (FlushPendingWriteForFile (handle_no 0)) buffered) (handle_no 0) 500 0x1B6
    (fa_Mtime (f_Attr (match result (ServiceGetFile (handle_no 0)) buffered with inr f => f | inl _ => mkFile string_uuids "" "" "" att end))).
Proof.
  apply (flush_invisible (handle_no 0) buffered _ true).
  - apply ran. vm_compute. reflexivity.
  - apply keyed_b_ok. vm_compute. reflexivity.
  - eexists. split; [vm_compute; reflexivity|]. vm_compute. done.
  - intros p a Hp [sh Ha]. vm_compute in Hp, Ha. injection Hp as <-. injection Ha as <- _.
    split_and!; [vm_compute; discriminate|vm_compute; discriminate|right; vm_compute; discriminate].
Defined.

Definition to_ten : SetAttrs :=
  mkSetAttrs None None None None None (Some 10) None None false false None None None None [].

Lemma truncate_is_final_witness :
  sv_pending (after (SetFileAttributes admin (handle_no 0) to_ten) buffered) !! handle_no 0 = None /\
  exists a, stored (after (SetFileAttributes admin (handle_no 0) to_ten) buffered) (handle_no 0) a /\ fa_Size a = 10.
Proof.
  destruct (SetFileAttributes admin (handle_no 0) to_ten buffered) as [[e|w] s'] eqn:E;
    [apply (f_equal fst) in E; vm_compute in E; discriminate|].
  destruct (truncate_is_final admin (handle_no 0) to_ten 10 buffered w s' (stored_attr buffered (handle_no 0)) E)
    as (Hp & (a & Ha & Hz & _) & _).
  - apply keyed_b_ok. vm_compute. reflexivity.
  - apply stored_attr_ok. vm_compute. eauto.
  - vm_compute. reflexivity.
  - reflexivity.
  - unfold after. rewrite E. eauto.
Defined.

Definition chmod_attrs : SetAttrs :=
  mkSetAttrs (Some 0x9ED) None None None None None None None false false None None None None [].

Lemma setattr_privileges_witness :
  shareForbidsWrites admin (handle_no 0) with_file = false /\
  exists a, stored (after (SetFileAttributes admin (handle_no 0) chmod_attrs) with_file) (handle_no 0) a.
Proof.
  destruct (SetFileAttributes admin (handle_no 0) chmod_attrs with_file) as [[e|w] s'] eqn:E;
    [apply (f_equal fst) in E; vm_compute in E; discriminate|].
  destruct (setattr_privileges admin (handle_no 0) chmod_attrs with_file w s' (stored_attr with_file (handle_no 0)) E)
    as (Hro & a & Ha & _).
  - apply keyed_b_ok. vm_compute. reflexivity.
  - apply stored_attr_ok. vm_compute. eauto.
  - unfold after. rewrite E. eauto.
Defined.

#[local] Instance exact_fold_laws : AttrLaws exact_fold.
Proof.
  split; cbn.
  - apply String.eqb_refl.
  - apply String.eqb_sym.
  - intros s t u ->%String.eqb_eq. done.
Qed.

Lemma ea_roundtrip_witness :
  ea_unique (apply_ea ∅ (mkEAMutation "user.x" [1; 2] false)) /\
  LookupEA (apply_ea ∅ (mkEAMutation "user.x" [1; 2] false)) "user.x" = Some [1; 2].
Proof.
  destruct (ea_roundtrip ∅ (mkEAMutation "user.x" [1; 2] false) "user.x") as [Hu Hl].
  - intros k k' [v Hk]. now rewrite lookup_empty in Hk.
  - split; [exact Hu|]. rewrite Hl. reflexivity.
Defined.
