(* ===== verification/Xdr.v ===== *)
(** * XDR encoding ([internal/adapter/nfs/xdr/core])

    Writers append bytes to a buffer and cannot fail; a reader is the bytes left,
    and a decoder returns a value or an error together with what is left after it
    (a read that finds too few bytes consumes them all).  [codes] is the law of the
    types that encode and decode themselves: decoding an encoded value gives it back
    and leaves the rest untouched. *)

From S2P Require Import Prelude.
From S2P Require Import SlotTable.

(** ** Big-endian integers *)

Definition be_encode (n : nat) (x : Z) : bytes := rev (le_encode n x).
Definition be_decode (bs : bytes) : Z := le_decode (rev bs).

Lemma be_encode_length n x : length (be_encode n x) = n.
Proof. unfold be_encode. now rewrite length_rev, le_encode_length. Qed.

Lemma be_decode_encode n x : 0 <= x < 256 ^ Z.of_nat n -> be_decode (be_encode n x) = x.
Proof. intros H. unfold be_decode, be_encode. rewrite rev_involutive. now apply le_decode_encode. Qed.

(** ** Writers *)

Definition WriteUint32 (v : Z) : bytes := be_encode 4 v.
Definition WriteUint64 (v : Z) : bytes := be_encode 8 v.
(** A signed value is written in two's complement. *)
Definition WriteInt32 (v : Z) : bytes := be_encode 4 (u32 v).
Definition WriteInt64 (v : Z) : bytes := be_encode 8 (u64 v).
Definition WriteBool (v : bool) : bytes := WriteUint32 (if v then 1 else 0).

Definition xdr_padding (dataLen : Z) : Z := (4 - dataLen mod 4) mod 4.

Definition WriteXDRPadding (dataLen : Z) : bytes := repeat 0 (Z.to_nat (xdr_padding dataLen)).

Definition WriteXDROpaque (data : bytes) : bytes :=
  let length := u32 (Z.of_nat (length data)) in
  WriteUint32 length ++ data ++ WriteXDRPadding length.
Definition WriteXDRString (s : bytes) : bytes :=
  let length := u32 (Z.of_nat (length s)) in
  WriteUint32 length ++ s ++ WriteXDRPadding length.

Definition EncodeUnionDiscriminant (disc : Z) : bytes := WriteUint32 disc.

(** ** Readers *)

Definition i32 (x : Z) : Z := (x + 2 ^ 31) mod 2 ^ 32 - 2 ^ 31.
Definition in_i32 (x : Z) : Prop := - 2 ^ 31 <= x < 2 ^ 31.

Definition Dec (A : Type) : Type := bytes -> option A * bytes.

#[export] Instance Dec_ret : MRet Dec := fun A a r => (Some a, r).
#[export] Instance Dec_bind : MBind Dec := fun A B k m r =>
  match m r with
  | (None, r') => (None, r')
  | (Some a, r') => k a r'
  end.

#[export] Instance Dec_fmap : FMap Dec := fun A B f m => m ≫= fun a => mret (f a).

Definition dec_fail {A} : Dec A := fun r => (None, r).

(** [io.ReadFull] into a buffer of [n] bytes. *)
Definition ReadFull (n : nat) : Dec bytes := fun r =>
  if (length r <? n)%nat then (None, []) else (Some (take n r), drop n r).

Definition DecodeUint32 : Dec Z := be_decode <$> ReadFull 4.
Definition DecodeUint64 : Dec Z := be_decode <$> ReadFull 8.
Definition DecodeInt32 : Dec Z := (fun b => i32 (be_decode b)) <$> ReadFull 4.
Definition DecodeInt64 : Dec Z := (fun b => i64 (be_decode b)) <$> ReadFull 8.
Definition DecodeBool : Dec bool := v ← DecodeUint32; mret (negb (v =? 0)).
Definition DecodeUnionDiscriminant : Dec Z := DecodeUint32.

Definition maxOpaqueLength : Z := 1024 * 1024.

Definition DecodeOpaque : Dec bytes :=
  length ← DecodeUint32;
  if length >? maxOpaqueLength then dec_fail
  else
    data ← ReadFull (Z.to_nat length);
    let padding := xdr_padding length in
    (if padding >? 0 then (_ ← ReadFull (Z.to_nat padding); mret data) else mret data).
Definition DecodeString : Dec bytes := DecodeOpaque.

(** ** Sequences

    An [Encode] method writes its fields one after the other and stops at the
    first that fails; a variable-length array is its count and its elements, and
    its decoder refuses a count above the limit. *)

Fixpoint enc_cat (l : list (option bytes)) : option bytes :=
  match l with
  | [] => Some []
  | e :: l => b ← e; r ← enc_cat l; Some (b ++ r)
  end.

Definition enc_array {A} (enc : A -> option bytes) (l : list A) : option bytes :=
  enc_cat (Some (WriteUint32 (u32 (Z.of_nat (length l)))) :: (enc <$> l)).

Fixpoint dec_times {A} (n : nat) (dec : Dec A) : Dec (list A) :=
  match n with
  | O => mret []
  | S n => x ← dec; l ← dec_times n dec; mret (x :: l)
  end.

Definition dec_array {A} (max : Z) (dec : Dec A) : Dec (list A) :=
  count ← DecodeUint32;
  if count >? max then dec_fail else dec_times (Z.to_nat count) dec.

(** ** Decoding what was encoded *)

(** [d] reads [a] off the bytes [bs] and nothing more. *)
Definition reads {A} (d : Dec A) (a : A) (bs : bytes) : Prop := forall rest, d (bs ++ rest) = (Some a, rest).

(** [e] succeeds with bytes from which [d] reads [a]. *)
Definition codes {A} (e : option bytes) (d : Dec A) (a : A) : Prop := exists bs, e = Some bs /\ reads d a bs.

Lemma reads_ret {A} (a : A) : reads (mret a) a [].
Proof. done. Qed.

Lemma reads_bind {A B} (m : Dec A) (k : A -> Dec B) a b l r :
  reads m a l -> reads (k a) b r -> reads (m ≫= k) b (l ++ r).
Proof. intros Hm Hk rest. unfold mbind, Dec_bind. now rewrite <- app_assoc, Hm, Hk. Qed.

Lemma reads_fmap {A B} (f : A -> B) (m : Dec A) a l : reads m a l -> reads (f <$> m) (f a) l.
Proof. intros H rest. unfold fmap, Dec_fmap, mbind, Dec_bind. now rewrite H. Qed.

Lemma reads_full n bs : length bs = n -> reads (ReadFull n) bs bs.
Proof.
  intros <- rest. unfold ReadFull. rewrite length_app.
  destruct (Nat.ltb_spec (length bs + length rest) (length bs)); [lia|]. now rewrite take_app_length, drop_app_length.
Qed.

Lemma reads_be {B} n (f : Z -> B) v :
  0 <= v < 256 ^ Z.of_nat n -> reads ((fun b => f (be_decode b)) <$> ReadFull n) (f v) (be_encode n v).
Proof.
  intros Hv. rewrite <- (be_decode_encode n v Hv) at 1.
  apply (reads_fmap (fun b => f (be_decode b))), reads_full, be_encode_length.
Qed.

Lemma reads_uint32 v : in_u32 v -> reads DecodeUint32 v (WriteUint32 v).
Proof. intros H. apply (reads_be 4 id v). unfold in_u32 in H. cbn. lia. Qed.

Lemma reads_uint64 v : in_u64 v -> reads DecodeUint64 v (WriteUint64 v).
Proof. intros H. apply (reads_be 8 id v). unfold in_u64 in H. cbn. lia. Qed.

Lemma i32_u32 v : in_i32 v -> i32 (u32 v) = v.
Proof.
  unfold in_i32, i32, u32, wrap. intros H. rewrite Zplus_mod_idemp_l, Z.mod_small by lia. lia.
Qed.

Lemma reads_int32 v : in_i32 v -> reads DecodeInt32 v (WriteInt32 v).
Proof. intros H. rewrite <- (i32_u32 v H) at 1. apply (reads_be 4 i32). pose proof (u32_range v). unfold in_u32 in *. cbn. lia. Qed.

Lemma reads_int64 v : in_i64 v -> reads DecodeInt64 v (WriteInt64 v).
Proof. intros H. rewrite <- (i64_u64 v H) at 1. apply (reads_be 8 i64). pose proof (u64_range v). unfold in_u64 in *. cbn. lia. Qed.

Lemma reads_bool v : reads DecodeBool v (WriteBool v).
Proof.
  intros rest. unfold DecodeBool, WriteBool, mbind, Dec_bind. rewrite reads_uint32 by (unfold in_u32; destruct v; lia).
  now destruct v.
Qed.

Definition opaque_ok (b : bytes) : Prop := Z.of_nat (length b) <= maxOpaqueLength.

Lemma padding_length n : length (WriteXDRPadding n) = Z.to_nat (xdr_padding n).
Proof. apply repeat_length. Qed.

Lemma padding_range n : 0 <= xdr_padding n < 4.
Proof. apply Z.mod_pos_bound. lia. Qed.

Lemma reads_opaque b : opaque_ok b -> reads DecodeOpaque b (WriteXDROpaque b).
Proof.
  unfold opaque_ok, maxOpaqueLength. intros H. unfold WriteXDROpaque.
  set (n := u32 (Z.of_nat (length b))).
  assert (n = Z.of_nat (length b)) as En by (apply u32_small; unfold in_u32; lia).
  apply reads_bind with n; [apply reads_uint32; unfold in_u32; lia|].
  unfold maxOpaqueLength. destruct (n >? _) eqn:E; [lia|]. apply reads_bind with b; [apply reads_full; lia|].
  cbv zeta. pose proof (padding_range n). destruct (xdr_padding n >? 0) eqn:Ep.
  - rewrite <- (app_nil_r (WriteXDRPadding n)). apply reads_bind with (WriteXDRPadding n); [|apply reads_ret].
    apply reads_full, padding_length.
  - unfold WriteXDRPadding. replace (xdr_padding n) with 0 by lia. apply reads_ret.
Qed.

(** *** The same for encoders that may fail *)

Lemma codes_of {A} (d : Dec A) a bs : reads d a bs -> codes (Some bs) d a.
Proof. exists bs. auto. Qed.

Lemma codes_done {A} (a : A) : codes (enc_cat []) (mret a) a.
Proof. apply codes_of, reads_ret. Qed.

Lemma codes_cat {A B} e l (m : Dec A) (k : A -> Dec B) a b :
  codes e m a -> codes (enc_cat l) (k a) b -> codes (enc_cat (e :: l)) (m ≫= k) b.
Proof.
  intros (x & -> & Hx) (y & Ey & Hy). cbn. rewrite Ey. apply codes_of. now apply reads_bind with a.
Qed.

(** A last field needs no continuation. *)
Lemma codes_last {A} e (m : Dec A) a : codes e m a -> codes (enc_cat [e]) m a.
Proof. intros (x & -> & Hx). cbn. rewrite app_nil_r. now apply codes_of. Qed.

Lemma codes_uint32 v : in_u32 v -> codes (Some (WriteUint32 v)) DecodeUint32 v.
Proof. auto using codes_of, reads_uint32. Qed.
Lemma codes_uint64 v : in_u64 v -> codes (Some (WriteUint64 v)) DecodeUint64 v.
Proof. auto using codes_of, reads_uint64. Qed.
Lemma codes_int64 v : in_i64 v -> codes (Some (WriteInt64 v)) DecodeInt64 v.
Proof. auto using codes_of, reads_int64. Qed.
Lemma codes_bool v : codes (Some (WriteBool v)) DecodeBool v.
Proof. auto using codes_of, reads_bool. Qed.
Lemma codes_opaque b : opaque_ok b -> codes (Some (WriteXDROpaque b)) DecodeOpaque b.
Proof. auto using codes_of, reads_opaque. Qed.
Lemma codes_string b : opaque_ok b -> codes (Some (WriteXDRString b)) DecodeString b.
Proof. apply codes_opaque. Qed.
Lemma codes_fixed n b : length b = n -> codes (Some b) (ReadFull n) b.
Proof. auto using codes_of, reads_full. Qed.

Lemma codes_times {A} (enc : A -> option bytes) dec l :
  Forall (fun x => codes (enc x) dec x) l -> codes (enc_cat (enc <$> l)) (dec_times (length l) dec) l.
Proof.
  induction 1 as [|x l Hx Hl (bs & E & IH)]; [apply codes_done|].
  cbn [fmap list_fmap length dec_times]. apply codes_cat with x; [done|].
  exists bs. split; [done|]. rewrite <- (app_nil_r bs). apply reads_bind with l; [done|apply reads_ret].
Qed.

Lemma codes_array {A} (enc : A -> option bytes) dec max l :
  Forall (fun x => codes (enc x) dec x) l -> Z.of_nat (length l) <= max -> max < 2 ^ 32 ->
  codes (enc_array enc l) (dec_array max dec) l.
Proof.
  intros Hl Hn Hm. unfold enc_array, dec_array.
  rewrite u32_small by (unfold in_u32; lia). apply codes_cat with (Z.of_nat (length l)); [apply codes_uint32; unfold in_u32; lia|].
  destruct (Z.of_nat (length l) >? max) eqn:E; [lia|]. rewrite Nat2Z.id. now apply codes_times.
Qed.

Create HintDb xdr.
#[export] Hint Resolve codes_uint32 codes_uint64 codes_int64 codes_bool codes_opaque codes_string codes_fixed : xdr.

(** Field by field; what a field must satisfy is left to [eauto with xdr]. *)
Ltac xdr_fields :=
  repeat first
    [ apply codes_done
    | eapply codes_cat; [solve [eauto with xdr]|] ].
