(* ===== verification/Nfs4Grace.v ===== *)
(** * The NFSv4 grace period ([internal/adapter/nfs/v4/state/grace.go])

    After a restart the server waits, for at most a configured duration, until
    every client it knew has reclaimed its state.  Clients are expected by number
    and by stable identity.  Every method holds the mutex from start to end, so
    it is one step, but [ReclaimComplete], which releases it between recording
    the completion and counting the reclaim, and is two; the timer of
    [startGrace] is the step [EvTimer].  The end callback is counted
    ([g_ends]). *)

From S2P Require Import Prelude.

Record GracePeriodState := mkGrace {
  g_active : bool;
  g_duration : Z;
  g_startedAt : Z;
  g_timer : bool;
  g_expectedClients : gset Z;
  g_reclaimedClients : gset Z;
  g_expectedClientStrings : gset string;
  g_reclaimedClientStrings : gset string;
  g_reclaimCompleted : gset Z;
  g_ends : nat;
}.

Definition NewGracePeriodState (duration : Z) : GracePeriodState :=
  mkGrace false duration 0 false ∅ ∅ ∅ ∅ ∅ 0.

Definition startGrace (now : Z) (expectedClientIDs : list Z) (expectedClientStrings : list string)
    (g : GracePeriodState) : GracePeriodState :=
  if g_active g then g
  else match expectedClientIDs, expectedClientStrings with
  | [], [] => g
  | _, _ =>
      mkGrace true (g_duration g) now true (list_to_set expectedClientIDs) ∅
        (list_to_set expectedClientStrings) ∅ ∅ (g_ends g)
  end.

Definition StartGrace (now : Z) (ids : list Z) : GracePeriodState -> GracePeriodState := startGrace now ids [].
Definition StartGraceWithRoster (now : Z) (ids : list Z) (strings : list string)
    : GracePeriodState -> GracePeriodState := startGrace now ids strings.

Definition allReclaimedLocked (g : GracePeriodState) : bool :=
  if (size (g_reclaimedClients g) <? size (g_expectedClients g))%nat then false
  else if (size (g_reclaimedClientStrings g) <? size (g_expectedClientStrings g))%nat then false
  else true.

Definition IsInGrace (g : GracePeriodState) : bool := g_active g.

(** [g.active = false], the timer stopped, and the callback run or not. *)
Definition deactivate (callback : bool) (g : GracePeriodState) : GracePeriodState :=
  mkGrace false (g_duration g) (g_startedAt g) false (g_expectedClients g) (g_reclaimedClients g)
    (g_expectedClientStrings g) (g_reclaimedClientStrings g) (g_reclaimCompleted g)
    (if callback then S (g_ends g) else g_ends g).

Definition maybeEndEarlyLocked (g : GracePeriodState) : GracePeriodState :=
  if allReclaimedLocked g then deactivate true g else g.

Definition with_reclaimed (ids : gset Z) (strings : gset string) (completed : gset Z) (g : GracePeriodState)
    : GracePeriodState :=
  mkGrace (g_active g) (g_duration g) (g_startedAt g) (g_timer g) (g_expectedClients g) ids
    (g_expectedClientStrings g) strings completed (g_ends g).

Definition ClientReclaimed (clientID : Z) (g : GracePeriodState) : GracePeriodState :=
  if negb (g_active g) then g
  else if negb (bool_decide (clientID ∈ g_expectedClients g)) then g
  else maybeEndEarlyLocked
    (with_reclaimed ({[clientID]} ∪ g_reclaimedClients g) (g_reclaimedClientStrings g) (g_reclaimCompleted g) g).

Definition ClientReclaimedByString (clientIDString : string) (g : GracePeriodState) : GracePeriodState :=
  if negb (g_active g) then g
  else if negb (bool_decide (clientIDString ∈ g_expectedClientStrings g)) then g
  else maybeEndEarlyLocked
    (with_reclaimed (g_reclaimedClients g) ({[clientIDString]} ∪ g_reclaimedClientStrings g)
       (g_reclaimCompleted g) g).

Definition Stop (g : GracePeriodState) : GracePeriodState := deactivate false g.

Definition endGraceWithReason (g : GracePeriodState) : GracePeriodState :=
  if negb (g_active g) then g else deactivate true g.

Definition ForceEnd : GracePeriodState -> GracePeriodState := endGraceWithReason.

(** The first critical section of [ReclaimComplete]: [None] for
    NFS4ERR_COMPLETE_ALREADY, else whether the period was active. *)
Definition mark_complete (clientID : Z) (g : GracePeriodState) : GracePeriodState * option bool :=
  if bool_decide (clientID ∈ g_reclaimCompleted g) then (g, None)
  else (with_reclaimed (g_reclaimedClients g) (g_reclaimedClientStrings g) ({[clientID]} ∪ g_reclaimCompleted g) g,
        Some (g_active g)).

(** [true]: accepted; [false]: NFS4ERR_COMPLETE_ALREADY.  Here nothing comes
    between the two critical sections; in [run_event] they are steps of their
    own. *)
Definition ReclaimComplete (clientID : Z) (g : GracePeriodState) : GracePeriodState * bool :=
  match mark_complete clientID g with
  | (g, None) => (g, false)
  | (g, Some isActive) => (if isActive then ClientReclaimed clientID g else g, true)
  end.

Record GraceStatusInfo := mkGraceStatusInfo {
  gs_Active : bool;
  gs_Remaining : Z;
  gs_TotalDuration : Z;
  gs_ExpectedClients : nat;
  gs_ReclaimedClients : nat;
  gs_StartedAt : Z;
}.

Definition Status (now : Z) (g : GracePeriodState) : GraceStatusInfo :=
  mkGraceStatusInfo (g_active g) (if g_active g then Z.max 0 (g_duration g - (now - g_startedAt g)) else 0)
    (g_duration g) (size (g_expectedClients g)) (size (g_reclaimedClients g)) (g_startedAt g).

(** ** Runs *)

(** A RECLAIM_COMPLETE is [EvMarkComplete] and, when that found the period active,
    [EvReclaimed], with whatever other steps in between. *)
Inductive event :=
  | EvStart (now : Z) (ids : list Z) (strings : list string)
  | EvReclaimed (clientID : Z)
  | EvReclaimedString (s : string)
  | EvMarkComplete (clientID : Z)
  | EvTimer
  | EvForceEnd
  | EvStop.

Definition run_event (e : event) (g : GracePeriodState) : GracePeriodState :=
  match e with
  | EvStart now ids strings => startGrace now ids strings g
  | EvReclaimed c => ClientReclaimed c g
  | EvReclaimedString s => ClientReclaimedByString s g
  | EvMarkComplete c => (mark_complete c g).1
  | EvTimer => if g_timer g then endGraceWithReason g else g
  | EvForceEnd => ForceEnd g
  | EvStop => Stop g
  end.

Definition run_events (es : list event) (g : GracePeriodState) : GracePeriodState :=
  fold_left (fun g e => run_event e g) es g.

(** A client that the period still waits for. *)
Definition waiting (g : GracePeriodState) : Prop :=
  (exists c, c ∈ g_expectedClients g /\ c ∉ g_reclaimedClients g) \/
  (exists s, s ∈ g_expectedClientStrings g /\ s ∉ g_reclaimedClientStrings g).

Record grace_ok (g : GracePeriodState) : Prop := mkGraceOk {
  go_ids : g_reclaimedClients g ⊆ g_expectedClients g;
  go_strings : g_reclaimedClientStrings g ⊆ g_expectedClientStrings g;
  go_timer : g_timer g = g_active g;
  go_waiting : g_active g = true -> waiting g;
}.

Lemma missing_iff `{Countable A} (x y : gset A) :
  x ⊆ y -> (size x < size y)%nat <-> exists a, a ∈ y /\ a ∉ x.
Proof.
  intros Hs. split.
  - intros Hlt. destruct (decide (y ⊆ x)) as [Hyx|Hn].
    + apply subseteq_size in Hyx. lia.
    + destruct (decide (y ∖ x = ∅)) as [E|E]; [by apply empty_difference_subseteq_L in E|]. apply set_choose_L in E as [a Ha]. set_solver.
  - intros (a & Ha & Hn). apply subset_size. set_solver.
Qed.

Lemma allReclaimed_waiting g :
  g_reclaimedClients g ⊆ g_expectedClients g -> g_reclaimedClientStrings g ⊆ g_expectedClientStrings g ->
  if allReclaimedLocked g then ~ waiting g else waiting g.
Proof.
  intros H1 H2. unfold allReclaimedLocked, waiting.
  pose proof (missing_iff _ _ H1) as E1. pose proof (missing_iff _ _ H2) as E2.
  destruct (Nat.ltb_spec (size (g_reclaimedClients g)) (size (g_expectedClients g))); [left; now apply E1|].
  destruct (Nat.ltb_spec (size (g_reclaimedClientStrings g)) (size (g_expectedClientStrings g)));
    [right; now apply E2|]. intros [H'%E1|H'%E2]; lia.
Qed.

Lemma maybeEndEarly_ok g :
  g_reclaimedClients g ⊆ g_expectedClients g -> g_reclaimedClientStrings g ⊆ g_expectedClientStrings g ->
  g_active g = true -> g_timer g = true ->
  grace_ok (maybeEndEarlyLocked g) /\ (g_active (maybeEndEarlyLocked g) = false <-> ~ waiting g).
Proof.
  intros H1 H2 Ha Ht. pose proof (allReclaimed_waiting g H1 H2) as E. unfold maybeEndEarlyLocked.
  destruct (allReclaimedLocked g).
  - repeat split; done.
  - split; [split; congruence || done|]. rewrite Ha. split; [discriminate|done].
Qed.

Lemma reclaimed_ok ids strings completed g :
  grace_ok g -> g_active g = true -> ids ⊆ g_expectedClients g -> strings ⊆ g_expectedClientStrings g ->
  let g1 := with_reclaimed ids strings completed g in
  grace_ok (maybeEndEarlyLocked g1) /\ (g_active (maybeEndEarlyLocked g1) = false <-> ~ waiting g1).
Proof. intros [_ _ Ht _] Ha H1 H2. apply maybeEndEarly_ok; cbn; congruence || done. Qed.

Lemma start_ok now ids strings g : grace_ok g -> grace_ok (startGrace now ids strings g).
Proof.
  intros Hg. unfold startGrace. destruct (g_active g) eqn:Ea; [done|].
  destruct ids as [|c ids]; [destruct strings as [|s strings]; [done|]|]; split; cbn; try set_solver; intros _.
  - right. exists s. set_solver.
  - left. exists c. set_solver.
Qed.

Lemma ClientReclaimed_ok c g : grace_ok g -> grace_ok (ClientReclaimed c g).
Proof.
  intros Hg. unfold ClientReclaimed. destruct (g_active g) eqn:Ea; [|done]. cbn [negb].
  case_bool_decide as Hc; [|done]. apply reclaimed_ok; try done; [|apply Hg]. destruct Hg. set_solver.
Qed.

Lemma run_event_ok e g : grace_ok g -> grace_ok (run_event e g).
Proof.
  intros Hg. destruct e; cbn [run_event].
  - now apply start_ok.
  - now apply ClientReclaimed_ok.
  - unfold ClientReclaimedByString. destruct (g_active g) eqn:Ea; [|done]. cbn [negb].
    case_bool_decide as Hc; [|done]. apply reclaimed_ok; try done; [apply Hg|]. destruct Hg. set_solver.
  - unfold mark_complete. case_bool_decide; [done|]. destruct Hg. split; cbn; done.
  - destruct (g_timer g); [|done]. unfold endGraceWithReason.
    destruct (g_active g) eqn:Ea; [|done]. destruct Hg. split; cbn; done.
  - unfold ForceEnd, endGraceWithReason. destruct (g_active g) eqn:Ea; [|done]. destruct Hg. split; cbn; done.
  - destruct Hg. split; cbn; done.
Qed.

Lemma reachable_ok d es : grace_ok (run_events es (NewGracePeriodState d)).
Proof.
  unfold run_events. rewrite <- fold_left_rev_right. induction (rev es) as [|e l IH]; cbn.
  - split; cbn; done.
  - now apply run_event_ok.
Qed.

(** ** The specification

    The clients, by number and by identity, that the period still waits for, or
    [None] when there is no period; and how often the end was announced. *)
Record GraceSpec := mkGraceSpec { gp_missing : option (gset Z * gset string); gp_announced : nat }.

(** A period that waits for nobody is over. *)
Definition wait_for (ids : gset Z) (strings : gset string) : option (gset Z * gset string) :=
  if bool_decide (ids = ∅ /\ strings = ∅) then None else Some (ids, strings).

Definition spec_missing (e : event) (w : option (gset Z * gset string)) : option (gset Z * gset string) :=
  match e, w with
  | EvStart _ ids strings, None => wait_for (list_to_set ids) (list_to_set strings)
  | EvReclaimed c, Some (ids, strings) => wait_for (ids ∖ {[c]}) strings
  | EvReclaimedString s, Some (ids, strings) => wait_for ids (strings ∖ {[s]})
  | EvTimer, _ | EvForceEnd, _ | EvStop, _ => None
  | _, w => w
  end.

(** The end of a period is announced, unless the server stops. *)
Definition announces (e : event) (before after : option (gset Z * gset string)) : bool :=
  match e, before, after with
  | EvStop, _, _ => false
  | _, Some _, None => true
  | _, _, _ => false
  end.

Definition spec_event (sp : GraceSpec) (e : event) : GraceSpec :=
  let after := spec_missing e (gp_missing sp) in
  mkGraceSpec after (if announces e (gp_missing sp) after then S (gp_announced sp) else gp_announced sp).

Definition spec_events (es : list event) : GraceSpec := fold_left spec_event es (mkGraceSpec None 0).

(** What the state says of it. *)
Definition missing_of (g : GracePeriodState) : option (gset Z * gset string) :=
  if g_active g then
    Some (g_expectedClients g ∖ g_reclaimedClients g, g_expectedClientStrings g ∖ g_reclaimedClientStrings g)
  else None.
Definition spec_of (g : GracePeriodState) : GraceSpec := mkGraceSpec (missing_of g) (g_ends g).

Lemma wait_for_waiting g :
  wait_for (g_expectedClients g ∖ g_reclaimedClients g) (g_expectedClientStrings g ∖ g_reclaimedClientStrings g) <> None <-> waiting g.
Proof.
  unfold wait_for, waiting. case_bool_decide as E.
  - split; [done|]. intros [(c & H1 & H2)|(s & H1 & H2)]; set_solver.
  - split; [intros _|done]. apply not_and_l in E as [E|E]; apply set_choose_L in E as [x Hx]; [left|right]; exists x; set_solver.
Qed.

Lemma spec_of_end g :
  grace_ok g -> g_active g = true -> forall ids strings,
  ids ⊆ g_expectedClients g -> strings ⊆ g_expectedClientStrings g ->
  let g1 := maybeEndEarlyLocked (with_reclaimed ids strings (g_reclaimCompleted g) g) in
  missing_of g1 = wait_for (g_expectedClients g ∖ ids) (g_expectedClientStrings g ∖ strings) /\
  g_ends g1 = if g_active g1 then g_ends g else S (g_ends g).
Proof.
  intros Hg Ha ids strings H1 H2 g1. set (g0 := with_reclaimed ids strings (g_reclaimCompleted g) g) in *.
  pose proof (allReclaimed_waiting g0 H1 H2) as Hw. pose proof (wait_for_waiting g0) as Hf. cbn in Hf.
  unfold g1, maybeEndEarlyLocked in *. destruct (allReclaimedLocked g0).
  - split; [|done]. cbn. symmetry. destruct (wait_for _ _); [exfalso; apply Hw, Hf; done|done].
  - unfold missing_of. cbn. rewrite Ha. split; [|done]. apply Hf in Hw. unfold wait_for in *. case_bool_decide; done.
Qed.

Lemma missing_nonempty g ids strings :
  grace_ok g -> missing_of g = Some (ids, strings) -> wait_for ids strings = Some (ids, strings).
Proof.
  intros Hg. unfold missing_of. destruct (g_active g) eqn:Ea; [|done]. intros [= <- <-].
  pose proof (proj2 (wait_for_waiting g) (go_waiting _ Hg Ea)) as H. unfold wait_for in *. case_bool_decide; done.
Qed.

Lemma list_to_set_cons_ne `{Countable A} (x : A) l : (list_to_set (x :: l) : gset A) <> ∅.
Proof. intros E. assert (x ∈ (list_to_set (x :: l) : gset A)) as Hx by set_solver. rewrite E in Hx. set_solver. Qed.

Lemma spec_of_event e g : grace_ok g -> spec_of (run_event e g) = spec_event (spec_of g) e.
Proof.
  intros Hg. unfold spec_event, spec_of. cbn [gp_missing gp_announced].
  assert (forall w, w = missing_of g -> announces e w w = false) as Hsame by (intros [[? ?]|] _; destruct e; done).
  assert (forall ids strings, missing_of g = Some (ids, strings) -> wait_for ids strings = missing_of g) as Hne.
  { intros ids strings E. rewrite E. eapply missing_nonempty; eauto. }
  assert (missing_of g = if g_active g then Some (g_expectedClients g ∖ g_reclaimedClients g, g_expectedClientStrings g ∖ g_reclaimedClientStrings g)
          else None) as Em by done.
  destruct (g_active g) eqn:Ea; rewrite Em; destruct e; cbn [run_event spec_missing announces].
  - unfold startGrace. now rewrite Ea, Em.
  - unfold ClientReclaimed. rewrite Ea. cbn [negb]. case_bool_decide as Hc; cbn [negb].
    + destruct (spec_of_end g Hg Ea ({[clientID]} ∪ g_reclaimedClients g) (g_reclaimedClientStrings g)) as [E1 E2];
        [destruct Hg; set_solver|apply Hg|]. rewrite difference_difference_l_L, (union_comm_L _ {[clientID]}).
      rewrite <- E1, E2. set (g1 := maybeEndEarlyLocked _). unfold missing_of. now destruct (g_active g1).
    + replace (g_expectedClients g ∖ g_reclaimedClients g ∖ {[clientID]}) with (g_expectedClients g ∖ g_reclaimedClients g) by set_solver.
      rewrite (Hne _ _ Em), Em. done.
  - unfold ClientReclaimedByString. rewrite Ea. cbn [negb]. case_bool_decide as Hc; cbn [negb].
    + destruct (spec_of_end g Hg Ea (g_reclaimedClients g) ({[s]} ∪ g_reclaimedClientStrings g)) as [E1 E2];
        [apply Hg|destruct Hg; set_solver|]. rewrite difference_difference_l_L, (union_comm_L _ {[s]}).
      rewrite <- E1, E2. set (g1 := maybeEndEarlyLocked _). unfold missing_of. now destruct (g_active g1).
    + replace (g_expectedClientStrings g ∖ g_reclaimedClientStrings g ∖ {[s]}) with (g_expectedClientStrings g ∖ g_reclaimedClientStrings g) by set_solver.
      rewrite (Hne _ _ Em), Em. done.
  - unfold mark_complete. case_bool_decide; [now rewrite <- Em|]. unfold missing_of. cbn. now rewrite Ea.
  - rewrite (go_timer _ Hg), Ea. unfold endGraceWithReason. rewrite Ea. done.
  - unfold ForceEnd, endGraceWithReason. rewrite Ea. done.
  - done.
  - unfold startGrace. rewrite Ea. destruct ids as [|c ids]; [destruct strings as [|s strings]|].
    + unfold wait_for. rewrite bool_decide_true by done. now rewrite Em.
    + unfold wait_for. rewrite bool_decide_false by (intros [_ E]; exact (list_to_set_cons_ne _ _ E)). unfold missing_of. cbn. do 2 f_equal. f_equal; set_solver.
    + unfold wait_for. rewrite bool_decide_false by (intros [E _]; exact (list_to_set_cons_ne _ _ E)). unfold missing_of. cbn. do 2 f_equal. f_equal; set_solver.
  - unfold ClientReclaimed. rewrite Ea. cbn [negb]. now rewrite Em.
  - unfold ClientReclaimedByString. rewrite Ea. cbn [negb]. now rewrite Em.
  - unfold mark_complete. case_bool_decide; cbn [fst]; [now rewrite Em|]. unfold missing_of. cbn. now rewrite Ea.
  - rewrite (go_timer _ Hg), Ea, Em. done.
  - unfold ForceEnd, endGraceWithReason. rewrite Ea. cbn [negb]. now rewrite Em.
  - done.
Qed.

(** C27: the grace period is active exactly while it waits for somebody.  In every
    run the state of the server is that of the specification: a start with
    expected clients, when no period is active, begins one that waits for exactly
    these; a reclaim takes its client off, by number or by identity, and the period
    ends with the last one; the timer and an operator end it at once; reclaims of
    others, completions and further starts change nothing; and every end is
    announced once, except the one of a server that stops.  The server is in grace
    exactly when somebody is missing. *)
Theorem grace_period_exact d es :
  let g := run_events es (NewGracePeriodState d) in
  spec_of g = spec_events es /\
  (IsInGrace g = true <-> exists ids strings, gp_missing (spec_events es) = Some (ids, strings) /\ (ids <> ∅ \/ strings <> ∅)).
Proof.
  cbn zeta. assert (spec_of (run_events es (NewGracePeriodState d)) = spec_events es) as E.
  { induction es as [|e es IH] using rev_ind; [reflexivity|]. unfold run_events, spec_events in *. rewrite !fold_left_app. cbn [fold_left].
    rewrite <- IH. apply spec_of_event. apply (reachable_ok d es). }
  split; [exact E|]. rewrite <- E. pose proof (reachable_ok d es) as Hg. set (g := run_events es _) in *. clearbody g.
  unfold IsInGrace, spec_of, missing_of. cbn [gp_missing]. destruct (g_active g) eqn:Ea.
  - split; [intros _|done]. eexists _, _. split; [reflexivity|]. destruct (go_waiting _ Hg Ea) as [(c & H1 & H2)|(s & H1 & H2)]; set_solver.
  - split; [discriminate|]. intros (? & ? & ? & _). discriminate.
Qed.

(** A period of two clients, one by number and one by identity. *)
Example grace_demo :
  let es := [EvStart 5 [1; 2] ["a"%string]; EvReclaimed 1; EvMarkComplete 2; EvReclaimed 2] in
  IsInGrace (run_events es (NewGracePeriodState 90)) = true /\
  IsInGrace (run_events (es ++ [EvReclaimedString "a"]) (NewGracePeriodState 90)) = false /\
  g_ends (run_events (es ++ [EvReclaimedString "a"]) (NewGracePeriodState 90)) = 1%nat.
Proof. vm_compute. auto. Qed.

(** RECLAIM_COMPLETE is accepted once per client and grace period. *)
Lemma ReclaimComplete_once c g :
  (ReclaimComplete c (ReclaimComplete c g).1).2 = false.
Proof.
  assert (c ∈ g_reclaimCompleted (ReclaimComplete c g).1) as Hin.
  { unfold ReclaimComplete, mark_complete. case_bool_decide as Hc; cbn [fst]; [done|].
    destruct (g_active g); [|set_solver]. unfold ClientReclaimed, maybeEndEarlyLocked. repeat case_match; cbn; set_solver. }
  unfold ReclaimComplete at 1, mark_complete. now rewrite bool_decide_true.
Qed.
