(* ===== verification/Nfs4Types.v ===== *)
(** * NFSv4 state: data ([internal/adapter/nfs/v4/state])

    Client records, open-owners, opens, lock-owners, lock states, delegations and
    the [StateManager] that holds them.  Go's pointers are addresses into a heap
    per type: several tables refer to one object, objects refer to each other, and
    an object outlives its table entries (a closed owner kept for replay, a
    client record whose timer still runs).

    Times are nanoseconds, 0 is the zero time; a method reads the clock once.
    File handles and owner names are byte strings.  Locks are in the unified lock
    manager of the share a handle belongs to ([LockManager]). *)

From S2P Require Import Prelude.
From S2P Require Import SlotTable.
From S2P Require Import LockTypes.
From S2P Require Import LockManager.
From S2P Require Import Nfs4Grace.

(** ** Constants *)

Definition NFS4_OK : Z := 0.
Definition NFS4ERR_INVAL : Z := 22.
Definition NFS4ERR_SERVERFAULT : Z := 10006.
Definition NFS4ERR_EXPIRED : Z := 10011.
Definition NFS4ERR_GRACE : Z := 10013.
Definition NFS4ERR_SHARE_DENIED : Z := 10015.
Definition NFS4ERR_RESOURCE : Z := 10018.
Definition NFS4ERR_STALE_CLIENTID : Z := 10022.
Definition NFS4ERR_STALE_STATEID : Z := 10023.
Definition NFS4ERR_OLD_STATEID : Z := 10024.
Definition NFS4ERR_BAD_STATEID : Z := 10025.
Definition NFS4ERR_BAD_SEQID : Z := 10026.
Definition NFS4ERR_NO_GRACE : Z := 10033.
Definition NFS4ERR_LOCKS_HELD : Z := 10037.
Definition NFS4ERR_OPENMODE : Z := 10038.
Definition NFS4ERR_BADSESSION : Z := 10052.
Definition NFS4ERR_COMPLETE_ALREADY : Z := 10054.
Definition NFS4ERR_CLIENTID_BUSY : Z := 10074.

Definition OPEN4_SHARE_ACCESS_READ : Z := 1.
Definition OPEN4_SHARE_ACCESS_WRITE : Z := 2.
Definition CLAIM_NULL : Z := 0.
Definition CLAIM_PREVIOUS : Z := 1.
Definition OPEN4_RESULT_CONFIRM : Z := 2.
Definition OPEN4_RESULT_LOCKTYPE_POSIX : Z := 4.
Definition OPEN_DELEGATE_NONE : Z := 0.
Definition OPEN_DELEGATE_READ : Z := 1.
Definition OPEN_DELEGATE_WRITE : Z := 2.
Definition READ_LT : Z := 1.
Definition WRITE_LT : Z := 2.
Definition READW_LT : Z := 3.
Definition WRITEW_LT : Z := 4.

Definition StateTypeOpen : Z := 1.
Definition StateTypeLock : Z := 2.
Definition StateTypeDeleg : Z := 3.

Definition DefaultLeaseDuration : Z := 90 * 10 ^ 9.
Definition RecentlyRecalledTTL : Z := 30 * 10 ^ 9.

(** ** Stateids *)

Definition Other : Type := list Z.
Definition NFS4_OTHER_SIZE : nat := 12.

Record Stateid4 := mkStateid { Seqid : Z; si_Other : Other }.

Definition zeroStateid : Stateid4 := mkStateid 0 (repeat 0 NFS4_OTHER_SIZE).

Definition isAnonymous (s : Stateid4) : bool := (Seqid s =? 0) && forallb (fun b => b =? 0) (si_Other s).
Definition isReadBypass (s : Stateid4) : bool :=
  (Seqid s =? 0xFFFFFFFF) && forallb (fun b => b =? 0xFF) (si_Other s).
Definition IsSpecialStateid (s : Stateid4) : bool := isAnonymous s || isReadBypass s.

Definition isSpecialOther (other : Other) : bool :=
  forallb (fun b => b =? 0) other || forallb (fun b => b =? 0xFF) other.

(** The 8 bytes of [x], most significant first. *)
Definition be64 (x : Z) : list Z := rev (le_encode 8 x).

Definition epochBytes (bootEpoch : Z) : list Z :=
  [u8 (Z.shiftr bootEpoch 16); u8 (Z.shiftr bootEpoch 8); u8 bootEpoch].

Definition stateid_other (stateType bootEpoch seq : Z) : Other :=
  [stateType] ++ epochBytes bootEpoch ++ be64 seq.

Definition currentEpoch (bootEpoch : Z) (other : Other) : bool :=
  bool_decide (take 3 (drop 1 other) = epochBytes bootEpoch).

Definition stateType (other : Other) : Z := default 0 (other !! 0%nat).

(** ** Errors *)

Inductive NErr :=
  | NFS4StateError (status : Z)
  | ReplayError (status : Z) (data : bytes)
  | ErrStaleClientID
  | ErrClientIDInUse
  | NPlainError
  | NPanic.

(** ** Objects *)

Abbreviation ptr := nat.

Record LeaseState := mkLease { le_Duration : Z; le_LastRenew : Z; le_stopped : bool }.

Definition NewLeaseState (duration now : Z) : LeaseState := mkLease duration now false.
Definition Renew (now : Z) (l : LeaseState) : LeaseState :=
  if le_stopped l then l else mkLease (le_Duration l) now false.
Definition IsExpired (now : Z) (l : LeaseState) : bool := le_Duration l <? now - le_LastRenew l.
Definition StopLease (l : LeaseState) : LeaseState := mkLease (le_Duration l) (le_LastRenew l) true.
Definition RemainingTime (now : Z) (l : LeaseState) : Z :=
  let elapsed := now - le_LastRenew l in
  if le_Duration l <=? elapsed then 0 else le_Duration l - elapsed.
(** Whether a timer that goes off calls [onExpire]. *)
Definition lease_fires (now : Z) (l : LeaseState) : bool :=
  negb (le_stopped l) && negb (now - le_LastRenew l <? le_Duration l).

Record CallbackInfo := mkCallback { cb_Program : Z; cb_NetID : string; cb_Addr : string }.

Record ClientRecord := mkClient {
  cr_ClientID : Z;
  cr_ClientIDString : string;
  cr_Verifier : bytes;
  cr_ConfirmVerifier : bytes;
  cr_Confirmed : bool;
  cr_Callback : CallbackInfo;
  cr_ClientAddr : string;
  cr_Principal : string;
  cr_CreatedAt : Z;
  cr_LastRenewal : Z;
  cr_Lease : option LeaseState;
  cr_OpenOwners : gmap string ptr;
  cr_CBPathUp : bool;
}.

Record CachedResult := mkCached { ca_Status : Z; ca_Data : bytes }.

Record OpenOwner := mkOpenOwner {
  oo_ClientID : Z;
  oo_OwnerData : string;
  oo_LastSeqID : Z;
  oo_LastResult : option CachedResult;
  oo_Confirmed : bool;
  oo_OpenStates : list ptr;
  oo_ClientRecord : option ptr;
}.

Record OpenState := mkOpenState {
  os_Stateid : Stateid4;
  os_Owner : ptr;
  os_FileHandle : string;
  os_ShareAccess : Z;
  os_ShareDeny : Z;
  os_Confirmed : bool;
  os_LockStates : list ptr;
}.

Record V4LockOwner := mkV4LockOwner {
  l4_ClientID : Z;
  l4_OwnerData : string;
  l4_LastSeqID : Z;
  l4_LastResult : option CachedResult;
  l4_ClientRecord : option ptr;
}.

Record LockState := mkLockState {
  ls_Stateid : Stateid4;
  ls_LockOwner : ptr;
  ls_OpenState : ptr;
  ls_FileHandle : string;
}.

Record DelegationState := mkDelegState {
  ds_Stateid : Stateid4;
  ds_ClientID : Z;
  ds_FileHandle : string;
  ds_DelegType : Z;
  ds_RecallSent : bool;
  ds_RecallTime : Z;
  ds_Revoked : bool;
  ds_RecallTimer : bool;
  ds_IsDirectory : bool;
  ds_NotificationMask : Z;
  ds_LockManagerDelegID : string;
}.

(** ** Owner keys *)

Definition hex_char (n : Z) : Ascii.ascii :=
  Ascii.ascii_of_N (Z.to_N (if n <? 10 then 48 + n else 87 + n)).

Fixpoint hex_EncodeToString (s : string) : string :=
  match s with
  | EmptyString => EmptyString
  | String a s =>
      let b := Z.of_N (Ascii.N_of_ascii a) in
      String (hex_char (b / 16)) (String (hex_char (b mod 16)) (hex_EncodeToString s))
  end.

(** [%d] *)
Definition fmt_d (n : Z) : string :=
  match n with Zneg p => "-" +:+ dec_string (Npos p) | _ => dec_string (Z.to_N n) end.

Definition makeOwnerKey (clientID : Z) (ownerData : string) : string :=
  fmt_d clientID +:+ ":" +:+ hex_EncodeToString ownerData.
Definition makeLockOwnerKey (clientID : Z) (ownerData : string) : string := makeOwnerKey clientID ownerData.

Definition oo_Key (o : OpenOwner) : string := makeOwnerKey (oo_ClientID o) (oo_OwnerData o).
Definition l4_Key (o : V4LockOwner) : string := makeLockOwnerKey (l4_ClientID o) (l4_OwnerData o).

Definition lockManagerOwnerID (clientID : Z) (ownerData : string) : string :=
  "nfs4:" +:+ makeLockOwnerKey clientID ownerData.
Definition LockManagerOwnerID (o : V4LockOwner) : string :=
  lockManagerOwnerID (l4_ClientID o) (l4_OwnerData o).

(** ** The state manager *)

Record V4ClientRecoveryRecord := mkRecovery {
  rr_ClientID : Z;
  rr_ClientIDString : string;
  rr_BootVerifier : bytes;
  rr_Principal : string;
  rr_ConfirmedAt : Z;
  rr_ServerEpoch : Z;
  rr_ReclaimComplete : bool;
}.

Record Heap := mkHeap {
  h_clients : gmap ptr ClientRecord;
  h_owners : gmap ptr OpenOwner;
  h_opens : gmap ptr OpenState;
  h_lowners : gmap ptr V4LockOwner;
  h_locks : gmap ptr LockState;
  h_delegs : gmap ptr DelegationState;
  h_next : ptr;
}.

Record Tables := mkTables {
  clientsByID : gmap Z ptr;
  clientsByName : gmap string ptr;
  unconfirmedByName : gmap string ptr;
  openStateByOther : gmap Other ptr;
  openStateByFile : gmap string (list ptr);
  openOwners : gmap string ptr;
  closedOwnerByOther : gmap Other ptr;
  lockOwners : gmap string ptr;
  lockStateByOther : gmap Other ptr;
}.

Record DelegTables := mkDelegTables {
  delegByOther : gmap Other ptr;
  delegByFile : gmap string (list ptr);
  revokedDelegCount : gmap Z Z;
  delegStateidMap : gmap string Stateid4;
  recentlyRecalled : gmap string Z;
  recentlyRecalledTTL : Z;
  delegationsEnabled : bool;
  maxDelegations : Z;
}.

(** [sm_calls] numbers the calls that draw UUIDs or random bytes; [sm_recalls]
    is the list of delegations a CB_RECALL was dispatched for. *)
Record StateManager := mkSM {
  sm_heap : Heap;
  sm_tab : Tables;
  sm_del : DelegTables;
  sm_lms : gmap string Manager;
  sm_bootEpoch : Z;
  sm_nextClientSeq : Z;
  sm_nextStateSeq : Z;
  sm_leaseDuration : Z;
  sm_graceDuration : Z;
  sm_grace : option GracePeriodState;
  sm_recovery : option (gmap string V4ClientRecoveryRecord);
  sm_serverEpoch : Z;
  sm_bootVerifiers : gmap string bytes;
  sm_calls : nat;
  sm_recalls : list ptr;
}.

(** ** Updates *)

Definition with_heap (h : Heap) (s : StateManager) : StateManager :=
  mkSM h (sm_tab s) (sm_del s) (sm_lms s) (sm_bootEpoch s) (sm_nextClientSeq s) (sm_nextStateSeq s)
    (sm_leaseDuration s) (sm_graceDuration s) (sm_grace s) (sm_recovery s) (sm_serverEpoch s)
    (sm_bootVerifiers s) (sm_calls s) (sm_recalls s).
Definition with_tab (x : Tables) (s : StateManager) : StateManager :=
  mkSM (sm_heap s) x (sm_del s) (sm_lms s) (sm_bootEpoch s) (sm_nextClientSeq s) (sm_nextStateSeq s)
    (sm_leaseDuration s) (sm_graceDuration s) (sm_grace s) (sm_recovery s) (sm_serverEpoch s)
    (sm_bootVerifiers s) (sm_calls s) (sm_recalls s).
Definition with_del (x : DelegTables) (s : StateManager) : StateManager :=
  mkSM (sm_heap s) (sm_tab s) x (sm_lms s) (sm_bootEpoch s) (sm_nextClientSeq s) (sm_nextStateSeq s)
    (sm_leaseDuration s) (sm_graceDuration s) (sm_grace s) (sm_recovery s) (sm_serverEpoch s)
    (sm_bootVerifiers s) (sm_calls s) (sm_recalls s).
Definition with_lms (x : gmap string Manager) (s : StateManager) : StateManager :=
  mkSM (sm_heap s) (sm_tab s) (sm_del s) x (sm_bootEpoch s) (sm_nextClientSeq s) (sm_nextStateSeq s)
    (sm_leaseDuration s) (sm_graceDuration s) (sm_grace s) (sm_recovery s) (sm_serverEpoch s)
    (sm_bootVerifiers s) (sm_calls s) (sm_recalls s).
Definition with_counters (c st : Z) (calls : nat) (s : StateManager) : StateManager :=
  mkSM (sm_heap s) (sm_tab s) (sm_del s) (sm_lms s) (sm_bootEpoch s) c st
    (sm_leaseDuration s) (sm_graceDuration s) (sm_grace s) (sm_recovery s) (sm_serverEpoch s)
    (sm_bootVerifiers s) calls (sm_recalls s).
Definition with_grace (g : option GracePeriodState) (s : StateManager) : StateManager :=
  mkSM (sm_heap s) (sm_tab s) (sm_del s) (sm_lms s) (sm_bootEpoch s) (sm_nextClientSeq s) (sm_nextStateSeq s)
    (sm_leaseDuration s) (sm_graceDuration s) g (sm_recovery s) (sm_serverEpoch s)
    (sm_bootVerifiers s) (sm_calls s) (sm_recalls s).
Definition with_recovery (r : option (gmap string V4ClientRecoveryRecord)) (v : gmap string bytes)
    (s : StateManager) : StateManager :=
  mkSM (sm_heap s) (sm_tab s) (sm_del s) (sm_lms s) (sm_bootEpoch s) (sm_nextClientSeq s) (sm_nextStateSeq s)
    (sm_leaseDuration s) (sm_graceDuration s) (sm_grace s) r (sm_serverEpoch s) v (sm_calls s) (sm_recalls s).
Definition with_recalls (l : list ptr) (s : StateManager) : StateManager :=
  mkSM (sm_heap s) (sm_tab s) (sm_del s) (sm_lms s) (sm_bootEpoch s) (sm_nextClientSeq s) (sm_nextStateSeq s)
    (sm_leaseDuration s) (sm_graceDuration s) (sm_grace s) (sm_recovery s) (sm_serverEpoch s)
    (sm_bootVerifiers s) (sm_calls s) l.

Definition set_clients (x : gmap ptr ClientRecord) (h : Heap) : Heap :=
  mkHeap x (h_owners h) (h_opens h) (h_lowners h) (h_locks h) (h_delegs h) (h_next h).
Definition set_owners (x : gmap ptr OpenOwner) (h : Heap) : Heap :=
  mkHeap (h_clients h) x (h_opens h) (h_lowners h) (h_locks h) (h_delegs h) (h_next h).
Definition set_opens (x : gmap ptr OpenState) (h : Heap) : Heap :=
  mkHeap (h_clients h) (h_owners h) x (h_lowners h) (h_locks h) (h_delegs h) (h_next h).
Definition set_lowners (x : gmap ptr V4LockOwner) (h : Heap) : Heap :=
  mkHeap (h_clients h) (h_owners h) (h_opens h) x (h_locks h) (h_delegs h) (h_next h).
Definition set_locks (x : gmap ptr LockState) (h : Heap) : Heap :=
  mkHeap (h_clients h) (h_owners h) (h_opens h) (h_lowners h) x (h_delegs h) (h_next h).
Definition set_delegs (x : gmap ptr DelegationState) (h : Heap) : Heap :=
  mkHeap (h_clients h) (h_owners h) (h_opens h) (h_lowners h) (h_locks h) x (h_next h).
Definition set_next (n : ptr) (h : Heap) : Heap :=
  mkHeap (h_clients h) (h_owners h) (h_opens h) (h_lowners h) (h_locks h) (h_delegs h) n.

Definition set_clientsByID (x : gmap Z ptr) (t : Tables) : Tables :=
  mkTables x (clientsByName t) (unconfirmedByName t) (openStateByOther t) (openStateByFile t) (openOwners t)
    (closedOwnerByOther t) (lockOwners t) (lockStateByOther t).
Definition set_clientsByName (x : gmap string ptr) (t : Tables) : Tables :=
  mkTables (clientsByID t) x (unconfirmedByName t) (openStateByOther t) (openStateByFile t) (openOwners t)
    (closedOwnerByOther t) (lockOwners t) (lockStateByOther t).
Definition set_unconfirmedByName (x : gmap string ptr) (t : Tables) : Tables :=
  mkTables (clientsByID t) (clientsByName t) x (openStateByOther t) (openStateByFile t) (openOwners t)
    (closedOwnerByOther t) (lockOwners t) (lockStateByOther t).
Definition set_openStates (x : gmap Other ptr) (y : gmap string (list ptr)) (t : Tables) : Tables :=
  mkTables (clientsByID t) (clientsByName t) (unconfirmedByName t) x y (openOwners t)
    (closedOwnerByOther t) (lockOwners t) (lockStateByOther t).
Definition set_openOwners (x : gmap string ptr) (t : Tables) : Tables :=
  mkTables (clientsByID t) (clientsByName t) (unconfirmedByName t) (openStateByOther t) (openStateByFile t) x
    (closedOwnerByOther t) (lockOwners t) (lockStateByOther t).
Definition set_closedOwners (x : gmap Other ptr) (t : Tables) : Tables :=
  mkTables (clientsByID t) (clientsByName t) (unconfirmedByName t) (openStateByOther t) (openStateByFile t)
    (openOwners t) x (lockOwners t) (lockStateByOther t).
Definition set_lockOwners (x : gmap string ptr) (t : Tables) : Tables :=
  mkTables (clientsByID t) (clientsByName t) (unconfirmedByName t) (openStateByOther t) (openStateByFile t)
    (openOwners t) (closedOwnerByOther t) x (lockStateByOther t).
Definition set_lockStates (x : gmap Other ptr) (t : Tables) : Tables :=
  mkTables (clientsByID t) (clientsByName t) (unconfirmedByName t) (openStateByOther t) (openStateByFile t)
    (openOwners t) (closedOwnerByOther t) (lockOwners t) x.

(** ** Operations

    A method is a function on the state that returns a value or an error; an
    error keeps the changes made before it. *)

Definition Op (A : Type) : Type := StateManager -> (NErr + A) * StateManager.

#[export] Instance Op_ret : MRet Op := fun A a s => (inr a, s).
#[export] Instance Op_bind : MBind Op := fun A B k m s =>
  match m s with
  | (inl e, s') => (inl e, s')
  | (inr a, s') => k a s'
  end.

Definition op_throw {A} (e : NErr) : Op A := fun s => (inl e, s).
Definition op_gets {A} (f : StateManager -> A) : Op A := fun s => (inr (f s), s).
Definition op_modify (f : StateManager -> StateManager) : Op unit := fun s => (inr tt, f s).
(** [if !ok { return err }] *)
Definition op_check (ok : bool) (e : NErr) : Op unit := if ok then mret tt else op_throw e.
(** [v, ok := m[k]; if !ok { return err }] *)
Definition op_need {A} (o : option A) (e : NErr) : Op A :=
  match o with Some a => mret a | None => op_throw e end.

Definition heap_mod (f : Heap -> Heap) : Op unit := op_modify (fun s => with_heap (f (sm_heap s)) s).
Definition tab_mod (f : Tables -> Tables) : Op unit := op_modify (fun s => with_tab (f (sm_tab s)) s).
Definition del_mod (f : DelegTables -> DelegTables) : Op unit := op_modify (fun s => with_del (f (sm_del s)) s).

(** Reading through a pointer. *)
Definition deref {A} (sel : Heap -> gmap ptr A) (p : ptr) : Op A := fun s =>
  match sel (sm_heap s) !! p with Some x => (inr x, s) | None => (inl NPanic, s) end.

(** [&T{...}] *)
Definition new_obj {A} (sel : Heap -> gmap ptr A) (set : gmap ptr A -> Heap -> Heap) (x : A) : Op ptr := fun s =>
  let h := sm_heap s in
  (inr (h_next h), with_heap (set_next (S (h_next h)) (set (<[h_next h := x]> (sel h)) h)) s).

(** Writing through a pointer. *)
Definition upd_client (p : ptr) (f : ClientRecord -> ClientRecord) : Op unit :=
  heap_mod (fun h => set_clients (alter f p (h_clients h)) h).
Definition upd_owner (p : ptr) (f : OpenOwner -> OpenOwner) : Op unit :=
  heap_mod (fun h => set_owners (alter f p (h_owners h)) h).
Definition upd_open (p : ptr) (f : OpenState -> OpenState) : Op unit :=
  heap_mod (fun h => set_opens (alter f p (h_opens h)) h).
Definition upd_lowner (p : ptr) (f : V4LockOwner -> V4LockOwner) : Op unit :=
  heap_mod (fun h => set_lowners (alter f p (h_lowners h)) h).
Definition upd_lock (p : ptr) (f : LockState -> LockState) : Op unit :=
  heap_mod (fun h => set_locks (alter f p (h_locks h)) h).
Definition upd_deleg (p : ptr) (f : DelegationState -> DelegationState) : Op unit :=
  heap_mod (fun h => set_delegs (alter f p (h_delegs h)) h).

(** What the state manager gets from elsewhere: the share a handle belongs to
    (the resolver set at start-up), random bytes, UUIDs, and what the lock manager
    looks like once conflicting leases were broken and the wait for them ended
    ([None]: the request was cancelled), during which other protocols run. *)
Class Nfs4Lib := {
  share_of : string -> option string;
  random : nat -> bytes;
  uuids : nat -> nat -> string;
  drained : string -> LockOwner -> Manager -> option Manager;
}.
