(* ===== verification/Nfs41Wire.v ===== *)
(** * NFSv4.1 session operations on the wire ([internal/adapter/nfs/v4/types])

    The argument and result structures of EXCHANGE_ID, CREATE_SESSION,
    DESTROY_SESSION, BIND_CONN_TO_SESSION, BACKCHANNEL_CTL, SEQUENCE,
    DESTROY_CLIENTID, RECLAIM_COMPLETE, FREE_STATEID and TEST_STATEID with their
    [Encode] and [Decode] methods.  Go strings and byte slices are lists of bytes;
    a structure's [_ok] says which values the wire can carry: integers of their
    width, opaques up to the decoder's limit, arrays up to theirs, union arms that
    are not selected empty. *)

From S2P Require Import Prelude.
From S2P Require Import SlotTable.
From S2P Require Import Xdr.
From S2P Require Import Nfs4Grace.
From S2P Require Import Nfs4Types.

(** ** Constants *)

Definition NFS4_SESSIONID_SIZE : nat := 16.
Definition NFS4_VERIFIER_SIZE : nat := 8.
Definition SP4_NONE : Z := 0.
Definition SP4_MACH_CRED : Z := 1.
Definition SP4_SSV : Z := 2.
Definition CDFC4_FORE : Z := 0x1.
Definition CDFC4_BACK : Z := 0x2.
Definition CDFC4_FORE_OR_BOTH : Z := 0x3.
Definition CDFC4_BACK_OR_BOTH : Z := 0x7.
Definition CDFS4_FORE : Z := 0x1.
Definition CDFS4_BACK : Z := 0x2.
Definition CDFS4_BOTH : Z := 0x3.

(** ** Shared structures *)

Definition SessionId4 : Type := bytes.
Definition SessionId4_Encode (s : SessionId4) : option bytes := Some s.
Definition SessionId4_Decode : Dec SessionId4 := ReadFull NFS4_SESSIONID_SIZE.
Definition session_id_ok (s : SessionId4) : Prop := length s = NFS4_SESSIONID_SIZE.

Definition Bitmap4 : Type := list Z.
Definition Bitmap4_Encode (b : Bitmap4) : option bytes := enc_array (fun v => Some (WriteUint32 v)) b.
Definition Bitmap4_Decode : Dec Bitmap4 := dec_array 256 DecodeUint32.
Definition bitmap_ok (b : Bitmap4) : Prop := Forall in_u32 b /\ Z.of_nat (length b) <= 256.

Record ClientOwner4 := mkClientOwner { co_Verifier : bytes; co_OwnerID : bytes }.
Definition ClientOwner4_Encode (c : ClientOwner4) : option bytes :=
  enc_cat [Some (co_Verifier c); Some (WriteXDROpaque (co_OwnerID c))].
Definition ClientOwner4_Decode : Dec ClientOwner4 :=
  v ← ReadFull NFS4_VERIFIER_SIZE; o ← DecodeOpaque; mret (mkClientOwner v o).
Definition client_owner_ok (c : ClientOwner4) : Prop :=
  length (co_Verifier c) = NFS4_VERIFIER_SIZE /\ opaque_ok (co_OwnerID c).

Record ServerOwner4 := mkServerOwner { so_MinorID : Z; so_MajorID : bytes }.
Definition ServerOwner4_Encode (s : ServerOwner4) : option bytes :=
  enc_cat [Some (WriteUint64 (so_MinorID s)); Some (WriteXDROpaque (so_MajorID s))].
Definition ServerOwner4_Decode : Dec ServerOwner4 :=
  m ← DecodeUint64; o ← DecodeOpaque; mret (mkServerOwner m o).
Definition server_owner_ok (s : ServerOwner4) : Prop := in_u64 (so_MinorID s) /\ opaque_ok (so_MajorID s).

Record NfsImplId4 := mkImplId { im_Domain : bytes; im_Name : bytes; im_Seconds : Z; im_Nseconds : Z }.
Definition NfsImplId4_Encode (n : NfsImplId4) : option bytes :=
  enc_cat [Some (WriteXDRString (im_Domain n)); Some (WriteXDRString (im_Name n));
           Some (WriteInt64 (im_Seconds n)); Some (WriteUint32 (im_Nseconds n))].
Definition NfsImplId4_Decode : Dec NfsImplId4 :=
  domain ← DecodeString; name ← DecodeString; seconds ← DecodeInt64; nseconds ← DecodeUint32;
  mret (mkImplId domain name seconds nseconds).
Definition impl_id_ok (n : NfsImplId4) : Prop :=
  opaque_ok (im_Domain n) /\ opaque_ok (im_Name n) /\ in_i64 (im_Seconds n) /\ in_u32 (im_Nseconds n).

Record ChannelAttrs := mkChannelAttrs {
  ca_HeaderPadSize : Z;
  ca_MaxRequestSize : Z;
  ca_MaxResponseSize : Z;
  ca_MaxResponseSizeCached : Z;
  ca_MaxOperations : Z;
  ca_MaxRequests : Z;
  ca_RdmaIrd : list Z;
}.
Definition ChannelAttrs_Encode (c : ChannelAttrs) : option bytes :=
  enc_cat [Some (WriteUint32 (ca_HeaderPadSize c)); Some (WriteUint32 (ca_MaxRequestSize c));
           Some (WriteUint32 (ca_MaxResponseSize c)); Some (WriteUint32 (ca_MaxResponseSizeCached c));
           Some (WriteUint32 (ca_MaxOperations c)); Some (WriteUint32 (ca_MaxRequests c));
           enc_array (fun v => Some (WriteUint32 v)) (ca_RdmaIrd c)].
Definition ChannelAttrs_Decode : Dec ChannelAttrs :=
  pad ← DecodeUint32; req ← DecodeUint32; resp ← DecodeUint32; cached ← DecodeUint32; ops ← DecodeUint32;
  reqs ← DecodeUint32; ird ← dec_array 1 DecodeUint32;
  mret (mkChannelAttrs pad req resp cached ops reqs ird).
Definition channel_attrs_ok (c : ChannelAttrs) : Prop :=
  in_u32 (ca_HeaderPadSize c) /\ in_u32 (ca_MaxRequestSize c) /\ in_u32 (ca_MaxResponseSize c) /\
  in_u32 (ca_MaxResponseSizeCached c) /\ in_u32 (ca_MaxOperations c) /\ in_u32 (ca_MaxRequests c) /\
  Forall in_u32 (ca_RdmaIrd c) /\ Z.of_nat (length (ca_RdmaIrd c)) <= 1.

(** [StateProtect4A] and [StateProtect4R] have the same fields and the same text. *)
Record StateProtect4A := mkStateProtect {
  sp_How : Z;
  sp_MachOps : Bitmap4;
  sp_EnforceOps : Bitmap4;
  sp_Ssv : bytes;
}.
Definition StateProtect4A_Encode (s : StateProtect4A) : option bytes :=
  if sp_How s =? SP4_NONE then enc_cat [Some (EncodeUnionDiscriminant (sp_How s))]
  else if sp_How s =? SP4_MACH_CRED then
    enc_cat [Some (EncodeUnionDiscriminant (sp_How s)); Bitmap4_Encode (sp_MachOps s); Bitmap4_Encode (sp_EnforceOps s)]
  else if sp_How s =? SP4_SSV then
    enc_cat [Some (EncodeUnionDiscriminant (sp_How s)); Some (WriteXDROpaque (sp_Ssv s))]
  else None.
Definition StateProtect4A_Decode : Dec StateProtect4A :=
  how ← DecodeUnionDiscriminant;
  if how =? SP4_NONE then mret (mkStateProtect how [] [] [])
  else if how =? SP4_MACH_CRED then
    mach ← Bitmap4_Decode; enforce ← Bitmap4_Decode; mret (mkStateProtect how mach enforce [])
  else if how =? SP4_SSV then ssv ← DecodeOpaque; mret (mkStateProtect how [] [] ssv)
  else dec_fail.
Definition StateProtect4R_Encode (s : StateProtect4A) : option bytes := StateProtect4A_Encode s.
Definition StateProtect4R_Decode : Dec StateProtect4A := StateProtect4A_Decode.
Definition state_protect_ok (s : StateProtect4A) : Prop :=
  sp_How s = SP4_NONE /\ sp_MachOps s = [] /\ sp_EnforceOps s = [] /\ sp_Ssv s = [] \/
  sp_How s = SP4_MACH_CRED /\ bitmap_ok (sp_MachOps s) /\ bitmap_ok (sp_EnforceOps s) /\ sp_Ssv s = [] \/
  sp_How s = SP4_SSV /\ sp_MachOps s = [] /\ sp_EnforceOps s = [] /\ opaque_ok (sp_Ssv s).

Record AuthSysParms := mkAuthSys { au_Stamp : Z; au_MachineName : bytes; au_UID : Z; au_GID : Z; au_GIDs : list Z }.

(** The zero value a nil pointer stands for. *)
Definition zeroAuthSys : AuthSysParms := mkAuthSys 0 [] 0 0 [].

Record CallbackSecParms4 := mkSecParms {
  cs_CbSecFlavor : Z;
  cs_AuthSysParms : option AuthSysParms;
  cs_RpcGssData : bytes;
}.
Definition CallbackSecParms4_Encode (c : CallbackSecParms4) : option bytes :=
  let disc := Some (EncodeUnionDiscriminant (cs_CbSecFlavor c)) in
  if cs_CbSecFlavor c =? 0 then enc_cat [disc]
  else if cs_CbSecFlavor c =? 1 then
    let p := default zeroAuthSys (cs_AuthSysParms c) in
    enc_cat [disc; Some (WriteUint32 (au_Stamp p)); Some (WriteXDRString (au_MachineName p));
             Some (WriteUint32 (au_UID p)); Some (WriteUint32 (au_GID p));
             enc_array (fun v => Some (WriteUint32 v)) (au_GIDs p)]
  else if cs_CbSecFlavor c =? 6 then enc_cat [disc; Some (WriteXDROpaque (cs_RpcGssData c))]
  else None.
Definition CallbackSecParms4_Decode : Dec CallbackSecParms4 :=
  flavor ← DecodeUnionDiscriminant;
  if flavor =? 0 then mret (mkSecParms flavor None [])
  else if flavor =? 1 then
    stamp ← DecodeUint32; name ← DecodeString; uid ← DecodeUint32; gid ← DecodeUint32;
    gids ← dec_array 16 DecodeUint32;
    mret (mkSecParms flavor (Some (mkAuthSys stamp name uid gid gids)) [])
  else if flavor =? 6 then data ← DecodeOpaque; mret (mkSecParms flavor None data)
  else dec_fail.
Definition auth_sys_ok (p : AuthSysParms) : Prop :=
  in_u32 (au_Stamp p) /\ opaque_ok (au_MachineName p) /\ in_u32 (au_UID p) /\ in_u32 (au_GID p) /\
  Forall in_u32 (au_GIDs p) /\ Z.of_nat (length (au_GIDs p)) <= 16.
Definition sec_parms_ok (c : CallbackSecParms4) : Prop :=
  cs_CbSecFlavor c = 0 /\ cs_AuthSysParms c = None /\ cs_RpcGssData c = [] \/
  cs_CbSecFlavor c = 1 /\ (exists p, cs_AuthSysParms c = Some p /\ auth_sys_ok p) /\ cs_RpcGssData c = [] \/
  cs_CbSecFlavor c = 6 /\ cs_AuthSysParms c = None /\ opaque_ok (cs_RpcGssData c).

Definition EncodeStateid4 (s : Stateid4) : option bytes :=
  enc_cat [Some (WriteUint32 (Seqid s)); Some (si_Other s)].
Definition DecodeStateid4 : Dec Stateid4 :=
  seqid ← DecodeUint32; other ← ReadFull NFS4_OTHER_SIZE; mret (mkStateid seqid other).
Definition stateid_ok (s : Stateid4) : Prop := in_u32 (Seqid s) /\ length (si_Other s) = NFS4_OTHER_SIZE.

(** ** Arguments *)

Record ExchangeIdArgs := mkExchangeIdArgs {
  eia_ClientOwner : ClientOwner4;
  eia_Flags : Z;
  eia_StateProtect : StateProtect4A;
  eia_ClientImplId : list NfsImplId4;
}.
Definition ExchangeIdArgs_Encode (a : ExchangeIdArgs) : option bytes :=
  enc_cat [ClientOwner4_Encode (eia_ClientOwner a); Some (WriteUint32 (eia_Flags a));
           StateProtect4A_Encode (eia_StateProtect a); enc_array NfsImplId4_Encode (eia_ClientImplId a)].
Definition ExchangeIdArgs_Decode : Dec ExchangeIdArgs :=
  owner ← ClientOwner4_Decode; flags ← DecodeUint32; sp ← StateProtect4A_Decode;
  impl ← dec_array 1 NfsImplId4_Decode; mret (mkExchangeIdArgs owner flags sp impl).

Record CreateSessionArgs := mkCreateSessionArgs {
  csa_ClientID : Z;
  csa_SequenceID : Z;
  csa_Flags : Z;
  csa_ForeChannelAttrs : ChannelAttrs;
  csa_BackChannelAttrs : ChannelAttrs;
  csa_CbProgram : Z;
  csa_CbSecParms : list CallbackSecParms4;
}.
Definition CreateSessionArgs_Encode (a : CreateSessionArgs) : option bytes :=
  enc_cat [Some (WriteUint64 (csa_ClientID a)); Some (WriteUint32 (csa_SequenceID a));
           Some (WriteUint32 (csa_Flags a)); ChannelAttrs_Encode (csa_ForeChannelAttrs a);
           ChannelAttrs_Encode (csa_BackChannelAttrs a); Some (WriteUint32 (csa_CbProgram a));
           enc_array CallbackSecParms4_Encode (csa_CbSecParms a)].
Definition CreateSessionArgs_Decode : Dec CreateSessionArgs :=
  clientID ← DecodeUint64; seqID ← DecodeUint32; flags ← DecodeUint32; fore ← ChannelAttrs_Decode;
  back ← ChannelAttrs_Decode; cbProg ← DecodeUint32; sec ← dec_array 64 CallbackSecParms4_Decode;
  mret (mkCreateSessionArgs clientID seqID flags fore back cbProg sec).

Record SequenceArgs := mkSequenceArgs {
  sa_SessionID : SessionId4;
  sa_SequenceID : Z;
  sa_SlotID : Z;
  sa_HighestSlotID : Z;
  sa_CacheThis : bool;
}.
Definition SequenceArgs_Encode (a : SequenceArgs) : option bytes :=
  enc_cat [SessionId4_Encode (sa_SessionID a); Some (WriteUint32 (sa_SequenceID a));
           Some (WriteUint32 (sa_SlotID a)); Some (WriteUint32 (sa_HighestSlotID a)); Some (WriteBool (sa_CacheThis a))].
Definition SequenceArgs_Decode : Dec SequenceArgs :=
  sid ← SessionId4_Decode; seqID ← DecodeUint32; slotID ← DecodeUint32; highSlot ← DecodeUint32; cache ← DecodeBool;
  mret (mkSequenceArgs sid seqID slotID highSlot cache).

Record BindConnToSessionArgs := mkBindArgs { bca_SessionID : SessionId4; bca_Dir : Z; bca_UseConnInRDMAMode : bool }.
Definition BindConnToSessionArgs_Encode (a : BindConnToSessionArgs) : option bytes :=
  enc_cat [SessionId4_Encode (bca_SessionID a); Some (WriteUint32 (bca_Dir a)); Some (WriteBool (bca_UseConnInRDMAMode a))].
Definition BindConnToSessionArgs_Decode : Dec BindConnToSessionArgs :=
  sid ← SessionId4_Decode; dir ← DecodeUint32; rdma ← DecodeBool; mret (mkBindArgs sid dir rdma).

Record BackchannelCtlArgs := mkBackchannelCtlArgs { bcc_CbProgram : Z; bcc_SecParms : list CallbackSecParms4 }.
Definition BackchannelCtlArgs_Encode (a : BackchannelCtlArgs) : option bytes :=
  enc_cat [Some (WriteUint32 (bcc_CbProgram a)); enc_array CallbackSecParms4_Encode (bcc_SecParms a)].
Definition BackchannelCtlArgs_Decode : Dec BackchannelCtlArgs :=
  cbProg ← DecodeUint32; sec ← dec_array 64 CallbackSecParms4_Decode; mret (mkBackchannelCtlArgs cbProg sec).

Definition DestroySessionArgs_Encode (sid : SessionId4) : option bytes := SessionId4_Encode sid.
Definition DestroySessionArgs_Decode : Dec SessionId4 := SessionId4_Decode.
Definition DestroyClientidArgs_Encode (clientID : Z) : option bytes := Some (WriteUint64 clientID).
Definition DestroyClientidArgs_Decode : Dec Z := DecodeUint64.
Definition ReclaimCompleteArgs_Encode (oneFS : bool) : option bytes := Some (WriteBool oneFS).
Definition ReclaimCompleteArgs_Decode : Dec bool := DecodeBool.
Definition FreeStateidArgs_Encode (s : Stateid4) : option bytes := EncodeStateid4 s.
Definition FreeStateidArgs_Decode : Dec Stateid4 := DecodeStateid4.
Definition TestStateidArgs_Encode (l : list Stateid4) : option bytes := enc_array EncodeStateid4 l.
Definition TestStateidArgs_Decode : Dec (list Stateid4) := dec_array 1024 DecodeStateid4.

(** ** Results

    A result that is not NFS4_OK is its status alone. *)

Record ExchangeIdRes := mkExchangeIdRes {
  eir_Status : Z;
  eir_ClientID : Z;
  eir_SequenceID : Z;
  eir_Flags : Z;
  eir_StateProtect : StateProtect4A;
  eir_ServerOwner : ServerOwner4;
  eir_ServerScope : bytes;
  eir_ServerImplId : list NfsImplId4;
}.
Definition ExchangeIdRes_Encode (r : ExchangeIdRes) : option bytes :=
  if negb (eir_Status r =? NFS4_OK) then Some (WriteUint32 (eir_Status r))
  else enc_cat [Some (WriteUint32 (eir_Status r)); Some (WriteUint64 (eir_ClientID r));
         Some (WriteUint32 (eir_SequenceID r)); Some (WriteUint32 (eir_Flags r));
         StateProtect4R_Encode (eir_StateProtect r); ServerOwner4_Encode (eir_ServerOwner r);
         Some (WriteXDROpaque (eir_ServerScope r)); enc_array NfsImplId4_Encode (eir_ServerImplId r)].
Definition zeroExchangeIdRes (status : Z) : ExchangeIdRes :=
  mkExchangeIdRes status 0 0 0 (mkStateProtect 0 [] [] []) (mkServerOwner 0 []) [] [].
Definition ExchangeIdRes_Decode : Dec ExchangeIdRes :=
  status ← DecodeUint32;
  if negb (status =? NFS4_OK) then mret (zeroExchangeIdRes status)
  else
    clientID ← DecodeUint64; seqID ← DecodeUint32; flags ← DecodeUint32; sp ← StateProtect4R_Decode;
    owner ← ServerOwner4_Decode; scope ← DecodeOpaque; impl ← dec_array 1 NfsImplId4_Decode;
    mret (mkExchangeIdRes status clientID seqID flags sp owner scope impl).

Record CreateSessionRes := mkCreateSessionRes {
  csr_Status : Z;
  csr_SessionID : SessionId4;
  csr_SequenceID : Z;
  csr_Flags : Z;
  csr_ForeChannelAttrs : ChannelAttrs;
  csr_BackChannelAttrs : ChannelAttrs;
}.
Definition CreateSessionRes_Encode (r : CreateSessionRes) : option bytes :=
  if negb (csr_Status r =? NFS4_OK) then Some (WriteUint32 (csr_Status r))
  else enc_cat [Some (WriteUint32 (csr_Status r)); SessionId4_Encode (csr_SessionID r);
         Some (WriteUint32 (csr_SequenceID r)); Some (WriteUint32 (csr_Flags r));
         ChannelAttrs_Encode (csr_ForeChannelAttrs r); ChannelAttrs_Encode (csr_BackChannelAttrs r)].
Definition zeroAttrs : ChannelAttrs := mkChannelAttrs 0 0 0 0 0 0 [].
Definition zeroCreateSessionRes (status : Z) : CreateSessionRes :=
  mkCreateSessionRes status (repeat 0 NFS4_SESSIONID_SIZE) 0 0 zeroAttrs zeroAttrs.
Definition CreateSessionRes_Decode : Dec CreateSessionRes :=
  status ← DecodeUint32;
  if negb (status =? NFS4_OK) then mret (zeroCreateSessionRes status)
  else
    sid ← SessionId4_Decode; seqID ← DecodeUint32; flags ← DecodeUint32;
    fore ← ChannelAttrs_Decode; back ← ChannelAttrs_Decode;
    mret (mkCreateSessionRes status sid seqID flags fore back).

Record SequenceRes := mkSequenceRes {
  sr_Status : Z;
  sr_SessionID : SessionId4;
  sr_SequenceID : Z;
  sr_SlotID : Z;
  sr_HighestSlotID : Z;
  sr_TargetHighestSlotID : Z;
  sr_StatusFlags : Z;
}.
Definition SequenceRes_Encode (r : SequenceRes) : option bytes :=
  if negb (sr_Status r =? NFS4_OK) then Some (WriteUint32 (sr_Status r))
  else enc_cat [Some (WriteUint32 (sr_Status r)); SessionId4_Encode (sr_SessionID r);
         Some (WriteUint32 (sr_SequenceID r)); Some (WriteUint32 (sr_SlotID r));
         Some (WriteUint32 (sr_HighestSlotID r)); Some (WriteUint32 (sr_TargetHighestSlotID r));
         Some (WriteUint32 (sr_StatusFlags r))].
Definition zeroSequenceRes (status : Z) : SequenceRes :=
  mkSequenceRes status (repeat 0 NFS4_SESSIONID_SIZE) 0 0 0 0 0.
Definition SequenceRes_Decode : Dec SequenceRes :=
  status ← DecodeUint32;
  if negb (status =? NFS4_OK) then mret (zeroSequenceRes status)
  else
    sid ← SessionId4_Decode; seqID ← DecodeUint32; slotID ← DecodeUint32; highSlot ← DecodeUint32;
    target ← DecodeUint32; flags ← DecodeUint32;
    mret (mkSequenceRes status sid seqID slotID highSlot target flags).

Record BindConnToSessionRes := mkBindRes { bcr_Status : Z; bcr_SessionID : SessionId4; bcr_Dir : Z; bcr_UseConnInRDMAMode : bool }.
Definition BindConnToSessionRes_Encode (r : BindConnToSessionRes) : option bytes :=
  if negb (bcr_Status r =? NFS4_OK) then Some (WriteUint32 (bcr_Status r))
  else enc_cat [Some (WriteUint32 (bcr_Status r)); SessionId4_Encode (bcr_SessionID r); Some (WriteUint32 (bcr_Dir r));
         Some (WriteBool (bcr_UseConnInRDMAMode r))].
Definition zeroBindRes (status : Z) : BindConnToSessionRes :=
  mkBindRes status (repeat 0 NFS4_SESSIONID_SIZE) 0 false.
Definition BindConnToSessionRes_Decode : Dec BindConnToSessionRes :=
  status ← DecodeUint32;
  if negb (status =? NFS4_OK) then mret (zeroBindRes status)
  else
    sid ← SessionId4_Decode; dir ← DecodeUint32; rdma ← DecodeBool;
    mret (mkBindRes status sid dir rdma).

(** BACKCHANNEL_CTL, DESTROY_SESSION, DESTROY_CLIENTID, RECLAIM_COMPLETE and
    FREE_STATEID return a status. *)
Definition StatusRes_Encode (status : Z) : option bytes := Some (WriteUint32 status).

Record TestStateidRes := mkTestStateidRes { tsr_Status : Z; tsr_StatusCodes : list Z }.
Definition TestStateidRes_Encode (r : TestStateidRes) : option bytes :=
  if tsr_Status r =? NFS4_OK
  then enc_cat [Some (WriteUint32 (tsr_Status r)); enc_array (fun v => Some (WriteUint32 v)) (tsr_StatusCodes r)]
  else Some (WriteUint32 (tsr_Status r)).
Definition TestStateidRes_Decode : Dec TestStateidRes :=
  status ← DecodeUint32;
  if status =? NFS4_OK then codes ← dec_array 1024 DecodeUint32; mret (mkTestStateidRes status codes)
  else mret (mkTestStateidRes status []).

(** ** Round trips *)

Lemma codes_session_id s : session_id_ok s -> codes (SessionId4_Encode s) SessionId4_Decode s.
Proof. intros H. now apply codes_fixed. Qed.

Lemma codes_uint32s max l :
  Forall in_u32 l -> Z.of_nat (length l) <= max -> max < 2 ^ 32 ->
  codes (enc_array (fun v => Some (WriteUint32 v)) l) (dec_array max DecodeUint32) l.
Proof. intros Hl. apply codes_array. eapply Forall_impl; [done|]. apply codes_uint32. Qed.

Lemma codes_bitmap b : bitmap_ok b -> codes (Bitmap4_Encode b) Bitmap4_Decode b.
Proof. intros [H1 H2]. apply codes_uint32s; [done|done|lia]. Qed.

#[export] Hint Resolve codes_session_id codes_uint32s codes_bitmap : xdr.
#[export] Hint Extern 1 (_ < 2 ^ 32) => lia : xdr.

(** An array of structures. *)
Lemma codes_array_of {A} (ok : A -> Prop) (enc : A -> option bytes) dec max l :
  (forall x, ok x -> codes (enc x) dec x) -> Forall ok l -> Z.of_nat (length l) <= max -> max < 2 ^ 32 ->
  codes (enc_array enc l) (dec_array max dec) l.
Proof. intros H Hl. apply codes_array. eapply Forall_impl; [done|]. apply H. Qed.

Lemma codes_client_owner c : client_owner_ok c -> codes (ClientOwner4_Encode c) ClientOwner4_Decode c.
Proof. destruct c. intros (? & ?). unfold ClientOwner4_Encode, ClientOwner4_Decode. xdr_fields. Qed.

Lemma codes_server_owner s : server_owner_ok s -> codes (ServerOwner4_Encode s) ServerOwner4_Decode s.
Proof. destruct s. intros (? & ?). unfold ServerOwner4_Encode, ServerOwner4_Decode. xdr_fields. Qed.

Lemma codes_impl_id n : impl_id_ok n -> codes (NfsImplId4_Encode n) NfsImplId4_Decode n.
Proof. destruct n. intros (? & ? & ? & ?). unfold NfsImplId4_Encode, NfsImplId4_Decode. xdr_fields. Qed.

Lemma codes_channel_attrs c : channel_attrs_ok c -> codes (ChannelAttrs_Encode c) ChannelAttrs_Decode c.
Proof.
  destruct c. intros (? & ? & ? & ? & ? & ? & ? & ?). unfold ChannelAttrs_Encode, ChannelAttrs_Decode. xdr_fields.
Qed.

Lemma codes_stateid s : stateid_ok s -> codes (EncodeStateid4 s) DecodeStateid4 s.
Proof. destruct s. intros (? & ?). unfold EncodeStateid4, DecodeStateid4. xdr_fields. Qed.

Lemma codes_impl_ids l : Forall impl_id_ok l -> Z.of_nat (length l) <= 1 ->
  codes (enc_array NfsImplId4_Encode l) (dec_array 1 NfsImplId4_Decode) l.
Proof. intros. apply codes_array_of with impl_id_ok; auto using codes_impl_id; lia. Qed.

(** The discriminant of a union, a value of its width. *)
Lemma codes_disc v : in_u32 v -> codes (Some (EncodeUnionDiscriminant v)) DecodeUnionDiscriminant v.
Proof. apply codes_uint32. Qed.

(** The discriminant decides which arm is written and read. *)
Ltac union_arm :=
  cbn [Z.eqb Pos.eqb]; cbv iota beta; eapply codes_cat; [apply codes_disc; unfold in_u32; lia|];
  cbn [Z.eqb Pos.eqb]; cbv iota beta.

Lemma codes_state_protect s : state_protect_ok s -> codes (StateProtect4A_Encode s) StateProtect4A_Decode s.
Proof.
  destruct s as [how mach enf ssv].
  unfold StateProtect4A_Encode, StateProtect4A_Decode, state_protect_ok, SP4_NONE, SP4_MACH_CRED, SP4_SSV.
  cbn [sp_How sp_MachOps sp_EnforceOps sp_Ssv].
  intros [(-> & -> & -> & ->)|[(-> & ? & ? & ->)|(-> & -> & -> & ?)]]; union_arm; xdr_fields.
Qed.

Lemma codes_sec_parms c : sec_parms_ok c -> codes (CallbackSecParms4_Encode c) CallbackSecParms4_Decode c.
Proof.
  destruct c as [fl au gss]. unfold CallbackSecParms4_Encode, CallbackSecParms4_Decode, sec_parms_ok.
  cbn [cs_CbSecFlavor cs_AuthSysParms cs_RpcGssData]. cbv zeta.
  intros [(-> & -> & ->)|[(-> & (p & -> & Hp) & ->)|(-> & -> & ?)]]; union_arm; cbn [default id]; [xdr_fields| |xdr_fields].
  destruct p. destruct Hp as (? & ? & ? & ? & ? & ?). xdr_fields.
Qed.

Lemma codes_sec_parms_list l : Forall sec_parms_ok l -> Z.of_nat (length l) <= 64 ->
  codes (enc_array CallbackSecParms4_Encode l) (dec_array 64 CallbackSecParms4_Decode) l.
Proof. intros. apply codes_array_of with sec_parms_ok; auto using codes_sec_parms; lia. Qed.

#[export] Hint Resolve codes_client_owner codes_server_owner codes_impl_ids codes_channel_attrs codes_stateid
  codes_state_protect codes_sec_parms_list : xdr.

Definition exchange_id_args_ok (a : ExchangeIdArgs) : Prop :=
  client_owner_ok (eia_ClientOwner a) /\ in_u32 (eia_Flags a) /\ state_protect_ok (eia_StateProtect a) /\
  Forall impl_id_ok (eia_ClientImplId a) /\ Z.of_nat (length (eia_ClientImplId a)) <= 1.
Definition create_session_args_ok (a : CreateSessionArgs) : Prop :=
  in_u64 (csa_ClientID a) /\ in_u32 (csa_SequenceID a) /\ in_u32 (csa_Flags a) /\
  channel_attrs_ok (csa_ForeChannelAttrs a) /\ channel_attrs_ok (csa_BackChannelAttrs a) /\
  in_u32 (csa_CbProgram a) /\ Forall sec_parms_ok (csa_CbSecParms a) /\ Z.of_nat (length (csa_CbSecParms a)) <= 64.
Definition sequence_args_ok (a : SequenceArgs) : Prop :=
  session_id_ok (sa_SessionID a) /\ in_u32 (sa_SequenceID a) /\ in_u32 (sa_SlotID a) /\ in_u32 (sa_HighestSlotID a).
Definition bind_args_ok (a : BindConnToSessionArgs) : Prop := session_id_ok (bca_SessionID a) /\ in_u32 (bca_Dir a).
Definition backchannel_ctl_args_ok (a : BackchannelCtlArgs) : Prop :=
  in_u32 (bcc_CbProgram a) /\ Forall sec_parms_ok (bcc_SecParms a) /\ Z.of_nat (length (bcc_SecParms a)) <= 64.
Definition stateids_ok (l : list Stateid4) : Prop := Forall stateid_ok l /\ Z.of_nat (length l) <= 1024.

(** A result that is not OK has its zero value otherwise. *)
Definition exchange_id_res_ok (r : ExchangeIdRes) : Prop :=
  in_u32 (eir_Status r) /\
  (eir_Status r <> NFS4_OK /\ r = zeroExchangeIdRes (eir_Status r) \/
   eir_Status r = NFS4_OK /\ in_u64 (eir_ClientID r) /\ in_u32 (eir_SequenceID r) /\ in_u32 (eir_Flags r) /\
   state_protect_ok (eir_StateProtect r) /\ server_owner_ok (eir_ServerOwner r) /\ opaque_ok (eir_ServerScope r) /\
   Forall impl_id_ok (eir_ServerImplId r) /\ Z.of_nat (length (eir_ServerImplId r)) <= 1).
Definition create_session_res_ok (r : CreateSessionRes) : Prop :=
  in_u32 (csr_Status r) /\
  (csr_Status r <> NFS4_OK /\ r = zeroCreateSessionRes (csr_Status r) \/
   csr_Status r = NFS4_OK /\ session_id_ok (csr_SessionID r) /\ in_u32 (csr_SequenceID r) /\ in_u32 (csr_Flags r) /\
   channel_attrs_ok (csr_ForeChannelAttrs r) /\ channel_attrs_ok (csr_BackChannelAttrs r)).
Definition sequence_res_ok (r : SequenceRes) : Prop :=
  in_u32 (sr_Status r) /\
  (sr_Status r <> NFS4_OK /\ r = zeroSequenceRes (sr_Status r) \/
   sr_Status r = NFS4_OK /\ session_id_ok (sr_SessionID r) /\ in_u32 (sr_SequenceID r) /\ in_u32 (sr_SlotID r) /\
   in_u32 (sr_HighestSlotID r) /\ in_u32 (sr_TargetHighestSlotID r) /\ in_u32 (sr_StatusFlags r)).
Definition bind_res_ok (r : BindConnToSessionRes) : Prop :=
  in_u32 (bcr_Status r) /\
  (bcr_Status r <> NFS4_OK /\ r = zeroBindRes (bcr_Status r) \/
   bcr_Status r = NFS4_OK /\ session_id_ok (bcr_SessionID r) /\ in_u32 (bcr_Dir r)).
Definition test_stateid_res_ok (r : TestStateidRes) : Prop :=
  in_u32 (tsr_Status r) /\
  (tsr_Status r <> NFS4_OK /\ tsr_StatusCodes r = [] \/
   tsr_Status r = NFS4_OK /\ Forall in_u32 (tsr_StatusCodes r) /\ Z.of_nat (length (tsr_StatusCodes r)) <= 1024).

Lemma codes_exchange_id_args a : exchange_id_args_ok a -> codes (ExchangeIdArgs_Encode a) ExchangeIdArgs_Decode a.
Proof. destruct a. intros (? & ? & ? & ? & ?). unfold ExchangeIdArgs_Encode, ExchangeIdArgs_Decode. xdr_fields. Qed.

Lemma codes_create_session_args a :
  create_session_args_ok a -> codes (CreateSessionArgs_Encode a) CreateSessionArgs_Decode a.
Proof.
  destruct a. intros (? & ? & ? & ? & ? & ? & ? & ?). unfold CreateSessionArgs_Encode, CreateSessionArgs_Decode. xdr_fields.
Qed.

Lemma codes_sequence_args a : sequence_args_ok a -> codes (SequenceArgs_Encode a) SequenceArgs_Decode a.
Proof. destruct a. intros (? & ? & ? & ?). unfold SequenceArgs_Encode, SequenceArgs_Decode. xdr_fields. Qed.

Lemma codes_bind_args a : bind_args_ok a -> codes (BindConnToSessionArgs_Encode a) BindConnToSessionArgs_Decode a.
Proof. destruct a. intros (? & ?). unfold BindConnToSessionArgs_Encode, BindConnToSessionArgs_Decode. xdr_fields. Qed.

Lemma codes_backchannel_args a :
  backchannel_ctl_args_ok a -> codes (BackchannelCtlArgs_Encode a) BackchannelCtlArgs_Decode a.
Proof. destruct a. intros (? & ? & ?). unfold BackchannelCtlArgs_Encode, BackchannelCtlArgs_Decode. xdr_fields. Qed.

Lemma codes_stateids l : stateids_ok l -> codes (TestStateidArgs_Encode l) TestStateidArgs_Decode l.
Proof. intros [H1 H2]. apply codes_array_of with stateid_ok; auto using codes_stateid; lia. Qed.

(** A status alone. *)
Lemma codes_status {A} (k : Z -> Dec A) s a :
  in_u32 s -> k s = mret a -> codes (Some (WriteUint32 s)) (status ← DecodeUint32; k status) a.
Proof.
  intros Hs Hk. apply codes_of. rewrite <- (app_nil_r (WriteUint32 s)).
  apply reads_bind with s; [now apply reads_uint32|]. rewrite Hk. apply reads_ret.
Qed.

(** A result: its status, and its fields when the status is OK. *)
Ltac result_codes Hne :=
  lazymatch type of Hne with
  | _ <> NFS4_OK => rewrite (proj2 (Z.eqb_neq _ _) Hne); cbn [negb];
      apply codes_status; [done|]; now rewrite (proj2 (Z.eqb_neq _ _) Hne)
  | _ => rewrite Hne; change (NFS4_OK =? NFS4_OK) with true; cbn [negb];
      eapply codes_cat; [apply codes_uint32; unfold in_u32, NFS4_OK; lia|];
      change (NFS4_OK =? NFS4_OK) with true; cbn [negb]; xdr_fields
  end.

Lemma codes_exchange_id_res r : exchange_id_res_ok r -> codes (ExchangeIdRes_Encode r) ExchangeIdRes_Decode r.
Proof.
  destruct r as [st c q f sp so sc im]. unfold exchange_id_res_ok, ExchangeIdRes_Encode, ExchangeIdRes_Decode. cbn [eir_Status eir_ClientID
    eir_SequenceID eir_Flags eir_StateProtect eir_ServerOwner eir_ServerScope eir_ServerImplId].
  intros [Hs [[Hne Ez]|(E & ? & ? & ? & ? & ? & ? & ? & ?)]]; [rewrite Ez; cbn [eir_Status zeroExchangeIdRes]; result_codes Hne|].
  result_codes E.
Qed.

Lemma codes_create_session_res r :
  create_session_res_ok r -> codes (CreateSessionRes_Encode r) CreateSessionRes_Decode r.
Proof.
  destruct r as [st i q f fo ba]. unfold create_session_res_ok, CreateSessionRes_Encode, CreateSessionRes_Decode.
  cbn [csr_Status csr_SessionID csr_SequenceID csr_Flags csr_ForeChannelAttrs csr_BackChannelAttrs].
  intros [Hs [[Hne Ez]|(E & ? & ? & ? & ? & ?)]]; [rewrite Ez; cbn [csr_Status zeroCreateSessionRes]; result_codes Hne|].
  result_codes E.
Qed.

Lemma codes_sequence_res r : sequence_res_ok r -> codes (SequenceRes_Encode r) SequenceRes_Decode r.
Proof.
  destruct r as [st i q sl hi ta fl]. unfold sequence_res_ok, SequenceRes_Encode, SequenceRes_Decode.
  cbn [sr_Status sr_SessionID sr_SequenceID sr_SlotID sr_HighestSlotID sr_TargetHighestSlotID sr_StatusFlags].
  intros [Hs [[Hne Ez]|(E & ? & ? & ? & ? & ? & ?)]]; [rewrite Ez; cbn [sr_Status zeroSequenceRes]; result_codes Hne|].
  result_codes E.
Qed.

Lemma codes_bind_res r : bind_res_ok r -> codes (BindConnToSessionRes_Encode r) BindConnToSessionRes_Decode r.
Proof.
  destruct r as [st i d rd]. unfold bind_res_ok, BindConnToSessionRes_Encode, BindConnToSessionRes_Decode.
  cbn [bcr_Status bcr_SessionID bcr_Dir bcr_UseConnInRDMAMode].
  intros [Hs [[Hne Ez]|(E & ? & ?)]]; [rewrite Ez; cbn [bcr_Status zeroBindRes]; result_codes Hne|]. result_codes E.
Qed.

Lemma codes_test_stateid_res r : test_stateid_res_ok r -> codes (TestStateidRes_Encode r) TestStateidRes_Decode r.
Proof.
  destruct r as [st l]. unfold test_stateid_res_ok, TestStateidRes_Encode, TestStateidRes_Decode.
  cbn [tsr_Status tsr_StatusCodes]. intros [Hs [[Hne ->]|(E & ? & ?)]]; [|result_codes E].
  rewrite (proj2 (Z.eqb_neq _ _) Hne). apply codes_status; [done|]. now rewrite (proj2 (Z.eqb_neq _ _) Hne).
Qed.

(** C30: what one side encodes for a session operation, the other side decodes.  For the
    arguments of EXCHANGE_ID, CREATE_SESSION, SEQUENCE, BIND_CONN_TO_SESSION,
    BACKCHANNEL_CTL, DESTROY_SESSION, DESTROY_CLIENTID, RECLAIM_COMPLETE, FREE_STATEID
    and TEST_STATEID, and for the results of EXCHANGE_ID, CREATE_SESSION, SEQUENCE,
    BIND_CONN_TO_SESSION and TEST_STATEID, a value the wire can carry ([*_ok]) is encoded
    without error, and [Decode] reads the same value off its bytes, leaving what follows
    it (the next operation of the COMPOUND) untouched.  A value the wire can carry has
    numbers of their width, session identifiers, verifiers and stateids of their fixed
    length, opaques and arrays within the limits of the decoders, only the fields of the
    union arm its tag selects, an AUTH_SYS body where the flavor is AUTH_SYS, and, when a
    result is not OK, nothing but its status. *)
Theorem v41_wire_roundtrip :
  (forall a, exchange_id_args_ok a -> codes (ExchangeIdArgs_Encode a) ExchangeIdArgs_Decode a) /\
  (forall a, create_session_args_ok a -> codes (CreateSessionArgs_Encode a) CreateSessionArgs_Decode a) /\
  (forall a, sequence_args_ok a -> codes (SequenceArgs_Encode a) SequenceArgs_Decode a) /\
  (forall a, bind_args_ok a -> codes (BindConnToSessionArgs_Encode a) BindConnToSessionArgs_Decode a) /\
  (forall a, backchannel_ctl_args_ok a -> codes (BackchannelCtlArgs_Encode a) BackchannelCtlArgs_Decode a) /\
  (forall a, session_id_ok a -> codes (DestroySessionArgs_Encode a) DestroySessionArgs_Decode a) /\
  (forall a, in_u64 a -> codes (DestroyClientidArgs_Encode a) DestroyClientidArgs_Decode a) /\
  (forall a, codes (ReclaimCompleteArgs_Encode a) ReclaimCompleteArgs_Decode a) /\
  (forall a, stateid_ok a -> codes (FreeStateidArgs_Encode a) FreeStateidArgs_Decode a) /\
  (forall a, stateids_ok a -> codes (TestStateidArgs_Encode a) TestStateidArgs_Decode a) /\
  (forall r, exchange_id_res_ok r -> codes (ExchangeIdRes_Encode r) ExchangeIdRes_Decode r) /\
  (forall r, create_session_res_ok r -> codes (CreateSessionRes_Encode r) CreateSessionRes_Decode r) /\
  (forall r, sequence_res_ok r -> codes (SequenceRes_Encode r) SequenceRes_Decode r) /\
  (forall r, bind_res_ok r -> codes (BindConnToSessionRes_Encode r) BindConnToSessionRes_Decode r) /\
  (forall r, test_stateid_res_ok r -> codes (TestStateidRes_Encode r) TestStateidRes_Decode r).
Proof.
  exact (conj codes_exchange_id_args (conj codes_create_session_args (conj codes_sequence_args (conj codes_bind_args
    (conj codes_backchannel_args (conj codes_session_id (conj codes_uint64 (conj codes_bool (conj codes_stateid
    (conj codes_stateids (conj codes_exchange_id_res (conj codes_create_session_res (conj codes_sequence_res
    (conj codes_bind_res codes_test_stateid_res)))))))))))))).
Qed.

(** A CREATE_SESSION with AUTH_SYS callback parameters and the result of a SEQUENCE. *)
Definition wire_attrs : ChannelAttrs := mkChannelAttrs 0 1048576 1048576 65536 16 64 [].
Definition wire_create : CreateSessionArgs :=
  mkCreateSessionArgs 30064771073 1 2 wire_attrs wire_attrs 1073741824
    [mkSecParms 1 (Some (mkAuthSys 7 [104; 111; 115; 116] 1000 1000 [10; 20])) []].
Definition wire_sequence_res : SequenceRes := mkSequenceRes NFS4_OK (repeat 9 16) 5 3 63 63 0.

Lemma v41_wire_roundtrip_witness :
  codes (CreateSessionArgs_Encode wire_create) CreateSessionArgs_Decode wire_create /\
  codes (SequenceRes_Encode wire_sequence_res) SequenceRes_Decode wire_sequence_res.
Proof.
  destruct v41_wire_roundtrip as (_ & Hc & _ & _ & _ & _ & _ & _ & _ & _ & _ & _ & Hs & _). split.
  - assert (channel_attrs_ok wire_attrs) as Ha by (unfold channel_attrs_ok, in_u32; cbn; split_and!; first [lia|constructor]).
    apply Hc. unfold create_session_args_ok, in_u64, in_u32. cbn [wire_create csa_ClientID csa_SequenceID csa_Flags
      csa_ForeChannelAttrs csa_BackChannelAttrs csa_CbProgram csa_CbSecParms length].
    split_and!; try exact Ha; try lia. apply Forall_singleton. right. left. split; [reflexivity|]. split; [|reflexivity].
    eexists. split; [reflexivity|]. unfold auth_sys_ok, opaque_ok, maxOpaqueLength, in_u32. cbn.
    split_and!; try lia; repeat (apply Forall_nil_2 || (apply Forall_cons_2; [lia|])).
  - apply Hs. unfold sequence_res_ok, session_id_ok, in_u32, wire_sequence_res, NFS4_OK. cbn [sr_Status sr_SessionID sr_SequenceID
      sr_SlotID sr_HighestSlotID sr_TargetHighestSlotID sr_StatusFlags]. split; [lia|right; split_and!; first [lia|reflexivity]].
Defined.

(** The structures the theorem is about exist: a SEQUENCE followed by the bytes of
    another operation. *)
Example sequence_args_decoded :
  let a := mkSequenceArgs (repeat 7 16) 1 0 5 true in
  (b ← SequenceArgs_Encode a; Some (SequenceArgs_Decode (b ++ [0; 0; 0; 24]))) = Some (Some a, [0; 0; 0; 24]).
Proof. reflexivity. Qed.

(** An AUTH_SYS flavor without parameters is written as zeros and comes back as
    parameters. *)
Example nil_auth_sys_comes_back :
  (b ← CallbackSecParms4_Encode (mkSecParms 1 None []); Some (CallbackSecParms4_Decode b).1) =
  Some (Some (mkSecParms 1 (Some zeroAuthSys) [])).
Proof. reflexivity. Qed.
