(* ===== verification/Nfs4State.v ===== *)
(** * NFSv4 state: clients, opens and leases
      ([internal/adapter/nfs/v4/state/manager.go], [client_recovery.go], [v41_client.go])

    The methods of [StateManager] that register clients, open, confirm, downgrade
    and close files, renew and expire leases, and remember replies.  Each holds
    the manager's mutex, so it is one step; the grace checks of [OpenFile], taken
    before it, are part of its step.  The recovery store never fails here. *)

From S2P Require Import Prelude.
From S2P Require Import SlotTable.
From S2P Require Import LockTypes.
From S2P Require Import LockManager.
From S2P Require Import Nfs4Grace.
From S2P Require Import Nfs4Types.

(** ** Shared steps *)

Fixpoint op_forM {A} (l : list A) (f : A -> Op unit) : Op unit :=
  match l with [] => mret tt | a :: l => f a;; op_forM l f end.

(** A fresh number for the sources of UUIDs and randomness. *)
Definition next_call : Op nat := fun s =>
  (inr (sm_calls s), with_counters (sm_nextClientSeq s) (sm_nextStateSeq s) (S (sm_calls s)) s).

Definition generateClientID : Op Z := fun s =>
  let seq := u32 (sm_nextClientSeq s + 1) in
  (inr (Z.shiftl (sm_bootEpoch s) 32 .| seq), with_counters seq (sm_nextStateSeq s) (sm_calls s) s).

Definition generateStateidOther (t : Z) : Op Other := fun s =>
  let seq := u64 (sm_nextStateSeq s + 1) in
  (inr (stateid_other t (sm_bootEpoch s) seq), with_counters (sm_nextClientSeq s) seq (sm_calls s) s).

Definition isCurrentEpoch (other : Other) : Op bool := op_gets (fun s => currentEpoch (sm_bootEpoch s) other).

Definition set_lease (l : option LeaseState) (c : ClientRecord) : ClientRecord :=
  mkClient (cr_ClientID c) (cr_ClientIDString c) (cr_Verifier c) (cr_ConfirmVerifier c) (cr_Confirmed c)
    (cr_Callback c) (cr_ClientAddr c) (cr_Principal c) (cr_CreatedAt c) (cr_LastRenewal c) l
    (cr_OpenOwners c) (cr_CBPathUp c).
Definition set_renewal (t : Z) (c : ClientRecord) : ClientRecord :=
  mkClient (cr_ClientID c) (cr_ClientIDString c) (cr_Verifier c) (cr_ConfirmVerifier c) (cr_Confirmed c)
    (cr_Callback c) (cr_ClientAddr c) (cr_Principal c) (cr_CreatedAt c) t (cr_Lease c)
    (cr_OpenOwners c) (cr_CBPathUp c).
Definition set_confirmed (c : ClientRecord) : ClientRecord :=
  mkClient (cr_ClientID c) (cr_ClientIDString c) (cr_Verifier c) (cr_ConfirmVerifier c) true
    (cr_Callback c) (cr_ClientAddr c) (cr_Principal c) (cr_CreatedAt c) (cr_LastRenewal c) (cr_Lease c)
    (cr_OpenOwners c) (cr_CBPathUp c).
Definition set_client_owners (m : gmap string ptr) (c : ClientRecord) : ClientRecord :=
  mkClient (cr_ClientID c) (cr_ClientIDString c) (cr_Verifier c) (cr_ConfirmVerifier c) (cr_Confirmed c)
    (cr_Callback c) (cr_ClientAddr c) (cr_Principal c) (cr_CreatedAt c) (cr_LastRenewal c) (cr_Lease c)
    m (cr_CBPathUp c).
Definition set_CBPathUp (b : bool) (c : ClientRecord) : ClientRecord :=
  mkClient (cr_ClientID c) (cr_ClientIDString c) (cr_Verifier c) (cr_ConfirmVerifier c) (cr_Confirmed c)
    (cr_Callback c) (cr_ClientAddr c) (cr_Principal c) (cr_CreatedAt c) (cr_LastRenewal c) (cr_Lease c)
    (cr_OpenOwners c) b.

Definition set_owner_seq (seqid : Z) (o : OpenOwner) : OpenOwner :=
  mkOpenOwner (oo_ClientID o) (oo_OwnerData o) seqid (oo_LastResult o) (oo_Confirmed o) (oo_OpenStates o)
    (oo_ClientRecord o).
Definition set_owner_result (r : CachedResult) (o : OpenOwner) : OpenOwner :=
  mkOpenOwner (oo_ClientID o) (oo_OwnerData o) (oo_LastSeqID o) (Some r) (oo_Confirmed o) (oo_OpenStates o)
    (oo_ClientRecord o).
Definition set_owner_confirmed (o : OpenOwner) : OpenOwner :=
  mkOpenOwner (oo_ClientID o) (oo_OwnerData o) (oo_LastSeqID o) (oo_LastResult o) true (oo_OpenStates o)
    (oo_ClientRecord o).
Definition set_owner_opens (l : list ptr) (o : OpenOwner) : OpenOwner :=
  mkOpenOwner (oo_ClientID o) (oo_OwnerData o) (oo_LastSeqID o) (oo_LastResult o) (oo_Confirmed o) l
    (oo_ClientRecord o).

Definition set_share (a d : Z) (o : OpenState) : OpenState :=
  mkOpenState (os_Stateid o) (os_Owner o) (os_FileHandle o) a d (os_Confirmed o) (os_LockStates o).
Definition set_open_confirmed (o : OpenState) : OpenState :=
  mkOpenState (os_Stateid o) (os_Owner o) (os_FileHandle o) (os_ShareAccess o) (os_ShareDeny o) true
    (os_LockStates o).
(** [o.Stateid.Seqid = nextSeqID(o.Stateid.Seqid)] *)
Definition bump_open (o : OpenState) : OpenState :=
  mkOpenState (mkStateid (nextSeqID (Seqid (os_Stateid o))) (si_Other (os_Stateid o))) (os_Owner o)
    (os_FileHandle o) (os_ShareAccess o) (os_ShareDeny o) (os_Confirmed o) (os_LockStates o).
Definition set_open_locks (l : list ptr) (o : OpenState) : OpenState :=
  mkOpenState (os_Stateid o) (os_Owner o) (os_FileHandle o) (os_ShareAccess o) (os_ShareDeny o)
    (os_Confirmed o) l.

(** [append(l[:i], l[i+1:]...)] for the first [i] with [l[i] == p]. *)
Fixpoint remove_ptr (p : ptr) (l : list ptr) : list ptr :=
  match l with [] => [] | q :: l => if decide (q = p) then l else q :: remove_ptr p l end.

(** ** Durable client records *)

Definition persistClientRecoveryLocked (now clientID : Z) (clientIDString : string) (bootVerifier : bytes)
    (principal : string) : Op unit :=
  op_modify (fun s => match sm_recovery s with
    | None => s
    | Some m => with_recovery (Some (<[clientIDString :=
        mkRecovery clientID clientIDString bootVerifier principal now (sm_serverEpoch s) false]> m))
        (sm_bootVerifiers s) s
    end).

Definition deleteClientRecoveryLocked (clientIDString : string) : Op unit :=
  op_modify (fun s => with_recovery (delete clientIDString <$> sm_recovery s) (sm_bootVerifiers s) s).

Definition recordReclaimCompleteLocked (clientIDString : string) : Op unit :=
  op_modify (fun s => with_recovery
    (alter (fun r => mkRecovery (rr_ClientID r) (rr_ClientIDString r) (rr_BootVerifier r) (rr_Principal r)
       (rr_ConfirmedAt r) (rr_ServerEpoch r) true) clientIDString <$> sm_recovery s) (sm_bootVerifiers s) s).

Definition validateReclaimVerifier (clientIDString : string) (bootVerifier : bytes) : Op unit :=
  want ← op_gets (fun s => sm_bootVerifiers s !! clientIDString);
  match want with
  | None => mret tt
  | Some v => op_check (bool_decide (v = bootVerifier)) (NFS4StateError NFS4ERR_NO_GRACE)
  end.

Definition LoadClientRecovery (now : Z) : Op nat :=
  store ← op_gets sm_recovery;
  match store with
  | None => mret 0%nat
  | Some m =>
      let records := map_to_list m in
      let expected := (fun r : string * V4ClientRecoveryRecord => rr_ClientIDString r.2) <$>
        List.filter (fun r => negb (rr_ReclaimComplete r.2)) records in
      op_modify (fun s => with_recovery (sm_recovery s)
        (list_to_map ((fun r => (rr_ClientIDString r.2, rr_BootVerifier r.2)) <$> records)) s);;
      match expected with
      | [] => mret 0%nat
      | _ =>
          op_modify (fun s => with_grace
            (Some (StartGraceWithRoster now [] expected (NewGracePeriodState (sm_graceDuration s)))) s);;
          mret (length expected)
      end
  end.

Section StateOps.
Context `{L : Nfs4Lib}.

Definition generateConfirmVerifier : Op bytes := n ← next_call; mret (random n).

(** ** SETCLIENTID *)

Definition fresh_client (now clientID : Z) (idStr : string) (verifier confirmVerf : bytes)
    (callback : CallbackInfo) (clientAddr principal : string) : ClientRecord :=
  mkClient clientID idStr verifier confirmVerf false callback clientAddr principal now 0 None ∅ false.

Definition VerifierMatches (c : ClientRecord) (v : bytes) : bool := bool_decide (cr_Verifier c = v).

(** A different, known principal than the one that established the record. *)
Definition principal_clash (confirmed : ClientRecord) (principal : string) : bool :=
  bool_decide (cr_Principal confirmed <> ""%string) && bool_decide (principal <> ""%string) &&
  bool_decide (cr_Principal confirmed <> principal).

(** A new record under a new client ID, unconfirmed. *)
Definition register_unconfirmed (now : Z) (idStr : string) (verifier : bytes) (callback : CallbackInfo)
    (clientAddr principal : string) : Op (Z * bytes) :=
  clientID ← generateClientID;
  confirmVerf ← generateConfirmVerifier;
  p ← new_obj h_clients set_clients
        (fresh_client now clientID idStr verifier confirmVerf callback clientAddr principal);
  tab_mod (fun t => set_unconfirmedByName (<[idStr := p]> (unconfirmedByName t)) t);;
  tab_mod (fun t => set_clientsByID (<[clientID := p]> (clientsByID t)) t);;
  mret (clientID, confirmVerf).

Definition drop_unconfirmed (idStr : string) : Op unit :=
  tab_mod (fun t => set_unconfirmedByName (delete idStr (unconfirmedByName t)) t).
Definition drop_client (clientID : Z) : Op unit :=
  tab_mod (fun t => set_clientsByID (delete clientID (clientsByID t)) t).

Definition createNewClient (now : Z) (idStr : string) (verifier : bytes) (callback : CallbackInfo)
    (clientAddr principal : string) : Op (Z * bytes) :=
  register_unconfirmed now idStr verifier callback clientAddr principal.

Definition reuseConfirmedClient (now : Z) (confirmed : ClientRecord) (idStr : string) (verifier : bytes)
    (callback : CallbackInfo) (clientAddr principal : string) : Op (Z * bytes) :=
  op_check (negb (principal_clash confirmed principal)) ErrClientIDInUse;;
  old ← op_gets (fun s => unconfirmedByName (sm_tab s) !! idStr);
  (match old with
   | None => mret tt
   | Some o =>
       oc ← deref h_clients o;
       (if negb (cr_ClientID oc =? cr_ClientID confirmed) then drop_client (cr_ClientID oc) else mret tt);;
       drop_unconfirmed idStr
   end);;
  confirmVerf ← generateConfirmVerifier;
  p ← new_obj h_clients set_clients
        (fresh_client now (cr_ClientID confirmed) idStr verifier confirmVerf callback clientAddr principal);
  tab_mod (fun t => set_unconfirmedByName (<[idStr := p]> (unconfirmedByName t)) t);;
  mret (cr_ClientID confirmed, confirmVerf).

Definition handleClientReboot (now : Z) (idStr : string) (verifier : bytes) (callback : CallbackInfo)
    (clientAddr principal : string) : Op (Z * bytes) :=
  confirmed ← op_gets (fun s => clientsByName (sm_tab s) !! idStr);
  (match confirmed with
   | None => mret tt
   | Some p => c ← deref h_clients p; op_check (negb (principal_clash c principal)) ErrClientIDInUse
   end);;
  old ← op_gets (fun s => unconfirmedByName (sm_tab s) !! idStr);
  (match old with
   | None => mret tt
   | Some o => oc ← deref h_clients o; drop_client (cr_ClientID oc);; drop_unconfirmed idStr
   end);;
  register_unconfirmed now idStr verifier callback clientAddr principal.

Definition replaceUnconfirmed (now : Z) (old : ClientRecord) (idStr : string) (verifier : bytes)
    (callback : CallbackInfo) (clientAddr principal : string) : Op (Z * bytes) :=
  drop_client (cr_ClientID old);;
  drop_unconfirmed idStr;;
  register_unconfirmed now idStr verifier callback clientAddr principal.

Definition SetClientID (now : Z) (idStr : string) (verifier : bytes) (callback : CallbackInfo)
    (clientAddr principal : string) : Op (Z * bytes) :=
  confirmed ← op_gets (fun s => clientsByName (sm_tab s) !! idStr);
  unconfirmed ← op_gets (fun s => unconfirmedByName (sm_tab s) !! idStr);
  match confirmed, unconfirmed with
  | None, None => createNewClient now idStr verifier callback clientAddr principal
  | Some p, _ =>
      c ← deref h_clients p;
      if VerifierMatches c verifier
      then reuseConfirmedClient now c idStr verifier callback clientAddr principal
      else handleClientReboot now idStr verifier callback clientAddr principal
  | None, Some p =>
      u ← deref h_clients p;
      replaceUnconfirmed now u idStr verifier callback clientAddr principal
  end.

(** ** SETCLIENTID_CONFIRM *)

(** The record a confirmation is about: the one the client ID leads to, or the
    pending re-SETCLIENTID of a confirmed client; [None] for a retransmission. *)
Definition confirm_target (clientID : Z) (confirmVerifier : bytes) : Op (option ptr) :=
  p ← (o ← op_gets (fun s => clientsByID (sm_tab s) !! clientID); op_need o ErrStaleClientID);
  record ← deref h_clients p;
  if cr_Confirmed record then
    u ← op_gets (fun s => unconfirmedByName (sm_tab s) !! cr_ClientIDString record);
    pending ← (match u with
               | None => mret None
               | Some q => uc ← deref h_clients q;
                           mret (if cr_ClientID uc =? clientID then Some q else None)
               end : Op (option ptr));
    match pending with
    | Some q => mret (Some q)
    | None => op_check (bool_decide (cr_ConfirmVerifier record = confirmVerifier)) ErrStaleClientID;; mret None
    end
  else mret (Some p).

(** Promoting a record: it replaces the confirmed record of the same name. *)
Definition promote (now clientID : Z) (q : ptr) (confirmVerifier : bytes) : Op unit :=
  record ← deref h_clients q;
  op_check (bool_decide (cr_ConfirmVerifier record = confirmVerifier)) ErrStaleClientID;;
  drop_unconfirmed (cr_ClientIDString record);;
  old ← op_gets (fun s => clientsByName (sm_tab s) !! cr_ClientIDString record);
  (match old with
   | None => mret tt
   | Some op =>
       oc ← deref h_clients op;
       if negb (cr_ClientID oc =? cr_ClientID record) then
         upd_client op (fun c => set_lease (StopLease <$> cr_Lease c) c);;
         drop_client (cr_ClientID oc)
       else mret tt
   end);;
  d ← op_gets sm_leaseDuration;
  upd_client q (fun c => set_renewal now (set_lease (Some (NewLeaseState d now)) (set_confirmed c)));;
  tab_mod (fun t => set_clientsByName (<[cr_ClientIDString record := q]> (clientsByName t)) t);;
  persistClientRecoveryLocked now (cr_ClientID record) (cr_ClientIDString record) (cr_Verifier record)
    (cr_Principal record).

Definition ConfirmClientID (now clientID : Z) (confirmVerifier : bytes) : Op unit :=
  target ← confirm_target clientID confirmVerifier;
  match target with
  | None => mret tt
  | Some q => promote now clientID q confirmVerifier
  end.

(** The CB_NULL goroutine of a confirmation, when its answer arrives. *)
Definition cbNullDone (clientID : Z) (recordPtr : ptr) (ok : bool) : Op unit :=
  rec ← op_gets (fun s => clientsByID (sm_tab s) !! clientID);
  if decide (rec = Some recordPtr) then upd_client recordPtr (set_CBPathUp ok) else mret tt.

(** Whether a name leads to a record of this client. *)
Definition leads_to (sel : Tables -> gmap string ptr) (name : string) (clientID : Z) : Op bool :=
  o ← op_gets (fun s => sel (sm_tab s) !! name);
  match o with
  | None => mret false
  | Some p => c ← deref h_clients p; mret (cr_ClientID c =? clientID)
  end.

Definition forget_client (clientID : Z) (record : ClientRecord) : Op unit :=
  drop_client clientID;;
  let name := cr_ClientIDString record in
  if cr_Confirmed record then
    leads_to clientsByName name clientID ≫= fun b : bool =>
      if b then tab_mod (fun t => set_clientsByName (delete name (clientsByName t)) t) else mret tt
  else
    leads_to unconfirmedByName name clientID ≫= fun b : bool =>
      if b then drop_unconfirmed name else mret tt.

Definition RemoveClient (clientID : Z) : Op unit :=
  o ← op_gets (fun s => clientsByID (sm_tab s) !! clientID);
  match o with
  | None => mret tt
  | Some p =>
      upd_client p (fun c => set_lease (StopLease <$> cr_Lease c) c);;
      record ← deref h_clients p;
      forget_client clientID record
  end.

Definition RenewLease (now clientID : Z) : Op unit :=
  p ← (o ← op_gets (fun s => clientsByID (sm_tab s) !! clientID); op_need o ErrStaleClientID);
  record ← deref h_clients p;
  op_check (cr_Confirmed record) ErrStaleClientID;;
  op_check (negb (match cr_Lease record with Some l => IsExpired now l | None => false end))
    (NFS4StateError NFS4ERR_EXPIRED);;
  upd_client p (fun c => set_renewal now (set_lease (Renew now <$> cr_Lease c) c)).

(** ** Byte-range locks in the unified lock manager *)

Definition lockManagerFor (handle : string) (s : StateManager) : option Manager :=
  share ← share_of handle; sm_lms s !! share.

Definition on_lm (handle : string) (f : Manager -> Manager) : Op unit :=
  op_modify (fun s => match share_of handle with
    | None => s
    | Some share => with_lms (alter f share (sm_lms s)) s
    end).

(** Every lock of an owner on a file, removed one by one. *)
Definition remove_owner_locks (handle ownerID : string) : Op unit :=
  m ← op_gets (lockManagerFor handle);
  match m with
  | None => mret tt
  | Some m =>
      op_forM (List.filter (fun l => bool_decide (ul_owner l = ownerID)) (ListUnifiedLocks m handle)) (fun l =>
        n ← next_call;
        on_lm handle (fun m =>
          (RemoveUnifiedLock (uuids n) m handle (ul_Owner l) (ul_Offset l) (ul_Length l)).1))
  end.

(** ** The tables of opens *)

Definition addOpenStateToFileLocked (p : ptr) : Op unit :=
  os ← deref h_opens p;
  tab_mod (fun t => set_openStates (openStateByOther t)
    (<[os_FileHandle os := default [] (openStateByFile t !! os_FileHandle os) ++ [p]]> (openStateByFile t)) t).

Definition remove_from_file (f : string) (p : ptr) (m : gmap string (list ptr)) : gmap string (list ptr) :=
  let l := default [] (m !! f) in
  if bool_decide (p ∈ l) then
    match remove_ptr p l with [] => delete f m | l' => <[f := l']> m end
  else m.

Definition removeOpenStateFromFileLocked (p : ptr) : Op unit :=
  os ← deref h_opens p;
  tab_mod (fun t => set_openStates (openStateByOther t)
    (remove_from_file (os_FileHandle os) p (openStateByFile t)) t).

Definition drop_open (other : Other) : Op unit :=
  tab_mod (fun t => set_openStates (delete other (openStateByOther t)) (openStateByFile t) t).
Definition drop_owner (key : string) : Op unit :=
  tab_mod (fun t => set_openOwners (delete key (openOwners t)) t).
Definition drop_lock (other : Other) : Op unit :=
  tab_mod (fun t => set_lockStates (delete other (lockStateByOther t)) t).
Definition drop_lowner (key : string) : Op unit :=
  tab_mod (fun t => set_lockOwners (delete key (lockOwners t)) t).

(** One lock state of an expiring or evicted client. *)
Definition release_lock_state (lp : ptr) : Op unit :=
  ls ← deref h_locks lp;
  drop_lock (si_Other (ls_Stateid ls));;
  lo ← deref h_lowners (ls_LockOwner ls);
  remove_owner_locks (ls_FileHandle ls) (LockManagerOwnerID lo);;
  drop_lowner (l4_Key lo).

Definition release_open_state (p : ptr) : Op unit :=
  os ← deref h_opens p;
  op_forM (os_LockStates os) release_lock_state;;
  drop_open (si_Other (os_Stateid os));;
  removeOpenStateFromFileLocked p.

Definition release_owner (op : ptr) : Op unit :=
  owner ← deref h_owners op;
  op_forM (oo_OpenStates owner) release_open_state;;
  drop_owner (oo_Key owner).

Definition release_opens (record : ClientRecord) : Op unit :=
  op_forM ((map_to_list (cr_OpenOwners record)).*2) release_owner.

(** ** The tables of delegations *)

Definition set_delegByOther (x : gmap Other ptr) (n : gmap Z Z) (d : DelegTables) : DelegTables :=
  mkDelegTables x (delegByFile d) n (delegStateidMap d) (recentlyRecalled d) (recentlyRecalledTTL d)
    (delegationsEnabled d) (maxDelegations d).
Definition set_delegByFile (x : gmap string (list ptr)) (d : DelegTables) : DelegTables :=
  mkDelegTables (delegByOther d) x (revokedDelegCount d) (delegStateidMap d) (recentlyRecalled d)
    (recentlyRecalledTTL d) (delegationsEnabled d) (maxDelegations d).

Definition revoked_of (d : DelegTables) (clientID : Z) : Z := default 0 (revokedDelegCount d !! clientID).

Definition deleteDelegByOtherLocked (other : Other) : Op unit :=
  o ← op_gets (fun s => delegByOther (sm_del s) !! other);
  match o with
  | None => mret tt
  | Some p =>
      dl ← deref h_delegs p;
      let c := ds_ClientID dl in
      del_mod (fun d => set_delegByOther (delete other (delegByOther d))
        (if ds_Revoked dl then
           if revoked_of d c <=? 1 then delete c (revokedDelegCount d)
           else <[c := revoked_of d c - 1]> (revokedDelegCount d)
         else revokedDelegCount d) d)
  end.

Definition removeDelegFromFile (p : ptr) : Op unit :=
  dl ← deref h_delegs p;
  let f := ds_FileHandle dl in
  del_mod (fun d => set_delegByFile
    (match remove_ptr p (default [] (delegByFile d !! f)) with
     | [] => delete f (delegByFile d)
     | l => <[f := l]> (delegByFile d)
     end) d).

Definition set_timer (b : bool) (d : DelegationState) : DelegationState :=
  mkDelegState (ds_Stateid d) (ds_ClientID d) (ds_FileHandle d) (ds_DelegType d) (ds_RecallSent d)
    (ds_RecallTime d) (ds_Revoked d) b (ds_IsDirectory d) (ds_NotificationMask d) (ds_LockManagerDelegID d).

Definition StopRecallTimer (p : ptr) : Op unit := upd_deleg p (set_timer false).

(** The delegations of a client leave the tables; [stop] stops their timers. *)
Definition release_delegations (stop : bool) (clientID : Z) : Op unit :=
  l ← op_gets (fun s => map_to_list (delegByOther (sm_del s)));
  op_forM l (fun e : Other * ptr =>
    dl ← deref h_delegs e.2;
    if negb (ds_ClientID dl =? clientID) then mret tt
    else
      (if stop then StopRecallTimer e.2 else mret tt);;
      deleteDelegByOtherLocked e.1;;
      removeDelegFromFile e.2).

(** ** Lease expiry and eviction *)

Definition drop_closed_owners (clientID : Z) : Op unit :=
  op_modify (fun s => with_tab (set_closedOwners
    (filter (fun e : Other * ptr => (oo_ClientID <$> h_owners (sm_heap s) !! e.2) <> Some clientID)
       (closedOwnerByOther (sm_tab s))) (sm_tab s)) s).

Definition onLeaseExpired (clientID : Z) : Op unit :=
  o ← op_gets (fun s => clientsByID (sm_tab s) !! clientID);
  match o with
  | None => mret tt
  | Some p =>
      record ← deref h_clients p;
      deleteClientRecoveryLocked (cr_ClientIDString record);;
      release_opens record;;
      drop_closed_owners clientID;;
      release_delegations false clientID;;
      forget_client clientID record
  end.

(** The timer of a client record goes off, whatever tables the record is in. *)
Definition leaseTimer (now : Z) (p : ptr) : Op unit :=
  record ← deref h_clients p;
  match cr_Lease record with
  | Some l => if lease_fires now l then onLeaseExpired (cr_ClientID record) else mret tt
  | None => mret tt
  end.

Definition EvictV40Client (clientID : Z) : Op unit :=
  p ← (o ← op_gets (fun s => clientsByID (sm_tab s) !! clientID); op_need o NPlainError);
  record ← deref h_clients p;
  deleteClientRecoveryLocked (cr_ClientIDString record);;
  upd_client p (fun c => set_lease (StopLease <$> cr_Lease c) c);;
  release_opens record;;
  release_delegations true clientID;;
  forget_client clientID record.

(** ** OPEN *)

Record OpenFileResult := mkOpenFileResult {
  ofr_Stateid : Stateid4;
  ofr_RFlags : Z;
  ofr_Replay : option CachedResult;
}.

Definition ErrBadSeqid : NErr := NFS4StateError NFS4ERR_BAD_SEQID.

(** The grace-period gate, and what a reclaim records. *)
Definition grace_gate (clientID claimType : Z) : Op unit :=
  inGrace ← op_gets (fun s => match sm_grace s with Some g => IsInGrace g | None => false end);
  if claimType =? CLAIM_NULL then op_check (negb inGrace) (NFS4StateError NFS4ERR_GRACE)
  else if claimType =? CLAIM_PREVIOUS then
    op_check inGrace (NFS4StateError NFS4ERR_NO_GRACE);;
    rec ← op_gets (fun s => clientsByID (sm_tab s) !! clientID);
    match rec with
    | None => op_modify (fun s => with_grace (ClientReclaimed clientID <$> sm_grace s) s)
    | Some p =>
        c ← deref h_clients p;
        validateReclaimVerifier (cr_ClientIDString c) (cr_Verifier c);;
        op_modify (fun s => with_grace
          (ClientReclaimedByString (cr_ClientIDString c) <$> (ClientReclaimed clientID <$> sm_grace s)) s);;
        recordReclaimCompleteLocked (cr_ClientIDString c)
    end
  else mret tt.

(** The seqid check of an owner: [None] to go on, or the reply to replay.  Seqid
    0 is the NFSv4.1 convention that skips it. *)
Definition owner_gate (lastSeqID seqid : Z) (lastResult : option CachedResult) : Op (option CachedResult) :=
  if seqid =? 0 then mret None
  else match ValidateSeqID lastSeqID seqid with
  | SeqIDOK => mret None
  | SeqIDBad => op_throw ErrBadSeqid
  | SeqIDReplay => match lastResult with Some r => mret (Some r) | None => op_throw ErrBadSeqid end
  end.

(** The same check where a replay is an error that carries the reply. *)
Definition seqid_gate (owner : OpenOwner) (seqid : Z) : Op unit :=
  r ← owner_gate (oo_LastSeqID owner) seqid (oo_LastResult owner);
  match r with Some r => op_throw (ReplayError (ca_Status r) (ca_Data r)) | None => mret tt end.

(** Looking the open-owner up, or creating and registering it. *)
Definition find_owner (clientID : Z) (ownerData : string) : Op ptr :=
  let key := makeOwnerKey clientID ownerData in
  o ← op_gets (fun s => openOwners (sm_tab s) !! key);
  match o with
  | Some p => mret p
  | None =>
      rec ← op_gets (fun s => clientsByID (sm_tab s) !! clientID);
      p ← new_obj h_owners set_owners (mkOpenOwner clientID ownerData 0 None false [] rec);
      tab_mod (fun t => set_openOwners (<[key := p]> (openOwners t)) t);;
      (match rec with
       | Some r => upd_client r (fun c => set_client_owners (<[ownerData := p]> (cr_OpenOwners c)) c)
       | None => mret tt
       end);;
      mret p
  end.

Definition conflicts (reqAccess reqDeny : Z) (os : OpenState) : bool :=
  has reqAccess (os_ShareDeny os) || has reqDeny (os_ShareAccess os).

Definition shareConflictLocked (ownerKey fileHandle : string) (reqAccess reqDeny : Z) (s : StateManager) : bool :=
  existsb (fun p =>
    match h_opens (sm_heap s) !! p with
    | None => false
    | Some os =>
        negb (bool_decide ((oo_Key <$> h_owners (sm_heap s) !! os_Owner os) = Some ownerKey)) &&
        conflicts reqAccess reqDeny os
    end) (default [] (openStateByFile (sm_tab s) !! fileHandle)).

(** The owner's open of a file. *)
Definition find_open (owner : OpenOwner) (fileHandle : string) (s : StateManager) : option ptr :=
  List.find (fun p => bool_decide ((os_FileHandle <$> h_opens (sm_heap s) !! p) = Some fileHandle))
    (oo_OpenStates owner).

Definition merge_open (p : ptr) (shareAccess shareDeny : Z) : Op Stateid4 :=
  upd_open p (fun o => bump_open (set_share (os_ShareAccess o .| shareAccess) (os_ShareDeny o .| shareDeny) o));;
  os ← deref h_opens p;
  mret (os_Stateid os).

Definition create_open (op : ptr) (owner : OpenOwner) (fileHandle : string) (shareAccess shareDeny : Z)
    : Op Stateid4 :=
  other ← generateStateidOther StateTypeOpen;
  let sid := mkStateid 1 other in
  p ← new_obj h_opens set_opens
        (mkOpenState sid op fileHandle shareAccess shareDeny (oo_Confirmed owner) []);
  upd_owner op (fun o => set_owner_opens (oo_OpenStates o ++ [p]) o);;
  tab_mod (fun t => set_openStates (<[other := p]> (openStateByOther t)) (openStateByFile t) t);;
  addOpenStateToFileLocked p;;
  mret sid.

Definition OpenFile (clientID : Z) (ownerData : string) (seqid : Z) (fileHandle : string)
    (shareAccess shareDeny claimType : Z) : Op OpenFileResult :=
  grace_gate clientID claimType;;
  let key := makeOwnerKey clientID ownerData in
  known ← op_gets (fun s => openOwners (sm_tab s) !! key);
  replay ← (match known with
            | Some p => o ← deref h_owners p; owner_gate (oo_LastSeqID o) seqid (oo_LastResult o)
            | None => mret None
            end);
  match replay with
  | Some r => mret (mkOpenFileResult zeroStateid 0 (Some r))
  | None =>
      op ← find_owner clientID ownerData;
      conflict ← op_gets (fun s => if claimType =? CLAIM_PREVIOUS then false
                                   else shareConflictLocked key fileHandle shareAccess shareDeny s);
      op_check (negb conflict) (NFS4StateError NFS4ERR_SHARE_DENIED);;
      owner ← deref h_owners op;
      existing ← op_gets (find_open owner fileHandle);
      sid ← (match existing with
             | Some p => merge_open p shareAccess shareDeny
             | None => create_open op owner fileHandle shareAccess shareDeny
             end);
      upd_owner op (set_owner_seq seqid);;
      mret (mkOpenFileResult sid
              (OPEN4_RESULT_LOCKTYPE_POSIX .| (if oo_Confirmed owner then 0 else OPEN4_RESULT_CONFIRM)) None)
  end.

(** ** OPEN_CONFIRM, CLOSE, OPEN_DOWNGRADE and cached replies *)

Record OpenSeqResult := mkOpenSeqResult { osr_Stateid : Stateid4; osr_ClientID : Z; osr_OwnerData : string }.

Definition ErrBadStateid : NErr := NFS4StateError NFS4ERR_BAD_STATEID.

Definition lookup_open (stateid : Stateid4) : Op ptr :=
  o ← op_gets (fun s => openStateByOther (sm_tab s) !! si_Other stateid);
  op_need o ErrBadStateid.

Definition ConfirmOpen (stateid : Stateid4) (seqid : Z) : Op OpenSeqResult :=
  p ← lookup_open stateid;
  os ← deref h_opens p;
  owner ← deref h_owners (os_Owner os);
  seqid_gate owner seqid;;
  upd_open p (fun o => bump_open (set_open_confirmed o));;
  upd_owner (os_Owner os) (fun o => set_owner_seq seqid (set_owner_confirmed o));;
  os' ← deref h_opens p;
  mret (mkOpenSeqResult (os_Stateid os') (oo_ClientID owner) (oo_OwnerData owner)).

Definition ConfirmOpenV41 (stateid : Stateid4) : Op unit :=
  p ← lookup_open stateid;
  os ← deref h_opens p;
  upd_open p set_open_confirmed;;
  upd_owner (os_Owner os) set_owner_confirmed.

(** A CLOSE whose open is gone: a retransmission gets the cached reply. *)
Definition replay_close (other : Other) (seqid : Z) : Op OpenSeqResult :=
  o ← op_gets (fun s => closedOwnerByOther (sm_tab s) !! other);
  match o with
  | Some op =>
      owner ← deref h_owners op;
      match ValidateSeqID (oo_LastSeqID owner) seqid, oo_LastResult owner with
      | SeqIDReplay, Some r =>
          if seqid =? 0 then op_throw ErrBadStateid else op_throw (ReplayError (ca_Status r) (ca_Data r))
      | _, _ => op_throw ErrBadStateid
      end
  | None => op_throw ErrBadStateid
  end.

(** An owner without opens leaves the live tables. *)
Definition retire_owner (op : ptr) : Op unit :=
  owner ← deref h_owners op;
  match oo_OpenStates owner with
  | [] =>
      drop_owner (oo_Key owner);;
      match oo_ClientRecord owner with
      | Some r => upd_client r (fun c => set_client_owners (delete (oo_OwnerData owner) (cr_OpenOwners c)) c)
      | None => mret tt
      end
  | _ => mret tt
  end.

Definition CloseFile (stateid : Stateid4) (seqid : Z) : Op OpenSeqResult :=
  if IsSpecialStateid stateid then mret (mkOpenSeqResult zeroStateid 0 "")
  else
    found ← op_gets (fun s => openStateByOther (sm_tab s) !! si_Other stateid);
    match found with
    | None => replay_close (si_Other stateid) seqid
    | Some p =>
        os ← deref h_opens p;
        owner ← deref h_owners (os_Owner os);
        seqid_gate owner seqid;;
        op_check (bool_decide (os_LockStates os = [])) (NFS4StateError NFS4ERR_LOCKS_HELD);;
        drop_open (si_Other stateid);;
        removeOpenStateFromFileLocked p;;
        tab_mod (fun t => set_closedOwners (<[si_Other stateid := os_Owner os]> (closedOwnerByOther t)) t);;
        upd_owner (os_Owner os) (fun o => set_owner_seq seqid (set_owner_opens (remove_ptr p (oo_OpenStates o)) o));;
        retire_owner (os_Owner os);;
        mret (mkOpenSeqResult zeroStateid (oo_ClientID owner) (oo_OwnerData owner))
    end.

Definition DowngradeOpen (stateid : Stateid4) (seqid newShareAccess newShareDeny : Z) : Op OpenSeqResult :=
  p ← lookup_open stateid;
  os ← deref h_opens p;
  owner ← deref h_owners (os_Owner os);
  seqid_gate owner seqid;;
  op_check (newShareAccess .&^ os_ShareAccess os =? 0) (NFS4StateError NFS4ERR_INVAL);;
  op_check (newShareDeny .&^ os_ShareDeny os =? 0) (NFS4StateError NFS4ERR_INVAL);;
  op_check (negb (newShareAccess =? 0)) (NFS4StateError NFS4ERR_INVAL);;
  upd_open p (fun o => bump_open (set_share newShareAccess newShareDeny o));;
  upd_owner (os_Owner os) (set_owner_seq seqid);;
  os' ← deref h_opens p;
  mret (mkOpenSeqResult (os_Stateid os') (oo_ClientID owner) (oo_OwnerData owner)).

Definition CacheOpenOwnerResult (clientID : Z) (ownerData : string) (status : Z) (data : bytes) : Op unit :=
  live ← op_gets (fun s => openOwners (sm_tab s) !! makeOwnerKey clientID ownerData);
  match live with
  | Some p => upd_owner p (set_owner_result (mkCached status data))
  | None =>
      closed ← op_gets (fun s => List.find (fun p =>
        match h_owners (sm_heap s) !! p with
        | Some o => (oo_ClientID o =? clientID) && bool_decide (oo_OwnerData o = ownerData)
        | None => false
        end) ((map_to_list (closedOwnerByOther (sm_tab s))).*2));
      match closed with
      | Some p => upd_owner p (set_owner_result (mkCached status data))
      | None => mret tt
      end
  end.

Definition GetOpenState (other : Other) (s : StateManager) : option ptr := openStateByOther (sm_tab s) !! other.

(** The handles with at least one open, as the block garbage collector asks. *)
Definition EnumerateOpenFiles (s : StateManager) : list string :=
  (List.filter (fun e : string * list ptr => negb (bool_decide (e.2 = []))) (map_to_list (openStateByFile (sm_tab s)))).*1.
End StateOps.
