(* ===== verification/Nfs41State.v ===== *)
(** * NFSv4.1 clients, sessions and connections
      ([internal/adapter/nfs/v4/state/v41_client.go], [session.go], [connection.go],
       [manager.go])

    The NFSv4.1 half of [StateManager]: client records, sessions with their slot
    tables, and the connections bound to them.  Records, sessions and bindings are
    shared between several maps, so they are objects of a heap; [Server] puts this
    half next to the other.  [CreateSession] and the rest hold the manager's
    mutex, so each is one step.  Session IDs are drawn from [random] (Go's
    [crypto/rand] does not fail); the sender goroutine of a back channel is the
    program number it was started or updated with. *)

From S2P Require Import Prelude.
From S2P Require Import SlotTable.
From S2P Require Import Xdr.
From S2P Require Import Nfs4Grace.
From S2P Require Import Nfs4Types.
From S2P Require Import Nfs41Wire.
From S2P Require Import Nfs4State.

(** ** Constants *)

Definition EXCHGID4_FLAG_USE_NON_PNFS : Z := 0x00010000.
Definition EXCHGID4_FLAG_CONFIRMED_R : Z := 0x80000000.
Definition CREATE_SESSION4_FLAG_PERSIST : Z := 0x00000001.
Definition CREATE_SESSION4_FLAG_CONN_BACK_CHAN : Z := 0x00000002.
Definition CREATE_SESSION4_FLAG_CONN_RDMA : Z := 0x00000004.
Definition SEQ4_STATUS_CB_PATH_DOWN : Z := 0x00000001.
Definition SEQ4_STATUS_EXPIRED_ALL_STATE_REVOKED : Z := 0x00000008.
Definition SEQ4_STATUS_RECALLABLE_STATE_REVOKED : Z := 0x00000040.
Definition SEQ4_STATUS_BACKCHANNEL_FAULT : Z := 0x00000400.
Definition MaxCompoundOps : Z := 128.

Definition ErrBadSession : NErr := NFS4StateError NFS4ERR_BADSESSION.
Definition ErrDelay : NErr := NFS4StateError NFS4ERR_DELAY.
Definition ErrTooManySessions : NErr := NFS4StateError NFS4ERR_RESOURCE.
Definition ErrSeqMisordered : NErr := NFS4StateError NFS4ERR_SEQ_MISORDERED.

(** ** Objects *)

Record V41ClientRecord := mkV41Client {
  vc_ClientID : Z;
  vc_OwnerID : string;
  vc_Verifier : bytes;
  vc_Impl : NfsImplId4;
  vc_SequenceID : Z;
  vc_Confirmed : bool;
  vc_ClientAddr : string;
  vc_Principal : string;
  vc_CreatedAt : Z;
  vc_LastRenewal : Z;
  vc_Lease : option LeaseState;
  vc_CachedCreateSessionRes : option bytes;
}.

Record Session := mkSession {
  ss_SessionID : SessionId4;
  ss_ClientID : Z;
  ss_ForeChannelSlots : SlotTable;
  ss_BackChannelSlots : option SlotTable;
  ss_ForeChannelAttrs : ChannelAttrs;
  ss_BackChannelAttrs : ChannelAttrs;
  ss_Flags : Z;
  ss_CbProgram : Z;
  ss_CreatedAt : Z;
  ss_BackchannelSecParms : list CallbackSecParms4;
  ss_backchannelSender : option Z;
}.

Inductive ConnectionDirection := ConnDirFore | ConnDirBack | ConnDirBoth.

Inductive ConnectionType := ConnTypeTCP | ConnTypeRDMA.

Record BoundConnection := mkBinding {
  bc_ConnectionID : Z;
  bc_SessionID : SessionId4;
  bc_Direction : ConnectionDirection;
  bc_ConnType : ConnectionType;
  bc_BoundAt : Z;
  bc_LastActivity : Z;
  bc_Draining : bool;
}.

Definition is_fore (d : ConnectionDirection) : bool := match d with ConnDirBack => false | _ => true end.
Definition is_back (d : ConnectionDirection) : bool := match d with ConnDirFore => false | _ => true end.

Record ServerIdentity := mkIdentity { id_ServerOwner : ServerOwner4; id_ServerScope : bytes; id_ImplID : NfsImplId4 }.

(** The host name, [None] when it cannot be read, and the build date. *)
Definition newServerIdentity (hostname : option bytes) (buildDate : Z * Z) (bootEpoch : Z) : ServerIdentity :=
  let hostname := match hostname with
                  | Some h => if bool_decide (h = []) then [100; 105; 116; 116; 111; 102; 115; 45; 117; 110; 107; 110; 111; 119; 110] else h
                  | None => [100; 105; 116; 116; 111; 102; 115; 45; 117; 110; 107; 110; 111; 119; 110]
                  end in
  mkIdentity (mkServerOwner bootEpoch hostname) hostname
    (mkImplId [100; 105; 116; 116; 111; 102; 115; 46; 105; 111] [100; 105; 116; 116; 111; 102; 115] buildDate.1 buildDate.2).

(** ** State *)

Record Heap41 := mkHeap41 {
  h41_clients : gmap ptr V41ClientRecord;
  h41_sessions : gmap ptr Session;
  h41_conns : gmap ptr BoundConnection;
  h41_next : ptr;
}.

Record Tables41 := mkTables41 {
  v41ClientsByID : gmap Z ptr;
  v41ClientsByOwner : gmap string ptr;
  sessionsByID : gmap SessionId4 ptr;
  sessionsByClientID : gmap Z (list ptr);
  connByID : gmap Z ptr;
  connBySession : gmap SessionId4 (list ptr);
}.

(** Which connections have a registered writer and pending-reply table, and which
    clients a failed callback. *)
Record Backchannel := mkBackchannel {
  connWriters : gset Z;
  cbRepliesByConn : gset Z;
  backchannelFaults : gset Z;
}.

Record Config41 := mkConfig41 {
  maxSessionsPerClient : Z;
  foreMaxSlots : Z;
  maxConnsPerSession : Z;
  serverIdentity : ServerIdentity;
}.

Record Server := mkServer {
  sv_sm : StateManager;
  sv_heap : Heap41;
  sv_tab : Tables41;
  sv_back : Backchannel;
  sv_cfg : Config41;
}.

Definition with_sm (x : StateManager) (s : Server) : Server := mkServer x (sv_heap s) (sv_tab s) (sv_back s) (sv_cfg s).
Definition with_heap41 (x : Heap41) (s : Server) : Server := mkServer (sv_sm s) x (sv_tab s) (sv_back s) (sv_cfg s).
Definition with_tab41 (x : Tables41) (s : Server) : Server := mkServer (sv_sm s) (sv_heap s) x (sv_back s) (sv_cfg s).
Definition with_back (x : Backchannel) (s : Server) : Server := mkServer (sv_sm s) (sv_heap s) (sv_tab s) x (sv_cfg s).
Definition with_cfg (x : Config41) (s : Server) : Server := mkServer (sv_sm s) (sv_heap s) (sv_tab s) (sv_back s) x.

Definition set_v41clients (x : gmap ptr V41ClientRecord) (h : Heap41) : Heap41 :=
  mkHeap41 x (h41_sessions h) (h41_conns h) (h41_next h).
Definition set_sessions (x : gmap ptr Session) (h : Heap41) : Heap41 := mkHeap41 (h41_clients h) x (h41_conns h) (h41_next h).
Definition set_conns (x : gmap ptr BoundConnection) (h : Heap41) : Heap41 :=
  mkHeap41 (h41_clients h) (h41_sessions h) x (h41_next h).
Definition set_next41 (n : ptr) (h : Heap41) : Heap41 := mkHeap41 (h41_clients h) (h41_sessions h) (h41_conns h) n.

Definition set_byID (x : gmap Z ptr) (t : Tables41) : Tables41 :=
  mkTables41 x (v41ClientsByOwner t) (sessionsByID t) (sessionsByClientID t) (connByID t) (connBySession t).
Definition set_byOwner (x : gmap string ptr) (t : Tables41) : Tables41 :=
  mkTables41 (v41ClientsByID t) x (sessionsByID t) (sessionsByClientID t) (connByID t) (connBySession t).
Definition set_sessionsByID (x : gmap SessionId4 ptr) (t : Tables41) : Tables41 :=
  mkTables41 (v41ClientsByID t) (v41ClientsByOwner t) x (sessionsByClientID t) (connByID t) (connBySession t).
Definition set_sessionsByClient (x : gmap Z (list ptr)) (t : Tables41) : Tables41 :=
  mkTables41 (v41ClientsByID t) (v41ClientsByOwner t) (sessionsByID t) x (connByID t) (connBySession t).
Definition set_connByID (x : gmap Z ptr) (t : Tables41) : Tables41 :=
  mkTables41 (v41ClientsByID t) (v41ClientsByOwner t) (sessionsByID t) (sessionsByClientID t) x (connBySession t).
Definition set_connBySession (x : gmap SessionId4 (list ptr)) (t : Tables41) : Tables41 :=
  mkTables41 (v41ClientsByID t) (v41ClientsByOwner t) (sessionsByID t) (sessionsByClientID t) (connByID t) x.

(** ** Operations *)

Definition SOp (A : Type) : Type := Server -> (NErr + A) * Server.

#[export] Instance SOp_ret : MRet SOp := fun A a s => (inr a, s).
#[export] Instance SOp_bind : MBind SOp := fun A B k m s =>
  match m s with
  | (inl e, s') => (inl e, s')
  | (inr a, s') => k a s'
  end.

Definition s_throw {A} (e : NErr) : SOp A := fun s => (inl e, s).
Definition s_gets {A} (f : Server -> A) : SOp A := fun s => (inr (f s), s).
Definition s_modify (f : Server -> Server) : SOp unit := fun s => (inr tt, f s).
Definition s_check (ok : bool) (e : NErr) : SOp unit := if ok then mret tt else s_throw e.
Definition s_need {A} (o : option A) (e : NErr) : SOp A := match o with Some a => mret a | None => s_throw e end.
Definition s_heap (f : Heap41 -> Heap41) : SOp unit := s_modify (fun s => with_heap41 (f (sv_heap s)) s).
Definition s_tab (f : Tables41 -> Tables41) : SOp unit := s_modify (fun s => with_tab41 (f (sv_tab s)) s).
Definition s_deref {A} (sel : Heap41 -> gmap ptr A) (p : ptr) : SOp A := fun s =>
  match sel (sv_heap s) !! p with Some x => (inr x, s) | None => (inl NPanic, s) end.
Definition s_new {A} (sel : Heap41 -> gmap ptr A) (set : gmap ptr A -> Heap41 -> Heap41) (x : A) : SOp ptr := fun s =>
  let h := sv_heap s in
  (inr (h41_next h), with_heap41 (set_next41 (S (h41_next h)) (set (<[h41_next h := x]> (sel h)) h)) s).

(** A method of the other half. *)
Definition on_sm {A} (m : Op A) : SOp A := fun s => let r := m (sv_sm s) in (r.1, with_sm r.2 s).

Fixpoint s_forM {A} (l : list A) (f : A -> SOp unit) : SOp unit :=
  match l with [] => mret tt | a :: l => f a;; s_forM l f end.

Definition upd_v41client (p : ptr) (f : V41ClientRecord -> V41ClientRecord) : SOp unit :=
  s_heap (fun h => set_v41clients (alter f p (h41_clients h)) h).
Definition upd_session (p : ptr) (f : Session -> Session) : SOp unit :=
  s_heap (fun h => set_sessions (alter f p (h41_sessions h)) h).
Definition upd_conn (p : ptr) (f : BoundConnection -> BoundConnection) : SOp unit :=
  s_heap (fun h => set_conns (alter f p (h41_conns h)) h).

(** [append(l[:i], l[i+1:]...)] for the first [i] that satisfies the test. *)
Fixpoint remove_first {A} (test : A -> bool) (l : list A) : list A :=
  match l with [] => [] | x :: l => if test x then l else x :: remove_first test l end.

(** The list a map holds under a key, dropped when it is empty. *)
Definition put_list {K} `{EqDecision K, Countable K} {A} (k : K) (l : list A) (m : gmap K (list A)) : gmap K (list A) :=
  match l with [] => delete k m | _ => <[k := l]> m end.

Definition set_vc_contact (addr principal : string) (now : Z) (c : V41ClientRecord) : V41ClientRecord :=
  mkV41Client (vc_ClientID c) (vc_OwnerID c) (vc_Verifier c) (vc_Impl c) (vc_SequenceID c) (vc_Confirmed c)
    addr principal (vc_CreatedAt c) now (vc_Lease c) (vc_CachedCreateSessionRes c).
Definition set_vc_impl (i : NfsImplId4) (c : V41ClientRecord) : V41ClientRecord :=
  mkV41Client (vc_ClientID c) (vc_OwnerID c) (vc_Verifier c) i (vc_SequenceID c) (vc_Confirmed c)
    (vc_ClientAddr c) (vc_Principal c) (vc_CreatedAt c) (vc_LastRenewal c) (vc_Lease c) (vc_CachedCreateSessionRes c).
Definition set_vc_lease (l : option LeaseState) (now : Z) (c : V41ClientRecord) : V41ClientRecord :=
  mkV41Client (vc_ClientID c) (vc_OwnerID c) (vc_Verifier c) (vc_Impl c) (vc_SequenceID c) (vc_Confirmed c)
    (vc_ClientAddr c) (vc_Principal c) (vc_CreatedAt c) now l (vc_CachedCreateSessionRes c).
Definition set_vc_confirmed (c : V41ClientRecord) : V41ClientRecord :=
  mkV41Client (vc_ClientID c) (vc_OwnerID c) (vc_Verifier c) (vc_Impl c) (vc_SequenceID c) true
    (vc_ClientAddr c) (vc_Principal c) (vc_CreatedAt c) (vc_LastRenewal c) (vc_Lease c) (vc_CachedCreateSessionRes c).
Definition set_vc_cached (b : option bytes) (c : V41ClientRecord) : V41ClientRecord :=
  mkV41Client (vc_ClientID c) (vc_OwnerID c) (vc_Verifier c) (vc_Impl c) (vc_SequenceID c) (vc_Confirmed c)
    (vc_ClientAddr c) (vc_Principal c) (vc_CreatedAt c) (vc_LastRenewal c) (vc_Lease c) b.
(** [record.SequenceID++] *)
Definition bump_vc (c : V41ClientRecord) : V41ClientRecord :=
  mkV41Client (vc_ClientID c) (vc_OwnerID c) (vc_Verifier c) (vc_Impl c) (u32 (vc_SequenceID c + 1)) (vc_Confirmed c)
    (vc_ClientAddr c) (vc_Principal c) (vc_CreatedAt c) (vc_LastRenewal c) (vc_Lease c) (vc_CachedCreateSessionRes c).

Definition set_sender (x : option Z) (s : Session) : Session :=
  mkSession (ss_SessionID s) (ss_ClientID s) (ss_ForeChannelSlots s) (ss_BackChannelSlots s) (ss_ForeChannelAttrs s)
    (ss_BackChannelAttrs s) (ss_Flags s) (ss_CbProgram s) (ss_CreatedAt s) (ss_BackchannelSecParms s) x.
Definition set_fore_slots (x : SlotTable) (s : Session) : Session :=
  mkSession (ss_SessionID s) (ss_ClientID s) x (ss_BackChannelSlots s) (ss_ForeChannelAttrs s)
    (ss_BackChannelAttrs s) (ss_Flags s) (ss_CbProgram s) (ss_CreatedAt s) (ss_BackchannelSecParms s) (ss_backchannelSender s).
Definition set_cb (prog : Z) (parms : list CallbackSecParms4) (s : Session) : Session :=
  mkSession (ss_SessionID s) (ss_ClientID s) (ss_ForeChannelSlots s) (ss_BackChannelSlots s) (ss_ForeChannelAttrs s)
    (ss_BackChannelAttrs s) (ss_Flags s) prog (ss_CreatedAt s) parms
    (match ss_backchannelSender s with Some _ => Some prog | None => None end).
Definition set_activity (now : Z) (b : BoundConnection) : BoundConnection :=
  mkBinding (bc_ConnectionID b) (bc_SessionID b) (bc_Direction b) (bc_ConnType b) (bc_BoundAt b) now (bc_Draining b).
Definition set_draining (x : bool) (b : BoundConnection) : BoundConnection :=
  mkBinding (bc_ConnectionID b) (bc_SessionID b) (bc_Direction b) (bc_ConnType b) (bc_BoundAt b) (bc_LastActivity b) x.

(** ** Channel attributes *)

Record ChannelLimits := mkLimits {
  cl_MaxSlots : Z;
  cl_MaxRequestSize : Z;
  cl_MaxResponseSize : Z;
  cl_MaxResponseSizeCached : Z;
  cl_MinRequestSize : Z;
  cl_MinResponseSize : Z;
}.

Definition DefaultForeLimits : ChannelLimits := mkLimits 64 1048576 1048576 65536 8192 8192.
Definition DefaultBackLimits : ChannelLimits := mkLimits 32 65536 65536 65536 8192 8192.
(** [foreLimits.MaxSlots = n] *)
Definition limit_slots (n : Z) (l : ChannelLimits) : ChannelLimits :=
  mkLimits n (cl_MaxRequestSize l) (cl_MaxResponseSize l) (cl_MaxResponseSizeCached l) (cl_MinRequestSize l)
    (cl_MinResponseSize l).

Definition clampUint32 (v lo hi : Z) : Z := Z.min (Z.max v lo) hi.

Definition negotiateChannelAttrs (requested : ChannelAttrs) (limits : ChannelLimits) : ChannelAttrs :=
  mkChannelAttrs 0
    (Z.min (ca_MaxRequestSize requested) (cl_MaxRequestSize limits))
    (Z.min (ca_MaxResponseSize requested) (cl_MaxResponseSize limits))
    (Z.min (ca_MaxResponseSizeCached requested) (cl_MaxResponseSizeCached limits))
    (Z.min (ca_MaxOperations requested) MaxCompoundOps)
    (clampUint32 (ca_MaxRequests requested) 1 (cl_MaxSlots limits)) [].

Definition HasAcceptableCallbackSecurity (secParms : list CallbackSecParms4) : bool :=
  match secParms with
  | [] => true
  | _ => existsb (fun sp => (cs_CbSecFlavor sp =? 0) || (cs_CbSecFlavor sp =? 1)) secParms
  end.

(** ** Connections *)

Definition negotiateDirection (clientDir : Z) : ConnectionDirection * Z :=
  if clientDir =? CDFC4_FORE then (ConnDirFore, CDFS4_FORE)
  else if clientDir =? CDFC4_BACK then (ConnDirBack, CDFS4_BACK)
  else if clientDir =? CDFC4_FORE_OR_BOTH then (ConnDirBoth, CDFS4_BOTH)
  else if clientDir =? CDFC4_BACK_OR_BOTH then (ConnDirBoth, CDFS4_BOTH)
  else (ConnDirFore, CDFS4_FORE).

(** The bindings of a session, in order. *)
Definition bindings_of (s : Server) (sessionID : SessionId4) : list BoundConnection :=
  omap (fun p => h41_conns (sv_heap s) !! p) (default [] (connBySession (sv_tab s) !! sessionID)).

Definition is_conn (connectionID : Z) (h : Heap41) (p : ptr) : bool :=
  match h41_conns h !! p with Some b => bc_ConnectionID b =? connectionID | None => false end.

Definition removeConnFromSessionLocked (connectionID : Z) (sessionID : SessionId4) : SOp unit :=
  s_modify (fun s => with_tab41 (set_connBySession
    (put_list sessionID
       (remove_first (is_conn connectionID (sv_heap s)) (default [] (connBySession (sv_tab s) !! sessionID)))
       (connBySession (sv_tab s))) (sv_tab s)) s).

Definition drop_writer (connectionID : Z) : SOp unit :=
  s_modify (fun s => with_back (mkBackchannel (connWriters (sv_back s) ∖ {[connectionID]})
    (cbRepliesByConn (sv_back s) ∖ {[connectionID]}) (backchannelFaults (sv_back s))) s).

Definition unbindConnectionLocked (connectionID : Z) : SOp unit :=
  o ← s_gets (fun s => connByID (sv_tab s) !! connectionID);
  match o with
  | None => mret tt
  | Some p =>
      binding ← s_deref h41_conns p;
      s_tab (fun t => set_connByID (delete connectionID (connByID t)) t);;
      removeConnFromSessionLocked connectionID (bc_SessionID binding);;
      drop_writer connectionID
  end.

Definition UnbindConnection (connectionID : Z) : SOp unit := unbindConnectionLocked connectionID.

(** A connection bound to another session leaves it first. *)
Definition leave_other_session (connectionID : Z) (sessionID : SessionId4) : SOp unit :=
  o ← s_gets (fun s => connByID (sv_tab s) !! connectionID);
  match o with
  | None => mret tt
  | Some p =>
      existing ← s_deref h41_conns p;
      if bool_decide (bc_SessionID existing <> sessionID) then unbindConnectionLocked connectionID else mret tt
  end.

Definition BindConnToSession (now connectionID : Z) (sessionID : SessionId4) (clientDir : Z) : SOp Z :=
  exists_ ← s_gets (fun s => bool_decide (is_Some (sessionsByID (sv_tab s) !! sessionID)));
  s_check exists_ ErrBadSession;;
  let '(direction, serverDir) := negotiateDirection clientDir in
  leave_other_session connectionID sessionID;;
  bindings ← s_gets (fun s => bindings_of s sessionID);
  max ← s_gets (fun s => maxConnsPerSession (sv_cfg s));
  let others := List.filter (fun b => negb (bc_ConnectionID b =? connectionID)) bindings in
  let isRebind := existsb (fun b => bc_ConnectionID b =? connectionID) bindings in
  s_check (negb ((0 <? max) && negb isRebind && (max <=? Z.of_nat (length bindings)))) (NFS4StateError NFS4ERR_RESOURCE);;
  s_check (match direction with ConnDirBack => existsb (fun b => is_fore (bc_Direction b)) others | _ => true end)
    (NFS4StateError NFS4ERR_INVAL);;
  removeConnFromSessionLocked connectionID sessionID;;
  p ← s_new h41_conns set_conns (mkBinding connectionID sessionID direction ConnTypeTCP now now false);
  s_tab (fun t => set_connByID (<[connectionID := p]> (connByID t)) t);;
  s_tab (fun t => set_connBySession
    (<[sessionID := default [] (connBySession t !! sessionID) ++ [p]]> (connBySession t)) t);;
  mret serverDir.

Definition GetConnectionBindings (s : Server) (sessionID : SessionId4) : list BoundConnection := bindings_of s sessionID.
Definition GetConnectionBinding (s : Server) (connectionID : Z) : option BoundConnection :=
  connByID (sv_tab s) !! connectionID ≫= fun p => h41_conns (sv_heap s) !! p.

Definition UpdateConnectionActivity (now connectionID : Z) : SOp unit :=
  o ← s_gets (fun s => connByID (sv_tab s) !! connectionID);
  match o with None => mret tt | Some p => upd_conn p (set_activity now) end.

Definition SetConnectionDraining (connectionID : Z) (draining : bool) : SOp unit :=
  o ← s_gets (fun s => connByID (sv_tab s) !! connectionID);
  match o with None => s_throw NPlainError | Some p => upd_conn p (set_draining draining) end.

Definition IsConnectionDraining (s : Server) (connectionID : Z) : bool :=
  match GetConnectionBinding s connectionID with Some b => bc_Draining b | None => false end.

Definition set_cfg (a b c : Z) (s : Server) : Server := with_cfg (mkConfig41 a b c (serverIdentity (sv_cfg s))) s.

Definition SetMaxConnectionsPerSession (max : Z) : SOp unit :=
  s_modify (fun s => if 0 <=? max then set_cfg (maxSessionsPerClient (sv_cfg s)) (foreMaxSlots (sv_cfg s)) max s else s).
Definition SetMaxSessionSlots (n : Z) : SOp unit :=
  s_modify (fun s => if n <=? 0 then s else
    let n := if DefaultMaxSlots <? n then DefaultMaxSlots else n in
    set_cfg (maxSessionsPerClient (sv_cfg s)) (u32 n) (maxConnsPerSession (sv_cfg s)) s).
Definition SetMaxSessionsPerClient (n : Z) : SOp unit :=
  s_modify (fun s => if 0 <? n then set_cfg n (foreMaxSlots (sv_cfg s)) (maxConnsPerSession (sv_cfg s)) s else s).

Definition RegisterConnWriter (connectionID : Z) : SOp unit :=
  s_modify (fun s => with_back (mkBackchannel ({[connectionID]} ∪ connWriters (sv_back s))
    ({[connectionID]} ∪ cbRepliesByConn (sv_back s)) (backchannelFaults (sv_back s))) s).
Definition UnregisterConnWriter (connectionID : Z) : SOp unit := drop_writer connectionID.

Definition setBackchannelFault (clientID : Z) (fault : bool) : SOp unit :=
  s_modify (fun s => with_back (mkBackchannel (connWriters (sv_back s)) (cbRepliesByConn (sv_back s))
    (if fault then {[clientID]} ∪ backchannelFaults (sv_back s) else backchannelFaults (sv_back s) ∖ {[clientID]})) s).

(** ** Sessions *)

Definition GetSession (s : Server) (sessionID : SessionId4) : option (ptr * Session) :=
  p ← sessionsByID (sv_tab s) !! sessionID; x ← h41_sessions (sv_heap s) !! p; Some (p, x).

(** The sessions of a client, in order of creation. *)
Definition ListSessionsForClient (s : Server) (clientID : Z) : list Session :=
  omap (fun p => h41_sessions (sv_heap s) !! p) (default [] (sessionsByClientID (sv_tab s) !! clientID)).

Definition hasBackBoundConnection (s : Server) (clientID : Z) : bool :=
  existsb (fun session => existsb (fun b => is_back (bc_Direction b)) (bindings_of s (ss_SessionID session)))
    (ListSessionsForClient s clientID).

Definition getBackchannelSender (s : Server) (clientID : Z) : option Z :=
  head (omap ss_backchannelSender (ListSessionsForClient s clientID)).

(** The back-bound connection with the latest activity, the first of them in case
    of a tie. *)
Definition best_conn (best : option BoundConnection) (b : BoundConnection) : option BoundConnection :=
  match best with
  | None => Some b
  | Some x => if bc_LastActivity x <? bc_LastActivity b then Some b else best
  end.

Definition getBackBoundConnWriter (s : Server) (sessionID : SessionId4) (excludeConnID : Z) : option Z :=
  let candidates := List.filter (fun b => negb (bc_ConnectionID b =? excludeConnID) && is_back (bc_Direction b))
                      (bindings_of s sessionID) in
  match fold_left best_conn candidates None with
  | None => None
  | Some b => if bool_decide (bc_ConnectionID b ∈ connWriters (sv_back s)) &&
                 bool_decide (bc_ConnectionID b ∈ cbRepliesByConn (sv_back s))
              then Some (bc_ConnectionID b) else None
  end.

Definition stopBackchannelSender (sessionID : SessionId4) : SOp unit :=
  o ← s_gets (fun s => sessionsByID (sv_tab s) !! sessionID);
  match o with None => mret tt | Some p => upd_session p (set_sender None) end.

Definition StartBackchannelSender (sessionID : SessionId4) : SOp unit :=
  o ← s_gets (fun s => sessionsByID (sv_tab s) !! sessionID);
  match o with
  | None => mret tt
  | Some p =>
      session ← s_deref h41_sessions p;
      match ss_BackChannelSlots session, ss_backchannelSender session with
      | Some _, None => upd_session p (set_sender (Some (ss_CbProgram session)))
      | _, _ => mret tt
      end
  end.

Definition UpdateBackchannelParams (sessionID : SessionId4) (cbProgram : Z) (secParms : list CallbackSecParms4) : SOp unit :=
  o ← s_gets (fun s => sessionsByID (sv_tab s) !! sessionID);
  p ← s_need o ErrBadSession;
  upd_session p (set_cb cbProgram secParms).

Definition is_session (sessionID : SessionId4) (h : Heap41) (p : ptr) : bool :=
  match h41_sessions h !! p with Some x => bool_decide (ss_SessionID x = sessionID) | None => false end.

(** Every binding of the session is forgotten. *)
Definition drop_bindings (sessionID : SessionId4) : SOp unit :=
  s_modify (fun s =>
    let ids := (fun b => bc_ConnectionID b) <$> bindings_of s sessionID in
    let t := sv_tab s in
    with_tab41 (set_connBySession (delete sessionID (connBySession t))
      (set_connByID (foldr delete (connByID t) ids) t)) s).

Definition destroySessionLocked (sessionID : SessionId4) (force : bool) : SOp unit :=
  o ← s_gets (fun s => sessionsByID (sv_tab s) !! sessionID);
  p ← s_need o ErrBadSession;
  session ← s_deref h41_sessions p;
  s_check (force || negb (HasInFlightRequests (ss_ForeChannelSlots session))) ErrDelay;;
  stopBackchannelSender sessionID;;
  s_tab (fun t => set_sessionsByID (delete sessionID (sessionsByID t)) t);;
  s_modify (fun s => with_tab41 (set_sessionsByClient
    (put_list (ss_ClientID session)
       (remove_first (is_session sessionID (sv_heap s)) (default [] (sessionsByClientID (sv_tab s) !! ss_ClientID session)))
       (sessionsByClientID (sv_tab s))) (sv_tab s)) s);;
  drop_bindings sessionID.

Definition DestroySession (sessionID : SessionId4) : SOp unit := destroySessionLocked sessionID false.
Definition ForceDestroySession (sessionID : SessionId4) : SOp unit := destroySessionLocked sessionID true.

(** ** Clients *)

Definition v41RecoveryKey (ownerID : string) : string := "v41:" +:+ hex_EncodeToString ownerID.

(** The date is kept when the new one is zero. *)
Definition applyImplInfo (clientImplId : list NfsImplId4) (c : V41ClientRecord) : V41ClientRecord :=
  match clientImplId with
  | [] => c
  | i :: _ =>
      if (im_Seconds i =? 0) && (im_Nseconds i =? 0)
      then set_vc_impl (mkImplId (im_Domain i) (im_Name i) (im_Seconds (vc_Impl c)) (im_Nseconds (vc_Impl c))) c
      else set_vc_impl i c
  end.

Definition createV41Client (now : Z) (ownerID : string) (verifier : bytes) (clientImplId : list NfsImplId4)
    (clientAddr principal : string) : SOp ptr :=
  clientID ← on_sm generateClientID;
  p ← s_new h41_clients set_v41clients
        (applyImplInfo clientImplId
           (mkV41Client clientID ownerID verifier (mkImplId [] [] 0 0) 0 false clientAddr principal now now None None));
  s_tab (fun t => set_byID (<[clientID := p]> (v41ClientsByID t)) t);;
  s_tab (fun t => set_byOwner (<[ownerID := p]> (v41ClientsByOwner t)) t);;
  mret p.

(** The source also calls [cleanupDirDelegation] for each revoked delegation, which
    stops its timers and drops its queued notifications; neither is state here. *)
Definition purgeV41Client (p : ptr) : SOp unit :=
  record ← s_deref h41_clients p;
  (if vc_Confirmed record then on_sm (deleteClientRecoveryLocked (v41RecoveryKey (vc_OwnerID record))) else mret tt);;
  upd_v41client p (fun c => set_vc_lease (StopLease <$> vc_Lease c) (vc_LastRenewal c) c);;
  on_sm (release_delegations true (vc_ClientID record));;
  sessions ← s_gets (fun s => ListSessionsForClient s (vc_ClientID record));
  s_forM sessions (fun session =>
    stopBackchannelSender (ss_SessionID session);;
    s_tab (fun t => set_sessionsByID (delete (ss_SessionID session) (sessionsByID t)) t));;
  s_tab (fun t => set_sessionsByClient (delete (vc_ClientID record) (sessionsByClientID t)) t);;
  s_tab (fun t => set_byID (delete (vc_ClientID record) (v41ClientsByID t)) t);;
  s_tab (fun t => if decide (v41ClientsByOwner t !! vc_OwnerID record = Some p)
                  then set_byOwner (delete (vc_OwnerID record) (v41ClientsByOwner t)) t else t).

Record ExchangeIDResult := mkExchangeIDResult {
  xr_ClientID : Z;
  xr_SequenceID : Z;
  xr_Flags : Z;
  xr_ServerOwner : ServerOwner4;
  xr_ServerScope : bytes;
  xr_ServerImplId : list NfsImplId4;
}.

Definition ExchangeID (now : Z) (ownerID : string) (verifier : bytes) (clientImplId : list NfsImplId4)
    (clientAddr princ : string) : SOp ExchangeIDResult :=
  existing ← s_gets (fun s => v41ClientsByOwner (sv_tab s) !! ownerID);
  p ← match existing with
      | None => createV41Client now ownerID verifier clientImplId clientAddr princ
      | Some p =>
          old ← s_deref h41_clients p;
          if bool_decide (vc_Verifier old = verifier) then
            s_check (negb (bool_decide (vc_Principal old <> ""%string) && bool_decide (princ <> ""%string) &&
                           bool_decide (vc_Principal old <> princ))) ErrClientIDInUse;;
            upd_v41client p (fun c => applyImplInfo clientImplId
              (set_vc_contact clientAddr (if bool_decide (princ <> ""%string) then princ else vc_Principal c) now c));;
            mret p
          else
            purgeV41Client p;;
            createV41Client now ownerID verifier clientImplId clientAddr princ
      end;
  record ← s_deref h41_clients p;
  identity ← s_gets (fun s => serverIdentity (sv_cfg s));
  mret (mkExchangeIDResult (vc_ClientID record) (u32 (vc_SequenceID record + 1))
    (EXCHGID4_FLAG_USE_NON_PNFS .| (if vc_Confirmed record then EXCHGID4_FLAG_CONFIRMED_R else 0))
    (id_ServerOwner identity) (id_ServerScope identity) [id_ImplID identity]).

Definition EvictV41Client (clientID : Z) : SOp unit :=
  o ← s_gets (fun s => v41ClientsByID (sv_tab s) !! clientID);
  p ← s_need o NPlainError;
  purgeV41Client p.

Definition DestroyV41ClientID (clientID : Z) : SOp unit :=
  o ← s_gets (fun s => v41ClientsByID (sv_tab s) !! clientID);
  p ← s_need o (NFS4StateError NFS4ERR_STALE_CLIENTID);
  sessions ← s_gets (fun s => default [] (sessionsByClientID (sv_tab s) !! clientID));
  s_check (match sessions with [] => true | _ => false end) (NFS4StateError NFS4ERR_CLIENTID_BUSY);;
  purgeV41Client p;;
  on_sm (op_modify (fun s => with_grace (ClientReclaimed clientID <$> sm_grace s) s)).

Definition ListV41Clients (s : Server) : list V41ClientRecord :=
  omap (fun e => h41_clients (sv_heap s) !! e.2) (map_to_list (v41ClientsByID (sv_tab s))).

Definition RenewV41Lease (now clientID : Z) : SOp unit :=
  o ← s_gets (fun s => v41ClientsByID (sv_tab s) !! clientID);
  match o with
  | None => mret tt
  | Some p => upd_v41client p (fun c => set_vc_lease (Renew now <$> vc_Lease c) now c)
  end.

(** Whether the lease of a record ran out. *)
Definition lease_over (now : Z) (c : V41ClientRecord) : bool :=
  match vc_Lease c with Some l => IsExpired now l | None => false end.

Definition GetStatusFlags (now : Z) (s : Server) (session : Session) : Z :=
  let clientID := ss_ClientID session in
  let record := v41ClientsByID (sv_tab s) !! clientID ≫= fun p => h41_clients (sv_heap s) !! p in
  (if match ss_BackChannelSlots session with None => true | Some _ => negb (hasBackBoundConnection s clientID) end
   then SEQ4_STATUS_CB_PATH_DOWN else 0) .|
  (if bool_decide (clientID ∈ backchannelFaults (sv_back s)) then SEQ4_STATUS_BACKCHANNEL_FAULT else 0) .|
  (if match record with Some c => lease_over now c | None => false end
   then SEQ4_STATUS_EXPIRED_ALL_STATE_REVOKED else 0) .|
  (if 0 <? default 0 (revokedDelegCount (sm_del (sv_sm s)) !! clientID)
   then SEQ4_STATUS_RECALLABLE_STATE_REVOKED else 0).

(** ** CREATE_SESSION *)

Section CreateSession.
Context `{L : Nfs4Lib}.

Definition NewSession (now clientID : Z) (foreAttrs backAttrs : ChannelAttrs) (flags cbProgram : Z) : SOp Session :=
  n ← on_sm next_call;
  mret (mkSession (random n) clientID (NewSlotTable (ca_MaxRequests foreAttrs))
    (if has flags CREATE_SESSION4_FLAG_CONN_BACK_CHAN then Some (NewSlotTable (ca_MaxRequests backAttrs)) else None)
    foreAttrs backAttrs flags cbProgram now [] None).

Record CreateSessionResult := mkCreateSessionResult {
  cr_SessionID : SessionId4;
  cr_SequenceID : Z;
  cr_Flags : Z;
  cr_ForeChannelAttrs : ChannelAttrs;
  cr_BackChannelAttrs : ChannelAttrs;
  cr_EncodedRes : bytes;
}.

(** The session is registered, the client confirmed on its first one. *)
Definition register_session (now : Z) (p : ptr) (record : V41ClientRecord) (session : Session) : SOp unit :=
  q ← s_new h41_sessions set_sessions session;
  s_tab (fun t => set_sessionsByID (<[ss_SessionID session := q]> (sessionsByID t)) t);;
  s_tab (fun t => set_sessionsByClient
    (<[ss_ClientID session := default [] (sessionsByClientID t !! ss_ClientID session) ++ [q]]> (sessionsByClientID t)) t);;
  if vc_Confirmed record then mret tt
  else
    d ← s_gets (fun s => sm_leaseDuration (sv_sm s));
    upd_v41client p (fun c => set_vc_lease (Some (NewLeaseState d now)) now (set_vc_confirmed c));;
    on_sm (persistClientRecoveryLocked now (vc_ClientID record) (v41RecoveryKey (vc_OwnerID record))
             (vc_Verifier record) (vc_Principal record)).

Definition CreateSession (now clientID sequenceID flags : Z) (foreAttrs backAttrs : ChannelAttrs) (cbProgram : Z)
    : SOp (CreateSessionResult + bytes) :=
  o ← s_gets (fun s => v41ClientsByID (sv_tab s) !! clientID);
  p ← s_need o ErrStaleClientID;
  record ← s_deref h41_clients p;
  if sequenceID =? vc_SequenceID record then
    cached ← s_need (vc_CachedCreateSessionRes record) ErrSeqMisordered;
    mret (inr cached)
  else
    s_check (sequenceID =? u32 (vc_SequenceID record + 1)) ErrSeqMisordered;;
    sessions ← s_gets (fun s => default [] (sessionsByClientID (sv_tab s) !! clientID));
    cfg ← s_gets sv_cfg;
    s_check (Z.of_nat (length sessions) <? maxSessionsPerClient cfg) ErrTooManySessions;;
    let negotiatedFore := negotiateChannelAttrs foreAttrs (limit_slots (foreMaxSlots cfg) DefaultForeLimits) in
    let negotiatedBack := negotiateChannelAttrs backAttrs DefaultBackLimits in
    let responseFlags := flags .&^ CREATE_SESSION4_FLAG_PERSIST .&^ CREATE_SESSION4_FLAG_CONN_RDMA in
    session ← NewSession now clientID negotiatedFore negotiatedBack responseFlags cbProgram;
    register_session now p record session;;
    upd_v41client p bump_vc;;
    let seq := u32 (vc_SequenceID record + 1) in
    encoded ← s_need (CreateSessionRes_Encode (mkCreateSessionRes NFS4_OK (ss_SessionID session) seq responseFlags
                        negotiatedFore negotiatedBack)) (NFS4StateError NFS4ERR_SERVERFAULT);
    upd_v41client p (set_vc_cached (Some encoded));;
    mret (inl (mkCreateSessionResult (ss_SessionID session) seq responseFlags negotiatedFore negotiatedBack encoded)).
End CreateSession.

Definition CacheCreateSessionResponse (clientID : Z) (responseBytes : bytes) : SOp unit :=
  o ← s_gets (fun s => v41ClientsByID (sv_tab s) !! clientID);
  match o with None => mret tt | Some p => upd_v41client p (set_vc_cached (Some responseBytes)) end.

(** ** Reaping *)

(** What the reaper purges: an expired lease, or an unconfirmed client older than
    two leases. *)
Definition reapable (now leaseDuration : Z) (c : V41ClientRecord) : bool :=
  lease_over now c || (negb (vc_Confirmed c) && (2 * leaseDuration <? now - vc_CreatedAt c)).

Definition to_purge (now : Z) (s : Server) : list ptr :=
  List.filter (fun p => match h41_clients (sv_heap s) !! p with
                        | Some c => reapable now (sm_leaseDuration (sv_sm s)) c
                        | None => false
                        end) (snd <$> map_to_list (v41ClientsByID (sv_tab s))).

(** Bindings to a session that no longer exists are dropped. *)
Definition drop_orphan (e : Z * ptr) : SOp unit :=
  binding ← s_deref h41_conns e.2;
  o ← s_gets (fun s => sessionsByID (sv_tab s) !! bc_SessionID binding);
  match o with
  | Some _ => mret tt
  | None =>
      s_tab (fun t => set_connByID (delete e.1 (connByID t)) t);;
      removeConnFromSessionLocked e.1 (bc_SessionID binding)
  end.

Definition reapExpiredSessions (now : Z) : SOp unit :=
  l ← s_gets (to_purge now);
  s_forM l purgeV41Client;;
  conns ← s_gets (fun s => map_to_list (connByID (sv_tab s)));
  s_forM conns drop_orphan.

(** ** Reclaim *)

Definition recoveryKeyForClientLocked (s : Server) (clientID : Z) : string :=
  match clientsByID (sm_tab (sv_sm s)) !! clientID ≫= fun p => h_clients (sm_heap (sv_sm s)) !! p with
  | Some c => cr_ClientIDString c
  | None =>
      match v41ClientsByID (sv_tab s) !! clientID ≫= fun p => h41_clients (sv_heap s) !! p with
      | Some c => v41RecoveryKey (vc_OwnerID c)
      | None => ""%string
      end
  end.

Definition sm_ReclaimComplete (clientID : Z) : SOp unit :=
  recoveryKey ← s_gets (fun s => recoveryKeyForClientLocked s clientID);
  (if bool_decide (recoveryKey = ""%string) then mret tt
   else
     on_sm (op_modify (fun s => with_grace (ClientReclaimedByString recoveryKey <$> sm_grace s) s));;
     on_sm (recordReclaimCompleteLocked recoveryKey));;
  gp ← s_gets (fun s => sm_grace (sv_sm s));
  match gp with
  | None => mret tt
  | Some g =>
      let '(g', ok) := ReclaimComplete clientID g in
      on_sm (op_modify (with_grace (Some g')));;
      s_check ok (NFS4StateError NFS4ERR_COMPLETE_ALREADY)
  end.

Definition sm_ForceEndGrace : SOp unit := on_sm (op_modify (fun s => with_grace (ForceEnd <$> sm_grace s) s)).
Definition StartGracePeriod (now : Z) (expectedClientIDs : list Z) : SOp unit :=
  on_sm (op_modify (fun s => with_grace
    (Some (StartGrace now expectedClientIDs (NewGracePeriodState (sm_graceDuration s)))) s)).
Definition LoadPreviousClients (now : Z) (clientIDs : list Z) : SOp unit := StartGracePeriod now clientIDs.

Definition GetConfirmedClientIDs (s : Server) : list Z :=
  omap (fun e => cr_ClientID <$> h_clients (sm_heap (sv_sm s)) !! e.2) (map_to_list (clientsByName (sm_tab (sv_sm s)))).
