(* ===== verification/Nfs4Locks.v ===== *)
(** * NFSv4 state: byte-range locks and stateids
      ([internal/adapter/nfs/v4/state/manager.go], [lockowner.go], [stateid.go])

    LOCK, LOCKT, LOCKU and RELEASE_LOCKOWNER over the unified lock manager of the
    file's share, and the validation, test and release of stateids. *)

From S2P Require Import Prelude.
From S2P Require Import SlotTable.
From S2P Require Import LockTypes.
From S2P Require Import LockManager.
From S2P Require Import Nfs4Grace.
From S2P Require Import Nfs4Types.
From S2P Require Import Nfs4State.

Definition ErrOldStateid : NErr := NFS4StateError NFS4ERR_OLD_STATEID.
Definition ErrStaleStateid : NErr := NFS4StateError NFS4ERR_STALE_STATEID.
Definition ErrExpired : NErr := NFS4StateError NFS4ERR_EXPIRED.

Record LOCK4denied := mkDenied {
  d_Offset : Z; d_Length : Z; d_LockType : Z; d_ClientID : Z; d_OwnerData : string;
}.

Record LockResult := mkLockResult {
  lr_Stateid : Stateid4;
  lr_Denied : option LOCK4denied;
  lr_ClientID : Z;
  lr_OwnerData : string;
}.

Definition set_lowner_seq (seqid : Z) (o : V4LockOwner) : V4LockOwner :=
  mkV4LockOwner (l4_ClientID o) (l4_OwnerData o) seqid (l4_LastResult o) (l4_ClientRecord o).
Definition set_lowner_result (r : CachedResult) (o : V4LockOwner) : V4LockOwner :=
  mkV4LockOwner (l4_ClientID o) (l4_OwnerData o) (l4_LastSeqID o) (Some r) (l4_ClientRecord o).
Definition bump_lock (l : LockState) : LockState :=
  mkLockState (mkStateid (nextSeqID (Seqid (ls_Stateid l))) (si_Other (ls_Stateid l)))
    (ls_LockOwner l) (ls_OpenState l) (ls_FileHandle l).

Definition validateOpenModeForLock (os : OpenState) (lockType : Z) : Op unit :=
  if (lockType =? WRITE_LT) || (lockType =? WRITEW_LT)
  then op_check (has (os_ShareAccess os) OPEN4_SHARE_ACCESS_WRITE) (NFS4StateError NFS4ERR_OPENMODE)
  else if (lockType =? READ_LT) || (lockType =? READW_LT)
  then op_check (has (os_ShareAccess os) OPEN4_SHARE_ACCESS_READ) (NFS4StateError NFS4ERR_OPENMODE)
  else mret tt.

Definition CheckGraceForNewState : Op unit :=
  inGrace ← op_gets (fun s => match sm_grace s with Some g => IsInGrace g | None => false end);
  op_check (negb inGrace) (NFS4StateError NFS4ERR_GRACE).

(** ** The owner of a conflicting lock *)

Definition hex_val (a : Ascii.ascii) : option Z :=
  let b := Z.of_N (Ascii.N_of_ascii a) in
  if (48 <=? b) && (b <=? 57) then Some (b - 48)
  else if (97 <=? b) && (b <=? 102) then Some (b - 87)
  else if (65 <=? b) && (b <=? 70) then Some (b - 55)
  else None.

Fixpoint hex_DecodeString (s : string) : option string :=
  match s with
  | EmptyString => Some EmptyString
  | String a (String b s) =>
      h ← hex_val a; l ← hex_val b; r ← hex_DecodeString s;
      Some (String (Ascii.ascii_of_N (Z.to_N (16 * h + l))) r)
  | _ => None
  end.

Fixpoint span (f : Ascii.ascii -> bool) (s : string) : string * string :=
  match s with
  | EmptyString => (EmptyString, EmptyString)
  | String a t => if f a then let '(x, y) := span f t in (String a x, y) else (EmptyString, s)
  end.

(** ASCII white space other than the newline, which ends a scan. *)
Definition is_blank (a : Ascii.ascii) : bool :=
  let b := Ascii.N_of_ascii a in (b =? 32)%N || (b =? 9)%N || (b =? 11)%N || (b =? 12)%N || (b =? 13)%N.
Definition is_space (a : Ascii.ascii) : bool := is_blank a || (Ascii.N_of_ascii a =? 10)%N.

(** [fmt.Sscanf(ownerID, "nfs4:%d:%s", &clientID, &ownerHex)]: the values scanned. *)
Definition scan_owner (ownerID : string) : option (Z * option string) :=
  rest ← cut_prefix "nfs4:" ownerID;
  let '(digits, rest) := span is_digit (span is_blank rest).2 in
  clientID ← parse_uint digits 64;
  Some (clientID,
    rest ← cut_prefix ":" rest;
    let tok := (span (fun a => negb (is_space a)) (span is_blank rest).2).1 in
    if bool_decide (tok = EmptyString) then None else Some tok).

Definition parseConflictOwner (ownerID : string) (denied : LOCK4denied) : LOCK4denied :=
  let with_owner c o := mkDenied (d_Offset denied) (d_Length denied) (d_LockType denied) c o in
  match scan_owner ownerID with
  | None => with_owner (d_ClientID denied) ownerID
  | Some (c, None) => with_owner c ownerID
  | Some (c, Some hex) =>
      match hex_DecodeString hex with Some o => with_owner c o | None => with_owner c ownerID end
  end.

(** [WRITE_LT] or [READ_LT] from the type of a held lock. *)
Definition conflict_type (l : UnifiedLock) : Z :=
  match ul_Type l with LockTypeExclusive => WRITE_LT | LockTypeShared => READ_LT end.

Definition denied_by (l : UnifiedLock) : LOCK4denied :=
  parseConflictOwner (ul_owner l) (mkDenied (ul_Offset l) (ul_Length l) (conflict_type l) 0 "").

Definition mappedType (lockType : Z) : LockType :=
  if (lockType =? READ_LT) || (lockType =? READW_LT) then LockTypeShared else LockTypeExclusive.

Section LockOps.
Context `{L : Nfs4Lib}.

(** ** LOCK *)

Definition lm_owner (lo : V4LockOwner) : LockOwner :=
  mkLockOwner (LockManagerOwnerID lo) ("nfs4:" +:+ fmt_d (l4_ClientID lo)) "".

Definition put_lm (handle : string) (m : Manager) : Op unit := on_lm handle (fun _ => m).

Definition acquireLock (now : Z) (ls : LockState) (lo : V4LockOwner) (lockType offset length : Z)
    (reclaim : bool) : Op (option LOCK4denied) :=
  let h := ls_FileHandle ls in
  m ← (o ← op_gets (lockManagerFor h); op_need o NPlainError);
  n ← next_call;
  let owner := lm_owner lo in
  let enhLock := mkUnifiedLock (uuids n 0) owner h offset length (mappedType lockType) AccessModeNone now
                   false reclaim None None in
  m ← op_need (drained h owner m) NPlainError;
  match AddUnifiedLock now m h enhLock with
  | (m, None) => put_lm h m;; mret None
  | (m, Some _) =>
      put_lm h m;;
      match List.find (fun el => IsUnifiedLockConflicting el enhLock) (ListUnifiedLocks m h) with
      | Some el => mret (Some (denied_by el))
      | None => mret (Some (mkDenied offset length lockType 0 ""))
      end
  end.

(** Whether the open-owner's seqid is a retransmission; a bad one is an error. *)
Definition open_seq_replay (owner : OpenOwner) (openSeqid : Z) : Op bool :=
  if openSeqid =? 0 then mret false
  else match ValidateSeqID (oo_LastSeqID owner) openSeqid with
  | SeqIDBad => op_throw ErrBadSeqid
  | SeqIDReplay => mret true
  | SeqIDOK => mret false
  end.

(** The seqid of a known lock-owner; a retransmission is an error with the reply. *)
Definition lock_seqid_gate (lo : V4LockOwner) (seqid : Z) : Op unit :=
  r ← owner_gate (l4_LastSeqID lo) seqid (l4_LastResult lo);
  match r with Some r => op_throw (ReplayError (ca_Status r) (ca_Data r)) | None => mret tt end.

Definition new_lock_gate (known : option V4LockOwner) (lockSeqid : Z) (openSeqIsReplay : bool) : Op unit :=
  if lockSeqid =? 0 then op_check (negb openSeqIsReplay) ErrBadSeqid
  else match known with
  | Some lo => lock_seqid_gate lo lockSeqid;; op_check (negb openSeqIsReplay) ErrBadSeqid
  | None => op_check (lockSeqid =? nextSeqID 0) ErrBadSeqid
  end.

Definition find_lowner (clientID : Z) (ownerData : string) : Op ptr :=
  let key := makeLockOwnerKey clientID ownerData in
  o ← op_gets (fun s => lockOwners (sm_tab s) !! key);
  match o with
  | Some p => mret p
  | None =>
      rec ← op_gets (fun s => clientsByID (sm_tab s) !! clientID);
      p ← new_obj h_lowners set_lowners (mkV4LockOwner clientID ownerData 0 None rec);
      tab_mod (fun t => set_lockOwners (<[key := p]> (lockOwners t)) t);;
      mret p
  end.

(** The lock state of a lock-owner on an open, created when there is none. *)
Definition find_lock_state (p : ptr) (os : OpenState) (lop : ptr) (fileHandle : string) : Op ptr :=
  o ← op_gets (fun s => List.find (fun lp => bool_decide ((ls_LockOwner <$> h_locks (sm_heap s) !! lp) = Some lop))
                 (os_LockStates os));
  match o with
  | Some lp => mret lp
  | None =>
      other ← generateStateidOther StateTypeLock;
      lp ← new_obj h_locks set_locks (mkLockState (mkStateid 1 other) lop p fileHandle);
      upd_open p (fun o => set_open_locks (os_LockStates o ++ [lp]) o);;
      tab_mod (fun t => set_lockStates (<[other := lp]> (lockStateByOther t)) t);;
      mret lp
  end.

Definition LockNew (now lockClientID : Z) (lockOwnerData : string) (lockSeqid : Z) (openStateid : Stateid4)
    (openSeqid : Z) (fileHandle : string) (lockType offset length : Z) (reclaim : bool) : Op LockResult :=
  (if reclaim then mret tt else CheckGraceForNewState);;
  p ← lookup_open openStateid;
  os ← deref h_opens p;
  owner ← deref h_owners (os_Owner os);
  openSeqIsReplay ← open_seq_replay owner openSeqid;
  validateOpenModeForLock os lockType;;
  known ← op_gets (fun s => lop ← lockOwners (sm_tab s) !! makeLockOwnerKey lockClientID lockOwnerData;
                            h_lowners (sm_heap s) !! lop);
  new_lock_gate known lockSeqid openSeqIsReplay;;
  lop ← find_lowner lockClientID lockOwnerData;
  lp ← find_lock_state p os lop fileHandle;
  lo ← deref h_lowners lop;
  ls ← deref h_locks lp;
  denied ← acquireLock now ls lo lockType offset length reclaim;
  (match denied with Some _ => mret tt | None => upd_lock lp bump_lock end);;
  upd_lowner lop (set_lowner_seq lockSeqid);;
  upd_owner (os_Owner os) (set_owner_seq openSeqid);;
  ls' ← deref h_locks lp;
  mret (mkLockResult (match denied with Some _ => zeroStateid | None => ls_Stateid ls' end) denied
          (l4_ClientID lo) (l4_OwnerData lo)).

(** A lock stateid and its state: stale or bad when unknown. *)
Definition lookup_lock (stateid : Stateid4) : Op ptr :=
  o ← op_gets (fun s => lockStateByOther (sm_tab s) !! si_Other stateid);
  match o with
  | Some lp => mret lp
  | None => isCurrentEpoch (si_Other stateid) ≫= fun b : bool =>
              op_throw (if b then ErrBadStateid else ErrStaleStateid)
  end.

(** The seqid of a presented stateid against the current one; 0 means any. *)
Definition seqid_current (presented current : Z) : Op unit :=
  if presented =? 0 then mret tt
  else if presented <? current then op_throw ErrOldStateid
  else if current <? presented then op_throw ErrBadStateid
  else mret tt.

Definition LockExisting (now : Z) (lockStateid : Stateid4) (lockSeqid : Z) (lockType offset length : Z)
    (reclaim : bool) : Op LockResult :=
  (if reclaim then mret tt else CheckGraceForNewState);;
  lp ← lookup_lock lockStateid;
  ls ← deref h_locks lp;
  lo ← deref h_lowners (ls_LockOwner ls);
  lock_seqid_gate lo lockSeqid;;
  seqid_current (Seqid lockStateid) (Seqid (ls_Stateid ls));;
  os ← deref h_opens (ls_OpenState ls);
  validateOpenModeForLock os lockType;;
  denied ← acquireLock now ls lo lockType offset length reclaim;
  (match denied with Some _ => mret tt | None => upd_lock lp bump_lock end);;
  upd_lowner (ls_LockOwner ls) (set_lowner_seq lockSeqid);;
  ls' ← deref h_locks lp;
  mret (mkLockResult (match denied with Some _ => zeroStateid | None => ls_Stateid ls' end) denied
          (l4_ClientID lo) (l4_OwnerData lo)).

(** ** LOCKT, LOCKU, RELEASE_LOCKOWNER *)

Definition TestLock (clientID : Z) (ownerData fileHandle : string) (lockType offset length : Z)
    (s : StateManager) : option LOCK4denied :=
  m ← lockManagerFor fileHandle s;
  let testLock := mkUnifiedLock "" (mkLockOwner (lockManagerOwnerID clientID ownerData) "" "") "" offset length
                    (mappedType lockType) AccessModeNone 0 false false None None in
  conflict ← TestUnifiedLock m fileHandle testLock;
  Some (denied_by (uc_Lock conflict)).

Definition UnlockFile (lockStateid : Stateid4) (seqid : Z) (lockType offset length : Z) : Op LockResult :=
  op_check (negb (IsSpecialStateid lockStateid)) ErrBadStateid;;
  lp ← lookup_lock lockStateid;
  ls ← deref h_locks lp;
  lo ← deref h_lowners (ls_LockOwner ls);
  lock_seqid_gate lo seqid;;
  seqid_current (Seqid lockStateid) (Seqid (ls_Stateid ls));;
  n ← next_call;
  on_lm (ls_FileHandle ls) (fun m =>
    (RemoveUnifiedLock (uuids n) m (ls_FileHandle ls) (lm_owner lo) offset length).1);;
  upd_lock lp bump_lock;;
  upd_lowner (ls_LockOwner ls) (set_lowner_seq seqid);;
  ls' ← deref h_locks lp;
  mret (mkLockResult (ls_Stateid ls') None (l4_ClientID lo) (l4_OwnerData lo)).

Definition CacheLockOwnerResult (clientID : Z) (ownerData : string) (status : Z) (data : bytes) : Op unit :=
  o ← op_gets (fun s => lockOwners (sm_tab s) !! makeLockOwnerKey clientID ownerData);
  match o with
  | Some p => upd_lowner p (set_lowner_result (mkCached status data))
  | None => mret tt
  end.

(** The lock states of a lock-owner. *)
Definition states_of (lop : ptr) (s : StateManager) : list (Other * ptr) :=
  List.filter (fun e => bool_decide ((ls_LockOwner <$> h_locks (sm_heap s) !! e.2) = Some lop))
    (map_to_list (lockStateByOther (sm_tab s))).

(** Whether the owner holds a lock on the file of a lock state. *)
Definition holds_lock (ownerID : string) (s : StateManager) (e : Other * ptr) : bool :=
  match h_locks (sm_heap s) !! e.2 with
  | None => false
  | Some ls =>
      match lockManagerFor (ls_FileHandle ls) s with
      | None => false
      | Some m => existsb (fun l => bool_decide (ul_owner l = ownerID)) (ListUnifiedLocks m (ls_FileHandle ls))
      end
  end.

(** A lock state leaves its table and its open. *)
Definition unlink_lock_state (e : Other * ptr) : Op unit :=
  ls ← deref h_locks e.2;
  drop_lock e.1;;
  upd_open (ls_OpenState ls) (fun o => set_open_locks (remove_ptr e.2 (os_LockStates o)) o).

Definition ReleaseLockOwner (clientID : Z) (ownerData : string) : Op unit :=
  let key := makeLockOwnerKey clientID ownerData in
  o ← op_gets (fun s => lockOwners (sm_tab s) !! key);
  match o with
  | None => mret tt
  | Some lop =>
      lo ← deref h_lowners lop;
      held ← op_gets (fun s => existsb (holds_lock (LockManagerOwnerID lo) s) (states_of lop s));
      op_check (negb held) (NFS4StateError NFS4ERR_LOCKS_HELD);;
      l ← op_gets (states_of lop);
      op_forM l unlink_lock_state;;
      drop_lowner key
  end.

(** ** Validating a stateid *)

Inductive StateidOp := StateidOpRead | StateidOpWrite.

(** Not found: from another server incarnation, or bad. *)
Definition unknown_stateid {A} (other : Other) : Op A :=
  isCurrentEpoch other ≫= fun b : bool => op_throw (if b then ErrBadStateid else ErrStaleStateid).

Definition handle_matches (currentFH fileHandle : string) : Op unit :=
  op_check (bool_decide (currentFH = ""%string) || bool_decide (fileHandle = ""%string) ||
            bool_decide (currentFH = fileHandle)) ErrBadStateid.

(** The implicit renewal: an expired lease is an error. *)
Definition renew_record (now : Z) (r : option ptr) : Op unit :=
  match r with
  | None => mret tt
  | Some cp =>
      c ← deref h_clients cp;
      match cr_Lease c with
      | None => mret tt
      | Some l =>
          op_check (negb (IsExpired now l)) ErrExpired;;
          upd_client cp (set_lease (Some (Renew now l)))
      end
  end.

Definition validateDelegStateid (now : Z) (stateid : Stateid4) (currentFH : string) : Op (option ptr) :=
  o ← op_gets (fun s => delegByOther (sm_del s) !! si_Other stateid);
  match o with
  | None => unknown_stateid (si_Other stateid)
  | Some p =>
      d ← deref h_delegs p;
      op_check (negb (ds_Revoked d)) ErrBadStateid;;
      seqid_current (Seqid stateid) (Seqid (ds_Stateid d));;
      handle_matches currentFH (ds_FileHandle d);;
      client ← op_gets (fun s => clientsByID (sm_tab s) !! ds_ClientID d);
      renew_record now client;;
      mret None
  end.

Definition validateLockStateid (now : Z) (stateid : Stateid4) (currentFH : string) : Op (option ptr) :=
  lp ← lookup_lock stateid;
  ls ← deref h_locks lp;
  seqid_current (Seqid stateid) (Seqid (ls_Stateid ls));;
  handle_matches currentFH (ls_FileHandle ls);;
  os ← deref h_opens (ls_OpenState ls);
  owner ← deref h_owners (os_Owner os);
  renew_record now (oo_ClientRecord owner);;
  mret (Some (ls_OpenState ls)).

Definition ValidateStateid (now : Z) (stateid : Stateid4) (currentFH : string) (op : StateidOp)
    : Op (option ptr) :=
  if isReadBypass stateid then
    match op with StateidOpRead => mret None | StateidOpWrite => op_throw ErrBadStateid end
  else if isAnonymous stateid then mret None
  else if stateType (si_Other stateid) =? StateTypeDeleg then validateDelegStateid now stateid currentFH
  else if stateType (si_Other stateid) =? StateTypeLock then validateLockStateid now stateid currentFH
  else
    o ← op_gets (fun s => openStateByOther (sm_tab s) !! si_Other stateid);
    match o with
    | None => unknown_stateid (si_Other stateid)
    | Some p =>
        os ← deref h_opens p;
        seqid_current (Seqid stateid) (Seqid (os_Stateid os));;
        handle_matches currentFH (os_FileHandle os);;
        owner ← deref h_owners (os_Owner os);
        renew_record now (oo_ClientRecord owner);;
        mret (Some p)
    end.

(** ** TEST_STATEID *)

Definition seqid_status (presented current : Z) : Z :=
  if presented =? 0 then NFS4_OK
  else if presented <? current then NFS4ERR_OLD_STATEID
  else if current <? presented then NFS4ERR_BAD_STATEID
  else NFS4_OK.

Definition testOpenStateid (now : Z) (stateid : Stateid4) (s : StateManager) : Z :=
  match (p ← openStateByOther (sm_tab s) !! si_Other stateid; h_opens (sm_heap s) !! p) with
  | None => NFS4ERR_BAD_STATEID
  | Some os =>
      let st := seqid_status (Seqid stateid) (Seqid (os_Stateid os)) in
      if negb (st =? NFS4_OK) then st
      else match (o ← h_owners (sm_heap s) !! os_Owner os; r ← oo_ClientRecord o;
                  c ← h_clients (sm_heap s) !! r; cr_Lease c) with
      | Some l => if IsExpired now l then NFS4ERR_EXPIRED else NFS4_OK
      | None => NFS4_OK
      end
  end.

Definition testLockStateid (stateid : Stateid4) (s : StateManager) : Z :=
  match (p ← lockStateByOther (sm_tab s) !! si_Other stateid; h_locks (sm_heap s) !! p) with
  | None => NFS4ERR_BAD_STATEID
  | Some ls => seqid_status (Seqid stateid) (Seqid (ls_Stateid ls))
  end.

Definition testDelegStateid (stateid : Stateid4) (s : StateManager) : Z :=
  match (p ← delegByOther (sm_del s) !! si_Other stateid; h_delegs (sm_heap s) !! p) with
  | None => NFS4ERR_BAD_STATEID
  | Some d => if ds_Revoked d then NFS4ERR_BAD_STATEID else seqid_status (Seqid stateid) (Seqid (ds_Stateid d))
  end.

Definition testSingleStateid (now : Z) (stateid : Stateid4) (s : StateManager) : Z :=
  if IsSpecialStateid stateid then NFS4_OK
  else if negb (currentEpoch (sm_bootEpoch s) (si_Other stateid)) then NFS4ERR_STALE_STATEID
  else if stateType (si_Other stateid) =? StateTypeOpen then testOpenStateid now stateid s
  else if stateType (si_Other stateid) =? StateTypeLock then testLockStateid stateid s
  else if stateType (si_Other stateid) =? StateTypeDeleg then testDelegStateid stateid s
  else NFS4ERR_BAD_STATEID.

Definition TestStateids (now : Z) (stateids : list Stateid4) (s : StateManager) : list Z :=
  map (fun x => testSingleStateid now x s) stateids.

(** ** FREE_STATEID *)

Definition freeLockStateidLocked (clientID : Z) (stateid : Stateid4) : Op unit :=
  lp ← (o ← op_gets (fun s => lockStateByOther (sm_tab s) !! si_Other stateid); op_need o ErrBadStateid);
  ls ← deref h_locks lp;
  lo ← deref h_lowners (ls_LockOwner ls);
  op_check (l4_ClientID lo =? clientID) ErrBadStateid;;
  drop_lock (si_Other stateid);;
  remove_owner_locks (ls_FileHandle ls) (LockManagerOwnerID lo);;
  others ← op_gets (states_of (ls_LockOwner ls));
  (match others with [] => drop_lowner (l4_Key lo) | _ => mret tt end);;
  upd_open (ls_OpenState ls) (fun o => set_open_locks (remove_ptr lp (os_LockStates o)) o).

Definition freeOpenStateidLocked (clientID : Z) (stateid : Stateid4) : Op unit :=
  p ← lookup_open stateid;
  os ← deref h_opens p;
  owner ← deref h_owners (os_Owner os);
  op_check (oo_ClientID owner =? clientID) ErrBadStateid;;
  op_check (bool_decide (os_LockStates os = [])) (NFS4StateError NFS4ERR_LOCKS_HELD);;
  drop_open (si_Other stateid);;
  removeOpenStateFromFileLocked p;;
  upd_owner (os_Owner os) (fun o => set_owner_opens (remove_ptr p (oo_OpenStates o)) o);;
  owner' ← deref h_owners (os_Owner os);
  match oo_OpenStates owner' with [] => drop_owner (oo_Key owner') | _ => mret tt end.

Definition freeDelegStateidLocked (clientID : Z) (stateid : Stateid4) : Op unit :=
  p ← (o ← op_gets (fun s => delegByOther (sm_del s) !! si_Other stateid); op_need o ErrBadStateid);
  d ← deref h_delegs p;
  op_check (ds_ClientID d =? clientID) ErrBadStateid;;
  StopRecallTimer p;;
  deleteDelegByOtherLocked (si_Other stateid);;
  removeDelegFromFile p.

Definition FreeStateid (clientID : Z) (stateid : Stateid4) : Op unit :=
  op_check (negb (isSpecialOther (si_Other stateid))) ErrBadStateid;;
  if stateType (si_Other stateid) =? StateTypeLock then freeLockStateidLocked clientID stateid
  else if stateType (si_Other stateid) =? StateTypeOpen then freeOpenStateidLocked clientID stateid
  else if stateType (si_Other stateid) =? StateTypeDeleg then freeDelegStateidLocked clientID stateid
  else op_throw ErrBadStateid.
End LockOps.
