(* ===== verification/Nfs4Deleg.v ===== *)
(** * NFSv4 state: delegations ([internal/adapter/nfs/v4/state/delegation.go],
      [RevokeDelegation] of [manager.go])

    Granting, recalling, returning and revoking delegations, mirrored into the
    unified lock manager so that SMB leases see them.  Sending CB_RECALL is the
    list [sm_recalls]; the notification batches of directory delegations are not
    modelled. *)

From S2P Require Import Prelude.
From S2P Require Import SlotTable.
From S2P Require Import LockTypes.
From S2P Require Import LockManager.
From S2P Require Import Nfs4Grace.
From S2P Require Import Nfs4Types.
From S2P Require Import Nfs4State.
From S2P Require Import Nfs4Locks.

Definition set_revoked (d : DelegationState) : DelegationState :=
  mkDelegState (ds_Stateid d) (ds_ClientID d) (ds_FileHandle d) (ds_DelegType d) (ds_RecallSent d)
    (ds_RecallTime d) true (ds_RecallTimer d) (ds_IsDirectory d) (ds_NotificationMask d) (ds_LockManagerDelegID d).
Definition set_recalled (now : Z) (d : DelegationState) : DelegationState :=
  mkDelegState (ds_Stateid d) (ds_ClientID d) (ds_FileHandle d) (ds_DelegType d) true
    now (ds_Revoked d) (ds_RecallTimer d) (ds_IsDirectory d) (ds_NotificationMask d) (ds_LockManagerDelegID d).
Definition set_lm_id (id : string) (d : DelegationState) : DelegationState :=
  mkDelegState (ds_Stateid d) (ds_ClientID d) (ds_FileHandle d) (ds_DelegType d) (ds_RecallSent d)
    (ds_RecallTime d) (ds_Revoked d) (ds_RecallTimer d) (ds_IsDirectory d) (ds_NotificationMask d) id.

Definition set_stateidMap (x : gmap string Stateid4) (d : DelegTables) : DelegTables :=
  mkDelegTables (delegByOther d) (delegByFile d) (revokedDelegCount d) x (recentlyRecalled d)
    (recentlyRecalledTTL d) (delegationsEnabled d) (maxDelegations d).
Definition set_recentlyRecalled (x : gmap string Z) (d : DelegTables) : DelegTables :=
  mkDelegTables (delegByOther d) (delegByFile d) (revokedDelegCount d) (delegStateidMap d) x
    (recentlyRecalledTTL d) (delegationsEnabled d) (maxDelegations d).
Definition SetDelegationsEnabled (b : bool) : Op unit :=
  del_mod (fun d => mkDelegTables (delegByOther d) (delegByFile d) (revokedDelegCount d) (delegStateidMap d)
    (recentlyRecalled d) (recentlyRecalledTTL d) b (maxDelegations d)).
Definition SetMaxDelegations (n : Z) : Op unit :=
  del_mod (fun d => mkDelegTables (delegByOther d) (delegByFile d) (revokedDelegCount d) (delegStateidMap d)
    (recentlyRecalled d) (recentlyRecalledTTL d) (delegationsEnabled d) n).

Definition countActiveDelegations (s : StateManager) : Z :=
  Z.of_nat (length (List.filter (fun e : Other * ptr =>
    match h_delegs (sm_heap s) !! e.2 with Some d => negb (ds_Revoked d) | None => false end)
    (map_to_list (delegByOther (sm_del s))))).

Definition markDelegRevokedLocked (p : ptr) : Op unit :=
  d ← deref h_delegs p;
  if ds_Revoked d then mret tt
  else
    upd_deleg p set_revoked;;
    del_mod (fun t => set_delegByOther (delegByOther t)
      (<[ds_ClientID d := revoked_of t (ds_ClientID d) + 1]> (revokedDelegCount t)) t).

(** ** The recently-recalled cache *)

Definition addRecentlyRecalled (now : Z) (fileHandle : string) : Op unit :=
  del_mod (fun d => set_recentlyRecalled (<[fileHandle := now]> (recentlyRecalled d)) d).

Definition isRecentlyRecalled (now : Z) (fileHandle : string) (s : StateManager) : bool :=
  match recentlyRecalled (sm_del s) !! fileHandle with
  | None => false
  | Some t => now - t <=? recentlyRecalledTTL (sm_del s)
  end.

Definition pruneStaleRecentlyRecalledLocked (now : Z) : Op unit :=
  del_mod (fun d => set_recentlyRecalled
    (filter (fun e : string * Z => now - e.2 <= recentlyRecalledTTL d) (recentlyRecalled d)) d).

Section DelegOps.
Context `{L : Nfs4Lib}.

(** ** Granting *)

Definition countOpensOnFile (fileHandle : string) (excludeClientID : Z) (s : StateManager) : nat :=
  length (List.filter (fun p =>
    match (os ← h_opens (sm_heap s) !! p; h_owners (sm_heap s) !! os_Owner os) with
    | Some o => negb (oo_ClientID o =? excludeClientID)
    | None => false
    end) (default [] (openStateByFile (sm_tab s) !! fileHandle))).

Definition ShouldGrantDelegation (now clientID : Z) (fileHandle : string) (shareAccess : Z) (s : StateManager)
    : option Z :=
  if negb (delegationsEnabled (sm_del s)) then None
  else match (p ← clientsByID (sm_tab s) !! clientID; h_clients (sm_heap s) !! p) with
  | None => None
  | Some client =>
      if negb (cr_CBPathUp client) then None
      else if isRecentlyRecalled now fileHandle s then None
      else if (0 <? countOpensOnFile fileHandle clientID s)%nat then None
      else if existsb (fun p => match h_delegs (sm_heap s) !! p with
                                | Some d => negb (ds_Revoked d) | None => false end)
                (default [] (delegByFile (sm_del s) !! fileHandle)) then None
      else Some (if has shareAccess OPEN4_SHARE_ACCESS_WRITE then OPEN_DELEGATE_WRITE else OPEN_DELEGATE_READ)
  end.

(** Mirroring a delegation into the lock manager; a refusal there is ignored. *)
Definition mirror_grant (now : Z) (recentlyBroken : bool) (p : ptr) (clientID : Z) (fileHandle : string)
    (delegType : Z) (sid : Stateid4) (isDirectory : bool) (mask : Z) : Op unit :=
  m ← op_gets (lockManagerFor fileHandle);
  match m with
  | None => mret tt
  | Some m =>
      n ← next_call;
      let id := uuids n 0 in
      let ld := mkDelegation id (if delegType =? OPEN_DELEGATE_WRITE then DelegTypeWrite else DelegTypeRead)
                  isDirectory (fmt_d clientID) "" false 0 false false mask in
      match LockManager.GrantDelegation now recentlyBroken m fileHandle ld with
      | (m, Some _) => mret tt
      | (m, None) =>
          put_lm fileHandle m;;
          del_mod (fun d => set_stateidMap (<[id := sid]> (delegStateidMap d)) d);;
          upd_deleg p (set_lm_id id)
      end
  end.

Definition record_delegation (d : DelegationState) : Op ptr :=
  p ← new_obj h_delegs set_delegs d;
  del_mod (fun t => set_delegByOther (<[si_Other (ds_Stateid d) := p]> (delegByOther t)) (revokedDelegCount t) t);;
  del_mod (fun t => set_delegByFile
    (<[ds_FileHandle d := default [] (delegByFile t !! ds_FileHandle d) ++ [p]]> (delegByFile t)) t);;
  mret p.

Definition GrantDelegation (now : Z) (recentlyBroken : bool) (clientID : Z) (fileHandle : string) (delegType : Z)
    : Op (option ptr) :=
  pruneStaleRecentlyRecalledLocked now;;
  full ← op_gets (fun s => (0 <? maxDelegations (sm_del s)) && (maxDelegations (sm_del s) <=? countActiveDelegations s));
  if full : bool then mret None
  else
    other ← generateStateidOther StateTypeDeleg;
    let sid := mkStateid 1 other in
    p ← record_delegation (mkDelegState sid clientID fileHandle delegType false 0 false false false 0 "");
    mirror_grant now recentlyBroken p clientID fileHandle delegType sid false 0;;
    mret (Some p).

(** ** Conflicts and recall *)

Definition deleg_conflicts (clientID shareAccess : Z) (d : DelegationState) : bool :=
  negb ((ds_ClientID d =? clientID) || ds_Revoked d) &&
  ((ds_DelegType d =? OPEN_DELEGATE_WRITE) ||
   (ds_DelegType d =? OPEN_DELEGATE_READ) && has shareAccess OPEN4_SHARE_ACCESS_WRITE).

Fixpoint recall_loop (now clientID shareAccess : Z) (l : list ptr) : Op bool :=
  match l with
  | [] => mret false
  | p :: l =>
      d ← deref h_delegs p;
      (if deleg_conflicts clientID shareAccess d && negb (ds_RecallSent d) then
         upd_deleg p (set_recalled now);; op_modify (fun s => with_recalls (sm_recalls s ++ [p]) s)
       else mret tt);;
      rest ← recall_loop now clientID shareAccess l;
      mret (deleg_conflicts clientID shareAccess d || rest)
  end.

Definition CheckDelegationConflict (now : Z) (fileHandle : string) (clientID shareAccess : Z) : Op bool :=
  l ← op_gets (fun s => default [] (delegByFile (sm_del s) !! fileHandle));
  recall_loop now clientID shareAccess l.

(** The recall was sent, or could not be: either way a timer will revoke. *)
Definition startRevocationTimer (p : ptr) : Op unit := upd_deleg p (set_timer true).

(** ** Return and revocation *)

(** The lock manager's delegation, looked up by its ID, outside the mutex. *)
Definition unmirror (remove : Manager -> string -> string -> Manager) (d : DelegationState) : Op unit :=
  if bool_decide (ds_LockManagerDelegID d = ""%string) then mret tt
  else on_lm (ds_FileHandle d) (fun m => remove m (ds_FileHandle d) (ds_LockManagerDelegID d)).

Definition forget_lm_id (d : DelegationState) : Op unit :=
  del_mod (fun t => if bool_decide (ds_LockManagerDelegID d = ""%string) then t
                    else set_stateidMap (delete (ds_LockManagerDelegID d) (delegStateidMap t)) t).

Definition ReturnDelegation (stateid : Stateid4) : Op unit :=
  o ← op_gets (fun s => delegByOther (sm_del s) !! si_Other stateid);
  match o with
  | None => isCurrentEpoch (si_Other stateid) ≫= fun b : bool => op_check b ErrStaleStateid
  | Some p =>
      StopRecallTimer p;;
      deleteDelegByOtherLocked (si_Other stateid);;
      removeDelegFromFile p;;
      d ← deref h_delegs p;
      forget_lm_id d;;
      unmirror (fun m h id => LockManager.ReturnDelegation m h id) d
  end.

Definition RevokeDelegation (now : Z) (other : Other) : Op unit :=
  o ← op_gets (fun s => delegByOther (sm_del s) !! other);
  match o with
  | None => mret tt
  | Some p =>
      d ← deref h_delegs p;
      if ds_Revoked d then mret tt
      else
        markDelegRevokedLocked p;;
        removeDelegFromFile p;;
        addRecentlyRecalled now (ds_FileHandle d);;
        forget_lm_id d;;
        unmirror (fun m h id => (LockManager.RevokeDelegation m h id).1) d
  end.

(** A recall timer goes off. *)
Definition recallTimer (now : Z) (p : ptr) : Op unit :=
  d ← deref h_delegs p;
  if ds_RecallTimer d then RevokeDelegation now (si_Other (ds_Stateid d)) else mret tt.

Definition ValidateDelegationStateid (stateid : Stateid4) : Op ptr :=
  o ← op_gets (fun s => delegByOther (sm_del s) !! si_Other stateid);
  match o with
  | None => unknown_stateid (si_Other stateid)
  | Some p => d ← deref h_delegs p; op_check (negb (ds_Revoked d)) ErrBadStateid;; mret p
  end.

Definition GetDelegationsForFile (fileHandle : string) (s : StateManager) : list ptr :=
  default [] (delegByFile (sm_del s) !! fileHandle).

Definition GetStateidForDelegation (delegationID : string) (s : StateManager) : option Stateid4 :=
  delegStateidMap (sm_del s) !! delegationID.
End DelegOps.
