(* ===== verification/Nfs4Wp.v ===== *)
(** * NFSv4 state: keys, and running an operation step by step

    The state manager files owners under [clientID:hex(ownerData)], names lock
    owners in the unified lock manager by the same key, and reads a conflicting
    owner back out of it; stateids carry a type tag, the boot epoch and a counter:
    the first part shows that these names are unambiguous.  The second part is a
    weakest-precondition calculus for the operations of the state manager, used to
    prove that each keeps an invariant, whether it succeeds or fails. *)

From S2P Require Import Prelude.
From S2P Require Import SlotTable.
From S2P Require Import LockTypes.
From S2P Require Import LockManager.
From S2P Require Import Nfs4Types.
From S2P Require Import Nfs4State.
From S2P Require Import Nfs4Locks.

(** The characters [:] and [-]. *)
Abbreviation sep := (Ascii.Ascii false true false true true true false false).
Abbreviation minus := (Ascii.Ascii true false true true false true false false).

(** ** Hexadecimal *)

Lemma hex_char_val n : 0 <= n < 16 -> hex_val (hex_char n) = Some n.
Proof.
  intros H. assert (all_below 16 (fun n => bool_decide (hex_val (hex_char n) = Some n)) = true) as E by now vm_compute.
  apply (all_below_spec _ _ E) in H as E1. cbn beta in E1. clear E. rename E1 into E. now apply bool_decide_eq_true in E.
Qed.

Lemma ascii_byte a : 0 <= Z.of_N (Ascii.N_of_ascii a) < 256.
Proof. pose proof (Ascii.N_ascii_bounded a). lia. Qed.

Lemma hex_roundtrip s : hex_DecodeString (hex_EncodeToString s) = Some s.
Proof.
  induction s as [|a s IH]; [done|]. cbn [hex_EncodeToString hex_DecodeString].
  pose proof (ascii_byte a) as Hb. set (b := Z.of_N (Ascii.N_of_ascii a)) in *.
  rewrite !hex_char_val by (split; [apply Z.div_pos || apply Z.mod_pos_bound|apply Z.div_lt_upper_bound || apply Z.mod_pos_bound]; lia).
  cbn. rewrite IH. cbn. do 2 f_equal. rewrite <- Z.div_mod by lia. unfold b. rewrite N2Z.id. apply Ascii.ascii_N_embedding.
Qed.

Lemma hex_inj s t : hex_EncodeToString s = hex_EncodeToString t -> s = t.
Proof. intros E. apply (f_equal hex_DecodeString) in E. rewrite !hex_roundtrip in E. congruence. Qed.

(** ** Decimal *)

Fixpoint all_chars (f : Ascii.ascii -> bool) (s : string) : bool :=
  match s with EmptyString => true | String a s => f a && all_chars f s end.

Lemma dec_digits n : all_chars is_digit (dec_string n) = true.
Proof. unfold dec_string. induction (N.to_uint n); cbn; auto. Qed.

Lemma dec_inj m n : dec_string m = dec_string n -> m = n.
Proof.
  unfold dec_string. intros E. apply (f_equal DecimalString.NilEmpty.uint_of_string) in E.
  rewrite !DecimalString.NilEmpty.usu in E. injection E as E. apply (f_equal N.of_uint) in E.
  now rewrite !DecimalN.Unsigned.of_to in E.
Qed.

Lemma fmt_d_inj m n : fmt_d m = fmt_d n -> m = n.
Proof.
  assert (forall k s, dec_string k <> String minus s) as Hneg.
  { intros k s E. pose proof (dec_digits k) as D. rewrite E in D. discriminate. }
  destruct m, n; cbn [fmt_d Z.to_N]; intros E; try (now apply Hneg in E); try (now symmetry in E; apply Hneg in E);
    try (apply dec_inj in E; lia || congruence).
  injection E as E. apply dec_inj in E. congruence.
Qed.

(** ** Splitting at the separator *)

Lemma split_colon s t s' t' :
  all_chars (fun a => negb (Ascii.eqb a sep)) s = true -> all_chars (fun a => negb (Ascii.eqb a sep)) s' = true ->
  s +:+ String sep t = s' +:+ String sep t' -> s = s' /\ t = t'.
Proof.
  revert s'. induction s as [|a s IH]; intros [|a' s'] H H' E; cbn in *.
  - now injection E.
  - injection E as <- _. discriminate.
  - injection E as -> _. discriminate.
  - injection E as -> E. apply andb_true_iff in H as [_ H], H' as [_ H'].
    destruct (IH s' H H' E) as [-> ->]. done.
Qed.

Lemma all_chars_weaken f g s : (forall a, f a = true -> g a = true) -> all_chars f s = true -> all_chars g s = true.
Proof. intros Hfg. induction s as [|a s IH]; cbn; [done|]. rewrite !andb_true_iff. intros [? ?]. auto. Qed.

Lemma fmt_d_no_colon n : all_chars (fun a => negb (Ascii.eqb a sep)) (fmt_d n) = true.
Proof.
  assert (forall k, all_chars (fun a => negb (Ascii.eqb a sep)) (dec_string k) = true) as Hd.
  { intros k. apply (all_chars_weaken is_digit); [|apply dec_digits].
    intros a Ha. destruct (Ascii.eqb_spec a sep) as [->|]; [discriminate|done]. }
  destruct n; cbn [fmt_d Z.to_N]; apply Hd.
Qed.

(** The key of an owner determines the client and the owner's name. *)
Lemma makeOwnerKey_inj c d c' d' : makeOwnerKey c d = makeOwnerKey c' d' -> c = c' /\ d = d'.
Proof.
  unfold makeOwnerKey. intros E. apply split_colon in E as [Ec Ed]; try apply fmt_d_no_colon.
  split; [now apply fmt_d_inj|]. now apply hex_inj.
Qed.

(** ** Reading a conflicting owner back *)

Lemma span_all f s t : all_chars f s = true -> (match t with EmptyString => true | String a _ => negb (f a) end) = true ->
  span f (s +:+ t) = (s, t).
Proof.
  intros Hs Ht. induction s as [|a s IH].
  - destruct t as [|a t]; [done|]. apply negb_true_iff in Ht. change (span f (String a t) = (""%string, String a t)).
    cbn. now rewrite Ht.
  - cbn in Hs. apply andb_true_iff in Hs as [Ha Hs]. change (span f (String a (s +:+ t)) = (String a s, t)).
    cbn [span]. now rewrite Ha, (IH Hs).
Qed.

Lemma span_none f s : (match s with EmptyString => true | String a _ => negb (f a) end) = true -> span f s = (EmptyString, s).
Proof. destruct s as [|a s]; cbn; [done|]. intros ->%negb_true_iff. done. Qed.

Lemma hex_char_plain n : 0 <= n < 16 -> is_space (hex_char n) = false.
Proof.
  intros H. assert (all_below 16 (fun n => negb (is_space (hex_char n))) = true) as E by now vm_compute.
  apply (all_below_spec _ _ E) in H as E1. cbn beta in E1. clear E. rename E1 into E. now apply negb_true_iff in E.
Qed.

Lemma hex_plain s : all_chars (fun a => negb (is_space a)) (hex_EncodeToString s) = true.
Proof.
  induction s as [|a s IH]; [done|]. cbn [hex_EncodeToString all_chars]. pose proof (ascii_byte a).
  rewrite !hex_char_plain, IH; [done|apply Z.mod_pos_bound; lia|].
  split; [apply Z.div_pos; lia|apply Z.div_lt_upper_bound; lia].
Qed.

Lemma digits_not_blank s t : all_chars is_digit s = true -> s <> EmptyString -> span is_blank (s +:+ t) = (EmptyString, s +:+ t).
Proof.
  destruct s as [|a s]; [done|]. cbn [all_chars]. intros [Ha _]%andb_true_iff _.
  change (span is_blank (String a (s +:+ t)) = (""%string, String a (s +:+ t))). cbn [span].
  assert (is_blank a = false) as ->; [|done]. revert Ha. unfold is_digit, is_blank.
  rewrite andb_true_iff, !N.leb_le. intros [? ?]. rewrite !orb_false_iff, !N.eqb_neq. lia.
Qed.

(** the owner of a conflicting NFSv4 lock that LOCK and LOCKT report is the
    one that holds it: for every client ID and every non-empty owner name,
    reading the lock manager's owner string gives both back. *)
Theorem conflict_owner_roundtrip c d den :
  in_u64 c -> d <> ""%string ->
  let r := parseConflictOwner (lockManagerOwnerID c d) den in
  d_ClientID r = c /\ d_OwnerData r = d.
Proof.
  intros Hc Hd. unfold parseConflictOwner.
  assert (scan_owner (lockManagerOwnerID c d) = Some (c, Some (hex_EncodeToString d))) as ->.
  { unfold scan_owner, lockManagerOwnerID, makeLockOwnerKey, makeOwnerKey. rewrite cut_prefix_app. cbn [mbind option_bind].
    assert (fmt_d c = dec_string (Z.to_N c)) as -> by (unfold in_u64 in Hc; destruct c; [done|done|lia]).
    rewrite digits_not_blank by (apply dec_digits || apply dec_string_nonempty). cbn [snd].
    rewrite span_all by (apply dec_digits || done).
    rewrite parse_uint_dec by done. cbn [mbind option_bind].
    rewrite cut_prefix_app. cbn [mbind option_bind]. do 2 f_equal.
    assert (hex_EncodeToString d <> EmptyString) as Hh by now destruct d.
    rewrite (span_none is_blank).
    2: { pose proof (hex_plain d) as Hp. destruct (hex_EncodeToString d) as [|a s]; [done|]. cbn in Hp.
         apply andb_true_iff in Hp as [Hp _]. unfold is_space in Hp. now destruct (is_blank a). }
    cbn [snd]. pose proof (span_all (fun a => negb (is_space a)) (hex_EncodeToString d) EmptyString (hex_plain d) eq_refl) as E.
    assert (forall s, s +:+ EmptyString = s) as Happ by (intros s; induction s as [|a s IHs]; [done|exact (f_equal (String a) IHs)]).
    rewrite Happ in E. rewrite E. cbn [fst]. now rewrite bool_decide_false. }
  now rewrite hex_roundtrip.
Qed.

Lemma conflict_owner_roundtrip_witness :
  d_OwnerData (parseConflictOwner (lockManagerOwnerID 7 "me") (mkDenied 0 0 1 0 "")) = "me"%string.
Proof. apply (conflict_owner_roundtrip 7 "me" (mkDenied 0 0 1 0 "")); [unfold in_u64; lia|done]. Defined.

(** An empty owner name comes back as the whole key. *)
Example empty_owner_misreported :
  let r := parseConflictOwner (lockManagerOwnerID 7 "") (mkDenied 0 0 1 0 "") in
  d_ClientID r = 7 /\ d_OwnerData r = "nfs4:7:"%string.
Proof. vm_compute. done. Qed.

(** ** Stateids *)

Lemma be64_inj x y : in_u64 x -> in_u64 y -> be64 x = be64 y -> x = y.
Proof.
  unfold be64, in_u64. intros Hx Hy E. apply (f_equal (@rev Z)) in E. rewrite !rev_involutive in E.
  apply (f_equal le_decode) in E. now rewrite !le_decode_encode in E by (cbn; lia).
Qed.

Lemma stateid_other_inj t e x y : in_u64 x -> in_u64 y -> stateid_other t e x = stateid_other t e y -> x = y.
Proof. unfold stateid_other. intros Hx Hy E. apply app_inv_head, app_inv_head in E. now apply be64_inj. Qed.

Lemma stateType_other t e n : stateType (stateid_other t e n) = t.
Proof. done. Qed.

Lemma currentEpoch_other t e n : currentEpoch e (stateid_other t e n) = true.
Proof. unfold currentEpoch, stateid_other. now rewrite bool_decide_true. Qed.

(** ** Symbolic execution

    [wp I m Q s]: running [m] in [s] either fails in a state that satisfies [I],
    or returns a value and a state that satisfy [Q]. *)

Definition wp {A} (I : StateManager -> Prop) (m : Op A) (Q : A -> StateManager -> Prop) (s : StateManager) : Prop :=
  match m s with (inl _, s') => I s' | (inr a, s') => Q a s' end.

Lemma wp_bind {A B} I (m : Op A) (k : A -> Op B) Q s :
  wp I (m ≫= k) Q s <-> wp I m (fun a => wp I (k a) Q) s.
Proof. unfold wp, mbind, Op_bind. now destruct (m s) as [[e|a] s']. Qed.

Lemma wp_mono {A} I (m : Op A) (Q Q' : A -> StateManager -> Prop) s :
  wp I m Q s -> (forall a s', Q a s' -> Q' a s') -> wp I m Q' s.
Proof. unfold wp. destruct (m s) as [[e|a] s']; auto. Qed.

Lemma wp_deref {A} I (sel : Heap -> gmap ptr A) p Q s :
  I s -> (forall x, sel (sm_heap s) !! p = Some x -> Q x s) -> wp I (deref sel p) Q s.
Proof. unfold wp, deref. destruct (sel (sm_heap s) !! p); auto. Qed.

Lemma wp_check I ok e Q s : (ok = false -> I s) -> (ok = true -> Q tt s) -> wp I (op_check ok e) Q s.
Proof. unfold wp, op_check. destruct ok; cbn; auto. Qed.

Lemma wp_need {A} I (o : option A) e Q s : (o = None -> I s) -> (forall a, o = Some a -> Q a s) -> wp I (op_need o e) Q s.
Proof. unfold wp, op_need. destruct o; cbn; auto. Qed.

Lemma wp_gets {A} I (f : StateManager -> A) (Q : A -> StateManager -> Prop) s : Q (f s) s -> wp I (op_gets f) Q s.
Proof. done. Qed.

Lemma wp_ret {A} I (a : A) (Q : A -> StateManager -> Prop) s : Q a s -> wp I (mret a) Q s.
Proof. done. Qed.

Lemma wp_throw {A} I e (Q : A -> StateManager -> Prop) s : I s -> wp I (op_throw e) Q s.
Proof. done. Qed.

Lemma wp_modify I f Q s : Q tt (f s) -> wp I (op_modify f) Q s.
Proof. done. Qed.

Lemma wp_new {A} I (sel : Heap -> gmap ptr A) (set : gmap ptr A -> Heap -> Heap) x Q s :
  (let h := sm_heap s in Q (h_next h) (with_heap (set_next (S (h_next h)) (set (<[h_next h := x]> (sel h)) h)) s)) ->
  wp I (new_obj sel set x) Q s.
Proof. done. Qed.

(** A loop that keeps an invariant of the state. *)
Lemma wp_forM {A} I (f : A -> Op unit) (J : StateManager -> Prop) l Q s :
  J s -> (forall a s, In a l -> J s -> wp I (f a) (fun _ => J) s) -> (forall s, J s -> Q tt s) ->
  wp I (op_forM l f) Q s.
Proof.
  intros Hs Hf HQ. revert s Hs. induction l as [|a l IH]; intros s Hs; cbn [op_forM]; [now apply HQ|].
  apply wp_bind. eapply wp_mono; [apply Hf; [now left|done]|]. intros [] s' Hs'.
  apply IH; [|done]. intros b s'' Hb. apply Hf. now right.
Qed.

(** One step of a symbolic execution; a step that may fail leaves the goal [I]. *)
Ltac wp1 :=
  lazymatch goal with
  | |- wp _ (_ ≫= _) _ _ => apply wp_bind
  | |- wp _ (op_gets _) _ _ => apply wp_gets
  | |- wp _ (mret _) _ _ => apply wp_ret
  | |- wp _ (op_throw _) _ _ => apply wp_throw
  | |- wp _ (op_modify _) _ _ => apply wp_modify
  | |- wp _ (new_obj _ _ _) _ _ => apply wp_new; cbv zeta
  | |- wp _ (deref _ _) _ _ => apply wp_deref; [|intros ? ?]
  | |- wp _ (op_check _ _) _ _ => apply wp_check; intros ?
  | |- wp _ (op_need _ _) _ _ => apply wp_need; [intros ?|intros ? ?]
  | |- wp _ (if ?b then _ else _) _ _ => destruct b eqn:?
  | |- wp _ (match ?x with _ => _ end) _ _ => destruct x eqn:?
  | |- wp _ (heap_mod _) _ _ => unfold heap_mod
  | |- wp _ (tab_mod _) _ _ => unfold tab_mod
  | |- wp _ (del_mod _) _ _ => unfold del_mod
  | |- wp _ (upd_client _ _) _ _ => unfold upd_client
  | |- wp _ (upd_owner _ _) _ _ => unfold upd_owner
  | |- wp _ (upd_open _ _) _ _ => unfold upd_open
  | |- wp _ (upd_lowner _ _) _ _ => unfold upd_lowner
  | |- wp _ (upd_lock _ _) _ _ => unfold upd_lock
  | |- wp _ (upd_deleg _ _) _ _ => unfold upd_deleg
  end.
