(* ===== verification/Nfs4Abs.v ===== *)
(** * NFSv4 state: an abstract machine of opens and locks

    The state manager keeps every open in a table by stateid, an index by file and
    its owner's list; every lock state in a table and its open's list; every
    owner in a table and its client record.  [Abs] is the part of the state these
    are about, [astep] the transitions it can make, [wf] that the tables agree and
    [share_ok] that share reservations are honoured.  Every transition keeps both.
    That the operations of the state manager make only these transitions is proved
    in [Nfs4Refine]. *)

From S2P Require Import Prelude.
From S2P Require Import SlotTable.
From S2P Require Import LockTypes.
From S2P Require Import LockManager.
From S2P Require Import Nfs4Grace.
From S2P Require Import Nfs4Types.
From S2P Require Import Nfs4State.
From S2P Require Import Nfs4Wp.

(** ** The abstract state *)

Record client_sh := ClientSh { w_id : Z; w_owners : gmap string ptr }.
Record owner_sh := OwnerSh { w_client : Z; w_data : string; w_rec : option ptr; w_opens : list ptr }.
Record open_sh := OpenSh {
  w_other : Other; w_owner : ptr; w_file : string; w_access : Z; w_deny : Z; w_locks : list ptr;
}.
Record lock_sh := LockSh { w_lother : Other; w_lowner : ptr; w_lopen : ptr }.

(** The objects. *)
Record Shape := mkShape {
  s_clients : gmap ptr client_sh;
  s_owners : gmap ptr owner_sh;
  s_opens : gmap ptr open_sh;
  s_lowners : gmap ptr unit;
  s_locks : gmap ptr lock_sh;
  s_delegs : gmap ptr Z;
  s_next : ptr;
}.

(** The tables. *)
Record Idx := mkIdx {
  i_clients : gmap Z ptr;
  i_opens : gmap Other ptr;
  i_files : gmap string (list ptr);
  i_owners : gmap string ptr;
  i_locks : gmap Other ptr;
  i_delegs : gmap Other ptr;
  i_lowners : gmap string ptr;
}.

Record Abs := mkAbs { a_epoch : Z; a_seq : Z; a_heap : Shape; a_idx : Idx }.

Definition client_of (c : ClientRecord) : client_sh := ClientSh (cr_ClientID c) (cr_OpenOwners c).
Definition owner_of (o : OpenOwner) : owner_sh :=
  OwnerSh (oo_ClientID o) (oo_OwnerData o) (oo_ClientRecord o) (oo_OpenStates o).
Definition open_of (o : OpenState) : open_sh :=
  OpenSh (si_Other (os_Stateid o)) (os_Owner o) (os_FileHandle o) (os_ShareAccess o) (os_ShareDeny o)
    (os_LockStates o).
Definition lock_of (l : LockState) : lock_sh := LockSh (si_Other (ls_Stateid l)) (ls_LockOwner l) (ls_OpenState l).

Definition shape (h : Heap) : Shape :=
  mkShape (client_of <$> h_clients h) (owner_of <$> h_owners h) (open_of <$> h_opens h)
    ((fun _ => tt) <$> h_lowners h) (lock_of <$> h_locks h) (ds_ClientID <$> h_delegs h) (h_next h).

Definition idx (t : Tables) (d : DelegTables) : Idx :=
  mkIdx (clientsByID t) (openStateByOther t) (openStateByFile t) (openOwners t) (lockStateByOther t)
    (delegByOther d) (lockOwners t).

(** What an operation on [s] is about. *)
Definition abs (s : StateManager) : Abs :=
  mkAbs (sm_bootEpoch s) (sm_nextStateSeq s) (shape (sm_heap s)) (idx (sm_tab s) (sm_del s)).

Definition set_i_clients (x : gmap Z ptr) (t : Idx) : Idx :=
  mkIdx x (i_opens t) (i_files t) (i_owners t) (i_locks t) (i_delegs t) (i_lowners t).
Definition set_i_opens (x : gmap Other ptr) (y : gmap string (list ptr)) (t : Idx) : Idx :=
  mkIdx (i_clients t) x y (i_owners t) (i_locks t) (i_delegs t) (i_lowners t).
Definition set_i_owners (x : gmap string ptr) (t : Idx) : Idx :=
  mkIdx (i_clients t) (i_opens t) (i_files t) x (i_locks t) (i_delegs t) (i_lowners t).
Definition set_i_locks (x : gmap Other ptr) (t : Idx) : Idx :=
  mkIdx (i_clients t) (i_opens t) (i_files t) (i_owners t) x (i_delegs t) (i_lowners t).
Definition set_i_delegs (x : gmap Other ptr) (t : Idx) : Idx :=
  mkIdx (i_clients t) (i_opens t) (i_files t) (i_owners t) (i_locks t) x (i_lowners t).
Definition set_i_lowners (x : gmap string ptr) (t : Idx) : Idx :=
  mkIdx (i_clients t) (i_opens t) (i_files t) (i_owners t) (i_locks t) (i_delegs t) x.

Definition key_of (o : owner_sh) : string := makeOwnerKey (w_client o) (w_data o).

(** The opens of a file. *)
Definition on_file (t : Idx) (f : string) : list ptr := default [] (i_files t !! f).

(** A stateid this server incarnation has issued. *)
Definition issued (tag epoch n : Z) (o : Other) : Prop := exists k, 0 < k <= n /\ o = stateid_other tag epoch k.

Record wf (epoch n : Z) (h : Shape) (t : Idx) : Prop := mkWf {
  wf_issued_open : forall o p, i_opens t !! o = Some p -> issued StateTypeOpen epoch n o;
  wf_issued_lock : forall o p, i_locks t !! o = Some p -> issued StateTypeLock epoch n o;
  wf_open : forall o p, i_opens t !! o = Some p ->
    exists os oo, s_opens h !! p = Some os /\ w_other os = o /\ s_owners h !! w_owner os = Some oo /\
      p ∈ w_opens oo /\ i_owners t !! key_of oo = Some (w_owner os);
  wf_file : forall f p, p ∈ on_file t f <->
    exists o os, i_opens t !! o = Some p /\ s_opens h !! p = Some os /\ w_file os = f;
  wf_file_list : forall f l, i_files t !! f = Some l -> NoDup l /\ l <> [];
  wf_owner : forall k q, i_owners t !! k = Some q ->
    exists oo, s_owners h !! q = Some oo /\ key_of oo = k /\ NoDup (w_opens oo) /\
      forall p, p ∈ w_opens oo ->
        exists os, s_opens h !! p = Some os /\ w_owner os = q /\ i_opens t !! w_other os = Some p;
  wf_client : forall c r, i_clients t !! c = Some r ->
    exists cr, s_clients h !! r = Some cr /\ w_id cr = c /\
      forall d q, w_owners cr !! d = Some q ->
        exists oo, s_owners h !! q = Some oo /\ w_client oo = c /\ w_data oo = d /\
          (i_owners t !! makeOwnerKey c d = Some q \/
           i_owners t !! makeOwnerKey c d = None /\ w_opens oo = []);
  wf_registered : forall k q oo r, i_owners t !! k = Some q -> s_owners h !! q = Some oo -> w_rec oo = Some r ->
    i_clients t !! w_client oo = Some r ->
    exists cr, s_clients h !! r = Some cr /\ w_owners cr !! w_data oo = Some q;
  wf_lock : forall o lp, i_locks t !! o = Some lp ->
    exists ls os, s_locks h !! lp = Some ls /\ w_lother ls = o /\ s_opens h !! w_lopen ls = Some os /\
      lp ∈ w_locks os /\ i_opens t !! w_other os = Some (w_lopen ls);
  wf_open_locks : forall o p os, i_opens t !! o = Some p -> s_opens h !! p = Some os ->
    NoDup (w_locks os) /\ forall lp, lp ∈ w_locks os ->
      exists ls, s_locks h !! lp = Some ls /\ w_lopen ls = p /\ i_locks t !! w_lother ls = Some lp;
  wf_bound_clients : forall p x, s_clients h !! p = Some x -> (p < s_next h)%nat;
  wf_bound_owners : forall p x, s_owners h !! p = Some x -> (p < s_next h)%nat;
  wf_bound_opens : forall p x, s_opens h !! p = Some x -> (p < s_next h)%nat;
  wf_bound_locks : forall p x, s_locks h !! p = Some x -> (p < s_next h)%nat;
  wf_rec : forall p x r, s_owners h !! p = Some x -> w_rec x = Some r ->
    exists c, s_clients h !! r = Some c /\ w_id c = w_client x;
  wf_lowner : forall lp ls, s_locks h !! lp = Some ls -> is_Some (s_lowners h !! w_lowner ls);
  wf_deleg : forall o p, i_delegs t !! o = Some p -> is_Some (s_delegs h !! p);
  wf_lowners : forall k p, i_lowners t !! k = Some p -> is_Some (s_lowners h !! p);
}.

Lemma wf_later e n n' h t : n <= n' -> wf e n h t -> wf e n' h t.
Proof.
  intros Hn [Ho Hl ? ? ? ? ? ? ? ? ? ? ? ? ? ? ? ?]. split; try done.
  - intros o p H. destruct (Ho o p H) as (k & ? & ?). exists k. split; [lia|done].
  - intros o p H. destruct (Hl o p H) as (k & ? & ?). exists k. split; [lia|done].
Qed.

(** ** Client records *)

Definition add_client (c : client_sh) (h : Shape) : Shape :=
  mkShape (<[s_next h := c]> (s_clients h)) (s_owners h) (s_opens h) (s_lowners h) (s_locks h) (s_delegs h)
    (S (s_next h)).

Lemma lookup_fresh {A} (m : gmap ptr A) n p x :
  (forall p x, m !! p = Some x -> (p < n)%nat) -> m !! p = Some x -> p <> n.
Proof. intros H Hp ->. apply H in Hp. lia. Qed.

Lemma insert_bound {A} (m : gmap ptr A) n y :
  (forall p x, m !! p = Some x -> (p < n)%nat) -> forall p x, <[n := y]> m !! p = Some x -> (p < S n)%nat.
Proof. intros H p x [[<- _]|[_ Hp]]%lookup_insert_Some; [lia|]. apply H in Hp. lia. Qed.

Lemma wf_alloc_client e n h t c : wf e n h t -> wf e n (add_client c h) t.
Proof.
  intros [? ? ? ? ? ? Hc Hr ? ? B1 B2 B3 B4 Hrec ? ? ?]. split; cbn; try done.
  - intros i r H. destruct (Hc i r H) as (cr & E & Hcr). exists cr. split; [|done].
    rewrite lookup_insert_ne; [done|]. intros <-. apply B1 in E. lia.
  - intros k q oo r H1 H2 H3 H4. destruct (Hr k q oo r H1 H2 H3 H4) as (cr & E & Hcr). exists cr. split; [|done].
    rewrite lookup_insert_ne; [done|]. intros <-. apply B1 in E. lia.
  - now apply insert_bound.
  - intros p x H. apply B2 in H. lia.
  - intros p x H. apply B3 in H. lia.
  - intros p x H. apply B4 in H. lia.
  - intros p x r H1 H2. destruct (Hrec p x r H1 H2) as (y & Hy & Hid). exists y. split; [|done].
    rewrite lookup_insert_ne; [done|]. intros <-. apply B1 in Hy. lia.
Qed.

(** A record without owners, that no owner refers to, becomes a client. *)
Lemma wf_reg_client e n h t i p :
  wf e n h t -> s_clients h !! p = Some (ClientSh i ∅) ->
  (forall q oo, s_owners h !! q = Some oo -> w_rec oo <> Some p) ->
  wf e n h (set_i_clients (<[i := p]> (i_clients t)) t).
Proof.
  intros [? ? ? ? ? ? Hc Hr ? ? ? ? ? ? ? ? ? ?] Hp Hn. split; cbn; try done.
  - intros c r [[<- <-]|[_ H]]%lookup_insert_Some; [|now apply Hc].
    exists (ClientSh i ∅). split; [done|]. split; [done|]. intros d q H. cbn in H. now rewrite lookup_empty in H.
  - intros k q oo r H1 H2 H3 [[_ <-]|[_ H]]%lookup_insert_Some; [now apply Hn in H2|]. eauto.
Qed.

Lemma wf_new_client e n h t i :
  wf e n h t -> wf e n (add_client (ClientSh i ∅) h) (set_i_clients (<[i := s_next h]> (i_clients t)) t).
Proof.
  intros Hw. apply wf_reg_client; [now apply wf_alloc_client|cbn; apply lookup_insert_eq|].
  cbn. intros q oo H Hr. destruct (wf_rec _ _ _ _ Hw _ _ _ H Hr) as (x & Hx & _). apply (wf_bound_clients _ _ _ _ Hw) in Hx. lia.
Qed.

Lemma wf_drop_client e n h t c : wf e n h t -> wf e n h (set_i_clients (delete c (i_clients t)) t).
Proof.
  intros [? ? ? ? ? ? Hc Hr ? ? ? ? ? ? ? ? ? ?]. split; cbn; try done.
  - intros i r [_ H]%lookup_delete_Some. now apply Hc.
  - intros k q oo r H1 H2 H3 [_ H4]%lookup_delete_Some. eauto.
Qed.

(** ** Owners *)

Definition add_owner (o : owner_sh) (h : Shape) : Shape :=
  mkShape (s_clients h) (<[s_next h := o]> (s_owners h)) (s_opens h) (s_lowners h) (s_locks h) (s_delegs h)
    (S (s_next h)).

(** The owner [q] is entered under its name in the record [r]. *)
Definition register (r : option ptr) (d : string) (q : ptr) (h : Shape) : Shape :=
  match r with
  | None => h
  | Some r => mkShape (alter (fun c => ClientSh (w_id c) (<[d := q]> (w_owners c))) r (s_clients h))
                (s_owners h) (s_opens h) (s_lowners h) (s_locks h) (s_delegs h) (s_next h)
  end.

Lemma register_owners r d q h : s_owners (register r d q h) = s_owners h.
Proof. now destruct r. Qed.
Lemma register_opens r d q h : s_opens (register r d q h) = s_opens h.
Proof. now destruct r. Qed.
Lemma register_locks r d q h : s_locks (register r d q h) = s_locks h.
Proof. now destruct r. Qed.
Lemma register_lowners r d q h : s_lowners (register r d q h) = s_lowners h.
Proof. now destruct r. Qed.
Lemma register_delegs r d q h : s_delegs (register r d q h) = s_delegs h.
Proof. now destruct r. Qed.
Lemma register_next r d q h : s_next (register r d q h) = s_next h.
Proof. now destruct r. Qed.

Lemma register_clients r d q h p c :
  s_clients (register r d q h) !! p = Some c ->
  exists c0, s_clients h !! p = Some c0 /\ w_id c = w_id c0 /\
    w_owners c = (if decide (r = Some p) then <[d := q]> (w_owners c0) else w_owners c0).
Proof.
  destruct r as [r|]; cbn; [|eauto]. intros [(<- & c0 & E & ->)|[Hn E]]%lookup_alter_Some.
  - exists c0. rewrite decide_True by done. eauto.
  - exists c. rewrite decide_False by congruence. eauto.
Qed.

Lemma register_clients_some r d q h p c0 :
  s_clients h !! p = Some c0 ->
  exists c, s_clients (register r d q h) !! p = Some c /\ w_id c = w_id c0 /\
    w_owners c = (if decide (r = Some p) then <[d := q]> (w_owners c0) else w_owners c0).
Proof.
  intros E. destruct (s_clients (register r d q h) !! p) as [c|] eqn:Ec.
  - exists c. split; [done|]. destruct (register_clients _ _ _ _ _ _ Ec) as (c1 & E1 & H). now rewrite E in E1; injection E1 as <-.
  - destruct r as [r|]; cbn in Ec; [|congruence]. apply lookup_alter_None in Ec. congruence.
Qed.


Lemma wf_new_owner e n h t i d :
  wf e n h t -> i_owners t !! makeOwnerKey i d = None ->
  let r := i_clients t !! i in
  wf e n (register r d (s_next h) (add_owner (OwnerSh i d r []) h))
    (set_i_owners (<[makeOwnerKey i d := s_next h]> (i_owners t)) t).
Proof.
  intros Hw Hnone r. destruct Hw as [? ? Hop ? ? Hown Hc Hr Hl ? B1 B2 B3 B4 Hrec ? ? ?].
  assert (forall p x, s_owners h !! p = Some x -> <[s_next h := OwnerSh i d r []]> (s_owners h) !! p = Some x) as Hkeep.
  { intros p x Hp. rewrite lookup_insert_ne; [done|]. intros <-. apply B2 in Hp. lia. }
  split; cbn [i_opens i_files i_owners i_clients i_locks i_delegs i_lowners set_i_owners];
    rewrite ?register_owners, ?register_opens, ?register_locks, ?register_lowners, ?register_delegs, ?register_next;
    cbn [add_owner s_owners s_opens s_lowners s_locks s_delegs s_next]; try done.
  - intros o p H. destruct (Hop o p H) as (os & oo & E1 & E2 & E3 & E4 & E5).
    exists os, oo. split_and!; auto. rewrite lookup_insert_ne; [done|]. intros Hk. rewrite Hk in Hnone. congruence.
  - intros k q [[<- <-]|[Hk H]]%lookup_insert_Some.
    + exists (OwnerSh i d r []). rewrite lookup_insert_eq. split_and!; try done; cbn; [constructor|]. set_solver.
    + destruct (Hown k q H) as (oo & E & ?). exists oo. split; [auto|done].
  - intros c p H. destruct (Hc c p H) as (cr & E & Hid & Howns).
    destruct (register_clients_some r d (s_next h) (add_owner (OwnerSh i d r []) h) p cr E) as (cr' & E' & Hid' & Hm).
    exists cr'. split; [done|]. split; [congruence|]. intros d' q Hq. rewrite Hm in Hq.
    assert (w_owners cr !! d' = Some q /\ makeOwnerKey i d <> makeOwnerKey c d' \/
            c = i /\ d' = d /\ q = s_next h) as [[Hq' Hk]|(-> & -> & ->)].
    { destruct (decide (r = Some p)) as [Er|Hn].
      - destruct (Hc i p Er) as (x & Ex & Hi & _). assert (c = i) as -> by congruence.
        apply lookup_insert_Some in Hq as [[<- <-]|[Hnd Hq]]; [auto|].
        left. split; [done|]. intros [_ Hd]%makeOwnerKey_inj. congruence.
      - left. split; [done|]. intros [Hi _]%makeOwnerKey_inj. apply Hn. unfold r. now rewrite Hi. }
    + destruct (Howns d' q Hq') as (oo & E1 & E2 & E3 & E4). exists oo. split_and!; auto.
      now rewrite lookup_insert_ne.
    + exists (OwnerSh i d r []). rewrite lookup_insert_eq. split_and!; try done. left. apply lookup_insert_eq.
  - intros k q oo p [[<- <-]|[Hk H]]%lookup_insert_Some Hoo Hrp Hcl.
    + rewrite lookup_insert_eq in Hoo. injection Hoo as <-. cbn in Hrp, Hcl |- *.
      destruct (Hc i p Hcl) as (cr & E & _).
      destruct (register_clients_some r d (s_next h) (add_owner (OwnerSh i d r []) h) p cr E) as (cr' & E' & _ & Hm).
      exists cr'. split; [done|]. rewrite Hm, decide_True by done. apply lookup_insert_eq.
    + assert (s_owners h !! q = Some oo) as Hoo'.
      { rewrite lookup_insert_ne in Hoo; [done|]. intros <-. destruct (Hown k _ H) as (x & Hx & _). apply B2 in Hx. lia. }
      destruct (Hr k q oo p H Hoo' Hrp Hcl) as (cr & E & Hd).
      destruct (register_clients_some r d (s_next h) (add_owner (OwnerSh i d r []) h) p cr E) as (cr' & E' & _ & Hm).
      exists cr'. split; [done|]. rewrite Hm. case_decide as Hri; [|done]. rewrite lookup_insert_ne; [done|]. intros ->.
      destruct (Hown k q H) as (x & Hx & Hkx & _). assert (x = oo) as -> by congruence.
      destruct (Hc i p Hri) as (y & Ey & Hi & _). destruct (Hc (w_client oo) p Hcl) as (z & Ez & Hi' & _).
      apply Hk. rewrite <- Hkx. unfold key_of. f_equal. congruence.
  - intros p x Hp. destruct (register_clients _ _ _ _ _ _ Hp) as (c0 & E & _). apply B1 in E. lia.
  - now apply insert_bound.
  - intros p x H. apply B3 in H. lia.
  - intros p x H. apply B4 in H. lia.
  - intros p x p' Hx Hp'.
    assert (exists c0, s_clients h !! p' = Some c0 /\ w_id c0 = w_client x) as (c0 & Hc0 & Hid).
    { apply lookup_insert_Some in Hx as [[<- <-]|[_ Hx]]; [|now apply (Hrec p x)].
      cbn in Hp' |- *. destruct (Hc i p' Hp') as (y & Ey & Hi & _). eauto. }
    destruct (register_clients_some r d (s_next h) (add_owner (OwnerSh i d r []) h) p' c0 Hc0) as (c' & E' & Hi & _).
    exists c'. split; [done|congruence].
Qed.

(** ** Opens *)

Lemma not_issued tag e n : 0 <= n -> n + 1 < 2 ^ 64 -> ~ issued tag e n (stateid_other tag e (n + 1)).
Proof. intros H0 Hn (k & Hk & E). apply stateid_other_inj in E; unfold in_u64; change (2 ^ 64) with 18446744073709551616 in *; lia. Qed.

Lemma issued_next tag e n : 0 <= n -> issued tag e (n + 1) (stateid_other tag e (n + 1)).
Proof. exists (n + 1). split; [lia|done]. Qed.

Definition push_open (p : ptr) (o : owner_sh) : owner_sh :=
  OwnerSh (w_client o) (w_data o) (w_rec o) (w_opens o ++ [p]).

Definition add_open (o : open_sh) (h : Shape) : Shape :=
  mkShape (s_clients h) (alter (push_open (s_next h)) (w_owner o) (s_owners h))
    (<[s_next h := o]> (s_opens h)) (s_lowners h) (s_locks h) (s_delegs h) (S (s_next h)).

Definition index_open (other : Other) (f : string) (p : ptr) (t : Idx) : Idx :=
  set_i_opens (<[other := p]> (i_opens t)) (<[f := on_file t f ++ [p]]> (i_files t)) t.

(** Owners are as before, up to one list. *)
Lemma lookup_alter_owner (f : owner_sh -> owner_sh) q q' (m : gmap ptr owner_sh) oo :
  m !! q' = Some oo -> alter f q m !! q' = Some (if decide (q = q') then f oo else oo).
Proof.
  intros H. case_decide as Hq; [subst; now rewrite lookup_alter_eq, H|now rewrite lookup_alter_ne].
Qed.

Lemma wf_add_open e n h t k q oo f a d :
  wf e n h t -> 0 <= n -> n + 1 < 2 ^ 64 -> i_owners t !! k = Some q -> s_owners h !! q = Some oo ->
  let other := stateid_other StateTypeOpen e (n + 1) in
  wf e (n + 1) (add_open (OpenSh other q f a d []) h) (index_open other f (s_next h) t).
Proof.
  intros Hw H0 Hn Hk Hoo other. assert (n <= n + 1) as Hle by lia. pose proof (wf_later _ _ _ _ _ Hle Hw) as Hw1.
  pose proof (wf_issued_open _ _ _ _ Hw) as Hio.
  destruct Hw1 as [Hio1 Hil1 Hop Hfile Hflist Hown Hc Hr Hl Hol B1 B2 B3 B4 Hrec ? ? ?].
  set (p0 := s_next h).
  assert (i_opens t !! other = None) as Hfresh.
  { destruct (i_opens t !! other) eqn:E; [|done]. apply Hio in E. now apply not_issued in E. }
  assert (forall p os, s_opens h !! p = Some os -> <[p0 := OpenSh other q f a d []]> (s_opens h) !! p = Some os) as Hkeep.
  { intros p x Hp. rewrite lookup_insert_ne; [done|]. intros <-. apply B3 in Hp. unfold p0 in Hp. lia. }
  assert (forall p o, i_opens t !! o = Some p -> p <> p0) as Hnew.
  { intros p o H. destruct (Hop o p H) as (os & _ & E & _). apply B3 in E. unfold p0. lia. }
  assert (forall o p, i_opens t !! o = Some p -> <[other := p0]> (i_opens t) !! o = Some p) as Hold.
  { intros o p H. rewrite lookup_insert_ne; [done|congruence]. }
  assert (forall q' x, s_owners h !! q' = Some x -> exists x', alter (push_open p0) q (s_owners h) !! q' = Some x' /\
     key_of x' = key_of x /\ w_client x' = w_client x /\ w_data x' = w_data x /\ w_rec x' = w_rec x /\
     w_opens x' = if decide (q = q') then w_opens x ++ [p0] else w_opens x) as Howners.
  { intros q' x Hx. rewrite (lookup_alter_owner _ _ _ _ _ Hx). eexists. split; [done|]. now case_decide. }
  split; cbn [index_open set_i_opens i_opens i_files i_owners i_clients i_locks i_delegs i_lowners
    add_open s_clients s_owners s_opens s_lowners s_locks s_delegs s_next w_owner]; fold p0; try done.
  - intros o p [[<- _]|[_ H]]%lookup_insert_Some; [now apply issued_next|eauto].
  - intros o p [[<- <-]|[_ H]]%lookup_insert_Some.
    + destruct (Howners q oo Hoo) as (oo' & E1 & E2 & _ & _ & _ & E3). rewrite decide_True in E3 by done.
      exists (OpenSh other q f a d []), oo'. rewrite lookup_insert_eq. split_and!; try done; [rewrite E3; set_solver|].
      destruct (Hown k q Hk) as (x & Hx & Hkx & _). cbn. rewrite E2. congruence.
    + destruct (Hop o p H) as (os & x & E1 & E2 & E3 & E4 & E5). destruct (Howners _ _ E3) as (x' & F1 & F2 & _ & _ & _ & F3).
      exists os, x'. split_and!; auto; [|congruence]. rewrite F3. case_decide; set_solver.
  - intros f' p. unfold on_file at 1. cbn [i_files index_open set_i_opens].
    assert (p ∈ default [] (<[f:=on_file t f ++ [p0]]> (i_files t) !! f') <-> p ∈ on_file t f' \/ f = f' /\ p = p0) as ->.
    { destruct (decide (f = f')) as [<-|Hf]; [rewrite lookup_insert_eq|rewrite lookup_insert_ne by done]; cbn; [set_solver|].
      unfold on_file. naive_solver. }
    rewrite Hfile. split.
    + intros [(o & os & H1 & H2 & H3)|[<- ->]]; [exists o, os; auto|].
      exists other, (OpenSh other q f a d []). now rewrite !lookup_insert_eq.
    + intros (o & os & [[<- <-]|[_ H1]]%lookup_insert_Some & H2 & H3).
      * rewrite lookup_insert_eq in H2. injection H2 as <-. auto.
      * left. rewrite lookup_insert_ne in H2 by (intros <-; now apply Hnew in H1). eauto.
  - intros f' l [[<- <-]|[_ H]]%lookup_insert_Some; [|eauto]. split; [|now destruct (on_file t f)].
    apply NoDup_app. split; [|split; [|apply NoDup_singleton]].
    + unfold on_file. destruct (i_files t !! f) eqn:E; cbn; [now apply Hflist in E|constructor].
    + intros p Hp ->%list_elem_of_singleton. apply Hfile in Hp as (o & os & H & _). now apply Hnew in H.
  - intros k' q' H. destruct (Hown k' q' H) as (x & E1 & E2 & E3 & E4).
    destruct (Howners _ _ E1) as (x' & F1 & F2 & _ & _ & _ & F3). exists x'. split_and!; [done|congruence| |].
    + rewrite F3. case_decide; [|done]. apply NoDup_app. split; [done|]. split; [|apply NoDup_singleton].
      intros p Hp ->%list_elem_of_singleton. destruct (E4 _ Hp) as (os & _ & _ & Ho). now apply Hnew in Ho.
    + intros p Hp. assert (p ∈ w_opens x \/ q = q' /\ p = p0) as [Hp'|[<- ->]] by (rewrite F3 in Hp; case_decide; set_solver).
      * destruct (E4 p Hp') as (os & G1 & G2 & G3). exists os. auto.
      * exists (OpenSh other q f a d []). now rewrite !lookup_insert_eq.
  - intros c r H. destruct (Hc c r H) as (cr & E1 & E2 & E3). exists cr. split_and!; try done. intros d' q' Hd.
    destruct (E3 d' q' Hd) as (x & G1 & G2 & G3 & G4). destruct (Howners _ _ G1) as (x' & F1 & _ & F2 & F3 & _ & F4).
    exists x'. split_and!; [done|congruence|congruence|]. destruct G4 as [G4|[G4 G5]]; [now left|right]. split; [done|].
    rewrite F4. case_decide as Hqq; [|done]. subst q'. destruct (Hown k q Hk) as (y & Ey & Hky & _).
    assert (y = x) as -> by congruence. unfold key_of in Hky. congruence.
  - intros k' q' x r H1 H2 H3 H4. apply lookup_alter_Some in H2 as [(<- & y & Hy & ->)|[_ Hy]];
      [exact (Hr k' q y r H1 Hy H3 H4)|eauto].
  - intros o lp H. destruct (Hl o lp H) as (ls & os & E1 & E2 & E3 & E4 & E5). exists ls, os. split_and!; auto.
  - intros o p os [[<- <-]|[_ H1]]%lookup_insert_Some H2.
    + rewrite lookup_insert_eq in H2. injection H2 as <-. cbn. split; [constructor|set_solver].
    + rewrite lookup_insert_ne in H2 by (intros <-; now apply Hnew in H1). eauto.
  - intros p x H. apply B1 in H. lia.
  - intros p x [(<- & y & Hy & _)|[_ Hy]]%lookup_alter_Some; apply B2 in Hy; lia.
  - now apply insert_bound.
  - intros p x H. apply B4 in H. lia.
  - intros p x r [(<- & y & Hy & ->)|[_ Hy]]%lookup_alter_Some Hx; [exact (Hrec q y r Hy Hx)|eauto].
Qed.

(** ** Closing *)

Lemma remove_ptr_elem p q l : NoDup l -> q ∈ remove_ptr p l <-> q ∈ l /\ q <> p.
Proof.
  induction 1 as [|x l Hx Hl IH]; cbn; [set_solver|]. destruct (decide (x = p)) as [->|Hn]; [set_solver|].
  rewrite !elem_of_cons, IH. naive_solver.
Qed.

Lemma remove_ptr_sub p q l : q ∈ remove_ptr p l -> q ∈ l.
Proof. induction l as [|x l IH]; cbn; [done|]. case_decide; set_solver. Qed.

Lemma remove_ptr_nodup p l : NoDup l -> NoDup (remove_ptr p l).
Proof.
  induction 1 as [|x l Hx Hl IH]; cbn; [constructor|]. case_decide; [done|].
  constructor; [|done]. now intros ?%remove_ptr_sub.
Qed.

(** Removing from the index by file keeps its lists non-empty and without repeats. *)
Definition listed (m : gmap string (list ptr)) : Prop := forall f l, m !! f = Some l -> NoDup l /\ l <> [].

Lemma listed_nodup m f : listed m -> NoDup (default [] (m !! f)).
Proof. intros H. destruct (m !! f) eqn:E; cbn; [now apply H in E|constructor]. Qed.

Lemma remove_from_file_listed f p m : listed m -> listed (remove_from_file f p m).
Proof.
  intros H. unfold remove_from_file. case_bool_decide; [|done].
  pose proof (remove_ptr_nodup p _ (listed_nodup m f H)) as Hn.
  destruct (remove_ptr p (default [] (m !! f))) as [|x l]; intros f' l'.
  - intros [_ E]%lookup_delete_Some. eauto.
  - intros [[_ <-]|[_ E]]%lookup_insert_Some; [done|eauto].
Qed.

Lemma remove_from_file_elem f p m f' q : listed m ->
  q ∈ default [] (remove_from_file f p m !! f') <-> q ∈ default [] (m !! f') /\ ~ (f' = f /\ q = p).
Proof.
  intros H. pose proof (remove_ptr_elem p q _ (listed_nodup m f H)) as He. unfold remove_from_file.
  case_bool_decide as Hp; [|naive_solver]. destruct (decide (f' = f)) as [->|Hf].
  - destruct (remove_ptr p (default [] (m !! f))) as [|x l];
      [rewrite lookup_delete_eq|rewrite lookup_insert_eq]; cbn; rewrite He; naive_solver.
  - destruct (remove_ptr p (default [] (m !! f)));
      [rewrite lookup_delete_ne by done|rewrite lookup_insert_ne by done]; naive_solver.
Qed.

Definition pull_open (p : ptr) (o : owner_sh) : owner_sh :=
  OwnerSh (w_client o) (w_data o) (w_rec o) (remove_ptr p (w_opens o)).

Definition del_open (p q : ptr) (h : Shape) : Shape :=
  mkShape (s_clients h) (alter (pull_open p) q (s_owners h)) (s_opens h) (s_lowners h) (s_locks h) (s_delegs h)
    (s_next h).

Definition unindex_open (other : Other) (f : string) (p : ptr) (t : Idx) : Idx :=
  set_i_opens (delete other (i_opens t)) (remove_from_file f p (i_files t)) t.

Lemma wf_del_open e n h t o p os :
  wf e n h t -> i_opens t !! o = Some p -> s_opens h !! p = Some os -> w_locks os = [] ->
  wf e n (del_open p (w_owner os) h) (unindex_open o (w_file os) p t).
Proof.
  intros Hw Ho Hos Hlocks. destruct Hw as [Hio Hil Hop Hfile Hflist Hown Hc Hr Hl Hol B1 B2 B3 B4 Hrec ? ? ?].
  assert (forall o' p', delete o (i_opens t) !! o' = Some p' <-> i_opens t !! o' = Some p' /\ p' <> p) as Hdel.
  { intros o' p'. rewrite lookup_delete_Some. split; [|naive_solver]. intros [Hne H]. split; [done|]. intros ->.
    destruct (Hop o p Ho) as (x & _ & E1 & E2 & _), (Hop o' p H) as (y & _ & E3 & E4 & _). congruence. }
  assert (forall q x, s_owners h !! q = Some x -> exists x', alter (pull_open p) (w_owner os) (s_owners h) !! q = Some x' /\
     key_of x' = key_of x /\ w_client x' = w_client x /\ w_data x' = w_data x /\ w_rec x' = w_rec x /\
     w_opens x' = if decide (w_owner os = q) then remove_ptr p (w_opens x) else w_opens x) as Howners.
  { intros q x Hx. rewrite (lookup_alter_owner _ _ _ _ _ Hx). eexists. split; [done|]. now case_decide. }
  split; cbn [unindex_open set_i_opens i_opens i_files i_owners i_clients i_locks i_delegs i_lowners del_open
    s_clients s_owners s_opens s_lowners s_locks s_delegs s_next w_owner]; try done.
  - intros o' p' [H _]%Hdel. eauto.
  - intros o' p' [H Hne]%Hdel. destruct (Hop o' p' H) as (x & y & E1 & E2 & E3 & E4 & E5).
    destruct (Howners _ _ E3) as (y' & F1 & F2 & _ & _ & _ & F3). exists x, y'. split_and!; auto; [|congruence].
    rewrite F3. case_decide as Hq; [|done]. destruct (Hown _ _ E5) as (z & Hz & _ & Hnd & _).
    apply remove_ptr_elem; [congruence|done].
  - intros f p'. unfold on_file. cbn [i_files unindex_open set_i_opens]. rewrite remove_from_file_elem by done.
    change (default [] (i_files t !! f)) with (on_file t f). rewrite Hfile. split.
    + intros [(o' & x & E1 & E2 & E3) Hne]. exists o', x. split; [|done]. apply Hdel. split; [done|]. intros ->. naive_solver.
    + intros (o' & x & [E1 Hne]%Hdel & E2 & E3). split; [eauto|]. naive_solver.
  - now apply remove_from_file_listed.
  - intros k q H. destruct (Hown k q H) as (x & E1 & E2 & E3 & E4).
    destruct (Howners _ _ E1) as (x' & F1 & F2 & _ & _ & _ & F3). exists x'. split_and!; [done|congruence| |].
    + rewrite F3. case_decide; [now apply remove_ptr_nodup|done].
    + intros p' Hp'. assert (p' ∈ w_opens x /\ p' <> p) as [Hin Hne].
      { rewrite F3 in Hp'. case_decide as Hq; [now apply remove_ptr_elem|]. split; [done|]. intros ->.
        destruct (E4 p Hp') as (y & G1 & G2 & _). congruence. }
      destruct (E4 p' Hin) as (y & G1 & G2 & G3). exists y. split_and!; auto. now apply Hdel.
  - intros c r H. destruct (Hc c r H) as (cr & E1 & E2 & E3). exists cr. split_and!; try done. intros d' q' Hd.
    destruct (E3 d' q' Hd) as (x & G1 & G2 & G3 & G4). destruct (Howners _ _ G1) as (x' & F1 & _ & F2 & F3 & _ & F4).
    exists x'. split_and!; [done|congruence|congruence|]. destruct G4 as [G4|[G4 G5]]; [now left|right]. split; [done|].
    rewrite F4, G5. now case_decide.
  - intros k' q' x r H1 H2 H3 H4. apply lookup_alter_Some in H2 as [(<- & y & Hy & ->)|[_ Hy]];
      [exact (Hr k' _ y r H1 Hy H3 H4)|eauto].
  - intros o' lp H. destruct (Hl o' lp H) as (ls & x & E1 & E2 & E3 & E4 & E5). exists ls, x. split_and!; auto.
    apply Hdel. split; [done|]. intros E. rewrite E, Hos in E3. injection E3 as <-. rewrite Hlocks in E4. set_solver.
  - intros o' p' x [H _]%Hdel. eauto.
  - intros q x [(<- & y & Hy & _)|[_ Hy]]%lookup_alter_Some; eauto.
  - intros q x r [(<- & y & Hy & ->)|[_ Hy]]%lookup_alter_Some Hx; [exact (Hrec _ y r Hy Hx)|eauto].
Qed.

(** An owner without opens leaves its table. *)
Lemma wf_drop_owner e n h t k q oo :
  wf e n h t -> i_owners t !! k = Some q -> s_owners h !! q = Some oo -> w_opens oo = [] ->
  wf e n h (set_i_owners (delete k (i_owners t)) t).
Proof.
  intros [Hio Hil Hop Hfile Hflist Hown Hc Hr Hl Hol B1 B2 B3 B4 Hrec ? ? ?] Hk Hoo Hnil. split; cbn; try done.
  - intros o p H. destruct (Hop o p H) as (os & x & E1 & E2 & E3 & E4 & E5). exists os, x. split_and!; auto.
    apply lookup_delete_Some. split; [|done]. intros E. rewrite <- E, Hk in E5. injection E5 as E5.
    rewrite <- E5, Hoo in E3. injection E3 as <-. rewrite Hnil in E4. set_solver.
  - intros k' q' [_ H]%lookup_delete_Some. eauto.
  - intros c r H. destruct (Hc c r H) as (cr & E1 & E2 & E3). exists cr. split_and!; try done. intros d q' Hd.
    destruct (E3 d q' Hd) as (x & G1 & G2 & G3 & G4). exists x. split_and!; auto.
    destruct (decide (k = makeOwnerKey c d)) as [->|Hne].
    + right. rewrite lookup_delete_eq. split; [done|]. destruct G4 as [G4|[G4 _]]; congruence.
    + now rewrite lookup_delete_ne.
  - intros k' q' x r [_ H]%lookup_delete_Some. eauto.
Qed.

(** A name that is not live leaves a client record. *)
Definition unregister (r : option ptr) (d : string) (h : Shape) : Shape :=
  match r with
  | None => h
  | Some r => mkShape (alter (fun c => ClientSh (w_id c) (delete d (w_owners c))) r (s_clients h))
                (s_owners h) (s_opens h) (s_lowners h) (s_locks h) (s_delegs h) (s_next h)
  end.

Lemma wf_unregister e n h t r d :
  wf e n h t -> (forall r' c, r = Some r' -> s_clients h !! r' = Some c -> i_owners t !! makeOwnerKey (w_id c) d = None) ->
  wf e n (unregister r d h) t.
Proof.
  destruct r as [r|]; [|done]. cbn [unregister].
  intros [Hio Hil Hop Hfile Hflist Hown Hc Hr Hl Hol B1 B2 B3 B4 Hrec ? ? ?] Hdead.
  assert (forall p c, s_clients h !! p = Some c -> exists c',
    alter (fun c => ClientSh (w_id c) (delete d (w_owners c))) r (s_clients h) !! p = Some c' /\ w_id c' = w_id c /\
    w_owners c' = if decide (r = p) then delete d (w_owners c) else w_owners c) as Hcl.
  { intros p c Hp. case_decide as Hq; [subst; rewrite lookup_alter_eq, Hp|rewrite lookup_alter_ne by done]; eauto. }
  split; cbn; try done.
  - intros c p H. destruct (Hc c p H) as (cr & E1 & E2 & E3). destruct (Hcl _ _ E1) as (cr' & F1 & F2 & F3).
    exists cr'. split_and!; [done|congruence|]. intros d' q Hd. apply E3. rewrite F3 in Hd.
    case_decide; [now apply lookup_delete_Some in Hd as [_ ?]|done].
  - intros k q oo p H1 H2 H3 H4. destruct (Hr k q oo p H1 H2 H3 H4) as (cr & E1 & E2).
    destruct (Hcl _ _ E1) as (cr' & F1 & F2 & F3). exists cr'. split; [done|]. rewrite F3. case_decide as Hq; [|done].
    subst p. apply lookup_delete_Some. split; [|done]. intros ->.
    destruct (Hc _ _ H4) as (y & Hy & Hid & _). specialize (Hdead r cr eq_refl E1).
    destruct (Hown k q H1) as (x & Hx & Hk & _). unfold key_of in Hk. congruence.
  - intros p x [(<- & y & Hy & _)|[_ Hy]]%lookup_alter_Some; eauto.
  - intros p x p' Hx Hp'. destruct (Hrec p x p' Hx Hp') as (c & Hc1 & Hid). destruct (Hcl _ _ Hc1) as (c' & F1 & F2 & _).
    exists c'. split; [done|congruence].
Qed.

(** ** Updating an open, and its lock states *)

Definition keeps_open (f : open_sh -> open_sh) : Prop :=
  forall o, w_other (f o) = w_other o /\ w_owner (f o) = w_owner o /\ w_file (f o) = w_file o.

Lemma alter_open f p p' (m : gmap ptr open_sh) os :
  m !! p' = Some os -> alter f p m !! p' = Some (if decide (p = p') then f os else os).
Proof. intros H. case_decide; subst; [now rewrite lookup_alter_eq, H|now rewrite lookup_alter_ne]. Qed.

Lemma alter_open_inv f p p' (m : gmap ptr open_sh) x :
  alter f p m !! p' = Some x -> exists os, m !! p' = Some os /\ x = if decide (p = p') then f os else os.
Proof.
  case_decide; subst; [rewrite lookup_alter_eq|rewrite lookup_alter_ne by done; eauto].
  destruct (m !! p') eqn:E; cbn; [|done]. intros [= <-]. eauto.
Qed.

Lemma keeps_cond f o (b : bool) : keeps_open f ->
  let x := if b then f o else o in w_other x = w_other o /\ w_owner x = w_owner o /\ w_file x = w_file o.
Proof. intros H. destruct b; [apply H|done]. Qed.

(** An open whose place in the tables does not change; its lock states may. *)
Lemma wf_upd_open e n h t f p locks next ilocks :
  keeps_open f -> (s_next h <= next)%nat -> wf e n h t ->
  let h' := mkShape (s_clients h) (s_owners h) (alter f p (s_opens h)) (s_lowners h) locks (s_delegs h) next in
  let t' := set_i_locks ilocks t in
  (forall o lp, ilocks !! o = Some lp -> issued StateTypeLock e n o) ->
  (forall o lp, ilocks !! o = Some lp ->
    exists ls os, locks !! lp = Some ls /\ w_lother ls = o /\ s_opens h' !! w_lopen ls = Some os /\
      lp ∈ w_locks os /\ i_opens t !! w_other os = Some (w_lopen ls)) ->
  (forall o p os, i_opens t !! o = Some p -> s_opens h' !! p = Some os ->
    NoDup (w_locks os) /\ forall lp, lp ∈ w_locks os ->
      exists ls, locks !! lp = Some ls /\ w_lopen ls = p /\ ilocks !! w_lother ls = Some lp) ->
  (forall p x, locks !! p = Some x -> (p < next)%nat) ->
  (forall lp ls, locks !! lp = Some ls -> is_Some (s_lowners h !! w_lowner ls)) ->
  wf e n h' t'.
Proof.
  intros Hf Hnext [Hio Hil Hop Hfile Hflist Hown Hc Hr Hl Hol B1 B2 B3 B4 Hrec ? ? ?] h' t' G1 G2 G3 G4 G5.
  assert (forall p' os, s_opens h !! p' = Some os -> exists os', s_opens h' !! p' = Some os' /\
    w_other os' = w_other os /\ w_owner os' = w_owner os /\ w_file os' = w_file os) as Hnew.
  { intros p' os H. eexists. split; [apply alter_open, H|]. case_decide; [apply Hf|done]. }
  split; try done.
  - intros o p' H. destruct (Hop o p' H) as (os & oo & E1 & E2 & E3 & E4 & E5).
    destruct (Hnew _ _ E1) as (os' & F1 & F2 & F3 & F4). exists os', oo. rewrite F3. split_and!; auto. congruence.
  - intros f' p'. change (on_file t' f') with (on_file t f'). rewrite Hfile. split.
    + intros (o & os & E1 & E2 & E3). destruct (Hnew _ _ E2) as (os' & F1 & F2 & F3 & F4). exists o, os'. split_and!; auto. congruence.
    + intros (o & os & E1 & (os0 & E2 & ->)%alter_open_inv & E3). exists o, os0. split_and!; auto.
      revert E3. case_decide; [|done]. now destruct (Hf os0) as (_ & _ & ->).
  - intros k q H. destruct (Hown k q H) as (oo & E1 & E2 & E3 & E4). exists oo. split_and!; auto. intros p' Hp'.
    destruct (E4 p' Hp') as (os & D1 & D2 & D3). destruct (Hnew _ _ D1) as (os' & F1 & F2 & F3 & F4). exists os'.
    split_and!; auto; [congruence|]. now rewrite F2.
  - intros q x H. apply B1 in H. cbn. lia.
  - intros q x H. apply B2 in H. cbn. lia.
  - intros q x (os & H & _)%alter_open_inv. apply B3 in H. cbn. lia.
Qed.

Definition reshare (a d : Z) (o : open_sh) : open_sh :=
  OpenSh (w_other o) (w_owner o) (w_file o) a d (w_locks o).

Definition upd_opens (f : open_sh -> open_sh) (p : ptr) (h : Shape) : Shape :=
  mkShape (s_clients h) (s_owners h) (alter f p (s_opens h)) (s_lowners h) (s_locks h) (s_delegs h) (s_next h).

Lemma set_i_locks_id t : set_i_locks (i_locks t) t = t.
Proof. now destruct t. Qed.

Lemma wf_reshare e n h t a d p : wf e n h t -> wf e n (upd_opens (reshare a d) p h) t.
Proof.
  intros Hw. pose proof (wf_upd_open e n h t (reshare a d) p (s_locks h) (s_next h) (i_locks t)) as Hu. cbv zeta in Hu.
  rewrite set_i_locks_id in Hu. apply Hu; try done; try apply Hw.
  - intros o lp H. destruct (wf_lock _ _ _ _ Hw o lp H) as (ls & os & E1 & E2 & E3 & E4 & E5). exists ls.
    eexists. split; [done|]. split; [done|]. split; [apply alter_open, E3|]. now case_decide.
  - intros o p' os H (os0 & Hos & ->)%alter_open_inv. destruct (wf_open_locks _ _ _ _ Hw o p' os0 H Hos). now case_decide.
Qed.

Definition push_lock (lp : ptr) (o : open_sh) : open_sh :=
  OpenSh (w_other o) (w_owner o) (w_file o) (w_access o) (w_deny o) (w_locks o ++ [lp]).
Definition pull_lock (lp : ptr) (o : open_sh) : open_sh :=
  OpenSh (w_other o) (w_owner o) (w_file o) (w_access o) (w_deny o) (remove_ptr lp (w_locks o)).

Definition add_lock (l : lock_sh) (h : Shape) : Shape :=
  mkShape (s_clients h) (s_owners h) (alter (push_lock (s_next h)) (w_lopen l) (s_opens h)) (s_lowners h)
    (<[s_next h := l]> (s_locks h)) (s_delegs h) (S (s_next h)).

Lemma wf_add_lock e n h t p os lop :
  wf e n h t -> 0 <= n -> n + 1 < 2 ^ 64 -> s_opens h !! p = Some os -> i_opens t !! w_other os = Some p ->
  is_Some (s_lowners h !! lop) ->
  let other := stateid_other StateTypeLock e (n + 1) in
  wf e (n + 1) (add_lock (LockSh other lop p) h) (set_i_locks (<[other := s_next h]> (i_locks t)) t).
Proof.
  intros Hw H0 Hn Hos Ho Hlop other. assert (n <= n + 1) as Hle by lia.
  pose proof (wf_later _ _ _ _ _ Hle Hw) as Hw1. set (lp0 := s_next h).
  assert (forall o lp, i_locks t !! o = Some lp -> lp <> lp0 /\ o <> other) as Hnew.
  { intros o lp H. destruct (wf_lock _ _ _ _ Hw o lp H) as (ls & _ & E & _). apply (wf_bound_locks _ _ _ _ Hw) in E. split; [unfold lp0; lia|].
    intros ->. apply (wf_issued_lock _ _ _ _ Hw) in H. now apply not_issued in H. }
  apply wf_upd_open; try done; [unfold lp0; lia|..].
  - intros o lp [[<- _]|[_ H]]%lookup_insert_Some; [now apply issued_next|now apply (wf_issued_lock _ _ _ _ Hw1) in H].
  - intros o lp [[<- <-]|[_ H]]%lookup_insert_Some.
    + exists (LockSh other lop p), (push_lock lp0 os). rewrite lookup_insert_eq. split_and!; try done.
      * cbn. now rewrite lookup_alter_eq, Hos.
      * cbn. set_solver.
    + destruct (wf_lock _ _ _ _ Hw o lp H) as (ls & x & E1 & E2 & E3 & E4 & E5). exists ls.
      rewrite lookup_insert_ne by (destruct (Hnew _ _ H); unfold lp0 in *; congruence).
      eexists. split; [done|]. split; [done|]. split; [apply alter_open, E3|]. case_decide; [|done]. cbn. set_solver.
  - intros o p' x H (os0 & Hos0 & ->)%alter_open_inv. destruct (wf_open_locks _ _ _ _ Hw o p' os0 H Hos0) as [Hnd Hin].
    assert (forall lp, lp ∈ w_locks os0 -> lp <> lp0 /\ exists ls, <[lp0 := LockSh other lop p]> (s_locks h) !! lp = Some ls /\
      w_lopen ls = p' /\ <[other := lp0]> (i_locks t) !! w_lother ls = Some lp) as Hold.
    { intros lp Hlp. destruct (Hin lp Hlp) as (ls & E1 & E2 & E3). destruct (Hnew _ _ E3) as [N1 N2]. split; [done|].
      exists ls. rewrite !lookup_insert_ne by congruence. done. }
    case_decide as Hp; [|split; [done|intros lp Hlp; now apply Hold]]. subst p'. cbn. split.
    + apply NoDup_app. split; [done|]. split; [|apply NoDup_singleton].
      intros lp Hlp ->%list_elem_of_singleton. now destruct (Hold _ Hlp).
    + intros lp [Hlp| ->%list_elem_of_singleton]%elem_of_app; [now apply Hold|].
      exists (LockSh other lop p). now rewrite !lookup_insert_eq.
  - apply insert_bound. apply Hw.
  - intros lp ls [[<- <-]|[_ H]]%lookup_insert_Some; [done|]. now apply (wf_lowner _ _ _ _ Hw) in H.
Qed.

Lemma wf_del_lock e n h t o lp ls :
  wf e n h t -> i_locks t !! o = Some lp -> s_locks h !! lp = Some ls ->
  wf e n (upd_opens (pull_lock lp) (w_lopen ls) h) (set_i_locks (delete o (i_locks t)) t).
Proof.
  intros Hw Ho Hls.
  assert (forall o' lp', delete o (i_locks t) !! o' = Some lp' <-> i_locks t !! o' = Some lp' /\ lp' <> lp) as Hdel.
  { intros o' lp'. rewrite lookup_delete_Some. split; [|naive_solver]. intros [Hne H]. split; [done|]. intros ->.
    destruct (wf_lock _ _ _ _ Hw o lp Ho) as (x & _ & E1 & E2 & _), (wf_lock _ _ _ _ Hw o' lp H) as (y & _ & E3 & E4 & _). congruence. }
  assert (forall p os, i_opens t !! w_other os = Some p -> s_opens h !! p = Some os -> NoDup (w_locks os)) as Hnd.
  { intros p os H1 H2. now apply (wf_open_locks _ _ _ _ Hw _ _ _ H1). }
  apply wf_upd_open; try done; try apply Hw.
  - intros o' lp' [H _]%Hdel. now apply (wf_issued_lock _ _ _ _ Hw) in H.
  - intros o' lp' [H Hne]%Hdel. destruct (wf_lock _ _ _ _ Hw o' lp' H) as (x & os & E1 & E2 & E3 & E4 & E5). exists x.
    eexists. split; [done|]. split; [done|]. split; [apply alter_open, E3|]. case_decide; [|done]. cbn.
    split; [apply remove_ptr_elem; [eauto|done]|done].
  - intros o' p os H (os0 & Hos & ->)%alter_open_inv. destruct (wf_open_locks _ _ _ _ Hw o' p os0 H Hos) as [N Hin].
    assert (forall lp', lp' ∈ w_locks os0 -> lp' <> lp -> exists x, s_locks h !! lp' = Some x /\ w_lopen x = p /\
      delete o (i_locks t) !! w_lother x = Some lp') as Hrest.
    { intros lp' Hlp' Hne. destruct (Hin lp' Hlp') as (x & E1 & E2 & E3). exists x. split_and!; auto. now apply Hdel. }
    case_decide as Hp; cbn.
    + split; [now apply remove_ptr_nodup|]. intros lp' [Hlp' Hne]%remove_ptr_elem; auto.
    + split; [done|]. intros lp' Hlp'. apply Hrest; [done|]. intros ->.
      destruct (Hin lp Hlp') as (x & E1 & E2 & _). congruence.
Qed.

(** ** Allocations the tables do not see *)

Definition add_lowner (h : Shape) : Shape :=
  mkShape (s_clients h) (s_owners h) (s_opens h) (<[s_next h := tt]> (s_lowners h)) (s_locks h) (s_delegs h)
    (S (s_next h)).
Definition add_deleg (c : Z) (h : Shape) : Shape :=
  mkShape (s_clients h) (s_owners h) (s_opens h) (s_lowners h) (s_locks h) (<[s_next h := c]> (s_delegs h))
    (S (s_next h)).

Lemma insert_some {A} (m : gmap ptr A) n y p : is_Some (m !! p) -> is_Some (<[n := y]> m !! p).
Proof. intros H. rewrite lookup_insert_is_Some. destruct (decide (n = p)); auto. Qed.

Lemma wf_add_lowner e n h t k : wf e n h t -> wf e n (add_lowner h) (set_i_lowners (<[k := s_next h]> (i_lowners t)) t).
Proof.
  intros [? ? ? ? ? ? ? ? ? ? B1 B2 B3 B4 ? Hlo ? Hls]. split; cbn; try done.
  - intros p x H. apply B1 in H. lia.
  - intros p x H. apply B2 in H. lia.
  - intros p x H. apply B3 in H. lia.
  - intros p x H. apply B4 in H. lia.
  - eauto using insert_some.
  - intros k' p [[_ <-]|[_ H]]%lookup_insert_Some; [rewrite lookup_insert_eq; eauto|eauto using insert_some].
Qed.

Lemma wf_drop_lowner e n h t k : wf e n h t -> wf e n h (set_i_lowners (delete k (i_lowners t)) t).
Proof. intros [? ? ? ? ? ? ? ? ? ? ? ? ? ? ? ? ? Hl]. split; cbn; try done. intros k' p [_ H]%lookup_delete_Some. eauto. Qed.

Lemma wf_add_deleg e n h t o c : wf e n h t -> wf e n (add_deleg c h) (set_i_delegs (<[o := s_next h]> (i_delegs t)) t).
Proof.
  intros [? ? ? ? ? ? ? ? ? ? B1 B2 B3 B4 ? ? Hd ?]. split; cbn; try done.
  - intros p x H. apply B1 in H. lia.
  - intros p x H. apply B2 in H. lia.
  - intros p x H. apply B3 in H. lia.
  - intros p x H. apply B4 in H. lia.
  - intros o' p [[_ <-]|[_ H]]%lookup_insert_Some; rewrite lookup_insert_is_Some; [now left|].
    destruct (decide (s_next h = p)); [now left|right; eauto].
Qed.

Lemma wf_del_deleg e n h t o : wf e n h t -> wf e n h (set_i_delegs (delete o (i_delegs t)) t).
Proof. intros [? ? ? ? ? ? ? ? ? ? ? ? ? ? ? ? Hd ?]. split; cbn; try done. intros o' p [_ H]%lookup_delete_Some. eauto. Qed.

(** ** Expiry

    The owners of a client, their opens and the lock states of these leave the
    tables; the objects are left as they are. *)

Definition open_doomed (h : Shape) (D : list ptr) (p : ptr) : Prop :=
  exists os, s_opens h !! p = Some os /\ w_owner os ∈ D.
Definition lock_doomed (h : Shape) (D : list ptr) (lp : ptr) : Prop :=
  exists ls, s_locks h !! lp = Some ls /\ open_doomed h D (w_lopen ls).

(** [t'] is [t] without some lock states, opens and owners. *)
Record cut (Lk Op Ow : ptr -> Prop) (t t' : Idx) : Prop := mkCut {
  cut_opens : forall o p, i_opens t' !! o = Some p <-> i_opens t !! o = Some p /\ ~ Op p;
  cut_files : forall f p, p ∈ on_file t' f <-> p ∈ on_file t f /\ ~ Op p;
  cut_listed : listed (i_files t');
  cut_owners : forall k q, i_owners t' !! k = Some q <-> i_owners t !! k = Some q /\ ~ Ow q;
  cut_locks : forall o lp, i_locks t' !! o = Some lp <-> i_locks t !! o = Some lp /\ ~ Lk lp;
  cut_clients : i_clients t' = i_clients t;
  cut_delegs : forall o p, i_delegs t' !! o = Some p -> i_delegs t !! o = Some p;
  cut_lowners : forall k p, i_lowners t' !! k = Some p -> i_lowners t !! k = Some p;
}.

(** The owners of a client record. *)
Definition owners_of (c : client_sh) (D : list ptr) : Prop := forall q, q ∈ D <-> exists d, w_owners c !! d = Some q.

Lemma not_open_doomed h D p os : s_opens h !! p = Some os -> ~ open_doomed h D p <-> w_owner os ∉ D.
Proof. intros H. split; [intros Hn Hd; apply Hn; now exists os|intros Hn (x & Hx & Hd)]. congruence. Qed.

Lemma not_lock_doomed h D lp ls : s_locks h !! lp = Some ls -> ~ lock_doomed h D lp <-> ~ open_doomed h D (w_lopen ls).
Proof. intros H. split; [intros Hn Hd; apply Hn; now exists ls|intros Hn (x & Hx & Hd)]. congruence. Qed.

Lemma wf_expire e n h t t' c r cr D :
  wf e n h t -> i_clients t !! c = Some r -> s_clients h !! r = Some cr -> owners_of cr D ->
  cut (lock_doomed h D) (open_doomed h D) (fun q => q ∈ D) t t' ->
  wf e n h (set_i_clients (delete c (i_clients t')) t').
Proof.
  intros Hw Hcr Hr HD [K1 K2 K3 K4 K5 K6 K7 K8]. rewrite K6.
  destruct Hw as [Hio Hil Hop Hfile Hflist Hown Hc Hreg Hl Hol B1 B2 B3 B4 Hrec Hlo Hdl Hls].
  split; cbn; try done.
  - intros o p [H _]%K1. eauto.
  - intros o p [H _]%K5. eauto.
  - intros o p [H Hn]%K1. destruct (Hop o p H) as (os & oo & E1 & E2 & E3 & E4 & E5). exists os, oo.
    split_and!; auto. apply K4. split; [done|]. now apply (not_open_doomed _ _ _ _ E1) in Hn.
  - intros f p. change (on_file (set_i_clients _ t') f) with (on_file t' f). rewrite K2, Hfile. setoid_rewrite K1. naive_solver.
  - intros k q [H Hn]%K4. destruct (Hown k q H) as (oo & E1 & E2 & E3 & E4). exists oo. split_and!; auto.
    intros p Hp. destruct (E4 p Hp) as (os & F1 & F2 & F3). exists os. split_and!; auto. apply K1. split; [done|].
    apply (not_open_doomed _ _ _ _ F1). congruence.
  - intros c' r' [Hne H]%lookup_delete_Some. destruct (Hc c' r' H) as (x & E1 & E2 & E3). exists x. split_and!; auto.
    intros d q Hd. destruct (E3 d q Hd) as (oo & F1 & F2 & F3 & F4). exists oo. split_and!; auto.
    destruct F4 as [F4|[F4 F5]]; [left|right].
    + apply K4. split; [done|]. intros [d' Hd']%HD. destruct (Hc c r Hcr) as (y & G1 & G2 & G3).
      assert (y = cr) as -> by congruence. destruct (G3 d' q Hd') as (z & G4 & G5 & _). congruence.
    + split; [|done]. destruct (i_owners t' !! makeOwnerKey c' d) eqn:E; [|done]. apply K4 in E as [E _]. congruence.
  - intros k q oo r' [H _]%K4 H2 H3 [_ H4]%lookup_delete_Some. eauto.
  - intros o lp [H Hn]%K5. destruct (Hl o lp H) as (ls & os & E1 & E2 & E3 & E4 & E5). exists ls, os. split_and!; auto.
    apply K1. split; [done|]. now apply (not_lock_doomed _ _ _ _ E1) in Hn.
  - intros o p os [H Hn]%K1 Hos. destruct (Hol o p os H Hos) as [Hnd Hin]. split; [done|]. intros lp Hlp.
    destruct (Hin lp Hlp) as (ls & E1 & E2 & E3). exists ls. split_and!; auto. apply K5. split; [done|].
    apply (not_lock_doomed _ _ _ _ E1). congruence.
  - eauto.
  - eauto.
Qed.

(** ** Share reservations *)

(** Opens of one file by different owners do not deny each other's access. *)
Definition share_ok (h : Shape) (t : Idx) : Prop :=
  forall p1 p2 os1 os2 oo1 oo2 f,
    p1 ∈ on_file t f -> p2 ∈ on_file t f -> s_opens h !! p1 = Some os1 -> s_opens h !! p2 = Some os2 ->
    s_owners h !! w_owner os1 = Some oo1 -> s_owners h !! w_owner os2 = Some oo2 -> key_of oo1 <> key_of oo2 ->
    has (w_access os1) (w_deny os2) = false.

(** No other owner's open of the file is in the way of access [a] denying [d]. *)
Definition compatible (h : Shape) (t : Idx) (key f : string) (a d : Z) : Prop :=
  forall p os oo, p ∈ on_file t f -> s_opens h !! p = Some os -> s_owners h !! w_owner os = Some oo ->
    key_of oo <> key -> has a (w_deny os) = false /\ has d (w_access os) = false.

(** Each open of the file was there before, with the same owner and at least as
    much access and denial. *)
Definition narrower (h h' : Shape) (t t' : Idx) : Prop :=
  forall f p os oo, p ∈ on_file t' f -> s_opens h' !! p = Some os -> s_owners h' !! w_owner os = Some oo ->
    p ∈ on_file t f /\ exists os0 oo0, s_opens h !! p = Some os0 /\ s_owners h !! w_owner os0 = Some oo0 /\
      key_of oo0 = key_of oo /\ w_access os .&^ w_access os0 = 0 /\ w_deny os .&^ w_deny os0 = 0.

Lemma share_narrower h h' t t' : narrower h h' t t' -> share_ok h t -> share_ok h' t'.
Proof.
  intros Hn Hs p1 p2 os1 os2 oo1 oo2 f H1 H2 E1 E2 O1 O2 Hk.
  destruct (Hn f p1 os1 oo1 H1 E1 O1) as (F1 & x1 & y1 & X1 & Y1 & K1 & A1 & _).
  destruct (Hn f p2 os2 oo2 H2 E2 O2) as (F2 & x2 & y2 & X2 & Y2 & K2 & _ & D2).
  eapply has_narrow; [exact A1|]. rewrite has_comm. eapply has_narrow; [exact D2|]. rewrite has_comm.
  apply (Hs p1 p2 x1 x2 y1 y2 f); auto. congruence.
Qed.

Lemma share_widen h t p os oo a d :
  share_ok h t -> s_opens h !! p = Some os -> s_owners h !! w_owner os = Some oo ->
  compatible h t (key_of oo) (w_file os) a d -> (forall f, p ∈ on_file t f -> f = w_file os) ->
  share_ok (upd_opens (reshare (w_access os .| a) (w_deny os .| d)) p h) t.
Proof.
  intros Hs Hp Ho Hcomp Hf p1 p2 os1 os2 oo1 oo2 f H1 H2 (x1 & X1 & ->)%alter_open_inv (x2 & X2 & ->)%alter_open_inv.
  cbn [s_owners upd_opens]. intros O1 O2 Hk.
  assert (s_owners h !! w_owner x1 = Some oo1) as O1' by (now destruct (decide (p = p1))).
  assert (s_owners h !! w_owner x2 = Some oo2) as O2' by (now destruct (decide (p = p2))).
  pose proof (Hs p1 p2 x1 x2 oo1 oo2 f H1 H2 X1 X2 O1' O2' Hk) as Hbase.
  destruct (decide (p = p1)), (decide (p = p2)); cbn; subst; try done.
  - congruence.
  - assert (x1 = os) as -> by congruence. apply Hf in H1 as Ef. subst f.
    destruct (Hcomp p2 x2 oo2 H2 X2 O2') as [Ha _]; [congruence|]. rewrite has_lor, Hbase, Ha. done.
  - assert (x2 = os) as -> by congruence. apply Hf in H2 as Ef. subst f.
    destruct (Hcomp p1 x1 oo1 H1 X1 O1') as [_ Hd]; [congruence|].
    rewrite has_comm, has_lor, Hd, (has_comm (w_deny os)), Hbase. done.
Qed.

Lemma on_file_index other f p t f' q :
  q ∈ on_file (index_open other f p t) f' <-> q ∈ on_file t f' \/ f' = f /\ q = p.
Proof.
  unfold on_file, index_open. cbn. destruct (decide (f' = f)) as [->|Hf].
  - rewrite lookup_insert_eq. cbn. unfold on_file. set_solver.
  - rewrite lookup_insert_ne by done. naive_solver.
Qed.

Lemma share_add h t other q oo f a d :
  share_ok h t -> s_owners h !! q = Some oo -> compatible h t (key_of oo) f a d ->
  (forall p x, s_opens h !! p = Some x -> (p < s_next h)%nat) ->
  (forall p g, p ∈ on_file t g -> is_Some (s_opens h !! p)) ->
  share_ok (add_open (OpenSh other q f a d []) h) (index_open other f (s_next h) t).
Proof.
  intros Hs Hq Hcomp Hb Hin.
  assert (forall p os g, p ∈ on_file (index_open other f (s_next h) t) g ->
    s_opens (add_open (OpenSh other q f a d []) h) !! p = Some os ->
    p = s_next h /\ g = f /\ os = OpenSh other q f a d [] \/ p ∈ on_file t g /\ s_opens h !! p = Some os) as Hcase.
  { intros p os g Hp Hos. rewrite on_file_index in Hp. cbn in Hos. destruct (decide (p = s_next h)) as [->|Hne].
    - rewrite lookup_insert_eq in Hos. injection Hos as <-. destruct Hp as [Hp|[-> _]]; [|auto].
      destruct (Hin _ _ Hp) as [y Hy]. apply Hb in Hy. lia.
    - rewrite lookup_insert_ne in Hos by done. destruct Hp as [Hp|[_ ?]]; [auto|done]. }
  assert (forall r x, s_owners (add_open (OpenSh other q f a d []) h) !! r = Some x ->
    exists y, s_owners h !! r = Some y /\ key_of y = key_of x) as Hown.
  { cbn. intros r x [(<- & y & Hy & ->)|[_ Hy]]%lookup_alter_Some; eauto. }
  intros p1 p2 os1 os2 oo1 oo2 g H1 H2 E1 E2 (y1 & Y1 & K1)%Hown (y2 & Y2 & K2)%Hown Hk.
  destruct (Hcase _ _ _ H1 E1) as [(-> & -> & ->)|[F1 G1]], (Hcase _ _ _ H2 E2) as [(-> & Eg & ->)|[F2 G2]]; cbn in *.
  - congruence.
  - destruct (Hcomp p2 os2 y2 F2 G2 Y2) as [Ha _]; [congruence|done].
  - subst g. rewrite has_comm. destruct (Hcomp p1 os1 y1 F1 G1 Y1) as [_ Hd]; [congruence|done].
  - apply (Hs p1 p2 os1 os2 y1 y2 g); auto. congruence.
Qed.

(** ** Transitions

    [strict]: no open overrides the share reservations of others, as a reclaim
    in the grace period does. *)

Inductive astep (strict : bool) : Abs -> Abs -> Prop :=
  | st_later e n n' h t : n <= n' -> astep strict (mkAbs e n h t) (mkAbs e n' h t)
  | st_alloc e n h t i : astep strict (mkAbs e n h t) (mkAbs e n (add_client (ClientSh i ∅) h) t)
  | st_client e n h t i :
      astep strict (mkAbs e n h t)
        (mkAbs e n (add_client (ClientSh i ∅) h) (set_i_clients (<[i := s_next h]> (i_clients t)) t))
  | st_drop_client e n h t i : astep strict (mkAbs e n h t) (mkAbs e n h (set_i_clients (delete i (i_clients t)) t))
  | st_owner e n h t i d :
      i_owners t !! makeOwnerKey i d = None ->
      astep strict (mkAbs e n h t)
        (mkAbs e n (register (i_clients t !! i) d (s_next h) (add_owner (OwnerSh i d (i_clients t !! i) []) h))
          (set_i_owners (<[makeOwnerKey i d := s_next h]> (i_owners t)) t))
  | st_open e n h t k q oo f a d :
      0 <= n -> n + 1 < 2 ^ 64 -> i_owners t !! k = Some q -> s_owners h !! q = Some oo ->
      (strict = true -> compatible h t (key_of oo) f a d) ->
      let other := stateid_other StateTypeOpen e (n + 1) in
      astep strict (mkAbs e n h t)
        (mkAbs e (n + 1) (add_open (OpenSh other q f a d []) h) (index_open other f (s_next h) t))
  | st_widen e n h t p os oo a d :
      s_opens h !! p = Some os -> s_owners h !! w_owner os = Some oo ->
      (strict = true -> compatible h t (key_of oo) (w_file os) a d) ->
      astep strict (mkAbs e n h t) (mkAbs e n (upd_opens (reshare (w_access os .| a) (w_deny os .| d)) p h) t)
  | st_narrow e n h t p os a d :
      s_opens h !! p = Some os -> a .&^ w_access os = 0 -> d .&^ w_deny os = 0 ->
      astep strict (mkAbs e n h t) (mkAbs e n (upd_opens (reshare a d) p h) t)
  | st_close e n h t o p os :
      i_opens t !! o = Some p -> s_opens h !! p = Some os -> w_locks os = [] ->
      astep strict (mkAbs e n h t) (mkAbs e n (del_open p (w_owner os) h) (unindex_open o (w_file os) p t))
  | st_drop_owner e n h t k q oo :
      i_owners t !! k = Some q -> s_owners h !! q = Some oo -> w_opens oo = [] ->
      astep strict (mkAbs e n h t) (mkAbs e n h (set_i_owners (delete k (i_owners t)) t))
  | st_unregister e n h t r d :
      (forall r' c, r = Some r' -> s_clients h !! r' = Some c -> i_owners t !! makeOwnerKey (w_id c) d = None) ->
      astep strict (mkAbs e n h t) (mkAbs e n (unregister r d h) t)
  | st_lowner e n h t k :
      astep strict (mkAbs e n h t) (mkAbs e n (add_lowner h) (set_i_lowners (<[k := s_next h]> (i_lowners t)) t))
  | st_drop_lowner e n h t k : astep strict (mkAbs e n h t) (mkAbs e n h (set_i_lowners (delete k (i_lowners t)) t))
  | st_lock e n h t p os lop :
      0 <= n -> n + 1 < 2 ^ 64 -> s_opens h !! p = Some os -> i_opens t !! w_other os = Some p ->
      is_Some (s_lowners h !! lop) ->
      let other := stateid_other StateTypeLock e (n + 1) in
      astep strict (mkAbs e n h t)
        (mkAbs e (n + 1) (add_lock (LockSh other lop p) h) (set_i_locks (<[other := s_next h]> (i_locks t)) t))
  | st_unlock e n h t o lp ls :
      i_locks t !! o = Some lp -> s_locks h !! lp = Some ls ->
      astep strict (mkAbs e n h t)
        (mkAbs e n (upd_opens (pull_lock lp) (w_lopen ls) h) (set_i_locks (delete o (i_locks t)) t))
  | st_deleg e n h t o c :
      astep strict (mkAbs e n h t) (mkAbs e n (add_deleg c h) (set_i_delegs (<[o := s_next h]> (i_delegs t)) t))
  | st_undeleg e n h t o : astep strict (mkAbs e n h t) (mkAbs e n h (set_i_delegs (delete o (i_delegs t)) t))
  | st_expire e n h t t' c r cr D :
      i_clients t !! c = Some r -> s_clients h !! r = Some cr -> owners_of cr D ->
      cut (lock_doomed h D) (open_doomed h D) (fun q => q ∈ D) t t' ->
      astep strict (mkAbs e n h t) (mkAbs e n h (set_i_clients (delete c (i_clients t')) t')).

Definition a_wf (a : Abs) : Prop := wf (a_epoch a) (a_seq a) (a_heap a) (a_idx a).
Definition a_share (a : Abs) : Prop := share_ok (a_heap a) (a_idx a).

Lemma astep_wf strict a a' : astep strict a a' -> a_wf a -> a_wf a'.
Proof.
  unfold a_wf. destruct 1; cbn [a_epoch a_seq a_heap a_idx]; intros Hw;
    eauto using wf_later, wf_alloc_client, wf_new_client, wf_drop_client, wf_new_owner, wf_add_open, wf_reshare,
      wf_del_open, wf_drop_owner, wf_unregister, wf_add_lowner, wf_drop_lowner, wf_add_lock, wf_del_lock, wf_add_deleg,
      wf_del_deleg, wf_expire.
Qed.

(** Transitions that add no access and no denial. *)
Lemma narrower_sub h h' t t' :
  (forall f p, p ∈ on_file t' f -> p ∈ on_file t f) -> (forall p os, s_opens h' !! p = Some os ->
    exists os0, s_opens h !! p = Some os0 /\ w_owner os0 = w_owner os /\ w_access os .&^ w_access os0 = 0 /\
      w_deny os .&^ w_deny os0 = 0) ->
  (forall f p os, p ∈ on_file t f -> s_opens h !! p = Some os -> is_Some (s_owners h !! w_owner os)) ->
  (forall q oo, is_Some (s_owners h !! q) -> s_owners h' !! q = Some oo -> exists oo0, s_owners h !! q = Some oo0 /\ key_of oo0 = key_of oo) ->
  narrower h h' t t'.
Proof.
  intros Hf Ho Hl Hq f p os oo Hp Hos Hoo. apply Hf in Hp. split; [done|].
  destruct (Ho p os Hos) as (os0 & E1 & E2 & E3 & E4). rewrite <- E2 in Hoo.
  destruct (Hq _ _ (Hl f p os0 Hp E1) Hoo) as (oo0 & F1 & F2). exists os0, oo0. auto.
Qed.

Lemma same_opens_sub (m : gmap ptr open_sh) p os : m !! p = Some os ->
  exists os0, m !! p = Some os0 /\ w_owner os0 = w_owner os /\ w_access os .&^ w_access os0 = 0 /\ w_deny os .&^ w_deny os0 = 0.
Proof. intros H. exists os. now rewrite !Z.ldiff_diag. Qed.

Lemma altered_opens_sub f p (m : gmap ptr open_sh) :
  (forall o, m !! p = Some o -> w_owner (f o) = w_owner o /\ w_access (f o) .&^ w_access o = 0 /\ w_deny (f o) .&^ w_deny o = 0) ->
  forall p' os, alter f p m !! p' = Some os ->
  exists os0, m !! p' = Some os0 /\ w_owner os0 = w_owner os /\ w_access os .&^ w_access os0 = 0 /\ w_deny os .&^ w_deny os0 = 0.
Proof.
  intros Hf p' os (os0 & E & ->)%alter_open_inv. exists os0. split; [done|]. destruct (decide (p = p')) as [->|_].
  - destruct (Hf os0 E) as (-> & ? & ?). done.
  - now rewrite !Z.ldiff_diag.
Qed.

Lemma wf_on_file_owner e n h t f p os :
  wf e n h t -> p ∈ on_file t f -> s_opens h !! p = Some os -> is_Some (s_owners h !! w_owner os) /\ w_file os = f.
Proof.
  intros Hw Hp Hos. apply (wf_file _ _ _ _ Hw) in Hp as (o & x & E1 & E2 & E3). assert (x = os) as -> by congruence.
  destruct (wf_open _ _ _ _ Hw o p E1) as (y & oo & F1 & _ & F2 & _). assert (y = os) as -> by congruence. eauto.
Qed.

Lemma altered_owners f q (m : gmap ptr owner_sh) : (forall o, key_of (f o) = key_of o) ->
  forall q' oo, is_Some (m !! q') -> alter f q m !! q' = Some oo -> exists oo0, m !! q' = Some oo0 /\ key_of oo0 = key_of oo.
Proof. intros Hf q' oo _ [(<- & y & Hy & ->)|[_ Hy]]%lookup_alter_Some; eauto. Qed.

Lemma astep_share a a' : astep true a a' -> a_wf a -> a_share a -> a_share a'.
Proof.
  intros Hst Hw Hs. assert (forall f p os, p ∈ on_file (a_idx a) f -> s_opens (a_heap a) !! p = Some os ->
    is_Some (s_owners (a_heap a) !! w_owner os)) as Hl by (intros f p os H1 H2; now apply (wf_on_file_owner _ _ _ _ f p os Hw)).
  assert (forall p f, p ∈ on_file (a_idx a) f -> is_Some (s_opens (a_heap a) !! p)) as Hin.
  { intros p f (o & os & _ & E & _)%(wf_file _ _ _ _ Hw). eauto. }
  unfold a_share in *. destruct Hst; cbn [a_epoch a_seq a_heap a_idx] in *;
    try (refine (share_narrower _ _ _ _ (narrower_sub _ _ _ _ _ _ Hl _) Hs);
      [done|apply same_opens_sub|cbn; eauto]; fail).
  - refine (share_narrower _ _ _ _ (narrower_sub _ _ _ _ _ _ Hl _) Hs); [done|rewrite register_opens; apply same_opens_sub|].
    rewrite register_owners. cbn. intros q oo [x Hx]. apply (wf_bound_owners _ _ _ _ Hw) in Hx as Hb.
    cbn in Hb. rewrite lookup_insert_ne by lia. eauto.
  - apply share_add with oo; auto. apply Hw.
  - apply share_widen with oo; auto. intros f Hf. symmetry. eapply wf_on_file_owner; eauto.
  - refine (share_narrower _ _ _ _ (narrower_sub _ _ _ _ _ _ Hl _) Hs); [done| |eauto].
    apply altered_opens_sub. intros o Ho. assert (o = os) as -> by congruence. done.
  - refine (share_narrower _ _ _ _ (narrower_sub _ _ _ _ _ _ Hl _) Hs).
    + intros f p' Hp. unfold on_file in Hp. cbn in Hp. apply remove_from_file_elem in Hp as [Hp _]; [done|exact (wf_file_list _ _ _ _ Hw)].
    + apply same_opens_sub.
    + apply altered_owners. done.
  - refine (share_narrower _ _ _ _ (narrower_sub _ _ _ _ _ _ Hl _) Hs); [done| |];
      destruct r; cbn; eauto using same_opens_sub.
  - refine (share_narrower _ _ _ _ (narrower_sub _ _ _ _ _ _ Hl _) Hs); [done| |eauto].
    apply altered_opens_sub. intros o _. now rewrite !Z.ldiff_diag.
  - refine (share_narrower _ _ _ _ (narrower_sub _ _ _ _ _ _ Hl _) Hs); [done| |eauto].
    apply altered_opens_sub. intros o' _. now rewrite !Z.ldiff_diag.
  - refine (share_narrower _ _ _ _ (narrower_sub _ _ _ _ _ _ Hl _) Hs); [|apply same_opens_sub|eauto].
    intros f p Hp. now apply (cut_files _ _ _ _ _ H2) in Hp as [? _].
Qed.

Abbreviation asteps strict := (rtc (astep strict)).

Lemma asteps_inv strict a a' : asteps strict a a' -> a_wf a ->
  a_wf a' /\ (strict = true -> a_share a -> a_share a').
Proof.
  induction 1 as [|x y z Hst _ IH]; intros Hw; [auto|].
  destruct (IH (astep_wf _ _ _ Hst Hw)) as [IH1 IH2]. split; [done|]. intros -> Hs.
  apply IH2; [done|]. eapply astep_share; eauto.
Qed.
