(* ===== verification/Nfs4Quiet.v ===== *)
(** * NFSv4 state: operations and the abstract machine

    Most steps of the state manager leave the abstract state of [Nfs4Abs] alone
    ([quiet]); the others keep what its transitions keep ([keep]).  This file has
    the calculus, the operations on clients and those on delegations. *)

From S2P Require Import Prelude.
From S2P Require Import SlotTable.
From S2P Require Import LockTypes.
From S2P Require Import LockManager.
From S2P Require Import Nfs4Grace.
From S2P Require Import Nfs4Types.
From S2P Require Import Nfs4State.
From S2P Require Import Nfs4Locks.
From S2P Require Import Nfs4Deleg.
From S2P Require Import Nfs4Wp.
From S2P Require Import Nfs4Abs.

(** ** Operations that leave the abstract state alone *)

Definition quiet {A} (m : Op A) : Prop := forall s, abs (m s).2 = abs s.

Create HintDb quiet discriminated.

Lemma quiet_ret {A} (a : A) : quiet (mret a).
Proof. done. Qed.
Lemma quiet_throw {A} e : quiet (@op_throw A e).
Proof. done. Qed.
Lemma quiet_gets {A} (f : StateManager -> A) : quiet (op_gets f).
Proof. done. Qed.
Lemma quiet_bind {A B} (m : Op A) (k : A -> Op B) : quiet m -> (forall a, quiet (k a)) -> quiet (m ≫= k).
Proof.
  intros Hm Hk s. unfold mbind, Op_bind. specialize (Hm s). destruct (m s) as [[e|a] s']; cbn in *; [done|].
  now rewrite Hk.
Qed.
Lemma quiet_check ok e : quiet (op_check ok e).
Proof. now destruct ok. Qed.
Lemma quiet_need {A} (o : option A) e : quiet (op_need o e).
Proof. now destruct o. Qed.
Lemma quiet_deref {A} (sel : Heap -> gmap ptr A) p : quiet (deref sel p).
Proof. intros s. unfold deref. now destruct (sel (sm_heap s) !! p). Qed.
Lemma quiet_modify f : (forall s, abs (f s) = abs s) -> quiet (op_modify f).
Proof. done. Qed.
Lemma quiet_forM {A} (l : list A) f : (forall a, quiet (f a)) -> quiet (op_forM l f).
Proof. intros H. induction l as [|a l IH]; [done|]. cbn [op_forM]. now apply quiet_bind. Qed.
Lemma quiet_next_call : quiet next_call.
Proof. done. Qed.

Lemma fmap_alter_id {A B} (g : A -> B) (f : A -> A) p (m : gmap ptr A) :
  (forall x, g (f x) = g x) -> g <$> alter f p m = g <$> m.
Proof.
  intros H. apply map_eq. intros i. rewrite !lookup_fmap. destruct (decide (i = p)) as [->|Hn].
  - rewrite lookup_alter_eq. destruct (m !! p) as [x|]; cbn; [|done]. now rewrite H.
  - now rewrite lookup_alter_ne.
Qed.

Lemma abs_heap h s : shape h = shape (sm_heap s) -> abs (with_heap h s) = abs s.
Proof. unfold abs. cbn. now intros ->. Qed.

Lemma quiet_upd_client p f : (forall c, client_of (f c) = client_of c) -> quiet (upd_client p f).
Proof. intros H s. apply abs_heap. unfold shape. cbn. now rewrite fmap_alter_id. Qed.
Lemma quiet_upd_owner p f : (forall c, owner_of (f c) = owner_of c) -> quiet (upd_owner p f).
Proof. intros H s. apply abs_heap. unfold shape. cbn. now rewrite fmap_alter_id. Qed.
Lemma quiet_upd_open p f : (forall c, open_of (f c) = open_of c) -> quiet (upd_open p f).
Proof. intros H s. apply abs_heap. unfold shape. cbn. now rewrite fmap_alter_id. Qed.
Lemma quiet_upd_lock p f : (forall c, lock_of (f c) = lock_of c) -> quiet (upd_lock p f).
Proof. intros H s. apply abs_heap. unfold shape. cbn. now rewrite fmap_alter_id. Qed.
Lemma quiet_upd_lowner p f : quiet (upd_lowner p f).
Proof. intros s. apply abs_heap. unfold shape. cbn. now rewrite fmap_alter_id. Qed.
Lemma quiet_upd_deleg p f : (forall d, ds_ClientID (f d) = ds_ClientID d) -> quiet (upd_deleg p f).
Proof. intros H s. apply abs_heap. unfold shape. cbn. now rewrite fmap_alter_id. Qed.
Lemma quiet_tab_mod f : (forall t d, idx (f t) d = idx t d) -> quiet (tab_mod f).
Proof. intros H s. unfold abs. cbn. now rewrite H. Qed.
Lemma quiet_del_mod f : (forall d, delegByOther (f d) = delegByOther d) -> quiet (del_mod f).
Proof. intros H s. unfold abs, idx. cbn. now rewrite H. Qed.

#[export] Hint Resolve quiet_ret quiet_throw quiet_gets quiet_check quiet_need quiet_deref quiet_next_call
  quiet_upd_lowner : quiet.

(** Runs through the body of an operation. *)
Ltac quiet1 :=
  lazymatch goal with
  | |- quiet (_ ≫= _) => apply quiet_bind; [|intros ?]
  | |- quiet (op_forM _ _) => apply quiet_forM; intros ?
  | |- quiet (op_modify _) => apply quiet_modify; intros ?
  | |- quiet (tab_mod _) => apply quiet_tab_mod; intros ? ?
  | |- quiet (del_mod _) => apply quiet_del_mod; intros ?
  | |- quiet (upd_client _ _) => apply quiet_upd_client; intros ?
  | |- quiet (upd_owner _ _) => apply quiet_upd_owner; intros ?
  | |- quiet (upd_open _ _) => apply quiet_upd_open; intros ?
  | |- quiet (upd_lock _ _) => apply quiet_upd_lock; intros ?
  | |- quiet (upd_deleg _ _) => apply quiet_upd_deleg; intros ?
  | |- quiet (match ?x with _ => _ end) => destruct x
  end.
Ltac solve_quiet := intros; repeat first [solve [eauto with quiet] | done | quiet1].

Lemma quiet_recovery r v s : abs (with_recovery r v s) = abs s.
Proof. done. Qed.

Lemma quiet_persist now c i b p : quiet (persistClientRecoveryLocked now c i b p).
Proof. intros s. unfold persistClientRecoveryLocked, op_modify. cbn. now destruct (sm_recovery s). Qed.
Lemma quiet_deleteRecovery i : quiet (deleteClientRecoveryLocked i).
Proof. done. Qed.
Lemma quiet_reclaimComplete i : quiet (recordReclaimCompleteLocked i).
Proof. done. Qed.
Lemma quiet_validateReclaim i b : quiet (validateReclaimVerifier i b).
Proof. unfold validateReclaimVerifier. solve_quiet. Qed.
Lemma quiet_load now : quiet (LoadClientRecovery now).
Proof. unfold LoadClientRecovery. solve_quiet. Qed.

#[export] Hint Resolve quiet_persist quiet_deleteRecovery quiet_reclaimComplete quiet_validateReclaim : quiet.

Section Quiet.
Context `{L : Nfs4Lib}.

Lemma quiet_verifier : quiet generateConfirmVerifier.
Proof. unfold generateConfirmVerifier. solve_quiet. Qed.
Lemma quiet_leads sel n c : quiet (leads_to sel n c).
Proof. unfold leads_to. solve_quiet. Qed.
Lemma quiet_drop_unconfirmed i : quiet (drop_unconfirmed i).
Proof. unfold drop_unconfirmed. solve_quiet. Qed.
Lemma quiet_on_lm h f : quiet (on_lm h f).
Proof. intros s. unfold on_lm, op_modify. cbn. now destruct (share_of h). Qed.
#[local] Hint Resolve quiet_verifier quiet_leads quiet_drop_unconfirmed quiet_on_lm : quiet.

Lemma quiet_confirm_target c v : quiet (confirm_target c v).
Proof. unfold confirm_target. solve_quiet. Qed.
Lemma quiet_cbNull c p ok : quiet (cbNullDone c p ok).
Proof. unfold cbNullDone. solve_quiet. Qed.
Lemma quiet_RenewLease now c : quiet (RenewLease now c).
Proof. unfold RenewLease. solve_quiet. Qed.
Lemma quiet_remove_locks h o : quiet (remove_owner_locks h o).
Proof. unfold remove_owner_locks. solve_quiet. Qed.
Lemma quiet_removeDelegFromFile p : quiet (removeDelegFromFile p).
Proof. unfold removeDelegFromFile. solve_quiet. Qed.
Lemma quiet_drop_closed c : quiet (drop_closed_owners c).
Proof. unfold drop_closed_owners. solve_quiet. Qed.
Lemma quiet_grace_gate c t : quiet (grace_gate c t).
Proof. unfold grace_gate. solve_quiet. Qed.
Lemma quiet_owner_gate l q r : quiet (owner_gate l q r).
Proof. unfold owner_gate. solve_quiet. Qed.
#[local] Hint Resolve quiet_owner_gate : quiet.
Lemma quiet_seqid_gate o q : quiet (seqid_gate o q).
Proof. unfold seqid_gate. solve_quiet. Qed.
Lemma quiet_lock_seqid_gate o q : quiet (lock_seqid_gate o q).
Proof. unfold lock_seqid_gate. solve_quiet. Qed.
Lemma quiet_lookup_open s : quiet (lookup_open s).
Proof. unfold lookup_open. solve_quiet. Qed.
#[local] Hint Resolve quiet_seqid_gate quiet_lock_seqid_gate quiet_lookup_open : quiet.
Lemma quiet_ConfirmOpen s q : quiet (ConfirmOpen s q).
Proof. unfold ConfirmOpen. solve_quiet. Qed.
Lemma quiet_ConfirmOpenV41 s : quiet (ConfirmOpenV41 s).
Proof. unfold ConfirmOpenV41. solve_quiet. Qed.
Lemma quiet_replay_close o q : quiet (replay_close o q).
Proof. unfold replay_close. solve_quiet. Qed.
Lemma quiet_CacheOpenOwnerResult c d st b : quiet (CacheOpenOwnerResult c d st b).
Proof. unfold CacheOpenOwnerResult. solve_quiet. Qed.
Lemma quiet_openmode os t : quiet (validateOpenModeForLock os t).
Proof. unfold validateOpenModeForLock. solve_quiet. Qed.
Lemma quiet_checkGrace : quiet CheckGraceForNewState.
Proof. unfold CheckGraceForNewState. solve_quiet. Qed.
Lemma quiet_acquireLock now ls lo t o l r : quiet (acquireLock now ls lo t o l r).
Proof. unfold acquireLock, put_lm. solve_quiet. Qed.
Lemma quiet_open_seq o q : quiet (open_seq_replay o q).
Proof. unfold open_seq_replay. solve_quiet. Qed.
Lemma quiet_new_lock_gate k q b : quiet (new_lock_gate k q b).
Proof. unfold new_lock_gate. solve_quiet. Qed.
Lemma quiet_isCurrentEpoch o : quiet (isCurrentEpoch o).
Proof. unfold isCurrentEpoch. solve_quiet. Qed.
#[local] Hint Resolve quiet_isCurrentEpoch quiet_openmode quiet_checkGrace quiet_acquireLock : quiet.
Lemma quiet_lookup_lock s : quiet (lookup_lock s).
Proof. unfold lookup_lock. solve_quiet. Qed.
Lemma quiet_seqid_current a b : quiet (seqid_current a b).
Proof. unfold seqid_current. solve_quiet. Qed.
#[local] Hint Resolve quiet_lookup_lock quiet_seqid_current : quiet.
Lemma quiet_LockExisting now s q t o l r : quiet (LockExisting now s q t o l r).
Proof. unfold LockExisting. solve_quiet. Qed.
Lemma quiet_UnlockFile s q t o l : quiet (UnlockFile s q t o l).
Proof. unfold UnlockFile. solve_quiet. Qed.
Lemma quiet_CacheLockOwnerResult c d st b : quiet (CacheLockOwnerResult c d st b).
Proof. unfold CacheLockOwnerResult. solve_quiet. Qed.
Lemma quiet_handle_matches a b : quiet (handle_matches a b).
Proof. unfold handle_matches. solve_quiet. Qed.
Lemma quiet_renew_record now r : quiet (renew_record now r).
Proof. unfold renew_record. solve_quiet. Qed.
Lemma quiet_unknown {A} o : quiet (@unknown_stateid A o).
Proof. unfold unknown_stateid. solve_quiet. Qed.
#[local] Hint Resolve quiet_handle_matches quiet_renew_record quiet_unknown : quiet.
Lemma quiet_ValidateStateid now s f o : quiet (ValidateStateid now s f o).
Proof. unfold ValidateStateid, validateDelegStateid, validateLockStateid. solve_quiet. Qed.
Lemma quiet_StopRecallTimer p : quiet (StopRecallTimer p).
Proof. unfold StopRecallTimer. solve_quiet. Qed.
Lemma quiet_mirror now b p c f t s i m : quiet (mirror_grant now b p c f t s i m).
Proof. unfold mirror_grant, put_lm. solve_quiet. Qed.
Lemma quiet_recall_loop now c a l : quiet (recall_loop now c a l).
Proof.
  induction l as [|p l IH]; cbn [recall_loop]; [done|]. apply quiet_bind; [solve_quiet|]. intros d.
  apply quiet_bind; [solve_quiet|]. intros ?. apply quiet_bind; [done|]. solve_quiet.
Qed.
Lemma quiet_CheckDelegationConflict now f c a : quiet (CheckDelegationConflict now f c a).
Proof. unfold CheckDelegationConflict. solve_quiet. apply quiet_recall_loop. Qed.
Lemma quiet_RevokeDelegation now o : quiet (RevokeDelegation now o).
Proof.
  unfold RevokeDelegation, markDelegRevokedLocked, addRecentlyRecalled, forget_lm_id, unmirror.
  solve_quiet; [apply quiet_removeDelegFromFile|]. now destruct (bool_decide _).
Qed.
End Quiet.

#[export] Hint Resolve quiet_verifier quiet_leads quiet_drop_unconfirmed quiet_on_lm
  quiet_confirm_target quiet_remove_locks quiet_removeDelegFromFile quiet_drop_closed quiet_grace_gate
  quiet_owner_gate quiet_seqid_gate quiet_lock_seqid_gate quiet_lookup_open quiet_replay_close quiet_openmode
  quiet_checkGrace quiet_acquireLock quiet_open_seq quiet_new_lock_gate quiet_isCurrentEpoch quiet_lookup_lock
  quiet_seqid_current quiet_unknown quiet_StopRecallTimer quiet_mirror : quiet.

(** ** Invariants of the abstract machine *)

(** A predicate that the transitions of the machine keep, apart from those that
    issue a stateid. *)
Record stable (strict : bool) (J : StateManager -> Prop) : Prop := mkStable {
  st_wf : forall s, J s -> a_wf (abs s);
  st_quiet : forall s s', abs s' = abs s -> J s -> J s';
  st_move : forall s s', astep strict (abs s) (abs s') -> sm_nextStateSeq s' = sm_nextStateSeq s -> J s -> J s';
}.

Definition keep (J : StateManager -> Prop) {A} (m : Op A) : Prop := forall s, J s -> wp J m (fun _ => J) s.

Lemma keep_bind J {A B} (m : Op A) (k : A -> Op B) : keep J m -> (forall a, keep J (k a)) -> keep J (m ≫= k).
Proof. intros Hm Hk s Hs. apply wp_bind. eapply wp_mono; [now apply Hm|]. intros a s' Hs'. now apply Hk. Qed.

Lemma keep_forM J {A} (l : list A) f : (forall a, keep J (f a)) -> keep J (op_forM l f).
Proof. intros H s Hs. apply (wp_forM J f J); auto. intros a s' _. apply H. Qed.

(** What a composite step leaves: the result of a quiet step is anything. *)
Lemma wp_quiet strict J {A} (m : Op A) (Q : A -> StateManager -> Prop) s :
  stable strict J -> quiet m -> J s -> (forall a s', abs s' = abs s -> J s' -> Q a s') -> wp J m Q s.
Proof.
  intros HJ Hm Hs HQ. unfold wp. specialize (Hm s). destruct (m s) as [[e|a] s']; cbn in Hm.
  - eapply st_quiet; eauto.
  - apply HQ; [done|]. eapply st_quiet; eauto.
Qed.

Lemma keep_quiet strict J {A} (m : Op A) : stable strict J -> quiet m -> keep J m.
Proof. intros HJ Hm s Hs. eapply wp_quiet; eauto. Qed.

Create HintDb keep discriminated.

(** Computes the state after an operation. *)
Ltac abs_run := unfold abs at 2, shape, mbind, Op_bind; cbn.

Ltac keep1 :=
  lazymatch goal with
  | |- keep _ (_ ≫= _) => apply keep_bind; [|intros ?]
  | |- keep _ (op_forM _ _) => apply keep_forM; intros ?
  | |- keep _ (match ?x with _ => _ end) => destruct x
  end.
Ltac solve_keep :=
  intros; repeat first [solve [eauto with keep] | solve [eapply keep_quiet; [eassumption|solve_quiet]] | keep1].

(** Lookups in the heap, seen in the abstract state. *)
Lemma abs_client s p c : h_clients (sm_heap s) !! p = Some c -> s_clients (a_heap (abs s)) !! p = Some (client_of c).
Proof. intros H. cbn. now rewrite lookup_fmap, H. Qed.
Lemma abs_owner s p c : h_owners (sm_heap s) !! p = Some c -> s_owners (a_heap (abs s)) !! p = Some (owner_of c).
Proof. intros H. cbn. now rewrite lookup_fmap, H. Qed.
Lemma abs_open s p c : h_opens (sm_heap s) !! p = Some c -> s_opens (a_heap (abs s)) !! p = Some (open_of c).
Proof. intros H. cbn. now rewrite lookup_fmap, H. Qed.
Lemma abs_lock s p c : h_locks (sm_heap s) !! p = Some c -> s_locks (a_heap (abs s)) !! p = Some (lock_of c).
Proof. intros H. cbn. now rewrite lookup_fmap, H. Qed.
Lemma abs_lowner s p : is_Some (h_lowners (sm_heap s) !! p) <-> is_Some (s_lowners (a_heap (abs s)) !! p).
Proof. cbn. rewrite lookup_fmap. now rewrite fmap_is_Some. Qed.

Section Keep.
Context `{L : Nfs4Lib}.
Variable strict : bool.
Variable J : StateManager -> Prop.
Hypothesis HJ : stable strict J.

(** A step that is one transition. *)
Lemma keep_move {A} (m : Op A) :
  (forall s, J s -> astep strict (abs s) (abs (m s).2) /\ sm_nextStateSeq (m s).2 = sm_nextStateSeq s) -> keep J m.
Proof.
  intros H s Hs. unfold wp. destruct (H s Hs) as [H1 H2]. destruct (m s) as [[e|a] s']; cbn in *;
    eapply st_move; eauto.
Qed.

Lemma keep_drop_client c : keep J (drop_client c).
Proof. apply keep_move. intros s Hs. split; [|done]. apply st_drop_client. Qed.

Lemma keep_drop_lowner k : keep J (drop_lowner k).
Proof. apply keep_move. intros s Hs. split; [|done]. apply st_drop_lowner. Qed.

Lemma keep_register now i v cb a p : keep J (register_unconfirmed now i v cb a p).
Proof.
  unfold register_unconfirmed. apply keep_bind; [now apply (keep_quiet strict)|]. intros c.
  apply keep_bind; [solve_keep|]. intros cv. apply keep_move. intros s Hs. split; [|done].
  abs_run. rewrite fmap_insert.
  apply (st_client strict (sm_bootEpoch s) (sm_nextStateSeq s) (shape (sm_heap s)) (idx (sm_tab s) (sm_del s))).
Qed.

Lemma keep_new_client now c i v cv cb a p :
  keep J (new_obj h_clients set_clients (fresh_client now c i v cv cb a p)).
Proof.
  apply keep_move. intros s Hs. split; [|done]. abs_run. rewrite fmap_insert.
  apply (st_alloc strict (sm_bootEpoch s) (sm_nextStateSeq s) (shape (sm_heap s)) (idx (sm_tab s) (sm_del s))).
Qed.
#[local] Hint Resolve keep_drop_client keep_register keep_new_client : keep.

Lemma keep_SetClientID now i v cb a p : keep J (SetClientID now i v cb a p).
Proof.
  unfold SetClientID, createNewClient, reuseConfirmedClient, handleClientReboot, replaceUnconfirmed. solve_keep.
Qed.

Lemma keep_ConfirmClientID now c v : keep J (ConfirmClientID now c v).
Proof. unfold ConfirmClientID, promote. solve_keep. Qed.

Lemma keep_forget c r : keep J (forget_client c r).
Proof. unfold forget_client. solve_keep. Qed.
#[local] Hint Resolve keep_forget : keep.

Lemma keep_RemoveClient c : keep J (RemoveClient c).
Proof. unfold RemoveClient. solve_keep. Qed.

(** ** Delegations *)

Lemma keep_deleteDeleg o : keep J (deleteDelegByOtherLocked o).
Proof.
  unfold deleteDelegByOtherLocked. apply keep_bind; [solve_keep|]. intros [p|]; [|solve_keep].
  apply keep_bind; [solve_keep|]. intros d. apply keep_move. intros s Hs. split; [|done]. apply st_undeleg.
Qed.
#[local] Hint Resolve keep_deleteDeleg : keep.

Lemma keep_release_delegations b c : keep J (release_delegations b c).
Proof. unfold release_delegations. solve_keep. Qed.

Lemma keep_ReturnDelegation s : keep J (ReturnDelegation s).
Proof. unfold ReturnDelegation, forget_lm_id, unmirror. solve_keep. eapply keep_quiet; [eassumption|]. solve_quiet. now destruct (bool_decide _). Qed.

Lemma keep_freeDeleg c s : keep J (freeDelegStateidLocked c s).
Proof. unfold freeDelegStateidLocked. solve_keep. Qed.

Lemma keep_record_delegation d : keep J (record_delegation d).
Proof.
  unfold record_delegation. apply keep_move. intros s Hs. split; [|done]. abs_run. rewrite fmap_insert.
  apply (st_deleg strict (sm_bootEpoch s) (sm_nextStateSeq s) (shape (sm_heap s)) (idx (sm_tab s) (sm_del s))).
Qed.
End Keep.
