(* ===== verification/Nfs4Refine.v ===== *)
(** * NFSv4 state: the operations refine the abstract machine

    Opening, closing, locking, releasing and expiring make only transitions of
    [Nfs4Abs], whether they succeed or fail. *)

From S2P Require Import Prelude.
From S2P Require Import SlotTable.
From S2P Require Import LockTypes.
From S2P Require Import LockManager.
From S2P Require Import Nfs4Grace.
From S2P Require Import Nfs4Types.
From S2P Require Import Nfs4State.
From S2P Require Import Nfs4Locks.
From S2P Require Import Nfs4Deleg.
From S2P Require Import Nfs4Wp.
From S2P Require Import Nfs4Abs.
From S2P Require Import Nfs4Quiet.

(** ** Owners and opens *)

Lemma fmap_alter_comm {A B} (g : A -> B) (f : A -> A) (f' : B -> B) p (m : gmap ptr A) :
  (forall x, g (f x) = f' (g x)) -> g <$> alter f p m = alter f' p (g <$> m).
Proof.
  intros H. apply map_eq. intros i. rewrite lookup_fmap. destruct (decide (i = p)) as [->|Hn].
  - rewrite !lookup_alter_eq, lookup_fmap. destruct (m !! p) as [x|]; cbn; [|done]. now rewrite H.
  - now rewrite !lookup_alter_ne, lookup_fmap.
Qed.

Lemma abs_upd_open f f' p s : (forall o, open_of (f o) = f' (open_of o)) ->
  abs (with_heap (set_opens (alter f p (h_opens (sm_heap s))) (sm_heap s)) s) =
  mkAbs (sm_bootEpoch s) (sm_nextStateSeq s) (upd_opens f' p (a_heap (abs s))) (a_idx (abs s)).
Proof. intros H. unfold abs, shape. cbn. now rewrite (fmap_alter_comm _ _ f'). Qed.

Lemma abs_upd_owner f f' p s : (forall o, owner_of (f o) = f' (owner_of o)) ->
  a_heap (abs (with_heap (set_owners (alter f p (h_owners (sm_heap s))) (sm_heap s)) s)) =
  mkShape (s_clients (a_heap (abs s))) (alter f' p (s_owners (a_heap (abs s)))) (s_opens (a_heap (abs s)))
    (s_lowners (a_heap (abs s))) (s_locks (a_heap (abs s))) (s_delegs (a_heap (abs s))) (s_next (a_heap (abs s))).
Proof. intros H. unfold abs, shape. cbn. now rewrite (fmap_alter_comm _ _ f'). Qed.

(** ** Steps that cannot fail *)

Definition total {A} (m : Op A) : Prop := forall s, exists a, (m s).1 = inr a.

Lemma total_bind {A B} (m : Op A) (k : A -> Op B) : total m -> (forall a, total (k a)) -> total (m ≫= k).
Proof.
  intros Hm Hk s. unfold mbind, Op_bind. destruct (Hm s) as [a Ha]. destruct (m s) as [r s']. cbn in Ha. subst r. apply Hk.
Qed.
Lemma total_forM {A} (l : list A) f : (forall a, total (f a)) -> total (op_forM l f).
Proof. intros H. induction l as [|a l IH]; [now eexists|]. cbn [op_forM]. now apply total_bind. Qed.
Lemma total_modify f : total (op_modify f).
Proof. now eexists. Qed.
Lemma total_gets {A} (f : StateManager -> A) : total (op_gets f).
Proof. now eexists. Qed.

Lemma total_remove_locks `{L : Nfs4Lib} h o : total (remove_owner_locks h o).
Proof.
  unfold remove_owner_locks. apply total_bind; [apply total_gets|]. intros [m|]; [|now eexists]. apply total_forM. intros l.
  apply total_bind; [now eexists|]. intros n. apply total_modify.
Qed.

Lemma wp_total {A} I (m : Op A) (Q : A -> StateManager -> Prop) s :
  quiet m -> total m -> (forall a s', abs s' = abs s -> Q a s') -> wp I m Q s.
Proof.
  intros Hq Ht HQ. unfold wp. specialize (Hq s). destruct (Ht s) as [a Ha]. destruct (m s) as [r s']. cbn in *. subst r. auto.
Qed.

Section KeepOpens.
Context `{L : Nfs4Lib}.
Variable strict : bool.
Variable J : StateManager -> Prop.
Hypothesis HJ : stable strict J.

(** The state after one transition. *)
Lemma moved s s' :
  J s -> astep strict (mkAbs (sm_bootEpoch s) (sm_nextStateSeq s) (shape (sm_heap s)) (idx (sm_tab s) (sm_del s))) (abs s') ->
  sm_nextStateSeq s' = sm_nextStateSeq s -> J s'.
Proof. intros. eapply st_move; eauto. Qed.

Lemma find_owner_fresh c d s :
  openOwners (sm_tab s) !! makeOwnerKey c d = None ->
  let q := h_next (sm_heap s) in let r := clientsByID (sm_tab s) !! c in let s' := (find_owner c d s).2 in
  (find_owner c d s).1 = inr q /\ sm_nextStateSeq s' = sm_nextStateSeq s /\
  abs s' = mkAbs (sm_bootEpoch s) (sm_nextStateSeq s) (register r d q (add_owner (OwnerSh c d r []) (shape (sm_heap s))))
    (set_i_owners (<[makeOwnerKey c d := q]> (openOwners (sm_tab s))) (idx (sm_tab s) (sm_del s))).
Proof.
  intros Hn q r. unfold find_owner, mbind, Op_bind. cbn. rewrite Hn. subst r. destruct (clientsByID (sm_tab s) !! c) as [r|] eqn:Er;
    (split; [done|]; split; [done|]; unfold abs, shape; cbn; rewrite fmap_insert); [|done].
  now rewrite (fmap_alter_comm client_of _ (fun c => ClientSh (w_id c) (<[d := q]> (w_owners c)))).
Qed.

Lemma wp_find_owner c d s :
  J s -> wp J (find_owner c d) (fun q s' => J s' /\ i_owners (a_idx (abs s')) !! makeOwnerKey c d = Some q) s.
Proof.
  intros Hs. destruct (openOwners (sm_tab s) !! makeOwnerKey c d) as [q|] eqn:E.
  - unfold wp, find_owner, mbind, Op_bind. cbn. now rewrite E.
  - destruct (find_owner_fresh c d s E) as (E1 & E2 & E3). unfold wp.
    destruct (find_owner c d s) as [r s']. cbn in E1, E2, E3. subst r. split.
    + apply (moved s); [done| |done]. rewrite E3. now apply (st_owner strict).
    + rewrite E3. apply lookup_insert_eq.
Qed.

(** One write through a pointer to an open. *)
Lemma wp_upd_open p f f' Q s :
  (forall o, open_of (f o) = f' (open_of o)) -> J s ->
  astep strict (abs s) (mkAbs (a_epoch (abs s)) (a_seq (abs s)) (upd_opens f' p (a_heap (abs s))) (a_idx (abs s))) ->
  (forall s', J s' -> abs s' = mkAbs (a_epoch (abs s)) (a_seq (abs s)) (upd_opens f' p (a_heap (abs s))) (a_idx (abs s)) ->
    Q tt s') ->
  wp J (upd_open p f) Q s.
Proof.
  intros Hf Hs Hst HQ. apply HQ; [|now apply abs_upd_open]. apply (moved s); [done| |done].
  rewrite (abs_upd_open f f' p s Hf). exact Hst.
Qed.

(** One step whose failure leaves a state that is already known to be good. *)
Ltac step := first [wp1; [solve [auto]|] | wp1].
Ltac to_deref := repeat lazymatch goal with |- wp _ (deref _ _) _ _ => fail | _ => step end.
Ltac wq := eapply wp_quiet; [exact HJ|solve_quiet|done|].
(** The rest of an operation is quiet. *)
Ltac rest_quiet := now apply (keep_quiet strict); [exact HJ|solve_quiet|].

(** ** Closing and narrowing *)

Lemma keep_DowngradeOpen sid q a d : keep J (DowngradeOpen sid q a d).
Proof.
  intros s Hs. unfold DowngradeOpen. wp1. wq. intros p s1 _ Hs1. do 5 step. wq. intros _ s2 E2 Hs2.
  do 7 step. eapply (wp_upd_open _ _ (reshare a d)); [done|done| |].
  - apply abs_open in H. rewrite <- E2 in H. cbn in H. eapply (st_narrow strict); [exact H|..]; cbn; lia.
  - intros s3 Hs3 _. rest_quiet.
Qed.

(** The tables and the owner after an open was removed. *)
Lemma abs_closed o p os s f g :
  (forall t d, idx (f t) d = idx t d) -> (forall x, owner_of (g x) = pull_open p (owner_of x)) ->
  let t := sm_tab s in
  let t' := f (set_openStates (delete o (openStateByOther t)) (remove_from_file (os_FileHandle os) p (openStateByFile t)) t) in
  abs (with_heap (set_owners (alter g (os_Owner os) (h_owners (sm_heap s))) (sm_heap s)) (with_tab t' s)) =
  mkAbs (a_epoch (abs s)) (a_seq (abs s)) (del_open p (w_owner (open_of os)) (a_heap (abs s)))
    (unindex_open o (w_file (open_of os)) p (a_idx (abs s))).
Proof. intros Hf Hg. unfold abs, shape, del_open. cbn. now rewrite Hf, (fmap_alter_comm _ _ (pull_open p)). Qed.

Lemma closed_ok o p os s f g :
  J s -> h_opens (sm_heap s) !! p = Some os -> openStateByOther (sm_tab s) !! o = Some p -> os_LockStates os = [] ->
  (forall t d, idx (f t) d = idx t d) -> (forall x, owner_of (g x) = pull_open p (owner_of x)) ->
  let t := sm_tab s in
  let t' := f (set_openStates (delete o (openStateByOther t)) (remove_from_file (os_FileHandle os) p (openStateByFile t)) t) in
  J (with_heap (set_owners (alter g (os_Owner os) (h_owners (sm_heap s))) (sm_heap s)) (with_tab t' s)).
Proof.
  intros Hs Hp Ho Hl Hf Hg t t'. apply (moved s); [done| |done]. subst t t'. rewrite (abs_closed o p os s f g Hf Hg).
  apply (st_close strict); [done| |done]. cbn. now rewrite lookup_fmap, Hp.
Qed.

Lemma heap_open s p x : s_opens (a_heap (abs s)) !! p = Some x -> exists os, h_opens (sm_heap s) !! p = Some os /\ open_of os = x.
Proof. cbn. rewrite lookup_fmap. destruct (h_opens (sm_heap s) !! p); cbn; [intros [= <-]; eauto|done]. Qed.
Lemma heap_owner s p x : s_owners (a_heap (abs s)) !! p = Some x -> exists oo, h_owners (sm_heap s) !! p = Some oo /\ owner_of oo = x.
Proof. cbn. rewrite lookup_fmap. destruct (h_owners (sm_heap s) !! p); cbn; [intros [= <-]; eauto|done]. Qed.

(** An open-owner that is live. *)
Lemma wf_live s p os o :
  J s -> openStateByOther (sm_tab s) !! o = Some p -> h_opens (sm_heap s) !! p = Some os ->
  exists oo, h_owners (sm_heap s) !! os_Owner os = Some oo /\ openOwners (sm_tab s) !! oo_Key oo = Some (os_Owner os).
Proof.
  intros Hs Ho Hp. destruct (wf_open _ _ _ _ (st_wf _ _ HJ s Hs) o p Ho) as (x & y & E1 & _ & E2 & _ & E3).
  rewrite (abs_open _ _ _ Hp) in E1. injection E1 as <-. apply heap_owner in E2 as (oo & E4 & <-). exists oo. split; [done|exact E3].
Qed.

Lemma drop_owner_ok q oo s :
  J s -> openOwners (sm_tab s) !! oo_Key oo = Some q -> h_owners (sm_heap s) !! q = Some oo -> oo_OpenStates oo = [] ->
  J (with_tab (set_openOwners (delete (oo_Key oo) (openOwners (sm_tab s))) (sm_tab s)) s).
Proof.
  intros Hs Hk Hq E. apply (moved s); [done| |done].
  refine (st_drop_owner strict (sm_bootEpoch s) (sm_nextStateSeq s) (shape (sm_heap s)) (idx (sm_tab s) (sm_del s))
    (oo_Key oo) q (owner_of oo) Hk _ E). cbn. now rewrite lookup_fmap, Hq.
Qed.

(** The owner leaves its table, and its client record, once it has no opens. *)
Lemma keep_retire_owner q s :
  J s -> (forall oo, h_owners (sm_heap s) !! q = Some oo -> openOwners (sm_tab s) !! oo_Key oo = Some q) ->
  wp J (retire_owner q) (fun _ => J) s.
Proof.
  intros Hs Hk. unfold retire_owner. do 2 step. rename H into Hq. specialize (Hk _ Hq). destruct (oo_OpenStates x) eqn:E; [|rest_quiet].
  step. unfold drop_owner. do 2 step. set (s1 := with_tab _ s).
  assert (J s1) as Hs1 by now apply (drop_owner_ok q).
  destruct (oo_ClientRecord x) as [r|] eqn:Er; [|now apply wp_ret]. do 2 step. step.
  apply (moved s1); [done| |done]. unfold abs, shape. cbn.
  rewrite (fmap_alter_comm client_of _ (fun c => ClientSh (w_id c) (delete (oo_OwnerData x) (w_owners c)))) by done.
  apply (st_unregister strict _ _ (shape (sm_heap s)) _ (Some r)). intros r' c [= <-] Hc.
  pose proof (st_wf _ _ HJ s Hs) as Hw. destruct (wf_rec _ _ _ _ Hw q (owner_of x) r) as (c' & E1 & E2).
  - cbn. now rewrite lookup_fmap, Hq.
  - exact Er.
  - cbn in Hc, E1. rewrite E1 in Hc. injection Hc as <-. rewrite E2. apply lookup_delete_eq.
Qed.

Lemma bool_decide_nil {A} (l : list A) : negb (bool_decide (l = [])) = false -> l = [].
Proof. now destruct l. Qed.

Lemma wp_deref_some {A} I (sel : Heap -> gmap ptr A) p x (Q : A -> StateManager -> Prop) s :
  sel (sm_heap s) !! p = Some x -> Q x s -> wp I (deref sel p) Q s.
Proof. intros H HQ. unfold wp, deref. now rewrite H. Qed.

Lemma keep_CloseFile sid q : keep J (CloseFile sid q).
Proof.
  intros s Hs. unfold CloseFile. destruct (IsSpecialStateid sid); [now apply wp_ret|]. do 2 step.
  destruct (openStateByOther (sm_tab s) !! si_Other sid) as [p|] eqn:Ho; [|rest_quiet].
  do 5 step. wq. intros _ s2 E2 Hs2. rename H into Hp. rename x into os.
  apply abs_open in Hp as Hp2. rewrite <- E2 in Hp2. apply heap_open in Hp2 as (os2 & Hp2 & Eos).
  assert (openStateByOther (sm_tab s2) !! si_Other sid = Some p) as Ho2.
  { change (i_opens (a_idx (abs s2)) !! si_Other sid = Some p). now rewrite E2. }
  assert (os_Owner os2 = os_Owner os) as Eow by now apply (f_equal w_owner) in Eos.
  do 2 step. apply bool_decide_eq_true in H as Hlk. assert (os_LockStates os2 = []) as Hlk2 by (apply (f_equal w_locks) in Eos; cbn in Eos; congruence).
  destruct (wf_live s2 p os2 _ Hs2 Ho2 Hp2) as (oo & Hoo & Hkey).
  unfold drop_open, removeOpenStateFromFileLocked. to_deref. apply wp_deref_some with os2; [exact Hp2|].
  do 8 step. cbn [with_tab sm_heap sm_tab]. rewrite <- Eow.
  pose proof (closed_ok (si_Other sid) p os2 s2
    (fun t => set_closedOwners (<[si_Other sid := os_Owner os2]> (closedOwnerByOther t)) t)
    (fun o => set_owner_seq q (set_owner_opens (remove_ptr p (oo_OpenStates o)) o)) Hs2 Hp2 Ho2 Hlk2 ltac:(done) ltac:(done)) as Hfin.
  cbv zeta in Hfin. cbn [sm_heap with_tab] in *.
  eapply wp_mono; [apply keep_retire_owner; [exact Hfin|]|].
  - cbn. intros y. rewrite lookup_alter_eq, Hoo. cbn. intros [= <-]. exact Hkey.
  - intros ? s3 Hs3. now apply wp_ret.
Qed.

Lemma keep_freeOpen c sid : keep J (freeOpenStateidLocked c sid).
Proof.
  intros s Hs. unfold freeOpenStateidLocked, lookup_open. do 3 step. wp1; [done|]. rename H into Ho. rename a into p.
  do 2 step. rename H into Hp, x into os. do 6 step. apply bool_decide_eq_true in H1 as Hlk.
  destruct (wf_live s p os _ Hs Ho Hp) as (oo & Hoo & Hkey).
  unfold drop_open, removeOpenStateFromFileLocked. to_deref. apply wp_deref_some with os; [exact Hp|].
  do 5 step. cbn [with_tab sm_heap sm_tab]. step.
  set (g := fun o => set_owner_opens (remove_ptr p (oo_OpenStates o)) o).
  pose proof (closed_ok (si_Other sid) p os s (fun t => t) g Hs Hp Ho Hlk ltac:(done) ltac:(done)) as Hfin. cbv zeta in Hfin.
  apply wp_deref_some with (g oo); [cbn; now rewrite lookup_alter_eq, Hoo|].
  destruct (oo_OpenStates (g oo)) eqn:Eg; [|now apply wp_ret]. unfold drop_owner. do 2 step.
  apply (drop_owner_ok (os_Owner os) (g oo) _ Hfin); [exact Hkey| |exact Eg]. cbn. now rewrite lookup_alter_eq, Hoo.
Qed.

(** ** Lock states *)

Lemma unlock_ok o lp ls s :
  J s -> h_locks (sm_heap s) !! lp = Some ls -> lockStateByOther (sm_tab s) !! o = Some lp ->
  J (with_heap (set_opens (alter (fun o => set_open_locks (remove_ptr lp (os_LockStates o)) o) (ls_OpenState ls)
       (h_opens (sm_heap s))) (sm_heap s)) (with_tab (set_lockStates (delete o (lockStateByOther (sm_tab s))) (sm_tab s)) s)).
Proof.
  intros Hs Hp Ho. apply (moved s); [done| |done]. unfold abs, shape. cbn. rewrite (fmap_alter_comm _ _ (pull_lock lp)) by done.
  apply (st_unlock strict _ _ (shape (sm_heap s)) (idx (sm_tab s) (sm_del s)) o lp (lock_of ls)); [done|].
  cbn. now rewrite lookup_fmap, Hp.
Qed.

Lemma wp_unlink o lp s :
  J s -> lockStateByOther (sm_tab s) !! o = Some lp ->
  wp J (unlink_lock_state (o, lp)) (fun _ s' => J s' /\
    lockStateByOther (sm_tab s') = delete o (lockStateByOther (sm_tab s))) s.
Proof.
  intros Hs Ho. unfold unlink_lock_state, drop_lock. do 2 step. do 5 step. split; [|done]. now apply (unlock_ok o lp x s).
Qed.

Lemma nodup_filter_fst {A B} (f : A * B -> bool) l : NoDup (l.*1) -> NoDup ((List.filter f l).*1).
Proof.
  induction l as [|x l IH]; cbn; [done|]. intros [Hx Hl]%NoDup_cons. destruct (f x); cbn; [|auto].
  apply NoDup_cons. split; [|auto]. intros (y & E & Hy)%list_elem_of_fmap. apply Hx. apply list_elem_of_fmap.
  exists y. split; [done|]. apply list_elem_of_In in Hy. apply list_elem_of_In. now apply filter_In in Hy as [? _].
Qed.

Lemma states_of_nodup lop s : NoDup (states_of lop s).*1.
Proof. apply nodup_filter_fst, NoDup_fst_map_to_list. Qed.

Lemma states_of_lookup lop s e : e ∈ states_of lop s -> lockStateByOther (sm_tab s) !! e.1 = Some e.2.
Proof.
  unfold states_of. rewrite list_elem_of_In, filter_In, <- list_elem_of_In. intros [H _]. destruct e as [o lp].
  now apply elem_of_map_to_list in H.
Qed.

Lemma wp_unlink_all l s :
  NoDup l.*1 -> (forall e, e ∈ l -> lockStateByOther (sm_tab s) !! e.1 = Some e.2) -> J s ->
  wp J (op_forM l unlink_lock_state) (fun _ => J) s.
Proof.
  revert s. induction l as [|[o lp] l IH]; intros s Hnd Hin Hs; cbn [op_forM]; [now apply wp_ret|].
  wp1. eapply wp_mono; [apply wp_unlink; [done|]|].
  - apply (Hin (o, lp)). set_solver.
  - intros ? s' [Hs' Et]. cbn in Hnd. apply NoDup_cons in Hnd as [Hno Hnd]. apply IH; auto.
    intros e He. rewrite Et, lookup_delete_ne; [apply Hin; set_solver|]. intros ->. apply Hno, list_elem_of_fmap. eauto.
Qed.

Lemma keep_ReleaseLockOwner c d : keep J (ReleaseLockOwner c d).
Proof.
  intros s Hs. unfold ReleaseLockOwner. do 2 step.
  destruct (lockOwners (sm_tab s) !! makeLockOwnerKey c d) as [p|]; [|now apply wp_ret]. do 9 step.
  eapply wp_mono; [apply wp_unlink_all; [apply states_of_nodup|apply states_of_lookup|done]|].
  intros ? s' Hs'. now apply (keep_drop_lowner strict).
Qed.

Lemma keep_freeLock c sid : keep J (freeLockStateidLocked c sid).
Proof.
  intros s Hs. unfold freeLockStateidLocked. do 3 step. wp1; [done|]. rename H into Ho, a into lp.
  do 6 step. rename x into ls, H into Hls. unfold drop_lock. do 3 step.
  set (s1 := with_tab _ s). wp1. apply wp_total; [solve_quiet|apply total_remove_locks|]. intros _ s2 E2. do 2 step.
  set (upd := fun t => with_heap (set_opens (alter (fun o => set_open_locks (remove_ptr lp (os_LockStates o)) o)
    (ls_OpenState ls) (h_opens (sm_heap t))) (sm_heap t)) t).
  assert (J (upd s2)) as Hu.
  { apply (st_quiet strict J HJ (upd s1)); [|exact (unlock_ok (si_Other sid) lp ls s Hs Hls Ho)]. unfold upd.
    rewrite !(abs_upd_open _ (pull_lock lp)) by done. rewrite E2.
    pose proof (f_equal a_epoch E2) as Ee. pose proof (f_equal a_seq E2) as En. cbn in Ee, En. now rewrite Ee, En. }
  destruct (states_of (ls_LockOwner ls) s2); unfold drop_lowner; do 5 step; [|exact Hu].
  apply (moved (upd s2)); [done| |done]. apply (st_drop_lowner strict _ _ _ (idx (sm_tab s2) (sm_del s2))).
Qed.

Lemma keep_FreeStateid c sid : keep J (FreeStateid c sid).
Proof.
  unfold FreeStateid. apply keep_bind; [now apply (keep_quiet strict); [|apply quiet_check]|]. intros _.
  destruct (stateType (si_Other sid) =? StateTypeLock); [apply keep_freeLock|].
  destruct (stateType (si_Other sid) =? StateTypeOpen); [apply keep_freeOpen|].
  destruct (stateType (si_Other sid) =? StateTypeDeleg); [now apply (keep_freeDeleg strict)|].
  now apply (keep_quiet strict); [|apply quiet_throw].
Qed.
End KeepOpens.

(** ** Operations that issue a stateid *)

Section Issue.
Context `{L : Nfs4Lib}.
Variable strict : bool.
Variables J J1 : StateManager -> Prop.
Hypothesis HJ : stable strict J.
Hypothesis HJ1 : stable strict J1.
(** [J1] allows for one more stateid than [J]. *)
Hypothesis Hmore : forall s s',
  J s -> astep strict (abs s) (abs s') -> sm_nextStateSeq s' = sm_nextStateSeq s + 1 -> J1 s'.
Hypothesis Hweak : forall s, J s -> J1 s.
Hypothesis Hcap : forall s, J s -> 0 <= sm_nextStateSeq s /\ sm_nextStateSeq s + 1 < 2 ^ 64.

Lemma next_seq s : J s -> u64 (sm_nextStateSeq s + 1) = sm_nextStateSeq s + 1.
Proof. intros Hs. destruct (Hcap s Hs). apply u64_small. split; lia. Qed.

Lemma wp_fail_weaken {A} (m : Op A) Q s : wp J m Q s -> wp J1 m Q s.
Proof. unfold wp. destruct (m s) as [[e|a] s']; auto. Qed.

Lemma wp_create_open q oo owner k f a d s :
  J s -> openOwners (sm_tab s) !! k = Some q -> h_owners (sm_heap s) !! q = Some oo ->
  (strict = true -> compatible (a_heap (abs s)) (a_idx (abs s)) (oo_Key oo) f a d) ->
  wp J1 (create_open q owner f a d) (fun _ => J1) s.
Proof.
  intros Hs Hk Hq Hc. unfold create_open, addOpenStateToFileLocked, wp, mbind, Op_bind. cbn. unfold deref. cbn. rewrite lookup_insert_eq. cbn.
  rewrite (next_seq s Hs). apply (Hmore s); [done| |done]. unfold abs, shape. cbn.
  rewrite (fmap_alter_comm _ _ (push_open (h_next (sm_heap s)))), fmap_insert by done. destruct (Hcap s Hs).
  apply (st_open strict (sm_bootEpoch s) (sm_nextStateSeq s) (shape (sm_heap s)) (idx (sm_tab s) (sm_del s)) k q (owner_of oo));
    try done. cbn. now rewrite lookup_fmap, Hq.
Qed.

Lemma no_conflict key f a d s :
  shareConflictLocked key f a d s = false -> compatible (a_heap (abs s)) (a_idx (abs s)) key f a d.
Proof.
  unfold shareConflictLocked. intros H p os oo Hp (x & Hx & <-)%heap_open (y & Hy & <-)%heap_owner Hk.
  pose proof (existsb_exists (fun p =>
    match h_opens (sm_heap s) !! p with
    | None => false
    | Some os =>
        negb (bool_decide ((oo_Key <$> h_owners (sm_heap s) !! os_Owner os) = Some key)) && conflicts a d os
    end) (default [] (openStateByFile (sm_tab s) !! f))) as [_ He].
  unfold shareConflictLocked in H. destruct (conflicts a d x) eqn:Ec.
  - rewrite He in H; [done|]. exists p. split; [now apply list_elem_of_In|]. rewrite Hx, Ec. cbn in Hy. rewrite Hy. cbn.
    rewrite bool_decide_false; [done|]. intros [= E]. now apply Hk.
  - unfold conflicts in Ec. now apply orb_false_iff in Ec.
Qed.

Lemma find_open_spec owner f s p :
  find_open owner f s = Some p -> p ∈ oo_OpenStates owner /\
  exists os, h_opens (sm_heap s) !! p = Some os /\ os_FileHandle os = f.
Proof.
  intros [H1 H2]%find_some. apply bool_decide_eq_true in H2. split; [now apply list_elem_of_In|].
  destruct (h_opens (sm_heap s) !! p) as [os|]; cbn in H2; [|done]. exists os. split; [done|congruence].
Qed.

Lemma wp_merge_open q oo k p a d f s :
  J s -> openOwners (sm_tab s) !! k = Some q -> h_owners (sm_heap s) !! q = Some oo -> find_open oo f s = Some p ->
  (strict = true -> compatible (a_heap (abs s)) (a_idx (abs s)) (oo_Key oo) f a d) ->
  wp J (merge_open p a d) (fun _ => J) s.
Proof.
  intros Hs Hk Hq (Hin & os & Hos & Hf)%find_open_spec Hc.
  destruct (wf_owner _ _ _ _ (st_wf _ _ HJ s Hs) k q Hk) as (x & E1 & _ & _ & E2).
  rewrite (abs_owner _ _ _ Hq) in E1. injection E1 as <-. destruct (E2 p Hin) as (y & E3 & E4 & _).
  rewrite (abs_open _ _ _ Hos) in E3. injection E3 as <-. unfold merge_open. wp1.
  eapply (wp_upd_open strict J HJ _ _ (fun o => reshare (w_access o .| a) (w_deny o .| d) o)); [done|done| |].
  - replace (upd_opens (fun o => reshare (w_access o .| a) (w_deny o .| d) o) p (a_heap (abs s)))
      with (upd_opens (reshare (w_access (open_of os) .| a) (w_deny (open_of os) .| d)) p (a_heap (abs s))).
    + apply (st_widen strict _ _ _ _ p (open_of os) (owner_of oo)); [now apply abs_open|rewrite E4; now apply abs_owner|].
      intros Hst. cbn. rewrite Hf. now apply Hc.
    + unfold upd_opens. f_equal. apply map_eq. intros i. destruct (decide (i = p)) as [->|Hn].
      * rewrite !lookup_alter_eq. now rewrite (abs_open _ _ _ Hos).
      * now rewrite !lookup_alter_ne.
  - intros s' Hs' _. now apply (keep_quiet strict); [|solve_quiet|].
Qed.

Lemma wp_OpenFile c d q f a dn claim s :
  (strict = true -> claim <> CLAIM_PREVIOUS) -> J s -> wp J1 (OpenFile c d q f a dn claim) (fun _ => J1) s.
Proof.
  intros Hst Hs. unfold OpenFile. wp1. apply wp_fail_weaken. eapply wp_quiet; [exact HJ|solve_quiet|done|].
  intros _ s1 _ Hs1. do 2 wp1. wp1. apply wp_fail_weaken. eapply wp_quiet; [exact HJ| |done|].
  { destruct (openOwners (sm_tab s1) !! makeOwnerKey c d); solve_quiet. }
  intros [r|] s2 _ Hs2; [apply wp_ret; auto|]. wp1. apply wp_fail_weaken.
  eapply wp_mono; [apply (wp_find_owner strict J HJ c d s2 Hs2)|]. intros op s3 [Hs3 Hop].
  do 3 wp1. apply wp_check; intros Hconf; [auto|]. do 2 wp1; [auto|]. rename x into owner, H into Hown. do 3 wp1.
  assert (oo_Key owner = makeOwnerKey c d) as Ekey.
  { destruct (wf_owner _ _ _ _ (st_wf _ _ HJ s3 Hs3) _ _ Hop) as (x & E1 & E2 & _).
    rewrite (abs_owner _ _ _ Hown) in E1. injection E1 as <-. exact E2. }
  assert (strict = true -> compatible (a_heap (abs s3)) (a_idx (abs s3)) (oo_Key owner) f a dn) as Hcomp.
  { intros Ht. apply negb_true_iff in Hconf. rewrite Ekey. apply no_conflict.
    destruct (claim =? CLAIM_PREVIOUS) eqn:E; [|done]. apply Z.eqb_eq in E. now apply Hst in Ht. }
  eapply wp_mono with (Q := fun _ => J1).
  - destruct (find_open owner f s3) as [p|] eqn:Ef.
    + apply wp_fail_weaken. eapply wp_mono; [eapply wp_merge_open; eauto|]. auto.
    + eapply wp_create_open; eauto.
  - intros sid s4 Hs4. now apply (keep_quiet strict); [|solve_quiet|].
Qed.

Lemma wp_GrantDelegation now b c f t s : J s -> wp J1 (GrantDelegation now b c f t) (fun _ => J1) s.
Proof.
  intros Hs. unfold GrantDelegation. wp1. apply wp_fail_weaken. eapply wp_quiet; [exact HJ|unfold pruneStaleRecentlyRecalledLocked; solve_quiet|done|].
  intros _ s1 _ Hs1. do 2 wp1. wp1; [apply wp_ret; auto|]. wp1. unfold wp at 1, generateStateidOther.
  set (s2 := with_counters _ _ _ s1). assert (J1 s2) as Hs2.
  { apply (Hmore s1); [done| |cbn; now apply next_seq]. unfold s2, abs. cbn. rewrite (next_seq s1 Hs1). apply st_later. lia. }
  wp1. eapply wp_mono; [now apply (keep_record_delegation strict)|]. intros p s3 Hs3.
  now apply (keep_quiet strict); [|solve_quiet|].
Qed.
End Issue.

(** ** Locking *)

Section LockNew.
Context `{L : Nfs4Lib}.
Variable strict : bool.
Variables J J1 : StateManager -> Prop.
Hypothesis HJ : stable strict J.
Hypothesis HJ1 : stable strict J1.
Hypothesis Hmore : forall s s',
  J s -> astep strict (abs s) (abs s') -> sm_nextStateSeq s' = sm_nextStateSeq s + 1 -> J1 s'.
Hypothesis Hweak : forall s, J s -> J1 s.
Hypothesis Hcap : forall s, J s -> 0 <= sm_nextStateSeq s /\ sm_nextStateSeq s + 1 < 2 ^ 64.

Lemma wp_find_lowner c d s :
  J s -> wp J (find_lowner c d) (fun lop s' => J s' /\ is_Some (s_lowners (a_heap (abs s')) !! lop) /\
    s_opens (a_heap (abs s')) = s_opens (a_heap (abs s)) /\ i_opens (a_idx (abs s')) = i_opens (a_idx (abs s))) s.
Proof.
  intros Hs. unfold find_lowner. do 2 wp1. destruct (lockOwners (sm_tab s) !! makeLockOwnerKey c d) as [p|] eqn:E.
  - apply wp_ret. split_and!; try done. apply (wf_lowners _ _ _ _ (st_wf _ _ HJ s Hs) _ _ E).
  - do 8 wp1. split; [|split; [|done]].
    + apply (moved strict J HJ s); [done| |done]. unfold abs, shape. cbn. rewrite fmap_insert.
      apply (st_lowner strict _ _ (shape (sm_heap s)) (idx (sm_tab s) (sm_del s))).
    + cbn. rewrite lookup_fmap, lookup_insert_eq. now eexists.
Qed.

Lemma wp_find_lock_state p os x lop f s :
  J s -> s_opens (a_heap (abs s)) !! p = Some x -> i_opens (a_idx (abs s)) !! w_other x = Some p ->
  is_Some (s_lowners (a_heap (abs s)) !! lop) -> wp J1 (find_lock_state p os lop f) (fun _ => J1) s.
Proof.
  intros Hs Hp Ho Hlop. unfold find_lock_state. do 2 wp1. destruct (List.find _ _) as [lp|]; [apply wp_ret; auto|].
  unfold wp, mbind, Op_bind. cbn. rewrite (next_seq J Hcap s Hs). apply (Hmore s); [done| |done]. unfold abs, shape. cbn.
  rewrite (fmap_alter_comm _ _ (push_lock (h_next (sm_heap s)))), fmap_insert by done. destruct (Hcap s Hs).
  now apply (st_lock strict (sm_bootEpoch s) (sm_nextStateSeq s) (shape (sm_heap s)) (idx (sm_tab s) (sm_del s)) p x lop).
Qed.

Lemma wp_LockNew now c d lq osid oq f t off len r s :
  J s -> wp J1 (LockNew now c d lq osid oq f t off len r) (fun _ => J1) s.
Proof.
  intros Hs. unfold LockNew. wp1. apply (wp_fail_weaken J J1 Hweak).
  eapply wp_quiet; [exact HJ|destruct r; solve_quiet|done|]. intros _ s1 _ Hs1.
  unfold lookup_open. do 3 wp1. apply wp_need; [auto|]. intros p Ho. do 2 wp1; [auto|]. rename x into os, H into Hp.
  do 2 wp1; [auto|]. assert (w_other (open_of os) = si_Other osid) as Eo.
  { destruct (wf_open _ _ _ _ (st_wf _ _ HJ s1 Hs1) _ _ Ho) as (y & _ & E1 & E2 & _).
    rewrite (abs_open _ _ _ Hp) in E1. now injection E1 as <-. }
  apply abs_open in Hp.
  wp1. apply (wp_fail_weaken J J1 Hweak). eapply wp_quiet; [exact HJ|solve_quiet|done|]. intros replay s2 E2 Hs2.
  wp1. apply (wp_fail_weaken J J1 Hweak). eapply wp_quiet; [exact HJ|solve_quiet|done|]. intros _ s3 E3 Hs3.
  do 2 wp1. wp1. apply (wp_fail_weaken J J1 Hweak). eapply wp_quiet; [exact HJ|solve_quiet|done|]. intros _ s4 E4 Hs4.
  wp1. apply (wp_fail_weaken J J1 Hweak). eapply wp_mono; [now apply wp_find_lowner|]. intros lop s5 (Hs5 & Hlop & Eop & Eio).
  wp1. eapply wp_mono; [eapply (wp_find_lock_state p os (open_of os)); [done|..|done]|].
  - rewrite Eop, E4, E3, E2. exact Hp.
  - rewrite Eio, E4, E3, E2, Eo. exact Ho.
  - intros lp s6 Hs6. now apply (keep_quiet strict); [|solve_quiet|].
Qed.
End LockNew.
