(* ===== verification/Nfs4Expiry.v ===== *)
(** * NFSv4 state: lease expiry and eviction

    When a lease runs out, everything the client holds leaves the tables: its
    owners, their opens, the lock states of these, its delegations.  The release
    cannot fail, and what it leaves is a transition of the abstract machine. *)

From S2P Require Import Prelude.
From S2P Require Import SlotTable.
From S2P Require Import LockTypes.
From S2P Require Import LockManager.
From S2P Require Import Nfs4Grace.
From S2P Require Import Nfs4Types.
From S2P Require Import Nfs4State.
From S2P Require Import Nfs4Locks.
From S2P Require Import Nfs4Deleg.
From S2P Require Import Nfs4Wp.
From S2P Require Import Nfs4Abs.
From S2P Require Import Nfs4Quiet.
From S2P Require Import Nfs4Refine.

(** ** Cutting tables *)

Lemma cut_delete {K} `{Countable K} (m m' : gmap K ptr) (P : ptr -> Prop) k p :
  (forall k' p', m' !! k' = Some p' <-> m !! k' = Some p' /\ ~ P p') ->
  (forall k' p', m !! k' = Some p' -> (k' = k <-> p' = p)) ->
  forall k' p', delete k m' !! k' = Some p' <-> m !! k' = Some p' /\ ~ (P p' \/ p' = p).
Proof.
  intros Hm Hu k' p'. rewrite lookup_delete_Some, Hm. split.
  - intros (Hk & E & HP). split; [done|]. intros [?| ->]; [done|]. apply Hu in E. naive_solver.
  - intros (E & HP). split; [|tauto]. intros <-. apply HP. right. now apply (Hu k p' E).
Qed.

Lemma cut_start t : listed (i_files t) -> cut (fun _ => False) (fun _ => False) (fun _ => False) t t.
Proof. intros H. split; auto; intros; tauto. Qed.

Lemma cut_ext Lk Op Ow Lk' Op' Ow' t t' :
  cut Lk Op Ow t t' ->
  (forall o lp, i_locks t !! o = Some lp -> (Lk lp <-> Lk' lp)) ->
  (forall o p, i_opens t !! o = Some p -> (Op p <-> Op' p)) -> (forall f p, p ∈ on_file t f -> (Op p <-> Op' p)) ->
  (forall k q, i_owners t !! k = Some q -> (Ow q <-> Ow' q)) -> cut Lk' Op' Ow' t t'.
Proof.
  intros [K1 K2 K3 K4 K5 K6 K7 K8] H1 H2 H3 H4. split; try done.
  - intros o p. rewrite K1. split; intros [E Hn]; split; auto; now rewrite (H2 o p E) in *.
  - intros f p. rewrite K2. split; intros [E Hn]; split; auto; now rewrite (H3 f p E) in *.
  - intros k q. rewrite K4. split; intros [E Hn]; split; auto; now rewrite (H4 k q E) in *.
  - intros o lp. rewrite K5. split; intros [E Hn]; split; auto; now rewrite (H1 o lp E) in *.
Qed.

Lemma cut_drop_lock Lk Op Ow t t' o lp :
  cut Lk Op Ow t t' -> (forall o' lp', i_locks t !! o' = Some lp' -> (o' = o <-> lp' = lp)) ->
  cut (fun x => Lk x \/ x = lp) Op Ow t (set_i_locks (delete o (i_locks t')) t').
Proof. intros [K1 K2 K3 K4 K5 K6 K7 K8] Hu. split; cbn; try done. now apply cut_delete. Qed.

Lemma cut_drop_open Lk Op Ow t t' o p f :
  cut Lk Op Ow t t' -> (forall o' p', i_opens t !! o' = Some p' -> (o' = o <-> p' = p)) ->
  (forall f', p ∈ on_file t f' -> f' = f) ->
  cut Lk (fun x => Op x \/ x = p) Ow t (set_i_opens (delete o (i_opens t')) (remove_from_file f p (i_files t')) t').
Proof.
  intros [K1 K2 K3 K4 K5 K6 K7 K8] Hu Hf. split; cbn; try done.
  - now apply cut_delete.
  - intros f' q. unfold on_file. cbn. rewrite (remove_from_file_elem f p _ f' q K3).
    change (default [] (i_files t' !! f')) with (on_file t' f'). rewrite K2. split.
    + intros [[E Hn] Hne]. split; [done|]. intros [?| ->]; [done|]. apply Hne. split; [now apply Hf|done].
    + intros [E Hn]. split; [tauto|]. intros [_ ->]. tauto.
  - now apply remove_from_file_listed.
Qed.

Lemma cut_drop_owner Lk Op Ow t t' k q :
  cut Lk Op Ow t t' -> (forall k' q', i_owners t !! k' = Some q' -> (k' = k <-> q' = q)) ->
  cut Lk Op (fun x => Ow x \/ x = q) t (set_i_owners (delete k (i_owners t')) t').
Proof. intros [K1 K2 K3 K4 K5 K6 K7 K8] Hu. split; cbn; try done. now apply cut_delete. Qed.

Lemma cut_drop_lowner Lk Op Ow t t' k :
  cut Lk Op Ow t t' -> cut Lk Op Ow t (set_i_lowners (delete k (i_lowners t')) t').
Proof. intros [K1 K2 K3 K4 K5 K6 K7 K8]. split; cbn; try done. intros k' p [_ E]%lookup_delete_Some. auto. Qed.

Lemma cut_drop_deleg Lk Op Ow t t' o :
  cut Lk Op Ow t t' -> cut Lk Op Ow t (set_i_delegs (delete o (i_delegs t')) t').
Proof. intros [K1 K2 K3 K4 K5 K6 K7 K8]. split; cbn; try done. intros k' p [_ E]%lookup_delete_Some. auto. Qed.

(** ** Releasing *)

Section Release.
Context `{L : Nfs4Lib}.
(** The state when the release starts. *)
Variable s0 : StateManager.
Hypothesis Hw : a_wf (abs s0).

(** What the release has done so far. *)
Definition released (Lk Op Ow : ptr -> Prop) (s : StateManager) : Prop :=
  exists t, abs s = mkAbs (a_epoch (abs s0)) (a_seq (abs s0)) (a_heap (abs s0)) t /\ cut Lk Op Ow (a_idx (abs s0)) t.

Definition never : StateManager -> Prop := fun _ => False.

Lemma released_quiet Lk Op Ow s s' : abs s' = abs s -> released Lk Op Ow s -> released Lk Op Ow s'.
Proof. intros E (t & Et & Hc). exists t. split; [congruence|done]. Qed.

Lemma released_tab Lk Op Ow Lk' Op' Ow' s f :
  released Lk Op Ow s ->
  (forall t, cut Lk Op Ow (a_idx (abs s0)) (idx t (sm_del s)) -> cut Lk' Op' Ow' (a_idx (abs s0)) (idx (f t) (sm_del s))) ->
  released Lk' Op' Ow' (with_tab (f (sm_tab s)) s).
Proof.
  intros (t & Et & Hc) Hf. exists (idx (f (sm_tab s)) (sm_del s)). split.
  - pose proof (f_equal a_epoch Et) as E1. pose proof (f_equal a_seq Et) as E2. pose proof (f_equal a_heap Et) as E3.
    cbn [a_epoch a_seq a_heap] in E1, E2, E3. rewrite <- E1, <- E2, <- E3. done.
  - apply Hf. change (idx (sm_tab s) (sm_del s)) with (a_idx (abs s)). now rewrite Et.
Qed.

(** Objects are as they were. *)
Lemma released_heap Lk Op Ow s : released Lk Op Ow s -> shape (sm_heap s) = shape (sm_heap s0).
Proof. intros (t & Et & _). exact (f_equal a_heap Et). Qed.

Lemma lock_unique o lp ls o' lp' :
  i_locks (a_idx (abs s0)) !! o = Some lp -> s_locks (a_heap (abs s0)) !! lp = Some ls ->
  i_locks (a_idx (abs s0)) !! o' = Some lp' -> (o' = w_lother ls <-> lp' = lp).
Proof.
  intros H Hls H'. destruct (wf_lock _ _ _ _ Hw o lp H) as (x & _ & E1 & E2 & _). assert (x = ls) as -> by congruence.
  destruct (wf_lock _ _ _ _ Hw o' lp' H') as (y & _ & F1 & F2 & _). split; intros ->; congruence.
Qed.

Lemma open_unique o p os o' p' :
  i_opens (a_idx (abs s0)) !! o = Some p -> s_opens (a_heap (abs s0)) !! p = Some os ->
  i_opens (a_idx (abs s0)) !! o' = Some p' -> (o' = w_other os <-> p' = p).
Proof.
  intros H Hos H'. destruct (wf_open _ _ _ _ Hw o p H) as (x & _ & E1 & E2 & _). assert (x = os) as -> by congruence.
  destruct (wf_open _ _ _ _ Hw o' p' H') as (y & _ & F1 & F2 & _). split; intros ->; congruence.
Qed.

(** Reading an object of the starting state. *)
Lemma released_obj {A B} (sel : Heap -> gmap ptr A) (proj : Shape -> gmap ptr B) (g : A -> B) Lk Op Ow p x s :
  (forall h, proj (shape h) = g <$> sel h) -> released Lk Op Ow s -> proj (a_heap (abs s0)) !! p = Some x ->
  exists a, sel (sm_heap s) !! p = Some a /\ g a = x.
Proof.
  intros Hg Hr Hx. change (a_heap (abs s0)) with (shape (sm_heap s0)) in Hx. rewrite <- (released_heap _ _ _ _ Hr), Hg in Hx.
  rewrite lookup_fmap in Hx. destruct (sel (sm_heap s) !! p) as [a|]; [|done]. injection Hx as Hx. eauto.
Qed.

Lemma wp_deref_shape {A B} (sel : Heap -> gmap ptr A) (proj : Shape -> gmap ptr B) (g : A -> B) Lk Op Ow p x Q s :
  (forall h, proj (shape h) = g <$> sel h) -> released Lk Op Ow s -> proj (a_heap (abs s0)) !! p = Some x ->
  (forall a, g a = x -> Q a s) -> wp never (deref sel p) Q s.
Proof.
  intros Hg Hr Hx HQ. destruct (released_obj _ _ _ _ _ _ _ _ _ Hg Hr Hx) as (a & Ha & Ex). apply wp_deref_some with a; auto.
Qed.

Lemma wp_release_lock Lk Op Ow p os lp s :
  i_opens (a_idx (abs s0)) !! w_other os = Some p -> s_opens (a_heap (abs s0)) !! p = Some os -> lp ∈ w_locks os ->
  released Lk Op Ow s ->
  wp never (release_lock_state lp) (fun _ => released (fun x => Lk x \/ x = lp) Op Ow) s.
Proof.
  intros Ho Hp Hlp Hr. destruct (wf_open_locks _ _ _ _ Hw _ _ _ Ho Hp) as [_ Hin]. destruct (Hin lp Hlp) as (ls & E1 & E2 & E3).
  unfold release_lock_state, drop_lock, drop_lowner. wp1. eapply (wp_deref_shape h_locks s_locks lock_of); [done|exact Hr|exact E1|]. intros x Ex.
  do 3 wp1. assert (si_Other (ls_Stateid x) = w_lother ls) as Eo by now apply (f_equal w_lother) in Ex. rewrite Eo.
  set (s1 := with_tab _ s). assert (released (fun x => Lk x \/ x = lp) Op Ow s1) as Hr1.
  { apply (released_tab Lk Op Ow _ _ _ s (fun t => set_lockStates (delete (w_lother ls) (lockStateByOther t)) t) Hr).
    intros t Hc. apply (cut_drop_lock _ _ _ _ _ _ lp Hc). intros o' lp'. now apply lock_unique with (w_lother ls). }
  destruct (wf_lowner _ _ _ _ Hw _ _ E1) as [[] Hlo]. rewrite <- Ex in Hlo.
  wp1. eapply (wp_deref_shape h_lowners s_lowners (fun _ => tt)); [done|exact Hr1|exact Hlo|]. intros lo _. wp1. apply wp_total; [solve_quiet|apply total_remove_locks|]. intros _ s2 Es2. wp1.
  apply (released_tab (fun x => Lk x \/ x = lp) Op Ow _ _ _ s2 (fun t => set_lockOwners (delete (l4_Key lo) (lockOwners t)) t)).
  - eapply released_quiet; eauto.
  - intros t. apply cut_drop_lowner.
Qed.

(** A loop that releases one object after the other. *)
Lemma wp_release_loop (f : ptr -> Op unit) l s (R : list ptr -> StateManager -> Prop) :
  R [] s -> (forall done a s, a ∈ l -> R done s -> wp never (f a) (fun _ => R (done ++ [a])) s) ->
  wp never (op_forM l f) (fun _ => R l) s.
Proof.
  intros H0 Hf. assert (forall rest done s, (forall a, a ∈ rest -> a ∈ l) -> R done s -> l = done ++ rest ->
    wp never (op_forM rest f) (fun _ => R l) s) as Hgen.
  { clear s H0. induction rest as [|a rest IH]; intros done s Hin HR El; cbn [op_forM].
    - apply wp_ret. now rewrite El, app_nil_r.
    - wp1. eapply wp_mono; [apply Hf; [apply Hin; set_solver|exact HR]|]. intros ? s' HR'.
      apply (IH (done ++ [a])); [set_solver|done|]. now rewrite <- app_assoc. }
  now apply (Hgen l []).
Qed.

Lemma released_ext Lk Op Ow Lk' Op' Ow' s :
  (forall x, Lk x <-> Lk' x) -> (forall x, Op x <-> Op' x) -> (forall x, Ow x <-> Ow' x) ->
  released Lk Op Ow s -> released Lk' Op' Ow' s.
Proof. intros H1 H2 H3 (t & Et & Hc). exists t. split; [done|]. eapply cut_ext; eauto. Qed.

(** The lock states of an open. *)
Definition locks_of (p lp : ptr) : Prop := exists os, s_opens (a_heap (abs s0)) !! p = Some os /\ lp ∈ w_locks os.

Lemma wp_release_open Lk Op Ow p os s :
  i_opens (a_idx (abs s0)) !! w_other os = Some p -> s_opens (a_heap (abs s0)) !! p = Some os -> released Lk Op Ow s ->
  wp never (release_open_state p)
    (fun _ => released (fun x => Lk x \/ locks_of p x) (fun x => Op x \/ x = p) Ow) s.
Proof.
  intros Ho Hp Hr. unfold release_open_state, drop_open, removeOpenStateFromFileLocked. wp1.
  eapply (wp_deref_shape h_opens s_opens open_of); [done|exact Hr|exact Hp|]. intros x Ex. wp1.
  assert (os_LockStates x = w_locks os) as El by now apply (f_equal w_locks) in Ex. rewrite El.
  eapply wp_mono.
  { apply (wp_release_loop _ _ _ (fun l => released (fun x => Lk x \/ x ∈ l) Op Ow)).
    - eapply released_ext; [..|exact Hr]; [set_solver|done|done].
    - intros dn a s' Ha Hr'. eapply wp_mono; [eapply wp_release_lock; eauto|]. intros ? s2. apply released_ext; set_solver. }
  intros ? s1 Hr1. cbn beta in Hr1. do 4 wp1.
  destruct (released_obj h_opens s_opens open_of _ _ _ _ _ _ ltac:(done) Hr1 Hp) as (y & Hy & Ey).
  apply wp_deref_some with y; [exact Hy|]. wp1.
  assert (si_Other (os_Stateid x) = w_other os) as Eo by now apply (f_equal w_other) in Ex.
  assert (os_FileHandle y = w_file os) as Ef by now apply (f_equal w_file) in Ey. rewrite Eo, Ef.
  apply (released_tab (fun x => Lk x \/ x ∈ w_locks os) Op Ow _ _ _ s1 (fun t => set_openStates (delete (w_other os) (openStateByOther t))
    (remove_from_file (w_file os) p (openStateByFile t)) t) Hr1). intros t Hc.
  eapply cut_ext; [apply (cut_drop_open _ _ _ _ _ (w_other os) p (w_file os) Hc)|..]; try done.
  - intros o' p'. now apply open_unique with (w_other os).
  - intros f' (o' & z & _ & Ez & <-)%(wf_file _ _ _ _ Hw). congruence.
  - intros o lp _. unfold locks_of. split; [intros [?|?]; eauto|intros [?|(z & Ez & Hz)]; [auto|right; congruence]].
Qed.

Lemma wp_release_owner Lk Op Ow q oo s :
  s_owners (a_heap (abs s0)) !! q = Some oo ->
  (i_owners (a_idx (abs s0)) !! key_of oo = Some q \/ i_owners (a_idx (abs s0)) !! key_of oo = None /\ w_opens oo = []) ->
  released Lk Op Ow s ->
  wp never (release_owner q) (fun _ => released (fun x => Lk x \/ exists p, p ∈ w_opens oo /\ locks_of p x)
    (fun x => Op x \/ x ∈ w_opens oo) (fun x => Ow x \/ x = q)) s.
Proof.
  intros Hq Hk Hr. unfold release_owner, drop_owner. wp1.
  eapply (wp_deref_shape h_owners s_owners owner_of); [done|exact Hr|exact Hq|]. intros x Ex. wp1.
  assert (oo_OpenStates x = w_opens oo) as El by now apply (f_equal w_opens) in Ex. rewrite El.
  assert (oo_Key x = key_of oo) as Ek by now rewrite <- Ex. rewrite Ek.
  eapply wp_mono.
  { apply (wp_release_loop _ _ _ (fun l => released (fun x => Lk x \/ exists p, p ∈ l /\ locks_of p x) (fun x => Op x \/ x ∈ l) Ow)).
    - eapply released_ext; [..|exact Hr]; [set_solver|set_solver|done].
    - intros dn p s' Hp Hr'. destruct Hk as [Hk|[_ Hnil]]; [|rewrite Hnil in Hp; set_solver].
      destruct (wf_owner _ _ _ _ Hw _ _ Hk) as (y & E1 & _ & _ & E2). assert (y = oo) as -> by congruence.
      destruct (E2 p Hp) as (os & F1 & F2 & F3).
      eapply wp_mono; [eapply wp_release_open; eauto|]. intros ? s2. apply released_ext; set_solver. }
  intros ? s1 Hr1. cbn beta in Hr1. do 2 wp1.
  apply (released_tab (fun x => Lk x \/ exists p, p ∈ w_opens oo /\ locks_of p x) (fun x => Op x \/ x ∈ w_opens oo) Ow _ _ _ s1
    (fun t => set_openOwners (delete (key_of oo) (openOwners t)) t) Hr1). intros t Hc.
  apply (cut_drop_owner _ _ _ _ _ (key_of oo) q Hc). intros k' q' Hk'.
  destruct (wf_owner _ _ _ _ Hw k' q' Hk') as (y & E1 & E2 & _). split.
  - intros ->. destruct Hk as [Hk|[Hk _]]; congruence.
  - intros ->. congruence.
Qed.

(** The owners of a registered client. *)
Section Client.
Variables (c : Z) (r : ptr) (cr : client_sh) (D : list ptr).
Hypothesis Hr0 : i_clients (a_idx (abs s0)) !! c = Some r.
Hypothesis Hcr : s_clients (a_heap (abs s0)) !! r = Some cr.
Hypothesis HD : owners_of cr D.

Lemma owner_cases q : q ∈ D -> exists oo, s_owners (a_heap (abs s0)) !! q = Some oo /\ w_client oo = c /\
  (i_owners (a_idx (abs s0)) !! key_of oo = Some q \/ i_owners (a_idx (abs s0)) !! key_of oo = None /\ w_opens oo = []).
Proof.
  intros [d Hd]%HD. destruct (wf_client _ _ _ _ Hw c r Hr0) as (x & E1 & _ & E2). assert (x = cr) as -> by congruence.
  destruct (E2 d q Hd) as (oo & F1 & F2 & F3 & F4). exists oo. split; [done|]. split; [done|]. unfold key_of. now rewrite F2, F3.
Qed.

(** An open of a doomed owner is in the table. *)
Lemma doomed_open q oo p : q ∈ D -> s_owners (a_heap (abs s0)) !! q = Some oo -> p ∈ w_opens oo ->
  exists os, s_opens (a_heap (abs s0)) !! p = Some os /\ w_owner os = q /\ i_opens (a_idx (abs s0)) !! w_other os = Some p.
Proof.
  intros Hq Hoo Hp. destruct (owner_cases q Hq) as (x & E1 & _ & E2). assert (x = oo) as -> by congruence.
  destruct E2 as [E2|[_ E2]]; [|rewrite E2 in Hp; set_solver].
  destruct (wf_owner _ _ _ _ Hw _ _ E2) as (y & F1 & _ & _ & F2). assert (y = oo) as -> by congruence. now apply F2.
Qed.

Definition opens_of (l : list ptr) (x : ptr) : Prop :=
  exists q oo, q ∈ l /\ s_owners (a_heap (abs s0)) !! q = Some oo /\ x ∈ w_opens oo.
Definition lstates_of (l : list ptr) (x : ptr) : Prop := exists p, opens_of l p /\ locks_of p x.

Lemma opens_of_doomed o p : i_opens (a_idx (abs s0)) !! o = Some p -> opens_of D p <-> open_doomed (a_heap (abs s0)) D p.
Proof.
  intros Ho. destruct (wf_open _ _ _ _ Hw o p Ho) as (os & oo & E1 & _ & E2 & E3 & _). split.
  - intros (q & y & Hq & Hy & Hp). destruct (doomed_open q y p Hq Hy Hp) as (z & F1 & F2 & _). exists z. now rewrite F2.
  - intros (z & Hz & HzD). assert (z = os) as -> by congruence. now exists (w_owner os), oo.
Qed.

Lemma lstates_of_doomed o lp : i_locks (a_idx (abs s0)) !! o = Some lp -> lstates_of D lp <-> lock_doomed (a_heap (abs s0)) D lp.
Proof.
  intros Ho. destruct (wf_lock _ _ _ _ Hw o lp Ho) as (ls & os & E1 & _ & E2 & E3 & E4). split.
  - intros (p & Hp & z & Hz & Hlp). destruct Hp as (q & y & Hq & Hy & Hp).
    destruct (doomed_open q y p Hq Hy Hp) as (z' & F1 & F2 & F3). assert (z' = z) as -> by congruence.
    destruct (wf_open_locks _ _ _ _ Hw _ _ _ F3 Hz) as [_ Hin]. destruct (Hin lp Hlp) as (ls' & G1 & G2 & _).
    assert (ls' = ls) as -> by congruence. exists ls. split; [done|]. exists z. rewrite G2, F2. done.
  - intros (ls' & E5 & Hd). assert (ls' = ls) as -> by congruence. exists (w_lopen ls). split; [|now exists os].
    now apply (opens_of_doomed _ _ E4).
Qed.

Lemma wp_release_opens s :
  released (fun _ => False) (fun _ => False) (fun _ => False) s ->
  wp never (op_forM D release_owner) (fun _ => released (lock_doomed (a_heap (abs s0)) D) (open_doomed (a_heap (abs s0)) D) (fun q => q ∈ D)) s.
Proof.
  intros Hr. eapply wp_mono.
  { apply (wp_release_loop _ _ _ (fun l => released (lstates_of l) (opens_of l) (fun q => q ∈ l))).
    - eapply released_ext; [..|exact Hr]; unfold lstates_of, opens_of; set_solver.
    - intros dn q s' Hq Hr'. destruct (owner_cases q Hq) as (oo & E1 & _ & E2).
      assert (forall x, opens_of (dn ++ [q]) x <-> opens_of dn x \/ x ∈ w_opens oo) as Hop.
      { intros x. unfold opens_of. setoid_rewrite elem_of_app. setoid_rewrite list_elem_of_singleton. naive_solver. }
      eapply wp_mono; [eapply wp_release_owner; eauto|]. intros ? s2. apply released_ext; [..|set_solver].
      + intros x. unfold lstates_of. setoid_rewrite Hop. naive_solver.
      + intros x. now rewrite Hop. }
  intros ? s1 (t & Et & Hc). exists t. split; [done|]. eapply cut_ext; [exact Hc|..].
  - apply lstates_of_doomed.
  - apply opens_of_doomed.
  - intros f p (o & os & Ho & _)%(wf_file _ _ _ _ Hw). now apply opens_of_doomed with o.
  - done.
Qed.

(** Once the client is dropped too, this is an expiry. *)
Lemma expired_ok strict s :
  released (lock_doomed (a_heap (abs s0)) D) (open_doomed (a_heap (abs s0)) D) (fun q => q ∈ D) s ->
  astep strict (abs s0) (abs (with_tab (set_clientsByID (delete c (clientsByID (sm_tab s))) (sm_tab s)) s)).
Proof.
  intros (t & Et & Hc). set (s' := with_tab _ s).
  assert (abs s' = mkAbs (a_epoch (abs s0)) (a_seq (abs s0)) (a_heap (abs s0)) (set_i_clients (delete c (i_clients t)) t)) as ->.
  { transitivity (mkAbs (a_epoch (abs s)) (a_seq (abs s)) (a_heap (abs s)) (set_i_clients (delete c (i_clients (a_idx (abs s)))) (a_idx (abs s)))); [done|].
    now rewrite Et. }
  now apply (st_expire strict _ _ _ (a_idx (abs s0)) t c r cr D).
Qed.
End Client.

(** ** Delegations *)

Lemma released_del Lk Op Ow s f :
  released Lk Op Ow s -> (exists o, delegByOther (f (sm_del s)) = delete o (delegByOther (sm_del s))) ->
  released Lk Op Ow (with_del (f (sm_del s)) s).
Proof.
  intros (t & Et & Hc) [o Ho]. exists (set_i_delegs (delete o (i_delegs t)) t). split; [|now apply cut_drop_deleg].
  transitivity (mkAbs (a_epoch (abs s)) (a_seq (abs s)) (a_heap (abs s)) (set_i_delegs (delete o (i_delegs (a_idx (abs s)))) (a_idx (abs s)))).
  - unfold abs, idx, set_i_delegs. cbn. now rewrite Ho.
  - now rewrite Et.
Qed.

(** The delegations released so far, of those listed. *)
Record undelegated (Lk Op Ow : ptr -> Prop) (c : Z) (s : StateManager) (l : list (Other * ptr)) (s' : StateManager) : Prop := {
  ud_released : released Lk Op Ow s';
  ud_sub : forall o p, i_delegs (a_idx (abs s')) !! o = Some p -> i_delegs (a_idx (abs s)) !! o = Some p;
  ud_gone : forall o p, (o, p) ∈ l -> s_delegs (a_heap (abs s0)) !! p = Some c -> i_delegs (a_idx (abs s')) !! o = None;
}.

Lemma deleg_valid Lk Op Ow s o p :
  released Lk Op Ow s -> i_delegs (a_idx (abs s)) !! o = Some p -> is_Some (s_delegs (a_heap (abs s0)) !! p).
Proof.
  intros (t & Et & Hc) Ho. apply (wf_deleg _ _ _ _ Hw o). apply (cut_delegs _ _ _ _ _ Hc). now rewrite Et in Ho.
Qed.

Lemma undelegated_next Lk Op Ow c s l o p s' :
  undelegated Lk Op Ow c s l s' -> (s_delegs (a_heap (abs s0)) !! p = Some c -> i_delegs (a_idx (abs s')) !! o = None) ->
  undelegated Lk Op Ow c s (l ++ [(o, p)]) s'.
Proof.
  intros [U1 U2 U3] H. split; auto. intros o' p' [He|[= -> ->]%list_elem_of_singleton]%elem_of_app; eauto.
Qed.

Lemma undelegated_quiet Lk Op Ow c s l s' s'' :
  abs s'' = abs s' -> undelegated Lk Op Ow c s l s' -> undelegated Lk Op Ow c s l s''.
Proof. intros Ea [U1 U2 U3]. split; rewrite ?Ea; auto. eapply released_quiet; eauto. Qed.

Lemma wp_delete_deleg Lk Op Ow c s l o s' :
  undelegated Lk Op Ow c s l s' ->
  wp never (deleteDelegByOtherLocked o)
    (fun _ s'' => undelegated Lk Op Ow c s l s'' /\ i_delegs (a_idx (abs s'')) !! o = None) s'.
Proof.
  intros [U1 U2 U3]. unfold deleteDelegByOtherLocked. do 2 wp1. destruct (delegByOther (sm_del s') !! o) as [p|] eqn:Eo.
  - destruct (deleg_valid _ _ _ _ _ _ U1 Eo) as [dl Hdl]. wp1.
    eapply (wp_deref_shape h_delegs s_delegs ds_ClientID); [done|exact U1|exact Hdl|]. intros x _.
    do 2 wp1. split; [|apply lookup_delete_eq]. split; [apply released_del; [done|now exists o]|..].
    + intros o' p'. cbn. intros [_ E]%lookup_delete_Some. auto.
    + intros o' p' Hin Hcl. apply lookup_delete_None. right. exact (U3 o' p' Hin Hcl).
  - apply wp_ret. done.
Qed.

(** The body of the loop over the delegations. *)
Definition release_one (b : bool) (c : Z) (e : Other * ptr) : Op unit :=
  dl ← deref h_delegs e.2;
  if negb (ds_ClientID dl =? c) then mret tt
  else (if b then StopRecallTimer e.2 else mret tt);; deleteDelegByOtherLocked e.1;; removeDelegFromFile e.2.

Lemma wp_release_one Lk Op Ow b c s dn o p s' :
  is_Some (s_delegs (a_heap (abs s0)) !! p) -> undelegated Lk Op Ow c s dn s' ->
  wp never (release_one b c (o, p)) (fun _ => undelegated Lk Op Ow c s (dn ++ [(o, p)])) s'.
Proof.
  intros [x0 Hx0] Hu. unfold release_one. wp1.
  eapply (wp_deref_shape h_delegs s_delegs ds_ClientID); [done|apply Hu|exact Hx0|]. intros dl Edl. cbn [fst snd].
  destruct (ds_ClientID dl =? c) eqn:Ec; cbn [negb].
  2:{ apply wp_ret, undelegated_next; [done|]. apply Z.eqb_neq in Ec. congruence. }
  wp1. eapply wp_mono with (Q := fun _ => undelegated Lk Op Ow c s dn).
  { destruct b; [|now apply wp_ret]. unfold wp. exact (undelegated_quiet _ _ _ _ _ _ _ _ (quiet_StopRecallTimer p s') Hu). }
  intros ? s1 Hu1. wp1. eapply wp_mono; [apply wp_delete_deleg, Hu1|]. intros ? s2 [Hu2 Hno].
  unfold removeDelegFromFile. wp1.
  eapply (wp_deref_shape h_delegs s_delegs ds_ClientID); [done|apply Hu2|exact Hx0|]. intros d2 _. do 2 wp1.
  apply undelegated_next; [|done]. eapply undelegated_quiet; [|exact Hu2]. done.
Qed.

Lemma wp_release_delegations Lk Op Ow b c s :
  released Lk Op Ow s ->
  wp never (release_delegations b c) (fun _ s' => released Lk Op Ow s' /\
    forall o p, i_delegs (a_idx (abs s')) !! o = Some p -> s_delegs (a_heap (abs s')) !! p <> Some c) s.
Proof.
  intros Hr. unfold release_delegations. do 2 wp1. set (l := map_to_list (delegByOther (sm_del s))).
  assert (forall rest dn s', l = dn ++ rest -> undelegated Lk Op Ow c s dn s' ->
    wp never (op_forM rest (release_one b c)) (fun _ => undelegated Lk Op Ow c s l) s') as Hloop.
  { induction rest as [|[o p] rest IH]; intros dn s' El Hu; cbn [op_forM].
    { apply wp_ret. now rewrite El, app_nil_r. }
    assert (delegByOther (sm_del s) !! o = Some p) as Hop by (apply elem_of_map_to_list; fold l; rewrite El; set_solver).
    wp1. eapply wp_mono; [apply wp_release_one; [eapply deleg_valid; eauto|exact Hu]|]. intros ? s2 Hu2.
    apply (IH (dn ++ [(o, p)])); [now rewrite <- app_assoc|done]. }
  eapply wp_mono; [apply (Hloop l []); [done|]|].
  - split; auto. intros o p H. set_solver.
  - intros ? s' [U1 U2 U3]. split; [done|]. intros o p Ho Hcl. destruct U1 as (t & Et & _). rewrite Et in Hcl. cbn in Hcl.
    rewrite (U3 o p) in Ho; [done| |done]. apply elem_of_map_to_list. exact (U2 o p Ho).
Qed.
End Release.

(** ** The operations *)

(** Nothing of the client, as the record [r] that is gone registered it, is in
    the tables. *)
Record clean (c : Z) (r : ptr) (a : Abs) : Prop := {
  cl_client : i_clients (a_idx a) !! c = None;
  cl_opens : forall o p os oo, i_opens (a_idx a) !! o = Some p -> s_opens (a_heap a) !! p = Some os ->
    s_owners (a_heap a) !! w_owner os = Some oo -> w_client oo = c -> w_rec oo <> Some r;
  cl_locks : forall o lp ls os oo, i_locks (a_idx a) !! o = Some lp -> s_locks (a_heap a) !! lp = Some ls ->
    s_opens (a_heap a) !! w_lopen ls = Some os -> s_owners (a_heap a) !! w_owner os = Some oo -> w_client oo = c ->
    w_rec oo <> Some r;
  cl_delegs : forall o p, i_delegs (a_idx a) !! o = Some p -> s_delegs (a_heap a) !! p <> Some c;
}.

Section Expiry.
Context `{L : Nfs4Lib}.
Variable strict : bool.
Variable J : StateManager -> Prop.
Hypothesis HJ : stable strict J.

Definition client_owners (record : ClientRecord) : list ptr := (map_to_list (cr_OpenOwners record)).*2.

Lemma client_owners_of record : owners_of (client_of record) (client_owners record).
Proof.
  intros q. unfold client_owners. rewrite list_elem_of_fmap. cbn. split.
  - intros ([d q'] & -> & H%elem_of_map_to_list). eauto.
  - intros [d H]. exists (d, q). split; [done|]. now apply elem_of_map_to_list.
Qed.

Lemma weaken_never {A} (I : StateManager -> Prop) (m : Op A) Q s : wp never m Q s -> wp I m Q s.
Proof. unfold wp. destruct (m s) as [[e|a] s']; [intros []|auto]. Qed.

(** The tables when the owners of the client are gone. *)
Definition owners_gone (s0 : StateManager) (record : ClientRecord) (s : StateManager) : Prop :=
  let D := client_owners record in
  released s0 (lock_doomed (a_heap (abs s0)) D) (open_doomed (a_heap (abs s0)) D) (fun q => q ∈ D) s.

Lemma wp_release_client s0 s c r record :
  J s0 -> clientsByID (sm_tab s0) !! c = Some r -> h_clients (sm_heap s0) !! r = Some record -> abs s = abs s0 ->
  wp never (release_opens record) (fun _ => owners_gone s0 record) s.
Proof.
  intros Hs Hc Hr Es. pose proof (st_wf _ _ HJ s0 Hs) as Hw. unfold release_opens.
  apply (wp_release_opens s0 Hw c r (client_of record) (client_owners record) Hc (abs_client _ _ _ Hr) (client_owners_of record)).
  exists (a_idx (abs s0)). rewrite Es. split; [done|]. apply cut_start. exact (wf_file_list _ _ _ _ Hw).
Qed.

(** An owner that is live and registered with the client is one of its owners. *)
Lemma registered_doomed s0 c r record q oo :
  J s0 -> clientsByID (sm_tab s0) !! c = Some r -> h_clients (sm_heap s0) !! r = Some record ->
  i_owners (a_idx (abs s0)) !! key_of oo = Some q -> s_owners (a_heap (abs s0)) !! q = Some oo -> w_client oo = c ->
  w_rec oo = Some r -> q ∈ client_owners record.
Proof.
  intros Hs Hc Hr Hk Hq Ec Er. apply client_owners_of. exists (w_data oo).
  destruct (wf_registered _ _ _ _ (st_wf _ _ HJ s0 Hs) _ _ _ _ Hk Hq Er) as (cr & E1 & E2); [now rewrite Ec|].
  apply abs_client in Hr. assert (cr = client_of record) as <- by congruence. done.
Qed.

Lemma gone_clean s0 s c r record :
  J s0 -> clientsByID (sm_tab s0) !! c = Some r -> h_clients (sm_heap s0) !! r = Some record -> owners_gone s0 record s ->
  (forall o p, i_delegs (a_idx (abs s)) !! o = Some p -> s_delegs (a_heap (abs s)) !! p <> Some c) ->
  let s' := with_tab (set_clientsByID (delete c (clientsByID (sm_tab s))) (sm_tab s)) s in
  J s' /\ clean c r (abs s').
Proof.
  intros Hs Hc Hr Hg Hd s'. pose proof (st_wf _ _ HJ s0 Hs) as Hw. split.
  - eapply st_move; [exact HJ|apply (expired_ok s0 c r (client_of record) (client_owners record) Hc (abs_client _ _ _ Hr) (client_owners_of record) strict s Hg)| |done].
    destruct Hg as (t & Et & _). exact (f_equal a_seq Et).
  - destruct Hg as (t & Et & Hcut). pose proof (f_equal a_heap Et) as Eh. pose proof (f_equal a_idx Et) as Ei. cbn [a_heap a_idx] in Eh, Ei.
    assert (a_heap (abs s') = a_heap (abs s0)) as Eh' by exact Eh.
    assert (forall o p os oo, i_opens t !! o = Some p -> s_opens (a_heap (abs s0)) !! p = Some os ->
      s_owners (a_heap (abs s0)) !! w_owner os = Some oo -> w_client oo = c -> w_rec oo <> Some r) as Hopens.
    { intros o p os oo [Ho Hn]%(cut_opens _ _ _ _ _ Hcut) Hos Hoo Ecl Er. rewrite (not_open_doomed _ _ _ _ Hos) in Hn. apply Hn.
      destruct (wf_open _ _ _ _ Hw o p Ho) as (x & y & E1 & _ & E2 & _ & E3). assert (x = os) as -> by congruence.
      assert (y = oo) as -> by congruence. eapply registered_doomed; eauto. }
    split.
    + apply lookup_delete_eq.
    + intros o p os oo Ho. rewrite Eh'. apply (Hopens o p). rewrite <- Ei. exact Ho.
    + intros o lp ls os oo Ho. rewrite Eh'. intros Hls Hos Hoo.
      assert (i_locks t !! o = Some lp) as Ho' by (rewrite <- Ei; exact Ho).
      apply (cut_locks _ _ _ _ _ Hcut) in Ho' as [Ho' Hn]. rewrite (not_lock_doomed _ _ _ _ Hls) in Hn.
      destruct (wf_lock _ _ _ _ Hw o lp Ho') as (x & y & E1 & _ & E2 & _ & E3). assert (x = ls) as -> by congruence.
      assert (y = os) as -> by congruence. apply (Hopens (w_other os) (w_lopen ls) os oo); auto.
      now apply (cut_opens _ _ _ _ _ Hcut).
    + exact Hd.
Qed.

Lemma wp_forget s0 s b c r record :
  J s0 -> clientsByID (sm_tab s0) !! c = Some r -> h_clients (sm_heap s0) !! r = Some record -> owners_gone s0 record s ->
  let P := fun s => J s /\ clean c r (abs s) in
  wp P (release_delegations b c;; forget_client c record) (fun _ => P) s.
Proof.
  intros Hs Hc Hr Hg P. wp1. apply weaken_never. eapply wp_mono; [apply (wp_release_delegations s0 (st_wf _ _ HJ s0 Hs)), Hg|].
  intros ? s1 [Hg1 Hd]. unfold forget_client, drop_client. do 3 wp1.
  pose proof (gone_clean s0 s1 c r record Hs Hc Hr Hg1 Hd) as HP. cbv zeta in HP. set (s2 := with_tab _ s1) in *.
  assert (forall A (m : Op A), quiet m -> wp P m (fun _ => P) s2) as Hq.
  { intros A m Hm. unfold wp. specialize (Hm s2). destruct HP as [H1 H2].
    assert (P (m s2).2) as HPm by (split; [eapply st_quiet; eauto|now rewrite Hm]). now destruct (m s2) as [[e|x] s3]. }
  apply Hq. destruct (cr_Confirmed record); solve_quiet.
Qed.

Lemma wp_onLeaseExpired s c r :
  J s -> clientsByID (sm_tab s) !! c = Some r ->
  let P := fun s => J s /\ clean c r (abs s) in wp P (onLeaseExpired c) (fun _ => P) s.
Proof.
  intros Hs Hc P. destruct (wf_client _ _ _ _ (st_wf _ _ HJ s Hs) c r Hc) as (cr & Hcr & _).
  cbn in Hcr. rewrite lookup_fmap in Hcr. destruct (h_clients (sm_heap s) !! r) as [record|] eqn:Hr; [|done].
  unfold onLeaseExpired. do 2 wp1. rewrite Hc. wp1. apply wp_deref_some with record; [done|]. wp1.
  apply wp_total; [solve_quiet|apply total_modify|]. intros _ s1 E1. wp1. apply weaken_never.
  eapply wp_mono; [eapply wp_release_client; eauto|]. intros ? s2 Hg. wp1.
  apply wp_total; [solve_quiet|apply total_modify|]. intros _ s3 E3.
  eapply wp_forget; eauto. eapply released_quiet; eauto.
Qed.

Lemma keep_onLeaseExpired c : keep J (onLeaseExpired c).
Proof.
  intros s Hs. destruct (clientsByID (sm_tab s) !! c) as [r|] eqn:Hc.
  - pose proof (wp_onLeaseExpired s c r Hs Hc) as H. unfold wp in *. destruct (onLeaseExpired c s) as [[e|a] s']; apply H.
  - unfold onLeaseExpired. do 2 wp1. rewrite Hc. now apply wp_ret.
Qed.

Lemma keep_leaseTimer now p : keep J (leaseTimer now p).
Proof.
  unfold leaseTimer. apply keep_bind; [now apply (keep_quiet strict), quiet_deref|]. intros record.
  destruct (cr_Lease record) as [l|]; [destruct (lease_fires now l)|];
    [apply keep_onLeaseExpired|now apply (keep_quiet strict)..].
Qed.

Lemma wp_EvictV40Client s c r :
  J s -> clientsByID (sm_tab s) !! c = Some r ->
  let P := fun s => J s /\ clean c r (abs s) in wp P (EvictV40Client c) (fun _ => P) s.
Proof.
  intros Hs Hc P. destruct (wf_client _ _ _ _ (st_wf _ _ HJ s Hs) c r Hc) as (cr & Hcr & _).
  cbn in Hcr. rewrite lookup_fmap in Hcr. destruct (h_clients (sm_heap s) !! r) as [record|] eqn:Hr; [|done].
  unfold EvictV40Client. do 3 wp1. rewrite Hc. apply wp_need; [done|]. intros ? [= <-]. wp1. apply wp_deref_some with record; [done|]. wp1.
  apply wp_total; [solve_quiet|apply total_modify|]. intros _ s1 E1. wp1.
  apply wp_total; [solve_quiet|apply total_modify|]. intros _ s2 E2. wp1. apply weaken_never.
  eapply wp_mono; [eapply wp_release_client; eauto; congruence|]. intros ? s3 Hg. eapply wp_forget; eauto.
Qed.

Lemma keep_EvictV40Client c : keep J (EvictV40Client c).
Proof.
  intros s Hs. destruct (clientsByID (sm_tab s) !! c) as [r|] eqn:Hc.
  - pose proof (wp_EvictV40Client s c r Hs Hc) as H. unfold wp in *. destruct (EvictV40Client c s) as [[e|a] s']; apply H.
  - unfold EvictV40Client. do 3 wp1. rewrite Hc. now apply wp_throw.
Qed.
End Expiry.
