(* ===== verification/Nfs4Reach.v ===== *)
(** * NFSv4 state: what holds after any sequence of requests

    The requests of clients, the timers and the other protocols that share the
    lock managers, in any order, from a new state manager.  The last part is about
    the counters: client IDs are handed out by SETCLIENTID alone, one at a time; the
    numbers of random draws only grow.  NFSv4.1 registrations share both. *)

From S2P Require Import Prelude.
From S2P Require Import SlotTable.
From S2P Require Import LockTypes.
From S2P Require Import LockManager.
From S2P Require Import Nfs4Grace.
From S2P Require Import Nfs4Types.
From S2P Require Import Nfs4State.
From S2P Require Import Nfs4Locks.
From S2P Require Import Nfs4Deleg.
From S2P Require Import Nfs4Wp.
From S2P Require Import Nfs4Abs.
From S2P Require Import Nfs4Quiet.
From S2P Require Import Nfs4Refine.
From S2P Require Import Nfs4Expiry.

(** ** The state manager and its requests *)

Definition emptyHeap : Heap := mkHeap ∅ ∅ ∅ ∅ ∅ ∅ 0%nat.
Definition emptyTables : Tables := mkTables ∅ ∅ ∅ ∅ ∅ ∅ ∅ ∅ ∅.

(** [lms] and [recovery]: the lock managers of the shares and the store of client
    records, which are set after construction; [epoch] is the time of the start. *)
Definition NewStateManager (lms : gmap string Manager) (recovery : option (gmap string V4ClientRecoveryRecord))
    (serverEpoch epoch leaseDuration graceDuration : Z) : StateManager :=
  let lease := if leaseDuration <=? 0 then DefaultLeaseDuration else leaseDuration in
  mkSM emptyHeap emptyTables (mkDelegTables ∅ ∅ ∅ ∅ ∅ RecentlyRecalledTTL true 0) lms (u32 epoch) 0 0 lease
    (if 0 <? graceDuration then graceDuration else lease) None recovery serverEpoch ∅ 0 [].

Inductive Request :=
  | RSetClientID (now : Z) (idStr : string) (verifier : bytes) (cb : CallbackInfo) (addr principal : string)
  | RConfirmClientID (now clientID : Z) (confirmVerifier : bytes)
  | RCBNullDone (clientID : Z) (record : ptr) (ok : bool)
  | RRemoveClient (clientID : Z)
  | RRenew (now clientID : Z)
  | ROpen (clientID : Z) (owner : string) (seqid : Z) (file : string) (access deny claim : Z)
  | ROpenConfirm (stateid : Stateid4) (seqid : Z)
  | ROpenConfirmV41 (stateid : Stateid4)
  | RClose (stateid : Stateid4) (seqid : Z)
  | RDowngrade (stateid : Stateid4) (seqid access deny : Z)
  | RCacheOpen (clientID : Z) (owner : string) (status : Z) (data : bytes)
  | RLockNew (now clientID : Z) (owner : string) (lockSeqid : Z) (openStateid : Stateid4) (openSeqid : Z)
      (file : string) (lockType offset len : Z) (reclaim : bool)
  | RLockExisting (now : Z) (stateid : Stateid4) (seqid lockType offset len : Z) (reclaim : bool)
  | RUnlock (stateid : Stateid4) (seqid lockType offset len : Z)
  | RCacheLock (clientID : Z) (owner : string) (status : Z) (data : bytes)
  | RReleaseLockOwner (clientID : Z) (owner : string)
  | RValidate (now : Z) (stateid : Stateid4) (currentFH : string) (op : StateidOp)
  | RFreeStateid (clientID : Z) (stateid : Stateid4)
  | RGrantDelegation (now : Z) (recentlyBroken : bool) (clientID : Z) (file : string) (delegType : Z)
  | RCheckDelegation (now : Z) (file : string) (clientID access : Z)
  | RRecallSent (deleg : ptr)
  | RRecallTimer (now : Z) (deleg : ptr)
  | RReturnDelegation (stateid : Stateid4)
  | RLeaseTimer (now : Z) (record : ptr)
  | REvict (clientID : Z)
  | RLoadRecovery (now : Z)
  | RGraceEnds
  | RLocksChange (lms : gmap string Manager).

Ltac requests_quiet :=
  first [apply quiet_cbNull | apply quiet_RenewLease | apply quiet_ConfirmOpen | apply quiet_ConfirmOpenV41
    | apply quiet_CacheOpenOwnerResult | apply quiet_LockExisting | apply quiet_UnlockFile
    | apply quiet_CacheLockOwnerResult | apply quiet_ValidateStateid | apply quiet_CheckDelegationConflict
    | apply quiet_load | unfold startRevocationTimer, recallTimer; solve_quiet; apply quiet_RevokeDelegation
    | unfold startRevocationTimer; solve_quiet].

Section Requests.
Context `{L : Nfs4Lib}.

Definition ignore {A} (m : Op A) : Op unit := m;; mret tt.

Definition perform (r : Request) : Op unit :=
  match r with
  | RSetClientID now i v cb a p => ignore (SetClientID now i v cb a p)
  | RConfirmClientID now c v => ConfirmClientID now c v
  | RCBNullDone c p ok => cbNullDone c p ok
  | RRemoveClient c => RemoveClient c
  | RRenew now c => RenewLease now c
  | ROpen c o q f a d claim => ignore (OpenFile c o q f a d claim)
  | ROpenConfirm s q => ignore (ConfirmOpen s q)
  | ROpenConfirmV41 s => ConfirmOpenV41 s
  | RClose s q => ignore (CloseFile s q)
  | RDowngrade s q a d => ignore (DowngradeOpen s q a d)
  | RCacheOpen c o st b => CacheOpenOwnerResult c o st b
  | RLockNew now c o lq os oq f t off len r => ignore (LockNew now c o lq os oq f t off len r)
  | RLockExisting now s q t off len r => ignore (LockExisting now s q t off len r)
  | RUnlock s q t off len => ignore (UnlockFile s q t off len)
  | RCacheLock c o st b => CacheLockOwnerResult c o st b
  | RReleaseLockOwner c o => ReleaseLockOwner c o
  | RValidate now s f o => ignore (ValidateStateid now s f o)
  | RFreeStateid c s => FreeStateid c s
  | RGrantDelegation now b c f t => ignore (GrantDelegation now b c f t)
  | RCheckDelegation now f c a => ignore (CheckDelegationConflict now f c a)
  | RRecallSent p => startRevocationTimer p
  | RRecallTimer now p => recallTimer now p
  | RReturnDelegation s => ReturnDelegation s
  | RLeaseTimer now p => leaseTimer now p
  | REvict c => EvictV40Client c
  | RLoadRecovery now => ignore (LoadClientRecovery now)
  | RGraceEnds => op_modify (with_grace None)
  | RLocksChange lms => op_modify (with_lms lms)
  end.

(** Whether a request overrides share reservations: a reclaim after a restart. *)
Definition reclaims (r : Request) : bool :=
  match r with ROpen _ _ _ _ _ _ claim => claim =? CLAIM_PREVIOUS | _ => false end.

(** Requests one after the other; a failed one leaves its partial effects. *)
Definition run (rs : list Request) (s : StateManager) : StateManager := fold_left (fun s r => (perform r s).2) rs s.

(** ** Each request is a sequence of transitions *)

(** [s] was reached from [a] with at most [m] stateids issued. *)
Definition reached (strict : bool) (a : Abs) (m : Z) (s : StateManager) : Prop :=
  asteps strict a (abs s) /\ 0 <= sm_nextStateSeq s <= m.

Lemma reached_stable strict a m : a_wf a -> stable strict (reached strict a m).
Proof.
  intros Hw. split.
  - intros s [H _]. now apply (asteps_inv _ _ _ H).
  - intros s s' E [H Hn]. pose proof (f_equal a_seq E) as En. cbn in En. split; [now rewrite E|lia].
  - intros s s' Hst En [H Hn]. split; [eapply rtc_r; eauto|lia].
Qed.

Lemma reached_more strict a m s s' :
  reached strict a m s -> astep strict (abs s) (abs s') -> sm_nextStateSeq s' = sm_nextStateSeq s + 1 -> reached strict a (m + 1) s'.
Proof. intros [H Hn] Hst En. split; [eapply rtc_r; eauto|lia]. Qed.

Lemma reached_weak strict a m s : reached strict a m s -> reached strict a (m + 1) s.
Proof. intros [H Hn]. split; [done|lia]. Qed.

Lemma reached_cap strict a m s : m + 1 < 2 ^ 64 -> reached strict a m s -> 0 <= sm_nextStateSeq s /\ sm_nextStateSeq s + 1 < 2 ^ 64.
Proof. intros Hm [_ Hn]. lia. Qed.

Lemma wp_ignore {A} (J : StateManager -> Prop) (m : Op A) s : wp J m (fun _ => J) s -> wp J (ignore m) (fun _ => J) s.
Proof. intros H. unfold ignore. wp1. eapply wp_mono; [exact H|]. done. Qed.

Lemma perform_reached strict a m r s :
  a_wf a -> m + 1 < 2 ^ 64 -> (strict = true -> reclaims r = false) -> reached strict a m s ->
  wp (reached strict a (m + 1)) (perform r) (fun _ => reached strict a (m + 1)) s.
Proof.
  intros Hw Hm Hr Hs. pose proof (reached_stable strict a m Hw) as HJ. pose proof (reached_stable strict a (m + 1) Hw) as HJ1.
  pose proof (reached_weak _ _ _ _ Hs) as Hs1. assert (forall s, reached strict a m s -> 0 <= sm_nextStateSeq s /\ sm_nextStateSeq s + 1 < 2 ^ 64) as Hcap
    by (intros s'; now apply reached_cap).
  destruct r; cbn [perform]; try apply wp_ignore;
    try (apply (keep_quiet strict); [exact HJ1|requests_quiet|exact Hs1]; fail).
  - now apply (keep_SetClientID strict).
  - now apply (keep_ConfirmClientID strict).
  - now apply (keep_RemoveClient strict).
  - apply (wp_OpenFile strict _ _ HJ HJ1 (reached_more strict a m) (reached_weak strict a m) Hcap); [|exact Hs].
    intros Ht. apply Hr in Ht. cbn in Ht. now apply Z.eqb_neq.
  - now apply (keep_CloseFile strict).
  - now apply (keep_DowngradeOpen strict).
  - now apply (wp_LockNew strict _ _ HJ HJ1 (reached_more strict a m) (reached_weak strict a m) Hcap).
  - now apply (keep_ReleaseLockOwner strict).
  - now apply (keep_FreeStateid strict).
  - now apply (wp_GrantDelegation strict _ _ HJ HJ1 (reached_more strict a m) (reached_weak strict a m) Hcap).
  - now apply (keep_ReturnDelegation strict).
  - now apply (keep_leaseTimer strict).
  - now apply (keep_EvictV40Client strict).
Qed.

(** After any requests, the abstract machine has made its transitions. *)
Lemma run_reached strict a rs : forall m s,
  a_wf a -> m + Z.of_nat (length rs) < 2 ^ 64 -> (strict = true -> Forall (fun r => reclaims r = false) rs) ->
  reached strict a m s -> reached strict a (m + Z.of_nat (length rs)) (run rs s).
Proof.
  induction rs as [|r rs IH]; intros m s Hw Hm Hr Hs; cbn [run fold_left length] in *.
  - now replace (m + Z.of_nat 0) with m by lia.
  - replace (m + Z.of_nat (S (length rs))) with ((m + 1) + Z.of_nat (length rs)) by lia.
    apply IH; [done|lia| |].
    + intros Ht. apply Hr in Ht. now inversion Ht.
    + assert (wp (reached strict a (m + 1)) (perform r) (fun _ => reached strict a (m + 1)) s) as H.
      { apply perform_reached; auto; [lia|]. intros Ht. apply Hr in Ht. now inversion Ht. }
      unfold wp in H. now destruct (perform r s) as [[e|x] s'].
Qed.

(** ** A new state manager *)

Section New.
Variables (lms : gmap string Manager) (recovery : option (gmap string V4ClientRecoveryRecord)).
Variables (serverEpoch epoch lease grace : Z).
Let s0 := NewStateManager lms recovery serverEpoch epoch lease grace.

Lemma new_wf : a_wf (abs s0).
Proof.
  unfold a_wf, abs, shape. cbn. rewrite !fmap_empty. split; cbn; try (intros *; rewrite lookup_empty; done).
  - intros f p. unfold on_file. cbn. rewrite lookup_empty. cbn. split; [set_solver|]. intros (o & os & H & _). now rewrite lookup_empty in H.
Qed.

Lemma new_share : a_share (abs s0).
Proof. intros p1 p2 os1 os2 oo1 oo2 f H. unfold on_file in H. cbn in H. rewrite lookup_empty in H. cbn in H. set_solver. Qed.

Lemma new_reached strict : reached strict (abs s0) 0 s0.
Proof. split; [apply rtc_refl|cbn; lia]. Qed.
End New.

(** ** What holds after any requests *)

Section After.
Variables (lms : gmap string Manager) (recovery : option (gmap string V4ClientRecoveryRecord)).
Variables (serverEpoch epoch lease grace : Z).
Variable rs : list Request.
Let s := run rs (NewStateManager lms recovery serverEpoch epoch lease grace).
Hypothesis Hlen : Z.of_nat (length rs) < 2 ^ 64.

Lemma run_wf : a_wf (abs s).
Proof.
  assert (reached false (abs (NewStateManager lms recovery serverEpoch epoch lease grace)) (0 + Z.of_nat (length rs)) s) as [H _].
  { apply run_reached; [apply new_wf|lia|done|apply new_reached]. }
  apply (asteps_inv _ _ _ H), new_wf.
Qed.

Lemma run_share : Forall (fun r => reclaims r = false) rs -> a_share (abs s).
Proof.
  intros Hr. assert (reached true (abs (NewStateManager lms recovery serverEpoch epoch lease grace)) (0 + Z.of_nat (length rs)) s) as [H _].
  { apply run_reached; [apply new_wf|lia|done|apply new_reached]. }
  apply (asteps_inv _ _ _ H); [apply new_wf|done|apply new_share].
Qed.

Lemma run_seq : 0 <= sm_nextStateSeq s.
Proof.
  assert (reached false (abs (NewStateManager lms recovery serverEpoch epoch lease grace)) (0 + Z.of_nat (length rs)) s) as [_ [H _]].
  { apply run_reached; [apply new_wf|lia|done|apply new_reached]. }
  exact H.
Qed.
End After.
End Requests.

(** C13: the tables of opens, open owners, lock states and clients by ID of the NFSv4
    state manager agree after any sequence of requests and timers (fewer than 2^64):
    every open in the table by stateid is in the index of its file and in the list
    of its owner, which is live, and the other way round; every lock state is in the
    list of its open and the other way round; every live owner whose record is the
    registered one of its client is in that record; the stateids of opens and locks
    were issued by this server incarnation and are unique; the pointers in these
    tables, and in those of lock owners and of delegations by stateid, lead to
    objects.  The tables of clients by name, of closed owners and of delegations by
    file are not part of the claim. *)
Theorem tables_agree `{L : Nfs4Lib} (lms : gmap string Manager) (recovery : option (gmap string V4ClientRecoveryRecord))
    (serverEpoch epoch lease grace : Z) (rs : list Request) :
  Z.of_nat (length rs) < 2 ^ 64 ->
  a_wf (abs (run rs (NewStateManager lms recovery serverEpoch epoch lease grace))).
Proof. apply run_wf. Qed.

(** C11: as long as no OPEN reclaims an open from before a restart (CLAIM_PREVIOUS,
    which the server exempts from the check), share reservations are honoured at all
    times: whatever the other requests and timers (fewer than 2^64), two opens of one
    file by different owners never have one denying what the other was granted. *)
Theorem share_reservations `{L : Nfs4Lib} (lms : gmap string Manager)
    (recovery : option (gmap string V4ClientRecoveryRecord)) (serverEpoch epoch lease grace : Z) (rs : list Request)
    (o1 o2 : Other) (p1 p2 : ptr) (os1 os2 : OpenState) (oo1 oo2 : OpenOwner) :
  Z.of_nat (length rs) < 2 ^ 64 -> Forall (fun r => reclaims r = false) rs ->
  let s := run rs (NewStateManager lms recovery serverEpoch epoch lease grace) in
  openStateByOther (sm_tab s) !! o1 = Some p1 -> openStateByOther (sm_tab s) !! o2 = Some p2 ->
  h_opens (sm_heap s) !! p1 = Some os1 -> h_opens (sm_heap s) !! p2 = Some os2 ->
  h_owners (sm_heap s) !! os_Owner os1 = Some oo1 -> h_owners (sm_heap s) !! os_Owner os2 = Some oo2 ->
  os_FileHandle os1 = os_FileHandle os2 ->
  (oo_ClientID oo1, oo_OwnerData oo1) <> (oo_ClientID oo2, oo_OwnerData oo2) ->
  os_ShareAccess os1 .& os_ShareDeny os2 = 0.
Proof.
  intros Hlen Hr s H1 H2 E1 E2 O1 O2 Ef Hne.
  pose proof (run_wf lms recovery serverEpoch epoch lease grace rs Hlen) as Hw. fold s in Hw.
  assert (has (os_ShareAccess os1) (os_ShareDeny os2) = false) as H.
  { apply (run_share lms recovery serverEpoch epoch lease grace rs Hlen Hr p1 p2 (open_of os1) (open_of os2) (owner_of oo1) (owner_of oo2)
      (os_FileHandle os1)); fold s; try (now apply abs_open) || (now apply abs_owner).
    - apply (wf_file _ _ _ _ Hw). exists o1, (open_of os1). split_and!; [done|now apply abs_open|done].
    - apply (wf_file _ _ _ _ Hw). exists o2, (open_of os2). split_and!; [done|now apply abs_open|done].
    - intros [Ec Ed]%makeOwnerKey_inj. cbn in Ec, Ed. congruence. }
  unfold has in H. now apply negb_false_iff, Z.eqb_eq in H.
Qed.

(** C22: when the lease of a client runs out, whatever happened before (fewer than
    2^64 requests), the client ID is unknown, no delegation of it is left in the table,
    and no open and no lock state is left whose open owner was registered under the
    expired client record.  (Owners that an earlier record of the same client ID left
    behind are not released with it, see [reboot_leaks_opens].) *)
Theorem expiry_releases `{L : Nfs4Lib} (lms : gmap string Manager)
    (recovery : option (gmap string V4ClientRecoveryRecord)) (serverEpoch epoch lease grace : Z) (rs : list Request)
    (c : Z) (r : ptr) :
  Z.of_nat (length rs) < 2 ^ 64 ->
  let s := run rs (NewStateManager lms recovery serverEpoch epoch lease grace) in
  clientsByID (sm_tab s) !! c = Some r ->
  let s' := (onLeaseExpired c s).2 in
  clientsByID (sm_tab s') !! c = None /\
  (forall o p os oo, openStateByOther (sm_tab s') !! o = Some p -> h_opens (sm_heap s') !! p = Some os ->
     h_owners (sm_heap s') !! os_Owner os = Some oo -> oo_ClientID oo = c -> oo_ClientRecord oo <> Some r) /\
  (forall o lp ls os oo, lockStateByOther (sm_tab s') !! o = Some lp -> h_locks (sm_heap s') !! lp = Some ls ->
     h_opens (sm_heap s') !! ls_OpenState ls = Some os -> h_owners (sm_heap s') !! os_Owner os = Some oo ->
     oo_ClientID oo = c -> oo_ClientRecord oo <> Some r) /\
  (forall o p d, delegByOther (sm_del s') !! o = Some p -> h_delegs (sm_heap s') !! p = Some d -> ds_ClientID d <> c).
Proof.
  intros Hlen s Hc s'. pose proof (run_wf lms recovery serverEpoch epoch lease grace rs Hlen) as Hw. fold s in Hw.
  assert (clean c r (abs s')) as [K1 K2 K3 K4].
  { pose proof (wp_onLeaseExpired false _ (reached_stable false (abs s) (sm_nextStateSeq s) Hw) s c r) as H. unfold wp in H.
    unfold s'. assert (reached false (abs s) (sm_nextStateSeq s) s) as Hs.
    { split; [apply rtc_refl|]. pose proof (run_seq lms recovery serverEpoch epoch lease grace rs Hlen). fold s in H0. lia. }
    specialize (H Hs Hc). destruct (onLeaseExpired c s) as [[e|x] s2]; apply H. }
  split_and!.
  - exact K1.
  - intros o p os oo Ho Hos%abs_open Hoo%abs_owner. exact (K2 o p _ _ Ho Hos Hoo).
  - intros o lp ls os oo Ho Hls%abs_lock Hos%abs_open Hoo%abs_owner. exact (K3 o lp _ _ _ Ho Hls Hos Hoo).
  - intros o p d Ho Hd Ec. apply (K4 o p Ho). cbn. now rewrite lookup_fmap, Hd, <- Ec.
Qed.

(** ** A run

    Two clients, one file: the first opens it for reading and denies writing, locks
    a range and gets a delegation; the second is refused for writing and opens it
    for reading. *)

Definition demo_lib : Nfs4Lib := {|
  share_of := fun _ => Some "/export"%string;
  random := fun n => [Z.of_nat n];
  uuids := fun n i => "u"%string;
  drained := fun _ _ m => Some m;
|}.

Definition demo_cb : CallbackInfo := mkCallback 0 "tcp" "".
Definition demo_id (n : Z) : Z := Z.shiftl 7 32 .| n.
Definition demo_sid (n : Z) : Stateid4 := mkStateid 1 (stateid_other StateTypeOpen 7 n).

Definition demo_clients : list Request :=
  [RSetClientID 10 "alice" [1] demo_cb "" ""; RConfirmClientID 11 (demo_id 1) [0];
   RSetClientID 12 "bob" [2] demo_cb "" ""; RConfirmClientID 13 (demo_id 2) [1]].

Definition demo_rs : list Request :=
  demo_clients ++
  [ROpen (demo_id 1) "o1" 1 "f" 1 2 CLAIM_NULL;
   RLockNew 14 (demo_id 1) "lk" 1 (demo_sid 1) 2 "f" READ_LT 0 10 false;
   RGrantDelegation 15 false (demo_id 1) "g" OPEN_DELEGATE_READ;
   ROpen (demo_id 2) "o3" 1 "f" 2 0 CLAIM_NULL;
   ROpen (demo_id 2) "o2" 1 "f" 1 0 CLAIM_NULL].

Definition demo_new : StateManager := NewStateManager {["/export"%string := newBaseManager]} None 0 7 0 0.
Definition demo_state : StateManager := @run demo_lib demo_rs demo_new.

(** The objects of the table of opens. *)
Definition open_at (s : StateManager) (o : Other) : option OpenState := openStateByOther (sm_tab s) !! o ≫= fun p => h_opens (sm_heap s) !! p.

(** The objects the run leaves. *)
Definition demo_os (n : Z) : OpenState := default (mkOpenState zeroStateid 0 "" 0 0 false []) (open_at demo_state (stateid_other StateTypeOpen 7 n)).
Definition demo_oo (n : Z) : OpenOwner :=
  default (mkOpenOwner 0 "" 0 None false [] None) (h_owners (sm_heap demo_state) !! os_Owner (demo_os n)).

Lemma tables_agree_witness : a_wf (abs demo_state).
Proof. apply (@tables_agree demo_lib {["/export"%string := newBaseManager]} None 0 7 0 0 demo_rs). vm_compute. reflexivity. Defined.

Lemma share_reservations_witness : os_ShareAccess (demo_os 4) .& os_ShareDeny (demo_os 1) = 0 /\ os_ShareDeny (demo_os 1) = 2.
Proof.
  split; [|vm_compute; reflexivity].
  apply (@share_reservations demo_lib {["/export"%string := newBaseManager]} None 0 7 0 0 demo_rs
    (stateid_other StateTypeOpen 7 4) (stateid_other StateTypeOpen 7 1) 9 3 (demo_os 4) (demo_os 1) (demo_oo 4) (demo_oo 1));
    try (vm_compute; reflexivity).
  - repeat constructor.
  - vm_compute. discriminate.
Defined.

Lemma expiry_releases_witness : clientsByID (sm_tab (@onLeaseExpired demo_lib (demo_id 1) demo_state).2) !! demo_id 1 = None.
Proof.
  apply (@expiry_releases demo_lib {["/export"%string := newBaseManager]} None 0 7 0 0 demo_rs (demo_id 1) 0); vm_compute; reflexivity.
Defined.

(** The open, the lock and the delegation of the expired client are gone, and the
    open that was refused succeeds now. *)
Example demo_expiry :
  let s := (@onLeaseExpired demo_lib (demo_id 1) demo_state).2 in
  (map_to_list (openStateByOther (sm_tab s))).*1 = [stateid_other StateTypeOpen 7 4] /\
  map_to_list (lockStateByOther (sm_tab s)) = [] /\ map_to_list (delegByOther (sm_del s)) = [] /\
  (@perform demo_lib (ROpen (demo_id 2) "o4" 1 "f" 2 0 CLAIM_NULL) s).1 = inr tt /\
  (@perform demo_lib (ROpen (demo_id 2) "o4" 1 "f" 2 0 CLAIM_NULL) demo_state).1 = inl (NFS4StateError NFS4ERR_SHARE_DENIED).
Proof. vm_compute. done. Qed.

(** No client ID is handed out. *)
Definition steady {A} (m : Op A) : Prop := forall s,
  sm_nextClientSeq (m s).2 = sm_nextClientSeq s /\ sm_bootEpoch (m s).2 = sm_bootEpoch s /\
  sm_leaseDuration (m s).2 = sm_leaseDuration s /\ (sm_calls s <= sm_calls (m s).2)%nat.

(** At most one is. *)
Definition registers {A} (m : Op A) : Prop := forall s,
  (sm_nextClientSeq (m s).2 = sm_nextClientSeq s \/ sm_nextClientSeq (m s).2 = u32 (sm_nextClientSeq s + 1)) /\
  sm_bootEpoch (m s).2 = sm_bootEpoch s /\ sm_leaseDuration (m s).2 = sm_leaseDuration s /\
  (sm_calls s <= sm_calls (m s).2)%nat.

Lemma steady_ret {A} (a : A) : steady (mret a).
Proof. done. Qed.
Lemma steady_throw {A} e : steady (@op_throw A e).
Proof. done. Qed.
Lemma steady_gets {A} (f : StateManager -> A) : steady (op_gets f).
Proof. done. Qed.
Lemma steady_check ok e : steady (op_check ok e).
Proof. now destruct ok. Qed.
Lemma steady_need {A} (o : option A) e : steady (op_need o e).
Proof. now destruct o. Qed.
Lemma steady_deref {A} (sel : Heap -> gmap ptr A) p : steady (deref sel p).
Proof. intros s. unfold deref. now destruct (sel (sm_heap s) !! p). Qed.
Lemma steady_new {A} (sel : Heap -> gmap ptr A) set x : steady (new_obj sel set x).
Proof. done. Qed.
Lemma steady_heap f : steady (heap_mod f).
Proof. done. Qed.
Lemma steady_tab f : steady (tab_mod f).
Proof. done. Qed.
Lemma steady_del f : steady (del_mod f).
Proof. done. Qed.
Lemma steady_next_call : steady next_call.
Proof. intros s. cbn. split_and!; try done. lia. Qed.
Lemma steady_stateid t : steady (generateStateidOther t).
Proof. done. Qed.
Lemma steady_persist now c i b p : steady (persistClientRecoveryLocked now c i b p).
Proof. intros s. unfold persistClientRecoveryLocked, op_modify. cbn. now destruct (sm_recovery s). Qed.
Lemma steady_bind {A B} (m : Op A) (k : A -> Op B) : steady m -> (forall a, steady (k a)) -> steady (m ≫= k).
Proof.
  intros Hm Hk s. unfold mbind, Op_bind. destruct (Hm s) as (H1 & H2 & H2' & H3). destruct (m s) as [[e|a] s']; cbn in *; [done|].
  destruct (Hk a s') as (? & ? & ? & ?). split_and!; [congruence|congruence|congruence|lia].
Qed.
Lemma steady_forM {A} (l : list A) f : (forall a, steady (f a)) -> steady (op_forM l f).
Proof. intros H. induction l as [|a l IH]; [done|]. cbn [op_forM]. now apply steady_bind. Qed.

Lemma registers_steady {A} (m : Op A) : steady m -> registers m.
Proof. intros H s. destruct (H s) as (? & ? & ? & ?). auto. Qed.
Lemma registers_first {A B} (m : Op A) (k : A -> Op B) : registers m -> (forall a, steady (k a)) -> registers (m ≫= k).
Proof.
  intros Hm Hk s. unfold mbind, Op_bind. destruct (Hm s) as (H1 & H2 & H2' & H3). destruct (m s) as [[e|a] s']; cbn in *; [auto|].
  destruct (Hk a s') as (-> & -> & -> & ?). split_and!; [done|done|done|lia].
Qed.
Lemma registers_then {A B} (m : Op A) (k : A -> Op B) : steady m -> (forall a, registers (k a)) -> registers (m ≫= k).
Proof.
  intros Hm Hk s. unfold mbind, Op_bind. destruct (Hm s) as (H1 & H2 & H2' & H3). destruct (m s) as [[e|a] s']; cbn in *.
  { auto. }
  destruct (Hk a s') as (H & -> & -> & ?). rewrite H1 in H. split_and!; [done|done|done|lia].
Qed.
Lemma registers_client : registers generateClientID.
Proof. intros s. cbn. auto. Qed.

Create HintDb steady discriminated.
#[export] Hint Resolve steady_ret steady_throw steady_gets steady_check steady_need steady_deref steady_new steady_heap
  steady_tab steady_del steady_next_call steady_stateid steady_persist : steady.

(** Runs through the body of an operation, opening the operations it calls. *)
Ltac head_of t := lazymatch t with ?f _ => head_of f | _ => t end.
Ltac steady1 :=
  lazymatch goal with
  | |- steady (_ ≫= _) => apply steady_bind; [|intros ?]
  | |- steady (op_forM _ _) => apply steady_forM; intros ?
  | |- steady (op_modify _) => intros ?; cbn; repeat case_match; done
  | |- steady (match ?x with _ => _ end) => destruct x
  | |- steady (let _ := _ in _) => cbv zeta
  | |- steady ?m => let h := head_of m in unfold h
  end.
Ltac solve_steady := intros; repeat first [solve [auto with steady] | steady1].

Section Counters.
Context `{L : Nfs4Lib}.

Lemma steady_register now i v cb a p : registers (register_unconfirmed now i v cb a p).
Proof. unfold register_unconfirmed. apply registers_first; [apply registers_client|]. solve_steady. Qed.

Lemma steady_recall now c a l : steady (recall_loop now c a l).
Proof. induction l as [|p l IH]; [done|]. cbn [recall_loop]. solve_steady. Qed.
#[local] Hint Resolve steady_recall : steady.

Lemma registers_SetClientID now i v cb a p : registers (SetClientID now i v cb a p).
Proof.
  unfold SetClientID. repeat lazymatch goal with
  | |- registers (register_unconfirmed _ _ _ _ _ _) => apply steady_register
  | |- registers (_ ≫= _) => apply registers_then; [solve_steady|intros ?]
  | |- registers (match ?x with _ => _ end) => destruct x
  | |- registers ?m => first [apply registers_steady; solve_steady; fail | let h := head_of m in unfold h]
  end.
Qed.

Lemma perform_registers r : registers (perform r).
Proof.
  destruct r; cbn [perform]; try (apply registers_steady; solve_steady; fail).
  unfold ignore. apply registers_first; [apply registers_SetClientID|]. solve_steady.
Qed.
End Counters.
