(* ===== verification/Nfs41Facts.v ===== *)
(** * NFSv4.1 clients, sessions and connections: the tables agree

    Sessions are found by their ID and listed under their client; connections are
    found by their ID and listed under their session.  Both are a heap of objects,
    a map from identities to objects and a map from groups to lists of objects; the
    first part says when the three agree and how they are updated together.

    After any sequence of requests of both minor versions: client records are
    found by ID and by owner, sessions by ID and under their client, connections
    by ID and under their session, consistently; a session belongs to a registered
    and confirmed client. *)

From S2P Require Import Prelude.
From S2P Require Import SlotTable.
From S2P Require Import LockTypes.
From S2P Require Import LockManager.
From S2P Require Import Xdr.
From S2P Require Import Nfs4Grace.
From S2P Require Import Nfs4Types.
From S2P Require Import Nfs41Wire.
From S2P Require Import Nfs4State.
From S2P Require Import Nfs41State.
From S2P Require Import Nfs4Locks.
From S2P Require Import Nfs4Deleg.
From S2P Require Import Nfs4Wp.
From S2P Require Import Nfs4Abs.
From S2P Require Import Nfs4Quiet.
From S2P Require Import Nfs4Expiry.
From S2P Require Import Nfs4Reach.

Section Registry.
Context {A K G : Type} `{Countable K} `{Countable G}.
Variables (id : A -> K) (grp : A -> G).

Record registry_ok (Hp : gmap ptr A) (I : gmap K ptr) (C : gmap G (list ptr)) : Prop := {
  reg_id k p : I !! k = Some p ->
    exists x, Hp !! p = Some x /\ id x = k /\ p ∈ default [] (C !! grp x);
  reg_grp g l : C !! g = Some l ->
    l <> [] /\ NoDup l /\ forall p, p ∈ l -> exists x, Hp !! p = Some x /\ grp x = g /\ I !! id x = Some p;
}.

Definition has_id (k : K) (Hp : gmap ptr A) (p : ptr) : bool :=
  match Hp !! p with Some x => bool_decide (id x = k) | None => false end.

Lemma registry_empty : registry_ok ∅ ∅ ∅.
Proof. split; intros *; now rewrite lookup_empty. Qed.

Lemma registry_member Hp I C g p :
  registry_ok Hp I C -> p ∈ default [] (C !! g) -> exists x, Hp !! p = Some x /\ grp x = g /\ I !! id x = Some p.
Proof.
  intros Hr Hin. destruct (C !! g) as [l|] eqn:E; cbn in Hin; [|now apply elem_of_nil in Hin].
  now apply (reg_grp _ _ _ Hr g l E).
Qed.

Lemma registry_nodup Hp I C g : registry_ok Hp I C -> NoDup (default [] (C !! g)).
Proof. intros Hr. destruct (C !! g) as [l|] eqn:E; cbn; [|constructor]. now apply (reg_grp _ _ _ Hr g l E). Qed.

(** Objects may change as long as identities and groups stay. *)
Definition labels (Hp : gmap ptr A) : gmap ptr (K * G) := (fun x => (id x, grp x)) <$> Hp.

Lemma registry_relabel Hp Hp' I C : labels Hp' = labels Hp -> registry_ok Hp I C -> registry_ok Hp' I C.
Proof.
  intros E [Hi Hg].
  assert (forall q x, Hp !! q = Some x -> exists x', Hp' !! q = Some x' /\ id x' = id x /\ grp x' = grp x) as Hh.
  { intros q x Hq. apply (f_equal (fun m => m !! q)) in E. unfold labels in E. rewrite !lookup_fmap, Hq in E.
    destruct (Hp' !! q) as [x'|]; cbn in E; [|done]. injection E as E1 E2. eauto. }
  split.
  - intros k q Hk. destruct (Hi k q Hk) as (x & Hx & <- & Hin). destruct (Hh q x Hx) as (x' & ? & ? & E'). exists x'. now rewrite E'.
  - intros g l Hl. destruct (Hg g l Hl) as (? & ? & Hm). split_and!; [done|done|].
    intros q Hq. destruct (Hm q Hq) as (x & Hx & <- & Ei). destruct (Hh q x Hx) as (x' & ? & E1 & E2). exists x'. now rewrite E1, E2.
Qed.

Lemma labels_alter f p Hp : (forall x, id (f x) = id x /\ grp (f x) = grp x) -> labels (alter f p Hp) = labels Hp.
Proof.
  intros Hf. apply map_eq. intros q. unfold labels. rewrite !lookup_fmap. destruct (decide (p = q)) as [->|Hne].
  - rewrite lookup_alter_eq. destruct (Hp !! q) as [x|]; cbn; [|done]. now destruct (Hf x) as [-> ->].
  - now rewrite lookup_alter_ne.
Qed.

Lemma labels_none Hp Hp' p : labels Hp' = labels Hp -> Hp !! p = None -> Hp' !! p = None.
Proof.
  intros E Hn. apply (f_equal (fun m => m !! p)) in E. unfold labels in E. rewrite !lookup_fmap, Hn in E.
  now destruct (Hp' !! p).
Qed.

(** A new object, of a new identity. *)
Lemma registry_add p x Hp I C :
  Hp !! p = None -> I !! id x = None -> registry_ok Hp I C ->
  registry_ok (<[p := x]> Hp) (<[id x := p]> I) (<[grp x := default [] (C !! grp x) ++ [p]]> C).
Proof.
  intros Hfp Hfi Hr.
  assert (forall g q, q ∈ default [] (C !! g) -> q <> p) as Hne.
  { intros g q Hq ->. destruct (registry_member _ _ _ _ _ Hr Hq) as (y & Hy & _). congruence. }
  split.
  - intros k q [[<- <-]|[Hk Hq]]%lookup_insert_Some.
    + exists x. rewrite !lookup_insert_eq. cbn. split_and!; try done. set_solver.
    + destruct (reg_id _ _ _ Hr k q Hq) as (y & Hy & Ey & Hin). pose proof (Hne _ _ Hin).
      exists y. rewrite lookup_insert_ne by done. split_and!; [done|done|].
      destruct (decide (grp x = grp y)) as [E|E]; [rewrite E, lookup_insert_eq; cbn; set_solver|now rewrite lookup_insert_ne].
  - intros g l Hl.
    assert (forall q y, q <> p -> Hp !! q = Some y /\ I !! id y = Some q ->
              <[p := x]> Hp !! q = Some y /\ <[id x := p]> I !! id y = Some q) as Hold.
    { intros q y Hq [Hy Hi]. split; [now rewrite lookup_insert_ne|]. rewrite lookup_insert_ne; [done|]. intros E. congruence. }
    apply lookup_insert_Some in Hl as [[<- <-]|[Hg Hl]].
    + split_and!; [now intros ?%app_nil|apply NoDup_app; split_and!; [eapply registry_nodup; eauto| |apply NoDup_singleton]|].
      { intros q Hq. pose proof (Hne _ _ Hq). set_solver. }
      intros q [Hq|Hq]%elem_of_app.
      * destruct (registry_member _ _ _ _ _ Hr Hq) as (y & Hy & Eg & Hi). exists y.
        destruct (Hold q y (Hne _ _ Hq) (conj Hy Hi)) as [? ?]. auto.
      * apply list_elem_of_singleton in Hq as ->. exists x. now rewrite !lookup_insert_eq.
    + destruct (reg_grp _ _ _ Hr g l Hl) as (? & ? & Hm). split_and!; [done|done|].
      intros q Hq. destruct (Hm q Hq) as (y & Hy & Eg & Hi). exists y.
      assert (q <> p) as Hqp by (apply (Hne g); now rewrite Hl).
      destruct (Hold q y Hqp (conj Hy Hi)) as [? ?]. auto.
Qed.

(** Removing by a test that one member of the list passes. *)
Lemma remove_first_spec (test : ptr -> bool) l p :
  NoDup l -> p ∈ l -> (forall q, q ∈ l -> test q = true <-> q = p) ->
  NoDup (remove_first test l) /\ forall q, q ∈ remove_first test l <-> q ∈ l /\ q <> p.
Proof.
  intros Hn. induction Hn as [|x l Hx Hn IH]; [set_solver|]. intros Hp Ht. cbn.
  destruct (test x) eqn:Ex.
  - apply Ht in Ex as ->; [|set_solver]. split; [done|]. set_solver.
  - assert (x <> p) as Hxp. { intros ->. assert (test p = true) by (apply Ht; set_solver). congruence. }
    destruct IH as [IH1 IH2]; [set_solver|intros; apply Ht; set_solver|].
    split; [constructor; [rewrite IH2|]; set_solver|set_solver].
Qed.

(** An object leaves. *)
Lemma registry_remove p x Hp I C :
  Hp !! p = Some x -> I !! id x = Some p -> registry_ok Hp I C ->
  registry_ok Hp (delete (id x) I) (put_list (grp x) (remove_first (has_id (id x) Hp) (default [] (C !! grp x))) C).
Proof.
  intros Hx Hi Hr. destruct (reg_id _ _ _ Hr _ _ Hi) as (x' & Hx' & _ & Hin). replace x' with x in * by congruence.
  destruct (remove_first_spec (has_id (id x) Hp) (default [] (C !! grp x)) p) as [Hn Hm];
    [eapply registry_nodup; eauto|done| |].
  { intros q Hq. destruct (registry_member _ _ _ _ _ Hr Hq) as (y & Hy & _ & Hiy). unfold has_id. rewrite Hy, bool_decide_eq_true.
    split; intros E; [rewrite E in Hiy|subst q]; congruence. }
  set (l := remove_first _ _) in *.
  assert (forall g, default [] (put_list (grp x) l C !! g) = if decide (g = grp x) then l else default [] (C !! g)) as Hget.
  { intros g. unfold put_list. destruct (decide (g = grp x)) as [->|Hg]; destruct l; cbn;
      rewrite ?lookup_delete_eq, ?lookup_insert_eq, ?lookup_delete_ne, ?lookup_insert_ne; auto. }
  assert (forall q y, q ∈ default [] (C !! grp y) -> Hp !! q = Some y -> q <> p ->
            q ∈ default [] (put_list (grp x) l C !! grp y)) as Hkeep.
  { intros q y Hq Hy Hqp. rewrite Hget. destruct (decide (grp y = grp x)) as [E|]; [|done]. apply Hm. rewrite <- E. auto. }
  split.
  - intros k q [Hk Hq]%lookup_delete_Some. destruct (reg_id _ _ _ Hr _ _ Hq) as (y & Hy & <- & Hiny).
    exists y. split_and!; [done|done|]. apply Hkeep; auto. intros ->. congruence.
  - intros g l' Hl'. assert (l' = default [] (put_list (grp x) l C !! g)) as El by now rewrite Hl'.
    assert (forall q, q ∈ l' -> q ∈ default [] (C !! g) /\ q <> p) as Hold.
    { intros q. rewrite El, Hget. destruct (decide (g = grp x)) as [->|Hg]; [now rewrite Hm|]. intros Hq. split; [done|].
      intros ->. destruct (registry_member _ _ _ _ _ Hr Hq) as (y & Hy & Eg & _). congruence. }
    split_and!.
    + intros ->. revert Hl'. unfold put_list. destruct l; [|rewrite lookup_insert_Some; intros [[_ ?]|[_ Hl']]; [done|]].
      * intros [_ Hl']%lookup_delete_Some. now apply (reg_grp _ _ _ Hr) in Hl' as [? _].
      * now apply (reg_grp _ _ _ Hr) in Hl' as [? _].
    + rewrite El, Hget. destruct (decide (g = grp x)); [done|eapply registry_nodup; eauto].
    + intros q Hq. destruct (Hold q Hq) as [Hq' Hqp]. destruct (registry_member _ _ _ _ _ Hr Hq') as (y & Hy & Eg & Hiy).
      exists y. split_and!; [done|done|]. rewrite lookup_delete_ne; [done|]. intros E. congruence.
Qed.

(** Nothing to remove. *)
Lemma registry_absent k g Hp I C :
  I !! k = None -> registry_ok Hp I C -> put_list g (remove_first (has_id k Hp) (default [] (C !! g))) C = C.
Proof.
  intros Hk Hr. assert (remove_first (has_id k Hp) (default [] (C !! g)) = default [] (C !! g)) as ->.
  { assert (forall q, q ∈ default [] (C !! g) -> has_id k Hp q = false) as Hno.
    { intros q Hq. destruct (registry_member _ _ _ _ _ Hr Hq) as (y & Hy & _ & Hi). unfold has_id. rewrite Hy.
      apply bool_decide_eq_false. intros E. congruence. }
    induction (default [] (C !! g)) as [|q l IH]; cbn; [done|]. rewrite Hno by set_solver. f_equal. apply IH. intros; apply Hno; set_solver. }
  unfold put_list. destruct (C !! g) as [l|] eqn:E; cbn; [|now apply delete_id].
  destruct l; [now apply (reg_grp _ _ _ Hr) in E as [? _]|now apply insert_id].
Qed.

(** A whole group leaves. *)
Lemma foldr_delete_lookup (ks : list K) (I : gmap K ptr) k :
  foldr delete I ks !! k = if decide (k ∈ ks) then None else I !! k.
Proof.
  induction ks as [|a ks IH]; cbn.
  - destruct (decide (k ∈ [])); [set_solver|done].
  - destruct (decide (a = k)) as [->|Hne].
    + rewrite lookup_delete_eq. destruct (decide (k ∈ k :: ks)); [done|set_solver].
    + rewrite lookup_delete_ne, IH by done. do 2 destruct (decide _); auto; set_solver.
Qed.

(** The identities of a group's members. *)
Definition ids_of (Hp : gmap ptr A) (l : list ptr) : list K := id <$> omap (fun p => Hp !! p) l.

Lemma elem_ids_of Hp l k : k ∈ ids_of Hp l <-> exists p x, p ∈ l /\ Hp !! p = Some x /\ id x = k.
Proof using Type.
  unfold ids_of. rewrite list_elem_of_fmap. setoid_rewrite list_elem_of_omap. split.
  - intros (x & -> & p & Hin & Hx). eauto.
  - intros (p & x & Hin & Hx & <-). eauto.
Qed.

Lemma registry_drop g Hp I C :
  registry_ok Hp I C -> registry_ok Hp (foldr delete I (ids_of Hp (default [] (C !! g)))) (delete g C).
Proof.
  intros Hr. split.
  - intros k p. rewrite foldr_delete_lookup. destruct (decide _) as [|Hk]; [done|]. intros Hi.
    destruct (reg_id _ _ _ Hr _ _ Hi) as (x & Hx & <- & Hin). exists x. split_and!; [done|done|].
    rewrite lookup_delete_ne; [done|]. intros ->. apply Hk, elem_ids_of. eauto.
  - intros g' l [Hg Hl]%lookup_delete_Some. destruct (reg_grp _ _ _ Hr g' l Hl) as (? & ? & Hm). split_and!; [done|done|].
    intros p Hp'. destruct (Hm p Hp') as (x & Hx & Eg & Hi). exists x. split_and!; [done|done|].
    rewrite foldr_delete_lookup. destruct (decide _) as [Hk|]; [|done].
    apply elem_ids_of in Hk as (q & y & Hq & Hy & Ek). destruct (registry_member _ _ _ _ _ Hr Hq) as (y' & Hy' & Eg' & Hi').
    assert (y' = y) by congruence. subst y'. rewrite Ek, Hi in Hi'. assert (q = p) by congruence. subst q. congruence.
Qed.
End Registry.

(** ** Symbolic execution of [SOp] *)

Definition swp {A} (I : Server -> Prop) (m : SOp A) (Q : A -> Server -> Prop) (s : Server) : Prop :=
  match m s with (inl _, s') => I s' | (inr a, s') => Q a s' end.

Lemma swp_bind {A B} I (m : SOp A) (k : A -> SOp B) Q s :
  swp I (m ≫= k) Q s <-> swp I m (fun a => swp I (k a) Q) s.
Proof. unfold swp, mbind, SOp_bind. now destruct (m s) as [[e|a] s']. Qed.

Lemma swp_mono {A} I (m : SOp A) (Q Q' : A -> Server -> Prop) s :
  swp I m Q s -> (forall a s', Q a s' -> Q' a s') -> swp I m Q' s.
Proof. unfold swp. destruct (m s) as [[e|a] s']; auto. Qed.

Lemma swp_ret {A} I (a : A) (Q : A -> Server -> Prop) s : Q a s -> swp I (mret a) Q s.
Proof. done. Qed.
Lemma swp_throw {A} I e (Q : A -> Server -> Prop) s : I s -> swp I (s_throw e) Q s.
Proof. done. Qed.
Lemma swp_gets {A} I (f : Server -> A) (Q : A -> Server -> Prop) s : Q (f s) s -> swp I (s_gets f) Q s.
Proof. done. Qed.
Lemma swp_modify I f Q s : Q tt (f s) -> swp I (s_modify f) Q s.
Proof. done. Qed.
Lemma swp_check I ok e Q s : (ok = false -> I s) -> (ok = true -> Q tt s) -> swp I (s_check ok e) Q s.
Proof. unfold swp, s_check. destruct ok; cbn; auto. Qed.
Lemma swp_need {A} I (o : option A) e Q s : (o = None -> I s) -> (forall a, o = Some a -> Q a s) -> swp I (s_need o e) Q s.
Proof. unfold swp, s_need. destruct o; cbn; auto. Qed.
Lemma swp_deref {A} I (sel : Heap41 -> gmap ptr A) p Q s :
  I s -> (forall x, sel (sv_heap s) !! p = Some x -> Q x s) -> swp I (s_deref sel p) Q s.
Proof. unfold swp, s_deref. destruct (sel (sv_heap s) !! p); auto. Qed.
Lemma swp_new {A} I (sel : Heap41 -> gmap ptr A) (set : gmap ptr A -> Heap41 -> Heap41) x Q s :
  Q (h41_next (sv_heap s)) (with_heap41 (set_next41 (S (h41_next (sv_heap s)))
    (set (<[h41_next (sv_heap s) := x]> (sel (sv_heap s))) (sv_heap s))) s) ->
  swp I (s_new sel set x) Q s.
Proof. done. Qed.
Lemma swp_on_sm {A} I (m : Op A) (Q : A -> Server -> Prop) s :
  (forall e, (m (sv_sm s)).1 = inl e -> I (with_sm (m (sv_sm s)).2 s)) ->
  (forall a, (m (sv_sm s)).1 = inr a -> Q a (with_sm (m (sv_sm s)).2 s)) -> swp I (on_sm m) Q s.
Proof. unfold swp, on_sm. destruct (m (sv_sm s)) as [[e|a] s']; cbn; eauto. Qed.
Lemma swp_forM {A} I (f : A -> SOp unit) (J : list A -> Server -> Prop) l Q s :
  J l s -> (forall a l s, J (a :: l) s -> swp I (f a) (fun _ => J l) s) -> (forall s, J [] s -> Q tt s) ->
  swp I (s_forM l f) Q s.
Proof.
  intros Hs Hf HQ. revert s Hs. induction l as [|a l IH]; intros s Hs; cbn [s_forM]; [now apply swp_ret, HQ|].
  apply swp_bind. eapply swp_mono; [exact (Hf a l s Hs)|]. intros [] s' Hs'. now apply IH.
Qed.

Ltac swp1 :=
  lazymatch goal with
  | |- swp _ (_ ≫= _) _ _ => apply swp_bind
  | |- swp _ (s_gets _) _ _ => apply swp_gets
  | |- swp _ (mret _) _ _ => apply swp_ret
  | |- swp _ (s_throw _) _ _ => apply swp_throw
  | |- swp _ (s_modify _) _ _ => apply swp_modify
  | |- swp _ (s_new _ _ _) _ _ => apply swp_new
  | |- swp _ (s_deref _ _) _ _ => apply swp_deref; [|intros ? ?]
  | |- swp _ (s_check _ _) _ _ => apply swp_check; intros ?
  | |- swp _ (s_need _ _) _ _ => apply swp_need; [intros ?|intros ? ?]
  | |- swp _ (if ?b then _ else _) _ _ => destruct b eqn:?
  | |- swp _ (match ?x with _ => _ end) _ _ => destruct x eqn:?
  | |- swp _ (s_heap _) _ _ => unfold s_heap
  | |- swp _ (s_tab _) _ _ => unfold s_tab
  | |- swp _ (upd_v41client _ _) _ _ => unfold upd_v41client
  | |- swp _ (upd_session _ _) _ _ => unfold upd_session
  | |- swp _ (upd_conn _ _) _ _ => unfold upd_conn
  end.
Ltac swp_steps := repeat swp1.

(** ** The invariant *)

Section Facts.
Context `{L : Nfs4Lib}.

(** The abstract state the NFSv4.0 half started from. *)
Variable a0 : Abs.
Hypothesis a0_wf : a_wf a0.

(** A record: a lease and a cached reply exactly from the first session on. *)
Definition record_ok (r : V41ClientRecord) : Prop :=
  in_u32 (vc_SequenceID r) /\ (vc_Confirmed r = true <-> is_Some (vc_Lease r)) /\
  (vc_Confirmed r = true -> is_Some (vc_CachedCreateSessionRes r)) /\
  (vc_Confirmed r = false -> vc_SequenceID r = 0).

Record clients_ok (Hp : gmap ptr V41ClientRecord) (I : gmap Z ptr) (O : gmap string ptr) : Prop := {
  cl_id c p : I !! c = Some p -> exists r, Hp !! p = Some r /\ vc_ClientID r = c /\ O !! vc_OwnerID r = Some p;
  cl_owner o p : O !! o = Some p -> exists r, Hp !! p = Some r /\ vc_OwnerID r = o /\ I !! vc_ClientID r = Some p;
  cl_record p r : Hp !! p = Some r -> record_ok r;
}.

(** What the objects keep while they live. *)
Definition names (Hp : gmap ptr V41ClientRecord) : gmap ptr (Z * string) := (fun r => (vc_ClientID r, vc_OwnerID r)) <$> Hp.

Abbreviation session_registry := (registry_ok ss_SessionID ss_ClientID).
Abbreviation conn_registry := (registry_ok bc_ConnectionID bc_SessionID).

(** After [n] requests at most. *)
Record server_ok (n : Z) (s : Server) : Prop := {
  ok_clients : clients_ok (h41_clients (sv_heap s)) (v41ClientsByID (sv_tab s)) (v41ClientsByOwner (sv_tab s));
  ok_sessions : session_registry (h41_sessions (sv_heap s)) (sessionsByID (sv_tab s)) (sessionsByClientID (sv_tab s));
  ok_owned c : is_Some (sessionsByClientID (sv_tab s) !! c) ->
    exists p r, v41ClientsByID (sv_tab s) !! c = Some p /\ h41_clients (sv_heap s) !! p = Some r /\ vc_Confirmed r = true;
  ok_conns : conn_registry (h41_conns (sv_heap s)) (connByID (sv_tab s)) (connBySession (sv_tab s));
  ok_fresh p : (h41_next (sv_heap s) <= p)%nat ->
    h41_clients (sv_heap s) !! p = None /\ h41_sessions (sv_heap s) !! p = None /\ h41_conns (sv_heap s) !! p = None;
  ok_session_ids sid : is_Some (sessionsByID (sv_tab s) !! sid) -> exists k, (k < sm_calls (sv_sm s))%nat /\ sid = random k;
  ok_client_ids c : is_Some (v41ClientsByID (sv_tab s) !! c) ->
    exists k, 1 <= k <= sm_nextClientSeq (sv_sm s) /\ c = Z.shiftl (sm_bootEpoch (sv_sm s)) 32 .| k;
  ok_seq : 0 <= sm_nextClientSeq (sv_sm s) <= n;
  ok_v40 : reached false a0 n (sv_sm s);
}.

Lemma names_alter f p Hp :
  (forall r, vc_ClientID (f r) = vc_ClientID r /\ vc_OwnerID (f r) = vc_OwnerID r) -> names (alter f p Hp) = names Hp.
Proof. intros Hf. apply (labels_alter vc_ClientID vc_OwnerID f p Hp Hf). Qed.

Lemma clients_rename Hp Hp' I O :
  names Hp' = names Hp -> (forall p r, Hp' !! p = Some r -> record_ok r) -> clients_ok Hp I O -> clients_ok Hp' I O.
Proof.
  intros E Hr [H1 H2 _].
  assert (forall q x, Hp !! q = Some x -> exists x', Hp' !! q = Some x' /\ vc_ClientID x' = vc_ClientID x /\ vc_OwnerID x' = vc_OwnerID x) as Hh.
  { intros q x Hq. apply (f_equal (fun m => m !! q)) in E. unfold names in E. rewrite !lookup_fmap, Hq in E.
    destruct (Hp' !! q) as [x'|]; cbn in E; [|done]. injection E as E1 E2. eauto. }
  split; [| |done].
  - intros c p Hc. destruct (H1 c p Hc) as (r & Hr' & <- & Ho). destruct (Hh p r Hr') as (r' & ? & ? & E'). exists r'. now rewrite E'.
  - intros o p Ho. destruct (H2 o p Ho) as (r & Hr' & <- & Hc). destruct (Hh p r Hr') as (r' & ? & E' & ?). exists r'. now rewrite E'.
Qed.

(** ** What each kind of change keeps *)

(** A record changes in place. *)
Lemma ok_upd_client n p f s :
  (forall r, vc_ClientID (f r) = vc_ClientID r /\ vc_OwnerID (f r) = vc_OwnerID r) ->
  (forall r, h41_clients (sv_heap s) !! p = Some r -> record_ok r -> record_ok (f r) /\ (vc_Confirmed r = true -> vc_Confirmed (f r) = true)) ->
  server_ok n s ->
  server_ok n (with_heap41 (set_v41clients (alter f p (h41_clients (sv_heap s))) (sv_heap s)) s).
Proof.
  intros Hf Hr [H1 H2 H3 H4 H5 H6 H7 H8 H9]. split; cbn; try done.
  - apply clients_rename with (h41_clients (sv_heap s)); [now apply names_alter| |done].
    intros q r Hq. apply lookup_alter_Some in Hq as [(<- & x & Hx & ->)|[_ Hq]]; [|now apply (cl_record _ _ _ H1 q)].
    apply Hr; [done|now apply (cl_record _ _ _ H1 p)].
  - intros c Hc. destruct (H3 c Hc) as (q & r & Hq & Hr' & Hcf). destruct (decide (p = q)) as [->|Hne].
    + exists q, (f r). rewrite lookup_alter_eq, Hr'. split_and!; [done|done|].
      apply (Hr r Hr'); [now apply (cl_record _ _ _ H1 q)|done].
    + exists q, r. now rewrite lookup_alter_ne.
  - intros q Hq. destruct (H5 q Hq) as (Hn & ? & ?). split_and!; [|done|done].
    destruct (decide (p = q)) as [->|Hne]; [now rewrite lookup_alter_eq, Hn|now rewrite lookup_alter_ne].
Qed.

Lemma ok_upd_session n p f s :
  (forall x, ss_SessionID (f x) = ss_SessionID x /\ ss_ClientID (f x) = ss_ClientID x) -> server_ok n s ->
  server_ok n (with_heap41 (set_sessions (alter f p (h41_sessions (sv_heap s))) (sv_heap s)) s).
Proof.
  intros Hf [H1 H2 H3 H4 H5 H6 H7 H8 H9]. pose proof (labels_alter ss_SessionID ss_ClientID f p (h41_sessions (sv_heap s)) Hf) as E.
  split; cbn; try done.
  - now apply registry_relabel with (h41_sessions (sv_heap s)).
  - intros q Hq. destruct (H5 q Hq) as (? & Hn & ?). split_and!; [done| |done]. eapply labels_none; eauto.
Qed.

Lemma ok_upd_conn n p f s :
  (forall x, bc_ConnectionID (f x) = bc_ConnectionID x /\ bc_SessionID (f x) = bc_SessionID x) -> server_ok n s ->
  server_ok n (with_heap41 (set_conns (alter f p (h41_conns (sv_heap s))) (sv_heap s)) s).
Proof.
  intros Hf [H1 H2 H3 H4 H5 H6 H7 H8 H9]. pose proof (labels_alter bc_ConnectionID bc_SessionID f p (h41_conns (sv_heap s)) Hf) as E.
  split; cbn; try done.
  - now apply registry_relabel with (h41_conns (sv_heap s)).
  - intros q Hq. destruct (H5 q Hq) as (? & ? & Hn). split_and!; [done|done|]. eapply labels_none; eauto.
Qed.

(** The NFSv4.0 half moves. *)
Lemma ok_sm n s sm :
  sm_nextClientSeq sm = sm_nextClientSeq (sv_sm s) -> sm_bootEpoch sm = sm_bootEpoch (sv_sm s) ->
  (sm_calls (sv_sm s) <= sm_calls sm)%nat -> reached false a0 n sm -> server_ok n s -> server_ok n (with_sm sm s).
Proof.
  intros E1 E2 Hc Hv [H1 H2 H3 H4 H5 H6 H7 H8 H9]. split; cbn; try done.
  - intros sid Hs. destruct (H6 sid Hs) as (k & ? & ?). exists k. split; [lia|done].
  - intros c Hs. rewrite E1, E2. now apply H7.
  - now rewrite E1.
Qed.

Lemma reach_stable n : stable false (reached false a0 n).
Proof. now apply reached_stable. Qed.

Lemma swp_steady {A} n (m : Op A) Q s :
  steady m -> keep (reached false a0 n) m -> server_ok n s ->
  (forall a s', server_ok n s' -> sv_heap s' = sv_heap s -> sv_tab s' = sv_tab s -> Q a s') ->
  swp (server_ok n) (on_sm m) Q s.
Proof.
  intros Hm Hk Hs HQ. destruct (Hm (sv_sm s)) as (? & ? & ? & ?). specialize (Hk _ (ok_v40 _ _ Hs)). unfold wp in Hk.
  apply swp_on_sm; intros x Ex; (destruct (m (sv_sm s)) as [y s'] eqn:Em; cbn in *; subst y); [|apply HQ; [|done|done]]; now apply ok_sm.
Qed.

Lemma swp_quiet {A} n (m : Op A) Q s :
  steady m -> quiet m -> server_ok n s ->
  (forall a s', server_ok n s' -> sv_heap s' = sv_heap s -> sv_tab s' = sv_tab s -> Q a s') ->
  swp (server_ok n) (on_sm m) Q s.
Proof. intros Hm Hq. apply swp_steady; [done|]. apply (keep_quiet false); [apply reach_stable|done]. Qed.

(** ** Purging a client *)

Definition no_fault : Server -> Prop := fun _ => False.

Lemma swp_sure {A} I (m : SOp A) Q s : swp no_fault m Q s -> swp I m Q s.
Proof. unfold swp, no_fault. now destruct (m s) as [[e|a] s']. Qed.

Lemma released_start sm : a_wf (abs sm) -> released sm (fun _ => False) (fun _ => False) (fun _ => False) sm.
Proof.
  intros Hw. exists (a_idx (abs sm)). split; [done|]. split; try done; try (intros; tauto). exact (wf_file_list _ _ _ _ Hw).
Qed.

(** No client ID was handed out. *)
Definition same_counters (s s' : Server) : Prop :=
  sm_nextClientSeq (sv_sm s') = sm_nextClientSeq (sv_sm s) /\ sm_bootEpoch (sv_sm s') = sm_bootEpoch (sv_sm s) /\
  sm_leaseDuration (sv_sm s') = sm_leaseDuration (sv_sm s).

Lemma same_counters_trans s1 s2 s3 : same_counters s1 s2 -> same_counters s2 s3 -> same_counters s1 s3.
Proof. unfold same_counters. intuition congruence. Qed.

(** None of the delegations left is the client's. *)
Definition undelegated_of (c : Z) (s : Server) : Prop :=
  forall o p d, delegByOther (sm_del (sv_sm s)) !! o = Some p -> h_delegs (sm_heap (sv_sm s)) !! p = Some d -> ds_ClientID d <> c.

Lemma swp_release n b c s (Q : unit -> Server -> Prop) :
  server_ok n s ->
  (forall s', server_ok n s' -> sv_heap s' = sv_heap s -> sv_tab s' = sv_tab s ->
     same_counters s s' -> undelegated_of c s' -> Q tt s') ->
  swp no_fault (on_sm (release_delegations b c)) Q s.
Proof.
  intros Hs HQ. pose proof (st_wf _ _ (reach_stable n) _ (ok_v40 _ _ Hs)) as Hw.
  pose proof (wp_release_delegations (sv_sm s) Hw _ _ _ b c _ (released_start _ Hw)) as H1.
  pose proof (keep_release_delegations false (reached false a0 n) (reach_stable n) b c _ (ok_v40 _ _ Hs)) as H2.
  assert (steady (release_delegations b c)) as Hst by solve_steady. destruct (Hst (sv_sm s)) as (? & ? & ? & ?).
  unfold wp in H1, H2. apply swp_on_sm; intros x Ex; destruct (release_delegations b c (sv_sm s)) as [y s'] eqn:Em; cbn in *; subst y;
    [destruct H1|]. destruct x. apply HQ; [now apply ok_sm|done|done|done|].
  intros o p d Ho Hd E. cbn in Ho, Hd. destruct H1 as [_ H1]. apply (H1 o p Ho). cbn. rewrite lookup_fmap, Hd. cbn. now rewrite E.
Qed.

(** What a purge does to the tables. *)
Record purged (c : Z) (p : ptr) (s s' : Server) : Prop := {
  pu_clients : v41ClientsByID (sv_tab s') = delete c (v41ClientsByID (sv_tab s));
  pu_owner o r : h41_clients (sv_heap s) !! p = Some r -> vc_OwnerID r = o -> v41ClientsByOwner (sv_tab s') !! o = None;
  pu_records q : q <> p -> h41_clients (sv_heap s') !! q = h41_clients (sv_heap s) !! q;
  pu_lists : sessionsByClientID (sv_tab s') = delete c (sessionsByClientID (sv_tab s));
  pu_sessions sid : sessionsByID (sv_tab s') !! sid =
    if decide (sid ∈ ids_of ss_SessionID (h41_sessions (sv_heap s)) (default [] (sessionsByClientID (sv_tab s) !! c)))
    then None else sessionsByID (sv_tab s) !! sid;
  pu_conns : connByID (sv_tab s') = connByID (sv_tab s) /\ connBySession (sv_tab s') = connBySession (sv_tab s) /\
    h41_conns (sv_heap s') = h41_conns (sv_heap s);
  pu_labels : labels ss_SessionID ss_ClientID (h41_sessions (sv_heap s')) = labels ss_SessionID ss_ClientID (h41_sessions (sv_heap s));
  pu_delegs : undelegated_of c s';
  pu_counters : same_counters s s';
}.

(** The sessions in a list lose their sender and leave the table by ID; nothing
    else changes. *)
Record stripped (ids : list SessionId4) (s s' : Server) : Prop := {
  sp_labels : labels ss_SessionID ss_ClientID (h41_sessions (sv_heap s')) = labels ss_SessionID ss_ClientID (h41_sessions (sv_heap s));
  sp_heap : h41_clients (sv_heap s') = h41_clients (sv_heap s) /\ h41_conns (sv_heap s') = h41_conns (sv_heap s) /\
    h41_next (sv_heap s') = h41_next (sv_heap s);
  sp_byID sid : sessionsByID (sv_tab s') !! sid = if decide (sid ∈ ids) then None else sessionsByID (sv_tab s) !! sid;
  sp_tab : v41ClientsByID (sv_tab s') = v41ClientsByID (sv_tab s) /\ v41ClientsByOwner (sv_tab s') = v41ClientsByOwner (sv_tab s) /\
    sessionsByClientID (sv_tab s') = sessionsByClientID (sv_tab s) /\ connByID (sv_tab s') = connByID (sv_tab s) /\
    connBySession (sv_tab s') = connBySession (sv_tab s);
  sp_rest : sv_sm s' = sv_sm s /\ sv_back s' = sv_back s /\ sv_cfg s' = sv_cfg s;
}.

Lemma strip_loop (l : list Session) s :
  swp no_fault (s_forM l (fun session => stopBackchannelSender (ss_SessionID session);;
      s_tab (fun t => set_sessionsByID (delete (ss_SessionID session) (sessionsByID t)) t)))
    (fun _ => stripped (ss_SessionID <$> l) s) s.
Proof.
  apply (swp_forM _ _ (fun rest s' => exists dn, l = dn ++ rest /\ stripped (ss_SessionID <$> dn) s s')).
  - exists []. now split.
  - intros x rest s' (dn & El & Hs). swp1. unfold stopBackchannelSender. do 2 swp1.
    assert (forall s2, stripped (ss_SessionID <$> dn) s s2 -> swp no_fault
      (s_tab (fun t => set_sessionsByID (delete (ss_SessionID x) (sessionsByID t)) t))
      (fun _ s' => exists dn, l = dn ++ rest /\ stripped (ss_SessionID <$> dn) s s') s2) as Hdel.
    { intros s2 [K1 K2 K3 K4 K5]. swp_steps. exists (dn ++ [x]). split; [now rewrite <- app_assoc|]. split; cbn; try done.
      intros sid. rewrite fmap_app. cbn. destruct (decide (ss_SessionID x = sid)) as [<-|Hne].
      - rewrite lookup_delete_eq, decide_True by set_solver. done.
      - rewrite lookup_delete_ne, K3 by done. destruct (decide (sid ∈ ss_SessionID <$> dn)).
        + now rewrite decide_True by set_solver.
        + rewrite decide_False; [done|]. set_solver. }
    destruct (sessionsByID (sv_tab s') !! ss_SessionID x) as [q|].
    + swp_steps. apply Hdel. destruct Hs as [K1 K2 K3 K4 K5]. split; cbn; try done.
      rewrite <- K1. now apply labels_alter.
    + swp1. now apply Hdel.
  - intros s' (dn & El & Hs). rewrite app_nil_r in El. now subst l.
Qed.

Lemma ids_of_sessions Hp (l : list ptr) : ss_SessionID <$> omap (fun p => Hp !! p) l = ids_of ss_SessionID Hp l.
Proof. done. Qed.

Lemma ids_of_labels Hp Hp' l :
  labels ss_SessionID ss_ClientID Hp' = labels ss_SessionID ss_ClientID Hp -> ids_of ss_SessionID Hp' l = ids_of ss_SessionID Hp l.
Proof.
  intros E. unfold ids_of. induction l as [|p l IH]; cbn; [done|].
  apply (f_equal (fun m => m !! p)) in E. unfold labels in E. rewrite !lookup_fmap in E.
  destruct (Hp' !! p), (Hp !! p); cbn in *; try done. injection E as E _. now rewrite E, IH.
Qed.

(** The clients left when one is purged. *)
Lemma clients_purge c p r Hp I O :
  I !! c = Some p -> Hp !! p = Some r -> clients_ok Hp I O ->
  clients_ok Hp (delete c I) (if decide (O !! vc_OwnerID r = Some p) then delete (vc_OwnerID r) O else O).
Proof.
  intros Hc Hr Hok. destruct (cl_id _ _ _ Hok c p Hc) as (r' & Hr' & Ec & Eo). replace r' with r in * by congruence.
  rewrite decide_True by done. split; [| |apply Hok].
  - intros c' q [Hne Hq]%lookup_delete_Some. destruct (cl_id _ _ _ Hok _ _ Hq) as (x & Hx & <- & Ho). exists x. split_and!; [done|done|].
    rewrite lookup_delete_ne; [done|]. intros E. congruence.
  - intros o q [Hne Hq]%lookup_delete_Some. destruct (cl_owner _ _ _ Hok _ _ Hq) as (x & Hx & <- & Hi). exists x. split_and!; [done|done|].
    rewrite lookup_delete_ne; [done|]. intros E. congruence.
Qed.

Lemma swp_known {A} I (sel : Heap41 -> gmap ptr A) p x (Q : A -> Server -> Prop) s :
  sel (sv_heap s) !! p = Some x -> Q x s -> swp I (s_deref sel p) Q s.
Proof. intros E. unfold swp, s_deref. now rewrite E. Qed.

(** A change of the NFSv4.0 half that the abstract state does not show. *)
Lemma swp_sm_modify n f s (Q : unit -> Server -> Prop) :
  steady (op_modify f) -> quiet (op_modify f) -> server_ok n s ->
  (forall s', server_ok n s' -> sv_heap s' = sv_heap s -> sv_tab s' = sv_tab s ->
     same_counters s s' -> Q tt s') ->
  swp no_fault (on_sm (op_modify f)) Q s.
Proof.
  intros Hst Hq Hs HQ. destruct (Hst (sv_sm s)) as (? & ? & El & ?). cbn. apply HQ; try done.
  apply ok_sm; auto. apply (st_quiet _ _ (reach_stable n) (sv_sm s)); [apply Hq|apply Hs].
Qed.

(** The sessions of a purged client leave, and so does its record. *)
Lemma ok_leave n c p r s s' :
  server_ok n s -> v41ClientsByID (sv_tab s) !! c = Some p -> h41_clients (sv_heap s) !! p = Some r ->
  stripped (ids_of ss_SessionID (h41_sessions (sv_heap s)) (default [] (sessionsByClientID (sv_tab s) !! c))) s s' ->
  server_ok n (with_tab41 (mkTables41 (delete c (v41ClientsByID (sv_tab s')))
    (if decide (v41ClientsByOwner (sv_tab s') !! vc_OwnerID r = Some p) then delete (vc_OwnerID r) (v41ClientsByOwner (sv_tab s'))
     else v41ClientsByOwner (sv_tab s'))
    (sessionsByID (sv_tab s')) (delete c (sessionsByClientID (sv_tab s'))) (connByID (sv_tab s')) (connBySession (sv_tab s'))) s').
Proof.
  intros [H1 H2 H3 H4 H5 H6 H7 H8 H9] Hc Hr [E1 (E2 & E3 & E4) E5 (E6 & E7 & E8 & E9 & E10) (E11 & _ & _)].
  split; cbn; rewrite ?E2, ?E3, ?E4, ?E6, ?E7, ?E8, ?E9, ?E10, ?E11; try done.
  - now apply clients_purge.
  - apply registry_relabel with (h41_sessions (sv_heap s)); [done|].
    replace (sessionsByID (sv_tab s')) with (foldr delete (sessionsByID (sv_tab s))
      (ids_of ss_SessionID (h41_sessions (sv_heap s)) (default [] (sessionsByClientID (sv_tab s) !! c)))); [now apply registry_drop|].
    apply map_eq. intros sid. now rewrite foldr_delete_lookup, E5.
  - intros c' [l [Hne Hl]%lookup_delete_Some]. destruct (H3 c' (ex_intro _ l Hl)) as (q & x & Hq & Hx & Hcf). exists q, x.
    now rewrite lookup_delete_ne.
  - intros q Hq. destruct (H5 q Hq) as (? & Hn & ?). split_and!; [done| |done]. eapply labels_none; eauto.
  - intros sid [q Hq]. apply H6. rewrite E5 in Hq. destruct (decide _); [done|eauto].
  - intros c' [q [Hne Hq]%lookup_delete_Some]. eauto.
Qed.

Lemma ok_purge n c p s r :
  server_ok n s -> v41ClientsByID (sv_tab s) !! c = Some p -> h41_clients (sv_heap s) !! p = Some r ->
  swp no_fault (purgeV41Client p) (fun _ s' => server_ok n s' /\ purged c p s s') s.
Proof.
  intros Hs Hc Hr. destruct (cl_id _ _ _ (ok_clients _ _ Hs) c p Hc) as (r' & Hr' & Ec & Eo).
  replace r' with r in * by congruence. clear r' Hr'.
  unfold purgeV41Client. swp1. apply (swp_known _ _ _ _ _ _ Hr). rewrite Ec.
  apply swp_bind.
  assert (swp no_fault (if vc_Confirmed r then on_sm (deleteClientRecoveryLocked (v41RecoveryKey (vc_OwnerID r))) else mret tt)
    (fun _ s1 => server_ok n s1 /\ sv_heap s1 = sv_heap s /\ sv_tab s1 = sv_tab s /\ same_counters s s1) s) as H1.
  { destruct (vc_Confirmed r); [|now apply swp_ret]. apply (swp_sm_modify n); [done|done|done|auto]. }
  eapply swp_mono; [exact H1|]. intros [] s1 (Hs1 & Eh1 & Et1 & El1). clear H1.
  do 3 swp1.
  set (stop := fun c0 => set_vc_lease (StopLease <$> vc_Lease c0) (vc_LastRenewal c0) c0). swp1.
  set (s2 := with_heap41 _ s1).
  assert (server_ok n s2) as Hs2.
  { apply ok_upd_client; [done| |done]. intros x _ (? & Hcf & ? & ?). split; [|done]. split_and!; cbn; try done.
    rewrite Hcf. destruct (vc_Lease x); cbn; split; intros [? ?]; eauto; done. }
  apply swp_bind, (swp_release n); [done|]. intros s3 Hs3 Eh3 Et3 El3 Hd3.
  do 2 swp1. apply swp_bind. unfold ListSessionsForClient.
  assert (h41_sessions (sv_heap s3) = h41_sessions (sv_heap s)) as Ess by (rewrite Eh3; cbn; now rewrite Eh1).
  assert (sv_tab s3 = sv_tab s) as Ets by (rewrite Et3; cbn; done).
  eapply swp_mono; [apply strip_loop|]. intros [] s4 Hst. rewrite ids_of_sessions in Hst.
  swp_steps. cbn.
  assert (v41ClientsByID (sv_tab s3) !! c = Some p) as Hc3 by now rewrite Ets.
  assert (h41_clients (sv_heap s3) !! p = Some (stop r)) as Hr3
    by (rewrite Eh3; cbn; rewrite Eh1, lookup_alter_eq, Hr; done).
  pose proof (ok_leave n c p (stop r) s3 s4 Hs3 Hc3 Hr3 Hst) as Hok.
  destruct Hst as [E1 (E2 & E3 & E4) E5 (E6 & E7 & E8 & E9 & E10) (E11 & _ & _)].
  match goal with |- server_ok n ?x /\ _ => replace x with
    (with_tab41 (mkTables41 (delete c (v41ClientsByID (sv_tab s4)))
      (if decide (v41ClientsByOwner (sv_tab s4) !! vc_OwnerID r = Some p) then delete (vc_OwnerID r) (v41ClientsByOwner (sv_tab s4))
       else v41ClientsByOwner (sv_tab s4))
      (sessionsByID (sv_tab s4)) (delete c (sessionsByClientID (sv_tab s4))) (connByID (sv_tab s4)) (connBySession (sv_tab s4))) s4)
    by (unfold with_tab41; cbn; f_equal; destruct (decide _); done)
  end.
  split; [exact Hok|]. split; cbn; rewrite ?E2, ?E3, ?E4, ?E6, ?E7, ?E8, ?E9, ?E10, ?E11, ?Ets; try done.
  - intros o r' Hr' <-. replace r' with r by congruence. rewrite decide_True by done. apply lookup_delete_eq.
  - intros q Hq. rewrite Eh3. cbn. rewrite lookup_alter_ne by done. now rewrite Eh1.
  - intros sid. rewrite E5, Ess, Ets. done.
  - rewrite Eh3. cbn. now rewrite Eh1.
  - now rewrite E1, Ess.
  - unfold undelegated_of in *. cbn. now rewrite E11.
  - unfold same_counters. cbn. rewrite E11. exact (same_counters_trans s s1 s3 El1 El3).
Qed.

(** ** Registering a client *)

Lemma ok_more n s : server_ok n s -> server_ok (n + 1) s.
Proof. intros [H1 H2 H3 H4 H5 H6 H7 H8 H9]. split; try done; [lia|]. now apply reached_weak. Qed.

Lemma client_id_low e k : 0 <= k < 2 ^ 32 -> (Z.shiftl e 32 .| k) mod 2 ^ 32 = k.
Proof.
  intros Hk. rewrite <- Z.land_ones, Z.land_lor_distr_l, !Z.land_ones by lia.
  rewrite Z.shiftl_mul_pow2, Z.mod_mul, (Z.mod_small k) by lia. apply Z.lor_0_l.
Qed.

Lemma clients_add p r Hp I O :
  Hp !! p = None -> I !! vc_ClientID r = None -> O !! vc_OwnerID r = None -> record_ok r -> clients_ok Hp I O ->
  clients_ok (<[p := r]> Hp) (<[vc_ClientID r := p]> I) (<[vc_OwnerID r := p]> O).
Proof.
  intros Hp0 Hi Ho Hr [H1 H2 H3]. split.
  - intros c q [[<- <-]|[Hne Hq]]%lookup_insert_Some.
    + exists r. now rewrite !lookup_insert_eq.
    + destruct (H1 c q Hq) as (x & Hx & <- & E). exists x. split_and!; [|done|].
      * rewrite lookup_insert_ne; [done|]. intros ->. congruence.
      * rewrite lookup_insert_ne; [done|]. intros E'. congruence.
  - intros o q [[<- <-]|[Hne Hq]]%lookup_insert_Some.
    + exists r. now rewrite !lookup_insert_eq.
    + destruct (H2 o q Hq) as (x & Hx & <- & E). exists x. split_and!; [|done|].
      * rewrite lookup_insert_ne; [done|]. intros ->. congruence.
      * rewrite lookup_insert_ne; [done|]. intros E'. congruence.
  - intros q x [[<- <-]|[Hne Hq]]%lookup_insert_Some; [done|eauto].
Qed.

Lemma impl_same l r :
  vc_ClientID (applyImplInfo l r) = vc_ClientID r /\ vc_OwnerID (applyImplInfo l r) = vc_OwnerID r /\
  (record_ok r -> record_ok (applyImplInfo l r)) /\ vc_Confirmed (applyImplInfo l r) = vc_Confirmed r.
Proof. unfold applyImplInfo. destruct l; [done|]. now destruct (_ && _). Qed.

Lemma ok_create n now o v l addr princ s :
  server_ok n s -> n + 1 < 2 ^ 32 -> v41ClientsByOwner (sv_tab s) !! o = None ->
  swp no_fault (createV41Client now o v l addr princ) (fun p s' => server_ok (n + 1) s' /\ is_Some (h41_clients (sv_heap s') !! p)) s.
Proof.
  intros Hs Hn Ho. unfold createV41Client. swp1. unfold on_sm, generateClientID. unfold swp at 1. cbv beta iota zeta. cbn [fst snd].
  set (k := u32 (sm_nextClientSeq (sv_sm s) + 1)). set (c := Z.shiftl (sm_bootEpoch (sv_sm s)) 32 .| k).
  pose proof (ok_seq _ _ Hs) as Hseq.
  assert (k = sm_nextClientSeq (sv_sm s) + 1) as Ek by (apply u32_small; unfold in_u32; lia).
  set (sm1 := with_counters _ _ _ _). swp_steps.
  assert (v41ClientsByID (sv_tab s) !! c = None) as Hfree.
  { destruct (v41ClientsByID (sv_tab s) !! c) as [q|] eqn:E; [|done].
    destruct (ok_client_ids _ _ Hs c) as (k' & Hk' & Ec); [eauto|].
    assert (k = k') as Ekk; [|lia]. unfold c in Ec. apply (f_equal (fun z => z mod 2 ^ 32)) in Ec.
    rewrite !client_id_low in Ec by lia. done. }
  assert (reached false a0 (n + 1) sm1) as Hv.
  { apply (st_quiet _ _ (reach_stable (n + 1)) (sv_sm s)); [done|]. apply reached_weak, Hs. }
  set (r0 := mkV41Client c o v _ 0 false addr princ now now None None).
  destruct (impl_same l r0) as (E1 & E2 & E3 & E4). set (r := applyImplInfo l r0) in *.
  assert (record_ok r) as Hr.
  { apply E3. unfold record_ok. cbn. split_and!; try done. }
  destruct Hs as [H1 H2 H3 H4 H5 H6 H7 H8 H9]. destruct (H5 (h41_next (sv_heap s)) ltac:(lia)) as (F1 & F2 & F3).
  split; cbn; [|rewrite lookup_insert_eq; eauto].
  change c with (vc_ClientID r0). change o with (vc_OwnerID r0). rewrite <- E1, <- E2. split; cbn; try done.
  - apply clients_add; rewrite ?E1, ?E2; auto.
  - intros c' Hc'. destruct (H3 c' Hc') as (q & x & Hq & Hx & Hcf). exists q, x. split_and!; [| |done].
    + rewrite lookup_insert_ne; [done|]. rewrite E1. intros Ecc. subst c'. cbn in Hq. congruence.
    + rewrite lookup_insert_ne; [done|]. intros Eqq. congruence.
  - intros q Hq. destruct (H5 q ltac:(lia)) as (? & ? & ?). split_and!; [|done|done]. rewrite lookup_insert_ne; [done|lia].
  - intros c' [q [[<- _]|[_ Hq]]%lookup_insert_Some].
    + exists k. rewrite E1. split; [lia|done].
    + destruct (H7 c' (ex_intro _ q Hq)) as (k' & ? & ?). exists k'. split; [lia|done].
  - lia.
Qed.

Lemma ok_ExchangeID n now o v l addr princ s :
  server_ok n s -> n + 1 < 2 ^ 32 ->
  swp (server_ok (n + 1)) (ExchangeID now o v l addr princ) (fun _ => server_ok (n + 1)) s.
Proof.
  intros Hs Hn. unfold ExchangeID. do 3 swp1.
  assert (forall (m : SOp ptr) s, swp (server_ok (n + 1)) m (fun _ => server_ok (n + 1)) s ->
    swp (server_ok (n + 1)) m (fun p => swp (server_ok (n + 1)) (
      record ← s_deref h41_clients p; identity ← s_gets (fun s => serverIdentity (sv_cfg s));
      mret (mkExchangeIDResult (vc_ClientID record) (u32 (vc_SequenceID record + 1))
        (EXCHGID4_FLAG_USE_NON_PNFS .| (if vc_Confirmed record then EXCHGID4_FLAG_CONFIRMED_R else 0))
        (id_ServerOwner identity) (id_ServerScope identity) [id_ImplID identity])) (fun _ => server_ok (n + 1))) s) as Hrest.
  { intros m s' Hm. eapply swp_mono; [exact Hm|]. intros p s2 Hs2. now swp_steps. }
  apply Hrest. clear Hrest. destruct (v41ClientsByOwner (sv_tab s) !! o) as [p|] eqn:Eo.
  - destruct (cl_owner _ _ _ (ok_clients _ _ Hs) o p Eo) as (r & Hr & Er & Ec). swp1. apply (swp_known _ _ _ _ _ _ Hr). swp1.
    + swp_steps; [now apply ok_more|]. apply ok_upd_client; [| |now apply ok_more].
      * intros x. destruct (impl_same l (set_vc_contact addr (if bool_decide (princ <> ""%string) then princ else vc_Principal x) now x)) as (-> & -> & _). done.
      * intros x _ Hx. destruct (impl_same l (set_vc_contact addr (if bool_decide (princ <> ""%string) then princ else vc_Principal x) now x)) as (_ & _ & Himp & ->).
        split; [apply Himp; destruct Hx; done|done].
    + apply swp_bind, swp_sure. eapply swp_mono; [now apply (ok_purge n (vc_ClientID r) p s r)|]. intros [] s1 [Hs1 Hp].
      eapply swp_mono; [apply swp_sure, (ok_create n); [done|done|]|].
      * now apply (pu_owner _ _ _ _ Hp o r).
      * now intros q s2 [? _].
  - eapply swp_mono; [apply swp_sure, (ok_create n); done|]. now intros q s2 [? _].
Qed.
End Facts.
