(* ===== verification/Nfs41Reach.v ===== *)
(** * NFSv4.1 clients, sessions and connections: every request keeps the tables

    The operations one by one, then any interleaving of the requests of both minor
    versions. *)

From S2P Require Import Prelude.
From S2P Require Import SlotTable.
From S2P Require Import LockTypes.
From S2P Require Import LockManager.
From S2P Require Import Xdr.
From S2P Require Import Nfs4Grace.
From S2P Require Import Nfs4Types.
From S2P Require Import Nfs41Wire.
From S2P Require Import Nfs4State.
From S2P Require Import Nfs41State.
From S2P Require Import Nfs4Locks.
From S2P Require Import Nfs4Deleg.
From S2P Require Import Nfs4Wp.
From S2P Require Import Nfs4Abs.
From S2P Require Import Nfs4Quiet.
From S2P Require Import Nfs4Expiry.
From S2P Require Import Nfs4Reach.
From S2P Require Import Nfs41Facts.

Section Reach.
Context `{L : Nfs4Lib}.
Variable a0 : Abs.
Hypothesis a0_wf : a_wf a0.

Abbreviation server_ok := (server_ok a0).

(** ** Creating a session *)

(** The random draws up to the [k]-th are all different. *)
Definition distinct_draws (k : nat) : Prop := forall i j, (i <= k)%nat -> (j <= k)%nat -> random i = random j -> i = j.

Lemma ok_add_session n x s :
  sessionsByID (sv_tab s) !! ss_SessionID x = None ->
  (exists p r, v41ClientsByID (sv_tab s) !! ss_ClientID x = Some p /\ h41_clients (sv_heap s) !! p = Some r /\ vc_Confirmed r = true) ->
  (exists k, (k < sm_calls (sv_sm s))%nat /\ ss_SessionID x = random k) -> server_ok n s ->
  let q := h41_next (sv_heap s) in
  server_ok n (with_tab41 (set_sessionsByClient
      (<[ss_ClientID x := default [] (sessionsByClientID (sv_tab s) !! ss_ClientID x) ++ [q]]> (sessionsByClientID (sv_tab s)))
      (set_sessionsByID (<[ss_SessionID x := q]> (sessionsByID (sv_tab s))) (sv_tab s)))
    (with_heap41 (set_next41 (S q) (set_sessions (<[q := x]> (h41_sessions (sv_heap s))) (sv_heap s))) s)).
Proof.
  intros Hfree Hown Hid [H1 H2 H3 H4 H5 H6 H7 H8 H9] q. split; cbn; try done.
  - apply (registry_add ss_SessionID ss_ClientID); [now apply H5|done|done].
  - intros c [l [[<- _]|[_ Hl]]%lookup_insert_Some]; [done|eauto].
  - intros p Hp. destruct (H5 p ltac:(lia)) as (? & ? & ?). split_and!; [done| |done].
    rewrite lookup_insert_ne; [done|]. unfold q. lia.
  - intros sid [p [[<- _]|[_ Hp]]%lookup_insert_Some]; [done|eauto].
Qed.

Lemma session_free n s :
  distinct_draws (sm_calls (sv_sm s)) -> server_ok n s -> sessionsByID (sv_tab s) !! random (sm_calls (sv_sm s)) = None.
Proof.
  intros Hd Hs. destruct (_ !! _) as [p|] eqn:E; [|done]. destruct (ok_session_ids _ _ _ Hs _ (ex_intro _ p E)) as (k & Hk & Er).
  apply Hd in Er; lia.
Qed.

(** What CREATE_SESSION makes of the record. *)
Definition confirm_record (now d : Z) (first : bool) (encoded : bytes) (c : V41ClientRecord) : V41ClientRecord :=
  set_vc_cached (Some encoded) (bump_vc (if first then set_vc_lease (Some (NewLeaseState d now)) now (set_vc_confirmed c) else c)).

Lemma ok_confirm_record now d first e r :
  record_ok r -> (first = false -> vc_Confirmed r = true) -> record_ok (confirm_record now d first e r).
Proof.
  intros (H1 & H2 & H3 & H4) Hf. destruct first; unfold record_ok, confirm_record; cbn; (split_and!; [apply u32_range| | |]); eauto; try done.
  intros E. now rewrite Hf in E.
Qed.

(** The session joins a client that is confirmed by it or was before. *)
Lemma ok_join n p r f x s :
  v41ClientsByID (sv_tab s) !! ss_ClientID x = Some p -> h41_clients (sv_heap s) !! p = Some r ->
  (forall r, vc_ClientID (f r) = vc_ClientID r /\ vc_OwnerID (f r) = vc_OwnerID r) ->
  record_ok (f r) -> vc_Confirmed (f r) = true ->
  sessionsByID (sv_tab s) !! ss_SessionID x = None ->
  (exists k, (k < sm_calls (sv_sm s))%nat /\ ss_SessionID x = random k) -> server_ok n s ->
  let q := h41_next (sv_heap s) in
  server_ok n (with_tab41 (set_sessionsByClient
      (<[ss_ClientID x := default [] (sessionsByClientID (sv_tab s) !! ss_ClientID x) ++ [q]]> (sessionsByClientID (sv_tab s)))
      (set_sessionsByID (<[ss_SessionID x := q]> (sessionsByID (sv_tab s))) (sv_tab s)))
    (with_heap41 (set_next41 (S q) (set_sessions (<[q := x]> (h41_sessions (sv_heap s)))
       (set_v41clients (alter f p (h41_clients (sv_heap s))) (sv_heap s)))) s)).
Proof.
  intros Hp Hr Hf Hok Hcf Hfree Hk Hs. set (s1 := with_heap41 (set_v41clients (alter f p (h41_clients (sv_heap s))) (sv_heap s)) s).
  assert (server_ok n s1) as Hs'.
  { apply ok_upd_client; [done| |done]. intros r' Hr'. replace r' with r by congruence. auto. }
  refine (ok_add_session n x s1 Hfree _ Hk Hs'). exists p, (f r). cbn. now rewrite lookup_alter_eq, Hr.
Qed.

Lemma confirm_record_names now d b e r :
  vc_ClientID (confirm_record now d b e r) = vc_ClientID r /\ vc_OwnerID (confirm_record now d b e r) = vc_OwnerID r.
Proof. now destruct b. Qed.

Lemma ok_register n now p r x e s :
  v41ClientsByID (sv_tab s) !! ss_ClientID x = Some p -> h41_clients (sv_heap s) !! p = Some r ->
  sessionsByID (sv_tab s) !! ss_SessionID x = None ->
  (exists k, (k < sm_calls (sv_sm s))%nat /\ ss_SessionID x = random k) -> server_ok n s ->
  swp no_fault (register_session now p r x;; upd_v41client p bump_vc;; upd_v41client p (set_vc_cached (Some e)))
    (fun _ => server_ok n) s.
Proof.
  intros Hp Hr Hfree Hk Hs. pose proof (cl_record _ _ _ (ok_clients _ _ _ Hs) p r Hr) as Hrec.
  unfold register_session. do 7 swp1. destruct (vc_Confirmed r) eqn:Ecf.
  - swp_steps. pose proof (ok_join n p r (confirm_record now 0 false e) x s Hp Hr (confirm_record_names now 0 false e)
      (ok_confirm_record now 0 false e r Hrec (fun _ => Ecf)) Ecf Hfree Hk Hs) as H.
    cbn. rewrite alter_alter_eq. exact H.
  - do 6 swp1. apply swp_bind.
    pose proof (steady_persist now (vc_ClientID r) (v41RecoveryKey (vc_OwnerID r)) (vc_Verifier r) (vc_Principal r) (sv_sm s)) as (? & ? & ? & Hc).
    set (per := persistClientRecoveryLocked _ _ _ _ _) in *.
    assert (server_ok n (with_sm (per (sv_sm s)).2 s)) as Hs'.
    { apply ok_sm; auto. apply (st_quiet _ _ (reach_stable a0 a0_wf n) (sv_sm s)); [apply quiet_persist|apply Hs]. }
    set (f := confirm_record now (sm_leaseDuration (sv_sm s)) true e).
    assert (exists k, (k < sm_calls (per (sv_sm s)).2)%nat /\ ss_SessionID x = random k) as Hk'.
    { destruct Hk as (k & ? & ?). exists k. split; [lia|done]. }
    pose proof (ok_join n p r f x (with_sm (per (sv_sm s)).2 s) Hp Hr (confirm_record_names now _ true e)
      (ok_confirm_record now _ true e r Hrec ltac:(done)) eq_refl Hfree Hk' Hs') as Hj.
    swp_steps. cbn. rewrite !alter_alter_eq. exact Hj.
Qed.

Lemma create_session_res_encodes i q f a b :
  ca_RdmaIrd a = [] -> ca_RdmaIrd b = [] -> exists e, CreateSessionRes_Encode (mkCreateSessionRes NFS4_OK i q f a b) = Some e.
Proof. destruct a, b. cbn. intros -> ->. eexists. reflexivity. Qed.

Lemma ok_next_call n s :
  server_ok n s -> server_ok n (with_sm (next_call (sv_sm s)).2 s).
Proof.
  intros Hs. apply ok_sm; auto.
  - cbn. lia.
  - apply (st_quiet _ _ (reach_stable a0 a0_wf n) (sv_sm s)); [apply quiet_next_call|apply Hs].
Qed.

Lemma ok_CreateSession n now c q fl fa ba cb s :
  distinct_draws (sm_calls (sv_sm s)) -> server_ok n s ->
  swp (server_ok n) (CreateSession now c q fl fa ba cb) (fun _ => server_ok n) s.
Proof.
  intros Hd Hs. unfold CreateSession. do 4 swp1; [done|]. rename a into p. swp1. swp1; [done|]. rename x into r.
  destruct (cl_id _ _ _ (ok_clients _ _ _ Hs) c p H) as (r' & Hr & Ec & _). replace r' with r in * by congruence.
  swp1; [swp_steps; done|]. do 2 swp1; [done|]. do 6 swp1; [done|]. cbv beta.
  set (nf := negotiateChannelAttrs fa _).
  set (nb := negotiateChannelAttrs ba _). set (flags := fl .&^ _ .&^ _).
  pose proof (session_free n s Hd Hs) as Hfree. pose proof (ok_next_call n s Hs) as Hs1.
  set (s1 := with_sm _ s) in Hs1. apply swp_bind. unfold NewSession. apply swp_bind.
  lazymatch goal with |- swp _ (on_sm next_call) ?Q s => change (Q (sm_calls (sv_sm s)) s1) end. cbv beta. apply swp_ret.
  set (x := mkSession _ _ _ _ _ _ _ _ _ _ _).
  destruct (create_session_res_encodes (ss_SessionID x) (u32 (vc_SequenceID r + 1)) flags nf nb eq_refl eq_refl) as [e He].
  rewrite He.
  assert (swp no_fault (register_session now p r x;; upd_v41client p bump_vc;; upd_v41client p (set_vc_cached (Some e)))
    (fun _ => server_ok n) s1) as Hreg.
  { apply ok_register; try done. exists (sm_calls (sv_sm s)). split; [cbn; lia|done]. }
  apply swp_bind in Hreg. apply swp_bind. eapply swp_mono; [apply swp_sure; exact Hreg|]. intros [] s2 Hs2. exact Hs2.
Qed.

(** ** Destroying a session *)

Lemma ok_stop_sender n sid s : server_ok n s ->
  swp no_fault (stopBackchannelSender sid) (fun _ s' => server_ok n s' /\ sv_tab s' = sv_tab s /\ sv_sm s' = sv_sm s /\
    labels ss_SessionID ss_ClientID (h41_sessions (sv_heap s')) = labels ss_SessionID ss_ClientID (h41_sessions (sv_heap s))) s.
Proof.
  intros Hs. unfold stopBackchannelSender. do 3 swp1; swp_steps; [|done]. split_and!; try done; [now apply ok_upd_session|].
  now apply labels_alter.
Qed.

(** A session leaves the tables. *)
Lemma ok_remove_session n p x s :
  sessionsByID (sv_tab s) !! ss_SessionID x = Some p -> h41_sessions (sv_heap s) !! p = Some x -> server_ok n s ->
  server_ok n (with_tab41 (set_sessionsByClient (put_list (ss_ClientID x)
      (remove_first (is_session (ss_SessionID x) (sv_heap s)) (default [] (sessionsByClientID (sv_tab s) !! ss_ClientID x)))
      (sessionsByClientID (sv_tab s)))
    (set_sessionsByID (delete (ss_SessionID x) (sessionsByID (sv_tab s))) (sv_tab s))) s).
Proof.
  intros Hp Hx [H1 H2 H3 H4 H5 H6 H7 H8 H9]. split; cbn; try done.
  - exact (registry_remove ss_SessionID ss_ClientID p x _ _ _ Hx Hp H2).
  - intros c Hc. apply H3. unfold put_list in Hc. destruct (remove_first _ _) as [|y l] eqn:El.
    + destruct Hc as [l [_ Hl]%lookup_delete_Some]. eauto.
    + destruct Hc as [l' [[<- _]|[_ Hl]]%lookup_insert_Some]; [|eauto].
      destruct (sessionsByClientID (sv_tab s) !! ss_ClientID x); [eauto|done].
  - intros sid [q [_ Hq]%lookup_delete_Some]. eauto.
Qed.

Lemma ok_drop_bindings n sid s : server_ok n s -> swp no_fault (drop_bindings sid) (fun _ s' => server_ok n s' /\
  sessionsByID (sv_tab s') = sessionsByID (sv_tab s) /\ connBySession (sv_tab s') !! sid = None) s.
Proof.
  intros [H1 H2 H3 H4 H5 H6 H7 H8 H9]. unfold drop_bindings. swp1. cbn. split_and!; [|done|apply lookup_delete_eq]. split; cbn; try done.
  exact (registry_drop bc_ConnectionID bc_SessionID sid _ _ _ H4).
Qed.

Lemma ok_destroySession n sid force s : server_ok n s ->
  swp (server_ok n) (destroySessionLocked sid force) (fun _ s' => server_ok n s' /\
    sessionsByID (sv_tab s') !! sid = None /\ connBySession (sv_tab s') !! sid = None) s.
Proof.
  intros Hs. unfold destroySessionLocked. do 4 swp1; [done|]. rename a into p. do 2 swp1; [done|]. do 2 swp1; [done|].
  destruct (reg_id _ _ _ _ _ (ok_sessions _ _ _ Hs) sid p H) as (x' & Hx & Es & _). replace x' with x in * by congruence. subst sid.
  apply swp_bind. eapply swp_mono; [apply swp_sure, ok_stop_sender, Hs|]. intros [] s1 (Hs1 & Et & Em & El).
  do 5 swp1. apply swp_sure.
  assert (exists x1, h41_sessions (sv_heap s1) !! p = Some x1 /\ ss_SessionID x1 = ss_SessionID x /\ ss_ClientID x1 = ss_ClientID x) as (x1 & Hx1 & E1 & E2).
  { apply (f_equal (fun m => m !! p)) in El. unfold labels in El. rewrite !lookup_fmap, Hx in El.
    destruct (h41_sessions (sv_heap s1) !! p) as [x1|]; cbn in El; [|done]. injection El as ? ?. eauto. }
  pose proof (ok_remove_session n p x1 s1) as Hrem. rewrite E1, E2 in Hrem. rewrite <- Et in H. specialize (Hrem H Hx1 Hs1).
  eapply swp_mono; [exact (ok_drop_bindings n (ss_SessionID x) _ Hrem)|]. intros [] s2 (Hs2 & E & ?). split_and!; [done| |done].
  rewrite E. apply lookup_delete_eq.
Qed.

(** ** Connections *)

Lemma remove_first_ext {A} (f g : A -> bool) l : (forall x, f x = g x) -> remove_first f l = remove_first g l.
Proof. intros E. induction l as [|x l IH]; cbn; [done|]. now rewrite E, IH. Qed.

Lemma is_conn_has_id c h p : is_conn c h p = has_id bc_ConnectionID c (h41_conns h) p.
Proof. unfold is_conn, has_id. destruct (_ !! p); [|done]. case_bool_decide; lia. Qed.

(** A binding leaves the tables. *)
Lemma ok_unbind n p b s :
  connByID (sv_tab s) !! bc_ConnectionID b = Some p -> h41_conns (sv_heap s) !! p = Some b -> server_ok n s ->
  server_ok n (with_tab41 (set_connBySession (put_list (bc_SessionID b)
      (remove_first (is_conn (bc_ConnectionID b) (sv_heap s)) (default [] (connBySession (sv_tab s) !! bc_SessionID b)))
      (connBySession (sv_tab s)))
    (set_connByID (delete (bc_ConnectionID b) (connByID (sv_tab s))) (sv_tab s))) s).
Proof.
  intros Hp Hb [H1 H2 H3 H4 H5 H6 H7 H8 H9]. split; cbn; try done.
  rewrite (remove_first_ext _ _ _ (is_conn_has_id (bc_ConnectionID b) (sv_heap s))).
  exact (registry_remove bc_ConnectionID bc_SessionID p b _ _ _ Hb Hp H4).
Qed.

Lemma conn_at n c p s : server_ok n s -> connByID (sv_tab s) !! c = Some p ->
  exists b, h41_conns (sv_heap s) !! p = Some b /\ bc_ConnectionID b = c.
Proof. intros Hs Hc. destruct (reg_id _ _ _ _ _ (ok_conns _ _ _ Hs) c p Hc) as (b & ? & ? & _). eauto. Qed.

Lemma ok_back n x s : server_ok n s -> server_ok n (with_back x s).
Proof. now intros [H1 H2 H3 H4 H5 H6 H7 H8 H9]. Qed.
Lemma ok_cfg n x s : server_ok n s -> server_ok n (with_cfg x s).
Proof. now intros [H1 H2 H3 H4 H5 H6 H7 H8 H9]. Qed.

Lemma ok_unbindConnection n c s : server_ok n s ->
  swp no_fault (unbindConnectionLocked c) (fun _ s' => server_ok n s' /\ connByID (sv_tab s') !! c = None) s.
Proof.
  intros Hs. unfold unbindConnectionLocked. do 2 swp1. destruct (connByID (sv_tab s) !! c) as [q|] eqn:Heqo; [|now swp1].
  destruct (conn_at n c q s Hs Heqo) as (b & Hb & <-). apply swp_bind, (swp_known _ _ _ _ _ _ Hb).
  unfold removeConnFromSessionLocked, drop_writer. swp_steps. split; [|apply lookup_delete_eq].
  apply ok_back. exact (ok_unbind n q b s Heqo Hb Hs).
Qed.

(** A connection is unbound or bound to this session. *)
Definition here_or_free (c : Z) (sid : SessionId4) (s : Server) : Prop :=
  forall p b, connByID (sv_tab s) !! c = Some p -> h41_conns (sv_heap s) !! p = Some b -> bc_SessionID b = sid.

Lemma ok_leave_other n c sid s : server_ok n s ->
  swp no_fault (leave_other_session c sid) (fun _ s' => server_ok n s' /\ here_or_free c sid s') s.
Proof.
  intros Hs. unfold leave_other_session. do 2 swp1. destruct (connByID (sv_tab s) !! c) as [q|] eqn:Heqo; [|swp1; split; [done|congruence]].
  destruct (conn_at n c q s Hs Heqo) as (b & Hb & _). apply swp_bind, (swp_known _ _ _ _ _ _ Hb).
  destruct (bool_decide_reflect (bc_SessionID b <> sid)).
  - eapply swp_mono; [apply (ok_unbindConnection n c s Hs)|]. intros [] s' [? E]. split; [done|]. intros p b'. now rewrite E.
  - swp1. split; [done|]. intros p b' Hp Hb'. destruct (decide (bc_SessionID b = sid)) as [<-|]; [congruence|done].
Qed.

(** The new binding takes the place of the old one. *)
Lemma ok_bind n b s :
  here_or_free (bc_ConnectionID b) (bc_SessionID b) s -> server_ok n s ->
  let q := h41_next (sv_heap s) in
  let C := put_list (bc_SessionID b)
      (remove_first (is_conn (bc_ConnectionID b) (sv_heap s)) (default [] (connBySession (sv_tab s) !! bc_SessionID b)))
      (connBySession (sv_tab s)) in
  server_ok n (with_tab41 (set_connBySession (<[bc_SessionID b := default [] (C !! bc_SessionID b) ++ [q]]> C)
      (set_connByID (<[bc_ConnectionID b := q]> (connByID (sv_tab s))) (sv_tab s)))
    (with_heap41 (set_next41 (S q) (set_conns (<[q := b]> (h41_conns (sv_heap s))) (sv_heap s))) s)).
Proof.
  intros Hh [H1 H2 H3 H4 H5 H6 H7 H8 H9] q C. split; cbn; try done.
  - assert (registry_ok bc_ConnectionID bc_SessionID (h41_conns (sv_heap s)) (delete (bc_ConnectionID b) (connByID (sv_tab s))) C) as Hreg.
    { unfold C. rewrite (remove_first_ext _ _ _ (is_conn_has_id (bc_ConnectionID b) (sv_heap s))).
      destruct (connByID (sv_tab s) !! bc_ConnectionID b) as [p|] eqn:Ep.
      - destruct (reg_id _ _ _ _ _ H4 _ _ Ep) as (b' & Hb' & Ei & _). rewrite <- (Hh p b' Ep Hb'), <- Ei. rewrite <- Ei in Ep.
        exact (registry_remove bc_ConnectionID bc_SessionID p b' _ _ _ Hb' Ep H4).
      - rewrite (delete_id _ _ Ep), (registry_absent bc_ConnectionID bc_SessionID) with (I := connByID (sv_tab s)) by done. done. }
    rewrite <- (insert_delete_eq (connByID (sv_tab s))). apply (registry_add bc_ConnectionID bc_SessionID); [now apply H5|apply lookup_delete_eq|done].
  - intros p Hp. destruct (H5 p ltac:(lia)) as (? & ? & ?). split_and!; [done|done|].
    rewrite lookup_insert_ne; [done|]. unfold q. lia.
Qed.

Lemma ok_BindConn n now c sid dir s : server_ok n s ->
  swp (server_ok n) (BindConnToSession now c sid dir) (fun _ => server_ok n) s.
Proof.
  intros Hs. unfold BindConnToSession. do 4 swp1; [done|]. destruct (negotiateDirection dir) as [d sd].
  apply swp_bind. eapply swp_mono; [apply swp_sure, (ok_leave_other n c sid s Hs)|]. intros [] s1 [Hs1 Hh].
  do 6 swp1; [done|]. do 2 swp1; [done|]. unfold removeConnFromSessionLocked. swp_steps.
  exact (ok_bind n (mkBinding c sid d ConnTypeTCP now now false) s1 Hh Hs1).
Qed.

(** ** Reaping *)

(** What is left when the clients at some pointers are purged. *)
Record reaped (gone : list ptr) (s s' : Server) : Prop := {
  rp_clients c p : v41ClientsByID (sv_tab s') !! c = Some p <-> v41ClientsByID (sv_tab s) !! c = Some p /\ p ∉ gone;
  rp_records p : p ∉ gone -> h41_clients (sv_heap s') !! p = h41_clients (sv_heap s) !! p;
  rp_labels : labels ss_SessionID ss_ClientID (h41_sessions (sv_heap s')) = labels ss_SessionID ss_ClientID (h41_sessions (sv_heap s));
  rp_sessions sid q : sessionsByID (sv_tab s') !! sid = Some q <-> sessionsByID (sv_tab s) !! sid = Some q /\
    forall x p, h41_sessions (sv_heap s) !! q = Some x -> v41ClientsByID (sv_tab s) !! ss_ClientID x = Some p -> p ∉ gone;
  rp_conns : connByID (sv_tab s') = connByID (sv_tab s) /\ connBySession (sv_tab s') = connBySession (sv_tab s) /\
    h41_conns (sv_heap s') = h41_conns (sv_heap s);
  rp_counters : same_counters s s';
}.

Lemma reaped_nil s : reaped [] s s.
Proof. split; try done; intros; set_solver. Qed.

Lemma client_ids_inj n s c c' p :
  server_ok n s -> v41ClientsByID (sv_tab s) !! c = Some p -> v41ClientsByID (sv_tab s) !! c' = Some p -> c = c'.
Proof.
  intros Hs H1 H2. destruct (cl_id _ _ _ (ok_clients _ _ _ Hs) _ _ H1) as (r1 & ? & <- & _).
  destruct (cl_id _ _ _ (ok_clients _ _ _ Hs) _ _ H2) as (r2 & ? & <- & _). congruence.
Qed.

Lemma same_labels {B K G} (id : B -> K) (grp : B -> G) (Hp Hp' : gmap ptr B) p x :
  labels id grp Hp' = labels id grp Hp -> Hp' !! p = Some x -> exists y, Hp !! p = Some y /\ id x = id y /\ grp x = grp y.
Proof.
  intros E Hx. apply (f_equal (fun m => m !! p)) in E. unfold labels in E. rewrite !lookup_fmap, Hx in E.
  destruct (Hp !! p) as [y|]; cbn in E; [|done]. injection E as ? ?. eauto.
Qed.

Lemma reaped_step n gone c p s s1 s2 :
  server_ok n s -> server_ok n s1 -> v41ClientsByID (sv_tab s) !! c = Some p ->
  reaped gone s s1 -> purged c p s1 s2 -> reaped (p :: gone) s s2.
Proof.
  intros Hs Hs1 Hc [R1 R2 R3 R4 (R5 & R6 & R7) R8] [P1 _ P2 _ P3 (P4 & P5 & P6) P7 _ P8].
  split; rewrite ?P1, ?P4, ?P5, ?P6, ?P7; try done; [| | |exact (same_counters_trans _ _ _ R8 P8)].
  - intros c' q. rewrite lookup_delete_Some, R1, not_elem_of_cons. split; [intros (Hne & Hq & Hg)|intros (Hq & Hne & Hg)].
    + split_and!; try done. intros ->. apply Hne. exact (client_ids_inj n s c c' p Hs Hc Hq).
    + split_and!; try done. intros <-. congruence.
  - intros q Hq. rewrite P2, R2 by set_solver. done.
  - intros sid q. rewrite P3. split.
    + destruct (decide _) as [|Hno]; [done|]. intros Hq. pose proof (proj1 (R4 sid q) Hq) as [Hq0 Hg]. split; [done|].
      intros x p' Hx Hp'. rewrite not_elem_of_cons. split; [|eauto]. intros ->. apply Hno.
      destruct (reg_id _ _ _ _ _ (ok_sessions _ _ _ Hs1) sid q Hq) as (x1 & Hx1 & Eid & Hin).
      destruct (same_labels _ _ _ _ _ _ R3 Hx1) as (y & Hy & _ & Eg). assert (y = x) by congruence. subst y.
      apply elem_ids_of. exists q, x1. split_and!; [|done|done]. now rewrite (client_ids_inj n s c (ss_ClientID x) p Hs Hc Hp'), <- Eg.
    + intros [Hq0 Hg]. assert (sessionsByID (sv_tab s1) !! sid = Some q) as Hq.
      { apply R4. split; [done|]. intros x p' Hx Hp' Hin. apply (Hg x p' Hx Hp'). set_solver. }
      rewrite decide_False; [done|]. intros (p1 & x1 & Hin & Hx1 & Eid)%elem_ids_of.
      destruct (registry_member _ _ _ _ _ _ _ (ok_sessions _ _ _ Hs1) Hin) as (x2 & Hx2 & Eg & Ei).
      assert (x2 = x1) by congruence. subst x2. rewrite Eid, Hq in Ei. injection Ei as ->.
      destruct (same_labels _ _ _ _ _ _ R3 Hx1) as (y & Hy & _ & Eg'). apply (Hg y p); [done| |set_solver]. now rewrite <- Eg', Eg.
Qed.

Lemma purge_loop n l s :
  server_ok n s -> NoDup l -> (forall p, p ∈ l -> exists c, v41ClientsByID (sv_tab s) !! c = Some p) ->
  swp no_fault (s_forM l purgeV41Client) (fun _ s' => server_ok n s' /\ exists gone, reaped gone s s' /\ forall p, p ∈ gone <-> p ∈ l) s.
Proof.
  intros Hs Hnd Hin.
  apply (swp_forM _ _ (fun rest s' => server_ok n s' /\ NoDup rest /\ exists gone, reaped gone s s' /\
    (forall p, p ∈ l <-> p ∈ gone \/ p ∈ rest) /\ (forall p, p ∈ gone -> p ∉ rest))).
  - split_and!; [done|done|]. exists []. split_and!; [apply reaped_nil| |]; set_solver.
  - intros p rest s1 (Hs1 & [Hp Hn]%NoDup_cons & gone & Hr & Hl & Hd). destruct (Hin p) as [c Hc]; [apply Hl; set_solver|].
    assert (v41ClientsByID (sv_tab s1) !! c = Some p) as Hc1 by (apply (rp_clients _ _ _ Hr); set_solver).
    destruct (cl_id _ _ _ (ok_clients _ _ _ Hs1) c p Hc1) as (r & Hrec & _).
    eapply swp_mono; [now apply (ok_purge a0 a0_wf n c p s1 r)|]. intros [] s2 [Hs2 Hpu]. split_and!; [done|done|].
    exists (p :: gone). split_and!; [now apply (reaped_step n gone c p s s1 s2)| |]; intros q; [rewrite Hl|]; set_solver.
  - intros s' (Hs' & _ & gone & Hr & Hl & _). split; [done|]. exists gone. split; [done|]. set_solver.
Qed.

Lemma elem_to_purge n now s p :
  server_ok n s -> p ∈ to_purge now s <-> exists c r, v41ClientsByID (sv_tab s) !! c = Some p /\
    h41_clients (sv_heap s) !! p = Some r /\ reapable now (sm_leaseDuration (sv_sm s)) r = true.
Proof.
  intros Hs. unfold to_purge. rewrite list_elem_of_In, filter_In, <- list_elem_of_In, list_elem_of_fmap. split.
  - intros [((c & q) & -> & Hq%elem_of_map_to_list) Ht]. cbn in *. exists c. destruct (h41_clients _ !! q) as [r|]; [eauto|done].
  - intros (c & r & Hc & Hr & Ht). rewrite Hr. split; [|done]. exists (c, p). split; [done|]. now apply elem_of_map_to_list.
Qed.

Lemma to_purge_nodup n now s : server_ok n s -> NoDup (to_purge now s).
Proof.
  intros Hs. unfold to_purge. apply NoDup_ListNoDup, List.NoDup_filter, NoDup_ListNoDup. apply NoDup_fmap_2_strong; [|apply NoDup_map_to_list].
  intros [c p] [c' p'] H1%elem_of_map_to_list H2%elem_of_map_to_list E. cbn in E. subst p'.
  now rewrite (client_ids_inj n s c c' p Hs H1 H2).
Qed.

(** Bindings whose session is gone leave; the others stay. *)
Definition orphaned (s : Server) (p : ptr) : Prop :=
  forall b, h41_conns (sv_heap s) !! p = Some b -> sessionsByID (sv_tab s) !! bc_SessionID b = None.

Record unorphaned (rest : list (Z * ptr)) (s s' : Server) : Prop := {
  uo_rest c p : (c, p) ∈ rest -> connByID (sv_tab s') !! c = Some p;
  uo_done c p : connByID (sv_tab s') !! c = Some p <-> connByID (sv_tab s) !! c = Some p /\ ((c, p) ∈ rest \/ ~ orphaned s p);
  uo_heap : sv_heap s' = sv_heap s /\ sv_sm s' = sv_sm s;
  uo_tab : v41ClientsByID (sv_tab s') = v41ClientsByID (sv_tab s) /\ sessionsByID (sv_tab s') = sessionsByID (sv_tab s);
}.

Lemma orphan_loop n s : server_ok n s ->
  swp no_fault (s_forM (map_to_list (connByID (sv_tab s))) drop_orphan) (fun _ s' => server_ok n s' /\ unorphaned [] s s') s.
Proof.
  intros Hs. apply (swp_forM _ _ (fun rest s' => server_ok n s' /\ NoDup rest.*1 /\ unorphaned rest s s')).
  - split_and!; [done|apply NoDup_fst_map_to_list|]. split; try done; intros c p; rewrite elem_of_map_to_list; tauto.
  - intros [c p] rest s1 (Hs1 & Hn & [U1 U2 (U3 & U5) (U4 & U6)]). apply NoDup_cons in Hn as [Hc Hn]. cbn in Hc. unfold drop_orphan.
    assert (connByID (sv_tab s1) !! c = Some p) as Hcp by (apply U1; set_solver).
    destruct (conn_at n c p s1 Hs1 Hcp) as (b & Hb & Eb). apply swp_bind, (swp_known _ _ _ _ _ _ Hb). do 2 swp1.
    assert (forall q, (c, q) ∉ rest) as Hfree. { intros q Hq. apply Hc, list_elem_of_fmap. now exists (c, q). }
    rewrite U6. destruct (sessionsByID (sv_tab s) !! bc_SessionID b) as [q|] eqn:Eq.
    + swp1. split_and!; [done|done|]. split; [set_solver| |done|done]. intros c' p'. rewrite U2. split; [|set_solver].
      intros [H0 [Hin|Hno]]; split; try done; [|now right]. apply elem_of_cons in Hin as [[= -> ->]|Hin]; [|now left].
      right. intros Ho. rewrite U3 in Hb. specialize (Ho b Hb). congruence.
    + unfold removeConnFromSessionLocked. swp_steps. subst c. split_and!; [exact (ok_unbind n p b s1 Hcp Hb Hs1)|done|]. split; cbn; try done.
      * intros c' p' Hin. rewrite lookup_delete_ne; [apply U1; set_solver|]. intros E. rewrite <- E in Hin. now apply Hfree in Hin.
      * intros c' p'. rewrite lookup_delete_Some, U2. split.
        -- intros (Hne & H0 & [Hin|Hno]); split; try done; [|now right]. left. apply elem_of_cons in Hin as [[= -> ->]|Hin]; [done|done].
        -- intros (H0 & Hor). assert (bc_ConnectionID b <> c') as Hne.
           { intros <-. destruct Hor as [Hin|Hno]; [now apply Hfree in Hin|]. apply Hno. intros b' Hb'. rewrite U3 in Hb.
             assert (p' = p) as -> by (apply U2 in Hcp as [? _]; congruence). replace b' with b by congruence. done. }
           split_and!; [done|done|]. destruct Hor; [left; set_solver|now right].
  - intros s' (Hs' & _ & Hu). done.
Qed.

Lemma reap_spec n now s : server_ok n s ->
  swp no_fault (reapExpiredSessions now) (fun _ s' => server_ok n s' /\ exists s1 gone,
    reaped gone s s1 /\ (forall p, p ∈ gone <-> p ∈ to_purge now s) /\ unorphaned [] s1 s') s.
Proof.
  intros Hs. unfold reapExpiredSessions. do 2 swp1. apply swp_bind.
  eapply swp_mono; [apply (purge_loop n _ s Hs); [now apply (to_purge_nodup n)|]|].
  { intros p (c & r & Hc & _)%(elem_to_purge n now s p Hs). eauto. }
  intros [] s1 (Hs1 & gone & Hr & Hg). do 2 swp1. eapply swp_mono; [now apply (orphan_loop n)|]. intros [] s2 [Hs2 Hu]. eauto 8.
Qed.

(** ** Requests of both minor versions *)

Definition on_slots (p : ptr) (f : SlotTable -> SlotTable) : SOp unit :=
  upd_session p (fun x => set_fore_slots (f (ss_ForeChannelSlots x)) x).

Definition s_ignore {A} (m : SOp A) : SOp unit := m;; mret tt.

Inductive Request41 :=
  | Q40 (r : Request)
  | QExchangeID (now : Z) (owner : string) (verifier : bytes) (impl : list NfsImplId4) (addr principal : string)
  | QCreateSession (now clientID seq flags : Z) (fore back : ChannelAttrs) (cbProgram : Z)
  | QCacheCreateSession (clientID : Z) (reply : bytes)
  | QDestroySession (sid : SessionId4) (force : bool)
  | QBind (now conn : Z) (sid : SessionId4) (dir : Z)
  | QUnbind (conn : Z)
  | QActivity (now conn : Z)
  | QDraining (conn : Z) (draining : bool)
  | QConfig (sessions slots conns : Z)
  | QWriter (conn : Z) (open : bool)
  | QFault (clientID : Z) (fault : bool)
  | QStartSender (sid : SessionId4)
  | QBackchannelCtl (sid : SessionId4) (cbProgram : Z) (parms : list CallbackSecParms4)
  | QEvict (clientID : Z)
  | QDestroyClientID (clientID : Z)
  | QRenew (now clientID : Z)
  | QReap (now : Z)
  | QReclaimComplete (clientID : Z)
  | QForceEndGrace
  | QStartGrace (now : Z) (expected : list Z)
  | QBegin (session : ptr) (slot seq : Z) (digest : option bytes)
  | QEnd (session : ptr) (slot seq : Z) (cacheThis : bool) (reply digest : option bytes).

Definition perform41 (q : Request41) : SOp unit :=
  match q with
  | Q40 r => on_sm (perform r)
  | QExchangeID now o v i a p => s_ignore (ExchangeID now o v i a p)
  | QCreateSession now c q f fa ba cb => s_ignore (CreateSession now c q f fa ba cb)
  | QCacheCreateSession c b => CacheCreateSessionResponse c b
  | QDestroySession sid force => destroySessionLocked sid force
  | QBind now c sid dir => s_ignore (BindConnToSession now c sid dir)
  | QUnbind c => UnbindConnection c
  | QActivity now c => UpdateConnectionActivity now c
  | QDraining c b => SetConnectionDraining c b
  | QConfig a b c => SetMaxSessionsPerClient a;; SetMaxSessionSlots b;; SetMaxConnectionsPerSession c
  | QWriter c b => if b then RegisterConnWriter c else UnregisterConnWriter c
  | QFault c b => setBackchannelFault c b
  | QStartSender sid => StartBackchannelSender sid
  | QBackchannelCtl sid p l => UpdateBackchannelParams sid p l
  | QEvict c => EvictV41Client c
  | QDestroyClientID c => DestroyV41ClientID c
  | QRenew now c => RenewV41Lease now c
  | QReap now => reapExpiredSessions now
  | QReclaimComplete c => sm_ReclaimComplete c
  | QForceEndGrace => sm_ForceEndGrace
  | QStartGrace now l => StartGracePeriod now l
  | QBegin p slot seq dg => on_slots p (fun st => (ValidateSequence st slot seq dg).1)
  | QEnd p slot seq b reply dg => on_slots p (fun st => CompleteSlotRequest st slot seq b reply dg)
  end.

(** A failed request leaves its partial effects. *)
Definition run41 (qs : list Request41) (s : Server) : Server := fold_left (fun s q => (perform41 q s).2) qs s.

(** *** Each keeps the tables *)

Definition keeps {A} (n : Z) (m : SOp A) : Prop :=
  forall s, server_ok n s -> swp (server_ok n) m (fun _ => server_ok n) s.

Lemma keeps_sure {A} n (m : SOp A) : (forall s, server_ok n s -> swp no_fault m (fun _ => server_ok n) s) -> keeps n m.
Proof. intros H s Hs. now apply swp_sure, H. Qed.

Lemma keeps_quiet {A} n (m : Op A) : steady m -> quiet m -> keeps n (on_sm m).
Proof. intros H1 H2 s Hs. now apply (swp_quiet a0 a0_wf n). Qed.

Lemma keeps_bind {A B} n (m : SOp A) (k : A -> SOp B) : keeps n m -> (forall a, keeps n (k a)) -> keeps n (m ≫= k).
Proof. intros Hm Hk s Hs. apply swp_bind. eapply swp_mono; [now apply Hm|]. intros a s' Hs'. now apply Hk. Qed.

Lemma keeps_ret {A} n (a : A) : keeps n (mret a).
Proof. now intros s Hs. Qed.

Lemma quiet_grace f : quiet (op_modify (fun s => with_grace (f s) s)).
Proof. done. Qed.
Lemma steady_grace f : steady (op_modify (fun s => with_grace (f s) s)).
Proof. done. Qed.

Lemma keeps_upd_session n p f :
  (forall x, ss_SessionID (f x) = ss_SessionID x /\ ss_ClientID (f x) = ss_ClientID x) -> keeps n (upd_session p f).
Proof. intros Hf s Hs. swp_steps. now apply ok_upd_session. Qed.

Lemma keeps_upd_conn n p f :
  (forall x, bc_ConnectionID (f x) = bc_ConnectionID x /\ bc_SessionID (f x) = bc_SessionID x) -> keeps n (upd_conn p f).
Proof. intros Hf s Hs. swp_steps. now apply ok_upd_conn. Qed.

Lemma keeps_purge n c p s : server_ok n s -> v41ClientsByID (sv_tab s) !! c = Some p ->
  swp no_fault (purgeV41Client p) (fun _ => server_ok n) s.
Proof.
  intros Hs Hc. destruct (cl_id _ _ _ (ok_clients _ _ _ Hs) c p Hc) as (r & Hr & _).
  eapply swp_mono; [now apply (ok_purge a0 a0_wf n c p s r)|]. now intros [] s' [? _].
Qed.

Lemma keeps_Evict n c : keeps n (EvictV41Client c).
Proof. intros s Hs. unfold EvictV41Client. do 4 swp1; [done|]. now apply swp_sure, (keeps_purge n c). Qed.

Lemma keeps_DestroyClientID n c : keeps n (DestroyV41ClientID c).
Proof.
  intros s Hs. unfold DestroyV41ClientID. do 4 swp1; [done|]. do 4 swp1; [done|]. apply swp_bind.
  eapply swp_mono; [now apply swp_sure, (keeps_purge n c)|]. intros [] s' Hs'.
  now apply (keeps_quiet n _ (steady_grace _) (quiet_grace _)).
Qed.

Lemma keeps_Renew n now c : keeps n (RenewV41Lease now c).
Proof.
  intros s Hs. unfold RenewV41Lease. do 3 swp1; swp_steps; [|done]. apply ok_upd_client; [done| |done].
  intros r _ (? & H2 & ? & ?). split; [|done]. split_and!; cbn; try done. rewrite H2. destruct (vc_Lease r); cbn; split; intros [? ?]; eauto; done.
Qed.

Lemma keeps_Cache n c b : keeps n (CacheCreateSessionResponse c b).
Proof.
  intros s Hs. unfold CacheCreateSessionResponse. do 3 swp1; swp_steps; [|done]. apply ok_upd_client; [done| |done].
  intros r _ (? & H2 & ? & ?). split; [|done]. split_and!; cbn; eauto.
Qed.

Lemma keeps_ReclaimComplete n c : keeps n (sm_ReclaimComplete c).
Proof.
  unfold sm_ReclaimComplete. apply keeps_bind; [now intros s Hs|]. intros k. apply keeps_bind.
  - destruct (bool_decide _); [apply keeps_ret|]. apply keeps_bind; [apply keeps_quiet; [apply steady_grace|apply quiet_grace]|].
    intros _. apply keeps_quiet; [solve_steady|apply quiet_reclaimComplete].
  - intros _. apply keeps_bind; [now intros s Hs|]. intros [g|]; [|apply keeps_ret]. destruct (ReclaimComplete c g) as [g' ok].
    apply keeps_bind; [apply keeps_quiet; [apply (steady_grace (fun _ => Some g'))|apply (quiet_grace (fun _ => Some g'))]|]. intros _ s Hs. now swp_steps.
Qed.

Lemma keeps_one n q :
  match q with Q40 _ | QExchangeID _ _ _ _ _ _ | QCreateSession _ _ _ _ _ _ _ => True | _ => keeps n (perform41 q) end.
Proof.
  destruct q; cbn [perform41]; try done.
  - apply keeps_Cache.
  - intros s Hs. eapply swp_mono; [now apply ok_destroySession|]. now intros ? ? [? _].
  - intros s Hs. apply swp_bind. eapply swp_mono; [now apply ok_BindConn|]. now intros ? ? ?.
  - apply keeps_sure. intros s Hs. eapply swp_mono; [now apply (ok_unbindConnection n)|]. now intros ? ? [? _].
  - intros s Hs. unfold UpdateConnectionActivity. do 3 swp1; [now apply keeps_upd_conn|now swp1].
  - intros s Hs. unfold SetConnectionDraining. do 3 swp1; [now apply keeps_upd_conn|now swp1].
  - intros s Hs. unfold SetMaxSessionsPerClient, SetMaxSessionSlots, SetMaxConnectionsPerSession. swp_steps.
    repeat case_match; repeat apply ok_cfg; done.
  - intros s Hs. destruct open; [unfold RegisterConnWriter|unfold UnregisterConnWriter, drop_writer]; swp_steps; now apply ok_back.
  - intros s Hs. unfold setBackchannelFault. swp_steps. now apply ok_back.
  - intros s Hs. unfold StartBackchannelSender. do 4 swp1; [swp1; [done|]|done]. repeat case_match; try (now swp1). now apply keeps_upd_session.
  - intros s Hs. unfold UpdateBackchannelParams. do 4 swp1; [done|]. now apply keeps_upd_session.
  - apply keeps_Evict.
  - apply keeps_DestroyClientID.
  - apply keeps_Renew.
  - apply keeps_sure. intros s Hs. eapply swp_mono; [apply (reap_spec n now s Hs)|]. now intros ? ? [? _].
  - apply keeps_ReclaimComplete.
  - apply keeps_quiet; done.
  - apply keeps_quiet; done.
  - now apply keeps_upd_session.
  - now apply keeps_upd_session.
Qed.

(** *** The counters

    Draws only grow; a request hands out [k] client IDs at most. *)

Definition draws {A} (k : Z) (m : SOp A) : Prop := forall s, let s' := (m s).2 in
  (sm_calls (sv_sm s) <= sm_calls (sv_sm s'))%nat /\ sm_bootEpoch (sv_sm s') = sm_bootEpoch (sv_sm s) /\
  (0 <= sm_nextClientSeq (sv_sm s) -> sm_nextClientSeq (sv_sm s) + k < 2 ^ 32 ->
   sm_nextClientSeq (sv_sm s) <= sm_nextClientSeq (sv_sm s') <= sm_nextClientSeq (sv_sm s) + k).

Lemma draws_steady {A} (m : Op A) : steady m -> draws 0 (on_sm m).
Proof. intros H s. destruct (H (sv_sm s)) as (E & ? & _ & ?). cbn. rewrite E. split_and!; [done|done|lia]. Qed.
Lemma draws_registers {A} (m : Op A) : registers m -> draws 1 (on_sm m).
Proof.
  intros H s. destruct (H (sv_sm s)) as ([E|E] & ? & _ & ?); cbn; rewrite E; (split_and!; [done|done|]); intros ? ?; [lia|].
  rewrite u32_small; [lia|]. unfold in_u32. lia.
Qed.
Lemma draws_bind {A B} k j (m : SOp A) (f : A -> SOp B) : 0 <= k -> 0 <= j -> draws k m -> (forall a, draws j (f a)) -> draws (k + j) (m ≫= f).
Proof.
  intros Hk Hj Hm Hf s. unfold mbind, SOp_bind. destruct (Hm s) as (? & E & Hs). destruct (m s) as [[e|a] s']; cbn in *.
  - split_and!; [done|done|]. intros ? ?. lia.
  - destruct (Hf a s') as (? & ? & Hs'). split_and!; [lia|congruence|]. intros ? ?. specialize (Hs ltac:(lia) ltac:(lia)).
    specialize (Hs' ltac:(lia) ltac:(lia)). lia.
Qed.
Lemma draws_bind0 {A B} (m : SOp A) (f : A -> SOp B) : draws 0 m -> (forall a, draws 0 (f a)) -> draws 0 (m ≫= f).
Proof. now apply (draws_bind 0 0). Qed.
Lemma draws_first {A B} (m : SOp A) (f : A -> SOp B) : draws 1 m -> (forall a, draws 0 (f a)) -> draws 1 (m ≫= f).
Proof. now apply (draws_bind 1 0). Qed.
Lemma draws_then {A B} (m : SOp A) (f : A -> SOp B) : draws 0 m -> (forall a, draws 1 (f a)) -> draws 1 (m ≫= f).
Proof. now apply (draws_bind 0 1). Qed.
Lemma draws_same {A} (m : SOp A) : (forall s, sv_sm (m s).2 = sv_sm s) -> draws 0 m.
Proof. intros H s. cbn. rewrite H. split_and!; [done|done|lia]. Qed.
Lemma draws_forM {A} (l : list A) f : (forall a, draws 0 (f a)) -> draws 0 (s_forM l f).
Proof. intros H. induction l as [|a l IH]; [now apply draws_same|]. cbn [s_forM]. now apply draws_bind0. Qed.
Lemma draws_less {A} (m : SOp A) : draws 0 m -> draws 1 m.
Proof. intros H s. destruct (H s) as (? & ? & ?). split_and!; [done|done|]. intros ? ?. lia. Qed.

Ltac draws1 :=
  lazymatch goal with
  | |- draws 0 (_ ≫= _) => apply draws_bind0; [|intros ?]
  | |- draws 0 (s_forM _ _) => apply draws_forM; intros ?
  | |- draws 0 (s_modify _) => apply draws_same; intros ?; cbn; repeat case_match; reflexivity
  | |- draws 0 (on_sm _) => apply draws_steady; solve_steady
  | |- draws 0 (match ?x with _ => _ end) => destruct x
  | |- draws 0 (s_deref _ _) => apply draws_same; intros ?; unfold s_deref; case_match; done
  | |- draws 0 (mret _) => now apply draws_same
  | |- draws 0 (fun _ => _) => now apply draws_same
  | |- draws 0 ?m => let h := head_of m in unfold h
  end.

Lemma draws_create now o v l a p : draws 1 (createV41Client now o v l a p).
Proof. unfold createV41Client. apply draws_first; [apply draws_registers, registers_client|]. intros; repeat draws1. Qed.

Lemma perform41_draws q : draws 1 (perform41 q).
Proof.
  destruct q; cbn [perform41]; try (apply draws_less; repeat draws1; fail).
  - apply draws_registers, perform_registers.
  - apply draws_first; [|intros; repeat draws1]. unfold ExchangeID. apply draws_then; [repeat draws1|]. intros [p|];
      (apply draws_first; [|intros; repeat draws1]); [|apply draws_create]. apply draws_then; [repeat draws1|]. intros r.
    destruct (bool_decide _); [apply draws_less; repeat draws1|]. apply draws_then; [repeat draws1|]. intros _. apply draws_create.
Qed.

Lemma ok_perform40 n r s : n + 1 < 2 ^ 32 -> server_ok n s ->
  swp (server_ok (n + 1)) (on_sm (perform r)) (fun _ => server_ok (n + 1)) s.
Proof.
  intros Hn [H1 H2 H3 H4 H5 H6 H7 H8 H9]. pose proof (perform_reached false a0 n r (sv_sm s) a0_wf ltac:(lia) ltac:(done) H9) as Hr.
  destruct (perform_registers r (sv_sm s)) as (Hc & He & _ & Hd).
  assert (sm_nextClientSeq (sv_sm s) <= sm_nextClientSeq (perform r (sv_sm s)).2 <= n + 1) as Hseq.
  { destruct Hc as [->| ->]; [lia|]. rewrite u32_small; [lia|]. unfold in_u32. lia. }
  assert (server_ok (n + 1) (with_sm (perform r (sv_sm s)).2 s)).
  { split; cbn; try done.
    - intros sid Hs. destruct (H6 sid Hs) as (k & ? & ?). exists k. split; [lia|done].
    - intros c Hs. rewrite He. destruct (H7 c Hs) as (k & ? & ?). exists k. split; [lia|done].
    - lia.
    - unfold wp in Hr. now destruct (perform r (sv_sm s)) as [[e|x] s']. }
  now apply swp_on_sm.
Qed.

Lemma ok_perform41 n q s : n + 1 < 2 ^ 32 -> distinct_draws (sm_calls (sv_sm s)) -> server_ok n s ->
  server_ok (n + 1) (perform41 q s).2.
Proof.
  intros Hn Hd Hs.
  assert (swp (server_ok (n + 1)) (perform41 q) (fun _ => server_ok (n + 1)) s) as H.
  { pose proof (keeps_one (n + 1) q) as Hk. destruct q; try (apply Hk; now apply ok_more); cbn [perform41].
    - now apply ok_perform40.
    - apply swp_bind. eapply swp_mono; [now apply ok_ExchangeID|]. now intros ? ? ?.
    - apply swp_bind. eapply swp_mono; [apply ok_CreateSession; [done|now apply ok_more]|]. now intros ? ? ?. }
  unfold swp in H. now destruct (perform41 q s) as [[e|a] s'].
Qed.

Lemma run41_draws qs : forall s, (sm_calls (sv_sm s) <= sm_calls (sv_sm (run41 qs s)))%nat.
Proof.
  induction qs as [|q qs IH]; intros s; cbn; [done|]. destruct (perform41_draws q s) as (? & _ & _). specialize (IH (perform41 q s).2).
  unfold run41 in IH. lia.
Qed.

Lemma run41_ok qs : forall n s, n + Z.of_nat (length qs) < 2 ^ 32 -> distinct_draws (sm_calls (sv_sm (run41 qs s))) ->
  server_ok n s -> server_ok (n + Z.of_nat (length qs)) (run41 qs s).
Proof.
  induction qs as [|q qs IH]; intros n s Hn Hd Hs; cbn [run41 fold_left length] in *.
  - now replace (n + Z.of_nat 0) with n by lia.
  - replace (n + Z.of_nat (S (length qs))) with ((n + 1) + Z.of_nat (length qs)) by lia.
    apply IH; [lia|done|]. apply ok_perform41; [lia| |done].
    intros i j Hi Hj. pose proof (run41_draws (q :: qs) s). apply Hd; unfold run41 in *; cbn in *; lia.
Qed.
End Reach.
