(* ===== verification/Nfs41Replay.v ===== *)
(** * NFSv4.1 state: what holds after any requests

    The theorems on clients, sessions and connections: the tables agree after any
    interleaving of the requests of both minor versions; CREATE_SESSION is executed
    once per sequence ID; the reaper removes what is due and nothing else.  The last
    part is about slot tables: the slots of a session change by SEQUENCE and by the
    completion of its request and by nothing else; the tables keep their shape. *)

From S2P Require Import Prelude.
From S2P Require Import SlotTable.
From S2P Require Import LockTypes.
From S2P Require Import LockManager.
From S2P Require Import Xdr.
From S2P Require Import Nfs4Grace.
From S2P Require Import Nfs4Types.
From S2P Require Import Nfs41Wire.
From S2P Require Import Nfs4State.
From S2P Require Import Nfs41State.
From S2P Require Import Nfs4Locks.
From S2P Require Import Nfs4Deleg.
From S2P Require Import Nfs4Wp.
From S2P Require Import Nfs4Abs.
From S2P Require Import Nfs4Quiet.
From S2P Require Import Nfs4Expiry.
From S2P Require Import Nfs4Reach.
From S2P Require Import Nfs41Facts.
From S2P Require Import Nfs41Reach.

(** A server before its first request. *)
Definition NewServer (sm : StateManager) (cfg : Config41) : Server :=
  mkServer sm (mkHeap41 ∅ ∅ ∅ 0) (mkTables41 ∅ ∅ ∅ ∅ ∅ ∅) (mkBackchannel ∅ ∅ ∅) cfg.

Section After.
Context `{L : Nfs4Lib}.
Variables (lms : gmap string Manager) (recovery : option (gmap string V4ClientRecoveryRecord)).
Variables (serverEpoch epoch lease grace : Z) (cfg : Config41) (qs : list Request41).

Let s0 : StateManager := NewStateManager lms recovery serverEpoch epoch lease grace.
Let s : Server := run41 qs (NewServer s0 cfg).

Lemma new_server_ok : server_ok (abs s0) 0 (NewServer s0 cfg).
Proof.
  split; cbn; try done; try (apply registry_empty || apply new_reached); try (intros ? [? H]; now rewrite lookup_empty in H).
Qed.

Lemma after_ok : Z.of_nat (length qs) < 2 ^ 32 -> distinct_draws (sm_calls (sv_sm s)) ->
  server_ok (abs s0) (Z.of_nat (length qs)) s.
Proof. intros Hn Hd. apply (run41_ok (abs s0) (new_wf lms recovery serverEpoch epoch lease grace) qs 0); [lia|done|apply new_server_ok]. Qed.

(** The tables of both minor versions agree. *)
Definition agreement (s : Server) : Prop :=
  clients_ok (h41_clients (sv_heap s)) (v41ClientsByID (sv_tab s)) (v41ClientsByOwner (sv_tab s)) /\
  registry_ok ss_SessionID ss_ClientID (h41_sessions (sv_heap s)) (sessionsByID (sv_tab s)) (sessionsByClientID (sv_tab s)) /\
  (forall c, is_Some (sessionsByClientID (sv_tab s) !! c) -> exists p r, v41ClientsByID (sv_tab s) !! c = Some p /\
     h41_clients (sv_heap s) !! p = Some r /\ vc_Confirmed r = true) /\
  registry_ok bc_ConnectionID bc_SessionID (h41_conns (sv_heap s)) (connByID (sv_tab s)) (connBySession (sv_tab s)) /\
  a_wf (abs (sv_sm s)).

Lemma after_agreement : Z.of_nat (length qs) < 2 ^ 32 -> distinct_draws (sm_calls (sv_sm s)) -> agreement s.
Proof.
  intros Hn Hd. pose proof (after_ok Hn Hd) as Hs. pose proof (new_wf lms recovery serverEpoch epoch lease grace) as Hw.
  split_and!; try apply Hs. exact (st_wf _ _ (reach_stable _ Hw _) _ (ok_v40 _ _ _ Hs)).
Qed.
End After.

(** ** CREATE_SESSION and its sequence IDs *)

(** The sequence ID and the cached reply of a client's record. *)
Definition create_slot (s : Server) (c : Z) : option (Z * option bytes) :=
  r ← v41ClientsByID (sv_tab s) !! c ≫= fun p => h41_clients (sv_heap s) !! p; Some (vc_SequenceID r, vc_CachedCreateSessionRes r).

(** The requests that write the record's slot. *)
Definition writes_slot (c : Z) (q : Request41) : bool :=
  match q with QCreateSession _ c' _ _ _ _ _ | QCacheCreateSession c' _ => c' =? c | _ => false end.

Section Once.
Context `{L : Nfs4Lib}.
Variable a0 : Abs.
Hypothesis a0_wf : a_wf a0.
Abbreviation server_ok := (server_ok a0).

(** The ID was handed out before. *)
Definition issued (c : Z) (s : Server) : Prop :=
  exists k, 1 <= k <= sm_nextClientSeq (sv_sm s) /\ c = Z.shiftl (sm_bootEpoch (sv_sm s)) 32 .| k.

(** A client is left alone, or forgotten. *)
Definition spares (c : Z) (s s' : Server) : Prop :=
  create_slot s' c = create_slot s c \/ create_slot s' c = None.

Lemma spares_trans c s1 s2 s3 : spares c s1 s2 -> spares c s2 s3 -> spares c s1 s3.
Proof. unfold spares. intros [<-|E1] [->| ->]; auto. Qed.

(** The index by ID and the record at a pointer stay. *)
Definition avoids {A} (p : ptr) (m : SOp A) : Prop := forall s,
  v41ClientsByID (sv_tab (m s).2) = v41ClientsByID (sv_tab s) /\ h41_clients (sv_heap (m s).2) !! p = h41_clients (sv_heap s) !! p.

Lemma avoids_bind {A B} p (m : SOp A) (k : A -> SOp B) : avoids p m -> (forall a, avoids p (k a)) -> avoids p (m ≫= k).
Proof.
  intros Hm Hk s. unfold mbind, SOp_bind. destruct (Hm s). destruct (m s) as [[e|a] s']; cbn in *; [done|].
  destruct (Hk a s'). split; congruence.
Qed.

Lemma avoids_upd p q f : q <> p -> avoids p (upd_v41client q f).
Proof. intros Hne s. cbn. now rewrite lookup_alter_ne. Qed.

Lemma avoids_spares {A} (m : SOp A) c s : (forall p, v41ClientsByID (sv_tab s) !! c = Some p -> avoids p m) ->
  (v41ClientsByID (sv_tab s) !! c = None -> v41ClientsByID (sv_tab (m s).2) = v41ClientsByID (sv_tab s)) -> spares c s (m s).2.
Proof.
  intros H H'. unfold spares, create_slot. destruct (v41ClientsByID (sv_tab s) !! c) as [p|] eqn:E.
  - left. destruct (H p eq_refl s) as [-> Eq]. rewrite E. cbn. now rewrite Eq.
  - rewrite H', E by done. now left.
Qed.

Lemma avoids_index {A} (m : SOp A) p s : avoids p m -> v41ClientsByID (sv_tab (m s).2) = v41ClientsByID (sv_tab s).
Proof. intros H. apply H. Qed.

Ltac avoids1 :=
  lazymatch goal with
  | |- avoids _ (_ ≫= _) => apply avoids_bind; [|intros ?]
  | |- avoids _ (upd_v41client _ _) => apply avoids_upd; first [congruence | lia | apply n_Sn]
  | |- avoids _ (s_modify _) => intros ?; cbn; repeat case_match; done
  | |- avoids _ (on_sm _) => now intros ?
  | |- avoids _ (match ?x with _ => _ end) => destruct x
  | |- avoids _ (s_deref _ _) => intros ?; unfold s_deref; case_match; done
  | |- avoids _ (mret _) => now intros ?
  | |- avoids _ (fun _ => _) => intros ?; done
  | |- avoids _ ?m => let h := head_of m in unfold h
  end.

Lemma most_avoid p q :
  match q with
  | QExchangeID _ _ _ _ _ _ | QCreateSession _ _ _ _ _ _ _ | QCacheCreateSession _ _ | QEvict _ | QDestroyClientID _
  | QRenew _ _ | QReap _ => True
  | _ => avoids p (perform41 q)
  end.
Proof. destruct q; cbn [perform41]; try done; repeat avoids1. Qed.

Lemma spares_refl c s : spares c s s.
Proof. now left. Qed.

Lemma spares_same c s s' : v41ClientsByID (sv_tab s') = v41ClientsByID (sv_tab s) ->
  (forall p, v41ClientsByID (sv_tab s) !! c = Some p -> h41_clients (sv_heap s') !! p = h41_clients (sv_heap s) !! p) -> spares c s s'.
Proof.
  intros E H. left. unfold create_slot. rewrite E. destruct (v41ClientsByID (sv_tab s) !! c) as [p|]; cbn; [|done]. now rewrite H.
Qed.

Lemma swp_spares {A} c (m : SOp A) s : swp (spares c s) m (fun _ => spares c s) s <-> spares c s (m s).2.
Proof. unfold swp. now destruct (m s) as [[e|a] s']. Qed.

(** A record's slot survives the updates of its other fields. *)
Lemma spares_upd c p f s : (forall r, vc_SequenceID (f r) = vc_SequenceID r /\ vc_CachedCreateSessionRes (f r) = vc_CachedCreateSessionRes r) ->
  spares c s (upd_v41client p f s).2.
Proof.
  intros Hf. left. unfold create_slot. cbn. destruct (v41ClientsByID (sv_tab s) !! c) as [q|]; cbn; [|done].
  destruct (decide (p = q)) as [->|Hne]; [|now rewrite lookup_alter_ne].
  rewrite lookup_alter_eq. destruct (h41_clients (sv_heap s) !! q) as [r|]; cbn; [|done]. now destruct (Hf r) as [-> ->].
Qed.

Lemma purged_spares n c c' p s s' :
  server_ok n s -> v41ClientsByID (sv_tab s) !! c' = Some p -> purged c' p s s' -> spares c s s'.
Proof.
  intros Hs Hc' Hp. unfold spares, create_slot. rewrite (pu_clients _ _ _ _ Hp). destruct (decide (c' = c)) as [->|Hne].
  - right. now rewrite lookup_delete_eq.
  - left. rewrite lookup_delete_ne by done. destruct (v41ClientsByID (sv_tab s) !! c) as [q|] eqn:E; cbn; [|done].
    rewrite (pu_records _ _ _ _ Hp); [done|]. intros ->. apply Hne. exact (client_ids_inj a0 n s c' c p Hs Hc' E).
Qed.

Lemma swp_purge n c c' p s I :
  server_ok n s -> v41ClientsByID (sv_tab s) !! c' = Some p ->
  swp I (purgeV41Client p) (fun _ s' => server_ok n s' /\ purged c' p s s' /\ spares c s s') s.
Proof.
  intros Hs Hc. destruct (cl_id _ _ _ (ok_clients _ _ _ Hs) c' p Hc) as (r & Hr & _).
  apply swp_sure. eapply swp_mono; [now apply (ok_purge a0 a0_wf n c' p s r)|]. intros [] s' [Hs' Hp]. split_and!; [done|done|].
  now apply (purged_spares n c c' p).
Qed.

Lemma create_spares n c now o v l a pr s I :
  server_ok n s -> n + 1 < 2 ^ 32 -> issued c s -> swp I (createV41Client now o v l a pr) (fun _ => spares c s) s.
Proof.
  intros Hs Hn (k & Hk & Ec). unfold createV41Client. swp1. unfold on_sm, generateClientID. unfold swp at 1. cbv beta iota zeta. cbn [fst snd].
  pose proof (ok_seq _ _ _ Hs) as Hseq. swp_steps. left. unfold create_slot. cbn. rewrite lookup_insert_ne.
  - destruct (v41ClientsByID (sv_tab s) !! c) as [q|] eqn:E; cbn; [|done]. rewrite lookup_insert_ne; [done|].
    destruct (cl_id _ _ _ (ok_clients _ _ _ Hs) c q E) as (r & Hr & _). intros <-.
    destruct (ok_fresh _ _ _ Hs (h41_next (sv_heap s)) ltac:(lia)) as (? & _). congruence.
  - rewrite Ec. intros E. apply (f_equal (fun z => z mod 2 ^ 32)) in E.
    rewrite u32_small in E by (unfold in_u32; lia). rewrite !client_id_low in E by lia. lia.
Qed.

Lemma impl_keeps l r :
  vc_SequenceID (applyImplInfo l r) = vc_SequenceID r /\ vc_CachedCreateSessionRes (applyImplInfo l r) = vc_CachedCreateSessionRes r.
Proof. unfold applyImplInfo. destruct l; [done|]. now destruct (_ && _). Qed.

Lemma issued_sm c s s' : sm_nextClientSeq (sv_sm s') = sm_nextClientSeq (sv_sm s) -> sm_bootEpoch (sv_sm s') = sm_bootEpoch (sv_sm s) ->
  issued c s -> issued c s'.
Proof. unfold issued. now intros -> ->. Qed.

Lemma exchange_spares n c now o v l a pr s :
  server_ok n s -> n + 1 < 2 ^ 32 -> issued c s -> spares c s (ExchangeID now o v l a pr s).2.
Proof.
  intros Hs Hn Hc. apply swp_spares. unfold ExchangeID. do 3 swp1.
  assert (forall (m : SOp ptr), swp (spares c s) m (fun _ => spares c s) s -> swp (spares c s) m (fun p => swp (spares c s) (
      record ← s_deref h41_clients p; identity ← s_gets (fun s => serverIdentity (sv_cfg s));
      mret (mkExchangeIDResult (vc_ClientID record) (u32 (vc_SequenceID record + 1))
        (EXCHGID4_FLAG_USE_NON_PNFS .| (if vc_Confirmed record then EXCHGID4_FLAG_CONFIRMED_R else 0))
        (id_ServerOwner identity) (id_ServerScope identity) [id_ImplID identity])) (fun _ => spares c s)) s) as Hrest.
  { intros m Hm. eapply swp_mono; [exact Hm|]. intros p s2 Hs2. now swp_steps. }
  apply Hrest. clear Hrest. destruct (v41ClientsByOwner (sv_tab s) !! o) as [p|] eqn:Eo; [|now apply (create_spares n)].
  destruct (cl_owner _ _ _ (ok_clients _ _ _ Hs) o p Eo) as (r & Hr & Er & Ei). swp1. apply (swp_known _ _ _ _ _ _ Hr). swp1.
  - do 2 swp1; [apply spares_refl|]. apply swp_bind, swp_spares, spares_upd. intros r'. split; etrans; try apply impl_keeps; done.
  - apply swp_bind. eapply swp_mono; [now apply (swp_purge n c (vc_ClientID r) p)|]. intros [] s1 (Hs1 & Hp & Hsp).
    eapply swp_mono; [apply swp_sure, (create_spares n c)|]; try done.
    + destruct (pu_counters _ _ _ _ Hp) as (? & ? & _). now apply (issued_sm c s).
    + intros q s2 Hs2. now apply spares_trans with s1.
Qed.

(** *** Each request spares the others' slots *)

Lemma create_session_spares n c now c' q fl fa ba cb s :
  server_ok n s -> c' <> c -> spares c s (CreateSession now c' q fl fa ba cb s).2.
Proof.
  intros Hs Hne. apply swp_spares. unfold CreateSession. do 4 swp1; [apply spares_refl|]. rename a into p'. swp1. swp1; [apply spares_refl|].
  apply swp_spares, avoids_spares.
  - intros p Hp. assert (p' <> p) as Hpp by (intros ->; apply Hne; exact (client_ids_inj a0 n s c' c p Hs H Hp)). repeat avoids1.
  - intros _. apply (avoids_index _ (S p')). repeat avoids1.
Qed.

Lemma reaped_spares c gone s s' : reaped gone s s' -> spares c s s'.
Proof.
  intros Hr. unfold spares, create_slot. destruct (v41ClientsByID (sv_tab s') !! c) as [p|] eqn:E; [|now right].
  left. apply (rp_clients _ _ _ Hr) in E as [-> Hp]. cbn. now rewrite (rp_records _ _ _ Hr).
Qed.

Lemma perform41_spares n c q s :
  n + 1 < 2 ^ 32 -> server_ok n s -> issued c s -> writes_slot c q = false -> spares c s (perform41 q s).2.
Proof.
  intros Hn Hs Hc Hw. pose proof (fun p => most_avoid p q) as Hmost.
  destruct q; try (apply avoids_spares; [intros p _; apply Hmost|intros _; apply (Hmost 0%nat s)]); cbn [perform41 writes_slot] in *.
  - unfold s_ignore. apply swp_spares, swp_bind. eapply swp_mono; [apply swp_spares, (exchange_spares n); done|]. now intros.
  - unfold s_ignore. apply swp_spares, swp_bind. eapply swp_mono; [apply swp_spares, (create_session_spares n); [done|lia]|]. now intros.
  - unfold CacheCreateSessionResponse. apply swp_spares. do 2 swp1. destruct (v41ClientsByID (sv_tab s) !! clientID) as [p'|] eqn:E;
      [|swp1; apply spares_refl]. apply swp_spares. apply avoids_spares.
    + intros p Hp. apply avoids_upd. intros ->. assert (clientID = c) by exact (client_ids_inj a0 n s clientID c p Hs E Hp). lia.
    + done.
  - unfold EvictV41Client. apply swp_spares. do 4 swp1; [apply spares_refl|].
    eapply swp_mono; [now apply (swp_purge n c clientID)|]. now intros [] s' (_ & _ & ?).
  - unfold DestroyV41ClientID. apply swp_spares. do 4 swp1; [apply spares_refl|]. do 4 swp1; [apply spares_refl|]. apply swp_bind.
    eapply swp_mono; [now apply (swp_purge n c clientID)|]. intros [] s' (_ & _ & H'). exact H'.
  - unfold RenewV41Lease. apply swp_spares. do 2 swp1. destruct (v41ClientsByID (sv_tab s) !! clientID) as [p'|];
      [|swp1; apply spares_refl]. now apply swp_spares, spares_upd.
  - apply swp_spares, swp_sure. eapply swp_mono; [apply (reap_spec a0 a0_wf n now s Hs)|].
    intros [] s' (_ & s1 & gone & Hr & _ & [_ _ [Eh _] [Et _]]). apply spares_trans with s1; [now apply (reaped_spares c gone)|].
    apply spares_same; [done|]. intros. now rewrite Eh.
Qed.

(** A session just created is what the record remembers. *)
Lemma create_session_slot now c q fl fa ba cb s res :
  (CreateSession now c q fl fa ba cb s).1 = inr (inl res) ->
  create_slot (CreateSession now c q fl fa ba cb s).2 c = Some (q, Some (cr_EncodedRes res)).
Proof.
  intros E. assert (swp (fun _ => True) (CreateSession now c q fl fa ba cb)
    (fun x s' => x = inl res -> create_slot s' c = Some (q, Some (cr_EncodedRes res))) s) as H.
  2: { unfold swp in H. destruct (CreateSession now c q fl fa ba cb s) as [[e|x] s']; cbn in *; [done|]. injection E as ->. auto. }
  clear E. unfold CreateSession. do 4 swp1; [done|]. rename a into p. swp1. swp1; [done|]. rename x into r.
  swp1; [swp_steps; done|]. do 2 swp1; [done|]. do 6 swp1; [done|]. cbv beta. apply swp_bind. unfold NewSession. swp1.
  apply swp_on_sm; [done|]. intros k _. swp1. set (x := mkSession _ _ _ _ _ _ _ _ _ _ _). set (e := CreateSessionRes_Encode _).
  unfold register_session. do 7 swp1. destruct (vc_Confirmed r).
  - swp_steps; [done|]. intros [= <-]. unfold create_slot. cbn. rewrite H. cbn. rewrite !lookup_alter_eq, H0. cbn.
    repeat f_equal. lia.
  - swp_steps. apply swp_on_sm; [done|]. intros [] _. swp_steps; [done|]. intros [= <-]. unfold create_slot. cbn.
    rewrite H. cbn. rewrite !lookup_alter_eq, H0. cbn. repeat f_equal. lia.
Qed.

Lemma run41_spares c qs : forall n s,
  n + Z.of_nat (length qs) < 2 ^ 32 -> distinct_draws (sm_calls (sv_sm (run41 qs s))) -> server_ok n s -> issued c s ->
  Forall (fun r => writes_slot c r = false) qs -> spares c s (run41 qs s).
Proof.
  induction qs as [|q qs IH]; intros n s Hn Hd Hs Hc Hw; [apply spares_refl|]. cbn [length] in Hn. inversion Hw as [|? ? Hq Hqs]; subst.
  apply spares_trans with (perform41 q s).2; [apply (perform41_spares n); auto; lia|].
  change (run41 (q :: qs) s) with (run41 qs (perform41 q s).2) in *. apply (IH (n + 1)); try done; [lia| |].
  - apply ok_perform41; [done|lia| |done]. intros i j Hi Hj. destruct (perform41_draws q s) as (? & _ & _).
    pose proof (run41_draws qs (perform41 q s).2). apply Hd; lia.
  - destruct Hc as (k & Hk & Ec), (perform41_draws q s) as (_ & Ee & Hseq), (ok_seq _ _ _ Hs).
    exists k. rewrite Ee. split; [|done]. specialize (Hseq ltac:(lia) ltac:(lia)). lia.
Qed.

(** What a retransmission gets. *)
Lemma create_session_replay n now c q fl fa ba cb s e :
  server_ok n s -> create_slot s c = Some (q, Some e) \/ create_slot s c = None ->
  CreateSession now c q fl fa ba cb s =
    (match v41ClientsByID (sv_tab s) !! c with Some _ => inr (inr e) | None => inl ErrStaleClientID end, s).
Proof.
  intros Hs Hc. unfold CreateSession, mbind, SOp_bind, s_gets. cbn. unfold create_slot in Hc.
  destruct (v41ClientsByID (sv_tab s) !! c) as [p|] eqn:Ep; [|done]. cbn in *.
  destruct (cl_id _ _ _ (ok_clients _ _ _ Hs) c p Ep) as (r & Hr & _). unfold s_deref. rewrite Hr in *. cbn in *.
  destruct Hc as [[= -> ->]|[=]]. now rewrite Z.eqb_refl.
Qed.
End Once.

(** C26: CREATE_SESSION is executed once per sequence ID: when it created a session,
    then whatever the requests that follow, as long as none of them is a newer
    CREATE_SESSION of this client, a retransmission gets the bytes of the first reply
    and changes nothing; when the client is gone in the meantime it is told so. *)
Theorem create_session_exactly_once `{L : Nfs4Lib} (lms : gmap string Manager)
    (recovery : option (gmap string V4ClientRecoveryRecord)) (serverEpoch epoch lease grace : Z) (cfg : Config41)
    (qs qs' : list Request41) (now now' c q fl fl' cb cb' : Z) (fa fa' ba ba' : ChannelAttrs) (res : CreateSessionResult) :
  let s := run41 qs (NewServer (NewStateManager lms recovery serverEpoch epoch lease grace) cfg) in
  let s' := run41 qs' (CreateSession now c q fl fa ba cb s).2 in
  Z.of_nat (length qs + length qs') + 1 < 2 ^ 32 -> distinct_draws (sm_calls (sv_sm s')) ->
  (CreateSession now c q fl fa ba cb s).1 = inr (inl res) ->
  Forall (fun r => writes_slot c r = false) qs' ->
  CreateSession now' c q fl' fa' ba' cb' s' =
    (match v41ClientsByID (sv_tab s') !! c with Some _ => inr (inr (cr_EncodedRes res)) | None => inl ErrStaleClientID end, s').
Proof.
  intros s s' Hn Hd Hres Hw. set (s1 := (CreateSession now c q fl fa ba cb s).2) in *.
  pose proof (new_wf lms recovery serverEpoch epoch lease grace) as Hwf.
  assert (s1 = (perform41 (QCreateSession now c q fl fa ba cb) s).2) as E1.
  { cbn. unfold s_ignore, mbind, SOp_bind. subst s1. now destruct (CreateSession now c q fl fa ba cb s) as [[?|?] ?]. }
  destruct (perform41_draws (QCreateSession now c q fl fa ba cb) s) as (Hd1 & _ & _). rewrite <- E1 in Hd1.
  pose proof (run41_draws qs' s1) as Hd2. fold s' in Hd2.
  assert (forall k, (k <= sm_calls (sv_sm s'))%nat -> distinct_draws k) as Hle by (intros k Hk i j Hi Hj; apply Hd; lia).
  assert (server_ok (abs (NewStateManager lms recovery serverEpoch epoch lease grace)) (Z.of_nat (length qs)) s) as Hs
    by (apply after_ok; [lia|apply Hle; fold s; lia]).
  assert (server_ok (abs (NewStateManager lms recovery serverEpoch epoch lease grace)) (Z.of_nat (length qs) + 1) s1) as Hs1
    by (rewrite E1; apply ok_perform41; [done|lia|apply Hle; lia|done]).
  pose proof (run41_ok _ Hwf qs' (Z.of_nat (length qs) + 1) s1 ltac:(lia) Hd Hs1) as Hs'. fold s' in Hs'.
  pose proof (create_session_slot now c q fl fa ba cb s res Hres) as Hslot. fold s1 in Hslot.
  assert (issued c s1) as Hiss.
  { apply (ok_client_ids _ _ _ Hs1). unfold create_slot in Hslot. destruct (v41ClientsByID (sv_tab s1) !! c); [eauto|done]. }
  apply (create_session_replay _ _ _ _ _ _ _ _ _ _ _ Hs'). rewrite <- Hslot.
  exact (run41_spares _ Hwf c qs' (Z.of_nat (length qs) + 1) s1 ltac:(lia) Hd Hs1 Hiss Hw).
Qed.

(** C23: what the reaper leaves: it never fails; the clients that stay are exactly
    those whose lease runs and who are confirmed or younger than two leases; a
    session stays exactly when its client does, and a connection stays bound exactly
    when its session does. *)
Theorem reaper_exact `{L : Nfs4Lib} (lms : gmap string Manager) (recovery : option (gmap string V4ClientRecoveryRecord))
    (serverEpoch epoch lease grace : Z) (cfg : Config41) (qs : list Request41) (now : Z) :
  let s := run41 qs (NewServer (NewStateManager lms recovery serverEpoch epoch lease grace) cfg) in
  Z.of_nat (length qs) < 2 ^ 32 -> distinct_draws (sm_calls (sv_sm s)) ->
  exists s', reapExpiredSessions now s = (inr tt, s') /\
  (forall c p r, v41ClientsByID (sv_tab s) !! c = Some p -> h41_clients (sv_heap s) !! p = Some r ->
     v41ClientsByID (sv_tab s') !! c = if reapable now (sm_leaseDuration (sv_sm s)) r then None else Some p) /\
  (forall sid q x, sessionsByID (sv_tab s) !! sid = Some q -> h41_sessions (sv_heap s) !! q = Some x ->
     is_Some (sessionsByID (sv_tab s') !! sid) <-> is_Some (v41ClientsByID (sv_tab s') !! ss_ClientID x)) /\
  (forall conn p b, connByID (sv_tab s) !! conn = Some p -> h41_conns (sv_heap s) !! p = Some b ->
     is_Some (connByID (sv_tab s') !! conn) <-> is_Some (sessionsByID (sv_tab s') !! bc_SessionID b)).
Proof.
  intros s Hn Hd. pose proof (after_ok lms recovery serverEpoch epoch lease grace cfg qs Hn Hd) as Hs. fold s in Hs.
  pose proof (new_wf lms recovery serverEpoch epoch lease grace) as Hw.
  pose proof (reap_spec _ Hw _ now s Hs) as H. unfold swp in H. destruct (reapExpiredSessions now s) as [[e|[]] s']; [done|].
  destruct H as (Hs' & s1 & gone & Hr & Hg & Hu). exists s'. split; [done|]. destruct Hr as [R1 R2 R3 R4 (R5 & R6 & R7) R8], Hu as [_ U1 [Uh _] [Ut Us]].
  split_and!.
  - intros c p r Hc Hp. rewrite Ut. destruct (reapable now _ r) eqn:Er.
    + destruct (v41ClientsByID (sv_tab s1) !! c) as [p'|] eqn:E; [|done]. apply R1 in E as [E Hno]. exfalso. apply Hno, Hg.
      apply (elem_to_purge _ _ now s p' Hs). exists c, r. replace p' with p by congruence. done.
    + apply R1. split; [done|]. intros Hin. apply Hg in Hin. apply (elem_to_purge _ _ now s p Hs) in Hin as (c' & r' & _ & Hr' & Ht). congruence.
  - intros sid q x Hq Hx. rewrite Us, Ut. destruct (ok_owned _ _ _ Hs (ss_ClientID x)) as (p & r & Hp & _).
    { destruct (reg_id _ _ _ _ _ (ok_sessions _ _ _ Hs) sid q Hq) as (x' & Hx' & _ & Hin). replace x' with x in Hin by congruence.
      destruct (sessionsByClientID (sv_tab s) !! ss_ClientID x); [eauto|]. now apply elem_of_nil in Hin. }
    split; intros [y Hy].
    + apply R4 in Hy as [Hy Hno]. replace y with q in Hno by congruence. exists p. apply R1. split; [done|]. now apply (Hno x).
    + apply R1 in Hy as [Hy Hno]. exists q. apply R4. split; [done|]. intros x' p' Hx' Hp'. congruence.
  - intros conn p b Hp Hb. rewrite Us. split; intros [y Hy].
    + apply U1 in Hy as [Hy [Hin|Hno]]; [now apply elem_of_nil in Hin|]. rewrite R5 in Hy.
      destruct (sessionsByID (sv_tab s1) !! bc_SessionID b) as [z|] eqn:E; [eauto|]. exfalso. apply Hno. intros b' Hb'.
      rewrite R7 in Hb'. congruence.
    + exists p. apply U1. rewrite R5. split; [done|]. right. intros Ho. specialize (Ho b). rewrite R7 in Ho. rewrite Ho in Hy; done.
Qed.

(** ** A run

    Two clients register and create sessions, a connection is bound, an NFSv4.0
    client comes and goes; later the lease of the first runs out. *)

Definition demo_attrs : ChannelAttrs := mkChannelAttrs 0 65536 65536 4096 16 8 [].
Definition demo_cfg : Config41 := mkConfig41 4 64 16 (newServerIdentity None (0, 0) 7).
Definition demo_new41 : Server := NewServer (NewStateManager ∅ None 0 7 90 0) demo_cfg.

Definition demo_qs : list Request41 :=
  [QExchangeID 10 "alice" [1] [] "a" ""; QExchangeID 11 "bob" [2] [] "b" "";
   QCreateSession 12 (demo_id 1) 1 3 demo_attrs demo_attrs 100;
   QBind 13 5 [0] CDFC4_FORE; Q40 (RSetClientID 14 "carol" [3] demo_cb "" "")].

Definition demo_qs' : list Request41 :=
  [QCreateSession 60 (demo_id 2) 1 0 demo_attrs demo_attrs 100; QBind 61 6 [2] CDFC4_FORE; QRenew 70 (demo_id 2); QUnbind 9].

Definition demo41 : Server := @run41 demo_lib demo_qs demo_new41.

Lemma demo_distinct k : @distinct_draws demo_lib k.
Proof. intros i j _ _ [= E]. lia. Qed.

Definition demo_result : CreateSessionResult :=
  match (@CreateSession demo_lib 50 (demo_id 1) 2 0 demo_attrs demo_attrs 100 demo41).1 with
  | inr (inl r) => r
  | _ => mkCreateSessionResult [] 0 0 demo_attrs demo_attrs []
  end.

Lemma create_session_exactly_once_witness :
  let s' := @run41 demo_lib demo_qs' (@CreateSession demo_lib 50 (demo_id 1) 2 0 demo_attrs demo_attrs 100 demo41).2 in
  @CreateSession demo_lib 80 (demo_id 1) 2 0 demo_attrs demo_attrs 100 s' = (inr (inr (cr_EncodedRes demo_result)), s').
Proof.
  intros s'. assert (v41ClientsByID (sv_tab s') !! demo_id 1 = Some 0%nat) as E by (vm_compute; reflexivity).
  pose proof (@create_session_exactly_once demo_lib ∅ None 0 7 90 0 demo_cfg demo_qs demo_qs' 50 80 (demo_id 1) 2 0 0 100 100
    demo_attrs demo_attrs demo_attrs demo_attrs demo_result) as H.
  change (@run41 demo_lib demo_qs (NewServer (NewStateManager ∅ None 0 7 90 0) demo_cfg)) with demo41 in H. cbv zeta in H. fold s' in H.
  rewrite E in H. apply H.
  - vm_compute. reflexivity.
  - apply demo_distinct.
  - vm_compute. reflexivity.
  - repeat constructor.
Defined.

Definition demo41_later : Server := @run41 demo_lib (demo_qs ++ demo_qs') demo_new41.

Lemma reaper_exact_witness :
  exists s', reapExpiredSessions 120 demo41_later = (inr tt, s') /\
    v41ClientsByID (sv_tab s') !! demo_id 1 = None /\ is_Some (v41ClientsByID (sv_tab s') !! demo_id 2).
Proof.
  destruct (@reaper_exact demo_lib ∅ None 0 7 90 0 demo_cfg (demo_qs ++ demo_qs') 120) as (s' & E & Hc & _);
    [vm_compute; reflexivity|apply demo_distinct|].
  exists s'. split; [exact E|]. destruct (h41_clients (sv_heap demo41_later) !! 0%nat) as [r0|] eqn:E0; [|vm_compute in E0; discriminate].
  destruct (h41_clients (sv_heap demo41_later) !! 1%nat) as [r1|] eqn:E1; [|vm_compute in E1; discriminate].
  split.
  - rewrite (Hc (demo_id 1) 0%nat r0); [|vm_compute; reflexivity|exact E0]. vm_compute in E0. injection E0 as <-. vm_compute. reflexivity.
  - rewrite (Hc (demo_id 2) 1%nat r1); [|vm_compute; reflexivity|exact E1]. vm_compute in E1. injection E1 as <-. vm_compute. eauto.
Defined.

(** The first client's session and the connection bound to it are gone, the
    second's are there. *)
Example demo_reaped :
  let s := (reapExpiredSessions 120 demo41_later).2 in
  ((map_to_list (sessionsByID (sv_tab demo41_later))).*1, (map_to_list (connByID (sv_tab demo41_later))).*1,
   (map_to_list (sessionsByID (sv_tab s))).*1, (map_to_list (connByID (sv_tab s))).*1) = ([[0]; [2]], [5; 6], [[2]], [6]).
Proof. vm_compute. reflexivity. Qed.

(** The ID and the slots of a session. *)
Definition fore_slots (s : Server) (p : ptr) : option (SessionId4 * SlotTable) :=
  (fun x => (ss_SessionID x, ss_ForeChannelSlots x)) <$> h41_sessions (sv_heap s) !! p.

Definition slots_ok (s : Server) : Prop := forall p i st, fore_slots s p = Some (i, st) -> table_ok st.

(** IDs and slots of the sessions there are stay as they are. *)
Record slots_kept (s s' : Server) : Prop := {
  sk_next : (h41_next (sv_heap s) <= h41_next (sv_heap s'))%nat;
  sk_slots p : (p < h41_next (sv_heap s))%nat -> fore_slots s' p = fore_slots s p;
  sk_ok : slots_ok s -> slots_ok s';
}.

Lemma slots_kept_refl s : slots_kept s s.
Proof. now split. Qed.
Lemma slots_kept_trans s1 s2 s3 : slots_kept s1 s2 -> slots_kept s2 s3 -> slots_kept s1 s3.
Proof.
  intros [N1 E1 O1] [N2 E2 O2]. split; [lia| |auto]. intros p Hp. rewrite E2 by lia. auto.
Qed.

Definition slotless {A} (m : SOp A) : Prop := forall s, slots_kept s (m s).2.

Lemma slotless_bind {A B} (m : SOp A) (k : A -> SOp B) : slotless m -> (forall a, slotless (k a)) -> slotless (m ≫= k).
Proof.
  intros Hm Hk s. specialize (Hm s). unfold mbind, SOp_bind. destruct (m s) as [[e|a] s']; cbn in *; [done|].
  eapply slots_kept_trans; [exact Hm|apply Hk].
Qed.

Lemma slotless_forM {A} (l : list A) f : (forall a, slotless (f a)) -> slotless (s_forM l f).
Proof. intros H. induction l as [|a l IH]; [intros s; apply slots_kept_refl|]. cbn [s_forM]. now apply slotless_bind. Qed.

Lemma slotless_same {A} (m : SOp A) : (forall s, h41_sessions (sv_heap (m s).2) = h41_sessions (sv_heap s) /\
  (h41_next (sv_heap s) <= h41_next (sv_heap (m s).2))%nat) -> slotless m.
Proof.
  intros H s. destruct (H s) as [E Hn]. split; [done| |]; unfold slots_ok, fore_slots; rewrite E; auto.
Qed.

Lemma slotless_upd_session p f :
  (forall x, ss_SessionID (f x) = ss_SessionID x /\ ss_ForeChannelSlots (f x) = ss_ForeChannelSlots x) -> slotless (upd_session p f).
Proof.
  intros Hf s. assert (forall q, fore_slots (upd_session p f s).2 q = fore_slots s q) as E.
  { intros q. unfold fore_slots. cbn. destruct (decide (p = q)) as [->|Hne]; [|now rewrite lookup_alter_ne].
    rewrite lookup_alter_eq. destruct (_ !! q) as [x|]; cbn; [|done]. now destruct (Hf x) as [-> ->]. }
  split; [done|auto|]. intros Hs q i st. rewrite E. apply Hs.
Qed.

Lemma slotless_new_session x : table_ok (ss_ForeChannelSlots x) -> slotless (s_new h41_sessions set_sessions x).
Proof.
  intros Hx s. split; cbn; [lia| |].
  - intros p Hp. unfold fore_slots. cbn. rewrite lookup_insert_ne; [done|lia].
  - intros Hs p i st. unfold fore_slots. cbn. destruct (decide (h41_next (sv_heap s) = p)) as [<-|Hne].
    + rewrite lookup_insert_eq. cbn. now intros [= _ <-].
    + rewrite lookup_insert_ne by done. apply Hs.
Qed.

Section Requests.
Context `{L : Nfs4Lib}.

Lemma slotless_new_sessions {A} now c fa ba fl cb (k : Session -> SOp A) :
  (forall x, table_ok (ss_ForeChannelSlots x) -> slotless (k x)) -> slotless (NewSession now c fa ba fl cb ≫= k).
Proof.
  intros Hk s. unfold NewSession, mbind, SOp_bind. cbn. eapply slots_kept_trans; [|apply Hk, NewSlotTable_ok]. now split.
Qed.

Ltac slotless1 :=
  lazymatch goal with
  | |- slotless (NewSession _ _ _ _ _ _ ≫= _) => apply slotless_new_sessions; intros ? ?
  | |- slotless (_ ≫= _) => apply slotless_bind; [|intros ?]
  | |- slotless (s_forM _ _) => apply slotless_forM; intros ?
  | |- slotless (s_new h41_sessions _ _) => apply slotless_new_session; assumption
  | |- slotless (upd_session _ _) => apply slotless_upd_session; intros ?; split; reflexivity
  | |- slotless (match ?x with _ => _ end) => destruct x
  | |- slotless (s_modify _) => apply slotless_same; intros ?; cbn; repeat case_match; cbn; (split; [reflexivity|solve [apply le_n | cbn; lia]])
  | |- slotless (s_deref _ _) => apply slotless_same; intros ?; unfold s_deref; case_match; (split; [reflexivity|solve [apply le_n | cbn; lia]])
  | |- slotless (on_sm _) => apply slotless_same; intros ?; cbn; (split; [reflexivity|solve [apply le_n | cbn; lia]])
  | |- slotless (mret _) => apply slotless_same; intros ?; cbn; (split; [reflexivity|solve [apply le_n | cbn; lia]])
  | |- slotless (fun _ => _) => apply slotless_same; intros ?; cbn; (split; [reflexivity|solve [apply le_n | cbn; lia]])
  | |- slotless ?m => let h := head_of m in unfold h
  end.

(** The requests that are neither the start nor the end of a sequenced one. *)
Definition plain (q : Request41) : bool := match q with QBegin _ _ _ _ | QEnd _ _ _ _ _ _ => false | _ => true end.

Lemma perform41_slotless q : plain q = true -> slotless (perform41 q).
Proof. destruct q; cbn [perform41 plain]; try done; intros _; repeat slotless1. Qed.

Lemma run41_slots_kept qs : forall s, Forall (fun q => plain q = true) qs -> slots_kept s (run41 qs s).
Proof.
  induction qs as [|q qs IH]; intros s Hq; [apply slots_kept_refl|]. inversion Hq; subst.
  apply slots_kept_trans with (perform41 q s).2; [now apply perform41_slotless|now apply IH].
Qed.

(** *** The two that are *)

Lemma ValidateSequence_ok st slot seq dg : table_ok st -> table_ok (ValidateSequence st slot seq dg).1.
Proof.
  intros Ht. unfold ValidateSequence. destruct (slot >=? maxSlots st) eqn:E; [done|]. repeat case_match; try done. cbn.
  rewrite raise_highest_ok; [now apply table_ok_set|apply Ht|cbn; lia].
Qed.

Lemma CompleteSlotRequest_ok st slot seq b reply dg : table_ok st -> table_ok (CompleteSlotRequest st slot seq b reply dg).
Proof.
  intros Ht. unfold CompleteSlotRequest. destruct (slot >=? maxSlots st) eqn:E; [done|].
  rewrite raise_highest_ok; [now apply table_ok_set|apply Ht|cbn; lia].
Qed.

Lemma fore_slots_upd s p f q :
  fore_slots (on_slots p f s).2 q = if decide (p = q) then (fun v => (v.1, f v.2)) <$> fore_slots s q else fore_slots s q.
Proof.
  unfold fore_slots. cbn. destruct (decide (p = q)) as [->|Hne]; [|now rewrite lookup_alter_ne].
  rewrite lookup_alter_eq. now destruct (_ !! q).
Qed.

Lemma on_slots_ok p f s : (forall st, table_ok st -> table_ok (f st)) -> slots_ok s -> slots_ok (on_slots p f s).2.
Proof.
  intros Hf Hs q i st. rewrite fore_slots_upd. destruct (decide _); [|apply Hs].
  destruct (fore_slots s q) as [[i' st']|] eqn:E; cbn; [|done]. intros [= <- <-]. eauto.
Qed.

Lemma perform41_slots_ok q s : slots_ok s -> slots_ok (perform41 q s).2.
Proof.
  intros Hs. destruct (plain q) eqn:E; [now apply (sk_ok _ _ (perform41_slotless q E s))|].
  destruct q; try done; apply on_slots_ok; auto using ValidateSequence_ok, CompleteSlotRequest_ok.
Qed.

Lemma run41_slots_ok qs : forall s, slots_ok s -> slots_ok (run41 qs s).
Proof. induction qs as [|q qs IH]; intros s Hs; [done|]. cbn. now apply IH, perform41_slots_ok. Qed.

(** *** One slot *)

Lemma get_set st slot sl t : table_ok st -> slot < maxSlots st ->
  get_slot (set_slot st slot sl) t = if decide (Z.to_nat t = Z.to_nat slot) then sl else get_slot st t.
Proof.
  intros (Hm & Hlen & _) Hs. unfold MinSlots in Hm. unfold get_slot, set_slot. cbn. destruct (decide _) as [->|Hne].
  - now rewrite list_lookup_insert_eq by lia.
  - now rewrite list_lookup_insert_ne.
Qed.

(** A table that holds a slot. *)
Definition holds (st : SlotTable) (slot : Z) (sl : Slot) : Prop := table_ok st /\ slot < maxSlots st /\ get_slot st slot = sl.

Lemma holds_validate st slot sl t seq dg : Z.to_nat t <> Z.to_nat slot -> holds st slot sl -> holds (ValidateSequence st t seq dg).1 slot sl.
Proof.
  intros Hne (Ht & Hs & Hg). split; [now apply ValidateSequence_ok|]. unfold ValidateSequence. destruct (t >=? maxSlots st) eqn:E; [done|].
  repeat case_match; try done. cbn [fst]. rewrite raise_highest_ok; [|apply Ht|cbn; lia]. split; [done|].
  rewrite get_set, decide_False by (done || lia). done.
Qed.

Lemma holds_complete st slot sl t seq b reply dg :
  Z.to_nat t <> Z.to_nat slot -> holds st slot sl -> holds (CompleteSlotRequest st t seq b reply dg) slot sl.
Proof.
  intros Hne (Ht & Hs & Hg). split; [now apply CompleteSlotRequest_ok|]. unfold CompleteSlotRequest. destruct (t >=? maxSlots st) eqn:E; [done|].
  rewrite raise_highest_ok; [|apply Ht|cbn; lia]. split; [done|]. rewrite get_set, decide_False by (done || lia). done.
Qed.

(** What the slot of an answered request holds. *)
Definition answered (seq : Z) (reply : bytes) (dg : option bytes) : Slot :=
  mkSlot seq false (Some reply) (if (0 <? blen dg)%nat then dg else None).

Lemma complete_holds st slot seq reply dg :
  table_ok st -> slot < maxSlots st -> holds (CompleteSlotRequest st slot seq true (Some reply) dg) slot (answered seq reply dg).
Proof.
  intros Ht Hs. split; [now apply CompleteSlotRequest_ok|]. unfold CompleteSlotRequest. destruct (slot >=? maxSlots st) eqn:E; [lia|].
  rewrite raise_highest_ok; [|apply Ht|cbn; lia]. split; [done|]. rewrite get_set, decide_True by (done || lia). done.
Qed.

Lemma validate_answered st slot seq reply dg :
  holds st slot (answered seq reply dg) -> ValidateSequence st slot seq dg = (st, ResRetry (answered seq reply dg)).
Proof.
  intros (Ht & Hs & Hg). unfold ValidateSequence. destruct (slot >=? maxSlots st) eqn:E; [lia|]. rewrite Hg. unfold answered. cbn [SeqID InUse CachedReply RequestDigest].
  destruct (seq =? u32 (seq + 1)) eqn:E1.
  { apply Z.eqb_eq in E1. exfalso. unfold u32, wrap in E1.
    pose proof (Z.div_mod (seq + 1) (2 ^ 32) ltac:(lia)). assert (seq = (seq + 1) - 2 ^ 32 * ((seq + 1) / 2 ^ 32)) by lia. nia. }
  rewrite Z.eqb_refl. destruct (0 <? blen dg)%nat eqn:Eb; cbn [blen]; [|done]. rewrite Eb. unfold bytes_Equal.
  now rewrite bool_decide_true.
Qed.
End Requests.
