(* ===== verification/Nfs4Handlers.v ===== *)
(** * NFSv4 operations on client and session state
      ([internal/adapter/nfs/v4/handlers], [internal/adapter/nfs/v4/v41/handlers])

    An operation of a COMPOUND reads its arguments off the request, works on the
    context of the request and on the server, and answers with a status and encoded
    bytes.  [C X] is that shape; [X] is the rest of the server (metadata, content,
    shares), which the operations here do not look into.  The clock is read once
    per COMPOUND ([cc_Now]); [cc_Err i] says whether the request is cancelled when
    the loop reaches operation [i]. *)

From stdpp Require Import pretty.
From S2P Require Import Prelude.
From S2P Require Import SlotTable.
From S2P Require Import Xdr.
From S2P Require Import Nfs4Grace.
From S2P Require Import Nfs4Types.
From S2P Require Import Nfs41Wire.
From S2P Require Import Nfs4State.
From S2P Require Import Nfs41State.
From S2P Require Import Nfs4Locks.
From S2P Require Import Nfs4Deleg.

(** ** Constants *)

Definition OP_DELEGPURGE : Z := 7.
Definition OP_DELEGRETURN : Z := 8.
Definition OP_GETFH : Z := 10.
Definition OP_LOCK : Z := 12.
Definition OP_LOCKT : Z := 13.
Definition OP_LOCKU : Z := 14.
Definition OP_OPENATTR : Z := 19.
Definition OP_OPEN_CONFIRM : Z := 20.
Definition OP_OPEN_DOWNGRADE : Z := 21.
Definition OP_PUTFH : Z := 22.
Definition OP_PUTPUBFH : Z := 23.
Definition OP_PUTROOTFH : Z := 24.
Definition OP_RENEW : Z := 30.
Definition OP_RESTOREFH : Z := 31.
Definition OP_SAVEFH : Z := 32.
Definition OP_SETCLIENTID : Z := 35.
Definition OP_SETCLIENTID_CONFIRM : Z := 36.
Definition OP_RELEASE_LOCKOWNER : Z := 39.
Definition OP_BACKCHANNEL_CTL : Z := 40.
Definition OP_BIND_CONN_TO_SESSION : Z := 41.
Definition OP_EXCHANGE_ID : Z := 42.
Definition OP_CREATE_SESSION : Z := 43.
Definition OP_DESTROY_SESSION : Z := 44.
Definition OP_FREE_STATEID : Z := 45.
Definition OP_SEQUENCE : Z := 53.
Definition OP_TEST_STATEID : Z := 55.
Definition OP_DESTROY_CLIENTID : Z := 57.
Definition OP_RECLAIM_COMPLETE : Z := 58.
Definition OP_REMOVEXATTR : Z := 75.
Definition OP_ILLEGAL : Z := 10044.

Definition NFS4ERR_STALE : Z := 70.
Definition NFS4ERR_BADHANDLE : Z := 10001.
Definition NFS4ERR_NOTSUPP : Z := 10004.
Definition NFS4ERR_DENIED : Z := 10010.
Definition NFS4ERR_CLID_INUSE : Z := 10017.
Definition NFS4ERR_NOFILEHANDLE : Z := 10020.
Definition NFS4ERR_MINOR_VERS_MISMATCH : Z := 10021.
Definition NFS4ERR_NOT_SAME : Z := 10027.
Definition NFS4ERR_RESTOREFH : Z := 10030.
Definition NFS4ERR_BADXDR : Z := 10036.
Definition NFS4ERR_OP_ILLEGAL : Z := 10044.
Definition NFS4ERR_SEQUENCE_POS : Z := 10064.
Definition NFS4ERR_OP_NOT_IN_SESSION : Z := 10071.
Definition NFS4ERR_ENCR_ALG_UNSUPP : Z := 10079.
Definition NFS4_FHSIZE : nat := 128.

(** ** Requests in progress *)

Record CompoundContext := mkCompoundContext {
  cc_CurrentFH : option bytes;
  cc_SavedFH : option bytes;
  cc_ClientAddr : string;
  cc_AuthFlavor : Z;
  cc_UID : option Z;
  cc_GID : option Z;
  cc_GIDs : list Z;
  cc_ClientState : option Z;
  cc_SkipOwnerSeqid : bool;
  cc_ConnectionID : Z;
  cc_RequestDigest : option bytes;
  cc_Now : Z;
  cc_Err : Z -> bool;
}.

Definition set_fh (cur saved : option bytes) (c : CompoundContext) : CompoundContext :=
  mkCompoundContext cur saved (cc_ClientAddr c) (cc_AuthFlavor c) (cc_UID c) (cc_GID c) (cc_GIDs c) (cc_ClientState c)
    (cc_SkipOwnerSeqid c) (cc_ConnectionID c) (cc_RequestDigest c) (cc_Now c) (cc_Err c).
Definition set_skip (c : CompoundContext) : CompoundContext :=
  mkCompoundContext (cc_CurrentFH c) (cc_SavedFH c) (cc_ClientAddr c) (cc_AuthFlavor c) (cc_UID c) (cc_GID c) (cc_GIDs c)
    (cc_ClientState c) true (cc_ConnectionID c) (cc_RequestDigest c) (cc_Now c) (cc_Err c).
Definition set_digest (d : option bytes) (c : CompoundContext) : CompoundContext :=
  mkCompoundContext (cc_CurrentFH c) (cc_SavedFH c) (cc_ClientAddr c) (cc_AuthFlavor c) (cc_UID c) (cc_GID c) (cc_GIDs c)
    (cc_ClientState c) (cc_SkipOwnerSeqid c) (cc_ConnectionID c) d (cc_Now c) (cc_Err c).

Definition Principal (c : CompoundContext) : string :=
  match cc_UID c with Some u => "uid:" +:+ pretty u | None => ""%string end.

Record V41RequestContext := mkV41Context {
  v41_SessionID : SessionId4;
  v41_SlotID : Z;
  v41_SequenceID : Z;
  v41_HighestSlot : Z;
  v41_CacheThis : bool;
  v41_RequestDigest : option bytes;
}.

Record CompoundResult := mkResult { rs_Status : Z; rs_OpCode : Z; rs_Data : bytes }.

Definition RequireCurrentFH (c : CompoundContext) : Z := match cc_CurrentFH c with None => NFS4ERR_NOFILEHANDLE | Some _ => NFS4_OK end.
Definition RequireSavedFH (c : CompoundContext) : Z := match cc_SavedFH c with None => NFS4ERR_RESTOREFH | Some _ => NFS4_OK end.

Definition EncodeStatusOnly (status : Z) : bytes := WriteUint32 status.

(** A result that is a status and nothing else. *)
Definition status_result (op status : Z) : CompoundResult := mkResult status op (EncodeStatusOnly status).

(** A success result; an encoder that fails turns it into SERVERFAULT. *)
Definition encoded_result (op : Z) (e : option bytes) : CompoundResult :=
  match e with Some b => mkResult NFS4_OK op b | None => status_result op NFS4ERR_SERVERFAULT end.

(** Go's [string(b)]. *)
Definition go_string (b : bytes) : string := String.string_of_list_ascii (map (fun z => Ascii.ascii_of_N (Z.to_N z)) b).

Definition MapStateError (e : NErr) : Z :=
  match e with
  | NFS4StateError status => status
  | ErrStaleClientID => NFS4ERR_STALE_CLIENTID
  | ErrClientIDInUse => NFS4ERR_CLID_INUSE
  | _ => NFS4ERR_SERVERFAULT
  end.

(** ** Operations *)

Record Env (X : Type) := mkEnv { en_ctx : CompoundContext; en_rd : bytes; en_srv : Server; en_ext : X }.
#[global] Arguments mkEnv {X} _ _ _ _.
#[global] Arguments en_ctx {X} _.
#[global] Arguments en_rd {X} _.
#[global] Arguments en_srv {X} _.
#[global] Arguments en_ext {X} _.

Definition C (X A : Type) : Type := Env X -> A * Env X.
#[export] Instance C_ret X : MRet (C X) := fun A a e => (a, e).
#[export] Instance C_bind X : MBind (C X) := fun A B k m e => let '(a, e') := m e in k a e'.

Definition c_ctx {X} : C X CompoundContext := fun e => (en_ctx e, e).
Definition c_srv {X} : C X Server := fun e => (en_srv e, e).
Definition c_ext {X} : C X X := fun e => (en_ext e, e).
Definition c_set_ctx {X} (c : CompoundContext) : C X unit := fun e => (tt, mkEnv c (en_rd e) (en_srv e) (en_ext e)).

(** Decoding consumes the request. *)
Definition c_dec {X A} (d : Dec A) : C X (option A) := fun e =>
  let r := d (en_rd e) in (r.1, mkEnv (en_ctx e) r.2 (en_srv e) (en_ext e)).

(** A method of the state manager. *)
Definition c_state {X A} (m : SOp A) : C X (NErr + A) := fun e =>
  let r := m (en_srv e) in (r.1, mkEnv (en_ctx e) (en_rd e) r.2 (en_ext e)).

(** Decode or answer BADXDR. *)
Definition decoded {X A} (op : Z) (d : Dec A) (k : A -> C X CompoundResult) : C X CompoundResult :=
  c_dec d ≫= fun o => match o with None => mret (status_result op NFS4ERR_BADXDR) | Some a => k a end.

(** Run a method of the state manager or answer with its status. *)
Definition managed {X A} (op : Z) (m : SOp A) (k : A -> C X CompoundResult) : C X CompoundResult :=
  c_state m ≫= fun r => match r with inl e => mret (status_result op (MapStateError e)) | inr a => k a end.

Section Handlers.
Context `{L : Nfs4Lib} {X : Type}.

(** ** NFSv4.1 *)

Definition HandleExchangeID (_ : option V41RequestContext) : C X CompoundResult :=
  decoded OP_EXCHANGE_ID ExchangeIdArgs_Decode (fun args =>
    if negb (sp_How (eia_StateProtect args) =? SP4_NONE) then mret (status_result OP_EXCHANGE_ID NFS4ERR_ENCR_ALG_UNSUPP)
    else
      c_ctx ≫= fun ctx =>
      managed OP_EXCHANGE_ID
        (ExchangeID (cc_Now ctx) (go_string (co_OwnerID (eia_ClientOwner args))) (co_Verifier (eia_ClientOwner args))
           (eia_ClientImplId args) (cc_ClientAddr ctx) (Principal ctx))
        (fun result => mret (encoded_result OP_EXCHANGE_ID (ExchangeIdRes_Encode
           (mkExchangeIdRes NFS4_OK (xr_ClientID result) (xr_SequenceID result) (xr_Flags result)
              (mkStateProtect SP4_NONE [] [] []) (xr_ServerOwner result) (xr_ServerScope result) (xr_ServerImplId result)))))).

Definition HandleCreateSession (_ : option V41RequestContext) : C X CompoundResult :=
  decoded OP_CREATE_SESSION CreateSessionArgs_Decode (fun args =>
    if negb (HasAcceptableCallbackSecurity (csa_CbSecParms args)) then mret (status_result OP_CREATE_SESSION NFS4ERR_ENCR_ALG_UNSUPP)
    else
      c_ctx ≫= fun ctx =>
      managed OP_CREATE_SESSION
        (CreateSession (cc_Now ctx) (csa_ClientID args) (csa_SequenceID args) (csa_Flags args) (csa_ForeChannelAttrs args)
           (csa_BackChannelAttrs args) (csa_CbProgram args))
        (fun r => match r with
          | inr cachedReply => mret (mkResult NFS4_OK OP_CREATE_SESSION cachedReply)
          | inl result =>
              (if cc_ConnectionID ctx =? 0 then mret tt
               else c_state (BindConnToSession (cc_Now ctx) (cc_ConnectionID ctx) (cr_SessionID result) CDFC4_FORE) ≫= fun _ => mret tt) ≫= fun _ =>
              mret (mkResult NFS4_OK OP_CREATE_SESSION (cr_EncodedRes result))
          end)).

(** Who asks: the owner of the session of SEQUENCE; without SEQUENCE the owner of
    the session the connection is bound to, or the NFSv4.0 client. *)
Definition resolveRequestingClientID (s : Server) (v41ctx : option V41RequestContext) (ctx : CompoundContext) : option Z :=
  match v41ctx with
  | Some v => '(_, x) ← GetSession s (v41_SessionID v); Some (ss_ClientID x)
  | None =>
      match (if cc_ConnectionID ctx =? 0 then None
             else binding ← GetConnectionBinding s (cc_ConnectionID ctx);
                  '(_, x) ← GetSession s (bc_SessionID binding); Some (ss_ClientID x)) with
      | Some c => Some c
      | None => cc_ClientState ctx
      end
  end.

Definition HandleDestroySession (v41ctx : option V41RequestContext) : C X CompoundResult :=
  decoded OP_DESTROY_SESSION DestroySessionArgs_Decode (fun sid =>
    c_srv ≫= fun s => c_ctx ≫= fun ctx =>
    match (match GetSession s sid with
           | None => NFS4_OK
           | Some (_, target) =>
               match resolveRequestingClientID s v41ctx ctx with
               | None => NFS4ERR_OP_NOT_IN_SESSION
               | Some c => if c =? ss_ClientID target then NFS4_OK else NFS4ERR_NOT_SAME
               end
           end) with
    | 0 => managed OP_DESTROY_SESSION (DestroySession sid) (fun _ => mret (encoded_result OP_DESTROY_SESSION (StatusRes_Encode NFS4_OK)))
    | status => mret (status_result OP_DESTROY_SESSION status)
    end).

Definition HandleBindConnToSession (_ : option V41RequestContext) : C X CompoundResult :=
  decoded OP_BIND_CONN_TO_SESSION BindConnToSessionArgs_Decode (fun args =>
    c_ctx ≫= fun ctx =>
    if cc_ConnectionID ctx =? 0 then mret (status_result OP_BIND_CONN_TO_SESSION NFS4ERR_SERVERFAULT)
    else
      managed OP_BIND_CONN_TO_SESSION (BindConnToSession (cc_Now ctx) (cc_ConnectionID ctx) (bca_SessionID args) (bca_Dir args))
        (fun dir => mret (encoded_result OP_BIND_CONN_TO_SESSION
           (BindConnToSessionRes_Encode (mkBindRes NFS4_OK (bca_SessionID args) dir false))))).

Definition HandleDestroyClientID (v41ctx : option V41RequestContext) : C X CompoundResult :=
  decoded OP_DESTROY_CLIENTID DestroyClientidArgs_Decode (fun clientID =>
    c_srv ≫= fun s => c_ctx ≫= fun ctx =>
    if match resolveRequestingClientID s v41ctx ctx with Some c => negb (c =? clientID) | None => false end
    then mret (status_result OP_DESTROY_CLIENTID NFS4ERR_NOT_SAME)
    else managed OP_DESTROY_CLIENTID (DestroyV41ClientID clientID)
           (fun _ => mret (encoded_result OP_DESTROY_CLIENTID (StatusRes_Encode NFS4_OK)))).

(** The session of SEQUENCE, which the operation needs. *)
Definition in_session (op : Z) (v41ctx : option V41RequestContext) (k : SessionId4 -> Session -> C X CompoundResult) : C X CompoundResult :=
  match v41ctx with
  | None => mret (status_result op NFS4ERR_OP_NOT_IN_SESSION)
  | Some v => c_srv ≫= fun s =>
      match GetSession s (v41_SessionID v) with
      | None => mret (status_result op NFS4ERR_BADSESSION)
      | Some (_, session) => k (v41_SessionID v) session
      end
  end.

Definition HandleBackchannelCtl (v41ctx : option V41RequestContext) : C X CompoundResult :=
  decoded OP_BACKCHANNEL_CTL BackchannelCtlArgs_Decode (fun args =>
    in_session OP_BACKCHANNEL_CTL v41ctx (fun sid session =>
      match ss_BackChannelSlots session with
      | None => mret (status_result OP_BACKCHANNEL_CTL NFS4ERR_INVAL)
      | Some _ =>
          if negb (HasAcceptableCallbackSecurity (bcc_SecParms args)) then mret (status_result OP_BACKCHANNEL_CTL NFS4ERR_INVAL)
          else managed OP_BACKCHANNEL_CTL (UpdateBackchannelParams sid (bcc_CbProgram args) (bcc_SecParms args))
                 (fun _ => mret (encoded_result OP_BACKCHANNEL_CTL (StatusRes_Encode NFS4_OK)))
      end)).

Definition HandleReclaimComplete (v41ctx : option V41RequestContext) : C X CompoundResult :=
  decoded OP_RECLAIM_COMPLETE ReclaimCompleteArgs_Decode (fun _ =>
    in_session OP_RECLAIM_COMPLETE v41ctx (fun _ session =>
      managed OP_RECLAIM_COMPLETE (sm_ReclaimComplete (ss_ClientID session))
        (fun _ => mret (encoded_result OP_RECLAIM_COMPLETE (StatusRes_Encode NFS4_OK))))).

Definition HandleFreeStateid (v41ctx : option V41RequestContext) : C X CompoundResult :=
  decoded OP_FREE_STATEID FreeStateidArgs_Decode (fun stateid =>
    in_session OP_FREE_STATEID v41ctx (fun _ session =>
      managed OP_FREE_STATEID (on_sm (FreeStateid (ss_ClientID session) stateid))
        (fun _ => mret (encoded_result OP_FREE_STATEID (StatusRes_Encode NFS4_OK))))).

Definition HandleTestStateid (_ : option V41RequestContext) : C X CompoundResult :=
  decoded OP_TEST_STATEID TestStateidArgs_Decode (fun stateids =>
    c_srv ≫= fun s => c_ctx ≫= fun ctx =>
    mret (encoded_result OP_TEST_STATEID
      (TestStateidRes_Encode (mkTestStateidRes NFS4_OK (TestStateids (cc_Now ctx) stateids (sv_sm s)))))).

(** SEQUENCE anywhere but at the head of the COMPOUND. *)
Definition HandleLateSequence (_ : option V41RequestContext) : C X CompoundResult :=
  decoded OP_SEQUENCE SequenceArgs_Decode (fun _ => mret (status_result OP_SEQUENCE NFS4ERR_SEQUENCE_POS)).

Definition v41StubHandler {A} (opCode : Z) (decoder : Dec A) (_ : option V41RequestContext) : C X CompoundResult :=
  decoded opCode decoder (fun _ => mret (status_result opCode NFS4ERR_NOTSUPP)).

(** ** SEQUENCE *)

(** What SEQUENCE at the head of a COMPOUND comes to: a result to answer with, the
    reply of the request it repeats, or a reserved slot. *)
Inductive SequenceOutcome :=
  | SeqRefused (r : CompoundResult)
  | SeqReplayed (reply : bytes)
  | SeqStarted (r : CompoundResult) (v41ctx : V41RequestContext) (session : ptr).

Definition refuse (status : Z) : SequenceOutcome := SeqRefused (status_result OP_SEQUENCE status).

Definition reserve_slot (p : ptr) (x : Session) (slotID seqID : Z) (digest : option bytes) : C X seq_result := fun e =>
  let r := ValidateSequence (ss_ForeChannelSlots x) slotID seqID digest in
  let s := (upd_session p (set_fore_slots r.1) (en_srv e)).2 in
  (r.2, mkEnv (en_ctx e) (en_rd e) s (en_ext e)).

Definition HandleSequenceOp : C X SequenceOutcome :=
  c_dec SequenceArgs_Decode ≫= fun o =>
  match o with
  | None => mret (refuse NFS4ERR_BADXDR)
  | Some args =>
      c_srv ≫= fun s =>
      match GetSession s (sa_SessionID args) with
      | None => mret (refuse NFS4ERR_BADSESSION)
      | Some (p, sess) =>
          c_ctx ≫= fun ctx =>
          reserve_slot p sess (sa_SlotID args) (sa_SequenceID args) (cc_RequestDigest ctx) ≫= fun validation =>
          match validation with
          | ResRetry slot =>
              mret (match CachedReply slot with Some b => SeqReplayed b | None => refuse NFS4ERR_SERVERFAULT end)
          | ResErr status => mret (refuse status)
          | ResNew _ =>
              c_state (RenewV41Lease (cc_Now ctx) (ss_ClientID sess)) ≫= fun _ =>
              c_srv ≫= fun s =>
              let sess := default sess (h41_sessions (sv_heap s) !! p) in
              match SequenceRes_Encode (mkSequenceRes NFS4_OK (sa_SessionID args) (sa_SequenceID args) (sa_SlotID args)
                      (GetHighestSlotID (ss_ForeChannelSlots sess)) (GetTargetHighestSlotID (ss_ForeChannelSlots sess))
                      (GetStatusFlags (cc_Now ctx) s sess)) with
              | None => mret (refuse NFS4ERR_SERVERFAULT)
              | Some b =>
                  mret (SeqStarted (mkResult NFS4_OK OP_SEQUENCE b)
                    (mkV41Context (sa_SessionID args) (sa_SlotID args) (sa_SequenceID args) (sa_HighestSlotID args)
                       (sa_CacheThis args) (cc_RequestDigest ctx)) p)
              end
          end
      end
  end.

(** ** NFSv4.0 *)

Definition handleIllegal : C X CompoundResult := mret (status_result OP_ILLEGAL NFS4ERR_OP_ILLEGAL).

(** The operation works on the current file. *)
Definition on_current (op : Z) (k : bytes -> C X CompoundResult) : C X CompoundResult :=
  c_ctx ≫= fun ctx => match cc_CurrentFH ctx with None => mret (status_result op (RequireCurrentFH ctx)) | Some fh => k fh end.

Definition handleSaveFH : C X CompoundResult :=
  on_current OP_SAVEFH (fun fh =>
    c_ctx ≫= fun ctx => c_set_ctx (set_fh (cc_CurrentFH ctx) (Some fh) ctx) ≫= fun _ => mret (status_result OP_SAVEFH NFS4_OK)).

Definition handleRestoreFH : C X CompoundResult :=
  c_ctx ≫= fun ctx =>
  match cc_SavedFH ctx with
  | None => mret (status_result OP_RESTOREFH (RequireSavedFH ctx))
  | Some fh => c_set_ctx (set_fh (Some fh) (cc_SavedFH ctx) ctx) ≫= fun _ => mret (status_result OP_RESTOREFH NFS4_OK)
  end.

Definition handleGetFH : C X CompoundResult :=
  on_current OP_GETFH (fun fh => mret (mkResult NFS4_OK OP_GETFH (WriteUint32 NFS4_OK ++ WriteXDROpaque fh))).

(** The root of the pseudo file system. *)
Definition handlePutRootFH (rootHandle : bytes) : C X CompoundResult :=
  c_ctx ≫= fun ctx =>
  c_set_ctx (set_fh (Some rootHandle) (cc_SavedFH ctx) ctx) ≫= fun _ => mret (status_result OP_PUTROOTFH NFS4_OK).

Definition handlePutPubFH (rootHandle : bytes) : C X CompoundResult :=
  c_ctx ≫= fun ctx =>
  c_set_ctx (set_fh (Some rootHandle) (cc_SavedFH ctx) ctx) ≫= fun _ => mret (status_result OP_PUTPUBFH NFS4_OK).

(** [shareEnabled] is [None] when the handle leads to no known share. *)
Definition handlePutFH (shareEnabled : X -> bytes -> option bool) : C X CompoundResult :=
  decoded OP_PUTFH DecodeOpaque (fun handle =>
    if (NFS4_FHSIZE <? length handle)%nat then mret (status_result OP_PUTFH NFS4ERR_BADHANDLE)
    else if (length handle =? 0)%nat then mret (status_result OP_PUTFH NFS4ERR_BADHANDLE)
    else
      c_ext ≫= fun x =>
      match shareEnabled x handle with
      | Some false => mret (status_result OP_PUTFH NFS4ERR_STALE)
      | _ => c_ctx ≫= fun ctx => c_set_ctx (set_fh (Some handle) (cc_SavedFH ctx) ctx) ≫= fun _ => mret (status_result OP_PUTFH NFS4_OK)
      end).

Definition handleRenew : C X CompoundResult :=
  decoded OP_RENEW DecodeUint64 (fun clientID =>
    c_ctx ≫= fun ctx =>
    managed OP_RENEW (on_sm (RenewLease (cc_Now ctx) clientID)) (fun _ => mret (status_result OP_RENEW NFS4_OK))).

Definition setclientid_args : Dec (bytes * bytes * CallbackInfo) :=
  verifier ← ReadFull NFS4_VERIFIER_SIZE; clientIDStr ← DecodeString; cbProgram ← DecodeUint32; cbNetID ← DecodeString;
  cbAddr ← DecodeString; _ ← DecodeUint32; mret (verifier, clientIDStr, mkCallback cbProgram (go_string cbNetID) (go_string cbAddr)).

Definition handleSetClientID : C X CompoundResult :=
  decoded OP_SETCLIENTID setclientid_args (fun '(verifier, clientIDStr, callback) =>
    c_ctx ≫= fun ctx =>
    managed OP_SETCLIENTID
      (on_sm (SetClientID (cc_Now ctx) (go_string clientIDStr) verifier callback (cc_ClientAddr ctx) (Principal ctx)))
      (fun '(clientID, confirmVerifier) =>
         mret (mkResult NFS4_OK OP_SETCLIENTID (WriteUint32 NFS4_OK ++ WriteUint64 clientID ++ confirmVerifier)))).

Definition handleSetClientIDConfirm : C X CompoundResult :=
  decoded OP_SETCLIENTID_CONFIRM (clientID ← DecodeUint64; v ← ReadFull NFS4_VERIFIER_SIZE; mret (clientID, v)) (fun '(clientID, confirmVerf) =>
    c_ctx ≫= fun ctx =>
    managed OP_SETCLIENTID_CONFIRM (on_sm (ConfirmClientID (cc_Now ctx) clientID confirmVerf))
      (fun _ => mret (status_result OP_SETCLIENTID_CONFIRM NFS4_OK))).

Definition handleDelegReturn : C X CompoundResult :=
  on_current OP_DELEGRETURN (fun _ => decoded OP_DELEGRETURN DecodeStateid4 (fun stateid =>
    managed OP_DELEGRETURN (on_sm (ReturnDelegation stateid)) (fun _ => mret (status_result OP_DELEGRETURN NFS4_OK)))).

Definition handleDelegPurge : C X CompoundResult := c_dec DecodeUint64 ≫= fun _ => mret (status_result OP_DELEGPURGE NFS4ERR_NOTSUPP).
Definition handleOpenAttr : C X CompoundResult := c_dec DecodeUint32 ≫= fun _ => mret (status_result OP_OPENATTR NFS4ERR_NOTSUPP).

Definition asReplay (opCode : Z) (e : NErr) : option CompoundResult :=
  match e with ReplayError status data => Some (mkResult status opCode data) | _ => None end.

(** An error of a sequenced operation: the reply of the request it repeats, or a status. *)
Definition failed (op : Z) (e : NErr) : CompoundResult := default (status_result op (MapStateError e)) (asReplay op e).

(** The reply with the new stateid is remembered for the owner ([OwnerData] is never nil here). *)
Definition answer_open (op : Z) (m : Op OpenSeqResult) : C X CompoundResult :=
  c_state (on_sm m) ≫= fun r =>
  match r with
  | inl e => mret (failed op e)
  | inr res =>
      let buf := WriteUint32 NFS4_OK ++ default [] (EncodeStateid4 (osr_Stateid res)) in
      c_state (on_sm (CacheOpenOwnerResult (osr_ClientID res) (osr_OwnerData res) NFS4_OK buf)) ≫= fun _ =>
      mret (mkResult NFS4_OK op buf)
  end.

Definition handleOpenConfirm : C X CompoundResult :=
  on_current OP_OPEN_CONFIRM (fun _ =>
    decoded OP_OPEN_CONFIRM (stateid ← DecodeStateid4; q ← DecodeUint32; mret (stateid, q)) (fun '(stateid, confirmSeqid) =>
      answer_open OP_OPEN_CONFIRM (ConfirmOpen stateid confirmSeqid))).

Definition handleOpenDowngrade : C X CompoundResult :=
  on_current OP_OPEN_DOWNGRADE (fun _ =>
    decoded OP_OPEN_DOWNGRADE (stateid ← DecodeStateid4; q ← DecodeUint32; a ← DecodeUint32; d ← DecodeUint32; mret (stateid, q, a, d))
      (fun '(stateid, downgradeSeqid, newShareAccess, newShareDeny) =>
         answer_open OP_OPEN_DOWNGRADE (DowngradeOpen stateid downgradeSeqid newShareAccess newShareDeny))).

(** ** Locks *)

Definition pseudoFSHandlePrefix : bytes := [112; 115; 101; 117; 100; 111; 102; 115; 58].
Definition IsPseudoFSHandle (handle : bytes) : bool :=
  (length pseudoFSHandlePrefix <=? length handle)%nat && bool_decide (take (length pseudoFSHandlePrefix) handle = pseudoFSHandlePrefix).

(** The bytes of a Go string. *)
Definition go_bytes (s : string) : bytes := map (fun a => Z.of_N (Ascii.N_of_ascii a)) (String.list_ascii_of_string s).

Definition EncodeLOCK4denied (d : LOCK4denied) : bytes :=
  WriteUint64 (d_Offset d) ++ WriteUint64 (d_Length d) ++ WriteUint32 (d_LockType d) ++ WriteUint64 (d_ClientID d) ++
  WriteXDROpaque (go_bytes (d_OwnerData d)).

Definition denied_reply (d : LOCK4denied) : bytes := WriteUint32 NFS4ERR_DENIED ++ EncodeLOCK4denied d.

(** A file that can be locked. *)
Definition on_lockable (op : Z) (k : bytes -> C X CompoundResult) : C X CompoundResult :=
  on_current op (fun fh => if IsPseudoFSHandle fh then mret (status_result op NFS4ERR_INVAL) else k fh).

(** In NFSv4.1 the sequence numbers of owners are not used. *)
Definition owner_seqid (ctx : CompoundContext) (seqid : Z) : Z := if cc_SkipOwnerSeqid ctx then 0 else seqid.

(** A granted and a denied lock both have their reply remembered. *)
Definition answer_lock (op : Z) (m : Op LockResult) : C X CompoundResult :=
  c_state (on_sm m) ≫= fun r =>
  match r with
  | inl e => mret (failed op e)
  | inr res =>
      let '(status, buf) := match lr_Denied res with
                            | Some d => (NFS4ERR_DENIED, denied_reply d)
                            | None => (NFS4_OK, WriteUint32 NFS4_OK ++ default [] (EncodeStateid4 (lr_Stateid res)))
                            end in
      c_state (on_sm (CacheLockOwnerResult (lr_ClientID res) (lr_OwnerData res) status buf)) ≫= fun _ =>
      mret (mkResult status op buf)
  end.

(** [LOCK4args]: the fields both arms share, then a new lock owner or an old one. *)
Inductive Locker :=
  | NewLockOwner (openSeqid : Z) (openStateid : Stateid4) (lockSeqid lockOwnerClientID : Z) (lockOwnerData : bytes)
  | OldLockOwner (lockStateid : Stateid4) (lockSeqid : Z).
Record LockArgs := mkLockArgs { la_lockType : Z; la_reclaim : bool; la_offset : Z; la_length : Z; la_locker : Locker }.
Definition lock_args : Dec LockArgs :=
  t ← DecodeUint32; r ← DecodeUint32; o ← DecodeUint64; l ← DecodeUint64; n ← DecodeUint32;
  k ← (if negb (n =? 0)
       then oq ← DecodeUint32; os ← DecodeStateid4; lq ← DecodeUint32; c ← DecodeUint64; d ← DecodeOpaque;
            mret (NewLockOwner oq os lq c d)
       else ls ← DecodeStateid4; lq ← DecodeUint32; mret (OldLockOwner ls lq));
  mret (mkLockArgs t (negb (r =? 0)) o l k).

Definition handleLock : C X CompoundResult :=
  on_lockable OP_LOCK (fun fh =>
    decoded OP_LOCK lock_args (fun a =>
      c_ctx ≫= fun ctx =>
      answer_lock OP_LOCK
        (match la_locker a with
         | NewLockOwner oq os lq c d =>
             LockNew (cc_Now ctx) c (go_string d) (owner_seqid ctx lq) os (owner_seqid ctx oq) (go_string fh)
               (la_lockType a) (la_offset a) (la_length a) (la_reclaim a)
         | OldLockOwner ls lq =>
             LockExisting (cc_Now ctx) ls (owner_seqid ctx lq) (la_lockType a) (la_offset a) (la_length a) (la_reclaim a)
         end))).

Definition handleLockT : C X CompoundResult :=
  on_lockable OP_LOCKT (fun fh =>
    decoded OP_LOCKT (t ← DecodeUint32; o ← DecodeUint64; l ← DecodeUint64; c ← DecodeUint64; d ← DecodeOpaque; mret (t, o, l, c, d))
      (fun '(lockType, offset, len, clientID, ownerData) =>
         c_srv ≫= fun s =>
         mret (match TestLock clientID (go_string ownerData) (go_string fh) lockType offset len (sv_sm s) with
               | Some d => mkResult NFS4ERR_DENIED OP_LOCKT (denied_reply d)
               | None => status_result OP_LOCKT NFS4_OK
               end))).

Definition handleLockU : C X CompoundResult :=
  on_lockable OP_LOCKU (fun _ =>
    decoded OP_LOCKU (t ← DecodeUint32; q ← DecodeUint32; ls ← DecodeStateid4; o ← DecodeUint64; l ← DecodeUint64; mret (t, q, ls, o, l))
      (fun '(lockType, seqid, lockStateid, offset, len) =>
         c_ctx ≫= fun ctx => answer_lock OP_LOCKU (UnlockFile lockStateid (owner_seqid ctx seqid) lockType offset len))).

Definition handleReleaseLockOwner : C X CompoundResult :=
  decoded OP_RELEASE_LOCKOWNER (c ← DecodeUint64; o ← DecodeOpaque; mret (c, o)) (fun '(clientID, ownerData) =>
    managed OP_RELEASE_LOCKOWNER (on_sm (ReleaseLockOwner clientID (go_string ownerData)))
      (fun _ => mret (status_result OP_RELEASE_LOCKOWNER NFS4_OK))).
End Handlers.
