(* ===== verification/Nfs4Compound.v ===== *)
(** * COMPOUND ([internal/adapter/nfs/v4/handlers/compound.go], [handler.go],
      [register_v40.go], [register_v41.go])

    A request carries a list of operations.  The dispatcher decodes the header,
    checks the minor version and the number of operations, puts SEQUENCE at the head
    of every NFSv4.1 request but the few that set sessions up, runs the operations
    until one fails, and keeps the reply in the slot of the session for
    retransmissions.  The operations that are not modelled (files, directories, data,
    attributes, extended attributes) are entries of the tables of [Handler]. *)

From S2P Require Import Prelude.
From S2P Require Import SlotTable.
From S2P Require Import Xdr.
From S2P Require Import Nfs4Grace.
From S2P Require Import Nfs4Types.
From S2P Require Import Nfs41Wire.
From S2P Require Import Nfs4State.
From S2P Require Import Nfs41State.
From S2P Require Import Nfs4Locks.
From S2P Require Import Nfs4Deleg.
From S2P Require Import Nfs4Handlers.

Definition V40OpHandler (X : Type) : Type := C X CompoundResult.
Definition V41OpHandler (X : Type) : Type := option V41RequestContext -> C X CompoundResult.

Record Handler (X : Type) := mkHandler {
  hd_blockedOps : gset Z;
  hd_minMinorVersion : Z;
  hd_maxMinorVersion : Z;
  hd_rootHandle : bytes;
  hd_shareEnabled : X -> bytes -> option bool;
  hd_files40 : gmap Z (V40OpHandler X);
  hd_layouts41 : gmap Z (V41OpHandler X);
  hd_v42DispatchTable : gmap Z (V40OpHandler X);
}.
#[global] Arguments mkHandler {X} _ _ _ _ _ _ _ _.
#[global] Arguments hd_blockedOps {X} _.
#[global] Arguments hd_minMinorVersion {X} _.
#[global] Arguments hd_maxMinorVersion {X} _.
#[global] Arguments hd_rootHandle {X} _.
#[global] Arguments hd_shareEnabled {X} _.
#[global] Arguments hd_files40 {X} _.
#[global] Arguments hd_layouts41 {X} _.
#[global] Arguments hd_v42DispatchTable {X} _.

Section Compound.
Context `{L : Nfs4Lib} {X : Type}.
Variable sha256 : bytes -> bytes.
Variable h : Handler X.

(** ** The tables *)

Definition registerV40Ops : gmap Z (V40OpHandler X) :=
  <[OP_PUTFH := handlePutFH (hd_shareEnabled h)]> $
  <[OP_PUTROOTFH := handlePutRootFH (hd_rootHandle h)]> $
  <[OP_PUTPUBFH := handlePutPubFH (hd_rootHandle h)]> $
  <[OP_GETFH := handleGetFH]> $ <[OP_SAVEFH := handleSaveFH]> $ <[OP_RESTOREFH := handleRestoreFH]> $
  <[OP_ILLEGAL := handleIllegal]> $
  <[OP_OPEN_CONFIRM := handleOpenConfirm]> $
  <[OP_SETCLIENTID := handleSetClientID]> $ <[OP_SETCLIENTID_CONFIRM := handleSetClientIDConfirm]> $
  <[OP_RENEW := handleRenew]> $
  <[OP_LOCK := handleLock]> $ <[OP_LOCKT := handleLockT]> $ <[OP_LOCKU := handleLockU]> $
  <[OP_DELEGRETURN := handleDelegReturn]> $ <[OP_DELEGPURGE := handleDelegPurge]> $
  <[OP_OPENATTR := handleOpenAttr]> $ <[OP_OPEN_DOWNGRADE := handleOpenDowngrade]> $
  <[OP_RELEASE_LOCKOWNER := handleReleaseLockOwner]> $
  hd_files40 h.

Definition registerV41Ops : gmap Z (V41OpHandler X) :=
  <[OP_BACKCHANNEL_CTL := HandleBackchannelCtl]> $
  <[OP_BIND_CONN_TO_SESSION := HandleBindConnToSession]> $
  <[OP_EXCHANGE_ID := HandleExchangeID]> $
  <[OP_CREATE_SESSION := HandleCreateSession]> $
  <[OP_DESTROY_SESSION := HandleDestroySession]> $
  <[OP_FREE_STATEID := HandleFreeStateid]> $
  <[OP_SEQUENCE := HandleLateSequence]> $
  <[OP_TEST_STATEID := HandleTestStateid]> $
  <[OP_DESTROY_CLIENTID := HandleDestroyClientID]> $
  <[OP_RECLAIM_COMPLETE := HandleReclaimComplete]> $
  hd_layouts41 h.

(** ** One operation *)

Definition v40OnlyOps (op : Z) : bool :=
  bool_decide (op ∈ [OP_SETCLIENTID; OP_SETCLIENTID_CONFIRM; OP_RENEW; OP_OPEN_CONFIRM; OP_RELEASE_LOCKOWNER]).

Definition consumeV40OnlyArgs (opCode : Z) : Dec unit :=
  if opCode =? OP_SETCLIENTID then
    _ ← ReadFull NFS4_VERIFIER_SIZE; _ ← DecodeString; _ ← DecodeUint32; _ ← DecodeString; _ ← DecodeString; _ ← DecodeUint32; mret tt
  else if opCode =? OP_SETCLIENTID_CONFIRM then _ ← DecodeUint64; _ ← ReadFull NFS4_VERIFIER_SIZE; mret tt
  else if opCode =? OP_RENEW then _ ← DecodeUint64; mret tt
  else if opCode =? OP_OPEN_CONFIRM then _ ← DecodeStateid4; _ ← DecodeUint32; mret tt
  else if opCode =? OP_RELEASE_LOCKOWNER then _ ← DecodeUint64; _ ← DecodeOpaque; mret tt
  else mret tt.

Definition notSuppHandler (opCode : Z) : CompoundResult := status_result opCode NFS4ERR_NOTSUPP.

Definition rejectV40OnlyOp (opCode : Z) : C X CompoundResult :=
  decoded opCode (consumeV40OnlyArgs opCode) (fun _ => mret (notSuppHandler opCode)).

Definition maxValidOpCode (isV41 isV42 : bool) : Z :=
  if isV42 then OP_REMOVEXATTR else if isV41 then OP_RECLAIM_COMPLETE else OP_RELEASE_LOCKOWNER.

(** The result carries the operation's number when the handler left it zero. *)
Definition with_opcode (opCode : Z) (r : CompoundResult) : CompoundResult :=
  if (rs_OpCode r =? 0) && negb (opCode =? 0) then mkResult (rs_Status r) opCode (rs_Data r) else r.

Definition dispatch_table (v41ctx : option V41RequestContext) (opCode : Z) (isV41 isV42 : bool) : C X CompoundResult :=
  if isV41 && v40OnlyOps opCode then rejectV40OnlyOp opCode
  else match hd_v42DispatchTable h !! opCode with
  | Some m => if isV42 then m else mret (notSuppHandler opCode)
  | None =>
      match (if isV41 then registerV41Ops !! opCode else None), registerV40Ops !! opCode with
      | Some m, _ => m v41ctx
      | None, Some m => m
      | None, None =>
          mret (if (3 <=? opCode) && (opCode <=? maxValidOpCode isV41 isV42) then notSuppHandler opCode
                else status_result OP_ILLEGAL NFS4ERR_OP_ILLEGAL)
      end
  end.

Definition dispatchOne (v41ctx : option V41RequestContext) (opCode : Z) (isV41 isV42 : bool) : C X CompoundResult :=
  if bool_decide (opCode ∈ hd_blockedOps h) then mret (notSuppHandler opCode)
  else dispatch_table v41ctx opCode isV41 isV42 ≫= fun r => mret (with_opcode opCode r).

(** ** The loop *)

Record compoundLoopParams := mkLoop {
  lp_isV41 : bool;
  lp_isV42 : bool;
  lp_v41ctx : option V41RequestContext;
  lp_firstOpCode : option Z;
  lp_startIndex : Z;
  lp_hardErrOnDecodeError : bool;
}.

(** The number of the next operation, a status to stop with, or a request to drop. *)
Inductive NextOp := OpAt (opCode : Z) | StopWith (status : Z) | Drop.

Definition next_op (p : compoundLoopParams) (i : Z) : C X NextOp :=
  match (if i =? lp_startIndex p then lp_firstOpCode p else None) with
  | Some opCode => mret (OpAt opCode)
  | None =>
      c_ctx ≫= fun ctx =>
      if cc_Err ctx i then mret (StopWith NFS4ERR_DELAY)
      else
        c_dec DecodeUint32 ≫= fun o =>
        mret (match o with
              | Some opCode => OpAt opCode
              | None => if lp_hardErrOnDecodeError p then Drop else StopWith NFS4ERR_BADXDR
              end)
  end.

(** [n] operations are left, the next is number [i]; [last] is the status so far. *)
Fixpoint run_ops (p : compoundLoopParams) (n : nat) (i last : Z) : C X (option (list CompoundResult * Z)) :=
  match n with
  | O => mret (Some ([], last))
  | S n =>
      next_op p i ≫= fun next =>
      match next with
      | Drop => mret None
      | StopWith status => mret (Some ([], status))
      | OpAt opCode =>
          dispatchOne (lp_v41ctx p) opCode (lp_isV41 p) (lp_isV42 p) ≫= fun result =>
          if rs_Status result =? NFS4_OK then
            run_ops p n (i + 1) NFS4_OK ≫= fun rest =>
            mret (match rest with Some (results, status) => Some (result :: results, status) | None => None end)
          else mret (Some ([result], rs_Status result))
      end
  end.

Definition runCompoundOps (numOps : Z) (p : compoundLoopParams) : C X (option (list CompoundResult * Z)) :=
  run_ops p (Z.to_nat (numOps - lp_startIndex p)) (lp_startIndex p) NFS4_OK.

(** ** Replies *)

Definition encodeCompoundResponse (status : Z) (tag : bytes) (results : list CompoundResult) : bytes :=
  WriteUint32 status ++ WriteXDROpaque tag ++ WriteUint32 (u32 (Z.of_nat (length results))) ++
  mjoin (map (fun r => WriteUint32 (rs_OpCode r) ++ rs_Data r) results).

Definition EncodeAbortCompound (status : Z) : bytes := encodeCompoundResponse status [] [].

(** ** The minor versions *)

Definition dispatchV40 (tag : bytes) (numOps : Z) : C X (option bytes) :=
  if numOps >? MaxCompoundOps then mret (Some (encodeCompoundResponse NFS4ERR_RESOURCE tag []))
  else
    runCompoundOps numOps (mkLoop false false None None 0 true) ≫= fun r =>
    mret (match r with Some (results, lastStatus) => Some (encodeCompoundResponse lastStatus tag results) | None => None end).

Definition IsSessionExemptOp (opCode : Z) : bool :=
  bool_decide (opCode ∈ [OP_EXCHANGE_ID; OP_CREATE_SESSION; OP_DESTROY_SESSION; OP_BIND_CONN_TO_SESSION; OP_DESTROY_CLIENTID]).

Definition dispatchV41Ops (tag : bytes) (firstOpCode numOps : Z) (v41ctx : option V41RequestContext) (isV42 : bool) : C X (option bytes) :=
  runCompoundOps numOps (mkLoop true isV42 v41ctx (Some firstOpCode) 0 false) ≫= fun r =>
  mret (match r with Some (results, lastStatus) => Some (encodeCompoundResponse lastStatus tag results) | None => None end).

(** The slot is released and the reply kept, whatever happened in between. *)
Definition complete_slot (session : ptr) (v : V41RequestContext) (responseBytes : option bytes) : C X unit := fun e =>
  (tt, mkEnv (en_ctx e) (en_rd e)
    (upd_session session (fun x => set_fore_slots
      (CompleteSlotRequest (ss_ForeChannelSlots x) (v41_SlotID v) (v41_SequenceID v) (v41_CacheThis v) responseBytes
         (v41_RequestDigest v)) x) (en_srv e)).2 (en_ext e)).

(** A request whose SEQUENCE reserved a slot. *)
Definition run_in_session (tag : bytes) (numOps : Z) (isV42 : bool) (seqResult : CompoundResult) (v41ctx : V41RequestContext)
    : C X (option bytes) :=
  c_ctx ≫= fun ctx => c_set_ctx (set_skip ctx) ≫= fun _ =>
  c_srv ≫= fun s =>
  if negb (cc_ConnectionID ctx =? 0) && IsConnectionDraining s (cc_ConnectionID ctx)
  then mret (Some (encodeCompoundResponse NFS4ERR_DELAY tag [seqResult]))
  else
    runCompoundOps numOps (mkLoop true isV42 (Some v41ctx) None 1 false) ≫= fun r =>
    mret (match r with
          | Some (opResults, lastStatus) => Some (encodeCompoundResponse lastStatus tag (seqResult :: opResults))
          | None => None
          end).

(** A request whose first operation is SEQUENCE. *)
Definition dispatch_sequenced (tag : bytes) (numOps : Z) (isV42 : bool) : C X (option bytes) :=
  HandleSequenceOp ≫= fun outcome =>
  match outcome with
  | SeqReplayed cachedReply => mret (Some cachedReply)
  | SeqRefused seqResult => mret (Some (encodeCompoundResponse (rs_Status seqResult) tag [seqResult]))
  | SeqStarted seqResult v41ctx session =>
      run_in_session tag numOps isV42 seqResult v41ctx ≫= fun reply =>
      complete_slot session v41ctx reply ≫= fun _ => mret reply
  end.

Definition dispatchV41 (tag : bytes) (numOps : Z) (isV42 : bool) : C X (option bytes) :=
  if numOps >? MaxCompoundOps then mret (Some (encodeCompoundResponse NFS4ERR_RESOURCE tag []))
  else if numOps =? 0 then mret (Some (encodeCompoundResponse NFS4_OK tag []))
  else
    c_dec DecodeUint32 ≫= fun o =>
    match o with
    | None => mret None
    | Some firstOpCode =>
        if IsSessionExemptOp firstOpCode then dispatchV41Ops tag firstOpCode numOps None isV42
        else if negb (firstOpCode =? OP_SEQUENCE) then mret (Some (encodeCompoundResponse NFS4ERR_OP_NOT_IN_SESSION tag []))
        else dispatch_sequenced tag numOps isV42
    end.

(** The header of the request: its tag, minor version and number of operations. *)
Definition compound_header : Dec (bytes * Z * Z) := tag ← DecodeOpaque; minorVersion ← DecodeUint32; numOps ← DecodeUint32; mret (tag, minorVersion, numOps).

Definition process : C X (option bytes) :=
  c_dec compound_header ≫= fun o =>
  match o with
  | None => mret None
  | Some (tag, minorVersion, numOps) =>
      if (minorVersion <? hd_minMinorVersion h) || (hd_maxMinorVersion h <? minorVersion)
      then mret (Some (encodeCompoundResponse NFS4ERR_MINOR_VERS_MISMATCH tag []))
      else if minorVersion =? 0 then dispatchV40 tag numOps
      else if minorVersion =? 1 then dispatchV41 tag numOps false
      else if minorVersion =? 2 then dispatchV41 tag numOps true
      else mret (Some (encodeCompoundResponse NFS4ERR_MINOR_VERS_MISMATCH tag []))
  end.

(** The reply, [None] when the call is dropped, and what becomes of the server. *)
Definition ProcessCompound (ctx : CompoundContext) (data : bytes) (s : Server) (x : X) : option bytes * Server * X :=
  let '(reply, e) := process (mkEnv (set_digest (Some (sha256 data)) ctx) data s x) in (reply, en_srv e, en_ext e).
End Compound.
