(* ===== verification/Nfs4CompoundFacts.v ===== *)
(** * COMPOUND: what requests do to the state

    Whatever bytes a client sends, the client, session, open, lock and delegation
    state of the server afterwards is what a few requests of the state manager make of
    it, so that everything proved about those holds under COMPOUND; a retransmitted
    request gets the bytes of the first reply and changes nothing.  The theorems are
    about histories of a server: COMPOUND requests of any clients, and what happens
    without them (timers, connections coming and going, the reaper).  The contract of
    the dispatcher itself, which operations run, in which order and what is answered,
    holds for any handlers ([dispatched], [compound_contract]). *)

From S2P Require Import Prelude.
From S2P Require Import SlotTable.
From S2P Require Import LockTypes.
From S2P Require Import LockManager.
From S2P Require Import Xdr.
From S2P Require Import Nfs4Grace.
From S2P Require Import Nfs4Types.
From S2P Require Import Nfs41Wire.
From S2P Require Import Nfs4State.
From S2P Require Import Nfs41State.
From S2P Require Import Nfs4Locks.
From S2P Require Import Nfs4Deleg.
From S2P Require Import Nfs4Abs.
From S2P Require Import Nfs4Reach.
From S2P Require Import Nfs41Facts.
From S2P Require Import Nfs41Reach.
From S2P Require Import Nfs41Replay.
From S2P Require Import Nfs4Handlers.
From S2P Require Import Nfs4Compound.

Section Realize.
Context `{L : Nfs4Lib} {X : Type}.

(** ** Operations as requests of the state manager *)

Definition all_plain (qs : list Request41) : Prop := Forall (fun q => plain q = true) qs.

(** The server afterwards is what at most [k] plain requests make of it. *)
Definition realizes {A} (k : nat) (m : C X A) : Prop := forall e, exists qs,
  all_plain qs /\ (length qs <= k)%nat /\ en_srv (m e).2 = run41 qs (en_srv e).

Lemma realizes_idle {A} (m : C X A) : (forall e, en_srv (m e).2 = en_srv e) -> realizes 0 m.
Proof. intros H e. exists []. split_and!; [constructor|done|apply H]. Qed.

Lemma realizes_more {A} k j (m : C X A) : (k <= j)%nat -> realizes k m -> realizes j m.
Proof. intros Hk H e. destruct (H e) as (qs & ? & ? & ?). exists qs. split_and!; [done|lia|done]. Qed.

Lemma run41_app qs qs' s : run41 (qs ++ qs') s = run41 qs' (run41 qs s).
Proof. apply fold_left_app. Qed.

Lemma realizes_bind {A B} k j (m : C X A) (f : A -> C X B) :
  realizes k m -> (forall a, realizes j (f a)) -> realizes (k + j) (m ≫= f).
Proof.
  intros Hm Hf e. unfold mbind, C_bind. destruct (Hm e) as (qs & Hp & Hl & E). destruct (m e) as [a e'].
  destruct (Hf a e') as (qs' & Hp' & Hl' & E'). exists (qs ++ qs'). split_and!.
  - now apply Forall_app.
  - rewrite length_app. lia.
  - rewrite E', run41_app. cbn in E. now rewrite E.
Qed.

Lemma realizes_then {A B} k (m : C X A) (f : A -> C X B) : realizes 0 m -> (forall a, realizes k (f a)) -> realizes k (m ≫= f).
Proof. apply (realizes_bind 0 k). Qed.

Lemma realizes_ret {A} k (a : A) : realizes k (mret a : C X A).
Proof. apply (realizes_more 0); [lia|]. now apply realizes_idle. Qed.

Lemma realizes_decoded {A} k op (d : Dec A) (f : A -> C X CompoundResult) : (forall a, realizes k (f a)) -> realizes k (decoded op d f).
Proof. intros H. unfold decoded. apply realizes_then; [now apply realizes_idle|]. intros [a|]; [done|apply realizes_ret]. Qed.

(** One method of the state manager that is a request of its own. *)
Definition is_request {A} (m : SOp A) : Prop := exists q, plain q = true /\ forall s, (m s).2 = (perform41 q s).2.

Lemma realizes_state {A} (m : SOp A) : is_request m -> realizes 1 (c_state m).
Proof. intros (q & Hq & E) e. exists [q]. split_and!; [now repeat constructor|done|]. cbn. apply E. Qed.

Lemma realizes_managed {A} k op (m : SOp A) (f : A -> C X CompoundResult) :
  is_request m -> (forall a, realizes k (f a)) -> realizes (1 + k) (managed op m f).
Proof. intros Hm Hf. unfold managed. apply realizes_bind; [now apply realizes_state|]. intros [e|a]; [apply realizes_ret|done]. Qed.

Lemma request_ignore {A} (m : SOp A) q : plain q = true -> perform41 q = s_ignore m -> is_request m.
Proof.
  intros Hq E. exists q. split; [done|]. intros s. rewrite E. unfold s_ignore, mbind, SOp_bind. now destruct (m s) as [[e|a] s'].
Qed.

Lemma request_same (m : SOp unit) q : plain q = true -> perform41 q = m -> is_request m.
Proof. intros Hq <-. now exists q. Qed.

Lemma request_sm {A} (m : Op A) r : (forall s, (m s).2 = (perform r s).2) -> is_request (on_sm m).
Proof. intros E. exists (Q40 r). split; [done|]. intros s. cbn. unfold on_sm. cbn. now rewrite E. Qed.

Lemma ignore_2 {A} (m : Op A) s : (m s).2 = (ignore m s).2.
Proof. unfold ignore, mbind, Op_bind. now destruct (m s) as [[e|a] s']. Qed.
End Realize.

Create HintDb requests.
#[export] Hint Extern 2 (is_request (ExchangeID ?a ?b ?c ?d ?e ?f)) => exact (request_ignore _ (QExchangeID a b c d e f) eq_refl eq_refl) : requests.
#[export] Hint Extern 2 (is_request (CreateSession ?a ?b ?c ?d ?e ?f ?g)) => exact (request_ignore _ (QCreateSession a b c d e f g) eq_refl eq_refl) : requests.
#[export] Hint Extern 2 (is_request (BindConnToSession ?a ?b ?c ?d)) => exact (request_ignore _ (QBind a b c d) eq_refl eq_refl) : requests.
#[export] Hint Extern 2 (is_request (DestroySession ?a)) => exact (request_same _ (QDestroySession a false) eq_refl eq_refl) : requests.
#[export] Hint Extern 2 (is_request (DestroyV41ClientID ?a)) => exact (request_same _ (QDestroyClientID a) eq_refl eq_refl) : requests.
#[export] Hint Extern 2 (is_request (UpdateBackchannelParams ?a ?b ?c)) => exact (request_same _ (QBackchannelCtl a b c) eq_refl eq_refl) : requests.
#[export] Hint Extern 2 (is_request (sm_ReclaimComplete ?a)) => exact (request_same _ (QReclaimComplete a) eq_refl eq_refl) : requests.
#[export] Hint Extern 2 (is_request (RenewV41Lease ?a ?b)) => exact (request_same _ (QRenew a b) eq_refl eq_refl) : requests.
#[export] Hint Extern 2 (is_request (on_sm (FreeStateid ?a ?b))) => exact (request_sm _ (RFreeStateid a b) (fun _ => eq_refl)) : requests.
#[export] Hint Extern 2 (is_request (on_sm (RenewLease ?a ?b))) => exact (request_sm _ (RRenew a b) (fun _ => eq_refl)) : requests.
#[export] Hint Extern 2 (is_request (on_sm (SetClientID ?a ?b ?c ?d ?e ?f))) => exact (request_sm _ (RSetClientID a b c d e f) (ignore_2 _)) : requests.
#[export] Hint Extern 2 (is_request (on_sm (ConfirmClientID ?a ?b ?c))) => exact (request_sm _ (RConfirmClientID a b c) (fun _ => eq_refl)) : requests.
#[export] Hint Extern 2 (is_request (on_sm (ReturnDelegation ?a))) => exact (request_sm _ (RReturnDelegation a) (fun _ => eq_refl)) : requests.
#[export] Hint Extern 2 (is_request (on_sm (ConfirmOpen ?a ?b))) => exact (request_sm _ (ROpenConfirm a b) (ignore_2 _)) : requests.
#[export] Hint Extern 2 (is_request (on_sm (DowngradeOpen ?a ?b ?c ?d))) => exact (request_sm _ (RDowngrade a b c d) (ignore_2 _)) : requests.
#[export] Hint Extern 2 (is_request (on_sm (CacheOpenOwnerResult ?a ?b ?c ?d))) => exact (request_sm _ (RCacheOpen a b c d) (fun _ => eq_refl)) : requests.
#[export] Hint Extern 2 (is_request (on_sm (LockNew ?a ?b ?c ?d ?e ?f ?g ?i ?j ?k ?l))) => exact (request_sm _ (RLockNew a b c d e f g i j k l) (ignore_2 _)) : requests.
#[export] Hint Extern 2 (is_request (on_sm (LockExisting ?a ?b ?c ?d ?e ?f ?g))) => exact (request_sm _ (RLockExisting a b c d e f g) (ignore_2 _)) : requests.
#[export] Hint Extern 2 (is_request (on_sm (UnlockFile ?a ?b ?c ?d ?e))) => exact (request_sm _ (RUnlock a b c d e) (ignore_2 _)) : requests.
#[export] Hint Extern 2 (is_request (on_sm (CacheLockOwnerResult ?a ?b ?c ?d))) => exact (request_sm _ (RCacheLock a b c d) (fun _ => eq_refl)) : requests.
#[export] Hint Extern 2 (is_request (on_sm (ReleaseLockOwner ?a ?b))) => exact (request_sm _ (RReleaseLockOwner a b) (fun _ => eq_refl)) : requests.

(** Runs through the body of an operation; every call of the state manager is looked
    up among the requests. *)
Ltac realizes1 :=
  lazymatch goal with
  | |- realizes _ (mret _) => apply realizes_ret
  | |- realizes _ (decoded _ _ _) => apply realizes_decoded; intros ?
  | |- realizes _ (managed _ _ _) => eapply (realizes_managed 1); [solve [eauto with requests]|intros ?]
  | |- realizes _ (c_state (on_sm (match ?x with _ => _ end)) ≫= _) => destruct x
  | |- realizes 2 (c_state _ ≫= _) => eapply (realizes_bind 1 1); [apply realizes_state; solve [eauto with requests]|intros ?]
  | |- realizes 1 (c_state _ ≫= _) => eapply (realizes_bind 1 0); [apply realizes_state; solve [eauto with requests]|intros ?]
  | |- realizes 0 (c_ctx) => now apply realizes_idle
  | |- realizes _ ((match _ with _ => _ end) ≫= _) => eapply (realizes_bind 1 0); [|intros ?]
  | |- realizes _ (_ ≫= _) => apply realizes_then; [now apply realizes_idle|intros ?]
  | |- realizes _ (match ?x with _ => _ end) => destruct x
  | |- realizes _ (let '(_, _) := ?x in _) => destruct x
  | |- realizes _ ?m => let h := head_of m in unfold h
  end.

Section Handlers.
Context `{L : Nfs4Lib} {X : Type}.

Ltac handler := intros; repeat realizes1.

Definition handlers41 : list (V41OpHandler X) :=
  [HandleExchangeID; HandleCreateSession; HandleDestroySession; HandleBindConnToSession; HandleDestroyClientID;
   HandleBackchannelCtl; HandleReclaimComplete; HandleFreeStateid; HandleTestStateid; HandleLateSequence].

Definition handlers40 (root : bytes) (enabled : X -> bytes -> option bool) : list (V40OpHandler X) :=
  [handlePutFH enabled; handlePutRootFH root; handlePutPubFH root;
   handleIllegal; handleSaveFH; handleRestoreFH; handleGetFH; handleRenew; handleSetClientID; handleSetClientIDConfirm; handleDelegReturn;
   handleDelegPurge; handleOpenAttr; handleOpenConfirm; handleOpenDowngrade; handleLock; handleLockT; handleLockU; handleReleaseLockOwner].

Lemma realizes_handlers41 : Forall (fun m => forall v, realizes 2 (m v)) handlers41.
Proof. repeat constructor; handler. Qed.

Lemma realizes_handlers40 root enabled : Forall (realizes 2) (handlers40 root enabled).
Proof. repeat constructor; handler. Qed.
End Handlers.

(** ** The dispatcher *)

Section Dispatch.
Context `{L : Nfs4Lib} {X : Type}.
Variable h : Handler X.

(** The operations on files, layouts and extended attributes call the state manager at
    most [B] times, and never reserve or release a slot. *)
Record handler_ok (B : nat) : Prop := {
  ho_files op m : hd_files40 h !! op = Some m -> realizes B m;
  ho_layouts op m v : hd_layouts41 h !! op = Some m -> realizes B (m v);
  ho_v42 op m : hd_v42DispatchTable h !! op = Some m -> realizes B m;
}.

Variable B : nat.
Hypothesis Hh : handler_ok B.
Hypothesis HB : (2 <= B)%nat.

Lemma realizes_table40 op m : registerV40Ops h !! op = Some m -> realizes B m.
Proof.
  intros H. pose proof (realizes_handlers40 (hd_rootHandle h) (hd_shareEnabled h)) as Hf.
  unfold registerV40Ops in H.
  repeat (apply lookup_insert_Some in H as [[_ <-]|[_ H]];
    [apply (realizes_more 2); [done|]; apply (proj1 (Forall_forall _ _) Hf); unfold handlers40; set_solver|]).
  now apply (ho_files _ Hh op).
Qed.

Lemma realizes_table41 op m v : registerV41Ops h !! op = Some m -> realizes B (m v).
Proof.
  intros H. pose proof (realizes_handlers41 (X := X)) as Hf. unfold registerV41Ops in H.
  repeat (apply lookup_insert_Some in H as [[_ <-]|[_ H]];
    [apply (realizes_more 2); [done|]; apply (proj1 (Forall_forall _ _) Hf); unfold handlers41; set_solver|]).
  now apply (ho_layouts _ Hh op).
Qed.

Lemma realizes_one v op v41 v42 : realizes B (dispatchOne h v op v41 v42).
Proof.
  unfold dispatchOne. destruct (bool_decide _); [apply realizes_ret|]. rewrite <- (Nat.add_0_r B).
  apply realizes_bind; [|intros; apply realizes_ret]. unfold dispatch_table.
  destruct (v41 && _); [apply realizes_decoded; intros; apply realizes_ret|].
  destruct (hd_v42DispatchTable h !! op) as [m|] eqn:E; [destruct v42; [now apply (ho_v42 _ Hh op)|apply realizes_ret]|].
  destruct (if v41 then _ else None) as [m|] eqn:E1.
  - destruct v41; [|done]. now apply realizes_table41 with op.
  - destruct (registerV40Ops h !! op) as [m|] eqn:E0; [now apply realizes_table40 with op|apply realizes_ret].
Qed.

Lemma realizes_next p i : realizes 0 (next_op (X := X) p i).
Proof. unfold next_op. repeat realizes1. Qed.

Lemma realizes_ops p n : forall i last, realizes (n * B) (run_ops h p n i last).
Proof.
  induction n as [|n IH]; intros i last; cbn [run_ops]; [apply realizes_ret|].
  apply realizes_then; [apply realizes_next|]. intros [op|st|]; try apply realizes_ret.
  cbn [Nat.mul]. apply realizes_bind; [apply realizes_one|]. intros r. destruct (_ =? _); [|apply realizes_ret].
  rewrite <- (Nat.add_0_r (n * B)). apply realizes_bind; [apply IH|]. intros; apply realizes_ret.
Qed.

(** ** SEQUENCE *)

Lemma same_slots p x st s :
  h41_sessions (sv_heap s) !! p = Some x -> ss_ForeChannelSlots x = st -> (upd_session p (set_fore_slots st) s).2 = s.
Proof.
  intros Hx <-. cbn. rewrite alter_id; [now destruct s as [? [] ? ? ?]|]. intros y Hy. replace y with x by congruence. now destruct x.
Qed.

Lemma session_found s sid p x : GetSession s sid = Some (p, x) <-> sessionsByID (sv_tab s) !! sid = Some p /\ h41_sessions (sv_heap s) !! p = Some x.
Proof.
  unfold GetSession. destruct (sessionsByID (sv_tab s) !! sid) as [q|]; cbn; [|naive_solver].
  destruct (h41_sessions (sv_heap s) !! q) as [y|] eqn:E; cbn; [|naive_solver].
  split; [intros [= <- <-]|intros [[= <-] Hx]]; [done|]. congruence.
Qed.

(** A request that is not new leaves the table. *)
Lemma validate_same st slot seq dg : (forall sl, (ValidateSequence st slot seq dg).2 <> ResNew sl) -> (ValidateSequence st slot seq dg).1 = st.
Proof. unfold ValidateSequence. intros H. repeat case_match; try done. cbn in H. now destruct (H (set_InUse true (get_slot st slot))). Qed.

Lemma reserve_is_begin p x slot seq dg s :
  h41_sessions (sv_heap s) !! p = Some x ->
  (upd_session p (set_fore_slots (ValidateSequence (ss_ForeChannelSlots x) slot seq dg).1) s).2 = (perform41 (QBegin p slot seq dg) s).2.
Proof.
  intros Hx. cbn. do 2 f_equal. apply alter_ext. intros y Hy. replace y with x by congruence. done.
Qed.

(** What the session of a request is and what SEQUENCE makes of it. *)
Record started (e e' : Env X) (args : SequenceArgs) (v : V41RequestContext) (p : ptr) : Prop := {
  sd_session : exists x sl, GetSession (en_srv e) (sa_SessionID args) = Some (p, x) /\
    (ValidateSequence (ss_ForeChannelSlots x) (sa_SlotID args) (sa_SequenceID args) (cc_RequestDigest (en_ctx e))).2 = ResNew sl;
  sd_context : v = mkV41Context (sa_SessionID args) (sa_SlotID args) (sa_SequenceID args) (sa_HighestSlotID args) (sa_CacheThis args)
    (cc_RequestDigest (en_ctx e));
  sd_server : exists now c, en_srv e' =
    run41 [QBegin p (sa_SlotID args) (sa_SequenceID args) (cc_RequestDigest (en_ctx e)); QRenew now c] (en_srv e);
}.

Lemma sequence_cases e :
  match HandleSequenceOp (X := X) e with
  | (SeqStarted r v p, e') => exists args, (SequenceArgs_Decode (en_rd e)).1 = Some args /\ started e e' args v p
  | (_, e') => en_srv e' = en_srv e
  end.
Proof.
  unfold HandleSequenceOp, c_dec, c_srv, c_ctx, mbind, C_bind, mret, C_ret. destruct (SequenceArgs_Decode (en_rd e)) as [[args|] rd]; cbn; [|done].
  destruct (GetSession (en_srv e) (sa_SessionID args)) as [[p x]|] eqn:Eg; [|done].
  pose proof (proj1 (session_found _ _ _ _) Eg) as [Hp Hx].
  unfold reserve_slot. cbn [fst snd en_ctx en_rd en_srv en_ext].
  set (dg := cc_RequestDigest (en_ctx e)). set (r := ValidateSequence (ss_ForeChannelSlots x) (sa_SlotID args) (sa_SequenceID args) dg).
  assert ((forall sl, r.2 <> ResNew sl) -> (upd_session p (set_fore_slots r.1) (en_srv e)).2 = en_srv e) as Hsame.
  { intros Hr. apply same_slots with x; [done|]. symmetry. now apply validate_same. }
  destruct r.2 as [sl|sl|st] eqn:Er.
  - unfold c_state. cbn [fst snd en_ctx en_rd en_srv en_ext]. set (s2 := RenewV41Lease _ _ _). cbn.
    exists args. split; [done|]. split.
    + exists x, sl. auto.
    + done.
    + exists (cc_Now (en_ctx e)), (ss_ClientID x). unfold s2.
      pose proof (reserve_is_begin p x (sa_SlotID args) (sa_SequenceID args) dg (en_srv e) Hx) as Eb. fold r in Eb. unfold run41.
      cbn [fold_left]. fold dg. rewrite <- Eb. reflexivity.
  - destruct (CachedReply sl); cbn; apply Hsame; congruence.
  - cbn. apply Hsame. congruence.
Qed.

(** ** The whole request *)

Lemma realizes_answer {A B'} k (m : C X A) (f : A -> B') : realizes k m -> realizes k (m ≫= fun a => mret (f a)).
Proof. intros H. rewrite <- (Nat.add_0_r k). apply realizes_bind; [done|]. intros; apply realizes_ret. Qed.

Lemma realizes_loop p numOps j : (Z.to_nat (numOps - lp_startIndex p) <= j)%nat -> realizes (j * B) (runCompoundOps h numOps p).
Proof. intros Hj. unfold runCompoundOps. eapply realizes_more; [|apply realizes_ops]. now apply Nat.mul_le_mono_r. Qed.

Lemma realizes_v40 tag numOps : realizes (128 * B) (dispatchV40 h tag numOps).
Proof.
  unfold dispatchV40. destruct (numOps >? MaxCompoundOps) eqn:E; [apply realizes_ret|].
  apply realizes_answer, realizes_loop. unfold MaxCompoundOps in E. cbn. lia.
Qed.

Lemma realizes_exempt tag op numOps v v42 : numOps <= MaxCompoundOps -> realizes (128 * B) (dispatchV41Ops h tag op numOps v v42).
Proof. intros Hn. apply realizes_answer, realizes_loop. unfold MaxCompoundOps in Hn. cbn. lia. Qed.

Lemma realizes_session tag numOps v42 r v : numOps <= MaxCompoundOps -> realizes (127 * B) (run_in_session h tag numOps v42 r v).
Proof.
  intros Hn. unfold run_in_session. do 3 (apply realizes_then; [now apply realizes_idle|intros ?]).
  destruct (_ && _); [apply realizes_ret|]. apply realizes_answer, realizes_loop. unfold MaxCompoundOps in Hn. cbn. lia.
Qed.

(** The requests a sequenced COMPOUND amounts to. *)
Definition sequenced_requests (p : ptr) (args : SequenceArgs) (dg : option bytes) (now c : Z) (qs : list Request41) (reply : option bytes)
    : list Request41 :=
  QBegin p (sa_SlotID args) (sa_SequenceID args) dg :: QRenew now c ::
  qs ++ [QEnd p (sa_SlotID args) (sa_SequenceID args) (sa_CacheThis args) reply dg].

(** One that was not refused or answered from the slot. *)
Definition executed (B : nat) (e e' : Env X) (args : SequenceArgs) (reply : option bytes) : Prop := exists p x sl now c qs,
  GetSession (en_srv e) (sa_SessionID args) = Some (p, x) /\
  (ValidateSequence (ss_ForeChannelSlots x) (sa_SlotID args) (sa_SequenceID args) (cc_RequestDigest (en_ctx e))).2 = ResNew sl /\
  all_plain qs /\ (length qs <= 127 * B)%nat /\
  en_srv e' = run41 (sequenced_requests p args (cc_RequestDigest (en_ctx e)) now c qs reply) (en_srv e).

Lemma started_executes tag numOps v42 e sr v p e1 : numOps <= MaxCompoundOps -> HandleSequenceOp (X := X) e = (SeqStarted sr v p, e1) ->
  let r := dispatch_sequenced h tag numOps v42 e in
  exists args, (SequenceArgs_Decode (en_rd e)).1 = Some args /\ executed B e r.2 args r.1.
Proof.
  intros Hn Eh r. pose proof (sequence_cases e) as Hc. unfold dispatch_sequenced, mbind, C_bind in r. unfold r. rewrite Eh in Hc |- *.
  destruct Hc as (args & Ea & [(x & sl & Hx & Hv) Ev (now & c & Es)]).
  destruct (realizes_session tag numOps v42 sr v Hn e1) as (qs & Hp & Hl & E).
  destruct (run_in_session h tag numOps v42 sr v e1) as [reply e2]. cbn in E |- *.
  exists args. split; [done|]. exists p, x, sl, now, c, qs. split_and!; try done. cbn [en_srv]. unfold sequenced_requests.
  change (?a :: ?b :: ?l) with ([a; b] ++ l) at 1. rewrite !run41_app, <- Es, <- E. subst v. reflexivity.
Qed.

Lemma sequenced_cases tag numOps v42 e : numOps <= MaxCompoundOps ->
  let r := dispatch_sequenced h tag numOps v42 e in
  en_srv r.2 = en_srv e \/ exists args, (SequenceArgs_Decode (en_rd e)).1 = Some args /\ executed B e r.2 args r.1.
Proof.
  intros Hn r. destruct (HandleSequenceOp e) as [[sr|b|sr v p] e1] eqn:Eh; [| |right; now apply started_executes with sr v p e1];
    left; pose proof (sequence_cases e) as Hc; unfold r, dispatch_sequenced, mbind, C_bind; rewrite Eh in Hc |- *; exact Hc.
Qed.

(** The SEQUENCE at the head of a request of a later minor version. *)
Definition sequence_of (data : bytes) : option (Z * SequenceArgs) :=
  match compound_header data with
  | (Some (_, minor, numOps), rd) =>
      if ((minor =? 1) || (minor =? 2)) && negb (numOps =? 0) && negb (numOps >? MaxCompoundOps) then
        match DecodeUint32 rd with
        | (Some op, rd) => if op =? OP_SEQUENCE then match SequenceArgs_Decode rd with (Some args, _) => Some (minor, args) | _ => None end else None
        | _ => None
        end
      else None
  | _ => None
  end.

(** The effects of a request. *)
Definition effects (e e' : Env X) (reply : option bytes) : Prop :=
  (exists qs, all_plain qs /\ (length qs <= 128 * B)%nat /\ en_srv e' = run41 qs (en_srv e)) \/
  exists e1 minor args, en_srv e1 = en_srv e /\ en_ctx e1 = en_ctx e /\ sequence_of (en_rd e) = Some (minor, args) /\ executed B e1 e' args reply.

Lemma effects_realized (m : C X (option bytes)) e e1 : realizes (128 * B) m -> en_srv e1 = en_srv e -> effects e (m e1).2 (m e1).1.
Proof. intros Hm E. left. rewrite <- E. apply Hm. Qed.

Lemma effects_v41 e tag minor numOps v42 rd :
  compound_header (en_rd e) = (Some (tag, minor, numOps), rd) -> minor = 1 \/ minor = 2 ->
  let r := dispatchV41 h tag numOps v42 (mkEnv (en_ctx e) rd (en_srv e) (en_ext e)) in effects e r.2 r.1.
Proof.
  intros Eh Hm r. unfold r, dispatchV41.
  destruct (numOps >? MaxCompoundOps) eqn:En; [now apply effects_realized; [apply realizes_ret|]|].
  destruct (numOps =? 0) eqn:Ez; [now apply effects_realized; [apply realizes_ret|]|].
  unfold c_dec, mbind, C_bind. cbn [en_rd]. destruct (DecodeUint32 rd) as [[op|] rd'] eqn:Eo; cbn [fst snd]; [|now apply effects_realized; [apply realizes_ret|]].
  destruct (IsSessionExemptOp op); [apply effects_realized; [apply realizes_exempt; lia|done]|].
  destruct (negb _) eqn:Es; [now apply effects_realized; [apply realizes_ret|]|]. apply negb_false_iff in Es.
  set (e2 := mkEnv _ _ _ _). destruct (sequenced_cases tag numOps v42 e2 ltac:(lia)) as [E|(args & Ea & E)].
  - left. exists []. split_and!; [constructor|cbn; lia|]. now rewrite E.
  - right. exists e2, minor, args. split_and!; try done. unfold sequence_of. rewrite Eh.
    replace ((minor =? 1) || (minor =? 2)) with true by lia. rewrite Ez, En. cbn [negb andb].
    rewrite Eo, Es. cbn in Ea. destruct (SequenceArgs_Decode rd') as [a r']. cbn in Ea. now subst a.
Qed.

Lemma process_effects e : effects e (process h e).2 (process h e).1.
Proof.
  unfold process, c_dec, mbind, C_bind. destruct (compound_header (en_rd e)) as [[[[tag minor] numOps]|] rd] eqn:Eh; cbn [fst snd];
    [|now apply effects_realized; [apply realizes_ret|]].
  destruct (_ || _); [now apply effects_realized; [apply realizes_ret|]|].
  destruct (minor =? 0); [now apply effects_realized; [apply realizes_v40|]|].
  destruct (minor =? 1) eqn:E1; [apply (effects_v41 e tag minor); auto; lia|].
  destruct (minor =? 2) eqn:E2; [apply (effects_v41 e tag minor); auto; lia|].
  now apply effects_realized; [apply realizes_ret|].
Qed.

(** ** Retransmissions *)

(** A sequenced request runs the same way whatever the server. *)
Lemma process_sequenced data minor args :
  sequence_of data = Some (minor, args) -> hd_minMinorVersion h <= minor <= hd_maxMinorVersion h ->
  exists tag numOps v42 rd, numOps <= MaxCompoundOps /\ (SequenceArgs_Decode rd).1 = Some args /\
    forall ctx s x, process h (mkEnv ctx data s x) = dispatch_sequenced h tag numOps v42 (mkEnv ctx rd s x).
Proof using Type. clear HB Hh B.
  unfold sequence_of. destruct (compound_header data) as [[[[tag mv] numOps]|] rd] eqn:Eh; [|done]. intros H Hv.
  destruct ((mv =? 1) || (mv =? 2)) eqn:Em; [|done]. destruct (numOps =? 0) eqn:Ez; [done|].
  destruct (numOps >? MaxCompoundOps) eqn:En; [done|]. cbn [negb andb] in H.
  destruct (DecodeUint32 rd) as [[op|] rd'] eqn:Eo; [|done]. destruct (op =? OP_SEQUENCE) eqn:Es; [|done].
  destruct (SequenceArgs_Decode rd') as [[a|] rd''] eqn:Ea; [|done]. injection H as <- <-.
  exists tag, numOps, (negb (mv =? 1)), rd'. split_and!; [lia|now rewrite Ea|]. intros ctx s x.
  unfold process, c_dec, mbind, C_bind. cbn [en_rd en_ctx en_srv en_ext]. rewrite Eh. cbn [fst snd].
  replace ((mv <? hd_minMinorVersion h) || (hd_maxMinorVersion h <? mv)) with false by lia.
  replace (mv =? 0) with false by lia.
  assert (forall v42, dispatchV41 h tag numOps v42 (mkEnv ctx rd s x) = dispatch_sequenced h tag numOps v42 (mkEnv ctx rd' s x)) as Hd.
  { intros v42. unfold dispatchV41, c_dec, mbind, C_bind. rewrite En, Ez. cbn [en_rd en_ctx en_srv en_ext]. rewrite Eo. cbn [fst snd].
    apply Z.eqb_eq in Es. subst op. reflexivity. }
  destruct (mv =? 1) eqn:E1; [apply Hd|]. replace (mv =? 2) with true by lia. apply Hd.
Qed.

(** Only the NFSv4.0 loop drops a request. *)
Lemma ops_answer p n : lp_hardErrOnDecodeError p = false -> forall i last e, exists r, (run_ops h p n i last e).1 = Some r.
Proof.
  intros Hp. induction n as [|n IH]; intros i last e; cbn [run_ops]; [eexists; reflexivity|]. unfold mbind, C_bind.
  assert (forall e : Env X, (next_op p i e).1 <> Drop) as Hn.
  { intros e0. unfold next_op, c_ctx, c_dec, mbind, C_bind. destruct (if i =? _ then _ else _); [done|]. destruct (cc_Err _ _); [done|].
    destruct (DecodeUint32 _) as [[?|] ?]; cbn; [done|]. now rewrite Hp. }
  specialize (Hn e). destruct (next_op p i e) as [[op|st|] e1]; cbn in Hn; [|eexists; reflexivity|done].
  destruct (dispatchOne h _ _ _ _ e1) as [r e2]. destruct (_ =? _); [|eexists; reflexivity].
  destruct (IH (i + 1) NFS4_OK e2) as [rest E]. destruct (run_ops h p n (i + 1) NFS4_OK e2) as [o e3]. cbn in E. subst o.
  destruct rest as [results st]. eexists. reflexivity.
Qed.

Lemma session_answers tag numOps v42 r v e : exists b, (run_in_session h tag numOps v42 r v e).1 = Some b.
Proof.
  unfold run_in_session, c_ctx, c_srv, c_set_ctx, mbind, C_bind. destruct (_ && _); [eexists; reflexivity|].
  set (e1 := mkEnv _ _ _ _). set (p := mkLoop _ _ _ _ _ _). destruct (ops_answer p (Z.to_nat (numOps - 1)) eq_refl 1 NFS4_OK e1) as [[l st] E].
  unfold runCompoundOps. change (lp_startIndex p) with 1. destruct (run_ops h p _ 1 NFS4_OK e1) as [o e2]. cbn in E. subst o. eexists. reflexivity.
Qed.

(** A new request: its session, and the slot it leaves. *)
Lemma sequence_started e args p x sl :
  (SequenceArgs_Decode (en_rd e)).1 = Some args -> GetSession (en_srv e) (sa_SessionID args) = Some (p, x) ->
  (ValidateSequence (ss_ForeChannelSlots x) (sa_SlotID args) (sa_SequenceID args) (cc_RequestDigest (en_ctx e))).2 = ResNew sl ->
  exists r v e', HandleSequenceOp (X := X) e = (SeqStarted r v p, e').
Proof.
  intros Ea Hg Hv. unfold HandleSequenceOp, c_dec, c_srv, c_ctx, mbind, C_bind. destruct (SequenceArgs_Decode (en_rd e)) as [a rd]. cbn in Ea.
  subst a. cbn [fst snd en_srv en_ctx]. rewrite Hg. unfold reserve_slot. cbn [en_ctx en_srv en_rd en_ext]. rewrite Hv. cbn. eauto.
Qed.

Lemma sequence_replayed e args p x st sl b :
  (SequenceArgs_Decode (en_rd e)).1 = Some args -> GetSession (en_srv e) (sa_SessionID args) = Some (p, x) ->
  ValidateSequence (ss_ForeChannelSlots x) (sa_SlotID args) (sa_SequenceID args) (cc_RequestDigest (en_ctx e)) = (st, ResRetry sl) ->
  CachedReply sl = Some b ->
  exists e', HandleSequenceOp (X := X) e = (SeqReplayed b, e') /\ en_ext e' = en_ext e.
Proof.
  intros Ea Hg Hv Hc. unfold HandleSequenceOp, c_dec, c_srv, c_ctx, mbind, C_bind. destruct (SequenceArgs_Decode (en_rd e)) as [a rd]. cbn in Ea.
  subst a. cbn [fst snd en_srv en_ctx]. rewrite Hg. unfold reserve_slot. cbn [en_ctx en_srv en_rd en_ext]. rewrite Hv. cbn. rewrite Hc. eauto.
Qed.
End Dispatch.

Lemma draws_fewer `{L : Nfs4Lib} k j : (k <= j)%nat -> distinct_draws j -> distinct_draws k.
Proof. intros Hk H i i' ? ?. apply H; lia. Qed.

Section Histories.
Context `{L : Nfs4Lib} {X : Type}.
Variable sha256 : bytes -> bytes.
Variable h : Handler X.

Inductive Event :=
  | ECompound (ctx : CompoundContext) (data : bytes)
  | EInternal (q : Request41).

Definition happen (ev : Event) (w : Server * X) : Server * X :=
  match ev with
  | ECompound ctx data => let '(_, s, x) := ProcessCompound sha256 h ctx data w.1 w.2 in (s, x)
  | EInternal q => ((perform41 q w.1).2, w.2)
  end.

Definition history (evs : list Event) (w : Server * X) : Server * X := fold_left (fun w ev => happen ev w) evs w.

Variable B : nat.
Hypothesis Hh : handler_ok h B.
Hypothesis HB : (2 <= B)%nat.

Lemma compound_effects ctx data s x :
  let r := ProcessCompound sha256 h ctx data s x in
  exists e', effects B (mkEnv (set_digest (Some (sha256 data)) ctx) data s x) e' r.1.1 /\ en_srv e' = r.1.2.
Proof.
  cbn. unfold ProcessCompound. set (e := mkEnv _ _ _ _). pose proof (process_effects h B Hh HB e) as He.
  destruct (process h e) as [reply e']. exists e'. done.
Qed.

(** A request is a few requests of the state manager. *)
Lemma compound_requests ctx data s x : exists qs,
  (length qs <= 128 * B + 3)%nat /\ (ProcessCompound sha256 h ctx data s x).1.2 = run41 qs s.
Proof.
  destruct (compound_effects ctx data s x) as (e' & [(qs & _ & Hl & E)|(e1 & minor & args & E1 & _ & _ & He)] & <-).
  - exists qs. split; [lia|done].
  - destruct He as (p & y & sl & now & c & qs & _ & _ & _ & Hl & E). rewrite E1 in E. eexists. split; [|exact E].
    unfold sequenced_requests. cbn. rewrite length_app. cbn. lia.
Qed.

Lemma history_requests evs : forall w, exists qs,
  (length qs <= (128 * B + 3) * length evs)%nat /\ (history evs w).1 = run41 qs w.1.
Proof.
  induction evs as [|ev evs IH]; intros w; [exists []; split; [cbn; lia|done]|].
  assert (exists qs, (length qs <= 128 * B + 3)%nat /\ (happen ev w).1 = run41 qs w.1) as (qs1 & Hl1 & E1).
  { destruct ev as [ctx data|q]; cbn [happen].
    - destruct (compound_requests ctx data w.1 w.2) as (qs & Hl & E). exists qs. split; [done|].
      destruct (ProcessCompound sha256 h ctx data w.1 w.2) as [[reply s] x]. done.
    - exists [q]. split; [cbn; lia|done]. }
  destruct (IH (happen ev w)) as (qs2 & Hl2 & E2). exists (qs1 ++ qs2). split.
  - rewrite length_app. cbn [length]. lia.
  - rewrite run41_app, <- E1. exact E2.
Qed.

(** ** One slot through a history *)

Lemma sequenced_slots p args dg now c qs reply s q : all_plain qs -> (q < h41_next (sv_heap s))%nat ->
  fore_slots (run41 (sequenced_requests p args dg now c qs reply) s) q =
    if decide (p = q) then
      (fun v => (v.1, CompleteSlotRequest (ValidateSequence v.2 (sa_SlotID args) (sa_SequenceID args) dg).1
                        (sa_SlotID args) (sa_SequenceID args) (sa_CacheThis args) reply dg)) <$> fore_slots s q
    else fore_slots s q.
Proof.
  intros Hq Hp. unfold sequenced_requests.
  change (?a :: ?b :: qs ++ ?l) with ([a] ++ (b :: qs) ++ l). rewrite !run41_app. cbn [run41 fold_left perform41].
  set (s1 := (on_slots p _ s).2).
  pose proof (run41_slots_kept (QRenew now c :: qs) s1 ltac:(now constructor)) as Hk.
  rewrite fore_slots_upd. change (fold_left _ qs _) with (run41 (QRenew now c :: qs) s1).
  rewrite (sk_slots _ _ Hk) by exact Hp. unfold s1. rewrite fore_slots_upd. destruct (decide (p = q)); [|done].
  now destruct (fore_slots s q) as [[i st]|].
Qed.

(** The slot of a session holds a finished request. *)
Definition slot_holds (s : Server) (p : ptr) (sid : SessionId4) (slot : Z) (sl : Slot) : Prop :=
  (p < h41_next (sv_heap s))%nat /\ exists st, fore_slots s p = Some (sid, st) /\ holds st slot sl.

(** A request that does not name this slot of this session, or is the very same. *)
Definition leaves_slot (sid : SessionId4) (slot : Z) (data : bytes) (ev : Event) : Prop :=
  match ev with
  | ECompound _ data' => data' = data \/ forall minor args, sequence_of data' = Some (minor, args) ->
      sa_SessionID args = sid -> Z.to_nat (sa_SlotID args) <> Z.to_nat slot
  | EInternal q => plain q = true
  end.

Variable a0 : Abs.
Hypothesis a0_wf : a_wf a0.

(** The server after at most [n] requests. *)
Definition server_at (n : Z) (s : Server) : Prop := server_ok a0 n s /\ slots_ok s.

Lemma session_slots n s sid p x : server_at n s -> GetSession s sid = Some (p, x) ->
  (p < h41_next (sv_heap s))%nat /\ fore_slots s p = Some (sid, ss_ForeChannelSlots x) /\ table_ok (ss_ForeChannelSlots x).
Proof.
  intros [Hs Ht] [Hp Hx]%session_found. destruct (reg_id _ _ _ _ _ (ok_sessions _ _ _ Hs) sid p Hp) as (y & Hy & Ey & _).
  replace y with x in Ey by congruence. assert (fore_slots s p = Some (sid, ss_ForeChannelSlots x)) as E by (unfold fore_slots; now rewrite Hx; cbn; rewrite Ey).
  split_and!; [|done|now apply (Ht p sid)]. destruct (decide (p < h41_next (sv_heap s))%nat) as [|Hn]; [done|].
  destruct (ok_fresh _ _ _ Hs p ltac:(lia)) as (_ & ? & _). congruence.
Qed.

Lemma slot_holds_plain s p sid slot sl qs : all_plain qs -> slot_holds s p sid slot sl -> slot_holds (run41 qs s) p sid slot sl.
Proof.
  intros Hq (Hp & st & E & Hh'). destruct (run41_slots_kept qs s Hq) as [Hn Hk _]. split; [lia|]. exists st. now rewrite Hk.
Qed.

Lemma slots_grow qs s : (h41_next (sv_heap s) <= h41_next (sv_heap (run41 qs s)))%nat.
Proof.
  revert s. induction qs as [|q qs IH]; intros s; [done|]. cbn. etrans; [|apply IH]. destruct (plain q) eqn:E.
  - apply (sk_next _ _ (perform41_slotless q E s)).
  - now destruct q.
Qed.

(** A request keeps the slots it does not name; a retransmission keeps them all. *)
Lemma slot_holds_event n ev w p sid minor args reply data :
  sequence_of data = Some (minor, args) -> sa_SessionID args = sid ->
  server_at n w.1 -> leaves_slot sid (sa_SlotID args) data ev ->
  let sl := answered (sa_SequenceID args) reply (Some (sha256 data)) in
  slot_holds w.1 p sid (sa_SlotID args) sl -> slot_holds (happen ev w).1 p sid (sa_SlotID args) sl.
Proof.
  intros Hsq Hsid Hw Hev sl Hsl. destruct ev as [ctx data'|q]; cbn [happen].
  2: { apply (slot_holds_plain w.1 p sid _ sl [q]); [now repeat constructor|done]. }
  destruct (compound_effects ctx data' w.1 w.2) as (e' & He & Es). destruct (ProcessCompound sha256 h ctx data' w.1 w.2) as [[r s'] x'].
  cbn in Es |- *. subst s'. destruct He as [(qs & Hq & _ & ->)|(e1 & mv & args' & E1 & E2 & Hsq' & He)]; [now apply slot_holds_plain|].
  cbn in E1, E2, Hsq'. destruct He as (p' & x & sl' & now & c & qs & Hg & Hv & Hq & _ & ->). rewrite E1, E2 in *. cbn [cc_RequestDigest set_digest] in *.
  destruct Hsl as (Hp & st & Est & Hh'). split; [pose proof (slots_grow (sequenced_requests p' args' (Some (sha256 data')) now c qs r) w.1); eapply Nat.lt_le_trans; eassumption|].
  destruct (session_slots _ _ _ _ _ Hw Hg) as (_ & Est' & _). rewrite sequenced_slots by done. destruct (decide (p' = p)) as [->|_]; [|now exists st].
  rewrite Est in Est'. injection Est' as Ei ->. rewrite Est. eexists. split; [reflexivity|]. cbn [fst snd]. destruct Hev as [->|Hev].
  - rewrite Hsq in Hsq'. injection Hsq' as <- <-. rewrite (validate_answered _ _ _ _ _ Hh') in Hv. done.
  - assert (Z.to_nat (sa_SlotID args') <> Z.to_nat (sa_SlotID args)) by (apply (Hev mv); congruence).
    now apply holds_complete, holds_validate.
Qed.

(** The bound on the requests behind a number of events. *)
Abbreviation per_event := (128 * B + 3)%nat.

Lemma server_at_run n qs s : n + Z.of_nat (length qs) < 2 ^ 32 -> distinct_draws (sm_calls (sv_sm (run41 qs s))) -> server_at n s ->
  server_at (n + Z.of_nat (length qs)) (run41 qs s).
Proof. intros Hn Hd [Hs Ht]. split; [now apply run41_ok|now apply run41_slots_ok]. Qed.

Lemma history_app evs evs' w : history (evs ++ evs') w = history evs' (history evs w).
Proof. apply fold_left_app. Qed.

Lemma history_draws evs w : (sm_calls (sv_sm w.1) <= sm_calls (sv_sm (history evs w).1))%nat.
Proof. destruct (history_requests evs w) as (qs & _ & ->). apply run41_draws. Qed.

Lemma server_at_history evs w n : n + Z.of_nat (per_event * length evs) < 2 ^ 32 ->
  distinct_draws (sm_calls (sv_sm (history evs w).1)) -> server_at n w.1 ->
  exists n', n' <= n + Z.of_nat (per_event * length evs) /\ server_at n' (history evs w).1.
Proof.
  intros Hn Hd Hw. destruct (history_requests evs w) as (qs & Hl & E). rewrite E in *. exists (n + Z.of_nat (length qs)).
  split; [lia|]. apply server_at_run; [lia|done|done].
Qed.

Lemma slot_holds_history data minor args reply p evs : forall n w,
  sequence_of data = Some (minor, args) -> n + Z.of_nat (per_event * length evs) < 2 ^ 32 ->
  distinct_draws (sm_calls (sv_sm (history evs w).1)) -> server_at n w.1 ->
  Forall (leaves_slot (sa_SessionID args) (sa_SlotID args) data) evs ->
  let sl := answered (sa_SequenceID args) reply (Some (sha256 data)) in
  slot_holds w.1 p (sa_SessionID args) (sa_SlotID args) sl -> slot_holds (history evs w).1 p (sa_SessionID args) (sa_SlotID args) sl.
Proof.
  induction evs as [|ev evs IH]; intros n w Hsq Hn Hd Hw Hev sl Hsl; [done|]. inversion Hev as [|? ? Hev1 Hevs]; subst. cbn [length] in Hn.
  destruct (server_at_history [ev] w n) as (n' & Hn' & Hw'); [cbn [length]; lia| |done|].
  { eapply draws_fewer; [|exact Hd]. apply (history_draws evs (happen ev w)). }
  cbn [length] in Hn'. apply (IH n' (happen ev w)); try done; [lia|].
  now apply (slot_holds_event n ev w p (sa_SessionID args) minor args reply data).
Qed.

(** ** The first time *)

Lemma compound_executes n ctx data minor args s x p sess sl :
  sequence_of data = Some (minor, args) -> hd_minMinorVersion h <= minor <= hd_maxMinorVersion h ->
  GetSession s (sa_SessionID args) = Some (p, sess) ->
  (ValidateSequence (ss_ForeChannelSlots sess) (sa_SlotID args) (sa_SequenceID args) (Some (sha256 data))).2 = ResNew sl ->
  sa_CacheThis args = true -> server_at n s ->
  exists reply s1 x1, ProcessCompound sha256 h ctx data s x = (Some reply, s1, x1) /\
    slot_holds s1 p (sa_SessionID args) (sa_SlotID args) (answered (sa_SequenceID args) reply (Some (sha256 data))).
Proof.
  intros Hsq Hv Hg Hnew Hc Hs. destruct (process_sequenced h data minor args Hsq Hv) as (tag & numOps & v42 & rd & Hn & Ea & Ep).
  unfold ProcessCompound. rewrite Ep. set (e := mkEnv _ rd s x).
  destruct (sequence_started e args p sess sl Ea Hg Hnew) as (sr & v & e1 & Es).
  destruct (started_executes h B Hh HB tag numOps v42 e sr v p e1 Hn Es) as (args' & Ea' & He).
  assert (args' = args) as -> by (cbn in Ea'; congruence).
  assert (exists b, (dispatch_sequenced h tag numOps v42 e).1 = Some b) as [b Eb].
  { unfold dispatch_sequenced, mbind, C_bind. rewrite Es. destruct (session_answers h tag numOps v42 sr v e1) as [b Eb].
    destruct (run_in_session h tag numOps v42 sr v e1) as [r e2]. cbn in Eb |- *. eauto. }
  destruct (dispatch_sequenced h tag numOps v42 e) as [r e']. cbn in Eb, He. subst r. exists b, (en_srv e'), (en_ext e'). split; [done|].
  destruct He as (p' & x' & sl' & now & c & qs & Hg' & _ & Hq & _ & ->). cbn in Hg'. rewrite Hg in Hg'. injection Hg' as <- <-.
  destruct (session_slots _ _ _ _ _ Hs Hg) as (Hp & Est & Ht). split.
  - eapply Nat.lt_le_trans; [exact Hp|apply slots_grow].
  - rewrite sequenced_slots, decide_True by done. change (en_srv e) with s. rewrite Est. eexists. split; [reflexivity|]. cbn [fst snd]. rewrite Hc. apply complete_holds.
    + now apply ValidateSequence_ok.
    + revert Hnew. unfold ValidateSequence. destruct (_ >=? _) eqn:E; [done|]. intros _. repeat case_match; cbn; try lia.
      rewrite raise_highest_ok; [cbn; lia|apply Ht|cbn; lia].
Qed.

(** ** The second time *)

Lemma compound_replays ctx data minor args s x p sess reply :
  sequence_of data = Some (minor, args) -> hd_minMinorVersion h <= minor <= hd_maxMinorVersion h ->
  GetSession s (sa_SessionID args) = Some (p, sess) ->
  slot_holds s p (sa_SessionID args) (sa_SlotID args) (answered (sa_SequenceID args) reply (Some (sha256 data))) ->
  ProcessCompound sha256 h ctx data s x = (Some reply, s, x).
Proof.
  intros Hsq Hv Hg (_ & st & Est & Hst). destruct (process_sequenced h data minor args Hsq Hv) as (tag & numOps & v42 & rd & _ & Ea & Ep).
  unfold ProcessCompound. rewrite Ep. set (e := mkEnv _ rd s x).
  pose proof (proj1 (session_found _ _ _ _) Hg) as [_ Hx]. unfold fore_slots in Est. rewrite Hx in Est. injection Est as _ <-.
  pose proof (validate_answered _ _ _ _ _ Hst) as Hvs.
  destruct (sequence_replayed e args p sess _ _ reply Ea Hg Hvs eq_refl) as (e' & Es & Ee). pose proof (sequence_cases e) as Hc.
  unfold dispatch_sequenced, mbind, C_bind. rewrite Es in Hc |- *. cbn in Hc |- *. now rewrite Hc, Ee.
Qed.
End Histories.

(** ** The contract of the dispatcher *)

Section Contract.
Context `{L : Nfs4Lib} {X : Type}.
Variable h : Handler X.

Definition succeeded (r : CompoundResult) : Prop := rs_Status r = NFS4_OK.

(** Operations in order, each run once, in the state the one before it left. *)
Inductive in_order (p : compoundLoopParams) : Z -> Env X -> list CompoundResult -> Env X -> Prop :=
  | io_end i e : in_order p i e [] e
  | io_op i e op e1 r e2 rs e3 :
      next_op p i e = (OpAt op, e1) -> dispatchOne h (lp_v41ctx p) op (lp_isV41 p) (lp_isV42 p) e1 = (r, e2) ->
      in_order p (i + 1) e2 rs e3 -> in_order p i e (r :: rs) e3.

(** [n] operations from number [i] on: the results and the status of the reply, or a
    dropped request. *)
Inductive served (p : compoundLoopParams) (n : nat) (i : Z) (e : Env X) : option (list CompoundResult * Z) -> Env X -> Prop :=
  | sv_all rs e' : in_order p i e rs e' -> length rs = n -> Forall succeeded rs -> served p n i e (Some (rs, NFS4_OK)) e'
  | sv_failed rs r e' : in_order p i e (rs ++ [r]) e' -> (length rs < n)%nat -> Forall succeeded rs -> ~ succeeded r ->
      served p n i e (Some (rs ++ [r], rs_Status r)) e'
  | sv_stopped rs e1 status e' : in_order p i e rs e1 -> (length rs < n)%nat -> Forall succeeded rs ->
      next_op p (i + Z.of_nat (length rs)) e1 = (StopWith status, e') -> status <> NFS4_OK -> served p n i e (Some (rs, status)) e'
  | sv_dropped rs e1 e' : in_order p i e rs e1 -> (length rs < n)%nat -> Forall succeeded rs ->
      next_op p (i + Z.of_nat (length rs)) e1 = (Drop, e') -> served p n i e None e'.

Lemma served_one_more p n i e op e1 r e2 o e3 :
  next_op p i e = (OpAt op, e1) -> dispatchOne h (lp_v41ctx p) op (lp_isV41 p) (lp_isV42 p) e1 = (r, e2) -> succeeded r ->
  served p n (i + 1) e2 o e3 ->
  served p (S n) i e (match o with Some (rs, status) => Some (r :: rs, status) | None => None end) e3.
Proof.
  intros En Ed Hr [rs e' Ho Hl Hs|rs r' e' Ho Hl Hs Hf|rs e' st e'' Ho Hl Hs Hn Hst|rs e' e'' Ho Hl Hs Hn];
    try (replace (i + 1 + Z.of_nat (length rs)) with (i + Z.of_nat (length (r :: rs))) in Hn by (cbn [length]; lia)).
  - apply sv_all; [eapply io_op; eauto|cbn; lia|now constructor].
  - apply (sv_failed _ _ _ _ (r :: rs)); [eapply io_op; eauto|cbn; lia|now constructor|done].
  - apply (sv_stopped _ _ _ _ _ e'); [eapply io_op; eauto|cbn; lia|now constructor|done|done].
  - apply (sv_dropped _ _ _ _ (r :: rs) e'); [eapply io_op; eauto|cbn; lia|now constructor|done].
Qed.

Lemma next_status p i (e : Env X) status e' : next_op p i e = (StopWith status, e') -> status <> NFS4_OK.
Proof.
  unfold next_op, c_ctx, c_dec, mbind, C_bind, mret, C_ret. destruct (if i =? _ then _ else _); [done|].
  destruct (cc_Err _ _); [now intros [= <- _]|]. destruct (DecodeUint32 _).1; [done|]. destruct (lp_hardErrOnDecodeError p); [done|].
  now intros [= <- _].
Qed.

Lemma run_ops_served p n : forall i e o e', run_ops h p n i NFS4_OK e = (o, e') -> served p n i e o e'.
Proof.
  induction n as [|n IH]; intros i e o e'; cbn [run_ops].
  { intros [= <- <-]. apply sv_all; [apply io_end|done|constructor]. }
  unfold mbind at 1, C_bind at 1. destruct (next_op p i e) as [[op|st|] e1] eqn:En.
  - unfold mbind at 1, C_bind at 1. destruct (dispatchOne h _ op _ _ e1) as [r e2] eqn:Ed. destruct (Z.eqb_spec (rs_Status r) NFS4_OK) as [Hr|Hr].
    + unfold mbind, C_bind. destruct (run_ops h p n (i + 1) NFS4_OK e2) as [o1 e3] eqn:Er. intros [= <- <-].
      eapply served_one_more; eauto.
    + intros [= <- <-]. apply (sv_failed _ _ _ _ []); [|cbn; lia|constructor|exact Hr]. eapply io_op; eauto. apply io_end.
  - intros [= <- <-]. apply (sv_stopped _ _ _ _ [] e); [apply io_end|cbn; lia|constructor| |eapply next_status; eauto].
    cbn. now rewrite Z.add_0_r.
  - intros [= <- <-]. apply (sv_dropped _ _ _ _ [] e); [apply io_end|cbn; lia|constructor|]. cbn. now rewrite Z.add_0_r.
Qed.

(** The reply to operations that were served. *)
Definition reply_of (tag : bytes) (first : list CompoundResult) (o : option (list CompoundResult * Z)) : option bytes :=
  match o with Some (rs, status) => Some (encodeCompoundResponse status tag (first ++ rs)) | None => None end.

(** A session whose slot is released with the reply kept. *)
Definition completed (v : V41RequestContext) (reply : option bytes) (sess : Session) : Session :=
  set_fore_slots (CompleteSlotRequest (ss_ForeChannelSlots sess) (v41_SlotID v) (v41_SequenceID v) (v41_CacheThis v) reply
                    (v41_RequestDigest v)) sess.

(** The header of a request of a supported minor version; one that is not too long. *)
Definition supported (data tag : bytes) (minor numOps : Z) (rd : bytes) : Prop :=
  compound_header data = (Some (tag, minor, numOps), rd) /\ hd_minMinorVersion h <= minor <= hd_maxMinorVersion h /\ minor ∈ [0; 1; 2].
Definition admitted (data tag : bytes) (minor numOps : Z) (rd : bytes) : Prop :=
  supported data tag minor numOps rd /\ numOps <= MaxCompoundOps.
(** Its first operation, in the later minor versions. *)
Definition begins (data tag : bytes) (minor numOps op : Z) (rd : bytes) : Prop :=
  exists rd0, admitted data tag minor numOps rd0 /\ minor <> 0 /\ numOps <> 0 /\ DecodeUint32 rd0 = (Some op, rd).

(** What becomes of a request, by the bytes of it. *)
Inductive dispatched (ctx : CompoundContext) (data : bytes) (s : Server) (x : X) : option bytes * Server * X -> Prop :=
  | di_header rd : compound_header data = (None, rd) -> dispatched ctx data s x (None, s, x)
  | di_version tag minor numOps rd : compound_header data = (Some (tag, minor, numOps), rd) ->
      minor < hd_minMinorVersion h \/ hd_maxMinorVersion h < minor \/ minor ∉ [0; 1; 2] ->
      dispatched ctx data s x (Some (encodeCompoundResponse NFS4ERR_MINOR_VERS_MISMATCH tag []), s, x)
  | di_resource tag minor numOps rd : supported data tag minor numOps rd -> MaxCompoundOps < numOps ->
      dispatched ctx data s x (Some (encodeCompoundResponse NFS4ERR_RESOURCE tag []), s, x)
  | di_v40 tag numOps rd o e' : admitted data tag 0 numOps rd ->
      served (mkLoop false false None None 0 true) (Z.to_nat numOps) 0 (mkEnv ctx rd s x) o e' ->
      dispatched ctx data s x (reply_of tag [] o, en_srv e', en_ext e')
  | di_empty tag minor rd : admitted data tag minor 0 rd -> minor <> 0 ->
      dispatched ctx data s x (Some (encodeCompoundResponse NFS4_OK tag []), s, x)
  | di_no_op tag minor numOps rd rd' : admitted data tag minor numOps rd -> minor <> 0 -> numOps <> 0 ->
      DecodeUint32 rd = (None, rd') -> dispatched ctx data s x (None, s, x)
  | di_no_session tag minor numOps op rd : begins data tag minor numOps op rd -> IsSessionExemptOp op = false -> op <> OP_SEQUENCE ->
      dispatched ctx data s x (Some (encodeCompoundResponse NFS4ERR_OP_NOT_IN_SESSION tag []), s, x)
  | di_exempt tag minor numOps op rd o e' : begins data tag minor numOps op rd -> IsSessionExemptOp op = true ->
      served (mkLoop true (minor =? 2) None (Some op) 0 false) (Z.to_nat numOps) 0 (mkEnv ctx rd s x) o e' ->
      dispatched ctx data s x (reply_of tag [] o, en_srv e', en_ext e')
  | di_refused tag minor numOps rd first e1 : begins data tag minor numOps OP_SEQUENCE rd ->
      HandleSequenceOp (mkEnv ctx rd s x) = (SeqRefused first, e1) ->
      dispatched ctx data s x (Some (encodeCompoundResponse (rs_Status first) tag [first]), s, x)
  | di_replayed tag minor numOps rd cached e1 : begins data tag minor numOps OP_SEQUENCE rd ->
      HandleSequenceOp (mkEnv ctx rd s x) = (SeqReplayed cached, e1) ->
      dispatched ctx data s x (Some cached, s, x)
  | di_draining tag minor numOps rd first v p e1 s' : begins data tag minor numOps OP_SEQUENCE rd ->
      HandleSequenceOp (mkEnv ctx rd s x) = (SeqStarted first v p, e1) ->
      IsConnectionDraining (en_srv e1) (cc_ConnectionID (en_ctx e1)) = true ->
      s' = (upd_session p (completed v (Some (encodeCompoundResponse NFS4ERR_DELAY tag [first]))) (en_srv e1)).2 ->
      dispatched ctx data s x (Some (encodeCompoundResponse NFS4ERR_DELAY tag [first]), s', en_ext e1)
  | di_session tag minor numOps rd first v p e1 o e2 s' : begins data tag minor numOps OP_SEQUENCE rd ->
      HandleSequenceOp (mkEnv ctx rd s x) = (SeqStarted first v p, e1) ->
      cc_ConnectionID (en_ctx e1) = 0 \/ IsConnectionDraining (en_srv e1) (cc_ConnectionID (en_ctx e1)) = false ->
      served (mkLoop true (minor =? 2) (Some v) None 1 false) (Z.to_nat (numOps - 1)) 1
        (mkEnv (set_skip (en_ctx e1)) (en_rd e1) (en_srv e1) (en_ext e1)) o e2 ->
      s' = (upd_session p (completed v (reply_of tag [first] o)) (en_srv e2)).2 ->
      dispatched ctx data s x (reply_of tag [first] o, s', en_ext e2).

Lemma loop_served p numOps e tag first (r := runCompoundOps h numOps p ≫= fun o => mret (reply_of tag first o)) :
  exists o e', served p (Z.to_nat (numOps - lp_startIndex p)) (lp_startIndex p) e o e' /\ r e = (reply_of tag first o, e').
Proof.
  unfold r, runCompoundOps, mbind, C_bind. destruct (run_ops h p _ _ NFS4_OK e) as [o e'] eqn:E. exists o, e'.
  split; [now apply run_ops_served|reflexivity].
Qed.

Lemma sequence_ext (e : Env X) : en_ext (HandleSequenceOp e).2 = en_ext e.
Proof.
  unfold HandleSequenceOp, c_dec, c_srv, c_ctx, reserve_slot, c_state, mbind, C_bind, mret, C_ret. repeat (case_match; simplify_eq/=; try done).
Qed.

Lemma sequenced_dispatched ctx data s x tag minor numOps rd :
  begins data tag minor numOps OP_SEQUENCE rd ->
  let r := dispatch_sequenced h tag numOps (minor =? 2) (mkEnv ctx rd s x) in dispatched ctx data s x (r.1, en_srv r.2, en_ext r.2).
Proof.
  intros Hb r. subst r. unfold dispatch_sequenced, mbind, C_bind.
  pose proof (sequence_cases (mkEnv ctx rd s x)) as Hc. pose proof (sequence_ext (mkEnv ctx rd s x)) as Hx.
  destruct (HandleSequenceOp (mkEnv ctx rd s x)) as [[first|cached|first v p] e1] eqn:Es; cbn [fst snd] in Hx |- *.
  - unfold mret, C_ret. cbn [fst snd en_srv en_ext] in Hc, Hx |- *. rewrite Hc, Hx. eapply di_refused; eauto.
  - unfold mret, C_ret. cbn [fst snd en_srv en_ext] in Hc, Hx |- *. rewrite Hc, Hx. eapply di_replayed; eauto.
  - unfold run_in_session, c_ctx, c_set_ctx, c_srv. unfold mbind, C_bind, complete_slot. cbn [fst snd en_ctx en_rd en_srv en_ext].
    destruct (negb _ && _) eqn:Ed.
    + cbn [fst snd en_ctx en_rd en_srv en_ext mret C_ret]. eapply di_draining; eauto. apply andb_true_iff in Ed. apply Ed.
    + destruct (loop_served (mkLoop true (minor =? 2) (Some v) None 1 false) numOps
        (mkEnv (set_skip (en_ctx e1)) (en_rd e1) (en_srv e1) (en_ext e1)) tag [first]) as (o & e2 & Hv & E).
      unfold mbind, C_bind, mret, C_ret, reply_of in E. cbn [app] in E.
      destruct (runCompoundOps h numOps _ _) as [o' e2'] eqn:Er. cbn [fst snd en_ctx en_rd en_srv en_ext].
      injection E as Eo' <-. unfold mret, C_ret. cbn [fst snd en_srv en_ext]. rewrite Eo'. eapply di_session; eauto.
      apply andb_false_iff in Ed as [Ed%negb_false_iff|Ed]; [left; lia|right; exact Ed].
Qed.

Lemma v41_dispatched ctx data s x tag minor numOps rd :
  supported data tag minor numOps rd -> minor <> 0 ->
  let r := dispatchV41 h tag numOps (minor =? 2) (mkEnv ctx rd s x) in dispatched ctx data s x (r.1, en_srv r.2, en_ext r.2).
Proof.
  intros Hs Hm r. subst r. unfold dispatchV41. destruct (Z.gtb_spec numOps MaxCompoundOps) as [Hn|Hn]; [eapply di_resource; eauto|].
  assert (admitted data tag minor numOps rd) as Ha by (split; [exact Hs|lia]).
  destruct (Z.eqb_spec numOps 0) as [->|Hz]; [eapply di_empty; eauto|].
  unfold c_dec, mbind, C_bind. cbn [en_ctx en_rd en_srv en_ext].
  destruct (DecodeUint32 rd) as [[op|] rd'] eqn:Eo; cbn [fst snd]; [|eapply di_no_op; eauto].
  assert (begins data tag minor numOps op rd') as Hb by (exists rd; auto).
  destruct (IsSessionExemptOp op) eqn:Ex.
  - destruct (loop_served (mkLoop true (minor =? 2) None (Some op) 0 false) numOps (mkEnv ctx rd' s x) tag []) as (o & e' & Hv & E).
    unfold dispatchV41Ops. change (fun r => mret _) with (fun o => (mret (reply_of tag [] o) : C X (option bytes))). rewrite E.
    cbn [fst snd]. eapply di_exempt; eauto. cbn [lp_startIndex] in Hv. now rewrite Z.sub_0_r in Hv.
  - destruct (Z.eqb_spec op OP_SEQUENCE) as [->|Hne]; [|eapply di_no_session; eauto].
    eapply sequenced_dispatched; eauto.
Qed.

Lemma process_dispatched ctx data s x :
  let r := process h (mkEnv ctx data s x) in dispatched ctx data s x (r.1, en_srv r.2, en_ext r.2).
Proof.
  intros r. subst r. unfold process, c_dec, mbind, C_bind. cbn [en_ctx en_rd en_srv en_ext].
  destruct (compound_header data) as [[[[tag minor] numOps]|] rd] eqn:Eh; cbn [fst snd]; [|eapply di_header; eauto].
  destruct (_ || _) eqn:Ev.
  { eapply di_version; [eauto|]. lia. }
  assert (minor ∈ [0; 1; 2] -> supported data tag minor numOps rd) as Hs by (intros Hm; split; [exact Eh|split; [lia|exact Hm]]).
  destruct (Z.eqb_spec minor 0) as [->|H0].
  - specialize (Hs ltac:(set_solver)). unfold dispatchV40. destruct (Z.gtb_spec numOps MaxCompoundOps) as [Hn|Hn]; [eapply di_resource; eauto|].
    destruct (loop_served (mkLoop false false None None 0 true) numOps (mkEnv ctx rd s x) tag []) as (o & e' & Hv & E).
    change (fun r => mret _) with (fun o => (mret (reply_of tag [] o) : C X (option bytes))). rewrite E.
    cbn [fst snd]. eapply di_v40; [split; [exact Hs|lia]|]. cbn [lp_startIndex] in Hv. now rewrite Z.sub_0_r in Hv.
  - destruct (Z.eqb_spec minor 1) as [->|H1]; [apply (v41_dispatched ctx data s x tag 1); [apply Hs; set_solver|done]|].
    destruct (Z.eqb_spec minor 2) as [->|H2]; [apply (v41_dispatched ctx data s x tag 2); [apply Hs; set_solver|done]|].
    eapply di_version; [eauto|]. right. right. set_solver.
Qed.
End Contract.

(** ** The theorems *)




(** ** A conversation

    A client registers, creates a session and asks for the root file handle; another
    client comes, the first goes on with its second slot, and sends the request again. *)

Definition demo_lib16 : Nfs4Lib := {|
  share_of := fun _ => Some "/export"%string;
  random := fun n => Z.of_nat n :: repeat 0 15;
  uuids := fun n i => "u"%string;
  drained := fun _ _ m => Some m;
|}.

Definition demo_handler : Handler unit := mkHandler ∅ 0 2 [47] (fun _ _ => Some true) ∅ ∅ ∅.
Definition demo_digest (b : bytes) : bytes := [Z.of_nat (length b); foldr Z.add 0 b].
Definition demo_context (now conn : Z) : CompoundContext :=
  mkCompoundContext None None "10.0.0.1" 1 (Some 1000) (Some 1000) [] None false conn None now (fun _ => false).

Definition demo_compound (ops : list (Z * bytes)) : bytes :=
  WriteXDROpaque [] ++ WriteUint32 1 ++ WriteUint32 (Z.of_nat (length ops)) ++ mjoin (map (fun o => WriteUint32 o.1 ++ o.2) ops).

Definition demo_exchange (owner : bytes) : bytes :=
  demo_compound [(OP_EXCHANGE_ID, default [] (ExchangeIdArgs_Encode (mkExchangeIdArgs (mkClientOwner [1;2;3;4;5;6;7;8] owner) 0 (mkStateProtect 0 [] [] []) [])))].
Definition demo_create (c : Z) : bytes :=
  demo_compound [(OP_CREATE_SESSION, default [] (CreateSessionArgs_Encode (mkCreateSessionArgs c 1 0 demo_attrs demo_attrs 100 [])))].
Definition demo_args (slot seq : Z) : SequenceArgs := mkSequenceArgs (random (Nfs4Lib := demo_lib16) 0) seq slot 3 true.
Definition demo_sequence (slot seq : Z) : bytes :=
  demo_compound [(OP_SEQUENCE, default [] (SequenceArgs_Encode (demo_args slot seq))); (OP_PUTROOTFH, []); (OP_GETFH, [])].

Definition demo_evs : list Event :=
  [ECompound (demo_context 10 1) (demo_exchange [97]); ECompound (demo_context 11 1) (demo_create (demo_id 1))].
Definition demo_evs' : list Event :=
  [ECompound (demo_context 13 2) (demo_exchange [98]); ECompound (demo_context 14 1) (demo_sequence 1 1);
   ECompound (demo_context 15 3) (demo_sequence 0 1); EInternal (QReap 20); EInternal (QUnbind 1)].

Definition demo_world : Server * unit := (NewServer (NewStateManager ∅ None 0 7 90 0) demo_cfg, tt).
Definition demo_history : list Event -> Server * unit := fun evs => @history demo_lib16 unit demo_digest demo_handler evs demo_world.
Definition demo_call (now : Z) (data : bytes) (w : Server * unit) : option bytes * Server * unit :=
  @ProcessCompound demo_lib16 unit demo_digest demo_handler (demo_context now 1) data w.1 w.2.
Definition demo_request : Event := ECompound (demo_context 12 1) (demo_sequence 0 1).

Lemma demo_handler_ok : @handler_ok demo_lib16 unit demo_handler 2.
Proof. split; intros *; cbn; now rewrite lookup_empty. Qed.

Lemma demo_distinct16 k : @distinct_draws demo_lib16 k.
Proof. intros i j _ _ [= E]. lia. Qed.

(** The contract at a run: SEQUENCE, then two operations, all of them executed; the second
    of three operations fails and the third does not run. *)
Example contract_runs_all :
  option_map (fun b => (firstn 4 b, firstn 4 (skipn 8 b))) (demo_call 12 (demo_sequence 0 1) (demo_history demo_evs)).1.1
    = Some (WriteUint32 NFS4_OK, WriteUint32 3).
Proof. vm_compute. reflexivity. Qed.

Example contract_stops :
  let data := demo_compound [(OP_SEQUENCE, default [] (SequenceArgs_Encode (demo_args 0 1))); (OP_GETFH, []); (OP_PUTROOTFH, [])] in
  option_map (fun b => (firstn 4 b, firstn 4 (skipn 8 b))) (demo_call 12 data (demo_history demo_evs)).1.1
    = Some (WriteUint32 NFS4ERR_NOFILEHANDLE, WriteUint32 2).
Proof. vm_compute. reflexivity. Qed.


