(* ===== verification/Nfs4Replay.v ===== *)
(** * NFSv4 state: retransmissions and TEST_STATEID

    A request an owner sends again, with the seqid of its last one, gets the cached
    reply and changes nothing; TEST_STATEID reports of an open what using its
    stateid would. *)

From S2P Require Import Prelude.
From S2P Require Import SlotTable.
From S2P Require Import LockTypes.
From S2P Require Import LockManager.
From S2P Require Import Nfs4Grace.
From S2P Require Import Nfs4Types.
From S2P Require Import Nfs4State.
From S2P Require Import Nfs4Locks.
From S2P Require Import Nfs4Deleg.
From S2P Require Import Nfs4Wp.
From S2P Require Import Nfs4Abs.
From S2P Require Import Nfs4Quiet.
From S2P Require Import Nfs4Refine.
From S2P Require Import Nfs4Expiry.
From S2P Require Import Nfs4Reach.

Section Replay.

Definition anything : StateManager -> Prop := fun _ => True.

(** The owner of a name is live, and this was its last seqid. *)
Definition last_was (key : string) (q : Z) (s : StateManager) : Prop :=
  exists p o, openOwners (sm_tab s) !! key = Some p /\ h_owners (sm_heap s) !! p = Some o /\ oo_LastSeqID o = q.

(** The owner at [p] is live under its name. *)
Definition live_at (key : string) (p : ptr) (s : StateManager) : Prop :=
  openOwners (sm_tab s) !! key = Some p /\ is_Some (h_owners (sm_heap s) !! p).

Lemma set_seq_last key p q s : live_at key p s -> wp anything (upd_owner p (set_owner_seq q)) (fun _ s' => last_was key q s' /\ sm_grace s' = sm_grace s) s.
Proof.
  intros [Hk [o Ho]]. unfold upd_owner, heap_mod. wp1. split; [|done]. exists p, (set_owner_seq q o). split; [done|]. split; [|done].
  cbn. now rewrite lookup_alter_eq, Ho.
Qed.

Lemma wp_find_live c d s : wp anything (find_owner c d) (fun p s' => (openOwners (sm_tab s') !! makeOwnerKey c d = Some p) /\ sm_grace s' = sm_grace s) s.
Proof.
  unfold find_owner. do 2 wp1. destruct (openOwners (sm_tab s) !! makeOwnerKey c d) as [p|] eqn:E; [apply wp_ret; auto|].
  do 8 wp1. destruct (clientsByID (sm_tab s) !! c); repeat wp1; split; try done; apply lookup_insert_eq.
Qed.

Lemma wp_merge_live key p x a d s : live_at key p s -> wp anything (merge_open x a d) (fun _ s' => live_at key p s' /\ sm_grace s' = sm_grace s) s.
Proof. intros H. unfold merge_open. repeat wp1; done. Qed.

Lemma wp_create_live key p owner f a d s : live_at key p s ->
  wp anything (create_open p owner f a d) (fun _ s' => live_at key p s' /\ sm_grace s' = sm_grace s) s.
Proof.
  intros [Hk [o Ho]]. unfold create_open, addOpenStateToFileLocked, wp, mbind, Op_bind. cbn. unfold deref. cbn.
  rewrite lookup_insert_eq. cbn. split; [|done]. split; [done|]. cbn. rewrite lookup_alter_eq, Ho. now eexists.
Qed.

Lemma wp_open_last c d q f a dn s :
  wp anything (OpenFile c d q f a dn CLAIM_NULL) (fun res s' => (ofr_Replay res = None -> last_was (makeOwnerKey c d) q s') /\
    match sm_grace s' with Some g => IsInGrace g | None => false end = false) s.
Proof.
  unfold OpenFile, grace_gate. change (CLAIM_NULL =? CLAIM_NULL) with true. change (CLAIM_NULL =? CLAIM_PREVIOUS) with false. cbv iota.
  do 4 wp1; [done|]. apply negb_true_iff in H as Hg. do 2 wp1. wp1.
  eapply wp_mono with (Q := fun r s' => s' = s /\ True).
  { destruct (openOwners (sm_tab s) !! makeOwnerKey c d); [|now apply wp_ret]. wp1. wp1; [done|]. unfold owner_gate.
    destruct (q =? 0); [now apply wp_ret|]. destruct (ValidateSeqID (oo_LastSeqID x) q); [now apply wp_ret| |done].
    now destruct (oo_LastResult x). }
  intros [r|] s1 [-> _]; [apply wp_ret; now split|]. wp1. eapply wp_mono; [apply wp_find_live|]. intros p s2 [Hp Eg2].
  do 4 wp1; [done|]. do 2 wp1; [done|]. do 2 wp1. wp1. assert (live_at (makeOwnerKey c d) p s2) as Hl by (split; [done|eauto]).
  eapply wp_mono with (Q := fun _ s' => live_at (makeOwnerKey c d) p s' /\ sm_grace s' = sm_grace s2).
  { destruct (find_open x f s2); [apply wp_merge_live, Hl|apply wp_create_live, Hl]. }
  intros sid s3 [Hl3 Eg3]. wp1. eapply wp_mono; [apply set_seq_last, Hl3|]. intros ? s4 [Hlast Eg4]. apply wp_ret. split; [done|].
  now rewrite Eg4, Eg3, Eg2.
Qed.

Lemma replays q r : in_u32 q -> q <> 0 -> owner_gate q q (Some r) = mret (Some r).
Proof.
  intros Hq Hz. unfold owner_gate. rewrite (proj2 (Z.eqb_neq q 0) Hz).
  destruct (ValidateSeqID_spec q q Hq) as (_ & _ & _ & H). now rewrite (proj2 H eq_refl).
Qed.

Lemma cache_live c d st b s p o :
  openOwners (sm_tab s) !! makeOwnerKey c d = Some p -> h_owners (sm_heap s) !! p = Some o ->
  let s' := (CacheOpenOwnerResult c d st b s).2 in
  openOwners (sm_tab s') !! makeOwnerKey c d = Some p /\ sm_grace s' = sm_grace s /\
  h_owners (sm_heap s') !! p = Some (set_owner_result (mkCached st b) o).
Proof.
  intros Hk Ho. unfold CacheOpenOwnerResult, mbind, Op_bind. cbn. rewrite Hk. cbn. now rewrite lookup_alter_eq, Ho.
Qed.

Lemma open_replays c d q f a dn s p o r :
  in_u32 q -> q <> 0 -> match sm_grace s with Some g => IsInGrace g | None => false end = false ->
  openOwners (sm_tab s) !! makeOwnerKey c d = Some p -> h_owners (sm_heap s) !! p = Some o -> oo_LastSeqID o = q ->
  oo_LastResult o = Some r ->
  OpenFile c d q f a dn CLAIM_NULL s = (inr (mkOpenFileResult zeroStateid 0 (Some r)), s).
Proof.
  intros Hq Hz Hg Hk Ho Hl Hr. unfold OpenFile, grace_gate. change (CLAIM_NULL =? CLAIM_NULL) with true. cbv iota.
  unfold mbind, Op_bind. cbn. rewrite Hg. cbn. rewrite Hk. cbn. unfold deref. rewrite Ho. cbn. now rewrite Hl, Hr, replays.
Qed.
End Replay.

(** C24: an ordinary NFSv4.0 OPEN (CLAIM_NULL, with a nonzero seqid; zero is how
    NFSv4.1 skips the check) is executed once: after one that was executed and whose
    reply was cached, an OPEN of the same owner with the same seqid and CLAIM_NULL
    that comes next gets the cached reply and leaves the whole state as it is, whatever
    it asks for. *)
Theorem open_exactly_once (c : Z) (d : string) (q : Z) (f f' : string) (a a' dn dn' st : Z) (data : bytes)
    (res : OpenFileResult) (s s1 : StateManager) :
  in_u32 q -> q <> 0 ->
  OpenFile c d q f a dn CLAIM_NULL s = (inr res, s1) -> ofr_Replay res = None ->
  let s2 := (CacheOpenOwnerResult c d st data s1).2 in
  OpenFile c d q f' a' dn' CLAIM_NULL s2 =
    (inr (mkOpenFileResult zeroStateid 0 (Some (mkCached st data))), s2).
Proof.
  intros Hq Hz E Hnone s2. pose proof (wp_open_last c d q f a dn s) as H. unfold wp in H. rewrite E in H. destruct H as [H Hg].
  destruct (H Hnone) as (p & o & Hk & Ho & Hl). destruct (cache_live c d st data s1 p o Hk Ho) as (Hk2 & Eg & Ho2). fold s2 in Hk2, Eg, Ho2.
  apply (open_replays c d q f' a' dn' s2 p (set_owner_result (mkCached st data) o)); auto. now rewrite Eg.
Qed.

(** ** CLOSE *)

(** The name of an owner. *)
Definition named (c : Z) (d : string) (o : OpenOwner) : Prop := oo_ClientID o = c /\ oo_OwnerData o = d.

Section Close.

Lemma replay_close_fails o q s : exists e, replay_close o q s = (inl e, s).
Proof.
  unfold replay_close, mbind, Op_bind. cbn. destruct (closedOwnerByOther (sm_tab s) !! o) as [p|]; [|now eexists].
  cbn. unfold deref. destruct (h_owners (sm_heap s) !! p) as [x|]; [|now eexists].
  destruct (ValidateSeqID (oo_LastSeqID x) q), (oo_LastResult x); try destruct (q =? 0); now eexists.
Qed.

Lemma seqid_gate_state o q s : (seqid_gate o q s).2 = s.
Proof.
  unfold seqid_gate, owner_gate, mbind, Op_bind. destruct (q =? 0); [done|].
  destruct (ValidateSeqID (oo_LastSeqID o) q), (oo_LastResult o); done.
Qed.

(** What a CLOSE that was executed leaves: the open is gone, its owner is
    remembered with the seqid of the request, and is live or has no name. *)
Definition closed_state (sid : Stateid4) (q : Z) (s : StateManager) (res : OpenSeqResult) (s1 : StateManager) : Prop :=
  exists op o, openStateByOther (sm_tab s1) !! si_Other sid = None /\
    closedOwnerByOther (sm_tab s1) = <[si_Other sid := op]> (closedOwnerByOther (sm_tab s)) /\
    h_owners (sm_heap s1) !! op = Some o /\ oo_LastSeqID o = q /\ named (osr_ClientID res) (osr_OwnerData res) o /\
    (forall p, p <> op -> h_owners (sm_heap s1) !! p = h_owners (sm_heap s) !! p) /\
    (openOwners (sm_tab s1) !! oo_Key o = Some op \/ openOwners (sm_tab s1) !! oo_Key o = None).

Lemma retired op o s :
  h_owners (sm_heap s) !! op = Some o -> openOwners (sm_tab s) !! oo_Key o = Some op ->
  exists s1, retire_owner op s = (inr tt, s1) /\ openStateByOther (sm_tab s1) = openStateByOther (sm_tab s) /\
    closedOwnerByOther (sm_tab s1) = closedOwnerByOther (sm_tab s) /\ h_owners (sm_heap s1) = h_owners (sm_heap s) /\
    (openOwners (sm_tab s1) !! oo_Key o = Some op \/ openOwners (sm_tab s1) !! oo_Key o = None).
Proof.
  intros Ho Hk. unfold retire_owner, mbind, Op_bind, deref. rewrite Ho. destruct (oo_OpenStates o).
  - cbn. destruct (oo_ClientRecord o); eexists; split_and!; try done; right; apply lookup_delete_eq.
  - eexists. split_and!; try done. now left.
Qed.

Lemma close_leaves sid q s :
  a_wf (abs s) -> IsSpecialStateid sid = false -> wp anything (CloseFile sid q) (closed_state sid q s) s.
Proof.
  intros Hw Hsp. unfold CloseFile. rewrite Hsp. do 2 wp1.
  destruct (openStateByOther (sm_tab s) !! si_Other sid) as [p|] eqn:Hop.
  2:{ unfold wp. destruct (replay_close_fails (si_Other sid) q s) as [e ->]. done. }
  do 2 wp1; [done|]. rename x into os, H into Hp. do 2 wp1; [done|]. rename x into owner, H into Hown. wp1.
  eapply wp_mono with (Q := fun _ s' => s' = s).
  { unfold wp. pose proof (seqid_gate_state owner q s). destruct (seqid_gate owner q s) as [[e|[]] s']; cbn in *; subst; done. }
  intros _ s' ->. do 2 wp1; [done|].
  assert (openOwners (sm_tab s) !! oo_Key owner = Some (os_Owner os)) as Hkey.
  { destruct (wf_open _ _ _ _ Hw (si_Other sid) p Hop) as (x & y & E1 & _ & E2 & _ & E3). rewrite (abs_open _ _ _ Hp) in E1.
    injection E1 as <-. cbn [w_owner open_of] in E2, E3. rewrite (abs_owner _ _ _ Hown) in E2. injection E2 as <-. exact E3. }
  unfold drop_open, removeOpenStateFromFileLocked. do 5 wp1. apply wp_deref_some with os; [exact Hp|]. do 8 wp1.
  set (o1 := set_owner_seq q (set_owner_opens (remove_ptr p (oo_OpenStates owner)) owner)). set (s1 := with_heap _ _).
  assert (h_owners (sm_heap s1) !! os_Owner os = Some o1) as Ho1 by (cbn; now rewrite lookup_alter_eq, Hown).
  destruct (retired (os_Owner os) o1 s1 Ho1 Hkey) as (s2 & E & T1 & T2 & T3 & T4).
  unfold wp. rewrite E. exists (os_Owner os), o1. rewrite T1, T2, T3. split_and!; try done.
  - apply lookup_delete_eq.
  - intros p' Hne. cbn. now rewrite lookup_alter_ne.
Qed.

Lemma cache_closed c d st b s op o :
  h_owners (sm_heap s) !! op = Some o -> named c d o ->
  (openOwners (sm_tab s) !! makeOwnerKey c d = Some op \/ openOwners (sm_tab s) !! makeOwnerKey c d = None) ->
  (forall k p o', closedOwnerByOther (sm_tab s) !! k = Some p -> h_owners (sm_heap s) !! p = Some o' -> named c d o' -> p = op) ->
  (exists k, closedOwnerByOther (sm_tab s) !! k = Some op) ->
  let s' := (CacheOpenOwnerResult c d st b s).2 in
  sm_tab s' = sm_tab s /\ h_owners (sm_heap s') !! op = Some (set_owner_result (mkCached st b) o).
Proof.
  intros Ho Hn Hlive Huniq [k Hk]. unfold CacheOpenOwnerResult, mbind, Op_bind. cbn. destruct Hlive as [-> | ->].
  { cbn. now rewrite lookup_alter_eq, Ho. }
  destruct (List.find _ _) as [p|] eqn:Ef; cbn.
  - apply find_some in Ef as [Hin Hnm]. destruct (h_owners (sm_heap s) !! p) as [o'|] eqn:Ep; [|done].
    apply andb_true_iff in Hnm as [Hc Hd]. apply Z.eqb_eq in Hc. apply bool_decide_eq_true in Hd.
    apply list_elem_of_In, list_elem_of_fmap in Hin as ([k' p'] & -> & Hin%elem_of_map_to_list). cbn [snd] in Ep |- *.
    rewrite (Huniq _ _ _ Hin Ep (conj Hc Hd)). now rewrite lookup_alter_eq, Ho.
  - exfalso. pose proof (find_none _ _ Ef op) as Hf. cbn beta in Hf. rewrite Ho in Hf. destruct Hn as [Hc Hd].
    rewrite Hc, Z.eqb_refl, bool_decide_true in Hf by done. cbn in Hf. discriminate Hf. apply list_elem_of_In, list_elem_of_fmap.
    exists (k, op). split; [done|]. now apply elem_of_map_to_list.
Qed.
End Close.

(** C25: an NFSv4.0 CLOSE with a nonzero seqid and an ordinary stateid is executed once:
    from well-formed tables in which no retained closed owner has the name of the owner
    of the open, after a CLOSE that was executed and whose reply was cached, the same
    request that comes next gets the cached reply although the open, and perhaps its
    owner, are gone, and leaves the state as it is.  (With a namesake the reply may be
    cached on the wrong owner, see [close_reply_on_namesake].) *)
Theorem close_exactly_once (sid : Stateid4) (q st : Z) (data : bytes) (res : OpenSeqResult)
    (s s1 : StateManager) :
  a_wf (abs s) -> in_u32 q -> q <> 0 -> IsSpecialStateid sid = false ->
  CloseFile sid q s = (inr res, s1) ->
  (forall k p o, closedOwnerByOther (sm_tab s) !! k = Some p -> h_owners (sm_heap s) !! p = Some o ->
     ~ named (osr_ClientID res) (osr_OwnerData res) o) ->
  let s2 := (CacheOpenOwnerResult (osr_ClientID res) (osr_OwnerData res) st data s1).2 in
  CloseFile sid q s2 = (inl (ReplayError st data), s2).
Proof.
  intros Hw Hq Hz Hsp E Hfresh s2. pose proof (close_leaves sid q s Hw Hsp) as H. unfold wp in H. rewrite E in H.
  destruct H as (op & o & H1 & H2 & H3 & H4 & H5 & H6 & H7).
  assert (oo_Key o = makeOwnerKey (osr_ClientID res) (osr_OwnerData res)) as Ek by (unfold oo_Key; now destruct H5 as [-> ->]).
  rewrite Ek in H7.
  destruct (cache_closed (osr_ClientID res) (osr_OwnerData res) st data s1 op o H3 H5 H7) as [Et Eo].
  { rewrite H2. intros k p o' [[<- <-]|[_ Hk]]%lookup_insert_Some Hp Hn; [done|]. destruct (decide (p = op)) as [->|Hne]; [done|].
    rewrite (H6 p Hne) in Hp. now destruct (Hfresh k p o' Hk Hp). }
  { exists (si_Other sid). rewrite H2. apply lookup_insert_eq. }
  fold s2 in Et, Eo. unfold CloseFile. rewrite Hsp. unfold mbind, Op_bind, op_gets. rewrite Et, H1.
  unfold replay_close, mbind, Op_bind, op_gets, deref. rewrite Et, H2, lookup_insert_eq, Eo. cbn [set_owner_result oo_LastSeqID oo_LastResult].
  rewrite H4, (proj2 (proj2 (proj2 (proj2 (ValidateSeqID_spec q q Hq)))) eq_refl), (proj2 (Z.eqb_neq q 0) Hz). done.
Qed.

(** ** TEST_STATEID *)

(** The NFSv4 status of a result. *)
Definition status_of {A} (r : NErr + A) : Z :=
  match r with
  | inr _ => NFS4_OK
  | inl (NFS4StateError st) => st
  | inl (ReplayError st _) => st
  | inl _ => NFS4ERR_SERVERFAULT
  end.

Lemma open_not_special sid : stateType (si_Other sid) = StateTypeOpen -> isAnonymous sid = false /\ isReadBypass sid = false.
Proof.
  unfold stateType, StateTypeOpen, isAnonymous, isReadBypass. destruct (si_Other sid) as [|b l]; cbn; [done|]. intros ->. cbn.
  now rewrite !andb_false_r.
Qed.

Lemma issued_epoch s o p : a_wf (abs s) -> openStateByOther (sm_tab s) !! o = Some p -> currentEpoch (sm_bootEpoch s) o = true.
Proof. intros Hw Ho. destruct (wf_issued_open _ _ _ _ Hw o p Ho) as (k & _ & ->). apply currentEpoch_other. Qed.

Lemma seqid_current_status a b s :
  seqid_current a b s = (if seqid_status a b =? NFS4_OK then inr tt else inl (NFS4StateError (seqid_status a b)), s).
Proof. unfold seqid_current, seqid_status. destruct (a =? 0), (a <? b), (b <? a); done. Qed.

(** for an open, TEST_STATEID reports the status that presenting the stateid to
    a READ would get, on every branch: stale or bad when it is unknown, old or bad
    when its seqid is not the current one, expired when the lease ran out. *)
Theorem test_stateid_agrees (now : Z) (sid : Stateid4) (s : StateManager) :
  a_wf (abs s) -> stateType (si_Other sid) = StateTypeOpen ->
  testSingleStateid now sid s = status_of (ValidateStateid now sid "" StateidOpRead s).1.
Proof.
  intros Hw Ht. destruct (open_not_special sid Ht) as [Ha Hb]. unfold testSingleStateid, ValidateStateid, IsSpecialStateid.
  rewrite Ha, Hb, Ht. cbn [orb]. change (StateTypeOpen =? StateTypeDeleg) with false.
  change (StateTypeOpen =? StateTypeLock) with false. change (StateTypeOpen =? StateTypeOpen) with true. cbv iota.
  unfold mbind at 1, Op_bind, op_gets. destruct (openStateByOther (sm_tab s) !! si_Other sid) as [p|] eqn:Ho.
  2:{ unfold unknown_stateid, isCurrentEpoch, testOpenStateid, mbind, Op_bind, op_gets. rewrite Ho.
      now destruct (currentEpoch (sm_bootEpoch s) (si_Other sid)). }
  rewrite (issued_epoch s _ _ Hw Ho). cbn [negb].
  destruct (wf_open _ _ _ _ Hw _ _ Ho) as (x & y & Hx & _ & Hy & _).
  apply heap_open in Hx as (os & Hos & <-). apply heap_owner in Hy as (oo & Hoo & <-). cbn [open_of w_owner] in Hoo.
  unfold testOpenStateid, mbind, Op_bind, deref. rewrite Ho. cbn. rewrite Hos. cbn. rewrite seqid_current_status.
  destruct (seqid_status (Seqid sid) (Seqid (os_Stateid os)) =? NFS4_OK) eqn:Es; cbn [negb]; [|done].
  change (handle_matches "" (os_FileHandle os) s) with (@inr NErr unit tt, s). cbv iota. rewrite Hoo. cbn.
  unfold renew_record. destruct (oo_ClientRecord oo) as [r|] eqn:Er; cbn; [|done].
  destruct (wf_rec _ _ _ _ Hw (os_Owner os) (owner_of oo) r) as (c & Hc & _); [now apply abs_owner|exact Er|].
  cbn in Hc. rewrite lookup_fmap in Hc. unfold mbind, Op_bind, deref.
  destruct (h_clients (sm_heap s) !! r) as [cl|]; cbn; [|discriminate Hc].
  destruct (cr_Lease cl) as [l|]; [|done]. cbn. now destruct (IsExpired now l).
Qed.

(** ** Witnesses *)

Definition demo_open : (NErr + OpenFileResult) * StateManager := OpenFile (demo_id 2) "o2" 2 "g" 1 0 CLAIM_NULL demo_state.
Definition demo_close : (NErr + OpenSeqResult) * StateManager := CloseFile (demo_sid 4) 2 demo_state.

Lemma open_exactly_once_witness :
  let s2 := (CacheOpenOwnerResult (demo_id 2) "o2" 0 [9] demo_open.2).2 in
  OpenFile (demo_id 2) "o2" 2 "g" 1 0 CLAIM_NULL s2 = (inr (mkOpenFileResult zeroStateid 0 (Some (mkCached 0 [9]))), s2).
Proof.
  apply (open_exactly_once (demo_id 2) "o2" 2 "g" "g" 1 1 0 0 0 [9]
    (mkOpenFileResult (demo_sid 5) 6 None) demo_state demo_open.2); [unfold in_u32; lia|lia|vm_compute; reflexivity|reflexivity].
Defined.

Lemma close_exactly_once_witness :
  let s2 := (CacheOpenOwnerResult (demo_id 2) "o2" 0 [9] demo_close.2).2 in
  CloseFile (demo_sid 4) 2 s2 = (inl (ReplayError 0 [9]), s2).
Proof.
  apply (close_exactly_once (demo_sid 4) 2 0 [9] (mkOpenSeqResult zeroStateid (demo_id 2) "o2") demo_state demo_close.2).
  - exact (@run_wf demo_lib {["/export"%string := newBaseManager]} None 0 7 0 0 demo_rs eq_refl).
  - unfold in_u32; lia.
  - lia.
  - reflexivity.
  - vm_compute. reflexivity.
  - intros k p o H. replace (closedOwnerByOther (sm_tab demo_state)) with (∅ : gmap Other ptr) in H by (vm_compute; reflexivity).
    now rewrite lookup_empty in H.
Defined.

Lemma test_stateid_agrees_witness :
  testSingleStateid 20 (demo_sid 1) demo_state = status_of (ValidateStateid 20 (demo_sid 1) "" StateidOpRead demo_state).1.
Proof.
  apply (test_stateid_agrees 20 (demo_sid 1) demo_state);
    [exact (@run_wf demo_lib {["/export"%string := newBaseManager]} None 0 7 0 0 demo_rs eq_refl)|reflexivity].
Defined.
