(* ===== verification/Nfs4Examples.v ===== *)
(** * NFSv4 and NFSv4.1 state: runs worth knowing

    Concrete sequences of requests whose outcome is not what the comments of the
    code, the messages of its errors or the protocol say. *)

From S2P Require Import Prelude.
From S2P Require Import SlotTable.
From S2P Require Import LockTypes.
From S2P Require Import LockManager.
From S2P Require Import Xdr.
From S2P Require Import Nfs4Grace.
From S2P Require Import Nfs4Types.
From S2P Require Import Nfs41Wire.
From S2P Require Import Nfs4State.
From S2P Require Import Nfs41State.
From S2P Require Import Nfs4Locks.
From S2P Require Import Nfs4Deleg.
From S2P Require Import Nfs4Abs.
From S2P Require Import Nfs4Reach.
From S2P Require Import Nfs41Reach.
From S2P Require Import Nfs41Replay.
From S2P Require Import Nfs4Handlers.
From S2P Require Import Nfs4Compound.
From S2P Require Import Nfs4CompoundFacts.

Section v41.
#[local] Existing Instance demo_lib16.

(** The operations and statuses of a reply: the status of the COMPOUND and, for the
    operations that answer with nothing but a status, the operations. *)
Definition reply_status (r : option bytes * Server * unit) : option Z := r.1.1 ≫= fun b => (DecodeUint32 b).1.
Definition reply_length (r : option bytes * Server * unit) : option Z :=
  r.1.1 ≫= fun b => ('(_, _, n) ← (compound_header b).1; Some n).

Definition demo_own_destroy : bytes :=
  demo_compound [(OP_SEQUENCE, default [] (SequenceArgs_Encode (demo_args 0 1)));
                 (OP_DESTROY_SESSION, default [] (DestroySessionArgs_Encode (random 0)))].

(** A client that ends its session in the usual way, DESTROY_SESSION as the last
    operation of a sequenced COMPOUND, is always told to try again: its own request
    counts as in flight. *)
Example own_session_never_destroyed :
  let r := demo_call 12 demo_own_destroy (demo_history demo_evs) in
  reply_status r = Some NFS4ERR_DELAY /\ GetSession r.1.2 (random 0) <> None.
Proof. split; vm_compute; [reflexivity|discriminate]. Qed.

Definition demo_exempt_first : bytes :=
  demo_compound [(OP_EXCHANGE_ID, default [] (ExchangeIdArgs_Encode (mkExchangeIdArgs (mkClientOwner [1;2;3;4;5;6;7;8] [99]) 0 (mkStateProtect 0 [] [] []) [])));
                 (OP_PUTROOTFH, []); (OP_GETFH, [])].

(** Operations that need a session are refused at the head of a COMPOUND and executed
    behind an operation that does not. *)
Example exempt_operation_opens_the_door :
  reply_status (demo_call 12 (demo_compound [(OP_PUTROOTFH, []); (OP_GETFH, [])]) (demo_history [])) = Some NFS4ERR_OP_NOT_IN_SESSION /\
  reply_status (demo_call 12 demo_exempt_first (demo_history [])) = Some NFS4_OK.
Proof. split; vm_compute; reflexivity. Qed.

(** A client that asks for no slots gets one. *)
Example negotiated_more_than_requested :
  ca_MaxRequests (negotiateChannelAttrs (mkChannelAttrs 0 65536 65536 4096 16 0 []) DefaultForeLimits) = 1.
Proof. reflexivity. Qed.

(** An open of a client of NFSv4.1, made by OPEN with the client's ID, outlives the
    client: DESTROY_CLIENTID, eviction and the reaper look for it nowhere. *)
Definition destroyed_client : Server :=
  run41 [QExchangeID 10 "alice" [1] [] "a" ""; Q40 (ROpen (demo_id 1) "o1" 0 "f" 3 3 CLAIM_NULL); QDestroyClientID (demo_id 1)]
    (NewServer (NewStateManager ∅ None 0 7 90 0) demo_cfg).

Example destroyed_client_keeps_opens :
  v41ClientsByID (sv_tab destroyed_client) !! demo_id 1 = None /\
  (OpenFile (demo_id 2) "o2" 0 "f" 1 0 CLAIM_NULL (sv_sm destroyed_client)).1 = inl (NFS4StateError NFS4ERR_SHARE_DENIED).
Proof. split; vm_compute; reflexivity. Qed.

(** OPEN_DOWNGRADE at an open of the client. *)
Definition downgrade_in (skip : bool) (seqid : Z) (s : Server) : Z :=
  let c := set_fh (Some [102]) None (demo_context 12 1) in
  let e := mkEnv (if skip then set_skip c else c)
             (default [] (EncodeStateid4 (demo_sid 1)) ++ WriteUint32 seqid ++ WriteUint32 1 ++ WriteUint32 0) s tt in
  rs_Status (handleOpenDowngrade (X := unit) e).1.

Definition opened_41 : Server :=
  run41 [QExchangeID 10 "alice" [1] [] "a" ""; Q40 (ROpen (demo_id 1) "o1" 0 "f" 3 0 CLAIM_NULL);
         Q40 (ROpen (demo_id 1) "o1" 0 "f" 1 0 CLAIM_NULL)] (NewServer (NewStateManager ∅ None 0 7 90 0) demo_cfg).

(** OPEN_DOWNGRADE in a sequenced COMPOUND checks the sequence number of the owner,
    which NFSv4.1 clients do not maintain; LOCK and the others pass 0. *)
Example downgrade_checks_owner_seqid :
  (downgrade_in true 0 opened_41, downgrade_in true 5 opened_41) = (NFS4_OK, NFS4ERR_BAD_SEQID).
Proof. vm_compute. reflexivity. Qed.
End v41.

Section v40.
#[local] Existing Instance demo_lib.

Definition seconds (n : Z) : Z := n * 10 ^ 9.

(** A client that sends SETCLIENTID again with the same verifier (to change its
    callback, say) and confirms it gets a new record with a lease of its own, but
    its client ID still leads to the old record: RENEW renews the old lease, and
    when the new one runs out everything is purged although the client renewed. *)
Definition twice_registered : list Request :=
  [RSetClientID (seconds 0) "alice" [1] demo_cb "" ""; RConfirmClientID (seconds 0) (demo_id 1) [0];
   RSetClientID (seconds 1) "alice" [1] demo_cb "" ""; RConfirmClientID (seconds 1) (demo_id 1) [1];
   ROpen (demo_id 1) "o1" 1 "f" 1 0 CLAIM_NULL; RRenew (seconds 80) (demo_id 1)].

Example renewed_client_purged :
  let s := run twice_registered demo_new in
  (perform (RRenew (seconds 80) (demo_id 1)) s).1 = inr tt /\
  let s' := run [RLeaseTimer (seconds 92) 1] s in
  clientsByID (sm_tab s') !! demo_id 1 = None /\ map_to_list (openStateByOther (sm_tab s')) = [].
Proof. vm_compute. done. Qed.

(** The new callback is in a record the client ID does not lead to. *)
Example callback_not_updated :
  let s := run [RSetClientID 0 "alice" [1] (mkCallback 1 "tcp" "old") "" ""; RConfirmClientID 0 (demo_id 1) [0];
                RSetClientID 1 "alice" [1] (mkCallback 2 "tcp" "new") "" ""; RConfirmClientID 1 (demo_id 1) [1]] demo_new in
  (cb_Addr ∘ cr_Callback <$> (clientsByID (sm_tab s) !! demo_id 1 ≫= fun p => h_clients (sm_heap s) !! p)) = Some "old"%string /\
  (cb_Addr ∘ cr_Callback <$> (clientsByName (sm_tab s) !! "alice"%string ≫= fun p => h_clients (sm_heap s) !! p)) = Some "new"%string.
Proof. vm_compute. done. Qed.

(** A client that rebooted: its old record goes, its old opens stay, and no lease
    covers them: the file stays denied to everyone. *)
Example reboot_leaks_opens :
  let s := run [RSetClientID 0 "alice" [1] demo_cb "" ""; RConfirmClientID 0 (demo_id 1) [0];
                ROpen (demo_id 1) "o1" 1 "f" 1 3 CLAIM_NULL;
                RSetClientID 1 "alice" [2] demo_cb "" ""; RConfirmClientID 1 (demo_id 2) [1]] demo_new in
  clientsByID (sm_tab s) !! demo_id 1 = None /\
  length (map_to_list (openStateByOther (sm_tab s))) = 1%nat /\
  (perform (ROpen (demo_id 2) "o1" 1 "f" 1 0 CLAIM_NULL) s).1 = inl (NFS4StateError NFS4ERR_SHARE_DENIED) /\
  let s' := run [RLeaseTimer (seconds 1000) 0; RLeaseTimer (seconds 1000) 2] s in
  length (map_to_list (openStateByOther (sm_tab s'))) = 1%nat.
Proof. vm_compute. done. Qed.

(** A refused OPEN does not advance the owner's seqid: the client, which must
    advance its own, is out of step from then on, a new owner for good. *)
Example denied_open_wedges_owner :
  let s := run (demo_clients ++ [ROpen (demo_id 1) "o1" 1 "f" 1 2 CLAIM_NULL]) demo_new in
  let r1 := perform (ROpen (demo_id 2) "o2" 1 "f" 2 0 CLAIM_NULL) s in
  let r2 := perform (ROpen (demo_id 2) "o2" 2 "g" 2 0 CLAIM_NULL) r1.2 in
  r1.1 = inl (NFS4StateError NFS4ERR_SHARE_DENIED) /\ r2.1 = inl (NFS4StateError NFS4ERR_BAD_SEQID).
Proof. vm_compute. done. Qed.

(** After LOCKU has released every lock, CLOSE still fails with LOCKS_HELD, until
    RELEASE_LOCKOWNER or FREE_STATEID. *)
Example close_after_unlock :
  let lk := mkStateid 2 (stateid_other StateTypeLock 7 2) in
  let s := run (demo_clients ++
    [ROpen (demo_id 1) "o1" 1 "f" 3 0 CLAIM_NULL;
     RLockNew 14 (demo_id 1) "lk" 1 (demo_sid 1) 2 "f" WRITE_LT 0 10 false;
     RUnlock lk 2 WRITE_LT 0 10]) demo_new in
  (lockManagerFor "f" s ≫= fun m => Some (ListUnifiedLocks m "f")) = Some [] /\
  (perform (RClose (demo_sid 1) 3) s).1 = inl (NFS4StateError NFS4ERR_LOCKS_HELD) /\
  (perform (RClose (demo_sid 1) 3) (run [RReleaseLockOwner (demo_id 1) "lk"] s)).1 = inr tt.
Proof. vm_compute. done. Qed.

(** An owner's second life: the reply of its last CLOSE is cached on the owner of the
    first (which of the two is up to the order of a Go map), so the retransmission
    of the last CLOSE gets BAD_STATEID. *)
Example close_reply_on_namesake :
  let s := run (demo_clients ++
    [ROpen (demo_id 1) "o1" 1 "f" 1 0 CLAIM_NULL; RClose (demo_sid 1) 2; RCacheOpen (demo_id 1) "o1" 0 [1];
     ROpen (demo_id 1) "o1" 7 "f" 1 0 CLAIM_NULL; RClose (demo_sid 2) 8; RCacheOpen (demo_id 1) "o1" 0 [2]]) demo_new in
  (perform (RClose (demo_sid 2) 8) s).1 = inl (NFS4StateError NFS4ERR_BAD_STATEID) /\
  (perform (RClose (demo_sid 1) 2) s).1 = inl (ReplayError 0 [2]).
Proof. vm_compute. done. Qed.

(** Lease expiry leaves the delegation in the lock manager it was mirrored into. *)
Example expired_delegation_still_mirrored :
  let s := run (demo_clients ++ [RGrantDelegation 15 false (demo_id 1) "g" OPEN_DELEGATE_WRITE;
                                 RLeaseTimer (seconds 1000) 0]) demo_new in
  map_to_list (delegByOther (sm_del s)) = [] /\ length (map_to_list (delegStateidMap (sm_del s))) = 1%nat /\
  (lockManagerFor "g" s ≫= fun m => Some (length (ListUnifiedLocks m "g"))) = Some 1%nat.
Proof. vm_compute. done. Qed.

(** Eviction keeps the closed owners of the client for replay; expiry drops them. *)
Example evicted_owner_replays :
  let s := run (demo_clients ++
    [ROpen (demo_id 1) "o1" 1 "f" 1 0 CLAIM_NULL; RClose (demo_sid 1) 2; RCacheOpen (demo_id 1) "o1" 0 [1]]) demo_new in
  (perform (RClose (demo_sid 1) 2) (run [REvict (demo_id 1)] s)).1 = inl (ReplayError 0 [1]) /\
  (perform (RClose (demo_sid 1) 2) (run [RLeaseTimer (seconds 1000) 0] s)).1 = inl (NFS4StateError NFS4ERR_BAD_STATEID).
Proof. vm_compute. done. Qed.
End v40.
