(* ===== verification/BlockCodec.v ===== *)
(** * The block wire format ([pkg/block/blockcodec/codec.go])

    Packed blocks: a preamble, then one framed record per chunk, with plaintext
    or sealed record headers.  A Go string is the list of its bytes; the writer
    of a [Builder] is a [bytes.Buffer], which never fails.  The AEAD of sealed
    headers is a [Sealer] argument. *)

From S2P Require Import Prelude.
Local Open Scope go_scope.

(** ** [encoding/binary] varints *)

Definition MaxVarintLen64 : nat := 10.

Fixpoint put_uvarint (room : nat) (x : Z) : list Z :=
  match room with
  | O => []
  | S room => if x >=? 0x80 then (u8 x .| 0x80) :: put_uvarint room (Z.shiftr x 7) else [u8 x]
  end.

Definition PutUvarint (x : Z) : list Z := put_uvarint MaxVarintLen64 x.

Inductive UvarintError := TooSmall | Overflow.

Fixpoint uvarint (buf : list Z) (i : nat) (x s : Z) : UvarintError + (Z * nat) :=
  match buf with
  | [] => inl TooSmall
  | b :: buf =>
      if (i =? MaxVarintLen64)%nat then inl Overflow
      else if b <? 0x80 then
        if (i =? MaxVarintLen64 - 1)%nat && (b >? 1) then inl Overflow
        else inr (x .| u64 (Z.shiftl b s), S i)
      else uvarint buf (S i) (x .| u64 (Z.shiftl (b .& 0x7f) s)) (s + 7)
  end.

Definition Uvarint (buf : list Z) : UvarintError + (Z * nat) := uvarint buf 0 0 0.

(** ** Blocks *)

Definition ContentHash : Type := list Z.
Definition BlockID : Type := list Z.

(** A legacy standalone locator has an empty [BlockID]. *)
Record ChunkLocator := mkLocator {
  cl_BlockID : BlockID;
  cl_WireOffset : Z;
  cl_WireLength : Z;
}.

Definition IsStandalone (l : ChunkLocator) : bool := bool_decide (cl_BlockID l = []).

Record Sealer := mkSealer {
  Seal : list Z -> list Z -> option (list Z);
  Open : list Z -> list Z -> option (list Z);
}.

(** 'D' 'F' 'B' '1' *)
Definition magic : list Z := [68; 70; 66; 49].
Definition flagSealed : Z := Z.shiftl 1 0.

Definition buildAAD (blockID : BlockID) (recordIndex : Z) : list Z := blockID ++ PutUvarint recordIndex.

Record Builder := mkBuilder {
  b_w : list Z;
  b_blockID : BlockID;
  b_sealer : option Sealer;
  b_recordIndex : Z;
}.

Definition written (b : Builder) : Z := Z.of_nat (length (b_w b)).

Definition writeRaw (b : Builder) (p : list Z) : Builder :=
  mkBuilder (b_w b ++ p) (b_blockID b) (b_sealer b) (b_recordIndex b).

Definition writeUvarint (b : Builder) (v : Z) : Builder := writeRaw b (PutUvarint v).

Definition writeVarBytes (b : Builder) (data : list Z) : Builder :=
  writeRaw (writeUvarint b (Z.of_nat (length data))) data.

Definition writePreamble (b : Builder) : Builder :=
  let b := writeRaw b magic in
  let flags := if b_sealer b then flagSealed else 0 in
  writeVarBytes (writeRaw b [flags]) (b_blockID b).

Definition NewBuilder (blockID : BlockID) (sealer : option Sealer) : Builder :=
  writePreamble (mkBuilder [] blockID sealer 0).

(** The body of a record, where [Add] has just written the header. *)
Definition add_body (b : Builder) (wire : list Z) : Builder * ChunkLocator :=
  let wireBodyStart := written b in
  let b := writeRaw b wire in
  (mkBuilder (b_w b) (b_blockID b) (b_sealer b) (u64 (b_recordIndex b + 1)),
   mkLocator (b_blockID b) wireBodyStart (Z.of_nat (length wire))).

Definition addPlaintext (b : Builder) (hash : ContentHash) (wire : list Z) : Builder * ChunkLocator :=
  add_body (writeUvarint (writeRaw b hash) (Z.of_nat (length wire))) wire.

Definition addSealed (s : Sealer) (b : Builder) (hash : ContentHash) (wire : list Z) : option (Builder * ChunkLocator) :=
  let hdr := hash ++ PutUvarint (Z.of_nat (length wire)) in
  let aad := buildAAD (b_blockID b) (b_recordIndex b) in
  match Seal s hdr aad with
  | None => None
  | Some sealedHdr => Some (add_body (writeVarBytes b sealedHdr) wire)
  end.

Definition Add (b : Builder) (hash : ContentHash) (wire : list Z) : option (Builder * ChunkLocator) :=
  match b_sealer b with
  | Some s => addSealed s b hash wire
  | None => Some (addPlaintext b hash wire)
  end.

Definition Finish (b : Builder) : Z := written b.

(** The loop its callers run: one [Add] per chunk. *)
Fixpoint add_all (b : Builder) (chunks : list (ContentHash * list Z)) : option (Builder * list ChunkLocator) :=
  match chunks with
  | [] => Some (b, [])
  | (h, wire) :: chunks =>
      match Add b h wire with
      | None => None
      | Some (b, loc) =>
          match add_all b chunks with
          | None => None
          | Some (b, locs) => Some (b, loc :: locs)
          end
      end
  end.

(** ** Parsing *)

Inductive CodecError :=
  | UnexpectedEOF | BadVarint (e : UvarintError) | VarBytesTooLong | InvalidMagic
  | SealedWithoutSealer | WireLenTooLong | OpenFailed | SealedHeaderTooShort.

(** The bytes from the cursor's position on, and the position. *)
Record cursor := mkCursor { cu_pos : nat; cu_rest : list Z }.

Definition remaining (c : cursor) : nat := length (cu_rest c).

Definition readN (n : nat) (c : cursor) : CodecError + (list Z * cursor) :=
  if (remaining c <? n)%nat then inl UnexpectedEOF
  else inr (take n (cu_rest c), mkCursor (cu_pos c + n) (drop n (cu_rest c))).

Definition readUvarint (c : cursor) : CodecError + (Z * cursor) :=
  match Uvarint (cu_rest c) with
  | inl e => inl (BadVarint e)
  | inr (v, n) => inr (v, mkCursor (cu_pos c + n) (drop n (cu_rest c)))
  end.

Definition readVarBytes (c : cursor) : CodecError + (list Z * cursor) :=
  match readUvarint c with
  | inl e => inl e
  | inr (l, c) =>
      if l >? Z.of_nat (remaining c) then inl VarBytesTooLong else readN (Z.to_nat l) c
  end.

Record Record_ := mkRecord { r_Hash : ContentHash; r_WireOffset : Z; r_WireLength : Z }.

(** The wire body of a record whose header has been read. *)
Definition read_body (hash : ContentHash) (wireLen : Z) (c : cursor) : CodecError + (Record_ * cursor) :=
  if wireLen >? Z.of_nat (remaining c) then inl WireLenTooLong
  else match readN (Z.to_nat wireLen) c with
       | inl e => inl e
       | inr (_, c') => inr (mkRecord hash (Z.of_nat (cu_pos c)) wireLen, c')
       end.

Definition read_plain (c : cursor) : CodecError + (Record_ * cursor) :=
  match readN 32 c with
  | inl e => inl e
  | inr (hashBytes, c) =>
      match readUvarint c with
      | inl e => inl e
      | inr (wireLen, c) => read_body hashBytes wireLen c
      end
  end.

Definition read_sealed (s : Sealer) (blockID : BlockID) (idx : Z) (c : cursor) : CodecError + (Record_ * cursor) :=
  match readVarBytes c with
  | inl e => inl e
  | inr (sealedHdr, c) =>
      match Open s sealedHdr (buildAAD blockID idx) with
      | None => inl OpenFailed
      | Some hdr =>
          if (length hdr <? 32)%nat then inl SealedHeaderTooShort
          else match Uvarint (drop 32 hdr) with
               | inl e => inl (BadVarint e)
               | inr (wireLen, _) => read_body (take 32 hdr) wireLen c
               end
      end
  end.

Definition read_record (s : option Sealer) (blockID : BlockID) (idx : Z) (c : cursor) : CodecError + (Record_ * cursor) :=
  match s with Some s => read_sealed s blockID idx c | None => read_plain c end.

(** A record takes at least a byte, so the length of the block is enough fuel
    ([parse_records_fuel]). *)
Fixpoint parse_records (fuel : nat) (s : option Sealer) (blockID : BlockID) (idx : Z) (c : cursor)
    : CodecError + list Record_ :=
  match fuel with
  | O => inr []
  | S fuel =>
      if (remaining c =? 0)%nat then inr []
      else match read_record s blockID idx c with
           | inl e => inl e
           | inr (rec, c) =>
               match parse_records fuel s blockID (u64 (idx + 1)) c with
               | inl e => inl e
               | inr recs => inr (rec :: recs)
               end
           end
  end.

Definition Parse (data : list Z) (sealer : option Sealer) : CodecError + (BlockID * list Record_) :=
  match readN 4 (mkCursor 0 data) with
  | inl e => inl e
  | inr (m, c) =>
      if negb (bool_decide (m = magic)) then inl InvalidMagic
      else match readN 1 c with
           | inl e => inl e
           | inr (fl, c) =>
               match readVarBytes c with
               | inl e => inl e
               | inr (blockID, c) =>
                   let sealed := has (default 0 (head fl)) flagSealed in
                   match sealed, sealer with
                   | true, None => inl SealedWithoutSealer
                   | _, _ =>
                       let sealer := if sealed then sealer else None in
                       match parse_records (length data) sealer blockID 0 c with
                       | inl e => inl e
                       | inr recs => inr (blockID, recs)
                       end
                   end
               end
           end
  end.

(** ** Varints read back *)

Lemma lor_disjoint a b s : 0 <= s -> 0 <= a < 2 ^ s -> Z.lor a (Z.shiftl b s) = a + b * 2 ^ s.
Proof.
  intros Hs Ha. rewrite <- Z.shiftl_mul_pow2, <- Z.add_lor_land by lia.
  assert (Z.land a (Z.shiftl b s) = 0) as ->; [|lia].
  apply Z.bits_inj'. intros n Hn. rewrite Z.land_spec, Z.bits_0, Z.shiftl_spec by lia.
  destruct (decide (n < s)).
  - rewrite (Z.testbit_neg_r b) by lia. apply andb_false_r.
  - rewrite (testbit_above_width a s) by lia. reflexivity.
Qed.

Lemma u8_or_128 x : Z.land (Z.lor (u8 x) 0x80) 0x7f = x mod 128 /\ 128 <= Z.lor (u8 x) 0x80.
Proof.
  split.
  - rewrite Z.land_lor_distr_l. change (Z.land 128 127) with 0. rewrite Z.lor_0_r.
    change 127 with (Z.ones 7). rewrite Z.land_ones by lia. unfold u8, wrap.
    change (2 ^ 7) with 128. rewrite <- Znumtheory.Zmod_div_mod; [reflexivity|lia|lia|].
    exists 2. reflexivity.
  - assert (0 <= u8 x) by (apply wrap_range; lia). change 128 with (2 ^ 7) at 1.
    assert (Z.testbit (Z.lor (u8 x) 128) 7 = true) by (rewrite Z.lor_spec; apply orb_true_r).
    assert (0 <= Z.lor (u8 x) 128) by (apply Z.lor_nonneg; lia).
    destruct (Z_lt_le_dec (Z.lor (u8 x) 128) (2 ^ 7)); [|assumption].
    rewrite (testbit_above_width _ 7 7) in * by lia. discriminate.
Qed.

Lemma uvarint_put room x i acc s r :
  (i + room = 10)%nat -> (0 < room)%nat -> s = 7 * Z.of_nat i ->
  0 <= x < 2 ^ (64 - s) -> 0 <= acc < 2 ^ s ->
  uvarint (put_uvarint room x ++ r) i acc s = inr (acc + x * 2 ^ s, (i + length (put_uvarint room x))%nat).
Proof.
  revert x i acc s r. induction room as [|room IH]; intros x i acc s r Hi Hr Hs Hx Hacc; [lia|].
  assert (0 <= s <= 63) as Hs63 by lia.
  assert (Hfit : x * 2 ^ s < 2 ^ 64).
  { replace (2 ^ 64) with (2 ^ (64 - s) * 2 ^ s) by (rewrite <- Z.pow_add_r by lia; f_equal; lia).
    apply Z.mul_lt_mono_pos_r; lia. }
  cbn [put_uvarint]. destruct (Z.geb_spec x 128) as [Hge|Hlt]; cbn [app uvarint].
  - assert (i < 9)%nat as Hi9.
    { destruct (decide (i < 9)%nat); [assumption|]. assert (i = 9%nat) as -> by lia.
      subst s. simpl in Hx. lia. }
    replace (i =? MaxVarintLen64)%nat with false by (symmetry; apply Nat.eqb_neq; unfold MaxVarintLen64; lia).
    destruct (u8_or_128 x) as [Hlow Hhigh].
    destruct (Z.ltb_spec (Z.lor (u8 x) 128) 128); [lia|]. rewrite Hlow.
    assert (Hm : x mod 128 < 128) by (apply Z.mod_pos_bound; lia).
    assert (Hm0 : 0 <= x mod 128) by (apply Z.mod_pos_bound; lia).
    assert (Hx128 : x = 128 * (x / 128) + x mod 128) by (apply Z.div_mod; lia).
    assert (x mod 128 <= x) by (apply Z.mod_le; lia).
    rewrite u64_small.
    2:{ rewrite Z.shiftl_mul_pow2 by lia. unfold in_u64. nia. }
    rewrite lor_disjoint by lia.
    rewrite (IH (Z.shiftr x 7) (S i)); [|lia|lia|lia| |].
    + rewrite Z.shiftr_div_pow2 by lia. change (2 ^ 7) with 128.
      do 2 f_equal; [|simpl; lia]. rewrite Z.pow_add_r by lia. change (2 ^ 7) with 128. nia.
    + rewrite Z.shiftr_div_pow2 by lia. change (2 ^ 7) with 128. split; [apply Z.div_pos; lia|].
      apply Z.div_lt_upper_bound; [lia|].
      replace (128 * 2 ^ (64 - (s + 7))) with (2 ^ (64 - s)); [lia|].
      change 128 with (2 ^ 7). rewrite <- Z.pow_add_r by lia. f_equal. lia.
    + rewrite Z.pow_add_r by lia. change (2 ^ 7) with 128. nia.
  - assert (u8 x = x) as -> by (apply wrap_small; lia).
    replace (i =? MaxVarintLen64)%nat with false by (symmetry; apply Nat.eqb_neq; unfold MaxVarintLen64; lia).
    destruct (Z.ltb_spec x 128); [|lia].
    replace ((i =? MaxVarintLen64 - 1)%nat && (x >? 1)) with false.
    2:{ symmetry. apply andb_false_iff. destruct (decide (i = 9)%nat) as [->|].
        - right. subst s. simpl in Hx. zcase; lia.
        - left. apply Nat.eqb_neq. unfold MaxVarintLen64. lia. }
    rewrite u64_small, lor_disjoint; [|lia|lia|rewrite Z.shiftl_mul_pow2 by lia; unfold in_u64; nia].
    do 2 f_equal. simpl. lia.
Qed.

Lemma Uvarint_put x r : in_u64 x -> Uvarint (PutUvarint x ++ r) = inr (x, length (PutUvarint x)).
Proof.
  intros Hx. unfold Uvarint, PutUvarint, MaxVarintLen64.
  rewrite uvarint_put; [|lia|lia|reflexivity|exact Hx|simpl; lia].
  do 2 f_equal. simpl Z.pow. lia.
Qed.

Lemma PutUvarint_nonempty x : PutUvarint x <> [].
Proof. unfold PutUvarint, MaxVarintLen64. cbn [put_uvarint]. destruct (x >=? 128); discriminate. Qed.

(** ** Reading what was written *)

Lemma readN_app n p x r : length x = n -> readN n (mkCursor p (x ++ r)) = inr (x, mkCursor (p + n) r).
Proof.
  intros <-. unfold readN, remaining. cbn [cu_pos cu_rest]. rewrite length_app.
  replace (_ <? _)%nat with false by (symmetry; apply Nat.ltb_ge; lia).
  rewrite take_app_length, drop_app_length. reflexivity.
Qed.

Lemma readUvarint_app v p r : in_u64 v ->
  readUvarint (mkCursor p (PutUvarint v ++ r)) = inr (v, mkCursor (p + length (PutUvarint v)) r).
Proof. intros Hv. unfold readUvarint. cbn [cu_pos cu_rest]. rewrite Uvarint_put, drop_app_length by done. reflexivity. Qed.

Definition varbytes (x : list Z) : list Z := PutUvarint (Z.of_nat (length x)) ++ x.

Lemma readVarBytes_app x p r : in_u64 (Z.of_nat (length x)) ->
  readVarBytes (mkCursor p (varbytes x ++ r)) = inr (x, mkCursor (p + length (varbytes x)) r).
Proof.
  intros Hx. unfold readVarBytes, varbytes. rewrite <- app_assoc, readUvarint_app by done.
  unfold remaining. cbn [cu_rest]. rewrite length_app.
  destruct (Z.gtb_spec (Z.of_nat (length x)) (Z.of_nat (length x + length r))); [lia|].
  rewrite Nat2Z.id, readN_app by done. do 3 f_equal. rewrite length_app. lia.
Qed.

Lemma read_body_app h wire p r :
  read_body h (Z.of_nat (length wire)) (mkCursor p (wire ++ r)) =
  inr (mkRecord h (Z.of_nat p) (Z.of_nat (length wire)), mkCursor (p + length wire) r).
Proof.
  unfold read_body, remaining. cbn [cu_rest cu_pos]. rewrite length_app.
  destruct (Z.gtb_spec (Z.of_nat (length wire)) (Z.of_nat (length wire + length r))); [lia|].
  rewrite Nat2Z.id, readN_app by done. reflexivity.
Qed.

(** What a share's header sealing promises: sealed headers open again. *)
Definition sealer_ok (s : option Sealer) : Prop :=
  forall sl, s = Some sl -> forall hdr aad c, Seal sl hdr aad = Some c -> Open sl c aad = Some hdr /\ in_u64 (Z.of_nat (length c)).

Definition chunk_ok (c : ContentHash * list Z) : Prop := length c.1 = 32%nat /\ in_u64 (Z.of_nat (length c.2)).

Definition record_of (c : ContentHash * list Z) (l : ChunkLocator) : Record_ :=
  mkRecord c.1 (cl_WireOffset l) (cl_WireLength l).

Lemma add_body_spec b wire :
  add_body b wire =
  (mkBuilder (b_w b ++ wire) (b_blockID b) (b_sealer b) (u64 (b_recordIndex b + 1)),
   mkLocator (b_blockID b) (Z.of_nat (length (b_w b))) (Z.of_nat (length wire))).
Proof. reflexivity. Qed.

Lemma Add_spec b h wire b' loc :
  sealer_ok (b_sealer b) -> chunk_ok (h, wire) -> Add b h wire = Some (b', loc) ->
  exists hdr, hdr <> [] /\
    b' = mkBuilder (b_w b ++ hdr ++ wire) (b_blockID b) (b_sealer b) (u64 (b_recordIndex b + 1)) /\
    loc = mkLocator (b_blockID b) (Z.of_nat (length (b_w b ++ hdr))) (Z.of_nat (length wire)) /\
    forall r, read_record (b_sealer b) (b_blockID b) (b_recordIndex b) (mkCursor (length (b_w b)) (hdr ++ wire ++ r)) =
      inr (record_of (h, wire) loc, mkCursor (length (b_w b')) r).
Proof.
  intros Hs [Hh Hw]. cbn [fst snd] in *. unfold Add. destruct (b_sealer b) as [s|] eqn:Hsl.
  - unfold addSealed. destruct (Seal s _ _) as [c|] eqn:Hc; [|discriminate].
    intros [= <- <-]. destruct (Hs s eq_refl _ _ _ Hc) as [Hopen Hlen].
    exists (varbytes c). unfold writeVarBytes, writeUvarint, writeRaw. cbn [b_w b_blockID b_sealer b_recordIndex].
    rewrite <- !app_assoc, Hsl. unfold varbytes at 2 3. rewrite <- app_assoc.
    split; [|split; [reflexivity|split; [unfold varbytes; reflexivity|]]].
    { unfold varbytes. intros [H _]%app_nil. exact (PutUvarint_nonempty _ H). }
    intros r. unfold read_record, read_sealed. rewrite readVarBytes_app, Hopen by exact Hlen.
    rewrite length_app, Hh. cbn [Nat.ltb]. replace (_ <? 32)%nat with false by (symmetry; apply Nat.ltb_ge; lia).
    rewrite drop_app_length', take_app_length' by done.
    rewrite <- (app_nil_r (PutUvarint _)), Uvarint_put by done. rewrite read_body_app.
    unfold record_of, written, varbytes. cbn [fst cl_WireOffset cl_WireLength b_w]. rewrite !length_app.
    do 3 f_equal; lia.
  - intros [= <- <-]. exists (h ++ PutUvarint (Z.of_nat (length wire))).
    unfold writeUvarint, writeRaw. cbn [b_w b_blockID b_sealer b_recordIndex].
    rewrite <- !app_assoc, Hsl.
    split; [|split; [reflexivity|split; [reflexivity|]]].
    { intros [_ H]%app_nil. exact (PutUvarint_nonempty _ H). }
    intros r. unfold read_record, read_plain. rewrite <- !app_assoc.
    rewrite readN_app, readUvarint_app, read_body_app by done.
    unfold record_of, written. cbn [fst cl_WireOffset cl_WireLength b_w]. rewrite !length_app.
    do 3 f_equal; lia.
Qed.

Lemma parse_records_nil fuel s id idx p : parse_records fuel s id idx (mkCursor p []) = inr [].
Proof. destruct fuel; reflexivity. Qed.

Lemma parse_built chunks b b' locs fuel :
  sealer_ok (b_sealer b) -> Forall chunk_ok chunks -> add_all b chunks = Some (b', locs) ->
  exists tail, b_w b' = b_w b ++ tail /\
    ((length tail <= fuel)%nat ->
     parse_records fuel (b_sealer b) (b_blockID b) (b_recordIndex b) (mkCursor (length (b_w b)) tail) =
     inr (zip_with record_of chunks locs)) /\
    Forall2 (fun c l => cl_BlockID l = b_blockID b /\ cl_WireLength l = Z.of_nat (length c.2) /\
                        0 <= cl_WireOffset l /\
                        slice (Z.to_nat (cl_WireOffset l)) (length c.2) (b_w b') = c.2) chunks locs.
Proof.
  revert b b' locs fuel. induction chunks as [|[h wire] chunks IH]; intros b b' locs fuel Hs Hok; cbn [add_all].
  { intros [= <- <-]. exists []. rewrite app_nil_r. repeat split; [|constructor]. intros _. apply parse_records_nil. }
  destruct (Add b h wire) as [[b1 loc]|] eqn:Hadd; [|discriminate].
  destruct (add_all b1 chunks) as [[b2 locs']|] eqn:Hall; [|discriminate]. intros [= <- <-].
  apply Forall_cons in Hok as [Hc Hok].
  destruct (Add_spec _ _ _ _ _ Hs Hc Hadd) as (hdr & Hne & Hb1 & Hloc & Hread).
  destruct (IH b1 b2 locs' (pred fuel)) as (tail & Hw & Hparse & Hwin); [rewrite Hb1; exact Hs|exact Hok|exact Hall|].
  exists (hdr ++ wire ++ tail).
  assert (b_w b2 = b_w b ++ hdr ++ wire ++ tail) as Hw2 by (rewrite Hw, Hb1; cbn [b_w]; rewrite <- !app_assoc; reflexivity).
  split; [exact Hw2|]. split.
  - intros Hfuel. rewrite !length_app in Hfuel. destruct hdr as [|x hdr]; [contradiction|].
    destruct fuel as [|fuel]; [simpl in Hfuel; lia|]. cbn [parse_records].
    assert ((remaining (mkCursor (length (b_w b)) ((x :: hdr) ++ wire ++ tail)) =? 0)%nat = false) as -> by reflexivity.
    rewrite (Hread tail).
    replace (b_sealer b) with (b_sealer b1) by (rewrite Hb1; reflexivity).
    replace (b_blockID b) with (b_blockID b1) by (rewrite Hb1; reflexivity).
    replace (u64 (b_recordIndex b + 1)) with (b_recordIndex b1) by (rewrite Hb1; reflexivity).
    cbn [pred] in Hparse. rewrite Hparse by (simpl in Hfuel; lia). reflexivity.
  - replace (b_blockID b) with (b_blockID b1) in * by (rewrite Hb1; reflexivity).
    constructor; [|exact Hwin]. rewrite Hloc. cbn [cl_BlockID cl_WireLength cl_WireOffset snd].
    repeat split; [lia|]. rewrite Nat2Z.id, Hw2, app_assoc.
    rewrite <- (Nat.add_0_r (length (b_w b ++ hdr))), (slice_skip _ 0) by reflexivity.
    apply slice_here. reflexivity.
Qed.

Lemma NewBuilder_spec id s :
  NewBuilder id s = mkBuilder (magic ++ [if s then flagSealed else 0] ++ varbytes id) id s 0.
Proof. destruct s; reflexivity. Qed.

Lemma has_flag (s : option Sealer) : has (if s then flagSealed else 0) flagSealed = if s then true else false.
Proof. destruct s; reflexivity. Qed.

Lemma roundtrip (id : BlockID) (s : option Sealer) (chunks : list (ContentHash * list Z)) b locs :
  sealer_ok s -> in_u64 (Z.of_nat (length id)) -> Forall chunk_ok chunks ->
  add_all (NewBuilder id s) chunks = Some (b, locs) ->
  Parse (b_w b) s = inr (id, zip_with record_of chunks locs) /\
  Forall2 (fun c l => cl_BlockID l = id /\ cl_WireLength l = Z.of_nat (length c.2) /\ 0 <= cl_WireOffset l /\
                      slice (Z.to_nat (cl_WireOffset l)) (length c.2) (b_w b) = c.2) chunks locs.
Proof.
  intros Hs Hid Hok Hall. rewrite NewBuilder_spec in Hall.
  destruct (parse_built _ (mkBuilder _ id s 0) _ _ (length (b_w b)) Hs Hok Hall) as (tail & Hw & Hparse & Hwin).
  split; [|exact Hwin]. cbn [b_w b_sealer b_blockID b_recordIndex] in *.
  unfold Parse. rewrite Hw at 1. rewrite <- !app_assoc, readN_app by reflexivity.
  rewrite bool_decide_true by reflexivity. cbn [negb].
  rewrite readN_app, readVarBytes_app by done.
  assert (forall x : Z, default 0 (head [x]) = x) as -> by reflexivity. rewrite has_flag.
  rewrite !length_app in Hparse.
  replace (0 + 4 + 1 + length (varbytes id))%nat with (length magic + (1 + length (varbytes id)))%nat
    by (simpl; lia).
  change (length [_]) with 1%nat in Hparse.
  destruct s as [s|]; rewrite Hparse; try reflexivity; rewrite Hw, !length_app; lia.
Qed.

(** C31: a block built from any chunks, with plaintext or with sealed record
    headers, is parsed back to its identifier and exactly the records of its
    chunks; the locators handed out while building name the windows that hold the
    chunks' wire bytes. *)
Theorem block_roundtrip (id : BlockID) (s : option Sealer) (chunks : list (ContentHash * list Z)) b locs :
  sealer_ok s -> in_u64 (Z.of_nat (length id)) -> Forall chunk_ok chunks ->
  add_all (NewBuilder id s) chunks = Some (b, locs) ->
  Parse (b_w b) s = inr (id, zip_with record_of chunks locs) /\
  Forall2 (fun c l => cl_BlockID l = id /\ cl_WireLength l = Z.of_nat (length c.2) /\ 0 <= cl_WireOffset l /\
                      slice (Z.to_nat (cl_WireOffset l)) (length c.2) (b_w b) = c.2) chunks locs.
Proof. apply roundtrip. Qed.

(** *** Reading any bytes: the windows stay inside the block *)

Definition inside (data : list Z) (c : cursor) : Prop := cu_rest c = drop (cu_pos c) data /\ (cu_pos c <= length data)%nat.

Lemma inside_remaining data c : inside data c -> (cu_pos c + remaining c = length data)%nat.
Proof. intros [Hr Hp]. unfold remaining. rewrite Hr, length_drop. lia. Qed.

Lemma inside_advance data c n : inside data c -> (n <= remaining c)%nat ->
  inside data (mkCursor (cu_pos c + n) (drop n (cu_rest c))).
Proof.
  intros Hin Hn. pose proof (inside_remaining _ _ Hin). destruct Hin as [Hr Hp]. split; cbn; [|lia].
  rewrite Hr, drop_drop. f_equal; lia.
Qed.

Lemma uvarint_length buf : forall i x s v n, uvarint buf i x s = inr (v, n) -> (i < n <= i + length buf)%nat.
Proof.
  induction buf as [|b buf IH]; intros i x s v n; cbn [uvarint]; [discriminate|].
  destruct (i =? MaxVarintLen64)%nat; [discriminate|].
  destruct (b <? 128).
  - destruct (_ && _); [discriminate|]. intros [= <- <-]. simpl. lia.
  - intros H. apply IH in H. simpl. lia.
Qed.

Lemma uvarint_nonneg buf : forall i x s v n, Forall is_byte buf -> 0 <= x -> 0 <= s -> uvarint buf i x s = inr (v, n) -> 0 <= v.
Proof.
  induction buf as [|b buf IH]; intros i x s v n Hb Hx Hs; cbn [uvarint]; [discriminate|].
  apply Forall_cons in Hb as [Hb0 Hb].
  destruct (i =? MaxVarintLen64)%nat; [discriminate|].
  destruct (b <? 128).
  - destruct (_ && _); [discriminate|]. intros [= <- <-]. apply Z.lor_nonneg. split; [lia|]. apply wrap_range. lia.
  - apply IH; [exact Hb| |lia]. apply Z.lor_nonneg. split; [lia|]. apply wrap_range. lia.
Qed.

Lemma readN_inside data c n x c' : inside data c -> readN n c = inr (x, c') ->
  inside data c' /\ cu_pos c' = (cu_pos c + n)%nat.
Proof.
  intros Hin. unfold readN. destruct (Nat.ltb_spec (remaining c) n); [discriminate|]. intros [= <- <-].
  split; [|reflexivity]. apply inside_advance; assumption.
Qed.

Lemma readUvarint_inside data c v c' : inside data c -> readUvarint c = inr (v, c') ->
  inside data c' /\ (cu_pos c < cu_pos c')%nat.
Proof.
  intros Hin. unfold readUvarint, Uvarint. destruct (uvarint _ _ _ _) as [|[w n]] eqn:Hu; [discriminate|].
  intros [= <- <-]. apply uvarint_length in Hu. split; [|cbn; lia].
  apply inside_advance; [exact Hin|unfold remaining; lia].
Qed.

Lemma readVarBytes_inside data c x c' : inside data c -> readVarBytes c = inr (x, c') ->
  inside data c' /\ (cu_pos c < cu_pos c')%nat.
Proof.
  intros Hin. unfold readVarBytes. destruct (readUvarint c) as [|[l c1]] eqn:Hu; [discriminate|].
  destruct (readUvarint_inside _ _ _ _ Hin Hu) as [Hin1 Hlt].
  destruct (l >? _); [discriminate|]. intros Hr. destruct (readN_inside _ _ _ _ _ Hin1 Hr) as [Hin2 Hpos].
  split; [exact Hin2|lia].
Qed.

Lemma read_body_inside data h l c rec c' : inside data c -> 0 <= l -> read_body h l c = inr (rec, c') ->
  inside data c' /\ r_Hash rec = h /\ Z.of_nat (cu_pos c) = r_WireOffset rec /\ 0 <= r_WireLength rec /\
  Z.of_nat (cu_pos c') = r_WireOffset rec + r_WireLength rec.
Proof.
  intros Hin Hl. unfold read_body. destruct (l >? _); [discriminate|].
  destruct (readN _ c) as [|[x c1]] eqn:Hr; [discriminate|]. intros [= <- <-].
  destruct (readN_inside _ _ _ _ _ Hin Hr) as [Hin1 Hpos]. cbn. repeat split; [apply Hin1..|lia|lia].
Qed.

(** The records of a parsed block follow each other from [lo] and the last one
    ends at [hi]. *)
Fixpoint windows (lo : Z) (recs : list Record_) (hi : Z) : Prop :=
  match recs with
  | [] => lo = hi
  | r :: recs => lo <= r_WireOffset r /\ 0 <= r_WireLength r /\ length (r_Hash r) = 32%nat /\
                 windows (r_WireOffset r + r_WireLength r) recs hi
  end.

Lemma inside_bytes data c : Forall is_byte data -> inside data c -> Forall is_byte (cu_rest c).
Proof. intros Hb [-> _]. apply Forall_drop, Hb. Qed.

Lemma read_plain_inside data c rec c' : Forall is_byte data -> inside data c -> read_plain c = inr (rec, c') ->
  inside data c' /\ length (r_Hash rec) = 32%nat /\ Z.of_nat (cu_pos c) < r_WireOffset rec /\ 0 <= r_WireLength rec /\
  Z.of_nat (cu_pos c') = r_WireOffset rec + r_WireLength rec.
Proof.
  intros Hb Hin. unfold read_plain.
  destruct (readN 32 c) as [|[h c1]] eqn:H1; [discriminate|].
  destruct (readN_inside _ _ _ _ _ Hin H1) as [Hin1 Hp1].
  assert (length h = 32%nat) as Hh.
  { revert H1. unfold readN. destruct (Nat.ltb_spec (remaining c) 32) as [|Hge]; [discriminate|]. intros [= <- _].
    apply length_take_le. exact Hge. }
  destruct (readUvarint c1) as [|[l c2]] eqn:H2; [discriminate|].
  destruct (readUvarint_inside _ _ _ _ Hin1 H2) as [Hin2 Hp2]. intros H3.
  assert (0 <= l) as Hl.
  { revert H2. unfold readUvarint, Uvarint. destruct (uvarint _ _ _ _) as [|[w n]] eqn:Hu; [discriminate|].
    intros [= <- _]. exact (uvarint_nonneg _ _ _ _ _ _ (inside_bytes _ _ Hb Hin1) (Z.le_refl 0) (Z.le_refl 0) Hu). }
  destruct (read_body_inside _ _ _ _ _ _ Hin2 Hl H3) as (Hin3 & Hhash & Hoff & Hlen & Hend).
  repeat split; [apply Hin3..|congruence|lia|lia|lia].
Qed.

Lemma parse_records_inside data : forall fuel id idx c recs,
  Forall is_byte data -> inside data c -> (remaining c <= fuel)%nat ->
  parse_records fuel None id idx c = inr recs -> windows (Z.of_nat (cu_pos c)) recs (Z.of_nat (length data)).
Proof.
  induction fuel as [|fuel IH]; intros id idx c recs Hb Hin Hf; pose proof (inside_remaining _ _ Hin) as Hrem; cbn [parse_records].
  { intros [= <-]. cbn. lia. }
  destruct (Nat.eqb_spec (remaining c) 0) as [H0|H0]; [intros [= <-]; cbn; lia|].
  cbn [read_record]. destruct (read_plain c) as [|[rec c1]] eqn:Hr; [discriminate|].
  destruct (read_plain_inside _ _ _ _ Hb Hin Hr) as (Hin1 & Hh & Hoff & Hlen & Hend).
  pose proof (inside_remaining _ _ Hin1).
  destruct (parse_records fuel _ _ _ c1) as [|recs'] eqn:Hp; [discriminate|]. intros [= <-].
  apply IH in Hp; [|assumption|assumption|lia]. cbn [windows]. rewrite Hend in Hp. repeat split; [lia|lia|exact Hh|exact Hp].
Qed.

(** Whatever the bytes, a parsed block's records lie one behind the other inside
    it, the last one ending where the block ends. *)
Theorem parse_windows data id recs : Forall is_byte data -> Parse data None = inr (id, recs) ->
  exists start, 0 <= start /\ windows start recs (Z.of_nat (length data)).
Proof.
  intros Hb. unfold Parse.
  assert (inside data (mkCursor 0 data)) as Hin0 by (split; [reflexivity|cbn; lia]).
  destruct (readN 4 _) as [|[m c1]] eqn:H1; [discriminate|]. destruct (readN_inside _ _ _ _ _ Hin0 H1) as [Hin1 Hp1].
  destruct (negb _); [discriminate|].
  destruct (readN 1 c1) as [|[fl c2]] eqn:H2; [discriminate|]. destruct (readN_inside _ _ _ _ _ Hin1 H2) as [Hin2 Hp2].
  destruct (readVarBytes c2) as [|[bid c3]] eqn:H3; [discriminate|]. destruct (readVarBytes_inside _ _ _ _ Hin2 H3) as [Hin3 Hp3].
  pose proof (inside_remaining _ _ Hin3). cbn zeta. destruct (has _ _); [discriminate|].
  destruct (parse_records _ _ _ _ _) as [|recs'] eqn:Hp; [discriminate|]. intros [= <- <-].
  exists (Z.of_nat (cu_pos c3)). split; [lia|]. eapply (parse_records_inside data (length data)); [exact Hb|exact Hin3|lia|exact Hp].
Qed.

(** ** A block of two chunks *)

Definition plain_demo : option (Builder * list ChunkLocator) :=
  add_all (NewBuilder [97; 98] None) [(replicate 32 7, [1; 2; 3]); (replicate 32 9, replicate 200 5)].

Definition xor_sealer : Sealer :=
  mkSealer (fun hdr aad => Some (map (Z.lxor 90) hdr)) (fun c aad => Some (map (Z.lxor 90) c)).

Lemma block_roundtrip_witness :
  exists b locs, plain_demo = Some (b, locs) /\
    Parse (b_w b) None = inr ([97; 98], zip_with record_of [(replicate 32 7, [1; 2; 3]); (replicate 32 9, replicate 200 5)] locs).
Proof.
  destruct plain_demo as [[b locs]|] eqn:H; [|vm_compute in H; discriminate].
  exists b, locs. split; [reflexivity|].
  apply (block_roundtrip [97; 98] None _ b locs).
  - intros sl Hsl. discriminate.
  - vm_compute. split; congruence.
  - repeat constructor; vm_compute; congruence.
  - exact H.
Defined.

Example sealed_demo :
  match add_all (NewBuilder [97; 98] (Some xor_sealer)) [(replicate 32 7, [1; 2; 3]); (replicate 32 9, replicate 200 5)] with
  | Some (b, _) => (Parse (b_w b) None, Parse (b_w b) (Some xor_sealer)) =
      (inl SealedWithoutSealer, inr ([97; 98], [mkRecord (replicate 32 7) 42 3; mkRecord (replicate 32 9) 80 200]))
  | None => False
  end.
Proof. vm_compute. reflexivity. Qed.
