(* ===== verification/BlockMeta.v ===== *)
(** * Block metadata of a share ([pkg/metadata/store/memory]: [synced_hash_store.go],
    [block_record_store.go], [objects.go], [transaction.go];
    [pkg/metadata/block_record_store.go], [pkg/block/ids.go])

    What a share's metadata store keeps about remote blocks: the synced markers
    of chunk hashes with their locators, the block records, the manifest rows of
    files and the projection of the rows on the files.  Times are nanoseconds; 0
    is the zero time.  A transaction works on a copy of the store and buffers the
    marker changes, which are applied at the commit. *)

From S2P Require Import Prelude.
From S2P Require Import HoleMap.
From S2P Require Import BlockCodec.

Definition zeroHash : ContentHash := replicate 32 0.
Definition IsZero (h : ContentHash) : bool := bool_decide (h = zeroHash).

Inductive BlockState := BlockStatePending | BlockStateSyncing | BlockStateRemote.

#[export] Instance BlockState_eq_dec : EqDecision BlockState.
Proof. solve_decision. Defined.

Record FileChunk := mkFileChunk {
  fc_ID : string;
  fc_Hash : ContentHash;
  fc_DataSize : Z;
  fc_RefCount : Z;
  fc_State : BlockState;
}.

Definition IsFinalized (b : FileChunk) : bool := bool_decide (fc_State b = BlockStateRemote).

Record BlockRecord := mkBlockRecord {
  br_BlockID : BlockID;
  br_BlockHash : ContentHash;
  br_Length : Z;
  br_LiveChunkCount : Z;
  br_SyncState : BlockState;
}.

Record BlockChunkCommit := mkCommit { bc_Hash : ContentHash; bc_Remote : ChunkLocator }.

(** The attributes of a file this layer reads and writes. *)
Record fileData := mkFileData { fd_PayloadID : string; fd_Blocks : list ChunkRef }.

Record Store := mkStore {
  synced : gmap ContentHash Z;
  syncedLocators : gmap ContentHash ChunkLocator;
  blockRecords : gmap BlockID BlockRecord;
  blocks : gmap string FileChunk;
  hashIndex : gmap ContentHash string;
  files : gmap string fileData;
  linkCounts : gmap string Z;
}.

Definition emptyStore : Store := mkStore ∅ ∅ ∅ ∅ ∅ ∅ ∅.

Definition set_markers (st : Store) (s : gmap ContentHash Z) (l : gmap ContentHash ChunkLocator) : Store :=
  mkStore s l (blockRecords st) (blocks st) (hashIndex st) (files st) (linkCounts st).

Definition set_records (st : Store) (r : gmap BlockID BlockRecord) : Store :=
  mkStore (synced st) (syncedLocators st) r (blocks st) (hashIndex st) (files st) (linkCounts st).

Definition set_rows (st : Store) (b : gmap string FileChunk) (i : gmap ContentHash string) : Store :=
  mkStore (synced st) (syncedLocators st) (blockRecords st) b i (files st) (linkCounts st).

Definition set_files (st : Store) (f : gmap string fileData) (n : gmap string Z) : Store :=
  mkStore (synced st) (syncedLocators st) (blockRecords st) (blocks st) (hashIndex st) f n.

(** ** Row identifiers *)

Definition slash : Ascii.ascii := Ascii.ascii_of_N 47.
Definition plus_sign : Ascii.ascii := Ascii.ascii_of_N 43.
Definition minus_sign : Ascii.ascii := Ascii.ascii_of_N 45.

(** The string before and after the last slash. *)
Fixpoint split_last_slash (s : string) : option (string * string) :=
  match s with
  | EmptyString => None
  | String a s =>
      match split_last_slash s with
      | Some (p, r) => Some (String a p, r)
      | None => if Ascii.eqb a slash then Some (EmptyString, s) else None
      end
  end.

Definition digit (a : Ascii.ascii) : Z := Z.of_N (Ascii.N_of_ascii a) - 48.

Fixpoint offset_digits (v : Z) (s : string) : option Z :=
  match s with
  | EmptyString => Some v
  | String c s => if is_digit c then offset_digits (u64 (v * 10 + digit c)) s else None
  end.

Definition ParseChunkOffset (id : string) : option Z :=
  match split_last_slash id with
  | Some (_, EmptyString) | None => None
  | Some (_, suffix) => offset_digits 0 suffix
  end.

(** [strconv.Atoi]: an optional sign, digits, a value that fits in an [int]. *)
Definition Atoi (s : string) : option Z :=
  match s with
  | EmptyString => None
  | String a r =>
      if Ascii.eqb a plus_sign then parse_uint r 63
      else if Ascii.eqb a minus_sign then
        match parse_uint r 64 with
        | Some n => if n <=? 2 ^ 63 then Some (- n) else None
        | None => None
        end
      else parse_uint s 63
  end.

Definition row_id (payloadID : string) (off : Z) : string :=
  payloadID +:+ "/" +:+ dec_string (Z.to_N off).

(** ** Synced markers, outside a transaction *)

Definition IsSynced (st : Store) (h : ContentHash) : bool := bool_decide (is_Some (synced st !! h)).

Definition zeroLocator : ChunkLocator := mkLocator [] 0 0.

Definition locator_of (st : Store) (h : ContentHash) : ChunkLocator := default zeroLocator (syncedLocators st !! h).

Definition GetLocator (st : Store) (h : ContentHash) : option ChunkLocator :=
  match synced st !! h with None => None | Some _ => Some (locator_of st h) end.

Definition DeleteSynced (st : Store) (h : ContentHash) : Store :=
  set_markers st (delete h (synced st)) (delete h (syncedLocators st)).

Definition MarkSynced (now : Z) (st : Store) (h : ContentHash) (loc : ChunkLocator) : Store :=
  if IsSynced st h then st
  else set_markers st (<[h := now]> (synced st))
         (if IsStandalone loc then syncedLocators st else <[h := loc]> (syncedLocators st)).

(** The markers with their locators and times. *)
Definition EnumerateSynced (st : Store) : list (ContentHash * ChunkLocator * Z) :=
  map (fun '(h, t) => (h, locator_of st h, t)) (map_to_list (synced st)).

(** ** Block records *)

Definition GetBlockRecord (st : Store) (id : BlockID) : option BlockRecord := blockRecords st !! id.

Definition PutBlockRecord (st : Store) (rec : BlockRecord) : Store :=
  set_records st (<[br_BlockID rec := rec]> (blockRecords st)).

Definition DeleteBlockRecord (st : Store) (id : BlockID) : Store := set_records st (delete id (blockRecords st)).

Definition WalkBlockRecords (st : Store) : list BlockRecord := map snd (map_to_list (blockRecords st)).

Definition with_count (r : BlockRecord) (n : Z) : BlockRecord :=
  mkBlockRecord (br_BlockID r) (br_BlockHash r) (br_Length r) n (br_SyncState r).

(** [None] is the error of a missing record. *)
Definition DecrLiveChunkCount (st : Store) (id : BlockID) (delta : Z) : option (Z * Store) :=
  match blockRecords st !! id with
  | None => None
  | Some r =>
      let n := if delta >=? br_LiveChunkCount r then 0 else br_LiveChunkCount r - delta in
      Some (n, set_records st (<[id := with_count r n]> (blockRecords st)))
  end.

(** ** Manifest rows *)

Definition putFileChunkLocked (st : Store) (b : FileChunk) : Store :=
  set_rows st (<[fc_ID b := b]> (blocks st))
    (if IsFinalized b then <[fc_Hash b := fc_ID b]> (hashIndex st) else hashIndex st).

Definition deleteFileChunkLocked (st : Store) (id : string) : option Store :=
  match blocks st !! id with
  | None => None
  | Some b =>
      Some (set_rows st (delete id (blocks st))
              (if IsFinalized b && bool_decide (hashIndex st !! fc_Hash b = Some id)
               then delete (fc_Hash b) (hashIndex st) else hashIndex st))
  end.

Definition decrementAndReapLocked (st : Store) (id : string) : Z * Store :=
  match blocks st !! id with
  | None => (0, st)
  | Some b =>
      let n := if fc_RefCount b >? 0 then fc_RefCount b - 1 else fc_RefCount b in
      if n =? 0 then (0, default st (deleteFileChunkLocked st id))
      else (n, set_rows st (<[id := mkFileChunk (fc_ID b) (fc_Hash b) (fc_DataSize b) n (fc_State b)]> (blocks st)) (hashIndex st))
  end.

Definition listed_row (payloadID : string) (p : string * FileChunk) : option (Z * FileChunk) :=
  match cut_prefix (payloadID +:+ "/") p.1 with
  | None => None
  | Some suffix => match Atoi suffix with None => None | Some idx => Some (idx, p.2) end
  end.

Definition listFileChunksLocked (st : Store) (payloadID : string) : list FileChunk :=
  map snd (sort_by (fun a b => fst a <? fst b) (omap (listed_row payloadID) (map_to_list (blocks st)))).

(** The live hashes: of the rows, and of the files that still have a link. *)
Definition linked (st : Store) (key : string) : bool := negb (bool_decide (linkCounts st !! key = Some 0)).

Definition snapshotBlockHashesLocked (st : Store) : list ContentHash :=
  map (fun p => fc_Hash p.2) (map_to_list (blocks st)) ++
  flat_map (fun p => if linked st p.1 then map cr_Hash (fd_Blocks p.2) else []) (map_to_list (files st)).

(** ** Transactions *)

Inductive syncedTxState := TxDeleted | TxMarked (loc : ChunkLocator).

Record Tx := mkTx { tx_store : Store; tx_syncedOps : gmap ContentHash syncedTxState }.

Definition on_store (f : Store -> Store) (tx : Tx) : Tx := mkTx (f (tx_store tx)) (tx_syncedOps tx).

Definition tx_DeleteSynced (h : ContentHash) (tx : Tx) : Tx :=
  mkTx (tx_store tx) (<[h := TxDeleted]> (tx_syncedOps tx)).

Definition tx_MarkSynced (h : ContentHash) (loc : ChunkLocator) (tx : Tx) : Tx :=
  match tx_syncedOps tx !! h with
  | Some TxDeleted => mkTx (tx_store tx) (<[h := TxMarked loc]> (tx_syncedOps tx))
  | Some (TxMarked _) => tx
  | None => if IsSynced (tx_store tx) h then tx
            else mkTx (tx_store tx) (<[h := TxMarked loc]> (tx_syncedOps tx))
  end.

Definition apply_op (now : Z) (h : ContentHash) (op : syncedTxState) (st : Store) : Store :=
  match op with
  | TxDeleted => DeleteSynced st h
  | TxMarked loc =>
      set_markers st (<[h := now]> (synced st))
        (if IsStandalone loc then delete h (syncedLocators st) else <[h := loc]> (syncedLocators st))
  end.

(** [None] rolls back. *)
Definition WithTransaction (now : Z) (st : Store) (fn : Tx -> option Tx) : option Store :=
  match fn (mkTx st ∅) with
  | None => None
  | Some tx => Some (map_fold (apply_op now) (tx_store tx) (tx_syncedOps tx))
  end.

(** ** The projection of the manifest on the file *)

Definition row_ref (r : FileChunk) : option ChunkRef :=
  match ParseChunkOffset (fc_ID r) with
  | None => None
  | Some off => Some (mkChunkRef (fc_Hash r) off (fc_DataSize r))
  end.

Definition ManifestToChunkRefs (rows : list FileChunk) : list ChunkRef :=
  sort_by (fun a b => cr_Offset a <? cr_Offset b) (omap row_ref rows).

Definition payload_file (payloadID : string) (p : string * fileData) : bool :=
  negb (bool_decide (fd_PayloadID p.2 = EmptyString)) && bool_decide (fd_PayloadID p.2 = payloadID).

Definition GetFileByPayloadID (st : Store) (payloadID : string) : option (string * fileData) :=
  List.find (payload_file payloadID) (map_to_list (files st)).

Definition ProjectManifestToBlocks (payloadID : string) (tx : Tx) : Tx :=
  if bool_decide (payloadID = EmptyString) then tx
  else
    let rows := listFileChunksLocked (tx_store tx) payloadID in
    match GetFileByPayloadID (tx_store tx) payloadID with
    | None => tx
    | Some (key, fd) =>
        on_store (fun st => set_files st (<[key := mkFileData (fd_PayloadID fd) (ManifestToChunkRefs rows)]> (files st)) (linkCounts st)) tx
    end.

Fixpoint payloadIDFromChunks (fileChunks : list FileChunk) : string :=
  match fileChunks with
  | [] => EmptyString
  | fc :: fileChunks =>
      match split_last_slash (fc_ID fc) with
      | Some (String a p, _) => String a p
      | _ => payloadIDFromChunks fileChunks
      end
  end.

(** ** Committing a block *)

Definition mark_chunk (c : BlockChunkCommit) (tx : Tx) : Tx :=
  tx_MarkSynced (bc_Hash c) (bc_Remote c) (tx_DeleteSynced (bc_Hash c) tx).

Definition commit_tx (rec : BlockRecord) (chunks : list BlockChunkCommit) (fileChunks : list FileChunk) (tx : Tx) : option Tx :=
  match GetBlockRecord (tx_store tx) (br_BlockID rec) with
  | Some _ => Some tx
  | None =>
      let tx := on_store (fun st => PutBlockRecord st rec) tx in
      let tx := fold_left (fun tx fc => on_store (fun st => putFileChunkLocked st fc) tx) fileChunks tx in
      let tx := fold_left (fun tx c => mark_chunk c tx) chunks tx in
      Some (ProjectManifestToBlocks (payloadIDFromChunks fileChunks) tx)
  end.

Definition DefaultCommitBlock (now : Z) (st : Store) (rec : BlockRecord) (chunks : list BlockChunkCommit)
    (fileChunks : list FileChunk) : option Store :=
  WithTransaction now st (commit_tx rec chunks fileChunks).

(** ** Reaping the rows a carve run superseded *)

Definition superseded (runStart runEnd : Z) (newOffsets : list Z) (r : FileChunk) : bool :=
  match ParseChunkOffset (fc_ID r) with
  | None => false
  | Some off =>
      let o := i64 off in
      negb ((o <? runStart) || (o >=? runEnd)) && negb (bool_decide (o ∈ newOffsets))
  end.

Fixpoint reap_rows (runStart runEnd : Z) (newOffsets : list Z) (rows : list FileChunk) (tx : Tx) : option Tx :=
  match rows with
  | [] => Some tx
  | r :: rows =>
      if superseded runStart runEnd newOffsets r then
        match deleteFileChunkLocked (tx_store tx) (fc_ID r) with
        | None => None
        | Some st => reap_rows runStart runEnd newOffsets rows (mkTx st (tx_syncedOps tx))
        end
      else reap_rows runStart runEnd newOffsets rows tx
  end.

Definition reap_tx (payloadID : string) (runStart runEnd : Z) (newOffsets : list Z) (tx : Tx) : option Tx :=
  if bool_decide (payloadID = EmptyString) || (runEnd <=? runStart) then Some tx
  else
    match reap_rows runStart runEnd newOffsets (listFileChunksLocked (tx_store tx) payloadID) tx with
    | None => None
    | Some tx => Some (ProjectManifestToBlocks payloadID tx)
    end.

Definition ReapSupersededManifest (now : Z) (st : Store) (payloadID : string) (runStart runEnd : Z) (newOffsets : list Z)
    : option Store :=
  WithTransaction now st (reap_tx payloadID runStart runEnd newOffsets).
