(* ===== verification/BlockWorld.v ===== *)
(** * Remote blocks in a running server ([pkg/block/remote/memory/store.go],
    [pkg/block/engine/blocksink.go], [fetch.go], [carve_dispatch.go], [gcstate.go])

    The state maintenance works on: the metadata stores of the shares, the block
    objects of one remote store, the live set of the collector.  A program is a
    sequence of calls.  Before each call other threads may act (carves uploading
    and committing blocks, files being created, cloned, unlinked, rows reaped,
    time passing), and each call may succeed, fail without effect, fail after
    having taken effect (a reply lost), or be the point where the server dies:
    the schedule in the state decides, and the theorems hold for every schedule.

    The hash, the share registry and the compression and encryption a remote
    store is wrapped with are a [Deployment]. *)

From S2P Require Import Prelude.
From S2P Require Import HoleMap.
From S2P Require Import JournalCarve.
From S2P Require Import BlockCodec.
From S2P Require Import BlockMeta.

Class Deployment := {
  Sum256 : list Z -> ContentHash;
  SealChunk : ContentHash -> list Z -> option (list Z);
  OpenChunk : ContentHash -> list Z -> option (list Z);
  storeOf : string -> option string;
  shuffle : forall A, list A -> list A;
}.

(** What the collaborators promise: hashes have 32 bytes, a sealed chunk opens
    again and is not empty, and a map is iterated in some order. *)
Class DeploymentLaws `{Deployment} : Prop := {
  Sum256_length : forall d, length (Sum256 d) = 32%nat;
  Open_Seal : forall h d w, SealChunk h d = Some w -> OpenChunk h w = Some d /\ (d <> [] -> w <> []) /\ in_u64 (Z.of_nat (length w));
  shuffle_perm : forall A (l : list A), Permutation l (shuffle A l);
}.

Section world.
Context `{Deployment}.

(** ** The state *)

Record memBlock := mkMemBlock { mb_data : list Z; mb_lastModified : Z }.

Record GCState := mkGCState { g_db : gset ContentHash; g_batch : list ContentHash }.

(** [GCStats], [CompactReport] and the classes of a [ReclaimReport]. *)
Record GCStats := mkGCStats {
  HashesMarked : Z;
  ObjectsScanned : Z;
  ObjectsSwept : Z;
  BytesFreed : Z;
  ErrorCount : Z;
  DryRunCandidates : list ContentHash;
}.

Record CompactReport := mkCompactReport {
  BlocksScanned : Z;
  BlocksCompacted : Z;
  ChunksMoved : Z;
  BytesReclaimed : Z;
  CompactErrors : Z;
}.

Record ReconcileClass := mkReconcileClass { Count : Z; Bytes : Z; Sample : list BlockID; Truncated : bool }.

Record ReclaimReport := mkReclaimReport {
  Reclaimed : ReconcileClass;
  LeakedReclaimed : ReconcileClass;
  OrphanObjectsReclaimed : ReconcileClass;
  BlockRecordsScanned : Z;
  RemoteObjectsScanned : Z;
  ReclaimErrors : Z;
}.

Record Tally := mkTally { t_gc : GCStats; t_compact : CompactReport; t_reclaim : ReclaimReport }.

Definition emptyStats : GCStats := mkGCStats 0 0 0 0 0 [].
Definition emptyCompact : CompactReport := mkCompactReport 0 0 0 0 0.
Definition emptyClass : ReconcileClass := mkReconcileClass 0 0 [] false.
Definition emptyReclaim : ReclaimReport := mkReclaimReport emptyClass emptyClass emptyClass 0 0 0.

(** An upload whose commit has not been made yet. *)
Record upload := mkUpload {
  up_store : string;
  up_rec : BlockRecord;
  up_commits : list BlockChunkCommit;
  up_rows : list FileChunk;
}.

(** What the other threads of the server may do between two calls. *)
Inductive action :=
  | AUpload (s : string) (chunks : list (@CarveChunk ContentHash))
  | ACommit (id : BlockID)
  | AAbandon (id : BlockID)
  | AReap (s : string) (payloadID : string) (runStart runEnd : Z) (newOffsets : list Z)
  | ANewFile (s key payloadID : string)
  | AUnlink (s key : string)
  | ARemoveFile (s key : string)
  | ADeleteRow (s id : string)
  | AReleaseRow (s id : string)
  | AClone (s src dst payloadID : string)
  | ATick (d : Z).

Inductive fate := Succeeds | Fails | FailsAfter | Crashes.

Record turn := mkTurn { t_env : list action; t_fate : fate }.

Record world := mkWorld {
  w_stores : gmap string Store;
  w_remote : gmap BlockID memBlock;
  w_now : Z;
  w_gcs : GCState;
  w_tally : Tally;
  w_ids : list BlockID;
  w_inflight : gmap BlockID upload;
  w_sched : list turn;
}.

Definition set_store (s : string) (st : Store) (w : world) : world :=
  mkWorld (<[s := st]> (w_stores w)) (w_remote w) (w_now w) (w_gcs w) (w_tally w) (w_ids w) (w_inflight w) (w_sched w).
Definition set_remote (r : gmap BlockID memBlock) (w : world) : world :=
  mkWorld (w_stores w) r (w_now w) (w_gcs w) (w_tally w) (w_ids w) (w_inflight w) (w_sched w).
Definition set_gcs (g : GCState) (w : world) : world :=
  mkWorld (w_stores w) (w_remote w) (w_now w) g (w_tally w) (w_ids w) (w_inflight w) (w_sched w).
Definition set_tally (y : Tally) (w : world) : world :=
  mkWorld (w_stores w) (w_remote w) (w_now w) (w_gcs w) y (w_ids w) (w_inflight w) (w_sched w).
Definition set_ids (ids : list BlockID) (w : world) : world :=
  mkWorld (w_stores w) (w_remote w) (w_now w) (w_gcs w) (w_tally w) ids (w_inflight w) (w_sched w).
Definition set_inflight (f : gmap BlockID upload) (w : world) : world :=
  mkWorld (w_stores w) (w_remote w) (w_now w) (w_gcs w) (w_tally w) (w_ids w) f (w_sched w).
Definition set_sched (l : list turn) (w : world) : world :=
  mkWorld (w_stores w) (w_remote w) (w_now w) (w_gcs w) (w_tally w) (w_ids w) (w_inflight w) l.
Definition tick (d : Z) (w : world) : world :=
  mkWorld (w_stores w) (w_remote w) (w_now w + Z.max 1 d) (w_gcs w) (w_tally w) (w_ids w) (w_inflight w) (w_sched w).

(** ** The remote store *)

Definition PutBlock (id : BlockID) (data : list Z) (w : world) : world :=
  set_remote (<[id := mkMemBlock data (w_now w)]> (w_remote w)) w.

Definition DeleteBlock (id : BlockID) (w : world) : world := set_remote (delete id (w_remote w)) w.

(** [inl] tells [ErrChunkNotFound] from the other errors. *)
Inductive ReadError := ErrChunkNotFound | ErrInvalidOffset | ErrInvalidSize | ErrOpen | ErrChunkContentMismatch.

Definition GetBlock (w : world) (id : BlockID) : option (list Z) := option_map mb_data (w_remote w !! id).

Definition read_range (data : list Z) (offset len : Z) : ReadError + list Z :=
  let size := Z.of_nat (length data) in
  if (offset <? 0) || (offset >=? size) then inl ErrInvalidOffset
  else if len <=? 0 then inl ErrInvalidSize
  else
    let end_ := if len <=? size - offset then offset + len else size in
    inr (slice (Z.to_nat offset) (Z.to_nat (end_ - offset)) data).

(** The ranged read of the base store, inverted by the layers around it. *)
Definition ReadChunk (w : world) (id : BlockID) (offset len : Z) (h : ContentHash) : ReadError + list Z :=
  match w_remote w !! id with
  | None => inl ErrChunkNotFound
  | Some mb =>
      match read_range (mb_data mb) offset len with
      | inl e => inl e
      | inr wire => match OpenChunk h wire with None => inl ErrOpen | Some d => inr d end
      end
  end.

(** ** Uploading and committing carved chunks *)

Definition file_chunk (c : @CarveChunk ContentHash) : FileChunk :=
  mkFileChunk (row_id (cc_FileID c) (cc_FileOffset c)) (cc_Hash c) (u32 (Z.of_nat (length (cc_Data c)))) 0 BlockStatePending.

Fixpoint seal_chunks (chunks : list (@CarveChunk ContentHash)) : option (list (ContentHash * list Z)) :=
  match chunks with
  | [] => Some []
  | c :: chunks =>
      match SealChunk (cc_Hash c) (cc_Data c) with
      | None => None
      | Some wire => match seal_chunks chunks with None => None | Some l => Some ((cc_Hash c, wire) :: l) end
      end
  end.

(** Framed bodies become the object, its record and the commits of its chunks. *)
Definition build_block (blockID : BlockID) (bodies : list (ContentHash * list Z)) : option (list Z * BlockRecord * list BlockChunkCommit) :=
  match add_all (NewBuilder blockID None) bodies with
  | None => None
  | Some (b, locs) =>
      Some (b_w b,
            mkBlockRecord blockID (Sum256 (b_w b)) (Z.of_nat (length (b_w b))) (u32 (Z.of_nat (length locs))) BlockStateRemote,
            zip_with (fun c l => mkCommit c.1 l) bodies locs)
  end.

(** What [CommitBlock] has before it uploads. *)
Definition prepare_block (blockID : BlockID) (chunks : list (@CarveChunk ContentHash))
    : option (list Z * BlockRecord * list BlockChunkCommit * list FileChunk) :=
  match seal_chunks chunks with
  | None => None
  | Some bodies =>
      match build_block blockID bodies with
      | None => None
      | Some r => Some (r, map file_chunk chunks)
      end
  end.

(** [newBlockID]: the identifiers are drawn from the random source. *)
Definition new_id (w : world) : option BlockID * world :=
  match w_ids w with [] => (None, w) | id :: ids => (Some id, set_ids ids w) end.

Definition start_upload (s : string) (chunks : list (@CarveChunk ContentHash)) (w : world) : world :=
  if bool_decide (chunks = []) || negb (bool_decide (is_Some (w_stores w !! s))) then w
  else
    match new_id w with
    | (None, w) => w
    | (Some id, w) =>
        match prepare_block id chunks with
        | None => w
        | Some (data, rec, commits, rows) =>
            let w := PutBlock id data w in
            set_inflight (<[id := mkUpload s rec commits rows]> (w_inflight w)) w
        end
    end.

Definition forget_upload (id : BlockID) (w : world) : world := set_inflight (delete id (w_inflight w)) w.

Definition commit_upload (id : BlockID) (w : world) : world :=
  match w_inflight w !! id with
  | None => w
  | Some up =>
      match w_stores w !! up_store up with
      | None => w
      | Some st =>
          match DefaultCommitBlock (w_now w) st (up_rec up) (up_commits up) (up_rows up) with
          | None => w
          | Some st' => forget_upload id (set_store (up_store up) st' w)
          end
      end
  end.

(** ** The other threads *)

Definition on_meta (s : string) (f : Z -> Store -> option Store) (w : world) : world :=
  match w_stores w !! s with
  | None => w
  | Some st => match f (w_now w) st with None => w | Some st' => set_store s st' w end
  end.

(** The rows of a clone, one per block of the source, and the blocks of the new
    file.  The code also raises the reference count of each hash, found through the
    index of finalized rows; nothing here writes such a row, so it finds none and
    goes on. *)
Definition clone_row (payloadID : string) (b : ChunkRef) : FileChunk :=
  mkFileChunk (row_id payloadID (cr_Offset b)) (cr_Hash b) (cr_Size b) 0 BlockStatePending.

Definition CopyPayload (payloadID : string) (srcBlocks : list ChunkRef) (st : Store) : Store :=
  fold_left putFileChunkLocked (map (clone_row payloadID) (List.filter (fun b => negb (IsZero (cr_Hash b))) srcBlocks)) st.

Definition clone_file (src dst payloadID : string) (st : Store) : option Store :=
  match files st !! src with
  | Some fd =>
      if linked st src then
        let st := CopyPayload payloadID (fd_Blocks fd) st in
        Some (set_files st (<[dst := mkFileData payloadID (fd_Blocks fd)]> (files st)) (<[dst := 1]> (linkCounts st)))
      else None
  | None => None
  end.

(** Time passes, then the action happens. *)
Definition perform (a : action) (w : world) : world :=
  match a with
  | AUpload s chunks => start_upload s chunks w
  | ACommit id => commit_upload id w
  | AAbandon id => forget_upload id w
  | AReap s p lo hi offs => on_meta s (fun now st => ReapSupersededManifest now st p lo hi offs) w
  | ANewFile s key p =>
      on_meta s (fun _ st => Some (set_files st (<[key := mkFileData p []]> (files st)) (<[key := 1]> (linkCounts st)))) w
  | AUnlink s key => on_meta s (fun _ st => Some (set_files st (files st) (<[key := 0]> (linkCounts st)))) w
  | ARemoveFile s key => on_meta s (fun _ st => Some (set_files st (delete key (files st)) (linkCounts st))) w
  | ADeleteRow s id => on_meta s (fun _ st => deleteFileChunkLocked st id) w
  | AReleaseRow s id => on_meta s (fun _ st => Some (decrementAndReapLocked st id).2) w
  | AClone s src dst p => on_meta s (fun _ st => clone_file src dst p st) w
  | ATick _ => w
  end.

Definition act (a : action) (w : world) : world :=
  perform a (tick (match a with ATick d => d | _ => 1 end) w).

Definition acts (l : list action) (w : world) : world := fold_left (fun w a => act a w) l w.

(** ** Programs *)

Inductive res (A : Type) := Ret (a : A) | Err | Crashed.
Arguments Ret {A} a.
Arguments Err {A}.
Arguments Crashed {A}.

Definition M (A : Type) : Type := world -> res A * world.

Definition ret {A} (a : A) : M A := fun w => (Ret a, w).
Definition bind {A B} (m : M A) (k : A -> M B) : M B := fun w =>
  match m w with
  | (Ret a, w) => k a w
  | (Err, w) => (Err, w)
  | (Crashed, w) => (Crashed, w)
  end.
Definition fail {A} : M A := fun w => (Err, w).

(** The error as a value; a crash is not caught. *)
Definition try {A} (m : M A) : M (option A) := fun w =>
  match m w with
  | (Ret a, w) => (Ret (Some a), w)
  | (Err, w) => (Ret None, w)
  | (Crashed, w) => (Crashed, w)
  end.

Definition gets {A} (f : world -> A) : M A := fun w => (Ret (f w), w).
Definition modify (f : world -> world) : M unit := fun w => (Ret tt, f w).

Definition next_turn (w : world) : turn * world :=
  match w_sched w with
  | [] => (mkTurn [] Succeeds, w)
  | t :: sched => (t, set_sched sched w)
  end.

(** A call of a store: the other threads run first, then the call happens or
    not.  [None] is an error of the callee itself. *)
Definition call {A} (f : world -> option A * world) : M A := fun w =>
  let (t, w) := next_turn w in
  let w := tick 1 (acts (t_env t) w) in
  match t_fate t with
  | Succeeds => match f w with (Some a, w) => (Ret a, w) | (None, w) => (Err, w) end
  | Fails => (Err, w)
  | FailsAfter => (Err, (f w).2)
  | Crashes => (Crashed, w)
  end.

Definition meta_read {A} (s : string) (f : Store -> A) : M A :=
  call (fun w => (option_map f (w_stores w !! s), w)).

Definition meta_write {A} (s : string) (f : Z -> Store -> option (A * Store)) : M A :=
  call (fun w =>
    match w_stores w !! s with
    | None => (None, w)
    | Some st => match f (w_now w) st with None => (None, w) | Some (a, st') => (Some a, set_store s st' w) end
    end).

Definition remote_write (f : world -> world) : M unit := call (fun w => (Some tt, f w)).
Definition remote_read {A} (f : world -> A) : M A := call (fun w => (Some (f w), w)).

(** [ctx.Err()] *)
Definition ctx_err : M unit := call (fun w => (Some tt, w)).

Definition newBlockID : M BlockID := call new_id.

Fixpoint forM {A B} (l : list A) (acc : B) (f : B -> A -> M B) : M B :=
  match l with
  | [] => ret acc
  | x :: l => bind (f acc x) (fun acc => forM l acc f)
  end.
End world.

Arguments Ret {A} a.
Arguments Err {A}.
Arguments Crashed {A}.

#[export] Instance M_ret : MRet M := fun _ a => ret a.
#[export] Instance M_bind : MBind M := fun _ _ k m => bind m k.
