(* ===== verification/BlockMaint.v ===== *)
(** * Maintenance of remote blocks ([pkg/block/engine]: [gc.go], [gc_sweep_index.go],
    [gc_block.go], [gcstate.go], [compaction.go], [reclaim.go], [blocksink.go],
    [fetch.go]; [pkg/controlplane/runtime]: [blockgc.go],
    [blockgc_reconcile_reclaim.go])

    The collector marks the live hashes of every share and sweeps the synced
    markers that are not live, compaction repacks blocks with dead chunks,
    reconciliation deletes records nobody points at and objects without a record.
    Programs in the monad of [BlockWorld]; the counters are in the state, so they
    survive an error.  The texts of errors, the log, the local tier and the files
    of the live set are left out. *)

From S2P Require Import Prelude.
From S2P Require Import HoleMap.
From S2P Require Import JournalCarve.
From S2P Require Import BlockCodec.
From S2P Require Import BlockMeta.
From S2P Require Import BlockWorld.

Section maint.
Context `{Deployment}.

(** ** Counters *)

Definition on_gc (f : GCStats -> GCStats) : M unit :=
  modify (fun w => set_tally (mkTally (f (t_gc (w_tally w))) (t_compact (w_tally w)) (t_reclaim (w_tally w))) w).
Definition on_compact (f : CompactReport -> CompactReport) : M unit :=
  modify (fun w => set_tally (mkTally (t_gc (w_tally w)) (f (t_compact (w_tally w))) (t_reclaim (w_tally w))) w).
Definition on_reclaim (f : ReclaimReport -> ReclaimReport) : M unit :=
  modify (fun w => set_tally (mkTally (t_gc (w_tally w)) (t_compact (w_tally w)) (f (t_reclaim (w_tally w)))) w).

Definition marked_one : M unit := on_gc (fun s => mkGCStats (HashesMarked s + 1) (ObjectsScanned s) (ObjectsSwept s) (BytesFreed s) (ErrorCount s) (DryRunCandidates s)).
Definition scanned_one : M unit := on_gc (fun s => mkGCStats (HashesMarked s) (ObjectsScanned s + 1) (ObjectsSwept s) (BytesFreed s) (ErrorCount s) (DryRunCandidates s)).
Definition swept_one (freed : Z) : M unit := on_gc (fun s => mkGCStats (HashesMarked s) (ObjectsScanned s) (ObjectsSwept s + 1) (BytesFreed s + freed) (ErrorCount s) (DryRunCandidates s)).
Definition addError : M unit := on_gc (fun s => mkGCStats (HashesMarked s) (ObjectsScanned s) (ObjectsSwept s) (BytesFreed s) (ErrorCount s + 1) (DryRunCandidates s)).
Definition recordDryRunCandidate (h : ContentHash) (dryRunSample : Z) : M unit :=
  on_gc (fun s => mkGCStats (HashesMarked s) (ObjectsScanned s) (ObjectsSwept s + 1) (BytesFreed s) (ErrorCount s)
    (if Z.of_nat (length (DryRunCandidates s)) <? dryRunSample then DryRunCandidates s ++ [h] else DryRunCandidates s)).

(** ** The live set *)

Definition gcAddBatchSize : nat := 1000.

Definition flushBatch : M unit :=
  r ← try (call (fun w => (Some tt, set_gcs (mkGCState (g_db (w_gcs w) ∪ list_to_set (g_batch (w_gcs w))) (g_batch (w_gcs w))) w)));
  _ ← modify (fun w => set_gcs (mkGCState (g_db (w_gcs w)) []) w);
  match r with None => fail | Some _ => ret tt end.

Definition gcs_Add (h : ContentHash) : M unit :=
  _ ← call (fun w => (Some tt, set_gcs (mkGCState (g_db (w_gcs w)) (g_batch (w_gcs w) ++ [h])) w));
  n ← gets (fun w => length (g_batch (w_gcs w)));
  if (gcAddBatchSize <=? n)%nat then flushBatch else ret tt.

Definition FlushAdd : M unit :=
  pending ← gets (fun w => g_batch (w_gcs w));
  if bool_decide (pending = []) then ret tt else flushBatch.

Definition gcs_Has (h : ContentHash) : M bool :=
  _ ← FlushAdd;
  call (fun w => (Some (bool_decide (h ∈ g_db (w_gcs w))), w)).

(** ** Marking *)

Definition GetMetadataStoreForShare (share : string) : M string := call (fun w => (storeOf share, w)).

Definition addHash (h : ContentHash) : M unit :=
  if IsZero h then ret tt else (_ ← gcs_Add h; marked_one).

Definition mark_hashes (hashes : list ContentHash) : M unit :=
  forM hashes tt (fun _ h => _ ← ctx_err; addHash h).

Definition mark_share (share : string) : M unit :=
  _ ← ctx_err;
  s ← GetMetadataStoreForShare share;
  hashes ← meta_read s (fun st => shuffle _ (snapshotBlockHashesLocked st));
  mark_hashes hashes.

Definition markPhase (shares : list string) (hold : option (list ContentHash)) : M unit :=
  if bool_decide (shares = []) then fail
  else
    _ ← forM shares tt (fun _ share => mark_share share);
    _ ← match hold with None => ret tt | Some held => (_ ← ctx_err; mark_hashes held) end;
    FlushAdd.

(** ** The union of the shares' synced markers *)

Definition keep_latest (latest : gmap ContentHash (ChunkLocator * Z)) (e : ContentHash * ChunkLocator * Z)
    : gmap ContentHash (ChunkLocator * Z) :=
  let '(h, loc, t) := e in
  match latest !! h with
  | Some (_, t') => if t >? t' then <[h := (loc, t)]> latest else latest
  | None => <[h := (loc, t)]> latest
  end.

Definition multi_EnumerateSynced (idx : list string) : M (list (ContentHash * Z)) :=
  _ ← ctx_err;
  latest ← forM idx ∅ (fun latest s => l ← meta_read s EnumerateSynced; ret (fold_left keep_latest l latest));
  ret (shuffle _ (map (fun '(h, (_, t)) => (h, t)) (map_to_list latest))).

Definition store_DeleteSynced (s : string) (h : ContentHash) : M unit :=
  meta_write s (fun _ st => Some (tt, DeleteSynced st h)).

Definition multi_DeleteSynced (idx : list string) (h : ContentHash) : M unit :=
  _ ← ctx_err;
  ok ← forM idx true (fun ok s => r ← try (store_DeleteSynced s h); ret (ok && bool_decide (is_Some r)));
  if ok : bool then ret tt else fail.

(** ** Reclaiming a dead chunk *)

Definition store_DeleteBlockRecord (s : string) (id : BlockID) : M unit :=
  meta_write s (fun _ st => Some (tt, DeleteBlockRecord st id)).

Definition ReclaimDeadChunk (s : string) (h : ContentHash) : M (bool * Z) :=
  loc ← meta_read s (fun st => GetLocator st h);
  match loc with
  | None => ret (false, 0)
  | Some loc =>
      if IsStandalone loc then ret (false, 0)
      else
        let blockID := cl_BlockID loc in
        rec ← meta_read s (fun st => GetBlockRecord st blockID);
        match rec with
        | None => ret (true, 0)
        | Some rec =>
            let lastChunk := br_LiveChunkCount rec <=? 1 in
            _ ← (if lastChunk then ret tt else store_DeleteSynced s h);
            remaining ← meta_write s (fun _ st => DecrLiveChunkCount st blockID 1);
            if remaining >? 0 then ret (true, 0)
            else
              _ ← remote_write (DeleteBlock blockID);
              _ ← store_DeleteBlockRecord s blockID;
              _ ← store_DeleteSynced s h;
              ret (true, br_Length rec)
        end
  end.

Definition union_ReclaimDeadChunk (u : list string) (h : ContentHash) : M (bool * Z) :=
  forM u (false, 0) (fun acc s =>
    r ← ReclaimDeadChunk s h;
    ret (if r.1 : bool then (true, acc.2 + r.2) else acc)).

(** ** Sweeping *)

Record Options := mkOptions {
  DryRun : bool;
  GracePeriod : Z;
  GracePeriodSet : bool;
  DryRunSampleSize : Z;
  HoldProvider : option (list ContentHash);
  SyncedHashIndex : option (list string);
  BlockReclaimer : option (list string);
}.

Definition hour : Z := 3600 * 10 ^ 9.

Definition resolveGracePeriod (period : Z) (set : bool) : Z :=
  if set then (if period <? 0 then 0 else period)
  else if period <=? 0 then hour else period.

Definition sweep_one (o : Options) (idx : list string) (graceCutoff dryRunSample : Z) (h : ContentHash) (syncedAt : Z) : M unit :=
  if syncedAt =? 0 then ret tt
  else if syncedAt >? graceCutoff then ret tt
  else
    present ← try (gcs_Has h);
    match present with
    | None => addError
    | Some true => ret tt
    | Some false =>
        if DryRun o then recordDryRunCandidate h dryRunSample
        else match BlockReclaimer o with
             | None => addError
             | Some u =>
                 r ← try (union_ReclaimDeadChunk u h);
                 match r with
                 | None => addError
                 | Some (false, _) => addError
                 | Some (true, freed) =>
                     d ← try (multi_DeleteSynced idx h);
                     match d with None => addError | Some _ => swept_one freed end
                 end
             end
    end.

Definition sweepFromSyncedIndex (o : Options) (idx : list string) (snapshotTime gracePeriod dryRunSample : Z) : M unit :=
  let graceCutoff := snapshotTime - gracePeriod in
  r ← try (l ← multi_EnumerateSynced idx;
           forM l tt (fun _ e => _ ← ctx_err; _ ← scanned_one; sweep_one o idx graceCutoff dryRunSample e.1 e.2));
  match r with None => addError | Some _ => ret tt end.

Definition NewGCState : M unit := call (fun w => (Some tt, set_gcs (mkGCState ∅ []) w)).

Definition beginGC : M (option unit) :=
  _ ← on_gc (fun _ => emptyStats);
  try NewGCState.

(** The remote tier of [collectGarbage]. *)
Definition collectGarbage (shares : list string) (o : Options) : M unit :=
  let gracePeriod := resolveGracePeriod (GracePeriod o) (GracePeriodSet o) in
  let dryRunSample := if DryRunSampleSize o <=? 0 then 1000 else DryRunSampleSize o in
  g ← beginGC;
  match g with
  | None => addError
  | Some _ =>
      snapshotTime ← gets w_now;
      m ← try (markPhase shares (HoldProvider o));
      match m with
      | None => addError
      | Some _ =>
          match SyncedHashIndex o with
          | Some idx => sweepFromSyncedIndex o idx snapshotTime gracePeriod dryRunSample
          | None => addError
          end
      end
  end.

(** ** Compaction *)

Definition compact_error : M unit := on_compact (fun r => mkCompactReport (BlocksScanned r) (BlocksCompacted r) (ChunksMoved r) (BytesReclaimed r) (CompactErrors r + 1)).
Definition compacted (chunks bytes : Z) : M unit := on_compact (fun r => mkCompactReport (BlocksScanned r) (BlocksCompacted r + 1) (ChunksMoved r + chunks) (BytesReclaimed r + bytes) (CompactErrors r)).

Definition deleteOldBlock (s : string) (blockID : BlockID) : M bool :=
  r ← try (remote_write (DeleteBlock blockID));
  match r with
  | None => (_ ← compact_error; ret false)
  | Some _ =>
      r ← try (store_DeleteBlockRecord s blockID);
      match r with
      | None => (_ ← compact_error; ret false)
      | Some _ => ret true
      end
  end.

(** The records whose marker still points at this block. *)
Definition live_here (s : string) (blockID : BlockID) (records : list Record_) : M (list Record_) :=
  forM records [] (fun acc r =>
    loc ← meta_read s (fun st => GetLocator st (r_Hash r));
    ret (match loc with
         | Some loc => if bool_decide (cl_BlockID loc = blockID) then acc ++ [r] else acc
         | None => acc
         end)).

Definition body_of (data : list Z) (r : Record_) : ContentHash * list Z :=
  (r_Hash r, slice (Z.to_nat (r_WireOffset r)) (Z.to_nat (r_WireLength r)) data).

Definition commit_block (s : string) (rec : BlockRecord) (commits : list BlockChunkCommit) (rows : list FileChunk) : M unit :=
  meta_write s (fun now st => option_map (fun st' => (tt, st')) (DefaultCommitBlock now st rec commits rows)).

(** Repacking the live chunks into a new block and dropping the old one. *)
Definition repack (s : string) (blockID : BlockID) (rec : BlockRecord) (data : list Z) (moveable : list Record_) : M unit :=
  newID ← try newBlockID;
  match newID with
  | None => compact_error
  | Some newID =>
      match build_block newID (map (body_of data) moveable) with
      | None => compact_error
      | Some (newBytes, newRec, commits) =>
          r ← try (remote_write (PutBlock newID newBytes));
          match r with
          | None => compact_error
          | Some _ =>
              r ← try (commit_block s newRec commits []);
              match r with
              | None => compact_error
              | Some _ =>
                  gone ← deleteOldBlock s blockID;
                  if gone : bool then compacted (Z.of_nat (length commits)) (br_Length rec - Z.of_nat (length newBytes)) else ret tt
              end
          end
      end
  end.

Definition compact_parsed (dryRun : bool) (s : string) (blockID : BlockID) (rec : BlockRecord) (data : list Z) (records : list Record_) : M unit :=
  m ← try (live_here s blockID records);
  match m with
  | None => compact_error
  | Some moveable =>
      if (length moveable =? length records)%nat then ret tt
      else if dryRun then compacted 0 0
      else if bool_decide (moveable = []) then
        gone ← deleteOldBlock s blockID;
        if gone : bool then compacted 0 (br_Length rec) else ret tt
      else repack s blockID rec data moveable
  end.

Definition compactOneBlock (dryRun : bool) (s : string) (blockID : BlockID) : M unit :=
  rec ← try (meta_read s (fun st => GetBlockRecord st blockID));
  match rec with
  | None => compact_error
  | Some None => ret tt
  | Some (Some rec) =>
      d ← try (remote_read (fun w => GetBlock w blockID));
      match d with
      | None => compact_error
      | Some None =>
          if dryRun then ret tt
          else
            r ← try (store_DeleteBlockRecord s blockID);
            match r with None => compact_error | Some _ => ret tt end
      | Some (Some data) =>
          if negb (bool_decide (Sum256 data = br_BlockHash rec)) then compact_error
          else match Parse data None with
               | inl _ => compact_error
               | inr (_, records) => compact_parsed dryRun s blockID rec data records
               end
      end
  end.

(** [below lb len] is the comparison of the two quotients in [float64]: live
    bytes by length less than the configured ratio. *)
Record CompactOptions := mkCompactOptions { co_enabled : bool; co_below : Z -> Z -> bool; co_DryRun : bool }.

Definition add_live (m : gmap BlockID Z) (e : ContentHash * ChunkLocator * Z) : gmap BlockID Z :=
  let loc := e.1.2 in
  if IsStandalone loc then m
  else <[cl_BlockID loc := default 0 (m !! cl_BlockID loc) + cl_WireLength loc]> m.

Definition compact_candidate (o : CompactOptions) (liveBytes : gmap BlockID Z) (rec : BlockRecord) : bool :=
  let lb := default 0 (liveBytes !! br_BlockID rec) in
  (lb >? 0) && (br_Length rec >? 0) && co_below o lb (br_Length rec).

Definition compact_view (o : CompactOptions) (s : string) : M unit :=
  l ← meta_read s EnumerateSynced;
  let liveBytes := fold_left add_live l ∅ in
  recs ← meta_read s (fun st => shuffle _ (WalkBlockRecords st));
  _ ← on_compact (fun r => mkCompactReport (BlocksScanned r + Z.of_nat (length recs)) (BlocksCompacted r) (ChunksMoved r) (BytesReclaimed r) (CompactErrors r));
  forM (map br_BlockID (List.filter (compact_candidate o liveBytes) recs)) tt (fun _ id =>
    _ ← ctx_err; compactOneBlock (co_DryRun o) s id).

Definition CompactBlocks (o : CompactOptions) (views : list string) : M unit :=
  _ ← on_compact (fun _ => emptyCompact);
  if negb (co_enabled o) then ret tt
  else forM views tt (fun _ s => compact_view o s).

(** ** A collection of one remote store ([runBlockGCSweep]) *)

Definition available_stores (shares : list string) : M (list string) :=
  forM shares [] (fun acc share =>
    r ← try (GetMetadataStoreForShare share);
    ret (match r with Some s => acc ++ [s] | None => acc end)).

Definition none_if_empty (l : list string) : option (list string) := if bool_decide (l = []) then None else Some l.

Definition syncedHashStoreForShares (shares : list string) : M (option (list string)) :=
  l ← available_stores shares; ret (none_if_empty l).

Definition blockReclaimerForEntry (shares : list string) : M (option (list string)) :=
  l ← available_stores shares; ret (none_if_empty l).

Definition compactRemoteForEntry (shares : list string) (dryRun : bool) (o : CompactOptions) : M unit :=
  if dryRun || negb (co_enabled o) then ret tt
  else
    views ← available_stores shares;
    if bool_decide (views = []) then ret tt
    else (r ← try (CompactBlocks o views); ret tt).

(** The operator's settings: dry run, grace period and whether it overrides,
    sample size. *)
Record GCRequest := mkGCRequest { rq_DryRun : bool; rq_Grace : Z; rq_GraceSet : bool; rq_Sample : Z }.

Definition runBlockGC (shares : list string) (rq : GCRequest) (hold : option (list ContentHash)) (co : CompactOptions) : M unit :=
  idx ← syncedHashStoreForShares shares;
  u ← blockReclaimerForEntry shares;
  _ ← collectGarbage shares (mkOptions (rq_DryRun rq) (rq_Grace rq) (rq_GraceSet rq) (rq_Sample rq) hold idx u);
  compactRemoteForEntry shares (rq_DryRun rq) co.

(** ** Reconciliation *)

Definition defaultReconcileSampleCap : Z := 100.

Definition class_add (c : ReconcileClass) (id : BlockID) (bytes cap : Z) : ReconcileClass :=
  if Z.of_nat (length (Sample c)) <? cap
  then mkReconcileClass (Count c + 1) (Bytes c + bytes) (Sample c ++ [id]) (Truncated c)
  else mkReconcileClass (Count c + 1) (Bytes c + bytes) (Sample c) true.

Definition reclaim_error : M unit := on_reclaim (fun r => mkReclaimReport (Reclaimed r) (LeakedReclaimed r) (OrphanObjectsReclaimed r) (BlockRecordsScanned r) (RemoteObjectsScanned r) (ReclaimErrors r + 1)).

Definition reclaimed_record (leaked : bool) (id : BlockID) (bytes : Z) : M unit :=
  on_reclaim (fun r =>
    if leaked then mkReclaimReport (Reclaimed r) (class_add (LeakedReclaimed r) id bytes defaultReconcileSampleCap) (OrphanObjectsReclaimed r) (BlockRecordsScanned r) (RemoteObjectsScanned r) (ReclaimErrors r)
    else mkReclaimReport (class_add (Reclaimed r) id bytes defaultReconcileSampleCap) (LeakedReclaimed r) (OrphanObjectsReclaimed r) (BlockRecordsScanned r) (RemoteObjectsScanned r) (ReclaimErrors r)).

Definition reclaimed_object (id : BlockID) (bytes : Z) : M unit :=
  on_reclaim (fun r => mkReclaimReport (Reclaimed r) (LeakedReclaimed r) (class_add (OrphanObjectsReclaimed r) id bytes defaultReconcileSampleCap) (BlockRecordsScanned r) (RemoteObjectsScanned r) (ReclaimErrors r)).

Definition refSet (l : list (ContentHash * ChunkLocator * Z)) : gset BlockID :=
  list_to_set (omap (fun e => if IsStandalone e.1.2 then None else Some (cl_BlockID e.1.2)) l).

Definition reclaim_candidate (dryRun : bool) (s : string) (rec : BlockRecord) : M unit :=
  let leaked := negb (br_LiveChunkCount rec =? 0) in
  if dryRun then reclaimed_record leaked (br_BlockID rec) (br_Length rec)
  else
    r ← try (remote_write (DeleteBlock (br_BlockID rec)));
    match r with
    | None => reclaim_error
    | Some _ =>
        r ← try (store_DeleteBlockRecord s (br_BlockID rec));
        match r with None => reclaim_error | Some _ => reclaimed_record leaked (br_BlockID rec) (br_Length rec) end
    end.

Definition reclaim_view (dryRun : bool) (s : string) : M unit :=
  recs ← meta_read s (fun st => shuffle _ (WalkBlockRecords st));
  _ ← on_reclaim (fun r => mkReclaimReport (Reclaimed r) (LeakedReclaimed r) (OrphanObjectsReclaimed r) (BlockRecordsScanned r + Z.of_nat (length recs)) (RemoteObjectsScanned r) (ReclaimErrors r));
  l ← meta_read s EnumerateSynced;
  forM (List.filter (fun rec => negb (bool_decide (br_BlockID rec ∈ refSet l))) recs) tt (fun _ rec =>
    _ ← ctx_err; reclaim_candidate dryRun s rec).

Definition ReclaimRecords (dryRun : bool) (views : list string) : M unit :=
  forM views tt (fun _ s => reclaim_view dryRun s).

(** [WalkBlocks]: identifier, size, time of modification. *)
Definition WalkBlocks (w : world) : list (BlockID * Z * Z) :=
  shuffle _ (map (fun '(id, mb) => (id, Z.of_nat (length (mb_data mb)), mb_lastModified mb)) (map_to_list (w_remote w))).

Definition orphan_candidate (metaBlockIDs : gset BlockID) (cutoff : Z) (e : BlockID * Z * Z) : bool :=
  negb (bool_decide (e.1.1 ∈ metaBlockIDs)) && negb (e.2 =? 0) && negb (e.2 >? cutoff).

Definition ReclaimOrphanObjects (dryRun : bool) (metaBlockIDs : gset BlockID) (grace : Z) : M unit :=
  now ← gets w_now;
  let cutoff := now - resolveGracePeriod grace false in
  objs ← remote_read WalkBlocks;
  _ ← on_reclaim (fun r => mkReclaimReport (Reclaimed r) (LeakedReclaimed r) (OrphanObjectsReclaimed r) (BlockRecordsScanned r) (RemoteObjectsScanned r + Z.of_nat (length objs)) (ReclaimErrors r));
  forM (List.filter (orphan_candidate metaBlockIDs cutoff) objs) tt (fun _ e =>
    _ ← ctx_err;
    if dryRun then reclaimed_object e.1.1 e.1.2
    else
      r ← try (remote_write (DeleteBlock e.1.1));
      match r with None => reclaim_error | Some _ => reclaimed_object e.1.1 e.1.2 end).

(** The records of every share: the views, the identifiers, whether all were
    enumerated. *)
Definition collect_ids (shares : list string) : M (list string * gset BlockID * bool) :=
  forM shares ([], ∅, true) (fun acc share =>
    r ← try (GetMetadataStoreForShare share);
    match r with
    | None => ret (acc.1.1, acc.1.2, false)
    | Some s =>
        r ← try (meta_read s WalkBlockRecords);
        ret (match r with
             | None => (acc.1.1 ++ [s], acc.1.2, false)
             | Some recs => (acc.1.1 ++ [s], acc.1.2 ∪ list_to_set (map br_BlockID recs), acc.2)
             end)
    end).

(** One remote store of [ReconcileReclaim]; waiting for the lock is a call. *)
Definition ReconcileReclaim (shares : list string) (dryRun : bool) (grace : Z) : M unit :=
  _ ← on_reclaim (fun _ => emptyReclaim);
  _ ← ctx_err;
  r ← collect_ids shares;
  _ ← ctx_err;
  _ ← ReclaimRecords dryRun r.1.1;
  if r.2 : bool then ReclaimOrphanObjects dryRun r.1.2 grace else ret tt.

(** ** The block sink and the read path *)

(** [engineBlockSink.CommitBlock] *)
Definition CommitBlock (s : string) (chunks : list (@CarveChunk ContentHash)) : M unit :=
  if bool_decide (chunks = []) then ret tt
  else
    id ← newBlockID;
    match prepare_block id chunks with
    | None => fail
    | Some (data, rec, commits, rows) =>
        _ ← remote_write (PutBlock id data);
        commit_block s rec commits rows
    end.

(** [engineDeduper.IsChunkDurable] *)
Definition engine_IsChunkDurable (s : string) (h : ContentHash) : M bool := meta_read s (fun st => IsSynced st h).

Inductive fetched := NotSynced | Legacy | Fetched (data : list Z) | ReadFailed (e : ReadError).

Definition readChunkVerified (w : world) (loc : ChunkLocator) (h : ContentHash) : fetched :=
  match ReadChunk w (cl_BlockID loc) (cl_WireOffset loc) (cl_WireLength loc) h with
  | inl e => ReadFailed e
  | inr data => if bool_decide (Sum256 data = h) then Fetched data else ReadFailed ErrChunkContentMismatch
  end.

Definition resolveAndReadChunk (s : string) (h : ContentHash) : M fetched :=
  loc ← meta_read s (fun st => GetLocator st h);
  match loc with
  | None => ret NotSynced
  | Some loc => if IsStandalone loc then ret Legacy else remote_read (fun w => readChunkVerified w loc h)
  end.

Definition dispatchRemoteFetch (s : string) (h : ContentHash) : M fetched :=
  if IsZero h then fail
  else
    r ← resolveAndReadChunk s h;
    match r with
    | ReadFailed ErrChunkNotFound => resolveAndReadChunk s h
    | r => ret r
    end.
End maint.
