(* ===== verification/BlockInv.v ===== *)
(** * The invariant of remote blocks

    What the operations of [BlockMeta] and the actions of [BlockWorld] change:
    references, markers and records before and after each.  Then the invariant:
    every chunk the manifest of a share refers to has a marker, the marker names a
    block with a record and an object, and the object holds the chunk.  It says what
    else has to hold for that to survive: live counts are at least the number of
    markers, a block belongs to one share, identifiers are not reused.  It is
    preserved by everything the other threads do. *)

From S2P Require Import Prelude.
From S2P Require Import HoleMap.
From S2P Require Import JournalCarve.
From S2P Require Import BlockCodec.
From S2P Require Import BlockMeta.
From S2P Require Import BlockWorld.

(** ** References *)

(** A hash the manifest still needs: of a row, or of a file with a link. *)
Definition referenced (st : Store) (h : ContentHash) : Prop :=
  h <> zeroHash /\ h ∈ snapshotBlockHashesLocked st.

Lemma elem_of_snapshot st h :
  h ∈ snapshotBlockHashesLocked st <->
  (exists id b, blocks st !! id = Some b /\ fc_Hash b = h) \/
  (exists key fd r, files st !! key = Some fd /\ linked st key = true /\ r ∈ fd_Blocks fd /\ cr_Hash r = h).
Proof.
  unfold snapshotBlockHashesLocked. rewrite elem_of_app, list_elem_of_fmap, list_elem_of_In, in_flat_map. split.
  - intros [([id b] & -> & Hin)|([key fd] & Hin & Hr)].
    + left. exists id, b. split; [|reflexivity]. apply elem_of_map_to_list. exact Hin.
    + right. apply list_elem_of_In, elem_of_map_to_list in Hin. cbn [fst snd] in Hr.
      destruct (linked st key) eqn:Hl; [|contradiction].
      apply in_map_iff in Hr as (r & <- & Hr). exists key, fd, r. rewrite list_elem_of_In. auto.
  - intros [(id & b & Hid & <-)|(key & fd & r & Hf & Hl & Hr & <-)].
    + left. exists (id, b). split; [reflexivity|]. apply elem_of_map_to_list. exact Hid.
    + right. exists (key, fd). split; [apply list_elem_of_In, elem_of_map_to_list; exact Hf|].
      cbn [fst snd]. rewrite Hl. apply in_map. apply list_elem_of_In. exact Hr.
Qed.

(** Every reference of [st'] is one of [st] or has a hash of [P]. *)
Definition refs_within (P : ContentHash -> Prop) (st st' : Store) : Prop :=
  forall h, referenced st' h -> referenced st h \/ P h.

Lemma refs_within_refl P st : refs_within P st st.
Proof. intros h Hh. left. exact Hh. Qed.

Lemma refs_within_trans P st st' st'' : refs_within P st st' -> refs_within P st' st'' -> refs_within P st st''.
Proof. intros H1 H2 h Hh. destruct (H2 h Hh) as [Hh'|]; [apply H1, Hh'|right; assumption]. Qed.

Lemma refs_within_intro (P : ContentHash -> Prop) st st' :
  (forall id b, blocks st' !! id = Some b -> (exists id' b', blocks st !! id' = Some b' /\ fc_Hash b' = fc_Hash b) \/ referenced st (fc_Hash b) \/ P (fc_Hash b)) ->
  (forall key fd r, files st' !! key = Some fd -> linked st' key = true -> r ∈ fd_Blocks fd ->
     (exists fd' r', files st !! key = Some fd' /\ linked st key = true /\ r' ∈ fd_Blocks fd' /\ cr_Hash r' = cr_Hash r) \/
     (exists id b, blocks st' !! id = Some b /\ fc_Hash b = cr_Hash r) \/ referenced st (cr_Hash r)) ->
  refs_within P st st'.
Proof.
  intros Hrows Hfiles.
  assert (Hrow : forall h, h <> zeroHash -> (exists id b, blocks st' !! id = Some b /\ fc_Hash b = h) -> referenced st h \/ P h).
  { intros h Hz (id & b & Hid & <-). destruct (Hrows id b Hid) as [(id' & b' & Hid' & Hh)|[Hr|Hp]]; [|auto..].
    left. split; [exact Hz|]. apply elem_of_snapshot. left. exists id', b'. auto. }
  intros h [Hz Hh]. apply elem_of_snapshot in Hh as [Hh|(key & fd & r & Hf & Hl & Hr & <-)]; [apply Hrow; auto|].
  destruct (Hfiles key fd r Hf Hl Hr) as [(fd' & r' & Hf' & Hl' & Hr' & Hh)|[Hh|Hh]]; [|apply Hrow; auto|left; exact Hh].
  left. split; [exact Hz|]. apply elem_of_snapshot. right. exists key, fd', r'. auto.
Qed.

(** ** Markers and records *)

Definition same_markers (st st' : Store) : Prop :=
  synced st' = synced st /\ syncedLocators st' = syncedLocators st /\ blockRecords st' = blockRecords st.

Lemma same_markers_refl st : same_markers st st.
Proof. repeat split. Qed.

Lemma same_markers_trans st st' st'' : same_markers st st' -> same_markers st' st'' -> same_markers st st''.
Proof. intros (? & ? & ?) (? & ? & ?). repeat split; congruence. Qed.

(** An operation on the manifest only. *)
Definition manifest_only (P : ContentHash -> Prop) (st st' : Store) : Prop := same_markers st st' /\ refs_within P st st'.

Lemma manifest_only_trans P st st' st'' : manifest_only P st st' -> manifest_only P st' st'' -> manifest_only P st st''.
Proof. intros [H1 H2] [H3 H4]. split; [eapply same_markers_trans|eapply refs_within_trans]; eassumption. Qed.

Lemma put_row_only P st b : P (fc_Hash b) -> manifest_only P st (putFileChunkLocked st b).
Proof.
  intros Hp. split; [repeat split|]. apply refs_within_intro.
  - intros id b'. cbn. rewrite lookup_insert_Some. intros [[<- <-]|[_ Hb']]; [auto|]. left. eauto.
  - intros key fd r Hf Hl Hr. left. exists fd, r. auto.
Qed.

Lemma put_rows_only P rows st : Forall (fun b => P (fc_Hash b)) rows -> manifest_only P st (fold_left putFileChunkLocked rows st).
Proof.
  revert st. induction rows as [|b rows IH]; intros st Hr; cbn [fold_left].
  { split; [apply same_markers_refl|apply refs_within_refl]. }
  apply Forall_cons in Hr as [Hb Hr]. eapply manifest_only_trans; [apply put_row_only, Hb|apply IH, Hr].
Qed.

Lemma delete_row_only P st st' id : deleteFileChunkLocked st id = Some st' -> manifest_only P st st'.
Proof.
  unfold deleteFileChunkLocked. destruct (blocks st !! id) as [b|] eqn:Hb; [|discriminate]. intros [= <-].
  split; [repeat split|]. apply refs_within_intro.
  - intros id' b'. cbn. rewrite lookup_delete_Some. intros [_ Hb']. left. eauto.
  - intros key fd r Hf Hl Hr. left. exists fd, r. auto.
Qed.

Lemma release_row_only P st id : manifest_only P st (decrementAndReapLocked st id).2.
Proof.
  unfold decrementAndReapLocked. destruct (blocks st !! id) as [b|] eqn:Hb.
  2:{ split; [apply same_markers_refl|apply refs_within_refl]. }
  cbn zeta. destruct (_ =? 0); cbn [snd].
  - destruct (deleteFileChunkLocked st id) as [st'|] eqn:Hd; cbn [default].
    + eapply delete_row_only, Hd.
    + split; [apply same_markers_refl|apply refs_within_refl].
  - split; [repeat split|]. apply refs_within_intro.
    + intros id' b'. cbn. rewrite lookup_insert_Some. intros [[<- <-]|[_ Hb']]; left; eauto.
    + intros key fd r Hf Hl Hr. left. exists fd, r. auto.
Qed.

Lemma listed_rows st payloadID b : b ∈ listFileChunksLocked st payloadID -> exists id, blocks st !! id = Some b.
Proof.
  unfold listFileChunksLocked. intros Hb. apply list_elem_of_fmap in Hb as ([i b'] & -> & Hb).
  apply list_elem_of_In, elem_of_sort_by, list_elem_of_In, list_elem_of_omap in Hb as ([id b''] & Hin & Hl).
  apply elem_of_map_to_list in Hin. exists id. revert Hl. unfold listed_row. cbn [fst snd].
  destruct (cut_prefix _ _); [|discriminate]. destruct (Atoi _); [|discriminate]. intros [= _ <-]. exact Hin.
Qed.

Lemma projected_refs st payloadID r :
  r ∈ ManifestToChunkRefs (listFileChunksLocked st payloadID) -> exists id b, blocks st !! id = Some b /\ fc_Hash b = cr_Hash r.
Proof.
  unfold ManifestToChunkRefs. intros Hr. apply list_elem_of_In, elem_of_sort_by, list_elem_of_In, list_elem_of_omap in Hr as (b & Hb & Hr).
  destruct (listed_rows _ _ _ Hb) as [id Hid]. exists id, b. split; [exact Hid|].
  revert Hr. unfold row_ref. destruct (ParseChunkOffset _); [|discriminate]. intros [= <-]. reflexivity.
Qed.

Lemma project_only P payloadID tx : manifest_only P (tx_store tx) (tx_store (ProjectManifestToBlocks payloadID tx)) /\
  tx_syncedOps (ProjectManifestToBlocks payloadID tx) = tx_syncedOps tx.
Proof.
  assert (Hid : manifest_only P (tx_store tx) (tx_store tx)) by (split; [apply same_markers_refl|apply refs_within_refl]).
  unfold ProjectManifestToBlocks. destruct (bool_decide _); [auto|].
  destruct (GetFileByPayloadID _ _) as [[key fd]|]; [|auto].
  split; [|reflexivity]. cbn [on_store tx_store]. split; [repeat split|]. apply refs_within_intro.
  - intros id b Hb. left. eauto.
  - intros key' fd' r. cbn. rewrite lookup_insert_Some. intros [[<- <-]|[_ Hf]] Hl Hr.
    + right. left. eapply projected_refs, Hr.
    + left. exists fd', r. auto.
Qed.

(** Changing files or links so that no linked file gains a block. *)
Lemma set_files_only P st f n :
  (forall key fd r, f !! key = Some fd -> n !! key <> Some 0 -> r ∈ fd_Blocks fd ->
     (exists fd' r', files st !! key = Some fd' /\ linked st key = true /\ r' ∈ fd_Blocks fd' /\ cr_Hash r' = cr_Hash r) \/ referenced st (cr_Hash r) \/ cr_Hash r = zeroHash) ->
  manifest_only P st (set_files st f n).
Proof.
  intros Hf. split; [repeat split|]. intros h [Hz Hh].
  apply elem_of_snapshot in Hh as [(id & b & Hid & Hh)|(key & fd & r & Hk & Hl & Hr & <-)].
  { left. split; [exact Hz|]. apply elem_of_snapshot. left. exists id, b. auto. }
  left. unfold linked in Hl. cbn in Hl. apply negb_true_iff, bool_decide_eq_false in Hl.
  destruct (Hf key fd r Hk Hl Hr) as [(fd' & r' & Hf' & Hl' & Hr' & Hh)|[Hh|Hh]]; [|exact Hh|contradiction].
  split; [exact Hz|]. apply elem_of_snapshot. right. exists key, fd', r'. auto.
Qed.

Lemma linked_spec st key : linked st key = true <-> linkCounts st !! key <> Some 0.
Proof. unfold linked. rewrite negb_true_iff, bool_decide_eq_false. reflexivity. Qed.

Lemma clone_only P src dst payloadID st st' : clone_file src dst payloadID st = Some st' -> manifest_only P st st'.
Proof.
  unfold clone_file. destruct (files st !! src) as [fd|] eqn:Hf; [|discriminate].
  destruct (linked st src) eqn:Hl; [|discriminate]. intros [= <-].
  assert (Href : forall r, r ∈ fd_Blocks fd -> cr_Hash r <> zeroHash -> referenced st (cr_Hash r)).
  { intros r Hr Hz. split; [exact Hz|]. apply elem_of_snapshot. right. exists src, fd, r. auto. }
  assert (Hcopy : manifest_only (referenced st) st (CopyPayload payloadID (fd_Blocks fd) st)).
  { apply put_rows_only, Forall_map, Forall_forall. intros r Hr.
    apply list_elem_of_In, filter_In in Hr as [Hr Hz]. apply Href; [apply list_elem_of_In, Hr|].
    unfold IsZero in Hz. apply negb_true_iff, bool_decide_eq_false in Hz. exact Hz. }
  set (st1 := CopyPayload payloadID (fd_Blocks fd) st) in *.
  assert (Hback : forall h, referenced st1 h -> referenced st h) by (intros h Hh; destruct Hcopy as [_ Hc]; destruct (Hc h Hh); assumption).
  assert (Hkeep : files st1 = files st /\ linkCounts st1 = linkCounts st).
  { subst st1. unfold CopyPayload. clear. generalize (map (clone_row payloadID) (List.filter (fun b => negb (IsZero (cr_Hash b))) (fd_Blocks fd))).
    intros l. revert st. induction l as [|b l IH]; intros st; [split; reflexivity|]. cbn [fold_left]. destruct (IH (putFileChunkLocked st b)) as [-> ->]. split; reflexivity. }
  destruct Hkeep as [Hfiles Hlinks].
  assert (manifest_only P st1 (set_files st1 (<[dst := mkFileData payloadID (fd_Blocks fd)]> (files st1)) (<[dst := 1]> (linkCounts st1)))) as [Hm Hr1].
  { apply set_files_only. intros key fd' r. rewrite lookup_insert_Some. intros [[<- <-]|[Hne Hk]] Hn Hr.
    - cbn [fd_Blocks] in Hr. destruct (decide (cr_Hash r = zeroHash)) as [|Hz]; [auto|]. right. left.
      split; [exact Hz|]. apply elem_of_snapshot. right. exists src, fd, r. rewrite Hfiles, linked_spec, Hlinks, <- linked_spec. auto.
    - rewrite lookup_insert_ne in Hn by done. left. exists fd', r. rewrite linked_spec. auto. }
  split.
  - eapply same_markers_trans; [apply Hcopy|exact Hm].
  - intros h Hh. destruct (Hr1 h Hh) as [Hh1|]; [|auto]. left. apply Hback, Hh1.
Qed.

(** ** Committing a block *)

Definition opened (st : Store) (op : option syncedTxState) (old : option ChunkLocator) : option ChunkLocator :=
  match op with
  | None => old
  | Some TxDeleted => None
  | Some (TxMarked l) => if IsStandalone l then None else Some l
  end.

Definition stamped (now : Z) (op : option syncedTxState) (old : option Z) : option Z :=
  match op with None => old | Some TxDeleted => None | Some (TxMarked _) => Some now end.

Lemma apply_ops now st ops :
  let st' := map_fold (apply_op now) st ops in
  (forall h, syncedLocators st' !! h = opened st (ops !! h) (syncedLocators st !! h)) /\
  (forall h, synced st' !! h = stamped now (ops !! h) (synced st !! h)) /\
  blockRecords st' = blockRecords st /\ blocks st' = blocks st /\ files st' = files st /\ linkCounts st' = linkCounts st.
Proof.
  cbn zeta. apply (map_fold_weak_ind (fun st' ops =>
    (forall h, syncedLocators st' !! h = opened st (ops !! h) (syncedLocators st !! h)) /\
    (forall h, synced st' !! h = stamped now (ops !! h) (synced st !! h)) /\
    blockRecords st' = blockRecords st /\ blocks st' = blocks st /\ files st' = files st /\ linkCounts st' = linkCounts st)).
  { repeat split; intros; rewrite lookup_empty; reflexivity. }
  intros h op ops' st' Hnone (Hl & Hs & Hr & Hb & Hf & Hn).
  destruct op as [|loc]; (split; [|split; [|auto]]); intros h'; cbn;
    destruct (decide (h' = h)) as [->|Hne]; rewrite ?lookup_insert_eq, ?lookup_delete_eq, ?(lookup_insert_ne _ h h'), ?(lookup_delete_ne _ h h') by congruence;
    cbn; try reflexivity; try apply Hl; try apply Hs.
  - destruct (IsStandalone loc); rewrite ?lookup_insert_eq, ?lookup_delete_eq; reflexivity.
  - destruct (IsStandalone loc); rewrite ?lookup_insert_ne, ?lookup_delete_ne by congruence; apply Hl.
Qed.

Lemma mark_chunk_ops c tx :
  tx_store (mark_chunk c tx) = tx_store tx /\
  tx_syncedOps (mark_chunk c tx) = <[bc_Hash c := TxMarked (bc_Remote c)]> (tx_syncedOps tx).
Proof.
  unfold mark_chunk, tx_MarkSynced, tx_DeleteSynced. cbn [tx_store tx_syncedOps].
  rewrite lookup_insert_eq. cbn [tx_store tx_syncedOps]. split; [reflexivity|]. apply insert_insert_eq.
Qed.

Lemma mark_chunks_ops chunks : forall tx,
  let tx' := fold_left (fun tx c => mark_chunk c tx) chunks tx in
  tx_store tx' = tx_store tx /\
  forall h, (exists c, c ∈ chunks /\ bc_Hash c = h /\ tx_syncedOps tx' !! h = Some (TxMarked (bc_Remote c))) \/
            (h ∉ map bc_Hash chunks /\ tx_syncedOps tx' !! h = tx_syncedOps tx !! h).
Proof.
  induction chunks as [|c chunks IH]; intros tx; cbn [fold_left].
  { split; [reflexivity|]. intros h. right. split; [apply not_elem_of_nil|reflexivity]. }
  destruct (mark_chunk_ops c tx) as [Hst Hops]. destruct (IH (mark_chunk c tx)) as [Hst' Hops']. split; [congruence|].
  intros h. destruct (Hops' h) as [(c' & Hc' & Hh & Hop)|[Hnot Hop]].
  - left. exists c'. rewrite elem_of_cons. auto.
  - rewrite Hop, Hops. destruct (decide (h = bc_Hash c)) as [->|Hne].
    + left. exists c. rewrite elem_of_cons, lookup_insert_eq. auto.
    + right. rewrite lookup_insert_ne by congruence. split; [|reflexivity]. cbn [map]. rewrite elem_of_cons. tauto.
Qed.

Lemma put_rows_tx rows : forall tx,
  fold_left (fun tx fc => on_store (fun st => putFileChunkLocked st fc) tx) rows tx =
  mkTx (fold_left putFileChunkLocked rows (tx_store tx)) (tx_syncedOps tx).
Proof. induction rows as [|b rows IH]; intros [st ops]; [reflexivity|]. cbn [fold_left]. rewrite IH. reflexivity. Qed.

Lemma snapshot_ext st st' : blocks st' = blocks st -> files st' = files st -> linkCounts st' = linkCounts st ->
  snapshotBlockHashesLocked st' = snapshotBlockHashesLocked st.
Proof. intros H1 H2 H3. unfold snapshotBlockHashesLocked, linked. rewrite H1, H2, H3. reflexivity. Qed.

Lemma referenced_ext st st' h : blocks st' = blocks st -> files st' = files st -> linkCounts st' = linkCounts st ->
  referenced st' h -> referenced st h.
Proof. intros H1 H2 H3 [Hz Hh]. split; [exact Hz|]. rewrite <- (snapshot_ext st st') by assumption. exact Hh. Qed.

Definition hashes_of (commits : list BlockChunkCommit) (h : ContentHash) : Prop := exists c, c ∈ commits /\ bc_Hash c = h.

Lemma commit_spec now st rec commits rows :
  blockRecords st !! br_BlockID rec = None ->
  exists st', DefaultCommitBlock now st rec commits rows = Some st' /\
    blockRecords st' = <[br_BlockID rec := rec]> (blockRecords st) /\
    (forall h, (exists c, c ∈ commits /\ bc_Hash c = h /\ synced st' !! h = Some now /\
                  syncedLocators st' !! h = if IsStandalone (bc_Remote c) then None else Some (bc_Remote c)) \/
               (~ hashes_of commits h /\ synced st' !! h = synced st !! h /\ syncedLocators st' !! h = syncedLocators st !! h)) /\
    refs_within (fun h => exists b, b ∈ rows /\ fc_Hash b = h) st st'.
Proof.
  intros Hnone. unfold DefaultCommitBlock, WithTransaction, commit_tx. cbn [tx_store]. unfold GetBlockRecord. rewrite Hnone.
  rewrite put_rows_tx. cbn [on_store tx_store tx_syncedOps].
  set (st1 := fold_left putFileChunkLocked rows (PutBlockRecord st rec)).
  destruct (mark_chunks_ops commits (mkTx st1 ∅)) as [Hst2 Hops2].
  set (tx2 := fold_left _ commits (mkTx st1 ∅)) in *. cbn [tx_store tx_syncedOps] in *.
  set (P := fun h => exists b, b ∈ rows /\ fc_Hash b = h).
  destruct (project_only P (payloadIDFromChunks rows) tx2) as [[Hm3 Hr3] Hops3].
  set (tx3 := ProjectManifestToBlocks _ tx2) in *.
  destruct (put_rows_only P rows (PutBlockRecord st rec)) as [Hm1 Hr1].
  { apply Forall_forall. intros b Hb. exists b. auto. }
  fold st1 in Hm1, Hr1. rewrite Hst2 in Hm3, Hr3.
  destruct (same_markers_trans _ _ _ Hm1 Hm3) as (Hsync & Hloc & Hrec).
  destruct (apply_ops now (tx_store tx3) (tx_syncedOps tx3)) as (Hl & Hs & Hr & Hb & Hf & Hn).
  eexists. split; [reflexivity|]. split; [rewrite Hr, Hrec; reflexivity|]. split.
  - intros h. rewrite Hl, Hs, Hops3, Hloc, Hsync. destruct (Hops2 h) as [(c & Hc & Hh & Hop)|[Hnot Hop]]; rewrite Hop.
    + left. exists c. auto.
    + right. rewrite lookup_empty. split; [|split; reflexivity]. intros (c & Hc & Hh). apply Hnot, list_elem_of_fmap. exists c. auto.
  - intros h Hh. apply (referenced_ext (tx_store tx3)) in Hh; [|assumption..].
    destruct (refs_within_trans P _ _ _ Hr1 Hr3 h Hh) as [Hh'|]; [|right; assumption].
    left. eapply referenced_ext; [..|exact Hh']; reflexivity.
Qed.

Lemma reap_rows_only P lo hi offs rows : forall tx tx', reap_rows lo hi offs rows tx = Some tx' ->
  manifest_only P (tx_store tx) (tx_store tx') /\ tx_syncedOps tx' = tx_syncedOps tx.
Proof.
  induction rows as [|r rows IH]; intros tx tx'; cbn [reap_rows].
  { intros [= <-]. split; [split; [apply same_markers_refl|apply refs_within_refl]|reflexivity]. }
  destruct (superseded lo hi offs r); [|apply IH].
  destruct (deleteFileChunkLocked (tx_store tx) (fc_ID r)) as [st|] eqn:Hd; [|discriminate].
  intros Hrest. apply IH in Hrest as [Hm Hops]. cbn [tx_store tx_syncedOps] in *. split; [|exact Hops].
  eapply manifest_only_trans; [eapply delete_row_only, Hd|exact Hm].
Qed.

Lemma reap_only P now st payloadID lo hi offs st' :
  ReapSupersededManifest now st payloadID lo hi offs = Some st' -> manifest_only P st st'.
Proof.
  unfold ReapSupersededManifest, WithTransaction, reap_tx. cbn [tx_store].
  destruct (_ || _).
  { cbn [tx_store tx_syncedOps]. rewrite map_fold_empty. intros [= <-]. split; [apply same_markers_refl|apply refs_within_refl]. }
  destruct (reap_rows lo hi offs _ (mkTx st ∅)) as [tx|] eqn:Hr; [|discriminate]. intros [= <-].
  destruct (reap_rows_only P _ _ _ _ _ _ Hr) as [Hm Hops]. destruct (project_only P payloadID tx) as [Hp Hops'].
  rewrite Hops', Hops. cbn [tx_syncedOps]. rewrite map_fold_empty. cbn [tx_store] in Hm.
  eapply manifest_only_trans; eassumption.
Qed.

(** ** Counting the markers of a block *)

Definition points_to (st : Store) (h : ContentHash) (b : BlockID) : Prop :=
  exists loc, syncedLocators st !! h = Some loc /\ cl_BlockID loc = b.

Definition pointing (st : Store) (b : BlockID) : gmap ContentHash ChunkLocator :=
  filter (fun p => cl_BlockID p.2 = b) (syncedLocators st).

Definition count (st : Store) (b : BlockID) : nat := size (pointing st b).

Lemma pointing_lookup st b h loc :
  pointing st b !! h = Some loc <-> syncedLocators st !! h = Some loc /\ cl_BlockID loc = b.
Proof. unfold pointing. rewrite map_lookup_filter_Some. reflexivity. Qed.

Lemma count_mono st st' b :
  (forall h loc, syncedLocators st' !! h = Some loc -> cl_BlockID loc = b -> syncedLocators st !! h = Some loc) ->
  (count st' b <= count st b)%nat.
Proof.
  intros Hsub. apply map_subseteq_size, map_subseteq_spec. intros h loc. rewrite !pointing_lookup.
  intros [Hl Hb]. auto.
Qed.

Lemma count_drop st st' b h :
  (forall h' loc, syncedLocators st' !! h' = Some loc -> cl_BlockID loc = b -> syncedLocators st !! h' = Some loc) ->
  points_to st h b -> ~ points_to st' h b -> (count st' b < count st b)%nat.
Proof.
  intros Hsub (loc & Hl & Hb) Hno. apply map_subset_size, map_subset_alt. split.
  - apply map_subseteq_spec. intros h' loc'. rewrite !pointing_lookup. intros [Hl' Hb']. auto.
  - exists h. split.
    + apply eq_None_not_Some. intros [loc' Hloc']. apply pointing_lookup in Hloc' as [Hl' Hb']. apply Hno. exists loc'. auto.
    + exists loc. apply pointing_lookup. auto.
Qed.

Lemma list_set_size (l : list ContentHash) : (size (list_to_set l : gset ContentHash) <= length l)%nat.
Proof.
  induction l as [|x l IH]; [rewrite list_to_set_nil, size_empty; simpl; lia|].
  rewrite list_to_set_cons, size_union_alt, size_singleton. cbn [length].
  assert (size ((list_to_set l : gset ContentHash) ∖ {[x]}) <= size (list_to_set l : gset ContentHash))%nat by (apply subseteq_size; set_solver).
  lia.
Qed.

Lemma count_commits st b (commits : list BlockChunkCommit) :
  (forall h, points_to st h b -> hashes_of commits h) -> (count st b <= length commits)%nat.
Proof.
  intros Hin. unfold count. rewrite <- (length_map bc_Hash commits), <- size_dom.
  apply (Nat.le_trans _ (size (list_to_set (map bc_Hash commits) : gset ContentHash))).
  - apply subseteq_size. intros h Hh. apply elem_of_dom in Hh as [loc Hl]. apply pointing_lookup in Hl as [Hl Hb].
    destruct (Hin h) as (c & Hc & Hh); [exists loc; auto|]. apply elem_of_list_to_set, list_elem_of_fmap. exists c. auto.
  - apply list_set_size.
Qed.

Lemma count_one st b h : (count st b <= 1)%nat -> points_to st h b -> forall h', points_to st h' b -> h' = h.
Proof.
  intros Hc (loc & Hl & Hb) h' (loc' & Hl' & Hb').
  assert (pointing st b !! h = Some loc) as Hh by (apply pointing_lookup; auto).
  assert (pointing st b !! h' = Some loc') as Hh' by (apply pointing_lookup; auto).
  destruct (decide (h' = h)) as [|Hne]; [assumption|]. exfalso.
  unfold count in Hc. rewrite <- (insert_delete_id (pointing st b) h loc Hh) in Hc.
  rewrite map_size_insert_None in Hc by apply lookup_delete_eq.
  rewrite <- (insert_delete_id (delete h (pointing st b)) h' loc') in Hc by (rewrite lookup_delete_ne; done).
  rewrite map_size_insert_None in Hc by apply lookup_delete_eq. lia.
Qed.

(** A store uses a block it has a record of or a marker pointing at. *)
Definition uses (st : Store) (b : BlockID) : Prop := is_Some (blockRecords st !! b) \/ exists h, points_to st h b.

Section inv.
Context `{DL : DeploymentLaws}.

(** ** Blocks and their chunks *)

Definition window (data : list Z) (r : Record_) : list Z := slice (Z.to_nat (r_WireOffset r)) (Z.to_nat (r_WireLength r)) data.

(** The chunk of a record can be read: its bytes are inside the block and open to
    content with its hash. *)
Definition readable (data : list Z) (r : Record_) : Prop :=
  0 <= r_WireOffset r /\ 0 < r_WireLength r < 2 ^ 64 /\ r_WireOffset r + r_WireLength r <= Z.of_nat (length data) /\
  exists d, OpenChunk (r_Hash r) (window data r) = Some d /\ Sum256 d = r_Hash r.

Definition block_records (data : list Z) (recs : list Record_) : Prop := exists id, Parse data None = inr (id, recs).

Definition good_block (data : list Z) : Prop :=
  exists recs, block_records data recs /\ Forall (readable data) recs /\ Z.of_nat (length recs) < 2 ^ 32.

(** The block has a record for the hash where the locator says. *)
Definition holds (data : list Z) (h : ContentHash) (loc : ChunkLocator) : Prop :=
  exists recs, block_records data recs /\ mkRecord h (cl_WireOffset loc) (cl_WireLength loc) ∈ recs.

Definition body_ok (c : ContentHash * list Z) : Prop :=
  c.2 <> [] /\ in_u64 (Z.of_nat (length c.2)) /\ exists d, OpenChunk c.1 c.2 = Some d /\ Sum256 d = c.1.

Definition id_ok (id : BlockID) : Prop := id <> [] /\ in_u64 (Z.of_nat (length id)).

Lemma body_chunk_ok c : body_ok c -> chunk_ok c.
Proof. intros (Hne & Hlen & d & Hd & Hh). split; [|exact Hlen]. rewrite <- Hh. apply Sum256_length. Qed.

Lemma slice_full off n data x : slice off n data = x -> length x = n -> x <> [] -> (off + n <= length data)%nat.
Proof.
  intros Hs Hn Hx. assert (length (slice off n data) = n) as Hl by (rewrite Hs; exact Hn).
  unfold slice in Hl. rewrite length_take, length_drop in Hl.
  destruct n; [destruct x; [contradiction|discriminate]|]. lia.
Qed.

(** What a block built from good bodies is. *)
Lemma build_good id bodies data rec commits :
  id_ok id -> Forall body_ok bodies -> Z.of_nat (length bodies) < 2 ^ 32 ->
  build_block id bodies = Some (data, rec, commits) ->
  good_block data /\ br_BlockID rec = id /\ br_LiveChunkCount rec = Z.of_nat (length commits) /\
  map bc_Hash commits = map fst bodies /\
  Forall (fun c => cl_BlockID (bc_Remote c) = id /\ holds data (bc_Hash c) (bc_Remote c)) commits.
Proof.
  intros [Hid Hidlen] Hok Hcount. unfold build_block.
  destruct (add_all (NewBuilder id None) bodies) as [[b locs]|] eqn:Hall; [|discriminate]. intros [= <- <- <-].
  destruct (roundtrip id None bodies b locs) as [Hparse Hwin]; [intros ? ?; discriminate|exact Hidlen| |exact Hall|].
  { eapply Forall_impl; [exact Hok|apply body_chunk_ok]. }
  pose proof (Forall2_length _ _ _ Hwin) as Hlen.
  assert (Hrec : block_records (b_w b) (zip_with record_of bodies locs)) by (exists id; exact Hparse).
  assert (Hzip : length (zip_with (fun c l => mkCommit c.1 l) bodies locs) = length locs) by (rewrite length_zip_with; lia).
  split; [|split; [reflexivity|split; [|split]]].
  - exists (zip_with record_of bodies locs). split; [exact Hrec|]. split; [|rewrite length_zip_with; lia].
    clear Hparse Hall Hrec Hzip Hcount Hlen. induction Hwin as [|c l bodies locs (Hb & Hl & Ho & Hs) Hwin IH]; [constructor|].
    apply Forall_cons in Hok as [(Hne & Hu & d & Hd & Hh) Hok]. cbn [zip_with]. constructor; [|apply IH, Hok].
    unfold readable, window, record_of. cbn [r_WireOffset r_WireLength r_Hash]. rewrite Hl, Nat2Z.id, Hs.
    pose proof (slice_full _ _ _ _ Hs eq_refl Hne).
    assert (0 < Z.of_nat (length c.2)) by (destruct (c.2); [contradiction|simpl; lia]).
    split; [exact Ho|]. split; [unfold in_u64 in Hu; lia|]. split; [lia|]. exists d. auto.
  - cbn [br_LiveChunkCount]. rewrite Hzip. apply u32_small. unfold in_u32. lia.
  - clear - Hlen. revert locs Hlen. induction bodies as [|c bodies IH]; intros [|l locs] Hlen; try discriminate; [reflexivity|].
    cbn [zip_with map bc_Hash]. rewrite IH by (simpl in Hlen; lia). reflexivity.
  - apply Forall_forall. intros cm Hcm. apply elem_of_lookup_zip_with in Hcm as (i & c & l & -> & Hc & Hl).
    destruct (Forall2_lookup_lr _ _ _ _ _ _ Hwin Hc Hl) as [Hb _]. cbn [bc_Remote bc_Hash].
    split; [exact Hb|]. exists (zip_with record_of bodies locs). split; [exact Hrec|].
    apply elem_of_lookup_zip_with. exists i, c, l. auto.
Qed.

(** What the carver hands to the block sink: chunks named by their content. *)
Definition valid_chunk (c : @CarveChunk ContentHash) : Prop := cc_Hash c = Sum256 (cc_Data c) /\ cc_Data c <> [].

Definition valid_action (a : action) : Prop :=
  match a with
  | AUpload _ chunks => Forall valid_chunk chunks /\ Z.of_nat (length chunks) < 2 ^ 32
  | _ => True
  end.

Lemma seal_chunks_ok chunks bodies : Forall valid_chunk chunks -> seal_chunks chunks = Some bodies ->
  Forall body_ok bodies /\ map fst bodies = map cc_Hash chunks.
Proof.
  revert bodies. induction chunks as [|c chunks IH]; intros bodies Hv; cbn [seal_chunks]; [intros [= <-]; split; [constructor|reflexivity]|].
  apply Forall_cons in Hv as [[Hh Hne] Hv].
  destruct (SealChunk (cc_Hash c) (cc_Data c)) as [wire|] eqn:Hs; [|discriminate].
  destruct (seal_chunks chunks) as [l|] eqn:Hl; [|discriminate]. intros [= <-].
  destruct (IH l Hv eq_refl) as [Hok Hmap]. destruct (Open_Seal _ _ _ Hs) as (Hopen & Hwne & Hlen).
  split; [|cbn [map fst]; rewrite Hmap; reflexivity]. constructor; [|exact Hok].
  split; [apply Hwne, Hne|]. split; [exact Hlen|]. exists (cc_Data c). auto.
Qed.

(** An upload fits the object that was put for it. *)
Record up_good (id : BlockID) (data : list Z) (up : upload) : Prop := mkUpGood {
  ug_block : good_block data;
  ug_id : br_BlockID (up_rec up) = id;
  ug_count : br_LiveChunkCount (up_rec up) = Z.of_nat (length (up_commits up));
  ug_commits : Forall (fun c => cl_BlockID (bc_Remote c) = id /\ holds data (bc_Hash c) (bc_Remote c)) (up_commits up);
  ug_rows : Forall (fun b => hashes_of (up_commits up) (fc_Hash b)) (up_rows up);
}.

Lemma prepare_good s id chunks data rec commits rows :
  id_ok id -> Forall valid_chunk chunks -> Z.of_nat (length chunks) < 2 ^ 32 ->
  prepare_block id chunks = Some (data, rec, commits, rows) ->
  up_good id data (mkUpload s rec commits rows) /\ forall h, hashes_of commits h -> h ∈ map cc_Hash chunks.
Proof.
  intros Hid Hv Hlen. unfold prepare_block.
  destruct (seal_chunks chunks) as [bodies|] eqn:Hs; [|discriminate].
  destruct (seal_chunks_ok _ _ Hv Hs) as [Hok Hmap].
  destruct (build_block id bodies) as [[[data' rec'] commits']|] eqn:Hb; [|discriminate]. intros [= -> -> -> <-].
  assert (length bodies = length chunks) as Hl by (rewrite <- (length_map fst bodies), Hmap, length_map; reflexivity).
  destruct (build_good _ _ _ _ _ Hid Hok ltac:(lia) Hb) as (Hg & Hi & Hc & Hm & Hf).
  assert (forall h, h ∈ map bc_Hash commits -> hashes_of commits h) as Hin.
  { intros h Hh. apply list_elem_of_fmap in Hh as (c & -> & Hc'). exists c. auto. }
  split.
  - constructor; cbn [up_rec up_commits up_rows]; [assumption..|]. apply Forall_map, Forall_forall. intros c Hc'.
    apply Hin. rewrite Hm, Hmap. apply list_elem_of_fmap. exists c. auto.
  - intros h (c & Hc' & Hh). rewrite <- Hmap, <- Hm. apply list_elem_of_fmap. exists c. auto.
Qed.

(** ** The invariant *)

Definition unused (w : world) (id : BlockID) : Prop :=
  w_remote w !! id = None /\ w_inflight w !! id = None /\ forall s st, w_stores w !! s = Some st -> ~ uses st id.

(** A marker that resolves: its block has a record and an object. *)
Definition resolves (w : world) (st : Store) (h : ContentHash) : Prop :=
  exists loc, syncedLocators st !! h = Some loc /\ is_Some (blockRecords st !! cl_BlockID loc) /\ is_Some (w_remote w !! cl_BlockID loc).

(** The live count of a block covers the markers pointing at it, except that the
    last one may still be there when the count is zero: then it is dead. *)
Definition counted (st : Store) (b : BlockID) (live : Z) : Prop :=
  0 <= live /\ Z.of_nat (count st b) <= Z.max 1 live /\ (live = 0 -> forall h, referenced st h -> ~ points_to st h b).

Definition wf_store (st : Store) : Prop :=
  (forall h loc, syncedLocators st !! h = Some loc -> is_Some (synced st !! h) /\ cl_BlockID loc <> []) /\
  (forall b rec, blockRecords st !! b = Some rec -> br_BlockID rec = b /\ counted st b (br_LiveChunkCount rec)).

(** Fewer markers, fewer references. *)
Lemma counted_mono st st' b live :
  (forall h loc, syncedLocators st' !! h = Some loc -> cl_BlockID loc = b -> syncedLocators st !! h = Some loc) ->
  (forall h, referenced st' h -> points_to st' h b -> referenced st h) -> counted st b live -> counted st' b live.
Proof.
  intros Hm Hr (H0 & Hc & Hz). split; [exact H0|]. split; [pose proof (count_mono st st' b Hm); lia|].
  intros Hl h Hh Hp. apply (Hz Hl h); [apply Hr; assumption|]. destruct Hp as (loc & Hloc & Hb). exists loc. auto.
Qed.

Record Inv (w : world) : Prop := mkInv {
  inv_refs : forall s st h, w_stores w !! s = Some st -> referenced st h -> resolves w st h;
  inv_wf : forall s st, w_stores w !! s = Some st -> wf_store st;
  inv_blocks : forall b mb, w_remote w !! b = Some mb -> good_block (mb_data mb);
  inv_holds : forall s st h loc mb, w_stores w !! s = Some st -> syncedLocators st !! h = Some loc ->
    w_remote w !! cl_BlockID loc = Some mb -> holds (mb_data mb) h loc;
  inv_owner : forall s s' st st' b, w_stores w !! s = Some st -> w_stores w !! s' = Some st' -> uses st b -> uses st' b -> s = s';
  inv_ids : NoDup (w_ids w) /\ forall id, id ∈ w_ids w -> id_ok id /\ unused w id;
  inv_inflight : forall id up, w_inflight w !! id = Some up -> id_ok id /\ id ∉ w_ids w /\
    (forall s st, w_stores w !! s = Some st -> ~ uses st id) /\
    exists mb, w_remote w !! id = Some mb /\ up_good id (mb_data mb) up;
}.

(** Parts of the state the invariant does not read. *)
Definition same_blocks (w w' : world) : Prop :=
  w_stores w' = w_stores w /\ w_remote w' = w_remote w /\ w_ids w' = w_ids w /\ w_inflight w' = w_inflight w.

Lemma Inv_same w w' : same_blocks w w' -> Inv w -> Inv w'.
Proof.
  intros (Hs & Hr & Hi & Hf) [H1 H2 H3 H4 H5 H6 H7].
  constructor; unfold resolves, unused in *; rewrite ?Hs, ?Hr, ?Hi, ?Hf; assumption.
Qed.

(** ** Changing one store *)

(** What a change of the store of a share has to respect. *)
Record store_step (w : world) (s : string) (st st' : Store) : Prop := mkStoreStep {
  ss_refs : forall h, referenced st' h -> resolves w st' h;
  ss_wf : wf_store st';
  ss_holds : forall h loc mb, syncedLocators st' !! h = Some loc -> w_remote w !! cl_BlockID loc = Some mb -> holds (mb_data mb) h loc;
  ss_uses : forall b, uses st' b -> uses st b \/
    (b ∉ w_ids w /\ w_inflight w !! b = None /\ forall s' st0, w_stores w !! s' = Some st0 -> ~ uses st0 b);
}.

Lemma Inv_set_store w s st st' : Inv w -> w_stores w !! s = Some st -> store_step w s st st' -> Inv (set_store s st' w).
Proof.
  intros [H1 H2 H3 H4 H5 [H6a H6b] H7] Hs [Hr Hwf Hh Hu].
  assert (Hnew : forall s0 st0, (<[s := st']> (w_stores w)) !! s0 = Some st0 -> s0 = s /\ st0 = st' \/ s0 <> s /\ w_stores w !! s0 = Some st0).
  { intros s0 st0. rewrite lookup_insert_Some. intros [[<- <-]|[Hne Hl]]; auto. }
  assert (Hfree : forall b, (forall s0 st0, w_stores w !! s0 = Some st0 -> ~ uses st0 b) -> b ∈ w_ids w \/ is_Some (w_inflight w !! b) ->
            forall s0 st0, (<[s := st']> (w_stores w)) !! s0 = Some st0 -> ~ uses st0 b).
  { intros b Hb Hin s0 st0 Hl. destruct (Hnew _ _ Hl) as [[-> ->]|[_ Hl']]; [|apply (Hb _ _ Hl')].
    intros Huse. destruct (Hu b Huse) as [Huse'|(Hni & Hnf & _)]; [apply (Hb _ _ Hs Huse')|].
    destruct Hin as [Hin|[up Hup]]; [apply (Hni Hin)|congruence]. }
  constructor; cbn [set_store w_stores w_remote w_ids w_inflight].
  - intros s0 st0 h Hl Href. destruct (Hnew _ _ Hl) as [[-> ->]|[_ Hl']]; [apply Hr, Href|apply (H1 _ _ _ Hl' Href)].
  - intros s0 st0 Hl. destruct (Hnew _ _ Hl) as [[-> ->]|[_ Hl']]; [exact Hwf|apply (H2 _ _ Hl')].
  - exact H3.
  - intros s0 st0 h loc mb Hl. destruct (Hnew _ _ Hl) as [[-> ->]|[_ Hl']]; [apply Hh|apply (H4 _ _ _ _ _ Hl')].
  - intros s0 s1 st0 st1 b Hl0 Hl1 Hu0 Hu1.
    destruct (Hnew _ _ Hl0) as [[-> ->]|[Hn0 Hl0']], (Hnew _ _ Hl1) as [[-> ->]|[Hn1 Hl1']]; [reflexivity| | |eauto].
    + destruct (Hu b Hu0) as [Hu0'|(_ & _ & Hno)]; [eauto|]. exfalso. exact (Hno _ _ Hl1' Hu1).
    + destruct (Hu b Hu1) as [Hu1'|(_ & _ & Hno)]; [eauto|]. exfalso. exact (Hno _ _ Hl0' Hu0).
  - split; [exact H6a|]. intros id Hid. destruct (H6b id Hid) as [Hok (Hu1 & Hu2 & Hu3)]. split; [exact Hok|].
    split; [exact Hu1|]. split; [exact Hu2|]. apply Hfree; auto.
  - intros id up Hup. destruct (H7 id up Hup) as (Hok & Hni & Hno & Hmb). split; [exact Hok|]. split; [exact Hni|]. split; [|exact Hmb].
    apply Hfree; eauto.
Qed.

Lemma step_manifest w s st st' : Inv w -> w_stores w !! s = Some st -> manifest_only (fun _ => False) st st' -> store_step w s st st'.
Proof.
  intros HI Hs [(Hsy & Hlo & Hre) Hrefs]. destruct (inv_wf _ HI _ _ Hs) as [Hw1 Hw2]. constructor.
  - intros h Hh. destruct (Hrefs h Hh) as [Hh'|[]]. destruct (inv_refs _ HI _ _ _ Hs Hh') as (loc & Hl & Hrec & Hob).
    exists loc. rewrite Hlo, Hre. auto.
  - split; [rewrite Hsy, Hlo; exact Hw1|]. intros b rec. rewrite Hre. intros Hb. destruct (Hw2 b rec Hb) as [Hbid Hct]. split; [exact Hbid|].
    apply (counted_mono st); [rewrite Hlo; auto| |exact Hct]. intros h Hh _. destruct (Hrefs h Hh) as [|[]]. assumption.
  - intros h loc mb. rewrite Hlo. apply (inv_holds _ HI _ _ _ _ _ Hs).
  - intros b [Hb|(h & loc & Hl & Hb)]; left; [left; rewrite <- Hre; exact Hb|right; exists h, loc; rewrite <- Hlo; auto].
Qed.

(** A block that has been put and not been used yet is ready to be committed. *)
Record ready (w : world) (id : BlockID) (up : upload) : Prop := mkReady {
  rd_id : id_ok id;
  rd_ids : id ∉ w_ids w;
  rd_inflight : w_inflight w !! id = None;
  rd_free : forall s st, w_stores w !! s = Some st -> ~ uses st id;
  rd_object : exists mb, w_remote w !! id = Some mb /\ up_good id (mb_data mb) up;
}.

Lemma standalone_false loc : cl_BlockID loc <> [] -> IsStandalone loc = false.
Proof. intros Hne. unfold IsStandalone. apply bool_decide_eq_false. exact Hne. Qed.

(** The markers of a store after a commit: the chunks of the block point at it,
    the others are as before. *)
Lemma commit_markers w id up now st st' :
  ready w id up -> w_stores w !! up_store up = Some st ->
  DefaultCommitBlock now st (up_rec up) (up_commits up) (up_rows up) = Some st' ->
  blockRecords st' = <[id := up_rec up]> (blockRecords st) /\
  (forall h, (exists c, c ∈ up_commits up /\ bc_Hash c = h /\ synced st' !! h = Some now /\ syncedLocators st' !! h = Some (bc_Remote c) /\ cl_BlockID (bc_Remote c) = id) \/
             (~ hashes_of (up_commits up) h /\ synced st' !! h = synced st !! h /\ syncedLocators st' !! h = syncedLocators st !! h)) /\
  refs_within (hashes_of (up_commits up)) st st'.
Proof.
  intros [Hid _ _ Hfree (mb & Hmb & Hug)] Hs Hc.
  assert (blockRecords st !! id = None) as Hnone by (apply eq_None_not_Some; intros Hr; apply (Hfree _ _ Hs); left; exact Hr).
  destruct (commit_spec now st (up_rec up) (up_commits up) (up_rows up)) as (st1 & Hc1 & Hrec & Hm & Hr); [rewrite (ug_id _ _ _ Hug); exact Hnone|].
  rewrite Hc in Hc1. injection Hc1 as <-. rewrite (ug_id _ _ _ Hug) in Hrec. split; [exact Hrec|]. split.
  - intros h. destruct (Hm h) as [(c & Hin & Hh & Hsy & Hl)|Hold]; [|right; exact Hold]. left. exists c.
    destruct (proj1 (Forall_forall _ _) (ug_commits _ _ _ Hug) c Hin) as [Hb _].
    rewrite standalone_false in Hl by (rewrite Hb; apply Hid). auto 6.
  - intros h Hh. destruct (Hr h Hh) as [|(b & Hb & Hbh)]; [left; assumption|]. right.
    rewrite <- Hbh. apply (proj1 (Forall_forall _ _) (ug_rows _ _ _ Hug) b Hb).
Qed.

Lemma step_commit w id up now st st' :
  Inv w -> ready w id up -> w_stores w !! up_store up = Some st ->
  DefaultCommitBlock now st (up_rec up) (up_commits up) (up_rows up) = Some st' -> store_step w (up_store up) st st'.
Proof.
  intros HI Hrd Hs Hc. destruct (commit_markers _ _ _ _ _ _ Hrd Hs Hc) as (Hrec & Hm & Hrefs).
  destruct Hrd as [Hid Hni Hnf Hfree (mb & Hmb & Hug)]. destruct (inv_wf _ HI _ _ Hs) as [Hw1 Hw2].
  assert (Hold : forall h b, points_to st h b -> b <> id) by (intros h b Hp ->; apply (Hfree _ _ Hs); right; eauto).
  constructor.
  - intros h Hh. destruct (Hm h) as [(c & Hin & Hch & _ & Hl & Hb)|(Hno & _ & Hl)].
    + exists (bc_Remote c). rewrite Hb, Hrec, lookup_insert_eq, Hmb. split; [exact Hl|]. split; eauto.
    + destruct (Hrefs h Hh) as [Hh'|]; [|contradiction].
      destruct (inv_refs _ HI _ _ _ Hs Hh') as (loc & Hl' & Hr' & Ho'). exists loc. rewrite Hl, Hrec.
      rewrite lookup_insert_ne; [auto|]. apply not_eq_sym, (Hold h). exists loc. auto.
  - split.
    + intros h loc. destruct (Hm h) as [(c & Hin & Hch & Hsy & Hl & Hb)|(Hno & Hsy & Hl)]; rewrite Hl, Hsy.
      * intros [= <-]. split; [eauto|]. rewrite Hb. apply Hid.
      * apply Hw1.
    + intros b rec. rewrite Hrec, lookup_insert_Some. intros [[<- <-]|[Hne Hb]].
      * assert (Hin : forall h, points_to st' h id -> hashes_of (up_commits up) h).
        { intros h (loc & Hl & Hb). destruct (Hm h) as [(c & Hin & Hch & _)|(_ & _ & Hl')]; [exists c; auto|].
          exfalso. apply (Hold h id); [exists loc; rewrite <- Hl'; auto|reflexivity]. }
        split; [apply (ug_id _ _ _ Hug)|]. rewrite (ug_count _ _ _ Hug). split; [lia|].
        split; [pose proof (count_commits st' id _ Hin); lia|].
        intros Hz h _ Hp. destruct (Hin h Hp) as (c & Hc' & _). destruct (up_commits up); [apply not_elem_of_nil in Hc'; exact Hc'|discriminate].
      * destruct (Hw2 b rec Hb) as [Hbid Hcount]. split; [exact Hbid|].
        assert (Hsame : forall h loc, syncedLocators st' !! h = Some loc -> cl_BlockID loc = b ->
                  syncedLocators st !! h = Some loc /\ ~ hashes_of (up_commits up) h).
        { intros h loc Hl Hbl. destruct (Hm h) as [(c & _ & _ & _ & Hl' & Hb')|(Hno & _ & Hl')]; [|split; [congruence|exact Hno]].
          rewrite Hl in Hl'. injection Hl' as ->. congruence. }
        apply (counted_mono st); [apply Hsame| |exact Hcount]. intros h Hh (loc & Hl & Hbl).
        destruct (Hrefs h Hh) as [|Hin]; [assumption|]. destruct (Hsame h loc Hl Hbl). contradiction.
  - intros h loc mb' Hl Hmb'. destruct (Hm h) as [(c & Hin & Hch & _ & Hl' & Hb)|(_ & _ & Hl')].
    + rewrite Hl in Hl'. injection Hl' as ->. rewrite Hb, Hmb in Hmb'. injection Hmb' as <-. rewrite <- Hch.
      apply (proj1 (Forall_forall _ _) (ug_commits _ _ _ Hug) c Hin).
    + apply (inv_holds _ HI _ _ _ _ _ Hs); [congruence|exact Hmb'].
  - intros b Hb. destruct (decide (b = id)) as [->|Hne]; [right; auto|]. left. destruct Hb as [Hb|(h & loc & Hl & Hb)].
    + left. rewrite Hrec, lookup_insert_ne in Hb by congruence. exact Hb.
    + right. exists h, loc. destruct (Hm h) as [(c & _ & _ & _ & Hl' & Hb')|(_ & _ & Hl')]; [|split; congruence].
      rewrite Hl in Hl'. injection Hl' as ->. congruence.
Qed.

(** ** Changing the remote store *)

Lemma Inv_forget w id : Inv w -> Inv (forget_upload id w).
Proof.
  intros [H1 H2 H3 H4 H5 [H6a H6b] H7]. constructor; cbn; try assumption.
  - split; [exact H6a|]. intros id' Hid. destruct (H6b id' Hid) as [Hok (Hu1 & Hu2 & Hu3)]. split; [exact Hok|].
    split; [exact Hu1|]. split; [|exact Hu3]. cbn. rewrite lookup_delete_None. auto.
  - intros id' up. rewrite lookup_delete_Some. intros [_ Hup]. apply H7, Hup.
Qed.

Lemma forget_ready w id up : Inv w -> w_inflight w !! id = Some up -> ready (forget_upload id w) id up.
Proof.
  intros HI Hup. destruct (inv_inflight _ HI _ _ Hup) as (Hok & Hni & Hno & Hmb).
  constructor; cbn; try assumption. apply lookup_delete_eq.
Qed.

(** An identifier that has been drawn. *)
Definition drawn (w : world) (id : BlockID) : Prop := id_ok id /\ id ∉ w_ids w /\ unused w id.

Lemma Inv_draw w id w' : Inv w -> new_id w = (Some id, w') -> Inv w' /\ drawn w' id.
Proof.
  intros HI. unfold new_id. destruct (w_ids w) as [|id' ids] eqn:Hi; [discriminate|]. intros [= <- <-].
  destruct HI as [H1 H2 H3 H4 H5 [H6a H6b] H7]. rewrite Hi in H6a, H6b. apply NoDup_cons in H6a as [Hnin Hnd]. split.
  - constructor; cbn; try assumption.
    + split; [exact Hnd|]. intros id Hid. apply (H6b id). rewrite elem_of_cons. auto.
    + intros id up Hup. destruct (H7 id up Hup) as (Hok & Hni & Hrest). split; [exact Hok|]. split; [|exact Hrest].
      intros Hin. apply Hni. rewrite Hi, elem_of_cons. auto.
  - destruct (H6b id') as [Hok Hun]; [rewrite elem_of_cons; auto|]. split; [exact Hok|]. split; [exact Hnin|exact Hun].
Qed.

Lemma Inv_put w id data : Inv w -> drawn w id -> good_block data -> Inv (PutBlock id data w).
Proof.
  intros [H1 H2 H3 H4 H5 [H6a H6b] H7] (Hok & Hni & Hun & Hnf & Hfree) Hg. constructor; cbn.
  - intros s st h Hs Href. destruct (H1 s st h Hs Href) as (loc & Hl & Hr & Ho). exists loc. split; [exact Hl|]. split; [exact Hr|].
    cbn. destruct (decide (cl_BlockID loc = id)) as [->|Hne]; [rewrite lookup_insert_eq; eauto|rewrite lookup_insert_ne; congruence].
  - exact H2.
  - intros b mb. rewrite lookup_insert_Some. intros [[<- <-]|[_ Hb]]; [exact Hg|apply (H3 _ _ Hb)].
  - intros s st h loc mb Hs Hl. rewrite lookup_insert_Some. intros [[Hid _]|[_ Hb]]; [|apply (H4 _ _ _ _ _ Hs Hl Hb)].
    exfalso. apply (Hfree _ _ Hs). right. exists h, loc. auto.
  - exact H5.
  - split; [exact H6a|]. intros id' Hid'. destruct (H6b id' Hid') as [Hok' (Hu1 & Hu2 & Hu3)]. split; [exact Hok'|].
    split; [|auto]. cbn. rewrite lookup_insert_None. split; [exact Hu1|]. intros ->. contradiction.
  - intros id' up Hup. destruct (H7 id' up Hup) as (Hok' & Hni' & Hno' & mb & Hmb & Hug). split; [exact Hok'|]. split; [exact Hni'|].
    split; [exact Hno'|]. exists mb. split; [|exact Hug]. rewrite lookup_insert_ne; [exact Hmb|]. intros ->. congruence.
Qed.

Lemma put_ready w id data up : drawn w id -> up_good id data up -> ready (PutBlock id data w) id up.
Proof.
  intros (Hok & Hni & Hun & Hnf & Hfree) Hug. constructor; cbn; try assumption.
  exists (mkMemBlock data (w_now w)). rewrite lookup_insert_eq. auto.
Qed.

Lemma Inv_inflight_add w id up : Inv w -> ready w id up -> Inv (set_inflight (<[id := up]> (w_inflight w)) w).
Proof.
  intros [H1 H2 H3 H4 H5 [H6a H6b] H7] [Hid Hni Hnf Hfree Hob]. constructor; cbn; try assumption.
  - split; [exact H6a|]. intros id' Hid'. destruct (H6b id' Hid') as [Hok' (Hu1 & Hu2 & Hu3)]. split; [exact Hok'|].
    split; [exact Hu1|]. split; [|exact Hu3]. cbn. rewrite lookup_insert_None. split; [exact Hu2|]. intros ->. contradiction.
  - intros id' up'. rewrite lookup_insert_Some. intros [[<- <-]|[_ Hup]]; [auto|apply (H7 _ _ Hup)].
Qed.

(** An object goes that no reference needs and no upload waits for. *)
Lemma Inv_delete w b : Inv w -> w_inflight w !! b = None ->
  (forall s st h, w_stores w !! s = Some st -> referenced st h -> ~ points_to st h b) -> Inv (DeleteBlock b w).
Proof.
  intros [H1 H2 H3 H4 H5 [H6a H6b] H7] Hnf Hno. constructor; cbn; try assumption.
  - intros s st h Hs Href. destruct (H1 s st h Hs Href) as (loc & Hl & Hr & Ho). exists loc. split; [exact Hl|]. split; [exact Hr|].
    cbn. rewrite lookup_delete_ne; [exact Ho|]. intros Hb. apply (Hno _ _ _ Hs Href). exists loc. auto.
  - intros b' mb. rewrite lookup_delete_Some. intros [_ Hb]. apply (H3 _ _ Hb).
  - intros s st h loc mb Hs Hl. rewrite lookup_delete_Some. intros [_ Hb]. apply (H4 _ _ _ _ _ Hs Hl Hb).
  - split; [exact H6a|]. intros id Hid. destruct (H6b id Hid) as [Hok (Hu1 & Hu2 & Hu3)]. split; [exact Hok|].
    split; [|auto]. cbn. rewrite lookup_delete_None. auto.
  - intros id up Hup. destruct (H7 id up Hup) as (Hok & Hni & Hno' & mb & Hmb & Hug). split; [exact Hok|]. split; [exact Hni|].
    split; [exact Hno'|]. exists mb. split; [|exact Hug]. rewrite lookup_delete_ne; [exact Hmb|]. intros ->. congruence.
Qed.

(** ** What the other threads do *)

(** A set of hashes nobody uploads: during a collection, the hashes found dead. *)
Section rely.
Variable D : ContentHash -> Prop.

Definition allowed (a : action) : Prop :=
  valid_action a /\ match a with AUpload _ chunks => Forall (fun c => ~ D (cc_Hash c)) chunks | _ => True end.

Definition rely (w : world) : Prop := Forall (fun t => Forall allowed (t_env t)) (w_sched w).

Definition clean (w : world) : Prop := forall id up h, w_inflight w !! id = Some up -> hashes_of (up_commits up) h -> ~ D h.

(** A block nobody used so far. *)
Definition new_block (w : world) (b : BlockID) : Prop := is_Some (w_inflight w !! b) \/ b ∈ w_ids w.

Record store_evolves (w : world) (st st' : Store) : Prop := mkStoreEvolves {
  se_records : forall b rec, blockRecords st !! b = Some rec -> blockRecords st' !! b = Some rec;
  se_markers : forall h loc, syncedLocators st' !! h = Some loc -> syncedLocators st !! h = Some loc \/ new_block w (cl_BlockID loc);
  se_dead : forall h, D h -> syncedLocators st' !! h = syncedLocators st !! h;
  se_refs : forall h, D h -> referenced st' h -> referenced st h;
  se_synced : forall h t, synced st' !! h = Some t -> synced st !! h = Some t \/ w_now w < t;
  se_new : forall b, is_Some (blockRecords st' !! b) -> is_Some (blockRecords st !! b) \/ new_block w b;
}.

Record evolve (w w' : world) : Prop := mkEvolve {
  ev_now : w_now w <= w_now w';
  ev_gcs : w_gcs w' = w_gcs w;
  ev_objects : forall b mb, w_remote w !! b = Some mb -> w_remote w' !! b = Some mb;
  ev_absent : forall b, w_remote w !! b = None -> b ∉ w_ids w -> w_remote w' !! b = None;
  ev_ids : forall b, b ∈ w_ids w' -> b ∈ w_ids w;
  ev_inflight : forall b, is_Some (w_inflight w' !! b) -> new_block w b;
  ev_stores : forall s, match w_stores w' !! s, w_stores w !! s with
                        | Some st', Some st => store_evolves w st st'
                        | None, None => True
                        | _, _ => False
                        end;
  ev_fresh : forall b mb, w_remote w' !! b = Some mb -> w_remote w !! b = Some mb \/ w_now w <= mb_lastModified mb;
}.

Lemma store_evolves_refl w st : store_evolves w st st.
Proof. constructor; auto. Qed.

Lemma store_evolves_manifest w st st' : manifest_only (fun _ => False) st st' -> store_evolves w st st'.
Proof.
  intros [(Hsy & Hlo & Hre) Hrefs]. constructor; rewrite ?Hsy, ?Hlo, ?Hre; auto.
  intros h _ Hh. destruct (Hrefs h Hh) as [|[]]. assumption.
Qed.

Lemma evolve_trans w w' w'' : evolve w w' -> evolve w' w'' -> evolve w w''.
Proof.
  intros [N1 G1 O1 A1 I1 F1 S1 Z1] [N2 G2 O2 A2 I2 F2 S2 Z2].
  assert (Hnew : forall b, new_block w' b -> new_block w b) by (intros b [Hb|Hb]; [apply F1, Hb|right; apply I1, Hb]).
  constructor; [lia|congruence|auto| |auto|auto| |].
  3:{ intros b mb Hb. destruct (Z2 b mb Hb) as [Hb'|Hlt]; [apply Z1, Hb'|right; lia]. }
  - intros b Hb Hni. apply A2; [apply A1; assumption|]. intros Hin. apply Hni, I1, Hin.
  - intros s. specialize (S1 s). specialize (S2 s).
    destruct (w_stores w'' !! s) as [st''|], (w_stores w' !! s) as [st'|], (w_stores w !! s) as [st|]; try contradiction; try exact I.
    destruct S1 as [R1 M1 D1 E1 Y1 W1], S2 as [R2 M2 D2 E2 Y2 W2]. constructor; auto.
    + intros h loc Hl. destruct (M2 h loc Hl) as [Hl'|Hb]; [apply M1, Hl'|right; apply Hnew, Hb].
    + intros h Hd. rewrite D2, D1 by exact Hd. reflexivity.
    + intros h t Ht. destruct (Y2 h t Ht) as [Ht'|Ht']; [apply Y1, Ht'|right; lia].
    + intros b Hb. destruct (W2 b Hb) as [Hb'|Hb']; [apply W1, Hb'|right; apply Hnew, Hb'].
Qed.

Lemma evolve_same w w' : same_blocks w w' -> w_gcs w' = w_gcs w -> w_now w <= w_now w' -> evolve w w'.
Proof.
  intros (Hs & Hr & Hi & Hf) Hg Hn. constructor; rewrite ?Hs, ?Hr, ?Hi, ?Hf; auto.
  - intros b Hb. left. exact Hb.
  - intros s. destruct (w_stores w !! s); [apply store_evolves_refl|exact I].
Qed.

Lemma evolve_store w s st st' : w_stores w !! s = Some st -> store_evolves w st st' -> evolve w (set_store s st' w).
Proof.
  intros Hs Hev. constructor; cbn; auto; [lia|intros b Hb; left; exact Hb|].
  intros s'. destruct (decide (s' = s)) as [->|Hne]; [rewrite lookup_insert_eq, Hs; exact Hev|].
  rewrite lookup_insert_ne by congruence. destruct (w_stores w !! s'); [apply store_evolves_refl|exact I].
Qed.

Lemma evolve_forget w id : evolve w (forget_upload id w).
Proof.
  constructor; cbn; auto; [lia| |].
  - intros b [up Hup]. apply lookup_delete_Some in Hup as [_ Hup]. left. eauto.
  - intros s. destruct (w_stores w !! s); [apply store_evolves_refl|exact I].
Qed.

(** The state between the calls of a program. *)
Definition fine (w : world) : Prop := Inv w /\ clean w.

Lemma on_meta_fine w s f :
  fine w -> (forall st st', f (w_now w) st = Some st' -> manifest_only (fun _ => False) st st') ->
  fine (on_meta s f w) /\ evolve w (on_meta s f w) /\ w_sched (on_meta s f w) = w_sched w.
Proof.
  intros [HI Hc] Hf. assert (Hid : fine w /\ evolve w w /\ w_sched w = w_sched w).
  { split; [split; assumption|]. split; [|reflexivity]. apply evolve_same; [repeat split|reflexivity|lia]. }
  unfold on_meta. destruct (w_stores w !! s) as [st|] eqn:Hs; [|exact Hid].
  destruct (f (w_now w) st) as [st'|] eqn:Hst; [|exact Hid]. pose proof (Hf _ _ Hst) as Hm.
  split; [|split; [|reflexivity]].
  - split; [|exact Hc]. eapply Inv_set_store; [exact HI|exact Hs|]. apply step_manifest; assumption.
  - apply (evolve_store _ _ st); [exact Hs|]. apply store_evolves_manifest, Hm.
Qed.

Lemma start_upload_fine w s chunks :
  fine w -> allowed (AUpload s chunks) ->
  fine (start_upload s chunks w) /\ evolve w (start_upload s chunks w) /\ w_sched (start_upload s chunks w) = w_sched w.
Proof.
  intros [HI Hc] [[Hv Hlen] HD]. assert (Hid : fine w /\ evolve w w /\ w_sched w = w_sched w).
  { split; [split; assumption|]. split; [|reflexivity]. apply evolve_same; [repeat split|reflexivity|lia]. }
  unfold start_upload. destruct (_ || _); [exact Hid|].
  destruct (new_id w) as [[id|] w1] eqn:Hnew.
  2:{ unfold new_id in Hnew. destruct (w_ids w); [|discriminate]. injection Hnew as <-. exact Hid. }
  destruct (Inv_draw _ _ _ HI Hnew) as [HI1 Hdr].
  assert (exists ids, w_ids w = id :: ids /\ w1 = set_ids ids w) as (ids & Hids & ->).
  { unfold new_id in Hnew. destruct (w_ids w) as [|id' ids]; [discriminate|]. injection Hnew as <- <-. eauto. }
  assert (Hev : evolve w (set_ids ids w)).
  { constructor; cbn; auto; [lia|intros b Hb; rewrite Hids, elem_of_cons; auto|intros b Hb; left; exact Hb|].
    intros s0. destruct (w_stores w !! s0); [apply store_evolves_refl|exact I]. }
  destruct (prepare_block id chunks) as [[[[data rec] commits] rows]|] eqn:Hp.
  2:{ split; [split; [exact HI1|exact Hc]|]. split; [exact Hev|reflexivity]. }
  destruct (prepare_good s id chunks data rec commits rows (proj1 Hdr) Hv Hlen Hp) as [Hug Hhash].
  split; [|split; [|reflexivity]].
  - split; [apply (Inv_inflight_add _ id); [apply Inv_put; [exact HI1|exact Hdr|apply (ug_block _ _ _ Hug)]|apply put_ready; assumption]|].
    intros id' up h. cbn. rewrite lookup_insert_Some. intros [[<- <-]|[_ Hup]] Hh; [|apply (Hc _ _ _ Hup Hh)].
    apply Hhash in Hh. apply list_elem_of_fmap in Hh as (c & -> & Hin). apply (proj1 (Forall_forall _ _) HD c Hin).
  - assert (id ∈ w_ids w) as Hin by (rewrite Hids, elem_of_cons; auto).
    destruct (proj2 (inv_ids _ HI) id Hin) as [_ (Hun & Hnf & _)].
    constructor; cbn; auto.
    + lia.
    + intros b mb Hb. rewrite lookup_insert_ne; [exact Hb|]. intros ->. congruence.
    + intros b Hb Hni. rewrite lookup_insert_None. split; [exact Hb|]. intros ->. contradiction.
    + intros b Hb. rewrite Hids, elem_of_cons. auto.
    + intros b [up Hup]. apply lookup_insert_Some in Hup as [[<- _]|[_ Hup]]; [right; exact Hin|left; eauto].
    + intros s0. destruct (w_stores w !! s0); [apply store_evolves_refl|exact I].
    + intros b mb. rewrite lookup_insert_Some. intros [[_ <-]|[_ Hb]]; [right; cbn; lia|auto].
Qed.

(** [before] is when the clock stood before it was advanced. *)
Lemma commit_upload_fine w0 w id :
  w = tick 1 w0 -> fine w0 -> fine w ->
  fine (commit_upload id w) /\ evolve w0 (commit_upload id w) /\ w_sched (commit_upload id w) = w_sched w.
Proof.
  intros Hw _ [HI Hc].
  assert (Hev0 : evolve w0 w) by (subst w; apply evolve_same; [repeat split|reflexivity|cbn; lia]).
  assert (Hid : fine w /\ evolve w0 w /\ w_sched w = w_sched w) by (split; [split; assumption|split; [exact Hev0|reflexivity]]).
  unfold commit_upload. destruct (w_inflight w !! id) as [up|] eqn:Hup; [|exact Hid].
  destruct (w_stores w !! up_store up) as [st|] eqn:Hs; [|exact Hid].
  destruct (DefaultCommitBlock _ _ _ _ _) as [st'|] eqn:Hd; [|exact Hid].
  pose proof (forget_ready _ _ _ HI Hup) as Hrd.
  destruct (commit_markers _ _ _ _ _ _ Hrd Hs Hd) as (Hrec & Hm & Hrefs).
  assert (Hfree : forall h, hashes_of (up_commits up) h -> ~ D h) by (intros h; apply (Hc _ _ _ Hup)).
  split; [|split; [|reflexivity]].
  - split.
    + change (Inv (set_store (up_store up) st' (forget_upload id w))).
      eapply Inv_set_store; [apply Inv_forget, HI|exact Hs|]. eapply step_commit; [apply Inv_forget, HI|exact Hrd|exact Hs|exact Hd].
    + intros id' up' h. cbn. rewrite lookup_delete_Some. intros [_ Hup']. apply (Hc _ _ _ Hup').
  - apply (evolve_trans _ (set_store (up_store up) st' w0)).
    + subst w. cbn in Hs, Hd. apply (evolve_store _ _ st); [exact Hs|]. constructor.
      * intros b rec Hb. rewrite Hrec, lookup_insert_ne; [exact Hb|]. intros <-.
        apply (rd_free _ _ _ Hrd (up_store up) st); [exact Hs|]. left. eauto.
      * intros h loc Hl. destruct (Hm h) as [(c & _ & _ & _ & Hl' & Hb)|(_ & _ & Hl')]; [|left; congruence].
        right. left. rewrite Hl in Hl'. injection Hl' as ->. rewrite Hb. eauto.
      * intros h Hd'. destruct (Hm h) as [(c & Hin & Hh & _)|(_ & _ & Hl')]; [|exact Hl'].
        exfalso. apply (Hfree h); [exists c; auto|exact Hd'].
      * intros h Hd' Hh. destruct (Hrefs h Hh) as [|Hin]; [assumption|]. exfalso. apply (Hfree h Hin Hd').
      * intros h t Ht. destruct (Hm h) as [(c & _ & _ & Hsy & _)|(_ & Hsy & _)]; rewrite Hsy in Ht; [|left; exact Ht].
        right. injection Ht as <-. cbn. lia.
      * intros b. rewrite Hrec, lookup_insert_is_Some'. intros [<-|Hb]; [right; left; cbn in Hup; eauto|auto].
    + subst w. constructor; cbn; auto; [lia| |].
      * intros b [up' Hb]. apply lookup_delete_Some in Hb as [_ Hb]. left. eauto.
      * intros s0. destruct (<[up_store up := st']> (w_stores w0) !! s0); [apply store_evolves_refl|exact I].
Qed.

Lemma tick_fine d w : fine w -> fine (tick d w).
Proof. intros [HI Hc]. split; [eapply Inv_same; [|exact HI]; repeat split|exact Hc]. Qed.

Lemma manifest_refl st : manifest_only (fun _ => False) st st.
Proof. split; [apply same_markers_refl|apply refs_within_refl]. Qed.

Lemma act_fine a w : fine w -> allowed a ->
  fine (act a w) /\ evolve w (act a w) /\ w_sched (act a w) = w_sched w.
Proof.
  intros Hf Ha. unfold act.
  assert (Hmeta : forall d s f, (forall now st st', f now st = Some st' -> manifest_only (fun _ => False) st st') ->
    fine (on_meta s f (tick d w)) /\ evolve w (on_meta s f (tick d w)) /\ w_sched (on_meta s f (tick d w)) = w_sched w).
  { intros d s f Hm. destruct (on_meta_fine (tick d w) s f (tick_fine d w Hf) (fun st st' => Hm _ st st')) as (H1 & H2 & H3).
    split; [exact H1|]. split; [|exact H3]. eapply evolve_trans; [|exact H2]. apply evolve_same; [repeat split|reflexivity|cbn; lia]. }
  destruct a as [s chunks|id|id|s p lo hi offs|s key p|s key|s key|s id|s id|s src dst p|d]; cbn [perform].
  - destruct (start_upload_fine (tick 1 w) s chunks (tick_fine 1 w Hf) Ha) as (H1 & H2 & H3). split; [exact H1|]. split; [|exact H3].
    eapply evolve_trans; [|exact H2]. apply evolve_same; [repeat split|reflexivity|cbn; lia].
  - destruct (commit_upload_fine w (tick 1 w) id eq_refl Hf (tick_fine 1 w Hf)) as (H1 & H2 & H3). auto.
  - split; [|split; [|reflexivity]].
    + destruct (tick_fine 1 w Hf) as [HI Hc]. split; [apply Inv_forget, HI|].
      intros id' up h. cbn. rewrite lookup_delete_Some. intros [_ Hup]. apply (Hc _ _ _ Hup).
    + eapply evolve_trans; [|apply evolve_forget]. apply evolve_same; [repeat split|reflexivity|cbn; lia].
  - apply Hmeta. intros now st st'. apply reap_only.
  - apply Hmeta. intros now st st' [= <-]. apply set_files_only. intros key' fd r. rewrite lookup_insert_Some.
    intros [[<- <-]|[Hne Hk]] Hn Hr; [apply not_elem_of_nil in Hr; contradiction|].
    rewrite lookup_insert_ne in Hn by congruence. left. exists fd, r. rewrite linked_spec. auto.
  - apply Hmeta. intros now st st' [= <-]. apply set_files_only. intros key' fd r Hk Hn Hr.
    destruct (decide (key' = key)) as [->|Hne]; [rewrite lookup_insert_eq in Hn; contradiction|].
    rewrite lookup_insert_ne in Hn by congruence. left. exists fd, r. rewrite linked_spec. auto.
  - apply Hmeta. intros now st st' [= <-]. apply set_files_only. intros key' fd r. rewrite lookup_delete_Some.
    intros [_ Hk] Hn Hr. left. exists fd, r. rewrite linked_spec. auto.
  - apply Hmeta. intros now st st'. apply delete_row_only.
  - apply Hmeta. intros now st st' [= <-]. apply release_row_only.
  - apply Hmeta. intros now st st'. apply clone_only.
  - split; [apply tick_fine, Hf|]. split; [|reflexivity]. apply evolve_same; [repeat split|reflexivity|cbn; lia].
Qed.

Lemma acts_fine l : forall w, fine w -> Forall allowed l ->
  fine (acts l w) /\ evolve w (acts l w) /\ w_sched (acts l w) = w_sched w.
Proof.
  induction l as [|a l IH]; intros w Hf Hl; cbn [acts fold_left].
  { split; [exact Hf|]. split; [|reflexivity]. apply evolve_same; [repeat split|reflexivity|lia]. }
  apply Forall_cons in Hl as [Ha Hl]. destruct (act_fine a w Hf Ha) as (H1 & H2 & H3).
  destruct (IH (act a w) H1 Hl) as (H4 & H5 & H6). split; [exact H4|]. split; [eapply evolve_trans; eassumption|].
  etransitivity; [exact H6|exact H3].
Qed.

(** The state in which a call finds the server. *)
Definition at_call (w : world) : world := tick 1 (acts (t_env (next_turn w).1) (next_turn w).2).

Lemma at_call_fine w : fine w -> rely w -> fine (at_call w) /\ rely (at_call w) /\ evolve w (at_call w).
Proof.
  intros Hf Hr. unfold at_call, next_turn.
  assert (Hend : forall l w1, same_blocks w w1 -> w_gcs w1 = w_gcs w -> w_now w1 = w_now w -> w_inflight w1 = w_inflight w -> rely w1 -> Forall allowed l ->
    fine (tick 1 (acts l w1)) /\ rely (tick 1 (acts l w1)) /\ evolve w (tick 1 (acts l w1))).
  { intros l w1 Hsame Hg Hn Hfl Hr1 Hl.
    assert (Hf1 : fine w1).
    { destruct Hf as [HI Hc]. split; [eapply Inv_same; eassumption|]. intros id up h. rewrite Hfl. apply Hc. }
    destruct (acts_fine l w1 Hf1 Hl) as (H1 & H2 & H3). split; [apply tick_fine, H1|]. split; [unfold rely in *; cbn; rewrite H3; exact Hr1|].
    eapply evolve_trans; [apply evolve_same; [exact Hsame|exact Hg|lia]|].
    eapply evolve_trans; [exact H2|]. apply evolve_same; [repeat split|reflexivity|cbn; lia]. }
  destruct (w_sched w) as [|t sched] eqn:Hs; cbn [fst snd t_env].
  - apply Hend; [repeat split|reflexivity|reflexivity|reflexivity|exact Hr|constructor].
  - unfold rely in Hr. rewrite Hs in Hr. apply Forall_cons in Hr as [Ht Hr]. apply Hend; try reflexivity; [repeat split|exact Hr|exact Ht].
Qed.
End rely.
End inv.
