(* ===== verification/BlockSafe.v ===== *)
(** * Maintenance keeps the invariant of remote blocks

    A program logic for the calls of [BlockWorld]: a triple holds whatever the
    other threads do before each call and however the calls end.  With it, every
    maintenance program of [BlockMaint] keeps the invariant of [BlockInv]. *)

From S2P Require Import Prelude.
From S2P Require Import HoleMap.
From S2P Require Import JournalCarve.
From S2P Require Import BlockCodec.
From S2P Require Import BlockMeta.
From S2P Require Import BlockWorld.
From S2P Require Import BlockMaint.
From S2P Require Import BlockInv.

Section safe.
Context `{DL : DeploymentLaws}.

Section triples.
(** The hashes found dead, and the stores they are dead in. *)
Variable D : ContentHash -> Prop.
Variable S : list string.

Definition unref (w : world) : Prop :=
  forall s st h, s ∈ S -> w_stores w !! s = Some st -> D h -> ~ referenced st h.

Definition GOOD (w : world) : Prop := fine D w /\ rely D w /\ unref w.

Definition triple {A} (P : world -> Prop) (m : M A) (Q : A -> world -> Prop) : Prop :=
  forall w, GOOD w -> P w -> GOOD (m w).2 /\ forall a, (m w).1 = Ret a -> Q a (m w).2.

(** What the other threads cannot make false. *)
Definition stable (P : world -> Prop) : Prop := forall w w', GOOD w -> P w -> evolve D w w' -> P w'.

Lemma stable_true : stable (fun _ => True).
Proof. intros w w' _ _ _. exact I. Qed.

Lemma stable_and P Q : stable P -> stable Q -> stable (fun w => P w /\ Q w).
Proof. intros HP HQ w w' Hg [Hp Hq] He. split; [eapply HP|eapply HQ]; eassumption. Qed.

(** *** Rules *)

Lemma triple_ret {A} P (a : A) Q : (forall w, GOOD w -> P w -> Q a w) -> triple P (ret a) Q.
Proof. intros Hq w Hg Hp. split; [exact Hg|]. cbn. intros a' [= <-]. auto. Qed.

Lemma triple_fail {A} P (Q : A -> world -> Prop) : triple P fail Q.
Proof. intros w Hg Hp. split; [exact Hg|]. cbn. intros a [=]. Qed.

Lemma triple_bind {A B} P (m : M A) (k : A -> M B) R Q :
  triple P m R -> (forall a, triple (R a) (k a) Q) -> triple P (bind m k) Q.
Proof.
  intros Hm Hk w Hg Hp. destruct (Hm w Hg Hp) as [Hg1 Hr]. unfold bind.
  destruct (m w) as [[a| |] w1]; cbn [fst snd] in *; [apply (Hk a w1 Hg1), Hr; reflexivity| |];
    (split; [exact Hg1|intros b [=]]).
Qed.

Lemma triple_weaken {A} (P P' : world -> Prop) (m : M A) (Q Q' : A -> world -> Prop) :
  (forall w, GOOD w -> P w -> P' w) -> triple P' m Q' -> (forall a w, GOOD w -> Q' a w -> Q a w) -> triple P m Q.
Proof. intros Hp Hm Hq w Hg Hw. destruct (Hm w Hg (Hp w Hg Hw)) as [Hg1 Hr]. split; [exact Hg1|]. intros a Ha. apply Hq; auto. Qed.

Lemma triple_pre {A} (P P' : world -> Prop) (m : M A) Q :
  (forall w, GOOD w -> P w -> P' w) -> triple P' m Q -> triple P m Q.
Proof. intros Hp Hm. eapply triple_weaken; [exact Hp|exact Hm|auto]. Qed.

Lemma triple_try {A} P (m : M A) Q : triple P m Q -> triple P (try m) (fun o w => match o with Some a => Q a w | None => True end).
Proof.
  intros Hm w Hg Hp. destruct (Hm w Hg Hp) as [Hg1 Hr]. unfold try.
  destruct (m w) as [[a| |] w1]; cbn [fst snd] in *; (split; [exact Hg1|]); intros o [=]; subst o; auto.
Qed.

Lemma triple_gets {A} P (f : world -> A) Q : (forall w, GOOD w -> P w -> Q (f w) w) -> triple P (gets f) Q.
Proof. intros Hq w Hg Hp. split; [exact Hg|]. cbn. intros a [= <-]. auto. Qed.

Lemma triple_modify P f Q : (forall w, GOOD w -> P w -> GOOD (f w) /\ Q tt (f w)) -> triple P (modify f) Q.
Proof. intros Hq w Hg Hp. destruct (Hq w Hg Hp) as [Hg1 Hr]. split; [exact Hg1|]. cbn. intros [] _. exact Hr. Qed.

Lemma triple_forM {A B} (I : B -> world -> Prop) (l : list A) (f : B -> A -> M B) :
  (forall acc x, x ∈ l -> triple (I acc) (f acc x) I) -> forall acc, triple (I acc) (forM l acc f) I.
Proof.
  induction l as [|x l IH]; intros Hf acc; cbn [forM]; [apply triple_ret; auto|].
  eapply triple_bind; [apply Hf; left|]. intros acc'. apply IH. intros acc'' y Hy. apply Hf. right. exact Hy.
Qed.

Lemma triple_if {A} (b : bool) P (m1 m2 : M A) Q :
  (b = true -> triple P m1 Q) -> (b = false -> triple P m2 Q) -> triple P (if b then m1 else m2) Q.
Proof. destruct b; auto. Qed.

Lemma GOOD_evolve w w' : GOOD w -> fine D w' -> rely D w' -> evolve D w w' -> GOOD w'.
Proof.
  intros (Hf & Hr & Hu) Hf' Hr' He. split; [exact Hf'|]. split; [exact Hr'|]. intros s st h Hin Hs Hd Href.
  pose proof (ev_stores _ _ _ He s) as Hst. rewrite Hs in Hst. destruct (w_stores w !! s) as [st0|] eqn:Hs0; [|contradiction].
  apply (Hu s st0 h Hin Hs0 Hd). apply (se_refs _ _ _ _ Hst h Hd Href).
Qed.

Lemma GOOD_at_call w : GOOD w -> GOOD (at_call w) /\ evolve D w (at_call w).
Proof.
  intros Hg. destruct Hg as (Hf & Hr & Hu). destruct (at_call_fine D w Hf Hr) as (Hf1 & Hr1 & He). split; [|exact He].
  apply (GOOD_evolve w); [split; [|split]| | |]; assumption.
Qed.

Lemma triple_call {A} P (f : world -> option A * world) Q :
  stable P -> (forall w, GOOD w -> P w -> GOOD (f w).2 /\ forall a, (f w).1 = Some a -> Q a (f w).2) -> triple P (call f) Q.
Proof.
  intros Hst Hf w Hg Hp. destruct (GOOD_at_call w Hg) as [Hg1 He]. pose proof (Hst w _ Hg Hp He) as Hp1.
  destruct (Hf (at_call w) Hg1 Hp1) as [Hg2 Hq]. unfold call, at_call in *. destruct (next_turn w) as [t w1]. cbn [fst snd] in *.
  destruct (t_fate t); cbn [fst snd].
  - destruct (f _) as [[a|] w2]; cbn [fst snd] in *; (split; [exact Hg2|]); [intros a' [= <-]; auto|intros a' [=]].
  - split; [exact Hg1|intros a [=]].
  - split; [exact Hg2|intros a [=]].
  - split; [exact Hg1|intros a [=]].
Qed.

Lemma triple_read {A} P (f : world -> option A) Q :
  stable P -> (forall w a, GOOD w -> P w -> f w = Some a -> Q a w) -> triple P (call (fun w => (f w, w))) Q.
Proof. intros Hst Hf. apply triple_call; [exact Hst|]. intros w Hg Hp. split; [exact Hg|]. cbn. intros a Ha. eapply Hf; eassumption. Qed.

Lemma triple_meta_read {A} P s (f : Store -> A) Q :
  stable P -> (forall w st, GOOD w -> P w -> w_stores w !! s = Some st -> Q (f st) w) -> triple P (meta_read s f) Q.
Proof.
  intros Hst Hf. apply (triple_read P (fun w => option_map f (w_stores w !! s))); [exact Hst|].
  intros w a Hg Hp Ha. destruct (w_stores w !! s) as [st|] eqn:Hs; [|discriminate]. injection Ha as <-. eapply Hf; eassumption.
Qed.

Lemma triple_meta_write {A} P s (f : Z -> Store -> option (A * Store)) Q :
  stable P -> (forall w st a st', GOOD w -> P w -> w_stores w !! s = Some st -> f (w_now w) st = Some (a, st') ->
                 GOOD (set_store s st' w) /\ Q a (set_store s st' w)) -> triple P (meta_write s f) Q.
Proof.
  intros Hst Hf. apply triple_call; [exact Hst|]. intros w Hg Hp.
  destruct (w_stores w !! s) as [st|] eqn:Hs; [|split; [exact Hg|intros a [=]]].
  destruct (f (w_now w) st) as [[a st']|] eqn:He; [|split; [exact Hg|intros a [=]]].
  destruct (Hf w st a st' Hg Hp Hs He) as [Hg1 Hq]. split; [exact Hg1|]. cbn. intros a' [= <-]. exact Hq.
Qed.

Lemma triple_remote_write P f Q :
  stable P -> (forall w, GOOD w -> P w -> GOOD (f w) /\ Q tt (f w)) -> triple P (remote_write f) Q.
Proof.
  intros Hst Hf. apply triple_call; [exact Hst|]. intros w Hg Hp. destruct (Hf w Hg Hp) as [Hg1 Hq].
  split; [exact Hg1|]. intros [] _. exact Hq.
Qed.

Lemma triple_ctx_err P : stable P -> triple P ctx_err (fun _ => P).
Proof. intros Hst. apply (triple_read P (fun _ => Some tt)); [exact Hst|]. auto. Qed.

(** Counters and the live set are not part of what is kept. *)
Lemma GOOD_same w w' : same_blocks w w' -> w_sched w' = w_sched w -> GOOD w -> GOOD w'.
Proof.
  intros Hsame Hsch ((HI & Hc) & Hr & Hu). pose proof Hsame as (Hs & _ & _ & Hf). split; [split|split].
  - eapply Inv_same; eassumption.
  - intros id up h. rewrite Hf. apply Hc.
  - unfold rely. rewrite Hsch. exact Hr.
  - intros s st h. rewrite Hs. apply Hu.
Qed.

Lemma triple_tally (P : world -> Prop) f : (forall w, P w -> P (set_tally (f w) w)) ->
  triple P (modify (fun w => set_tally (f w) w)) (fun _ => P).
Proof. intros Hp. apply triple_modify. intros w Hg Hw. split; [|auto]. eapply GOOD_same; [| |exact Hg]; [repeat split|reflexivity]. Qed.

Lemma triple_mbind {A B} P (m : M A) (k : A -> M B) R Q :
  triple P m R -> (forall a, triple (R a) (k a) Q) -> triple P (mbind k m) Q.
Proof. apply triple_bind. Qed.

(** *** Steps of the stores *)

Lemma GOOD_set_store w s st st' :
  GOOD w -> w_stores w !! s = Some st -> store_step w s st st' -> refs_within (fun _ => False) st st' -> GOOD (set_store s st' w).
Proof.
  intros ((HI & Hc) & Hr & Hu) Hs Hstep Hrefs. split; [split; [eapply Inv_set_store; eassumption|exact Hc]|]. split; [exact Hr|].
  intros s0 st0 h Hin. cbn. rewrite lookup_insert_Some. intros [[<- <-]|[_ Hs0]] Hd Href; [|apply (Hu _ _ _ Hin Hs0 Hd Href)].
  destruct (Hrefs h Href) as [Href'|[]]. apply (Hu _ _ _ Hin Hs Hd Href').
Qed.

Lemma step_unmark w s st h : Inv w -> w_stores w !! s = Some st -> ~ referenced st h -> store_step w s st (DeleteSynced st h).
Proof.
  intros HI Hs Hno. destruct (inv_wf _ HI _ _ Hs) as [Hw1 Hw2].
  assert (Hsub : forall h' loc, syncedLocators (DeleteSynced st h) !! h' = Some loc -> syncedLocators st !! h' = Some loc /\ h' <> h).
  { intros h' loc. cbn. rewrite lookup_delete_Some. intros [Hne Hl]. auto. }
  constructor.
  - intros h' Href. change (referenced st h') in Href. destruct (inv_refs _ HI _ _ _ Hs Href) as (loc & Hl & Hr & Ho).
    exists loc. split; [|split; assumption]. cbn. rewrite lookup_delete_ne; [exact Hl|]. intros <-. contradiction.
  - split.
    + intros h' loc Hl. destruct (Hsub _ _ Hl) as [Hl' Hne]. destruct (Hw1 _ _ Hl') as [Hsy Hb]. split; [|exact Hb].
      cbn. rewrite lookup_delete_ne by congruence. exact Hsy.
    + intros b rec Hb. destruct (Hw2 b rec Hb) as [Hbid Hct]. split; [exact Hbid|].
      apply (counted_mono st); [intros h' loc Hl _; apply (Hsub _ _ Hl)|auto|exact Hct].
  - intros h' loc mb Hl. apply (inv_holds _ HI _ _ _ _ _ Hs). apply (Hsub _ _ Hl).
  - intros b [Hb|(h' & loc & Hl & Hb)]; left; [left; exact Hb|right; exists h', loc; split; [apply (Hsub _ _ Hl)|exact Hb]].
Qed.

Lemma step_drop_record w s st b : Inv w -> w_stores w !! s = Some st ->
  (forall h, referenced st h -> ~ points_to st h b) -> store_step w s st (DeleteBlockRecord st b).
Proof.
  intros HI Hs Hno. destruct (inv_wf _ HI _ _ Hs) as [Hw1 Hw2]. constructor.
  - intros h Href. change (referenced st h) in Href. destruct (inv_refs _ HI _ _ _ Hs Href) as (loc & Hl & Hr & Ho).
    exists loc. split; [exact Hl|]. split; [|exact Ho]. cbn. rewrite lookup_delete_ne; [exact Hr|].
    intros Hb. apply (Hno h Href). exists loc. auto.
  - split; [exact Hw1|]. intros b' rec. cbn. rewrite lookup_delete_Some. intros [_ Hb]. apply (Hw2 _ _ Hb).
  - intros h loc mb. apply (inv_holds _ HI _ _ _ _ _ Hs).
  - intros b' [Hb|Hb]; left; [left|right; exact Hb]. cbn in Hb. destruct Hb as [rec Hb]. apply lookup_delete_Some in Hb as [_ Hb]. eauto.
Qed.

Lemma step_recount w s st b rec n : Inv w -> w_stores w !! s = Some st -> blockRecords st !! b = Some rec ->
  counted st b n -> store_step w s st (set_records st (<[b := with_count rec n]> (blockRecords st))).
Proof.
  intros HI Hs Hb Hct. destruct (inv_wf _ HI _ _ Hs) as [Hw1 Hw2].
  assert (Hrec : forall b', is_Some (<[b := with_count rec n]> (blockRecords st) !! b') <-> is_Some (blockRecords st !! b')).
  { intros b'. rewrite lookup_insert_is_Some'. split; [intros [<-|]; eauto|auto]. }
  constructor.
  - intros h Href. change (referenced st h) in Href. destruct (inv_refs _ HI _ _ _ Hs Href) as (loc & Hl & Hr & Ho).
    exists loc. split; [exact Hl|]. split; [|exact Ho]. cbn. apply Hrec, Hr.
  - split; [exact Hw1|]. intros b' rec'. cbn. rewrite lookup_insert_Some. intros [[<- <-]|[_ Hb']]; [|apply (Hw2 _ _ Hb')].
    split; [apply (Hw2 _ _ Hb)|exact Hct].
  - intros h loc mb. apply (inv_holds _ HI _ _ _ _ _ Hs).
  - intros b' [Hb'|Hb']; left; [left; apply Hrec, Hb'|right; exact Hb'].
Qed.

(** A block with a record is none of the new ones. *)
Lemma recorded_not_new w s st b : Inv w -> w_stores w !! s = Some st -> uses st b -> ~ new_block w b.
Proof.
  intros HI Hs Hu [[up Hup]|Hin].
  - destruct (inv_inflight _ HI _ _ Hup) as (_ & _ & Hno & _). apply (Hno _ _ Hs Hu).
  - destruct (proj2 (inv_ids _ HI) b Hin) as [_ (_ & _ & Hno)]. apply (Hno _ _ Hs Hu).
Qed.

Lemma evolve_store_at w w' s st : evolve D w w' -> w_stores w !! s = Some st -> exists st', w_stores w' !! s = Some st' /\ store_evolves D w st st'.
Proof.
  intros He Hs. pose proof (ev_stores _ _ _ He s) as Hst. rewrite Hs in Hst.
  destruct (w_stores w' !! s) as [st'|]; [|contradiction]. eauto.
Qed.

Lemma evolve_store_from w w' s st' : evolve D w w' -> w_stores w' !! s = Some st' -> exists st, w_stores w !! s = Some st /\ store_evolves D w st st'.
Proof.
  intros He Hs. pose proof (ev_stores _ _ _ He s) as Hst. rewrite Hs in Hst.
  destruct (w_stores w !! s) as [st|]; [|contradiction]. eauto.
Qed.

(** The markers pointing at a block in use are among those that did. *)
Lemma evolve_pointing w s st st' b :
  Inv w -> w_stores w !! s = Some st -> uses st b -> store_evolves D w st st' ->
  forall h loc, syncedLocators st' !! h = Some loc -> cl_BlockID loc = b -> syncedLocators st !! h = Some loc.
Proof.
  intros HI Hs Hu Hev h loc Hl Hb. destruct (se_markers _ _ _ _ Hev h loc Hl) as [|Hnew]; [assumption|].
  exfalso. rewrite Hb in Hnew. apply (recorded_not_new _ _ _ _ HI Hs Hu Hnew).
Qed.

(** *** Nobody points at a block *)

Definition abandoned (b : BlockID) (w : world) : Prop :=
  ~ new_block w b /\ forall s st h, w_stores w !! s = Some st -> referenced st h -> ~ points_to st h b.

(** Only the markers of [R] point at it. *)
Definition only (R : string -> ContentHash -> Prop) (b : BlockID) (w : world) : Prop :=
  ~ new_block w b /\ forall s st h, w_stores w !! s = Some st -> points_to st h b -> R s h.

Lemma stable_only R b : stable (only R b).
Proof.
  intros w w' Hg [Hnew Honly] He. split.
  - intros [Hf|Hin]; [apply Hnew, (ev_inflight _ _ _ He), Hf|apply Hnew; right; apply (ev_ids _ _ _ He), Hin].
  - intros s st' h Hs' (loc & Hl & Hb). destruct (evolve_store_from _ _ _ _ He Hs') as (st & Hs & Hev).
    destruct (se_markers _ _ _ _ Hev h loc Hl) as [Hl'|Hn]; [|rewrite Hb in Hn; contradiction].
    apply (Honly s st h Hs). exists loc. auto.
Qed.

(** The markers of [R] are dead. *)
Definition dead (R : string -> ContentHash -> Prop) : Prop := forall s h, R s h -> s ∈ S /\ D h.

Lemma only_abandoned R b w : GOOD w -> dead R -> only R b w -> abandoned b w.
Proof.
  intros (_ & _ & Hu) HR [Hnew Honly]. split; [exact Hnew|]. intros s st h Hs Href Hp.
  destruct (HR s h (Honly s st h Hs Hp)) as [Hin Hd]. apply (Hu _ _ _ Hin Hs Hd Href).
Qed.

Lemma only_set_store R b w s st st' :
  w_stores w !! s = Some st -> (forall h, points_to st' h b -> points_to st h b) -> only R b w -> only R b (set_store s st' w).
Proof.
  intros Hs Hp [Hnew Honly]. split; [exact Hnew|]. intros s' st0 h. cbn. rewrite lookup_insert_Some.
  intros [[<- <-]|[_ Hs']] Hpt; [apply (Honly _ _ _ Hs), Hp, Hpt|apply (Honly _ _ _ Hs' Hpt)].
Qed.

Lemma GOOD_delete_block b w : GOOD w -> abandoned b w -> GOOD (DeleteBlock b w).
Proof.
  intros ((HI & Hc) & Hr & Hu) [Hnew Hab]. split; [split; [|exact Hc]|split; [exact Hr|exact Hu]].
  apply Inv_delete; [exact HI| |exact Hab]. apply eq_None_not_Some. intros Hf. apply Hnew. left. exact Hf.
Qed.

Lemma GOOD_delete_record s b w st : GOOD w -> w_stores w !! s = Some st -> abandoned b w -> GOOD (set_store s (DeleteBlockRecord st b) w).
Proof.
  intros Hg Hs [_ Hab]. apply (GOOD_set_store w s st); [exact Hg|exact Hs| |intros h Hh; left; exact Hh].
  apply step_drop_record; [apply Hg|exact Hs|]. intros h. apply (Hab s st h Hs).
Qed.

Lemma GOOD_unmark s h w st : GOOD w -> s ∈ S -> D h -> w_stores w !! s = Some st -> GOOD (set_store s (DeleteSynced st h) w).
Proof.
  intros Hg Hin Hd Hs. apply (GOOD_set_store w s st); [exact Hg|exact Hs| |intros h' Hh; left; exact Hh].
  apply step_unmark; [apply Hg|exact Hs|]. destruct Hg as (_ & _ & Hu). apply (Hu _ _ _ Hin Hs Hd).
Qed.

(** *** Reclaiming a dead chunk *)

Definition marked_at (s : string) (h : ContentHash) (loc : ChunkLocator) (w : world) : Prop :=
  exists st, w_stores w !! s = Some st /\ syncedLocators st !! h = Some loc.

Definition recorded_at (s : string) (b : BlockID) (rec : BlockRecord) (w : world) : Prop :=
  exists st, w_stores w !! s = Some st /\ blockRecords st !! b = Some rec.

(** The count of a block has one more than its markers. *)
Definition overcounted (s : string) (b : BlockID) (rec : BlockRecord) (w : world) : Prop :=
  exists st, w_stores w !! s = Some st /\ blockRecords st !! b = Some rec /\ Z.of_nat (count st b) + 1 <= br_LiveChunkCount rec.

Lemma stable_marked_at s h loc : D h -> stable (marked_at s h loc).
Proof.
  intros Hd w w' _ (st & Hs & Hl) He. destruct (evolve_store_at _ _ _ _ He Hs) as (st' & Hs' & Hev).
  exists st'. rewrite (se_dead _ _ _ _ Hev h Hd). auto.
Qed.

Lemma stable_recorded_at s b rec : stable (recorded_at s b rec).
Proof.
  intros w w' _ (st & Hs & Hl) He. destruct (evolve_store_at _ _ _ _ He Hs) as (st' & Hs' & Hev).
  exists st'. split; [exact Hs'|]. apply (se_records _ _ _ _ Hev _ _ Hl).
Qed.

Lemma stable_overcounted s b rec : stable (overcounted s b rec).
Proof.
  intros w w' Hg (st & Hs & Hb & Hc) He. destruct (evolve_store_at _ _ _ _ He Hs) as (st' & Hs' & Hev).
  exists st'. split; [exact Hs'|]. split; [apply (se_records _ _ _ _ Hev _ _ Hb)|].
  enough (count st' b <= count st b)%nat by lia. apply count_mono. intros h loc. apply (evolve_pointing w s); [apply Hg|exact Hs|left; eauto|exact Hev].
Qed.

Definition just (s : string) (h : ContentHash) (s' : string) (h' : ContentHash) : Prop := s' = s /\ h' = h.

Lemma dead_just s h : s ∈ S -> D h -> dead (just s h).
Proof. intros Hin Hd s' h' [-> ->]. auto. Qed.

Lemma last_only s h b loc rec w : GOOD w -> br_LiveChunkCount rec <= 1 -> cl_BlockID loc = b ->
  marked_at s h loc w -> recorded_at s b rec w -> only (just s h) b w.
Proof.
  intros Hg Hlast Hb (st & Hs & Hl) (st2 & Hs2 & Hr). rewrite Hs in Hs2. injection Hs2 as <-.
  pose proof (proj1 (proj1 Hg)) as HI. assert (Huse : uses st b) by (left; eauto).
  split; [apply (recorded_not_new _ s st); assumption|]. intros s' st' h' Hs' Hp.
  assert (s' = s) as -> by (apply (inv_owner _ HI s' s st' st b); [assumption..|right; eauto|exact Huse]).
  rewrite Hs in Hs'. injection Hs' as <-. split; [reflexivity|].
  destruct (inv_wf _ HI _ _ Hs) as [_ Hw2]. destruct (Hw2 b rec Hr) as [_ (_ & Hc & _)].
  apply (count_one st b); [lia|exists loc; auto|exact Hp].
Qed.

Lemma triple_unmark (P : world -> Prop) s h :
  s ∈ S -> D h -> stable P -> (forall w st, P w -> w_stores w !! s = Some st -> P (set_store s (DeleteSynced st h) w)) ->
  triple P (store_DeleteSynced s h) (fun _ => P).
Proof.
  intros Hin Hd Hst Hp. apply triple_meta_write; [exact Hst|]. intros w st a st' Hg Hw Hs [= _ <-].
  split; [apply GOOD_unmark; assumption|apply Hp; assumption].
Qed.

Lemma triple_drop_record R s b : dead R -> triple (only R b) (store_DeleteBlockRecord s b) (fun _ => only R b).
Proof.
  intros HR. apply triple_meta_write; [apply stable_only|]. intros w st a st' Hg Ho Hs [= _ <-].
  split; [apply GOOD_delete_record; [exact Hg|exact Hs|apply (only_abandoned R); assumption]|].
  apply (only_set_store _ _ _ _ st); auto.
Qed.

Lemma triple_drop_block R b : dead R -> triple (only R b) (remote_write (DeleteBlock b)) (fun _ => only R b).
Proof.
  intros HR. apply triple_remote_write; [apply stable_only|]. intros w Hg Ho.
  split; [apply GOOD_delete_block; [exact Hg|apply (only_abandoned R); assumption]|exact Ho].
Qed.

(** The count of the last chunk goes to zero while its marker is still there. *)
Lemma triple_decr_last s h b rec : s ∈ S -> D h -> br_LiveChunkCount rec <= 1 ->
  triple (fun w => recorded_at s b rec w /\ only (just s h) b w) (meta_write s (fun _ st => DecrLiveChunkCount st b 1))
    (fun n w => n = 0 /\ only (just s h) b w).
Proof.
  intros Hin Hd Hlast. apply triple_meta_write; [apply stable_and; [apply stable_recorded_at|apply stable_only]|].
  intros w st n st' Hg [(st0 & Hs0 & Hr) Ho] Hs. rewrite Hs in Hs0. injection Hs0 as <-.
  destruct (inv_wf _ (proj1 (proj1 Hg)) _ _ Hs) as [_ Hw2]. destruct (Hw2 b rec Hr) as [_ (H0 & Hc & _)].
  unfold DecrLiveChunkCount. rewrite Hr. destruct (Z.geb_spec 1 (br_LiveChunkCount rec)); [|lia]. intros [= <- <-].
  destruct (only_abandoned _ _ _ Hg (dead_just s h Hin Hd) Ho) as [_ Hab].
  split; [|split; [reflexivity|apply (only_set_store _ _ _ _ st); auto]].
  apply (GOOD_set_store w s st); [exact Hg|exact Hs| |intros h' Hh; left; exact Hh].
  apply step_recount; [apply Hg|exact Hs|exact Hr|]. split; [lia|]. split; [lia|]. intros _ h'. apply (Hab s st h' Hs).
Qed.

Lemma triple_decr_partial s b rec : 1 < br_LiveChunkCount rec ->
  triple (overcounted s b rec) (meta_write s (fun _ st => DecrLiveChunkCount st b 1)) (fun n _ => 0 < n).
Proof.
  intros Hmany. apply triple_meta_write; [apply stable_overcounted|].
  intros w st n st' Hg (st0 & Hs0 & Hr & Hc) Hs. rewrite Hs in Hs0. injection Hs0 as <-.
  unfold DecrLiveChunkCount. rewrite Hr. destruct (Z.geb_spec 1 (br_LiveChunkCount rec)); [lia|]. intros [= <- <-].
  split; [|lia]. apply (GOOD_set_store w s st); [exact Hg|exact Hs| |intros h' Hh; left; exact Hh].
  apply step_recount; [apply Hg|exact Hs|exact Hr|]. split; [lia|]. split; lia.
Qed.

(** In the partial case the marker goes before the count. *)
Lemma triple_unmark_partial s h b loc rec : s ∈ S -> D h -> 1 < br_LiveChunkCount rec -> cl_BlockID loc = b ->
  triple (fun w => marked_at s h loc w /\ recorded_at s b rec w) (store_DeleteSynced s h) (fun _ => overcounted s b rec).
Proof.
  intros Hin Hd Hmany Hb. apply triple_meta_write; [apply stable_and; [apply stable_marked_at, Hd|apply stable_recorded_at]|].
  intros w st a st' Hg [(st0 & Hs0 & Hl) (st1 & Hs1 & Hr)] Hs [= _ <-]. rewrite Hs in Hs0, Hs1. injection Hs0 as <-. injection Hs1 as <-.
  split; [apply GOOD_unmark; assumption|]. exists (DeleteSynced st h). cbn [set_store w_stores]. rewrite lookup_insert_eq.
  split; [reflexivity|]. split; [exact Hr|].
  destruct (inv_wf _ (proj1 (proj1 Hg)) _ _ Hs) as [_ Hw2]. destruct (Hw2 b rec Hr) as [_ (_ & Hc & _)].
  enough (count (DeleteSynced st h) b < count st b)%nat by lia. apply (count_drop _ _ _ h).
  - intros h' loc'. cbn. rewrite lookup_delete_Some. intros [_ Hl'] _. exact Hl'.
  - exists loc. auto.
  - intros (loc' & Hl' & _). cbn in Hl'. rewrite lookup_delete_eq in Hl'. discriminate.
Qed.

Lemma triple_ReclaimDeadChunk s h : s ∈ S -> D h -> triple (fun _ => True) (ReclaimDeadChunk s h) (fun _ _ => True).
Proof.
  intros Hin Hd. unfold ReclaimDeadChunk.
  eapply triple_mbind.
  { apply (triple_meta_read _ s (fun st => GetLocator st h) (fun o w => match o with
      Some loc => IsStandalone loc = false -> marked_at s h loc w | None => True end)); [apply stable_true|].
    intros w st _ _ Hs. unfold GetLocator, locator_of. destruct (synced st !! h); [|exact I].
    destruct (syncedLocators st !! h) as [loc|] eqn:Hl; [|discriminate]. intros _. exists st. auto. }
  intros [loc|]; [|apply triple_ret; auto]. apply triple_if; intros Hsa; [apply triple_ret; auto|].
  apply (triple_pre _ (marked_at s h loc)); [auto|]. eapply triple_mbind.
  { apply (triple_meta_read _ s (fun st => GetBlockRecord st (cl_BlockID loc)) (fun o w => match o with
      Some rec => marked_at s h loc w /\ recorded_at s (cl_BlockID loc) rec w | None => True end)); [apply stable_marked_at, Hd|].
    intros w st _ Hm Hs. unfold GetBlockRecord. destruct (blockRecords st !! cl_BlockID loc) as [rec|] eqn:Hr; [|exact I].
    split; [exact Hm|exists st; auto]. }
  intros [rec|]; [|apply triple_ret; auto]. cbn zeta. destruct (Z.leb_spec (br_LiveChunkCount rec) 1) as [Hlast|Hmany].
  - eapply triple_mbind; [apply (triple_ret _ tt (fun _ w => marked_at s h loc w /\ recorded_at s (cl_BlockID loc) rec w)); auto|]. intros [].
    apply (triple_pre _ (fun w => recorded_at s (cl_BlockID loc) rec w /\ only (just s h) (cl_BlockID loc) w)).
    { intros w Hg [Hm Hr]. split; [exact Hr|]. eapply last_only; eauto. }
    eapply triple_mbind; [apply triple_decr_last; assumption|]. intros n. apply triple_if; intros Hn; [apply triple_ret; auto|].
    apply (triple_pre _ (only (just s h) (cl_BlockID loc))); [intros w _ [_ Ho]; exact Ho|].
    eapply triple_mbind; [apply triple_drop_block, dead_just; assumption|]. intros [].
    eapply triple_mbind; [apply triple_drop_record, dead_just; assumption|]. intros [].
    eapply triple_mbind; [apply (triple_unmark _ s h Hin Hd); [apply stable_only|]|intros []; apply triple_ret; auto].
    intros w st Ho Hs. apply (only_set_store _ _ _ _ st); [exact Hs| |exact Ho].
    intros h' (loc' & Hl' & Hb'). cbn in Hl'. apply lookup_delete_Some in Hl' as [_ Hl']. exists loc'. auto.
  - eapply triple_mbind; [apply triple_unmark_partial; eauto|]. intros [].
    eapply triple_mbind; [apply triple_decr_partial, Hmany|]. intros n.
    intros w Hg Hn. destruct (Z.gtb_spec n 0); [|lia].
    exact (triple_ret (fun _ => True) (true, 0) (fun _ _ => True) (fun _ _ _ => I) w Hg I).
Qed.

(** *** Sweeping *)

Lemma triple_union u h : (forall s, s ∈ u -> s ∈ S) -> D h ->
  triple (fun _ => True) (union_ReclaimDeadChunk u h) (fun _ _ => True).
Proof.
  intros Hu Hd. apply (triple_forM (fun _ _ => True)). intros acc s Hs.
  eapply triple_mbind; [apply triple_ReclaimDeadChunk; auto|]. intros r. apply triple_ret. auto.
Qed.

Lemma triple_multi_unmark idx h : (forall s, s ∈ idx -> s ∈ S) -> D h ->
  triple (fun _ => True) (multi_DeleteSynced idx h) (fun _ _ => True).
Proof.
  intros Hi Hd. eapply triple_mbind; [apply triple_ctx_err, stable_true|]. intros [].
  eapply triple_mbind.
  - apply (triple_forM (fun _ _ => True)). intros acc s Hs.
    eapply triple_mbind; [apply triple_try, (triple_unmark (fun _ => True)); auto using stable_true|].
    intros r. apply triple_ret. auto.
  - intros ok. apply triple_if; intros _; [apply triple_ret; auto|apply triple_fail].
Qed.

Lemma triple_addError P : triple P addError (fun _ _ => True).
Proof. apply (triple_pre _ (fun _ => True)); [auto|]. apply (triple_tally (fun _ => True)). auto. Qed.

Definition gcs_is (G : GCState) (w : world) : Prop := w_gcs w = G.

Lemma stable_gcs G : stable (gcs_is G).
Proof. intros w w' _ Hg He. unfold gcs_is. rewrite (ev_gcs _ _ _ He). exact Hg. Qed.

Lemma triple_Has G h : g_batch G = [] ->
  triple (gcs_is G) (gcs_Has h) (fun b _ => b = bool_decide (h ∈ g_db G)).
Proof.
  intros Hb. eapply triple_mbind.
  - eapply triple_mbind; [apply (triple_gets _ _ (fun l w => l = [] /\ gcs_is G w))|].
    { intros w _ Hw. rewrite Hw. auto. }
    intros l. intros w Hg [-> Hw]. exact (triple_ret (gcs_is G) tt (fun _ => gcs_is G) (fun _ _ Hw => Hw) w Hg Hw).
  - intros []. apply (triple_read _ (fun w => Some (bool_decide (h ∈ g_db (w_gcs w))))); [apply stable_gcs|].
    intros w a _ Hw [= <-]. rewrite Hw. reflexivity.
Qed.

Lemma triple_sweep_one o idx cutoff sample h t G :
  g_batch G = [] -> (forall s, s ∈ idx -> s ∈ S) -> (forall u s, BlockReclaimer o = Some u -> s ∈ u -> s ∈ S) ->
  (t <> 0 -> t <= cutoff -> h ∉ g_db G -> D h) ->
  triple (gcs_is G) (sweep_one o idx cutoff sample h t) (fun _ _ => True).
Proof.
  intros Hb Hi Hu Hd. unfold sweep_one. destruct (Z.eqb_spec t 0) as [|Ht0]; [apply triple_ret; auto|].
  destruct (Z.gtb_spec t cutoff) as [|Ht]; [apply triple_ret; auto|].
  eapply triple_mbind; [apply triple_try, triple_Has, Hb|]. intros [[|]|]; [apply triple_ret; auto| |apply triple_addError].
  intros w Hg Hw. symmetry in Hw. apply bool_decide_eq_false in Hw. specialize (Hd Ht0 Ht Hw). revert w Hg Hw.
  enough (triple (fun _ => True) (if DryRun o then recordDryRunCandidate h sample
    else match BlockReclaimer o with
         | Some u => r ← try (union_ReclaimDeadChunk u h);
             match r with
             | Some (true, freed) => d ← try (multi_DeleteSynced idx h); match d with Some _ => swept_one freed | None => addError end
             | _ => addError
             end
         | None => addError
         end) (fun _ _ => True)) as Hrest by (intros w Hg _; apply (Hrest w Hg I)).
  destruct (DryRun o); [apply (triple_tally (fun _ => True)); auto|].
  destruct (BlockReclaimer o) as [u|] eqn:Hrec; [|apply triple_addError].
  eapply triple_mbind; [apply triple_try, triple_union; [intros s; apply (Hu u s eq_refl)|exact Hd]|].
  intros [[[|] freed]|]; [|apply triple_addError|apply triple_addError].
  eapply triple_mbind; [apply triple_try, triple_multi_unmark; assumption|].
  intros [[]|]; [apply (triple_tally (fun _ => True)); auto|apply triple_addError].
Qed.
End triples.

(** ** Programs that leave the live set alone *)

Definition keeps {A} (m : M A) : Prop := forall w, g_batch (w_gcs w) = [] -> w_gcs (m w).2 = w_gcs w.

Lemma acts_gcs l : forall w, w_gcs (acts l w) = w_gcs w.
Proof.
  induction l as [|a l IH]; intros w; [reflexivity|]. cbn [acts fold_left]. unfold acts in IH. rewrite IH. unfold act.
  assert (Hm : forall s f w0, w_gcs (on_meta s f w0) = w_gcs w0).
  { intros s f w0. unfold on_meta. destruct (w_stores w0 !! s); [|reflexivity]. destruct (f _ _); reflexivity. }
  destruct a; cbn [perform]; try (rewrite Hm; reflexivity); try reflexivity.
  - unfold start_upload. destruct (_ || _); [reflexivity|]. unfold new_id. cbn [tick w_ids]. destruct (w_ids w); [reflexivity|].
    destruct (prepare_block _ _) as [[[[? ?] ?] ?]|]; reflexivity.
  - unfold commit_upload. destruct (w_inflight _ !! id); [|reflexivity]. destruct (w_stores _ !! _); [|reflexivity].
    destruct (DefaultCommitBlock _ _ _ _ _); reflexivity.
Qed.

Lemma at_call_gcs w : w_gcs (at_call w) = w_gcs w.
Proof. unfold at_call. cbn [tick w_gcs]. rewrite acts_gcs. unfold next_turn. destruct (w_sched w); reflexivity. Qed.

Lemma keeps_mret {A} (a : A) : keeps (ret a).
Proof. intros w _. reflexivity. Qed.

Lemma keeps_fail {A} : keeps (@fail A).
Proof. intros w _. reflexivity. Qed.

Lemma keeps_mbind {A B} (m : M A) (k : A -> M B) : keeps m -> (forall a, keeps (k a)) -> keeps (mbind k m).
Proof.
  intros Hm Hk w Hb. unfold mbind, M_bind, bind. pose proof (Hm w Hb) as Hw. destruct (m w) as [[a| |] w1]; cbn [fst snd] in *; [|exact Hw..].
  rewrite (Hk a w1) by (rewrite Hw; exact Hb). exact Hw.
Qed.

Lemma keeps_try {A} (m : M A) : keeps m -> keeps (try m).
Proof. intros Hm w Hb. unfold try. pose proof (Hm w Hb) as Hw. destruct (m w) as [[a| |] w1]; exact Hw. Qed.

Lemma keeps_gets {A} (f : world -> A) : keeps (gets f).
Proof. intros w _. reflexivity. Qed.

Lemma keeps_modify f : (forall w, w_gcs (f w) = w_gcs w) -> keeps (modify f).
Proof. intros Hf w _. apply Hf. Qed.

Lemma keeps_forM {A B} (l : list A) (f : B -> A -> M B) : (forall acc x, keeps (f acc x)) -> forall acc, keeps (forM l acc f).
Proof. intros Hf. induction l as [|x l IH]; intros acc; [apply keeps_mret|]. cbn [forM]. apply keeps_mbind; [apply Hf|exact IH]. Qed.

Lemma keeps_call {A} (f : world -> option A * world) : (forall w, w_gcs (f w).2 = w_gcs w) -> keeps (call f).
Proof.
  intros Hf w _. pose proof (at_call_gcs w) as Hat. unfold call, at_call in *. destruct (next_turn w) as [t w1]. cbn [fst snd] in *.
  destruct (t_fate t); cbn [snd]; [|exact Hat| |exact Hat].
  - pose proof (Hf (tick 1 (acts (t_env t) w1))) as Hw. destruct (f _) as [[a|] w2]; cbn [snd] in *; congruence.
  - rewrite Hf. exact Hat.
Qed.

Lemma keeps_meta_read {A} s (f : Store -> A) : keeps (meta_read s f).
Proof. apply keeps_call. reflexivity. Qed.

Lemma keeps_meta_write {A} s (f : Z -> Store -> option (A * Store)) : keeps (meta_write s f).
Proof. apply keeps_call. intros w. destruct (w_stores w !! s); [|reflexivity]. destruct (f _ _) as [[a st]|]; reflexivity. Qed.

Lemma keeps_Flush : keeps FlushAdd.
Proof. intros w Hb. unfold FlushAdd, mbind, M_bind, bind, gets. cbn. rewrite Hb. reflexivity. Qed.

(** A triple together with the live set it leaves alone. *)
Lemma triple_keeps {A} D S P (m : M A) Q G : g_batch G = [] -> keeps m -> triple D S (fun w => P w /\ gcs_is G w) m Q ->
  triple D S (fun w => P w /\ gcs_is G w) m (fun a w => Q a w /\ gcs_is G w).
Proof.
  intros Hb Hk Hm w Hg Hp. destruct (Hm w Hg Hp) as [Hg1 Hq]. split; [exact Hg1|]. intros a Ha. split; [apply Hq, Ha|].
  unfold gcs_is. rewrite Hk; [apply Hp|]. destruct Hp as [_ ->]. exact Hb.
Qed.
End safe.

Create HintDb keeps discriminated.
#[export] Hint Resolve keeps_mret keeps_fail keeps_mbind keeps_try keeps_gets keeps_forM keeps_meta_read keeps_meta_write keeps_Flush : keeps.
Ltac keeps_step :=
  match goal with
  | |- keeps (mbind _ _) => apply keeps_mbind; [|intros ?]
  | |- keeps (match ?x with _ => _ end) => destruct x
  | |- keeps (let '_ := ?x in _) => destruct x
  | |- keeps (forM _ _ _) => apply keeps_forM; intros ? ?
  | |- keeps (try _) => apply keeps_try
  | |- keeps (call _) => apply keeps_call; intros ?; reflexivity
  | |- keeps (modify _) => apply keeps_modify; intros ?; reflexivity
  | |- keeps _ => solve [eauto with keeps]
  end.
Ltac keeps_all := repeat (cbn zeta; keeps_step).
