(* ===== verification/BlockCollect.v ===== *)
(** * The phases of collection and compaction

    Triples for marking, for sweeping and for the compaction of blocks. *)

From S2P Require Import Prelude.
From S2P Require Import HoleMap.
From S2P Require Import JournalCarve.
From S2P Require Import BlockCodec.
From S2P Require Import BlockMeta.
From S2P Require Import BlockWorld.
From S2P Require Import BlockMaint.
From S2P Require Import BlockInv.
From S2P Require Import BlockSafe.

Section collect.
Context `{DL : DeploymentLaws}.

Lemma elem_of_shuffle {A} (x : A) l : x ∈ shuffle A l <-> x ∈ l.
Proof. rewrite !list_elem_of_In. split; apply Permutation_in; [symmetry|]; apply shuffle_perm. Qed.

Section run.
Variable D : ContentHash -> Prop.

Lemma triple_forM_rest {A B} S (I : list A -> B -> world -> Prop) (f : B -> A -> M B) :
  (forall acc x l, triple D S (I (x :: l) acc) (f acc x) (I l)) -> forall l acc, triple D S (I l acc) (forM l acc f) (I []).
Proof.
  intros Hf. induction l as [|x l IH]; intros acc; cbn [forM]; [apply triple_ret; auto|].
  eapply triple_bind; [apply Hf|]. intros acc'. apply IH.
Qed.

(** ** Marking *)

Definition inmark (g : GCState) (h : ContentHash) : Prop := h ∈ g_db g \/ h ∈ g_batch g.

(** The dead hashes a store refers to are marked, or still to be added. *)
Definition covered (s : string) (todo : list ContentHash) (w : world) : Prop :=
  forall st h, w_stores w !! s = Some st -> D h -> referenced st h -> inmark (w_gcs w) h \/ h ∈ todo.

Definition all_covered (done : list string) (w : world) : Prop := forall s, s ∈ done -> covered s [] w.

(** Markers written since the snapshot carry a later time. *)
Section snapshot.
Variable S0 : ContentHash -> Prop.
Variable snap : Z.

Definition stamps (w : world) : Prop :=
  snap <= w_now w /\ forall s st h t, w_stores w !! s = Some st -> synced st !! h = Some t -> S0 h \/ snap < t.

Lemma stable_stamps S : stable D S stamps.
Proof.
  intros w w' _ [Hn Hs] He. split; [pose proof (ev_now _ _ _ He); lia|]. intros s st' h t Hs' Ht.
  destruct (evolve_store_from D w w' s st' He Hs') as (st & Hst & Hev).
  destruct (se_synced _ _ _ _ Hev h t Ht) as [Ht'|Hlt]; [apply (Hs _ _ _ _ Hst Ht')|right; lia].
Qed.

Lemma stable_covered S s todo : stable D S (covered s todo).
Proof.
  intros w w' _ Hc He st' h Hs' Hd Href. destruct (evolve_store_from D w w' s st' He Hs') as (st & Hs & Hev).
  rewrite (ev_gcs _ _ _ He). apply (Hc st h Hs Hd). apply (se_refs _ _ _ _ Hev h Hd Href).
Qed.

Lemma stable_all_covered S done : stable D S (all_covered done).
Proof. intros w w' Hg Hc He s Hin. eapply stable_covered; [exact Hg|apply Hc, Hin|exact He]. Qed.

(** The stores [done] are covered, and the one being enumerated up to [todo]. *)
Definition marking (done : list string) (cur : option string) (todo : list ContentHash) (w : world) : Prop :=
  stamps w /\ all_covered done w /\ forall s, cur = Some s -> covered s todo w.

Lemma stable_marking S done cur todo : stable D S (marking done cur todo).
Proof.
  apply stable_and; [apply stable_stamps|]. apply stable_and; [apply stable_all_covered|].
  intros w w' Hg Hc He s Hs. eapply stable_covered; [exact Hg|apply Hc, Hs|exact He].
Qed.

(** The live set grows. *)
Lemma marking_gcs done s todo todo' w g :
  (forall h, inmark (w_gcs w) h -> inmark g h) -> (forall h, h ∈ todo -> inmark g h \/ h ∈ todo') ->
  marking done s todo w -> marking done s todo' (set_gcs g w).
Proof.
  intros Hg Ht (Hst & Hall & Hs). split; [exact Hst|]. split.
  - intros s' Hin st h Hs' Hd Href. destruct (Hall s' Hin st h Hs' Hd Href) as [|Hnil]; [left; apply Hg; assumption|].
    apply not_elem_of_nil in Hnil. contradiction.
  - intros s' Hcur st h Hs' Hd Href. destruct (Hs s' Hcur st h Hs' Hd Href) as [|Hin]; [left; apply Hg; assumption|apply Ht, Hin].
Qed.

Lemma triple_flush done s todo :
  triple D [] (marking done s todo) flushBatch (fun _ w => marking done s todo w /\ g_batch (w_gcs w) = []).
Proof.
  eapply triple_mbind.
  - apply triple_try, (triple_call _ _ _ _ (fun _ w => marking done s todo w /\ forall h, h ∈ g_batch (w_gcs w) -> h ∈ g_db (w_gcs w)));
      [apply stable_marking|].
    intros w Hg Hm. cbn [fst snd]. split; [eapply GOOD_same; [| |exact Hg]; [repeat split|reflexivity]|].
    intros [] _. split.
    + eapply marking_gcs; [| |exact Hm].
      * intros h [Hh|Hh]; [left; cbn; set_solver|right; exact Hh].
      * auto.
    + cbn. intros h Hh. apply elem_of_union_r, elem_of_list_to_set, Hh.
  - intros r. eapply triple_mbind.
    + apply (triple_modify _ _ _ _ (fun _ w => match r with Some _ => marking done s todo w /\ g_batch (w_gcs w) = [] | None => True end)).
      intros w Hg Hm. split; [eapply GOOD_same; [| |exact Hg]; [repeat split|reflexivity]|].
      destruct r as [u|]; [|exact I]. destruct Hm as [Hm Hsub]. split; [|reflexivity].
      eapply marking_gcs; [| |exact Hm]; [|auto]. intros h [Hh|Hh]; left; cbn; [exact Hh|apply Hsub, Hh].
    + intros []. destruct r as [u|]; [apply triple_ret; auto|apply triple_fail].
Qed.

Lemma triple_Add done s todo h : triple D [] (marking done s (h :: todo)) (gcs_Add h) (fun _ => marking done s todo).
Proof.
  eapply triple_mbind.
  - apply (triple_call _ _ _ _ (fun _ => marking done s todo)); [apply stable_marking|].
    intros w Hg Hm. cbn [fst snd]. split; [eapply GOOD_same; [| |exact Hg]; [repeat split|reflexivity]|].
    intros [] _. eapply marking_gcs; [| |exact Hm].
    + intros h' [Hh|Hh]; [left; exact Hh|right; cbn; rewrite elem_of_app; auto].
    + intros h'. rewrite elem_of_cons. intros [->|Hh]; [left; right; cbn; apply elem_of_app; right; apply list_elem_of_singleton; reflexivity|auto].
  - intros []. eapply triple_mbind; [apply (triple_gets _ _ _ _ (fun _ => marking done s todo)); auto|].
    intros n. apply triple_if; intros _; [|apply triple_ret; auto].
    eapply triple_weaken; [|apply (triple_flush done s todo)|].
    + auto.
    + intros a w _ Hm. exact (proj1 Hm).
Qed.

Lemma covered_zero done s todo w : marking done s (zeroHash :: todo) w -> marking done s todo w.
Proof.
  intros (Hst & Hall & Hs). split; [exact Hst|]. split; [exact Hall|]. intros s' Hcur st h Hs' Hd Href.
  destruct (Hs s' Hcur st h Hs' Hd Href) as [|Hin]; [auto|]. rewrite elem_of_cons in Hin. destruct Hin as [->|]; [|auto].
  destruct Href as [Hz _]. contradiction.
Qed.

Lemma triple_mark_hashes done s todo : triple D [] (marking done s todo) (mark_hashes todo) (fun _ => marking done s []).
Proof.
  apply (triple_forM_rest _ (fun l _ => marking done s l)). intros [] h l.
  eapply triple_mbind; [apply triple_ctx_err, stable_marking|]. intros []. unfold addHash.
  destruct (IsZero h) eqn:Hz.
  - unfold IsZero in Hz. apply bool_decide_eq_true in Hz as ->. apply triple_ret. intros w _. apply covered_zero.
  - eapply triple_mbind; [apply triple_Add|]. intros []. apply triple_tally. intros w Hm. exact Hm.
Qed.

Definition stores_of (shares : list string) : list string := omap storeOf shares.

Lemma stores_of_cons share shares s : s ∈ stores_of (share :: shares) <-> storeOf share = Some s \/ s ∈ stores_of shares.
Proof.
  unfold stores_of. rewrite !list_elem_of_omap. setoid_rewrite elem_of_cons. split.
  - intros (x & [->|Hx] & Hs); eauto.
  - intros [Hs|(x & Hx & Hs)]; eauto.
Qed.

(** Every share's store has been enumerated, those of [rest] excepted. *)
Definition enumerated (shares rest : list string) (w : world) : Prop :=
  stamps w /\ forall s, s ∈ stores_of shares -> s ∈ stores_of rest \/ covered s [] w.

Lemma triple_mark_share shares share rest :
  triple D [] (enumerated shares (share :: rest)) (mark_share share) (fun _ => enumerated shares rest).
Proof.
  assert (Hst : stable D [] (enumerated shares (share :: rest))).
  { apply stable_and; [apply stable_stamps|]. intros w w' Hg Hc He s Hs. destruct (Hc s Hs) as [|Hcov]; [auto|]. right.
    eapply stable_covered; eassumption. }
  eapply triple_mbind; [apply triple_ctx_err, Hst|]. intros [].
  eapply triple_mbind.
  { apply (triple_read _ _ _ (fun _ => storeOf share) (fun s w => storeOf share = Some s /\ enumerated shares (share :: rest) w)); [exact Hst|]. auto. }
  intros s. intros w0 Hg0 [Hs Hw0]. revert w0 Hg0 Hw0.
  change (triple D [] (enumerated shares (share :: rest))
    (hashes ← meta_read s (fun st => shuffle _ (snapshotBlockHashesLocked st)); mark_hashes hashes) (fun _ => enumerated shares rest)).
  set (others := List.filter (fun s' => negb (bool_decide (s' ∈ stores_of (share :: rest)))) (stores_of shares)).
  eapply triple_mbind.
  { apply (triple_meta_read _ _ _ s (fun st => shuffle _ (snapshotBlockHashesLocked st)) (fun l w => marking others (Some s) l w)); [exact Hst|].
    intros w st _ [Hstamp Hcov] Hst'. split; [exact Hstamp|]. split.
    - intros s' Hin. apply list_elem_of_In, filter_In in Hin as [Hin Hno]. apply list_elem_of_In in Hin.
      apply negb_true_iff, bool_decide_eq_false in Hno. destruct (Hcov s' Hin); [contradiction|assumption].
    - intros s1 [= <-] st0 h Hs0 Hd Href. rewrite Hst' in Hs0. injection Hs0 as <-. right. apply elem_of_shuffle, Href. }
  intros l. eapply triple_weaken; [|apply triple_mark_hashes|]; [intros w _ Hw; exact Hw|].
  intros a w _ (Hstamp & Hall & Hcov). split; [exact Hstamp|]. intros s' Hin.
  destruct (decide (s' ∈ stores_of (share :: rest))) as [Hrest|Hrest].
  - apply stores_of_cons in Hrest as [Hs'|Hrest]; [|auto]. rewrite Hs in Hs'. injection Hs' as <-. right. apply Hcov. reflexivity.
  - right. apply Hall. apply list_elem_of_In, filter_In. split; [apply list_elem_of_In, Hin|].
    apply negb_true_iff, bool_decide_eq_false, Hrest.
Qed.

Definition marked (shares : list string) (w : world) : Prop :=
  stamps w /\ (forall s, s ∈ stores_of shares -> covered s [] w) /\ g_batch (w_gcs w) = [].

Lemma enumerated_marking shares w : enumerated shares [] w <-> marking (stores_of shares) None [] w.
Proof.
  split.
  - intros [Hst Hc]. split; [exact Hst|]. split; [|intros s [=]]. intros s Hs. destruct (Hc s Hs) as [Hn|]; [|assumption].
    apply not_elem_of_nil in Hn. contradiction.
  - intros (Hst & Hc & _). split; [exact Hst|]. intros s Hs. right. apply Hc, Hs.
Qed.

Lemma triple_markPhase shares hold : triple D [] stamps (markPhase shares hold) (fun _ => marked shares).
Proof.
  unfold markPhase. destruct (bool_decide _); [apply triple_fail|].
  eapply triple_mbind.
  { eapply triple_pre; [|apply (triple_forM_rest [] (fun rest _ => enumerated shares rest))].
    - intros w _ Hst. split; [exact Hst|]. auto.
    - intros [] share rest. apply triple_mark_share. }
  intros []. apply (triple_pre _ _ _ (marking (stores_of shares) None [])); [intros w _; apply enumerated_marking|].
  eapply triple_mbind.
  { instantiate (1 := fun _ => marking (stores_of shares) None []). destruct hold as [l|]; [|apply triple_ret; auto].
    eapply triple_mbind; [apply triple_ctx_err, stable_marking|]. intros [].
    eapply triple_pre; [|apply triple_mark_hashes]. intros w _ (Hst & Hc & _). split; [exact Hst|]. split; [exact Hc|intros s [=]]. }
  intros []. eapply triple_mbind; [apply (triple_gets _ _ _ _ (fun l w => l = g_batch (w_gcs w) /\ marking (stores_of shares) None [] w)); auto|].
  intros l. destruct (bool_decide (l = [])) eqn:Hl.
  - apply bool_decide_eq_true in Hl as ->. apply triple_ret. intros w _ [Hl (Hst & Hc & _)]. split; [exact Hst|]. auto.
  - eapply triple_weaken; [|apply (triple_flush (stores_of shares) None [])|].
    + intros w _ [_ Hm]. exact Hm.
    + intros a w _ [(Hst & Hc & _) Hb]. split; [exact Hst|]. auto.
Qed.

(** ** Enumerating the synced markers *)

Definition stamped_entry (e : ContentHash * Z) : Prop := S0 e.1 \/ snap < e.2.

Lemma EnumerateSynced_spec st h loc t : (h, loc, t) ∈ EnumerateSynced st -> synced st !! h = Some t.
Proof.
  unfold EnumerateSynced. intros Hin. apply list_elem_of_fmap in Hin as ([h' t'] & [= -> -> ->] & Hin).
  apply elem_of_map_to_list, Hin.
Qed.

Lemma keep_latest_stamped l : forall m,
  (forall h loc t, (h, loc, t) ∈ l -> S0 h \/ snap < t) -> (forall h e, m !! h = Some e -> S0 h \/ snap < e.2) ->
  forall h e, fold_left keep_latest l m !! h = Some e -> S0 h \/ snap < e.2.
Proof.
  induction l as [|[[h0 loc0] t0] l IH]; intros m Hl Hm h e; cbn [fold_left]; [apply Hm|].
  apply IH; [intros h' loc t Hin; apply (Hl h' loc t); rewrite elem_of_cons; auto|].
  assert (Hnew : S0 h0 \/ snap < t0) by (apply (Hl h0 loc0 t0); rewrite elem_of_cons; auto).
  intros h' e'. unfold keep_latest. destruct (m !! h0) as [[l' t']|]; [destruct (t0 >? t')|].
  - rewrite lookup_insert_Some. intros [[<- <-]|[_ Hm']]; [exact Hnew|apply Hm, Hm'].
  - apply Hm.
  - rewrite lookup_insert_Some. intros [[<- <-]|[_ Hm']]; [exact Hnew|apply Hm, Hm'].
Qed.

Lemma triple_enumerate S idx :
  triple D S stamps (multi_EnumerateSynced idx) (fun l _ => Forall stamped_entry l).
Proof.
  eapply triple_mbind; [apply triple_ctx_err, stable_stamps|]. intros [].
  eapply triple_mbind.
  { eapply triple_pre; [|apply (triple_forM D S (fun m w => stamps w /\ forall h e, m !! h = Some e -> S0 h \/ snap < e.2) idx)].
    - intros w _ Hst. split; [exact Hst|]. intros h e. rewrite lookup_empty. discriminate.
    - intros m s _. eapply triple_mbind.
      + apply (triple_meta_read _ _ _ s EnumerateSynced (fun l w => stamps w /\ (forall h loc t, (h, loc, t) ∈ l -> S0 h \/ snap < t) /\ forall h e, m !! h = Some e -> S0 h \/ snap < e.2)).
        * apply stable_and; [apply stable_stamps|]. intros w w' _ Hm _. exact Hm.
        * intros w st _ [Hst Hm] Hs. split; [exact Hst|]. split; [|exact Hm]. intros h loc t Hin.
          apply EnumerateSynced_spec in Hin. destruct Hst as [_ Hst]. apply (Hst s st h t Hs Hin).
      + intros l. apply triple_ret. intros w _ (Hst & Hl & Hm). split; [exact Hst|]. apply keep_latest_stamped; assumption. }
  intros m. apply triple_ret. intros w _ [_ Hm]. apply Forall_forall. intros [h t] Hin. rewrite elem_of_shuffle in Hin.
  apply list_elem_of_fmap in Hin as ([h' [loc t']] & [= -> ->] & Hin). apply elem_of_map_to_list in Hin. apply (Hm h' (loc, t') Hin).
Qed.

(** ** Sweeping *)

Lemma keeps_ReclaimDeadChunk s h : keeps (ReclaimDeadChunk s h).
Proof. unfold ReclaimDeadChunk, store_DeleteSynced, store_DeleteBlockRecord, remote_write. keeps_all. Qed.

Lemma keeps_multi_DeleteSynced idx h : keeps (multi_DeleteSynced idx h).
Proof. unfold multi_DeleteSynced, store_DeleteSynced, ctx_err. keeps_all. Qed.

Lemma keeps_multi_EnumerateSynced idx : keeps (multi_EnumerateSynced idx).
Proof. unfold multi_EnumerateSynced, ctx_err. keeps_all. Qed.

Lemma keeps_union u h : keeps (union_ReclaimDeadChunk u h).
Proof. unfold union_ReclaimDeadChunk. keeps_all. apply keeps_ReclaimDeadChunk. Qed.

Lemma keeps_sweep_one o idx cutoff sample h t : keeps (sweep_one o idx cutoff sample h t).
Proof.
  unfold sweep_one, gcs_Has, addError, recordDryRunCandidate, swept_one, on_gc. keeps_all; first [apply keeps_union|apply keeps_multi_DeleteSynced].
Qed.

Lemma keeps_sweep o idx sn gr sample : keeps (sweepFromSyncedIndex o idx sn gr sample).
Proof.
  unfold sweepFromSyncedIndex, scanned_one, addError, on_gc, ctx_err. keeps_all; first [apply keeps_multi_EnumerateSynced|apply keeps_sweep_one].
Qed.

Lemma triple_sweep S o idx grace sample G :
  g_batch G = [] -> 0 <= grace -> (forall s, s ∈ idx -> s ∈ S) -> (forall u s, BlockReclaimer o = Some u -> s ∈ u -> s ∈ S) ->
  (forall h, S0 h -> h ∉ g_db G -> D h) ->
  triple D S (fun w => stamps w /\ gcs_is G w) (sweepFromSyncedIndex o idx snap grace sample) (fun _ _ => True).
Proof.
  intros Hb Hgr Hi Hu Hd. eapply triple_mbind; [|intros [u|]; [apply triple_ret; auto|apply triple_addError]].
  apply (triple_try _ _ _ _ (fun _ _ => True)). eapply triple_mbind.
  { apply triple_keeps; [exact Hb|apply keeps_multi_EnumerateSynced|].
    eapply triple_pre; [|apply triple_enumerate]. intros w _ [Hst _]. exact Hst. }
  intros l. intros w0 Hg0 [Hl Hw0]. revert w0 Hg0 Hw0.
  change (triple D S (gcs_is G) (forM l tt (fun _ e => _ ← ctx_err; _ ← scanned_one; sweep_one o idx (snap - grace) sample e.1 e.2)) (fun _ _ => True)).
  eapply triple_weaken; [intros w _ Hw; exact Hw|apply (triple_forM D S (fun _ => gcs_is G))|auto].
  intros [] [h t] Hin. eapply triple_mbind; [apply triple_ctx_err, stable_gcs|]. intros [].
  eapply triple_mbind; [apply (triple_tally D S (gcs_is G)); auto|]. intros [].
  eapply triple_weaken; [|apply (triple_keeps D S (fun _ => True) _ (fun _ _ => True) G Hb (keeps_sweep_one _ _ _ _ _ _))|].
  - intros w _ Hw. split; [exact I|exact Hw].
  - eapply triple_pre; [|apply (triple_sweep_one D S _ _ _ _ _ _ G Hb Hi Hu)]; [intros w _ [_ Hw]; exact Hw|].
    cbn [fst snd]. intros Ht0 Ht Hno. apply Hd; [|exact Hno].
    destruct (proj1 (Forall_forall _ _) Hl (h, t) Hin) as [|Hlt]; [assumption|cbn in Hlt; lia].
  - intros a w _ [_ Hw]. exact Hw.
Qed.
End snapshot.
End run.

(** ** Compaction *)

Section compaction.
Variable D : ContentHash -> Prop.
Variable S : list string.

Definition nobody (s : string) (h : ContentHash) : Prop := False.

Lemma dead_nobody : dead D S nobody.
Proof. intros s h []. Qed.

Lemma triple_compact_error P : triple D S P compact_error (fun _ _ => True).
Proof. apply (triple_pre _ _ _ (fun _ => True)); [auto|]. apply (triple_tally D S (fun _ => True)). auto. Qed.

Lemma triple_compacted P n m : triple D S P (compacted n m) (fun _ _ => True).
Proof. apply (triple_pre _ _ _ (fun _ => True)); [auto|]. apply (triple_tally D S (fun _ => True)). auto. Qed.

Lemma triple_deleteOldBlock s b : triple D S (only nobody b) (deleteOldBlock s b) (fun _ _ => True).
Proof.
  eapply triple_mbind; [apply triple_try, triple_drop_block, dead_nobody|]. intros [[]|].
  - eapply triple_mbind; [apply triple_try, triple_drop_record, dead_nobody|]. intros [[]|]; [apply triple_ret; auto|].
    eapply triple_mbind; [apply triple_compact_error|]. intros []. apply triple_ret. auto.
  - eapply triple_mbind; [apply triple_compact_error|]. intros []. apply triple_ret. auto.
Qed.

(** A block nobody used stays so. *)
Lemma evolve_free w w' id : ~ new_block w id -> (forall s st, w_stores w !! s = Some st -> ~ uses st id) -> evolve D w w' ->
  forall s st, w_stores w' !! s = Some st -> ~ uses st id.
Proof.
  intros Hold Hfree He s st' Hs' Hu. destruct (evolve_store_from D w w' s st' He Hs') as (st & Hs & Hev).
  destruct Hu as [Hr|(h & loc & Hl & Hb)].
  - destruct (se_new _ _ _ _ Hev id Hr) as [Hr'|]; [|contradiction]. apply (Hfree s st Hs). left. exact Hr'.
  - destruct (se_markers _ _ _ _ Hev h loc Hl) as [Hl'|Hn]; [|rewrite Hb in Hn; contradiction]. apply (Hfree s st Hs). right. exists h, loc. auto.
Qed.

Section one_block.
Variable s : string.
Variable b : BlockID.
Variable rec : BlockRecord.
Variable data : list Z.
Variable records : list Record_.
Hypothesis Hrecords : block_records data records.

Lemma records_unique recs : block_records data recs -> recs = records.
Proof. intros [id Hp]. destruct Hrecords as [id' Hp']. rewrite Hp in Hp'. injection Hp' as _ ->. reflexivity. Qed.

Definition object_at (w : world) : Prop := exists mb, w_remote w !! b = Some mb /\ mb_data mb = data.

Lemma stable_object_at : stable D S object_at.
Proof. intros w w' _ (mb & Hb & Hd) He. exists mb. split; [apply (ev_objects _ _ _ He), Hb|exact Hd]. Qed.

(** The records of [rest] have not been looked at, those of [acc] are live here,
    the others are not. *)
Definition sorted_out (rest acc : list Record_) (w : world) : Prop :=
  object_at w /\ recorded_at s b rec w /\ ((forall r, r ∈ rest \/ r ∈ acc -> r ∈ records) /\ (length rest + length acc <= length records)%nat) /\
  (forall r st, r ∈ records -> w_stores w !! s = Some st -> points_to st (r_Hash r) b -> r ∈ rest \/ r ∈ acc).

Lemma stable_sorted_out rest acc : stable D S (sorted_out rest acc).
Proof.
  intros w w' Hg (Ho & Hr & Hacc & Hs) He.
  split; [eapply stable_object_at; eassumption|]. split; [eapply stable_recorded_at; eassumption|]. split; [exact Hacc|].
  intros r st' Hin Hs' (loc & Hl & Hb). destruct (evolve_store_from D w w' s st' He Hs') as (st & Hst & Hev).
  apply (Hs r st Hin Hst). exists loc. split; [|exact Hb].
  destruct Hr as (st0 & Hst0 & Hrec). rewrite Hst in Hst0. injection Hst0 as <-.
  apply (evolve_pointing D w s st st' b); [apply Hg|exact Hst|left; eauto|exact Hev|exact Hl|exact Hb].
Qed.

Lemma triple_live_here : triple D S (fun w => object_at w /\ recorded_at s b rec w) (live_here s b records) (sorted_out []).
Proof.
  unfold live_here. eapply triple_pre; [|apply (triple_forM_rest D S (fun rest acc => sorted_out rest acc))].
  { intros w _ [Ho Hr]. split; [exact Ho|]. split; [exact Hr|]. split; [|auto]. split; [|cbn; lia].
    intros r [Hin|Hin]; [exact Hin|apply not_elem_of_nil in Hin; contradiction]. }
  intros acc r rest. eapply triple_mbind.
  { apply (triple_meta_read _ _ _ s (fun st => GetLocator st (r_Hash r)) (fun o w => sorted_out (r :: rest) acc w /\
      exists st, w_stores w !! s = Some st /\ o = GetLocator st (r_Hash r))); [apply stable_sorted_out|].
    intros w st _ Hw Hs. split; [exact Hw|]. exists st. auto. }
  intros o. apply triple_ret. intros w Hg [(Ho & Hr & [Hacc Hlen] & Hs) (st & Hst & ->)]. cbn [length] in Hlen.
  pose proof (inv_wf _ (proj1 (proj1 Hg)) _ _ Hst) as [Hw1 _].
  assert (Hdrop : ~ points_to st (r_Hash r) b -> sorted_out rest acc w).
  { intros Hno. split; [exact Ho|]. split; [exact Hr|]. split; [split; [intros r' Hin; apply Hacc; rewrite elem_of_cons; tauto|lia]|].
    intros r' st' Hin Hst' Hp. rewrite Hst in Hst'. injection Hst' as <-.
    destruct (Hs r' st Hin Hst Hp) as [Hc|]; [|auto]. rewrite elem_of_cons in Hc. destruct Hc as [->|]; [contradiction|auto]. }
  assert (Hkeep : sorted_out rest (acc ++ [r]) w).
  { split; [exact Ho|]. split; [exact Hr|]. split.
    - split; [|rewrite length_app; cbn; lia].
      intros r'. rewrite elem_of_app, list_elem_of_singleton. intros [Hin|[Hin| ->]]; apply Hacc; rewrite elem_of_cons; auto.
    - intros r' st' Hin Hst' Hp. rewrite elem_of_app, list_elem_of_singleton.
      destruct (Hs r' st' Hin Hst' Hp) as [Hc|]; [|auto]. rewrite elem_of_cons in Hc. tauto. }
  unfold GetLocator, locator_of. destruct (syncedLocators st !! r_Hash r) as [loc|] eqn:Hl.
  - destruct (Hw1 _ _ Hl) as [[tm Htm] _]. rewrite Htm. cbn [default]. case_bool_decide as Hb; [exact Hkeep|].
    apply Hdrop. intros (loc' & Hl' & Hb'). apply Hb. rewrite Hl in Hl'. injection Hl' as ->. exact Hb'.
  - assert (~ points_to st (r_Hash r) b) as Hno by (intros (loc' & Hl' & _); congruence).
    destruct (synced st !! r_Hash r); [|apply Hdrop, Hno]. case_bool_decide; [exact Hkeep|apply Hdrop, Hno].
Qed.

(** Every marker of the block is that of a record to be moved. *)
Definition settled (moveable : list Record_) (w : world) : Prop :=
  object_at w /\ recorded_at s b rec w /\ ((forall r, r ∈ moveable -> r ∈ records) /\ (length moveable <= length records)%nat) /\
  only (fun s' h => s' = s /\ exists r, r ∈ moveable /\ r_Hash r = h) b w.

Lemma sorted_settled moveable w : GOOD D S w -> sorted_out [] moveable w -> settled moveable w.
Proof.
  intros Hg (Ho & Hr & [Hm Hlen] & Hs). pose proof (proj1 (proj1 Hg)) as HI.
  split; [exact Ho|]. split; [exact Hr|]. split; [auto|].
  destruct Hr as (st & Hst & Hrec). assert (Huse : uses st b) by (left; eauto).
  split; [apply (recorded_not_new w s st); assumption|]. intros s' st' h Hst' Hp.
  assert (s' = s) as -> by (apply (inv_owner _ HI s' s st' st b); [assumption..|right; eauto|exact Huse]).
  split; [reflexivity|]. destruct Hp as (loc & Hl & Hb). destruct Ho as (mb & Hmb & Hd).
  destruct (inv_holds _ HI s st' h loc mb Hst' Hl) as (recs & Hrecs & Hin); [rewrite Hb; exact Hmb|].
  rewrite Hd in Hrecs. rewrite (records_unique _ Hrecs) in Hin.
  destruct (Hs (mkRecord h (cl_WireOffset loc) (cl_WireLength loc)) st' Hin Hst') as [Hnil|Hmv].
  - exists loc. auto.
  - apply not_elem_of_nil in Hnil. contradiction.
  - exists (mkRecord h (cl_WireOffset loc) (cl_WireLength loc)). auto.
Qed.

Lemma stable_settled moveable : stable D S (settled moveable).
Proof.
  apply stable_and; [apply stable_object_at|]. apply stable_and; [apply stable_recorded_at|].
  apply stable_and; [intros w w' _ Hm _; exact Hm|apply stable_only].
Qed.

Lemma settled_empty w : settled [] w -> only nobody b w.
Proof.
  intros (_ & _ & _ & Hnew & Ho). split; [exact Hnew|]. intros s' st h Hs Hp.
  destruct (Ho s' st h Hs Hp) as (_ & r & Hr & _). apply not_elem_of_nil in Hr. exact Hr.
Qed.

(** *** Moving the live chunks *)

Lemma bodies_ok moveable w : GOOD D S w -> settled moveable w ->
  Forall body_ok (map (body_of data) moveable).
Proof.
  intros Hg ((mb & Hmb & Hd) & _ & [Hm _] & _). apply Forall_map, Forall_forall. intros r Hr.
  destruct (inv_blocks _ (proj1 (proj1 Hg)) _ _ Hmb) as (recs & Hrecs & Hread & _). rewrite Hd in Hrecs, Hread.
  rewrite (records_unique _ Hrecs) in Hread. destruct (proj1 (Forall_forall _ _) Hread r (Hm r Hr)) as (H0 & Hl & Hin & d & Hopen & Hh).
  unfold body_ok, body_of. cbn [fst snd]. fold (window data r).
  assert (length (window data r) = Z.to_nat (r_WireLength r)) as Hlen by (apply slice_length; lia).
  split; [intros Hnil; rewrite Hnil in Hlen; simpl in Hlen; lia|]. split; [rewrite Hlen; unfold in_u64; lia|]. exists d. auto.
Qed.

Lemma moveable_few moveable w : GOOD D S w -> settled moveable w -> Z.of_nat (length moveable) < 2 ^ 32.
Proof.
  intros Hg ((mb & Hmb & Hd) & _ & [_ Hfew] & _).
  destruct (inv_blocks _ (proj1 (proj1 Hg)) _ _ Hmb) as (recs & Hrecs & _ & Hlen). rewrite Hd in Hrecs.
  rewrite (records_unique _ Hrecs) in Hlen. lia.
Qed.
Lemma stable_drawn id : stable D S (fun w => drawn w id).
Proof.
  intros w w' _ (Hok & Hni & Hun & Hnf & Hfree) He.
  assert (Hold : ~ new_block w id) by (intros [[up Hup]|Hin]; [congruence|contradiction]).
  split; [exact Hok|]. split; [intros Hin; apply Hni, (ev_ids _ _ _ He), Hin|]. split; [apply (ev_absent _ _ _ He); assumption|].
  split; [apply eq_None_not_Some; intros Hf; apply Hold, (ev_inflight _ _ _ He), Hf|]. apply (evolve_free w); assumption.
Qed.

Lemma stable_ready id up : stable D S (fun w => ready w id up).
Proof.
  intros w w' _ [Hok Hni Hnf Hfree (mb & Hmb & Hug)] He.
  assert (Hold : ~ new_block w id) by (intros [[up' Hup]|Hin]; [congruence|contradiction]).
  constructor; [exact Hok|intros Hin; apply Hni, (ev_ids _ _ _ He), Hin| |apply (evolve_free w); assumption|].
  - apply eq_None_not_Some. intros Hf. apply Hold, (ev_inflight _ _ _ He), Hf.
  - exists mb. split; [apply (ev_objects _ _ _ He), Hmb|exact Hug].
Qed.

Lemma triple_newBlockID moveable :
  triple D S (settled moveable) newBlockID (fun id w => settled moveable w /\ drawn w id).
Proof.
  apply triple_call; [apply stable_settled|]. intros w Hg Hs.
  destruct (new_id w) as [[id|] w1] eqn:Hnew; cbn [fst snd].
  - destruct (Inv_draw _ _ _ (proj1 (proj1 Hg)) Hnew) as [HI Hdr]. destruct Hg as ((_ & Hc) & Hr & Hu).
    destruct Hs as (Ho & Hrec & Hm & Hnb & Honly). unfold new_id in Hnew. destruct (w_ids w) as [|id' ids] eqn:Hids; [discriminate|].
    injection Hnew as <- <-. split; [split; [split; assumption|split; assumption]|]. intros a [= <-]. split; [|exact Hdr].
    split; [exact Ho|]. split; [exact Hrec|]. split; [exact Hm|]. split; [|exact Honly].
    intros [Hf|Hin]; apply Hnb; [left; exact Hf|right; rewrite Hids, elem_of_cons; auto].
  - unfold new_id in Hnew. destruct (w_ids w); [|discriminate]. injection Hnew as <-. split; [exact Hg|]. intros a [=].
Qed.

Lemma built moveable id newBytes newRec commits w :
  GOOD D S w -> settled moveable w -> id_ok id -> build_block id (map (body_of data) moveable) = Some (newBytes, newRec, commits) ->
  up_good id newBytes (mkUpload s newRec commits []) /\ forall r, r ∈ moveable -> hashes_of commits (r_Hash r).
Proof.
  intros Hg Hs Hid Hb.
  destruct (build_good id _ newBytes newRec commits Hid (bodies_ok _ _ Hg Hs)) as (H1 & H2 & H3 & H4 & H5);
    [rewrite length_map; eapply moveable_few; eassumption|exact Hb|].
  split; [constructor; auto; constructor|]. intros r Hr.
  assert (r_Hash r ∈ map bc_Hash commits) as Hin.
  { rewrite H4, map_map. apply list_elem_of_fmap. exists r. auto. }
  apply list_elem_of_fmap in Hin as (c & Hc & Hin). exists c. auto.
Qed.

Lemma triple_put_new moveable id newBytes up : up_good id newBytes up ->
  triple D S (fun w => settled moveable w /\ drawn w id) (remote_write (PutBlock id newBytes)) (fun _ w => settled moveable w /\ ready w id up).
Proof.
  intros Hug. apply triple_remote_write; [apply stable_and; [apply stable_settled|apply stable_drawn]|].
  intros w Hg [((mb & Hmb & Hd) & Hrec & Hm & Ho) Hdr]. split.
  - destruct Hg as ((HI & Hc) & Hr & Hu). split; [split; [|exact Hc]|split; assumption].
    apply Inv_put; [exact HI|exact Hdr|apply (ug_block _ _ _ Hug)].
  - split; [|apply put_ready; assumption]. split; [|split; [exact Hrec|split; [exact Hm|exact Ho]]].
    exists mb. split; [|exact Hd]. cbn. rewrite lookup_insert_ne; [exact Hmb|]. intros ->. destruct Hdr as (_ & _ & Hun & _). congruence.
Qed.

Lemma triple_commit_new moveable id newRec commits : (forall r, r ∈ moveable -> hashes_of commits (r_Hash r)) ->
  triple D S (fun w => settled moveable w /\ ready w id (mkUpload s newRec commits [])) (commit_block s newRec commits []) (fun _ => only nobody b).
Proof.
  intros Hcov. apply triple_meta_write; [apply stable_and; [apply stable_settled|apply stable_ready]|].
  intros w st a st' Hg [(_ & (st0 & Hst0 & Hrec) & _ & Hnb & Honly) Hrd] Hst Hc. rewrite Hst in Hst0. injection Hst0 as <-.
  destruct (DefaultCommitBlock _ _ _ _ _) as [st1|] eqn:Hcommit; [|discriminate]. injection Hc as _ <-.
  pose proof (commit_markers w id _ _ st st1 Hrd Hst Hcommit) as (_ & Hm & _).
  assert (id <> b) as Hne by (intros ->; apply (rd_free _ _ _ Hrd s st Hst); left; eauto).
  split.
  - apply (GOOD_set_store D S w s st); [exact Hg|exact Hst|apply (step_commit w id (mkUpload s newRec commits []) (w_now w)); [apply Hg|assumption..]|].
    destruct (commit_spec (w_now w) st newRec commits []) as (st2 & Hc2 & _ & _ & Hrefs).
    { destruct (rd_object _ _ _ Hrd) as (mb & _ & Hug). rewrite (ug_id _ _ _ Hug : br_BlockID newRec = id).
      apply eq_None_not_Some. intros Hr. apply (rd_free _ _ _ Hrd s st Hst). left. exact Hr. }
    rewrite Hcommit in Hc2. injection Hc2 as <-. intros h Hh. destruct (Hrefs h Hh) as [|(r & Hr & _)]; [auto|].
    apply not_elem_of_nil in Hr. contradiction.
  - split; [exact Hnb|]. intros s' st2 h. cbn. rewrite lookup_insert_Some. intros [[<- <-]|[Hns Hs']] Hp.
    + destruct Hp as (loc & Hl & Hb). destruct (Hm h) as [(c & _ & _ & _ & Hl' & Hb')|(Hno & _ & Hl')]; [congruence|].
      destruct (Honly s st h Hst) as (_ & r & Hr & <-); [exists loc; split; [congruence|exact Hb]|]. apply Hno, Hcov, Hr.
    + destruct (Honly s' st2 h Hs' Hp) as [-> _]. contradiction.
Qed.

Lemma triple_repack moveable : triple D S (settled moveable) (repack s b rec data moveable) (fun _ _ => True).
Proof.
  eapply triple_mbind; [apply triple_try, triple_newBlockID|]. intros [id|]; [|apply triple_compact_error].
  destruct (build_block id _) as [[[newBytes newRec] commits]|] eqn:Hb; [|apply triple_compact_error].
  intros w0 Hg0 [Hs0 Hd0]. destruct (built _ _ _ _ _ _ Hg0 Hs0 (proj1 Hd0) Hb) as [Hug Hcov].
  generalize (conj Hs0 Hd0). revert w0 Hg0 Hs0 Hd0. 
  enough (triple D S (fun w => settled moveable w /\ drawn w id) (r ← try (remote_write (PutBlock id newBytes));
    match r with
    | None => compact_error
    | Some _ => r ← try (commit_block s newRec commits []);
        match r with
        | None => compact_error
        | Some _ => gone ← deleteOldBlock s b;
            if gone : bool then compacted (Z.of_nat (length commits)) (br_Length rec - Z.of_nat (length newBytes)) else ret tt
        end
    end) (fun _ _ => True)) as Hrest by (intros w Hg _ _ Hw; apply (Hrest w Hg Hw)).
  eapply triple_mbind; [apply triple_try, (triple_put_new _ _ _ _ Hug)|]. intros [[]|]; [|apply triple_compact_error].
  eapply triple_mbind; [apply triple_try, (triple_commit_new _ _ _ _ Hcov)|]. intros [[]|]; [|apply triple_compact_error].
  eapply triple_mbind; [apply triple_deleteOldBlock|]. intros gone. apply triple_if; intros _; [apply triple_compacted|apply triple_ret; auto].
Qed.

Lemma triple_compact_parsed dryRun :
  triple D S (fun w => object_at w /\ recorded_at s b rec w) (compact_parsed dryRun s b rec data records) (fun _ _ => True).
Proof.
  eapply triple_mbind; [apply triple_try, triple_live_here|]. intros [moveable|]; [|apply triple_compact_error].
  apply (triple_pre _ _ _ (settled moveable)); [intros w; apply sorted_settled|].
  apply triple_if; intros _; [apply triple_ret; auto|]. apply triple_if; intros _; [apply triple_compacted|].
  apply triple_if; intros Hnil; [|apply triple_repack]. apply bool_decide_eq_true in Hnil as ->.
  apply (triple_pre _ _ _ (only nobody b)); [intros w _; apply settled_empty|].
  eapply triple_mbind; [apply triple_deleteOldBlock|]. intros gone. apply triple_if; intros _; [apply triple_compacted|apply triple_ret; auto].
Qed.
End one_block.

(** A block without object: a reference to it would not resolve. *)
Definition vanished (b : BlockID) (w : world) : Prop := ~ new_block w b /\ w_remote w !! b = None.

Lemma stable_vanished b : stable D S (vanished b).
Proof.
  intros w w' _ [Hnb Hno] He. split.
  - intros [Hf|Hin]; apply Hnb; [apply (ev_inflight _ _ _ He), Hf|right; apply (ev_ids _ _ _ He), Hin].
  - apply (ev_absent _ _ _ He); [exact Hno|]. intros Hin. apply Hnb. right. exact Hin.
Qed.

Lemma vanished_abandoned b w : GOOD D S w -> vanished b w -> abandoned b w.
Proof.
  intros Hg [Hnb Hno]. split; [exact Hnb|]. intros s st h Hs Href (loc & Hl & Hb).
  destruct (inv_refs _ (proj1 (proj1 Hg)) _ _ _ Hs Href) as (loc' & Hl' & _ & [mb Hmb]). congruence.
Qed.

Lemma triple_drop_husk s b : triple D S (vanished b) (store_DeleteBlockRecord s b) (fun _ _ => True).
Proof.
  apply triple_meta_write; [apply stable_vanished|]. intros w st a st' Hg Hv Hs [= _ <-]. split; [|exact I].
  apply GOOD_delete_record; [exact Hg|exact Hs|apply vanished_abandoned; assumption].
Qed.

Lemma triple_compactOneBlock dryRun s b : triple D S (fun _ => True) (compactOneBlock dryRun s b) (fun _ _ => True).
Proof.
  eapply triple_mbind.
  { apply triple_try, (triple_meta_read _ _ _ s (fun st => GetBlockRecord st b) (fun o w => match o with Some rec => recorded_at s b rec w | None => True end)); [apply stable_true|].
    intros w st _ _ Hs. unfold GetBlockRecord. destruct (blockRecords st !! b) eqn:Hr; [exists st; auto|exact I]. }
  intros [[rec|]|]; [|apply triple_ret; auto|apply triple_compact_error].
  eapply triple_mbind.
  { apply triple_try, (triple_read _ _ _ (fun w => Some (GetBlock w b))
      (fun o w => match o with Some data => object_at b data w /\ recorded_at s b rec w | None => vanished b w end)); [apply stable_recorded_at|].
    intros w o Hg Hr [= <-]. unfold GetBlock. destruct (w_remote w !! b) as [mb|] eqn:Hmb; cbn [option_map].
    - split; [exists mb; auto|exact Hr].
    - split; [|exact Hmb]. destruct Hr as (st & Hst & Hrec). apply (recorded_not_new w s st); [apply Hg|exact Hst|left; eauto]. }
  intros [[data|]|]; [| |apply triple_compact_error].
  - apply triple_if; intros _; [apply triple_compact_error|].
    destruct (Parse data None) as [e|[id records]] eqn:Hp; [apply triple_compact_error|].
    apply triple_compact_parsed. exists id. exact Hp.
  - apply triple_if; intros _; [apply triple_ret; auto|].
    eapply triple_mbind; [apply triple_try, triple_drop_husk|]. intros [[]|]; [apply triple_ret; auto|apply triple_compact_error].
Qed.

Lemma triple_compact_view o s : triple D S (fun _ => True) (compact_view o s) (fun _ _ => True).
Proof.
  eapply triple_mbind; [apply (triple_meta_read _ _ _ s EnumerateSynced (fun _ _ => True)); auto using stable_true|]. intros l. cbn zeta.
  eapply triple_mbind; [apply (triple_meta_read _ _ _ s _ (fun _ _ => True)); auto using stable_true|]. intros recs.
  eapply triple_mbind; [apply (triple_tally D S (fun _ => True)); auto|]. intros [].
  apply (triple_forM D S (fun _ _ => True)). intros [] id _.
  eapply triple_mbind; [apply triple_ctx_err, stable_true|]. intros []. apply triple_compactOneBlock.
Qed.

Lemma triple_CompactBlocks o views : triple D S (fun _ => True) (CompactBlocks o views) (fun _ _ => True).
Proof.
  eapply triple_mbind; [apply (triple_tally D S (fun _ => True)); auto|]. intros [].
  apply triple_if; intros _; [apply triple_ret; auto|]. apply (triple_forM D S (fun _ _ => True)). intros [] s _. apply triple_compact_view.
Qed.

(** *** The stores of the shares *)

Lemma triple_available shares :
  triple D S (fun _ => True) (available_stores shares) (fun l _ => forall s, s ∈ l -> s ∈ stores_of shares).
Proof.
  eapply triple_pre; [|apply (triple_forM D S (fun l _ => forall s, s ∈ l -> s ∈ stores_of shares))].
  { intros w _ _ s Hs. apply not_elem_of_nil in Hs. contradiction. }
  intros acc share Hin w0 Hg0 Hacc. generalize I. revert w0 Hg0.
  change (triple D S (fun _ => True) (r ← try (GetMetadataStoreForShare share); ret (match r with Some s => acc ++ [s] | None => acc end))
    (fun l _ => forall s, s ∈ l -> s ∈ stores_of shares)).
  eapply triple_mbind; [apply triple_try, (triple_read _ _ _ (fun _ => storeOf share) (fun s _ => storeOf share = Some s)); auto using stable_true|].
  intros [s|]; apply triple_ret; [|auto]. intros w _ Hs s'. rewrite elem_of_app, list_elem_of_singleton.
  intros [| ->]; [auto|]. apply list_elem_of_omap. exists share. auto.
Qed.

Lemma triple_compactRemote shares dryRun o : triple D S (fun _ => True) (compactRemoteForEntry shares dryRun o) (fun _ _ => True).
Proof.
  unfold compactRemoteForEntry. apply triple_if; intros _; [apply triple_ret; auto|].
  eapply triple_mbind; [apply triple_available|]. intros views. apply triple_if; intros _; [apply triple_ret; auto|].
  eapply triple_mbind; [apply (triple_pre _ _ _ (fun _ => True)); [auto|apply triple_try, triple_CompactBlocks]|]. intros r. apply triple_ret. auto.
Qed.
End compaction.
End collect.
