(* ===== verification/BlockRun.v ===== *)
(** * Runs of maintenance lose no referenced chunk

    A whole collection with its compaction, a whole reconciliation, and what the
    invariant of [BlockInv] means to a reader. *)

From S2P Require Import Prelude.
From S2P Require Import HoleMap.
From S2P Require Import JournalCarve.
From S2P Require Import BlockCodec.
From S2P Require Import BlockMeta.
From S2P Require Import BlockWorld.
From S2P Require Import BlockMaint.
From S2P Require Import BlockInv.
From S2P Require Import BlockSafe.
From S2P Require Import BlockCollect.

Section run.
Context `{DL : DeploymentLaws}.

Lemma keeps_deleteOldBlock s b : keeps (deleteOldBlock s b).
Proof. unfold deleteOldBlock, store_DeleteBlockRecord, remote_write, compact_error, on_compact. keeps_all. Qed.

Lemma keeps_newBlockID : keeps newBlockID.
Proof. apply keeps_call. intros w. unfold new_id. destruct (w_ids w); reflexivity. Qed.

Lemma keeps_compactOneBlock dryRun s b : keeps (compactOneBlock dryRun s b).
Proof.
  unfold compactOneBlock, compact_parsed, repack, live_here, commit_block, store_DeleteBlockRecord, remote_write, remote_read,
    compact_error, compacted, on_compact.
  keeps_all; first [apply keeps_deleteOldBlock|apply keeps_newBlockID].
Qed.

Lemma keeps_compactRemote shares dryRun o : keeps (compactRemoteForEntry shares dryRun o).
Proof.
  unfold compactRemoteForEntry, available_stores, GetMetadataStoreForShare, CompactBlocks, compact_view, on_compact, ctx_err.
  keeps_all; apply keeps_compactOneBlock.
Qed.

(** ** A whole collection *)

(** The hashes other threads are about to upload or to commit. *)
Definition uploading (w : world) (h : ContentHash) : Prop :=
  (exists id up, w_inflight w !! id = Some up /\ hashes_of (up_commits up) h) \/
  (exists t s chunks c, t ∈ w_sched w /\ AUpload s chunks ∈ t_env t /\ c ∈ chunks /\ cc_Hash c = h).

Definition synced_in (w : world) (h : ContentHash) : Prop := exists s st, w_stores w !! s = Some st /\ is_Some (synced st !! h).

Definition valid_schedule (w : world) : Prop := Forall (fun t => Forall valid_action (t_env t)) (w_sched w).

(** The lookups before a collection and its first step. *)
Definition gc_prologue (shares : list string) : M (option (list string) * option (list string) * option unit) :=
  idx ← syncedHashStoreForShares shares;
  u ← blockReclaimerForEntry shares;
  g ← beginGC;
  ret (idx, u, g).

(** The state when the collector takes its snapshot time. *)
Definition at_snapshot (shares : list string) (w : world) : world := (gc_prologue shares w).2.

Definition nothing (h : ContentHash) : Prop := False.

Lemma GOOD_nothing w : Inv w -> valid_schedule w -> GOOD nothing [] w.
Proof.
  intros HI Hv. split; [split; [exact HI|intros id up h _ _ []]|]. split.
  - eapply Forall_impl; [exact Hv|]. cbn. intros t Ht. eapply Forall_impl; [exact Ht|]. cbn. intros a Ha. split; [exact Ha|].
    destruct a; try exact I. apply Forall_forall. intros c _ [].
  - intros s st h Hs. apply not_elem_of_nil in Hs. contradiction.
Qed.

Lemma GOOD_valid D S w : GOOD D S w -> Inv w /\ valid_schedule w.
Proof.
  intros ((HI & _) & Hr & _). split; [exact HI|]. eapply Forall_impl; [exact Hr|]. cbn. intros t Ht.
  eapply Forall_impl; [exact Ht|]. cbn. intros a [Ha _]. exact Ha.
Qed.

Lemma GOOD_doomed D w : Inv w -> valid_schedule w -> (forall h, uploading w h -> ~ D h) -> GOOD D [] w.
Proof.
  intros HI Hv Hno. split; [split; [exact HI|]|split].
  - intros id up h Hup Hh. apply Hno. left. eauto.
  - apply Forall_forall. intros t Ht. apply Forall_forall. intros a Ha.
    pose proof (proj1 (Forall_forall _ _) (proj1 (Forall_forall _ _) Hv t Ht) a Ha) as Hva. split; [exact Hva|].
    destruct a as [s chunks| | | | | | | | | |]; try exact I. apply Forall_forall. intros c Hc. apply Hno. right. exists t, s, chunks, c. auto.
  - intros s st h Hs. apply not_elem_of_nil in Hs. contradiction.
Qed.

Lemma GOOD_marked D S0 snap shares w : marked D S0 snap shares w -> (forall h, D h -> h ∉ g_db (w_gcs w)) ->
  GOOD D [] w -> GOOD D (stores_of shares) w.
Proof.
  intros (_ & Hc & Hb) Hd (Hf & Hr & _). split; [exact Hf|]. split; [exact Hr|]. intros s st h Hin Hs Hdh Href.
  destruct (Hc s Hin st h Hs Hdh Href) as [[Hh|Hh]|Hnil]; [apply (Hd h Hdh Hh)| |apply not_elem_of_nil in Hnil; exact Hnil].
  rewrite Hb in Hh. apply not_elem_of_nil in Hh. exact Hh.
Qed.

Lemma resolve_nonneg period set : 0 <= resolveGracePeriod period set.
Proof.
  unfold resolveGracePeriod, hour. destruct set; [destruct (Z.ltb_spec period 0); lia|]. destruct (Z.leb_spec period 0); lia.
Qed.

Lemma triple_prologue shares :
  triple nothing [] (fun _ => True) (gc_prologue shares)
    (fun r _ => forall l s, r.1.1 = Some l \/ r.1.2 = Some l -> s ∈ l -> s ∈ stores_of shares).
Proof.
  assert (Hone : triple nothing [] (fun _ => True) (l ← available_stores shares; ret (none_if_empty l))
            (fun o _ => forall l s, o = Some l -> s ∈ l -> s ∈ stores_of shares)).
  { eapply triple_mbind; [apply triple_available|]. intros l. apply triple_ret. intros w _ Hl l' s. unfold none_if_empty.
    destruct (bool_decide _); [discriminate|]. intros [= <-]. apply Hl. }
  eapply triple_mbind; [exact Hone|]. intros idx w0 Hg0 Hidx. generalize I. revert w0 Hg0.
  change (triple nothing [] (fun _ => True) (u ← blockReclaimerForEntry shares; g ← beginGC; ret (idx, u, g))
    (fun r _ => forall l s, r.1.1 = Some l \/ r.1.2 = Some l -> s ∈ l -> s ∈ stores_of shares)).
  eapply triple_mbind; [exact Hone|]. intros u w0 Hg0 Hu. generalize I. revert w0 Hg0.
  change (triple nothing [] (fun _ => True) (g ← beginGC; ret (idx, u, g))
    (fun r _ => forall l s, r.1.1 = Some l \/ r.1.2 = Some l -> s ∈ l -> s ∈ stores_of shares)).
  eapply triple_mbind.
  { eapply triple_mbind; [apply (triple_tally nothing [] (fun _ => True)); auto|]. intros []. apply triple_try.
    apply (triple_call nothing [] (fun _ => True) _ (fun _ _ => True)); [apply stable_true|]. intros w Hg _. split; [|auto].
    eapply GOOD_same; [| |exact Hg]; [repeat split|reflexivity]. }
  intros g. apply triple_ret. intros w _ _ l s [Hl|Hl]; cbn in Hl; [apply Hidx, Hl|apply Hu, Hl].
Qed.
Definition gc_sweep (o : Options) (snapshotTime : Z) : M unit :=
  match SyncedHashIndex o with
  | Some idx => sweepFromSyncedIndex o idx snapshotTime (resolveGracePeriod (GracePeriod o) (GracePeriodSet o))
                  (if DryRunSampleSize o <=? 0 then 1000 else DryRunSampleSize o)
  | None => addError
  end.

Definition gc_epilogue (shares : list string) (o : Options) (co : CompactOptions) (g : option unit) : M unit :=
  match g with
  | None => (_ ← addError; compactRemoteForEntry shares (DryRun o) co)
  | Some _ =>
      snapshotTime ← gets w_now;
      m ← try (markPhase shares (HoldProvider o));
      match m with
      | None => (_ ← addError; compactRemoteForEntry shares (DryRun o) co)
      | Some _ => (_ ← gc_sweep o snapshotTime; compactRemoteForEntry shares (DryRun o) co)
      end
  end.

Definition gc_options (rq : GCRequest) (hold : option (list ContentHash)) (idx u : option (list string)) : Options :=
  mkOptions (rq_DryRun rq) (rq_Grace rq) (rq_GraceSet rq) (rq_Sample rq) hold idx u.

Lemma run_split shares rq hold co w :
  runBlockGC shares rq hold co w =
  bind (gc_prologue shares) (fun r => gc_epilogue shares (gc_options rq hold r.1.1 r.1.2) co r.2) w.
Proof.
  unfold runBlockGC, gc_prologue, collectGarbage, mbind, M_bind, bind.
  destruct (syncedHashStoreForShares shares w) as [[idx| |] w1]; [|reflexivity..].
  destruct (blockReclaimerForEntry shares w1) as [[u| |] w2]; [|reflexivity..]. cbn zeta.
  destruct (beginGC w2) as [[[g|]| |] w3]; [|reflexivity..]. cbn. unfold mbind, M_bind, bind, gets. 
  destruct (try (markPhase shares hold) w3) as [[[m|]| |] w4]; reflexivity.
Qed.

Lemma keeps_finish shares o co snapshotTime : keeps (_ ← gc_sweep o snapshotTime; compactRemoteForEntry shares (DryRun o) co).
Proof.
  apply keeps_mbind; [|intros []; apply keeps_compactRemote]. unfold gc_sweep.
  destruct (SyncedHashIndex o); [apply keeps_sweep|]. unfold addError, on_gc. keeps_all.
Qed.

Lemma triple_finish D S0 snap S shares o co G :
  g_batch G = [] -> (forall l s, SyncedHashIndex o = Some l \/ BlockReclaimer o = Some l -> s ∈ l -> s ∈ S) ->
  (forall h, S0 h -> h ∉ g_db G -> D h) ->
  triple D S (fun w => stamps S0 snap w /\ gcs_is G w) (_ ← gc_sweep o snap; compactRemoteForEntry shares (DryRun o) co) (fun _ _ => True).
Proof.
  intros Hb Hin Hd. apply (triple_mbind D S _ _ _ (fun _ _ => True)); [|intros []; apply triple_compactRemote]. unfold gc_sweep.
  destruct (SyncedHashIndex o) as [idx|] eqn:Hi; [|apply triple_addError].
  apply triple_sweep; [exact Hb|apply resolve_nonneg|intros s; apply (Hin idx s); auto|intros u s Hu; apply (Hin u s); auto|exact Hd].
Qed.

Lemma triple_stop D S P shares dryRun co : triple D S P (_ ← addError; compactRemoteForEntry shares dryRun co) (fun _ _ => True).
Proof. eapply triple_mbind; [apply triple_addError|]. intros []. apply triple_compactRemote. Qed.

Lemma epilogue_safe shares o co g w1 :
  let D h := synced_in w1 h /\ h ∉ g_db (w_gcs (gc_epilogue shares o co g w1).2) in
  GOOD D [] w1 -> (forall l s, SyncedHashIndex o = Some l \/ BlockReclaimer o = Some l -> s ∈ l -> s ∈ stores_of shares) ->
  exists S, GOOD D S (gc_epilogue shares o co g w1).2.
Proof.
  intros D Hg Hin. remember (gc_epilogue shares o co g w1).2 as w' eqn:Hw'.
  unfold gc_epilogue in Hw'. destruct g as [[]|].
  2:{ exists []. subst w'. apply (triple_stop D [] (fun _ => True) shares (DryRun o) co w1 Hg I). }
  unfold mbind, M_bind, bind, gets in Hw'. cbn in Hw'.
  assert (Hst : stamps (synced_in w1) (w_now w1) w1).
  { split; [lia|]. intros s st h t Hs Ht. left. exists s, st. eauto. }
  destruct (triple_try _ _ _ _ _ (triple_markPhase D (synced_in w1) (w_now w1) shares (HoldProvider o)) w1 Hg Hst) as [Hg2 Hm].
  destruct (try (markPhase shares (HoldProvider o)) w1) as [[[m|]| |] w2]; cbn [fst snd] in *; [|exists []..]; [| |subst w'; exact Hg2..].
  2:{ subst w'. apply (triple_stop D [] (fun _ => True) shares (DryRun o) co w2 Hg2 I). }
  specialize (Hm (Some m) eq_refl). cbn in Hm. pose proof Hm as (Hst2 & _ & Hb).
  assert (Hkeep : w_gcs w' = w_gcs w2) by (subst w'; apply keeps_finish, Hb).
  assert (Hg3 : GOOD D (stores_of shares) w2).
  { eapply GOOD_marked; [exact Hm| |exact Hg2]. intros h [_ Hno]. rewrite <- Hkeep. exact Hno. }
  exists (stores_of shares). subst w'.
  apply (triple_finish D (synced_in w1) (w_now w1) (stores_of shares) shares o co (w_gcs w2)); auto.
  - intros h Hs Hno. split; [exact Hs|]. rewrite Hkeep. exact Hno.
  - split; [exact Hst2|reflexivity].
Qed.

(** No chunk that is dead for the collector is being uploaded again. *)
Definition no_resurrection (shares : list string) (w w' : world) : Prop :=
  forall h, uploading (at_snapshot shares w) h -> synced_in (at_snapshot shares w) h -> h ∈ g_db (w_gcs w').

Lemma gc_good shares rq hold co w :
  Inv w -> valid_schedule w -> no_resurrection shares w (runBlockGC shares rq hold co w).2 ->
  Inv (runBlockGC shares rq hold co w).2 /\ valid_schedule (runBlockGC shares rq hold co w).2.
Proof.
  intros HI Hv Hno. unfold no_resurrection, at_snapshot in Hno. rewrite run_split in *. unfold bind in *.
  destruct (triple_prologue shares w (GOOD_nothing w HI Hv) I) as [Hg1 Hin].
  destruct (gc_prologue shares w) as [[[[idx u] g]| |] w1]; cbn [fst snd] in *; [|apply (GOOD_valid _ _ _ Hg1)..].
  destruct (GOOD_valid _ _ _ Hg1) as [HI1 Hv1].
  destruct (epilogue_safe shares (gc_options rq hold idx u) co g w1) as [S Hg]; [|apply (Hin _ eq_refl)|apply (GOOD_valid _ _ _ Hg)].
  apply GOOD_doomed; [exact HI1|exact Hv1|]. intros h Hup [Hs Hni]. apply Hni, Hno; assumption.
Qed.
(** ** What a reader sees *)

(** A fetch that nothing disturbs. *)
Definition reads_back (w : world) (s : string) (h : ContentHash) : Prop :=
  exists d, (dispatchRemoteFetch s h (set_sched [] w)).1 = Ret (Fetched d) /\ Sum256 d = h.

Lemma read_window data r : readable data r -> read_range data (r_WireOffset r) (r_WireLength r) = inr (window data r).
Proof.
  intros (H0 & Hl & Hin & _). unfold read_range, window.
  destruct (Z.ltb_spec (r_WireOffset r) 0); [lia|]. destruct (Z.geb_spec (r_WireOffset r) (Z.of_nat (length data))); [lia|]. cbn [orb].
  destruct (Z.leb_spec (r_WireLength r) 0); [lia|]. destruct (Z.leb_spec (r_WireLength r) (Z.of_nat (length data) - r_WireOffset r)); [|lia].
  do 3 f_equal. lia.
Qed.

Lemma Inv_read w s st h loc : Inv w -> w_stores w !! s = Some st -> syncedLocators st !! h = Some loc ->
  is_Some (w_remote w !! cl_BlockID loc) -> exists d, readChunkVerified w loc h = Fetched d /\ Sum256 d = h.
Proof.
  intros HI Hs Hl [mb Hmb]. destruct (inv_holds _ HI _ _ _ _ _ Hs Hl Hmb) as (recs & [id Hp] & Hin).
  destruct (inv_blocks _ HI _ _ Hmb) as (recs' & [id' Hp'] & Hread & _). rewrite Hp in Hp'. injection Hp' as _ <-.
  pose proof (proj1 (Forall_forall _ _) Hread _ Hin) as Hr. pose proof Hr as (_ & _ & _ & d & Hd & Hh).
  exists d. split; [|exact Hh]. unfold readChunkVerified, ReadChunk. rewrite Hmb.
  pose proof (read_window _ _ Hr) as Hw. cbn [r_WireOffset r_WireLength r_Hash] in *. rewrite Hw, Hd.
  rewrite bool_decide_eq_true_2 by exact Hh. reflexivity.
Qed.

Lemma marker_reads w s st h loc : Inv w -> w_stores w !! s = Some st -> syncedLocators st !! h = Some loc ->
  is_Some (w_remote w !! cl_BlockID loc) -> h <> zeroHash -> reads_back w s h.
Proof.
  intros HI Hs Hl Ho Hz.
  destruct (proj1 (inv_wf _ HI _ _ Hs) _ _ Hl) as [[t Ht] Hne]. destruct (Inv_read w s st h loc HI Hs Hl Ho) as (d & Hd & Hh).
  exists d. split; [|exact Hh]. unfold dispatchRemoteFetch.
  assert (IsZero h = false) as -> by (apply bool_decide_eq_false; exact Hz).
  assert (Hget : GetLocator st h = Some loc) by (unfold GetLocator, locator_of; rewrite Ht, Hl; reflexivity).
  unfold resolveAndReadChunk, mbind, M_bind, bind, meta_read, call. cbn. rewrite Hs. cbn. rewrite Hget.
  rewrite standalone_false by exact Hne. unfold readChunkVerified, ReadChunk in *. cbn. rewrite Hd. reflexivity.
Qed.

(** Every chunk the manifests and files of the shares refer to can be fetched,
    and what is fetched has its hash. *)
Definition all_readable (w : world) : Prop :=
  forall s st h, w_stores w !! s = Some st -> referenced st h -> reads_back w s h.

Lemma Inv_readable w : Inv w -> all_readable w.
Proof.
  intros HI s st h Hs Href. destruct (inv_refs _ HI _ _ _ Hs Href) as (loc & Hl & _ & Ho).
  apply (marker_reads w s st h loc); [assumption..|apply Href].
Qed.

(** ** Reconciliation *)

Lemma triple_try_call {A} D S P (f : world -> option A * world) Q :
  stable D S P -> (forall w, GOOD D S w -> P w -> GOOD D S (f w).2 /\ P (f w).2 /\ forall a, (f w).1 = Some a -> Q a (f w).2) ->
  triple D S P (try (call f)) (fun o w => P w /\ match o with Some a => Q a w | None => True end).
Proof.
  intros Hst Hf w Hg Hp. destruct (GOOD_at_call D S w Hg) as [Hg1 He]. pose proof (Hst w _ Hg Hp He) as Hp1.
  destruct (Hf (at_call w) Hg1 Hp1) as (Hg2 & Hp2 & Hq). unfold try, call, at_call in *. destruct (next_turn w) as [t w1]. cbn [fst snd] in *.
  destruct (t_fate t); cbn [fst snd].
  - destruct (f _) as [[a|] w2]; cbn [fst snd] in *; (split; [exact Hg2|]); intros o [= <-]; auto.
  - split; [exact Hg1|]. intros o [= <-]. auto.
  - split; [exact Hg2|]. intros o [= <-]. auto.
  - split; [exact Hg1|]. intros o [=].
Qed.

Section reclaim_records.
(** What else is kept: it survives the other threads and the two deletions. *)
Variable J : world -> Prop.
Hypothesis J_stable : stable nothing [] J.
Hypothesis J_delete : forall w b, J w -> J (DeleteBlock b w).
Hypothesis J_record : forall w s st b, w_stores w !! s = Some st -> J w -> J (set_store s (DeleteBlockRecord st b) w).
Hypothesis J_tally : forall w y, J w -> J (set_tally y w).

Lemma triple_reclaim_tally P f : (forall w y, P w -> P (set_tally y w)) -> triple nothing [] P (on_reclaim f) (fun _ => P).
Proof. intros HP. apply triple_tally. intros w. apply HP. Qed.

Definition unmarked (recs : list BlockRecord) (w : world) : Prop :=
  J w /\ forall rec, rec ∈ recs -> only nobody (br_BlockID rec) w.

Lemma stable_unmarked recs : stable nothing [] (unmarked recs).
Proof.
  apply stable_and; [exact J_stable|]. intros w w' Hg Ho He rec Hin. eapply stable_only; [exact Hg|apply Ho, Hin|exact He].
Qed.

Lemma unmarked_tally recs w y : unmarked recs w -> unmarked recs (set_tally y w).
Proof. intros [Hj Ho]. split; [apply J_tally, Hj|exact Ho]. Qed.

Lemma triple_reclaim_candidate dryRun s recs rec : rec ∈ recs ->
  triple nothing [] (unmarked recs) (reclaim_candidate dryRun s rec) (fun _ => unmarked recs).
Proof.
  intros Hin. unfold reclaim_candidate. apply triple_if; intros _; [apply triple_reclaim_tally, unmarked_tally|].
  eapply triple_mbind.
  { apply (triple_try_call _ _ (unmarked recs) _ (fun _ _ => True)); [apply stable_unmarked|]. intros w Hg [Hj Ho]. cbn [fst snd].
    split; [|split; [split; [apply J_delete, Hj|exact Ho]|auto]].
    apply GOOD_delete_block; [exact Hg|]. apply (only_abandoned nothing [] nobody); [exact Hg|apply dead_nobody|apply Ho, Hin]. }
  intros r. apply (triple_pre _ _ _ (unmarked recs)); [intros w _ [Hu _]; exact Hu|].
  destruct r as [[]|]; [|apply triple_reclaim_tally, unmarked_tally].
  eapply triple_mbind.
  { apply (triple_try_call _ _ (unmarked recs) _ (fun _ _ => True)); [apply stable_unmarked|]. intros w Hg [Hj Ho].
    destruct (w_stores w !! s) as [st|] eqn:Hs; cbn [fst snd]; [|split; [exact Hg|split; [split; assumption|auto]]].
    split; [|split; [split; [apply (J_record _ _ st); assumption|]|auto]].
    - apply GOOD_delete_record; [exact Hg|exact Hs|]. apply (only_abandoned nothing [] nobody); [exact Hg|apply dead_nobody|apply Ho, Hin].
    - intros rec' Hin'. apply (only_set_store _ _ _ _ st); auto. }
  intros r. apply (triple_pre _ _ _ (unmarked recs)); [intros w _ [Hu _]; exact Hu|].
  destruct r as [[]|]; apply triple_reclaim_tally, unmarked_tally.
Qed.

(** The records that were there when the store was walked. *)
Definition walked (s : string) (recs : list BlockRecord) (w : world) : Prop :=
  J w /\ forall rec, rec ∈ recs -> recorded_at s (br_BlockID rec) rec w.

Lemma stable_walked s recs : stable nothing [] (walked s recs).
Proof.
  apply stable_and; [exact J_stable|]. intros w w' Hg Ho He rec Hin. eapply stable_recorded_at; [exact Hg|apply Ho, Hin|exact He].
Qed.

Lemma refSet_spec st h b : wf_store st -> points_to st h b -> b ∈ refSet (EnumerateSynced st).
Proof.
  intros [Hw _] (loc & Hl & <-). destruct (Hw _ _ Hl) as [[t Ht] Hne]. unfold refSet. apply elem_of_list_to_set, list_elem_of_omap.
  exists (h, loc, t). cbn [fst snd]. rewrite standalone_false by exact Hne. split; [|reflexivity].
  unfold EnumerateSynced. apply list_elem_of_fmap. exists (h, t). split; [|apply elem_of_map_to_list, Ht].
  unfold locator_of. rewrite Hl. reflexivity.
Qed.

Lemma triple_reclaim_view dryRun s : triple nothing [] J (reclaim_view dryRun s) (fun _ => J).
Proof.
  eapply triple_mbind.
  { apply (triple_meta_read _ _ _ s (fun st => shuffle _ (WalkBlockRecords st)) (fun recs => walked s recs)); [exact J_stable|].
    intros w st Hg Hj Hs. split; [exact Hj|]. intros rec Hin. rewrite elem_of_shuffle in Hin.
    exists st. split; [exact Hs|]. unfold WalkBlockRecords in Hin. apply list_elem_of_fmap in Hin as ([b rec'] & -> & Hin).
    apply elem_of_map_to_list in Hin. cbn. rewrite (proj1 (proj2 (inv_wf _ (proj1 (proj1 Hg)) _ _ Hs) _ _ Hin)). exact Hin. }
  intros recs. eapply triple_mbind; [apply (triple_reclaim_tally (walked s recs))|].
  { intros w y [Hj Hr]. split; [apply J_tally, Hj|exact Hr]. }
  intros []. eapply triple_mbind.
  { apply (triple_meta_read _ _ _ s EnumerateSynced (fun l => unmarked (List.filter (fun rec => negb (bool_decide (br_BlockID rec ∈ refSet l))) recs))); [apply stable_walked|].
    intros w st Hg [Hj Hr] Hs. split; [exact Hj|]. intros rec Hin. apply list_elem_of_In, filter_In in Hin as [Hin Hno].
    apply list_elem_of_In in Hin. apply negb_true_iff, bool_decide_eq_false in Hno. pose proof (proj1 (proj1 Hg)) as HI.
    destruct (Hr rec Hin) as (st0 & Hs0 & Hrec). rewrite Hs in Hs0. injection Hs0 as <-. assert (Huse : uses st (br_BlockID rec)) by (left; eauto).
    split; [apply (recorded_not_new w s st); assumption|]. intros s' st' h Hs' Hp.
    assert (s' = s) as -> by (apply (inv_owner _ HI s' s st' st (br_BlockID rec)); [assumption..|right; eauto|exact Huse]).
    rewrite Hs in Hs'. injection Hs' as <-. apply Hno, (refSet_spec st h); [apply (inv_wf _ HI _ _ Hs)|exact Hp]. }
  intros l. set (cands := List.filter _ recs). eapply triple_weaken; [intros w _ Hw; exact Hw|apply (triple_forM _ _ (fun _ => unmarked cands))|intros a w _ [Hj _]; exact Hj].
  intros [] rec Hin. eapply triple_mbind; [apply triple_ctx_err, stable_unmarked|]. intros []. apply triple_reclaim_candidate, Hin.
Qed.

Lemma triple_ReclaimRecords dryRun views : triple nothing [] J (ReclaimRecords dryRun views) (fun _ => J).
Proof. apply (triple_forM _ _ (fun _ => J)). intros [] s _. apply triple_reclaim_view. Qed.
End reclaim_records.
(** *** Objects without a record *)

Section orphans.
(** The state when the identifiers begin to be collected. *)
Variable w0 : world.
Variable shares : list string.

Definition settled_before (b : BlockID) : Prop := ~ new_block w0 b.

Definition since (w : world) : Prop :=
  w_now w0 <= w_now w /\
  (forall b mb, w_remote w !! b = Some mb -> w_remote w0 !! b = Some mb \/ w_now w0 <= mb_lastModified mb) /\
  (forall b, settled_before b -> ~ new_block w b) /\
  (forall s, is_Some (w_stores w !! s) -> s ∈ stores_of shares).

Lemma stable_since : stable nothing [] since.
Proof.
  intros w w' _ (Hn & Hr & Hb & Hs) He. pose proof (ev_now _ _ _ He). split; [lia|]. split; [|split].
  - intros b mb Hb'. destruct (ev_fresh _ _ _ He b mb Hb') as [|]; [auto|right; lia].
  - intros b Hsb [Hf|Hin]; apply (Hb b Hsb); [apply (ev_inflight _ _ _ He), Hf|right; apply (ev_ids _ _ _ He), Hin].
  - intros s [st' Hs']. apply Hs. destruct (evolve_store_from _ _ _ _ _ He Hs') as (st & Hst & _). eauto.
Qed.

(** The identifiers of the blocks of a store that were settled. *)
Definition listed (ids : gset BlockID) (s : string) (w : world) : Prop :=
  forall st b, w_stores w !! s = Some st -> is_Some (blockRecords st !! b) -> settled_before b -> b ∈ ids.

Lemma stable_listed ids s : stable nothing [] (fun w => since w /\ listed ids s w).
Proof.
  intros w w' Hg [Hsi Hl] He. split; [eapply stable_since; eassumption|]. intros st' b Hs' Hr Hsb.
  destruct (evolve_store_from _ _ _ _ _ He Hs') as (st & Hst & Hev). destruct (se_new _ _ _ _ Hev b Hr) as [Hr'|Hn]; [apply (Hl st); assumption|].
  exfalso. destruct Hsi as (_ & _ & Hb & _). apply (Hb b Hsb Hn).
Qed.

(** The shares of [rest] have not been walked. *)
Definition collected (rest : list string) (ids : gset BlockID) (ok : bool) (w : world) : Prop :=
  since w /\ (ok = true -> forall s, s ∈ stores_of shares -> s ∈ stores_of rest \/ listed ids s w).

Lemma stable_collected rest ids ok : stable nothing [] (collected rest ids ok).
Proof.
  intros w w' Hg [Hsi Hc] He. split; [eapply stable_since; eassumption|]. intros Hok s Hs.
  destruct (Hc Hok s Hs) as [|Hl]; [auto|]. right. apply (stable_listed ids s w w' Hg (conj Hsi Hl) He).
Qed.

Lemma triple_collect_ids : triple nothing [] since (collect_ids shares) (fun r => collected [] r.1.2 r.2).
Proof.
  eapply triple_pre; [|apply (triple_forM_rest nothing [] (fun rest (acc : list string * gset BlockID * bool) => collected rest acc.1.2 acc.2))].
  { intros w _ Hsi. split; [exact Hsi|]. auto. }
  intros [[views ids] ok] share rest. cbn [fst snd]. eapply triple_mbind.
  { apply (triple_try_call _ _ (collected (share :: rest) ids ok) _ (fun s _ => storeOf share = Some s)); [apply stable_collected|].
    intros w Hg Hc. cbn [fst snd]. auto. }
  intros [s|]; [|apply triple_ret; intros w _ [[Hsi _] _]; split; [exact Hsi|discriminate]].
  intros w1 Hg1 [Hc1 Hs]. revert w1 Hg1 Hc1.
  change (triple nothing [] (collected (share :: rest) ids ok) (r ← try (meta_read s WalkBlockRecords);
    ret (match r with None => (views ++ [s], ids, false) | Some recs => (views ++ [s], ids ∪ list_to_set (map br_BlockID recs), ok) end))
    (fun r => collected rest r.1.2 r.2)).
  eapply triple_mbind.
  { apply (triple_try_call _ _ (collected (share :: rest) ids ok) _
      (fun recs w => listed (list_to_set (map br_BlockID recs)) s w)); [apply stable_collected|].
    intros w Hg Hc. cbn [fst snd]. split; [exact Hg|]. split; [exact Hc|]. intros recs Hr. destruct (w_stores w !! s) as [st|] eqn:Hst; [|discriminate].
    injection Hr as <-. intros st' b Hst' [rec Hrec] _. rewrite Hst in Hst'. injection Hst' as <-. apply elem_of_list_to_set, list_elem_of_fmap.
    exists rec. split; [symmetry; apply (proj2 (inv_wf _ (proj1 (proj1 Hg)) _ _ Hst) _ _ Hrec)|].
    unfold WalkBlockRecords. apply list_elem_of_fmap. exists (b, rec). split; [reflexivity|apply elem_of_map_to_list, Hrec]. }
  intros [recs|]; apply triple_ret; intros w _ [[Hsi Hc] Hl]; cbn [fst snd]; (split; [exact Hsi|]); [|discriminate].
  intros Hok s' Hs'. destruct (Hc Hok s' Hs') as [Hrest|Hl'].
  - apply stores_of_cons in Hrest as [Hst|]; [|auto]. rewrite Hs in Hst. injection Hst as <-. right. intros st b H1 H2 H3.
    apply elem_of_union_r. apply (Hl st b); assumption.
  - right. intros st b H1 H2 H3. apply elem_of_union_l. apply (Hl' st b); assumption.
Qed.

(** What [ReclaimRecords] keeps of it. *)
Lemma collected_delete ids ok w b : collected [] ids ok w -> collected [] ids ok (DeleteBlock b w).
Proof.
  intros [(Hn & Hr & Hb & Hs) Hc]. split; [|exact Hc]. split; [exact Hn|]. split; [|split; assumption].
  intros b' mb. cbn. rewrite lookup_delete_Some. intros [_ Hb']. apply Hr, Hb'.
Qed.

Lemma collected_record ids ok w s st b : w_stores w !! s = Some st -> collected [] ids ok w ->
  collected [] ids ok (set_store s (DeleteBlockRecord st b) w).
Proof.
  intros Hst [(Hn & Hr & Hb & Hs) Hc]. split; [split; [exact Hn|split; [exact Hr|split; [exact Hb|]]]|].
  - intros s'. cbn. rewrite lookup_insert_is_Some'. intros [<-|Hs']; [apply Hs; eauto|apply Hs, Hs'].
  - intros Hok s' Hs'. destruct (Hc Hok s' Hs') as [|Hl]; [auto|]. right. intros st' b' Hst' Hrec Hsb. cbn in Hst'.
    apply lookup_insert_Some in Hst' as [[<- <-]|[_ Hst']]; [|apply (Hl st'); assumption].
    apply (Hl st); [exact Hst| |exact Hsb]. destruct Hrec as [rec Hrec]. cbn in Hrec. apply lookup_delete_Some in Hrec as [_ Hrec]. eauto.
Qed.

Lemma collected_tally ids ok w y : collected [] ids ok w -> collected [] ids ok (set_tally y w).
Proof. intros Hc. exact Hc. Qed.

(** No store has a record of the block, and none will get one. *)
Definition unrecorded (b : BlockID) (w : world) : Prop :=
  ~ new_block w b /\ forall s st, w_stores w !! s = Some st -> blockRecords st !! b = None.

Lemma stable_unrecorded b : stable nothing [] (unrecorded b).
Proof.
  intros w w' _ [Hnb Hr] He. split.
  - intros [Hf|Hin]; apply Hnb; [apply (ev_inflight _ _ _ He), Hf|right; apply (ev_ids _ _ _ He), Hin].
  - intros s st' Hs'. destruct (evolve_store_from _ _ _ _ _ He Hs') as (st & Hst & Hev). apply eq_None_not_Some. intros Hr'.
    destruct (se_new _ _ _ _ Hev b Hr') as [[rec Hrec]|]; [|contradiction]. rewrite (Hr s st Hst) in Hrec. discriminate.
Qed.

Lemma unrecorded_abandoned b w : GOOD nothing [] w -> unrecorded b w -> abandoned b w.
Proof.
  intros Hg [Hnb Hr]. split; [exact Hnb|]. intros s st h Hs Href (loc & Hl & Hb).
  destruct (inv_refs _ (proj1 (proj1 Hg)) _ _ _ Hs Href) as (loc' & Hl' & [rec Hrec] & _). pose proof (Hr s st Hs). congruence.
Qed.

(** Uploads are committed within the grace period, and so is the walk. *)
Definition timely (cutoff : Z) : Prop :=
  cutoff < w_now w0 /\ forall id up mb, w_inflight w0 !! id = Some up -> w_remote w0 !! id = Some mb -> cutoff < mb_lastModified mb.

Lemma orphan_unrecorded ids cutoff w b mb : Inv w0 -> timely cutoff -> collected [] ids true w ->
  w_remote w !! b = Some mb -> b ∉ ids -> mb_lastModified mb <= cutoff -> unrecorded b w.
Proof.
  intros HI [Hcut Hfl] [(Hn & Hr & Hb & Hs) Hc] Hmb Hni Hold.
  destruct (Hr b mb Hmb) as [Hmb0|]; [|lia].
  assert (Hsb : settled_before b).
  { intros [[up Hup]|Hin]; [specialize (Hfl b up mb Hup Hmb0); lia|].
    destruct (proj2 (inv_ids _ HI) b Hin) as [_ (Hun & _)]. congruence. }
  split; [apply Hb, Hsb|]. intros s st Hst. apply eq_None_not_Some. intros Hrec.
  destruct (Hc eq_refl s (Hs s (ex_intro _ st Hst))) as [Hnil|Hl]; [apply not_elem_of_nil in Hnil; exact Hnil|]. apply Hni, (Hl st b Hst Hrec Hsb).
Qed.

Lemma triple_ReclaimOrphans dryRun ids grace now2 : Inv w0 -> timely (now2 - resolveGracePeriod grace false) ->
  triple nothing [] (fun w => collected [] ids true w /\ w_now w = now2) (ReclaimOrphanObjects dryRun ids grace) (fun _ _ => True).
Proof.
  intros HI Ht. eapply triple_mbind; [apply (triple_gets _ _ _ _ (fun n w => n = now2 /\ collected [] ids true w)); intros w _ [Hc Hn]; auto|].
  intros n w1 Hg1 [-> Hc1]. revert w1 Hg1 Hc1. cbn zeta. set (cutoff := now2 - _) in *.
  set (P := fun (l : list (BlockID * Z * Z)) w => forall e, e ∈ List.filter (orphan_candidate ids cutoff) l -> unrecorded e.1.1 w).
  assert (HP : forall l, stable nothing [] (P l)).
  { intros l w w' Hg Hp He e Hin. eapply stable_unrecorded; [exact Hg|apply Hp, Hin|exact He]. }
  enough (triple nothing [] (collected [] ids true) (objs ← remote_read WalkBlocks;
    _ ← on_reclaim (fun r => mkReclaimReport (Reclaimed r) (LeakedReclaimed r) (OrphanObjectsReclaimed r) (BlockRecordsScanned r) (RemoteObjectsScanned r + Z.of_nat (length objs)) (ReclaimErrors r));
    forM (List.filter (orphan_candidate ids cutoff) objs) tt (fun _ e =>
      _ ← ctx_err;
      if dryRun then reclaimed_object e.1.1 e.1.2
      else r ← try (remote_write (DeleteBlock e.1.1)); match r with None => reclaim_error | Some _ => reclaimed_object e.1.1 e.1.2 end))
    (fun _ _ => True)) as Hrest by (intros w Hg Hc; apply (Hrest w Hg Hc)).
  eapply triple_mbind.
  { apply (triple_read _ _ _ (fun w => Some (WalkBlocks w)) P); [apply stable_collected|]. intros w l Hg Hc [= <-] e Hin.
    apply list_elem_of_In, filter_In in Hin as [Hin Hcand]. apply list_elem_of_In in Hin. unfold WalkBlocks in Hin. rewrite elem_of_shuffle in Hin.
    apply list_elem_of_fmap in Hin as ([b mb] & -> & Hin). apply elem_of_map_to_list in Hin. unfold orphan_candidate in Hcand. cbn [fst snd] in *.
    apply andb_true_iff in Hcand as [Hcand Hage]. apply andb_true_iff in Hcand as [Hni _]. apply negb_true_iff, bool_decide_eq_false in Hni.
    destruct (Z.gtb_spec (mb_lastModified mb) cutoff); [discriminate|]. apply (orphan_unrecorded ids cutoff w b mb); assumption. }
  intros l. assert (Htally : forall f, triple nothing [] (P l) (on_reclaim f) (fun _ => P l)) by (intros f; apply triple_tally; intros w Hw; exact Hw).
  eapply triple_mbind; [apply Htally|]. intros [].
  eapply triple_weaken; [intros w _ Hw; exact Hw|apply (triple_forM _ _ (fun _ => P l))|auto].
  intros [] e Hin. eapply triple_mbind; [apply triple_ctx_err, HP|]. intros []. apply triple_if; intros _; [apply Htally|].
  eapply triple_mbind.
  { apply (triple_try_call _ _ (P l) _ (fun _ _ => True)); [apply HP|]. intros w Hg Hp. cbn [fst snd]. split; [|split; [exact Hp|auto]].
    apply GOOD_delete_block; [exact Hg|]. apply unrecorded_abandoned; [exact Hg|apply Hp, Hin]. }
  intros r. apply (triple_pre _ _ _ (P l)); [intros w _ [Hp _]; exact Hp|]. destruct r as [[]|]; apply Htally.
Qed.
End orphans.

(** The part of a reconciliation before objects are listed. *)
Definition reclaim_prologue (shares : list string) (dryRun : bool) : M (gset BlockID * bool) :=
  _ ← on_reclaim (fun _ => emptyReclaim);
  _ ← ctx_err;
  r ← collect_ids shares;
  _ ← ctx_err;
  _ ← ReclaimRecords dryRun r.1.1;
  ret (r.1.2, r.2).

Lemma reconcile_split shares dryRun grace w :
  ReconcileReclaim shares dryRun grace w =
  bind (reclaim_prologue shares dryRun) (fun r => if r.2 : bool then ReclaimOrphanObjects dryRun r.1 grace else ret tt) w.
Proof.
  unfold ReconcileReclaim, reclaim_prologue, mbind, M_bind, bind.
  destruct (on_reclaim _ w) as [[?| |] w1]; [|reflexivity..]. destruct (ctx_err w1) as [[?| |] w2]; [|reflexivity..].
  destruct (collect_ids shares w2) as [[r| |] w3]; [|reflexivity..]. destruct (ctx_err w3) as [[?| |] w4]; [|reflexivity..].
  destruct (ReclaimRecords dryRun r.1.1 w4) as [[?| |] w5]; reflexivity.
Qed.

Lemma triple_reclaim_prologue w0 shares dryRun :
  triple nothing [] (since w0 shares) (reclaim_prologue shares dryRun) (fun r => collected w0 shares [] r.1 r.2).
Proof.
  eapply triple_mbind; [apply (triple_reclaim_tally (since w0 shares)); intros w y Hw; exact Hw|]. intros [].
  eapply triple_mbind; [apply triple_ctx_err, stable_since|]. intros [].
  eapply triple_mbind; [apply triple_collect_ids|]. intros [[views ids] ok]. cbn [fst snd].
  eapply triple_mbind; [apply triple_ctx_err, stable_collected|]. intros [].
  eapply triple_mbind.
  { apply (triple_ReclaimRecords (collected w0 shares [] ids ok));
      [apply stable_collected|intros w b; apply collected_delete|intros w s st b; apply collected_record|intros w y; apply collected_tally]. }
  intros []. apply triple_ret. intros w _ Hc. exact Hc.
Qed.

(** When the objects are listed, the walk and every upload in flight at its start
    are younger than the grace period. *)
Definition timely_reclaim (shares : list string) (dryRun : bool) (grace : Z) (w : world) : Prop :=
  timely w (w_now (reclaim_prologue shares dryRun w).2 - resolveGracePeriod grace false).

Lemma reconcile_good shares dryRun grace w :
  Inv w -> valid_schedule w -> (forall s, is_Some (w_stores w !! s) -> s ∈ stores_of shares) -> timely_reclaim shares dryRun grace w ->
  Inv (ReconcileReclaim shares dryRun grace w).2 /\ valid_schedule (ReconcileReclaim shares dryRun grace w).2.
Proof.
  intros HI Hv Hall Ht. unfold timely_reclaim in Ht. rewrite reconcile_split. unfold bind.
  assert (Hsi : since w shares w) by (split; [lia|split; [auto|split; [auto|exact Hall]]]).
  destruct (triple_reclaim_prologue w shares dryRun w (GOOD_nothing w HI Hv) Hsi) as [Hg Hc].
  destruct (reclaim_prologue shares dryRun w) as [[[ids ok]| |] w1]; cbn [fst snd] in *; [|apply (GOOD_valid _ _ _ Hg)..].
  specialize (Hc _ eq_refl). cbn [fst snd] in Hc. destruct ok; [|apply (GOOD_valid _ _ _ Hg)].
  destruct (triple_ReclaimOrphans w shares dryRun ids grace (w_now w1) HI Ht w1 Hg) as [Hg' _]; [auto|]. apply (GOOD_valid _ _ _ Hg').
Qed.
(** ** Committing carved chunks *)

Lemma GOOD_set_store_any w s st st' : GOOD nothing [] w -> w_stores w !! s = Some st -> store_step w s st st' -> GOOD nothing [] (set_store s st' w).
Proof.
  intros Hg Hs Hstep. destruct (GOOD_valid _ _ _ Hg) as [HI Hv]. apply GOOD_nothing; [|exact Hv]. eapply Inv_set_store; eassumption.
Qed.

Lemma triple_CommitBlock s chunks : Forall valid_chunk chunks -> Z.of_nat (length chunks) < 2 ^ 32 ->
  triple nothing [] (fun _ => True) (CommitBlock s chunks)
    (fun _ w => forall c, c ∈ chunks -> cc_Hash c <> zeroHash -> reads_back w s (cc_Hash c)).
Proof.
  intros Hv Hlen. unfold CommitBlock. destruct (bool_decide (chunks = [])) eqn:He.
  { apply bool_decide_eq_true in He as ->. apply triple_ret. intros w _ _ c Hc. apply not_elem_of_nil in Hc. contradiction. }
  eapply triple_mbind.
  { apply (triple_call _ _ _ new_id (fun id w => drawn w id)); [apply stable_true|]. intros w Hg _.
    destruct (GOOD_valid _ _ _ Hg) as [HI Hvs]. destruct (new_id w) as [[id|] w1] eqn:Hnew; cbn [fst snd].
    - destruct (Inv_draw _ _ _ HI Hnew) as [HI1 Hdr]. split; [|intros a [= <-]; exact Hdr]. apply GOOD_nothing; [exact HI1|].
      unfold new_id in Hnew. destruct (w_ids w); [discriminate|]. injection Hnew as _ <-. exact Hvs.
    - unfold new_id in Hnew. destruct (w_ids w); [|discriminate]. injection Hnew as <-. split; [exact Hg|]. intros a [=]. }
  intros id. destruct (prepare_block id chunks) as [[[[data rec] commits] rows]|] eqn:Hp; [|apply triple_fail].
  intros w0 Hg0 Hd0. destruct (prepare_good s id chunks data rec commits rows (proj1 Hd0) Hv Hlen Hp) as [Hug _].
  assert (Hcover : forall c, c ∈ chunks -> hashes_of commits (cc_Hash c)).
  { intros c Hc. pose proof (proj1 (Forall_forall _ _) (ug_rows _ _ _ Hug) (file_chunk c)) as Hrow. apply Hrow. cbn.
    unfold prepare_block in Hp. destruct (seal_chunks chunks); [|discriminate]. destruct (build_block id l); [|discriminate].
    injection Hp as _ <-. apply list_elem_of_fmap. exists c. auto. }
  revert w0 Hg0 Hd0. change (triple nothing [] (fun w => drawn w id) (_ ← remote_write (PutBlock id data); commit_block s rec commits rows)
    (fun _ w => forall c, c ∈ chunks -> cc_Hash c <> zeroHash -> reads_back w s (cc_Hash c))).
  eapply triple_mbind.
  { apply (triple_remote_write _ _ _ _ (fun _ w => ready w id (mkUpload s rec commits rows))); [apply stable_drawn|].
    intros w Hg Hdr. destruct (GOOD_valid _ _ _ Hg) as [HI Hvs]. split; [|apply put_ready; assumption].
    apply GOOD_nothing; [|exact Hvs]. apply Inv_put; [exact HI|exact Hdr|apply (ug_block _ _ _ Hug)]. }
  intros []. apply triple_meta_write; [apply stable_ready|]. intros w st a st' Hg Hrd Hst Hc.
  destruct (DefaultCommitBlock _ _ _ _ _) as [st1|] eqn:Hcommit; [|discriminate]. injection Hc as _ <-.
  assert (Hg' : GOOD nothing [] (set_store s st1 w)).
  { apply (GOOD_set_store_any w s st); [exact Hg|exact Hst|]. apply (step_commit w id (mkUpload s rec commits rows) (w_now w)); [apply Hg|assumption..]. }
  split; [exact Hg'|]. intros c Hc Hz. destruct (commit_markers w id _ _ st st1 Hrd Hst Hcommit) as (_ & Hm & _).
  destruct (Hm (cc_Hash c)) as [(cm & _ & _ & _ & Hl & Hb)|(Hno & _)]; [|exfalso; apply Hno, Hcover, Hc].
  apply (marker_reads _ s st1 _ (bc_Remote cm)); [apply (GOOD_valid _ _ _ Hg')|apply lookup_insert_eq|exact Hl| |exact Hz].
  rewrite Hb. destruct (rd_object _ _ _ Hrd) as (mb & Hmb & _). exists mb. exact Hmb.
Qed.

Lemma commit_good s chunks w : Inv w -> valid_schedule w -> Forall valid_chunk chunks -> Z.of_nat (length chunks) < 2 ^ 32 ->
  Inv (CommitBlock s chunks w).2 /\ valid_schedule (CommitBlock s chunks w).2.
Proof.
  intros HI Hv Hc Hl. destruct (triple_CommitBlock s chunks Hc Hl w (GOOD_nothing w HI Hv) I) as [Hg _]. apply (GOOD_valid _ _ _ Hg).
Qed.

(** ** Everything that can happen to a remote store *)

Definition fresh_world (w : world) : Prop :=
  (forall s st, w_stores w !! s = Some st -> st = emptyStore) /\ w_remote w = ∅ /\ w_inflight w = ∅ /\
  NoDup (w_ids w) /\ Forall id_ok (w_ids w) /\ valid_schedule w.

Lemma fresh_Inv w : fresh_world w -> Inv w.
Proof.
  intros (Hs & Hr & Hf & Hnd & Hok & _).
  assert (Hno : forall s st b, w_stores w !! s = Some st -> ~ uses st b).
  { intros s st b Hst. rewrite (Hs s st Hst). intros [[rec Hb]|(h & loc & Hl & _)]; cbn in *; rewrite lookup_empty in *; discriminate. }
  constructor.
  - intros s st h Hst [_ Hh]. rewrite (Hs s st Hst) in Hh. apply not_elem_of_nil in Hh. contradiction.
  - intros s st Hst. rewrite (Hs s st Hst). split; intros ? ?; cbn; rewrite lookup_empty; discriminate.
  - intros b mb. rewrite Hr, lookup_empty. discriminate.
  - intros s st h loc mb Hst. rewrite (Hs s st Hst). cbn. rewrite lookup_empty. discriminate.
  - intros s s' st st' b Hst _ Hu. exfalso. apply (Hno _ _ _ Hst Hu).
  - split; [exact Hnd|]. intros id Hid. split; [apply (proj1 (Forall_forall _ _) Hok id Hid)|].
    split; [rewrite Hr; apply lookup_empty|]. split; [rewrite Hf; apply lookup_empty|]. intros s st Hst. apply (Hno _ _ _ Hst).
  - intros id up. rewrite Hf, lookup_empty. discriminate.
Qed.

(** A fresh server, any schedule of the other threads' actions and of failures,
    and runs of the block sink, of the collector, of compaction and of
    reconciliation, whole or cut short by an error or a crash. *)
Inductive reachable : world -> Prop :=
  | reach_fresh w : fresh_world w -> reachable w
  | reach_schedule w sched : reachable w -> Forall (fun t => Forall valid_action (t_env t)) sched -> reachable (set_sched sched w)
  | reach_act w a : reachable w -> valid_action a -> reachable (act a w)
  | reach_commit w s chunks : reachable w -> Forall valid_chunk chunks -> Z.of_nat (length chunks) < 2 ^ 32 ->
      reachable (CommitBlock s chunks w).2
  | reach_gc w shares rq hold co : reachable w -> no_resurrection shares w (runBlockGC shares rq hold co w).2 ->
      reachable (runBlockGC shares rq hold co w).2
  | reach_compact w o views : reachable w -> reachable (CompactBlocks o views w).2
  | reach_reconcile w shares dryRun grace : reachable w -> (forall s, is_Some (w_stores w !! s) -> s ∈ stores_of shares) ->
      timely_reclaim shares dryRun grace w -> reachable (ReconcileReclaim shares dryRun grace w).2.

Lemma act_sched a w : w_sched (act a w) = w_sched w.
Proof.
  unfold act. assert (Hm : forall s f w0, w_sched (on_meta s f w0) = w_sched w0).
  { intros s f w0. unfold on_meta. destruct (w_stores w0 !! s); [|reflexivity]. destruct (f _ _); reflexivity. }
  destruct a; cbn [perform]; try (rewrite Hm; reflexivity); try reflexivity.
  - unfold start_upload. destruct (_ || _); [reflexivity|]. unfold new_id. cbn [tick w_ids]. destruct (w_ids w); [reflexivity|].
    destruct (prepare_block _ _) as [[[[? ?] ?] ?]|]; reflexivity.
  - unfold commit_upload. destruct (w_inflight _ !! id); [|reflexivity]. destruct (w_stores _ !! _); [|reflexivity].
    destruct (DefaultCommitBlock _ _ _ _ _); reflexivity.
Qed.

Lemma reachable_Inv w : reachable w -> Inv w /\ valid_schedule w.
Proof.
  induction 1 as [w Hf|w sched _ [HI Hv] Hs|w a _ [HI Hv] Ha|w s chunks _ [HI Hv] Hc Hl|w shares rq hold co _ [HI Hv] Hno|w o views _ [HI Hv]|w shares dryRun grace _ [HI Hv] Hall Ht].
  - split; [apply fresh_Inv, Hf|apply Hf].
  - split; [eapply Inv_same; [|exact HI]; repeat split|exact Hs].
  - assert (Hfine : fine nothing w) by (split; [exact HI|intros id up h _ _ []]).
    destruct (act_fine nothing a w Hfine) as ((HI' & _) & _).
    { split; [exact Ha|]. destruct a; try exact I. apply Forall_forall. intros c _ []. }
    split; [exact HI'|]. unfold valid_schedule. rewrite act_sched. exact Hv.
  - apply commit_good; assumption.
  - apply gc_good; assumption.
  - destruct (triple_CompactBlocks nothing [] o views w (GOOD_nothing w HI Hv) I) as [Hg _]. apply (GOOD_valid _ _ _ Hg).
  - apply reconcile_good; assumption.
Qed.
(** C6: whatever happens to a remote store - uploads, commits, reaping, clones and
    unlinks of other threads between any two calls, collections with compaction,
    compactions and reconciliations, each whole, failing at any call or cut by a
    crash - every chunk a manifest row or a linked file refers to can be fetched
    and has its hash.  The conditions are those of [reachable]: the chunks handed
    in carry their hashes and the drawn block ids are fresh; no dead chunk is
    uploaded again during a collection ([no_resurrection]); and a reconciliation
    covers every store of the remote, and its grace period is longer than its own
    walk, from its start (the wait for the remote lock included) to the listing of
    the remote objects, and than the age, at that listing, of every upload under
    way at its start ([timely_reclaim]; a longer walk deletes live blocks). *)
Theorem remote_chunks_readable w : reachable w -> all_readable w.
Proof. intros Hr. apply Inv_readable, (reachable_Inv w Hr). Qed.

(** C8: when the block sink returns without error, every chunk it was handed can
    be fetched from the remote store. *)
Theorem committed_chunks_readable s chunks w w' :
  reachable w -> Forall valid_chunk chunks -> Z.of_nat (length chunks) < 2 ^ 32 -> CommitBlock s chunks w = (Ret tt, w') ->
  forall c, c ∈ chunks -> cc_Hash c <> zeroHash -> reads_back w' s (cc_Hash c).
Proof.
  intros Hr Hv Hl He. destruct (reachable_Inv w Hr) as [HI Hvs].
  destruct (triple_CommitBlock s chunks Hv Hl w (GOOD_nothing w HI Hvs) I) as [_ Hq]. rewrite He in Hq. apply (Hq tt eq_refl).
Qed.
End run.
