(* ===== verification/BlockLive.v ===== *)
(** * A collection that nothing disturbs collects

    Without other threads and without failures every call returns, and a chunk
    whose markers are old enough and that nothing refers to loses its markers. *)

From S2P Require Import Prelude.
From S2P Require Import HoleMap.
From S2P Require Import JournalCarve.
From S2P Require Import BlockCodec.
From S2P Require Import BlockMeta.
From S2P Require Import BlockWorld.
From S2P Require Import BlockMaint.
From S2P Require Import BlockInv.
From S2P Require Import BlockSafe.
From S2P Require Import BlockCollect.

Section live.
Context `{DL : DeploymentLaws}.

(** ** Total triples *)

Definition quiet (w : world) : Prop := w_sched w = [].

Definition total {A} (P : world -> Prop) (m : M A) (Q : A -> world -> Prop) : Prop :=
  forall w, quiet w -> P w -> exists a w', m w = (Ret a, w') /\ quiet w' /\ Q a w'.

(** Time does not matter. *)
Definition timeless (P : world -> Prop) : Prop := forall w, P w -> P (tick 1 w).

Lemma total_ret {A} (P : world -> Prop) (a : A) (Q : A -> world -> Prop) : (forall w, P w -> Q a w) -> total P (ret a) Q.
Proof. intros HQ w Hq Hp. exists a, w. auto. Qed.

Lemma total_mbind {A B} P (m : M A) (k : A -> M B) R Q : total P m R -> (forall a, total (R a) (k a) Q) -> total P (mbind k m) Q.
Proof.
  intros Hm Hk w Hq Hp. destruct (Hm w Hq Hp) as (a & w1 & He & Hq1 & Hr). unfold mbind, M_bind, bind. rewrite He. apply (Hk a w1 Hq1 Hr).
Qed.

Lemma total_try {A} P (m : M A) Q : total P m Q -> total P (try m) (fun o w => match o with Some a => Q a w | None => False end).
Proof. intros Hm w Hq Hp. destruct (Hm w Hq Hp) as (a & w1 & He & Hq1 & Hr). exists (Some a), w1. unfold try. rewrite He. auto. Qed.

Lemma total_weaken {A} (P P' : world -> Prop) (m : M A) (Q Q' : A -> world -> Prop) :
  (forall w, P w -> P' w) -> total P' m Q' -> (forall a w, Q' a w -> Q a w) -> total P m Q.
Proof. intros Hp Hm Hq w Hw Hpw. destruct (Hm w Hw (Hp w Hpw)) as (a & w1 & He & Hq1 & Hr). exists a, w1. auto. Qed.

Lemma total_get {A} (P : world -> Prop) (f : world -> A) (Q : A -> world -> Prop) : (forall w, P w -> Q (f w) w) -> total P (gets f) Q.
Proof. intros HQ w Hq Hp. exists (f w), w. auto. Qed.

Lemma total_update (P : world -> Prop) f (Q : unit -> world -> Prop) :
  (forall w, w_sched (f w) = w_sched w) -> (forall w, P w -> Q tt (f w)) -> total P (modify f) Q.
Proof. intros Hs HQ w Hq Hp. exists tt, (f w). split; [reflexivity|]. split; [unfold quiet in *; rewrite Hs; exact Hq|auto]. Qed.

Lemma total_loop {A B} (I : list A -> B -> world -> Prop) (f : B -> A -> M B) :
  forall l, (forall acc x rest, x ∈ l -> total (I (x :: rest) acc) (f acc x) (I rest)) -> forall acc, total (I l acc) (forM l acc f) (I []).
Proof.
  induction l as [|x l IH]; intros Hf acc; cbn [forM]; [apply total_ret; auto|].
  eapply (total_mbind _ _ (fun acc => forM l acc f)); [apply Hf; left|]. intros acc'. apply IH. intros acc'' y rest Hy. apply Hf. right. exact Hy.
Qed.

Lemma total_call {A} P (f : world -> option A * world) (Q : A -> world -> Prop) :
  timeless P -> (forall w, P w -> exists a w', f w = (Some a, w') /\ w_sched w' = w_sched w /\ Q a w') -> total P (call f) Q.
Proof.
  intros Ht Hf w Hq Hp. destruct (Hf (tick 1 w) (Ht w Hp)) as (a & w' & He & Hs & Hr). exists a, w'.
  unfold call, next_turn. unfold quiet in Hq. rewrite Hq. cbn [t_env t_fate acts fold_left]. rewrite He.
  split; [reflexivity|]. split; [|exact Hr]. unfold quiet. rewrite Hs. exact Hq.
Qed.

Lemma total_meta_read {A} P s (f : Store -> A) (Q : A -> world -> Prop) :
  timeless P -> (forall w, P w -> exists st, w_stores w !! s = Some st /\ Q (f st) w) -> total P (meta_read s f) Q.
Proof.
  intros Ht Hf. apply total_call; [exact Ht|]. intros w Hp. destruct (Hf w Hp) as (st & Hs & HQ). exists (f st), w. rewrite Hs. auto.
Qed.

Lemma total_meta_write {A} P s (f : Z -> Store -> option (A * Store)) (Q : A -> world -> Prop) :
  timeless P -> (forall w, P w -> exists st a st', w_stores w !! s = Some st /\ f (w_now w) st = Some (a, st') /\ Q a (set_store s st' w)) ->
  total P (meta_write s f) Q.
Proof.
  intros Ht Hf. apply total_call; [exact Ht|]. intros w Hp. destruct (Hf w Hp) as (st & a & st' & Hs & He & HQ).
  exists a, (set_store s st' w). rewrite Hs, He. auto.
Qed.

Lemma total_ctx_err P : timeless P -> total P ctx_err (fun _ => P).
Proof. intros Ht. apply total_call; [exact Ht|]. intros w Hp. exists tt, w. auto. Qed.

Lemma total_on_gc (P : world -> Prop) f : (forall w y, P w -> P (set_tally y w)) -> total P (on_gc f) (fun _ => P).
Proof. intros HP. apply total_update; [reflexivity|]. intros w. apply HP. Qed.

(** ** Marking *)

(** The chunk the theorem is about. *)
Variable h0 : ContentHash.

Section marking.
Variable stores : gmap string Store.

Definition unseen (w : world) : Prop := w_stores w = stores /\ h0 ∉ g_db (w_gcs w) /\ h0 ∉ g_batch (w_gcs w).

Lemma timeless_unseen : timeless unseen.
Proof. intros w Hw. exact Hw. Qed.

Lemma total_flush : total unseen flushBatch (fun _ w => unseen w /\ g_batch (w_gcs w) = []).
Proof.
  eapply total_mbind.
  - apply total_try, (total_call _ _ (fun _ => unseen)); [apply timeless_unseen|]. intros w (Hs & Hd & Hb).
    eexists _, _. split; [reflexivity|]. split; [reflexivity|]. split; [exact Hs|]. cbn. split; [|exact Hb].
    rewrite elem_of_union, elem_of_list_to_set. tauto.
  - intros r. eapply total_mbind; [apply (total_update _ _ (fun _ w => is_Some r /\ unseen w /\ g_batch (w_gcs w) = [])); [reflexivity|]|].
    + destruct r; intros w Hw; [|contradiction]. split; [eauto|]. split; [|reflexivity]. destruct Hw as (Hs & Hd & _).
      split; [exact Hs|]. split; [exact Hd|apply not_elem_of_nil].
    + intros []. destruct r; [apply total_ret; intros w [_ Hw]; exact Hw|]. intros w _ [[? [=]] _].
Qed.

Lemma total_Add h : h <> h0 -> total unseen (gcs_Add h) (fun _ => unseen).
Proof.
  intros Hne. eapply total_mbind.
  - apply (total_call _ _ (fun _ => unseen)); [apply timeless_unseen|]. intros w (Hs & Hd & Hb).
    eexists _, _. split; [reflexivity|]. split; [reflexivity|]. split; [exact Hs|]. split; [exact Hd|]. cbn.
    rewrite elem_of_app, list_elem_of_singleton. intros [|Heq]; [contradiction|congruence].
  - intros []. eapply total_mbind; [apply (total_get _ _ (fun _ => unseen)); auto|]. intros n.
    destruct (_ <=? _)%nat; [|apply total_ret; auto]. eapply total_weaken; [|apply total_flush|]; [auto|]. intros a w [Hw _]. exact Hw.
Qed.

Lemma total_mark_hashes l : h0 ∉ l -> total unseen (mark_hashes l) (fun _ => unseen).
Proof.
  intros Hl. apply (total_loop (fun _ _ => unseen) _ l). intros [] h rest Hin.
  eapply total_mbind; [apply total_ctx_err, timeless_unseen|]. intros []. unfold addHash.
  destruct (IsZero h); [apply total_ret; auto|]. eapply total_mbind; [apply total_Add; congruence|]. intros [].
  apply total_on_gc. intros w y Hw. exact Hw.
Qed.

Lemma total_markPhase shares hold :
  shares <> [] -> (forall share, share ∈ shares -> exists s st, storeOf share = Some s /\ stores !! s = Some st /\ ~ referenced st h0) ->
  h0 <> zeroHash -> (forall l, hold = Some l -> h0 ∉ l) ->
  total unseen (markPhase shares hold) (fun _ w => unseen w /\ g_batch (w_gcs w) = []).
Proof.
  intros Hne Hsh Hz Hh.
  unfold markPhase. rewrite bool_decide_eq_false_2 by exact Hne. eapply total_mbind.
  { apply (total_loop (fun _ _ => unseen) _ shares). intros [] share rest Hin. destruct (Hsh share Hin) as (s & st & Hs & Hst & Hno).
    eapply total_mbind; [apply total_ctx_err, timeless_unseen|]. intros []. eapply total_mbind.
    { apply (total_call _ _ (fun s' w => s' = s /\ unseen w)); [apply timeless_unseen|]. intros w Hw. exists s, w. rewrite Hs. auto. }
    intros s'. eapply total_mbind.
    { apply (total_meta_read _ s' _ (fun l w => l = shuffle _ (snapshotBlockHashesLocked st) /\ unseen w)); [intros w Hw; exact Hw|].
      intros w [-> Hw]. exists st. pose proof Hw as (-> & _). auto. }
    intros l w Hq [-> Hw]. apply (total_mark_hashes (shuffle _ (snapshotBlockHashesLocked st))); [|exact Hq|exact Hw].
    intros Hin'. apply Hno. split; [exact Hz|]. exact (proj1 (elem_of_shuffle _ _) Hin'). }
  intros []. eapply total_mbind.
  { instantiate (1 := fun _ => unseen). destruct hold as [l|]; [|apply total_ret; auto].
    eapply total_mbind; [apply total_ctx_err, timeless_unseen|]. intros []. apply total_mark_hashes, Hh; reflexivity. }
  intros []. unfold FlushAdd. eapply total_mbind; [apply (total_get _ _ (fun l w => l = g_batch (w_gcs w) /\ unseen w)); auto|].
  intros l. destruct (bool_decide (l = [])) eqn:He.
  - apply bool_decide_eq_true in He as ->. apply total_ret. intros w [Hl Hw]. auto.
  - eapply total_weaken; [|apply total_flush|]; [intros w [_ Hw]; exact Hw|auto].
Qed.
End marking.
(** ** Sweeping *)

Definition unmarked_at (s : string) (w : world) : Prop := forall st, w_stores w !! s = Some st -> synced st !! h0 = None.

Definition marked_in (s : string) (w : world) : Prop :=
  exists st loc, w_stores w !! s = Some st /\ is_Some (synced st !! h0) /\ syncedLocators st !! h0 = Some loc /\ cl_BlockID loc <> [].

Section sweeping.
Variable idx : list string.

Definition present (w : world) : Prop := forall s, s ∈ idx -> is_Some (w_stores w !! s).

Lemma present_set_store s st w : present w -> present (set_store s st w).
Proof. intros Hp s' Hs'. cbn. apply lookup_insert_is_Some'. right. apply Hp, Hs'. Qed.

(** Reclaiming a chunk returns and keeps what a change of this chunk's marker in
    the store and of records keeps. *)
Section reclaiming.
Variable h : ContentHash.
Variable s : string.
Variable X : world -> Prop.
Hypothesis X_time : timeless X.
Hypothesis X_store : forall w st, X w -> w_stores w !! s = Some st -> X (set_store s (DeleteSynced st h) w).
Hypothesis X_records : forall w st r, X w -> w_stores w !! s = Some st -> X (set_store s (set_records st r) w).
Hypothesis X_remote : forall w r, X w -> X (set_remote r w).

Definition kept (w : world) : Prop := present w /\ X w.

Lemma timeless_kept : timeless kept.
Proof. intros w [Hp Hx]. split; [exact Hp|apply X_time, Hx]. Qed.

Lemma total_unmark : s ∈ idx -> total kept (store_DeleteSynced s h) (fun _ => kept).
Proof.
  intros Hs. apply total_meta_write; [apply timeless_kept|]. intros w [Hp Hx]. destruct (Hp s Hs) as [st Hst].
  exists st, tt, (DeleteSynced st h). split; [exact Hst|]. split; [reflexivity|]. split; [apply present_set_store, Hp|apply X_store; assumption].
Qed.

Lemma total_drop_record b : s ∈ idx -> total kept (store_DeleteBlockRecord s b) (fun _ => kept).
Proof.
  intros Hs. apply total_meta_write; [apply timeless_kept|]. intros w [Hp Hx]. destruct (Hp s Hs) as [st Hst].
  exists st, tt, (DeleteBlockRecord st b). split; [exact Hst|]. split; [reflexivity|]. split; [apply present_set_store, Hp|apply X_records; assumption].
Qed.

Definition recorded (b : BlockID) (w : world) : Prop := exists st, w_stores w !! s = Some st /\ is_Some (blockRecords st !! b).

Lemma total_decr b : total (fun w => kept w /\ recorded b w) (meta_write s (fun _ st => DecrLiveChunkCount st b 1)) (fun _ => kept).
Proof.
  apply total_meta_write; [intros w [Hk Hr]; split; [apply timeless_kept, Hk|exact Hr]|].
  intros w [[Hp Hx] (st & Hst & [rec Hr])]. unfold DecrLiveChunkCount. exists st. rewrite Hr. eexists _, _. split; [exact Hst|]. split; [reflexivity|].
  split; [apply present_set_store, Hp|apply X_records; assumption].
Qed.

(** The store resolves the chunk to a block. *)
Definition located (w : world) : Prop :=
  exists st loc, w_stores w !! s = Some st /\ GetLocator st h = Some loc /\ IsStandalone loc = false.

Lemma total_ReclaimDeadChunk (Y : Prop) : s ∈ idx ->
  total (fun w => kept w /\ (Y -> located w)) (ReclaimDeadChunk s h) (fun r w => kept w /\ (Y -> r.1 = true)).
Proof.
  intros Hs. eapply total_mbind.
  { apply (total_meta_read _ s _ (fun o w => kept w /\ (Y -> exists loc, o = Some loc /\ IsStandalone loc = false))).
    - intros w [Hk Hl]. split; [apply timeless_kept, Hk|exact Hl].
    - intros w [Hk Hl]. destruct (proj1 Hk s Hs) as [st Hst]. exists st. split; [exact Hst|]. split; [exact Hk|]. intros Hy.
      destruct (Hl Hy) as (st' & loc & Hst' & Hloc & Hsa). rewrite Hst in Hst'. injection Hst' as <-. exists loc. auto. }
  intros [loc|]; [|apply total_ret; intros w [Hk Hl]; split; [exact Hk|intros Hy; destruct (Hl Hy) as (? & [=] & _)]].
  destruct (IsStandalone loc) eqn:Hsa.
  { apply total_ret. intros w [Hk Hl]. split; [exact Hk|]. intros Hy. destruct (Hl Hy) as (loc' & [= <-] & Hsa'). congruence. }
  cbn zeta. eapply total_mbind.
  { apply (total_meta_read _ s _ (fun o w => kept w /\ (is_Some o -> recorded (cl_BlockID loc) w))).
    - intros w [Hk Hl]. split; [apply timeless_kept, Hk|exact Hl].
    - intros w [Hk _]. destruct (proj1 Hk s Hs) as [st Hst]. exists st. split; [exact Hst|]. split; [exact Hk|]. intros Hr. exists st. auto. }
  intros [rec|]; [|apply total_ret; intros w [Hk _]; auto].
  eapply total_mbind.
  { instantiate (1 := fun _ w => kept w /\ recorded (cl_BlockID loc) w). destruct (_ <=? 1); [apply total_ret; intros w [Hk Hr]; eauto|].
    apply total_meta_write; [intros w [Hk Hr]; split; [apply timeless_kept, Hk|exact Hr]|].
    intros w [[Hp Hx] Hr]. destruct (Hr (ex_intro _ rec eq_refl)) as (st & Hst & Hrec). exists st, tt, (DeleteSynced st h).
    split; [exact Hst|]. split; [reflexivity|]. split; [split; [apply present_set_store, Hp|apply X_store; assumption]|].
    exists (DeleteSynced st h). split; [apply lookup_insert_eq|exact Hrec]. }
  intros []. eapply total_mbind; [apply total_decr|]. intros n. destruct (n >? 0); [apply total_ret; auto|].
  eapply total_mbind.
  { apply (total_call _ _ (fun _ => kept)); [apply timeless_kept|]. intros w [Hp Hx]. eexists tt, _. split; [reflexivity|]. split; [reflexivity|].
    split; [exact Hp|apply X_remote, Hx]. }
  intros []. eapply total_mbind; [apply total_drop_record, Hs|]. intros []. eapply total_mbind; [apply total_unmark, Hs|]. intros [].
  apply total_ret. auto.
Qed.
End reclaiming.
(** *** A chunk of the sweep *)

(** What the reclaiming of [h] keeps. *)
Record closed (h : ContentHash) (X : world -> Prop) : Prop := mkClosed {
  cl_time : timeless X;
  cl_store : forall s w st, X w -> w_stores w !! s = Some st -> X (set_store s (DeleteSynced st h) w);
  cl_records : forall s w st r, X w -> w_stores w !! s = Some st -> X (set_store s (set_records st r) w);
  cl_remote : forall w r, X w -> X (set_remote r w);
  cl_tally : forall w y, X w -> X (set_tally y w);
}.

Lemma total_union h X u : closed h X -> (forall s, s ∈ u -> s ∈ idx) -> total (kept X) (union_ReclaimDeadChunk u h) (fun _ => kept X).
Proof.
  intros [Ht Hst Hr Hre _] Hu. apply (total_loop (fun _ _ => kept X) _ u). intros acc s rest Hin. eapply total_mbind.
  - eapply total_weaken; [|apply (total_ReclaimDeadChunk h s X Ht (Hst s) (Hr s) Hre False (Hu s Hin))|].
    + intros w Hk. split; [exact Hk|intros []].
    + intros a w Hk. exact Hk.
  - intros r. apply total_ret. intros w [Hk _]. exact Hk.
Qed.

Lemma total_multi_unmark h X : closed h X -> total (kept X) (multi_DeleteSynced idx h) (fun _ => kept X).
Proof.
  intros [Ht Hst _ _ _]. eapply total_mbind; [apply total_ctx_err, timeless_kept, Ht|]. intros []. eapply total_mbind.
  - apply (total_weaken _ (fun w => true = true /\ kept X w) _ _ (fun (ok : bool) w => ok = true /\ kept X w)); [auto| |intros a w Hw; exact Hw].
    apply (total_loop (fun _ (ok : bool) w => ok = true /\ kept X w) _ idx). intros ok s rest Hin w0 Hq0 [-> Hk0]. revert w0 Hq0 Hk0.
    change (total (kept X) (r ← try (store_DeleteSynced s h); ret (true && bool_decide (is_Some r))) (fun ok w => ok = true /\ kept X w)).
    eapply total_mbind; [apply total_try, (total_unmark h s X Ht (Hst s) Hin)|]. intros [[]|]; [apply total_ret; auto|intros w _ []].
  - intros ok w Hq [-> Hk]. exact (total_ret (kept X) tt (fun _ => kept X) (fun _ Hk => Hk) w Hq Hk).
Qed.

Lemma total_Has h X G : g_batch G = [] -> (forall w, X w -> w_gcs w = G) -> timeless X ->
  total (kept X) (gcs_Has h) (fun b w => b = bool_decide (h ∈ g_db G) /\ kept X w).
Proof.
  intros Hb HG Ht. eapply total_mbind.
  - unfold FlushAdd. eapply total_mbind; [apply (total_get _ _ (fun l w => l = [] /\ kept X w))|].
    { intros w [Hp Hx]. rewrite (HG w Hx), Hb. split; [reflexivity|split; assumption]. }
    intros l w Hq [-> Hk]. exact (total_ret (kept X) tt (fun _ => kept X) (fun _ Hk => Hk) w Hq Hk).
  - intros []. apply total_call; [apply timeless_kept, Ht|]. intros w [Hp Hx]. eexists _, w. split; [reflexivity|]. split; [reflexivity|].
    rewrite (HG w Hx). split; [reflexivity|split; assumption].
Qed.

Lemma total_tally h X f : closed h X -> total (kept X) (on_gc f) (fun _ => kept X).
Proof. intros Hc. apply total_on_gc. intros w y [Hp Hx]. split; [exact Hp|apply (cl_tally _ _ Hc), Hx]. Qed.

Lemma total_sweep_one o cutoff sample h t X G :
  closed h X -> g_batch G = [] -> (forall w, X w -> w_gcs w = G) -> (forall u s, BlockReclaimer o = Some u -> s ∈ u -> s ∈ idx) ->
  total (kept X) (sweep_one o idx cutoff sample h t) (fun _ => kept X).
Proof.
  intros Hc Hb HG Hu. unfold sweep_one. destruct (t =? 0); [apply total_ret; auto|]. destruct (t >? cutoff); [apply total_ret; auto|].
  eapply total_mbind; [apply total_try, (total_Has h X G Hb HG), Hc|]. intros [b|]; [|intros w _ []].
  apply (total_weaken _ (kept X) _ _ (fun _ => kept X)); [intros w [_ Hk]; exact Hk| |auto].
  destruct b; [apply total_ret; auto|]. destruct (DryRun o); [apply (total_tally h), Hc|].
  destruct (BlockReclaimer o) as [u|]; [|apply (total_tally h), Hc].
  eapply total_mbind; [apply total_try, (total_union h X u Hc), (fun s => Hu u s eq_refl)|].
  intros [[[|] freed]|]; [|apply (total_tally h), Hc|intros w _ []].
  eapply total_mbind; [apply total_try, (total_multi_unmark h X Hc)|]. intros [[]|]; [apply (total_tally h), Hc|intros w _ []].
Qed.
(** *** The chunk itself *)

Section chunk.
Variable G : GCState.
Hypothesis G_batch : g_batch G = [].
Hypothesis G_dead : h0 ∉ g_db G.
Variable s0 : string.

Definition gone (w : world) : Prop := w_gcs w = G /\ forall s, s ∈ idx -> unmarked_at s w.
Definition there (w : world) : Prop := w_gcs w = G /\ marked_in s0 w.

Lemma unmark_unmarked s s' st h w : unmarked_at s w -> w_stores w !! s' = Some st -> unmarked_at s (set_store s' (DeleteSynced st h) w).
Proof.
  intros Hu Hs' st'. cbn. rewrite lookup_insert_Some. intros [[<- <-]|[_ Hs]]; [|apply Hu, Hs]. cbn. rewrite lookup_delete_None. right. apply Hu, Hs'.
Qed.

Lemma closed_gone h : closed h gone.
Proof.
  constructor.
  - intros w Hw. exact Hw.
  - intros s w st [HG Hu] Hs. split; [exact HG|]. intros s' Hs'. apply unmark_unmarked; [apply Hu, Hs'|exact Hs].
  - intros s w st r [HG Hu] Hs. split; [exact HG|]. intros s' Hs' st'. cbn. rewrite lookup_insert_Some.
    intros [[<- <-]|[_ Hst']]; [apply (Hu s Hs' st Hs)|apply (Hu s' Hs' st' Hst')].
  - intros w r Hw. exact Hw.
  - intros w y Hw. exact Hw.
Qed.

Lemma marked_set_store s st st' w : marked_in s0 w -> w_stores w !! s = Some st ->
  (s = s0 -> synced st' !! h0 = synced st !! h0 /\ syncedLocators st' !! h0 = syncedLocators st !! h0) -> marked_in s0 (set_store s st' w).
Proof.
  intros (st0 & loc & Hst0 & Hsy & Hl & Hne) Hs Hsame. destruct (decide (s = s0)) as [->|Hns].
  - rewrite Hs in Hst0. injection Hst0 as <-. destruct (Hsame eq_refl) as [H1 H2]. exists st', loc. cbn. rewrite lookup_insert_eq, H1, H2. auto.
  - exists st0, loc. cbn. rewrite lookup_insert_ne by exact Hns. auto.
Qed.

Lemma closed_there h : h <> h0 -> closed h there.
Proof.
  intros Hne. constructor.
  - intros w Hw. exact Hw.
  - intros s w st [HG Hm] Hs. split; [exact HG|]. apply (marked_set_store s st); [exact Hm|exact Hs|]. intros _. cbn.
    rewrite !lookup_delete_ne by exact Hne. auto.
  - intros s w st r [HG Hm] Hs. split; [exact HG|]. apply (marked_set_store s st); auto.
  - intros w r Hw. exact Hw.
  - intros w y Hw. exact Hw.
Qed.

Definition safe (w : world) : Prop := w_gcs w = G.

Lemma closed_safe h : closed h safe.
Proof. constructor; [intros w Hw; exact Hw|intros s w st Hw _; exact Hw|intros s w st r Hw _; exact Hw|intros w r Hw; exact Hw|intros w y Hw; exact Hw]. Qed.

(** Its reclamation is done by some share. *)
Lemma total_union_h0 u : s0 ∈ u -> (forall s, s ∈ u -> s ∈ idx) ->
  total (kept there) (union_ReclaimDeadChunk u h0) (fun r w => r.1 = true /\ kept safe w).
Proof.
  intros Hin Hu. unfold union_ReclaimDeadChunk.
  set (J := fun (rest : list string) (acc : bool * Z) w => kept safe w /\ (acc.1 = true \/ s0 ∈ rest /\ marked_in s0 w)).
  apply (total_weaken _ (J u (false, 0)) _ _ (J [])).
  { intros w [Hp [HG Hm]]. split; [split; assumption|auto]. }
  2:{ intros r w [Hk [Hr|[Hn _]]]; [auto|apply not_elem_of_nil in Hn; contradiction]. }
  apply (total_loop J _ u). unfold J.
  intros [handled freed] s rest Hs. cbn [fst snd]. pose proof (closed_safe h0) as [Ht Hst Hr Hre _].
  destruct (decide (s = s0)) as [->|Hne].
  - eapply total_mbind.
    + eapply total_weaken; [|apply (total_ReclaimDeadChunk h0 s0 safe Ht (Hst s0) (Hr s0) Hre (handled <> true) (Hu s0 Hs))|intros a w Hw; exact Hw].
      intros w [Hk Hor]. split; [exact Hk|]. intros Hnot. destruct Hor as [|[_ (st & loc & Hs0 & [t Hsy] & Hl & Hb)]]; [contradiction|].
      exists st, loc. split; [exact Hs0|]. unfold GetLocator, locator_of. rewrite Hsy, Hl. split; [reflexivity|apply standalone_false, Hb].
    + intros [hd f]. apply total_ret. cbn [fst snd]. intros w [Hk Hy]. split; [exact Hk|]. left. destruct hd, handled; auto; apply Hy; discriminate.
  - (* another share: its marker may go, ours stays *)
    set (Y := fun w => w_gcs w = G /\ (handled = true \/ s0 ∈ rest /\ marked_in s0 w)).
    assert (HY : forall (st st' : Store) w, Y w -> w_stores w !! s = Some st -> Y (set_store s st' w)).
    { intros st st' w [HG Hor] Hst0. split; [exact HG|]. destruct Hor as [|[Hr0 Hm]]; [auto|]. right. split; [exact Hr0|].
      apply (marked_set_store s st); [exact Hm|exact Hst0|]. intros ->. contradiction. }
    eapply total_mbind.
    + eapply total_weaken; [|apply (total_ReclaimDeadChunk h0 s Y)|intros a w Hw; exact Hw].
      * intros w [[Hp HG] Hor]. split; [|instantiate (1 := False); intros []]. split; [exact Hp|]. split; [exact HG|].
        destruct Hor as [|[Hr0 Hm]]; [auto|]. right. rewrite elem_of_cons in Hr0. destruct Hr0 as [->|]; [contradiction|auto].
      * intros w Hw. exact Hw.
      * intros w st Hy Hst0. eapply HY; eassumption.
      * intros w st r Hy Hst0. eapply HY; eassumption.
      * intros w r Hy. exact Hy.
      * apply Hu, Hs.
    + intros [hd f]. apply total_ret. cbn [fst snd]. intros w [[Hp [HG Hor]] _]. split; [split; assumption|]. destruct hd; [left; reflexivity|].
      cbn [fst]. destruct Hor as [|[Hr0 Hm]]; auto.
Qed.

Lemma total_multi_unmark_h0 : total (kept safe) (multi_DeleteSynced idx h0) (fun _ => kept gone).
Proof.
  eapply total_mbind; [apply total_ctx_err, timeless_kept; intros w Hw; exact Hw|]. intros [].
  set (J := fun (rest : list string) (ok : bool) w => ok = true /\ kept safe w /\ forall s, s ∈ idx -> s ∈ rest \/ unmarked_at s w).
  eapply total_mbind.
  - apply (total_weaken _ (J idx true) _ _ (J [])); [intros w Hw; split; [reflexivity|]; auto| |intros a w Hw; exact Hw].
    apply (total_loop J _ idx). intros ok s rest Hin. eapply total_mbind.
    + apply total_try, (total_meta_write _ s _ (fun _ => J rest ok)); [intros w Hw; exact Hw|]. intros w (-> & [Hp HG] & Hu).
      destruct (Hp s Hin) as [st Hst]. exists st, tt, (DeleteSynced st h0). split; [exact Hst|]. split; [reflexivity|]. split; [reflexivity|].
      split; [split; [apply present_set_store, Hp|exact HG]|]. intros s' Hs'. destruct (decide (s' = s)) as [->|Hne].
      * right. intros st'. cbn. rewrite lookup_insert_eq. intros [= <-]. apply lookup_delete_eq.
      * destruct (Hu s' Hs') as [Hr|Hu']; [rewrite elem_of_cons in Hr; destruct Hr; [contradiction|auto]|]. right. apply unmark_unmarked; assumption.
    + intros [[]|]; [|intros w _ []]. apply total_ret. intros w (-> & Hk & Hu). split; [reflexivity|]. auto.
  - intros ok w Hq (-> & [Hp HG] & Hu). apply (total_ret (kept gone) tt (fun _ => kept gone)); [auto|exact Hq|]. split; [exact Hp|]. split; [exact HG|].
    intros s Hs. destruct (Hu s Hs) as [Hn|]; [apply not_elem_of_nil in Hn; contradiction|assumption].
Qed.

Lemma total_sweep_h0 o cutoff sample t u :
  DryRun o = false -> BlockReclaimer o = Some u -> s0 ∈ u -> (forall s, s ∈ u -> s ∈ idx) -> t <> 0 -> t <= cutoff ->
  total (kept there) (sweep_one o idx cutoff sample h0 t) (fun _ => kept gone).
Proof.
  intros Hdry Hrec Hin Hu Ht0 Ht. unfold sweep_one. destruct (Z.eqb_spec t 0); [contradiction|]. destruct (Z.gtb_spec t cutoff); [lia|].
  eapply total_mbind; [apply total_try, (total_Has h0 there G G_batch); [intros w [HG _]; exact HG|intros w Hw; exact Hw]|].
  intros [b|]; [|intros w _ []]. rewrite bool_decide_eq_false_2 by exact G_dead. intros w0 Hq0 [-> Hk0]. revert w0 Hq0 Hk0.
  rewrite Hdry, Hrec.
  change (total (kept there) (r ← try (union_ReclaimDeadChunk u h0);
    match r with
    | Some (true, freed) => d ← try (multi_DeleteSynced idx h0); match d with Some _ => swept_one freed | None => addError end
    | _ => addError
    end) (fun _ => kept gone)).
  eapply total_mbind; [apply total_try, (total_union_h0 u Hin Hu)|]. intros [[hd freed]|]; [|intros w _ []]. intros w0 Hq0 [Hhd Hk0]. cbn in Hhd. subst hd.
  revert w0 Hq0 Hk0. change (total (kept safe) (d ← try (multi_DeleteSynced idx h0); match d with Some _ => swept_one freed | None => addError end) (fun _ => kept gone)).
  eapply total_mbind; [apply total_try, total_multi_unmark_h0|]. intros [[]|]; [|intros w _ []]. apply (total_tally h0), closed_gone.
Qed.

Lemma total_sweep_loop o cutoff sample u l :
  DryRun o = false -> BlockReclaimer o = Some u -> s0 ∈ u -> (forall s, s ∈ u -> s ∈ idx) ->
  Forall (fun e => e.1 = h0 -> e.2 <> 0 /\ e.2 <= cutoff) l -> h0 ∈ map fst l ->
  total (kept there) (forM l tt (fun _ e => _ ← ctx_err; _ ← scanned_one; sweep_one o idx cutoff sample e.1 e.2)) (fun _ => kept gone).
Proof.
  intros Hdry Hrec Hin Hu Hl Hh0.
  set (J := fun (rest : list (ContentHash * Z)) (_ : unit) w => present w /\ (gone w \/ h0 ∈ map fst rest /\ there w)).
  apply (total_weaken _ (J l tt) _ _ (J [])); [intros w [Hp Ht]; split; auto| |intros a w [Hp [Hg|[Hn _]]]; [split; assumption|apply not_elem_of_nil in Hn; contradiction]].
  apply (total_loop J _ l). intros [] [h t] rest Hinl.
  eapply total_mbind; [apply total_ctx_err; intros w Hw; exact Hw|]. intros [].
  eapply total_mbind; [apply total_on_gc; intros w y Hw; exact Hw|]. intros [].
  intros w Hq [Hp Hor]. cbn [fst snd].
  assert (Hfin : forall X, closed h X -> (forall w, X w -> w_gcs w = G) -> X w -> exists a w', sweep_one o idx cutoff sample h t w = (Ret a, w') /\ quiet w' /\ kept X w').
  { intros X HX HG Hx. apply (total_sweep_one o cutoff sample h t X G HX G_batch HG); [intros u' s Hu'; rewrite Hrec in Hu'; injection Hu' as <-; apply Hu|exact Hq|split; assumption]. }
  destruct Hor as [Hg|[Hrest Hth]].
  - destruct (Hfin gone (closed_gone h) (fun w Hw => proj1 Hw) Hg) as (a & w' & He & Hq' & Hp' & Hg'). exists a, w'. split; [exact He|]. split; [exact Hq'|]. split; auto.
  - destruct (decide (h = h0)) as [->|Hne].
    + destruct (proj1 (Forall_forall _ _) Hl (h0, t) Hinl eq_refl) as [Ht0 Ht].
      destruct (total_sweep_h0 o cutoff sample t u Hdry Hrec Hin Hu Ht0 Ht w Hq (conj Hp Hth)) as (a & w' & He & Hq' & Hp' & Hg').
      exists a, w'. split; [exact He|]. split; [exact Hq'|]. split; auto.
    + destruct (Hfin there (closed_there h Hne) (fun w Hw => proj1 Hw) Hth) as (a & w' & He & Hq' & Hp' & Hg').
      exists a, w'. split; [exact He|]. split; [exact Hq'|]. split; [exact Hp'|]. right. split; [|exact Hg'].
      cbn in Hrest. rewrite elem_of_cons in Hrest. destruct Hrest as [->|]; [contradiction|assumption].
Qed.
End chunk.
End sweeping.
(** *** The entries of the sweep *)

Section entries.
Variable stores : gmap string Store.
Variable good : Z -> Prop.

Definition good_times (idx : list string) : Prop := forall s st t, s ∈ idx -> stores !! s = Some st -> synced st !! h0 = Some t -> good t.

Lemma keep_latest_good l : forall m, (forall loc t, (h0, loc, t) ∈ l -> good t) -> (forall e, m !! h0 = Some e -> good e.2) ->
  (forall e, fold_left keep_latest l m !! h0 = Some e -> good e.2) /\
  (is_Some (m !! h0) \/ (exists loc t, (h0, loc, t) ∈ l) -> is_Some (fold_left keep_latest l m !! h0)).
Proof.
  induction l as [|[[h loc] t] l IH]; intros m Hl Hm; cbn [fold_left].
  { split; [exact Hm|]. intros [|(loc & t & Hin)]; [assumption|]. apply not_elem_of_nil in Hin. contradiction. }
  assert (Hone : (forall e, keep_latest m (h, loc, t) !! h0 = Some e -> good e.2) /\ (is_Some (m !! h0) \/ h = h0 -> is_Some (keep_latest m (h, loc, t) !! h0))).
  { assert (Hins : (forall e, <[h := (loc, t)]> m !! h0 = Some e -> good e.2) /\ (is_Some (m !! h0) \/ h = h0 -> is_Some (<[h := (loc, t)]> m !! h0))).
    { split; [|rewrite lookup_insert_is_Some'; tauto]. intros e. rewrite lookup_insert_Some. intros [[-> <-]|[_ He]]; [|apply Hm, He].
      apply (Hl loc t). rewrite elem_of_cons. auto. }
    unfold keep_latest. destruct (m !! h) as [[loc' t']|] eqn:Hmh; [destruct (t >? t')|]; [exact Hins| |exact Hins].
    split; [exact Hm|]. intros [|Heq]; [assumption|]. subst h. eauto. }
  destruct Hone as [Hg Hp]. destruct (IH (keep_latest m (h, loc, t))) as [IHg IHp]; [|exact Hg|].
  { intros loc' t' Hin. apply (Hl loc' t'). rewrite elem_of_cons. auto. }
  split; [exact IHg|]. intros [Hm0|(loc' & t' & Hin)]; apply IHp; [left; apply Hp; auto|]. rewrite elem_of_cons in Hin.
  destruct Hin as [Heq|Hin]; [|eauto]. injection Heq as <- <- <-. left. apply Hp. auto.
Qed.

Lemma total_entries idx s0 G : s0 ∈ idx -> (forall s, s ∈ idx -> is_Some (stores !! s)) -> good_times idx ->
  (exists st, stores !! s0 = Some st /\ is_Some (synced st !! h0)) ->
  total (fun w => w_stores w = stores /\ w_gcs w = G) (multi_EnumerateSynced idx)
    (fun l w => (w_stores w = stores /\ w_gcs w = G) /\ Forall (fun e => e.1 = h0 -> good e.2) l /\ h0 ∈ map fst l).
Proof.
  intros Hin Hp Hgood (st0 & Hst0 & [t0 Ht0]). set (P := fun w : world => w_stores w = stores /\ w_gcs w = G).
  eapply total_mbind; [apply (total_ctx_err P); intros w Hw; exact Hw|]. intros [].
  set (J := fun (rest : list string) (m : gmap ContentHash (ChunkLocator * Z)) w => P w /\ (forall e, m !! h0 = Some e -> good e.2) /\ (s0 ∈ rest \/ is_Some (m !! h0))).
  eapply total_mbind.
  - apply (total_weaken _ (J idx ∅) _ _ (J [])); [intros w Hw; split; [exact Hw|]; split; [intros e; rewrite lookup_empty; discriminate|auto]| |intros a w Hw; exact Hw].
    apply (total_loop J _ idx). intros m s rest Hs. destruct (Hp s Hs) as [st Hst]. eapply total_mbind.
    + apply (total_meta_read _ s _ (fun l w => l = EnumerateSynced st /\ J (s :: rest) m w)); [intros w Hw; exact Hw|].
      intros w Hw. exists st. pose proof Hw as ((-> & _) & _). auto.
    + intros l. apply total_ret. intros w (-> & HP & Hm & Hor).
      destruct (keep_latest_good (EnumerateSynced st) m) as [Hg Hpres]; [|exact Hm|].
      { intros loc t Hl. apply EnumerateSynced_spec in Hl. apply (Hgood s st t Hs Hst Hl). }
      split; [exact HP|]. split; [exact Hg|]. destruct Hor as [Hr|Hsome]; [|right; apply Hpres; auto]. rewrite elem_of_cons in Hr.
      destruct Hr as [<-|Hr]; [|auto]. right. apply Hpres. right. rewrite Hst in Hst0. injection Hst0 as ->. exists (locator_of st0 h0), t0.
      unfold EnumerateSynced. apply list_elem_of_fmap. exists (h0, t0). split; [reflexivity|apply elem_of_map_to_list, Ht0].
  - intros m. apply total_ret. intros w (HP & Hm & Hor). destruct Hor as [Hn|[[loc t] Hmh]]; [apply not_elem_of_nil in Hn; contradiction|].
    split; [exact HP|]. split.
    + apply Forall_forall. intros [h t'] Hl. rewrite elem_of_shuffle in Hl. apply list_elem_of_fmap in Hl as ([h' [loc' t'']] & [= -> ->] & Hl).
      apply elem_of_map_to_list in Hl. cbn. intros ->. apply (Hm _ Hl).
    + apply list_elem_of_fmap. exists (h0, t). split; [reflexivity|]. rewrite elem_of_shuffle. apply list_elem_of_fmap.
      exists (h0, (loc, t)). split; [reflexivity|apply elem_of_map_to_list, Hmh].
Qed.
End entries.

(** ** A collection *)

(** The chunk is dead for a collection of the shares: nothing refers to it, no
    snapshot holds it, and its markers are older than the grace period. *)
Record collectable (shares : list string) (o : Options) (idx : list string) (s0 : string) (w : world) : Prop := mkCollectable {
  co_shares : shares <> [];
  co_dead : forall share, share ∈ shares -> exists s st, storeOf share = Some s /\ w_stores w !! s = Some st /\ ~ referenced st h0;
  co_zero : h0 <> zeroHash;
  co_hold : forall l, HoldProvider o = Some l -> h0 ∉ l;
  co_dry : DryRun o = false;
  co_index : SyncedHashIndex o = Some idx;
  co_reclaimer : exists u, BlockReclaimer o = Some u /\ s0 ∈ u /\ forall s, s ∈ u -> s ∈ idx;
  co_present : forall s, s ∈ idx -> is_Some (w_stores w !! s);
  co_in : s0 ∈ idx;
  co_marked : marked_in s0 w;
  co_old : forall s st t, s ∈ idx -> w_stores w !! s = Some st -> synced st !! h0 = Some t ->
    t <> 0 /\ t <= w_now w - resolveGracePeriod (GracePeriod o) (GracePeriodSet o);
}.

(** C7: a collection that nothing disturbs returns, and a chunk that nothing
    refers to, that no snapshot holds and whose markers are older than the grace
    period has lost its marker in every share of the remote store. *)
Theorem dead_chunk_collected shares o idx s0 w : quiet w -> collectable shares o idx s0 w ->
  exists w', collectGarbage shares o w = (Ret tt, w') /\ forall s, s ∈ idx -> unmarked_at s w'.
Proof.
  intros Hq [Hsh Hdead Hz Hhold Hdry Hidx (u & Hu & Hs0u & Huidx) Hpres Hin Hmark Hold].
  set (cutoff := w_now w - resolveGracePeriod (GracePeriod o) (GracePeriodSet o)) in *.
  set (P := fun w1 : world => w_stores w1 = w_stores w /\ w_now w <= w_now w1).
  enough (total (fun w1 => w1 = w) (collectGarbage shares o) (fun _ w' => forall s, s ∈ idx -> unmarked_at s w')) as Htot.
  { destruct (Htot w Hq eq_refl) as ([] & w' & He & _ & Hun). exists w'. auto. }
  eapply total_mbind.
  { apply (total_weaken _ P _ _ (fun g w1 => is_Some g /\ unseen (w_stores w) w1 /\ w_now w <= w_now w1)); [intros w1 ->; split; [reflexivity|lia]| |intros a w1 Hw; exact Hw].
    eapply total_mbind; [apply (total_on_gc P); intros w1 y Hw; exact Hw|]. intros [].
    eapply total_weaken; [intros w1 Hw; exact Hw|apply total_try, (total_call P _ (fun _ w1 => unseen (w_stores w) w1 /\ w_now w <= w_now w1))|].
    - intros w1 [Hs Hn]. split; [exact Hs|cbn; lia].
    - intros w1 [Hs Hn]. eexists tt, _. split; [reflexivity|]. split; [reflexivity|]. cbn. split; [|exact Hn].
      split; [exact Hs|]. split; [apply not_elem_of_empty|apply not_elem_of_nil].
    - intros [[]|] w1 Hw; [split; [eauto|exact Hw]|contradiction]. }
  intros [[]|]; [|intros w1 _ [[? [=]] _]].
  eapply total_mbind; [apply (total_get _ _ (fun t w1 => w_now w <= t /\ unseen (w_stores w) w1)); intros w1 (_ & Hun & Hn); auto|].
  intros snap w1 Hq1 [Hsnap Hun1]. revert w1 Hq1 Hun1. 
  enough (total (unseen (w_stores w)) (m ← try (markPhase shares (HoldProvider o));
      match m with
      | None => addError
      | Some _ => sweepFromSyncedIndex o idx snap (resolveGracePeriod (GracePeriod o) (GracePeriodSet o)) (if DryRunSampleSize o <=? 0 then 1000 else DryRunSampleSize o)
      end) (fun _ w' => forall s, s ∈ idx -> unmarked_at s w')) as Hrest by (rewrite Hidx; exact Hrest).
  eapply total_mbind; [apply total_try, total_markPhase; assumption|]. intros [[]|]; [|intros w1 _ []].
  intros w1 Hq1 [(Hst & Hdb & _) Hb]. set (G := w_gcs w1).
  assert (Hsweep : total (fun w2 => w_stores w2 = w_stores w /\ w_gcs w2 = G)
    (sweepFromSyncedIndex o idx snap (resolveGracePeriod (GracePeriod o) (GracePeriodSet o)) (if DryRunSampleSize o <=? 0 then 1000 else DryRunSampleSize o))
    (fun _ w' => forall s, s ∈ idx -> unmarked_at s w')); [|apply (Hsweep w1 Hq1); split; [exact Hst|reflexivity]].
  unfold sweepFromSyncedIndex. eapply total_mbind.
  { apply total_try. eapply total_mbind.
    - apply (total_entries (w_stores w) (fun t => t <> 0 /\ t <= cutoff) idx s0 G); [exact Hin|exact Hpres|exact Hold|].
      destruct Hmark as (st & loc & Hs0 & Hsy & _). eauto.
    - intros l w2 Hq2 ((Hst2 & HG2) & Hl & Hh0). revert Hq2. intros Hq2.
      refine (total_sweep_loop idx G Hb Hdb s0 o _ _ u l Hdry Hu Hs0u Huidx _ Hh0 w2 Hq2 _).
      + eapply Forall_impl; [exact Hl|]. cbn. intros e He Heq. destruct (He Heq). split; [assumption|]. unfold cutoff in *. lia.
      + split; [intros s Hs; rewrite Hst2; apply Hpres, Hs|]. split; [exact HG2|].
        destruct Hmark as (st & loc & Hs0 & Hrest). exists st, loc. rewrite Hst2. auto. }
  intros [[]|]; [|intros w2 _ []]. apply total_ret. intros w2 [_ [_ Hgone]]. exact Hgone.
Qed.
End live.
