(* ===== verification/BlockExamples.v ===== *)
(** * Remote blocks on concrete servers

    What the theorems of [BlockRun] say on a concrete server, and runs in which
    maintenance and the other threads disagree. *)

From S2P Require Import Prelude.
From S2P Require Import HoleMap.
From S2P Require Import JournalCarve.
From S2P Require Import BlockCodec.
From S2P Require Import BlockMeta.
From S2P Require Import BlockWorld.
From S2P Require Import BlockMaint.
From S2P Require Import BlockInv.
From S2P Require Import BlockSafe.
From S2P Require Import BlockCollect.
From S2P Require Import BlockRun.
From S2P Require Import BlockLive.

(** ** A deployment *)

(** A hash that is the beginning of its input, no compression, two shares. *)
#[local] Instance demo_deployment : Deployment := {
  Sum256 d := take 32 (d ++ replicate 32 0);
  SealChunk h d := if Z.of_nat (length d) <? 2 ^ 64 then Some d else None;
  OpenChunk h w := Some w;
  storeOf share := if bool_decide (share = "/docs"%string) then Some "docs"%string
                   else if bool_decide (share = "/media"%string) then Some "media"%string else None;
  shuffle A l := l;
}.

#[local] Instance demo_laws : DeploymentLaws.
Proof.
  constructor.
  - intros d. unfold Sum256, demo_deployment. rewrite length_take, length_app, length_replicate. lia.
  - intros h d w. cbn. destruct (Z.ltb_spec (Z.of_nat (length d)) (2 ^ 64)); [|discriminate]. intros [= <-].
    split; [reflexivity|]. split; [auto|]. unfold in_u64. lia.
  - intros A l. reflexivity.
Qed.

Definition demo_start : world :=
  mkWorld {["docs" := emptyStore; "media" := emptyStore]} ∅ 1000 (mkGCState ∅ []) (mkTally emptyStats emptyCompact emptyReclaim)
    [[1]; [2]; [3]; [4]] ∅ [].

Definition chunk (fid : string) (off : Z) (data : list Z) : @CarveChunk ContentHash := mkChunk (Sum256 data) fid off data.

Definition report : list Z := [11; 12; 13].
Definition photo : list Z := [21; 22].

Definition quiet_turns (n : nat) : list turn := replicate n (mkTurn [] Succeeds).
Definition demo_request : GCRequest := mkGCRequest false 0 true 0.
Definition demo_compact : CompactOptions := mkCompactOptions true (fun live len => 2 * live <? len) false.
Definition demo_gc (shares : list string) : M unit := runBlockGC shares demo_request None demo_compact.

(** A block with a chunk of each of two files, the first of which goes. *)
Definition two_files : world :=
  (CommitBlock "docs" [chunk "p1" 0 report; chunk "p2" 0 photo] demo_start).2.
Definition one_left : world := act (ADeleteRow "docs" "p1/0") two_files.
Definition collected_once : world := (demo_gc ["/docs"; "/media"] one_left).2.

Definition object_ids (w : world) : list BlockID := map fst (map_to_list (w_remote w)).

Example collection_and_compaction :
  (object_ids two_files, object_ids collected_once, BytesFreed (t_gc (w_tally collected_once)),
   ObjectsSwept (t_gc (w_tally collected_once)), ChunksMoved (t_compact (w_tally collected_once)),
   (dispatchRemoteFetch "docs" (Sum256 report) collected_once).1,
   (dispatchRemoteFetch "docs" (Sum256 photo) collected_once).1) =
  ([[1]], [[2]], 0, 1, 1, Ret NotSynced, Ret (Fetched photo)).
Proof. vm_compute. reflexivity. Qed.

(** ** The theorems on this server *)

Lemma chunk_valid fid off data : data <> [] -> valid_chunk (chunk fid off data).
Proof. intros Hne. split; [reflexivity|exact Hne]. Qed.

Lemma demo_fresh : fresh_world demo_start.
Proof.
  split; [|split; [reflexivity|split; [reflexivity|split; [|split; [|constructor]]]]].
  - intros s st. cbn. rewrite lookup_insert_Some, lookup_singleton_Some. intros [[_ <-]|[_ [_ <-]]]; reflexivity.
  - repeat constructor; rewrite ?elem_of_cons; intros Hin; decompose [or] Hin; try discriminate; eapply not_elem_of_nil; eassumption.
  - repeat constructor; discriminate.
Qed.

Lemma two_files_reachable : reachable two_files.
Proof.
  apply reach_commit; [apply reach_fresh, demo_fresh|repeat constructor; discriminate|reflexivity].
Qed.

Lemma one_left_calm : w_inflight (at_snapshot ["/docs"; "/media"] one_left) = ∅ /\ w_sched (at_snapshot ["/docs"; "/media"] one_left) = [].
Proof. split; vm_compute; reflexivity. Qed.

Lemma remote_chunks_readable_witness :
  exists st, w_stores collected_once !! "docs"%string = Some st /\ referenced st (Sum256 photo) /\ reads_back collected_once "docs" (Sum256 photo).
Proof.
  destruct (w_stores collected_once !! "docs"%string) as [st|] eqn:Hst; [|vm_compute in Hst; discriminate].
  assert (Href : referenced st (Sum256 photo)).
  { split; [discriminate|]. assert (Hin : option_map (fun st => bool_decide (Sum256 photo ∈ snapshotBlockHashesLocked st)) (w_stores collected_once !! "docs"%string) = Some true)
      by (vm_compute; reflexivity). rewrite Hst in Hin. injection Hin as Hin. apply bool_decide_eq_true in Hin. exact Hin. }
  exists st. split; [reflexivity|]. split; [exact Href|].
  apply (remote_chunks_readable collected_once) with (st := st); [|exact Hst|exact Href].
  unfold collected_once, demo_gc. apply (reach_gc one_left); [unfold one_left; apply reach_act; [apply two_files_reachable|exact I]|].
  intros h Hup _. exfalso. destruct one_left_calm as [Hf Hs]. destruct Hup as [(id & up & Hid & _)|(t & s & chunks & c & Ht & _)].
  - rewrite Hf, lookup_empty in Hid. discriminate Hid.
  - rewrite Hs in Ht. apply not_elem_of_nil in Ht. exact Ht.
Defined.

Lemma committed_chunks_readable_witness :
  exists w', CommitBlock "docs" [chunk "p1" 0 report] demo_start = (Ret tt, w') /\ reads_back w' "docs" (Sum256 report).
Proof.
  destruct (CommitBlock "docs" [chunk "p1" 0 report] demo_start) as [[[]| |] w'] eqn:He; [|vm_compute in He; discriminate..].
  exists w'. split; [reflexivity|].
  apply (committed_chunks_readable "docs" [chunk "p1" 0 report] demo_start w') with (c := chunk "p1" 0 report).
  - apply reach_fresh, demo_fresh.
  - constructor; [apply chunk_valid; discriminate|constructor].
  - reflexivity.
  - exact He.
  - left.
  - discriminate.
Defined.

(** ** A crash while a block is dropped *)

(** One chunk, no longer referred to. *)
Definition one_dead : world := act (ADeleteRow "docs" "p1/0") (CommitBlock "docs" [chunk "p1" 0 report] demo_start).2.

Definition demo_options : Options := mkOptions false 0 true 0 None (Some ["docs"%string]) (Some ["docs"%string]).

Lemma dead_chunk_collected_witness :
  exists w', collectGarbage ["/docs"%string] demo_options one_dead = (Ret tt, w') /\ unmarked_at (Sum256 report) "docs" w'.
Proof.
  destruct (dead_chunk_collected (Sum256 report) ["/docs"%string] demo_options ["docs"%string] "docs" one_dead) as (w' & He & Hun).
  - vm_compute. reflexivity.
  - destruct (w_stores one_dead !! "docs"%string) as [st|] eqn:Hst; [|vm_compute in Hst; discriminate].
    assert (Hfacts : option_map (fun st => (snapshotBlockHashesLocked st, synced st !! Sum256 report, syncedLocators st !! Sum256 report)) (w_stores one_dead !! "docs"%string)
              = Some ([], Some 1003, Some (mkLocator [1] 40 3))) by (vm_compute; reflexivity).
    rewrite Hst in Hfacts. injection Hfacts as Hsnap Hsy Hl. constructor.
    + discriminate.
    + intros share Hin. apply list_elem_of_singleton in Hin as ->. exists "docs"%string, st. split; [reflexivity|]. split; [exact Hst|].
      intros [_ Hin]. rewrite Hsnap in Hin. apply not_elem_of_nil in Hin. exact Hin.
    + discriminate.
    + intros l [=].
    + reflexivity.
    + reflexivity.
    + exists ["docs"%string]. split; [reflexivity|]. split; [left|auto].
    + intros s Hin. apply list_elem_of_singleton in Hin as ->. exists st. exact Hst.
    + left.
    + exists st, (mkLocator [1] 40 3). split; [exact Hst|]. split; [eauto|]. split; [exact Hl|discriminate].
    + intros s st' t Hin. apply list_elem_of_singleton in Hin as ->. rewrite Hst. intros [= <-] Ht.
      assert (Some t = Some 1003) as [= ->] by (etransitivity; [symmetry; exact Ht|exact Hsy]).
      split; [discriminate|]. vm_compute. discriminate.
  - exists w'. split; [exact He|]. apply Hun. left.
Defined.

Definition crash_at (n : nat) (w : world) : world := set_sched (quiet_turns n ++ [mkTurn [] Crashes]) w.
Definition acting_at (n : nat) (l : list action) (w : world) : world := set_sched (quiet_turns n ++ [mkTurn l Succeeds]) w.

Definition has_marker (w : world) (s : string) (h : ContentHash) : bool :=
  match w_stores w !! s with Some st => IsSynced st h | None => false end.
Definition has_record (w : world) (s : string) (id : BlockID) : bool :=
  match w_stores w !! s with Some st => bool_decide (is_Some (blockRecords st !! id)) | None => false end.
Definition has_object (w : world) (id : BlockID) : bool := bool_decide (is_Some (w_remote w !! id)).
Definition refers (w : world) (s : string) (h : ContentHash) : bool :=
  match w_stores w !! s with Some st => bool_decide (h ∈ snapshotBlockHashesLocked st) | None => false end.

(** The server dies after [DeleteBlock] of the last chunk's block. *)
Definition died : world := (demo_gc ["/docs"] (crash_at 14 one_dead)).2.

(** The record is left, not the object; and the carver takes the chunk, which is
    gone, for stored: a file that is written with the same bytes uploads nothing. *)
Example crash_leaves_dangling_record :
  (has_object died [1], has_record died "docs" [1], has_marker died "docs" (Sum256 report)) = (false, true, true) /\
  (engine_IsChunkDurable "docs" (Sum256 report) died).1 = Ret true /\
  (dispatchRemoteFetch "docs" (Sum256 report) died).1 = Ret (ReadFailed ErrChunkNotFound).
Proof. vm_compute. auto. Qed.

(** ** A chunk that comes back during a collection *)

(** The marker is cleared by the reclaimer, a file is written with the same bytes
    and committed, and the sweep clears the marker again. *)
Definition back_again : world :=
  (demo_gc ["/docs"] (acting_at 17 [AUpload "docs" [chunk "p9" 0 report]; ACommit [2]] one_dead)).2.

Example new_marker_swept :
  has_marker (demo_gc ["/docs"] (crash_at 16 one_dead)).2 "docs" (Sum256 report) = false /\
  (has_object back_again [2], has_record back_again "docs" [2], refers back_again "docs" (Sum256 report)) = (true, true, true) /\
  (dispatchRemoteFetch "docs" (Sum256 report) back_again).1 = Ret NotSynced.
Proof. vm_compute. auto. Qed.

(** ** A reconciliation that waits for the lock *)

(** The identifiers are collected, a block is committed and two hours pass before
    the lock of the remote store is free: the block is older than the grace period
    and not among the identifiers. *)
Definition waited : world :=
  (ReconcileReclaim ["/docs"; "/media"] false 0
     (acting_at 5 [AUpload "docs" [chunk "p9" 0 photo]; ACommit [2]; ATick (2 * hour)] one_dead)).2.

Example reconcile_deletes_live_block :
  (has_object waited [2], has_record waited "docs" [2], refers waited "docs" (Sum256 photo)) = (false, true, true) /\
  Count (OrphanObjectsReclaimed (t_reclaim (w_tally waited))) = 1 /\
  (dispatchRemoteFetch "docs" (Sum256 photo) (set_sched [] waited)).1 = Ret (ReadFailed ErrChunkNotFound).
Proof. vm_compute. auto. Qed.

(** ** Bytes that are already remote *)

(** What a carve of the chunks does: those that are durable are not handed to the
    sink, and the rows at new offsets are not reaped. *)
Definition carve_chunks (s : string) (chunks : list (@CarveChunk ContentHash)) : M unit :=
  novel ← forM chunks [] (fun acc c => d ← engine_IsChunkDurable s (cc_Hash c); ret (if d : bool then acc else acc ++ [c]));
  CommitBlock s novel.

Definition row_hashes (w : world) (s payloadID : string) : list ContentHash :=
  match w_stores w !! s with Some st => map fc_Hash (listFileChunksLocked st payloadID) | None => [] end.

Definition original : world := (carve_chunks "docs" [chunk "p1" 0 report] demo_start).2.
Definition with_copy : world := act (AReap "docs" "p2" 0 3 [0]) (carve_chunks "docs" [chunk "p2" 0 report] original).2.
Definition original_gone : world := (demo_gc ["/docs"] (act (ADeleteRow "docs" "p1/0") with_copy)).2.

(** A second file with the same bytes gets no manifest row, and the chunk is
    collected when the first file goes. *)
Example copy_has_no_row :
  (row_hashes with_copy "docs" "p1", row_hashes with_copy "docs" "p2") = ([Sum256 report], []) /\
  (has_object original_gone [1], (dispatchRemoteFetch "docs" (Sum256 report) original_gone).1) = (false, Ret NotSynced).
Proof. vm_compute. auto. Qed.

(** A file overwritten with bytes that are already remote keeps the row of the
    bytes it had. *)
Definition overwritten : world :=
  act (AReap "docs" "p2" 0 3 [0]) (carve_chunks "docs" [chunk "p2" 0 report] (carve_chunks "docs" [chunk "p2" 0 photo] original).2).2.

Example overwrite_keeps_old_row : row_hashes overwritten "docs" "p2" = [Sum256 photo].
Proof. vm_compute. reflexivity. Qed.
